(* ===== verification/_CoqProject ===== *)
-Q . S2P
Prelude.v
Wire.v
FrameSink.v
Token.v
SpecialFinder.v
SerialFraming.v
KissFraming.v
MessagePack.v
MessagePackRoundtrip.v
Channel.v
LemireIndex.v
Dedup.v
DedupHeap.v
DeadlineHeap.v
Evidence.v
AppData.v
Columns.v
KeyedMap.v
ChannelTable.v
DeadlineColumn.v
ChannelTableFixed.v
ChannelReceive.v
Routes.v
RoutesIndexed.v
Links.v
LinkData.v
LinksInvariant.v
LinksFixed.v
LinksDue.v
LinksHeap.v
ChannelSend.v
ChannelSendProofs.v
ChannelTimeouts.v
Announce.v
Acceptance.v
Interfaces.v
Lifetime.v
Timing.v
RowTable.v
DueTable.v
PathRequests.v
PathRequestsProofs.v
PathRequestWire.v
AnnounceSchedule.v
AnnounceScheduleRows.v
AnnounceSchedulePlan.v
DestinationLimits.v
DestinationLimitsProofs.v
InterfaceLimits.v
InterfaceLimitsProofs.v
RoutingTable.v
RoutingTableInvariant.v
RoutingTableLearning.v
RoutingTableQueries.v
RoutingTableEvidence.v
RoutingTableSample.v
Upstream.v
UpstreamRegistry.v
LinkEvidence.v
ChannelTeardown.v
PathRequestIngress.v
PathRequestIngressProofs.v
IngressSample.v
ReverseRoutes.v
TransportedLinks.v
TransportedLinksProofs.v
AnnounceWire.v
AnnounceWireProofs.v
IngressClassify.v
Relay.v
RelayProofs.v
LinkHandshake.v
LinkHandshakeProofs.v
LinkRelay.v
LinkRelayProofs.v
RelaySample.v
HeldAnnounces.v
HeldAnnounceTables.v
HeldAnnouncesProofs.v
IdentityTables.v
