(* ===== verification/Prelude.v ===== *)
(** A verification of the core of Prns, an implementation of the Reticulum network stack
    ([prns-core/src/]).

    * The program

    A node receives frames from its interfaces, recovers packets from them, drops the packets it has
    seen, learns routes from announces and forwards, delivers or answers the rest.  [prns-core] is the
    part without I/O: the engine owns a set of tables and is called with packets, commands and
    deadlines.  Each table is a trait with several implementations, chosen at compile time: fixed
    arrays for microcontrollers, boxed arrays, and growing vectors for servers; small index
    structures make their lookups fast.

    Bytes from a link go through a framing decoder ([interfaces/framing/]) to the wire header
    ([wire/]); the packet hash ([routing/dedup/]) decides whether the packet is new; an announce
    is judged by the acceptance predicate ([routing/announce/acceptance.rs]) against what the routing
    table ([routing/table/]) knows, and learned into it; routes leave the table when they expire, when
    they are evicted and when they are dropped.

    * The development

    Every definition translates a Rust item and keeps its name where it can.  A trait is a [Class] of
    operations; what its clients rely on is a second class of laws over an abstract state, proved for
    each implementation ([Instance]s), so that the theorems about the clients hold for all of them.
    Loops that are not structural take fuel and end in [OutOfFuel] without it, out-of-range accesses
    are [Panic], so a theorem that a call is [Done _] says that it returns.  Integers are [Z] with the
    operations of their width written out ([saturating_add], [wrapping_add], [wrap]); plain arithmetic that can leave
    its width wraps around, as in the release builds of the workspace, which have no overflow checks.  [debug_assert!]s
    are not part of the release code and appear as hypotheses or invariants.

    Bytes and codecs:
    - [Wire] ([wire/]): flags, contexts, the packet header; parsing and writing are inverse and fail
      exactly on short input.
    - [FrameSink], [SpecialFinder], [SerialFraming], [KissFraming]
      ([interfaces/framing/]): the framings.  Encoded frames decode to themselves however the stream is
      cut, the decoder recovers after garbage, the word-at-a-time searches find what a scan finds.
    - [MessagePack], [MessagePackRoundtrip] ([message_pack/]): untrusted bytes decode within the limits
      and in bounded recursion, skipping agrees with decoding, encoded values decode to themselves for
      any encodings the [rmp] crate may choose.

    Index structures:
    - [LemireIndex] ([lemire_index/]): open addressing with backward-shift removal, fixed and growing;
      lookups and removals are exact.
    - [DeadlineHeap] ([routing/temporal_index/deadline_heap.rs]): a heap of rows with inverse positions;
      its invariant, its minimum and its search for due rows.
    - [Evidence] ([routing/routes/evidence.rs]): ids that are never issued while a route carries them.

    Packet identity:
    - [Dedup], [DedupHeap] ([routing/dedup/]): the packet hash survives relaying; the duplicate filter is
      specified by two generations of hashes, which three implementations simulate.

    Routing:
    - [Columns]: tables as parallel columns with removal by swapping in the last row.
    - [Routes], [RoutesIndexed] ([routing/routes/]), [AppData], [Announce] ([routing/announce/id.rs],
      [stored/]), [Lifetime] ([routing/warmth/], [routing/route_expiry/], [announce/defaults.rs]): the
      stores behind the routing table, each a class with laws and its instances.
    - [Acceptance] ([routing/announce/acceptance.rs]): which announces are accepted.
    - [RoutingTable] ([routing/table/]): the operations, over any stores.  [RoutingTableInvariant] has the
      invariant (the stores hold the same list of routes, with distinct destinations and payloads of their
      own) and the removals, [RoutingTableLearning] learning and refreshing, [RoutingTableQueries] lookups,
      that a learned announce is refused when replayed, and saving and seeding,
      [RoutingTableEvidence] single-route updates and the handles that find a route wherever it has moved,
      [RoutingTableSample] the theorems at a concrete table.


    Links and channels:
    - [Token] ([crypto/token.rs], [mac.rs]): sealing and opening, at once and as a stream; the cipher and the
      MAC are parameters.
    - [Links] ([routing/links/table/core.rs], the arithmetic of [maintenance.rs]): the phases of a link, its
      deadlines, the table as a class and every operation of [Links].  [LinksInvariant] shows that they are a
      state machine, [LinksFixed] and [LinksHeap] are the two tables ([table/impls/]), [LinksDue] shows that the
      sweep over due links ends and leaves none due.
    - [LinkData] ([routing/links/data.rs]): link packets, keepalives and close packets.
    - [Channel] ([routing/links/channel/mod.rs], [byte_stream.rs]): windows, envelopes, stream frames, retry
      timeouts.  [ChannelTable], [ChannelTableFixed] ([channel/table/]) are the table's contract and the
      fixed-array table.  [ChannelReceive] ([receive.rs]) refines a receiver that counts with unbounded numbers:
      messages are handed over in order, once each.  [ChannelSend] ([send.rs]) has the handlers for sends,
      delivery proofs and timeouts, [ChannelSendProofs] what each does to the channels, [ChannelTimeouts] that a
      proof settles one message and that resending ends.  [ChannelTeardown] ([send.rs], and of [maintenance.rs]
      [write_owed_link_close] and [retire_link]) has the whole of [fire_due_channel_timeouts], with the links it tears
      down, and what holds over any run: bounds, no panics, nothing left due.

    Limits, requests and interfaces:
    - [KeyedMap], [RowTable]: what the tables below share: a hash index beside columns, rows with distinct keys as
      a finite map, runs of a machine kept apart per key, rows in an array or a vector.
    - [DestinationLimits], [InterfaceLimits] ([routing/announce/destination_announce_limit/],
      [interface_announce_limit/], [routing/path_requests/interface_path_request_limit/]): announces and requests
      counted per destination and per interface.  Their [Proofs] files bound what is let through and show that
      slow senders are never limited.
    - [DeadlineColumn]: the deadline heap over a column of instants; its preorder walk ends.
    - [DueTable], [PathRequests] ([routing/path_requests/]): requests throttled, pending, forwarded and seen.
      [PathRequestsProofs] shows that each command is answered once, that the throttle
      lasts exactly its interval, and the maps and queues that the tables refine.  [PathRequestWire] has the packet,
      its parser and the command: a command fails and changes nothing, or is sent, pending and throttled.
    - [AnnounceSchedule] ([routing/announce/schedule/]): the queue of announces to send on, on bounded and on
      growing vectors; [AnnounceScheduleRows] is the contract of
      the rows, [AnnounceSchedulePlan] shows that both queues follow a plan of one active announce per
      destination with floods parked behind answers.
    - [Interfaces] ([interfaces/identity/], [policy/capabilities.rs], [descriptor/]): kinds, capabilities,
      bitrates.  [Timing] ([routing/timing.rs]): timeouts from bitrates.

    Announces and registered names:
    - [AnnounceWire], [AnnounceWireProofs] ([routing/announce/mod.rs], [wire.rs]): an announce is read as it was
      written, byte for byte, and is accepted exactly if it is signed.
    - [HeldAnnounces] ([routing/announce/held/]): announces parked during a burst.  [HeldAnnounceTables] has the
      contract of its table and its two designs, [HeldAnnouncesProofs] the refinement to a finite map, bounded per
      interface and in all, with no payload lost, shared or left behind.
    - [Upstream], [UpstreamRegistry] ([routing/upstream_app_destinations/]): the destinations of the apps on this
      node, a finite map over either table.
    - [IdentityTables] ([routing/blackhole/], [routing/group_keys/]): identities to ignore and keys of groups, as
      finite maps.

    Packets through the node:
    - [IngressClassify] ([routing/ingress/classification/mod.rs]): the header, the hash and the kind of what arrives; an
      announce that its owner signed is classified as that announce.
    - [PathRequestIngress], [PathRequestIngressProofs] ([routing/ingress/path_requests.rs]): the handler of path
      requests over the tables it uses; each call is a step of a specification on maps.
    - [LinkEvidence] ([engine/route_evidence.rs]): what links hear of their peers is handed to the routing table.
      [IngressSample] has the theorems of these two at a concrete engine.
    - [ReverseRoutes] ([routing/reverse_routes/]), [TransportedLinks], [TransportedLinksProofs]
      ([routing/links/transported.rs]): ways back for proofs, and the links carried for others: nothing is switched
      before the proof of its link came back.
    - [Relay], [RelayProofs] ([routing/ingress/forward.rs], and the transit of [dispatch/mod.rs] and [links.rs]):
      which packets go on and how, that duplicates do not, that a proof goes back where its packet came from.
    - [LinkHandshake], [LinkHandshakeProofs] ([routing/links/handshake.rs]): link requests and proofs as bytes.
      [LinkRelay], [LinkRelayProofs] ([routing/ingress/links.rs]): their transit; a link is opened only by a proof
      that its destination signed.  [RelaySample] has the theorems on relaying at a concrete node.

    * Fuel

    A probe of an index visits each bucket at most once: the fuel is the number of buckets plus one.  A
    sift moves along one path: the fuel is the heap's length.  A cull or a drop visits each row once: the
    fuel is the number of rows plus one.  The MessagePack decoder nests at most [maximum_depth + 2] calls.
    The sweep over due links serves each at most once, and the channel timeouts use up one of the tries left to
    the messages in flight at each step: the fuel is six times the messages plus one.
    In each case the theorems conclude [Done _].

    * Outside the sources

    SHA-256 ([Dedup], with its streaming law and its output length), Ed25519 ([AnnounceWire], with the length of
    its signatures and that a signature made is verified), AES-CBC and HMAC ([Token]), the [rmp] encoder
    ([MessagePackRoundtrip]) and the vectorised byte search ([SpecialFinder]) are parameters with their documented
    behaviour as laws; each has a concrete instance that the examples use.  The vectors of [heapless] and [alloc]
    are lists with their capacities written out.

    * Not modelled

    Roaring bitmaps are third-party, and with them the bucketed temporal index and two interface and expiry indexes
    that are sets of rows in that format; [RoutingTable] is proved over any index that keeps the contract.  The
    round-trip time of a link handshake is a floating-point number under encryption.  Links are modelled from their
    table on: establishing one as an endpoint ([routing/links/establish/]) and the resources and requests over it
    ([routing/links/resources/], [request/]) are not, nor are delivery to the apps, receipts and tunnels; of retiring a
    link, what it does to those tables is left out.  The announce handler ([routing/ingress/announce.rs]) also writes the
    destination identities and the tunnels; the parts it judges, learns, limits, parks and queues with are modelled each
    on its own, their sequence is not, nor is the engine's loop over commands and deadlines, nor the emission of own
    announces.  The packed payload arena does not keep the contract of payload stores when it replaces an empty payload
    ([AppData]); the theorems on the routing table are for stores that do.  Persistence, remote control, the
    runtime, the hosts, the language bindings and the interface drivers around the core are I/O and glue. *)

From stdpp Require Export base list numbers list_numbers option.
From Stdlib Require Export ZArith Lia.

(** * Results and panics

    [result E A] is Rust's [Result<A, E>].  [run A] is the outcome of code that can
    panic (an index out of range) or loop: fuel-bounded loops return [OutOfFuel] when
    the fuel ends, so a theorem that a call is [Done _] says that the code neither
    panics nor diverges. *)

Inductive result (E A : Type) : Type :=
  | Ok (a : A)
  | Err (e : E).
Arguments Ok {E A} _.
Arguments Err {E A} _.

#[global] Instance result_ret {E} : MRet (result E) := fun A a => Ok a.
#[global] Instance result_bind {E} : MBind (result E) := fun A B f m =>
  match m with Ok a => f a | Err e => Err e end.

Definition ok_or {E A} (e : E) (o : option A) : result E A :=
  match o with Some a => Ok a | None => Err e end.

Inductive run (A : Type) : Type :=
  | Done (a : A)
  | Panic
  | OutOfFuel.
Arguments Done {A} _.
Arguments Panic {A}.
Arguments OutOfFuel {A}.

#[global] Instance run_ret : MRet run := fun A a => Done a.
#[global] Instance run_bind : MBind run := fun A B f m =>
  match m with Done a => f a | Panic => Panic | OutOfFuel => OutOfFuel end.

#[global] Instance result_eq_dec {E A} `{EqDecision E, EqDecision A} :
  EqDecision (result E A).
Proof. solve_decision. Defined.
#[global] Instance run_eq_dec {A} `{EqDecision A} : EqDecision (run A).
Proof. solve_decision. Defined.

(** [xs[i]], [xs[i] = x], [&xs[a..b]], [xs[i..i + n].copy_from_slice(src)] on slices. *)

Definition index {A} (xs : list A) (i : nat) : run A :=
  match xs !! i with Some x => Done x | None => Panic end.

Definition store {A} (xs : list A) (i : nat) (x : A) : run (list A) :=
  if decide (i < length xs)%nat then Done (<[i := x]> xs) else Panic.

Definition slice {A} (xs : list A) (a b : nat) : run (list A) :=
  if decide (a ≤ b ∧ b ≤ length xs)%nat then Done (take (b - a) (drop a xs)) else Panic.

Definition copy_into {A} (xs : list A) (i : nat) (src : list A) : run (list A) :=
  if decide (i + length src ≤ length xs)%nat
  then Done (take i xs ++ src ++ drop (i + length src) xs) else Panic.

(** [split_first], [split_first_chunk::<N>], [split_at_checked] *)

Definition split_first {A} (xs : list A) : option (A * list A) :=
  match xs with [] => None | x :: rest => Some (x, rest) end.

Definition split_at_checked {A} (n : nat) (xs : list A) : option (list A * list A) :=
  if decide (n ≤ length xs)%nat then Some (take n xs, drop n xs) else None.

(** * Fixed-width unsigned integers, as [Z] *)

Definition in_width (w z : Z) : Prop := (0 ≤ z < 2 ^ w)%Z.
#[global] Instance in_width_dec w z : Decision (in_width w z).
Proof. unfold in_width. apply _. Defined.

Abbreviation is_u8 := (in_width 8).
Abbreviation is_u16 := (in_width 16).
Abbreviation is_u32 := (in_width 32).
Abbreviation is_u64 := (in_width 64).

Definition max_width (w : Z) : Z := (2 ^ w - 1)%Z.
Definition u64_max : Z := max_width 64.
Definition u32_max : Z := max_width 32.
Definition u16_max : Z := max_width 16.
(** The 64-bit targets' [usize::MAX]. *)
Definition usize_max : Z := max_width 64.

Definition wrap (w z : Z) : Z := (z mod 2 ^ w)%Z.
Definition saturating_add (w a b : Z) : Z := Z.min (a + b) (max_width w).
Definition saturating_sub (a b : Z) : Z := Z.max 0 (a - b).
Definition saturating_mul (w a b : Z) : Z := Z.min (a * b) (max_width w).
Definition wrapping_add (w a b : Z) : Z := wrap w (a + b).
Definition wrapping_sub (w a b : Z) : Z := wrap w (a - b).
(** [x << n] on a [w]-bit integer. *)
Definition shl (w x n : Z) : Z := wrap w (Z.shiftl x n).
(** [!x] on a [w]-bit integer. *)
Definition not_w (w x : Z) : Z := (max_width w - x)%Z.
Definition div_ceil (a b : Z) : Z := ((a + b - 1) / b)%Z.

(** [uN::from_le_bytes], [uN::from_be_bytes] *)
Fixpoint from_le_bytes (bs : list Z) : Z :=
  match bs with [] => 0 | b :: bs => b + 256 * from_le_bytes bs end%Z.
Definition from_be_bytes (bs : list Z) : Z := from_le_bytes (reverse bs).

(** [uN::to_le_bytes], [uN::to_be_bytes] of [n] bytes *)
Fixpoint to_le_bytes (n : nat) (z : Z) : list Z :=
  match n with O => [] | S n => (z mod 256)%Z :: to_le_bytes n (z / 256)%Z end.
Definition to_be_bytes (n : nat) (z : Z) : list Z := reverse (to_le_bytes n z).

(** [uN::trailing_zeros] on a [w]-bit integer. *)
Fixpoint pos_trailing_zeros (p : positive) : nat :=
  match p with xO p => S (pos_trailing_zeros p) | _ => 0 end.
Definition trailing_zeros (w : nat) (z : Z) : nat :=
  match z with Z0 => w | Zpos p | Zneg p => pos_trailing_zeros p end.

(** * Automation *)

Create HintDb prns discriminated.
Create Rewrite HintDb prns.

Ltac inv_run :=
  repeat match goal with
  | H : Done _ = Done _ |- _ => injection H as H
  | H : Done _ = Panic |- _ => discriminate H
  | H : Panic = Done _ |- _ => discriminate H
  | H : OutOfFuel = Done _ |- _ => discriminate H
  | H : Ok _ = Ok _ |- _ => injection H as H
  | H : Ok _ = Err _ |- _ => discriminate H
  | H : Err _ = Ok _ |- _ => discriminate H
  | H : Some _ = Some _ |- _ => injection H as H
  | H : None = Some _ |- _ => discriminate H
  | H : Some _ = None |- _ => discriminate H
  | H : (_, _) = (_, _) |- _ => injection H as H
  end; subst.

(** [run_binds]: a sequence of calls that is [Done] has each call [Done]. *)
Ltac run_binds :=
  repeat match goal with
  | |- mbind _ ?m = Done _ → _ => destruct m; cbn [mbind run_bind]; [|done|done]
  end.

(** [width] proves range goals of fixed-width arithmetic. *)
Ltac width :=
  unfold in_width, u64_max, u32_max, u16_max, usize_max,
    saturating_add, saturating_sub, saturating_mul, not_w, max_width in *; lia.

(** [conj] splits conjunctions only. *)
Ltac conj := repeat match goal with |- _ ∧ _ => split end.

(** * Shared lemmas *)

Lemma index_lookup {A} (xs : list A) i x : xs !! i = Some x → index xs i = Done x.
Proof. unfold index. by intros ->. Qed.

Lemma index_done {A} (xs : list A) i x : index xs i = Done x → xs !! i = Some x.
Proof. unfold index. case_match; intros; inv_run; congruence. Qed.

Lemma store_done {A} (xs : list A) i x :
  (i < length xs)%nat → store xs i x = Done (<[i := x]> xs).
Proof. unfold store. intros. by case_decide. Qed.

Lemma copy_into_done {A} (xs : list A) i src :
  (i + length src ≤ length xs)%nat →
  copy_into xs i src = Done (take i xs ++ src ++ drop (i + length src) xs).
Proof. unfold copy_into. intros. by case_decide. Qed.

(** Writing a field at the end of the part already written. *)
Lemma store_at {A} n (pre : list A) x y post :
  length pre = n → store (pre ++ y :: post) n x = Done (pre ++ x :: post).
Proof.
  intros <-. rewrite store_done by (rewrite length_app; simpl; lia).
  by rewrite insert_app_r_alt, Nat.sub_diag by lia.
Qed.

Lemma copy_at {A} n (pre xs src post : list A) :
  length pre = n → length xs = length src →
  copy_into (pre ++ xs ++ post) n src = Done (pre ++ src ++ post).
Proof.
  intros <- Hl. rewrite copy_into_done by (rewrite !length_app; lia).
  rewrite take_app_length. do 3 f_equal.
  rewrite <- Hl, app_assoc, <- length_app. apply drop_app_length.
Qed.

(** A buffer of at least [n] entries starts with a block of [n]. *)
Lemma split_block {A} n (xs : list A) :
  (n ≤ length xs)%nat → ∃ a b, xs = a ++ b ∧ length a = n.
Proof.
  intros. exists (take n xs), (drop n xs). rewrite take_drop, length_take_le; auto.
Qed.

Lemma slice_all {A} (xs : list A) : slice xs 0 (length xs) = Done xs.
Proof. unfold slice. rewrite decide_True by lia. by rewrite Nat.sub_0_r, drop_0, firstn_all. Qed.

Lemma slice_prefix {A} (xs ys : list A) n :
  length xs = n → slice (xs ++ ys) 0 n = Done xs.
Proof.
  intros <-. unfold slice. rewrite decide_True by (rewrite length_app; lia).
  by rewrite Nat.sub_0_r, drop_0, take_app_length.
Qed.

Lemma slice_suffix {A} (xs ys : list A) n :
  length xs = n → slice (xs ++ ys) n (length (xs ++ ys)) = Done ys.
Proof.
  intros <-. unfold slice. rewrite decide_True by (rewrite length_app; lia).
  rewrite drop_app_length, length_app. by rewrite take_ge by lia.
Qed.

Lemma index_app_r {A} (xs ys : list A) x n :
  length xs = n → index (xs ++ x :: ys) n = Done x.
Proof. intros <-. apply index_lookup. by rewrite lookup_app_r, Nat.sub_diag by lia. Qed.

Lemma split_at_checked_app {A} n (xs ys : list A) :
  length xs = n → split_at_checked n (xs ++ ys) = Some (xs, ys).
Proof.
  intros <-. unfold split_at_checked. rewrite length_app, decide_True by lia.
  by rewrite take_app_length, drop_app_length.
Qed.

Lemma split_at_checked_Some {A} n (xs ys zs : list A) :
  split_at_checked n xs = Some (ys, zs) → xs = ys ++ zs ∧ length ys = n.
Proof.
  unfold split_at_checked. case_decide; intros; inv_run.
  rewrite take_drop, length_take_le; auto.
Qed.

Lemma split_at_checked_cases {A} n (xs : list A) :
  (∃ ys zs, split_at_checked n xs = Some (ys, zs) ∧ xs = ys ++ zs ∧ length ys = n)
  ∨ (split_at_checked n xs = None ∧ (length xs < n)%nat).
Proof.
  destruct (split_at_checked n xs) as [[ys zs]|] eqn:E.
  - left. exists ys, zs. split; [done|]. by apply split_at_checked_Some.
  - right. split; [done|]. unfold split_at_checked in E. case_decide; [done|lia].
Qed.

Lemma in_width_wrap w z : (0 ≤ w)%Z → in_width w (wrap w z).
Proof. intros. apply Z.mod_pos_bound. lia. Qed.

Lemma wrap_small w z : in_width w z → wrap w z = z.
Proof. intros. by apply Z.mod_small. Qed.

Lemma from_le_bytes_app xs ys :
  from_le_bytes (xs ++ ys) = (from_le_bytes xs + 256 ^ Z.of_nat (length xs) * from_le_bytes ys)%Z.
Proof.
  induction xs as [|x xs IH]; cbn [app from_le_bytes length]; [by rewrite Z.mul_1_l|].
  rewrite IH, Nat2Z.inj_succ, Z.pow_succ_r by lia. lia.
Qed.

Lemma from_le_bytes_bound bs :
  Forall is_u8 bs → (0 ≤ from_le_bytes bs < 256 ^ Z.of_nat (length bs))%Z.
Proof.
  induction 1 as [|b bs Hb _ IH]; cbn [from_le_bytes length]; [lia|].
  rewrite Nat2Z.inj_succ, Z.pow_succ_r by lia. unfold in_width in Hb. lia.
Qed.

Lemma length_to_le_bytes n z : length (to_le_bytes n z) = n.
Proof. revert z. induction n as [|n IH]; intros z; cbn; [done|]. by rewrite IH. Qed.

Lemma to_le_bytes_u8 n z : Forall is_u8 (to_le_bytes n z).
Proof.
  revert z. induction n as [|n IH]; intros z; cbn; constructor; [|done].
  unfold in_width. apply Z.mod_pos_bound. lia.
Qed.

Lemma from_to_le_bytes n z :
  (0 ≤ z)%Z → from_le_bytes (to_le_bytes n z) = (z mod 256 ^ Z.of_nat n)%Z.
Proof.
  revert z. induction n as [|n IH]; intros z Hz; cbn [to_le_bytes from_le_bytes].
  { by rewrite Z.mod_1_r. }
  rewrite IH by (apply Z.div_pos; lia). rewrite Nat2Z.inj_succ, Z.pow_succ_r by lia.
  rewrite Z.rem_mul_r by lia. done.
Qed.

Lemma take_to_le_bytes m n z : m ≤ n → take m (to_le_bytes n z) = to_le_bytes m z.
Proof.
  revert n z. induction m as [|m IH]; intros [|n] z Hle; try done; [lia|].
  cbn. f_equal. apply IH. lia.
Qed.

Lemma length_to_be_bytes n z : length (to_be_bytes n z) = n.
Proof. unfold to_be_bytes. by rewrite length_reverse, length_to_le_bytes. Qed.

Lemma from_to_be_bytes n z :
  (0 ≤ z < 256 ^ Z.of_nat n)%Z → from_be_bytes (to_be_bytes n z) = z.
Proof.
  intros Hz. unfold from_be_bytes, to_be_bytes. rewrite reverse_involutive, from_to_le_bytes by lia.
  by apply Z.mod_small.
Qed.

(** A decidable fact about every byte, by enumeration. *)
Lemma u8_forall (P : Z → bool) :
  forallb P (seqZ 0 256) = true → ∀ b, is_u8 b → P b = true.
Proof.
  intros H b Hb. rewrite forallb_forall in H. apply H.
  apply list_elem_of_In, elem_of_seqZ. unfold in_width in Hb. lia.
Qed.

#[export] Hint Resolve index_lookup store_done in_width_wrap : prns.
#[export] Hint Rewrite @length_insert @length_app @length_cons @length_take @length_drop
  @length_replicate @length_fmap : prns.
