(* ===== verification/Wire.v ===== *)
(** The Reticulum wire header: [prns-core/src/wire/].

    Flag enumerations, the context byte, the packet header with its [parse] and
    [write], and the protocol's length limits.  Bytes are 8-bit [Z]s, the 16-byte
    address arrays are lists with their length in [header_wf]. *)

From S2P Require Import Prelude.
#[local] Open Scope Z_scope.

(** * Limits *)

Definition TRUNCATED_HASH_BYTE_LEN : nat := 16.
Definition BROADCAST_MTU : nat := 500.
Definition MAX_HOP_COUNT : Z := 128.
Definition wire_hop_count_is_valid (hops : Z) : bool := hops <? MAX_HOP_COUNT.
Definition HEADER_MIN_LEN : nat := 2 + TRUNCATED_HASH_BYTE_LEN + 1.
Definition HEADER_MAX_LEN : nat := 2 + TRUNCATED_HASH_BYTE_LEN * 2 + 1.
Definition IFAC_MIN_LEN : nat := 1.
Definition BROADCAST_MDU : nat := BROADCAST_MTU - HEADER_MAX_LEN - IFAC_MIN_LEN.

(** * Flags *)

Inductive ContextFlag := ContextUnset | ContextSet.
Definition ContextFlag_as_u8 (f : ContextFlag) : Z :=
  match f with ContextUnset => 0 | ContextSet => 1 end.
Definition ContextFlag_from_bits (bits : Z) : ContextFlag :=
  match Z.land bits 1 with 0 => ContextUnset | _ => ContextSet end.

Inductive PropagationType := Broadcast | Transport.
Definition PropagationType_as_u8 (p : PropagationType) : Z :=
  match p with Broadcast => 0 | Transport => 1 end.
Definition PropagationType_from_bits (bits : Z) : PropagationType :=
  match Z.land bits 1 with 0 => Broadcast | _ => Transport end.

Inductive DestinationType := Single | Group | Plain | Link.
Definition DestinationType_as_u8 (d : DestinationType) : Z :=
  match d with Single => 0 | Group => 1 | Plain => 2 | Link => 3 end.
Definition DestinationType_from_bits (bits : Z) : DestinationType :=
  match Z.land bits 3 with 0 => Single | 1 => Group | 2 => Plain | _ => Link end.

Inductive PacketType := Data | Announce | LinkRequest | Proof_.
Definition PacketType_as_u8 (p : PacketType) : Z :=
  match p with Data => 0 | Announce => 1 | LinkRequest => 2 | Proof_ => 3 end.
Definition PacketType_from_bits (bits : Z) : PacketType :=
  match Z.land bits 3 with 0 => Data | 1 => Announce | 2 => LinkRequest | _ => Proof_ end.

Inductive IfacFlag := Open | Authenticated.
Definition IfacFlag_as_u8 (f : IfacFlag) : Z :=
  match f with Open => 0 | Authenticated => 1 end.
Definition IfacFlag_from_bits (bits : Z) : IfacFlag :=
  match Z.land bits 1 with 0 => Open | _ => Authenticated end.

#[global] Instance ContextFlag_eq_dec : EqDecision ContextFlag.
Proof. solve_decision. Defined.
#[global] Instance PropagationType_eq_dec : EqDecision PropagationType.
Proof. solve_decision. Defined.
#[global] Instance DestinationType_eq_dec : EqDecision DestinationType.
Proof. solve_decision. Defined.
#[global] Instance PacketType_eq_dec : EqDecision PacketType.
Proof. solve_decision. Defined.
#[global] Instance IfacFlag_eq_dec : EqDecision IfacFlag.
Proof. solve_decision. Defined.

(** * Context byte *)

Inductive WireContext :=
  | CtxNone | CtxResource | CtxResourceAdvertisement | CtxResourceRequest
  | CtxResourceHashUpdate | CtxResourceProof | CtxResourceInitiatorCancel
  | CtxResourceReceiverCancel | CtxCacheRequest | CtxRequest | CtxResponse
  | CtxPathResponse | CtxCommand | CtxCommandStatus | CtxChannel | CtxKeepAlive
  | CtxLinkIdentify | CtxLinkClose | CtxLinkProof | CtxLinkRtt | CtxLinkRequestProof
  | CtxUnknown (byte : Z).

#[global] Instance WireContext_eq_dec : EqDecision WireContext.
Proof. solve_decision. Defined.

Definition WireContext_from_byte (byte : Z) : WireContext :=
  match byte with
  | 0x00 => CtxNone
  | 0x01 => CtxResource
  | 0x02 => CtxResourceAdvertisement
  | 0x03 => CtxResourceRequest
  | 0x04 => CtxResourceHashUpdate
  | 0x05 => CtxResourceProof
  | 0x06 => CtxResourceInitiatorCancel
  | 0x07 => CtxResourceReceiverCancel
  | 0x08 => CtxCacheRequest
  | 0x09 => CtxRequest
  | 0x0A => CtxResponse
  | 0x0B => CtxPathResponse
  | 0x0C => CtxCommand
  | 0x0D => CtxCommandStatus
  | 0x0E => CtxChannel
  | 0xFA => CtxKeepAlive
  | 0xFB => CtxLinkIdentify
  | 0xFC => CtxLinkClose
  | 0xFD => CtxLinkProof
  | 0xFE => CtxLinkRtt
  | 0xFF => CtxLinkRequestProof
  | other => CtxUnknown other
  end.

Definition WireContext_to_byte (c : WireContext) : Z :=
  match c with
  | CtxNone => 0x00
  | CtxResource => 0x01
  | CtxResourceAdvertisement => 0x02
  | CtxResourceRequest => 0x03
  | CtxResourceHashUpdate => 0x04
  | CtxResourceProof => 0x05
  | CtxResourceInitiatorCancel => 0x06
  | CtxResourceReceiverCancel => 0x07
  | CtxCacheRequest => 0x08
  | CtxRequest => 0x09
  | CtxResponse => 0x0A
  | CtxPathResponse => 0x0B
  | CtxCommand => 0x0C
  | CtxCommandStatus => 0x0D
  | CtxChannel => 0x0E
  | CtxKeepAlive => 0xFA
  | CtxLinkIdentify => 0xFB
  | CtxLinkClose => 0xFC
  | CtxLinkProof => 0xFD
  | CtxLinkRtt => 0xFE
  | CtxLinkRequestProof => 0xFF
  | CtxUnknown byte => byte
  end.

(** * Header *)

Inductive WireError := BufferTooShort.
#[global] Instance WireError_eq_dec : EqDecision WireError.
Proof. solve_decision. Defined.

Record WirePacketHeader := mkHeader {
  ifac_flag : IfacFlag;
  context_flag : ContextFlag;
  propagation : PropagationType;
  destination_type : DestinationType;
  packet_type : PacketType;
  hops : Z;
  transport_id : option (list Z);
  address : list Z;
  context : WireContext;
}.
#[global] Instance WirePacketHeader_eq_dec : EqDecision WirePacketHeader.
Proof. solve_decision. Defined.

Definition wire_len (h : WirePacketHeader) : nat :=
  HEADER_MIN_LEN + (if transport_id h is Some _ then TRUNCATED_HASH_BYTE_LEN else 0).

Definition parse (bytes : list Z) : result WireError (WirePacketHeader * list Z) :=
  '(meta, rest) ← ok_or BufferTooShort (split_first bytes);
  '(hops, rest) ← ok_or BufferTooShort (split_first rest);
  let is_type_2 := Z.land (Z.shiftr meta 6) 1 =? 1 in
  let ifac_flag := IfacFlag_from_bits (Z.shiftr meta 7) in
  let context_flag := ContextFlag_from_bits (Z.shiftr meta 5) in
  let propagation := PropagationType_from_bits (Z.shiftr meta 4) in
  let destination_type := DestinationType_from_bits (Z.shiftr meta 2) in
  let packet_type := PacketType_from_bits meta in
  '(transport_id, rest) ←
    (if is_type_2 then
       '(id, rest) ← ok_or BufferTooShort (split_at_checked TRUNCATED_HASH_BYTE_LEN rest);
       Ok (Some id, rest)
     else Ok (None, rest));
  '(address, rest) ← ok_or BufferTooShort (split_at_checked TRUNCATED_HASH_BYTE_LEN rest);
  '(context, rest) ← ok_or BufferTooShort (split_first rest);
  Ok (mkHeader ifac_flag context_flag propagation destination_type packet_type hops
        transport_id address (WireContext_from_byte context), rest).

(** The first byte [write] stores. *)
Definition flags_byte (h : WirePacketHeader) : Z :=
  let header_type_bit := if transport_id h is Some _ then 1 else 0 in
  Z.lor (Z.lor (Z.lor (Z.lor (Z.lor
    (shl 8 (IfacFlag_as_u8 (ifac_flag h)) 7)
    (shl 8 header_type_bit 6))
    (shl 8 (ContextFlag_as_u8 (context_flag h)) 5))
    (shl 8 (PropagationType_as_u8 (propagation h)) 4))
    (shl 8 (DestinationType_as_u8 (destination_type h)) 2))
    (PacketType_as_u8 (packet_type h)).

(** [write] on the caller's buffer: the result with the buffer it leaves. *)
Definition write (h : WirePacketHeader) (buf : list Z) :
    run (result WireError nat * list Z) :=
  let header_len := wire_len h in
  if decide (length buf < header_len)%nat then Done (Err BufferTooShort, buf) else
  buf ← store buf 0 (flags_byte h);
  buf ← store buf 1 (hops h);
  let offset := 2%nat in
  '(buf, offset) ←
    (match transport_id h with
     | Some id =>
         buf ← copy_into buf offset id;
         Done (buf, (offset + TRUNCATED_HASH_BYTE_LEN)%nat)
     | None => Done (buf, offset)
     end);
  buf ← copy_into buf offset (address h);
  let offset := (offset + TRUNCATED_HASH_BYTE_LEN)%nat in
  buf ← store buf offset (WireContext_to_byte (context h));
  let offset := (offset + 1)%nat in
  Done (Ok offset, buf).

(** * Well-formed headers: what a value of the Rust type can be *)

Definition is_hash (a : list Z) : Prop :=
  length a = TRUNCATED_HASH_BYTE_LEN ∧ Forall is_u8 a.

(** [WireContext::Unknown] only holds bytes outside the named set. *)
Definition canonical_context (c : WireContext) : Prop :=
  WireContext_from_byte (WireContext_to_byte c) = c ∧ is_u8 (WireContext_to_byte c).

Record header_wf (h : WirePacketHeader) : Prop := {
  wf_hops : is_u8 (hops h);
  wf_transport : from_option is_hash True (transport_id h);
  wf_address : is_hash (address h);
  wf_context : canonical_context (context h);
}.

(** The bytes of a header. *)
Definition encode_header (h : WirePacketHeader) : list Z :=
  [flags_byte h; hops h] ++ default [] (transport_id h) ++ address h
  ++ [WireContext_to_byte (context h)].

(** * Lemmas *)

Lemma to_byte_from_byte b : WireContext_to_byte (WireContext_from_byte b) = b.
Proof. unfold WireContext_from_byte. by repeat case_match. Qed.

Lemma from_byte_canonical b : is_u8 b → canonical_context (WireContext_from_byte b).
Proof. intros. split; rewrite to_byte_from_byte; auto. Qed.

Lemma length_encode_header h : header_wf h → length (encode_header h) = wire_len h.
Proof.
  intros [_ Ht [Ha _] _]. unfold encode_header, wire_len.
  rewrite !length_app, Ha. destruct (transport_id h) as [id|]; simpl in *;
    [rewrite (proj1 Ht)|]; done.
Qed.

(** The tail of [write]: address and context after [pre]. *)
Lemma write_tail h (pre y : list Z) z post :
  length (address h) = 16%nat → length y = 16%nat →
  (buf ← copy_into (pre ++ y ++ z :: post) (length pre) (address h);
   buf ← store buf (length pre + 16) (WireContext_to_byte (context h));
   Done (Ok (length pre + 16 + 1)%nat : result WireError nat, buf))
  = Done (Ok (length pre + 17)%nat,
      pre ++ address h ++ [WireContext_to_byte (context h)] ++ post).
Proof.
  intros Ha Hy. rewrite copy_at by congruence. cbv beta iota delta [mbind run_bind].
  rewrite app_assoc, store_at by (rewrite length_app; lia).
  rewrite <- app_assoc. do 3 f_equal. lia.
Qed.

Lemma write_spec h buf :
  header_wf h →
  write h buf =
    if decide (length buf < wire_len h)%nat then Done (Err BufferTooShort, buf)
    else Done (Ok (wire_len h), encode_header h ++ drop (wire_len h) buf).
Proof.
  intros [_ Ht [Ha _] _]. unfold write. case_decide as Hlen; [done|].
  change TRUNCATED_HASH_BYTE_LEN with 16%nat in *.
  assert (Hmin : (19 ≤ length buf)%nat).
  { unfold wire_len in Hlen. change HEADER_MIN_LEN with 19%nat in Hlen. lia. }
  destruct buf as [|b0 [|b1 buf]]; simpl in Hmin; [lia..|].
  change (store (b0 :: b1 :: buf) 0 (flags_byte h)) with (Done (flags_byte h :: b1 :: buf)).
  cbv beta iota delta [mbind run_bind].
  change (store (flags_byte h :: b1 :: buf) 1 (hops h))
    with (Done (flags_byte h :: hops h :: buf)).
  unfold encode_header, wire_len in *. change HEADER_MIN_LEN with 19%nat in *.
  change TRUNCATED_HASH_BYTE_LEN with 16%nat in *.
  destruct (transport_id h) as [id|]; cbn [default from_option] in *; cbv beta iota.
  - destruct Ht as [Hid _]. change TRUNCATED_HASH_BYTE_LEN with 16%nat in *.
    simpl length in Hlen.
    destruct (split_block 16 buf) as (x & buf1 & -> & Hx); [lia|].
    rewrite length_app in Hlen, Hmin.
    destruct (split_block 16 buf1) as (y & [|z buf2] & -> & Hy);
      [lia|rewrite length_app in Hlen; simpl in Hlen; lia|].
    change (flags_byte h :: hops h :: x ++ y ++ z :: buf2)
      with ([flags_byte h; hops h] ++ x ++ y ++ z :: buf2).
    rewrite copy_at by (simpl; congruence). rewrite app_assoc.
    pose proof (write_tail h ([flags_byte h; hops h] ++ id) y z buf2 Ha Hy) as W.
    rewrite length_app, Hid in W. unfold mbind, run_bind in W. simpl length in W.
    simpl Nat.add in *. rewrite W. do 2 f_equal.
    rewrite <- !app_assoc. do 4 f_equal. simpl. f_equal.
    rewrite (drop_app_ge x) by lia. rewrite Hx. by rewrite drop_app_ge, Hy by lia.
  - simpl length in Hlen.
    destruct (split_block 16 buf) as (y & [|z buf2] & -> & Hy);
      [lia|rewrite length_app in Hlen; simpl in Hlen; lia|].
    pose proof (write_tail h [flags_byte h; hops h] y z buf2 Ha Hy) as W.
    unfold mbind, run_bind in W. simpl length in W. simpl Nat.add in *.
    change (flags_byte h :: hops h :: y ++ z :: buf2)
      with ([flags_byte h; hops h] ++ y ++ z :: buf2). rewrite W.
    do 2 f_equal. simpl. rewrite <- !app_assoc. do 5 f_equal.
    by rewrite drop_app_ge, Hy by lia.
Qed.

(** The flags byte carries every flag and the header type. *)
Lemma flags_byte_fields h :
  let m := flags_byte h in
  (Z.land (Z.shiftr m 6) 1 =? 1) = (if transport_id h is Some _ then true else false)
  ∧ IfacFlag_from_bits (Z.shiftr m 7) = ifac_flag h
  ∧ ContextFlag_from_bits (Z.shiftr m 5) = context_flag h
  ∧ PropagationType_from_bits (Z.shiftr m 4) = propagation h
  ∧ DestinationType_from_bits (Z.shiftr m 2) = destination_type h
  ∧ PacketType_from_bits m = packet_type h.
Proof. destruct h as [[] [] [] [] [] hp [id|] a c]; repeat split. Qed.

(** Every flags byte is the one [write] stores for the fields [parse] reads. *)
Definition flags_recompose (m : Z) : Z :=
  flags_byte (mkHeader
    (IfacFlag_from_bits (Z.shiftr m 7)) (ContextFlag_from_bits (Z.shiftr m 5))
    (PropagationType_from_bits (Z.shiftr m 4)) (DestinationType_from_bits (Z.shiftr m 2))
    (PacketType_from_bits m) 0
    (if Z.land (Z.shiftr m 6) 1 =? 1 then Some [] else None) [] CtxNone).

Lemma flags_recompose_id m : is_u8 m → flags_recompose m = m.
Proof.
  intros. apply Z.eqb_eq, (u8_forall (λ m, flags_recompose m =? m)); [|done].
  vm_compute. reflexivity.
Qed.

Lemma flags_byte_u8 h : is_u8 (flags_byte h).
Proof. destruct h as [[] [] [] [] [] hp [id|] a c]; vm_compute; split; congruence. Qed.

Lemma parse_encode h payload :
  header_wf h → parse (encode_header h ++ payload) = Ok (h, payload).
Proof.
  intros [_ Ht [Ha _] [Hc _]]. unfold encode_header. rewrite <- !app_assoc. simpl.
  unfold parse. cbn [split_first ok_or mbind result_bind].
  destruct (flags_byte_fields h) as (-> & -> & -> & -> & -> & ->).
  destruct h as [i c p d k hp [id|] a ctx]; simpl in *.
  - destruct Ht as [Hid _]. rewrite (split_at_checked_app _ id) by done. simpl.
    rewrite split_at_checked_app by done. simpl. by rewrite Hc.
  - rewrite split_at_checked_app by done. simpl. by rewrite Hc.
Qed.

Lemma encode_parse bytes h rest :
  Forall is_u8 bytes → parse bytes = Ok (h, rest) →
  header_wf h ∧ bytes = encode_header h ++ rest.
Proof.
  intros Hb. unfold parse.
  destruct bytes as [|m [|hp bs]]; [done..|]. cbn [split_first ok_or mbind result_bind].
  inversion_clear Hb as [|? ? Hm Hb']. inversion_clear Hb' as [|? ? Hhp Hbs].
  pose proof (flags_recompose_id m Hm) as Hflags. unfold flags_recompose in Hflags.
  destruct (_ =? 1).
  - destruct (split_at_checked _ bs) as [[id bs1]|] eqn:E1; [|done]; simpl.
    destruct (split_at_checked _ bs1) as [[a bs2]|] eqn:E2; [|done]; simpl.
    destruct bs2 as [|c bs2]; [done|]. simpl. intros. inv_run.
    apply split_at_checked_Some in E1 as [-> Hid].
    apply split_at_checked_Some in E2 as [-> Ha].
    rewrite !Forall_app, Forall_cons_iff in Hbs. destruct Hbs as (? & ? & ? & ?).
    split; [split; simpl; try done; by apply from_byte_canonical|].
    unfold encode_header. simpl. rewrite to_byte_from_byte, <- !app_assoc.
    f_equal. symmetry. exact Hflags.
  - simpl. destruct (split_at_checked _ bs) as [[a bs2]|] eqn:E2; [|done]; simpl.
    destruct bs2 as [|c bs2]; [done|]. simpl. intros. inv_run.
    apply split_at_checked_Some in E2 as [-> Ha].
    rewrite !Forall_app, Forall_cons_iff in Hbs. destruct Hbs as (? & ? & ?).
    split; [split; simpl; try done; by apply from_byte_canonical|].
    unfold encode_header. simpl. rewrite to_byte_from_byte, <- !app_assoc.
    f_equal. symmetry. exact Hflags.
Qed.

(** The header length a first byte announces. *)
Definition announced_len (meta : Z) : nat :=
  if Z.land (Z.shiftr meta 6) 1 =? 1 then HEADER_MAX_LEN else HEADER_MIN_LEN.

(** * Properties *)

(** C38. Headers survive the wire both ways.  Writing any well-formed header into a buffer that is long enough
    succeeds without a panic, returns [wire_len], leaves the rest of the buffer untouched, and parsing what was
    written, followed by any payload, gives back the header and that payload.  Conversely, whatever [parse] accepts
    is exactly the encoding of the header it returns followed by the payload it returns, so re-encoding a
    received header reproduces the received bytes, unknown context bytes included. *)
Theorem wire_roundtrip :
  (∀ h buf payload, header_wf h → (wire_len h ≤ length buf)%nat →
    ∃ buf', write h buf = Done (Ok (wire_len h), buf')
      ∧ parse (take (wire_len h) buf' ++ payload) = Ok (h, payload)
      ∧ drop (wire_len h) buf' = drop (wire_len h) buf)
  ∧ (∀ bytes h rest buf, Forall is_u8 bytes → parse bytes = Ok (h, rest) → (wire_len h ≤ length buf)%nat →
    ∃ buf', write h buf = Done (Ok (wire_len h), buf') ∧ take (wire_len h) buf' ++ rest = bytes).
Proof.
  split.
  - intros h buf payload Hwf Hlen. exists (encode_header h ++ drop (wire_len h) buf).
    rewrite write_spec, decide_False by (done || lia). split; [done|].
    rewrite <- (length_encode_header h Hwf) at 1 3.
    rewrite take_app_length, drop_app_length. auto using parse_encode.
  - intros bytes h rest buf Hb Hp Hlen. destruct (encode_parse _ _ _ Hb Hp) as [Hwf ->].
    exists (encode_header h ++ drop (wire_len h) buf).
    rewrite write_spec, decide_False by (done || lia). split; [done|].
    rewrite <- (length_encode_header h Hwf) at 1. by rewrite take_app_length.
Qed.

Definition sample_header : WirePacketHeader :=
  mkHeader Authenticated ContextSet Transport Link Proof_ 7
    (Some (replicate 16 0x11)) (replicate 16 0x22) CtxPathResponse.

Lemma sample_header_wf : header_wf sample_header.
Proof.
  split; vm_compute; repeat split; try congruence;
    repeat constructor; vm_compute; congruence.
Defined.

Definition sample_bytes : list Z := [0x0F; 3] ++ replicate 16 0xAB ++ [0xA5; 9; 9].

Lemma wire_roundtrip_witness :
  (∃ buf', write sample_header (replicate 64 0) = Done (Ok 35%nat, buf')
    ∧ parse (take 35 buf' ++ [1; 2]) = Ok (sample_header, [1; 2])
    ∧ drop 35 buf' = drop 35 (replicate 64 0))
  ∧ (∃ h buf', parse sample_bytes = Ok (h, [9; 9]) ∧ write h (replicate 19 0) = Done (Ok 19%nat, buf')
    ∧ take 19 buf' ++ [9; 9] = sample_bytes).
Proof.
  destruct wire_roundtrip as [Hwrite Hparse]. split.
  - apply (Hwrite sample_header); [apply sample_header_wf|vm_compute; lia].
  - destruct (Hparse sample_bytes
      (mkHeader Open ContextUnset Broadcast Link Proof_ 3 None (replicate 16 0xAB) (CtxUnknown 0xA5))
      [9; 9] (replicate 19 0)) as (buf' & H1 & H2).
    + repeat constructor; vm_compute; congruence.
    + vm_compute. reflexivity.
    + vm_compute. lia.
    + eexists _, buf'. split; [vm_compute; reflexivity|]. exact (conj H1 H2).
Defined.

(** [parse] and [write] reject exactly the inputs that are too short: [parse] fails iff
    the input has fewer bytes than the header its first byte announces (19 or 35), and
    [write] fails iff the buffer is shorter than [wire_len], leaving it unchanged. *)
Theorem wire_errors_iff_too_short :
  (parse [] = Err BufferTooShort)
  ∧ (∀ m bs, parse (m :: bs) = Err BufferTooShort ↔ (length (m :: bs) < announced_len m)%nat)
  ∧ (∀ h buf, header_wf h →
       ((∃ buf', write h buf = Done (Err BufferTooShort, buf')) ↔ (length buf < wire_len h)%nat)
       ∧ ((length buf < wire_len h)%nat → write h buf = Done (Err BufferTooShort, buf))).
Proof.
  split; [done|]. split.
  - intros m bs. unfold announced_len, parse. cbn [split_first ok_or mbind result_bind].
    destruct bs as [|hp bs]; simpl; [split; [intros _; case_match; vm_compute; lia|done]|].
    change HEADER_MAX_LEN with 35%nat. change HEADER_MIN_LEN with 19%nat.
    change TRUNCATED_HASH_BYTE_LEN with 16%nat.
    destruct (_ =? 1); cbn [mbind result_bind];
      repeat match goal with |- context [split_at_checked 16 ?xs] =>
        destruct (split_at_checked_cases 16 xs) as [(? & ? & -> & -> & ?)|[-> ?]]; simpl
      end;
      try match goal with |- context [split_first ?xs] => is_var xs; destruct xs end;
      simpl; rewrite ?length_app in *; simpl in *; split; intros; (done || lia).
  - intros h buf Hwf. rewrite write_spec by done. case_decide; [naive_solver|].
    split; [|intros; lia]. split; [by intros [? ?]|intros; lia].
Qed.
