(* ===== verification/FrameSink.v ===== *)
(** Frame sinks and decoders: [prns-core/src/interfaces/framing/mod.rs].

    The interface the stream scanners write payload bytes through, its laws, and the
    implementations: the growable [Vec<u8>] and the capped [FrameBuffer]; then the outer shape
    that every framing decoder has. *)

From S2P Require Import Prelude.

Inductive FrameSinkError := Full.
#[global] Instance FrameSinkError_eq_dec : EqDecision FrameSinkError.
Proof. solve_decision. Defined.

(** The trait [FrameSink]: a failed [push] or [extend_from_slice] returns the sink as the
    call left it. *)
Class FrameSink (T : Type) := {
  clear : T → T;
  frame_len : T → nat;
  free_capacity : T → Z;
  push : T → Z → result FrameSinkError unit * T;
  extend_from_slice : T → list Z → result FrameSinkError unit * T;
  sink_bytes : T → list Z;
}.

(** Pushing a run byte by byte, stopping at the first failure. *)
Fixpoint push_all `{FrameSink T} (s : T) (run : list Z) : option T :=
  match run with
  | [] => Some s
  | b :: run =>
      match push s b with
      | (Ok _, s') => push_all s' run
      | (Err _, _) => None
      end
  end.

(** What the scanners rely on: writes are all or nothing, [extend_from_slice] succeeds
    exactly when the bytes would fit one by one, and on failure [free_capacity] counts the
    bytes that still fit. *)
Class FrameSinkLaws (T : Type) `{FrameSink T} := {
  clear_bytes s : sink_bytes (clear s) = [];
  clear_clear s s' : clear s = clear s';
  frame_len_bytes s : frame_len s = length (sink_bytes s);
  push_ok s b s' : push s b = (Ok tt, s') → sink_bytes s' = sink_bytes s ++ [b];
  push_full s b s' : push s b = (Err Full, s') → s' = s;
  extend_ok s run s' :
    extend_from_slice s run = (Ok tt, s') → push_all s run = Some s';
  extend_full s run s' :
    extend_from_slice s run = (Err Full, s') →
    s' = s ∧ (0 ≤ free_capacity s < Z.of_nat (length run))%Z
    ∧ ∃ fits, push_all s (take (Z.to_nat (free_capacity s)) run) = Some fits
        ∧ ∀ b, push fits b = (Err Full, fits);
}.

(** ** [Vec<u8>] *)

Definition vec_clear (_ : list Z) : list Z := [].
Definition vec_frame_len (v : list Z) : nat := length v.
Definition vec_free_capacity (v : list Z) : Z := (usize_max - Z.of_nat (length v))%Z.
Definition vec_push (v : list Z) (byte : Z) : result FrameSinkError unit * list Z :=
  (Ok tt, v ++ [byte]).
Definition vec_extend_from_slice (v run : list Z) : result FrameSinkError unit * list Z :=
  (Ok tt, v ++ run).

#[global] Instance vec_sink : FrameSink (list Z) := {
  clear := vec_clear;
  frame_len := vec_frame_len;
  free_capacity := vec_free_capacity;
  push := vec_push;
  extend_from_slice := vec_extend_from_slice;
  sink_bytes := id;
}.

Lemma vec_push_all (v run : list Z) : push_all v run = Some (v ++ run).
Proof.
  revert v. induction run as [|b run IH]; intros v; simpl; [by rewrite app_nil_r|].
  by rewrite IH, <- app_assoc.
Qed.

#[global] Instance vec_sink_laws : FrameSinkLaws (list Z).
Proof.
  split; try done.
  - intros s b s' H. simpl in H. unfold vec_push in H. inv_run. done.
  - intros s run s' H. simpl in H. unfold vec_extend_from_slice in H. inv_run.
    apply vec_push_all.
Qed.

(** ** [FrameBuffer<FRAME_CAP>] *)

Record FrameBuffer (FRAME_CAP : nat) := mkFrameBuffer { bytes : list Z }.
Arguments mkFrameBuffer {FRAME_CAP} _.
Arguments bytes {FRAME_CAP} _.

Section frame_buffer.
  Context {FRAME_CAP : nat}.
  Implicit Types (b : FrameBuffer FRAME_CAP).

Definition FrameBuffer_new : FrameBuffer FRAME_CAP := mkFrameBuffer [].
Definition as_slice b : list Z := bytes b.
Definition fb_clear (_ : FrameBuffer FRAME_CAP) : FrameBuffer FRAME_CAP := mkFrameBuffer [].
Definition fb_frame_len b : nat := length (bytes b).
Definition fb_free_capacity b : Z :=
  saturating_sub (Z.of_nat FRAME_CAP) (Z.of_nat (length (bytes b))).

Definition fb_push b (byte : Z) : result FrameSinkError unit * FrameBuffer FRAME_CAP :=
  if decide (FRAME_CAP ≤ length (bytes b))%nat then (Err Full, b)
  else (Ok tt, mkFrameBuffer (bytes b ++ [byte])).

Definition fb_extend_from_slice b (run : list Z) :
    result FrameSinkError unit * FrameBuffer FRAME_CAP :=
  if decide (Z.of_nat (length run) >
             saturating_sub (Z.of_nat FRAME_CAP) (Z.of_nat (length (bytes b))))%Z
  then (Err Full, b)
  else (Ok tt, mkFrameBuffer (bytes b ++ run)).
End frame_buffer.
Arguments FrameBuffer_new _ : clear implicits.

#[global] Instance frame_buffer_sink cap : FrameSink (FrameBuffer cap) := {
  clear := fb_clear;
  frame_len := fb_frame_len;
  free_capacity := fb_free_capacity;
  push := fb_push;
  extend_from_slice := fb_extend_from_slice;
  sink_bytes := bytes;
}.

Lemma fb_push_all cap (b : FrameBuffer cap) run :
  (length (bytes b) + length run ≤ cap)%nat →
  push_all b run = Some (mkFrameBuffer (bytes b ++ run)).
Proof.
  revert b. induction run as [|x run IH]; intros [bs] Hlen; simpl in *.
  - by rewrite app_nil_r.
  - unfold fb_push. simpl. rewrite decide_False by lia.
    rewrite IH by (simpl; rewrite length_app; simpl; lia). simpl. by rewrite <- app_assoc.
Qed.

#[global] Instance frame_buffer_sink_laws cap : FrameSinkLaws (FrameBuffer cap).
Proof.
  split; simpl; try done.
  - intros s b s'. unfold fb_push. by case_decide; intros; inv_run.
  - intros s b s'. unfold fb_push. by case_decide; intros; inv_run.
  - intros s run s'. unfold fb_extend_from_slice. case_decide as H; intros; inv_run.
    unfold saturating_sub in H. destruct (decide (length run = 0%nat)) as [E|E].
    + apply nil_length_inv in E as ->. simpl. destruct s. by rewrite app_nil_r.
    + apply fb_push_all. lia.
  - intros s run s'. unfold fb_extend_from_slice. case_decide as H; intros Heq; inv_run.
    unfold fb_free_capacity. unfold saturating_sub in *.
    split; [done|]. split; [lia|].
    destruct (decide (length (bytes s') ≤ cap)%nat) as [Hc|Hc].
    + eexists. split; [apply fb_push_all; rewrite length_take; lia|].
      intros b. unfold fb_push. rewrite decide_True; [done|].
      simpl. rewrite length_app, length_take. lia.
    + replace (Z.to_nat _) with 0%nat by lia. exists s'. split; [done|].
      intros b. unfold fb_push. rewrite decide_True; [done|lia].
Qed.

(** * Encoding into a caller's buffer *)

(** How a call that writes [enc] after [pre] ends: with [enc] in place when it fits, with
    the error and a buffer of the same length when it does not. *)
Definition wrote {E} (too_small : E) (enc pre post : list Z)
    (m : run (result E nat * list Z)) : Prop :=
  if decide (length enc ≤ length post)%nat
  then m = Done (Ok (length pre + length enc)%nat, pre ++ enc ++ drop (length enc) post)
  else ∃ out, m = Done (Err too_small, out) ∧ length out = length (pre ++ post).

Lemma wrote_too_small {E} (e : E) enc pre post out :
  (length post < length enc)%nat → length out = length (pre ++ post) →
  wrote e enc pre post (Done (Err e, out)).
Proof. intros. unfold wrote. rewrite decide_False by lia. eauto. Qed.

(** A block in place, then the rest. *)
Lemma wrote_app {E} (e : E) e1 e2 pre x post m :
  length x = length e1 → wrote e e2 (pre ++ e1) post m → wrote e (e1 ++ e2) pre (x ++ post) m.
Proof.
  intros Hx. unfold wrote. rewrite !length_app. case_decide; case_decide; try lia.
  - intros ->. do 2 f_equal; [f_equal; lia|]. rewrite <- !app_assoc. do 3 f_equal.
    rewrite drop_app_ge by lia. f_equal. lia.
  - intros (out & -> & Hout). exists out. split; [done|].
    rewrite Hout. lia.
Qed.

(** * Decoders as byte machines

    [feed] takes one byte and may yield an item or an error, [feed_slice_next] advances an offset over a
    chunk to the next item, and [feed_slice] hands every item of the chunk to a callback, ignoring errors.
    Feeding in chunks and byte by byte agree. *)

Section stream.
Context {D E Item : Type} (step : D → Z → result E (option Item) * D).

(** Feeding one byte at a time, collecting the items and ignoring errors. *)
Fixpoint each (d : D) (input : list Z) : list Item * D :=
  match input with
  | [] => ([], d)
  | byte :: input =>
      let '(r, d) := step d byte in
      let '(items, d) := each d input in
      (match r with Ok (Some item) => item :: items | _ => items end, d)
  end.

(** Feeding up to the first item or error, with the number of bytes consumed. *)
Fixpoint upto (d : D) (input : list Z) : result E (option Item) * D * nat :=
  match input with
  | [] => (Ok None, d, 0%nat)
  | byte :: input =>
      match step d byte with
      | (Ok None, d) => let '(r, d, n) := upto d input in (r, d, S n)
      | (r, d) => (r, d, 1%nat)
      end
  end.

Definition shift (k : nat) (r : result E (option Item) * D * nat) :=
  let '(r, d, n) := r in (r, d, (k + n)%nat).

(** [feed_slice]: [while offset < input.len() { match self.feed_slice_next(..) }]. *)
Fixpoint slice_loop (next : D → list Z → nat → run (result E (option Item) * D * nat))
    (fuel : nat) (d : D) (input : list Z) (offset : nat) : run (list Item * D) :=
  match fuel with
  | O => OutOfFuel
  | S fuel =>
      if decide (length input ≤ offset)%nat then Done ([], d) else
      '(r, d, offset) ← next d input offset;
      match r with
      | Ok (Some item) =>
          '(items, d) ← slice_loop next fuel d input offset;
          Done (item :: items, d)
      | Ok None => Done ([], d)
      | Err _ => slice_loop next fuel d input offset
      end
  end.

Lemma each_app d xs ys :
  each d (xs ++ ys) =
  let '(f1, d1) := each d xs in
  let '(f2, d2) := each d1 ys in (f1 ++ f2, d2).
Proof.
  revert d. induction xs as [|x xs IH]; intros d; simpl.
  { by destruct (each d ys). }
  destruct (step d x) as [r d1]. rewrite IH.
  destruct (each d1 xs) as [f1 d2]. destruct (each d2 ys) as [f2 d3].
  by destruct r as [[]|].
Qed.

Lemma each_upto d input r d' n :
  upto d input = (r, d', n) →
  (n ≤ length input)%nat ∧ (input ≠ [] → 0 < n)%nat
  ∧ each d input =
      match r with
      | Ok (Some item) =>
          let '(items, d'') := each d' (drop n input) in (item :: items, d'')
      | Ok None => ([], d')
      | Err _ => each d' (drop n input)
      end.
Proof.
  revert d n. induction input as [|b input IH]; intros d n; cbn [upto each].
  { intros. inv_run. simpl. repeat split; [lia|done]. }
  destruct (step d b) as [[[item|]|e] d1].
  - intros. inv_run. simpl. rewrite drop_0. repeat split; lia.
  - destruct (upto d1 input) as [[r2 d2] n2] eqn:E2. intros. inv_run.
    destruct (IH d1 n2 E2) as (? & _ & ->). simpl. repeat split; [lia..|].
    destruct r as [[]|]; repeat case_match; simplify_eq; done.
  - intros. inv_run. simpl. rewrite drop_0. repeat split; [lia..|].
    by destruct (each _ input).
Qed.

(** Chunked feeding is byte-by-byte feeding, for any [next] that stops where [upto] does. *)
Lemma slice_loop_each next fuel d input offset :
  (∀ d offset, (offset ≤ length input)%nat →
     next d input offset = Done (shift offset (upto d (drop offset input)))) →
  (offset ≤ length input)%nat → (length input - offset < fuel)%nat →
  slice_loop next fuel d input offset = Done (each d (drop offset input)).
Proof.
  intros Hnext. revert d offset. induction fuel as [|fuel IH]; intros d offset Hoff Hf; [lia|].
  cbn [slice_loop]. case_decide as Hend; [by rewrite drop_ge|].
  rewrite Hnext by lia. destruct (upto d (drop offset input)) as [[r d'] n] eqn:Eu.
  destruct (each_upto _ _ _ _ _ Eu) as (Hn & Hpos & ->). rewrite length_drop in Hn.
  assert (0 < n)%nat.
  { apply Hpos. intros H%(f_equal length). rewrite length_drop in H. simpl in H. lia. }
  cbn [mbind run_bind shift]. rewrite drop_drop.
  destruct r as [[item|]|e]; [|done|].
  - rewrite IH by lia. cbn [mbind run_bind]. by destruct (each _ _).
  - by rewrite IH by lia.
Qed.
End stream.
