(* ===== verification/Token.v ===== *)
(** Sealed tokens: [prns-core/src/crypto/token.rs] and [mac.rs].

    A token is an initialisation vector, a padded ciphertext and an authentication code over both.  It is
    sealed into a buffer, opened at once, or opened while its bytes arrive.  The ciphers, the padding and
    the code are crates outside the repository: a class, with what their documentation says as its laws. *)

From S2P Require Import Prelude.

Inductive AesMode := Aes128 | Aes256.

(** The [hmac], [aes], [cbc] and [block-padding] crates. *)
Class TokenCrypto := {
  hmac_state : Type;
  (** [Hmac::<Sha256>::new_from_slice], [update], [finalize] *)
  hmac_keyed : list Z → hmac_state;
  hmac_update : hmac_state → list Z → hmac_state;
  hmac_finalize : hmac_state → list Z;
  decryptor : Type;
  (** [Decryptor::<Aes>::new_from_slices(key, iv)] *)
  decryptor_new : AesMode → list Z → list Z → decryptor;
  (** [decrypt_blocks_inout_mut]: the region decrypted, and the next state *)
  decrypt_blocks : decryptor → list Z → list Z * decryptor;
  (** [Pkcs7::raw_unpad] of one block *)
  raw_unpad : list Z → option (list Z);
  (** [decrypt_padded_mut::<Pkcs7>]: the length of the plaintext, and the buffer *)
  decrypt_padded_mut : decryptor → list Z → option nat * list Z;
  (** [Encryptor::new_from_slices(key, iv).encrypt_padded_mut::<Pkcs7>] of a plaintext *)
  encrypt_padded : AesMode → list Z → list Z → list Z → list Z;
}.

Definition IV_LEN : nat := 16.
Definition MAC_LEN : nat := 32.
Definition BLOCK_LEN : nat := 16.
Definition TOKEN_OVERHEAD : nat := IV_LEN + MAC_LEN.

Definition sealed_len (plaintext_len : nat) : nat := IV_LEN + (plaintext_len / BLOCK_LEN + 1) * BLOCK_LEN + MAC_LEN.

(** Their documentation.  Blocks decrypt one after the other; padding fills the last block, and a whole one
    when there is nothing to fill. *)
Class TokenCryptoLaws `{TokenCrypto} : Prop := {
  hmac_update_app : ∀ s a b, hmac_update (hmac_update s a) b = hmac_update s (a ++ b);
  hmac_length : ∀ s, length (hmac_finalize s) = MAC_LEN;
  decrypt_length : ∀ d region, length (decrypt_blocks d region).1 = length region;
  decrypt_nil : ∀ d, decrypt_blocks d [] = ([], d);
  decrypt_app : ∀ d a b, length a `mod` BLOCK_LEN = 0 →
    decrypt_blocks d (a ++ b)
    = let '(a', d1) := decrypt_blocks d a in let '(b', d2) := decrypt_blocks d1 b in (a' ++ b', d2);
  unpad_prefix : ∀ block r, raw_unpad block = Some r → r `prefix_of` block;
  decrypt_padded_blocks : ∀ d region, length region `mod` BLOCK_LEN = 0 → BLOCK_LEN ≤ length region →
    let plain := (decrypt_blocks d region).1 in
    decrypt_padded_mut d region
    = ((λ r : list Z, length region - BLOCK_LEN + length r) <$> raw_unpad (drop (length region - BLOCK_LEN) plain), plain);
  encrypt_length : ∀ mode key iv plain,
    length (encrypt_padded mode key iv plain) = (length plain / BLOCK_LEN + 1) * BLOCK_LEN;
  decrypt_encrypt : ∀ mode key iv plain,
    ∃ rest, decrypt_padded_mut (decryptor_new mode key iv) (encrypt_padded mode key iv plain)
            = (Some (length plain), plain ++ rest);
}.

Inductive TokenOpenError := Malformed | InvalidMac | InvalidPadding | OpenBufferTooShort.
Inductive BadKeyLengthError := BadKeyLength.
Inductive SealError := SealBufferTooShort.
#[global] Instance TokenOpenError_eq_dec : EqDecision TokenOpenError.
Proof. solve_decision. Defined.

Record TokenKey := mkTokenKey { signing_key : list Z; encryption_key : list Z; mode : AesMode }.

Definition from_aes128 (key : list Z) : TokenKey := mkTokenKey (take 16 key) (drop 16 key) Aes128.
Definition from_aes256 (key : list Z) : TokenKey := mkTokenKey (take 32 key) (drop 32 key) Aes256.
Definition from_derived (key : list Z) : result BadKeyLengthError TokenKey :=
  if decide (length key = 32) then Ok (from_aes128 key)
  else if decide (length key = 64) then Ok (from_aes256 key)
  else Err BadKeyLength.

Section token.
Context `{TokenCrypto}.

(** ** [mac.rs] *)

Definition hmac_sha256 (key message : list Z) : list Z := hmac_finalize (hmac_update (hmac_keyed key) message).
Definition hmac_sha256_chunks (key : list Z) (message : list (list Z)) : list Z :=
  hmac_finalize (foldl hmac_update (hmac_keyed key) message).
(** [verify_slice] compares the whole code. *)
Definition hmac_sha256_verify (key message tag : list Z) : bool := bool_decide (hmac_sha256 key message = tag).

(** ** Sealing *)

Fixpoint copy_chunks (out : list Z) (at_ : nat) (chunks : list (list Z)) : run (list Z) :=
  match chunks with
  | [] => Done out
  | chunk :: chunks => out ← copy_into out at_ chunk; copy_chunks out (at_ + length chunk) chunks
  end.

(** Encrypts the plaintext staged behind the vector and appends the code. *)
Definition encrypt_and_mac (key : TokenKey) (iv out : list Z) (plain_len total : nat) : run (list Z) :=
  region ← slice out IV_LEN (total - MAC_LEN);
  out ← copy_into out IV_LEN (encrypt_padded (mode key) (encryption_key key) iv (take plain_len region));
  signed ← slice out 0 (total - MAC_LEN);
  copy_into out (total - MAC_LEN) (hmac_sha256 (signing_key key) signed).

Definition token_seal_chunks (key : TokenKey) (iv : list Z) (chunks : list (list Z)) (out : list Z) :
    run (result SealError nat * list Z) :=
  let plain_len := length (concat chunks) in
  let total := sealed_len plain_len in
  if (length out <? total)%nat then Done (Err SealBufferTooShort, out) else
  out ← copy_into out 0 iv;
  out ← copy_chunks out IV_LEN chunks;
  out ← encrypt_and_mac key iv out plain_len total;
  Done (Ok total, out).

Definition token_seal (key : TokenKey) (iv plaintext out : list Z) : run (result SealError nat * list Z) :=
  token_seal_chunks key iv [plaintext] out.

Definition token_seal_in_place (key : TokenKey) (iv out : list Z) (plain_len : nat) :
    run (result SealError nat * list Z) :=
  let total := sealed_len plain_len in
  if (length out <? total)%nat then Done (Err SealBufferTooShort, out) else
  out ← copy_into out 0 iv;
  out ← encrypt_and_mac key iv out plain_len total;
  Done (Ok total, out).

(** ** Opening *)

Definition token_is_authentic (key : TokenKey) (token : list Z) : bool :=
  if (length token <? IV_LEN + BLOCK_LEN + MAC_LEN)%nat then false else
  let at_ := length token - MAC_LEN in
  hmac_sha256_verify (signing_key key) (take at_ token) (drop at_ token).

(** The checks shared by the two ways of opening: the vector and the ciphertext. *)
Definition authenticate (key : TokenKey) (token : list Z) : result TokenOpenError (list Z * list Z) :=
  if (length token <? IV_LEN + BLOCK_LEN + MAC_LEN)%nat then Err Malformed else
  let at_ := length token - MAC_LEN in
  let signed_parts := take at_ token in
  if negb (hmac_sha256_verify (signing_key key) signed_parts (drop at_ token)) then Err InvalidMac else
  Ok (take IV_LEN signed_parts, drop IV_LEN signed_parts).

(** The plaintext, a part of the token decrypted in place. *)
Definition token_open_in_place (key : TokenKey) (token : list Z) : run (result TokenOpenError (list Z)) :=
  match authenticate key token with
  | Err e => Done (Err e)
  | Ok (iv, ciphertext) =>
      if negb (length ciphertext mod BLOCK_LEN =? 0)%nat then Done (Err Malformed) else
      match decrypt_padded_mut (decryptor_new (mode key) (encryption_key key) iv) ciphertext with
      | (None, _) => Done (Err InvalidPadding)
      | (Some n, plain) => p ← slice plain 0 n; Done (Ok p)
      end
  end.

(** The length of the plaintext, and the buffer. *)
Definition token_open (key : TokenKey) (token out : list Z) : run (result TokenOpenError nat * list Z) :=
  match authenticate key token with
  | Err e => Done (Err e, out)
  | Ok (iv, ciphertext) =>
      if negb (length ciphertext mod BLOCK_LEN =? 0)%nat then Done (Err Malformed, out) else
      if (length out <? length ciphertext)%nat then Done (Err OpenBufferTooShort, out) else
      out ← copy_into out 0 ciphertext;
      region ← slice out 0 (length ciphertext);
      let '(plaintext, region) := decrypt_padded_mut (decryptor_new (mode key) (encryption_key key) iv) region in
      out ← copy_into out 0 region;
      Done (match plaintext with None => Err InvalidPadding | Some n => Ok n end, out)
  end.

(** ** Opening as the bytes arrive *)

Record TokenOpenStream := mkStream {
  st_hmac : hmac_state;
  st_decryptor : decryptor;
  st_token_len : nat;
  st_absorbed : nat;
}.

Definition begin (key : TokenKey) (iv : list Z) (token_len : nat) : result TokenOpenError TokenOpenStream :=
  if (token_len <? IV_LEN + BLOCK_LEN + MAC_LEN)%nat || negb ((token_len - TOKEN_OVERHEAD) mod BLOCK_LEN =? 0)%nat
  then Err Malformed
  else Ok (mkStream (hmac_update (hmac_keyed (signing_key key)) iv)
             (decryptor_new (mode key) (encryption_key key) iv) token_len IV_LEN).

(** The next span to process, from and to. *)
Definition pending_span (s : TokenOpenStream) (contiguous : nat) : nat * nat :=
  let held_back := st_token_len s - MAC_LEN - BLOCK_LEN in
  let through := min contiguous held_back in
  let whole_blocks_through := IV_LEN + (through - IV_LEN) / BLOCK_LEN * BLOCK_LEN in
  (st_absorbed s, max whole_blocks_through (st_absorbed s)).

Definition fully_absorbed (s : TokenOpenStream) : bool :=
  (st_absorbed s =? st_token_len s - MAC_LEN - BLOCK_LEN)%nat.

(** The decrypted span, and the stream. *)
Definition absorb_span (s : TokenOpenStream) (span : list Z) : list Z * TokenOpenStream :=
  match span with
  | [] => ([], s)
  | _ =>
      let '(plain, d) := decrypt_blocks (st_decryptor s) span in
      (plain, mkStream (hmac_update (st_hmac s) span) d (st_token_len s) (st_absorbed s + length span))
  end.

(** The bytes decrypted by this call, the buffer and the stream. *)
Definition absorb_to (s : TokenOpenStream) (token : list Z) (contiguous : nat) :
    run (list Z * list Z * TokenOpenStream) :=
  let '(from, to) := pending_span s contiguous in
  region ← slice token from to;
  let '(plain, s) := absorb_span s region in
  token ← copy_into token from plain;
  Done (plain, token, s).

Definition finalize (s : TokenOpenStream) (token : list Z) : run (result TokenOpenError (list Z)) :=
  let cipher_end := st_token_len s - MAC_LEN in
  let last_block := cipher_end - BLOCK_LEN in
  block ← slice token last_block cipher_end;
  tag ← slice token cipher_end (st_token_len s);
  if negb (bool_decide (hmac_finalize (hmac_update (st_hmac s) block) = tag)) then Done (Err InvalidMac) else
  token ← copy_into token last_block (decrypt_blocks (st_decryptor s) block).1;
  block ← slice token last_block cipher_end;
  match raw_unpad block with
  | None => Done (Err InvalidPadding)
  | Some unpadded => p ← slice token IV_LEN (last_block + length unpadded); Done (Ok p)
  end.

(** Absorbing at each of the lengths reached in turn, then finalizing. *)
Fixpoint absorb_all (s : TokenOpenStream) (token : list Z) (lens : list nat) : run (list Z * TokenOpenStream) :=
  match lens with
  | [] => Done (token, s)
  | n :: lens => '(_, token, s) ← absorb_to s token n; absorb_all s token lens
  end.
Definition open_stream (key : TokenKey) (token : list Z) (lens : list nat) : run (result TokenOpenError (list Z)) :=
  match begin key (take IV_LEN token) (length token) with
  | Err e => Done (Err e)
  | Ok s => '(token, s) ← absorb_all s token lens; finalize s token
  end.
End token.

(** * What sealing writes and opening reads *)

Section proofs.
Context `{TokenCryptoLaws}.
Implicit Types (key : TokenKey) (iv ct tag token out : list Z).

(** The sealed token of a plaintext. *)
Definition sealed key iv (plain : list Z) : list Z :=
  let ct := encrypt_padded (mode key) (encryption_key key) iv plain in
  iv ++ ct ++ hmac_sha256 (signing_key key) (iv ++ ct).

Lemma length_sealed key iv plain : length iv = IV_LEN → length (sealed key iv plain) = sealed_len (length plain).
Proof.
  intros Hiv. unfold sealed, hmac_sha256, sealed_len. rewrite !length_app, Hiv, encrypt_length, hmac_length. lia.
Qed.

Lemma slice_middle {A} (a b c : list A) i j :
  length a = i → i + length b = j → slice (a ++ b ++ c) i j = Done b.
Proof.
  intros <- <-. unfold slice. rewrite decide_True by (rewrite !length_app; lia).
  by rewrite drop_app_length, Nat.add_comm, Nat.add_sub, take_app_length.
Qed.

Lemma copy_front {A} (xs src post : list A) :
  length xs = length src → copy_into (xs ++ post) 0 src = Done (src ++ post).
Proof. intros Hl. exact (copy_at 0 [] xs src post eq_refl Hl). Qed.

Lemma copy_chunks_at pre old post chunks at_ :
  length pre = at_ → length old = length (concat chunks) →
  copy_chunks (pre ++ old ++ post) at_ chunks = Done (pre ++ concat chunks ++ post).
Proof.
  revert pre old at_. induction chunks as [|c chunks IH]; intros pre old at_ Hpre Hold; cbn [copy_chunks concat].
  { by destruct old. }
  rewrite concat_cons, length_app in Hold. destruct (split_block (length c) old) as (o1 & o2 & -> & Ho1); [lia|].
  rewrite length_app in Hold. rewrite <- app_assoc, copy_at by lia. cbn [mbind run_bind]. rewrite app_assoc.
  rewrite IH; [|rewrite length_app; lia|lia]. by rewrite <- !app_assoc.
Qed.

(** The shared end of both ways of sealing, on a buffer with the plaintext staged. *)
Lemma encrypt_and_mac_ok key iv plain pad mac post :
  length iv = IV_LEN → length plain + length pad = (length plain / BLOCK_LEN + 1) * BLOCK_LEN → length mac = MAC_LEN →
  encrypt_and_mac key iv (iv ++ plain ++ pad ++ mac ++ post) (length plain) (sealed_len (length plain))
  = Done (sealed key iv plain ++ post).
Proof.
  intros Hiv Hpad Hmac. unfold encrypt_and_mac, sealed_len.
  set (n := (length plain / BLOCK_LEN + 1) * BLOCK_LEN) in *.
  replace (IV_LEN + n + MAC_LEN - MAC_LEN) with (IV_LEN + n) by lia.
  rewrite (app_assoc plain), (slice_middle iv (plain ++ pad)) by (rewrite ?length_app; lia). cbn [mbind run_bind].
  rewrite take_app_length.
  pose proof (encrypt_length (mode key) (encryption_key key) iv plain) as Hct. fold n in Hct.
  rewrite (copy_at IV_LEN iv (plain ++ pad)) by (rewrite ?length_app; lia). cbn [mbind run_bind]. unfold sealed.
  set (ct := encrypt_padded (mode key) (encryption_key key) iv plain) in *. rewrite (app_assoc iv).
  rewrite slice_prefix by (rewrite length_app; lia). cbn [mbind run_bind].
  rewrite copy_at; [by rewrite <- !app_assoc|rewrite length_app; lia|]. unfold hmac_sha256. by rewrite hmac_length.
Qed.

Lemma pad_bound n : n ≤ (n / BLOCK_LEN + 1) * BLOCK_LEN.
Proof. unfold BLOCK_LEN. pose proof (Nat.div_mod_eq n 16). pose proof (Nat.mod_upper_bound n 16). lia. Qed.

(** A buffer that can hold the token, cut at the fields of the token. *)
Lemma seal_layout (n : nat) out :
  sealed_len n ≤ length out →
  ∃ a p pad mac post, out = a ++ p ++ pad ++ mac ++ post ∧ length a = IV_LEN ∧ length p = n
    ∧ n + length pad = (n / BLOCK_LEN + 1) * BLOCK_LEN ∧ length mac = MAC_LEN ∧ post = drop (sealed_len n) out.
Proof.
  intros Hl. pose proof (pad_bound n) as Hp. unfold sealed_len in *.
  destruct (split_block IV_LEN out) as (a & o1 & -> & Ha); [lia|]. rewrite length_app in Hl.
  destruct (split_block n o1) as (p & o2 & -> & Hpl); [lia|]. rewrite length_app in Hl.
  destruct (split_block ((n / BLOCK_LEN + 1) * BLOCK_LEN - n) o2) as (pad & o3 & -> & Hpad); [lia|]. rewrite length_app in Hl.
  destruct (split_block MAC_LEN o3) as (mac & post & -> & Hmac); [lia|].
  exists a, p, pad, mac, post. conj; [done..|lia|done|].
  rewrite !app_assoc. rewrite drop_app_length'; [done|]. rewrite !length_app. lia.
Qed.

Lemma token_seal_chunks_ok key iv chunks out :
  length iv = IV_LEN →
  token_seal_chunks key iv chunks out =
  let n := sealed_len (length (concat chunks)) in
  Done (if (length out <? n)%nat then (Err SealBufferTooShort, out)
        else (Ok n, sealed key iv (concat chunks) ++ drop n out)).
Proof.
  intros Hiv. unfold token_seal_chunks. cbn zeta. destruct (Nat.ltb_spec (length out) (sealed_len (length (concat chunks)))) as [|Hge]; [done|].
  destruct (seal_layout _ out Hge) as (a & p & pad & mac & post & Eout & Ha & Hp & Hpad & Hmac & Hpost).
  rewrite <- Hpost. rewrite Eout at 1. rewrite copy_front by (by rewrite Ha). cbn [mbind run_bind].
  rewrite copy_chunks_at by done. cbn [mbind run_bind].
  rewrite encrypt_and_mac_ok by done. done.
Qed.

(** Sealing a plaintext already in place writes the same token. *)
Lemma token_seal_in_place_ok key iv plain a pad_mac_post :
  length iv = IV_LEN → length a = IV_LEN →
  token_seal_in_place key iv (a ++ plain ++ pad_mac_post) (length plain)
  = token_seal key iv plain (a ++ plain ++ pad_mac_post).
Proof.
  intros Hiv Ha. unfold token_seal. rewrite token_seal_chunks_ok by done. cbn zeta. cbn [concat]. rewrite app_nil_r.
  unfold token_seal_in_place. destruct (Nat.ltb_spec (length (a ++ plain ++ pad_mac_post)) (sealed_len (length plain))) as [|Hge]; [done|].
  destruct (seal_layout _ _ Hge) as (a' & p & pad & mac & post & Eout & Ha' & Hp & Hpad & Hmac & Hpost).
  rewrite <- Hpost. apply app_inj_1 in Eout as [<- Eout]; [|by rewrite Ha, Ha'].
  apply app_inj_1 in Eout as [<- ->]; [|done].
  rewrite copy_front by (by rewrite Ha). cbn [mbind run_bind]. by rewrite encrypt_and_mac_ok.
Qed.

(** ** Opening *)

(** The verdict on a token of whole blocks. *)
Definition verdict key iv ct tag : result TokenOpenError (list Z) :=
  if negb (bool_decide (hmac_sha256 (signing_key key) (iv ++ ct) = tag)) then Err InvalidMac else
  let plain := (decrypt_blocks (decryptor_new (mode key) (encryption_key key) iv) ct).1 in
  match raw_unpad (drop (length ct - BLOCK_LEN) plain) with
  | None => Err InvalidPadding
  | Some r => Ok (take (length ct - BLOCK_LEN + length r) plain)
  end.

Lemma authenticate_parts key iv ct tag :
  length iv = IV_LEN → BLOCK_LEN ≤ length ct → length tag = MAC_LEN →
  authenticate key (iv ++ ct ++ tag)
  = if negb (bool_decide (hmac_sha256 (signing_key key) (iv ++ ct) = tag)) then Err InvalidMac else Ok (iv, ct).
Proof.
  intros Hiv Hct Htag. unfold authenticate, hmac_sha256_verify. rewrite !length_app, Hiv, Htag.
  rewrite (proj2 (Nat.ltb_ge _ _)) by lia. replace (IV_LEN + (length ct + MAC_LEN) - MAC_LEN) with (length (iv ++ ct)) by (rewrite length_app; lia).
  rewrite (app_assoc iv), take_app_length, drop_app_length. rewrite <- Hiv, take_app_length, drop_app_length. done.
Qed.

Lemma token_open_in_place_ok key iv ct tag :
  length iv = IV_LEN → BLOCK_LEN ≤ length ct → length ct mod BLOCK_LEN = 0 → length tag = MAC_LEN →
  token_open_in_place key (iv ++ ct ++ tag) = Done (verdict key iv ct tag).
Proof.
  intros Hiv Hct Hmod Htag. unfold token_open_in_place, verdict. rewrite authenticate_parts by done.
  case_bool_decide; cbn [negb]; [|done]. rewrite Hmod. cbn [Nat.eqb negb].
  rewrite decrypt_padded_blocks by done. cbn zeta.
  set (plain := (decrypt_blocks _ ct).1). assert (Hpl : length plain = length ct) by apply decrypt_length.
  destruct (raw_unpad _) as [r|] eqn:Er; [|done]. cbn [fmap option_fmap option_map].
  apply unpad_prefix in Er as [k Er]. apply (f_equal length) in Er. rewrite length_drop, length_app in Er.
  unfold slice. rewrite decide_True by lia. cbn [mbind run_bind]. by rewrite Nat.sub_0_r, drop_0.
Qed.

Lemma verdict_sealed key iv plain :
  length iv = IV_LEN →
  let ct := encrypt_padded (mode key) (encryption_key key) iv plain in
  verdict key iv ct (hmac_sha256 (signing_key key) (iv ++ ct)) = Ok plain.
Proof.
  intros Hiv ct. unfold verdict. rewrite bool_decide_true by done. cbn [negb].
  destruct (decrypt_encrypt (mode key) (encryption_key key) iv plain) as (rest & E). fold ct in E.
  pose proof (encrypt_length (mode key) (encryption_key key) iv plain) as Hl. fold ct in Hl.
  rewrite decrypt_padded_blocks in E; [|rewrite Hl; apply Nat.Div0.mod_mul|rewrite Hl; unfold BLOCK_LEN; lia].
  cbn zeta in E. injection E as E1 E2. rewrite E2 in *. destruct (raw_unpad _) as [r|]; [|done]. cbn in E1. injection E1 as ->.
  by rewrite take_app_length.
Qed.

(** ** Opening as the bytes arrive *)

(** The stream after the first blocks [c1] of the ciphertext: they are authenticated and decrypted, and
    the buffer holds their plaintext. *)
Record absorbed key iv (c1 c2 tag : list Z) (s : TokenOpenStream) (token : list Z) : Prop := {
  ab_hmac : st_hmac s = hmac_update (hmac_keyed (signing_key key)) (iv ++ c1);
  ab_decryptor : st_decryptor s = (decrypt_blocks (decryptor_new (mode key) (encryption_key key) iv) c1).2;
  ab_len : st_token_len s = IV_LEN + (length c1 + length c2) + MAC_LEN;
  ab_count : st_absorbed s = IV_LEN + length c1;
  ab_token : token = iv ++ (decrypt_blocks (decryptor_new (mode key) (encryption_key key) iv) c1).1 ++ c2 ++ tag;
  ab_blocks : length c1 mod BLOCK_LEN = 0;
  ab_iv : length iv = IV_LEN;
}.

Lemma absorb_span_ok key iv c1 x c2 tag s token :
  absorbed key iv c1 (x ++ c2) tag s token → length x mod BLOCK_LEN = 0 →
  ∃ plain token' s', absorb_span s x = (plain, s')
    ∧ copy_into token (st_absorbed s) plain = Done token' ∧ absorbed key iv (c1 ++ x) c2 tag s' token'.
Proof.
  intros [Hh Hd Hlen Hcount Htok Hb Hiv] Hx. set (d0 := decryptor_new _ _ iv) in *.
  pose proof (decrypt_app d0 c1 x Hb) as Happ. pose proof (decrypt_length d0 c1) as Hl1.
  destruct (decrypt_blocks d0 c1) as [p1 d1] eqn:E1. cbn [fst snd] in *.
  pose proof (decrypt_length d1 x) as Hlx. destruct (decrypt_blocks d1 x) as [px d2] eqn:Ex. cbn [fst snd] in *.
  assert (Hblocks : length (c1 ++ x) mod BLOCK_LEN = 0).
  { rewrite length_app, Nat.Div0.add_mod, Hb, Hx. done. }
  assert (Hcopy : copy_into token (st_absorbed s) px = Done (iv ++ (p1 ++ px) ++ c2 ++ tag)).
  { rewrite Htok, <- !app_assoc, (app_assoc iv), copy_at; [by rewrite <- !app_assoc|rewrite length_app; lia|lia]. }
  destruct x as [|b x'].
  - destruct px; [|done]. exists [], token, s. split; [done|]. split.
    { rewrite Hcopy, Htok. by rewrite !app_nil_r. }
    rewrite app_nil_r. split; fold d0; rewrite ?E1; done.
  - unfold absorb_span. rewrite Hd, Ex.
    eexists _, _, _. split; [done|]. split; [exact Hcopy|].
    split; cbn [st_hmac st_decryptor st_token_len st_absorbed]; fold d0; rewrite ?Happ; try done.
    + by rewrite Hh, hmac_update_app, <- app_assoc.
    + rewrite Hlen, !length_app. lia.
    + rewrite Hcount, length_app. lia.
Qed.

(** Where the next call stops: on a block boundary, before the last block. *)
Lemma pending_split key iv c1 c2 tag s token n :
  absorbed key iv c1 c2 tag s token → (length c1 + length c2) mod BLOCK_LEN = 0 → BLOCK_LEN ≤ length c2 →
  ∃ x c2', c2 = x ++ c2' ∧ length x mod BLOCK_LEN = 0 ∧ BLOCK_LEN ≤ length c2'
    ∧ pending_span s n = (st_absorbed s, st_absorbed s + length x)
    ∧ (length c1 + length c2 ≤ n → length c2' = BLOCK_LEN).
Proof.
  intros [_ _ Hlen Hcount _ Hb Hiv] Hmod Hc2. unfold pending_span. rewrite Hlen, Hcount.
  remember (length c1 + length c2) as total eqn:Htotal.
  replace (IV_LEN + total + MAC_LEN - MAC_LEN - BLOCK_LEN) with total by (unfold IV_LEN, BLOCK_LEN, MAC_LEN; lia).
  set (whole := IV_LEN + (min n total - IV_LEN) / BLOCK_LEN * BLOCK_LEN).
  apply Nat.Div0.mod_divides in Hb as [b1 Hb1]. apply Nat.Div0.mod_divides in Hmod as [bt Hbt].
  assert (Hw : ∃ k, whole = 16 + k * 16 ∧ k ≤ bt - 1 ∧ (total ≤ n → k = bt - 1)).
  { exists ((min n total - IV_LEN) / BLOCK_LEN). split; [done|]. unfold IV_LEN, BLOCK_LEN in *. split.
    - apply Nat.Div0.div_le_upper_bound. lia.
    - intros Hn. replace (min n total - 16) with ((bt - 1) * 16) by lia. by apply Nat.div_mul. }
  destruct Hw as (k & Hw & Hk & Hkn). unfold BLOCK_LEN, IV_LEN in *.
  assert (Hm : max whole (16 + length c1) - (16 + length c1) = (max k b1 - b1) * 16) by lia.
  destruct (split_block ((max k b1 - b1) * 16) c2) as (x & c2' & -> & Hx); [lia|]. rewrite length_app in Htotal, Hc2.
  exists x, c2'. conj; [done| | | |].
  - rewrite Hx. apply Nat.Div0.mod_mul.
  - lia.
  - f_equal. lia.
  - intros Hn. specialize (Hkn Hn). lia.
Qed.

Lemma absorb_to_ok key iv c1 c2 tag s token n :
  absorbed key iv c1 c2 tag s token → (length c1 + length c2) mod BLOCK_LEN = 0 → BLOCK_LEN ≤ length c2 →
  ∃ x c2' plain token' s', c2 = x ++ c2' ∧ absorb_to s token n = Done (plain, token', s')
    ∧ absorbed key iv (c1 ++ x) c2' tag s' token' ∧ BLOCK_LEN ≤ length c2'
    ∧ (length c1 + length c2 ≤ n → length c2' = BLOCK_LEN).
Proof.
  intros Hab Hmod Hc2. destruct (pending_split key iv c1 c2 tag s token n Hab Hmod Hc2) as (x & c2' & -> & Hx & Hc2' & Hp & Hlast).
  destruct (absorb_span_ok key iv c1 x c2' tag s token Hab Hx) as (plain & token' & s' & Es & Ec & Hab').
  exists x, c2', plain, token', s'. split; [done|]. split; [|done]. unfold absorb_to. rewrite Hp.
  destruct Hab as [_ _ _ Hcount Htok _ Hiv].
  assert (Hslice : slice token (st_absorbed s) (st_absorbed s + length x) = Done x).
  { rewrite Htok, <- !app_assoc, (app_assoc iv). apply slice_middle; [|done]. rewrite length_app, decrypt_length. lia. }
  rewrite Hslice. cbn [mbind run_bind]. rewrite Es, Ec. done.
Qed.

Lemma absorb_all_ok key iv c1 c2 tag s token lens :
  absorbed key iv c1 c2 tag s token → (length c1 + length c2) mod BLOCK_LEN = 0 → BLOCK_LEN ≤ length c2 →
  ∃ x c2' token' s', c2 = x ++ c2' ∧ absorb_all s token lens = Done (token', s')
    ∧ absorbed key iv (c1 ++ x) c2' tag s' token' ∧ BLOCK_LEN ≤ length c2'
    ∧ (Exists (λ n, length c1 + length c2 ≤ n) lens → length c2' = BLOCK_LEN).
Proof.
  revert c1 c2 s token. induction lens as [|n lens IH]; intros c1 c2 s token Hab Hmod Hc2; cbn [absorb_all].
  { exists [], c2, token, s. rewrite app_nil_r. split; [done|]. split; [done|]. split; [done|]. split; [done|].
    intros He. inversion He. }
  destruct (absorb_to_ok key iv c1 c2 tag s token n Hab Hmod Hc2) as (x & c2' & plain & t1 & s1 & -> & -> & Hab1 & Hc2' & Hl1).
  cbn [mbind run_bind]. assert (Hlen : length (c1 ++ x) + length c2' = length c1 + length (x ++ c2')) by (rewrite !length_app; lia).
  destruct (IH _ _ _ _ Hab1 ltac:(by rewrite Hlen) Hc2') as (y & c2'' & t2 & s2 & -> & -> & Hab2 & Hc2'' & Hl2).
  exists (x ++ y), c2'', t2, s2. split; [by rewrite app_assoc|]. split; [done|]. split; [by rewrite app_assoc|].
  split; [done|]. rewrite Hlen in Hl2. intros He. inversion He as [? ? Hn|? ? He']; subst.
  - specialize (Hl1 Hn). rewrite length_app in Hl1. lia.
  - by apply Hl2.
Qed.

Lemma finalize_ok key iv c1 c2 tag s token :
  absorbed key iv c1 c2 tag s token → length c2 = BLOCK_LEN → length tag = MAC_LEN →
  finalize s token = Done (verdict key iv (c1 ++ c2) tag).
Proof.
  intros [Hh Hd Hlen Hcount Htok Hb Hiv] Hc2 Htag. unfold finalize, verdict, hmac_sha256. rewrite Hlen, Hh, Hd.
  set (d0 := decryptor_new _ _ iv) in *.
  pose proof (decrypt_app d0 c1 c2 Hb) as Happ. pose proof (decrypt_length d0 c1) as Hl1.
  destruct (decrypt_blocks d0 c1) as [p1 d1]. cbn [fst snd] in *.
  pose proof (decrypt_length d1 c2) as Hl2. destruct (decrypt_blocks d1 c2) as [p2 d2] eqn:E2. cbn [fst snd] in *.
  replace (IV_LEN + (length c1 + length c2) + MAC_LEN - MAC_LEN) with (IV_LEN + length c1 + BLOCK_LEN) by lia.
  rewrite Nat.add_sub, Htok, (app_assoc iv).
  rewrite (slice_middle (iv ++ p1) c2 tag (IV_LEN + length c1) (IV_LEN + length c1 + BLOCK_LEN)) by (rewrite ?length_app; lia).
  cbn [mbind run_bind].
  assert (Htagslice : slice ((iv ++ p1) ++ c2 ++ tag) (IV_LEN + length c1 + BLOCK_LEN) (IV_LEN + (length c1 + length c2) + MAC_LEN) = Done tag).
  { rewrite (app_assoc _ c2 tag), <- (app_nil_r tag) at 1.
    apply slice_middle; rewrite ?length_app; lia. }
  rewrite Htagslice. cbn [mbind run_bind]. rewrite hmac_update_app, <- (app_assoc iv c1 c2).
  case_bool_decide; cbn [negb]; [|done]. rewrite E2. cbn [fst]. rewrite (copy_at _ (iv ++ p1) c2) by (rewrite ?length_app; lia). cbn [mbind run_bind].
  rewrite (slice_middle (iv ++ p1) p2) by (rewrite ?length_app; lia). cbn [mbind run_bind]. fold d0. rewrite Happ. cbn [fst].
  rewrite length_app, Hc2, Nat.add_sub, <- Hl1, drop_app_length.
  destruct (raw_unpad p2) as [r|] eqn:Er; [|done]. apply unpad_prefix in Er as [rest ->]. rewrite length_app in Hl2.
  rewrite <- !app_assoc, (app_assoc p1 r). rewrite (slice_middle iv (p1 ++ r)) by (rewrite ?length_app; lia). cbn [mbind run_bind].
  rewrite (app_assoc p1 r), take_app_length' by (rewrite length_app; lia). done.
Qed.

Lemma token_open_ok key iv ct tag out :
  length iv = IV_LEN → BLOCK_LEN ≤ length ct → length ct mod BLOCK_LEN = 0 → length tag = MAC_LEN →
  length ct ≤ length out →
  ∃ out', token_open key (iv ++ ct ++ tag) out
      = Done (match verdict key iv ct tag with Ok p => Ok (length p) | Err e => Err e end, out')
    ∧ ∀ p, verdict key iv ct tag = Ok p → take (length p) out' = p.
Proof.
  intros Hiv Hct Hmod Htag Hout. unfold token_open, verdict. rewrite authenticate_parts by done.
  case_bool_decide; cbn [negb]; [|by eexists]. rewrite Hmod. cbn [Nat.eqb negb].
  rewrite (proj2 (Nat.ltb_ge _ _)) by done. destruct (split_block (length ct) out Hout) as (o1 & o2 & -> & Ho1).
  rewrite copy_front by done. cbn [mbind run_bind]. rewrite slice_prefix by done. cbn [mbind run_bind].
  rewrite decrypt_padded_blocks by done. cbn zeta. set (plain := (decrypt_blocks _ ct).1).
  assert (Hpl : length plain = length ct) by apply decrypt_length. rewrite copy_front by done. cbn [mbind run_bind].
  destruct (raw_unpad _) as [r|] eqn:Er; cbn [fmap option_fmap option_map]; [|by eexists].
  apply unpad_prefix in Er as [k Er]. apply (f_equal length) in Er. rewrite length_drop, length_app in Er.
  eexists. split; [rewrite length_take_le by lia; done|]. intros p [= <-]. rewrite length_take_le by lia. by rewrite take_app_le by lia.
Qed.

(** C34. Sealing and opening are inverse.  A plaintext of any length, sealed under a key with a vector of 16
    bytes into a buffer that can hold it, fills exactly [sealed_len] bytes of the buffer; that token is
    authentic, and opens in place and into another buffer to the plaintext. *)
Theorem token_roundtrip key iv plain out buf :
  length iv = IV_LEN → sealed_len (length plain) ≤ length out → sealed_len (length plain) - TOKEN_OVERHEAD ≤ length buf →
  ∃ token, token_seal key iv plain out = Done (Ok (length token), token ++ drop (length token) out)
    ∧ length token = sealed_len (length plain) ∧ token_is_authentic key token = true
    ∧ token_open_in_place key token = Done (Ok plain)
    ∧ ∃ buf', token_open key token buf = Done (Ok (length plain), buf') ∧ take (length plain) buf' = plain.
Proof.
  intros Hiv Hout Hbuf. set (ct := encrypt_padded (mode key) (encryption_key key) iv plain).
  pose proof (encrypt_length (mode key) (encryption_key key) iv plain) as Hl. fold ct in Hl.
  assert (Hct : BLOCK_LEN ≤ length ct) by (rewrite Hl; unfold BLOCK_LEN; lia).
  assert (Hmod : length ct mod BLOCK_LEN = 0) by (rewrite Hl; apply Nat.Div0.mod_mul).
  set (tag := hmac_sha256 (signing_key key) (iv ++ ct)). assert (Htag : length tag = MAC_LEN) by apply hmac_length.
  pose proof (verdict_sealed key iv plain Hiv) as Hv. cbn zeta in Hv. fold ct tag in Hv.
  exists (iv ++ ct ++ tag). pose proof (length_sealed key iv plain Hiv) as Hlen. unfold sealed in Hlen. fold ct tag in Hlen.
  conj.
  - unfold token_seal. rewrite token_seal_chunks_ok by done. cbn zeta. cbn [concat]. rewrite app_nil_r.
    rewrite (proj2 (Nat.ltb_ge _ _)) by done. rewrite Hlen. done.
  - exact Hlen.
  - unfold token_is_authentic, hmac_sha256_verify. rewrite !length_app, Hiv, Htag.
    rewrite (proj2 (Nat.ltb_ge _ _)) by lia. replace (IV_LEN + (length ct + MAC_LEN) - MAC_LEN) with (length (iv ++ ct)) by (rewrite length_app; lia).
    rewrite (app_assoc iv), take_app_length, drop_app_length. by apply bool_decide_true.
  - by rewrite token_open_in_place_ok, Hv.
  - destruct (token_open_ok key iv ct tag buf) as (buf' & E & Hp); try done.
    { unfold sealed_len, TOKEN_OVERHEAD in Hbuf. lia. }
    rewrite Hv in E. exists buf'. split; [done|]. by apply Hp.
Qed.

(** C35. Opening a token as its bytes arrive gives the verdict of opening it at once.  For a token of whole
    blocks, absorbed at any sequence of lengths of which one covers all but the last block, the stream
    returns the same plaintext, or the same error, as [token_open_in_place]. *)
Theorem stream_opens_as_whole key token lens :
  IV_LEN + BLOCK_LEN + MAC_LEN ≤ length token → (length token - TOKEN_OVERHEAD) mod BLOCK_LEN = 0 →
  Exists (λ n, length token - TOKEN_OVERHEAD ≤ n) lens →
  open_stream key token lens = token_open_in_place key token.
Proof.
  intros Hlen Hmod Hlens. unfold IV_LEN, BLOCK_LEN, MAC_LEN in Hlen.
  destruct (split_block IV_LEN token) as (iv & rest & -> & Hiv); [unfold IV_LEN; lia|]. rewrite length_app, Hiv in Hlen.
  destruct (split_block (length rest - MAC_LEN) rest) as (ct & tag & -> & Hct); [lia|].
  rewrite length_app in Hct, Hlen. unfold IV_LEN, BLOCK_LEN, MAC_LEN in *.
  assert (Hl : length (iv ++ ct ++ tag) - TOKEN_OVERHEAD = length ct).
  { unfold TOKEN_OVERHEAD, IV_LEN, MAC_LEN. rewrite !length_app. lia. }
  rewrite Hl in Hmod, Hlens. change (length ct mod BLOCK_LEN = 0) in Hmod. rewrite token_open_in_place_ok; try (unfold IV_LEN, BLOCK_LEN, MAC_LEN; done || lia).
  unfold open_stream, begin. rewrite Hl, Hmod. cbn [Nat.eqb negb]. rewrite orb_false_r.
  rewrite (proj2 (Nat.ltb_ge _ _)) by (unfold IV_LEN, BLOCK_LEN, MAC_LEN; rewrite !length_app; lia).
  rewrite take_app_length' by (unfold IV_LEN; lia).
  match goal with |- context [absorb_all ?s0 _ _] => assert (Hab : absorbed key iv [] ct tag s0 (iv ++ ct ++ tag)) end.
  { assert (Hnil : decrypt_blocks (decryptor_new (mode key) (encryption_key key) iv) [] = ([], decryptor_new (mode key) (encryption_key key) iv)) by apply decrypt_nil.
    split; cbn [st_hmac st_decryptor st_token_len st_absorbed]; rewrite ?Hnil, ?app_nil_r, ?length_app; unfold IV_LEN, MAC_LEN; try done; cbn; lia. }
  destruct (absorb_all_ok key iv [] ct tag _ _ lens Hab) as (x & c2 & t & s & -> & E & Hab' & _ & Hlast);
    [done|unfold BLOCK_LEN; cbn; lia|].
  rewrite E. cbn [mbind run_bind]. rewrite (finalize_ok key iv x c2 tag s t); [done|exact Hab'|by apply Hlast|unfold MAC_LEN; lia].
Qed.
End proofs.

(** * A cipher that only pads *)

Module Padding.
Definition pad (plain : list Z) : list Z :=
  let k := BLOCK_LEN - length plain mod BLOCK_LEN in plain ++ replicate k (Z.of_nat k).
Definition unpad (block : list Z) : option (list Z) :=
  match list.last block with
  | Some k => if decide (1 ≤ k ≤ 16)%Z then Some (take (length block - Z.to_nat k) block) else None
  | None => None
  end.
Definition checksum (message : list Z) : list Z := replicate MAC_LEN (wrap 8 (foldr Z.add 0%Z message)).

#[global] Instance crypto : TokenCrypto := {|
  hmac_state := list Z;
  hmac_keyed := λ key, key;
  hmac_update := λ s a, s ++ a;
  hmac_finalize := checksum;
  decryptor := unit;
  decryptor_new := λ _ _ _, tt;
  decrypt_blocks := λ d region, (region, d);
  raw_unpad := unpad;
  decrypt_padded_mut := λ _ region,
    ((λ r : list Z, length region - BLOCK_LEN + length r) <$> unpad (drop (length region - BLOCK_LEN) region), region);
  encrypt_padded := λ _ _ _ plain, pad plain;
|}.

Lemma length_pad plain : length (pad plain) = (length plain / BLOCK_LEN + 1) * BLOCK_LEN.
Proof.
  unfold pad, BLOCK_LEN. rewrite length_app, length_replicate.
  pose proof (Nat.div_mod_eq (length plain) 16). pose proof (Nat.mod_upper_bound (length plain) 16). lia.
Qed.

Lemma unpad_pad plain :
  (λ r : list Z, length (pad plain) - BLOCK_LEN + length r) <$> unpad (drop (length (pad plain) - BLOCK_LEN) (pad plain))
  = Some (length plain).
Proof.
  rewrite length_pad. pose proof (Nat.div_mod_eq (length plain) 16) as Hd. pose proof (Nat.mod_upper_bound (length plain) 16) as Hm.
  unfold pad, BLOCK_LEN in *. set (q := length plain / 16) in *. set (r := length plain mod 16) in *.
  replace ((q + 1) * 16 - 16) with (q * 16) by lia. rewrite drop_app_le by lia. unfold unpad.
  destruct (16 - r) as [|k] eqn:Ek; [lia|]. rewrite replicate_S_end, app_assoc, last_snoc.
  rewrite decide_True by lia. cbn [fmap option_fmap option_map]. f_equal.
  rewrite length_take, !length_app, length_drop, length_replicate. cbn [length]. lia.
Qed.

#[global] Instance crypto_laws : TokenCryptoLaws.
Proof.
  split; cbn.
  - intros s a b. by rewrite app_assoc.
  - intros s. done.
  - done.
  - done.
  - done.
  - intros block r. unfold unpad. destruct (list.last block); [|done]. case_decide; [|done]. intros [= <-].
    eexists. symmetry. apply take_drop.
  - done.
  - intros _ _ _ plain. apply length_pad.
  - intros _ _ _ plain. rewrite unpad_pad. unfold pad. by eexists.
Qed.

Definition key : TokenKey := from_aes256 (replicate 64 7%Z).
Definition iv : list Z := replicate 16 1%Z.
End Padding.

Lemma token_roundtrip_witness :
  ∃ token, token_seal Padding.key Padding.iv [1; 2; 3]%Z (replicate 70 0%Z) = Done (Ok 64, token ++ replicate 6 0%Z)
    ∧ token_open_in_place Padding.key token = Done (Ok [1; 2; 3]%Z).
Proof.
  destruct (token_roundtrip Padding.key Padding.iv [1; 2; 3]%Z (replicate 70 0%Z) (replicate 16 0%Z)) as (token & E & Hl & _ & Eo & _);
    [reflexivity|apply Nat.leb_le; reflexivity|apply Nat.leb_le; reflexivity|].
  exists token. rewrite Hl in E. split; [exact E|exact Eo].
Defined.

(** A token of 80 bytes, arriving 20, 37 and 60 bytes at a time, and a forged one. *)
Lemma stream_opens_as_whole_witness :
  let token := sealed Padding.key Padding.iv (replicate 20 9%Z) in
  open_stream Padding.key token [20; 37; 60; 80] = token_open_in_place Padding.key token
  ∧ open_stream Padding.key token [20; 37; 60; 80] = Done (Ok (replicate 20 9%Z))
  ∧ open_stream Padding.key (<[70 := 0%Z]> token) [80] = Done (Err InvalidMac).
Proof.
  intros token. split; [|split; vm_compute; reflexivity].
  apply stream_opens_as_whole; [apply Nat.leb_le; reflexivity|reflexivity|].
  apply Exists_cons. right. apply Exists_cons. left. apply Nat.leb_le. reflexivity.
Defined.
