(* ===== verification/SpecialFinder.v ===== *)
(** Finding the next delimiter: [find_special] of
    [prns-core/src/interfaces/framing/rns_serial_framing.rs].

    The file has a vectorised search on the hosts (the [memchr] crate) and two
    word-at-a-time searches for the embedded targets.  All of them must return the first
    [FLAG] or [ESC]; the framing code is proved against that interface. *)

From S2P Require Import Prelude.
#[local] Open Scope Z_scope.

Definition FLAG : Z := 0x7E.
Definition ESC : Z := 0x7D.

Definition is_special (byte : Z) : bool := (byte =? FLAG) || (byte =? ESC).

(** [iter().position(|&byte| byte == FLAG || byte == ESC)] *)
Fixpoint position_special (xs : list Z) : option nat :=
  match xs with
  | [] => None
  | b :: xs => if is_special b then Some 0%nat else S <$> position_special xs
  end.

(** What every variant of [find_special] promises to the framing code. *)
Class SpecialFinder := {
  find_special : list Z → option nat;
  find_special_spec xs : Forall is_u8 xs → find_special xs = position_special xs;
}.

(** ** The host variants *)

(** [memchr::memchr2(FLAG, ESC, haystack)], and the vectorised finder when the CPU has it. *)
Definition find_special_std (finder : option (list Z → option nat))
    (memchr2 : Z → Z → list Z → option nat) (haystack : list Z) : option nat :=
  match finder with
  | Some find => find haystack
  | None => memchr2 FLAG ESC haystack
  end.

(** ** The word-at-a-time variants *)

Definition ONES : Z := 0x0101010101010101.
Definition HIGHS : Z := 0x8080808080808080.
Definition FLAG_REP : Z := FLAG * ONES.
Definition ESC_REP : Z := ESC * ONES.

(** [((f - ONES) & !f) | ((e - ONES) & !e)) & HIGHS] of one 64-bit word. *)
Definition word_marks (word : Z) : Z :=
  let f := Z.lxor word FLAG_REP in
  let e := Z.lxor word ESC_REP in
  Z.land (Z.lor (Z.land (wrapping_sub 64 f ONES) (not_w 64 f))
                (Z.land (wrapping_sub 64 e ONES) (not_w 64 e))) HIGHS.

(** The chunks loop of the 64-bit embedded variant: 16-byte chunks, two words each. *)
Fixpoint scan_chunks16 (fuel chunk_index : nat) (haystack : list Z) : option nat :=
  match fuel with
  | O => None
  | S fuel =>
      if decide (length haystack < 16)%nat then
        (λ offset, (chunk_index * 16 + offset)%nat) <$> position_special haystack
      else
        let word := from_le_bytes (take 16 haystack) in
        let low_marks := word_marks (word mod 2 ^ 64) in
        if negb (low_marks =? 0) then
          Some (chunk_index * 16 + trailing_zeros 64 low_marks / 8)%nat
        else
          let high_marks := word_marks (Z.shiftr word 64) in
          if negb (high_marks =? 0) then
            Some (chunk_index * 16 + 8 + trailing_zeros 64 high_marks / 8)%nat
          else scan_chunks16 fuel (S chunk_index) (drop 16 haystack)
  end.

Definition find_special_wide (haystack : list Z) : option nat :=
  scan_chunks16 (S (length haystack)) 0 haystack.

(** The 32-bit embedded variant: 8-byte chunks. *)
Fixpoint scan_chunks8 (fuel chunk_index : nat) (haystack : list Z) : option nat :=
  match fuel with
  | O => None
  | S fuel =>
      if decide (length haystack < 8)%nat then
        (λ offset, (chunk_index * 8 + offset)%nat) <$> position_special haystack
      else
        let marks := word_marks (from_le_bytes (take 8 haystack)) in
        if negb (marks =? 0) then
          Some (chunk_index * 8 + trailing_zeros 64 marks / 8)%nat
        else scan_chunks8 fuel (S chunk_index) (drop 8 haystack)
  end.

Definition find_special_narrow (haystack : list Z) : option nat :=
  scan_chunks8 (S (length haystack)) 0 haystack.

(** ** The mark word of [n] bytes

    [word_marks] at any width of [n] bytes, so that the argument is by induction on the
    bytes from the least significant one. *)

Fixpoint rep (c : Z) (n : nat) : Z :=
  match n with O => 0 | S n => c + 256 * rep c n end.

Definition marks (n : nat) (w : Z) : Z :=
  let W := 8 * Z.of_nat n in
  let f := Z.lxor w (rep FLAG n) in
  let e := Z.lxor w (rep ESC n) in
  Z.land (Z.lor (Z.land (wrapping_sub W f (rep 1 n)) (not_w W f))
                (Z.land (wrapping_sub W e (rep 1 n)) (not_w W e))) (rep 128 n).

Lemma word_marks_8 w : word_marks w = marks 8 w.
Proof. reflexivity. Qed.

(** Bitwise operations act on the low byte and the rest separately. *)
Lemma byte_split z : z = z mod 256 + 256 * (z / 256).
Proof. rewrite Z.add_comm. apply Z.div_mod. lia. Qed.

Lemma eq_by_bytes x y : x mod 256 = y mod 256 → x / 256 = y / 256 → x = y.
Proof. intros H1 H2. rewrite (byte_split x), (byte_split y). congruence. Qed.

Lemma land_mod x y : Z.land x y mod 256 = Z.land (x mod 256) (y mod 256).
Proof.
  change 256 with (2 ^ 8). rewrite <- !Z.land_ones by lia.
  apply Z.bits_inj_iff'. intros i Hi. rewrite !Z.land_spec.
  destruct (Z.testbit x i), (Z.testbit y i), (Z.testbit (Z.ones 8) i); done.
Qed.
Lemma lor_mod x y : Z.lor x y mod 256 = Z.lor (x mod 256) (y mod 256).
Proof.
  change 256 with (2 ^ 8). rewrite <- !Z.land_ones by lia. apply Z.land_lor_distr_l.
Qed.
Lemma lxor_mod x y : Z.lxor x y mod 256 = Z.lxor (x mod 256) (y mod 256).
Proof.
  change 256 with (2 ^ 8). rewrite <- !Z.land_ones by lia.
  apply Z.bits_inj_iff'. intros i Hi. rewrite !Z.lxor_spec, !Z.land_spec, Z.lxor_spec.
  destruct (Z.testbit x i), (Z.testbit y i), (Z.testbit (Z.ones 8) i); done.
Qed.
Lemma land_div x y : Z.land x y / 256 = Z.land (x / 256) (y / 256).
Proof. change 256 with (2 ^ 8). rewrite <- !Z.shiftr_div_pow2 by lia. apply Z.shiftr_land. Qed.
Lemma lor_div x y : Z.lor x y / 256 = Z.lor (x / 256) (y / 256).
Proof. change 256 with (2 ^ 8). rewrite <- !Z.shiftr_div_pow2 by lia. apply Z.shiftr_lor. Qed.
Lemma lxor_div x y : Z.lxor x y / 256 = Z.lxor (x / 256) (y / 256).
Proof. change 256 with (2 ^ 8). rewrite <- !Z.shiftr_div_pow2 by lia. apply Z.shiftr_lxor. Qed.

Lemma add_byte_mod a k : (a + 256 * k) mod 256 = a mod 256.
Proof. rewrite Z.mul_comm. apply Z.mod_add. lia. Qed.
Lemma add_byte_div a k : 0 ≤ a < 256 → (a + 256 * k) / 256 = k.
Proof. intros. rewrite Z.mul_comm, Z.div_add, Z.div_small; lia. Qed.

Lemma cons_mod b w : is_u8 b → (b + 256 * w) mod 256 = b.
Proof. intros. unfold in_width in *. rewrite Z.mul_comm, Z.mod_add, Z.mod_small; lia. Qed.
Lemma cons_div b w : is_u8 b → (b + 256 * w) / 256 = w.
Proof. intros. unfold in_width in *. rewrite Z.mul_comm, Z.div_add, Z.div_small; lia. Qed.

Create Rewrite HintDb bytes.
#[local] Hint Rewrite land_mod lor_mod lxor_mod land_div lor_div lxor_div : bytes.

Lemma width_succ n : 2 ^ (8 * Z.of_nat (S n)) = 256 * 2 ^ (8 * Z.of_nat n).
Proof.
  rewrite Nat2Z.inj_succ. replace (8 * Z.succ (Z.of_nat n)) with (8 + 8 * Z.of_nat n) by lia.
  rewrite Z.pow_add_r by lia. reflexivity.
Qed.

Lemma not_bytes n x :
  not_w (8 * Z.of_nat (S n)) x
  = (255 - x mod 256) + 256 * not_w (8 * Z.of_nat n) (x / 256).
Proof. unfold not_w, max_width. rewrite width_succ. pose proof (byte_split x). lia. Qed.

Lemma not_mod n x : not_w (8 * Z.of_nat (S n)) x mod 256 = 255 - x mod 256.
Proof.
  rewrite not_bytes, add_byte_mod. pose proof (Z.mod_pos_bound x 256). apply Z.mod_small. lia.
Qed.
Lemma not_div n x :
  not_w (8 * Z.of_nat (S n)) x / 256 = not_w (8 * Z.of_nat n) (x / 256).
Proof. rewrite not_bytes. pose proof (Z.mod_pos_bound x 256). apply add_byte_div. lia. Qed.

Lemma sub_bytes x o : x - (1 + 256 * o) = (x mod 256 - 1) + 256 * (x / 256 - o).
Proof. pose proof (byte_split x). lia. Qed.

Lemma sub_mod n x o :
  wrapping_sub (8 * Z.of_nat (S n)) x (1 + 256 * o) mod 256 = (x mod 256 - 1) mod 256.
Proof.
  unfold wrapping_sub, wrap. rewrite width_succ, Z.rem_mul_r by lia.
  rewrite add_byte_mod, Z.mod_mod, sub_bytes by lia. apply add_byte_mod.
Qed.

(** No borrow leaves a byte that is not zero. *)
Lemma sub_div n x o :
  x mod 256 ≠ 0 →
  wrapping_sub (8 * Z.of_nat (S n)) x (1 + 256 * o) / 256
  = wrapping_sub (8 * Z.of_nat n) (x / 256) o.
Proof.
  intros Hx. unfold wrapping_sub, wrap. pose proof (Z.mod_pos_bound x 256).
  rewrite width_succ, Z.rem_mul_r, sub_bytes, add_byte_mod by lia.
  rewrite (Z.mod_small (_ - 1)), add_byte_div, add_byte_div by lia. done.
Qed.

(** One byte of the mark word. *)
Definition byte_marks (b : Z) : Z :=
  let f := Z.lxor b FLAG in
  let e := Z.lxor b ESC in
  Z.land (Z.lor (Z.land ((f - 1) mod 256) (255 - f)) (Z.land ((e - 1) mod 256) (255 - e))) 128.

Lemma byte_marks_spec b : is_u8 b → byte_marks b = if is_special b then 128 else 0.
Proof.
  intros. apply Z.eqb_eq.
  apply (u8_forall (λ b, byte_marks b =? if is_special b then 128 else 0)); [|done].
  vm_compute. reflexivity.
Qed.

Lemma marks_mod n b w : is_u8 b → marks (S n) (b + 256 * w) mod 256 = byte_marks b.
Proof.
  intros. unfold marks. cbn [rep]. autorewrite with bytes.
  rewrite !sub_mod, !not_mod, !lxor_mod, !cons_mod by (done || (vm_compute; split; congruence)).
  reflexivity.
Qed.

Lemma lxor_u8_nonzero b c : b ≠ c → Z.lxor b c ≠ 0.
Proof. intros Hne H. apply Hne. by apply Z.lxor_eq. Qed.

Lemma is_special_false b : is_special b = false → b ≠ FLAG ∧ b ≠ ESC.
Proof. unfold is_special. rewrite orb_false_iff, !Z.eqb_neq. done. Qed.

Lemma marks_skip n b w :
  is_u8 b → is_special b = false → marks (S n) (b + 256 * w) = 256 * marks n w.
Proof.
  intros Hb Hs. destruct (is_special_false b Hs) as [Hf He].
  apply eq_by_bytes.
  - rewrite marks_mod, byte_marks_spec, Hs by done.
    rewrite <- (Z.add_0_l (256 * _)). by rewrite add_byte_mod.
  - rewrite <- (Z.add_0_l (256 * marks n w)), add_byte_div by lia.
    unfold marks. cbn [rep].
    rewrite land_div, lor_div, !land_div.
    rewrite !sub_div, !not_div, !lxor_div, !cons_div
      by (done || (vm_compute; split; congruence)
          || (rewrite lxor_mod, !cons_mod by (done || (vm_compute; split; congruence));
              by apply lxor_u8_nonzero)).
    reflexivity.
Qed.

Lemma rep_nonneg c n : 0 ≤ c → 0 ≤ rep c n.
Proof. intros. induction n; simpl; lia. Qed.

Lemma marks_nonneg n w : 0 ≤ marks n w.
Proof. apply Z.land_nonneg. right. apply rep_nonneg. lia. Qed.

Lemma trailing_zeros_skip w m : 0 < m → trailing_zeros w (256 * m) = (8 + trailing_zeros w m)%nat.
Proof. intros. destruct m; [lia|reflexivity|lia]. Qed.

Lemma trailing_zeros_hit w m : 0 ≤ m → m mod 256 = 128 → trailing_zeros w m = 7%nat.
Proof.
  intros Hm H. pose proof (byte_split m) as E. rewrite H in E.
  assert (0 ≤ m / 256) by (apply Z.div_pos; lia).
  replace m with (128 * (2 * (m / 256) + 1)) by lia.
  destruct (m / 256); [reflexivity..|lia].
Qed.

(** The lowest mark is the first special byte; marks above it may be spurious, no mark
    below it is. *)
Lemma marks_position bs :
  Forall is_u8 bs →
  match position_special bs with
  | Some i => 0 < marks (length bs) (from_le_bytes bs)
              ∧ trailing_zeros 64 (marks (length bs) (from_le_bytes bs)) = (8 * i + 7)%nat
  | None => marks (length bs) (from_le_bytes bs) = 0
  end.
Proof.
  induction 1 as [|b bs Hb Hbs IH]; [reflexivity|].
  cbn [position_special from_le_bytes length].
  destruct (is_special b) eqn:Hs.
  - pose proof (marks_mod (length bs) b (from_le_bytes bs) Hb) as Hm.
    rewrite byte_marks_spec, Hs in Hm by done.
    pose proof (marks_nonneg (S (length bs)) (b + 256 * from_le_bytes bs)).
    split; [|by apply trailing_zeros_hit].
    destruct (decide (marks (S (length bs)) (b + 256 * from_le_bytes bs) = 0)) as [E|]; [|lia].
    rewrite E in Hm. discriminate.
  - rewrite marks_skip by done. destruct (position_special bs) as [i|]; simpl.
    + destruct IH as [? IH]. rewrite trailing_zeros_skip, IH by lia. lia.
    + by rewrite IH.
Qed.

Lemma word_marks_position bs :
  Forall is_u8 bs → length bs = 8%nat →
  match position_special bs with
  | Some i => (word_marks (from_le_bytes bs) =? 0) = false
              ∧ (trailing_zeros 64 (word_marks (from_le_bytes bs)) / 8)%nat = i
  | None => (word_marks (from_le_bytes bs) =? 0) = true
  end.
Proof.
  intros Hbs Hlen. rewrite word_marks_8. pose proof (marks_position bs Hbs) as H.
  rewrite Hlen in H.
  destruct (position_special bs) as [i|]; [|by apply Z.eqb_eq].
  destruct H as [Hp ->]. rewrite Z.eqb_neq. split; [lia|].
  rewrite Nat.mul_comm, Nat.div_add_l by lia. simpl. lia.
Qed.

Lemma position_special_app xs ys :
  position_special (xs ++ ys) =
  match position_special xs with
  | Some i => Some i
  | None => (λ j, (length xs + j)%nat) <$> position_special ys
  end.
Proof.
  induction xs as [|x xs IH]; simpl; [by destruct (position_special ys)|].
  destruct (is_special x); [done|]. rewrite IH.
  destruct (position_special xs); [done|]. by destruct (position_special ys).
Qed.

Lemma from_le_bytes_words xs ys :
  Forall is_u8 xs → length xs = 8%nat →
  from_le_bytes (xs ++ ys) mod 2 ^ 64 = from_le_bytes xs
  ∧ Z.shiftr (from_le_bytes (xs ++ ys)) 64 = from_le_bytes ys.
Proof.
  intros Hxs Hl. pose proof (from_le_bytes_bound xs Hxs) as Hb.
  rewrite from_le_bytes_app, Hl in *. change (256 ^ Z.of_nat 8) with (2 ^ 64) in *.
  rewrite Z.shiftr_div_pow2 by lia. split.
  - rewrite Z.mul_comm, Z.mod_add, Z.mod_small; lia.
  - rewrite Z.mul_comm, Z.div_add, Z.div_small; lia.
Qed.

Lemma scan_chunks8_spec fuel k haystack :
  (length haystack < fuel)%nat → Forall is_u8 haystack →
  scan_chunks8 fuel k haystack
  = (λ offset, (k * 8 + offset)%nat) <$> position_special haystack.
Proof.
  revert k haystack. induction fuel as [|fuel IH]; intros k xs Hf Hxs; [lia|].
  cbn [scan_chunks8]. case_decide as Hlen; [done|].
  rewrite <- (take_drop 8 xs) in Hxs. apply Forall_app in Hxs as [Ht Hd].
  pose proof (word_marks_position _ Ht ltac:(rewrite length_take; lia)) as H.
  rewrite <- (take_drop 8 xs) at 4. rewrite position_special_app.
  destruct (position_special (take 8 xs)) as [i|].
  - destruct H as [-> ->]. done.
  - rewrite H. cbn [negb]. rewrite IH by (rewrite ?length_drop; auto; lia).
    destruct (position_special (drop 8 xs)); [|done]. cbn. f_equal.
    rewrite length_take. lia.
Qed.

Lemma scan_chunks16_spec fuel k haystack :
  (length haystack < fuel)%nat → Forall is_u8 haystack →
  scan_chunks16 fuel k haystack
  = (λ offset, (k * 16 + offset)%nat) <$> position_special haystack.
Proof.
  revert k haystack. induction fuel as [|fuel IH]; intros k xs Hf Hxs; [lia|].
  cbn [scan_chunks16]. case_decide as Hlen; [done|].
  assert (Hcut : take 16 xs = take 8 xs ++ take 8 (drop 8 xs)).
  { rewrite <- (take_drop 8 xs) at 1. rewrite take_app, length_take.
    rewrite take_take. f_equal; f_equal; lia. }
  assert (Hall : xs = take 8 xs ++ take 8 (drop 8 xs) ++ drop 16 xs)
    by (rewrite app_assoc, <- Hcut; by rewrite take_drop).
  assert (Hxs' := Hxs). rewrite Hall in Hxs'.
  apply Forall_app in Hxs' as [H1 [H2 H3]%Forall_app].
  assert (L1 : length (take 8 xs) = 8%nat) by (rewrite length_take; lia).
  assert (L2 : length (take 8 (drop 8 xs)) = 8%nat) by (rewrite length_take, length_drop; lia).
  rewrite Hcut. destruct (from_le_bytes_words _ (take 8 (drop 8 xs)) H1 L1) as [-> ->].
  pose proof (word_marks_position _ H1 L1) as M1.
  pose proof (word_marks_position _ H2 L2) as M2.
  rewrite Hall at 6. rewrite !position_special_app.
  destruct (position_special (take 8 xs)) as [i|].
  { destruct M1 as [-> ->]. done. }
  rewrite M1. cbn [negb].
  destruct (position_special (take 8 (drop 8 xs))) as [i|].
  { destruct M2 as [-> ->]. simpl. f_equal. lia. }
  rewrite M2. cbn [negb]. rewrite IH by (rewrite ?length_drop; auto; lia).
  destruct (position_special (drop 16 xs)); [|done]. cbn. f_equal. lia.
Qed.

#[global] Instance wide_finder : SpecialFinder.
Proof.
  refine {| find_special := find_special_wide |}.
  intros. unfold find_special_wide. rewrite scan_chunks16_spec by (done || lia).
  by destruct (position_special xs).
Defined.

Definition narrow_finder : SpecialFinder.
Proof.
  refine {| find_special := find_special_narrow |}.
  intros. unfold find_special_narrow. rewrite scan_chunks8_spec by (done || lia).
  by destruct (position_special xs).
Defined.

(** The host variants, given the documented behaviour of the [memchr] crate: [memchr2] and
    the vectorised finder return the first occurrence of either needle. *)
Definition std_finder finder memchr2
    (memchr2_spec : ∀ xs, memchr2 FLAG ESC xs = position_special xs)
    (finder_spec : ∀ find xs, finder = Some find → find xs = position_special xs) :
    SpecialFinder.
Proof.
  refine {| find_special := find_special_std finder memchr2 |}.
  intros xs _. unfold find_special_std. destruct finder; auto.
Defined.

(** Both embedded word-at-a-time searches return exactly the position of the first
    [FLAG] or [ESC] byte, and [None] when there is none, on every byte string. *)
Theorem swar_find_special_is_linear_search haystack :
  Forall is_u8 haystack →
  find_special_wide haystack = position_special haystack
  ∧ find_special_narrow haystack = position_special haystack.
Proof.
  intros H. split; [exact (@find_special_spec wide_finder _ H)|
                    exact (@find_special_spec narrow_finder _ H)].
Qed.

Lemma swar_find_special_is_linear_search_witness :
  find_special_wide (replicate 21 0x22 ++ [FLAG; ESC]) = Some 21%nat
  ∧ find_special_narrow (replicate 21 0x22 ++ [FLAG; ESC]) = Some 21%nat.
Proof.
  destruct (swar_find_special_is_linear_search (replicate 21 0x22 ++ [FLAG; ESC]))
    as [-> ->]; [repeat constructor; vm_compute; congruence|]. split; reflexivity.
Defined.
