(* ===== verification/SerialFraming.v ===== *)
(** The HDLC-like serial framing: [prns-core/src/interfaces/framing/rns_serial_framing.rs].

    [encode] writes [FLAG], the escaped payload and [FLAG] into the caller's buffer; the
    scanner and decoder recover the payloads from a byte stream cut anywhere. *)

From S2P Require Import Prelude FrameSink SpecialFinder.
#[local] Open Scope Z_scope.

Definition ESC_MASK : Z := 0x20.

Inductive EncodeError := OutputTooSmall.
#[global] Instance EncodeError_eq_dec : EqDecision EncodeError.
Proof. solve_decision. Defined.

Definition max_encoded_len (payload_len : nat) : nat := 2 + 2 * payload_len.

Inductive DecodeError := FrameTooBig.
#[global] Instance DecodeError_eq_dec : EqDecision DecodeError.
Proof. solve_decision. Defined.

Record RnsSerialScanner := mkScanner { in_frame : bool; saw_escape : bool }.
#[global] Instance RnsSerialScanner_eq_dec : EqDecision RnsSerialScanner.
Proof. solve_decision. Defined.

Definition Scanner_new : RnsSerialScanner := mkScanner false false.
Definition Scanner_reset (_ : RnsSerialScanner) : RnsSerialScanner := mkScanner false false.

Section encoder.
Context {F : SpecialFinder}.

(** The copy loop of [encode]: on success, the bytes written so far. *)
Fixpoint encode_loop (fuel : nat) (rest output : list Z) (written : nat) :
    run (result EncodeError nat * list Z) :=
  match fuel with
  | O => OutOfFuel
  | S fuel =>
      let split := find_special rest in
      plain ← slice rest 0 (default (length rest) split);
      if decide (length output < written + length plain)%nat
      then Done (Err OutputTooSmall, output) else
      output ← copy_into output written plain;
      let written := (written + length plain)%nat in
      match split with
      | None => Done (Ok written, output)
      | Some pos =>
          if decide (length output < written + 2)%nat
          then Done (Err OutputTooSmall, output) else
          output ← store output written ESC;
          byte ← index rest pos;
          output ← store output (written + 1) (Z.lxor byte ESC_MASK);
          rest ← slice rest (pos + 1) (length rest);
          encode_loop fuel rest output (written + 2)
      end
  end.

(** [encode(input, output)]: the result with the buffer it leaves. *)
Definition encode (input output : list Z) : run (result EncodeError nat * list Z) :=
  if decide (length output = 0%nat) then Done (Err OutputTooSmall, output) else
  output ← store output 0 FLAG;
  '(r, output) ← encode_loop (S (length input)) input output 1;
  match r with
  | Err e => Done (Err e, output)
  | Ok written =>
      if decide (length output ≤ written)%nat then Done (Err OutputTooSmall, output) else
      output ← store output written FLAG;
      Done (Ok (written + 1)%nat, output)
  end.
End encoder.

Section scanner.
Context {F : SpecialFinder} {T : Type} {sink_ops : FrameSink T}.

(** [feed_one_into]: whether a frame is complete, with the scanner and sink it leaves. *)
Definition feed_one_into (sc : RnsSerialScanner) (byte : Z) (sink : T) :
    result DecodeError bool * RnsSerialScanner * T :=
  if byte =? FLAG then
    if in_frame sc then (Ok true, mkScanner false false, sink)
    else (Ok false, mkScanner true false, clear sink)
  else
  let '(sc, sink) :=
    if negb (in_frame sc) then (mkScanner true false, clear sink) else (sc, sink) in
  if byte =? ESC then (Ok false, mkScanner (in_frame sc) true, sink) else
  let '(payload_byte, sc) :=
    if saw_escape sc then
      ((if byte =? Z.lxor FLAG ESC_MASK then FLAG
        else if byte =? Z.lxor ESC ESC_MASK then ESC else byte),
       mkScanner (in_frame sc) false)
    else (byte, sc) in
  match push sink payload_byte with
  | (Err _, sink) => (Err FrameTooBig, Scanner_reset sc, clear sink)
  | (Ok _, sink) => (Ok false, sc, sink)
  end.

(** [next_frame_into], the loop over the chunk; the second component is the new offset. *)
Fixpoint next_frame_loop (fuel : nat) (sc : RnsSerialScanner) (input : list Z)
    (offset : nat) (sink : T) :
    run (result DecodeError (option nat) * RnsSerialScanner * nat * T) :=
  match fuel with
  | O => OutOfFuel
  | S fuel =>
      if decide (length input ≤ offset)%nat then Done (Ok None, sc, offset, sink) else
      let feed_next (_ : unit) :=
        byte ← index input offset;
        let offset := (offset + 1)%nat in
        match feed_one_into sc byte sink with
        | (Err e, sc, sink) => Done (Err e, sc, offset, sink)
        | (Ok true, sc, sink) => Done (Ok (Some (frame_len sink)), sc, offset, sink)
        | (Ok false, sc, sink) => next_frame_loop fuel sc input offset sink
        end in
      if in_frame sc && negb (saw_escape sc) then
        tail ← slice input offset (length input);
        let run_end :=
          match find_special tail with
          | Some pos => (offset + pos)%nat
          | None => length input
          end in
        let run_len := (run_end - offset)%nat in
        if decide (run_len = 0%nat) then feed_next tt else
        plain ← slice input offset run_end;
        match extend_from_slice sink plain with
        | (Ok _, sink) => next_frame_loop fuel sc input run_end sink
        | (Err _, sink) =>
            let free := free_capacity sink in
            Done (Err FrameTooBig, Scanner_reset sc, (offset + (Z.to_nat free + 1))%nat,
                  clear sink)
        end
      else feed_next tt
  end.

Definition next_frame_into (sc : RnsSerialScanner) (input : list Z) (offset : nat) (sink : T) :=
  next_frame_loop (S (length input - offset)) sc input offset sink.
End scanner.

Record RnsSerialDecoder (FRAME_CAP : nat) := mkDecoder {
  scanner : RnsSerialScanner;
  buffer : FrameBuffer FRAME_CAP;
}.
Arguments mkDecoder {FRAME_CAP} _ _.
Arguments scanner {FRAME_CAP} _.
Arguments buffer {FRAME_CAP} _.

Section decoder.
Context {F : SpecialFinder} {FRAME_CAP : nat}.
Implicit Types d : RnsSerialDecoder FRAME_CAP.

Definition Decoder_new : RnsSerialDecoder FRAME_CAP :=
  mkDecoder Scanner_new (FrameBuffer_new FRAME_CAP).

Definition Decoder_reset d : RnsSerialDecoder FRAME_CAP :=
  mkDecoder (Scanner_reset (scanner d)) (clear (buffer d)).

Definition feed d (byte : Z) :
    result DecodeError (option (list Z)) * RnsSerialDecoder FRAME_CAP :=
  let '(r, sc, buf) := feed_one_into (scanner d) byte (buffer d) in
  (match r with
   | Err e => Err e
   | Ok true => Ok (Some (as_slice buf))
   | Ok false => Ok None
   end, mkDecoder sc buf).

Definition feed_slice_next d (input : list Z) (offset : nat) :
    run (result DecodeError (option (list Z)) * RnsSerialDecoder FRAME_CAP * nat) :=
  '(r, sc, offset, buf) ← next_frame_into (scanner d) input offset (buffer d);
  Done (match r with
        | Err e => Err e
        | Ok (Some _) => Ok (Some (as_slice buf))
        | Ok None => Ok None
        end, mkDecoder sc buf, offset).

(** [feed_slice]: the frames handed to the callback, in order. *)
Definition feed_slice d (input : list Z) : run (list (list Z) * RnsSerialDecoder FRAME_CAP) :=
  slice_loop feed_slice_next (S (length input)) d input 0.

End decoder.

(** * The encoding, as a function on payloads *)

Definition escape (b : Z) : list Z :=
  if is_special b then [ESC; Z.lxor b ESC_MASK] else [b].
Definition body (p : list Z) : list Z := p ≫= escape.
Definition frame (p : list Z) : list Z := FLAG :: body p ++ [FLAG].

Lemma position_special_Some xs pos :
  position_special xs = Some pos →
  ∃ pre b post, xs = pre ++ b :: post ∧ length pre = pos ∧ is_special b = true
    ∧ Forall (λ x, is_special x = false) pre.
Proof.
  revert pos. induction xs as [|x xs IH]; intros pos; simpl; [done|].
  destruct (is_special x) eqn:E; intros H.
  - inv_run. exists [], x, xs. auto.
  - destruct (position_special xs) as [p|]; [|done]. simpl in H. inv_run.
    destruct (IH p eq_refl) as (pre & b & post & -> & <- & Hb & Hp).
    exists (x :: pre), b, post. auto.
Qed.

Lemma position_special_None xs :
  position_special xs = None ↔ Forall (λ x, is_special x = false) xs.
Proof.
  induction xs as [|x xs IH]; simpl; [split; auto|].
  rewrite Forall_cons_iff. destruct (is_special x); [split; [done|by intros [? _]]|].
  rewrite fmap_None, IH. tauto.
Qed.

Lemma body_cons b p : body (b :: p) = escape b ++ body p.
Proof. done. Qed.
Lemma body_app p q : body (p ++ q) = body p ++ body q.
Proof. apply bind_app. Qed.

Lemma body_plain p : Forall (λ x, is_special x = false) p → body p = p.
Proof.
  induction 1 as [|x p Hx _ IH]; [done|]. rewrite body_cons, IH. unfold escape. by rewrite Hx.
Qed.

Lemma length_body p : (length p ≤ length (body p) ≤ 2 * length p)%nat.
Proof.
  induction p as [|b p IH]; [simpl; lia|]. rewrite body_cons, length_app. simpl.
  unfold escape. destruct (is_special b); simpl; lia.
Qed.

Lemma frame_u8 p : Forall is_u8 p → Forall is_u8 (frame p).
Proof.
  intros Hp. assert (Hs : is_u8 FLAG ∧ is_u8 ESC ∧ is_u8 0x5E ∧ is_u8 0x5D)
    by (vm_compute; intuition congruence). destruct Hs as (? & ? & ? & ?).
  unfold frame. constructor; [done|]. apply Forall_app. split; [|by repeat constructor].
  induction Hp as [|b p Hb _ IH]; [constructor|]. rewrite body_cons. apply Forall_app.
  split; [|done]. unfold escape, is_special.
  destruct (Z.eqb_spec b FLAG) as [->|]; [apply Forall_cons; [done|by apply Forall_singleton]|].
  destruct (Z.eqb_spec b ESC) as [->|]; [apply Forall_cons; [done|by apply Forall_singleton]|].
  by apply Forall_singleton.
Qed.

(** * The encoder writes the encoding *)

Section encoder_proofs.
Context {F : SpecialFinder}.

Lemma encode_loop_spec fuel rest pre post :
  (length rest < fuel)%nat → Forall is_u8 rest →
  wrote OutputTooSmall (body rest) pre post (encode_loop fuel rest (pre ++ post) (length pre)).
Proof.
  revert rest pre post. induction fuel as [|fuel IH]; intros rest pre post Hf Hr; [lia|].
  cbn [encode_loop]. rewrite find_special_spec by done.
  destruct (position_special rest) as [pos|] eqn:Epos; cbn [default].
  - apply position_special_Some in Epos as (plain & b & rest' & -> & <- & Hb & Hplain).
    rewrite slice_prefix by done. cbn [mbind run_bind].
    apply Forall_app in Hr as [_ Hr]. apply Forall_cons_iff in Hr as [_ Hr].
    rewrite length_app in Hf. simpl in Hf.
    rewrite body_app, body_plain, body_cons by done. unfold escape. rewrite Hb.
    rewrite (length_app pre post). case_decide as Hfit.
    { apply wrote_too_small; rewrite ?length_app; simpl; lia. }
    destruct (split_block (length plain) post) as (x & post1 & -> & Hx); [lia|].
    rewrite copy_at by done. cbn [mbind run_bind]. apply wrote_app; [done|].
    rewrite app_assoc. case_decide as Hfit2; rewrite !length_app in Hfit2.
    { apply wrote_too_small; rewrite ?length_app; simpl; lia. }
    destruct post1 as [|y1 [|y2 post2]]; simpl in Hfit2; [lia..|].
    rewrite store_at by (by rewrite length_app). cbn [mbind run_bind].
    rewrite index_app_r by done.
    rewrite (cons_middle ESC (pre ++ plain)), (app_assoc (pre ++ plain) [ESC]).
    cbn [mbind run_bind]. rewrite store_at by (rewrite !length_app; simpl; lia).
    cbn [mbind run_bind]. rewrite (cons_middle b plain), (app_assoc plain [b]).
    rewrite slice_suffix by (rewrite length_app; simpl; lia). cbn [mbind run_bind].
    change (y1 :: y2 :: post2) with ([y1; y2] ++ post2). apply wrote_app; [done|].
    rewrite (cons_middle (Z.lxor b ESC_MASK) (_ ++ [ESC])), (app_assoc _ [Z.lxor b ESC_MASK]).
    replace (length pre + length plain + 2)%nat
      with (length ((pre ++ plain) ++ [ESC; Z.lxor b ESC_MASK]))
      by (rewrite !length_app; simpl; lia).
    rewrite <- (app_assoc (pre ++ plain) [ESC]). apply IH; [lia|done].
  - apply position_special_None in Epos. rewrite body_plain by done.
    rewrite slice_all. cbn [mbind run_bind]. rewrite length_app. case_decide as Hfit.
    + apply wrote_too_small; rewrite ?length_app; lia.
    + destruct (split_block (length rest) post) as (x & post1 & -> & Hx); [lia|].
      rewrite copy_at by done. cbn [mbind run_bind]. unfold wrote.
      rewrite length_app, decide_True by lia. by rewrite drop_app_ge, Hx, Nat.sub_diag by lia.
Qed.

Lemma encode_spec input output :
  Forall is_u8 input → wrote OutputTooSmall (frame input) [] output (encode input output).
Proof.
  intros Hin. unfold encode, frame.
  destruct output as [|o output]; [by apply wrote_too_small; simpl; lia|].
  rewrite decide_False by (simpl; lia).
  change (store (o :: output) 0 FLAG) with (Done ([FLAG] ++ output)). cbn [mbind run_bind].
  apply (wrote_app _ [FLAG] _ [] [o]); [done|].
  pose proof (encode_loop_spec (S (length input)) input [FLAG] output ltac:(lia) Hin) as H.
  simpl length in H. unfold wrote in H. case_decide as Hfit.
  - rewrite H. cbn [mbind run_bind].
    destruct (split_block (length (body input)) output) as (x & post & -> & Hx);
      [done|]. rewrite drop_app_ge, Hx, Nat.sub_diag, drop_0 by lia.
    rewrite !length_app in *. apply wrote_app; [done|].
    case_decide as Hfit2.
    + apply wrote_too_small; rewrite ?length_app; simpl in *; lia.
    + destruct post as [|y post]; simpl in Hfit2; [lia|].
      rewrite app_assoc, store_at by (rewrite length_app; simpl; lia). cbn [mbind run_bind].
      unfold wrote. rewrite decide_True by (simpl; lia). rewrite length_app. done.
  - destruct H as (out & -> & Hout). cbn [mbind run_bind].
    apply wrote_too_small; [rewrite length_app; simpl; lia|done].
Qed.
End encoder_proofs.

(** * The bulk scanner agrees with the byte-by-byte one *)

Section scanner_proofs.
Context {F : SpecialFinder} {T : Type} {ops : FrameSink T} {laws : FrameSinkLaws T}.

(** Feed bytes one at a time up to the first frame or error; also the bytes consumed. *)
Fixpoint scan_bytes (sc : RnsSerialScanner) (bytes : list Z) (sink : T) :
    result DecodeError (option nat) * RnsSerialScanner * nat * T :=
  match bytes with
  | [] => (Ok None, sc, 0%nat, sink)
  | byte :: bytes =>
      match feed_one_into sc byte sink with
      | (Err e, sc, sink) => (Err e, sc, 1%nat, sink)
      | (Ok true, sc, sink) => (Ok (Some (frame_len sink)), sc, 1%nat, sink)
      | (Ok false, sc, sink) =>
          let '(r, sc, n, sink) := scan_bytes sc bytes sink in (r, sc, S n, sink)
      end
  end.

Definition advance (k : nat) (r : result DecodeError (option nat) * RnsSerialScanner * nat * T) :=
  let '(r, sc, n, sink) := r in (r, sc, (k + n)%nat, sink).

Lemma feed_one_plain b sink :
  is_special b = false →
  feed_one_into (mkScanner true false) b sink =
  match push sink b with
  | (Err _, sink) => (Err FrameTooBig, mkScanner false false, clear sink)
  | (Ok _, sink) => (Ok false, mkScanner true false, sink)
  end.
Proof.
  intros [Hf He]%is_special_false. unfold feed_one_into. simpl.
  rewrite <- Z.eqb_neq in Hf, He. by rewrite Hf, He.
Qed.

Lemma scan_plain_fits plain rest sink sink' :
  Forall (λ x, is_special x = false) plain → push_all sink plain = Some sink' →
  scan_bytes (mkScanner true false) (plain ++ rest) sink
  = advance (length plain) (scan_bytes (mkScanner true false) rest sink').
Proof.
  intros Hp. revert sink. induction Hp as [|b plain Hb Hp IH]; intros sink Hpush; simpl in *.
  - inv_run. by destruct (scan_bytes _ rest sink') as [[[? ?] ?] ?].
  - rewrite feed_one_plain by done. destruct (push sink b) as [[[]|[]] s1]; [|done].
    rewrite IH by done. by destruct (scan_bytes _ rest sink') as [[[? ?] ?] ?].
Qed.

Lemma scan_plain_full plain b rest sink fits :
  Forall (λ x, is_special x = false) (plain ++ [b]) → push_all sink plain = Some fits →
  push fits b = (Err Full, fits) →
  scan_bytes (mkScanner true false) (plain ++ b :: rest) sink
  = (Err FrameTooBig, mkScanner false false, (length plain + 1)%nat, clear fits).
Proof.
  intros [Hp Hb]%Forall_app Hpush Hfull. apply Forall_cons_iff in Hb as [Hb _].
  rewrite (scan_plain_fits plain _ _ fits) by done. simpl.
  by rewrite feed_one_plain, Hfull by done.
Qed.

(** A whole plain run at once: [extend_from_slice] does what the bytes one by one do. *)
Lemma scan_plain_run plain rest sink :
  Forall (λ x, is_special x = false) plain →
  match extend_from_slice sink plain with
  | (Ok _, sink') =>
      scan_bytes (mkScanner true false) (plain ++ rest) sink
      = advance (length plain) (scan_bytes (mkScanner true false) rest sink')
  | (Err _, sink') =>
      scan_bytes (mkScanner true false) (plain ++ rest) sink
      = (Err FrameTooBig, mkScanner false false,
         (Z.to_nat (free_capacity sink') + 1)%nat, clear sink')
  end.
Proof.
  intros Hp. destruct (extend_from_slice sink plain) as [[[]|[]] sink'] eqn:E.
  - apply extend_ok in E. by apply scan_plain_fits.
  - apply extend_full in E as (-> & Hfree & fits & Hfits & Hfull).
    set (n := Z.to_nat (free_capacity sink)) in *.
    destruct (lookup_lt_is_Some_2 plain n) as [b Hb]; [lia|].
    rewrite <- (take_drop n plain), (drop_S plain b n Hb), <- app_assoc.
    rewrite <- (take_drop (S n) plain), (take_S_r plain n b Hb) in Hp.
    apply Forall_app in Hp as [Hp _]. simpl.
    rewrite (scan_plain_full _ b _ _ fits) by auto.
    rewrite length_take, (clear_clear fits sink). do 2 f_equal. lia.
Qed.

Ltac feed_next_byte Hb IH :=
  rewrite (index_lookup _ _ _ Hb); cbn [mbind run_bind];
  rewrite (drop_S _ _ _ Hb); cbn [scan_bytes];
  match goal with |- context [feed_one_into ?sc ?b ?sink] =>
    destruct (feed_one_into sc b sink) as [[[[]|e] sc'] sink'];
    [done|rewrite Nat.add_1_r, IH by lia|done];
    match goal with |- context [scan_bytes ?x ?y ?z] =>
      destruct (scan_bytes x y z) as [[[? ?] ?] ?] end;
    simpl; by rewrite Nat.add_succ_r
  end.

Lemma next_frame_loop_spec fuel sc input offset sink :
  Forall is_u8 input → (offset ≤ length input)%nat → (length input - offset < fuel)%nat →
  next_frame_loop fuel sc input offset sink
  = Done (advance offset (scan_bytes sc (drop offset input) sink)).
Proof.
  intros Hin. revert sc offset sink.
  induction fuel as [|fuel IH]; intros sc offset sink Hoff Hf; [lia|].
  cbn [next_frame_loop]. case_decide as Hend.
  { rewrite drop_ge by done. simpl. by rewrite Nat.add_0_r. }
  destruct (lookup_lt_is_Some_2 input offset) as [b Hb]; [lia|].
  destruct (in_frame sc && negb (saw_escape sc)) eqn:Hmode; [|feed_next_byte Hb IH].
  destruct sc as [[] []]; try done. clear Hmode.
  assert (Htail : slice input offset (length input) = Done (drop offset input)).
  { rewrite <- (take_drop offset input) at 1 2. apply slice_suffix. rewrite length_take. lia. }
  rewrite Htail. cbn [mbind run_bind].
  rewrite find_special_spec by (by apply Forall_drop).
  set (run_end := match position_special (drop offset input) with Some _ => _ | None => _ end).
  destruct (decide (run_end - offset = 0)%nat) as [_|Hne]; [feed_next_byte Hb IH|].
  assert (Hrun : ∃ plain, Forall (λ x, is_special x = false) plain
    ∧ drop offset input = plain ++ drop run_end input ∧ run_end = (offset + length plain)%nat
    ∧ (run_end ≤ length input)%nat).
  { unfold run_end in *. destruct (position_special (drop offset input)) as [pos|] eqn:Epos.
    - apply position_special_Some in Epos as (plain & c & post & E & <- & _ & Hplain).
      exists plain. pose proof (f_equal length E) as El.
      rewrite length_drop, length_app in El. simpl in El.
      rewrite <- drop_drop, E, drop_app_length. repeat split; [done|lia].
    - apply position_special_None in Epos. exists (drop offset input).
      rewrite drop_all, app_nil_r, length_drop. repeat split; [done|lia..]. }
  destruct Hrun as (plain & Hplain & Hdrop & Hend' & Hle).
  assert (Hslice : slice input offset run_end = Done plain).
  { unfold slice. rewrite decide_True by lia. rewrite Hdrop, Hend'.
    by rewrite Nat.add_sub', take_app_length. }
  rewrite Hslice. cbn [mbind run_bind].
  pose proof (scan_plain_run plain (drop run_end input) sink Hplain) as Hscan.
  rewrite Hdrop. destruct (extend_from_slice sink plain) as [[[]|[]] sink'].
  - rewrite IH, Hscan by lia.
    destruct (scan_bytes _ (drop run_end input) sink') as [[[? ?] ?] ?].
    simpl. do 3 f_equal. lia.
  - by rewrite Hscan.
Qed.
End scanner_proofs.

Section decoder_proofs.
Context {F : SpecialFinder} {cap : nat}.
Implicit Types d : RnsSerialDecoder cap.

Lemma upto_scan d input :
  upto feed d input =
  let '(r, sc, n, buf) := scan_bytes (scanner d) input (buffer d) in
  (match r with
   | Err e => Err e
   | Ok (Some _) => Ok (Some (as_slice buf))
   | Ok None => Ok None
   end, mkDecoder sc buf, n).
Proof.
  revert d. induction input as [|b input IH]; intros d; cbn [scan_bytes upto]; [by destruct d|].
  unfold feed at 1. destruct (feed_one_into (scanner d) b (buffer d)) as [[[[]|e] sc1] buf1];
    [done| |done].
  rewrite IH. simpl. by destruct (scan_bytes sc1 input buf1) as [[[? ?] ?] ?].
Qed.

Lemma feed_slice_next_upto d input offset :
  Forall is_u8 input → (offset ≤ length input)%nat →
  feed_slice_next d input offset = Done (shift offset (upto feed d (drop offset input))).
Proof.
  intros. unfold feed_slice_next, next_frame_into.
  rewrite next_frame_loop_spec by (done || lia). rewrite upto_scan.
  by destruct (scan_bytes (scanner d) (drop offset input) (buffer d)) as [[[? ?] ?] ?].
Qed.

(** ** Decoding the encoding *)

(** The decoder inside a frame with [bs] received so far. *)
Definition inside (bs : list Z) : RnsSerialDecoder cap :=
  mkDecoder (mkScanner true false) (mkFrameBuffer bs).

(** Between frames, the buffer still holding the frame last yielded. *)
Definition between (bs : list Z) : RnsSerialDecoder cap :=
  mkDecoder (mkScanner false false) (mkFrameBuffer bs).

Lemma escape_cases b :
  is_u8 b →
  (is_special b = false ∧ escape b = [b] ∧ (b =? FLAG) = false ∧ (b =? ESC) = false)
  ∨ (is_special b = true ∧ escape b = [ESC; Z.lxor b ESC_MASK]
     ∧ (Z.lxor b ESC_MASK =? FLAG) = false ∧ (Z.lxor b ESC_MASK =? ESC) = false
     ∧ (if Z.lxor b ESC_MASK =? Z.lxor FLAG ESC_MASK then FLAG
        else if Z.lxor b ESC_MASK =? Z.lxor ESC ESC_MASK then ESC else Z.lxor b ESC_MASK) = b).
Proof.
  intros Hb. unfold escape, is_special. destruct (Z.eqb_spec b FLAG) as [->|Hf]; simpl;
    [right; repeat split|].
  destruct (Z.eqb_spec b ESC) as [->|He]; simpl; [right; repeat split|].
  left. rewrite <- Z.eqb_neq in Hf, He. auto.
Qed.

Lemma feed_escape bs b :
  is_u8 b → (length bs < cap)%nat →
  each feed (inside bs) (escape b) = ([], inside (bs ++ [b])).
Proof.
  intros Hb Hlen.
  destruct (escape_cases b Hb) as [(_ & -> & Hf & He)|(_ & -> & Hf & He & Hun)]; simpl.
  - unfold feed, feed_one_into. simpl. rewrite Hf, He. simpl.
    unfold fb_push. simpl. by rewrite decide_False by lia.
  - unfold feed, feed_one_into. simpl. rewrite Hf, He. simpl.
    unfold fb_push. simpl. rewrite decide_False, Hun by lia. done.
Qed.

Lemma feed_body bs p :
  Forall is_u8 p → (length bs + length p ≤ cap)%nat →
  each feed (inside bs) (body p) = ([], inside (bs ++ p)).
Proof.
  intros Hp. revert bs. induction Hp as [|b p Hb Hp IH]; intros bs Hlen; simpl in Hlen.
  { by rewrite app_nil_r. }
  rewrite body_cons, each_app, feed_escape by (done || lia).
  rewrite IH by (rewrite length_app; simpl; lia). by rewrite <- app_assoc.
Qed.

(** A decoder between frames is inside an empty one after any first byte but [FLAG]. *)
Lemma feed_between_opens junk b :
  b ≠ FLAG → feed (between junk) b = feed (inside []) b.
Proof. intros H%Z.eqb_neq. unfold feed, feed_one_into. simpl. by rewrite H. Qed.

Lemma feed_body_between junk p :
  Forall is_u8 p → p ≠ [] → (length p ≤ cap)%nat →
  each feed (between junk) (body p) = ([], inside p).
Proof.
  intros Hp Hne Hlen. change p with ([] ++ p) at 2. rewrite <- (feed_body [] p) by done.
  destruct p as [|b p]; [done|]. apply Forall_cons_iff in Hp as [Hb _].
  rewrite body_cons. destruct (escape b) as [|c rest] eqn:E.
  { destruct (escape_cases b Hb) as [(_ & H & _)|(_ & H & _)]; congruence. }
  simpl. rewrite feed_between_opens; [done|].
  destruct (escape_cases b Hb) as [(_ & H & ? & _)|(_ & H & _)]; rewrite H in E;
    inversion E; subst; [by apply Z.eqb_neq|done].
Qed.

(** From any state the first [FLAG] either opens or closes a frame. *)
Lemma feed_flag d :
  feed d FLAG =
  if in_frame (scanner d) then (Ok (Some (bytes (buffer d))), between (bytes (buffer d)))
  else (Ok None, inside []).
Proof. unfold feed, feed_one_into. simpl. destruct d as [[[] e] [bs]]; done. Qed.
Lemma feed_frame junk p :
  Forall is_u8 p → (length p ≤ cap)%nat →
  each feed (between junk) (frame p) = ([p], between p).
Proof.
  intros Hp Hlen. unfold frame. cbn [each].
  rewrite feed_flag. cbn -[each inside]. by rewrite each_app, feed_body.
Qed.

Lemma feed_frames junk ps :
  Forall (λ p, Forall is_u8 p ∧ (length p ≤ cap)%nat) ps →
  ∃ last, each feed (between junk) (ps ≫= frame) = (ps, between last).
Proof.
  intros Hps. revert junk. induction Hps as [|p ps [Hp Hl] Hps IH]; intros junk; [by exists junk|].
  rewrite bind_cons, each_app, feed_frame by done.
  destruct (IH p) as [last ->]. by exists last.
Qed.

End decoder_proofs.

(** * Properties *)

(** [encode] never panics; it succeeds exactly when the output can hold the frame, then
    writes exactly the frame (at most [max_encoded_len] bytes) and leaves the rest of the
    buffer untouched; otherwise it reports [OutputTooSmall] and the buffer keeps its length. *)
Theorem encode_total {F : SpecialFinder} input output :
  Forall is_u8 input →
  (length (frame input) ≤ max_encoded_len (length input))%nat
  ∧ ((length (frame input) ≤ length output)%nat →
     encode input output = Done (Ok (length (frame input)),
       frame input ++ drop (length (frame input)) output))
  ∧ ((length output < length (frame input))%nat →
     ∃ out, encode input output = Done (Err OutputTooSmall, out) ∧ length out = length output).
Proof.
  intros Hin. pose proof (encode_spec input output Hin) as H. unfold wrote in H. split.
  { unfold frame, max_encoded_len. simpl. rewrite length_app. simpl.
    pose proof (length_body input). lia. }
  split; intros; [rewrite decide_True in H by done|rewrite decide_False in H by lia]; done.
Qed.

Lemma encode_total_witness :
  encode [1; FLAG; 2] (replicate 8 0)
  = Done (Ok 6%nat, [FLAG; 1; ESC; 0x5E; 2; FLAG] ++ [0; 0]).
Proof.
  destruct (encode_total [1; FLAG; 2] (replicate 8 0)) as (_ & H & _);
    [repeat constructor; vm_compute; congruence|]. apply H. vm_compute. lia.
Defined.

(** Feeding a chunk through the bulk scanner yields exactly the frames, and leaves exactly
    the decoder state, that feeding its bytes one at a time does, for any input, any
    decoder state and any frame capacity; it never panics and always terminates. *)
Theorem feed_slice_is_bytewise {F : SpecialFinder} {cap} (d : RnsSerialDecoder cap) input :
  Forall is_u8 input → feed_slice d input = Done (each feed d input).
Proof.
  intros Hin. unfold feed_slice. rewrite slice_loop_each with (step := feed) by
    (auto using feed_slice_next_upto || lia). by rewrite drop_0.
Qed.

Lemma feed_slice_is_bytewise_witness :
  feed_slice (Decoder_new (FRAME_CAP := 2)) [7; 7; FLAG; 1; 2; 3; FLAG; 5; FLAG]
  = Done ([[7; 7]; [5]], mkDecoder (mkScanner false false) (mkFrameBuffer [5])).
Proof.
  rewrite feed_slice_is_bytewise by (repeat constructor; vm_compute; congruence).
  vm_compute. reflexivity.
Defined.

(** The bytes that [encode] wrote. *)
Definition encoded {F : SpecialFinder} (input output : list Z) : option (list Z) :=
  match encode input output with Done (Ok n, output) => Some (take n output) | _ => None end.

Lemma encoded_frame {F : SpecialFinder} input output :
  Forall is_u8 input → (max_encoded_len (length input) ≤ length output)%nat → encoded input output = Some (frame input).
Proof.
  intros Hin Hlen. destruct (encode_total input output Hin) as (Hmax & Hw & _). unfold encoded. rewrite Hw by lia.
  by rewrite take_app_length.
Qed.

(** C36. Round trip: any payloads of bytes within the capacity of the decoder's frame, each encoded into a buffer of its
    own of at least [max_encoded_len] bytes, are all encoded; what was written, one after the other, fed to a decoder
    that is between frames comes out unchanged and in order, with nothing added or lost, and the decoder is between
    frames again. *)
Theorem encode_then_decode {F : SpecialFinder} {cap} (ps : list (list Z * list Z)) :
  Forall (λ '(p, output), Forall is_u8 p ∧ (length p ≤ cap ∧ max_encoded_len (length p) ≤ length output)%nat) ps →
  ∃ written d, mapM (λ '(p, output), encoded p output) ps = Some written
    ∧ feed_slice (Decoder_new (FRAME_CAP := cap)) (concat written) = Done (ps.*1, d)
    ∧ in_frame (scanner d) = false.
Proof.
  intros Hps. assert (Hfit : Forall (λ p, Forall is_u8 p ∧ (length p ≤ cap)%nat) ps.*1).
  { apply list.Forall_fmap. eapply list.Forall_impl; [exact Hps|]. intros [p out]. cbn. tauto. }
  assert (Hw : mapM (λ '(p, output), encoded p output) ps = Some (frame <$> ps.*1)).
  { clear Hfit. induction Hps as [|[p out] ps (Hp & _ & Hl) _ IH]; [done|]. cbn in IH |- *. rewrite encoded_frame by done. cbn. by rewrite IH. }
  destruct (feed_frames (cap := cap) [] ps.*1 Hfit) as [last H]. exists (frame <$> ps.*1), (between last). split; [done|].
  assert (Hc : concat (frame <$> ps.*1) = ps.*1 ≫= frame) by (clear; induction ps as [|[p out] ps IH]; [done|]; cbn in IH |- *; by rewrite IH).
  rewrite Hc, feed_slice_is_bytewise.
  - change Decoder_new with (between (cap := cap) []). by rewrite H.
  - clear -Hfit. induction Hfit as [|p qs [Hp _] _ IH]; [constructor|].
    rewrite bind_cons. apply Forall_app. split; [|done]. apply frame_u8. done.
Qed.

Lemma encode_then_decode_witness :
  ∃ written d, mapM (λ '(p, output), encoded p output) [([1; FLAG], replicate 6 0); ([], replicate 2 9); ([ESC; 0x5E], replicate 8 0)] = Some written
    ∧ feed_slice (Decoder_new (FRAME_CAP := 4)) (concat written) = Done ([[1; FLAG]; []; [ESC; 0x5E]], d)
    ∧ in_frame (scanner d) = false.
Proof.
  apply (encode_then_decode (cap := 4) [([1; FLAG], replicate 6 0); ([], replicate 2 9); ([ESC; 0x5E], replicate 8 0)]).
  repeat constructor; vm_compute; congruence.
Defined.

(** Self-synchronisation: whatever state the decoder is in, even joined in the middle of a
    frame, feeding framed non-empty payloads yields at most one stray frame (what was open
    when the first [FLAG] closed it) and then every payload, unchanged and in order. *)
Theorem decoder_realigns {F : SpecialFinder} {cap} (d : RnsSerialDecoder cap) ps :
  Forall (λ p, Forall is_u8 p ∧ p ≠ [] ∧ (length p ≤ cap)%nat) ps → ps ≠ [] →
  ∃ d', each feed d (ps ≫= frame)
    = ((if in_frame (scanner d) then [bytes (buffer d)] else []) ++ ps, d').
Proof.
  intros Hps Hne. destruct ps as [|p ps]; [done|].
  apply Forall_cons_iff in Hps as [(Hp & Hpe & Hl) Hps]. rewrite bind_cons, each_app.
  destruct (feed_frames (cap := cap) p ps) as [last Hrest];
    [eapply Forall_impl, Hps; intros ? (? & ? & ?); auto|].
  unfold frame at 1. cbn [each]. rewrite feed_flag.
  destruct (in_frame (scanner d)); cbn -[each inside between]; rewrite each_app.
  - rewrite feed_body_between by done. cbn [each]. rewrite feed_flag.
    cbn -[each between]. rewrite Hrest. eauto.
  - rewrite feed_body by done. cbn [each]. rewrite feed_flag.
    cbn -[each between]. rewrite Hrest. eauto.
Qed.

Lemma decoder_realigns_witness :
  ∃ d', each feed (mkDecoder (FRAME_CAP := 8) (mkScanner true true) (mkFrameBuffer [3]))
          ([[0x11]; [0x22; 0x33]] ≫= frame) = ([[3]; [0x11]; [0x22; 0x33]], d').
Proof.
  apply (decoder_realigns (mkDecoder (mkScanner true true) (mkFrameBuffer [3]))
           [[0x11]; [0x22; 0x33]]); [|done].
  repeat constructor; vm_compute; congruence.
Defined.
