(* ===== verification/KissFraming.v ===== *)
(** KISS framing: [prns-core/src/interfaces/framing/kiss_framing.rs].

    [FEND]-delimited frames with a leading command byte: the encoders, the data-frame
    scanner and decoder, and the command decoder used towards RNode hardware. *)

From S2P Require Import Prelude FrameSink.
#[local] Open Scope Z_scope.

Definition FEND : Z := 0xC0.
Definition FESC : Z := 0xDB.
Definition TFEND : Z := 0xDC.
Definition TFESC : Z := 0xDD.
Definition CMD_DATA : Z := 0x00.
Definition CMD_UNKNOWN : Z := 0xFE.

Inductive EncodeError := OutputTooSmall.
#[global] Instance EncodeError_eq_dec : EqDecision EncodeError.
Proof. solve_decision. Defined.

Definition max_encoded_len (payload_len : nat) : nat := 3 + 2 * payload_len.

(** The loop over the input of [encode_with_command]. *)
Fixpoint encode_loop (input output : list Z) (written : nat) :
    run (result EncodeError nat * list Z) :=
  match input with
  | [] => Done (Ok written, output)
  | byte :: input =>
      if byte =? FEND then
        if decide (length output < written + 2)%nat
        then Done (Err OutputTooSmall, output) else
        output ← store output written FESC;
        output ← store output (written + 1) TFEND;
        encode_loop input output (written + 2)
      else if byte =? FESC then
        if decide (length output < written + 2)%nat
        then Done (Err OutputTooSmall, output) else
        output ← store output written FESC;
        output ← store output (written + 1) TFESC;
        encode_loop input output (written + 2)
      else
        if decide (length output < written + 1)%nat
        then Done (Err OutputTooSmall, output) else
        output ← store output written byte;
        encode_loop input output (written + 1)
  end.

Definition encode_with_command (command : Z) (input output : list Z) :
    run (result EncodeError nat * list Z) :=
  if decide (length output < 2)%nat then Done (Err OutputTooSmall, output) else
  output ← store output 0 FEND;
  output ← store output 1 command;
  '(r, output) ← encode_loop input output 2;
  match r with
  | Err e => Done (Err e, output)
  | Ok written =>
      if decide (length output ≤ written)%nat then Done (Err OutputTooSmall, output) else
      output ← store output written FEND;
      Done (Ok (written + 1)%nat, output)
  end.

Definition encode (input output : list Z) : run (result EncodeError nat * list Z) :=
  encode_with_command CMD_DATA input output.

Definition command_frame (command value : Z) : list Z := [FEND; command; value; FEND].

Inductive DecodeError := FrameTooBig.
#[global] Instance DecodeError_eq_dec : EqDecision DecodeError.
Proof. solve_decision. Defined.

(** * The data-frame scanner *)

Record KissScanner := mkScanner { in_frame : bool; command : Z; saw_escape : bool }.
#[global] Instance KissScanner_eq_dec : EqDecision KissScanner.
Proof. solve_decision. Defined.

Definition Scanner_new : KissScanner := mkScanner false CMD_UNKNOWN false.
Definition Scanner_reset (_ : KissScanner) : KissScanner := mkScanner false CMD_UNKNOWN false.

(** The byte an escape sequence stands for; a non-canonical one is kept verbatim. *)
Definition unescape (byte : Z) : Z :=
  if byte =? TFEND then FEND else if byte =? TFESC then FESC else byte.

Section scanner.
Context {T : Type} {sink_ops : FrameSink T}.

Definition feed_one_into (sc : KissScanner) (byte : Z) (sink : T) :
    result DecodeError bool * KissScanner * T :=
  if in_frame sc && (byte =? FEND) && (command sc =? CMD_DATA) then
    (Ok true, mkScanner false (command sc) false, sink)
  else if byte =? FEND then (Ok false, mkScanner true CMD_UNKNOWN false, clear sink)
  else if negb (in_frame sc) then (Ok false, sc, sink)
  else if (command sc =? CMD_UNKNOWN) && (frame_len sink =? 0)%nat then
    (Ok false, mkScanner (in_frame sc) (Z.land byte 0x0F) (saw_escape sc), sink)
  else if negb (command sc =? CMD_DATA) then (Ok false, sc, sink)
  else if byte =? FESC then (Ok false, mkScanner (in_frame sc) (command sc) true, sink)
  else
  let '(payload_byte, sc) :=
    if saw_escape sc then (unescape byte, mkScanner (in_frame sc) (command sc) false)
    else (byte, sc) in
  match push sink payload_byte with
  | (Err _, sink) => (Err FrameTooBig, Scanner_reset sc, clear sink)
  | (Ok _, sink) => (Ok false, sc, sink)
  end.

(** [next_frame_into]: the loop over the chunk. *)
Fixpoint next_frame_loop (fuel : nat) (sc : KissScanner) (input : list Z) (offset : nat)
    (sink : T) : run (result DecodeError (option nat) * KissScanner * nat * T) :=
  match fuel with
  | O => OutOfFuel
  | S fuel =>
      if decide (length input ≤ offset)%nat then Done (Ok None, sc, offset, sink) else
      byte ← index input offset;
      let offset := (offset + 1)%nat in
      match feed_one_into sc byte sink with
      | (Err e, sc, sink) => Done (Err e, sc, offset, sink)
      | (Ok true, sc, sink) => Done (Ok (Some (frame_len sink)), sc, offset, sink)
      | (Ok false, sc, sink) => next_frame_loop fuel sc input offset sink
      end
  end.

Definition next_frame_into (sc : KissScanner) (input : list Z) (offset : nat) (sink : T) :=
  next_frame_loop (S (length input - offset)) sc input offset sink.
End scanner.

Record KissDecoder (FRAME_CAP : nat) := mkDecoder {
  scanner : KissScanner;
  buffer : FrameBuffer FRAME_CAP;
}.
Arguments mkDecoder {FRAME_CAP} _ _.
Arguments scanner {FRAME_CAP} _.
Arguments buffer {FRAME_CAP} _.

Section decoder.
Context {FRAME_CAP : nat}.
Implicit Types d : KissDecoder FRAME_CAP.

Definition Decoder_new : KissDecoder FRAME_CAP :=
  mkDecoder Scanner_new (FrameBuffer_new FRAME_CAP).
Definition Decoder_reset d : KissDecoder FRAME_CAP :=
  mkDecoder (Scanner_reset (scanner d)) (clear (buffer d)).

Definition feed d (byte : Z) : result DecodeError (option (list Z)) * KissDecoder FRAME_CAP :=
  let '(r, sc, buf) := feed_one_into (scanner d) byte (buffer d) in
  (match r with
   | Err e => Err e
   | Ok true => Ok (Some (as_slice buf))
   | Ok false => Ok None
   end, mkDecoder sc buf).

Definition feed_slice_next d (input : list Z) (offset : nat) :
    run (result DecodeError (option (list Z)) * KissDecoder FRAME_CAP * nat) :=
  '(r, sc, offset, buf) ← next_frame_into (scanner d) input offset (buffer d);
  Done (match r with
        | Err e => Err e
        | Ok (Some _) => Ok (Some (as_slice buf))
        | Ok None => Ok None
        end, mkDecoder sc buf, offset).

Definition feed_slice d (input : list Z) : run (list (list Z) * KissDecoder FRAME_CAP) :=
  slice_loop feed_slice_next (S (length input)) d input 0.
End decoder.

(** * The command decoder *)

Record KissCommandDecoder (FRAME_CAP : nat) := mkCommandDecoder {
  cd_buffer : FrameBuffer FRAME_CAP;
  cd_in_frame : bool;
  cd_command : Z;
  cd_saw_escape : bool;
  cd_yielded : bool;
}.
Arguments mkCommandDecoder {FRAME_CAP} _ _ _ _ _.
Arguments cd_buffer {FRAME_CAP} _.
Arguments cd_in_frame {FRAME_CAP} _.
Arguments cd_command {FRAME_CAP} _.
Arguments cd_saw_escape {FRAME_CAP} _.
Arguments cd_yielded {FRAME_CAP} _.

Section command_decoder.
Context {FRAME_CAP : nat}.
Implicit Types d : KissCommandDecoder FRAME_CAP.

Definition CommandDecoder_new : KissCommandDecoder FRAME_CAP :=
  mkCommandDecoder (FrameBuffer_new FRAME_CAP) false CMD_UNKNOWN false false.
Definition CommandDecoder_reset d : KissCommandDecoder FRAME_CAP :=
  mkCommandDecoder (clear (cd_buffer d)) false CMD_UNKNOWN false false.

(** [feed_one]: clears the frame yielded by the previous call, then takes the byte. *)
Definition feed_one d (byte : Z) : result DecodeError bool * KissCommandDecoder FRAME_CAP :=
  let d :=
    if cd_yielded d
    then mkCommandDecoder (clear (cd_buffer d)) (cd_in_frame d) CMD_UNKNOWN false false
    else d in
  if byte =? FEND then
    if cd_in_frame d && negb (cd_command d =? CMD_UNKNOWN) then
      (Ok true, mkCommandDecoder (cd_buffer d) true (cd_command d) (cd_saw_escape d) true)
    else (Ok false, mkCommandDecoder (clear (cd_buffer d)) true CMD_UNKNOWN false (cd_yielded d))
  else if negb (cd_in_frame d) then (Ok false, d)
  else if (cd_command d =? CMD_UNKNOWN) && (frame_len (cd_buffer d) =? 0)%nat then
    (Ok false, mkCommandDecoder (cd_buffer d) (cd_in_frame d) byte (cd_saw_escape d) (cd_yielded d))
  else if byte =? FESC then
    (Ok false, mkCommandDecoder (cd_buffer d) (cd_in_frame d) (cd_command d) true (cd_yielded d))
  else
  let '(payload_byte, d) :=
    if cd_saw_escape d then
      (unescape byte,
       mkCommandDecoder (cd_buffer d) (cd_in_frame d) (cd_command d) false (cd_yielded d))
    else (byte, d) in
  match push (cd_buffer d) payload_byte with
  | (Err _, buf) =>
      (Err FrameTooBig, CommandDecoder_reset
         (mkCommandDecoder buf (cd_in_frame d) (cd_command d) (cd_saw_escape d) (cd_yielded d)))
  | (Ok _, buf) =>
      (Ok false,
       mkCommandDecoder buf (cd_in_frame d) (cd_command d) (cd_saw_escape d) (cd_yielded d))
  end.

Definition cd_feed d (byte : Z) :
    result DecodeError (option (Z * list Z)) * KissCommandDecoder FRAME_CAP :=
  let '(r, d) := feed_one d byte in
  (match r with
   | Err e => Err e
   | Ok true => Ok (Some (cd_command d, as_slice (cd_buffer d)))
   | Ok false => Ok None
   end, d).

(** [KissCommandDecoder::feed_slice_next]: the loop over the chunk. *)
Fixpoint cd_feed_slice_next_loop (fuel : nat) d (input : list Z) (offset : nat) :
    run (result DecodeError (option (Z * list Z)) * KissCommandDecoder FRAME_CAP * nat) :=
  match fuel with
  | O => OutOfFuel
  | S fuel =>
      if decide (length input ≤ offset)%nat then Done (Ok None, d, offset) else
      byte ← index input offset;
      let offset := (offset + 1)%nat in
      match feed_one d byte with
      | (Err e, d) => Done (Err e, d, offset)
      | (Ok true, d) => Done (Ok (Some (cd_command d, as_slice (cd_buffer d))), d, offset)
      | (Ok false, d) => cd_feed_slice_next_loop fuel d input offset
      end
  end.

Definition cd_feed_slice_next d (input : list Z) (offset : nat) :=
  cd_feed_slice_next_loop (S (length input - offset)) d input offset.

Definition cd_feed_slice d (input : list Z) :
    run (list (Z * list Z) * KissCommandDecoder FRAME_CAP) :=
  slice_loop cd_feed_slice_next (S (length input)) d input 0.
End command_decoder.

(** * The encoding, as a function on payloads *)

Definition escape (b : Z) : list Z :=
  if b =? FEND then [FESC; TFEND] else if b =? FESC then [FESC; TFESC] else [b].
Definition body (p : list Z) : list Z := p ≫= escape.
Definition frame (cmd : Z) (p : list Z) : list Z := FEND :: cmd :: body p ++ [FEND].

Lemma kiss_body_cons b p : body (b :: p) = escape b ++ body p.
Proof. done. Qed.

Lemma kiss_length_body p : (length p ≤ length (body p) ≤ 2 * length p)%nat.
Proof.
  induction p as [|b p IH]; [simpl; lia|]. rewrite kiss_body_cons, length_app. simpl.
  unfold escape. destruct (b =? FEND), (b =? FESC); simpl; lia.
Qed.

(** An escape pair is written whole or not at all. *)
Lemma wrote_pair x1 x2 enc pre post k :
  (∀ post', wrote OutputTooSmall enc (pre ++ [x1; x2]) post'
     (k ((pre ++ [x1; x2]) ++ post') (length (pre ++ [x1; x2])))) →
  wrote OutputTooSmall ([x1; x2] ++ enc) pre post
    (if decide (length (pre ++ post) < length pre + 2)%nat
     then Done (Err OutputTooSmall, pre ++ post)
     else output ← store (pre ++ post) (length pre) x1;
          output ← store output (length pre + 1) x2; k output (length pre + 2)%nat).
Proof.
  intros Hk. case_decide as H; rewrite length_app in H.
  { apply wrote_too_small; [rewrite length_app; simpl; lia|done]. }
  destruct post as [|y1 [|y2 post]]; simpl in H; [lia..|].
  rewrite store_at by done. cbn [mbind run_bind].
  rewrite (cons_middle x1 pre), (app_assoc pre [x1]), store_at by (rewrite length_app; simpl; lia).
  cbn [mbind run_bind]. apply (wrote_app _ [x1; x2] enc pre [y1; y2]); [done|].
  specialize (Hk post). rewrite <- !app_assoc in *. simpl in *.
  by rewrite length_app in Hk.
Qed.

Lemma kiss_encode_loop_spec input pre post :
  wrote OutputTooSmall (body input) pre post (encode_loop input (pre ++ post) (length pre)).
Proof.
  revert pre post. induction input as [|b input IH]; intros pre post.
  { unfold wrote. rewrite decide_True by (simpl; lia). simpl. by rewrite drop_0, Nat.add_0_r. }
  rewrite kiss_body_cons. unfold escape. cbn [encode_loop].
  destruct (b =? FEND); [apply wrote_pair; intros; apply IH|].
  destruct (b =? FESC); [apply wrote_pair; intros; apply IH|].
  case_decide as H; rewrite length_app in H.
  { apply wrote_too_small; [rewrite length_app; simpl; lia|done]. }
  destruct post as [|y post]; simpl in H; [lia|].
  rewrite store_at by done. cbn [mbind run_bind].
  apply (wrote_app _ [b] _ pre [y]); [done|].
  specialize (IH (pre ++ [b]) post). rewrite <- app_assoc, length_app in IH. exact IH.
Qed.

Lemma kiss_encode_spec cmd input output :
  wrote OutputTooSmall (frame cmd input) [] output (encode_with_command cmd input output).
Proof.
  unfold encode_with_command, frame. case_decide as H.
  { apply wrote_too_small; [simpl; rewrite length_app; simpl; lia|done]. }
  destruct output as [|o1 [|o2 output]]; simpl in H; [lia..|].
  change (store (o1 :: o2 :: output) 0 FEND) with (Done (FEND :: o2 :: output)).
  cbn [mbind run_bind].
  change (store (FEND :: o2 :: output) 1 cmd) with (Done ([FEND; cmd] ++ output)).
  cbn [mbind run_bind].
  change (o1 :: o2 :: output) with ([o1; o2] ++ output).
  apply (wrote_app _ [FEND; cmd] _ [] [o1; o2]); [done|].
  pose proof (kiss_encode_loop_spec input [FEND; cmd] output) as Hl. simpl length in Hl.
  unfold wrote in Hl. case_decide as Hfit.
  - rewrite Hl. cbn [mbind run_bind].
    destruct (split_block (length (body input)) output) as (x & post & -> & Hx); [done|].
    rewrite drop_app_ge, Hx, Nat.sub_diag, drop_0 by lia. apply wrote_app; [done|].
    rewrite !length_app in *. case_decide as Hfit2.
    + apply wrote_too_small; rewrite ?length_app; simpl in *; lia.
    + destruct post as [|y post]; simpl in Hfit2; [lia|].
      rewrite app_assoc, store_at by (rewrite length_app; simpl; lia). cbn [mbind run_bind].
      unfold wrote. rewrite decide_True by (simpl; lia). by rewrite length_app.
  - destruct Hl as (out & -> & Hout). cbn [mbind run_bind].
    apply wrote_too_small; [rewrite length_app; simpl; lia|done].
Qed.

Lemma kiss_escape_cases b :
  (escape b = [b] ∧ (b =? FEND) = false ∧ (b =? FESC) = false)
  ∨ (∃ t, escape b = [FESC; t] ∧ (t =? FEND) = false ∧ (t =? FESC) = false ∧ unescape t = b).
Proof.
  unfold escape. destruct (Z.eqb_spec b FEND) as [->|Hf]; [right; exists TFEND; done|].
  destruct (Z.eqb_spec b FESC) as [->|He]; [right; exists TFESC; done|].
  left. rewrite <- Z.eqb_neq in Hf, He. auto.
Qed.

Lemma body_no_fend p : Forall (λ b, b ≠ FEND) (body p).
Proof.
  induction p as [|b p IH]; [constructor|]. rewrite kiss_body_cons. apply Forall_app. split; [|done].
  destruct (kiss_escape_cases b) as [(-> & H & _)|(t & -> & H & _)]; apply Z.eqb_neq in H;
    repeat constructor; done.
Qed.

(** * The data decoder *)

Section data_decoder_proofs.
Context {cap : nat}.
Implicit Types d : KissDecoder cap.

(** Where a [FEND] opens a frame. *)
Definition ready d : Prop :=
  in_frame (scanner d) = false ∨ command (scanner d) ≠ CMD_DATA.
Definition state (c : Z) (bs : list Z) : KissDecoder cap :=
  mkDecoder (mkScanner true c false) (mkFrameBuffer bs).

Lemma feed_open d : ready d → feed d FEND = (Ok None, state CMD_UNKNOWN []).
Proof.
  destruct d as [[[] c e] [bs]]; unfold ready, feed, feed_one_into; simpl; [|done].
  intros [?|Hc%Z.eqb_neq]; [done|]. by rewrite Hc.
Qed.

Lemma feed_command c : c ≠ FEND → feed (state CMD_UNKNOWN []) c = (Ok None, state (Z.land c 0x0F) []).
Proof. intros H%Z.eqb_neq. unfold feed, feed_one_into. simpl. by rewrite H. Qed.

Lemma kiss_feed_escape bs b :
  (length bs < cap)%nat →
  each feed (state CMD_DATA bs) (escape b) = ([], state CMD_DATA (bs ++ [b])).
Proof.
  intros Hlen.
  destruct (kiss_escape_cases b) as [(-> & Hf & He)|(t & -> & Hf & He & Hu)]; simpl;
    unfold feed, feed_one_into; simpl; rewrite Hf, ?He; simpl;
    unfold fb_push; simpl; rewrite decide_False by lia; [done|by rewrite Hu].
Qed.

Lemma kiss_feed_body bs p :
  (length bs + length p ≤ cap)%nat →
  each feed (state CMD_DATA bs) (body p) = ([], state CMD_DATA (bs ++ p)).
Proof.
  revert bs. induction p as [|b p IH]; intros bs Hlen; simpl in Hlen; [by rewrite app_nil_r|].
  rewrite kiss_body_cons, each_app, kiss_feed_escape by lia.
  rewrite IH by (rewrite length_app; simpl; lia). by rewrite <- app_assoc.
Qed.

(** The bytes of other commands are dropped. *)
Lemma feed_dropped c bs :
  c ≠ CMD_DATA → c ≠ CMD_UNKNOWN → Forall (λ b, b ≠ FEND) bs →
  each feed (state c []) bs = ([], state c []).
Proof.
  intros Hd%Z.eqb_neq Hu%Z.eqb_neq. induction 1 as [|b bs Hb%Z.eqb_neq _ IH]; [done|].
  assert (feed (state c []) b = (Ok None, state c [])) as Hstep
    by (unfold feed, feed_one_into; simpl; by rewrite Hb, Hd, Hu).
  cbn [each]. by rewrite Hstep, IH.
Qed.

Lemma feed_kiss_frame d c p :
  ready d → c ≠ FEND → (Z.land c 0x0F = CMD_DATA → length p ≤ cap)%nat →
  ∃ d', each feed d (frame c p) = ((if Z.land c 0x0F =? CMD_DATA then [p] else []), d') ∧ ready d'.
Proof.
  intros Hr Hc Hlen. unfold frame. cbn [each]. rewrite feed_open by done.
  cbn -[each feed state]. rewrite feed_command by done. cbn -[each state]. rewrite each_app.
  destruct (Z.eqb_spec (Z.land c 0x0F) CMD_DATA) as [E|Hne].
  - rewrite E, kiss_feed_body by (simpl; auto). simpl.
    eexists. split; [reflexivity|]. by left.
  - assert (Z.land c 0x0F ≠ CMD_UNKNOWN).
    { change 0x0F with (Z.ones 4). rewrite Z.land_ones by lia.
      pose proof (Z.mod_pos_bound c (2 ^ 4)). unfold CMD_UNKNOWN. lia. }
    rewrite feed_dropped by auto using body_no_fend. cbn [each app].
    rewrite feed_open by (by right). simpl. eexists. split; [reflexivity|]. by right.
Qed.

Definition is_data (f : Z * list Z) : bool := Z.land f.1 0x0F =? CMD_DATA.

Lemma feed_kiss_frames d fs :
  ready d →
  Forall (λ f, f.1 ≠ FEND ∧ (is_data f = true → length f.2 ≤ cap)%nat) fs →
  ∃ d', each feed d (fs ≫= uncurry frame) = (snd <$> filter (λ f, is_data f = true) fs, d') ∧ ready d'.
Proof.
  intros Hr Hfs. revert d Hr.
  induction Hfs as [|[c p] fs [Hc Hl] Hfs IH]; intros d Hr; [by exists d|].
  rewrite bind_cons, each_app. simpl uncurry.
  destruct (feed_kiss_frame d c p) as (d1 & -> & Hr1); [done..|by intros; apply Hl, Z.eqb_eq|].
  destruct (IH d1 Hr1) as (d2 & -> & Hr2). exists d2. split; [|done].
  rewrite filter_cons. unfold is_data. simpl. by destruct (_ =? _).
Qed.

Lemma next_frame_loop_upto fuel d input offset :
  (offset ≤ length input)%nat → (length input - offset < fuel)%nat →
  ('(r, sc, offset, buf) ← next_frame_loop fuel (scanner d) input offset (buffer d);
   Done (match r with
        | Err e => Err e
        | Ok (Some _) => Ok (Some (as_slice buf))
        | Ok None => Ok None
        end, mkDecoder sc buf, offset))
  = Done (shift offset (upto feed d (drop offset input))).
Proof.
  revert d offset. induction fuel as [|fuel IH]; intros d offset Hoff Hf; [lia|].
  cbn [next_frame_loop]. case_decide as Hend.
  { rewrite drop_ge by done. simpl. rewrite Nat.add_0_r. by destruct d. }
  destruct (lookup_lt_is_Some_2 input offset) as [b Hb]; [lia|].
  rewrite (index_lookup _ _ _ Hb), (drop_S _ _ _ Hb). cbn [mbind run_bind upto].
  unfold feed at 1. destruct (feed_one_into (scanner d) b (buffer d)) as [[[[]|e] sc1] buf1];
    [done| |done].
  rewrite Nat.add_1_r. etrans; [apply (IH (mkDecoder sc1 buf1) (S offset)); lia|].
  destruct (upto feed _ (drop (S offset) input)) as [[? ?] ?]. simpl. by rewrite Nat.add_succ_r.
Qed.
End data_decoder_proofs.

(** * The command decoder *)

Section command_decoder_proofs.
Context {cap : nat}.
Implicit Types d : KissCommandDecoder cap.

(** A frame is open and still empty, either just opened or by the [FEND] that closed the
    previous one, whose payload is still lent to the caller. *)
Definition cd_open d : Prop :=
  cd_in_frame d = true
  ∧ (cd_yielded d = true
     ∨ cd_command d = CMD_UNKNOWN ∧ bytes (cd_buffer d) = [] ∧ cd_saw_escape d = false
       ∧ cd_yielded d = false).

Definition cd_state (c : Z) (bs : list Z) : KissCommandDecoder cap :=
  mkCommandDecoder (mkFrameBuffer bs) true c false false.

Lemma cd_feed_fend d :
  cd_open d → cd_feed d FEND = (Ok None, cd_state CMD_UNKNOWN []).
Proof.
  destruct d as [[bs] f c e y]; unfold cd_open, cd_feed, feed_one; simpl.
  intros [-> [->|(-> & -> & -> & ->)]]; done.
Qed.

Lemma cd_feed_command d c :
  cd_open d → c ≠ FEND → cd_feed d c = (Ok None, cd_state c []).
Proof.
  destruct d as [[bs] f c' e y]; unfold cd_open, cd_feed, feed_one; simpl.
  intros [-> [->|(-> & -> & -> & ->)]] H%Z.eqb_neq; simpl; by rewrite H.
Qed.

Lemma cd_feed_escape c bs b :
  c ≠ CMD_UNKNOWN → (length bs < cap)%nat →
  each cd_feed (cd_state c bs) (escape b) = ([], cd_state c (bs ++ [b])).
Proof.
  intros Hc%Z.eqb_neq Hlen.
  destruct (kiss_escape_cases b) as [(-> & Hf & He)|(t & -> & Hf & He & Hu)]; simpl;
    unfold cd_feed, feed_one; simpl; do 3 (rewrite ?Hc, ?Hf, ?He; simpl);
    unfold fb_push; simpl; rewrite decide_False by lia; [done|by rewrite Hu].
Qed.

Lemma cd_feed_body c bs p :
  c ≠ CMD_UNKNOWN → (length bs + length p ≤ cap)%nat →
  each cd_feed (cd_state c bs) (body p) = ([], cd_state c (bs ++ p)).
Proof.
  intros Hc. revert bs. induction p as [|b p IH]; intros bs Hlen; simpl in Hlen;
    [by rewrite app_nil_r|].
  rewrite kiss_body_cons, each_app, cd_feed_escape by (done || lia).
  rewrite IH by (rewrite length_app; simpl; lia). by rewrite <- app_assoc.
Qed.

Lemma cd_feed_close c p :
  c ≠ CMD_UNKNOWN →
  ∃ d', cd_feed (cd_state c p) FEND = (Ok (Some (c, p)), d') ∧ cd_open d'.
Proof.
  intros Hc%Z.eqb_neq. unfold cd_feed, feed_one. simpl. rewrite Hc. simpl.
  eexists. split; [reflexivity|]. split; [done|by left].
Qed.

(** A frame whose opening [FEND] may be the closing one of the frame before it. *)
Definition command_stream (f : bool * (Z * list Z)) : list Z :=
  let '(shared, (c, p)) := f in
  if shared : bool then c :: body p ++ [FEND] else frame c p.

Lemma cd_feed_frame d f :
  cd_open d → f.2.1 ≠ FEND → f.2.1 ≠ CMD_UNKNOWN → (length f.2.2 ≤ cap)%nat →
  ∃ d', each cd_feed d (command_stream f) = ([f.2], d') ∧ cd_open d'.
Proof.
  destruct f as [shared [c p]]. simpl. intros Ho Hc Hu Hlen.
  assert (Htail : ∃ d', each cd_feed d (c :: body p ++ [FEND]) = ([(c, p)], d') ∧ cd_open d').
  { cbn [each]. rewrite cd_feed_command by done. cbn -[each cd_state].
    rewrite each_app, cd_feed_body by done. cbn [each app].
    destruct (cd_feed_close c p Hu) as (d' & -> & Ho'). by exists d'. }
  destruct shared; [exact Htail|]. unfold frame. cbn [each] in *.
  rewrite cd_feed_fend by done.
  rewrite cd_feed_command in Htail by done.
  rewrite cd_feed_command; [|split; [done|by right]|done].
  destruct Htail as (d' & Ht & Ho'). exists d'. split; [|done].
  cbn -[each cd_state] in *. by destruct (each cd_feed (cd_state c []) _).
Qed.

Lemma cd_feed_frames d fs :
  cd_open d →
  Forall (λ f, f.2.1 ≠ FEND ∧ f.2.1 ≠ CMD_UNKNOWN ∧ (length f.2.2 ≤ cap)%nat) fs →
  ∃ d', each cd_feed d (fs ≫= command_stream) = (snd <$> fs, d') ∧ cd_open d'.
Proof.
  intros Ho Hfs. revert d Ho. induction Hfs as [|f fs (Hc & Hu & Hl) Hfs IH]; intros d Ho.
  { by exists d. }
  rewrite bind_cons, each_app.
  destruct (cd_feed_frame d f) as (d1 & -> & Ho1); [done..|].
  destruct (IH d1 Ho1) as (d2 & -> & Ho2). by exists d2.
Qed.

Lemma cd_feed_slice_next_upto fuel d input offset :
  (offset ≤ length input)%nat → (length input - offset < fuel)%nat →
  cd_feed_slice_next_loop fuel d input offset
  = Done (shift offset (upto cd_feed d (drop offset input))).
Proof.
  revert d offset. induction fuel as [|fuel IH]; intros d offset Hoff Hf; [lia|].
  cbn [cd_feed_slice_next_loop]. case_decide as Hend.
  { rewrite drop_ge by done. simpl. by rewrite Nat.add_0_r. }
  destruct (lookup_lt_is_Some_2 input offset) as [b Hb]; [lia|].
  rewrite (index_lookup _ _ _ Hb), (drop_S _ _ _ Hb). cbn [mbind run_bind upto].
  unfold cd_feed at 1. destruct (feed_one d b) as [[[]|e] d1]; [done| |done].
  rewrite Nat.add_1_r, IH by lia.
  destruct (upto cd_feed _ (drop (S offset) input)) as [[? ?] ?]. simpl. by rewrite Nat.add_succ_r.
Qed.
End command_decoder_proofs.

(** * Properties *)

(** [encode_with_command] never panics; it succeeds exactly when the output holds the
    frame (at most [max_encoded_len] bytes), writes exactly the frame and leaves the rest of
    the buffer untouched; otherwise it reports [OutputTooSmall]. *)
Theorem kiss_encode_total cmd input output :
  (length (frame cmd input) ≤ max_encoded_len (length input))%nat
  ∧ ((length (frame cmd input) ≤ length output)%nat →
     encode_with_command cmd input output = Done (Ok (length (frame cmd input)),
       frame cmd input ++ drop (length (frame cmd input)) output))
  ∧ ((length output < length (frame cmd input))%nat →
     ∃ out, encode_with_command cmd input output = Done (Err OutputTooSmall, out)
       ∧ length out = length output).
Proof.
  pose proof (kiss_encode_spec cmd input output) as H. unfold wrote in H. split.
  { unfold frame, max_encoded_len. simpl. rewrite length_app. simpl.
    pose proof (kiss_length_body input). lia. }
  split; intros; [rewrite decide_True in H by done|rewrite decide_False in H by lia]; done.
Qed.

(** The KISS data decoder recovers exactly the payloads of the data frames (low command
    nibble zero) of any sequence of frames, in order, fed in one chunk or byte by byte;
    frames of other commands are consumed without a trace. *)
Theorem kiss_data_roundtrip {cap} (fs : list (Z * list Z)) :
  Forall (λ f, f.1 ≠ FEND ∧ (is_data f = true → length f.2 ≤ cap)%nat) fs →
  ∃ d, feed_slice (Decoder_new (FRAME_CAP := cap)) (fs ≫= uncurry frame)
         = Done (snd <$> filter (λ f, is_data f = true) fs, d)
    ∧ each feed (Decoder_new (FRAME_CAP := cap)) (fs ≫= uncurry frame)
         = (snd <$> filter (λ f, is_data f = true) fs, d).
Proof.
  intros Hfs. destruct (feed_kiss_frames (cap := cap) Decoder_new fs) as (d & H & _);
    [by left|done|]. exists d. split; [|done].
  unfold feed_slice. rewrite slice_loop_each with (step := feed);
    [by rewrite drop_0, H| |lia|lia].
  intros. unfold feed_slice_next, next_frame_into. apply next_frame_loop_upto; lia.
Qed.

Lemma kiss_data_roundtrip_witness :
  ∃ d, feed_slice (Decoder_new (FRAME_CAP := 3))
         ([(CMD_DATA, [FEND; FESC; 1]); (0x0F, [1; 2; 3; 4; 5]); (0x10, [])] ≫= uncurry frame)
         = Done ([[FEND; FESC; 1]; []], d)
    ∧ each feed (Decoder_new (FRAME_CAP := 3))
         ([(CMD_DATA, [FEND; FESC; 1]); (0x0F, [1; 2; 3; 4; 5]); (0x10, [])] ≫= uncurry frame)
         = ([[FEND; FESC; 1]; []], d).
Proof.
  apply (kiss_data_roundtrip (cap := 3)
    [(CMD_DATA, [FEND; FESC; 1]); (0x0F, [1; 2; 3; 4; 5]); (0x10, [])]).
  repeat constructor; simpl; try (intros; vm_compute in *; (lia || congruence)).
Defined.

(** The KISS command decoder recovers every (command, payload) frame of a stream, in
    order, whether consecutive frames have their own delimiters or share one, fed in one
    chunk or byte by byte. *)
Theorem kiss_command_roundtrip {cap} (fs : list (bool * (Z * list Z))) :
  Forall (λ f, f.2.1 ≠ FEND ∧ f.2.1 ≠ CMD_UNKNOWN ∧ (length f.2.2 ≤ cap)%nat) fs →
  ∃ d, cd_feed_slice (CommandDecoder_new (FRAME_CAP := cap)) (FEND :: (fs ≫= command_stream))
         = Done (snd <$> fs, d)
    ∧ each cd_feed (CommandDecoder_new (FRAME_CAP := cap)) (FEND :: (fs ≫= command_stream))
         = (snd <$> fs, d).
Proof.
  intros Hfs. destruct (cd_feed_frames (cap := cap) (cd_state CMD_UNKNOWN []) fs)
    as (d & H & _); [split; [done|by right]|done|].
  assert (He : each cd_feed (CommandDecoder_new (FRAME_CAP := cap))
                 (FEND :: (fs ≫= command_stream)) = (snd <$> fs, d)).
  { assert (cd_feed CommandDecoder_new FEND = (Ok None, cd_state (cap := cap) CMD_UNKNOWN []))
      as Hopen by reflexivity.
    cbn [each]. rewrite Hopen. cbv beta iota zeta. by rewrite H. }
  exists d. split; [|done]. unfold cd_feed_slice.
  rewrite slice_loop_each with (step := cd_feed); [by rewrite drop_0, He| |lia|lia].
  intros. apply cd_feed_slice_next_upto; lia.
Qed.

Lemma kiss_command_roundtrip_witness :
  ∃ d, cd_feed_slice (CommandDecoder_new (FRAME_CAP := 2))
         (FEND :: ([(true, (0x08, [0x73])); (true, (0x50, [FEND; 0])); (false, (0, []))]
                     ≫= command_stream))
         = Done ([(0x08, [0x73]); (0x50, [FEND; 0]); (0, [])], d)
    ∧ each cd_feed (CommandDecoder_new (FRAME_CAP := 2))
         (FEND :: ([(true, (0x08, [0x73])); (true, (0x50, [FEND; 0])); (false, (0, []))]
                     ≫= command_stream))
         = ([(0x08, [0x73]); (0x50, [FEND; 0]); (0, [])], d).
Proof.
  apply (kiss_command_roundtrip (cap := 2)
    [(true, (0x08, [0x73])); (true, (0x50, [FEND; 0])); (false, (0, []))]).
  repeat constructor; simpl; try (intros; vm_compute in *; (lia || congruence)).
Defined.
