(* ===== verification/MessagePack.v ===== *)
(** MessagePack: [prns-core/src/message_pack/].

    The reader of markers, integers, strings, blobs and containers, the decoder of whole values
    under limits, the skipping of values, and the encoder.  The writes of the [rmp] crate are
    parameters, the class [Rmp].  Strings are their UTF-8 bytes and an [f64] its bits.  The theorems
    here are about untrusted bytes: decoding keeps to its limits, and skipping agrees with it.  The
    round trip is in [MessagePackRoundtrip]. *)

From S2P Require Import Prelude.

Inductive MessagePackDecodeError := DecodeError.
Inductive MessagePackEncodeError := EncodeError.

(** * The reader ([decoder.rs]) *)

Inductive Marker :=
  | FixPos (value : Z) | FixMap (length : Z) | FixArray (length : Z) | FixStr (length : Z)
  | Null | Reserved | MFalse | MTrue
  | Bin8 | Bin16 | Bin32 | Ext8 | Ext16 | Ext32 | F32 | F64
  | U8 | U16 | U32 | U64 | I8 | I16 | I32 | I64
  | FixExt1 | FixExt2 | FixExt4 | FixExt8 | FixExt16
  | Str8 | Str16 | Str32 | Array16 | Array32 | Map16 | Map32
  | FixNeg (value : Z).
#[global] Instance Marker_eq_dec : EqDecision Marker.
Proof. solve_decision. Defined.

(** [x as iN] *)
Definition as_signed (w x : Z) : Z := if (x <? 2 ^ (w - 1))%Z then x else (x - 2 ^ w)%Z.

Definition from_u8 (value : Z) : Marker :=
  if (value <=? 0x7f)%Z then FixPos value else
  if (value <=? 0x8f)%Z then FixMap (Z.land value 0x0f) else
  if (value <=? 0x9f)%Z then FixArray (Z.land value 0x0f) else
  if (value <=? 0xbf)%Z then FixStr (Z.land value 0x1f) else
  match value with
  | 0xc0 => Null | 0xc1 => Reserved | 0xc2 => MFalse | 0xc3 => MTrue
  | 0xc4 => Bin8 | 0xc5 => Bin16 | 0xc6 => Bin32
  | 0xc7 => Ext8 | 0xc8 => Ext16 | 0xc9 => Ext32
  | 0xca => F32 | 0xcb => F64
  | 0xcc => U8 | 0xcd => U16 | 0xce => U32 | 0xcf => U64
  | 0xd0 => I8 | 0xd1 => I16 | 0xd2 => I32 | 0xd3 => I64
  | 0xd4 => FixExt1 | 0xd5 => FixExt2 | 0xd6 => FixExt4 | 0xd7 => FixExt8 | 0xd8 => FixExt16
  | 0xd9 => Str8 | 0xda => Str16 | 0xdb => Str32
  | 0xdc => Array16 | 0xdd => Array32 | 0xde => Map16 | 0xdf => Map32
  | _ => FixNeg (as_signed 8 value)
  end%Z.

Inductive MessagePackInteger := Negative (value : Z) | Nonnegative (value : Z).

(** A read either fails or returns a value and the bytes after it. *)
Abbreviation read A := (result MessagePackDecodeError (A * list Z)).

Section reader.
Implicit Types (bs : list Z) (marker : Marker).

Definition read_bytes (length : nat) bs : read (list Z) := ok_or DecodeError (split_at_checked length bs).
Definition read_u8 bs : read Z := ok_or DecodeError (split_first bs).
Definition read_u16 bs : read Z := '(b, after) ← read_bytes 2 bs; Ok (from_be_bytes b, after).
Definition read_u32 bs : read Z := '(b, after) ← read_bytes 4 bs; Ok (from_be_bytes b, after).
Definition read_u64 bs : read Z := '(b, after) ← read_bytes 8 bs; Ok (from_be_bytes b, after).
(** [usize::try_from] of a [u32] *)
Definition length32 bs : read Z :=
  '(n, after) ← read_u32 bs; if (usize_max <? n)%Z then Err DecodeError else Ok (n, after).
Definition read_marker bs : read Marker := '(b, after) ← read_u8 bs; Ok (from_u8 b, after).

Definition some_of {A} (r : read A) : read (option A) := '(a, after) ← r; Ok (Some a, after).

Definition array_length marker bs : read (option Z) :=
  match marker with
  | FixArray length => Ok (Some length, bs)
  | Array16 => some_of (read_u16 bs)
  | Array32 => some_of (length32 bs)
  | _ => Ok (None, bs)
  end.

Definition map_length marker bs : read (option Z) :=
  match marker with
  | FixMap length => Ok (Some length, bs)
  | Map16 => some_of (read_u16 bs)
  | Map32 => some_of (length32 bs)
  | _ => Ok (None, bs)
  end.

Definition is_string marker : bool :=
  match marker with FixStr _ | Str8 | Str16 | Str32 => true | _ => false end.
Definition is_binary marker : bool := match marker with Bin8 | Bin16 | Bin32 => true | _ => false end.
Definition is_integer marker : bool :=
  match marker with
  | FixPos _ | FixNeg _ | U8 | U16 | U32 | U64 | I8 | I16 | I32 | I64 => true
  | _ => false
  end.

(** [str::from_utf8(bytes).is_ok()]: the table of well-formed byte sequences of the Unicode
    standard. *)
Definition between (lo hi b : Z) : bool := (lo <=? b)%Z && (b <=? hi)%Z.
Definition continuation (b : Z) : bool := between 0x80 0xbf b.
Fixpoint from_utf8 bs : bool :=
  match bs with
  | [] => true
  | b0 :: rest0 =>
      if (b0 <=? 0x7f)%Z then from_utf8 rest0 else
      match rest0 with
      | [] => false
      | b1 :: rest1 =>
          if between 0xc2 0xdf b0 then continuation b1 && from_utf8 rest1 else
          match rest1 with
          | [] => false
          | b2 :: rest2 =>
              if between 0xe0 0xef b0 then
                (if (b0 =? 0xe0)%Z then between 0xa0 0xbf b1
                 else if (b0 =? 0xed)%Z then between 0x80 0x9f b1 else continuation b1)
                && continuation b2 && from_utf8 rest2
              else
              match rest2 with
              | [] => false
              | b3 :: rest3 =>
                  between 0xf0 0xf4 b0
                  && (if (b0 =? 0xf0)%Z then between 0x90 0xbf b1
                      else if (b0 =? 0xf4)%Z then between 0x80 0x8f b1 else continuation b1)
                  && continuation b2 && continuation b3 && from_utf8 rest3
              end
          end
      end
  end.

(** The length a string or blob marker announces; [Ok (None, _)] for another marker. *)
Definition string_length marker bs : read (option Z) :=
  match marker with
  | FixStr length => Ok (Some length, bs)
  | Str8 => some_of (read_u8 bs)
  | Str16 => some_of (read_u16 bs)
  | Str32 => some_of (length32 bs)
  | _ => Ok (None, bs)
  end.
Definition read_string marker bs : read (option (list Z)) :=
  '(o, bs) ← string_length marker bs;
  match o with
  | None => Ok (None, bs)
  | Some length =>
      '(value, bs) ← read_bytes (Z.to_nat length) bs;
      Ok (if from_utf8 value then Some value else None, bs)
  end.

Definition binary_length marker bs : read (option Z) :=
  match marker with
  | Bin8 => some_of (read_u8 bs)
  | Bin16 => some_of (read_u16 bs)
  | Bin32 => some_of (length32 bs)
  | _ => Ok (None, bs)
  end.
Definition read_binary marker bs : read (option (list Z)) :=
  '(o, bs) ← binary_length marker bs;
  match o with
  | None => Ok (None, bs)
  | Some length => some_of (read_bytes (Z.to_nat length) bs)
  end.

Definition signed (value : Z) : MessagePackInteger :=
  if (value <? 0)%Z then Negative value else Nonnegative value.

Definition read_integer marker bs : read (option MessagePackInteger) :=
  let unsigned_of (r : read Z) := '(n, bs) ← r; Ok (Some (Nonnegative n), bs) in
  let signed_of (w : Z) (r : read Z) := '(n, bs) ← r; Ok (Some (signed (as_signed w n)), bs) in
  match marker with
  | FixPos value => Ok (Some (Nonnegative value), bs)
  | FixNeg value => Ok (Some (Negative value), bs)
  | U8 => unsigned_of (read_u8 bs)
  | U16 => unsigned_of (read_u16 bs)
  | U32 => unsigned_of (read_u32 bs)
  | U64 => unsigned_of (read_u64 bs)
  | I8 => signed_of 8 (read_u8 bs)
  | I16 => signed_of 16 (read_u16 bs)
  | I32 => signed_of 32 (read_u32 bs)
  | I64 => signed_of 64 (read_u64 bs)
  | _ => Ok (None, bs)
  end%Z.

(** [f64::from(f32)] on the bits: exact, with subnormals normalised and a NaN made quiet. *)
Definition f64_from_f32 (x : Z) : Z :=
  let s := Z.shiftl (Z.shiftr x 31) 63 in
  let e := Z.land (Z.shiftr x 23) 255 in
  let m := Z.land x (2 ^ 23 - 1) in
  if (e =? 255)%Z then
    (s + Z.shiftl 2047 52 + (if (m =? 0)%Z then 0 else Z.lor (2 ^ 51) (Z.shiftl m 29)))%Z
  else if (e =? 0)%Z then
    if (m =? 0)%Z then s
    else let k := Z.log2 m in (s + Z.shiftl (k + 874) 52 + Z.shiftl (m - 2 ^ k) (52 - k))%Z
  else (s + Z.shiftl (e + 896) 52 + Z.shiftl m 29)%Z.

Definition read_float marker bs : read (option Z) :=
  match marker with
  | F32 => '(bits, bs) ← read_u32 bs; Ok (Some (f64_from_f32 bits), bs)
  | F64 => some_of (read_u64 bs)
  | _ => Ok (None, bs)
  end.
End reader.

Example f64_from_f32_one : f64_from_f32 0x3f800000 = 0x3ff0000000000000%Z.
Proof. reflexivity. Qed.
Example f64_from_f32_least : f64_from_f32 1 = 0x36a0000000000000%Z.
Proof. reflexivity. Qed.

(** ** Skipping *)

Section skipping.
Implicit Types (bs : list Z) (marker : Marker) (depth maximum_depth : Z).

Definition skip (length : Z) bs : result MessagePackDecodeError (list Z) :=
  '(_, after) ← read_bytes (Z.to_nat length) bs; Ok after.

(** The [for] loop of [skip_sequence]. *)
Definition skip_all (skip_one : list Z → run (result MessagePackDecodeError (list Z))) :=
  fix loop (length : nat) bs : run (result MessagePackDecodeError (list Z)) :=
    match length with
    | O => Done (Ok bs)
    | S length =>
        r ← skip_one bs;
        match r with Err e => Done (Err e) | Ok bs => loop length bs end
    end.

(** What follows a marker: a number of bytes, a number of values, or nothing allowed. *)
Inductive Extent := Bytes (length : Z) | Values (length : Z).

Definition extent marker bs : result MessagePackDecodeError (Extent * list Z) :=
  let bytes_of (r : read Z) := '(n, bs) ← r; Ok (Bytes n, bs) in
  let values_of (r : read Z) := '(n, bs) ← r; Ok (Values n, bs) in
  let checked (n : Z) := if (usize_max <? n)%Z then Err DecodeError else Ok n in
  let pairs_of (r : read Z) := '(n, bs) ← r; n ← checked (n * 2)%Z; Ok (Values n, bs) in
  let tagged_of (r : read Z) := '(n, bs) ← r; n ← checked (n + 1)%Z; Ok (Bytes n, bs) in
  match marker with
  | MFalse | MTrue | Null | FixPos _ | FixNeg _ => Ok (Bytes 0, bs)
  | U8 | I8 => Ok (Bytes 1, bs)
  | U16 | I16 => Ok (Bytes 2, bs)
  | U32 | I32 | F32 => Ok (Bytes 4, bs)
  | U64 | I64 | F64 => Ok (Bytes 8, bs)
  | FixStr length => Ok (Bytes length, bs)
  | Str8 | Bin8 => bytes_of (read_u8 bs)
  | Str16 | Bin16 => bytes_of (read_u16 bs)
  | Str32 | Bin32 => bytes_of (length32 bs)
  | FixArray length => Ok (Values length, bs)
  | Array16 => values_of (read_u16 bs)
  | Array32 => values_of (length32 bs)
  | FixMap length => Ok (Values (length * 2), bs)
  | Map16 => pairs_of (read_u16 bs)
  | Map32 => pairs_of (length32 bs)
  | FixExt1 => Ok (Bytes 2, bs)
  | FixExt2 => Ok (Bytes 3, bs)
  | FixExt4 => Ok (Bytes 5, bs)
  | FixExt8 => Ok (Bytes 9, bs)
  | FixExt16 => Ok (Bytes 17, bs)
  | Ext8 => tagged_of (read_u8 bs)
  | Ext16 => tagged_of (read_u16 bs)
  | Ext32 => tagged_of (length32 bs)
  | Reserved => Err DecodeError
  end%Z.

Fixpoint skip_value (fuel : nat) marker depth maximum_depth bs :
    run (result MessagePackDecodeError (list Z)) :=
  match fuel with
  | O => OutOfFuel
  | S fuel =>
      if (maximum_depth <? depth)%Z then Done (Err DecodeError) else
      match extent marker bs with
      | Err e => Done (Err e)
      | Ok (Bytes n, bs) => Done (skip n bs)
      | Ok (Values n, bs) =>
          (* [skip_sequence] *)
          skip_all (λ bs,
            match read_marker bs with
            | Err e => Done (Err e)
            | Ok (marker, bs) => skip_value fuel marker (depth + 1)%Z maximum_depth bs
            end) (Z.to_nat n) bs
      end
  end.
End skipping.

(** * Values ([owned.rs]) *)

Unset Elimination Schemes.
Inductive MessagePackValue :=
  | Nil
  | Boolean (value : bool)
  | Signed (value : Z)
  | Unsigned (value : Z)
  | Float (bits : Z)
  | String (value : list Z)
  | Binary (value : list Z)
  | Array (values : list MessagePackValue)
  | Map (entries : list (MessagePackValue * MessagePackValue)).
Set Elimination Schemes.

(** Induction over a value and the values it contains. *)
Section value_ind.
Context (P : MessagePackValue → Prop) (Pnil : P Nil) (Pbool : ∀ b, P (Boolean b))
  (Psigned : ∀ n, P (Signed n)) (Punsigned : ∀ n, P (Unsigned n)) (Pfloat : ∀ b, P (Float b))
  (Pstring : ∀ s, P (String s)) (Pbinary : ∀ b, P (Binary b))
  (Parray : ∀ vs, Forall P vs → P (Array vs))
  (Pmap : ∀ es, Forall (λ e, P e.1 ∧ P e.2) es → P (Map es)).

Fixpoint MessagePackValue_ind (v : MessagePackValue) : P v :=
  match v with
  | Nil => Pnil
  | Boolean b => Pbool b
  | Signed n => Psigned n
  | Unsigned n => Punsigned n
  | Float b => Pfloat b
  | String s => Pstring s
  | Binary b => Pbinary b
  | Array vs =>
      Parray vs ((fix all vs : Forall P vs :=
        match vs with
        | [] => Forall_nil_2 _
        | v :: vs => Forall_cons_2 _ _ _ (MessagePackValue_ind v) (all vs)
        end) vs)
  | Map es =>
      Pmap es ((fix all es : Forall (λ e, P e.1 ∧ P e.2) es :=
        match es with
        | [] => Forall_nil_2 _
        | (k, v) :: es =>
            Forall_cons_2 (λ e, P e.1 ∧ P e.2) (k, v) es
              (conj (MessagePackValue_ind k) (MessagePackValue_ind v)) (all es)
        end) es)
  end.
End value_ind.

Record MessagePackDecodeLimits := mkLimits {
  maximum_depth : Z;
  maximum_values : Z;
  maximum_container_length : Z;
  maximum_blob_length : Z;
}.
Definition default_limits : MessagePackDecodeLimits := mkLimits 16 4096 4096 (16 * 1024 * 1024).

Inductive MessagePackOwnedError :=
  | Decode (e : MessagePackDecodeError)
  | Encode (e : MessagePackEncodeError)
  | LimitExceeded
  | UnsupportedMarker
  | TrailingData.

(** ** Decoding *)

(** The decoder's calls: they can fail, and the recursion is bounded by fuel. *)
Definition dec (A : Type) : Type := run (result MessagePackOwnedError A).
#[global] Instance dec_ret : MRet dec := λ A a, Done (Ok a).
#[global] Instance dec_bind : MBind dec := λ A B f m,
  match m with
  | Done (Ok a) => f a
  | Done (Err e) => Done (Err e)
  | Panic => Panic
  | OutOfFuel => OutOfFuel
  end.
Definition fail {A} (e : MessagePackOwnedError) : dec A := Done (Err e).
Definition give {A} (a : A) : dec A := Done (Ok a).
(** [map_err(MessagePackOwnedError::Decode)?] *)
Definition reading {A} (r : read A) : dec (A * list Z) :=
  match r with Ok x => give x | Err e => fail (Decode e) end.
(** [.ok_or(MessagePackOwnedError::UnsupportedMarker)?] *)
Definition supported {A} (o : option A) : dec A :=
  match o with Some a => give a | None => fail UnsupportedMarker end.

Definition decoded : Type := dec (MessagePackValue * Z * list Z).

(** [for _ in 0..length { array.push(decode_value(..)?) }] *)
Definition decode_array (decode : Z → list Z → decoded) :=
  fix loop (length : nat) (values : Z) (bs : list Z) : dec (list MessagePackValue * Z * list Z) :=
    match length with
    | O => give ([], values, bs)
    | S length =>
        '(v, values, bs) ← decode values bs;
        '(vs, values, bs) ← loop length values bs;
        give (v :: vs, values, bs)
    end.

Definition decode_map (decode : Z → list Z → decoded) :=
  fix loop (length : nat) (values : Z) (bs : list Z) :
      dec (list (MessagePackValue * MessagePackValue) * Z * list Z) :=
    match length with
    | O => give ([], values, bs)
    | S length =>
        '(key, values, bs) ← decode values bs;
        '(value, values, bs) ← decode values bs;
        '(rest, values, bs) ← loop length values bs;
        give ((key, value) :: rest, values, bs)
    end.

Definition is_array (marker : Marker) : bool :=
  match marker with FixArray _ | Array16 | Array32 => true | _ => false end.
Definition is_map (marker : Marker) : bool :=
  match marker with FixMap _ | Map16 | Map32 => true | _ => false end.
Definition is_float (marker : Marker) : bool :=
  match marker with F32 | F64 => true | _ => false end.

(** The arms of [decode_value] after the marker; [decode] is the recursive call one level down. *)
Definition decode_marked (limits : MessagePackDecodeLimits) (decode : Z → list Z → decoded)
    (marker : Marker) (values : Z) (bs : list Z) : decoded :=
  match marker with
  | Null => give (Nil, values, bs)
  | MFalse => give (Boolean false, values, bs)
  | MTrue => give (Boolean true, values, bs)
  | _ =>
    if is_integer marker then
      '(o, bs) ← reading (read_integer marker bs);
      i ← supported o;
      give (match i with Negative v => Signed v | Nonnegative v => Unsigned v end, values, bs)
    else if is_float marker then
      '(o, bs) ← reading (read_float marker bs);
      bits ← supported o;
      give (Float bits, values, bs)
    else if is_string marker then
      '(o, bs) ← reading (read_string marker bs);
      value ← supported o;
      if (maximum_blob_length limits <? Z.of_nat (length value))%Z then fail LimitExceeded
      else give (String value, values, bs)
    else if is_binary marker then
      '(o, bs) ← reading (read_binary marker bs);
      value ← supported o;
      if (maximum_blob_length limits <? Z.of_nat (length value))%Z then fail LimitExceeded
      else give (Binary value, values, bs)
    else if is_array marker then
      '(o, bs) ← reading (array_length marker bs);
      n ← supported o;
      if (maximum_container_length limits <? n)%Z then fail LimitExceeded else
      '(vs, values, bs) ← decode_array decode (Z.to_nat n) values bs;
      give (Array vs, values, bs)
    else if is_map marker then
      '(o, bs) ← reading (map_length marker bs);
      n ← supported o;
      if (maximum_container_length limits <? n)%Z then fail LimitExceeded else
      '(entries, values, bs) ← decode_map decode (Z.to_nat n) values bs;
      give (Map entries, values, bs)
    else fail UnsupportedMarker
  end.

Fixpoint decode_value (fuel : nat) (limits : MessagePackDecodeLimits) (depth values : Z) (bs : list Z) :
    decoded :=
  match fuel with
  | O => OutOfFuel
  | S fuel =>
      if (maximum_depth limits <? depth)%Z || (maximum_values limits <=? values)%Z
      then fail LimitExceeded else
      '(marker, bs) ← reading (read_marker bs);
      decode_marked limits (decode_value fuel limits (depth + 1)%Z) marker (values + 1)%Z bs
  end.

(** Calls nest at most [maximum_depth + 2] deep: the last refuses. *)
Definition decode_owned (bs : list Z) (limits : MessagePackDecodeLimits) : dec MessagePackValue :=
  '(value, _, bs) ← decode_value (Z.to_nat (maximum_depth limits) + 2) limits 0 0 bs;
  if decide (bs = []) then give value else fail TrailingData.

(** ** Encoding ([encoder.rs]) *)

(** The functions of [rmp::encode] that the encoder calls, on a [ByteBuf]. *)
Class Rmp := {
  write_nil : list Z → list Z;
  write_bool : list Z → bool → list Z;
  write_sint : list Z → Z → list Z;
  write_uint : list Z → Z → list Z;
  write_f64 : list Z → Z → list Z;
  write_str : list Z → list Z → list Z;
  write_bin : list Z → list Z → list Z;
  write_array_len : list Z → Z → list Z;
  write_map_len : list Z → Z → list Z;
}.

Section encoder.
Context `{Rmp}.
Implicit Types (encoder : list Z).

(** [u32::try_from(len).map_err(|_| MessagePackEncodeError)?] *)
Definition u32_len (n : nat) : result MessagePackOwnedError Z :=
  if (u32_max <? Z.of_nat n)%Z then Err (Encode EncodeError) else Ok (Z.of_nat n).

Definition encode_string encoder (value : list Z) : result MessagePackOwnedError (list Z) :=
  _ ← u32_len (length value); Ok (write_str encoder value).
Definition encode_binary encoder (value : list Z) : result MessagePackOwnedError (list Z) :=
  _ ← u32_len (length value); Ok (write_bin encoder value).
Definition encode_array encoder (length : nat) : result MessagePackOwnedError (list Z) :=
  n ← u32_len length; Ok (write_array_len encoder n).
Definition encode_map encoder (length : nat) : result MessagePackOwnedError (list Z) :=
  n ← u32_len length; Ok (write_map_len encoder n).

(** [for value in values { encode_value(encoder, value)? }] *)
Definition encode_each {A} (encode : A → list Z → result MessagePackOwnedError (list Z)) :=
  fix loop (values : list A) encoder : result MessagePackOwnedError (list Z) :=
    match values with
    | [] => Ok encoder
    | value :: values => encoder ← encode value encoder; loop values encoder
    end.

Fixpoint encode_value (value : MessagePackValue) encoder : result MessagePackOwnedError (list Z) :=
  match value with
  | Nil => Ok (write_nil encoder)
  | Boolean value => Ok (write_bool encoder value)
  | Signed value => Ok (write_sint encoder value)
  | Unsigned value => Ok (write_uint encoder value)
  | Float value => Ok (write_f64 encoder value)
  | String value => encode_string encoder value
  | Binary value => encode_binary encoder value
  | Array values =>
      encoder ← encode_array encoder (length values);
      encode_each encode_value values encoder
  | Map entries =>
      encoder ← encode_map encoder (length entries);
      encode_each (λ '(key, value) encoder,
        encoder ← encode_value key encoder; encode_value value encoder) entries encoder
  end.

Definition encode_owned (value : MessagePackValue) : result MessagePackOwnedError (list Z) :=
  encode_value value [].
End encoder.

(** * Measures *)

(** How deep containers nest, and how many values there are. *)
Fixpoint depth_of (v : MessagePackValue) : Z :=
  match v with
  | Array vs => foldr (λ v, Z.max (1 + depth_of v)) 0%Z vs
  | Map es => foldr (λ '(k, v), Z.max (1 + Z.max (depth_of k) (depth_of v))) 0%Z es
  | _ => 0%Z
  end.
Fixpoint count_of (v : MessagePackValue) : Z :=
  match v with
  | Array vs => (1 + foldr (λ v, Z.add (count_of v)) 0 vs)%Z
  | Map es => (1 + foldr (λ '(k, v), Z.add (count_of k + count_of v)) 0 es)%Z
  | _ => 1%Z
  end.

(** Blobs and containers are within the limits. *)
Fixpoint within (limits : MessagePackDecodeLimits) (v : MessagePackValue) : bool :=
  match v with
  | String s | Binary s => (Z.of_nat (length s) <=? maximum_blob_length limits)%Z
  | Array vs =>
      (Z.of_nat (length vs) <=? maximum_container_length limits)%Z && forallb (within limits) vs
  | Map es =>
      (Z.of_nat (length es) <=? maximum_container_length limits)%Z
      && forallb (λ '(k, v), within limits k && within limits v) es
  | _ => true
  end.

Record fits (limits : MessagePackDecodeLimits) (v : MessagePackValue) : Prop := {
  fits_depth : (depth_of v ≤ maximum_depth limits)%Z;
  fits_count : (count_of v ≤ maximum_values limits)%Z;
  fits_lengths : within limits v = true;
}.

(** The limits are [usize]s. *)
Definition limits_ok (l : MessagePackDecodeLimits) : Prop :=
  (0 ≤ maximum_depth l ∧ 0 ≤ maximum_values l ∧ 0 ≤ maximum_container_length l
   ∧ 0 ≤ maximum_blob_length l)%Z.

(** * Decoding returns, and within its limits *)

(** [dec_post Q m]: the call ends, and what it returns satisfies [Q]. *)
Definition dec_post {A} (Q : A → Prop) (m : dec A) : Prop :=
  match m with Done (Ok a) => Q a | Done (Err _) => True | _ => False end.

Lemma dec_post_bind {A B} (P : A → Prop) (Q : B → Prop) (m : dec A) (f : A → dec B) :
  dec_post P m → (∀ a, P a → dec_post Q (f a)) → dec_post Q (m ≫= f).
Proof. destruct m as [[a|e]| |]; cbn; [|done..]. intros Hm Hf. by apply Hf. Qed.

Lemma reading_post {A} (r : read A) : dec_post (λ _, True) (reading r).
Proof. by destruct r. Qed.
Lemma supported_post {A} (o : option A) : dec_post (λ _, True) (supported o).
Proof. by destruct o. Qed.

(** What a decoded value satisfies, at [depth], with [values] values decoded before it. *)
Definition decoded_ok (limits : MessagePackDecodeLimits) (depth values : Z) '((v, values', _) : MessagePackValue * Z * list Z) : Prop :=
  (depth + depth_of v ≤ maximum_depth limits ∧ values' = values + count_of v
   ∧ values' ≤ maximum_values limits)%Z ∧ within limits v = true.

Section limits.
Context (limits : MessagePackDecodeLimits) (Hlimits : limits_ok limits).

Lemma decode_array_post decode depth n values bs :
  (depth ≤ maximum_depth limits)%Z → (values ≤ maximum_values limits)%Z →
  (∀ values bs, dec_post (decoded_ok limits (depth + 1) values) (decode values bs)) →
  dec_post (λ '(vs, values', _), length vs = n
      ∧ (depth + depth_of (Array vs) ≤ maximum_depth limits
         ∧ values' = values + foldr (λ v, Z.add (count_of v)) 0 vs ∧ values' ≤ maximum_values limits)%Z
      ∧ forallb (within limits) vs = true)
    (decode_array decode n values bs).
Proof.
  intros Hd Hv Hdec. revert values bs Hv. induction n as [|n IH]; intros values bs Hv; cbn [decode_array].
  { cbn. conj; try done; lia. }
  eapply dec_post_bind; [apply Hdec|]. intros [[v values1] bs1] [(Hd1 & Hc1 & Hv1) Hw1].
  eapply dec_post_bind; [by apply IH|]. intros [[vs values2] bs2] (Hl & (Hd2 & Hc2 & Hv2) & Hw2).
  cbn in Hd2 |- *. rewrite Hl, Hw1, Hw2. conj; try done; lia.
Qed.

Lemma decode_map_post decode depth n values bs :
  (depth ≤ maximum_depth limits)%Z → (values ≤ maximum_values limits)%Z →
  (∀ values bs, dec_post (decoded_ok limits (depth + 1) values) (decode values bs)) →
  dec_post (λ '(es, values', _), length es = n
      ∧ (depth + depth_of (Map es) ≤ maximum_depth limits
         ∧ values' = values + foldr (λ '(k, v), Z.add (count_of k + count_of v)) 0 es
         ∧ values' ≤ maximum_values limits)%Z
      ∧ forallb (λ '(k, v), within limits k && within limits v) es = true)
    (decode_map decode n values bs).
Proof.
  intros Hd Hv Hdec. revert values bs Hv. induction n as [|n IH]; intros values bs Hv; cbn [decode_map].
  { cbn. conj; try done; lia. }
  eapply dec_post_bind; [apply Hdec|]. intros [[k values1] bs1] [(Hd1 & Hc1 & Hv1) Hw1].
  eapply dec_post_bind; [apply Hdec|]. intros [[v values2] bs2] [(Hd2 & Hc2 & Hv2) Hw2].
  eapply dec_post_bind; [by apply IH|]. intros [[es values3] bs3] (Hl & (Hd3 & Hc3 & Hv3) & Hw3).
  cbn in Hd3 |- *. rewrite Hl, Hw1, Hw2, Hw3. conj; try done; lia.
Qed.

(** A value with nothing inside it. *)
Lemma leaf_post depth values v bs :
  (depth ≤ maximum_depth limits)%Z → (values + 1 ≤ maximum_values limits)%Z →
  depth_of v = 0%Z → count_of v = 1%Z → within limits v = true →
  dec_post (decoded_ok limits depth values) (give (v, (values + 1)%Z, bs)).
Proof. intros. cbn. conj; try done; lia. Qed.

Ltac read_step :=
  eapply dec_post_bind; [apply reading_post|]; intros [? ?] _;
  eapply dec_post_bind; [apply supported_post|]; intros ? _.

Lemma decode_marked_post decode depth values marker bs :
  (depth ≤ maximum_depth limits)%Z → (values + 1 ≤ maximum_values limits)%Z →
  (∀ values bs, dec_post (decoded_ok limits (depth + 1) values) (decode values bs)) →
  dec_post (decoded_ok limits depth values) (decode_marked limits decode marker (values + 1) bs).
Proof.
  intros Hd Hv Hdec. destruct Hlimits as (_ & _ & Hc & _).
  destruct marker; cbn [decode_marked is_integer is_float is_string is_binary is_array is_map];
    try exact I; try (by apply leaf_post); read_step;
    try (by apply leaf_post; try case_match);
    match goal with |- context [if ?b then _ else _] => destruct b eqn:Hlen end; try exact I;
    apply Z.ltb_ge in Hlen;
    try (apply leaf_post; [done..|]; by apply Z.leb_le).
  all: eapply dec_post_bind; [by apply (decode_array_post _ depth)|| by apply (decode_map_post _ depth)|].
  all: intros [[xs values'] bs'] (Hl & (Hd2 & Hc2 & Hv2) & Hw); cbn [dec_post give].
  all: split; [split; [exact Hd2|]; cbn [count_of]; lia|]; cbn [within]; rewrite Hw, Hl, andb_true_r; apply Z.leb_le; lia.
Qed.

Lemma decode_value_post fuel depth values bs :
  (1 ≤ fuel)%nat → (maximum_depth limits + 2 ≤ depth + Z.of_nat fuel)%Z →
  dec_post (decoded_ok limits depth values) (decode_value fuel limits depth values bs).
Proof.
  revert depth values bs. induction fuel as [|fuel IH]; intros depth values bs Hf Hd; [lia|].
  cbn [decode_value]. destruct (_ || _)%bool eqn:Hb; [exact I|].
  apply orb_false_iff in Hb as [Hb1%Z.ltb_ge Hb2%Z.leb_gt].
  eapply dec_post_bind; [apply reading_post|]. intros [marker bs'] _.
  apply decode_marked_post; [done|lia|]. intros values' bs2. apply IH; lia.
Qed.
End limits.

(** Untrusted bytes decode within the limits: for any bytes, [decode_owned] returns, and a value it
    accepts nests no deeper than [maximum_depth], counts at most [maximum_values] values and has no
    container or blob longer than the limits. *)
Theorem decode_respects_limits (bs : list Z) (limits : MessagePackDecodeLimits) (Hl : limits_ok limits) :
  ∃ r, decode_owned bs limits = Done r ∧ match r with Ok v => fits limits v | Err _ => True end.
Proof.
  assert (Hp : dec_post (fits limits) (decode_owned bs limits)).
  { unfold decode_owned. eapply dec_post_bind.
    - apply (decode_value_post limits Hl); [lia|]. destruct Hl. lia.
    - intros [[v values] rest] [(Hd & Hc & Hv) Hw]. case_decide; [|exact I]. split; [lia..|done]. }
  destruct (decode_owned bs limits) as [r| |]; [|done..]. exists r. split; [done|]. by destruct r.
Qed.

(** * Skipping agrees with decoding *)

Lemma dec_bind_give {A B} (m : dec A) (f : A → dec B) b :
  m ≫= f = give b → ∃ a, m = give a ∧ f a = give b.
Proof. destruct m as [[a|e]| |]; cbn; [|done..]. by exists a. Qed.

Lemma reading_give {A} (r : read A) x : reading r = give x → r = Ok x.
Proof. destruct r; [|done]. by intros [= ->]. Qed.
Lemma supported_give {A} (o : option A) x : supported o = give x → o = Some x.
Proof. destruct o; [|done]. by intros [= ->]. Qed.

(** [bytes_kept bs rest]: what is left are bytes when all were. *)
Definition bytes_kept (bs rest : list Z) : Prop := Forall is_u8 bs → Forall is_u8 rest.

Lemma read_bytes_kept n bs v rest :
  read_bytes n bs = Ok (v, rest) → bs = v ++ rest ∧ length v = n.
Proof.
  unfold read_bytes. destruct (split_at_checked n bs) as [[v' rest']|] eqn:E; cbn; [|done].
  intros [= -> ->]. by apply split_at_checked_Some in E.
Qed.

(** An unsigned integer of [n] bytes. *)
Lemma read_uint_kept n bs v rest :
  read_bytes n bs = Ok (v, rest) → Forall is_u8 bs →
  Forall is_u8 rest ∧ (0 ≤ from_be_bytes v < 256 ^ Z.of_nat n)%Z.
Proof.
  intros [-> <-]%read_bytes_kept [Hv Hr]%Forall_app. split; [done|]. unfold from_be_bytes.
  rewrite <- (length_reverse v). apply from_le_bytes_bound. by apply Forall_reverse.
Qed.

Lemma read_u8_bytes bs : read_u8 bs = '(b, after) ← read_bytes 1 bs; Ok (from_be_bytes b, after).
Proof.
  destruct bs as [|b bs]; [done|]. unfold read_bytes.
  rewrite (split_at_checked_app 1 [b] bs eq_refl : split_at_checked 1 (b :: bs) = _).
  cbn [ok_or mbind result_bind]. unfold from_be_bytes. change (reverse [b]) with [b]. cbn [from_le_bytes].
  by rewrite Z.mul_0_r, Z.add_0_r.
Qed.

(** [skips limits fuel depth]: a value the decoder accepts at [depth] is skipped by [skip_value], which
    stops at the same byte. *)
Definition skips (limits : MessagePackDecodeLimits) (decode : Z → list Z → decoded)
    (skip_one : list Z → run (result MessagePackDecodeError (list Z))) : Prop :=
  ∀ values bs v values' rest, Forall is_u8 bs → decode values bs = give (v, values', rest) →
    skip_one bs = Done (Ok rest) ∧ Forall is_u8 rest.

Section skip_agrees.
Context (limits : MessagePackDecodeLimits).

Lemma skip_array decode skip_one n values bs vs values' rest :
  skips limits decode skip_one → Forall is_u8 bs →
  decode_array decode n values bs = give (vs, values', rest) →
  skip_all skip_one n bs = Done (Ok rest) ∧ Forall is_u8 rest.
Proof.
  intros Hs. revert values bs vs values' rest. induction n as [|n IH]; intros values bs vs values' rest Hb.
  - by intros [= _ _ ->].
  - intros ([[v values1] bs1] & E1 & ([[vs1 values2] bs2] & E2 & E3)%dec_bind_give)%dec_bind_give.
    destruct (Hs _ _ _ _ _ Hb E1) as [E Hb1]. cbn. rewrite E. cbn. injection E3 as _ _ <-. by eapply IH.
Qed.

Lemma skip_map decode skip_one n values bs es values' rest :
  skips limits decode skip_one → Forall is_u8 bs →
  decode_map decode n values bs = give (es, values', rest) →
  skip_all skip_one (n * 2) bs = Done (Ok rest) ∧ Forall is_u8 rest.
Proof.
  intros Hs. revert values bs es values' rest. induction n as [|n IH]; intros values bs es values' rest Hb.
  - by intros [= _ _ ->].
  - intros ([[k values1] bs1] & E1 & ([[v values2] bs2] & E2
      & ([[es1 values3] bs3] & E3 & E4)%dec_bind_give)%dec_bind_give)%dec_bind_give.
    destruct (Hs _ _ _ _ _ Hb E1) as [E Hb1]. destruct (Hs _ _ _ _ _ Hb1 E2) as [E' Hb2].
    cbn. rewrite E. cbn. rewrite E'. cbn. injection E4 as _ _ <-. by eapply IH.
Qed.

(** Splits the reads and the tests of an accepted value, [H]. *)
Ltac read_cbn H :=
  cbn [decode_marked extent is_integer is_float is_string is_binary read_integer read_float read_string
    read_binary string_length binary_length some_of length32 read_u32 read_u64 read_u16
    mbind result_bind dec_bind reading supported give fail] in H |- *.
Ltac split_reads H :=
  read_cbn H; unfold length32, read_u32, read_u64, read_u16 in *; rewrite ?read_u8_bytes in *; read_cbn H;
  repeat (match type of H with
    | context [read_bytes ?n ?bs] => destruct (read_bytes n bs) as [[? ?]|] eqn:?; [|done]
    | context [(usize_max <? ?n)%Z] => destruct (usize_max <? n)%Z
    | context [from_utf8 ?s] => destruct (from_utf8 s)
    | context [(maximum_blob_length ?l <? ?n)%Z] => destruct (maximum_blob_length l <? n)%Z
    end; read_cbn H; try done).

Lemma skip_read n k bs v rest : read_bytes n bs = Ok (v, rest) → Z.to_nat k = n → skip k bs = Ok rest.
Proof. intros E Hk. unfold skip. rewrite Hk, E. done. Qed.

(** What an accepted leaf reads is its extent. *)
Lemma leaf_extent decode marker values bs v values' rest :
  is_array marker = false → is_map marker = false →
  decode_marked limits decode marker values bs = give (v, values', rest) →
  ∃ n bs1, extent marker bs = Ok (Bytes n, bs1) ∧ skip n bs1 = Ok rest.
Proof.
  intros Ha Hm Hd.
  destruct marker; try done; split_reads Hd;
    (injection Hd as <- <- <-; eexists _, _; split; [done|]); try done;
    match goal with E : read_bytes _ _ = Ok (_, ?rest) |- skip _ _ = Ok ?rest => by apply (skip_read _ _ _ _ _ E) end.
Qed.

(** The header of an accepted container. *)
Lemma array_extent marker bs n rest :
  is_array marker = true → array_length marker bs = Ok (Some n, rest) →
  extent marker bs = Ok (Values n, rest) ∧ bytes_kept bs rest.
Proof.
  intros Ha Hr. destruct marker; try done; cbn in Hr |- *.
  - injection Hr as <- <-. split; [done|by intros ?].
  - unfold some_of, read_u16 in *. destruct (read_bytes 2 bs) as [[b after]|] eqn:E; cbn in Hr |- *; [|done].
    injection Hr as <- <-. split; [done|]. intros Hb. by eapply read_uint_kept.
  - unfold some_of, length32, read_u32 in *.
    destruct (read_bytes 4 bs) as [[b after]|] eqn:E; cbn in Hr |- *; [|done].
    destruct (usize_max <? _)%Z; cbn in Hr |- *; [done|].
    injection Hr as <- <-. split; [done|]. intros Hb. by eapply read_uint_kept.
Qed.

Lemma map_extent marker bs n rest :
  is_map marker = true → Forall is_u8 bs → map_length marker bs = Ok (Some n, rest) →
  extent marker bs = Ok (Values (n * 2), rest) ∧ Forall is_u8 rest.
Proof.
  intros Ha Hb Hr. destruct marker; try done; cbn in Hr |- *.
  - by injection Hr as <- <-.
  - unfold some_of, read_u16 in *. destruct (read_bytes 2 bs) as [[b after]|] eqn:E; cbn in Hr |- *; [|done].
    injection Hr as <- <-. destruct (read_uint_kept _ _ _ _ E Hb). change usize_max with (2 ^ 64 - 1)%Z.
    by rewrite (proj2 (Z.ltb_ge _ _)) by lia.
  - unfold some_of, length32, read_u32 in *.
    destruct (read_bytes 4 bs) as [[b after]|] eqn:E; cbn in Hr |- *; [|done].
    destruct (read_uint_kept _ _ _ _ E Hb).
    destruct (usize_max <? _)%Z; cbn in Hr |- *; [done|]. injection Hr as <- <-.
    change usize_max with (2 ^ 64 - 1)%Z. by rewrite (proj2 (Z.ltb_ge _ _)) by lia.
Qed.

Lemma skip_bytes_kept n bs rest : skip n bs = Ok rest → bytes_kept bs rest.
Proof.
  unfold skip. destruct (read_bytes _ bs) as [[v after]|] eqn:E; cbn; [|done].
  intros [= <-]. apply read_bytes_kept in E as [-> _]. by intros [_ ?]%Forall_app.
Qed.

Lemma extent_bytes_kept marker bs n bs1 : extent marker bs = Ok (Bytes n, bs1) → bytes_kept bs bs1.
Proof.
  intros He. destruct marker; split_reads He; try done; injection He as <- <-; try done;
    intros Hb; first [exact Hb | by eapply read_uint_kept].
Qed.

Lemma array_arm_inv decode marker values bs v values' rest :
  is_array marker = true → decode_marked limits decode marker values bs = give (v, values', rest) →
  ∃ n bs1 vs, array_length marker bs = Ok (Some n, bs1)
    ∧ decode_array decode (Z.to_nat n) values bs1 = give (vs, values', rest).
Proof.
  intros Ha Hd. destruct marker; try done; cbn -[array_length decode_array] in Hd;
    apply dec_bind_give in Hd as ([o bs1] & Hr%reading_give & (n & ->%supported_give & Hd)%dec_bind_give);
    (destruct (_ <? n)%Z; [done|]);
    apply dec_bind_give in Hd as ([[vs values2] bs2] & Hl & [= _ <- <-]); by exists n, bs1, vs.
Qed.

Lemma map_arm_inv decode marker values bs v values' rest :
  is_map marker = true → decode_marked limits decode marker values bs = give (v, values', rest) →
  ∃ n bs1 es, map_length marker bs = Ok (Some n, bs1)
    ∧ decode_map decode (Z.to_nat n) values bs1 = give (es, values', rest).
Proof.
  intros Ha Hd. destruct marker; try done; cbn -[map_length decode_map] in Hd;
    apply dec_bind_give in Hd as ([o bs1] & Hr%reading_give & (n & ->%supported_give & Hd)%dec_bind_give);
    (destruct (_ <? n)%Z; [done|]);
    apply dec_bind_give in Hd as ([[vs values2] bs2] & Hl & [= _ <- <-]); by exists n, bs1, vs.
Qed.

Lemma decode_skips fuel depth :
  skips limits (decode_value fuel limits depth) (λ bs,
    match read_marker bs with
    | Err e => Done (Err e)
    | Ok (marker, bs) => skip_value fuel marker depth (maximum_depth limits) bs
    end).
Proof.
  revert depth. induction fuel as [|fuel IH]; intros depth values bs v values' rest Hb Hd; [done|].
  cbn [decode_value] in Hd. destruct (_ <? depth)%Z eqn:Hdepth; [done|]. cbn [orb] in Hd.
  destruct (_ <=? values)%Z; [done|].
  apply dec_bind_give in Hd as ([marker bs1] & Hm%reading_give & Hd). rewrite Hm.
  assert (Hb1 : Forall is_u8 bs1).
  { unfold read_marker in Hm. destruct bs as [|b bs]; [done|]. cbn in Hm. injection Hm as _ <-.
    by inversion Hb. }
  cbn [skip_value]. rewrite Hdepth. destruct (is_array marker) eqn:Ha; [|destruct (is_map marker) eqn:Hmap].
  - destruct (array_arm_inv _ _ _ _ _ _ _ Ha Hd) as (n & bs2 & vs & Hr & Hl).
    destruct (array_extent marker bs1 n bs2 Ha Hr) as [-> Hk]. eapply skip_array; [apply IH|by apply Hk|exact Hl].
  - destruct (map_arm_inv _ _ _ _ _ _ _ Hmap Hd) as (n & bs2 & es & Hr & Hl).
    destruct (map_extent marker bs1 n bs2 Hmap Hb1 Hr) as [-> Hk].
    replace (Z.to_nat (n * 2)) with (Z.to_nat n * 2)%nat by lia. eapply skip_map; [apply IH|done|exact Hl].
  - destruct (leaf_extent _ _ _ _ _ _ _ Ha Hmap Hd) as (n & bs2 & He & Hs). rewrite He, Hs. split; [done|].
    by eapply skip_bytes_kept, extent_bytes_kept.
Qed.
End skip_agrees.

(** Skipping and decoding agree: where the decoder accepts bytes as a value, [skip_value] on the same
    bytes, under the same depth limit, returns and stops where the value ends. *)
Theorem skip_agrees_with_decode (bs : list Z) (limits : MessagePackDecodeLimits) (v : MessagePackValue)
    (Hb : Forall is_u8 bs) (Hd : decode_owned bs limits = Done (Ok v)) :
  ∃ marker rest, read_marker bs = Ok (marker, rest)
    ∧ skip_value (Z.to_nat (maximum_depth limits) + 2) marker 0 (maximum_depth limits) rest = Done (Ok []).
Proof.
  unfold decode_owned in Hd. apply dec_bind_give in Hd as ([[v' values] after] & Hd & He).
  destruct (decide (after = [])) as [->|]; [|done].
  destruct (decode_skips limits _ _ _ _ _ _ _ Hb Hd) as [Hs _].
  destruct (read_marker bs) as [[marker rest]|]; [|done]. by exists marker, rest.
Qed.

(** ** Witnesses *)

Definition sample_bytes : list Z := [0x92; 0xa1; 0x61; 0xcd; 1; 0]%Z.

Lemma decode_respects_limits_witness :
  ∃ r, decode_owned sample_bytes default_limits = Done r
    ∧ match r with Ok v => fits default_limits v | Err _ => True end.
Proof. refine (decode_respects_limits sample_bytes default_limits _). repeat split; by vm_compute. Defined.

Lemma skip_agrees_with_decode_witness :
  ∃ marker rest, read_marker sample_bytes = Ok (marker, rest)
    ∧ skip_value 18 marker 0 16 rest = Done (Ok []).
Proof.
  refine (skip_agrees_with_decode sample_bytes default_limits (Array [String [0x61]%Z; Unsigned 256]) _ _).
  - repeat constructor; by vm_compute.
  - by vm_compute.
Defined.
