(* ===== verification/MessagePackRoundtrip.v ===== *)
(** The MessagePack round trip: what [encode_owned] writes, [decode_owned] reads back.

    The bytes [rmp] writes are known only up to the choice among the encodings the MessagePack
    format allows, its documented behaviour ([RmpLaws]); [shortest_rmp] is an instance. *)

From S2P Require Import Prelude MessagePack.

(** * The format *)

(** The encodings the MessagePack specification allows for an integer: positive and negative
    fixint, and the unsigned and two's complement integers of one, two, four and eight bytes. *)
Definition int_format (v : Z) (bs : list Z) : Prop :=
  ((0 ≤ v < 128)%Z ∧ bs = [v])
  ∨ ((-32 ≤ v < 0)%Z ∧ bs = [(v + 256)%Z])
  ∨ (∃ k n, (k, n) ∈ [(0xcc, 1); (0xcd, 2); (0xce, 4); (0xcf, 8)]%Z
       ∧ (0 ≤ v < 256 ^ n)%Z ∧ bs = k :: to_be_bytes (Z.to_nat n) v)
  ∨ (∃ k n, (k, n) ∈ [(0xd0, 1); (0xd1, 2); (0xd2, 4); (0xd3, 8)]%Z
       ∧ (- 256 ^ n ≤ 2 * v < 256 ^ n)%Z ∧ bs = k :: to_be_bytes (Z.to_nat n) (v mod 256 ^ n)).

(** The header of a string, a blob or a container of [len] units: the short form [fix] when the
    family has one and [len] fits, or a marker and [len] in one, two or four bytes. *)
Definition header_format (fix_base fix_max : Z) (forms : list (Z * Z)) (len : Z) (bs : list Z) : Prop :=
  ((0 ≤ len < fix_max)%Z ∧ bs = [(fix_base + len)%Z])
  ∨ (∃ k n, (k, n) ∈ forms ∧ (0 ≤ len < 256 ^ n)%Z ∧ bs = k :: to_be_bytes (Z.to_nat n) len).

Definition str_header := header_format 0xa0 32 [(0xd9, 1); (0xda, 2); (0xdb, 4)]%Z.
Definition bin_header := header_format 0 0 [(0xc4, 1); (0xc5, 2); (0xc6, 4)]%Z.
Definition array_header := header_format 0x90 16 [(0xdc, 2); (0xdd, 4)]%Z.
Definition map_header := header_format 0x80 16 [(0xde, 2); (0xdf, 4)]%Z.

(** What [rmp] documents: every write appends an encoding of its value. *)
Class RmpLaws `{Rmp} : Prop := {
  write_nil_ok : ∀ buf, write_nil buf = buf ++ [0xc0%Z];
  write_bool_ok : ∀ buf b, write_bool buf b = buf ++ [if b then 0xc3%Z else 0xc2%Z];
  write_sint_ok : ∀ buf v, (- 2 ^ 63 ≤ v < 2 ^ 63)%Z →
    ∃ bs, write_sint buf v = buf ++ bs ∧ int_format v bs;
  write_uint_ok : ∀ buf v, is_u64 v → ∃ bs, write_uint buf v = buf ++ bs ∧ int_format v bs;
  write_f64_ok : ∀ buf bits, is_u64 bits → write_f64 buf bits = buf ++ 0xcb%Z :: to_be_bytes 8 bits;
  write_str_ok : ∀ buf s, is_u32 (Z.of_nat (length s)) →
    ∃ h, write_str buf s = buf ++ h ++ s ∧ str_header (Z.of_nat (length s)) h;
  write_bin_ok : ∀ buf s, is_u32 (Z.of_nat (length s)) →
    ∃ h, write_bin buf s = buf ++ h ++ s ∧ bin_header (Z.of_nat (length s)) h;
  write_array_len_ok : ∀ buf n, is_u32 n → ∃ h, write_array_len buf n = buf ++ h ∧ array_header n h;
  write_map_len_ok : ∀ buf n, is_u32 n → ∃ h, write_map_len buf n = buf ++ h ∧ map_header n h;
}.

(** A value as it comes back: a non-negative [Signed] is read as [Unsigned]. *)
Fixpoint canonical (v : MessagePackValue) : MessagePackValue :=
  match v with
  | Signed n => if (n <? 0)%Z then Signed n else Unsigned n
  | Array vs => Array (canonical <$> vs)
  | Map es => Map ((λ '(k, v), (canonical k, canonical v)) <$> es)
  | v => v
  end.

(** The Rust types' ranges, and lengths below [2^32]. *)
Fixpoint value_ok (v : MessagePackValue) : bool :=
  match v with
  | Nil | Boolean _ => true
  | Signed n => (- 2 ^ 63 <=? n)%Z && (n <? 2 ^ 63)%Z
  | Unsigned n | Float n => bool_decide (is_u64 n)
  | String s => bool_decide (is_u32 (Z.of_nat (length s))) && from_utf8 s
  | Binary s => bool_decide (is_u32 (Z.of_nat (length s)))
  | Array vs => bool_decide (is_u32 (Z.of_nat (length vs))) && forallb value_ok vs
  | Map es =>
      bool_decide (is_u32 (Z.of_nat (length es))) && forallb (λ '(k, v), value_ok k && value_ok v) es
  end.

(** * What is encoded decodes to the same value *)

(** ** Markers and integers *)

Lemma from_u8_fix_pos b : (0 ≤ b < 128)%Z → from_u8 b = FixPos b.
Proof. intros. unfold from_u8. by rewrite (proj2 (Z.leb_le b 0x7f)) by lia. Qed.

(** The other short forms, by enumeration of the bytes. *)
Definition short_form (b : Z) : Marker :=
  if (b <? 144)%Z then FixMap (b - 128) else if (b <? 160)%Z then FixArray (b - 144)
  else if (b <? 192)%Z then FixStr (b - 160) else FixNeg (b - 256).
Lemma from_u8_short b : is_u8 b → (128 ≤ b < 192 ∨ 224 ≤ b)%Z → from_u8 b = short_form b.
Proof.
  intros Hb Hr.
  pose proof (u8_forall (λ b, implb (between 128 191 b || between 224 255 b) (bool_decide (from_u8 b = short_form b)))
    ltac:(by vm_compute) b Hb) as H. cbn in H. unfold between in H.
  assert (E : ((128 <=? b) && (b <=? 191) || (224 <=? b) && (b <=? 255))%Z = true).
  { unfold in_width in Hb. apply orb_true_iff. rewrite !andb_true_iff, !Z.leb_le. lia. }
  rewrite E in H. by apply bool_decide_eq_true in H.
Qed.

Lemma read_bytes_app n v rest : read_bytes n (to_be_bytes n v ++ rest) = Ok (to_be_bytes n v, rest).
Proof. unfold read_bytes. by rewrite split_at_checked_app by apply length_to_be_bytes. Qed.

Lemma read_u8_app v rest : (0 ≤ v < 256)%Z → read_u8 (to_be_bytes 1 v ++ rest) = Ok (v, rest).
Proof. intros Hv. cbn. by rewrite Z.mod_small. Qed.
Lemma read_u16_app v rest : (0 ≤ v < 65536)%Z → read_u16 (to_be_bytes 2 v ++ rest) = Ok (v, rest).
Proof. intros Hv. unfold read_u16. rewrite read_bytes_app. cbn [mbind result_bind]. by rewrite from_to_be_bytes. Qed.
Lemma read_u32_app v rest : (0 ≤ v < 2 ^ 32)%Z → read_u32 (to_be_bytes 4 v ++ rest) = Ok (v, rest).
Proof. intros Hv. unfold read_u32. rewrite read_bytes_app. cbn [mbind result_bind]. by rewrite from_to_be_bytes. Qed.
Lemma read_u64_app v rest : is_u64 v → read_u64 (to_be_bytes 8 v ++ rest) = Ok (v, rest).
Proof. intros Hv. unfold read_u64. rewrite read_bytes_app. cbn [mbind result_bind]. by rewrite from_to_be_bytes. Qed.
Lemma length32_app v rest : (0 ≤ v < 2 ^ 32)%Z → length32 (to_be_bytes 4 v ++ rest) = Ok (v, rest).
Proof.
  intros Hv. unfold length32. rewrite read_u32_app by done. cbn [mbind result_bind].
  by rewrite (proj2 (Z.ltb_ge usize_max v)) by (change usize_max with (2 ^ 64 - 1)%Z; lia).
Qed.

Lemma as_signed_mod w v :
  (0 < w)%Z → (- 2 ^ w ≤ 2 * v < 2 ^ w)%Z → as_signed w (v mod 2 ^ w) = v.
Proof.
  intros Hw Hv. unfold as_signed.
  assert (E : (2 ^ w = 2 * 2 ^ (w - 1))%Z) by (rewrite <- Z.pow_succ_r by lia; f_equal; lia).
  destruct (decide (0 ≤ v)%Z).
  - rewrite Z.mod_small by lia. by rewrite (proj2 (Z.ltb_lt v _)) by lia.
  - rewrite <- (Z.mod_add v 1) by lia. rewrite Z.mul_1_l, Z.mod_small by lia.
    rewrite (proj2 (Z.ltb_ge _ _)) by lia. lia.
Qed.

(** Every encoding of an integer reads as that integer. *)
Lemma int_format_read v bs rest :
  int_format v bs →
  ∃ k tail, bs = k :: tail ∧ is_integer (from_u8 k) = true
    ∧ read_integer (from_u8 k) (tail ++ rest) = Ok (Some (signed v), rest).
Proof.
  assert (Hpos : (0 ≤ v)%Z → signed v = Nonnegative v).
  { intros Hv. unfold signed. by rewrite (proj2 (Z.ltb_ge v 0)). }
  intros [[Hv ->]|[[Hv ->]|[(k & n & Hin & Hv & ->)|(k & n & Hin & Hv & ->)]]]; eexists _, _; (split; [done|]).
  - rewrite from_u8_fix_pos by done. by rewrite Hpos by lia.
  - rewrite from_u8_short by (unfold in_width; lia). unfold short_form, signed.
    rewrite !(proj2 (Z.ltb_ge (v + 256) _)), (proj2 (Z.ltb_lt v 0)) by lia.
    split; [done|]. cbn. do 4 f_equal. lia.
  - rewrite Hpos by lia. repeat (apply elem_of_cons in Hin as [[= -> ->]|Hin]); [..|by apply not_elem_of_nil in Hin];
      (split; [done|]); cbn [read_integer from_u8 Z.leb Z.compare Pos.compare Pos.compare_cont].
    + by rewrite read_u8_app.
    + by rewrite read_u16_app.
    + by rewrite read_u32_app.
    + by rewrite read_u64_app.
  - repeat (apply elem_of_cons in Hin as [[= -> ->]|Hin]); [..|by apply not_elem_of_nil in Hin];
      (split; [done|]); cbn [read_integer from_u8 Z.leb Z.compare Pos.compare Pos.compare_cont].
    + rewrite read_u8_app by (apply Z.mod_pos_bound; lia). cbn [mbind result_bind].
      by rewrite (as_signed_mod 8) by lia.
    + rewrite read_u16_app by (apply Z.mod_pos_bound; lia). cbn [mbind result_bind].
      by rewrite (as_signed_mod 16) by lia.
    + rewrite read_u32_app by (apply Z.mod_pos_bound; lia). cbn [mbind result_bind].
      by rewrite (as_signed_mod 32) by lia.
    + rewrite read_u64_app by (apply Z.mod_pos_bound; lia). cbn [mbind result_bind].
      by rewrite (as_signed_mod 64) by lia.
Qed.

(** ** Headers *)

(** [reads_header test read_length len h]: the header [h] has a marker of the family [test], and
    [read_length] finds [len] after it. *)
Definition reads_header (test : Marker → bool) (read_length : Marker → list Z → read (option Z))
    (len : Z) (h : list Z) : Prop :=
  ∃ k tail, h = k :: tail ∧ test (from_u8 k) = true
    ∧ ∀ rest, read_length (from_u8 k) (tail ++ rest) = Ok (Some len, rest).

Ltac read_header :=
  intros [[Hlen ->]|(k & n & Hin & Hlen & ->)]; eexists _, _; (split; [done|]);
  [first [lia
    |rewrite from_u8_short by (unfold in_width; lia); unfold short_form;
     rewrite ?(proj2 (Z.ltb_ge _ _)), ?(proj2 (Z.ltb_lt _ _)) by lia;
     split; [done|]; intros rest; cbn; do 3 f_equal; lia]
  |repeat (apply elem_of_cons in Hin as [[= -> ->]|Hin]); [..|by apply not_elem_of_nil in Hin];
   (split; [done|]); intros rest; cbn -[to_be_bytes read_u8 read_u16 length32];
   rewrite ?read_u8_app, ?read_u16_app, ?length32_app by done; done].

Lemma str_header_reads len h : str_header len h → reads_header is_string string_length len h.
Proof. read_header. Qed.
Lemma bin_header_reads len h : bin_header len h → reads_header is_binary binary_length len h.
Proof. read_header. Qed.
Lemma array_header_reads len h : array_header len h → reads_header is_array array_length len h.
Proof. read_header. Qed.
Lemma map_header_reads len h : map_header len h → reads_header is_map map_length len h.
Proof. read_header. Qed.

(** ** The arms of the decoder *)

Section arms.
Context (limits : MessagePackDecodeLimits) (decode : Z → list Z → decoded).
Implicit Types (values : Z) (tail rest : list Z).

Lemma decode_integer_arm marker v values tail rest :
  is_integer marker = true → read_integer marker tail = Ok (Some (signed v), rest) →
  decode_marked limits decode marker values tail
  = give (if (v <? 0)%Z then Signed v else Unsigned v, values, rest).
Proof.
  intros Hm Hr. transitivity ('(o, bs) ← reading (read_integer marker tail);
      i ← supported o;
      give (match i with Negative v => Signed v | Nonnegative v => Unsigned v end, values, bs)).
  - by destruct marker.
  - rewrite Hr. cbn. unfold signed. by destruct (v <? 0)%Z.
Qed.

(** A string or blob of [n] bytes. *)
Lemma take_bytes s rest : read_bytes (Z.to_nat (Z.of_nat (length s))) (s ++ rest) = Ok (s, rest).
Proof. unfold read_bytes. by rewrite Nat2Z.id, split_at_checked_app. Qed.

Lemma decode_string_arm k tail s values rest :
  is_string (from_u8 k) = true →
  string_length (from_u8 k) (tail ++ s ++ rest) = Ok (Some (Z.of_nat (length s)), s ++ rest) →
  from_utf8 s = true → (Z.of_nat (length s) ≤ maximum_blob_length limits)%Z →
  decode_marked limits decode (from_u8 k) values (tail ++ s ++ rest) = give (String s, values, rest).
Proof.
  intros Hm Hr Hu Hl. transitivity ('(o, bs) ← reading (read_string (from_u8 k) (tail ++ s ++ rest));
      value ← supported o;
      if (maximum_blob_length limits <? Z.of_nat (length value))%Z then fail LimitExceeded
      else give (String value, values, bs)).
  - by destruct (from_u8 k).
  - unfold read_string. rewrite Hr. cbn [mbind result_bind]. rewrite take_bytes. cbn. rewrite Hu. cbn.
    by rewrite (proj2 (Z.ltb_ge _ _)).
Qed.

Lemma decode_binary_arm k tail s values rest :
  is_binary (from_u8 k) = true →
  binary_length (from_u8 k) (tail ++ s ++ rest) = Ok (Some (Z.of_nat (length s)), s ++ rest) →
  (Z.of_nat (length s) ≤ maximum_blob_length limits)%Z →
  decode_marked limits decode (from_u8 k) values (tail ++ s ++ rest) = give (Binary s, values, rest).
Proof.
  intros Hm Hr Hl. transitivity ('(o, bs) ← reading (read_binary (from_u8 k) (tail ++ s ++ rest));
      value ← supported o;
      if (maximum_blob_length limits <? Z.of_nat (length value))%Z then fail LimitExceeded
      else give (Binary value, values, bs)).
  - by destruct (from_u8 k).
  - unfold read_binary. rewrite Hr. cbn [mbind result_bind]. rewrite take_bytes. cbn.
    by rewrite (proj2 (Z.ltb_ge _ _)).
Qed.

Lemma decode_array_arm marker n values tail rest :
  is_array marker = true → array_length marker tail = Ok (Some (Z.of_nat n), rest) →
  (Z.of_nat n ≤ maximum_container_length limits)%Z →
  decode_marked limits decode marker values tail
  = '(vs, values, bs) ← decode_array decode n values rest; give (Array vs, values, bs).
Proof.
  intros Hm Hr Hl. destruct marker; try done; cbn -[array_length decode_array]; rewrite Hr; cbn -[decode_array];
    by rewrite (proj2 (Z.ltb_ge _ _)), Nat2Z.id.
Qed.

Lemma decode_map_arm marker n values tail rest :
  is_map marker = true → map_length marker tail = Ok (Some (Z.of_nat n), rest) →
  (Z.of_nat n ≤ maximum_container_length limits)%Z →
  decode_marked limits decode marker values tail
  = '(es, values, bs) ← decode_map decode n values rest; give (Map es, values, bs).
Proof.
  intros Hm Hr Hl. destruct marker; try done; cbn -[map_length decode_map]; rewrite Hr; cbn -[decode_map];
    by rewrite (proj2 (Z.ltb_ge _ _)), Nat2Z.id.
Qed.
End arms.

(** ** Whole values *)

Abbreviation total vs := (foldr (λ v, Z.add (count_of v)) 0%Z vs).
Abbreviation total_entries es := (foldr (λ '(k, v), Z.add (count_of k + count_of v)) 0%Z es).

Lemma measures_pos v : (0 ≤ depth_of v ∧ 1 ≤ count_of v)%Z.
Proof.
  induction v as [| | | | | | |vs IH|es IH] using MessagePackValue_ind; cbn; try lia.
  - induction IH; cbn; lia.
  - induction IH as [|[k v] es [Hk Hv] _ IH]; cbn in *; lia.
Qed.

Lemma total_pos vs : (0 ≤ total vs)%Z.
Proof. induction vs as [|v vs IH]; cbn; [lia|]. destruct (measures_pos v). lia. Qed.
Lemma total_entries_pos es : (0 ≤ total_entries es)%Z.
Proof. induction es as [|[k v] es IH]; cbn; [lia|]. destruct (measures_pos k), (measures_pos v). lia. Qed.

Section roundtrip.
Context `{RmpLaws} (limits : MessagePackDecodeLimits).

(** The decoder reads [v] from [bs], whatever follows. *)
Definition decodes (v : MessagePackValue) (bs : list Z) : Prop :=
  ∀ fuel depth values rest,
    (depth_of v < Z.of_nat fuel)%Z → (depth + depth_of v ≤ maximum_depth limits)%Z →
    (values + count_of v ≤ maximum_values limits)%Z → within limits v = true →
    decode_value fuel limits depth values (bs ++ rest) = give (canonical v, (values + count_of v)%Z, rest).

(** [v] is encoded by appending bytes that decode to it. *)
Definition encodes (v : MessagePackValue) : Prop :=
  value_ok v = true → ∀ buf, ∃ bs, encode_value v buf = Ok (buf ++ bs) ∧ decodes v bs.

(** The decoder after the limits and the marker. *)
Lemma decodes_marked v k tail :
  (∀ fuel depth values rest,
     (depth_of v < Z.of_nat (S fuel))%Z → (depth + depth_of v ≤ maximum_depth limits)%Z →
     (values + count_of v ≤ maximum_values limits)%Z → within limits v = true →
     decode_marked limits (decode_value fuel limits (depth + 1)) (from_u8 k) (values + 1) (tail ++ rest)
     = give (canonical v, (values + count_of v)%Z, rest)) →
  decodes v (k :: tail).
Proof.
  intros Hm [|fuel] depth values rest Hf Hd Hv Hw; destruct (measures_pos v); [lia|].
  cbn [decode_value app]. rewrite (proj2 (Z.ltb_ge _ _)), (proj2 (Z.leb_gt _ _)) by lia. cbn [orb].
  unfold read_marker, read_u8. cbn [split_first ok_or mbind result_bind reading]. cbn -[decode_marked].
  by apply Hm.
Qed.

Lemma u32_len_ok n : is_u32 (Z.of_nat n) → u32_len n = Ok (Z.of_nat n).
Proof. intros Hn. unfold u32_len. by rewrite (proj2 (Z.ltb_ge _ _)) by width. Qed.

Lemma encodes_integer v n buf buf' bs :
  canonical v = (if (n <? 0)%Z then Signed n else Unsigned n) → count_of v = 1%Z →
  int_format n bs → encode_value v buf = Ok buf' → buf' = buf ++ bs →
  ∃ bs, encode_value v buf = Ok (buf ++ bs) ∧ decodes v bs.
Proof.
  intros Hc H1 Hf He ->. exists bs. split; [done|].
  destruct (int_format_read n bs [] Hf) as (k & tail & -> & _). apply decodes_marked.
  intros fuel depth values rest _ _ _ _.
  destruct (int_format_read n (k :: tail) rest Hf) as (k' & tail' & [= <- <-] & Hi & Hr).
  by rewrite (decode_integer_arm _ _ _ n _ _ rest Hi Hr), Hc, H1.
Qed.

Lemma encodes_leaf v :
  match v with Array _ | Map _ => True | _ => encodes v end.
Proof.
  destruct v as [|b|n|n|b|s|s|vs|es]; try done; intros Hok buf; cbn in Hok.
  - eexists. split; [cbn; by rewrite write_nil_ok|]. by apply decodes_marked.
  - eexists. split; [cbn; by rewrite write_bool_ok|]. apply decodes_marked. by destruct b.
  - apply andb_true_iff in Hok as [?%Z.leb_le ?%Z.ltb_lt].
    destruct (write_sint_ok buf n) as (bs & E & Hf); [lia|]. by eapply (encodes_integer _ n).
  - apply bool_decide_eq_true in Hok. destruct (write_uint_ok buf n Hok) as (bs & E & Hf).
    eapply (encodes_integer _ n); try done. cbn. by rewrite (proj2 (Z.ltb_ge n 0)) by width.
  - apply bool_decide_eq_true in Hok. eexists. split; [cbn; by rewrite write_f64_ok|].
    apply decodes_marked. intros fuel depth values rest _ _ _ _. cbn -[to_be_bytes read_u64].
    by rewrite read_u64_app.
  - apply andb_true_iff in Hok as [Hok%bool_decide_eq_true Hu]. destruct (write_str_ok buf s Hok) as (h & E & Hh).
    destruct (str_header_reads _ _ Hh) as (k & tail & -> & Hi & Hr). exists (k :: tail ++ s). split.
    + cbn. unfold encode_string. rewrite u32_len_ok by done. cbn. by rewrite E.
    + apply decodes_marked. intros fuel depth values rest _ _ _ Hw%Z.leb_le. rewrite <- app_assoc.
      by apply decode_string_arm.
  - apply bool_decide_eq_true in Hok. destruct (write_bin_ok buf s Hok) as (h & E & Hh).
    destruct (bin_header_reads _ _ Hh) as (k & tail & -> & Hi & Hr). exists (k :: tail ++ s). split.
    + cbn. unfold encode_binary. rewrite u32_len_ok by done. cbn. by rewrite E.
    + apply decodes_marked. intros fuel depth values rest _ _ _ Hw%Z.leb_le. rewrite <- app_assoc.
      by apply decode_binary_arm.
Qed.

(** The elements of an array. *)
Lemma encodes_each vs buf :
  Forall encodes vs → forallb value_ok vs = true →
  ∃ bs, encode_each encode_value vs buf = Ok (buf ++ bs)
    ∧ ∀ fuel depth values rest,
        (depth_of (Array vs) ≤ Z.of_nat fuel)%Z → (depth + depth_of (Array vs) ≤ maximum_depth limits)%Z →
        (values + total vs ≤ maximum_values limits)%Z → forallb (within limits) vs = true →
        decode_array (decode_value fuel limits (depth + 1)) (length vs) values (bs ++ rest)
        = give (canonical <$> vs, (values + total vs)%Z, rest).
Proof.
  intros Hall. revert buf. induction Hall as [|v vs Hv Hvs IH]; intros buf Hok.
  { exists []. split; [cbn; by rewrite app_nil_r|]. intros. cbn. by rewrite Z.add_0_r. }
  cbn in Hok. apply andb_true_iff in Hok as [Hok1 Hok2].
  destruct (Hv Hok1 buf) as (b1 & E1 & D1). destruct (IH (buf ++ b1) Hok2) as (b2 & E2 & D2).
  exists (b1 ++ b2). split.
  { cbn. rewrite E1. cbn. by rewrite E2, app_assoc. }
  intros fuel depth values rest Hf Hd Hc Hw. cbn in Hf, Hd, Hc, Hw. apply andb_true_iff in Hw as [Hw1 Hw2].
  pose proof (total_pos vs).
  cbn [decode_array length]. rewrite <- app_assoc, D1 by (done || lia). cbn -[decode_array].
  rewrite D2 by (done || (cbn; lia)). cbn. by rewrite Z.add_assoc.
Qed.

(** The entries of a map. *)
Lemma encodes_entries es buf :
  Forall (λ e, encodes e.1 ∧ encodes e.2) es → forallb (λ '(k, v), value_ok k && value_ok v) es = true →
  ∃ bs, encode_each (λ '(key, value) encoder,
          encoder ← encode_value key encoder; encode_value value encoder) es buf = Ok (buf ++ bs)
    ∧ ∀ fuel depth values rest,
        (depth_of (Map es) ≤ Z.of_nat fuel)%Z → (depth + depth_of (Map es) ≤ maximum_depth limits)%Z →
        (values + total_entries es ≤ maximum_values limits)%Z →
        forallb (λ '(k, v), within limits k && within limits v) es = true →
        decode_map (decode_value fuel limits (depth + 1)) (length es) values (bs ++ rest)
        = give ((λ '(k, v), (canonical k, canonical v)) <$> es, (values + total_entries es)%Z, rest).
Proof.
  intros Hall. revert buf. induction Hall as [|[k v] es [Hk Hv] Hes IH]; intros buf Hok.
  { exists []. split; [cbn; by rewrite app_nil_r|]. intros. cbn. by rewrite Z.add_0_r. }
  cbn in Hok, Hk, Hv. apply andb_true_iff in Hok as [[Hok1 Hok2]%andb_true_iff Hok3].
  destruct (Hk Hok1 buf) as (b1 & E1 & D1). destruct (Hv Hok2 (buf ++ b1)) as (b2 & E2 & D2).
  destruct (IH ((buf ++ b1) ++ b2) Hok3) as (b3 & E3 & D3).
  exists (b1 ++ b2 ++ b3). split.
  { cbn. rewrite E1. cbn. rewrite E2. cbn. by rewrite E3, <- !app_assoc. }
  intros fuel depth values rest Hf Hd Hc Hw. cbn in Hf, Hd, Hc, Hw.
  apply andb_true_iff in Hw as [[Hw1 Hw2]%andb_true_iff Hw3].
  pose proof (total_entries_pos es). destruct (measures_pos k), (measures_pos v).
  cbn [decode_map length]. rewrite <- !app_assoc, D1 by (done || lia). cbn -[decode_map].
  rewrite D2 by (done || lia). cbn -[decode_map]. rewrite D3 by (done || (cbn; lia)). cbn.
  by rewrite !Z.add_assoc.
Qed.

Lemma encode_decodes v : encodes v.
Proof.
  induction v as [| | | | | | |vs IH|es IH] using MessagePackValue_ind.
  - apply (encodes_leaf Nil).
  - apply (encodes_leaf (Boolean _)).
  - apply (encodes_leaf (Signed _)).
  - apply (encodes_leaf (Unsigned _)).
  - apply (encodes_leaf (Float _)).
  - apply (encodes_leaf (String _)).
  - apply (encodes_leaf (Binary _)).
  - intros [Hn%bool_decide_eq_true Hok]%andb_true_iff buf.
    destruct (write_array_len_ok buf _ Hn) as (h & E & Hh).
    destruct (array_header_reads _ _ Hh) as (k & tail & -> & Hi & Hr).
    destruct (encodes_each vs (buf ++ k :: tail) IH Hok) as (bs & E' & D). exists (k :: tail ++ bs). split.
    + cbn. unfold encode_array. rewrite u32_len_ok by done. cbn. rewrite E, E'. by rewrite <- app_assoc.
    + apply decodes_marked. intros fuel depth values rest Hf Hd Hv Hw. cbn in Hw.
      apply andb_true_iff in Hw as [Hw1%Z.leb_le Hw2]. rewrite <- app_assoc.
      rewrite (decode_array_arm _ _ _ (length vs) _ _ (bs ++ rest)) by done.
      cbn [count_of] in *. rewrite D by (done || lia). cbn. by rewrite Z.add_assoc.
  - intros [Hn%bool_decide_eq_true Hok]%andb_true_iff buf.
    destruct (write_map_len_ok buf _ Hn) as (h & E & Hh).
    destruct (map_header_reads _ _ Hh) as (k & tail & -> & Hi & Hr).
    destruct (encodes_entries es (buf ++ k :: tail) IH Hok) as (bs & E' & D). exists (k :: tail ++ bs). split.
    + cbn. unfold encode_map. rewrite u32_len_ok by done. cbn. rewrite E, E'. by rewrite <- app_assoc.
    + apply decodes_marked. intros fuel depth values rest Hf Hd Hv Hw. cbn in Hw.
      apply andb_true_iff in Hw as [Hw1%Z.leb_le Hw2]. rewrite <- app_assoc.
      rewrite (decode_map_arm _ _ _ (length es) _ _ (bs ++ rest)) by done.
      cbn [count_of] in *. rewrite D by (done || lia). cbn. by rewrite Z.add_assoc.
Qed.
End roundtrip.

(** * The round trip *)

(** C39. Encoding and decoding: any value within the Rust types' ranges and shorter than [2^32] is
    encoded, and decoding the bytes under limits it fits gives the value back, containers and the
    order of map entries included; only a non-negative [Signed] comes back as [Unsigned].  This for
    any choice [rmp] makes among the encodings the format allows. *)
Theorem message_pack_roundtrip `{RmpLaws} (v : MessagePackValue) (limits : MessagePackDecodeLimits)
    (Hok : value_ok v = true) (Hfits : fits limits v) :
  ∃ bs, encode_owned v = Ok bs ∧ decode_owned bs limits = Done (Ok (canonical v)).
Proof.
  destruct (encode_decodes limits v Hok []) as (bs & E & D). exists bs. split; [exact E|].
  destruct Hfits as [Hd Hc Hw], (measures_pos v).
  unfold decode_owned. rewrite <- (app_nil_r bs), D by (done || lia). done.
Qed.

(** ** Witnesses: the shortest encodings, as [rmp] chooses them *)

Definition shortest_uint (v : Z) : list Z :=
  if (v <? 128)%Z then [v] else if (v <? 256)%Z then 0xcc%Z :: to_be_bytes 1 v
  else if (v <? 256 ^ 2)%Z then 0xcd%Z :: to_be_bytes 2 v
  else if (v <? 256 ^ 4)%Z then 0xce%Z :: to_be_bytes 4 v else 0xcf%Z :: to_be_bytes 8 v.
Definition shortest_sint (v : Z) : list Z :=
  if (0 <=? v)%Z then shortest_uint v else if (-32 <=? v)%Z then [(v + 256)%Z]
  else if (- 2 ^ 7 <=? v)%Z then 0xd0%Z :: to_be_bytes 1 (v mod 256 ^ 1)
  else if (- 2 ^ 15 <=? v)%Z then 0xd1%Z :: to_be_bytes 2 (v mod 256 ^ 2)
  else if (- 2 ^ 31 <=? v)%Z then 0xd2%Z :: to_be_bytes 4 (v mod 256 ^ 4)
  else 0xd3%Z :: to_be_bytes 8 (v mod 256 ^ 8).
Definition shortest_header (base fix_max : Z) (forms : list (Z * Z)) (len : Z) : list Z :=
  if (len <? fix_max)%Z then [(base + len)%Z] else
  match find (λ '(_, n), (len <? 256 ^ n)%Z) forms with
  | Some (k, n) => k :: to_be_bytes (Z.to_nat n) len
  | None => []
  end.

Definition shortest_rmp : Rmp := {|
  write_nil := λ buf, buf ++ [0xc0%Z];
  write_bool := λ buf b, buf ++ [if b then 0xc3%Z else 0xc2%Z];
  write_sint := λ buf v, buf ++ shortest_sint v;
  write_uint := λ buf v, buf ++ shortest_uint v;
  write_f64 := λ buf bits, buf ++ 0xcb%Z :: to_be_bytes 8 bits;
  write_str := λ buf s,
    buf ++ shortest_header 0xa0 32 [(0xd9, 1); (0xda, 2); (0xdb, 4)]%Z (Z.of_nat (length s)) ++ s;
  write_bin := λ buf s,
    buf ++ shortest_header 0 0 [(0xc4, 1); (0xc5, 2); (0xc6, 4)]%Z (Z.of_nat (length s)) ++ s;
  write_array_len := λ buf n, buf ++ shortest_header 0x90 16 [(0xdc, 2); (0xdd, 4)]%Z n;
  write_map_len := λ buf n, buf ++ shortest_header 0x80 16 [(0xde, 2); (0xdf, 4)]%Z n;
|}.

Ltac pick_form k n := exists k, n; split; [rewrite !elem_of_cons; tauto|split; [lia|reflexivity]].

Lemma shortest_uint_format v : is_u64 v → int_format v (shortest_uint v).
Proof.
  intros Hv. unfold shortest_uint, int_format. unfold in_width in Hv.
  repeat match goal with |- context [(?a <? ?b)%Z] => destruct (Z.ltb_spec a b) end;
    [left; split; [lia|done]|..]; right; right; left.
  - by pick_form 0xcc%Z 1%Z.
  - by pick_form 0xcd%Z 2%Z.
  - by pick_form 0xce%Z 4%Z.
  - by pick_form 0xcf%Z 8%Z.
Qed.

Lemma shortest_sint_format v : (- 2 ^ 63 ≤ v < 2 ^ 63)%Z → int_format v (shortest_sint v).
Proof.
  intros Hv. unfold shortest_sint. destruct (Z.leb_spec 0 v).
  { apply shortest_uint_format. unfold in_width. lia. }
  unfold int_format.
  repeat match goal with |- context [(?a <=? ?b)%Z] => destruct (Z.leb_spec a b) end;
    [right; left; split; [lia|done]|..]; right; right; right.
  - by pick_form 0xd0%Z 1%Z.
  - by pick_form 0xd1%Z 2%Z.
  - by pick_form 0xd2%Z 4%Z.
  - by pick_form 0xd3%Z 8%Z.
Qed.

Lemma shortest_header_format base fix_max forms len k n :
  (0 ≤ len < 256 ^ n)%Z → (k, n) ∈ forms →
  header_format base fix_max forms len (shortest_header base fix_max forms len).
Proof.
  intros Hl Hin. unfold shortest_header, header_format. destruct (Z.ltb_spec len fix_max); [left; split; [lia|done]|].
  right. destruct (find _ forms) as [[k' n']|] eqn:E.
  - apply find_some in E as [Hin' Hlt%Z.ltb_lt]. exists k', n'.
    split; [by apply list_elem_of_In|]. split; [lia|done].
  - exfalso. apply list_elem_of_In in Hin. apply (find_none _ _ E) in Hin. cbn in Hin. apply Z.ltb_ge in Hin. lia.
Qed.

Lemma shortest_rmp_laws : @RmpLaws shortest_rmp.
Proof.
  split; cbn; try done.
  - intros buf v Hv. eexists. split; [done|]. by apply shortest_sint_format.
  - intros buf v Hv. eexists. split; [done|]. by apply shortest_uint_format.
  - intros buf s Hs. eexists. split; [done|].
    eapply (shortest_header_format _ _ _ _ 0xdb 4); [unfold in_width in Hs; lia|]. rewrite !elem_of_cons. tauto.
  - intros buf s Hs. eexists. split; [done|].
    eapply (shortest_header_format _ _ _ _ 0xc6 4); [unfold in_width in Hs; lia|]. rewrite !elem_of_cons. tauto.
  - intros buf n Hn. eexists. split; [done|].
    eapply (shortest_header_format _ _ _ _ 0xdd 4); [unfold in_width in Hn; lia|]. rewrite !elem_of_cons. tauto.
  - intros buf n Hn. eexists. split; [done|].
    eapply (shortest_header_format _ _ _ _ 0xdf 4); [unfold in_width in Hn; lia|]. rewrite !elem_of_cons. tauto.
Qed.

(** [{"name": [3, -200, true, blob]}] *)
Definition sample_value : MessagePackValue :=
  Map [(String [0x6e; 0x61; 0x6d; 0x65]%Z,
        Array [Signed 3; Signed (-200); Boolean true; Binary [1; 2; 3]%Z; Float 0x3ff0000000000000])].

Lemma sample_fits : fits default_limits sample_value.
Proof. split; by vm_compute. Qed.

Lemma message_pack_roundtrip_witness :
  ∃ bs, @encode_owned shortest_rmp sample_value = Ok bs
    ∧ decode_owned bs default_limits = Done (Ok (canonical sample_value)).
Proof. exact (@message_pack_roundtrip _ shortest_rmp_laws sample_value default_limits eq_refl sample_fits). Defined.
