(* ===== verification/Channel.v ===== *)
(** Channels: the values of [prns-core/src/routing/links/channel/mod.rs], the stream header of
    [byte_stream.rs] and the retry timeout of [send.rs].

    A channel delivers messages over a link reliably and in order.  Each message travels in an envelope
    with a 16-bit sequence number; the sender keeps a window of messages in flight, which follows the
    round-trip time. *)

From S2P Require Import Prelude Wire Token.

(** * Sequence numbers and message types *)

Definition SYSTEM_RESERVED_FLOOR : Z := 0xf000.
Definition is_system_reserved (message_type : Z) : bool := (SYSTEM_RESERVED_FLOOR <=? message_type)%Z.

Definition SEQUENCE_MODULUS : Z := 0x10000.
(** [ChannelSequence::next] *)
Definition next (sequence : Z) : Z := wrapping_add 16 sequence 1.

(** * Round-trip times *)

Inductive ChannelRttTier := Fast | Medium | Slow.

Definition FAST_CEILING : Z := 180.
Definition MEDIUM_CEILING : Z := 750.
Definition STOP_AND_WAIT_THRESHOLD : Z := 1450.

Definition tier (rtt : Z) : ChannelRttTier :=
  if (rtt <=? FAST_CEILING)%Z then Fast else if (rtt <=? MEDIUM_CEILING)%Z then Medium else Slow.
Definition demands_stop_and_wait (rtt : Z) : bool := (STOP_AND_WAIT_THRESHOLD <? rtt)%Z.

(** * The window *)

Record ChannelWindow := mkWindow {
  w_size : Z;
  w_max : Z;
  w_min : Z;
  w_flexibility : Z;
  w_fast_rate_rounds : Z;
  w_medium_rate_rounds : Z;
}.
#[global] Instance ChannelWindow_eq_dec : EqDecision ChannelWindow.
Proof. solve_decision. Defined.

Definition INITIAL : Z := 2.
Definition MIN : Z := 2.
Definition MIN_LIMIT_MEDIUM : Z := 5.
Definition MIN_LIMIT_FAST : Z := 16.
Definition MAX_SLOW : Z := 5.
Definition MAX_MEDIUM : Z := 12.
Definition MAX_FAST : Z := 48.
Definition FLEXIBILITY : Z := 4.
Definition FAST_RATE_THRESHOLD : Z := 10.

Definition for_rtt (rtt : Z) : ChannelWindow :=
  if demands_stop_and_wait rtt then mkWindow 1 1 1 1 0 0
  else mkWindow INITIAL MAX_SLOW MIN FLEXIBILITY 0 0.
Definition default_window : ChannelWindow := for_rtt 0.

Definition in_flight_count_limit (w : ChannelWindow) : nat := Z.to_nat (w_size w).

(** The [u8] additions and subtractions of the window, which wrap. *)
Definition u8_add (a b : Z) : Z := wrapping_add 8 a b.
Definition u8_sub (a b : Z) : Z := wrapping_sub 8 a b.

Definition grow_on_ack (w : ChannelWindow) (rtt : Z) : ChannelWindow :=
  let size := if (w_size w <? w_max w)%Z then u8_add (w_size w) 1 else w_size w in
  match tier rtt with
  | Slow => mkWindow size (w_max w) (w_min w) (w_flexibility w) 0 0
  | Medium =>
      let rounds := saturating_add 32 (w_medium_rate_rounds w) 1 in
      if (w_max w <? MAX_MEDIUM)%Z && (rounds =? FAST_RATE_THRESHOLD)%Z
      then mkWindow size MAX_MEDIUM MIN_LIMIT_MEDIUM (w_flexibility w) 0 rounds
      else mkWindow size (w_max w) (w_min w) (w_flexibility w) 0 rounds
  | Fast =>
      let rounds := saturating_add 32 (w_fast_rate_rounds w) 1 in
      if (w_max w <? MAX_FAST)%Z && (rounds =? FAST_RATE_THRESHOLD)%Z
      then mkWindow size MAX_FAST MIN_LIMIT_FAST (w_flexibility w) rounds (w_medium_rate_rounds w)
      else mkWindow size (w_max w) (w_min w) (w_flexibility w) rounds (w_medium_rate_rounds w)
  end.

Definition shrink_on_loss (w : ChannelWindow) : ChannelWindow :=
  if (w_min w <? w_size w)%Z then
    mkWindow (u8_sub (w_size w) 1)
      (if (u8_add (w_min w) (w_flexibility w) <? w_max w)%Z then u8_sub (w_max w) 1 else w_max w)
      (w_min w) (w_flexibility w) (w_fast_rate_rounds w) (w_medium_rate_rounds w)
  else w.

(** ** The window's invariant *)

Record window_ok (w : ChannelWindow) : Prop := {
  wo_size : (1 ≤ w_size w ≤ w_max w)%Z;
  wo_max : (w_max w ≤ MAX_FAST)%Z;
  wo_min : (1 ≤ w_min w ≤ w_max w)%Z ∧ (w_min w ≤ MIN_LIMIT_FAST)%Z;
  wo_flex : (0 ≤ w_flexibility w ≤ FLEXIBILITY)%Z;
}.

Lemma for_rtt_ok rtt : window_ok (for_rtt rtt).
Proof.
  unfold for_rtt, INITIAL, MAX_SLOW, MIN, FLEXIBILITY.
  destruct (demands_stop_and_wait rtt); split; cbn; unfold MAX_FAST, MIN_LIMIT_FAST, FLEXIBILITY; lia.
Qed.

Lemma u8_add_small a b : (0 ≤ a + b < 256)%Z → u8_add a b = (a + b)%Z.
Proof. intros. by apply wrap_small. Qed.
Lemma u8_sub_small a b : (0 ≤ a - b < 256)%Z → u8_sub a b = (a - b)%Z.
Proof. intros. by apply wrap_small. Qed.

Lemma grow_on_ack_ok w rtt : window_ok w → window_ok (grow_on_ack w rtt).
Proof.
  intros [Hs Hm [Hn Hn'] Hf]. unfold MAX_FAST, MIN_LIMIT_FAST, FLEXIBILITY in *.
  assert (Hsize : (1 ≤ (if w_size w <? w_max w then u8_add (w_size w) 1 else w_size w) ≤ w_max w)%Z).
  { destruct (Z.ltb_spec (w_size w) (w_max w)); [rewrite u8_add_small by lia|]; lia. }
  unfold grow_on_ack, MAX_FAST, MAX_MEDIUM, MIN_LIMIT_MEDIUM, MIN_LIMIT_FAST.
  destruct (tier rtt); cbv zeta.
  - destruct (Z.ltb_spec (w_max w) 48); [destruct (_ =? _)%Z|]; split; cbn -[Z.leb];
      unfold MAX_FAST, MIN_LIMIT_FAST, FLEXIBILITY; lia.
  - destruct (Z.ltb_spec (w_max w) 12); [destruct (_ =? _)%Z|]; split; cbn -[Z.leb];
      unfold MAX_FAST, MIN_LIMIT_FAST, FLEXIBILITY; lia.
  - split; cbn -[Z.leb]; unfold MAX_FAST, MIN_LIMIT_FAST, FLEXIBILITY; lia.
Qed.

Lemma shrink_on_loss_ok w : window_ok w → window_ok (shrink_on_loss w).
Proof.
  intros Hw. pose proof Hw as [Hs Hm [Hn Hn'] Hf]. unfold MAX_FAST, MIN_LIMIT_FAST, FLEXIBILITY in *.
  unfold shrink_on_loss. destruct (Z.ltb_spec (w_min w) (w_size w)); [|done].
  rewrite u8_sub_small, u8_add_small by lia.
  destruct (Z.ltb_spec (w_min w + w_flexibility w) (w_max w)); [rewrite u8_sub_small by lia|];
    split; cbn; unfold MAX_FAST, MIN_LIMIT_FAST, FLEXIBILITY; lia.
Qed.

(** What happens to a window: a delivery proof arrives over a link with some round-trip time, or a
    message is sent again. *)
Inductive window_event := Acked (rtt : Z) | Resent.
Definition window_step (w : ChannelWindow) (e : window_event) : ChannelWindow :=
  match e with Acked rtt => grow_on_ack w rtt | Resent => shrink_on_loss w end.

Lemma window_steps_ok w events : window_ok w → window_ok (foldl window_step w events).
Proof.
  revert w. induction events as [|[rtt|] events IH]; intros w Hw; cbn; [done|..]; apply IH.
  - by apply grow_on_ack_ok.
  - by apply shrink_on_loss_ok.
Qed.

(** * Lengths *)

(** [link_mdu] of [links/data.rs], in [usize] as a release build computes it: the subtractions wrap around.  A build with
    overflow checks panics where one does. *)
Definition link_mdu (mtu : Z) : Z :=
  wrapping_sub 64
    (wrapping_sub 64 (wrapping_sub 64 (wrapping_sub 64 mtu (Z.of_nat IFAC_MIN_LEN)) (Z.of_nat HEADER_MIN_LEN))
       (Z.of_nat TOKEN_OVERHEAD) / 16 * 16) 1.

(** An MTU below 84, which a peer may signal, lifts the limit: what remains after the overheads is less than nothing. *)
Theorem tiny_mtu_lifts_the_limit mtu : (0 ≤ mtu < 84)%Z → (u32_max < link_mdu mtu)%Z.
Proof.
  intros Hm. apply Z.ltb_lt. assert (Hin : mtu ∈ seqZ 0 84) by (apply elem_of_seqZ; lia). clear Hm. revert mtu Hin.
  apply list.Forall_forall, (bool_decide_unpack _). vm_compute. reflexivity.
Qed.

Definition CHANNEL_ENVELOPE_HEADER_LEN : nat := 6.

Definition channel_mdu (mtu : Z) : Z :=
  let body := saturating_sub (link_mdu mtu) (Z.of_nat CHANNEL_ENVELOPE_HEADER_LEN) in
  if (u16_max <? body)%Z then u16_max else body.

(** [engine/commands/channel.rs] *)
Definition MAX_SEND_TO_CHANNEL_BODY_LEN : Z := channel_mdu (Z.of_nat BROADCAST_MTU).

Example channel_body_len : MAX_SEND_TO_CHANNEL_BODY_LEN = 425%Z.
Proof. reflexivity. Qed.

(** * Envelopes *)

Inductive EnvelopeError := PayloadTooLong | BufferTooShort | TruncatedHeader | LengthMismatch.

Definition write_envelope (message_type sequence : Z) (payload buf : list Z) :
    run (result EnvelopeError nat * list Z) :=
  if (u16_max <? Z.of_nat (length payload))%Z then Done (Err PayloadTooLong, buf) else
  let finish := (CHANNEL_ENVELOPE_HEADER_LEN + length payload)%nat in
  if (length buf <? finish)%nat then Done (Err BufferTooShort, buf) else
  buf ← copy_into buf 0 (to_be_bytes 2 message_type);
  buf ← copy_into buf 2 (to_be_bytes 2 sequence);
  buf ← copy_into buf 4 (to_be_bytes 2 (Z.of_nat (length payload)));
  buf ← copy_into buf CHANNEL_ENVELOPE_HEADER_LEN payload;
  Done (Ok finish, buf).

Record Envelope := mkEnvelope { e_message_type : Z; e_sequence : Z; e_payload : list Z }.

Definition parse_envelope (bytes : list Z) : run (result EnvelopeError Envelope) :=
  if (length bytes <? CHANNEL_ENVELOPE_HEADER_LEN)%nat then Done (Err TruncatedHeader) else
  b0 ← index bytes 0; b1 ← index bytes 1;
  b2 ← index bytes 2; b3 ← index bytes 3;
  b4 ← index bytes 4; b5 ← index bytes 5;
  let length' := from_be_bytes [b4; b5] in
  payload ← slice bytes CHANNEL_ENVELOPE_HEADER_LEN (length bytes);
  if (Z.of_nat (length payload) =? length')%Z
  then Done (Ok (mkEnvelope (from_be_bytes [b0; b1]) (from_be_bytes [b2; b3]) payload))
  else Done (Err LengthMismatch).

(** The bytes of an envelope. *)
Definition envelope_bytes (message_type sequence : Z) (payload : list Z) : list Z :=
  to_be_bytes 2 message_type ++ to_be_bytes 2 sequence ++ to_be_bytes 2 (Z.of_nat (length payload)) ++ payload.

Lemma write_envelope_ok message_type sequence payload buf :
  (Z.of_nat (length payload) ≤ u16_max)%Z → (6 + length payload ≤ length buf)%nat →
  ∃ after, write_envelope message_type sequence payload buf
    = Done (Ok (6 + length payload)%nat, envelope_bytes message_type sequence payload ++ after).
Proof.
  intros Hp Hb. unfold write_envelope. rewrite (proj2 (Z.ltb_ge _ _)), (proj2 (Nat.ltb_ge _ _)) by (cbn; lia).
  destruct (split_block 2 buf) as (x1 & r1 & -> & L1); [lia|]. rewrite length_app in Hb.
  destruct (split_block 2 r1) as (x2 & r2 & -> & L2); [lia|]. rewrite length_app in Hb.
  destruct (split_block 2 r2) as (x3 & r3 & -> & L3); [lia|]. rewrite length_app in Hb.
  destruct (split_block (length payload) r3) as (x4 & r4 & -> & L4); [lia|].
  rewrite (copy_at 0 [] x1 (to_be_bytes 2 message_type) (x2 ++ x3 ++ x4 ++ r4) eq_refl L1
    : copy_into (x1 ++ x2 ++ x3 ++ x4 ++ r4) 0 _ = Done (to_be_bytes 2 message_type ++ x2 ++ x3 ++ x4 ++ r4)).
  cbn [mbind run_bind].
  rewrite (copy_at 2 (to_be_bytes 2 message_type) x2) by (by rewrite length_to_be_bytes). cbn [mbind run_bind].
  rewrite app_assoc.
  rewrite (copy_at 4 (to_be_bytes 2 message_type ++ to_be_bytes 2 sequence) x3)
    by (rewrite ?length_app, !length_to_be_bytes; done). cbn [mbind run_bind].
  rewrite app_assoc.
  rewrite (copy_at 6 ((to_be_bytes 2 message_type ++ to_be_bytes 2 sequence)
    ++ to_be_bytes 2 (Z.of_nat (length payload))) x4) by (rewrite ?length_app, ?length_to_be_bytes; done).
  cbn [mbind run_bind]. exists r4. unfold envelope_bytes. by rewrite <- !app_assoc.
Qed.

Lemma be_pair z : ∃ hi lo, to_be_bytes 2 z = [hi; lo].
Proof. eexists _, _. reflexivity. Qed.

Lemma parse_envelope_ok message_type sequence payload :
  is_u16 message_type → is_u16 sequence → (Z.of_nat (length payload) ≤ u16_max)%Z →
  parse_envelope (envelope_bytes message_type sequence payload) = Done (Ok (mkEnvelope message_type sequence payload)).
Proof.
  intros Ht Hs Hp. assert (Hl : is_u16 (Z.of_nat (length payload))) by width.
  unfold parse_envelope. rewrite (proj2 (Nat.ltb_ge _ _)).
  2: { unfold envelope_bytes. rewrite !length_app, !length_to_be_bytes.
       unfold CHANNEL_ENVELOPE_HEADER_LEN. lia. }
  unfold envelope_bytes.
  destruct (be_pair message_type) as (b0 & b1 & E0). destruct (be_pair sequence) as (b2 & b3 & E1).
  destruct (be_pair (Z.of_nat (length payload))) as (b4 & b5 & E2). rewrite E0, E1, E2.
  cbn [app index lookup list_lookup mbind run_bind].
  set (bytes := b0 :: b1 :: b2 :: b3 :: b4 :: b5 :: payload).
  assert (Hs6 : slice bytes CHANNEL_ENVELOPE_HEADER_LEN (length bytes) = Done payload)
    by exact (slice_suffix [b0; b1; b2; b3; b4; b5] payload 6 eq_refl).
  rewrite Hs6.
  cbn [mbind run_bind]. rewrite <- E0, <- E1, <- E2, !from_to_be_bytes by (unfold in_width in *; lia).
  by rewrite Z.eqb_refl.
Qed.

(** * Stream data ([byte_stream.rs]) *)

Module Stream.
Definition STREAM_DATA_TYPE : Z := 0xff00.
Definition STREAM_ID_MAX : Z := 0x3fff.
Definition EOF_BIT : Z := 0x8000.
Definition COMPRESSED_BIT : Z := 0x4000.
Definition STREAM_ID_MASK : Z := 0x3fff.
Definition HEADER_LEN : nat := 2.

Inductive StreamIdError := TooLarge.
(** [StreamId::new] *)
Definition stream_id_new (id : Z) : result StreamIdError Z :=
  if (id <=? STREAM_ID_MAX)%Z then Ok id else Err TooLarge.

Record StreamDataHeader := mkHeader { h_stream_id : Z; h_eof : bool; h_compressed : bool }.
#[global] Instance StreamDataHeader_eq_dec : EqDecision StreamDataHeader.
Proof. solve_decision. Defined.

Definition header_value (h : StreamDataHeader) : Z :=
  let value := Z.land (h_stream_id h) STREAM_ID_MASK in
  let value := if h_eof h then Z.lor value EOF_BIT else value in
  if h_compressed h then Z.lor value COMPRESSED_BIT else value.
Definition header_to_bytes (h : StreamDataHeader) : list Z := to_be_bytes 2 (header_value h).

Definition header_of_value (value : Z) : StreamDataHeader :=
  mkHeader (Z.land value STREAM_ID_MASK) (negb (Z.land value EOF_BIT =? 0)%Z)
    (negb (Z.land value COMPRESSED_BIT =? 0)%Z).
Definition header_parse (b0 b1 : Z) : StreamDataHeader := header_of_value (from_be_bytes [b0; b1]).

Definition max_stream_payload (mtu : Z) : Z := saturating_sub (channel_mdu mtu) (Z.of_nat HEADER_LEN).

Inductive StreamDataParseError := TooShort.
Definition parse (body : list Z) : run (result StreamDataParseError (StreamDataHeader * list Z)) :=
  if (length body <? HEADER_LEN)%nat then Done (Err TooShort) else
  b0 ← index body 0; b1 ← index body 1;
  payload ← slice body HEADER_LEN (length body);
  Done (Ok (header_parse b0 b1, payload)).

Inductive StreamDataWriteError := WriteBufferTooShort.
Definition write_frame (header : StreamDataHeader) (payload buf : list Z) :
    run (result StreamDataWriteError nat * list Z) :=
  let finish := (HEADER_LEN + length payload)%nat in
  if (length buf <? finish)%nat then Done (Err WriteBufferTooShort, buf) else
  buf ← copy_into buf 0 (header_to_bytes header);
  buf ← copy_into buf HEADER_LEN payload;
  Done (Ok finish, buf).

(** The header's bits, by enumeration. *)
Lemma header_value_inverse id eof compressed :
  (0 ≤ id ≤ STREAM_ID_MAX)%Z →
  header_of_value (header_value (mkHeader id eof compressed)) = mkHeader id eof compressed
  ∧ is_u16 (header_value (mkHeader id eof compressed)).
Proof.
  intros Hid. unfold STREAM_ID_MAX in Hid.
  assert (Hall : forallb (λ id, forallb (λ eof, forallb (λ compressed,
      let h := mkHeader id eof compressed in
      bool_decide (header_of_value (header_value h) = h) && bool_decide (is_u16 (header_value h)))
    [true; false]) [true; false]) (seqZ 0 16384) = true) by (by vm_compute).
  rewrite forallb_forall in Hall. specialize (Hall id). cbv beta in Hall.
  rewrite forallb_forall in Hall. specialize (fun H => Hall H eof). cbv beta in Hall.
  assert (Hin : In id (seqZ 0 16384)) by (apply list_elem_of_In, elem_of_seqZ; lia).
  specialize (Hall Hin ltac:(destruct eof; cbn; tauto)). rewrite forallb_forall in Hall.
  specialize (Hall compressed ltac:(destruct compressed; cbn; tauto)).
  apply andb_true_iff in Hall as [?%bool_decide_eq_true ?%bool_decide_eq_true]. done.
Qed.

(** A frame written is parsed back. *)
Lemma write_frame_ok header payload buf :
  (0 ≤ h_stream_id header ≤ STREAM_ID_MAX)%Z → (2 + length payload ≤ length buf)%nat →
  ∃ after, write_frame header payload buf
      = Done (Ok (2 + length payload)%nat, (header_to_bytes header ++ payload) ++ after)
    ∧ parse (header_to_bytes header ++ payload) = Done (Ok (header, payload)).
Proof.
  intros Hid Hb. destruct header as [id eof compressed]. cbn [h_stream_id] in Hid.
  destruct (header_value_inverse id eof compressed Hid) as [Hinv Hu].
  unfold header_to_bytes. set (value := header_value _) in *.
  destruct (be_pair value) as (b0 & b1 & E). unfold write_frame. rewrite (proj2 (Nat.ltb_ge _ _)) by (cbn; lia).
  destruct (split_block 2 buf) as (x1 & r1 & -> & L1); [lia|]. rewrite length_app in Hb.
  destruct (split_block (length payload) r1) as (x2 & r2 & -> & L2); [lia|].
  exists r2. unfold header_to_bytes. fold value. split.
  - rewrite (copy_at 0 [] x1 (to_be_bytes 2 value) (x2 ++ r2) eq_refl L1
      : copy_into (x1 ++ x2 ++ r2) 0 _ = Done (to_be_bytes 2 value ++ x2 ++ r2)). cbn [mbind run_bind].
    rewrite (copy_at 2 (to_be_bytes 2 value) x2) by (by rewrite ?length_to_be_bytes). cbn [mbind run_bind].
    by rewrite <- app_assoc.
  - unfold parse. rewrite (proj2 (Nat.ltb_ge _ _)) by (rewrite length_app, length_to_be_bytes; unfold HEADER_LEN; lia).
    rewrite E. cbn [app index lookup list_lookup mbind run_bind].
    assert (Hs : slice (b0 :: b1 :: payload) HEADER_LEN (length (b0 :: b1 :: payload)) = Done payload)
      by exact (slice_suffix [b0; b1] payload 2 eq_refl).
    rewrite Hs. cbn [mbind run_bind]. unfold header_parse. rewrite <- E, from_to_be_bytes by exact Hu.
    by rewrite Hinv.
Qed.
End Stream.

(** * Retry timeouts ([send.rs]) *)

Definition CHANNEL_MAX_TRIES : Z := 5.

Definition channel_retry_timeout_ms (rtt tries in_flight_count : Z) : Z :=
  let tries := Z.min tries CHANNEL_MAX_TRIES in
  let base := Z.max (saturating_mul 64 rtt 5 / 2) 25 in
  let ring_scaled := saturating_mul 64 base (saturating_add 64 (saturating_mul 64 in_flight_count 2) 3) in
  if (tries =? 0)%Z then (ring_scaled / 3)%Z
  else (saturating_mul 64 ring_scaled (3 ^ (tries - 1)) / Z.shiftl 1 tries)%Z.

(** While nothing saturates, the timeout is what the comment of the function says, rounded down:
    [1.5^(tries - 1) * max(2.5 rtt, 25) * (in_flight + 1.5)]. *)
Lemma channel_retry_timeout_exact rtt tries n :
  (0 ≤ rtt < 2 ^ 40)%Z → (0 ≤ tries ≤ CHANNEL_MAX_TRIES)%Z → (0 ≤ n < 2 ^ 10)%Z →
  channel_retry_timeout_ms rtt tries n
  = (Z.max (rtt * 5 / 2) 25 * (n * 2 + 3) * 3 ^ tries / (3 * 2 ^ tries))%Z.
Proof.
  intros Hr Ht Hn. unfold channel_retry_timeout_ms, CHANNEL_MAX_TRIES, saturating_mul, saturating_add, max_width in *.
  rewrite (Z.min_l tries) by lia. rewrite (Z.min_l (rtt * 5)) by lia. rewrite (Z.min_l (n * 2)) by lia.
  rewrite (Z.min_l (n * 2 + 3)) by lia. set (base := Z.max (rtt * 5 / 2) 25).
  assert (Hb : (25 ≤ base < 2 ^ 43)%Z).
  { unfold base. assert (rtt * 5 / 2 < 2 ^ 43)%Z by (apply Z.div_lt_upper_bound; lia). lia. }
  assert (Hx : (0 ≤ base * (n * 2 + 3) < 2 ^ 55)%Z).
  { split; [apply Z.mul_nonneg_nonneg; lia|]. apply Z.lt_le_trans with (2 ^ 43 * 2 ^ 12)%Z; [|lia].
    apply Z.mul_lt_mono_nonneg; lia. }
  rewrite (Z.min_l (base * (n * 2 + 3))) by lia.
  set (x := (base * (n * 2 + 3))%Z) in *. rewrite Z.shiftl_1_l.
  destruct (Z.eqb_spec tries 0) as [->|Hne]; [by rewrite Z.pow_0_r, Z.mul_1_r|].
  assert (Hp : (1 ≤ 3 ^ (tries - 1) ≤ 81)%Z).
  { split; [change 1%Z with (3 ^ 0)%Z|change 81%Z with (3 ^ 4)%Z]; apply Z.pow_le_mono_r; lia. }
  rewrite Z.min_l by nia.
  replace (3 ^ tries)%Z with (3 * 3 ^ (tries - 1))%Z by (rewrite <- Z.pow_succ_r by lia; f_equal; lia).
  rewrite (Z.mul_assoc x), (Z.mul_comm x 3), <- Z.mul_assoc, Z.div_mul_cancel_l; [done| |done].
  apply Z.pow_nonzero; lia.
Qed.

(** * A stream message on the wire *)

Lemma take_exact {A} (xs ys : list A) n : length xs = n → take n (xs ++ ys) = xs.
Proof. intros <-. apply take_app_length. Qed.

(** A piece of a byte stream, framed with its stream header and put into a channel envelope, is read back as it
    was: same stream, end and compression flags, sequence number and bytes, whatever the buffers held before. *)
Theorem stream_message_roundtrip header payload sequence body_buf buf :
  (0 ≤ Stream.h_stream_id header ≤ Stream.STREAM_ID_MAX)%Z → is_u16 sequence →
  (Z.of_nat (2 + length payload) ≤ u16_max)%Z →
  2 + length payload ≤ length body_buf → 8 + length payload ≤ length buf →
  ∃ n body m bytes,
    Stream.write_frame header payload body_buf = Done (Ok n, body)
    ∧ write_envelope Stream.STREAM_DATA_TYPE sequence (take n body) buf = Done (Ok m, bytes)
    ∧ ∃ e, parse_envelope (take m bytes) = Done (Ok e)
      ∧ e_message_type e = Stream.STREAM_DATA_TYPE ∧ e_sequence e = sequence
      ∧ Stream.parse (e_payload e) = Done (Ok (header, payload)).
Proof.
  intros Hid Hs Hu Hb Hbuf. destruct (Stream.write_frame_ok header payload body_buf Hid Hb) as (after & E & Hp).
  set (frame := Stream.header_to_bytes header ++ payload) in *.
  assert (Hl : length frame = 2 + length payload).
  { unfold frame, Stream.header_to_bytes. by rewrite length_app, length_to_be_bytes. }
  destruct (write_envelope_ok Stream.STREAM_DATA_TYPE sequence frame buf) as (after' & E'); [by rewrite Hl|rewrite Hl; lia|].
  eexists _, _, _, _. split; [exact E|]. rewrite (take_exact frame) by done. split; [exact E'|].
  rewrite (take_exact (envelope_bytes _ _ _)).
  2: { unfold envelope_bytes. rewrite !length_app, !length_to_be_bytes. lia. }
  rewrite parse_envelope_ok; [|unfold Stream.STREAM_DATA_TYPE; width|done|by rewrite Hl].
  by eexists.
Qed.

Lemma stream_message_roundtrip_witness :
  ∃ n body m bytes e,
    Stream.write_frame (Stream.mkHeader 5 true false) [1; 2; 3]%Z (replicate 9 0%Z) = Done (Ok n, body)
    ∧ write_envelope Stream.STREAM_DATA_TYPE 65535 (take n body) (replicate 11 0%Z) = Done (Ok m, bytes)
    ∧ parse_envelope (take m bytes) = Done (Ok e) ∧ e_sequence e = 65535%Z
    ∧ Stream.parse (e_payload e) = Done (Ok (Stream.mkHeader 5 true false, [1; 2; 3]%Z)).
Proof.
  destruct (stream_message_roundtrip (Stream.mkHeader 5 true false) [1; 2; 3]%Z 65535 (replicate 9 0%Z) (replicate 11 0%Z))
    as (n & body & m & bytes & E & E' & e & Ep & _ & Es & Ef);
    [vm_compute; split; discriminate|vm_compute; split; [discriminate|reflexivity]|vm_compute; discriminate
    |apply Nat.leb_le; reflexivity|apply Nat.leb_le; reflexivity|].
  exists n, body, m, bytes, e. done.
Defined.
