(* ===== verification/LemireIndex.v ===== *)
(** The row index of the routing tables: [prns-core/src/lemire_index/].

    An open-addressing table of row numbers over a caller-owned slice of rows: linear
    probing from a bucket computed by a multiply-shift reduction of the key, deletion by
    backward shift.  [LemireIndex] has a fixed number of [u16] buckets, [HeapLemireIndex]
    grows a vector of [u32] ones; they share the algorithms, so the operations below take
    the empty marker and the width of a stored row number, and both are instances.
    [debug_assert!]s are not part of the release code and are hypotheses of the theorems
    instead. *)

From stdpp Require Import sets.
From S2P Require Import Prelude.

(** * Load factors and keys ([core.rs]) *)

Definition buckets_for_two_thirds_load (entries : Z) : Z :=
  if (entries =? 0)%Z then 1%Z
  else saturating_add 64 entries (div_ceil entries 2).

Definition exceeds_two_thirds_load (entries buckets : Z) : bool :=
  (saturating_sub buckets (div_ceil buckets 3) <? entries)%Z.

(** The traits [IndexKey] and [IndexRow]. *)
Class IndexRow (R K : Type) := {
  index_key : R → K;
  lemire_key : K → Z;
  key_eq_dec :: EqDecision K;
}.

(** [u64::from_be_bytes] of the first eight bytes; the result is a [u64]. *)
Definition lemire_key_from_prefix (bytes : list Z) : Z := wrap 64 (from_be_bytes (take 8 bytes)).

(** * The table *)

Section operations.
Context {R K : Type} `{IndexRow R K} (EMPTY : Z) (width : Z).
Implicit Types (slots : list Z) (rows : list R).

(** [((key as u128 * n as u128) >> 64) as usize] *)
Definition bucket (n : nat) (key : Z) : nat := Z.to_nat (Z.shiftr (key * Z.of_nat n) 64).

Definition next (n pos : nat) : nat := ((pos + 1) mod n)%nat.

(** [position]: the loop of the probe. *)
Fixpoint position_loop (fuel : nat) slots rows (target : K) (pos : nat) : run (option nat) :=
  match fuel with
  | O => OutOfFuel
  | S fuel =>
      slot ← index slots pos;
      if (slot =? EMPTY)%Z then Done None else
      row ← index rows (Z.to_nat slot);
      if decide (index_key row = target) then Done (Some pos)
      else position_loop fuel slots rows target (next (length slots) pos)
  end.

Definition position slots (target : K) rows : run (option nat) :=
  position_loop (S (length slots)) slots rows target
    (bucket (length slots) (lemire_key target)).

Fixpoint position_of_slot_loop (fuel : nat) slots (target_slot pos : nat) : run (option nat) :=
  match fuel with
  | O => OutOfFuel
  | S fuel =>
      slot ← index slots pos;
      if (slot =? EMPTY)%Z then Done None else
      if (Z.to_nat slot =? target_slot)%nat then Done (Some pos)
      else position_of_slot_loop fuel slots target_slot (next (length slots) pos)
  end.

Definition position_of_slot slots (target_slot : nat) rows : run (option nat) :=
  match rows !! target_slot with
  | None => Done None
  | Some row =>
      position_of_slot_loop (S (length slots)) slots target_slot
        (bucket (length slots) (lemire_key (index_key row)))
  end.

Definition get slots (target : K) rows : run (option nat) :=
  found ← position slots target rows;
  match found with
  | None => Done None
  | Some pos => slot ← index slots pos; Done (Some (Z.to_nat slot))
  end.

Definition contains slots (target : K) rows : run bool :=
  found ← position slots target rows;
  Done (if found is Some _ then true else false).

(** [while self.slots[pos] != EMPTY { pos = (pos + 1) % BUCKETS }] *)
Fixpoint vacant_loop (fuel : nat) slots (pos : nat) : run nat :=
  match fuel with
  | O => OutOfFuel
  | S fuel =>
      slot ← index slots pos;
      if (slot =? EMPTY)%Z then Done pos
      else vacant_loop fuel slots (next (length slots) pos)
  end.

(** [LemireIndex::insert] and [HeapLemireIndex::place] *)
Definition insert slots (slot : nat) rows : run (list Z) :=
  row ← index rows slot;
  pos ← vacant_loop (S (length slots)) slots
          (bucket (length slots) (lemire_key (index_key row)));
  store slots pos (wrap width (Z.of_nat slot)).

(** The test that keeps an entry where it is: its home lies cyclically in [(hole, scan]]. *)
Definition blocks_move (home hole scan : nat) : bool :=
  if (hole <=? scan)%nat then (hole <? home)%nat && (home <=? scan)%nat
  else (hole <? home)%nat || (home <=? scan)%nat.

(** [remove_position]: both loops, the outer one re-entered when an entry moves.  [scan] is
    the inner loop's cursor. *)
Fixpoint remove_loop (fuel : nat) slots rows (hole scan : nat) : run (list Z) :=
  match fuel with
  | O => OutOfFuel
  | S fuel =>
      let scan := next (length slots) scan in
      slot ← index slots scan;
      if (slot =? EMPTY)%Z then Done slots else
      row ← index rows (Z.to_nat slot);
      let home := bucket (length slots) (lemire_key (index_key row)) in
      if negb (blocks_move home hole scan) then
        slots ← store slots hole slot;
        slots ← store slots scan EMPTY;
        remove_loop fuel slots rows scan scan
      else remove_loop fuel slots rows hole scan
  end.

Definition remove_position slots (hole : nat) rows : run (list Z) :=
  slots ← store slots hole EMPTY;
  remove_loop (S (length slots)) slots rows hole hole.

Definition remove slots (target : K) rows : run (list Z) :=
  found ← position slots target rows;
  match found with
  | None => Done slots
  | Some hole => remove_position slots hole rows
  end.

Definition remove_slot slots (slot : nat) rows : run (list Z) :=
  found ← position_of_slot slots slot rows;
  match found with
  | None => Done slots
  | Some hole => remove_position slots hole rows
  end.

Definition repoint slots (target : K) (slot : nat) rows : run (list Z) :=
  found ← position slots target rows;
  match found with
  | None => Done slots
  | Some pos => store slots pos (wrap width (Z.of_nat slot))
  end.

Definition repoint_slot slots (previous slot : nat) rows : run (list Z) :=
  found ← position_of_slot slots previous rows;
  match found with
  | None => Done slots
  | Some pos => store slots pos (wrap width (Z.of_nat slot))
  end.

Definition clear slots : list Z := replicate (length slots) EMPTY.
Definition new (buckets : nat) : list Z := replicate buckets EMPTY.
End operations.

(** * Cyclic distances *)

(** Steps from bucket [a] forward to bucket [b] around a table of [n]. *)
Definition dist (n a b : nat) : nat := if (a <=? b)%nat then b - a else b + n - a.

Lemma dist_spec n a b :
  (a ≤ b ∧ dist n a b = b - a) ∨ (b < a ∧ dist n a b = b + n - a).
Proof. unfold dist. destruct (Nat.leb_spec a b); lia. Qed.

Lemma next_spec n p :
  p < n → (p + 1 < n ∧ next n p = p + 1) ∨ (p + 1 = n ∧ next n p = 0).
Proof.
  intros. unfold next. destruct (decide (p + 1 = n)) as [<-|]; [right|left].
  - by rewrite Nat.Div0.mod_same.
  - rewrite Nat.mod_small; lia.
Qed.

(** [cyc] decides cyclic order facts: every distance in sight is split on wrap-around. *)
Ltac cyc_facts :=
  repeat match goal with
  | |- context [dist ?n ?a ?b] =>
      lazymatch goal with
      | _ : (a ≤ b ∧ dist n a b = _) ∨ _ |- _ => fail
      | _ => pose proof (dist_spec n a b)
      end
  | _ : context [dist ?n ?a ?b] |- _ =>
      lazymatch goal with
      | _ : (a ≤ b ∧ dist n a b = _) ∨ _ |- _ => fail
      | _ => pose proof (dist_spec n a b)
      end
  end.
Ltac cyc := cyc_facts; lia.

Ltac cyc_cases :=
  unfold dist; repeat match goal with
  | |- context [(?a <=? ?b)%nat] => destruct (Nat.leb_spec a b)
  end; lia.

Lemma dist_next n a p :
  a < n → p < n → next n p ≠ a → dist n a (next n p) = dist n a p + 1.
Proof. intros. pose proof (next_spec n p). cyc_cases. Qed.

Lemma dist_inj n a p q : a < n → p < n → q < n → dist n a p = dist n a q → p = q.
Proof. cyc_cases. Qed.

(** [hole] on the way from [h] to [p], [e] on the way from [hole] to [p]. *)
Lemma dist_between n h hole p e :
  h < n → hole < n → p < n → e < n →
  dist n h hole < dist n h p → dist n hole e < dist n hole p → dist n h e < dist n h p.
Proof. cyc_cases. Qed.

(** Distances from a point [b] on the way from [a] to [c]. *)
Lemma dist_rebase n a b c :
  a < n → b < n → c < n → dist n a b < dist n a c →
  dist n b b = 0 ∧ dist n b c = dist n a c - dist n a b.
Proof. intros. split; cyc. Qed.

Lemma blocks_move_spec n home hole scan :
  home < n → hole < n → scan < n → hole ≠ scan →
  blocks_move home hole scan = negb (dist n home hole <? dist n home scan)%nat.
Proof.
  intros. unfold blocks_move. cyc_facts.
  destruct (Nat.leb_spec hole scan), (Nat.ltb_spec hole home), (Nat.leb_spec home scan),
    (Nat.ltb_spec (dist n home hole) (dist n home scan)); simpl; lia || done.
Qed.

Lemma bucket_lt n key : 0 < n → is_u64 key → bucket n key < n.
Proof.
  intros Hn Hk. unfold bucket, in_width in *. rewrite Z.shiftr_div_pow2 by lia.
  apply Nat2Z.inj_lt. rewrite Z2Nat.id by (apply Z.div_pos; lia).
  apply Z.div_lt_upper_bound; nia.
Qed.

(** * The invariant *)

Section invariant.
Context {R K : Type} `{IndexRow R K} (EMPTY : Z) (width : Z).
Implicit Types (slots : list Z) (rows : list R).

Definition occupied slots (p : nat) : Prop := ∃ v, slots !! p = Some v ∧ v ≠ EMPTY.

(** Row number [s] is in the index. *)
Definition indexed slots (s : nat) : Prop :=
  ∃ p, slots !! p = Some (Z.of_nat s) ∧ Z.of_nat s ≠ EMPTY.

Definition home (n : nat) (row : R) : nat := bucket n (lemire_key (index_key row)).

Definition keys_ok rows : Prop := Forall (λ row, is_u64 (lemire_key (index_key row))) rows.

(** Every entry is reachable: no empty bucket between its home and its place, [hole]
    excepted. *)
Definition reachable slots rows (hole : option nat) : Prop :=
  ∀ p s row q, slots !! p = Some (Z.of_nat s) → Z.of_nat s ≠ EMPTY → rows !! s = Some row →
    q < length slots → Some q ≠ hole →
    dist (length slots) (home (length slots) row) q
      < dist (length slots) (home (length slots) row) p →
    occupied slots q.

Record index_wf slots rows (hole : option nat) : Prop := {
  wf_keys : keys_ok rows;
  wf_values : ∀ p v, slots !! p = Some v → v ≠ EMPTY →
    ∃ s row, v = Z.of_nat s ∧ rows !! s = Some row;
  wf_once : ∀ p q v, slots !! p = Some v → slots !! q = Some v → v ≠ EMPTY → p = q;
  wf_reach : reachable slots rows hole;
  wf_room : ∃ e, slots !! e = Some EMPTY ∧ Some e ≠ hole;
}.

(** The well-formed index between operations. *)
Definition wf slots rows : Prop := index_wf slots rows None.

(** At most one indexed row has a given key. *)
Definition unique_keys slots rows : Prop :=
  ∀ s s' row row', indexed slots s → indexed slots s' → rows !! s = Some row →
    rows !! s' = Some row' → index_key row = index_key row' → s = s'.

Lemma home_lt slots rows hole s row :
  index_wf slots rows hole → rows !! s = Some row →
  home (length slots) row < length slots.
Proof.
  intros Hwf Hrow. destruct (wf_room _ _ _ Hwf) as (e & He%lookup_lt_Some & _).
  apply bucket_lt; [lia|]. pose proof (wf_keys _ _ _ Hwf) as Hk. unfold keys_ok in Hk.
  rewrite Forall_lookup in Hk. eauto.
Qed.

(** ** Probing *)

(** The probe from [h] stops at the first bucket that is empty or satisfies [hit]; [seen]
    is what holds of the buckets passed. *)
Lemma position_loop_spec fuel slots rows target pos :
  index_wf slots rows None → is_u64 (lemire_key target) →
  let n := length slots in
  let h := bucket n (lemire_key target) in
  pos < n → n - dist n h pos < fuel →
  (∀ q, q < n → dist n h q < dist n h pos →
     ∃ s row, slots !! q = Some (Z.of_nat s) ∧ Z.of_nat s ≠ EMPTY ∧ rows !! s = Some row
       ∧ index_key row ≠ target) →
  (∃ p s row, position_loop EMPTY fuel slots rows target pos = Done (Some p)
     ∧ slots !! p = Some (Z.of_nat s) ∧ Z.of_nat s ≠ EMPTY ∧ rows !! s = Some row
     ∧ index_key row = target)
  ∨ (position_loop EMPTY fuel slots rows target pos = Done None
     ∧ ∀ s row, indexed slots s → rows !! s = Some row → index_key row ≠ target).
Proof.
  intros Hwf Hkey n h. revert pos. induction fuel as [|fuel IH]; intros pos Hpos Hf Hseen; [lia|].
  assert (Hh : h < n) by (apply bucket_lt; [lia|done]).
  cbn [position_loop]. destruct (lookup_lt_is_Some_2 slots pos Hpos) as [v Hv].
  rewrite (index_lookup _ _ _ Hv). cbn [mbind run_bind].
  destruct (Z.eqb_spec v EMPTY) as [->|Hne].
  - right. split; [done|]. intros s row (p & Hp & Hps) Hrow <-.
    pose proof (lookup_lt_Some _ _ _ Hp).
    destruct (decide (dist n h p < dist n h pos)) as [Hlt|Hge].
    + destruct (Hseen p) as (s' & row' & Hp' & _ & Hrow' & Hne'); [done..|].
      rewrite Hp in Hp'. inv_run. apply Nat2Z.inj in Hp' as ->. congruence.
    + destruct (decide (p = pos)) as [->|Hpp]; [congruence|].
      destruct (wf_reach _ _ _ Hwf p s row pos) as (w & Hw & ?); auto; [|congruence].
      unfold home. fold n h. cyc.
  - destruct (wf_values _ _ _ Hwf pos v Hv Hne) as (s & row & -> & Hrow).
    rewrite Nat2Z.id, (index_lookup _ _ _ Hrow). cbn [mbind run_bind].
    case_decide as Ht; [left; by eauto 10|].
    assert (Hseen' : ∀ q, q < n → dist n h q < dist n h pos + 1 →
      ∃ s row, slots !! q = Some (Z.of_nat s) ∧ Z.of_nat s ≠ EMPTY ∧ rows !! s = Some row
        ∧ index_key row ≠ target).
    { intros q Hq Hd. destruct (decide (q = pos)) as [->|]; [by eauto 10|].
      apply Hseen; [done|]. cyc. }
    destruct (decide (dist n h pos + 1 = n)) as [Hfull|Hmore].
    + destruct (wf_room _ _ _ Hwf) as (e & He & _). pose proof (lookup_lt_Some _ _ _ He).
      destruct (Hseen' e) as (s' & ? & ? & ? & _); [done|cyc|]. congruence.
    + pose proof (next_spec n pos Hpos). fold n.
      apply IH; [cyc|cyc|]. intros q Hq Hd. apply Hseen'; [done|]. cyc.
Qed.

Lemma position_spec slots rows target :
  wf slots rows → is_u64 (lemire_key target) →
  (∃ p s row, position EMPTY slots target rows = Done (Some p)
     ∧ slots !! p = Some (Z.of_nat s) ∧ Z.of_nat s ≠ EMPTY ∧ rows !! s = Some row
     ∧ index_key row = target)
  ∨ (position EMPTY slots target rows = Done None
     ∧ ∀ s row, indexed slots s → rows !! s = Some row → index_key row ≠ target).
Proof.
  intros Hwf Hkey. destruct (wf_room _ _ _ Hwf) as (e & He%lookup_lt_Some & _).
  apply position_loop_spec; [done..|apply bucket_lt; [lia|done]|cyc|]. intros q ? ?. cyc.
Qed.

Lemma position_of_slot_loop_spec fuel slots rows s row pos :
  index_wf slots rows None → rows !! s = Some row →
  let n := length slots in
  let h := home n row in
  pos < n → n - dist n h pos < fuel →
  (∀ q, q < n → dist n h q < dist n h pos → occupied slots q ∧ slots !! q ≠ Some (Z.of_nat s)) →
  (∃ p, position_of_slot_loop EMPTY fuel slots s pos = Done (Some p)
     ∧ slots !! p = Some (Z.of_nat s) ∧ Z.of_nat s ≠ EMPTY)
  ∨ (position_of_slot_loop EMPTY fuel slots s pos = Done None ∧ ¬ indexed slots s).
Proof.
  intros Hwf Hrow n h. revert pos. induction fuel as [|fuel IH]; intros pos Hpos Hf Hseen; [lia|].
  assert (Hh : h < n) by (by eapply home_lt).
  cbn [position_of_slot_loop]. destruct (lookup_lt_is_Some_2 slots pos Hpos) as [v Hv].
  rewrite (index_lookup _ _ _ Hv). cbn [mbind run_bind].
  destruct (Z.eqb_spec v EMPTY) as [->|Hne].
  - right. split; [done|]. intros (p & Hp & Hps). pose proof (lookup_lt_Some _ _ _ Hp).
    destruct (decide (dist n h p < dist n h pos)) as [Hlt|Hge].
    + by destruct (Hseen p) as [_ ?].
    + destruct (decide (p = pos)) as [->|Hpp]; [congruence|].
      destruct (wf_reach _ _ _ Hwf p s row pos) as (w & Hw & ?); auto; [|congruence].
      fold n h. cyc.
  - destruct (wf_values _ _ _ Hwf pos v Hv Hne) as (s' & row' & -> & Hrow').
    rewrite Nat2Z.id. destruct (Nat.eqb_spec s' s) as [->|Hs]; [left; by eauto|].
    assert (Hseen' : ∀ q, q < n → dist n h q < dist n h pos + 1 →
      occupied slots q ∧ slots !! q ≠ Some (Z.of_nat s)).
    { intros q Hq Hd. destruct (decide (q = pos)) as [->|].
      - split; [by eexists|]. rewrite Hv. intros [= E%Nat2Z.inj]. done.
      - apply Hseen; [done|]. cyc. }
    destruct (decide (dist n h pos + 1 = n)) as [Hfull|Hmore].
    + destruct (wf_room _ _ _ Hwf) as (e & He & _). pose proof (lookup_lt_Some _ _ _ He).
      destruct (Hseen' e) as [(w & ? & ?) _]; [done|cyc|]. congruence.
    + pose proof (next_spec n pos Hpos). fold n.
      apply IH; [cyc|cyc|]. intros q Hq Hd. apply Hseen'; [done|]. cyc.
Qed.

Lemma position_of_slot_spec slots rows s :
  wf slots rows →
  (∃ p, position_of_slot EMPTY slots s rows = Done (Some p)
     ∧ slots !! p = Some (Z.of_nat s) ∧ Z.of_nat s ≠ EMPTY)
  ∨ (position_of_slot EMPTY slots s rows = Done None ∧ ¬ indexed slots s).
Proof.
  intros Hwf. unfold position_of_slot. destruct (rows !! s) as [row|] eqn:Hrow.
  - assert (Hh := home_lt _ _ _ _ _ Hwf Hrow).
    change (bucket (length slots) (lemire_key (index_key row))) with (home (length slots) row).
    apply (position_of_slot_loop_spec _ slots rows s row); [done..|cyc|]. intros q ? ?. cyc.
  - right. split; [done|]. intros (p & Hp & Hps).
    destruct (wf_values _ _ _ Hwf p _ Hp Hps) as (s' & row' & ->%Nat2Z.inj & ?). congruence.
Qed.

(** ** Insertion *)

Lemma vacant_loop_spec fuel slots pos h :
  let n := length slots in
  (∃ e, slots !! e = Some EMPTY) → h < n → pos < n → n - dist n h pos < fuel →
  (∀ q, q < n → dist n h q < dist n h pos → occupied slots q) →
  ∃ p, vacant_loop EMPTY fuel slots pos = Done p ∧ slots !! p = Some EMPTY
    ∧ ∀ q, q < n → dist n h q < dist n h p → occupied slots q.
Proof.
  intros n [e He] Hh. revert pos. induction fuel as [|fuel IH]; intros pos Hpos Hf Hseen; [lia|].
  cbn [vacant_loop]. destruct (lookup_lt_is_Some_2 slots pos Hpos) as [v Hv].
  rewrite (index_lookup _ _ _ Hv). cbn [mbind run_bind].
  destruct (Z.eqb_spec v EMPTY) as [->|Hne]; [by eauto|].
  assert (Hseen' : ∀ q, q < n → dist n h q < dist n h pos + 1 → occupied slots q).
  { intros q Hq Hd. destruct (decide (q = pos)) as [->|]; [by eexists|].
    apply Hseen; [done|]. cyc. }
  destruct (decide (dist n h pos + 1 = n)) as [Hfull|Hmore].
  - pose proof (lookup_lt_Some _ _ _ He).
    destruct (Hseen' e) as (w & ? & ?); [done|cyc|]. congruence.
  - pose proof (next_spec n pos Hpos). fold n.
    apply IH; [cyc|cyc|]. intros q Hq Hd. apply Hseen'; [done|]. cyc.
Qed.

(** Buckets in use. *)
Definition load slots : nat := length (filter (λ v, v ≠ EMPTY) slots).

Lemma room_of_load slots : load slots < length slots → ∃ e, slots !! e = Some EMPTY.
Proof.
  unfold load. intros Hl. destruct (decide (EMPTY ∈ slots)) as [Hin|Hout].
  - by apply list_elem_of_lookup.
  - assert (filter (λ v, v ≠ EMPTY) slots = slots) as E; [|rewrite E in Hl; lia].
    clear Hl. induction slots as [|v slots IH]; [done|].
    rewrite filter_cons_True by set_solver. f_equal. apply IH. set_solver.
Qed.

Lemma load_insert slots p v :
  slots !! p = Some EMPTY → v ≠ EMPTY → load (<[p := v]> slots) = S (load slots).
Proof.
  intros Hp Hv. unfold load. rewrite insert_take_drop by (by eapply lookup_lt_Some).
  rewrite <- (take_drop_middle slots p EMPTY Hp) at 3.
  rewrite !list.filter_app, !length_app, filter_cons_True, filter_cons_False by naive_solver.
  simpl. lia.
Qed.

Lemma insert_wf slots rows slot row :
  (0 ≤ EMPTY < 2 ^ width)%Z →
  wf slots rows → load slots + 1 < length slots → rows !! slot = Some row →
  (Z.of_nat slot < EMPTY)%Z → ¬ indexed slots slot →
  ∃ slots', insert EMPTY width slots slot rows = Done slots'
    ∧ length slots' = length slots ∧ load slots' = S (load slots) ∧ wf slots' rows
    ∧ ∀ s, indexed slots' s ↔ s = slot ∨ indexed slots s.
Proof.
  intros HE Hwf Hload Hrow Hslot Hnew.
  unfold insert. rewrite (index_lookup _ _ _ Hrow). cbn [mbind run_bind].
  assert (Hh := home_lt _ _ _ _ _ Hwf Hrow).
  destruct (vacant_loop_spec (S (length slots)) slots (home (length slots) row)
    (home (length slots) row)) as (p & Hp & Hpe & Hpath).
  { destruct (wf_room _ _ _ Hwf) as (e & ? & _). eauto. }
  { done. } { done. } { cyc. } { intros; cyc. }
  unfold home in Hp. rewrite Hp. cbn [mbind run_bind].
  rewrite wrap_small by (unfold in_width; lia).
  pose proof (lookup_lt_Some _ _ _ Hpe) as Hplt. rewrite store_done by done.
  assert (Hns : Z.of_nat slot ≠ EMPTY) by lia.
  exists (<[p := Z.of_nat slot]> slots). split; [done|].
  assert (Hl : load (<[p:=Z.of_nat slot]> slots) = S (load slots)) by (by apply load_insert).
  assert (Hkeep : ∀ q, occupied slots q → occupied (<[p:=Z.of_nat slot]> slots) q).
  { intros q (w & Hq & Hw'). exists w. split; [|done].
    rewrite list_lookup_insert_ne; [done|]. intros ->. congruence. }
  split; [by rewrite length_insert|]. split; [done|]. split.
  - split.
    + apply Hwf.
    + intros q v. rewrite list_lookup_insert_Some. intros [(<- & <- & _)|[_ Hq]] Hv; [by eauto|].
      by eapply wf_values.
    + intros q1 q2 v. rewrite !list_lookup_insert_Some.
      intros [(<- & <- & _)|[? H1]] [(<- & E & _)|[? H2]] Hv; try done.
      * destruct Hnew. by exists q2.
      * subst v. destruct Hnew. by exists q1.
      * by eapply wf_once.
    + intros q s row' q' Hq Hs Hrow' Hq' _ Hd. rewrite length_insert in *.
      destruct (decide (q' = p)) as [->|Hqp].
      { exists (Z.of_nat slot). by rewrite list_lookup_insert_eq. }
      apply Hkeep. rewrite list_lookup_insert_Some in Hq.
      destruct Hq as [(<- & E%Nat2Z.inj & _)|[? Hq]].
      * subst s. assert (row' = row) as -> by congruence. by apply Hpath.
      * eapply wf_reach; eauto.
    + destruct (room_of_load (<[p:=Z.of_nat slot]> slots)) as [e He];
        [rewrite Hl, length_insert; lia|]. by exists e.
  - intros s. unfold indexed. split.
    + intros (q & Hq & Hs). rewrite list_lookup_insert_Some in Hq.
      destruct Hq as [(_ & E%Nat2Z.inj & _)|[_ Hq]]; eauto.
    + intros [->|(q & Hq & Hs)].
      * exists p. by rewrite list_lookup_insert_eq.
      * exists q. rewrite list_lookup_insert_ne; [done|]. intros ->. congruence.
Qed.

Lemma new_wf n rows : 0 < n → keys_ok rows → wf (new EMPTY n) rows.
Proof.
  intros Hn Hk. unfold new. split; try done.
  - intros p v [-> _]%lookup_replicate. done.
  - intros p q v [-> _]%lookup_replicate. done.
  - intros p s row q [E _]%lookup_replicate. done.
  - exists 0. by rewrite lookup_replicate.
Qed.
(** ** Removal by backward shift *)

(** Buckets scanned since the hole: occupied, and none of their entries may move into it. *)
Definition scanned slots rows (hole scan : nat) : Prop :=
  ∀ q, q < length slots → q ≠ hole →
    dist (length slots) hole q ≤ dist (length slots) hole scan →
    ∃ s row, slots !! q = Some (Z.of_nat s) ∧ Z.of_nat s ≠ EMPTY ∧ rows !! s = Some row
      ∧ dist (length slots) (home (length slots) row) q
        ≤ dist (length slots) (home (length slots) row) hole.

(** When the scan reaches an empty bucket, no entry misses the hole. *)
Lemma scan_end slots rows hole scan e :
  index_wf slots rows (Some hole) → slots !! hole = Some EMPTY → hole < length slots →
  scan < length slots → scanned slots rows hole scan →
  e = next (length slots) scan → slots !! e = Some EMPTY → e ≠ hole →
  wf slots rows.
Proof.
  intros Hwf Hhole Hlt Hscan Hseen -> He Heh. set (n := length slots) in *.
  pose proof (next_spec n scan Hscan) as Hnext.
  split; [by apply Hwf|eapply wf_values, Hwf|eapply wf_once, Hwf| |].
  2:{ destruct (wf_room _ _ _ Hwf) as (e' & ? & _). by exists e'. }
  intros p s row q Hp Hs Hrow Hq _ Hd. fold n in Hq, Hd.
  destruct (decide (q = hole)) as [->|Hqh]; [|eapply wf_reach; eauto; congruence].
  assert (Hh := home_lt _ _ _ _ _ Hwf Hrow). fold n in Hh.
  pose proof (lookup_lt_Some _ _ _ Hp) as Hpn. fold n in Hpn.
  assert (p ≠ hole) by congruence.
  destruct (decide (dist n hole p ≤ dist n hole scan)) as [Hle|Hgt].
  - destruct (Hseen p) as (s' & row' & Hp' & _ & Hrow' & Hd'); [done..|].
    rewrite Hp in Hp'. inv_run. apply Nat2Z.inj in Hp' as ->.
    assert (row' = row) as -> by congruence. fold n in Hd'. lia.
  - assert (p ≠ next n scan) by congruence.
    destruct (wf_reach _ _ _ Hwf p s row (next n scan)) as (w & Hw & ?); try done.
    + fold n. lia.
    + congruence.
    + fold n. pose proof (dist_next n hole scan Hlt Hscan Heh).
      apply (dist_between n _ hole); [done..|lia|done|].
      destruct (decide (dist n hole p = dist n hole (next n scan))) as [E|]; [|lia].
      apply dist_inj in E; [done..|lia].
    + congruence.
Qed.

(** Moving the entry of [scan] into the hole makes [scan] the hole. *)
Lemma shift_entry_wf slots rows hole scan s row e :
  let n := length slots in
  let slots2 := <[scan := EMPTY]> (<[hole := Z.of_nat s]> slots) in
  index_wf slots rows (Some hole) → slots !! hole = Some EMPTY →
  slots !! scan = Some (Z.of_nat s) → Z.of_nat s ≠ EMPTY → rows !! s = Some row → scan ≠ hole →
  dist n (home n row) hole < dist n (home n row) scan →
  slots !! e = Some EMPTY → e ≠ hole →
  index_wf slots2 rows (Some scan) ∧ length slots2 = n
  ∧ ∀ x, indexed slots2 x ↔ indexed slots x.
Proof.
  intros n slots2 Hwf Hhole Hs Hne Hrow Hsh Hmove He Heh.
  assert (Hlen : length slots2 = n) by (unfold slots2; by rewrite !length_insert).
  pose proof (lookup_lt_Some _ _ _ Hhole) as Hholen.
  (* where an entry of the new table was before *)
  assert (Hback : ∀ p v, slots2 !! p = Some v → v ≠ EMPTY →
    p ≠ scan ∧ ((p = hole ∧ v = Z.of_nat s) ∨ (p ≠ hole ∧ slots !! p = Some v))).
  { intros p v. unfold slots2. rewrite !list_lookup_insert_Some.
    intros [(_ & E & _)|[Hps [(<- & <- & _)|[Hph Hp]]]] Hv; [by destruct Hv|by auto..]. }
  assert (Hkeep : ∀ p v, slots !! p = Some v → p ≠ scan → p ≠ hole → slots2 !! p = Some v).
  { intros. unfold slots2. rewrite !list_lookup_insert_ne by done. done. }
  assert (Hfill : slots2 !! hole = Some (Z.of_nat s)).
  { unfold slots2. rewrite list_lookup_insert_ne, list_lookup_insert_eq by done. done. }
  split; [split|split; [done|]].
  - apply Hwf.
  - intros p v Hp Hv. destruct (Hback p v Hp Hv) as [_ [[_ ->]|[_ Hp']]]; [by eauto|].
    by eapply wf_values.
  - intros p q v Hp Hq Hv. destruct (Hback p v Hp Hv) as [? [[-> ->]|[? Hp']]],
      (Hback q _ Hq Hv) as [? [[-> E]|[? Hq']]]; try done.
    + by destruct (wf_once _ _ _ Hwf q scan (Z.of_nat s) Hq' Hs Hv).
    + subst v. by destruct (wf_once _ _ _ Hwf p scan (Z.of_nat s) Hp' Hs Hv).
    + by eapply wf_once.
  - intros p x row' q Hp Hx Hrow' Hq Hqs Hd. rewrite Hlen in *.
    destruct (decide (q = hole)) as [->|Hqh]; [by eexists|].
    assert (Hocc : occupied slots q).
    { destruct (Hback p _ Hp Hx) as [_ [[-> E%Nat2Z.inj]|[_ Hp']]].
      - subst x. assert (row' = row) as -> by congruence.
        apply (wf_reach _ _ _ Hwf scan s row q); auto; [congruence|]. fold n. lia.
      - apply (wf_reach _ _ _ Hwf p x row' q); auto. congruence. }
    destruct Hocc as (w & Hw & ?). exists w. split; [|done]. apply Hkeep; congruence.
  - exists e. split; [|congruence]. apply Hkeep; congruence.
  - intros x. split.
    + intros (p & Hp & Hx). destruct (Hback p _ Hp Hx) as [_ [[_ E%Nat2Z.inj]|[_ Hp']]].
      * subst x. by exists scan.
      * by exists p.
    + intros (p & Hp & Hx). destruct (decide (p = scan)) as [->|Hps].
      * assert (x = s) as -> by (apply Nat2Z.inj; congruence). by exists hole.
      * exists p. split; [|done]. apply Hkeep; congruence.
Qed.

Lemma scanned_self slots rows hole : hole < length slots → scanned slots rows hole hole.
Proof.
  intros Hh q Hq Hqh Hd. destruct Hqh. apply (dist_inj (length slots) hole); [done..|]. cyc.
Qed.

Lemma remove_loop_spec fuel slots rows hole scan e :
  index_wf slots rows (Some hole) → slots !! hole = Some EMPTY →
  scan < length slots → scanned slots rows hole scan →
  slots !! e = Some EMPTY → e ≠ hole →
  dist (length slots) hole scan < dist (length slots) hole e →
  dist (length slots) hole e - dist (length slots) hole scan < fuel →
  ∃ slots', remove_loop EMPTY fuel slots rows hole scan = Done slots'
    ∧ length slots' = length slots ∧ wf slots' rows
    ∧ ∀ s, indexed slots' s ↔ indexed slots s.
Proof.
  revert slots hole scan.
  induction fuel as [|fuel IH]; intros slots hole scan Hwf Hhole Hscan Hseen He Heh Hlt Hf; [lia|].
  set (n := length slots) in *.
  pose proof (lookup_lt_Some _ _ _ Hhole) as Hholen. fold n in Hholen.
  pose proof (lookup_lt_Some _ _ _ He) as Hen. fold n in Hen.
  pose proof (next_spec n scan Hscan) as Hnext.
  cbn [remove_loop]. fold n. set (scan' := next n scan) in *.
  destruct (lookup_lt_is_Some_2 slots scan') as [v Hv]; [fold n; lia|].
  rewrite (index_lookup _ _ _ Hv). cbn [mbind run_bind].
  assert (Hsh : scan' ≠ hole).
  { intros E. assert (dist n hole scan + 1 = n) by (unfold scan' in E; cyc). cyc. }
  destruct (Z.eqb_spec v EMPTY) as [->|Hne].
  { exists slots. split; [done|]. split; [done|]. split; [|done].
    exact (scan_end slots rows hole scan scan' Hwf Hhole Hholen Hscan Hseen eq_refl Hv Hsh). }
  assert (Hes : e ≠ scan') by congruence.
  assert (Hd1 : dist n hole scan' = dist n hole scan + 1) by (by apply dist_next).
  assert (Hlt' : dist n hole scan' < dist n hole e).
  { destruct (decide (dist n hole e = dist n hole scan')) as [E|]; [|lia].
    apply dist_inj in E; [done..|lia]. }
  destruct (wf_values _ _ _ Hwf scan' v Hv Hne) as (s & row & -> & Hrow).
  rewrite Nat2Z.id, (index_lookup _ _ _ Hrow). cbn [mbind run_bind].
  fold (home n row). assert (Hh := home_lt _ _ _ _ _ Hwf Hrow). fold n in Hh.
  rewrite (blocks_move_spec n) by (done || lia).
  destruct (Nat.ltb_spec (dist n (home n row) hole) (dist n (home n row) scan')) as [Hmove|Hstay];
    cbn [negb].
  - destruct (shift_entry_wf slots rows hole scan' s row e) as (Hwf2 & Hlen2 & Hidx); try done.
    rewrite store_done by done. cbn [mbind run_bind].
    rewrite store_done by (rewrite length_insert; fold n; lia). cbn [mbind run_bind].
    set (slots2 := <[scan' := EMPTY]> (<[hole := Z.of_nat s]> slots)) in *.
    assert (Hs2 : slots2 !! scan' = Some EMPTY).
    { unfold slots2. rewrite list_lookup_insert_eq; [done|]. rewrite length_insert. fold n; lia. }
    assert (He2 : slots2 !! e = Some EMPTY).
    { unfold slots2. rewrite !list_lookup_insert_ne by congruence. exact He. }
    assert (Hs'n : scan' < n) by lia.
    destruct (dist_rebase n hole scan' e Hholen Hs'n Hen Hlt') as [Hself Hreb].
    fold n in Hlen2. clearbody slots2 scan'.
    destruct (IH slots2 scan' scan' Hwf2 Hs2) as (slots' & E' & Hlen' & Hwf' & Hidx');
      [rewrite Hlen2; exact Hs'n | by apply scanned_self; rewrite ?Hlen2 | exact He2
      | exact Hes | rewrite Hlen2, Hself; lia | rewrite Hlen2, Hself; lia |].
    exists slots'. split; [exact E'|]. split; [rewrite Hlen'; exact Hlen2|]. split; [exact Hwf'|].
    intros x. by rewrite Hidx', Hidx.
  - apply IH; try done; fold n; [lia| |lia].
    intros q Hq Hqh Hd. fold n in Hq, Hd |- *.
    destruct (decide (q = scan')) as [->|Hqs]; [by eauto 10|]. apply Hseen; [done..|]. fold n.
    destruct (decide (dist n hole q = dist n hole scan')) as [E|]; [|lia].
    apply dist_inj in E; [done..|lia].
Qed.

(** Emptying the bucket of row [x] leaves a hole that backward shifting closes. *)
Lemma remove_position_spec slots rows hole x :
  wf slots rows → slots !! hole = Some (Z.of_nat x) → Z.of_nat x ≠ EMPTY →
  ∃ slots', remove_position EMPTY slots hole rows = Done slots'
    ∧ length slots' = length slots ∧ wf slots' rows
    ∧ ∀ s, indexed slots' s ↔ s ≠ x ∧ indexed slots s.
Proof.
  intros Hwf Hx Hne. pose proof (lookup_lt_Some _ _ _ Hx) as Hlt.
  destruct (wf_room _ _ _ Hwf) as (e & He & _).
  assert (Heh : e ≠ hole) by congruence.
  pose proof (lookup_lt_Some _ _ _ He) as Hen.
  unfold remove_position. rewrite store_done by done. cbn [mbind run_bind].
  set (slots1 := <[hole := EMPTY]> slots).
  assert (Hlen : length slots1 = length slots) by (unfold slots1; by rewrite length_insert).
  assert (Hback : ∀ p v, slots1 !! p = Some v → v ≠ EMPTY → p ≠ hole ∧ slots !! p = Some v).
  { intros p v. unfold slots1. rewrite list_lookup_insert_Some.
    intros [(_ & <- & _)|[? ?]] ?; [done|]. by split. }
  assert (Hkeep : ∀ p, p ≠ hole → slots1 !! p = slots !! p).
  { intros p ?. unfold slots1. by rewrite list_lookup_insert_ne. }
  assert (Hwf1 : index_wf slots1 rows (Some hole)).
  { split.
    - apply Hwf.
    - intros p v Hp Hv. destruct (Hback p v Hp Hv). by eapply wf_values.
    - intros p q v Hp Hq Hv. destruct (Hback p v Hp Hv), (Hback q v Hq Hv).
      by eapply (wf_once _ _ _ Hwf).
    - intros p s row q Hp Hs Hrow Hq Hqh Hd. rewrite Hlen in *.
      destruct (Hback p _ Hp Hs) as [_ Hp'].
      destruct (wf_reach _ _ _ Hwf p s row q) as (w & Hw & ?); try done.
      exists w. rewrite Hkeep by congruence. done.
    - exists e. rewrite Hkeep by done. split; [done|congruence]. }
  assert (Hself : dist (length slots1) hole hole = 0) by cyc.
  assert (Hpos : 0 < dist (length slots1) hole e ≤ length slots1) by (rewrite Hlen; cyc).
  destruct (remove_loop_spec (S (length slots1)) slots1 rows hole hole e)
    as (slots' & E' & Hlen' & Hwf' & Hidx); try lia; try done.
  - unfold slots1. by rewrite list_lookup_insert_eq.
  - apply scanned_self. by rewrite Hlen.
  - by rewrite Hkeep.
  - exists slots'. split; [done|]. split; [congruence|]. split; [done|]. intros s. rewrite Hidx.
    split.
    + intros (p & Hp & Hs). destruct (Hback p _ Hp Hs) as [Hph Hp']. split; [|by exists p].
      intros ->. destruct Hph. by eapply (wf_once _ _ _ Hwf).
    + intros [Hsx (p & Hp & Hs)]. exists p. split; [|done]. rewrite Hkeep; [done|].
      intros ->. destruct Hsx. apply Nat2Z.inj. congruence.
Qed.

Lemma remove_slot_spec slots rows x :
  wf slots rows →
  ∃ slots', remove_slot EMPTY slots x rows = Done slots'
    ∧ length slots' = length slots ∧ wf slots' rows
    ∧ ∀ s, indexed slots' s ↔ s ≠ x ∧ indexed slots s.
Proof.
  intros Hwf. unfold remove_slot.
  destruct (position_of_slot_spec slots rows x Hwf) as [(p & -> & Hp & Hne)|[-> Hnot]];
    cbn [mbind run_bind].
  - by apply remove_position_spec.
  - exists slots. split; [done|]. split; [done|]. split; [done|]. intros s. split; [|tauto].
    intros Hs. split; [|done]. by intros ->.
Qed.

(** ** Changing the rows under the index *)

(** The index depends on the indexed rows only. *)
Lemma wf_rows_ext slots rows rows' :
  wf slots rows → keys_ok rows' →
  (∀ s row, indexed slots s → rows !! s = Some row →
     ∃ row', rows' !! s = Some row' ∧ index_key row' = index_key row) →
  wf slots rows'.
Proof.
  intros Hwf Hk Hsame. split; [done| |apply Hwf| |apply Hwf].
  - intros p v Hp Hv. destruct (wf_values _ _ _ Hwf p v Hp Hv) as (s & row & -> & Hrow).
    destruct (Hsame s row) as (row' & ? & _); [by exists p|done|]. eauto.
  - intros p s row' q Hp Hs Hrow' Hq _ Hd.
    destruct (wf_values _ _ _ Hwf p _ Hp Hs) as (s' & row & <-%Nat2Z.inj & Hrow).
    destruct (Hsame s row) as (row2 & Hrow2 & Hkey); [by exists p|done|].
    assert (row2 = row') as -> by congruence.
    apply (wf_reach _ _ _ Hwf p s row q); try done. unfold home in *. by rewrite <- Hkey.
Qed.

(** Storing row number [y] in the bucket of row [x], for a row moved from [x] to [y]. *)
Lemma repoint_wf slots rows rows' pos x y row row' :
  wf slots rows → keys_ok rows' →
  slots !! pos = Some (Z.of_nat x) → Z.of_nat x ≠ EMPTY → (Z.of_nat y < EMPTY)%Z →
  ¬ indexed slots y → rows !! x = Some row → rows' !! y = Some row' →
  index_key row' = index_key row →
  (∀ s row, indexed slots s → s ≠ x → rows !! s = Some row → rows' !! s = Some row) →
  wf (<[pos := Z.of_nat y]> slots) rows'
  ∧ ∀ s, indexed (<[pos := Z.of_nat y]> slots) s ↔ s = y ∨ (s ≠ x ∧ indexed slots s).
Proof.
  intros Hwf Hk Hpos Hx Hy Hnew Hrow Hrow' Hkey Hsame.
  pose proof (lookup_lt_Some _ _ _ Hpos) as Hlt. assert (Hye : Z.of_nat y ≠ EMPTY) by lia.
  set (slots1 := <[pos := Z.of_nat y]> slots).
  assert (Hback : ∀ p v, slots1 !! p = Some v → v ≠ EMPTY →
    (p = pos ∧ v = Z.of_nat y) ∨ (p ≠ pos ∧ slots !! p = Some v)).
  { intros p v. unfold slots1. rewrite list_lookup_insert_Some.
    intros [(<- & <- & _)|[? ?]] _; auto. }
  assert (Hkeep : ∀ p, p ≠ pos → slots1 !! p = slots !! p).
  { intros p ?. unfold slots1. by rewrite list_lookup_insert_ne. }
  assert (Hat : slots1 !! pos = Some (Z.of_nat y)).
  { unfold slots1. by rewrite list_lookup_insert_eq. }
  assert (Hother : ∀ p s, p ≠ pos → slots !! p = Some (Z.of_nat s) → Z.of_nat s ≠ EMPTY → s ≠ x).
  { intros p s Hp Hs Hs' ->. destruct Hp. by eapply (wf_once _ _ _ Hwf). }
  split; [split|].
  - done.
  - intros p v Hp Hv. destruct (Hback p v Hp Hv) as [[-> ->]|[Hpp Hp']]; [by eauto|].
    destruct (wf_values _ _ _ Hwf p v Hp' Hv) as (s & r & -> & Hr).
    exists s, r. split; [done|]. apply Hsame; [by exists p|by eapply Hother|done].
  - intros p q v Hp Hq Hv. destruct (Hback p v Hp Hv) as [[-> ->]|[? Hp']],
      (Hback q _ Hq Hv) as [[-> E]|[? Hq']]; try done.
    + destruct Hnew. by exists q.
    + subst v. destruct Hnew. by exists p.
    + by eapply (wf_once _ _ _ Hwf).
  - intros p s r q Hp Hs Hr Hq _ Hd. unfold slots1 in Hq, Hd. rewrite length_insert in *.
    assert (Hocc : occupied slots q).
    { destruct (Hback p _ Hp Hs) as [[-> ->%Nat2Z.inj]|[Hpp Hp']].
      - assert (r = row') as -> by congruence.
        apply (wf_reach _ _ _ Hwf pos x row q); try done. unfold home in *. by rewrite <- Hkey.
      - destruct (wf_values _ _ _ Hwf p _ Hp' Hs) as (s' & r' & <-%Nat2Z.inj & Hr').
        assert (r = r') as ->.
        { pose proof (Hsame s r' ltac:(by exists p) ltac:(by eapply Hother) Hr'). congruence. }
        by apply (wf_reach _ _ _ Hwf p s r' q). }
    destruct Hocc as (w & Hw & ?). destruct (decide (q = pos)) as [->|Hqp]; [by eexists|].
    exists w. by rewrite Hkeep.
  - destruct (wf_room _ _ _ Hwf) as (e & He & _). exists e.
    rewrite Hkeep by congruence. done.
  - intros s. split.
    + intros (p & Hp & Hs). destruct (Hback p _ Hp Hs) as [[-> ->%Nat2Z.inj]|[Hpp Hp']]; [by left|].
      right. split; [by eapply Hother|by exists p].
    + intros [->|[Hsx (p & Hp & Hs)]]; [by exists pos|].
      exists p. rewrite Hkeep; [done|]. intros ->. destruct Hsx. apply Nat2Z.inj. congruence.
Qed.

(** ** Bounding the load *)

Lemma load_bound slots rows n :
  wf slots rows → (∀ s, indexed slots s → s < n) → load slots ≤ n.
Proof.
  intros Hwf Hn. rewrite <- (length_seq n 0), <- (length_fmap Z.of_nat (seq 0 n)).
  apply submseteq_length, NoDup_submseteq.
  - pose proof (wf_once _ _ _ Hwf) as Honce. clear Hwf Hn. induction slots as [|v slots IH].
    { constructor. }
    assert (NoDup (filter (λ v, v ≠ EMPTY) slots)) as IH'.
    { apply IH. intros p q w Hp Hq Hw. pose proof (Honce (S p) (S q) w Hp Hq Hw). lia. }
    rewrite filter_cons. case_decide; [|done]. constructor; [|done].
    intros [_ Hin]%list_elem_of_filter. apply list_elem_of_lookup in Hin as [q Hq].
    by pose proof (Honce 0 (S q) v eq_refl Hq ltac:(done)).
  - intros v [Hv Hin]%list_elem_of_filter. apply list_elem_of_lookup in Hin as [p Hp].
    destruct (wf_values _ _ _ Hwf p v Hp Hv) as (s & row & -> & _).
    apply list_elem_of_fmap. exists s. split; [done|]. apply elem_of_seq.
    assert (s < n) by (apply Hn; by exists p). lia.
Qed.
End invariant.

(** * The index as its clients use it: it holds exactly the first [n] rows *)

Section represents.
Context {R K : Type} `{IndexRow R K} (EMPTY : Z) (width : Z).
Implicit Types (slots : list Z) (rows : list R).

Definition represents slots rows (n : nat) : Prop :=
  wf EMPTY slots rows ∧ ∀ s, indexed EMPTY slots s ↔ s < n.

(** Row [i] is the row of [target] among the first [n]. *)
Definition row_of rows (n : nat) (target : K) (i : nat) : Prop :=
  i < n ∧ ∃ row, rows !! i = Some row ∧ index_key row = target.

Definition distinct_keys rows (n : nat) : Prop :=
  ∀ target i j, row_of rows n target i → row_of rows n target j → i = j.

Lemma represents_load slots rows n : represents slots rows n → load EMPTY slots ≤ n.
Proof. intros [Hwf Hidx]. apply (load_bound _ _ rows); [done|]. intros s ?. by apply Hidx. Qed.

Lemma represents_row slots rows n i :
  represents slots rows n → i < n → ∃ row, rows !! i = Some row.
Proof.
  intros [Hwf Hidx] Hi. apply Hidx in Hi as (p & Hp & Hne).
  destruct (wf_values _ _ _ _ Hwf p _ Hp Hne) as (s & row & ->%Nat2Z.inj & ?). eauto.
Qed.

(** A probe ends, without a panic, at the row of the key or at none. *)
Lemma represents_position slots rows n target :
  represents slots rows n → is_u64 (lemire_key target) →
  (∃ p i, position EMPTY slots target rows = Done (Some p)
     ∧ slots !! p = Some (Z.of_nat i) ∧ Z.of_nat i ≠ EMPTY ∧ row_of rows n target i)
  ∨ (position EMPTY slots target rows = Done None ∧ ∀ i, ¬ row_of rows n target i).
Proof.
  intros [Hwf Hidx] Hk.
  destruct (position_spec EMPTY slots rows target Hwf Hk)
    as [(p & s & row & -> & Hp & Hne & Hrow & Hkey)|[-> Hnone]].
  - left. exists p, s. repeat (split; [done|]). split; [apply Hidx; by exists p|by eauto].
  - right. split; [done|]. intros i (Hi & row & Hrow & Hkey). by eapply Hnone, Hkey; [apply Hidx|].
Qed.

Lemma represents_get slots rows n target :
  represents slots rows n → is_u64 (lemire_key target) →
  ∃ r, get EMPTY slots target rows = Done r
    ∧ match r with
      | Some i => row_of rows n target i
      | None => ∀ i, ¬ row_of rows n target i
      end.
Proof.
  intros Hrep Hk. unfold get.
  destruct (represents_position slots rows n target Hrep Hk)
    as [(p & s & -> & Hp & Hne & Hrow)|[-> Hnone]]; cbn [mbind run_bind]; [|by exists None].
  rewrite (index_lookup _ _ _ Hp). cbn [mbind run_bind]. exists (Some s).
  by rewrite Nat2Z.id.
Qed.

Lemma represents_contains slots rows n target :
  represents slots rows n → is_u64 (lemire_key target) →
  ∃ b, contains EMPTY slots target rows = Done b ∧ (b = true ↔ ∃ i, row_of rows n target i).
Proof.
  intros Hrep Hk. unfold contains.
  destruct (represents_position slots rows n target Hrep Hk)
    as [(p & s & -> & Hp & Hne & Hrow)|[-> Hnone]]; cbn [mbind run_bind].
  - exists true. split; [done|]. split; by eauto.
  - exists false. split; [done|]. split; [done|]. intros [i ?]. by destruct (Hnone i).
Qed.

(** Row [n] is written, then indexed. *)
Lemma represents_push slots rows rows' n row :
  (0 ≤ EMPTY < 2 ^ width)%Z → (Z.of_nat n < EMPTY)%Z → n + 1 < length slots →
  represents slots rows n → keys_ok rows' →
  (∀ i, i < n → rows' !! i = rows !! i) → rows' !! n = Some row →
  ∃ slots', insert EMPTY width slots n rows' = Done slots'
    ∧ length slots' = length slots ∧ represents slots' rows' (S n).
Proof.
  intros HE Hn Hroom Hrep Hk Hsame Hrow. pose proof (represents_load _ _ _ Hrep) as Hload.
  destruct Hrep as [Hwf Hidx].
  assert (Hwf' : wf EMPTY slots rows').
  { apply (wf_rows_ext _ _ rows); [done..|]. intros s r Hs%Hidx Hr.
    exists r. by rewrite Hsame. }
  destruct (insert_wf EMPTY width slots rows' n row) as (slots' & -> & Hlen & _ & Hwf2 & Hidx2);
    [done|done|lia|done|done|rewrite Hidx; lia|].
  exists slots'. split; [done|]. split; [done|]. split; [done|].
  intros s. rewrite Hidx2, Hidx. lia.
Qed.

(** Row [i] is removed by moving the last row into its place. *)
Lemma represents_swap slots rows rows' n i :
  (Z.of_nat n < EMPTY)%Z → represents slots rows (S n) → i < n → keys_ok rows' →
  (∀ j, j < n → j ≠ i → rows' !! j = rows !! j) → rows' !! i = rows !! n →
  ∀ slots1, remove_slot EMPTY slots i rows = Done slots1 →
  ∃ pos, position_of_slot EMPTY slots1 n rows = Done (Some pos) ∧ pos < length slots1
    ∧ represents (<[pos := Z.of_nat i]> slots1) rows' n.
Proof.
  intros Hn [Hwf Hidx] Hi Hk Hsame Hmoved slots1 Hrm.
  destruct (remove_slot_spec EMPTY slots rows i Hwf) as (slots2 & E & Hlen & Hwf2 & Hidx2).
  rewrite Hrm in E. injection E as <-.
  destruct (position_of_slot_spec EMPTY slots1 rows n Hwf2)
    as [(pos & -> & Hpos & Hne)|[_ Hnot]]; [|destruct Hnot; apply Hidx2; rewrite Hidx; lia].
  exists pos. split; [done|]. split; [by eapply lookup_lt_Some|].
  destruct (wf_values _ _ _ _ Hwf2 pos _ Hpos Hne) as (n' & row & <-%Nat2Z.inj & Hrow).
  destruct (repoint_wf EMPTY slots1 rows rows' pos n i row row) as [Hwf3 Hidx3]; auto.
  - lia.
  - rewrite Hidx2. tauto.
  - congruence.
  - intros s r [Hs1 Hs2%Hidx]%Hidx2 Hs Hr. rewrite Hsame by lia. done.
  - split; [done|]. intros s. rewrite Hidx3, Hidx2, Hidx. lia.
Qed.

(** Removing the last row. *)
Lemma represents_pop slots rows rows' n :
  represents slots rows (S n) → keys_ok rows' → (∀ j, j < n → rows' !! j = rows !! j) →
  ∃ slots', remove_slot EMPTY slots n rows = Done slots'
    ∧ length slots' = length slots ∧ represents slots' rows' n.
Proof.
  intros [Hwf Hidx] Hk Hsame.
  destruct (remove_slot_spec EMPTY slots rows n Hwf) as (slots' & -> & Hlen & Hwf' & Hidx').
  exists slots'. split; [done|]. split; [done|].
  assert (Hn : ∀ s, indexed EMPTY slots' s ↔ s < n) by (intros s; rewrite Hidx', Hidx; lia).
  split; [|done]. apply (wf_rows_ext _ _ rows); [done..|]. intros s r Hs%Hn Hr.
  exists r. by rewrite Hsame.
Qed.

(** ** Removal by key, as the route tables do it *)

(** While keys are distinct, probing for a row's key and probing for its number meet. *)
Lemma position_of_row slots rows i row :
  wf EMPTY slots rows → unique_keys EMPTY slots rows → indexed EMPTY slots i → rows !! i = Some row →
  position EMPTY slots (index_key row) rows = position_of_slot EMPTY slots i rows.
Proof.
  intros Hwf Hu Hi Hrow.
  assert (Hk : is_u64 (lemire_key (index_key row))).
  { exact (Forall_lookup_1 _ _ _ _ (wf_keys _ _ _ _ Hwf) Hrow). }
  destruct (position_spec EMPTY slots rows (index_key row) Hwf Hk)
    as [(p & s & row' & -> & Hp & Hne & Hrow' & Hkey)|[_ Hnone]]; [|by destruct (Hnone i row)].
  destruct (position_of_slot_spec EMPTY slots rows i Hwf) as [(q & -> & Hq & Hqe)|[_ Hn]]; [|done].
  assert (s = i) as -> by (apply (Hu s i row' row); [by exists p|done..]).
  by rewrite (wf_once _ _ _ _ Hwf p q _ Hp Hq Hqe).
Qed.

Lemma represents_unique slots rows n :
  represents slots rows n → distinct_keys rows n → unique_keys EMPTY slots rows.
Proof.
  intros [_ Hidx] Hd s s' row row' Hs%Hidx Hs'%Hidx Hrow Hrow' E.
  apply (Hd (index_key row)); (split; [done|]); eauto.
Qed.

(** [remove(&keys[i])], then [repoint(&keys[last], i)] unless the last row is the removed one. *)
Lemma represents_swap_remove slots rows rows' n i ri rn :
  (Z.of_nat n < EMPTY < 2 ^ width)%Z → represents slots rows (S n) → distinct_keys rows (S n) →
  i ≤ n → rows !! i = Some ri → rows !! n = Some rn → keys_ok rows' →
  (∀ j, j < n → j ≠ i → rows' !! j = rows !! j) → (i < n → rows' !! i = rows !! n) →
  ∃ slots1 slots2, remove EMPTY slots (index_key ri) rows = Done slots1
    ∧ (if (i =? n)%nat then Done slots1 else repoint EMPTY width slots1 (index_key rn) i rows) = Done slots2
    ∧ length slots2 = length slots ∧ represents slots2 rows' n.
Proof.
  intros HE Hrep Hd Hin Hri Hrn Hk Hsame Hmoved. pose proof (represents_unique _ _ _ Hrep Hd) as Hu.
  pose proof Hrep as [Hwf Hidx]. unfold remove.
  rewrite (position_of_row slots rows i ri Hwf Hu) by (done || (apply Hidx; lia)).
  fold (remove_slot EMPTY slots i rows).
  destruct (remove_slot_spec EMPTY slots rows i Hwf) as (slots1 & E1 & Hlen & Hwf1 & Hidx1).
  exists slots1. destruct (Nat.eqb_spec i n) as [->|Hne].
  - destruct (represents_pop slots rows rows' n Hrep Hk) as (slots' & E' & Hlen' & Hrep').
    { intros j Hj. apply Hsame; lia. }
    rewrite E' in E1. injection E1 as <-. by exists slots'.
  - destruct (represents_swap slots rows rows' n i) with (slots1 := slots1)
      as (pos & E2 & Hpos & Hrep'); try done; [lia..|by apply Hmoved; lia|].
    assert (Hu1 : unique_keys EMPTY slots1 rows).
    { intros s s' row row' [_ Hs]%Hidx1 [_ Hs']%Hidx1. by apply Hu. }
    eexists. split; [done|]. unfold repoint.
    rewrite (position_of_row slots1 rows n rn Hwf1 Hu1) by (done || (apply Hidx1; rewrite Hidx; lia)).
    rewrite E2. cbn [mbind run_bind]. rewrite store_done, wrap_small by (done || (unfold in_width; lia)).
    split; [done|]. by rewrite length_insert.
Qed.

Lemma represents_new n rows : 0 < n → keys_ok rows → represents (new EMPTY n) rows 0.
Proof.
  intros Hn Hk. split; [by apply new_wf|]. intros s. split; [|lia].
  by intros (p & [E _]%lookup_replicate & ?).
Qed.

Lemma clear_new slots : clear EMPTY slots = new EMPTY (length slots).
Proof. done. Qed.

Lemma remove_spec slots rows target :
  wf EMPTY slots rows → unique_keys EMPTY slots rows → is_u64 (lemire_key target) →
  ∃ slots', remove EMPTY slots target rows = Done slots'
    ∧ length slots' = length slots ∧ wf EMPTY slots' rows
    ∧ ∀ s row, rows !! s = Some row →
        indexed EMPTY slots' s ↔ index_key row ≠ target ∧ indexed EMPTY slots s.
Proof.
  intros Hwf Huniq Hk. unfold remove.
  destruct (position_spec EMPTY slots rows target Hwf Hk)
    as [(p & s & row & -> & Hp & Hne & Hrow & Hkey)|[-> Hnone]]; cbn [mbind run_bind].
  - destruct (remove_position_spec EMPTY slots rows p s Hwf Hp Hne)
      as (slots' & -> & Hlen & Hwf' & Hidx).
    exists slots'. split; [done|]. split; [done|]. split; [done|].
    intros s' row' Hrow'. rewrite Hidx. assert (Hs : indexed EMPTY slots s) by (by exists p).
    split; intros [Hne' Hs']; split; try done.
    + intros Hk'. destruct Hne'. apply (Huniq s' s row' row); congruence.
    + intros ->. congruence.
  - exists slots. split; [done|]. split; [done|]. split; [done|].
    intros s row Hrow. split; [|tauto]. intros Hs. split; [|done]. by eapply Hnone.
Qed.
End represents.

(** * The fixed table: [impls/fixed.rs] *)

Module Fixed.
(** [slots: [u16; BUCKETS]], [u16::MAX] marking an empty bucket. *)
Definition EMPTY : Z := u16_max.
Definition WIDTH : Z := 16.
End Fixed.

(** * The growing table: [impls/heap.rs] *)

Module Heap.
Definition EMPTY : Z := u32_max.
Definition MIN_BUCKETS : nat := 8.
Definition MAX_ROWS : Z := EMPTY.

Section heap.
Context {R K : Type} `{IndexRow R K}.
Implicit Types (slots : list Z) (rows : list R).

Definition default : list Z := replicate MIN_BUCKETS EMPTY.

Inductive ProbePosition := Occupied (position : nat) | Vacant.

Fixpoint probe_loop (fuel : nat) slots rows (target : K) (pos : nat) : run ProbePosition :=
  match fuel with
  | O => OutOfFuel
  | S fuel =>
      slot ← index slots pos;
      if (slot =? EMPTY)%Z then Done Vacant else
      row ← index rows (Z.to_nat slot);
      if decide (index_key row = target) then Done (Occupied pos)
      else probe_loop fuel slots rows target (next (length slots) pos)
  end.

Definition probe slots (target : K) rows : run ProbePosition :=
  probe_loop (S (length slots)) slots rows target (bucket (length slots) (lemire_key target)).

Definition heap_position slots (target : K) rows : run (option nat) :=
  found ← probe slots target rows;
  Done (match found with Occupied position => Some position | Vacant => None end).

Definition heap_get slots (target : K) rows : run (option nat) :=
  found ← heap_position slots target rows;
  match found with
  | None => Done None
  | Some pos => slot ← index slots pos; Done (Some (Z.to_nat slot))
  end.

(** [place] *)
Definition place slots (slot : nat) rows : run (list Z) := insert EMPTY 32 slots slot rows.

(** The bucket count of [rebuild]: doubled until the rows fit.  65 rounds reach
    [usize::MAX] from any count, where the loop stops. *)
Fixpoint grow_loop (fuel : nat) (entries buckets : Z) : run Z :=
  match fuel with
  | O => OutOfFuel
  | S fuel =>
      if exceeds_two_thirds_load entries buckets then
        let grown := saturating_mul 64 buckets 2 in
        if (grown =? buckets)%Z then Done buckets
        else grow_loop fuel entries grown
      else Done buckets
  end.

(** [for slot in 0..rows.len() { self.place(slot, rows) }] *)
Fixpoint place_from (todo : nat) slots (slot : nat) rows : run (list Z) :=
  match todo with
  | O => Done slots
  | S todo => slots ← place slots slot rows; place_from todo slots (S slot) rows
  end.

Definition rebuild slots rows : run (list Z) :=
  buckets ← grow_loop 65 (Z.of_nat (length rows)) (Z.of_nat (length slots `max` MIN_BUCKETS));
  place_from (length rows) (replicate (Z.to_nat buckets) EMPTY) 0 rows.

Definition heap_insert slots (slot : nat) rows : run (list Z) :=
  if exceeds_two_thirds_load (Z.of_nat (length rows)) (Z.of_nat (length slots))
  then rebuild slots rows
  else place slots slot rows.

Definition heap_remove_slot slots (slot : nat) rows : run (list Z) :=
  remove_slot EMPTY slots slot rows.
Definition heap_repoint_slot slots (previous slot : nat) rows : run (list Z) :=
  repoint_slot EMPTY 32 slots previous slot rows.
Definition heap_clear slots : list Z := replicate (length slots) EMPTY.

(** ** Refinement of the fixed table's probe *)

Lemma heap_position_eq slots target rows :
  heap_position slots target rows = position EMPTY slots target rows.
Proof.
  unfold heap_position, probe, position. generalize (S (length slots)).
  generalize (bucket (length slots) (lemire_key target)). intros pos fuel. revert pos.
  induction fuel as [|fuel IH]; intros pos; [done|]. cbn [probe_loop position_loop].
  destruct (index slots pos) as [slot| |]; cbn [mbind run_bind]; try done.
  destruct (slot =? EMPTY)%Z; [done|].
  destruct (index rows (Z.to_nat slot)) as [row| |]; cbn [mbind run_bind]; try done.
  case_decide; [done|]. apply IH.
Qed.

Lemma heap_get_eq slots target rows : heap_get slots target rows = get EMPTY slots target rows.
Proof. unfold heap_get, get. by rewrite heap_position_eq. Qed.

(** ** Growth *)

Lemma fits_of_half entries buckets :
  (4 ≤ buckets)%Z → (2 * entries ≤ buckets)%Z → exceeds_two_thirds_load entries buckets = false.
Proof.
  intros. unfold exceeds_two_thirds_load, saturating_sub, div_ceil. apply Z.ltb_ge.
  pose proof (Z.div_mod (buckets + 3 - 1) 3 ltac:(lia)).
  pose proof (Z.mod_pos_bound (buckets + 3 - 1) 3 ltac:(lia)). lia.
Qed.

(** A table within its load keeps a third of its buckets empty. *)
Lemma fits_room entries buckets :
  (4 ≤ buckets)%Z → exceeds_two_thirds_load entries buckets = false → (entries + 1 < buckets)%Z.
Proof.
  intros Hb Hfit. unfold exceeds_two_thirds_load, saturating_sub, div_ceil in Hfit.
  apply Z.ltb_ge in Hfit.
  pose proof (Z.div_mod (buckets + 3 - 1) 3 ltac:(lia)).
  pose proof (Z.mod_pos_bound (buckets + 3 - 1) 3 ltac:(lia)). lia.
Qed.

Lemma grow_loop_spec fuel entries buckets :
  (4 ≤ buckets)%Z → (0 ≤ entries ≤ MAX_ROWS)%Z →
  (2 * entries ≤ buckets * 2 ^ Z.of_nat fuel)%Z →
  ∃ b, grow_loop (S fuel) entries buckets = Done b ∧ (buckets ≤ b)%Z
    ∧ exceeds_two_thirds_load entries b = false.
Proof.
  revert buckets. induction fuel as [|fuel IH]; intros buckets Hb He Hf; cbn [grow_loop].
  { rewrite fits_of_half by lia. exists buckets. by rewrite fits_of_half by lia. }
  destruct (exceeds_two_thirds_load entries buckets) eqn:Hx; [|by exists buckets].
  assert (Hlt : (buckets < 2 * entries)%Z).
  { apply Z.nle_gt. intros Hle. by rewrite fits_of_half in Hx. }
  assert (Hg : saturating_mul 64 buckets 2 = (buckets * 2)%Z).
  { unfold saturating_mul, MAX_ROWS, EMPTY, u32_max, max_width in *. clear -Hlt He. lia. }
  rewrite Hg. destruct (Z.eqb_spec (buckets * 2) buckets); [lia|].
  destruct (IH (buckets * 2)%Z) as (b & E & ? & ?); [lia|done| |].
  - rewrite Nat2Z.inj_succ, Z.pow_succ_r in Hf by lia. nia.
  - exists b. cbn [grow_loop] in E. rewrite E. split; [done|]. split; [lia|done].
Qed.

(** The table holds every row, within its load. *)
Definition heap_rep slots rows : Prop :=
  represents EMPTY slots rows (length rows) ∧ MIN_BUCKETS ≤ length slots
  ∧ exceeds_two_thirds_load (Z.of_nat (length rows)) (Z.of_nat (length slots)) = false.

Lemma place_from_spec todo slots slot rows :
  slot + todo = length rows → (Z.of_nat (length rows) ≤ MAX_ROWS)%Z → keys_ok rows →
  length rows + 1 < length slots → represents EMPTY slots rows slot →
  ∃ slots', place_from todo slots slot rows = Done slots'
    ∧ length slots' = length slots ∧ represents EMPTY slots' rows (length rows).
Proof.
  revert slots slot. induction todo as [|todo IH]; intros slots slot Hn Hmax Hk Hroom Hrep.
  { exists slots. replace (length rows) with slot by lia. done. }
  destruct (lookup_lt_is_Some_2 rows slot) as [row Hrow]; [lia|]. cbn [place_from]. unfold place.
  destruct (represents_push EMPTY 32 slots rows rows slot row) as (slots1 & -> & Hlen & Hrep1);
    [by vm_compute|unfold MAX_ROWS in Hmax; lia|lia|done..|].
  cbn [mbind run_bind]. destruct (IH slots1 (S slot)) as (slots' & -> & Hlen' & ?);
    [lia|done|done|lia|done|]. exists slots'. split; [done|]. split; [lia|done].
Qed.

Lemma rebuild_spec slots rows :
  (Z.of_nat (length rows) ≤ MAX_ROWS)%Z → keys_ok rows →
  ∃ slots', rebuild slots rows = Done slots' ∧ heap_rep slots' rows.
Proof.
  intros Hmax Hk. unfold rebuild.
  destruct (grow_loop_spec 64 (Z.of_nat (length rows)) (Z.of_nat (length slots `max` MIN_BUCKETS)))
    as (b & -> & Hb & Hfit); [unfold MIN_BUCKETS; lia|lia| |].
  { unfold MAX_ROWS, EMPTY, u32_max, max_width, MIN_BUCKETS in *. lia. }
  cbn [mbind run_bind]. assert (Hb8 : (8 ≤ b)%Z) by (unfold MIN_BUCKETS in Hb; lia).
  pose proof Hfit as Hroom. apply fits_room in Hroom; [|lia].
  destruct (place_from_spec (length rows) (replicate (Z.to_nat b) EMPTY) 0 rows)
    as (slots' & -> & Hlen & Hrep); try done.
  - rewrite length_replicate. lia.
  - apply represents_new; [lia|done].
  - rewrite length_replicate in Hlen. exists slots'. split; [done|]. split; [done|].
    rewrite Hlen, Z2Nat.id by lia. split; [unfold MIN_BUCKETS; lia|done].
Qed.

Lemma heap_insert_spec slots rows row :
  heap_rep slots rows → keys_ok (rows ++ [row]) →
  (Z.of_nat (length rows) < MAX_ROWS)%Z →
  ∃ slots', heap_insert slots (length rows) (rows ++ [row]) = Done slots'
    ∧ heap_rep slots' (rows ++ [row]).
Proof.
  intros (Hrep & Hmin & Hfit) Hk Hmax. unfold heap_insert.
  destruct (exceeds_two_thirds_load (Z.of_nat (length (rows ++ [row]))) _) eqn:Hx.
  { apply rebuild_spec; [rewrite length_app; simpl; lia|done]. }
  unfold MIN_BUCKETS in Hmin. pose proof Hx as Hroom. apply fits_room in Hroom; [|lia].
  rewrite length_app in Hroom. simpl in Hroom. unfold place.
  destruct (represents_push EMPTY 32 slots rows (rows ++ [row]) (length rows) row)
    as (slots' & -> & Hlen & Hrep'); try done.
  - lia.
  - intros i Hi. by rewrite lookup_app_l.
  - by rewrite lookup_app_r, Nat.sub_diag by lia.
  - exists slots'. split; [done|]. unfold heap_rep. rewrite Hlen. split; [|done].
    rewrite length_app. simpl. by rewrite Nat.add_1_r.
Qed.
End heap.
End Heap.

(** * Keys ([keys.rs]) *)

(** A hash is its own row; its key is its first eight bytes, most significant first. *)
#[global] Instance hash_row : IndexRow (list Z) (list Z) := {|
  index_key := λ hash, hash;
  lemire_key := lemire_key_from_prefix;
|}.

(** [InterfaceId]s are read low byte first. *)
Definition interface_id_lemire_key (bytes : list Z) : Z := from_le_bytes (take 8 bytes).

Lemma lemire_key_u64 (hash : list Z) : is_u64 (lemire_key hash).
Proof. by apply in_width_wrap. Qed.

Lemma hashes_keys_ok (rows : list (list Z)) : keys_ok rows.
Proof. apply list.Forall_forall. intros row _. apply lemire_key_u64. Qed.

(** * Properties *)

(** Lookup is exact: on a table holding the first [n] rows, whose keys are distinct, the
    probe of [get] ends without an out-of-range access and returns the row number of the
    target's row, or none when no indexed row has the key. *)
Theorem lemire_get_exact {R K} `{IndexRow R K} EMPTY slots (rows : list R) n (target : K) :
  represents EMPTY slots rows n → distinct_keys rows n → is_u64 (lemire_key target) →
  ∃ r, get EMPTY slots target rows = Done r ∧ ∀ i, r = Some i ↔ row_of rows n target i.
Proof.
  intros Hrep Hd Hk. destruct (represents_get EMPTY slots rows n target Hrep Hk) as (r & -> & Hr).
  exists r. split; [done|]. intros i. destruct r as [j|]; split.
  - by intros [= ->].
  - intros Hi. f_equal. by apply (Hd target).
  - done.
  - intros Hi. by destruct (Hr i).
Qed.

(** C3. Removal by backward shift is exact: it ends, keeps every other indexed row reachable
    (the invariant holds again, so lookups of the other keys still succeed) and drops the row
    of the target and nothing else. *)
Theorem lemire_remove_exact {R K} `{IndexRow R K} EMPTY slots (rows : list R) (target : K) :
  wf EMPTY slots rows → unique_keys EMPTY slots rows → is_u64 (lemire_key target) →
  ∃ slots', remove EMPTY slots target rows = Done slots'
    ∧ length slots' = length slots ∧ wf EMPTY slots' rows
    ∧ ∀ s row, rows !! s = Some row →
        indexed EMPTY slots' s ↔ index_key row ≠ target ∧ indexed EMPTY slots s.
Proof. apply remove_spec. Qed.

(** The growing table never fills: inserting the row just pushed ends, rebuilding a larger
    table when two thirds of the buckets would be exceeded, and the table then holds every row
    within its load, so that every later lookup finds a pushed row by its key. *)
Theorem heap_insert_grows {R K} `{IndexRow R K} slots (rows : list R) row :
  Heap.heap_rep slots rows → keys_ok (rows ++ [row]) →
  (Z.of_nat (length rows) < Heap.MAX_ROWS)%Z →
  ∃ slots', Heap.heap_insert slots (length rows) (rows ++ [row]) = Done slots'
    ∧ Heap.heap_rep slots' (rows ++ [row])
    ∧ ∃ i, Heap.heap_get slots' (index_key row) (rows ++ [row]) = Done (Some i)
        ∧ row_of (rows ++ [row]) (S (length rows)) (index_key row) i.
Proof.
  intros Hrep Hk Hmax. destruct (Heap.heap_insert_spec slots rows row Hrep Hk Hmax)
    as (slots' & -> & Hrep'). exists slots'. split; [done|]. split; [done|].
  assert (Hlast : (rows ++ [row]) !! length rows = Some row).
  { by rewrite lookup_app_r, Nat.sub_diag by lia. }
  assert (Hkey : is_u64 (lemire_key (index_key row))).
  { unfold keys_ok in Hk. rewrite Forall_app, Forall_singleton in Hk. apply Hk. }
  destruct Hrep' as [Hrep' _]. rewrite length_app, Nat.add_1_r in Hrep'.
  rewrite Heap.heap_get_eq.
  destruct (represents_get _ _ _ _ _ Hrep' Hkey) as ([i|] & -> & Hi); [by exists i|].
  destruct (Hi (length rows)). split; [lia|by eauto].
Qed.

(** ** Witnesses: two hashes that collide on a table of four buckets *)

Definition hash_a : list Z := [65; 1; 2; 3; 4; 5; 6; 7]%Z.
Definition hash_b : list Z := [70; 1; 2; 3; 4; 5; 6; 7]%Z.
Definition two_rows : list (list Z) := [hash_a; hash_b].
Definition two_slots : list Z := [65535; 0; 1; 65535]%Z.

Lemma two_rows_ok : keys_ok two_rows.
Proof. apply hashes_keys_ok. Qed.

Lemma two_slots_rep : represents u16_max two_slots two_rows 2.
Proof.
  assert (H0 : represents u16_max (new u16_max 4) two_rows 0)
    by (apply represents_new; [lia|apply two_rows_ok]).
  destruct (represents_push u16_max 16 (new u16_max 4) two_rows two_rows 0 hash_a)
    as (s1 & E1 & _ & H1); try done; [cbn; lia|apply two_rows_ok|].
  vm_compute in E1. injection E1 as <-.
  destruct (represents_push u16_max 16 [65535; 0; 65535; 65535]%Z two_rows two_rows 1 hash_b)
    as (s2 & E2 & _ & H2); try done; [cbn; lia|apply two_rows_ok|].
  vm_compute in E2. injection E2 as <-. exact H2.
Qed.

Lemma two_rows_distinct : distinct_keys two_rows 2.
Proof.
  intros target i j (Hi & r & Hr & <-) (Hj & r' & Hr' & E).
  destruct i as [|[|i]], j as [|[|j]]; cbn in Hr, Hr'; simplify_eq; done.
Qed.

Lemma lemire_get_exact_witness :
  ∃ r, get u16_max two_slots hash_b two_rows = Done r
    ∧ ∀ i, r = Some i ↔ row_of two_rows 2 hash_b i.
Proof.
  apply lemire_get_exact; [exact two_slots_rep|exact two_rows_distinct|by vm_compute].
Defined.

Lemma lemire_remove_exact_witness :
  ∃ slots', remove u16_max two_slots hash_a two_rows = Done slots'
    ∧ length slots' = length two_slots ∧ wf u16_max slots' two_rows
    ∧ ∀ s row, two_rows !! s = Some row →
        indexed u16_max slots' s ↔ index_key row ≠ hash_a ∧ indexed u16_max two_slots s.
Proof.
  apply lemire_remove_exact; [apply two_slots_rep| |by vm_compute].
  intros s s' row row' Hs Hs' Hrow Hrow' E.
  apply (two_rows_distinct (index_key row)); (split; [by apply two_slots_rep|]); by eauto.
Defined.

Lemma heap_insert_grows_witness :
  let rows := [] : list (list Z) in
  ∃ slots', Heap.heap_insert Heap.default (length rows) (rows ++ [hash_a]) = Done slots'
    ∧ Heap.heap_rep slots' (rows ++ [hash_a])
    ∧ ∃ i, Heap.heap_get slots' (index_key hash_a) (rows ++ [hash_a]) = Done (Some i)
        ∧ row_of (rows ++ [hash_a]) (S (length rows)) (index_key hash_a) i.
Proof.
  intros rows. refine (heap_insert_grows Heap.default rows hash_a _ _ _).
  - split; [|split; [exact (le_n 8)|by vm_compute]].
    exact (represents_new Heap.EMPTY 8 rows ltac:(lia) ltac:(constructor)).
  - exact (hashes_keys_ok [hash_a]).
  - by vm_compute.
Defined.
