(* ===== verification/Dedup.v ===== *)
(** Packet identity and the duplicate filter: [prns-core/src/routing/dedup/].

    A packet's hash covers what the packet is and not how it travelled; the filter keeps the
    hashes seen in two generations.  The trait [PacketHashHistory] is a class; its contract is
    the two-generation specification [remember_spec], which every implementation simulates.
    This file holds [core.rs], [impls/fixed.rs] and [impls/fixed_indexed.rs]; the packed heap
    index is in [DedupHeap]. *)

From S2P Require Import Prelude Wire LemireIndex.

(** * Packet hashes ([core.rs]) *)

(** The [sha2] crate's streaming hasher is code outside the repository. *)
Class Sha256 := {
  hasher : Type;
  hasher_new : hasher;
  hasher_update : hasher → list Z → hasher;
  hasher_finalize : hasher → list Z;
}.

(** Its documentation: feeding two slices in turn is feeding their concatenation, and the
    digest has 32 bytes. *)
Class Sha256Laws `{Sha256} : Prop := {
  update_app : ∀ h a b, hasher_update (hasher_update h a) b = hasher_update h (a ++ b);
  digest_bytes : ∀ h, length (hasher_finalize h) = 32%nat ∧ Forall is_u8 (hasher_finalize h);
}.

Section hashing.
Context `{Sha256}.

(** [crypto::sha256_chunks] *)
Definition sha256_chunks (chunks : list (list Z)) : list Z :=
  hasher_finalize (foldl hasher_update hasher_new chunks).

Definition of_wire_packet (bytes : list Z) : result WireError (list Z) :=
  flags ← ok_or BufferTooShort (head bytes);
  let after_hops := 2%nat in
  let hashable_from :=
    if (Z.land flags 0x40 =? 0x40)%Z then (after_hops + TRUNCATED_HASH_BYTE_LEN)%nat
    else after_hops in
  tail ← ok_or BufferTooShort
           (if decide (hashable_from ≤ length bytes)%nat then Some (drop hashable_from bytes)
            else None);
  Ok (sha256_chunks [[Z.land flags 0x0F]; tail]).

Definition of_fields (destination_type : DestinationType) (packet_type : PacketType)
    (address : list Z) (context : WireContext) (payload : list Z) : list Z :=
  let hashed_flags := Z.lor (shl 8 (DestinationType_as_u8 destination_type) 2)
                        (PacketType_as_u8 packet_type) in
  sha256_chunks [[hashed_flags]; address; [WireContext_to_byte context]; payload].

Definition of_data_fields (destination_type : DestinationType) (address : list Z)
    (context : WireContext) (payload : list Z) : list Z :=
  of_fields destination_type Data address context payload.

(** [proof_destination] *)
Definition proof_destination (hash : list Z) : run (list Z) :=
  slice hash 0 TRUNCATED_HASH_BYTE_LEN.

(** The header type bit says whether a transport id precedes the address. *)
Lemma flags_type_2 h :
  (Z.land (flags_byte h) 0x40 =? 0x40)%Z = if transport_id h is Some _ then true else false.
Proof. destruct h as [[] [] [] [] [] ? [] ? ?]; done. Qed.

Lemma flags_hashed h :
  Z.land (flags_byte h) 0x0F
  = Z.lor (shl 8 (DestinationType_as_u8 (destination_type h)) 2) (PacketType_as_u8 (packet_type h)).
Proof. destruct h as [[] [] [] [] [] ? [] ? ?]; done. Qed.

Lemma of_wire_packet_encoded `{!Sha256Laws} h payload :
  header_wf h →
  of_wire_packet (encode_header h ++ payload)
  = Ok (of_fields (destination_type h) (packet_type h) (address h) (context h) payload).
Proof.
  intros [_ Ht [Ha _] _]. unfold of_wire_packet, encode_header.
  cbn [app head ok_or mbind result_bind]. rewrite flags_type_2, flags_hashed.
  set (c := [WireContext_to_byte (context h)]).
  assert (Htail : ∀ tail, tail = address h ++ c ++ payload →
    sha256_chunks [[Z.lor (shl 8 (DestinationType_as_u8 (destination_type h)) 2)
      (PacketType_as_u8 (packet_type h))]; tail]
    = of_fields (destination_type h) (packet_type h) (address h) (context h) payload).
  { intros tail ->. unfold of_fields, sha256_chunks. cbn [foldl]. by rewrite !update_app. }
  destruct (transport_id h) as [tid|]; cbn [default from_option Datatypes.id] in *.
  - destruct Ht as [Hid _].
    rewrite decide_True by (cbn [length]; rewrite !length_app, Hid; lia).
    cbn [ok_or mbind result_bind]. f_equal. apply Htail. rewrite <- !app_assoc.
    rewrite <- Hid. cbn [Nat.add drop]. apply drop_app_length.
  - rewrite decide_True by (cbn [length]; lia).
    cbn [ok_or mbind result_bind app]. f_equal. apply Htail. by rewrite <- !app_assoc.
Qed.
End hashing.

(** * The trait and its contract *)

Inductive RememberPacketOutcome := AlreadyKnown | StoredFresh | StoredAfterRotation.
#[global] Instance RememberPacketOutcome_eq_dec : EqDecision RememberPacketOutcome.
Proof. solve_decision. Defined.

Class PacketHashHistory (H : Type) := {
  hist_capacity : H → Z;
  hist_len : H → nat;
  hist_contains : H → list Z → run bool;
  hist_remember : H → list Z → run (RememberPacketOutcome * H);
}.

Definition hist_is_empty {H} `{PacketHashHistory H} (h : H) : bool := (hist_len h =? 0)%nat.

Definition is_packet_hash (hash : list Z) : Prop := length hash = 32%nat ∧ Forall is_u8 hash.

(** What the trait's documentation promises: two generations of hashes; remembering into a full
    current generation makes it the previous one and forgets the oldest. *)
Record generations := mkGenerations { cur : list (list Z); prev : list (list Z) }.

Definition known (g : generations) (hash : list Z) : bool :=
  bool_decide (hash ∈ cur g) || bool_decide (hash ∈ prev g).

Definition remember_spec (cap : Z) (g : generations) (hash : list Z) :
    RememberPacketOutcome * generations :=
  if known g hash then (AlreadyKnown, g)
  else if (Z.of_nat (length (cur g)) <? cap)%Z
  then (StoredFresh, mkGenerations (cur g ++ [hash]) (prev g))
  else (StoredAfterRotation, mkGenerations [hash] (cur g)).

(** An implementation of capacity [cap]: [rep] relates its states to the specification's and
    the operations keep it, without a panic. *)
Class HistoryRefines (H : Type) `{PacketHashHistory H} (cap : Z) := {
  rep : H → generations → Prop;
  rep_capacity : ∀ s g, rep s g → hist_capacity s = cap;
  rep_len : ∀ s g, rep s g → hist_len s = (length (cur g) + length (prev g))%nat;
  rep_contains : ∀ s g hash, rep s g → is_packet_hash hash →
    hist_contains s hash = Done (known g hash);
  rep_remember : ∀ s g hash, rep s g → is_packet_hash hash →
    ∃ s', hist_remember s hash = Done ((remember_spec cap g hash).1, s')
      ∧ rep s' (remember_spec cap g hash).2;
}.

(** A run of [remember] calls and its outcomes. *)
Fixpoint remember_all {H} `{PacketHashHistory H} (s : H) (hashes : list (list Z)) :
    run (list RememberPacketOutcome * H) :=
  match hashes with
  | [] => Done ([], s)
  | hash :: hashes =>
      '(o, s) ← hist_remember s hash;
      '(os, s) ← remember_all s hashes;
      Done (o :: os, s)
  end.

Fixpoint remember_all_spec (cap : Z) (g : generations) (hashes : list (list Z)) :
    list RememberPacketOutcome * generations :=
  match hashes with
  | [] => ([], g)
  | hash :: hashes =>
      let '(o, g) := remember_spec cap g hash in
      let '(os, g) := remember_all_spec cap g hashes in (o :: os, g)
  end.

Section refines.
Context {H : Type} `{R : HistoryRefines H cap}.

Lemma remember_all_refines s g hashes :
  rep s g → Forall is_packet_hash hashes →
  ∃ s', remember_all s hashes = Done ((remember_all_spec cap g hashes).1, s')
    ∧ rep s' (remember_all_spec cap g hashes).2.
Proof.
  intros Hrep Hh. revert s g Hrep. induction Hh as [|hash hashes Hh _ IH]; intros s g Hrep.
  { by exists s. }
  cbn [remember_all remember_all_spec].
  destruct (rep_remember s g hash Hrep Hh) as (s1 & -> & Hrep1).
  destruct (remember_spec cap g hash) as [o g1]. cbn [mbind run_bind fst snd] in *.
  destruct (IH s1 g1 Hrep1) as (s2 & -> & Hrep2).
  destruct (remember_all_spec cap g1 hashes) as [os g2]. cbn [mbind run_bind fst snd] in *.
  by exists s2.
Qed.
End refines.

(** ** The specification's own properties *)

Section spec.
Context (cap : Z) (Hcap : (1 ≤ cap)%Z).

(** [hash] is still [k] stores away from being forgotten. *)
Definition protected (g : generations) (hash : list Z) (k : Z) : Prop :=
  (hash ∈ prev g ∧ (Z.of_nat (length (cur g)) + k ≤ cap)%Z) ∨ (hash ∈ cur g ∧ (k ≤ cap)%Z).

Lemma protected_known g hash k : protected g hash k → known g hash = true.
Proof.
  unfold known. intros [[? _]|[? _]]; [rewrite (bool_decide_true (hash ∈ prev g)) by done
    |rewrite bool_decide_true by done]; [by rewrite orb_true_r|done].
Qed.

Lemma protected_step g hash k x :
  (1 ≤ k)%Z → protected g hash k →
  protected (remember_spec cap g x).2 hash (k - 1).
Proof.
  intros Hk Hp. unfold remember_spec. destruct (known g x); cbn [snd].
  { destruct Hp as [[? ?]|[? ?]]; [left|right]; (split; [done|lia]). }
  destruct (Z.ltb_spec (Z.of_nat (length (cur g))) cap); cbn [snd]; unfold protected; cbn [cur prev].
  - rewrite length_app. cbn [length].
    destruct Hp as [[? ?]|[? ?]]; [left|right]; (split; [|lia]); [done|].
    apply elem_of_app. by left.
  - cbn [length]. destruct Hp as [[? ?]|[? ?]]; [lia|]. left. split; [done|lia].
Qed.

Lemma protected_all g hash k xs :
  (Z.of_nat (length xs) ≤ k)%Z → protected g hash k →
  protected (remember_all_spec cap g xs).2 hash (k - Z.of_nat (length xs)).
Proof.
  revert g k. induction xs as [|x xs IH]; intros g k Hk Hp.
  { cbn. by rewrite Z.sub_0_r. }
  cbn [remember_all_spec length] in *. pose proof (protected_step g hash k x ltac:(lia) Hp) as Hp1.
  destruct (remember_spec cap g x) as [o g1]. cbn [snd] in Hp1.
  specialize (IH g1 (k - 1)%Z ltac:(lia) Hp1).
  destruct (remember_all_spec cap g1 xs) as [os g2]. cbn [snd] in *.
  by replace (k - Z.of_nat (S (length xs)))%Z with (k - 1 - Z.of_nat (length xs))%Z by lia.
Qed.

Lemma stored_protected g hash :
  (remember_spec cap g hash).1 ≠ AlreadyKnown →
  protected (remember_spec cap g hash).2 hash cap.
Proof.
  unfold remember_spec. destruct (known g hash); [done|]. intros _.
  destruct (_ <? cap)%Z; cbn [snd]; right; cbn [cur]; (split; [|lia]).
  - apply elem_of_app. right. by apply list_elem_of_singleton.
  - by apply list_elem_of_singleton.
Qed.

(** Both generations stay within the capacity. *)
Definition bounded (g : generations) : Prop :=
  (Z.of_nat (length (cur g)) ≤ cap ∧ Z.of_nat (length (prev g)) ≤ cap)%Z.

Lemma bounded_step g x : bounded g → bounded (remember_spec cap g x).2.
Proof.
  unfold bounded, remember_spec. intros [? ?]. destruct (known g x); [done|].
  destruct (Z.ltb_spec (Z.of_nat (length (cur g))) cap); cbn [snd cur prev];
    rewrite ?length_app; cbn [length]; lia.
Qed.

Lemma bounded_all g xs : bounded g → bounded (remember_all_spec cap g xs).2.
Proof.
  revert g. induction xs as [|x xs IH]; intros g Hg; [done|]. cbn [remember_all_spec].
  pose proof (bounded_step g x Hg) as H1. destruct (remember_spec cap g x) as [o g1].
  specialize (IH g1 H1). by destruct (remember_all_spec cap g1 xs).
Qed.
End spec.

(** * [impls/fixed.rs]: two arrays scanned linearly *)

Module Fixed.
Record FixedPacketHashHistory (GENERATION_CAPACITY : nat) := mk {
  current_len : nat;
  previous_len : nat;
  current : list (list Z);
  previous : list (list Z);
}.
Arguments mk {_} _ _ _ _.
Arguments current_len {_} _.
Arguments previous_len {_} _.
Arguments current {_} _.
Arguments previous {_} _.

Section fixed.
Context {GENERATION_CAPACITY : nat}.
Abbreviation history := (FixedPacketHashHistory GENERATION_CAPACITY).

Definition zero_hash : list Z := replicate 32 0%Z.
Definition default : history :=
  mk 0 0 (replicate GENERATION_CAPACITY zero_hash) (replicate GENERATION_CAPACITY zero_hash).

(** [<[PacketHash]>::contains] *)
Definition slice_contains (hashes : list (list Z)) (hash : list Z) : bool :=
  existsb (λ x, bool_decide (x = hash)) hashes.

Definition contains (s : history) (hash : list Z) : run bool :=
  c ← slice (current s) 0 (current_len s);
  if slice_contains c hash then Done true else
  p ← slice (previous s) 0 (previous_len s);
  Done (slice_contains p hash).

Definition remember (s : history) (hash : list Z) : run (RememberPacketOutcome * history) :=
  seen ← contains s hash;
  if seen : bool then Done (AlreadyKnown, s) else
  if (current_len s <? GENERATION_CAPACITY)%nat then
    c ← store (current s) (current_len s) hash;
    Done (StoredFresh, mk (current_len s + 1) (previous_len s) c (previous s))
  else
    (* mem::swap *)
    let previous_len := current_len s in
    c ← store (previous s) 0 hash;
    Done (StoredAfterRotation, mk 1 previous_len c (current s)).

#[global] Instance fixed_history : PacketHashHistory history := {|
  hist_capacity := λ _, Z.of_nat GENERATION_CAPACITY;
  hist_len := λ s, (current_len s + previous_len s)%nat;
  hist_contains := contains;
  hist_remember := remember;
|}.

Record fixed_rep (s : history) (g : generations) : Prop := {
  fr_current : length (current s) = GENERATION_CAPACITY;
  fr_previous : length (previous s) = GENERATION_CAPACITY;
  fr_clen : current_len s ≤ GENERATION_CAPACITY;
  fr_plen : previous_len s ≤ GENERATION_CAPACITY;
  fr_cur : cur g = take (current_len s) (current s);
  fr_prev : prev g = take (previous_len s) (previous s);
}.

Lemma slice_contains_spec hashes hash :
  slice_contains hashes hash = bool_decide (hash ∈ hashes).
Proof.
  unfold slice_contains. induction hashes as [|x hashes IH]; [done|]. cbn [existsb].
  rewrite IH. apply eq_bool_prop_intro. rewrite orb_True, !bool_decide_spec.
  rewrite elem_of_cons. split; (intros [->|?]; [by left|by right]).
Qed.

Lemma slice_take (xs : list (list Z)) n : n ≤ length xs → slice xs 0 n = Done (take n xs).
Proof.
  intros. unfold slice. rewrite decide_True by lia. by rewrite Nat.sub_0_r, drop_0.
Qed.

Lemma fixed_contains_spec s g hash : fixed_rep s g → contains s hash = Done (known g hash).
Proof.
  intros [Hc Hp Hcl Hpl Hcur Hprev]. unfold contains, known.
  rewrite (slice_take (current s)), (slice_take (previous s)) by lia. cbn [mbind run_bind].
  rewrite !slice_contains_spec, <- Hcur, <- Hprev. by destruct (bool_decide (hash ∈ cur g)).
Qed.

Lemma fixed_remember_refines s g hash :
  1 ≤ GENERATION_CAPACITY → fixed_rep s g →
  ∃ s', remember s hash = Done ((remember_spec (Z.of_nat GENERATION_CAPACITY) g hash).1, s')
    ∧ fixed_rep s' (remember_spec (Z.of_nat GENERATION_CAPACITY) g hash).2.
Proof.
  intros Hcap Hrep. unfold remember, remember_spec. rewrite (fixed_contains_spec s g) by done.
  cbn [mbind run_bind]. destruct (known g hash); [by exists s|].
  destruct Hrep as [Hc Hp Hcl Hpl Hcur Hprev].
  assert (Hlen : length (cur g) = current_len s) by (rewrite Hcur, length_take; lia).
  rewrite Hlen. destruct (Nat.ltb_spec (current_len s) GENERATION_CAPACITY) as [Hlt|Hge].
  - rewrite (proj2 (Z.ltb_lt _ _)) by lia. rewrite store_done by lia. cbn [mbind run_bind].
    eexists. split; [done|]. split; cbn; rewrite ?length_insert; try lia; [|done].
    rewrite Nat.add_1_r, (take_S_r _ _ hash) by (apply list_lookup_insert_eq; lia).
    by rewrite take_insert_ge, Hcur by lia.
  - rewrite (proj2 (Z.ltb_ge _ _)) by lia. rewrite store_done by lia. cbn [mbind run_bind].
    eexists. split; [done|]. split; cbn; rewrite ?length_insert; try lia; [|done].
    destruct (previous s) as [|h0 rest]; [cbn in Hp; lia|done].
Qed.

Lemma fixed_default_rep : fixed_rep default (mkGenerations [] []).
Proof. split; cbn; rewrite ?length_replicate; (lia || done). Qed.

Definition fixed_refines (Hcap : 1 ≤ GENERATION_CAPACITY) :
  HistoryRefines history (Z.of_nat GENERATION_CAPACITY).
Proof.
  refine {| rep := fixed_rep |}.
  - done.
  - intros s g [Hc Hp Hcl Hpl -> ->]. rewrite !length_take. cbn. lia.
  - intros s g hash Hrep _. by apply fixed_contains_spec.
  - intros s g hash Hrep _. by apply fixed_remember_refines.
Defined.
End fixed.
End Fixed.

(** * [impls/fixed_indexed.rs]: two arrays, each with a row index *)

Module Indexed.
Record Generation (CAP BUCKETS : nat) := mkGeneration {
  len : nat;
  hashes : list (list Z);
  index : list Z;
}.
Arguments mkGeneration {_ _} _ _ _.
Arguments len {_ _} _.
Arguments hashes {_ _} _.
Arguments index {_ _} _.

Record FixedIndexedPacketHashHistory (CAP BUCKETS : nat) := mk {
  gens : list (Generation CAP BUCKETS);
  current : nat;
}.
Arguments mk {_ _} _ _.
Arguments gens {_ _} _.
Arguments current {_ _} _.

Definition dedup_index_buckets (generation_capacity : Z) : Z :=
  buckets_for_two_thirds_load generation_capacity.

Section indexed.
Context {CAP BUCKETS : nat}.
Abbreviation generation := (Generation CAP BUCKETS).
Abbreviation history := (FixedIndexedPacketHashHistory CAP BUCKETS).
Abbreviation EMPTY := LemireIndex.Fixed.EMPTY.
Abbreviation WIDTH := LemireIndex.Fixed.WIDTH.

Definition gen_default : generation :=
  mkGeneration 0 (replicate CAP (replicate 32 0%Z)) (new EMPTY BUCKETS).
Definition gen_contains (g : generation) (hash : list Z) : run bool :=
  LemireIndex.contains EMPTY (index g) hash (hashes g).
Definition gen_insert (g : generation) (hash : list Z) : run generation :=
  let slot := len g in
  hs ← store (hashes g) slot hash;
  ix ← LemireIndex.insert EMPTY WIDTH (index g) slot hs;
  Done (mkGeneration (len g + 1) hs ix).
Definition gen_clear (g : generation) : generation :=
  mkGeneration 0 (hashes g) (clear EMPTY (index g)).

Definition default : history := mk [gen_default; gen_default] 0.

Definition contains (s : history) (hash : list Z) : run bool :=
  g0 ← Prelude.index (gens s) 0;
  in0 ← gen_contains g0 hash;
  if in0 : bool then Done true else
  g1 ← Prelude.index (gens s) 1;
  gen_contains g1 hash.

Definition remember (s : history) (hash : list Z) : run (RememberPacketOutcome * history) :=
  seen ← contains s hash;
  if seen : bool then Done (AlreadyKnown, s) else
  g ← Prelude.index (gens s) (current s);
  if (len g <? CAP)%nat then
    g ← gen_insert g hash;
    gs ← store (gens s) (current s) g;
    Done (StoredFresh, mk gs (current s))
  else
    let current := Nat.lxor (current s) 1 in
    g ← Prelude.index (gens s) current;
    g ← gen_insert (gen_clear g) hash;
    gs ← store (gens s) current g;
    Done (StoredAfterRotation, mk gs current).

#[global] Instance indexed_history : PacketHashHistory history := {|
  hist_capacity := λ _, Z.of_nat CAP;
  hist_len := λ s, from_option len 0 (gens s !! 0) + from_option len 0 (gens s !! 1);
  hist_contains := contains;
  hist_remember := remember;
|}.

(** A generation holds the list [hs]. *)
Record gen_rep (g : generation) (hs : list (list Z)) : Prop := {
  gr_hashes : length (hashes g) = CAP;
  gr_len : len g ≤ CAP;
  gr_bytes : Forall (Forall is_u8) (hashes g);
  gr_buckets : length (index g) = BUCKETS;
  gr_index : represents EMPTY (index g) (hashes g) (len g);
  gr_take : hs = take (len g) (hashes g);
}.

Record indexed_rep (s : history) (g : generations) : Prop := {
  ir_current : current s = 0 ∨ current s = 1;
  ir_two : ∃ g0 g1, gens s = [g0; g1]
    ∧ gen_rep g0 (if decide (current s = 0) then cur g else prev g)
    ∧ gen_rep g1 (if decide (current s = 0) then prev g else cur g);
}.

(** The compile-time assertions on the const parameters. *)
Hypothesis HCAP : 1 ≤ CAP.
Hypothesis HCAP16 : (Z.of_nat CAP < u16_max)%Z.
Hypothesis HBUCKETS : (dedup_index_buckets (Z.of_nat CAP) ≤ Z.of_nat BUCKETS)%Z.

Lemma buckets_room : CAP < BUCKETS.
Proof.
  unfold dedup_index_buckets, buckets_for_two_thirds_load, saturating_add, div_ceil, u16_max,
    max_width in *. destruct (Z.eqb_spec (Z.of_nat CAP) 0); [lia|].
  pose proof (Z.div_mod (Z.of_nat CAP + 2 - 1) 2 ltac:(lia)).
  pose proof (Z.mod_pos_bound (Z.of_nat CAP + 2 - 1) 2 ltac:(lia)). lia.
Qed.

Lemma gen_contains_spec g hs hash :
  gen_rep g hs → is_packet_hash hash → gen_contains g hash = Done (bool_decide (hash ∈ hs)).
Proof.
  intros [Hl Hlen Hb Hbk Hix ->] [_ Hh]. unfold gen_contains.
  destruct (represents_contains EMPTY (index g) (hashes g) (len g) hash Hix)
    as (b & -> & Hiff); [by apply lemire_key_u64|]. f_equal.
  apply eq_bool_prop_intro. rewrite bool_decide_spec, Is_true_true, Hiff.
  rewrite list_elem_of_lookup. split.
  - intros (i & Hi & row & Hrow & <-). exists i. by rewrite lookup_take_lt.
  - intros (i & [Hi Hlt]%lookup_take_Some). exists i. split; [done|]. by exists hash.
Qed.

Lemma gen_insert_spec g hs hash :
  gen_rep g hs → is_packet_hash hash → len g < CAP →
  ∃ g', gen_insert g hash = Done g' ∧ gen_rep g' (hs ++ [hash]).
Proof.
  intros [Hl Hlen Hb Hbk Hix ->] [_ Hh] Hlt. unfold gen_insert.
  pose proof buckets_room as Hroom. rewrite store_done by lia. cbn [mbind run_bind].
  assert (Hb' : Forall (Forall is_u8) (<[len g := hash]> (hashes g))) by (by apply Forall_insert).
  destruct (represents_push EMPTY WIDTH (index g) (hashes g) (<[len g := hash]> (hashes g))
    (len g) hash) as (ix & -> & Hixl & Hix').
  - done.
  - change EMPTY with u16_max. lia.
  - lia.
  - done.
  - by apply hashes_keys_ok.
  - intros i Hi. by rewrite list_lookup_insert_ne by lia.
  - apply list_lookup_insert_eq. lia.
  - cbn [mbind run_bind]. eexists. split; [done|].
    split; cbn; rewrite ?length_insert, ?Hixl; try lia; [done|by rewrite Nat.add_1_r|].
    rewrite Nat.add_1_r, (take_S_r _ _ hash) by (apply list_lookup_insert_eq; lia).
    by rewrite take_insert_ge by lia.
Qed.

Lemma gen_clear_spec g hs : gen_rep g hs → gen_rep (gen_clear g) [].
Proof.
  intros [Hl Hlen Hb Hbk Hix ->]. pose proof buckets_room.
  split; cbn; unfold clear; rewrite ?length_replicate; try (done || lia).
  apply represents_new; [lia|]. by apply hashes_keys_ok.
Qed.

Lemma indexed_contains_spec s g hash :
  indexed_rep s g → is_packet_hash hash → contains s hash = Done (known g hash).
Proof.
  intros [Hc (g0 & g1 & Hgens & H0 & H1)] Hh. unfold contains, known. rewrite Hgens.
  cbn [Prelude.index lookup list_lookup mbind run_bind].
  rewrite (gen_contains_spec _ _ _ H0 Hh). cbn [mbind run_bind].
  rewrite (gen_contains_spec _ _ _ H1 Hh).
  destruct (decide (current s = 0));
    destruct (bool_decide (hash ∈ cur g)), (bool_decide (hash ∈ prev g)); done.
Qed.

Lemma indexed_remember_refines s g hash :
  indexed_rep s g → is_packet_hash hash →
  ∃ s', remember s hash = Done ((remember_spec (Z.of_nat CAP) g hash).1, s')
    ∧ indexed_rep s' (remember_spec (Z.of_nat CAP) g hash).2.
Proof.
  intros Hrep Hh. unfold remember, remember_spec. rewrite (indexed_contains_spec s g) by done.
  cbn [mbind run_bind]. destruct (known g hash); [by exists s|].
  destruct Hrep as [Hc (g0 & g1 & Hgens & H0 & H1)].
  assert (Hlen : ∀ x hs, gen_rep x hs → length hs = len x).
  { intros x hs [? ? ? ? ? ->]. rewrite length_take. lia. }
  rewrite Hgens. destruct Hc as [Hc|Hc]; rewrite Hc in *.
  - rewrite decide_True in H0, H1 by done. rewrite (Hlen _ _ H0).
    cbn [Prelude.index lookup list_lookup mbind run_bind].
    destruct (Nat.ltb_spec (len g0) CAP) as [Hlt|Hge].
    + rewrite (proj2 (Z.ltb_lt _ _)) by lia.
      destruct (gen_insert_spec g0 _ hash H0 Hh Hlt) as (g' & -> & Hg').
      eexists. split; [done|]. split; [by left|]. by exists g', g1.
    + rewrite (proj2 (Z.ltb_ge _ _)) by lia.
      destruct (gen_insert_spec _ _ hash (gen_clear_spec _ _ H1) Hh HCAP) as (g' & E & Hg').
      cbn -[gen_insert gen_clear]. rewrite E.
      eexists. split; [done|]. split; [by right|]. by exists g0, g'.
  - rewrite decide_False in H0, H1 by done. rewrite (Hlen _ _ H1).
    cbn [Prelude.index lookup list_lookup mbind run_bind].
    destruct (Nat.ltb_spec (len g1) CAP) as [Hlt|Hge].
    + rewrite (proj2 (Z.ltb_lt _ _)) by lia.
      destruct (gen_insert_spec g1 _ hash H1 Hh Hlt) as (g' & -> & Hg').
      eexists. split; [done|]. split; [by right|]. by exists g0, g'.
    + rewrite (proj2 (Z.ltb_ge _ _)) by lia.
      destruct (gen_insert_spec _ _ hash (gen_clear_spec _ _ H0) Hh HCAP) as (g' & E & Hg').
      cbn -[gen_insert gen_clear]. rewrite E.
      eexists. split; [done|]. split; [by left|]. by exists g', g1.
Qed.

Lemma indexed_default_rep : indexed_rep default (mkGenerations [] []).
Proof.
  assert (Hg : gen_rep gen_default []).
  { pose proof buckets_room as Hroom.
    split; cbn; unfold new; rewrite ?length_replicate; try (done || lia).
    - apply list.Forall_replicate, (list.Forall_replicate is_u8 32 0%Z). done.
    - apply represents_new; [lia|]. apply hashes_keys_ok. }
  split; [by left|]. by exists gen_default, gen_default.
Qed.

Definition indexed_refines : HistoryRefines history (Z.of_nat CAP).
Proof.
  refine {| rep := indexed_rep |}.
  - done.
  - intros s g [Hc (g0 & g1 & Hgens & H0 & H1)]. cbn. rewrite Hgens. cbn.
    destruct H0 as [? ? ? ? ? E0], H1 as [? ? ? ? ? E1].
    destruct (decide (current s = 0)); rewrite E0, E1, !length_take; lia.
  - apply indexed_contains_spec.
  - apply indexed_remember_refines.
Defined.
End indexed.
End Indexed.

(** * Properties *)

(** A packet keeps its hash while it is relayed: every wire form of it (whatever hop count,
    transport id, propagation type, access code or context flag a relay writes) has the hash
    [of_fields] computes from its destination and packet types, address, context and payload. *)
Theorem packet_hash_survives_relay `{Sha256Laws} h h' payload :
  header_wf h → header_wf h' →
  destination_type h' = destination_type h → packet_type h' = packet_type h →
  address h' = address h → context h' = context h →
  of_wire_packet (encode_header h' ++ payload) = of_wire_packet (encode_header h ++ payload)
  ∧ of_wire_packet (encode_header h ++ payload)
    = Ok (of_fields (destination_type h) (packet_type h) (address h) (context h) payload).
Proof.
  intros Hh Hh' Ed Ep Ea Ec. rewrite !of_wire_packet_encoded by done.
  by rewrite Ed, Ep, Ea, Ec.
Qed.

(** No early amnesia: on any implementation of the contract, a hash reported as stored is
    still known after any [cap] further packets, and the filter never holds more than two
    generations. *)
Theorem stored_hash_is_remembered {H} `{R : HistoryRefines H cap} s g hash more :
  (1 ≤ cap)%Z → rep s g → bounded cap g → is_packet_hash hash → Forall is_packet_hash more →
  (Z.of_nat (length more) ≤ cap)%Z →
  ∃ o s1 os s2, hist_remember s hash = Done (o, s1) ∧ remember_all s1 more = Done (os, s2)
    ∧ (o ≠ AlreadyKnown → hist_contains s2 hash = Done true)
    ∧ (Z.of_nat (hist_len s2) ≤ 2 * cap)%Z.
Proof.
  intros Hcap Hrep Hb Hh Hm Hlen.
  destruct (rep_remember s g hash Hrep Hh) as (s1 & -> & Hrep1).
  destruct (remember_all_refines s1 _ more Hrep1 Hm) as (s2 & E2 & Hrep2).
  do 4 eexists. split; [done|]. split; [exact E2|]. split.
  - intros Hs. rewrite (rep_contains s2 _ hash Hrep2 Hh). f_equal.
    eapply protected_known, (protected_all cap _ hash cap); [exact Hlen|].
    by apply stored_protected.
  - rewrite (rep_len s2 _ Hrep2).
    destruct (bounded_all cap Hcap _ more (bounded_step cap Hcap g hash Hb)). lia.
Qed.

(** The embedded filters agree: the linear arrays and the indexed arrays of the same
    capacity give the same outcomes on every sequence of packets, and neither panics. *)
Theorem fixed_and_indexed_agree (CAP BUCKETS : nat) packets :
  1 ≤ CAP → (Z.of_nat CAP < u16_max)%Z →
  (Indexed.dedup_index_buckets (Z.of_nat CAP) ≤ Z.of_nat BUCKETS)%Z →
  Forall is_packet_hash packets →
  ∃ os s s', remember_all (Fixed.default (GENERATION_CAPACITY := CAP)) packets = Done (os, s)
    ∧ remember_all (Indexed.default (CAP := CAP) (BUCKETS := BUCKETS)) packets = Done (os, s')
    ∧ os = (remember_all_spec (Z.of_nat CAP) (mkGenerations [] []) packets).1.
Proof.
  intros Hcap H16 Hbk Hp.
  destruct (remember_all_refines (R := Fixed.fixed_refines Hcap) _ _ packets
    Fixed.fixed_default_rep Hp) as (s & -> & _).
  destruct (remember_all_refines (R := Indexed.indexed_refines Hcap H16 Hbk) _ _ packets
    (Indexed.indexed_default_rep Hcap H16 Hbk) Hp) as (s' & -> & _).
  by do 3 eexists.
Qed.

(** ** Witnesses *)

(** A hasher that obeys the laws: it keeps its input and pads or cuts it to a digest. *)
#[local] Instance toy_sha256 : Sha256 := {|
  hasher := list Z;
  hasher_new := [];
  hasher_update := λ h a, h ++ a;
  hasher_finalize := λ h, take 32 (((λ z, z mod 256)%Z <$> h) ++ replicate 32 0%Z);
|}.

Lemma toy_sha256_laws : Sha256Laws.
Proof.
  split.
  - intros. cbn. by rewrite app_assoc.
  - intros h. cbn [hasher_finalize toy_sha256]. split.
    + rewrite length_take, length_app, length_replicate. lia.
    + apply Forall_take, Forall_app. split.
      * apply Forall_fmap, Forall_true. intros z. unfold in_width. simpl.
        apply Z.mod_pos_bound. lia.
      * apply list.Forall_replicate. done.
Qed.

Definition relayed_header : WirePacketHeader :=
  mkHeader (ifac_flag sample_header) (context_flag sample_header) (propagation sample_header)
    (destination_type sample_header) (packet_type sample_header) 9 None
    (address sample_header) (context sample_header).

Lemma packet_hash_survives_relay_witness :
  of_wire_packet (encode_header relayed_header ++ [1; 2; 3]%Z)
  = of_wire_packet (encode_header sample_header ++ [1; 2; 3]%Z)
  ∧ of_wire_packet (encode_header sample_header ++ [1; 2; 3]%Z)
    = Ok (of_fields (destination_type sample_header) (packet_type sample_header)
            (address sample_header) (context sample_header) [1; 2; 3]%Z).
Proof.
  refine (packet_hash_survives_relay (H0 := toy_sha256_laws) sample_header relayed_header _
    _ _ _ _ _ _); try reflexivity.
  all: split; vm_compute; repeat split; try congruence; repeat constructor; vm_compute; congruence.
Defined.

Definition packet_1 : list Z := replicate 32 1%Z.
Definition packet_2 : list Z := replicate 32 2%Z.

Lemma packet_hashes_ok : Forall is_packet_hash [packet_1; packet_2].
Proof. repeat constructor; by vm_compute. Qed.

Lemma stored_hash_is_remembered_witness :
  let cap1 : 1 ≤ 1 := le_n 1 in
  ∃ o s1 os s2, hist_remember (Fixed.default (GENERATION_CAPACITY := 1)) packet_1 = Done (o, s1)
    ∧ remember_all s1 [packet_2] = Done (os, s2)
    ∧ (o ≠ AlreadyKnown → hist_contains s2 packet_1 = Done true)
    ∧ (Z.of_nat (hist_len s2) ≤ 2 * 1)%Z.
Proof.
  intros cap1.
  refine (stored_hash_is_remembered (R := Fixed.fixed_refines cap1) Fixed.default
    (mkGenerations [] []) packet_1 [packet_2] _ _ _ _ _ _).
  - done.
  - exact Fixed.fixed_default_rep.
  - by split.
  - split; [done|]. repeat constructor; by vm_compute.
  - repeat constructor; by vm_compute.
  - done.
Defined.

Lemma fixed_and_indexed_agree_witness :
  ∃ os s s', remember_all (Fixed.default (GENERATION_CAPACITY := 1)) [packet_1; packet_2; packet_1]
      = Done (os, s)
    ∧ remember_all (Indexed.default (CAP := 1) (BUCKETS := 2)) [packet_1; packet_2; packet_1]
      = Done (os, s')
    ∧ os = [StoredFresh; StoredAfterRotation; AlreadyKnown].
Proof.
  refine (fixed_and_indexed_agree 1 2 [packet_1; packet_2; packet_1] _ _ _ _); try done.
  repeat constructor; by vm_compute.
Defined.
