(* ===== verification/DedupHeap.v ===== *)
(** The duplicate filter of servers: [prns-core/src/routing/dedup/impls/heap_index.rs] and
    [heap.rs].

    Two growing generations, each with an index of 32-bit buckets that pack a 19-bit row number
    (plus one) under a 13-bit fingerprint of the hash.  The packed index simulates the growing
    row index of [LemireIndex]: [unpack] forgets the fingerprints. *)

From S2P Require Import Prelude LemireIndex Dedup.

(** * [PackedBucket] *)

Definition PackedBucket_EMPTY : Z := 0.
Definition SLOT_BITS : Z := 19.
Definition SLOT_MASK : Z := (shl 32 1 SLOT_BITS - 1)%Z.
Definition FINGERPRINT_MASK : Z := (shl 16 1 (32 - SLOT_BITS) - 1)%Z.

(** [HeapPacketHashIndex::MAX_ROWS], [MIN_BUCKETS] *)
Definition MAX_ROWS : Z := SLOT_MASK.
Definition MIN_BUCKETS : nat := 8.

Definition fingerprint (hash : list Z) : Z :=
  Z.land (from_be_bytes [nth 8 hash 0; nth 9 hash 0]%Z) FINGERPRINT_MASK.

Definition from_parts (fingerprint : Z) (slot : nat) : Z :=
  let encoded_slot := (wrap 32 (Z.of_nat slot) + 1)%Z in
  Z.lor (shl 32 fingerprint SLOT_BITS) encoded_slot.

Definition occupied (hash : list Z) (slot : nat) : Z := from_parts (fingerprint hash) slot.

Definition slot (bucket : Z) : option nat :=
  let encoded := Z.land bucket SLOT_MASK in
  if (encoded =? 0)%Z then None else Some (Z.to_nat encoded - 1)%nat.

Definition matches (bucket fingerprint : Z) : bool :=
  (wrap 16 (Z.shiftr bucket SLOT_BITS) =? fingerprint)%Z.

(** * [HeapPacketHashIndex] *)

Inductive ProbePosition := Occupied | Vacant (position : nat).

Definition index_default : list Z := replicate MIN_BUCKETS PackedBucket_EMPTY.

Definition hash_bucket (buckets : list Z) (hash : list Z) : nat :=
  Z.to_nat (Z.shiftr (lemire_key hash * Z.of_nat (length buckets)) 64).

Definition next_position (buckets : list Z) (position : nat) : nat :=
  let next := (position + 1)%nat in
  if (next =? length buckets)%nat then 0%nat else next.

Section index_operations.
Implicit Types (buckets : list Z) (rows : list (list Z)).

Fixpoint probe_loop (fuel : nat) buckets rows (target : list Z) (target_fingerprint : Z)
    (position : nat) : run ProbePosition :=
  match fuel with
  | O => OutOfFuel
  | S fuel =>
      bucket ← index buckets position;
      match slot bucket with
      | None => Done (Vacant position)
      | Some s =>
          hit ← (if matches bucket target_fingerprint then
                   row ← index rows s; Done (bool_decide (row = target))
                 else Done false);
          if hit : bool then Done Occupied
          else probe_loop fuel buckets rows target target_fingerprint
                 (next_position buckets position)
      end
  end.

Definition probe buckets (target : list Z) rows : run ProbePosition :=
  probe_loop (S (length buckets)) buckets rows target (fingerprint target)
    (hash_bucket buckets target).

Definition index_contains buckets (target : list Z) rows : run bool :=
  p ← probe buckets target rows;
  Done (match p with Occupied => true | Vacant _ => false end).

(** [HeapPacketHashIndexEntry]: occupied, or the vacant position with the fingerprint. *)
Definition entry buckets (target : list Z) rows : run (option (nat * Z)) :=
  p ← probe buckets target rows;
  Done (match p with Occupied => None | Vacant position => Some (position, fingerprint target) end).

Fixpoint vacancy_loop (fuel : nat) buckets (position : nat) : run nat :=
  match fuel with
  | O => OutOfFuel
  | S fuel =>
      bucket ← index buckets position;
      if (bucket =? PackedBucket_EMPTY)%Z then Done position
      else vacancy_loop fuel buckets (next_position buckets position)
  end.

Definition index_place buckets (slot : nat) rows : run (list Z) :=
  hash ← index rows slot;
  position ← vacancy_loop (S (length buckets)) buckets (hash_bucket buckets hash);
  store buckets position (occupied hash slot).

Fixpoint index_place_from (todo : nat) buckets (slot : nat) rows : run (list Z) :=
  match todo with
  | O => Done buckets
  | S todo => buckets ← index_place buckets slot rows; index_place_from todo buckets (S slot) rows
  end.

Definition index_rebuild buckets rows : run (list Z) :=
  bucket_count ← Heap.grow_loop 65 (Z.of_nat (length rows))
                   (Z.of_nat (length buckets `max` MIN_BUCKETS));
  index_place_from (length rows) (replicate (Z.to_nat bucket_count) PackedBucket_EMPTY) 0 rows.

Definition index_insert buckets (slot : nat) rows : run (list Z) :=
  if exceeds_two_thirds_load (Z.of_nat (length rows)) (Z.of_nat (length buckets))
  then index_rebuild buckets rows
  else index_place buckets slot rows.

(** [HeapPacketHashIndexVacantEntry::insert] *)
Definition vacant_insert buckets (vacancy : nat * Z) (slot : nat) rows : run (list Z) :=
  if exceeds_two_thirds_load (Z.of_nat (length rows)) (Z.of_nat (length buckets))
  then index_rebuild buckets rows
  else store buckets vacancy.1 (from_parts vacancy.2 slot).

Definition index_clear buckets : list Z := replicate (length buckets) PackedBucket_EMPTY.
End index_operations.

(** * [HeapPacketHashHistory] *)

Record Generation := mkGeneration { hashes : list (list Z); buckets : list Z }.
Record HeapPacketHashHistory := mkHistory { current : Generation; previous : Generation }.

Definition RNS_GENERATION_CAPACITY : Z := 500000.

Definition generation_default : Generation := mkGeneration [] index_default.
Definition history_default : HeapPacketHashHistory :=
  mkHistory generation_default generation_default.

Definition generation_contains (g : Generation) (hash : list Z) : run bool :=
  index_contains (buckets g) hash (hashes g).
Definition generation_insert (g : Generation) (hash : list Z) : run Generation :=
  let hs := hashes g ++ [hash] in
  ix ← index_insert (buckets g) (length hs - 1)%nat hs;
  Done (mkGeneration hs ix).
Definition clear_retaining_capacity (g : Generation) : Generation :=
  mkGeneration [] (index_clear (buckets g)).

Definition contains (s : HeapPacketHashHistory) (hash : list Z) : run bool :=
  c ← generation_contains (current s) hash;
  if c : bool then Done true else generation_contains (previous s) hash.

Definition remember (s : HeapPacketHashHistory) (hash : list Z) :
    run (RememberPacketOutcome * HeapPacketHashHistory) :=
  let current_len := length (hashes (current s)) in
  let rotate :=
    (* mem::swap *)
    g ← generation_insert (clear_retaining_capacity (previous s)) hash;
    Done (StoredAfterRotation, mkHistory g (current s)) in
  e ← entry (buckets (current s)) hash (hashes (current s));
  match e with
  | None => Done (AlreadyKnown, s)
  | Some vacancy =>
      p ← generation_contains (previous s) hash;
      if p : bool then Done (AlreadyKnown, s) else
      if (Z.of_nat current_len <? RNS_GENERATION_CAPACITY)%Z then
        let hs := hashes (current s) ++ [hash] in
        ix ← vacant_insert (buckets (current s)) vacancy current_len hs;
        Done (StoredFresh, mkHistory (mkGeneration hs ix) (previous s))
      else rotate
  end.

#[global] Instance heap_history : PacketHashHistory HeapPacketHashHistory := {|
  hist_capacity := λ _, RNS_GENERATION_CAPACITY;
  hist_len := λ s, (length (hashes (current s)) + length (hashes (previous s)))%nat;
  hist_contains := contains;
  hist_remember := remember;
|}.

(** * The packed encoding *)

Lemma fingerprint_bound hash : (0 ≤ fingerprint hash < 2 ^ 13)%Z.
Proof.
  unfold fingerprint. change FINGERPRINT_MASK with (Z.ones 13).
  rewrite Z.land_ones by lia. apply Z.mod_pos_bound. lia.
Qed.

Lemma from_parts_sum f s :
  (0 ≤ f < 2 ^ 13)%Z → (Z.of_nat s < MAX_ROWS)%Z →
  from_parts f s = (f * 2 ^ 19 + (Z.of_nat s + 1))%Z.
Proof.
  intros Hf Hs. change MAX_ROWS with (2 ^ 19 - 1)%Z in Hs. unfold from_parts, SLOT_BITS, shl.
  rewrite (wrap_small 32 (Z.of_nat s)) by (unfold in_width; lia).
  rewrite Z.shiftl_mul_pow2, wrap_small by (unfold in_width; lia).
  rewrite <- Z.lxor_lor, <- Z.add_nocarry_lxor; [done| |]; apply Z.bits_inj'; intros n Hn;
    rewrite Z.land_spec, Z.bits_0; destruct (Z.ltb_spec n 19) as [Hlt|Hge].
  all: try (rewrite Z.mul_pow2_bits_low by lia; done).
  all: rewrite (Z.bits_above_log2 (Z.of_nat s + 1)); [by rewrite andb_false_r|lia|].
  all: apply Z.log2_lt_pow2; [lia|]. all: apply Z.lt_le_trans with (2 ^ 19)%Z; [lia|].
  all: apply Z.pow_le_mono_r; lia.
Qed.

Lemma slot_from_parts f s :
  (0 ≤ f < 2 ^ 13)%Z → (Z.of_nat s < MAX_ROWS)%Z → slot (from_parts f s) = Some s.
Proof.
  intros Hf Hs. rewrite from_parts_sum by done. unfold slot. change SLOT_MASK with (Z.ones 19).
  rewrite Z.land_ones by lia. change MAX_ROWS with (2 ^ 19 - 1)%Z in Hs.
  rewrite Z.add_comm, Z.mod_add, Z.mod_small by lia.
  destruct (Z.eqb_spec (Z.of_nat s + 1) 0); [lia|]. f_equal. lia.
Qed.

Lemma matches_from_parts f s f' :
  (0 ≤ f < 2 ^ 13)%Z → (Z.of_nat s < MAX_ROWS)%Z → matches (from_parts f s) f' = (f =? f')%Z.
Proof.
  intros Hf Hs. rewrite from_parts_sum by done. unfold matches, SLOT_BITS.
  change MAX_ROWS with (2 ^ 19 - 1)%Z in Hs.
  rewrite Z.shiftr_div_pow2, Z.div_add_l, (Z.div_small (Z.of_nat s + 1)), Z.add_0_r by lia.
  by rewrite wrap_small by (unfold in_width; lia).
Qed.

Lemma slot_bound b s : slot b = Some s → (Z.of_nat s < MAX_ROWS)%Z.
Proof.
  unfold slot. change SLOT_MASK with (Z.ones 19). rewrite Z.land_ones by lia.
  change MAX_ROWS with (2 ^ 19 - 1)%Z. pose proof (Z.mod_pos_bound b (2 ^ 19) ltac:(lia)).
  destruct (Z.eqb_spec (b mod 2 ^ 19) 0); intros; inv_run. lia.
Qed.

(** * Simulation of the plain row index *)

Section simulation.
Implicit Types (bs : list Z) (rows : list (list Z)).

(** A bucket without its fingerprint. *)
Definition unpack1 (b : Z) : Z := match slot b with None => Heap.EMPTY | Some s => Z.of_nat s end.
Definition unpack bs : list Z := unpack1 <$> bs.

(** Every bucket is empty or the packing of a row. *)
Definition packed_ok bs rows : Prop :=
  Forall (λ b, b = PackedBucket_EMPTY ∨ ∃ s row, rows !! s = Some row
    ∧ (Z.of_nat s < MAX_ROWS)%Z ∧ b = occupied row s) bs.

Lemma unpack1_occupied row s :
  (Z.of_nat s < MAX_ROWS)%Z → unpack1 (occupied row s) = Z.of_nat s.
Proof.
  intros. unfold unpack1, occupied. by rewrite slot_from_parts by (done || apply fingerprint_bound).
Qed.

Lemma row_not_empty s : (Z.of_nat s < MAX_ROWS)%Z → Z.of_nat s ≠ Heap.EMPTY.
Proof. change MAX_ROWS with (2 ^ 19 - 1)%Z. change Heap.EMPTY with (2 ^ 32 - 1)%Z. lia. Qed.

Lemma length_unpack bs : length (unpack bs) = length bs.
Proof. apply length_fmap. Qed.

Lemma index_unpack bs p :
  index (unpack bs) p = (b ← index bs p; Done (unpack1 b)).
Proof. unfold index, unpack. rewrite list_lookup_fmap. by destruct (bs !! p). Qed.

Lemma packed_ok_lookup bs rows p b :
  packed_ok bs rows → bs !! p = Some b →
  (b = PackedBucket_EMPTY ∧ slot b = None ∧ unpack1 b = Heap.EMPTY)
  ∨ ∃ s row, rows !! s = Some row ∧ b = occupied row s ∧ slot b = Some s
      ∧ unpack1 b = Z.of_nat s ∧ unpack1 b ≠ Heap.EMPTY ∧ b ≠ PackedBucket_EMPTY.
Proof.
  intros Hok Hb. unfold packed_ok in Hok. rewrite Forall_lookup in Hok.
  destruct (Hok p b Hb) as [->|(s & row & Hrow & Hs & ->)]; [by left|right].
  assert (Hslot : slot (occupied row s) = Some s).
  { apply slot_from_parts; [apply fingerprint_bound|done]. }
  assert (Hun : unpack1 (occupied row s) = Z.of_nat s) by (by apply unpack1_occupied).
  exists s, row. split; [done|]. split; [done|]. split; [done|]. split; [done|]. rewrite Hun.
  split; [by apply row_not_empty|]. intros E. by rewrite E in Hslot.
Qed.

Lemma next_position_eq bs p : p < length bs → next_position bs p = next (length bs) p.
Proof.
  intros Hp. unfold next_position. destruct (next_spec _ _ Hp) as [[? ->]|[-> ->]].
  - destruct (Nat.eqb_spec (p + 1) (length bs)); [lia|done].
  - by rewrite Nat.eqb_refl.
Qed.

Lemma next_lt n p : p < n → next n p < n.
Proof. intros Hp. destruct (next_spec n p Hp); lia. Qed.

Lemma vacancy_loop_eq fuel bs rows p :
  packed_ok bs rows → p < length bs →
  vacancy_loop fuel bs p = vacant_loop Heap.EMPTY fuel (unpack bs) p.
Proof.
  intros Hok. revert p. induction fuel as [|fuel IH]; intros p Hp; [done|].
  cbn [vacancy_loop vacant_loop]. rewrite index_unpack, length_unpack.
  destruct (lookup_lt_is_Some_2 bs p Hp) as [b Hb].
  rewrite (index_lookup _ _ _ Hb). cbn [mbind run_bind].
  destruct (packed_ok_lookup _ _ _ _ Hok Hb) as [(-> & _ & ->)|(s & row & _ & _ & _ & _ & Hne & Hnz)].
  - done.
  - rewrite !(proj2 (Z.eqb_neq _ _)) by done.
    rewrite next_position_eq by done. apply IH. by apply next_lt.
Qed.

(** The probe stops at the key or at the vacancy where the key would be inserted. *)
Lemma probe_loop_eq fuel bs rows target p :
  packed_ok bs rows → p < length bs →
  probe_loop fuel bs rows target (fingerprint target) p
  = (found ← position_loop Heap.EMPTY fuel (unpack bs) rows target p;
     match found with
     | Some _ => Done Occupied
     | None => v ← vacant_loop Heap.EMPTY fuel (unpack bs) p; Done (Vacant v)
     end).
Proof.
  intros Hok. revert p. induction fuel as [|fuel IH]; intros p Hp; [done|].
  cbn [probe_loop position_loop vacant_loop]. rewrite index_unpack, length_unpack.
  destruct (lookup_lt_is_Some_2 bs p Hp) as [b Hb].
  rewrite (index_lookup _ _ _ Hb). cbn [mbind run_bind].
  destruct (packed_ok_lookup _ _ _ _ Hok Hb)
    as [(-> & -> & ->)|(s & row & Hrow & Hbo & Hslot & Hun & Hne & Hnz)]; [done|].
  pose proof (slot_bound _ _ Hslot) as Hs. rewrite Hslot, Hun. rewrite Hun in Hne.
  rewrite (proj2 (Z.eqb_neq _ _)) by done. rewrite Nat2Z.id, (index_lookup _ _ _ Hrow).
  assert (Hm : matches b (fingerprint target) = (fingerprint row =? fingerprint target)%Z).
  { rewrite Hbo. apply matches_from_parts; [apply fingerprint_bound|done]. }
  rewrite Hm. cbn [mbind run_bind]. rewrite next_position_eq by done.
  specialize (IH (next (length bs) p) ltac:(by apply next_lt)).
  change (index_key row) with row. case_decide as Ht.
  - subst row. rewrite Z.eqb_refl. cbn [mbind run_bind]. by rewrite bool_decide_true.
  - destruct (Z.eqb_spec (fingerprint row) (fingerprint target)); cbn [mbind run_bind];
      rewrite ?bool_decide_false by done; exact IH.
Qed.

Lemma place_simulates bs rows s row slots' :
  packed_ok bs rows → rows !! s = Some row → (Z.of_nat s < MAX_ROWS)%Z →
  hash_bucket bs row < length bs →
  Heap.place (unpack bs) s rows = Done slots' →
  ∃ bs', index_place bs s rows = Done bs' ∧ packed_ok bs' rows ∧ slots' = unpack bs'.
Proof.
  intros Hok Hrow Hs Hb. unfold Heap.place, insert, index_place.
  rewrite (index_lookup _ _ _ Hrow). cbn [mbind run_bind].
  rewrite length_unpack. rewrite (vacancy_loop_eq _ bs rows) by done.
  change (bucket (length bs) (lemire_key (index_key row))) with (hash_bucket bs row).
  destruct (vacant_loop _ _ _ _) as [p| |]; cbn [mbind run_bind]; [|done..].
  unfold store. rewrite length_unpack. case_decide; [|done]. intros [= <-].
  eexists. split; [done|]. split.
  - apply Forall_insert; [done|]. right. by exists s, row.
  - unfold unpack. rewrite list_fmap_insert, unpack1_occupied by done. f_equal.
    apply wrap_small. change MAX_ROWS with (2 ^ 19 - 1)%Z in Hs. unfold in_width. lia.
Qed.

Lemma hash_bucket_lt bs row : 0 < length bs → is_u64 (lemire_key row) → hash_bucket bs row < length bs.
Proof. apply bucket_lt. Qed.

Lemma place_from_simulates todo bs rows s slots' :
  packed_ok bs rows → keys_ok rows → 0 < length bs → s + todo = length rows →
  (Z.of_nat (length rows) ≤ MAX_ROWS)%Z →
  Heap.place_from todo (unpack bs) s rows = Done slots' →
  ∃ bs', index_place_from todo bs s rows = Done bs' ∧ packed_ok bs' rows ∧ slots' = unpack bs'.
Proof.
  revert bs s. induction todo as [|todo IH]; intros bs s Hok Hk Hl Hn Hmax.
  { intros [= <-]. by exists bs. }
  cbn [Heap.place_from index_place_from].
  destruct (lookup_lt_is_Some_2 rows s) as [row Hrow]; [lia|].
  destruct (Heap.place (unpack bs) s rows) as [slots1| |] eqn:E1; cbn [mbind run_bind]; [|done..].
  assert (Hkey : is_u64 (lemire_key row)).
  { unfold keys_ok in Hk. rewrite Forall_lookup in Hk. by apply (Hk s). }
  destruct (place_simulates bs rows s row slots1) as (bs1 & E & Hok1 & ->);
    [done..|lia|by apply hash_bucket_lt|done|].
  rewrite E. cbn [mbind run_bind]. apply IH; try done; [|lia].
  unfold index_place in E. rewrite (index_lookup _ _ _ Hrow) in E. cbn [mbind run_bind] in E.
  destruct (vacancy_loop _ _ _) as [p| |]; cbn [mbind run_bind] in E; [|done..].
  unfold store in E. case_decide; [|done]. injection E as <-. by rewrite length_insert.
Qed.

Lemma rebuild_simulates bs rows slots' :
  keys_ok rows → (Z.of_nat (length rows) ≤ MAX_ROWS)%Z →
  Heap.rebuild (unpack bs) rows = Done slots' →
  ∃ bs', index_rebuild bs rows = Done bs' ∧ packed_ok bs' rows ∧ slots' = unpack bs'.
Proof.
  intros Hk Hmax. unfold Heap.rebuild, index_rebuild. rewrite length_unpack.
  change Heap.MIN_BUCKETS with MIN_BUCKETS.
  destruct (Heap.grow_loop_spec 64 (Z.of_nat (length rows)) (Z.of_nat (length bs `max` MIN_BUCKETS)))
    as (b & -> & Hb & _).
  { unfold MIN_BUCKETS. lia. }
  { change MAX_ROWS with (2 ^ 19 - 1)%Z in Hmax. change Heap.MAX_ROWS with (2 ^ 32 - 1)%Z. lia. }
  { change MAX_ROWS with (2 ^ 19 - 1)%Z in Hmax. unfold MIN_BUCKETS. lia. }
  cbn [mbind run_bind]. unfold MIN_BUCKETS in Hb.
  replace (replicate (Z.to_nat b) Heap.EMPTY)
    with (unpack (replicate (Z.to_nat b) PackedBucket_EMPTY)) by (apply fmap_replicate).
  apply place_from_simulates; try done.
  - apply list.Forall_replicate. by left.
  - rewrite length_replicate. lia.
Qed.

(** ** The packed index holds every row *)

Definition packed_rep bs rows : Prop := packed_ok bs rows ∧ Heap.heap_rep (unpack bs) rows.

Lemma packed_rep_positive bs rows : packed_rep bs rows → 0 < length bs.
Proof. intros (_ & _ & Hm & _). rewrite length_unpack in Hm. unfold Heap.MIN_BUCKETS in Hm. lia. Qed.

(** What a probe of a well-formed index returns. *)
Lemma probe_spec bs rows target :
  packed_rep bs rows → is_u64 (lemire_key target) →
  (probe bs target rows = Done Occupied ∧ target ∈ rows)
  ∨ (∃ v, probe bs target rows = Done (Vacant v) ∧ (target ∉ rows)
      ∧ vacant_loop Heap.EMPTY (S (length bs)) (unpack bs) (hash_bucket bs target) = Done v).
Proof.
  intros Hrep Hk. pose proof (packed_rep_positive _ _ Hrep) as Hpos.
  destruct Hrep as (Hok & Hrep & _). unfold probe.
  rewrite probe_loop_eq by (done || by apply hash_bucket_lt).
  pose proof (represents_position _ _ _ _ target Hrep Hk) as Hp. unfold position in Hp.
  rewrite length_unpack in Hp.
  change (bucket (length bs) (lemire_key target)) with (hash_bucket bs target) in Hp.
  destruct Hp as [(p & i & -> & _ & _ & _ & row & Hrow & <-)|[-> Hnone]]; cbn [mbind run_bind].
  - left. split; [done|]. by eapply list_elem_of_lookup_2.
  - right. destruct (vacant_loop_spec Heap.EMPTY (S (length bs)) (unpack bs)
      (hash_bucket bs target) (hash_bucket bs target)) as (v & Hv & _ & _).
    { destruct Hrep as [Hwf _]. destruct (wf_room _ _ _ _ Hwf) as (e & He & _). by exists e. }
    { rewrite length_unpack. by apply hash_bucket_lt. }
    { rewrite length_unpack. by apply hash_bucket_lt. }
    { rewrite length_unpack. cyc. }
    { rewrite length_unpack. intros; cyc. }
    rewrite Hv. cbn [mbind run_bind]. exists v. split; [done|]. split; [|done].
    intros [i Hi]%list_elem_of_lookup. apply (Hnone i). split; [by eapply lookup_lt_Some|].
    by exists target.
Qed.

Lemma packed_ok_app bs rows more : packed_ok bs rows → packed_ok bs (rows ++ more).
Proof.
  apply Forall_impl. intros b [->|(s & row & Hrow & Hs & ->)]; [by left|right].
  exists s, row. split; [|done]. by apply lookup_app_l_Some.
Qed.

Lemma index_insert_spec bs rows hash :
  packed_rep bs rows → keys_ok (rows ++ [hash]) → (Z.of_nat (length rows) < MAX_ROWS)%Z →
  ∃ bs', index_insert bs (length rows) (rows ++ [hash]) = Done bs'
    ∧ packed_rep bs' (rows ++ [hash]).
Proof.
  intros Hrep Hk Hmax. pose proof (packed_rep_positive _ _ Hrep) as Hpos.
  destruct Hrep as [Hok Hrep].
  assert (Hlast : (rows ++ [hash]) !! length rows = Some hash).
  { by rewrite lookup_app_r, Nat.sub_diag by lia. }
  assert (Hmax' : (Z.of_nat (length (rows ++ [hash])) ≤ MAX_ROWS)%Z).
  { rewrite length_app. cbn [length]. lia. }
  destruct (Heap.heap_insert_spec (unpack bs) rows hash Hrep Hk) as (slots' & E & Hrep').
  { change MAX_ROWS with (2 ^ 19 - 1)%Z in Hmax. change Heap.MAX_ROWS with (2 ^ 32 - 1)%Z. lia. }
  unfold Heap.heap_insert in E. unfold index_insert. rewrite length_unpack in E.
  destruct (exceeds_two_thirds_load _ _).
  - destruct (rebuild_simulates bs _ slots' Hk Hmax' E) as (bs' & -> & Hok' & ->).
    by exists bs'.
  - destruct (place_simulates bs (rows ++ [hash]) (length rows) hash slots') as (bs' & -> & Hok' & ->);
      [by apply packed_ok_app|done|done| |done|by exists bs'].
    apply hash_bucket_lt; [done|]. unfold keys_ok in Hk.
    rewrite Forall_app, Forall_singleton in Hk. apply Hk.
Qed.

(** Filling the vacancy a probe returned is inserting. *)
Lemma vacant_insert_eq bs rows hash v :
  packed_ok bs rows → 0 < length bs → is_u64 (lemire_key hash) →
  vacant_loop Heap.EMPTY (S (length bs)) (unpack bs) (hash_bucket bs hash) = Done v →
  vacant_insert bs (v, fingerprint hash) (length rows) (rows ++ [hash])
  = index_insert bs (length rows) (rows ++ [hash]).
Proof.
  intros Hok Hpos Hk Hv. unfold vacant_insert, index_insert.
  destruct (exceeds_two_thirds_load _ _); [done|]. unfold index_place.
  rewrite (index_lookup _ _ hash) by (by rewrite lookup_app_r, Nat.sub_diag by lia).
  cbn [mbind run_bind]. rewrite (vacancy_loop_eq _ bs rows) by (done || by apply hash_bucket_lt).
  by rewrite Hv.
Qed.

(** ** The history *)

Record gen_rep (g : Generation) : Prop := {
  gr_bytes : Forall (Forall is_u8) (hashes g);
  gr_cap : (Z.of_nat (length (hashes g)) ≤ RNS_GENERATION_CAPACITY)%Z;
  gr_packed : packed_rep (buckets g) (hashes g);
}.

Definition heap_history_rep (s : HeapPacketHashHistory) (g : generations) : Prop :=
  gen_rep (current s) ∧ gen_rep (previous s)
  ∧ cur g = hashes (current s) ∧ prev g = hashes (previous s).

Lemma generation_contains_spec g hash :
  gen_rep g → is_packet_hash hash →
  generation_contains g hash = Done (bool_decide (hash ∈ hashes g)).
Proof.
  intros [_ _ Hp] [_ Hh]. unfold generation_contains, index_contains.
  destruct (probe_spec _ _ hash Hp (lemire_key_u64 hash)) as [[-> Hin]|(v & -> & Hin & _)];
    cbn [mbind run_bind]; [by rewrite bool_decide_true|by rewrite bool_decide_false].
Qed.

Lemma generation_insert_spec g hash :
  gen_rep g → is_packet_hash hash →
  (Z.of_nat (length (hashes g)) < RNS_GENERATION_CAPACITY)%Z →
  ∃ ix, index_insert (buckets g) (length (hashes g)) (hashes g ++ [hash]) = Done ix
    ∧ gen_rep (mkGeneration (hashes g ++ [hash]) ix).
Proof.
  intros [Hb _ Hp] [_ Hh] Hlt.
  assert (Hb' : Forall (Forall is_u8) (hashes g ++ [hash])).
  { apply Forall_app. split; [done|]. by apply Forall_singleton. }
  destruct (index_insert_spec (buckets g) (hashes g) hash Hp) as (ix & -> & Hp').
  - by apply hashes_keys_ok.
  - change MAX_ROWS with 524287%Z. unfold RNS_GENERATION_CAPACITY in Hlt. lia.
  - exists ix. split; [done|]. split; cbn; [done| |done]. rewrite length_app. cbn [length]. lia.
Qed.

Lemma clear_rep g : gen_rep g → gen_rep (clear_retaining_capacity g).
Proof.
  intros [_ _ (Hok & Hrep & Hmin & _)]. rewrite length_unpack in Hmin.
  split; cbn; [constructor|done|]. unfold index_clear.
  assert (Hun : unpack (replicate (length (buckets g)) PackedBucket_EMPTY)
    = new Heap.EMPTY (length (buckets g))) by apply fmap_replicate.
  split; [apply list.Forall_replicate; by left|]. unfold Heap.heap_rep. rewrite Hun.
  unfold Heap.MIN_BUCKETS in *. split.
  - apply represents_new; [lia|constructor].
  - unfold new. rewrite length_replicate. split; [done|]. apply Heap.fits_of_half; cbn; lia.
Qed.

Lemma heap_contains_spec s g hash :
  heap_history_rep s g → is_packet_hash hash → contains s hash = Done (known g hash).
Proof.
  intros (Hc & Hp & Ecur & Eprev) Hh. unfold contains, known.
  rewrite !generation_contains_spec by done. cbn [mbind run_bind]. rewrite Ecur, Eprev.
  by destruct (bool_decide (hash ∈ hashes (current s))).
Qed.

Lemma heap_remember_refines s g hash :
  heap_history_rep s g → is_packet_hash hash →
  ∃ s', remember s hash = Done ((remember_spec RNS_GENERATION_CAPACITY g hash).1, s')
    ∧ heap_history_rep s' (remember_spec RNS_GENERATION_CAPACITY g hash).2.
Proof.
  intros (Hc & Hp & Ecur & Eprev) Hh. unfold remember, remember_spec, known, entry.
  destruct Hh as [Hl Hb]. pose proof (lemire_key_u64 hash) as Hk.
  rewrite Ecur, Eprev. pose proof (gr_packed _ Hc) as Hpk.
  destruct (probe_spec _ _ hash Hpk Hk) as [[-> Hin]|(v & -> & Hin & Hv)]; cbn [mbind run_bind].
  { rewrite bool_decide_true by done. by exists s. }
  rewrite bool_decide_false, generation_contains_spec by done. cbn [mbind run_bind orb].
  destruct (bool_decide (hash ∈ hashes (previous s))); [by exists s|].
  destruct (Z.ltb_spec (Z.of_nat (length (hashes (current s)))) RNS_GENERATION_CAPACITY) as [Hlt|Hge].
  - rewrite vacant_insert_eq; [|apply Hpk|by eapply packed_rep_positive|done|done].
    destruct (generation_insert_spec (current s) hash) as (ix & -> & Hg); [done..|].
    eexists. split; [done|]. split; [done|]. split; [done|]. done.
  - unfold generation_insert. cbn [clear_retaining_capacity hashes buckets].
    destruct (generation_insert_spec (clear_retaining_capacity (previous s)) hash)
      as (ix & E & Hg); [by apply clear_rep|done|done|].
    cbn in E. cbn -[index_insert]. rewrite E. eexists. split; [done|]. split; [done|]. done.
Qed.

Lemma history_default_rep : heap_history_rep history_default (mkGenerations [] []).
Proof.
  assert (Hg : gen_rep generation_default).
  { split; cbn; [constructor|done|]. split; [repeat constructor|].
    split; [|split; [exact (le_n 8)|done]].
    exact (represents_new Heap.EMPTY 8 [] ltac:(lia) ltac:(constructor)). }
  done.
Qed.

Definition heap_refines : HistoryRefines HeapPacketHashHistory RNS_GENERATION_CAPACITY.
Proof.
  refine {| rep := heap_history_rep |}.
  - done.
  - intros s g (_ & _ & -> & ->). done.
  - apply heap_contains_spec.
  - apply heap_remember_refines.
Defined.
End simulation.

(** * Properties of the duplicate filter *)

(** C9. The heap filter, with its packed buckets, fingerprints, vacancy entries and rebuilds,
    implements the two-generation contract: from its default state every sequence of packets
    gets the outcomes of the specification, without a panic, and the answers of [contains]
    and [len] are the specification's. *)
Theorem heap_history_implements_contract packets hash :
  Forall is_packet_hash packets → is_packet_hash hash →
  ∃ s', remember_all history_default packets
        = Done ((remember_all_spec RNS_GENERATION_CAPACITY (mkGenerations [] []) packets).1, s')
    ∧ hist_contains s' hash
      = Done (known (remember_all_spec RNS_GENERATION_CAPACITY (mkGenerations [] []) packets).2 hash)
    ∧ (let g := (remember_all_spec RNS_GENERATION_CAPACITY (mkGenerations [] []) packets).2 in
       hist_len s' = length (cur g) + length (prev g)).
Proof.
  intros Hp Hh. pose proof heap_refines as R.
  destruct (remember_all_refines (R := heap_refines) history_default _ packets
    history_default_rep Hp) as (s' & -> & Hrep).
  exists s'. split; [done|]. split.
  - by apply (rep_contains (HistoryRefines := heap_refines)).
  - by apply (rep_len (HistoryRefines := heap_refines)).
Qed.

Definition hash_1 : list Z := replicate 32 7%Z.
Definition hash_2 : list Z := replicate 16 7%Z ++ replicate 16 9%Z.

Lemma hashes_ok : Forall is_packet_hash [hash_1; hash_2; hash_1].
Proof. repeat constructor; by vm_compute. Qed.

Lemma heap_history_implements_contract_witness :
  ∃ s', remember_all history_default [hash_1; hash_2; hash_1]
        = Done ([StoredFresh; StoredFresh; AlreadyKnown], s')
    ∧ hist_contains s' hash_2 = Done true ∧ hist_len s' = 2%nat.
Proof.
  destruct (heap_history_implements_contract [hash_1; hash_2; hash_1] hash_2)
    as (s' & E & Hc & Hl).
  - exact hashes_ok.
  - split; [done|]. repeat constructor; by vm_compute.
  - exists s'. split; [exact E|]. split; [exact Hc|exact Hl].
Defined.
