(* ===== verification/DeadlineHeap.v ===== *)
(** The deadline index of the routing tables:
    [prns-core/src/routing/temporal_index/deadline_heap.rs].

    A binary min-heap of row numbers ordered by a deadline the caller looks up
    ([deadline_of], the closure argument of every operation), with the inverse array
    [positions].  Rows are pushed at the end of the owning table and removed by swapping in
    its last row; the index follows.  [deadline_of] is a pure lookup in the owning table, so it
    is a function here. *)

From stdpp Require Import sorting.
From S2P Require Import Prelude.

Definition HEAP_LINEAR_CULL_DENSITY_DENOMINATOR : Z := 25.
Definition LINEAR_CULL_MIN_CANDIDATES : Z := 4096.

Inductive IndexReadiness := Ready | Invalid | LinearFallback.
#[global] Instance IndexReadiness_eq_dec : EqDecision IndexReadiness.
Proof. solve_decision. Defined.

Record HeapDeadlineIndex := mkIndex {
  readiness : IndexReadiness;
  heap : list Z;
  positions : list Z;
}.

Definition default_index : HeapDeadlineIndex := mkIndex Ready [] [].
Definition ABSENT : Z := u32_max.

(** * Operations *)

Definition invalidate (ix : HeapDeadlineIndex) : HeapDeadlineIndex :=
  mkIndex Invalid (heap ix) (positions ix).
Definition use_linear_fallback (ix : HeapDeadlineIndex) : HeapDeadlineIndex :=
  mkIndex LinearFallback [] [].

Definition needs_rebuild (ix : HeapDeadlineIndex) (row_count : nat) : bool :=
  match readiness ix with
  | Ready => negb (length (positions ix) =? row_count)%nat
  | Invalid => true
  | LinearFallback => false
  end.

Section operations.
Context (deadline_of : nat → option Z).

Definition deadline (row : Z) : Z := default u64_max (deadline_of (Z.to_nat row)).

(** [(0..row_count).filter_map(deadline_of).min()] *)
Definition linear_min (row_count : nat) : option Z :=
  foldr (λ d acc, Some (match acc with None => d | Some m => Z.min d m end)) None
    (omap deadline_of (seq 0 row_count)).

(** [(0..row_count).find(..)] *)
Definition is_due (now : Z) (row : nat) : bool :=
  match deadline_of row with Some at_ => (at_ <=? now)%Z | None => false end.
Definition linear_find (row_count : nat) (now : Z) (predicate : nat → bool) : option nat :=
  find (λ row, is_due now row && predicate row) (seq 0 row_count).

Definition swap (ix : HeapDeadlineIndex) (a b : nat) : run HeapDeadlineIndex :=
  x ← index (heap ix) a;
  y ← index (heap ix) b;
  h ← store (heap ix) a y;
  h ← store h b x;
  ra ← index h a;
  ps ← store (positions ix) (Z.to_nat ra) (wrap 32 (Z.of_nat a));
  rb ← index h b;
  ps ← store ps (Z.to_nat rb) (wrap 32 (Z.of_nat b));
  Done (mkIndex (readiness ix) h ps).

Fixpoint sift_up_loop (fuel : nat) (ix : HeapDeadlineIndex) (position : nat) :
    run HeapDeadlineIndex :=
  match fuel with
  | O => OutOfFuel
  | S fuel =>
      if (0 <? position)%nat then
        let parent := ((position - 1) / 2)%nat in
        rp ← index (heap ix) parent;
        r ← index (heap ix) position;
        if (deadline rp <=? deadline r)%Z then Done ix else
        ix ← swap ix parent position;
        sift_up_loop fuel ix parent
      else Done ix
  end.
Definition sift_up (ix : HeapDeadlineIndex) (position : nat) : run HeapDeadlineIndex :=
  sift_up_loop (S position) ix position.

Fixpoint sift_down_loop (fuel : nat) (ix : HeapDeadlineIndex) (position : nat) :
    run HeapDeadlineIndex :=
  match fuel with
  | O => OutOfFuel
  | S fuel =>
      let left := (position * 2 + 1)%nat in
      if (length (heap ix) <=? left)%nat then Done ix else
      let right := (left + 1)%nat in
      child ←
        (if (right <? length (heap ix))%nat then
           rr ← index (heap ix) right;
           rl ← index (heap ix) left;
           Done (if (deadline rr <? deadline rl)%Z then right else left)
         else Done left);
      r ← index (heap ix) position;
      rc ← index (heap ix) child;
      if (deadline r <=? deadline rc)%Z then Done ix else
      ix ← swap ix position child;
      sift_down_loop fuel ix child
  end.
Definition sift_down (ix : HeapDeadlineIndex) (position : nat) : run HeapDeadlineIndex :=
  sift_down_loop (S (length (heap ix))) ix position.

Definition repair (ix : HeapDeadlineIndex) (position : nat) : run HeapDeadlineIndex :=
  if (0 <? position)%nat then
    let parent := ((position - 1) / 2)%nat in
    r ← index (heap ix) position;
    rp ← index (heap ix) parent;
    if (deadline r <? deadline rp)%Z then sift_up ix position else sift_down ix position
  else sift_down ix position.

(** The first loop of [rebuild], from row [row]. *)
Fixpoint fill_loop (todo : nat) (ix : HeapDeadlineIndex) (row : nat) : run HeapDeadlineIndex :=
  match todo with
  | O => Done ix
  | S todo =>
      ix ← (if deadline_of row is Some _ then
              ps ← store (positions ix) row (wrap 32 (Z.of_nat (length (heap ix))));
              Done (mkIndex (readiness ix) (heap ix ++ [wrap 32 (Z.of_nat row)]) ps)
            else Done ix);
      fill_loop todo ix (S row)
  end.

(** Its second loop: [for position in (0..n).rev()]. *)
Fixpoint heapify_loop (n : nat) (ix : HeapDeadlineIndex) : run HeapDeadlineIndex :=
  match n with
  | O => Done ix
  | S position => ix ← sift_down ix position; heapify_loop position ix
  end.

Definition rebuild (ix : HeapDeadlineIndex) (row_count : nat) : run HeapDeadlineIndex :=
  if (ABSENT <? Z.of_nat row_count)%Z then Done (use_linear_fallback ix) else
  ix ← fill_loop row_count (mkIndex (readiness ix) [] (replicate row_count ABSENT)) 0;
  ix ← heapify_loop (length (heap ix) / 2) ix;
  Done (mkIndex Ready (heap ix) (positions ix)).

Definition prepare (ix : HeapDeadlineIndex) (row_count : nat) : run HeapDeadlineIndex :=
  if needs_rebuild ix row_count then rebuild ix row_count else Done ix.

Definition insert (ix : HeapDeadlineIndex) (row : nat) (deadline : option Z) :
    run HeapDeadlineIndex :=
  if negb (bool_decide (readiness ix = Ready)) || negb (row =? length (positions ix))%nat
  then Done (invalidate ix) else
  if (ABSENT <=? Z.of_nat row)%Z then Done (use_linear_fallback ix) else
  let ps := positions ix ++ [ABSENT] in
  match deadline with
  | Some _ =>
      ps ← store ps row (wrap 32 (Z.of_nat (length (heap ix))));
      let h := heap ix ++ [wrap 32 (Z.of_nat row)] in
      sift_up (mkIndex (readiness ix) h ps) (length h - 1)
  | None => Done (mkIndex (readiness ix) (heap ix) ps)
  end.

Definition pop {A} (xs : list A) : list A := take (length xs - 1) xs.

Definition remove (ix : HeapDeadlineIndex) (row : nat) : run HeapDeadlineIndex :=
  position ← index (positions ix) row;
  if (position =? ABSENT)%Z then Done ix else
  let position := Z.to_nat position in
  let last := (length (heap ix) - 1)%nat in
  ps ← store (positions ix) row ABSENT;
  if (position =? last)%nat then Done (mkIndex (readiness ix) (pop (heap ix)) ps) else
  moved ← index (heap ix) last;
  h ← store (heap ix) position moved;
  ps ← store ps (Z.to_nat moved) (wrap 32 (Z.of_nat position));
  repair (mkIndex (readiness ix) (pop h) ps) position.

Definition update (ix : HeapDeadlineIndex) (row : nat) (deadline : option Z) :
    run HeapDeadlineIndex :=
  if negb (bool_decide (readiness ix = Ready)) || (length (positions ix) <=? row)%nat
  then Done (invalidate ix) else
  position ← index (positions ix) row;
  match (position =? ABSENT)%Z, deadline with
  | true, Some _ =>
      ps ← store (positions ix) row (wrap 32 (Z.of_nat (length (heap ix))));
      let h := heap ix ++ [wrap 32 (Z.of_nat row)] in
      sift_up (mkIndex (readiness ix) h ps) (length h - 1)
  | false, None => remove ix row
  | false, Some _ => repair ix (Z.to_nat position)
  | true, None => Done ix
  end.

Definition swap_remove (ix : HeapDeadlineIndex) (removed last : nat) : run HeapDeadlineIndex :=
  if negb (bool_decide (readiness ix = Ready)) || (length (positions ix) <=? last)%nat
     || (last <? removed)%nat
  then Done (invalidate ix) else
  ix ← remove ix removed;
  ix ← (if (removed =? last)%nat then Done ix else
        position ← index (positions ix) last;
        ps ← store (positions ix) removed position;
        if (position =? ABSENT)%Z then Done (mkIndex (readiness ix) (heap ix) ps) else
        h ← store (heap ix) (Z.to_nat position) (wrap 32 (Z.of_nat removed));
        Done (mkIndex (readiness ix) h ps));
  Done (mkIndex (readiness ix) (heap ix) (pop (positions ix))).

Definition earliest_exact (ix : HeapDeadlineIndex) (row_count : nat) :
    run (option Z * HeapDeadlineIndex) :=
  ix ← prepare ix row_count;
  if bool_decide (readiness ix = LinearFallback) then Done (linear_min row_count, ix) else
  match heap ix with
  | [] => Done (None, ix)
  | row :: _ =>
      match deadline_of (Z.to_nat row) with
      | Some deadline => Done (Some deadline, ix)
      | None => Done (linear_min row_count, invalidate ix)
      end
  end.

Definition eager_earliest_exact (ix : HeapDeadlineIndex) (row_count : nat) : option Z :=
  if negb (bool_decide (readiness ix = Ready)) || negb (length (positions ix) =? row_count)%nat
  then linear_min row_count else
  match heap ix with
  | [] => None
  | row :: _ =>
      match deadline_of (Z.to_nat row) with
      | Some deadline => Some deadline
      | None => linear_min row_count
      end
  end.

Definition eager_first_due (ix : HeapDeadlineIndex) (row_count : nat) (now : Z) : option nat :=
  if negb (bool_decide (readiness ix = Ready)) || negb (length (positions ix) =? row_count)%nat
  then linear_find row_count now (λ _, true) else
  match heap ix with
  | [] => None
  | row :: _ =>
      match deadline_of (Z.to_nat row) with
      | Some at_ => if (at_ <=? now)%Z then Some (Z.to_nat row) else None
      | None => linear_find row_count now (λ _, true)
      end
  end.

Definition first_due_matching (ix : HeapDeadlineIndex) (row_count : nat) (now : Z)
    (predicate : nat → bool) : run (option nat * HeapDeadlineIndex) :=
  ix ← prepare ix row_count;
  if bool_decide (readiness ix = LinearFallback)
  then Done (linear_find row_count now predicate, ix) else
  match heap ix with
  | [] => Done (None, ix)
  | first :: _ =>
      match deadline_of (Z.to_nat first) with
      | None => Done (linear_find row_count now predicate, invalidate ix)
      | Some first_deadline =>
          if (now <? first_deadline)%Z then Done (None, ix)
          else Done (find (λ row, is_due now row && predicate row) (Z.to_nat <$> heap ix), ix)
      end
  end.

Definition first_due (ix : HeapDeadlineIndex) (row_count : nat) (now : Z) :
    run (option nat * HeapDeadlineIndex) :=
  first_due_matching ix row_count now (λ _, true).

Fixpoint next_after_subtree_loop (fuel position len : nat) : run (option nat) :=
  match fuel with
  | O => OutOfFuel
  | S fuel =>
      if (0 <? position)%nat then
        if (position mod 2 =? 1)%nat && (position + 1 <? len)%nat then Done (Some (position + 1))
        else next_after_subtree_loop fuel ((position - 1) / 2) len
      else Done None
  end.
Definition next_after_subtree (position len : nat) : run (option nat) :=
  next_after_subtree_loop (S position) position len.

(** The traversal of [prefers_linear_cull]: preorder, skipping the subtrees of rows not due. *)
Fixpoint cull_loop (fuel : nat) (ix : HeapDeadlineIndex) (row_count : nat) (now : Z)
    (position : option nat) (candidates : Z) : run (bool * HeapDeadlineIndex) :=
  match fuel, position with
  | O, _ => OutOfFuel
  | S _, None => Done (false, ix)
  | S fuel, Some current =>
      row ← index (heap ix) current;
      match deadline_of (Z.to_nat row) with
      | None => Done (true, invalidate ix)
      | Some deadline =>
          if (deadline <=? now)%Z then
            let candidates := (candidates + 1)%Z in
            if (LINEAR_CULL_MIN_CANDIDATES <=? candidates)%Z
               && (Z.of_nat row_count <=?
                   saturating_mul 64 candidates HEAP_LINEAR_CULL_DENSITY_DENOMINATOR)%Z
            then Done (true, ix) else
            position ←
              (if (current <? length (heap ix) / 2)%nat then Done (Some (current * 2 + 1))
               else next_after_subtree current (length (heap ix)));
            cull_loop fuel ix row_count now position candidates
          else
            position ← next_after_subtree current (length (heap ix));
            cull_loop fuel ix row_count now position candidates
      end
  end.

Definition prefers_linear_cull (ix : HeapDeadlineIndex) (row_count : nat) (now : Z) :
    run (bool * HeapDeadlineIndex) :=
  ix ← prepare ix row_count;
  if negb (bool_decide (readiness ix = Ready)) then Done (true, ix) else
  cull_loop (S (length (heap ix))) ix row_count now
    (match heap ix with [] => None | _ :: _ => Some 0 end) 0.
End operations.

(** * The shape of an index: which row is where *)

(** [h] is the heap as row numbers, over a table of [n] rows. *)
Record shape (ix : HeapDeadlineIndex) (h : list nat) (n : nat) : Prop := {
  sh_heap : heap ix = Z.of_nat <$> h;
  sh_len : length (positions ix) = n;
  sh_max : (Z.of_nat n ≤ ABSENT)%Z;
  sh_rows : ∀ p row, h !! p = Some row → positions ix !! row = Some (Z.of_nat p);
  sh_absent : ∀ row, row < n → row ∉ h → positions ix !! row = Some ABSENT;
}.

Section shapes.
Implicit Types (ix : HeapDeadlineIndex) (h : list nat).

Lemma shape_row_lt ix h n p row : shape ix h n → h !! p = Some row → row < n.
Proof.
  intros Hs Hp. rewrite <- (sh_len _ _ _ Hs). eapply lookup_lt_Some. by eapply sh_rows.
Qed.

Lemma shape_inj ix h n p q row :
  shape ix h n → h !! p = Some row → h !! q = Some row → p = q.
Proof.
  intros Hs Hp Hq. pose proof (sh_rows _ _ _ Hs p row Hp). pose proof (sh_rows _ _ _ Hs q row Hq).
  apply Nat2Z.inj. congruence.
Qed.

Lemma shape_nodup ix h n : shape ix h n → NoDup h.
Proof. intros Hs. apply NoDup_alt. intros p q row. by eapply shape_inj. Qed.

Lemma shape_length ix h n : shape ix h n → length h ≤ n.
Proof.
  intros Hs. rewrite <- (length_seq n 0). apply submseteq_length, NoDup_submseteq.
  - by eapply shape_nodup.
  - intros row Hin%list_elem_of_lookup. destruct Hin as [p Hp]. apply elem_of_seq.
    pose proof (shape_row_lt _ _ _ _ _ Hs Hp). lia.
Qed.

Lemma shape_pos_small ix h n p : shape ix h n → p < length h → (Z.of_nat p < ABSENT)%Z.
Proof. intros Hs Hp. pose proof (shape_length _ _ _ Hs). pose proof (sh_max _ _ _ Hs). lia. Qed.

Lemma shape_index ix h n p row :
  shape ix h n → h !! p = Some row → index (heap ix) p = Done (Z.of_nat row).
Proof.
  intros Hs Hp. apply index_lookup. rewrite (sh_heap _ _ _ Hs), list_lookup_fmap, Hp. done.
Qed.

Lemma shape_heap_length ix h n : shape ix h n → length (heap ix) = length h.
Proof. intros Hs. by rewrite (sh_heap _ _ _ Hs), length_fmap. Qed.

Lemma wrap_row z n : (0 ≤ z)%Z → (z ≤ Z.of_nat n)%Z → (Z.of_nat n ≤ ABSENT)%Z → wrap 32 z = z.
Proof. intros. apply wrap_small. unfold ABSENT, u32_max, max_width, in_width in *. lia. Qed.

(** Exchanging two heap entries. *)
Definition exchange h (a b x y : nat) : list nat := <[b := x]> (<[a := y]> h).

Lemma exchange_lookup h a b x y p :
  h !! a = Some x → h !! b = Some y → a ≠ b →
  exchange h a b x y !! p = if decide (p = a) then Some y else if decide (p = b) then Some x else h !! p.
Proof.
  intros Ha Hb Hne. unfold exchange. pose proof (lookup_lt_Some _ _ _ Ha).
  pose proof (lookup_lt_Some _ _ _ Hb). repeat case_decide; subst.
  - by rewrite list_lookup_insert_ne, list_lookup_insert_eq by done.
  - by rewrite list_lookup_insert_eq by (by rewrite length_insert).
  - by rewrite !list_lookup_insert_ne by done.
Qed.

Lemma length_exchange h a b x y : length (exchange h a b x y) = length h.
Proof. unfold exchange. by rewrite !length_insert. Qed.

Lemma exchange_perm h a b x y :
  h !! a = Some x → h !! b = Some y → a ≠ b → exchange h a b x y ≡ₚ h.
Proof.
  intros Ha Hb Hne. apply Permutation_inj. split; [apply length_exchange|].
  exists (λ p, if decide (p = a) then b else if decide (p = b) then a else p). split.
  - intros p q. repeat case_decide; congruence.
  - intros p. rewrite exchange_lookup by done. repeat case_decide; congruence.
Qed.

Lemma swap_shape ix h n a b x y :
  shape ix h n → h !! a = Some x → h !! b = Some y → a ≠ b →
  ∃ ix', swap ix a b = Done ix' ∧ shape ix' (exchange h a b x y) n
    ∧ readiness ix' = readiness ix.
Proof.
  intros Hs Ha Hb Hne. pose proof (lookup_lt_Some _ _ _ Ha) as Hal.
  pose proof (lookup_lt_Some _ _ _ Hb) as Hbl.
  pose proof (shape_row_lt _ _ _ _ _ Hs Ha) as Hx. pose proof (shape_row_lt _ _ _ _ _ Hs Hb) as Hy.
  pose proof (shape_length _ _ _ Hs) as Hln. pose proof (sh_max _ _ _ Hs) as Hmax.
  assert (Hxy : x ≠ y). { intros ->. apply Hne. by eapply shape_inj. }
  unfold swap. rewrite (shape_index _ _ _ _ _ Hs Ha), (shape_index _ _ _ _ _ Hs Hb).
  cbn [mbind run_bind]. pose proof (sh_len _ _ _ Hs) as Hlen.
  rewrite store_done by (by rewrite (shape_heap_length _ _ _ Hs)). cbn [mbind run_bind].
  rewrite store_done by (by rewrite length_insert, (shape_heap_length _ _ _ Hs)).
  cbn [mbind run_bind].
  assert (Hh : <[b := Z.of_nat x]> (<[a := Z.of_nat y]> (heap ix)) = Z.of_nat <$> exchange h a b x y).
  { unfold exchange. by rewrite (sh_heap _ _ _ Hs), !list_fmap_insert. }
  assert (Hl : ∀ p row, exchange h a b x y !! p = Some row →
    index (Z.of_nat <$> exchange h a b x y) p = Done (Z.of_nat row)).
  { intros p row Hp. apply index_lookup. by rewrite list_lookup_fmap, Hp. }
  rewrite Hh, (Hl a y) by (by rewrite exchange_lookup, decide_True by done).
  cbn [mbind run_bind]. rewrite store_done by (rewrite Nat2Z.id; lia). cbn [mbind run_bind].
  rewrite (Hl b x) by (rewrite exchange_lookup, decide_False, decide_True by done; done).
  cbn [mbind run_bind]. rewrite store_done by (rewrite Nat2Z.id, length_insert; lia).
  cbn [mbind run_bind]. rewrite !Nat2Z.id, !(wrap_row _ n) by lia.
  eexists. split; [done|]. split; [|done]. split; cbn [heap positions].
  - done.
  - by rewrite !length_insert.
  - done.
  - intros p row Hp. rewrite exchange_lookup in Hp by done. repeat case_decide; inv_run.
    + by rewrite list_lookup_insert_ne, list_lookup_insert_eq by (done || lia).
    + by rewrite list_lookup_insert_eq by (rewrite length_insert; lia).
    + rewrite !list_lookup_insert_ne; [by eapply sh_rows| |].
      * intros <-. by pose proof (shape_inj _ _ _ _ _ _ Hs Hp Hb).
      * intros <-. by pose proof (shape_inj _ _ _ _ _ _ Hs Hp Ha).
  - intros row Hrow Hout. rewrite (exchange_perm h a b x y) in Hout by done.
    rewrite !list_lookup_insert_ne; [by eapply sh_absent| |]; intros <-; apply Hout.
    + by eapply list_elem_of_lookup_2.
    + by eapply list_elem_of_lookup_2.
Qed.
End shapes.

(** * Heap order *)

Section order.
Context (d : nat → option Z).
Implicit Types (ix : HeapDeadlineIndex) (h : list nat).

Definition child (c q : nat) : Prop := c = 2 * q + 1 ∨ c = 2 * q + 2.

Lemma parent_child p : 0 < p → child p ((p - 1) / 2).
Proof.
  intros. unfold child. pose proof (Nat.div_mod (p - 1) 2 ltac:(lia)).
  pose proof (Nat.mod_upper_bound (p - 1) 2 ltac:(lia)). lia.
Qed.

(** The deadline at a heap position. *)
Definition key h (p : nat) : Z := from_option (λ row, default u64_max (d row)) 0%Z (h !! p).

(** Order between positions whose parent is at least [lo] and satisfies [ok]. *)
Definition ordered_where (ok : nat → nat → Prop) h : Prop :=
  ∀ q c, child c q → c < length h → ok q c → (key h q ≤ key h c)%Z.

Definition ordered_from (lo : nat) h : Prop := ordered_where (λ q _, lo ≤ q) h.
Definition ordered h : Prop := ordered_from 0 h.

(** The children of [p] are not below its parent. *)
Definition skips (lo : nat) h (p : nat) : Prop :=
  ∀ q c, child p q → lo ≤ q → child c p → c < length h → (key h q ≤ key h c)%Z.

Lemma key_lookup h p row : h !! p = Some row → key h p = default u64_max (d row).
Proof. unfold key. by intros ->. Qed.

Lemma deadline_key h p row : h !! p = Some row → deadline d (Z.of_nat row) = key h p.
Proof. intros Hp. unfold deadline. by rewrite Nat2Z.id, (key_lookup _ _ _ Hp). Qed.

Lemma key_exchange h a b x y p :
  h !! a = Some x → h !! b = Some y → a ≠ b →
  key (exchange h a b x y) p
  = if decide (p = a) then key h b else if decide (p = b) then key h a else key h p.
Proof.
  intros Ha Hb Hne. unfold key at 1. rewrite exchange_lookup by done.
  repeat case_decide; subst; [by rewrite (key_lookup h b y)|by rewrite (key_lookup h a x)|done].
Qed.

(** [heap_cases]: split an order goal on which of its positions were exchanged. *)
Ltac heap_cases :=
  repeat match goal with
  | |- context [decide (?p = ?q)] => destruct (decide (p = q)); [subst|]
  end.

(** Sifting down restores the order below the position. *)
Lemma sift_down_loop_spec fuel ix h n lo p :
  shape ix h n → p < length h → lo ≤ p → length h - p < fuel →
  ordered_where (λ q _, lo ≤ q ∧ q ≠ p) h → skips lo h p →
  ∃ ix' h', sift_down_loop d fuel ix p = Done ix' ∧ shape ix' h' n ∧ h' ≡ₚ h
    ∧ ordered_from lo h' ∧ readiness ix' = readiness ix.
Proof.
  revert ix h p. induction fuel as [|fuel IH]; intros ix h p Hs Hp Hlo Hf Hord Hskip; [lia|].
  cbn [sift_down_loop]. rewrite (shape_heap_length _ _ _ Hs).
  destruct (lookup_lt_is_Some_2 h p Hp) as [r Hr].
  destruct (Nat.leb_spec (length h) (p * 2 + 1)) as [Hleaf|Hleft].
  { exists ix, h. do 3 (split; [done|]). split; [|done]. intros q c Hc Hcl Hq.
    apply Hord; [done..|]. split; [done|]. intros ->. unfold child in Hc. lia. }
  destruct (lookup_lt_is_Some_2 h (p * 2 + 1) Hleft) as [rl Hrl].
  (* the smaller child *)
  assert (∃ c rc, (if (p * 2 + 1 + 1 <? length h)%nat
      then rr ← index (heap ix) (p * 2 + 1 + 1); rl ← index (heap ix) (p * 2 + 1);
           Done (if (deadline d rr <? deadline d rl)%Z then p * 2 + 1 + 1 else p * 2 + 1)
      else Done (p * 2 + 1)) = Done c
    ∧ child c p ∧ h !! c = Some rc ∧ ∀ c', child c' p → c' < length h → (key h c ≤ key h c')%Z)
    as (c & rc & -> & Hc & Hrc & Hmin).
  { destruct (Nat.ltb_spec (p * 2 + 1 + 1) (length h)) as [Hright|Hnone].
    - destruct (lookup_lt_is_Some_2 h _ Hright) as [rr Hrr].
      rewrite (shape_index _ _ _ _ _ Hs Hrr), (shape_index _ _ _ _ _ Hs Hrl). cbn [mbind run_bind].
      rewrite (deadline_key _ _ _ Hrr), (deadline_key _ _ _ Hrl).
      destruct (Z.ltb_spec (key h (p * 2 + 1 + 1)) (key h (p * 2 + 1))) as [Hlt|Hge].
      + exists (p * 2 + 1 + 1), rr. split; [done|]. split; [unfold child; lia|]. split; [done|].
        intros c' [->| ->] _; [replace (2 * p + 1) with (p * 2 + 1) by lia; lia|].
        replace (2 * p + 2) with (p * 2 + 1 + 1) by lia. lia.
      + exists (p * 2 + 1), rl. split; [done|]. split; [unfold child; lia|]. split; [done|].
        intros c' [->| ->] _; [replace (2 * p + 1) with (p * 2 + 1) by lia; lia|].
        replace (2 * p + 2) with (p * 2 + 1 + 1) by lia. lia.
    - exists (p * 2 + 1), rl. split; [done|]. split; [unfold child; lia|]. split; [done|].
      intros c' [->| ->] ?; [replace (2 * p + 1) with (p * 2 + 1) by lia; lia|lia]. }
  cbn [mbind run_bind]. pose proof (lookup_lt_Some _ _ _ Hrc) as Hcl.
  assert (Hcp : p < c) by (unfold child in Hc; lia).
  rewrite (shape_index _ _ _ _ _ Hs Hr), (shape_index _ _ _ _ _ Hs Hrc). cbn [mbind run_bind].
  rewrite (deadline_key _ _ _ Hr), (deadline_key _ _ _ Hrc).
  destruct (Z.leb_spec (key h p) (key h c)) as [Hle|Hgt].
  { exists ix, h. do 3 (split; [done|]). split; [|done]. intros q c' Hc' Hcl' Hq.
    destruct (decide (q = p)) as [->|]; [|by apply Hord]. specialize (Hmin c' Hc' Hcl'). lia. }
  destruct (swap_shape ix h n p c r rc Hs Hr Hrc ltac:(lia)) as (ix1 & -> & Hs1 & Hrd).
  cbn [mbind run_bind].
  destruct (IH ix1 (exchange h p c r rc) c) as (ix' & h' & E & Hs' & Hperm & Hord' & Hrd');
    rewrite ?length_exchange; [done|lia..| | |].
  - intros q c' Hc' Hcl' [Hq Hqc]. rewrite length_exchange in Hcl'.
    rewrite !key_exchange by (done || lia). heap_cases; try (unfold child in *; lia).
    + by apply Hmin.
    + by apply (Hskip q c).
    + by apply Hord.
  - intros q c' Hcq Hq Hc' Hcl'. rewrite length_exchange in Hcl'.
    assert (q = p) as -> by (unfold child in *; lia).
    rewrite !key_exchange by (done || lia). unfold child in *. heap_cases; try lia.
    apply Hord; [done..|lia].
  - exists ix', h'. split; [done|]. split; [done|]. split; [|split; [done|congruence]].
    rewrite Hperm. apply exchange_perm; [done..|lia].
Qed.

(** Sifting up restores the order above the position. *)
Lemma sift_up_loop_spec fuel ix h n p :
  shape ix h n → p < length h → p < fuel →
  ordered_where (λ _ c, c ≠ p) h → skips 0 h p →
  ∃ ix' h', sift_up_loop d fuel ix p = Done ix' ∧ shape ix' h' n ∧ h' ≡ₚ h
    ∧ ordered h' ∧ readiness ix' = readiness ix.
Proof.
  revert ix h p. induction fuel as [|fuel IH]; intros ix h p Hs Hp Hf Hord Hskip; [lia|].
  cbn [sift_up_loop]. destruct (Nat.ltb_spec 0 p) as [Hpos|Hroot].
  2:{ exists ix, h. do 3 (split; [done|]). split; [|done]. intros q c Hc Hcl _.
      apply Hord; [done..|]. unfold child in Hc. lia. }
  pose proof (parent_child p Hpos) as Hq. set (q := (p - 1) / 2) in *. clearbody q.
  assert (Hqp : q < p) by (unfold child in Hq; lia).
  destruct (lookup_lt_is_Some_2 h p Hp) as [r Hr].
  destruct (lookup_lt_is_Some_2 h q ltac:(lia)) as [rq Hrq].
  rewrite (shape_index _ _ _ _ _ Hs Hr), (shape_index _ _ _ _ _ Hs Hrq). cbn [mbind run_bind].
  rewrite (deadline_key _ _ _ Hr), (deadline_key _ _ _ Hrq).
  destruct (Z.leb_spec (key h q) (key h p)) as [Hle|Hgt].
  { exists ix, h. do 3 (split; [done|]). split; [|done]. intros q' c Hc Hcl _.
    destruct (decide (c = p)) as [->|]; [|by apply Hord].
    by assert (q' = q) as -> by (unfold child in *; lia). }
  destruct (swap_shape ix h n q p rq r Hs Hrq Hr ltac:(lia)) as (ix1 & -> & Hs1 & Hrd).
  cbn [mbind run_bind].
  destruct (IH ix1 (exchange h q p rq r) q) as (ix' & h' & E & Hs' & Hperm & Hord' & Hrd');
    rewrite ?length_exchange; [done|lia..| | |].
  - intros q' c Hc Hcl Hcq. rewrite length_exchange in Hcl.
    rewrite !key_exchange by (done || lia). heap_cases; try (unfold child in *; lia).
    + pose proof (Hord q c Hc Hcl ltac:(done)). lia.
    + by apply (Hskip q c); [|lia|..].
    + by apply Hord.
  - intros q' c Hqq _ Hc Hcl. rewrite length_exchange in Hcl.
    assert (Hup : (key h q' ≤ key h q)%Z) by (apply Hord; [done|lia..]).
    rewrite !key_exchange by (done || lia). unfold child in *. heap_cases; try lia.
    pose proof (Hord q c ltac:(unfold child; lia) Hcl ltac:(done)). lia.
  - exists ix', h'. split; [done|]. split; [done|]. split; [|split; [done|congruence]].
    rewrite Hperm. apply exchange_perm; [done..|lia].
Qed.

(** Repairing a position whose deadline changed. *)
Lemma repair_spec ix h n p :
  shape ix h n → p < length h →
  ordered_where (λ q c, q ≠ p ∧ c ≠ p) h → skips 0 h p →
  ∃ ix' h', repair d ix p = Done ix' ∧ shape ix' h' n ∧ h' ≡ₚ h
    ∧ ordered h' ∧ readiness ix' = readiness ix.
Proof.
  intros Hs Hp Hord Hskip. unfold repair, sift_up, sift_down.
  assert (Hdown : (∀ q, child p q → (key h q ≤ key h p)%Z) →
    ∃ ix' h', sift_down_loop d (S (length (heap ix))) ix p = Done ix' ∧ shape ix' h' n ∧ h' ≡ₚ h
    ∧ ordered h' ∧ readiness ix' = readiness ix).
  { intros Hup. apply sift_down_loop_spec; try done; [lia| |].
    - rewrite (shape_heap_length _ _ _ Hs). lia.
    - intros q c Hc Hcl [_ Hq]. destruct (decide (c = p)) as [->|]; [by apply Hup|by apply Hord]. }
  destruct (Nat.ltb_spec 0 p) as [Hpos|Hroot]; [|apply Hdown; unfold child; lia].
  pose proof (parent_child p Hpos) as Hq. set (q := (p - 1) / 2) in *. clearbody q.
  destruct (lookup_lt_is_Some_2 h p Hp) as [r Hr].
  destruct (lookup_lt_is_Some_2 h q) as [rq Hrq]; [unfold child in Hq; lia|].
  rewrite (shape_index _ _ _ _ _ Hs Hr), (shape_index _ _ _ _ _ Hs Hrq). cbn [mbind run_bind].
  rewrite (deadline_key _ _ _ Hr), (deadline_key _ _ _ Hrq).
  destruct (Z.ltb_spec (key h p) (key h q)) as [Hlt|Hge].
  - apply sift_up_loop_spec; try done; [lia|]. intros q' c Hc Hcl Hcp.
    destruct (decide (q' = p)) as [->|]; [|by apply Hord].
    pose proof (Hskip q c Hq ltac:(lia) Hc Hcl). lia.
  - apply Hdown. intros q' Hq'. by assert (q' = q) as -> by (unfold child in *; lia).
Qed.

(** ** Pushing and popping *)

Lemma key_app_l h row p : p < length h → key (h ++ [row]) p = key h p.
Proof. intros. unfold key. by rewrite lookup_app_l. Qed.

Lemma push_shape ix h n row :
  shape ix h n → row < n → row ∉ h →
  shape (mkIndex (readiness ix) (heap ix ++ [wrap 32 (Z.of_nat row)])
           (<[row := wrap 32 (Z.of_nat (length (heap ix)))]> (positions ix))) (h ++ [row]) n.
Proof.
  intros Hs Hrow Hout. pose proof (shape_length _ _ _ Hs). pose proof (sh_max _ _ _ Hs).
  rewrite (shape_heap_length _ _ _ Hs), !(wrap_row _ n) by lia.
  pose proof (sh_len _ _ _ Hs) as Hlen. split; cbn [heap positions].
  - by rewrite (sh_heap _ _ _ Hs), fmap_app.
  - by rewrite length_insert.
  - done.
  - intros p r Hp. apply lookup_app_Some in Hp as [Hp|[Hge Hp]].
    + rewrite list_lookup_insert_ne; [by eapply sh_rows|]. intros <-.
      apply Hout. by eapply list_elem_of_lookup_2.
    + apply list_lookup_singleton_Some in Hp as [Hz <-].
      rewrite list_lookup_insert_eq by lia. do 2 f_equal. lia.
  - intros r Hr Hnot. rewrite elem_of_app, list_elem_of_singleton in Hnot.
    rewrite list_lookup_insert_ne by (intros <-; tauto). eapply sh_absent; [done..|tauto].
Qed.

Lemma push_spec ix h n row :
  shape ix h n → row < n → row ∉ h → ordered h →
  let hp := heap ix ++ [wrap 32 (Z.of_nat row)] in
  ∃ ix' h', sift_up d (mkIndex (readiness ix) hp
      (<[row := wrap 32 (Z.of_nat (length (heap ix)))]> (positions ix))) (length hp - 1) = Done ix'
    ∧ shape ix' h' n ∧ h' ≡ₚ h ++ [row] ∧ ordered h' ∧ readiness ix' = readiness ix.
Proof.
  intros Hs Hrow Hout Hord hp. pose proof (push_shape ix h n row Hs Hrow Hout) as Hs'.
  assert (Hl : length hp - 1 = length h).
  { unfold hp. rewrite length_app, (shape_heap_length _ _ _ Hs). cbn [length]. lia. }
  rewrite Hl. unfold sift_up.
  apply (sift_up_loop_spec _ _ _ _ _ Hs'); [rewrite length_app; cbn [length]; lia|lia| |].
  - intros q c Hc Hcl Hne. rewrite length_app in Hcl. cbn [length] in Hcl.
    rewrite !key_app_l by (unfold child in Hc; lia). apply Hord; [done|unfold child in Hc; lia|lia].
  - intros q c _ _ Hc Hcl. rewrite length_app in Hcl. unfold child in Hc. cbn [length] in Hcl. lia.
Qed.

Lemma key_take h m p : p < m → key (take m h) p = key h p.
Proof. intros. unfold key. by rewrite lookup_take_lt. Qed.

Lemma key_insert_ne h p x q : q ≠ p → key (<[p := x]> h) q = key h q.
Proof. intros. unfold key. by rewrite list_lookup_insert_ne. Qed.

Lemma heap_remove_spec ix h n p row :
  shape ix h n → h !! p = Some row →
  ordered_where (λ q c, q ≠ p ∧ c ≠ p) h → skips 0 h p →
  ∃ ix' h', remove d ix row = Done ix' ∧ shape ix' h' n ∧ row :: h' ≡ₚ h
    ∧ ordered h' ∧ readiness ix' = readiness ix.
Proof.
  intros Hs Hp Hord Hskip. pose proof (lookup_lt_Some _ _ _ Hp) as Hpl.
  pose proof (shape_row_lt _ _ _ _ _ Hs Hp) as Hrow. pose proof (sh_len _ _ _ Hs) as Hlen.
  pose proof (shape_length _ _ _ Hs) as Hln. pose proof (sh_max _ _ _ Hs) as Hmax.
  pose proof (shape_pos_small _ _ _ _ Hs Hpl) as Hsmall.
  unfold remove. rewrite (index_lookup _ _ _ (sh_rows _ _ _ Hs _ _ Hp)). cbn [mbind run_bind].
  rewrite (proj2 (Z.eqb_neq _ _)), Nat2Z.id, (shape_heap_length _ _ _ Hs) by lia.
  rewrite store_done by lia. cbn [mbind run_bind].
  set (last := length h - 1).
  destruct (lookup_lt_is_Some_2 h last) as [moved Hm]; [unfold last; lia|].
  assert (Hh : h = take last h ++ [moved]).
  { rewrite <- (take_S_r _ _ _ Hm). by rewrite take_ge by (unfold last; lia). }
  assert (Hoth : ∀ q r, h !! q = Some r → q ≠ p → r ≠ row).
  { intros q r Hq Hqp ->. apply Hqp. by eapply shape_inj. }
  destruct (Nat.eqb_spec p last) as [->|Hne].
  { assert (moved = row) as -> by congruence.
    exists (mkIndex (readiness ix) (pop (heap ix)) (<[row := ABSENT]> (positions ix))), (take last h).
    split; [done|]. split; [split; cbn [heap positions]|].
    - unfold pop. rewrite (shape_heap_length _ _ _ Hs), (sh_heap _ _ _ Hs). by rewrite fmap_take.
    - by rewrite length_insert.
    - done.
    - intros q r [Hq Hql]%lookup_take_Some.
      rewrite list_lookup_insert_ne; [by eapply sh_rows|]. apply not_eq_sym.
      apply (Hoth q); [done|lia].
    - intros r Hr Hout. destruct (decide (r = row)) as [->|]; [by apply list_lookup_insert_eq; lia|].
      rewrite list_lookup_insert_ne by done. eapply sh_absent; [done..|]. rewrite Hh.
      rewrite elem_of_app, list_elem_of_singleton. tauto.
    - split; [|split; [|done]].
      + rewrite Hh at 2. by rewrite Permutation_app_comm.
      + intros q c Hc Hcl _. rewrite length_take in Hcl. unfold child in Hc.
        rewrite !key_take by lia. apply Hord; unfold child; lia. }
  rewrite (shape_index _ _ _ _ _ Hs Hm). cbn [mbind run_bind].
  rewrite (store_done (heap ix)) by (by rewrite (shape_heap_length _ _ _ Hs)). cbn [mbind run_bind].
  pose proof (shape_row_lt _ _ _ _ _ Hs Hm) as Hmn.
  assert (Hmr : moved ≠ row) by (by eapply Hoth).
  rewrite store_done by (rewrite Nat2Z.id, length_insert; lia). cbn [mbind run_bind].
  rewrite Nat2Z.id, (wrap_row _ n) by lia. set (h2 := <[p := moved]> (take last h)).
  assert (Hlast : p < last) by (unfold last in *; lia).
  assert (Hl2 : length h2 = last) by (unfold h2, last; rewrite length_insert, length_take; lia).
  assert (Hk2 : ∀ q, q < last → q ≠ p → key h2 q = key h q).
  { intros. unfold h2. by rewrite key_insert_ne, key_take. }
  assert (Hperm : row :: h2 ≡ₚ h).
  { rewrite Hh at 1. unfold h2. rewrite insert_take_drop by (rewrite length_take; lia).
    rewrite <- (take_drop_middle (take last h) p row) at 3 by (by rewrite lookup_take_lt).
    rewrite <- !app_assoc. cbn [app]. solve_Permutation. }
  destruct (repair_spec (mkIndex (readiness ix) (pop (<[p:=Z.of_nat moved]> (heap ix)))
      (<[moved:=Z.of_nat p]> (<[row:=ABSENT]> (positions ix)))) h2 n p)
    as (ix' & h' & -> & Hs' & Hp' & Ho' & Hr').
  - split; cbn [heap positions].
    + unfold pop, h2. rewrite length_insert, (shape_heap_length _ _ _ Hs), (sh_heap _ _ _ Hs).
      fold last. by rewrite <- list_fmap_insert, <- fmap_take, take_insert_lt.
    + by rewrite !length_insert.
    + done.
    + intros q r Hq. unfold h2 in Hq. rewrite list_lookup_insert_Some in Hq.
      destruct Hq as [(<- & <- & _)|[Hpq [Hq Hql]%lookup_take_Some]].
      * rewrite list_lookup_insert_eq; [done|]. rewrite length_insert. lia.
      * rewrite !list_lookup_insert_ne; [by eapply sh_rows| |].
        -- apply not_eq_sym, (Hoth q); [done|lia].
        -- intros <-. pose proof (shape_inj _ _ _ _ _ _ Hs Hq Hm). lia.
    + intros r Hr Hout. assert (Hrm : r ≠ moved).
      { intros ->. apply Hout. eapply (list_elem_of_lookup_2 _ p). unfold h2.
        apply list_lookup_insert_eq. rewrite length_take. lia. }
      rewrite list_lookup_insert_ne by done.
      destruct (decide (r = row)) as [->|]; [apply list_lookup_insert_eq; lia|].
      rewrite list_lookup_insert_ne by done. eapply sh_absent; [done..|].
      rewrite <- Hperm, elem_of_cons. tauto.
  - lia.
  - intros q c Hc Hcl [Hq Hcp]. rewrite Hl2 in Hcl. unfold child in Hc.
    rewrite !Hk2 by lia. apply Hord; unfold child; lia.
  - intros q c Hq _ Hc Hcl. rewrite Hl2 in Hcl. unfold child in Hq, Hc. rewrite !Hk2 by lia.
    apply Hskip; unfold child; unfold last in *; lia.
  - exists ix', h'. split; [done|]. split; [done|]. split; [by rewrite Hp'|]. split; [done|].
    by rewrite Hr'.
Qed.
End order.

(** * The invariant and the operations *)

(** The index of a table of [n] rows with deadlines [d]: a heap of exactly the rows that have a
    deadline. *)
Definition indexes (d : nat → option Z) (ix : HeapDeadlineIndex) (n : nat) : Prop :=
  readiness ix = Ready ∧ ∃ h, shape ix h n ∧ ordered d h
    ∧ ∀ row, row < n → row ∈ h ↔ is_Some (d row).

Section maintenance.
Implicit Types (d : nat → option Z) (ix : HeapDeadlineIndex) (h : list nat).

Lemma key_ext d d' h p :
  (∀ row, h !! p = Some row → d row = d' row) → key d h p = key d' h p.
Proof. intros He. unfold key. destruct (h !! p) as [row|] eqn:E; [|done]. cbn. by rewrite He. Qed.

(** The order survives away from a row whose deadline changes. *)
Lemma ordered_change d d' h p row :
  ordered d h → h !! p = Some row → NoDup h → (∀ r, r ∈ h → r ≠ row → d r = d' r) →
  ordered_where d' (λ q c, q ≠ p ∧ c ≠ p) h ∧ skips d' 0 h p.
Proof.
  intros Hord Hp Hnd Hsame.
  assert (Hk : ∀ q, q ≠ p → key d' h q = key d h q).
  { intros q Hq. apply key_ext. intros r Hr. symmetry. apply Hsame; [by eapply list_elem_of_lookup_2|].
    intros ->. apply Hq. by eapply NoDup_lookup. }
  split.
  - intros q c Hc Hcl [Hq Hcp]. rewrite !Hk by done. apply Hord; [done..|lia].
  - intros q c Hq _ Hc Hcl. rewrite !Hk by (unfold child in *; lia).
    trans (key d h p); apply Hord; try done; try lia.
    pose proof (lookup_lt_Some _ _ _ Hp). unfold child in *. lia.
Qed.

Lemma ordered_same d d' h : ordered d h → (∀ r, r ∈ h → d r = d' r) → ordered d' h.
Proof.
  intros Hord Hsame q c Hc Hcl Hq.
  assert (Hk : ∀ p, key d' h p = key d h p).
  { intros p. apply key_ext. intros r Hr. symmetry. apply Hsame. by eapply list_elem_of_lookup_2. }
  rewrite !Hk. by apply Hord.
Qed.

Lemma insert_indexes d d' ix n :
  indexes d ix n → (∀ r, r < n → d' r = d r) → (Z.of_nat n < ABSENT)%Z →
  ∃ ix', insert d' ix n (d' n) = Done ix' ∧ indexes d' ix' (S n).
Proof.
  intros (Hrd & h & Hs & Hord & Hmem) Hsame Hn. unfold insert.
  rewrite bool_decide_true by done. pose proof (sh_len _ _ _ Hs) as Hlen.
  rewrite Hlen, Nat.eqb_refl. cbn [negb orb]. rewrite (proj2 (Z.leb_gt _ _)) by done.
  assert (Hlt : ∀ r, r ∈ h → r < n).
  { intros r Hr%list_elem_of_lookup. destruct Hr as [p Hp]. by eapply shape_row_lt. }
  assert (Hs1 : shape (mkIndex (readiness ix) (heap ix) (positions ix ++ [ABSENT])) h (S n)).
  { split; cbn [heap positions].
    - apply Hs.
    - rewrite length_app, Hlen. cbn [length]. lia.
    - lia.
    - intros p r Hp. apply lookup_app_l_Some. by eapply sh_rows.
    - intros r Hr Hout. destruct (decide (r = n)) as [->|].
      + by rewrite lookup_app_r, Hlen, Nat.sub_diag by lia.
      + apply lookup_app_l_Some. eapply sh_absent; [done|lia|done]. }
  assert (Hord1 : ordered d' h).
  { apply (ordered_same d); [done|]. intros r Hr. symmetry. by apply Hsame, Hlt. }
  assert (Hnot : n ∉ h) by (intros Hin%Hlt; lia).
  destruct (d' n) as [dn|] eqn:Hd.
  - rewrite store_done by (rewrite length_app, Hlen; cbn [length]; lia). cbn [mbind run_bind].
    destruct (push_spec d' _ h (S n) n Hs1 ltac:(lia) Hnot Hord1)
      as (ix' & h' & E & Hs' & Hperm & Hord' & Hr'). cbn [heap positions readiness] in E.
    rewrite E. exists ix'. split; [done|]. split; [by rewrite Hr'|]. exists h'.
    split; [done|]. split; [done|]. intros r Hr. rewrite Hperm, elem_of_app, list_elem_of_singleton.
    destruct (decide (r = n)) as [->|]; [rewrite Hd; split; by eauto|].
    rewrite Hsame, <- Hmem by lia. split; [intros [?|?]; [done|lia]|by left].
  - eexists. split; [done|]. split; [done|]. exists h. split; [done|]. split; [done|].
    intros r Hr. destruct (decide (r = n)) as [->|]; [|rewrite Hsame by lia; apply Hmem; lia].
    rewrite Hd. split; [done|]. by intros [? ?].
Qed.

Lemma update_indexes d d' ix n row :
  indexes d ix n → row < n → (∀ r, r < n → r ≠ row → d' r = d r) →
  ∃ ix', update d' ix row (d' row) = Done ix' ∧ indexes d' ix' n.
Proof.
  intros (Hrd & h & Hs & Hord & Hmem) Hrow Hsame. unfold update.
  rewrite bool_decide_true by done. pose proof (sh_len _ _ _ Hs) as Hlen.
  rewrite Hlen, (proj2 (Nat.leb_gt _ _)) by done. cbn [negb orb].
  assert (Hlt : ∀ r, r ∈ h → r < n).
  { intros r Hr%list_elem_of_lookup. destruct Hr as [p Hp]. by eapply shape_row_lt. }
  destruct (decide (row ∈ h)) as [Hin|Hout].
  - pose proof Hin as Hp. apply list_elem_of_lookup in Hp as [p Hp].
    pose proof (lookup_lt_Some _ _ _ Hp) as Hpl.
    destruct (ordered_change d d' h p row) as [Ho Hsk];
      [done|done|by eapply shape_nodup|intros; symmetry; by auto|].
    rewrite (index_lookup _ _ _ (sh_rows _ _ _ Hs _ _ Hp)). cbn [mbind run_bind].
    pose proof (shape_pos_small _ _ _ _ Hs Hpl).
    rewrite (proj2 (Z.eqb_neq _ _)), Nat2Z.id by lia. destruct (d' row) as [dl|] eqn:Hd.
    + destruct (repair_spec d' ix h n p Hs Hpl Ho Hsk) as (ix' & h' & -> & Hs' & Hperm & Ho' & Hr').
      exists ix'. split; [done|]. split; [congruence|]. exists h'. split; [done|]. split; [done|].
      intros r Hr. rewrite Hperm. destruct (decide (r = row)) as [->|]; [rewrite Hd; split; by eauto|].
      rewrite Hsame by done. by apply Hmem.
    + destruct (heap_remove_spec d' ix h n p row Hs Hp Ho Hsk) as (ix' & h' & -> & Hs' & Hperm & Ho' & Hr').
      exists ix'. split; [done|]. split; [congruence|]. exists h'. split; [done|]. split; [done|].
      pose proof (shape_nodup _ _ _ Hs) as Hnd. rewrite <- Hperm in Hnd.
      apply list.NoDup_cons in Hnd as [Hnot _].
      intros r Hr. destruct (decide (r = row)) as [->|]; [rewrite Hd; split; [done|by intros [? ?]]|].
      rewrite Hsame, <- Hmem, <- Hperm, elem_of_cons by done. tauto.
  - rewrite (index_lookup _ _ _ (sh_absent _ _ _ Hs _ Hrow Hout)). cbn [mbind run_bind].
    rewrite Z.eqb_refl.
    assert (Hord1 : ordered d' h).
    { apply (ordered_same d); [done|]. intros r Hr. symmetry. apply Hsame; [by auto|]. by intros ->. }
    destruct (d' row) as [dl|] eqn:Hd.
    + rewrite store_done by lia. cbn [mbind run_bind].
      destruct (push_spec d' ix h n row Hs Hrow Hout Hord1)
        as (ix' & h' & E & Hs' & Hperm & Hord' & Hr'). rewrite E.
      exists ix'. split; [done|]. split; [congruence|]. exists h'. split; [done|]. split; [done|].
      intros r Hr. rewrite Hperm, elem_of_app, list_elem_of_singleton.
      destruct (decide (r = row)) as [->|]; [rewrite Hd; split; by eauto|].
      rewrite Hsame, <- Hmem by done. tauto.
    + exists ix. split; [done|]. split; [done|]. exists h. split; [done|]. split; [done|].
      intros r Hr. destruct (decide (r = row)) as [->|]; [|rewrite Hsame by done; by apply Hmem].
      rewrite Hd. split; [done|by intros [? ?]].
Qed.

(** [remove] takes the row out of the heap, whether or not it had a deadline. *)
Lemma remove_row d ix n row :
  indexes d ix n → row < n →
  ∃ ix' h', remove d ix row = Done ix' ∧ readiness ix' = Ready ∧ shape ix' h' n ∧ ordered d h'
    ∧ (row ∉ h') ∧ ∀ r, r < n → r ≠ row → r ∈ h' ↔ is_Some (d r).
Proof.
  intros (Hrd & h & Hs & Hord & Hmem) Hrow. destruct (decide (row ∈ h)) as [Hin|Hout].
  - pose proof Hin as Hp. apply list_elem_of_lookup in Hp as [p Hp].
    destruct (ordered_change d d h p row) as [Ho Hsk]; [done|done|by eapply shape_nodup|done|].
    destruct (heap_remove_spec d ix h n p row Hs Hp Ho Hsk) as (ix' & h' & -> & Hs' & Hperm & Ho' & Hr').
    exists ix', h'. split; [done|]. split; [congruence|]. split; [done|]. split; [done|].
    pose proof (shape_nodup _ _ _ Hs) as Hnd. rewrite <- Hperm in Hnd.
    apply list.NoDup_cons in Hnd as [Hnot _]. split; [done|]. intros r Hr Hne.
    rewrite <- Hmem, <- Hperm, elem_of_cons by done. tauto.
  - exists ix, h. unfold remove.
    rewrite (index_lookup _ _ _ (sh_absent _ _ _ Hs _ Hrow Hout)). cbn [mbind run_bind].
    rewrite Z.eqb_refl. do 5 (split; [done|]). intros r Hr _. by apply Hmem.
Qed.

Lemma pop_shape ix h n :
  shape ix h (S n) → n ∉ h →
  shape (mkIndex (readiness ix) (heap ix) (pop (positions ix))) h n.
Proof.
  intros Hs Hout. pose proof (sh_len _ _ _ Hs) as Hlen. pose proof (sh_max _ _ _ Hs).
  assert (Hpop : pop (positions ix) = take n (positions ix)).
  { unfold pop. rewrite Hlen. f_equal. lia. }
  rewrite Hpop. split; cbn [heap positions].
  - apply Hs.
  - rewrite length_take. lia.
  - lia.
  - intros p r Hp. pose proof (shape_row_lt _ _ _ _ _ Hs Hp). assert (r ≠ n).
    { intros ->. apply Hout. by eapply list_elem_of_lookup_2. }
    rewrite lookup_take_lt by lia. by eapply sh_rows.
  - intros r Hr Hnot. rewrite lookup_take_lt by done. eapply sh_absent; [done|lia|done].
Qed.

(** Row [last] takes the place of row [removed] in the heap. *)
Lemma rename_shape ix h n p removed last :
  shape ix h n → h !! p = Some last → removed < n → removed ∉ h →
  shape (mkIndex (readiness ix) (<[p := wrap 32 (Z.of_nat removed)]> (heap ix))
           (<[removed := Z.of_nat p]> (<[last := ABSENT]> (positions ix))))
    (<[p := removed]> h) n.
Proof.
  intros Hs Hp Hrem Hout. pose proof (lookup_lt_Some _ _ _ Hp) as Hpl.
  pose proof (shape_row_lt _ _ _ _ _ Hs Hp) as Hlast. pose proof (sh_len _ _ _ Hs) as Hlen.
  assert (Hne : removed ≠ last). { intros ->. apply Hout. by eapply list_elem_of_lookup_2. }
  pose proof (sh_max _ _ _ Hs). rewrite (wrap_row _ n) by lia. split; cbn [heap positions].
  - by rewrite (sh_heap _ _ _ Hs), list_fmap_insert.
  - by rewrite !length_insert.
  - done.
  - intros q r Hq. rewrite list_lookup_insert_Some in Hq. destruct Hq as [(<- & <- & _)|[Hpq Hq]].
    + apply list_lookup_insert_eq. rewrite length_insert. lia.
    + rewrite !list_lookup_insert_ne; [by eapply sh_rows| |].
      * intros <-. by pose proof (shape_inj _ _ _ _ _ _ Hs Hq Hp).
      * intros <-. apply Hout. by eapply list_elem_of_lookup_2.
  - intros r Hr Hnot. assert (r ≠ removed).
    { intros ->. apply Hnot. eapply (list_elem_of_lookup_2 _ p). by apply list_lookup_insert_eq. }
    rewrite list_lookup_insert_ne by done.
    destruct (decide (r = last)) as [->|]; [by apply list_lookup_insert_eq; lia|].
    rewrite list_lookup_insert_ne by done. eapply sh_absent; [done..|].
    intros [q Hq]%list_elem_of_lookup. apply Hnot. apply (list_elem_of_lookup_2 _ q).
    rewrite list_lookup_insert_ne; [done|]. intros <-. congruence.
Qed.

Lemma pop_insert (ps : list Z) last removed v :
  length ps = S last → removed < last →
  pop (<[removed := v]> (<[last := ABSENT]> ps)) = pop (<[removed := v]> ps).
Proof.
  intros Hl Hr. unfold pop. rewrite !length_insert, Hl, Nat.sub_succ, Nat.sub_0_r.
  rewrite (take_insert_lt (<[last := ABSENT]> ps)), (take_insert_ge ps last last) by lia.
  by rewrite (take_insert_lt ps).
Qed.

Lemma swap_remove_indexes d d' ix last removed :
  indexes d ix (S last) → removed ≤ last →
  (∀ r, r < last → d' r = d (if decide (r = removed) then last else r)) →
  ∃ ix', swap_remove d ix removed last = Done ix' ∧ indexes d' ix' last.
Proof.
  intros Hix Hle Hd. pose proof Hix as (Hrd & h0 & Hs0 & _). unfold swap_remove.
  rewrite bool_decide_true, (sh_len _ _ _ Hs0), (proj2 (Nat.leb_gt _ _)), (proj2 (Nat.ltb_ge _ _))
    by (done || lia). cbn [negb orb].
  destruct (remove_row d ix (S last) removed Hix ltac:(lia))
    as (ix1 & h1 & -> & Hr1 & Hs1 & Ho1 & Hout & Hmem). cbn [mbind run_bind].
  clear Hix Hrd h0 Hs0. pose proof (sh_len _ _ _ Hs1) as Hlen.
  destruct (Nat.eqb_spec removed last) as [->|Hne].
  { eexists. split; [done|]. split; [done|]. exists h1. split; [by apply pop_shape|]. split.
    - apply (ordered_same d); [done|]. intros r Hr. assert (r < last).
      { pose proof Hr as [p Hp]%list_elem_of_lookup. pose proof (shape_row_lt _ _ _ _ _ Hs1 Hp).
        assert (r ≠ last) by (by intros ->). lia. }
      rewrite Hd, decide_False by lia. done.
    - intros r Hr. rewrite Hd, decide_False, Hmem by lia. done. }
  destruct (decide (last ∈ h1)) as [Hin|Hlout].
  - pose proof Hin as Hp. apply list_elem_of_lookup in Hp as [p Hp].
    pose proof (lookup_lt_Some _ _ _ Hp) as Hpl. pose proof (shape_pos_small _ _ _ _ Hs1 Hpl).
    rewrite (index_lookup _ _ _ (sh_rows _ _ _ Hs1 _ _ Hp)). cbn [mbind run_bind].
    rewrite (store_done (positions ix1)) by lia. cbn [mbind run_bind].
    rewrite (proj2 (Z.eqb_neq _ _)), Nat2Z.id by lia.
    rewrite store_done by (by rewrite (shape_heap_length _ _ _ Hs1)). cbn [mbind run_bind].
    cbn [readiness heap positions]. eexists. split; [done|]. split; [done|].
    exists (<[p := removed]> h1). pose proof (rename_shape ix1 h1 (S last) p removed last Hs1 Hp
      ltac:(lia) Hout) as Hs2.
    assert (Hlin : last ∉ <[p := removed]> h1).
    { intros [q Hq]%list_elem_of_lookup. rewrite list_lookup_insert_Some in Hq.
      destruct Hq as [(<- & <- & _)|[Hpq Hq]]; [done|].
      by pose proof (shape_inj _ _ _ _ _ _ Hs1 Hq Hp). }
    apply pop_shape in Hs2; [|done]. cbn [heap positions readiness] in Hs2.
    rewrite pop_insert in Hs2 by lia. split; [done|].
    assert (Hk : ∀ q, key d' (<[p := removed]> h1) q = key d h1 q).
    { intros q. unfold key. destruct (decide (q = p)) as [->|].
      - rewrite list_lookup_insert_eq, Hp by done. cbn. by rewrite Hd, decide_True by lia.
      - rewrite list_lookup_insert_ne by done. destruct (h1 !! q) as [r|] eqn:Hq; [|done]. cbn.
        pose proof (shape_row_lt _ _ _ _ _ Hs1 Hq). assert (r ≠ last).
        { intros ->. by pose proof (shape_inj _ _ _ _ _ _ Hs1 Hq Hp). }
        assert (r ≠ removed). { intros ->. apply Hout. by eapply list_elem_of_lookup_2. }
        by rewrite Hd, decide_False by lia. }
    split.
    + intros q c Hc Hcl Hq. rewrite !Hk. rewrite length_insert in Hcl. by apply Ho1.
    + intros r Hr. rewrite Hd by done. case_decide as Hrr.
      * subst r. rewrite <- Hmem by lia. split; [done|]. intros _.
        eapply (list_elem_of_lookup_2 _ p). by apply list_lookup_insert_eq.
      * rewrite <- Hmem by lia. split.
        -- intros [q Hq]%list_elem_of_lookup. rewrite list_lookup_insert_Some in Hq.
           destruct Hq as [(_ & <- & _)|[_ Hq]]; [done|]. by eapply list_elem_of_lookup_2.
        -- intros [q Hq]%list_elem_of_lookup. eapply (list_elem_of_lookup_2 _ q).
           rewrite list_lookup_insert_ne; [done|]. intros <-. assert (r = last) by congruence. lia.
  - rewrite (index_lookup _ _ _ (sh_absent _ _ _ Hs1 last ltac:(lia) Hlout)). cbn [mbind run_bind].
    rewrite (store_done (positions ix1)) by lia. cbn [mbind run_bind]. rewrite Z.eqb_refl.
    cbn [mbind run_bind readiness heap positions].
    rewrite list_insert_id by (apply (sh_absent _ _ _ Hs1); [lia|done]).
    eexists. split; [done|]. split; [done|]. exists h1. split; [by apply pop_shape|].
    assert (Hnr : ∀ r, r ∈ h1 → r < last ∧ r ≠ removed).
    { intros r Hr. pose proof Hr as [p Hp]%list_elem_of_lookup.
      pose proof (shape_row_lt _ _ _ _ _ Hs1 Hp). split; [|by intros ->].
      assert (r ≠ last) by (by intros ->). lia. }
    split.
    + apply (ordered_same d); [done|]. intros r [Hr1' Hr2]%Hnr.
      by rewrite Hd, decide_False by lia.
    + intros r Hr. rewrite Hd by done. case_decide as Hrr.
      * subst r. rewrite <- Hmem by lia. done.
      * apply Hmem; lia.
Qed.
End maintenance.

(** * Rebuilding *)

Section rebuilding.
Context (d : nat → option Z).
Implicit Types (ix : HeapDeadlineIndex) (h : list nat).

Lemma fill_loop_spec todo ix h n row :
  shape ix h n → row + todo = n → (∀ r, r ∈ h → r < row) →
  ∃ ix' h', fill_loop d todo ix row = Done ix' ∧ shape ix' h' n ∧ readiness ix' = readiness ix
    ∧ ∀ r, r ∈ h' ↔ r ∈ h ∨ (row ≤ r < n ∧ is_Some (d r)).
Proof.
  revert ix h row. induction todo as [|todo IH]; intros ix h row Hs Hn Hlt; cbn [fill_loop].
  { exists ix, h. do 3 (split; [done|]). intros r. split; [by left|]. intros [?|[? _]]; [done|lia]. }
  assert (Hnot : row ∉ h) by (intros Hin%Hlt; lia).
  destruct (d row) as [dl|] eqn:Hd.
  - rewrite store_done by (rewrite (sh_len _ _ _ Hs); lia). cbn [mbind run_bind].
    pose proof (push_shape d ix h n row Hs ltac:(lia) Hnot) as Hs1.
    destruct (IH _ _ (S row) Hs1 ltac:(lia)) as (ix' & h' & -> & Hs' & Hr' & Hmem).
    { intros r. rewrite elem_of_app, list_elem_of_singleton. intros [Hin%Hlt| ->]; lia. }
    exists ix', h'. do 3 (split; [done|]). intros r. rewrite Hmem, elem_of_app, list_elem_of_singleton.
    destruct (decide (r = row)) as [->|Hne].
    + split; [|by auto]. intros _. right. split; [lia|]. by rewrite Hd.
    + split.
      * intros [[?|?]|[? ?]]; [by left|done|right; split; [lia|done]].
      * intros [?|[? ?]]; [by left; left|right; split; [lia|done]].
  - cbn [mbind run_bind]. destruct (IH ix h (S row) Hs ltac:(lia)) as (ix' & h' & -> & Hs' & Hr' & Hmem).
    { intros r Hin%Hlt. lia. }
    exists ix', h'. do 3 (split; [done|]). intros r. rewrite Hmem.
    destruct (decide (r = row)) as [->|Hne].
    + rewrite Hd. split; intros [Hin|[? Hsome]]; by left.
    + split; intros [Hin|[? Hsome]]; try (by left); right; (split; [lia|done]).
Qed.

Lemma heapify_loop_spec k ix h n :
  shape ix h n → k ≤ length h → ordered_from d k h →
  ∃ ix' h', heapify_loop d k ix = Done ix' ∧ shape ix' h' n ∧ h' ≡ₚ h ∧ ordered d h'.
Proof.
  revert ix h. induction k as [|p IH]; intros ix h Hs Hk Hord; cbn [heapify_loop].
  { by exists ix, h. }
  unfold sift_down. destruct (sift_down_loop_spec d (S (length (heap ix))) ix h n p p)
    as (ix1 & h1 & -> & Hs1 & Hperm & Hord1 & _); try done.
  - rewrite (shape_heap_length _ _ _ Hs). lia.
  - intros q c Hc Hcl [Hq Hne]. apply Hord; [done..|lia].
  - intros q c Hq Hlo. unfold child in Hq. lia.
  - cbn [mbind run_bind]. destruct (IH ix1 h1) as (ix' & h' & -> & Hs' & Hperm' & Hord'); try done.
    + rewrite Hperm. lia.
    + exists ix', h'. split; [done|]. split; [done|]. split; [|done]. by rewrite Hperm'.
Qed.

Lemma empty_shape rd n : (Z.of_nat n ≤ ABSENT)%Z → shape (mkIndex rd [] (replicate n ABSENT)) [] n.
Proof.
  intros. split; cbn [heap positions]; [done|apply length_replicate|done|done|].
  intros r Hr _. by apply lookup_replicate_2.
Qed.

Lemma rebuild_indexes ix n :
  (Z.of_nat n ≤ ABSENT)%Z → ∃ ix', rebuild d ix n = Done ix' ∧ indexes d ix' n.
Proof.
  intros Hn. unfold rebuild. rewrite (proj2 (Z.ltb_ge _ _)) by done.
  destruct (fill_loop_spec n _ [] n 0 (empty_shape (readiness ix) n Hn) ltac:(lia))
    as (ix1 & h1 & -> & Hs1 & _ & Hmem); [by intros r ?%not_elem_of_nil|].
  cbn [mbind run_bind]. rewrite (shape_heap_length _ _ _ Hs1).
  pose proof (Nat.div_mod (length h1) 2 ltac:(lia)).
  pose proof (Nat.mod_upper_bound (length h1) 2 ltac:(lia)).
  destruct (heapify_loop_spec (length h1 / 2) ix1 h1 n) as (ix2 & h2 & -> & Hs2 & Hperm & Hord);
    [done|lia| |].
  { intros q c Hc Hcl Hq. unfold child in Hc. lia. }
  cbn [mbind run_bind]. eexists. split; [done|]. split; [done|]. exists h2. split.
  { by destruct Hs2. }
  split; [done|]. intros row Hrow. rewrite Hperm, Hmem. split.
  - by intros [?%not_elem_of_nil|[_ ?]].
  - intros ?. right. split; [lia|done].
Qed.
End rebuilding.

(** * Queries *)

Section queries.
Context (d : nat → option Z).
Implicit Types (ix : HeapDeadlineIndex) (h : list nat).

(** The earliest deadline of the first [n] rows. *)
Definition is_earliest (n : nat) (r : option Z) : Prop :=
  match r with
  | None => ∀ row, row < n → d row = None
  | Some m => (∃ row, row < n ∧ d row = Some m) ∧ ∀ row x, row < n → d row = Some x → (m ≤ x)%Z
  end.

Lemma is_earliest_unique n r r' : is_earliest n r → is_earliest n r' → r = r'.
Proof.
  destruct r as [m|], r' as [m'|]; cbn.
  - intros [(row & Hr & Hm) Hmin] [(row' & Hr' & Hm') Hmin'].
    f_equal. pose proof (Hmin row' m' Hr' Hm'). pose proof (Hmin' row m Hr Hm). lia.
  - intros [(row & Hr & Hm) _] H. by rewrite H in Hm.
  - intros H [(row & Hr & Hm) _]. by rewrite H in Hm.
  - done.
Qed.

Lemma fold_min (xs : list Z) :
  match foldr (λ x acc, Some (match acc with None => x | Some m => Z.min x m end)) None xs with
  | None => xs = []
  | Some m => m ∈ xs ∧ ∀ x, x ∈ xs → (m ≤ x)%Z
  end.
Proof.
  induction xs as [|x xs IH]; [done|]. cbn [foldr]. destruct (foldr _ None xs) as [m|].
  - destruct IH as [Hin Hmin]. split.
    + rewrite elem_of_cons. destruct (Z.min_spec x m) as [[_ ->]|[_ ->]]; auto.
    + intros y. rewrite elem_of_cons. intros [->|Hy]; [lia|]. specialize (Hmin y Hy). lia.
  - subst xs. split; [by apply list_elem_of_singleton|]. intros y ->%list_elem_of_singleton. lia.
Qed.

Lemma linear_min_spec n : is_earliest n (linear_min d n).
Proof.
  unfold linear_min. pose proof (fold_min (omap d (seq 0 n))) as Hf.
  assert (Hin : ∀ x, x ∈ omap d (seq 0 n) ↔ ∃ row, row < n ∧ d row = Some x).
  { intros x. rewrite list_elem_of_omap. split.
    - intros (row & Hr%elem_of_seq & Hd). exists row. split; [lia|done].
    - intros (row & Hr & Hd). exists row. split; [|done]. apply elem_of_seq. lia. }
  destruct (foldr _ None _) as [m|]; cbn.
  - destruct Hf as [Hm Hmin]. split; [by apply Hin|]. intros row x Hr Hx. apply Hmin, Hin. eauto.
  - intros row Hr. destruct (d row) as [x|] eqn:Hx; [|done].
    assert (Hx' : x ∈ omap d (seq 0 n)) by (apply Hin; eauto).
    rewrite Hf in Hx'. by apply not_elem_of_nil in Hx'.
Qed.

(** The root of an ordered heap is minimal. *)
Lemma root_min h p : ordered d h → p < length h → (key d h 0 ≤ key d h p)%Z.
Proof.
  intros Hord. induction p as [p IH] using lt_wf_ind. intros Hp.
  destruct (decide (p = 0)) as [->|Hne]; [done|].
  pose proof (parent_child p ltac:(lia)) as Hc. set (q := (p - 1) / 2) in *. clearbody q.
  trans (key d h q); [apply IH; unfold child in Hc; lia|]. apply Hord; [done..|lia].
Qed.

(** The head of an index, and what it bounds. *)
Lemma indexes_head ix n :
  indexes d ix n →
  match heap ix with
  | [] => ∀ row, row < n → d row = None
  | z :: _ => ∃ m, Z.to_nat z < n ∧ d (Z.to_nat z) = Some m
      ∧ ∀ row x, row < n → d row = Some x → (m ≤ x)%Z
  end.
Proof.
  intros (_ & h & Hs & Hord & Hmem). rewrite (sh_heap _ _ _ Hs).
  destruct h as [|r h]; cbn [fmap list_fmap].
  - intros row Hr. destruct (d row) as [x|] eqn:Hx; [|done].
    assert (Hin : row ∈ []) by (apply Hmem; [done|by rewrite Hx]). by apply not_elem_of_nil in Hin.
  - rewrite Nat2Z.id. pose proof (shape_row_lt _ _ _ 0 r Hs eq_refl) as Hr.
    destruct (proj1 (Hmem r Hr)) as [m Hm]; [by left|].
    exists m. split; [done|]. split; [done|]. intros row x Hrow Hx.
    assert (Hin : row ∈ r :: h) by (apply Hmem; [done|by rewrite Hx]).
    apply list_elem_of_lookup in Hin as [p Hp].
    pose proof (root_min _ p Hord (lookup_lt_Some _ _ _ Hp)) as Hle.
    rewrite (key_lookup d _ 0 r), (key_lookup d _ p row), Hm, Hx in Hle by done. done.
Qed.

Lemma indexes_rows ix n row :
  indexes d ix n → row ∈ (Z.to_nat <$> heap ix) ↔ row < n ∧ is_Some (d row).
Proof.
  intros (_ & h & Hs & _ & Hmem). rewrite (sh_heap _ _ _ Hs), <- list_fmap_compose.
  assert (E : (Z.to_nat ∘ Z.of_nat) <$> h = h).
  { rewrite <- (list_fmap_id h) at 2. apply list_fmap_ext. intros i x _. cbn. apply Nat2Z.id. }
  rewrite E. split.
  - intros Hin. pose proof Hin as [p Hp]%list_elem_of_lookup.
    pose proof (shape_row_lt _ _ _ _ _ Hs Hp). split; [done|by apply Hmem].
  - intros [Hr ?]. by apply Hmem.
Qed.

(** What the owner of an index knows: a ready index of the right size is an index of its rows. *)
Definition coherent ix (n : nat) : Prop :=
  readiness ix = Ready → length (positions ix) = n → indexes d ix n.

Lemma prepare_spec ix n :
  coherent ix n →
  ∃ ix', prepare d ix n = Done ix' ∧ (indexes d ix' n ∨ readiness ix' = LinearFallback).
Proof.
  intros Hco. unfold prepare, needs_rebuild.
  assert (Hre : ∃ ix', rebuild d ix n = Done ix' ∧ (indexes d ix' n ∨ readiness ix' = LinearFallback)).
  { destruct (Z.ltb_spec ABSENT (Z.of_nat n)) as [Hbig|Hn].
    - unfold rebuild. rewrite (proj2 (Z.ltb_lt _ _)) by done. eexists. split; [done|]. by right.
    - destruct (rebuild_indexes d ix n Hn) as (ix' & -> & ?). eauto. }
  destruct (readiness ix) eqn:Hrd; [|done|by eauto].
  destruct (Nat.eqb_spec (length (positions ix)) n); [|done]. cbn. exists ix. split; [done|]. left. auto.
Qed.

Lemma find_spec {A} (P : A → bool) (xs : list A) :
  match find P xs with
  | Some x => x ∈ xs ∧ P x = true
  | None => ∀ x, x ∈ xs → P x = false
  end.
Proof.
  destruct (find P xs) as [x|] eqn:E.
  - apply find_some in E as [? ?]. by rewrite list_elem_of_In.
  - intros x Hx. apply (find_none _ _ E). by apply list_elem_of_In.
Qed.

(** A row that is due and selected, if there is one. *)
Definition is_due_row (n : nat) (now : Z) (predicate : nat → bool) (r : option nat) : Prop :=
  match r with
  | Some row => row < n ∧ is_due d now row = true ∧ predicate row = true
  | None => ∀ row, row < n → is_due d now row = true → predicate row = false
  end.

Lemma linear_find_spec n now predicate : is_due_row n now predicate (linear_find d n now predicate).
Proof.
  unfold linear_find. pose proof (find_spec (λ row, is_due d now row && predicate row) (seq 0 n)) as Hf.
  destruct (find _ _) as [row|]; cbn.
  - destruct Hf as [Hin%elem_of_seq Hp%andb_true_iff]. split; [lia|done].
  - intros row Hr Hdue. specialize (Hf row). rewrite elem_of_seq, Hdue in Hf. cbn in Hf. apply Hf. lia.
Qed.
End queries.

(** A ready index of the right size is not rebuilt. *)
Lemma prepare_ready d ix n : indexes d ix n → prepare d ix n = Done ix.
Proof.
  intros (Hrd & h & Hs & _). unfold prepare, needs_rebuild. by rewrite Hrd, (sh_len _ _ _ Hs), Nat.eqb_refl.
Qed.

Lemma indexes_coherent d ix n : indexes d ix n → coherent d ix n.
Proof. by intros Hix _ _. Qed.

Lemma earliest_exact_spec d ix n :
  coherent d ix n →
  ∃ ix', earliest_exact d ix n = Done (linear_min d n, ix') ∧ is_earliest d n (linear_min d n)
    ∧ coherent d ix' n.
Proof.
  intros Hco. unfold earliest_exact. pose proof (linear_min_spec d n) as Hmin.
  destruct (prepare_spec d ix n Hco) as (ix' & -> & Hst). cbn [mbind run_bind].
  case_bool_decide as Hf.
  { exists ix'. split; [done|]. split; [done|]. intros Hr. congruence. }
  destruct Hst as [Hix|]; [|done]. pose proof (indexes_head d ix' n Hix) as Hh.
  assert (Hco' : coherent d ix' n) by (intros _ _; exact Hix).
  destruct (heap ix') as [|z rest].
  - exists ix'. rewrite (is_earliest_unique d n (linear_min d n) None Hmin Hh). done.
  - destruct Hh as (m & Hz & Hm & Hle).
    assert (He : is_earliest d n (Some m)) by (split; by eauto).
    rewrite Hm, (is_earliest_unique d n _ _ Hmin He). by exists ix'.
Qed.

Lemma first_due_matching_spec d ix n now predicate :
  coherent d ix n →
  ∃ r ix', first_due_matching d ix n now predicate = Done (r, ix')
    ∧ is_due_row d n now predicate r ∧ coherent d ix' n.
Proof.
  intros Hco. unfold first_due_matching. pose proof (linear_find_spec d n now predicate) as Hlin.
  destruct (prepare_spec d ix n Hco) as (ix' & -> & Hst). cbn [mbind run_bind].
  case_bool_decide as Hf.
  { do 2 eexists. split; [done|]. split; [done|]. intros Hr. congruence. }
  destruct Hst as [Hix|]; [|done]. pose proof (indexes_head d ix' n Hix) as Hh.
  pose proof (indexes_rows d ix' n) as Hrows.
  assert (Hco' : coherent d ix' n) by (intros _ _; exact Hix).
  destruct (heap ix') as [|z rest] eqn:Hheap.
  { do 2 eexists. split; [done|]. split; [|done]. intros row Hr. unfold is_due. by rewrite Hh. }
  destruct Hh as (m & Hz & Hm & Hle). rewrite Hm.
  destruct (Z.ltb_spec now m) as [Hlate|Hnow].
  { do 2 eexists. split; [done|]. split; [|done]. intros row Hr. unfold is_due.
    destruct (d row) as [x|] eqn:Hx; [|done]. specialize (Hle row x Hr Hx).
    rewrite (proj2 (Z.leb_gt _ _)) by lia. done. }
  do 2 eexists. split; [done|]. split; [|done].
  pose proof (find_spec (λ row, is_due d now row && predicate row) (Z.to_nat <$> z :: rest)) as Hfs.
  destruct (find _ _) as [row|]; cbn.
  - destruct Hfs as [Hin Hp%andb_true_iff]. apply Hrows in Hin as [Hr _]; done.
  - intros row Hr Hdue. specialize (Hfs row). rewrite Hrows, Hdue in Hfs by done. cbn in Hfs.
    apply Hfs. split; [done|]. unfold is_due in Hdue. by destruct (d row).
Qed.

Lemma earliest_exact_ready d ix n :
  indexes d ix n → earliest_exact d ix n = Done (linear_min d n, ix).
Proof.
  intros Hix. destruct (earliest_exact_spec d ix n (indexes_coherent _ _ _ Hix)) as (ix' & E & _). rewrite E.
  unfold earliest_exact in E. rewrite (prepare_ready d ix n Hix) in E. cbn [mbind run_bind] in E. do 2 f_equal.
  rewrite bool_decide_false in E by (destruct Hix; congruence). pose proof (indexes_head d ix n Hix) as Hh.
  destruct (heap ix); [congruence|]. destruct Hh as (m & _ & Hm & _). rewrite Hm in E. congruence.
Qed.

Lemma first_due_matching_ready d ix n now predicate :
  indexes d ix n →
  ∃ r, first_due_matching d ix n now predicate = Done (r, ix) ∧ is_due_row d n now predicate r.
Proof.
  intros Hix. destruct (first_due_matching_spec d ix n now predicate (indexes_coherent _ _ _ Hix)) as (r & ix' & E & Hr & _).
  exists r. split; [|done]. rewrite E. unfold first_due_matching in E. rewrite (prepare_ready d ix n Hix) in E.
  cbn [mbind run_bind] in E. do 2 f_equal. rewrite bool_decide_false in E by (destruct Hix; congruence).
  pose proof (indexes_head d ix n Hix) as Hh.
  destruct (heap ix); [congruence|]. destruct Hh as (m & _ & Hm & _). rewrite Hm in E. case_match; congruence.
Qed.

(** * Properties *)

(** The index follows its table: pushing a row, changing a row's deadline and removing a
    row by swapping in the last one each end without a panic and leave a heap, ordered by the
    table's new deadlines, of exactly the rows that have one, with [positions] its inverse. *)
Theorem deadline_index_maintained d d' ix n row :
  indexes d ix n → (Z.of_nat n < ABSENT)%Z →
  ((∀ r, r < n → d' r = d r) →
     ∃ ix', insert d' ix n (d' n) = Done ix' ∧ indexes d' ix' (S n))
  ∧ (row < n → (∀ r, r < n → r ≠ row → d' r = d r) →
     ∃ ix', update d' ix row (d' row) = Done ix' ∧ indexes d' ix' n)
  ∧ (row < n → (∀ r, r < n - 1 → d' r = d (if decide (r = row) then n - 1 else r)) →
     ∃ ix', swap_remove d ix row (n - 1) = Done ix' ∧ indexes d' ix' (n - 1)).
Proof.
  intros Hix Hn. split; [|split].
  - intros Hd. by apply (insert_indexes d).
  - intros Hr Hd. by apply (update_indexes d).
  - intros Hr Hd. destruct n as [|last]; [lia|]. rewrite Nat.sub_succ, Nat.sub_0_r in *.
    apply swap_remove_indexes; [done|lia|done].
Qed.

(** The queries are exact: whatever state the index is in (ready, stale, of another size, or too
    large for its row numbers), [earliest_exact] ends and returns the minimum over the table's rows
    that a full scan would return, and [first_due_matching] returns a due row that satisfies the
    predicate, and none only when no row of the table is both. *)
Theorem deadline_queries_exact d ix n now predicate :
  coherent d ix n →
  (∃ ix', earliest_exact d ix n = Done (linear_min d n, ix') ∧ is_earliest d n (linear_min d n) ∧ coherent d ix' n)
  ∧ ∃ r ix', first_due_matching d ix n now predicate = Done (r, ix')
      ∧ is_due_row d n now predicate r ∧ coherent d ix' n.
Proof. intros Hco. split; [by apply earliest_exact_spec|by apply first_due_matching_spec]. Qed.

(** ** Witnesses: a table of three rows, one without a deadline *)

Definition table3 (row : nat) : option Z :=
  match row with 0 => Some 30%Z | 2 => Some 10%Z | _ => None end.
Definition table3' (row : nat) : option Z :=
  match row with 0 => Some 30%Z | 1 => Some 5%Z | 2 => Some 10%Z | _ => None end.
Definition index3 : HeapDeadlineIndex := mkIndex Ready [2; 0]%Z [1; ABSENT; 0]%Z.

Lemma index3_indexes : indexes table3 index3 3.
Proof.
  destruct (rebuild_indexes table3 default_index 3) as (ix & E & H); [by vm_compute|].
  assert (E' : rebuild table3 default_index 3 = Done index3) by (by vm_compute).
  rewrite E' in E. injection E as <-. exact H.
Qed.

Lemma deadline_index_maintained_witness :
  ∃ ix', update table3' index3 1 (table3' 1) = Done ix' ∧ indexes table3' ix' 3.
Proof.
  refine (proj1 (proj2 (deadline_index_maintained table3 table3' index3 3 1 index3_indexes _)) _ _).
  - by vm_compute.
  - lia.
  - intros r Hr Hne. destruct r as [|[|[|r]]]; [done|lia|done|lia].
Defined.

Lemma deadline_queries_exact_witness :
  (∃ ix', earliest_exact table3 index3 3 = Done (Some 10%Z, ix'))
  ∧ ∃ r ix', first_due_matching table3 index3 3 20 (λ _, true) = Done (r, ix') ∧ is_due_row table3 3 20 (λ _, true) r.
Proof.
  destruct (deadline_queries_exact table3 index3 3 20 (λ _, true)) as [(ix' & E & _) (r & ix'' & E' & Hr & _)].
  - intros _ _. exact index3_indexes.
  - split; [exists ix'; exact E|]. by exists r, ix''.
Defined.
