(* ===== verification/Evidence.v ===== *)
(** Route evidence ids: [prns-core/src/routing/routes/evidence.rs] and the id type of
    [routes/core.rs].

    Ids name one incarnation of a route.  The issuer counts through the non-zero [u32]s and
    wraps; a barrier marks the first id ahead of the cursor that may still be held, and the
    holders are scanned only when the cursor reaches it.  The holders are the environment's
    list [live] at the time of the call, which the [scan] closure reads. *)

From stdpp Require Import relations.
From S2P Require Import Prelude.

(** * Ids *)

(** [NonZeroU32]: 1 .. 2^32 - 1. *)
Definition RouteEvidenceId := Z.
Definition FIRST : RouteEvidenceId := 1%Z.
Definition RouteEvidenceId_new (value : Z) : option RouteEvidenceId :=
  if (value =? 0)%Z then None else Some value.

Definition is_evidence_id (id : Z) : Prop := (1 ≤ id ≤ u32_max)%Z.

Record RouteEvidenceScan := mkScan { current_in_use : bool; next_in_use : option RouteEvidenceId }.

(** The loop of [RouteEvidenceScan::over]. *)
Fixpoint over_loop (candidate : Z) (ids : list Z) (scan : RouteEvidenceScan) : RouteEvidenceScan :=
  match ids with
  | [] => scan
  | id :: ids =>
      over_loop candidate ids
        (match Z.compare id candidate with
         | Lt => scan
         | Eq => mkScan true (next_in_use scan)
         | Gt => mkScan (current_in_use scan)
                   (Some (match next_in_use scan with None => id | Some next => Z.min next id end))
         end)
  end.
Definition over (candidate : Z) (ids : list Z) : RouteEvidenceScan :=
  over_loop candidate ids (mkScan false None).

Record RouteEvidenceIdIssuer := mkIssuer {
  next : RouteEvidenceId;
  reuse_barrier : option RouteEvidenceId;
}.
Definition issuer_default : RouteEvidenceIdIssuer := mkIssuer FIRST None.

Definition advance (s : RouteEvidenceIdIssuer) : bool * RouteEvidenceIdIssuer :=
  match RouteEvidenceId_new (wrapping_add 32 (next s) 1) with
  | Some n => (false, mkIssuer n (reuse_barrier s))
  | None => (true, mkIssuer FIRST (reuse_barrier s))
  end.

(** [issue]: [scan candidate] is [over candidate live]. *)
Fixpoint issue_loop (fuel : nat) (s : RouteEvidenceIdIssuer) (live : list Z) :
    run (RouteEvidenceId * RouteEvidenceIdIssuer) :=
  match fuel with
  | O => OutOfFuel
  | S fuel =>
      let hand_out s :=
        let issued := next s in
        let '(wrapped, s) := advance s in
        Done (issued, if wrapped : bool then mkIssuer (next s) (Some (next s)) else s) in
      if decide (reuse_barrier s = Some (next s)) then
        let occupied := over (next s) live in
        if current_in_use occupied then
          let '(wrapped, s) := advance s in
          issue_loop fuel
            (mkIssuer (next s) (if wrapped : bool then Some (next s) else next_in_use occupied)) live
        else hand_out (mkIssuer (next s) (next_in_use occupied))
      else hand_out s
  end.

(** One round more than there are holders is enough. *)
Definition issue (s : RouteEvidenceIdIssuer) (live : list Z) :
    run (RouteEvidenceId * RouteEvidenceIdIssuer) := issue_loop (S (length live)) s live.

(** * The scan *)

Definition min_opt (o : option Z) (ids : list Z) (candidate : Z) : Prop :=
  match o with
  | None => ∀ id, id ∈ ids → (id ≤ candidate)%Z
  | Some m => m ∈ ids ∧ (candidate < m)%Z ∧ ∀ id, id ∈ ids → (candidate < id)%Z → (m ≤ id)%Z
  end.

Lemma over_loop_spec candidate ids done scan :
  min_opt (next_in_use scan) done candidate →
  (current_in_use scan = true ↔ candidate ∈ done) →
  min_opt (next_in_use (over_loop candidate ids scan)) (done ++ ids) candidate
  ∧ (current_in_use (over_loop candidate ids scan) = true ↔ candidate ∈ done ++ ids).
Proof.
  revert done scan. induction ids as [|id ids IH]; intros done scan Hmin Hcur; cbn [over_loop].
  { by rewrite app_nil_r. }
  rewrite cons_middle, app_assoc. apply IH; clear IH.
  - destruct (Z.compare_spec id candidate) as [->|Hlt|Hgt]; cbn [next_in_use]; unfold min_opt in *.
    + destruct (next_in_use scan) as [m|].
      * destruct Hmin as (Hm & Hc & Hall). split; [apply elem_of_app; by left|]. split; [done|].
        intros x. rewrite elem_of_app, list_elem_of_singleton. intros [?| ->] ?; [by auto|lia].
      * intros x. rewrite elem_of_app, list_elem_of_singleton. intros [?| ->]; [by auto|lia].
    + destruct (next_in_use scan) as [m|].
      * destruct Hmin as (Hm & Hc & Hall). split; [apply elem_of_app; by left|]. split; [done|].
        intros x. rewrite elem_of_app, list_elem_of_singleton. intros [?| ->] ?; [by auto|lia].
      * intros x. rewrite elem_of_app, list_elem_of_singleton. intros [?| ->]; [by auto|lia].
    + rewrite elem_of_app, list_elem_of_singleton. destruct (next_in_use scan) as [m|].
      * destruct Hmin as (Hm & Hc & Hall). split; [|split].
        -- destruct (Z.min_spec m id) as [[_ ->]|[_ ->]]; by auto.
        -- lia.
        -- intros x. rewrite elem_of_app, list_elem_of_singleton.
           intros [Hx| ->] ?; [specialize (Hall x Hx)|]; lia.
      * split; [by right|]. split; [lia|]. intros x. rewrite elem_of_app, list_elem_of_singleton.
        intros [Hx| ->] ?; [specialize (Hmin x Hx)|]; lia.
  - rewrite elem_of_app, list_elem_of_singleton.
    destruct (Z.compare_spec id candidate) as [->|Hlt|Hgt]; cbn [current_in_use].
    + split; [by right|done].
    + rewrite Hcur. split; [by left|]. intros [?| ->]; [done|lia].
    + rewrite Hcur. split; [by left|]. intros [?| ->]; [done|lia].
Qed.

Lemma over_spec candidate ids :
  min_opt (next_in_use (over candidate ids)) ids candidate
  ∧ (current_in_use (over candidate ids) = true ↔ candidate ∈ ids).
Proof.
  apply (over_loop_spec candidate ids []); cbn.
  - intros id ?%not_elem_of_nil. done.
  - split; [done|]. by intros ?%not_elem_of_nil.
Qed.

(** * The frontier: no held id lies between the cursor and the barrier *)

Record frontier (s : RouteEvidenceIdIssuer) (live : list Z) : Prop := {
  fr_next : is_evidence_id (next s);
  fr_barrier : ∀ b, reuse_barrier s = Some b → (next s ≤ b)%Z;
  fr_ahead : ∀ id, id ∈ live → (next s ≤ id)%Z →
    ∃ b, reuse_barrier s = Some b ∧ (b ≤ id)%Z;
}.

Lemma advance_spec s :
  is_evidence_id (next s) →
  (next s = u32_max ∧ advance s = (true, mkIssuer FIRST (reuse_barrier s)))
  ∨ ((next s < u32_max)%Z ∧ advance s = (false, mkIssuer (next s + 1)%Z (reuse_barrier s))).
Proof.
  intros [Hlo Hhi]. unfold advance, wrapping_add, wrap, RouteEvidenceId_new.
  destruct (Z.eq_dec (next s) u32_max) as [->|Hne]; [by left|right]. split; [lia|].
  unfold u32_max, max_width in *. rewrite Z.mod_small by lia.
  destruct (Z.eqb_spec (next s + 1) 0); [lia|done].
Qed.

(** The id [j] rounds after [n]. *)
Definition rounds (n : Z) (j : nat) : Z := ((n - 1 + Z.of_nat j) mod u32_max + 1)%Z.

Lemma rounds_0 n : is_evidence_id n → rounds n 0 = n.
Proof. intros [? ?]. unfold rounds. rewrite Z.add_0_r, Z.mod_small by lia. lia. Qed.

Lemma rounds_S n n' j : n' = rounds n 1 → rounds n' j = rounds n (S j).
Proof.
  intros ->. unfold rounds. f_equal. rewrite Z.add_simpl_r.
  rewrite Zplus_mod_idemp_l. f_equal. lia.
Qed.

Lemma rounds_next n : is_evidence_id n →
  rounds n 1 = if (n =? u32_max)%Z then FIRST else (n + 1)%Z.
Proof.
  intros [Hlo Hhi]. unfold rounds, FIRST. change (Z.of_nat 1) with 1%Z.
  destruct (Z.eqb_spec n u32_max) as [->|Hne].
  - rewrite Z.sub_add, Z_mod_same_full. done.
  - rewrite Z.sub_add, Z.mod_small by lia. done.
Qed.

Lemma rounds_inj n i j :
  (Z.of_nat i < u32_max)%Z → (Z.of_nat j < u32_max)%Z → rounds n i = rounds n j → i = j.
Proof.
  unfold rounds. intros Hi Hj E. apply Z.add_cancel_r in E.
  pose proof (Z.div_mod (n - 1 + Z.of_nat i) u32_max ltac:(done)).
  pose proof (Z.div_mod (n - 1 + Z.of_nat j) u32_max ltac:(done)).
  change u32_max with 4294967295%Z in *. lia.
Qed.

(** Handing out the cursor's id keeps the frontier, for any later set of holders. *)
Lemma hand_out_spec s live live' :
  frontier s live → reuse_barrier s ≠ Some (next s) →
  (∀ id, id ∈ live' → id = next s ∨ id ∈ live) →
  let '(wrapped, s') := advance s in
  (next s ∉ live) ∧ frontier (if wrapped : bool then mkIssuer (next s') (Some (next s')) else s') live'.
Proof.
  intros [Hn Hb Ha] Hne Hsub.
  assert (Hnot : next s ∉ live).
  { intros Hin. destruct (Ha _ Hin ltac:(lia)) as (b & Hsome & Hle).
    pose proof (Hb b Hsome). assert (b = next s) by lia. congruence. }
  destruct (advance_spec s Hn) as [[Hmax ->]|[Hlt ->]]; (split; [done|]).
  - split; cbn [next reuse_barrier].
    + split; [done|]. done.
    + intros b [= <-]. lia.
    + intros id _ Hid. by exists FIRST.
  - unfold is_evidence_id in *. split; cbn [next reuse_barrier].
    + unfold is_evidence_id. lia.
    + intros b Hsome. pose proof (Hb b Hsome). assert (b ≠ next s) by congruence. lia.
    + intros id [->|Hin]%Hsub Hid; [lia|]. apply Ha; [done|lia].
Qed.

Lemma issue_loop_spec fuel s live :
  frontier s live →
  (∃ id s', issue_loop fuel s live = Done (id, s') ∧ (id ∉ live)
     ∧ ∀ live', (∀ x, x ∈ live' → x = id ∨ x ∈ live) → frontier s' live')
  ∨ (∀ j, j < fuel → rounds (next s) j ∈ live).
Proof.
  revert s. induction fuel as [|fuel IH]; intros s Hf; [right; lia|]. cbn [issue_loop].
  case_decide as Hbar.
  - destruct (over_spec (next s) live) as [Hmin Hcur]. pose proof (fr_next _ _ Hf) as Hn.
    destruct (current_in_use (over (next s) live)) eqn:Huse.
    + assert (Hin : next s ∈ live) by (by apply Hcur).
      destruct (advance s) as [wrapped s1] eqn:Eadv.
      set (s2 := mkIssuer (next s1) (if wrapped then Some (next s1) else next_in_use (over (next s) live))).
      assert (Hs2 : frontier s2 live ∧ next s2 = rounds (next s) 1).
      { rewrite rounds_next by done.
        destruct (advance_spec s Hn) as [[Hmax E]|[Hlt E]]; rewrite E in Eadv; injection Eadv as <- <-;
          unfold s2; cbn [next].
        - split; [|by rewrite Hmax].
          split; cbn [next reuse_barrier]; [done|intros b [= <-]; lia|]. intros id _ ?. by exists FIRST.
        - split; [|destruct (Z.eqb_spec (next s) u32_max); [lia|done]].
          unfold is_evidence_id in *. split; cbn [next reuse_barrier].
          + unfold is_evidence_id. lia.
          + intros b Hb. rewrite Hb in Hmin. cbn in Hmin. lia.
          + intros id Hid Hle. destruct (next_in_use (over (next s) live)) as [m|]; cbn in Hmin.
            * exists m. split; [done|]. apply Hmin; [done|lia].
            * specialize (Hmin id Hid). lia. }
      destruct Hs2 as [Hf2 Hnext]. destruct (IH s2 Hf2) as [?|Hall]; [by left|right].
      intros [|j] Hj; [by rewrite rounds_0|]. rewrite <- (rounds_S _ (next s2)) by done.
      apply Hall. lia.
    + left. set (s1 := mkIssuer (next s) (next_in_use (over (next s) live))).
      assert (Hf1 : frontier s1 live).
      { split; unfold s1; cbn [next reuse_barrier]; [done| |].
        - intros b Hb. rewrite Hb in Hmin. cbn in Hmin. lia.
        - intros id Hid Hle. assert (id ≠ next s). { intros ->. by apply Hcur in Hid. }
          destruct (next_in_use (over (next s) live)) as [m|]; cbn in Hmin.
          + exists m. split; [done|]. apply Hmin; [done|lia].
          + specialize (Hmin id Hid). lia. }
      assert (Hne : reuse_barrier s1 ≠ Some (next s1)).
      { unfold s1. cbn. intros E. rewrite E in Hmin. cbn in Hmin. lia. }
      pose proof (λ live', hand_out_spec s1 live live' Hf1 Hne) as Hh.
      destruct (advance s1) as [wrapped s'].
      do 2 eexists. split; [done|]. split; [apply (Hh live); by right|].
      intros live' Hsub. by apply Hh.
  - left. pose proof (λ live', hand_out_spec s live live' Hf Hbar) as Hh.
    destruct (advance s) as [wrapped s'].
    do 2 eexists. split; [done|]. split; [apply (Hh live); by right|].
    intros live' Hsub. by apply Hh.
Qed.

Lemma issue_spec s live :
  frontier s live → (Z.of_nat (length live) < u32_max)%Z →
  ∃ id s', issue s live = Done (id, s') ∧ (id ∉ live)
    ∧ ∀ live', (∀ x, x ∈ live' → x = id ∨ x ∈ live) → frontier s' live'.
Proof.
  intros Hf Hlen. unfold issue.
  destruct (issue_loop_spec (S (length live)) s live Hf) as [?|Hall]; [done|]. exfalso.
  assert (S (length live) ≤ length live); [|lia].
  rewrite <- (length_seq (S (length live)) 0) at 1.
  rewrite <- (length_fmap (rounds (next s)) (seq 0 (S (length live)))).
  apply submseteq_length, NoDup_submseteq.
  - apply NoDup_fmap_2_strong; [|apply NoDup_seq]. intros i j Hi%elem_of_seq Hj%elem_of_seq.
    apply rounds_inj; lia.
  - intros x (j & -> & Hj%elem_of_seq)%list_elem_of_fmap. apply Hall. lia.
Qed.

(** * Traces *)

(** The issuer beside the holders of its ids: while there are fewer holders than ids, a call
    issues an id that is then held; at any time a holder may retire one. *)
Inductive evidence_step :
    RouteEvidenceIdIssuer * list Z → RouteEvidenceIdIssuer * list Z → Prop :=
  | step_issue s live id s' :
      (Z.of_nat (length live) < u32_max)%Z →
      issue s live = Done (id, s') → evidence_step (s, live) (s', id :: live)
  | step_retire s before id after :
      evidence_step (s, before ++ id :: after) (s, before ++ after).

Lemma reachable_invariant st :
  rtc evidence_step (issuer_default, []) st → frontier st.1 st.2 ∧ NoDup st.2.
Proof.
  revert st. apply (rtc_ind_r (λ st, frontier st.1 st.2 ∧ NoDup st.2)).
  { cbn. split; [|constructor]. split; cbn; [done|done|]. by intros id ?%not_elem_of_nil. }
  intros st1 st2 _ Hstep [Hf Hnd]. destruct Hstep as [s live id s' Hlen E|s before id after]; cbn [fst snd] in *.
  - destruct (issue_spec s live Hf Hlen) as (id' & s'' & E' & Hnot & Hfr).
    rewrite E in E'. injection E' as <- <-. split.
    + apply Hfr. intros x. by rewrite elem_of_cons.
    + by constructor.
  - split.
    + destruct Hf as [Hn Hb Ha]. split; [done..|]. intros x. rewrite elem_of_app. intros Hx. apply Ha.
      rewrite elem_of_app, elem_of_cons. tauto.
    + rewrite <- Permutation_middle in Hnd. by apply list.NoDup_cons in Hnd as [_ Hnd].
Qed.

(** * Properties *)

(** A live id is never reissued, across any number of wrap-arounds: in every reachable
    state, as long as fewer than [2^32 - 1] ids are held, [issue] ends and returns a valid id
    that no holder has; so no two holders ever share an id. *)
Theorem evidence_id_never_reissued s live :
  rtc evidence_step (issuer_default, []) (s, live) → (Z.of_nat (length live) < u32_max)%Z →
  NoDup live ∧ ∃ id s', issue s live = Done (id, s') ∧ (id ∉ live) ∧ is_evidence_id (next s').
Proof.
  intros Hr Hlen. destruct (reachable_invariant _ Hr) as [Hf Hnd]. cbn [fst snd] in *.
  split; [done|]. destruct (issue_spec s live Hf Hlen) as (id & s' & E & Hnot & Hfr).
  exists id, s'. split; [done|]. split; [done|]. apply (fr_next _ live), Hfr. auto.
Qed.

Lemma evidence_id_never_reissued_witness :
  NoDup [1%Z] ∧ ∃ id s', issue (mkIssuer 2%Z None) [1%Z] = Done (id, s') ∧ (id ∉ [1%Z])
    ∧ is_evidence_id (next s').
Proof.
  apply (evidence_id_never_reissued (mkIssuer 2%Z None) [1%Z]); [|done].
  eapply rtc_l; [|apply rtc_refl]. apply step_issue; [done|]. by vm_compute.
Defined.
