(* ===== verification/AppData.v ===== *)
(** Announce payload stores: [prns-core/src/routing/announce/stored/] ([core.rs], trait
    [AnnounceAppData]; [impls/heap_announce_app_data.rs]; [impls/packed_app_data_arena.rs]).

    A store hands out handles for byte strings.  The trait is a class, its contract a finite map
    from handles to bytes ([AppDataLaws]).  The heap store keeps the contract.  The packed arena
    keeps every payload in one byte array without gaps and keeps the contract except when an
    empty payload is replaced by a longer one while a non-empty payload starts at the same
    offset: that payload is then read from the wrong place. *)

From stdpp Require Import gmap.
From S2P Require Import Prelude.

(** * The trait *)

Inductive AnnounceAppDataError := ArenaFull | TooManyEntries.

(** An [AppDataHandle] is a slot number. *)
Definition AppDataHandle := nat.

Class AnnounceAppData (D : Type) := {
  ad_get : D → AppDataHandle → run (list Z);
  ad_insert : D → list Z → run (result AnnounceAppDataError AppDataHandle * D);
  ad_replace : D → AppDataHandle → list Z → run (result AnnounceAppDataError () * D);
  ad_free : D → AppDataHandle → run D;
}.

(** The contract: [ad_rep s m] says that [s] holds exactly the payloads of [m]. *)
Class AppDataLaws (D : Type) `{AnnounceAppData D} := {
  ad_rep : D → gmap nat (list Z) → Prop;
  ad_get_ok : ∀ s m h b, ad_rep s m → m !! h = Some b → ad_get s h = Done b;
  ad_insert_ok : ∀ s m b, ad_rep s m →
    (∃ h s', ad_insert s b = Done (Ok h, s') ∧ m !! h = None ∧ ad_rep s' (<[h := b]> m))
    ∨ (∃ e, ad_insert s b = Done (Err e, s));
  ad_replace_ok : ∀ s m h b b', ad_rep s m → m !! h = Some b →
    (∃ s', ad_replace s h b' = Done (Ok (), s') ∧ ad_rep s' (<[h := b']> m))
    ∨ (∃ e, ad_replace s h b' = Done (Err e, s));
  ad_free_ok : ∀ s m h b, ad_rep s m → m !! h = Some b →
    ∃ s', ad_free s h = Done s' ∧ ad_rep s' (delete h m);
}.

(** [Vec::pop] *)
Definition pop_last {A} (xs : list A) : option (A * list A) :=
  match list.last xs with Some x => Some (x, take (length xs - 1) xs) | None => None end.

Lemma pop_last_spec {A} (xs : list A) :
  match pop_last xs with
  | Some (x, rest) => xs = rest ++ [x]
  | None => xs = []
  end.
Proof.
  unfold pop_last. destruct (list.last xs) as [x|] eqn:E; [|by apply last_None].
  apply last_Some in E as [l ->]. rewrite length_app, take_app_le by (cbn [length]; lia).
  cbn [length]. by rewrite Nat.add_sub, firstn_all.
Qed.

(** * [HeapAnnounceAppData] *)

Module Heap.
Record HeapAnnounceAppData := mk { entries : list (list Z); free_slots : list nat }.
Definition default : HeapAnnounceAppData := mk [] [].

Definition get (s : HeapAnnounceAppData) (handle : AppDataHandle) : run (list Z) :=
  index (entries s) handle.
Definition insert (s : HeapAnnounceAppData) (bytes : list Z) :
    run (result AnnounceAppDataError AppDataHandle * HeapAnnounceAppData) :=
  match pop_last (free_slots s) with
  | Some (slot, rest) =>
      es ← store (entries s) slot bytes;
      Done (Ok slot, mk es rest)
  | None => Done (Ok (length (entries s)), mk (entries s ++ [bytes]) (free_slots s))
  end.
Definition replace (s : HeapAnnounceAppData) (handle : AppDataHandle) (bytes : list Z) :
    run (result AnnounceAppDataError () * HeapAnnounceAppData) :=
  es ← store (entries s) handle bytes;
  Done (Ok (), mk es (free_slots s)).
Definition free (s : HeapAnnounceAppData) (handle : AppDataHandle) : run HeapAnnounceAppData :=
  es ← store (entries s) handle [];
  Done (mk es (free_slots s ++ [handle])).

#[global] Instance heap_app_data : AnnounceAppData HeapAnnounceAppData := {|
  ad_get := get; ad_insert := insert; ad_replace := replace; ad_free := free;
|}.

Record heap_rep (s : HeapAnnounceAppData) (m : gmap nat (list Z)) : Prop := {
  hr_nodup : NoDup (free_slots s);
  hr_free : ∀ h, h ∈ free_slots s → h < length (entries s);
  hr_map : ∀ h b, m !! h = Some b ↔ (entries s !! h = Some b ∧ h ∉ free_slots s);
}.

Lemma heap_default_rep : heap_rep default ∅.
Proof.
  split; cbn; [constructor|by intros h ?%not_elem_of_nil|]. intros h b.
  rewrite lookup_empty. split; [done|]. by intros [? _].
Qed.

Lemma insert_rep s m b :
  heap_rep s m →
  ∃ h s', insert s b = Done (Ok h, s') ∧ m !! h = None ∧ heap_rep s' (<[h := b]> m).
Proof.
  intros [Hnd Hfree Hmap]. unfold insert. pose proof (pop_last_spec (free_slots s)) as Hpop.
  destruct (pop_last (free_slots s)) as [[slot rest]|].
  - assert (Hin : slot ∈ free_slots s).
    { rewrite Hpop, elem_of_app, list_elem_of_singleton. by right. }
    pose proof (Hfree slot Hin) as Hlt. rewrite store_done by done. cbn [mbind run_bind].
    rewrite Hpop in Hnd. apply list.NoDup_app in Hnd as (Hrest & Hdisj & _).
    assert (Hnot : slot ∉ rest) by (intros ?%Hdisj; set_solver).
    do 2 eexists. split; [done|]. split.
    { destruct (m !! slot) as [x|] eqn:Hx; [|done]. by apply Hmap in Hx as [_ ?]. }
    split; cbn [entries free_slots].
    + done.
    + intros h Hh. rewrite length_insert. apply Hfree. rewrite Hpop. set_solver.
    + intros h b'. destruct (decide (h = slot)) as [->|Hne].
      * rewrite lookup_insert_eq, list_lookup_insert_eq by done.
        split; [intros [= ->]; done|by intros [[= ->] _]].
      * rewrite lookup_insert_ne, list_lookup_insert_ne, Hmap, Hpop by done. set_solver.
  - do 2 eexists. split; [done|]. split.
    { destruct (m !! length (entries s)) as [x|] eqn:Hx; [|done].
      apply Hmap in Hx as [Hx%lookup_lt_Some _]. lia. }
    split; cbn [entries free_slots]; rewrite Hpop in *.
    + done.
    + by intros h ?%not_elem_of_nil.
    + intros h b'. destruct (decide (h = length (entries s))) as [->|Hne].
      * rewrite lookup_insert_eq, lookup_app_r, Nat.sub_diag by lia. cbn.
        split; [intros [= ->]; split; [done|apply not_elem_of_nil]|by intros [[= ->] _]].
      * rewrite lookup_insert_ne, Hmap by done. split; intros [Hb Hf]; (split; [|done]).
        -- by apply lookup_app_l_Some.
        -- rewrite lookup_app_Some in Hb. destruct Hb as [?|[Hge Hb]]; [done|].
           apply list_lookup_singleton_Some in Hb as [? _]. lia.
Qed.

Lemma replace_rep s m h b b' :
  heap_rep s m → m !! h = Some b →
  ∃ s', replace s h b' = Done (Ok (), s') ∧ heap_rep s' (<[h := b']> m).
Proof.
  intros [Hnd Hfree Hmap] Hb. pose proof (proj1 (Hmap h b) Hb) as [Hl Hnot].
  pose proof (lookup_lt_Some _ _ _ Hl). unfold replace. rewrite store_done by done.
  cbn [mbind run_bind]. eexists. split; [done|]. split; cbn [entries free_slots]; [done| |].
  - intros x Hx. rewrite length_insert. auto.
  - intros x y. destruct (decide (x = h)) as [->|Hne].
    + rewrite lookup_insert_eq, list_lookup_insert_eq by done.
      split; [intros [= ->]; done|by intros [[= ->] _]].
    + by rewrite lookup_insert_ne, list_lookup_insert_ne by done.
Qed.

Lemma free_rep s m h b :
  heap_rep s m → m !! h = Some b → ∃ s', free s h = Done s' ∧ heap_rep s' (delete h m).
Proof.
  intros [Hnd Hfree Hmap] Hb. pose proof (proj1 (Hmap h b) Hb) as [Hl Hnot].
  pose proof (lookup_lt_Some _ _ _ Hl). unfold free. rewrite store_done by done.
  cbn [mbind run_bind]. eexists. split; [done|]. split; cbn [entries free_slots].
  - apply list.NoDup_app. split; [done|]. split; [|apply NoDup_singleton]. set_solver.
  - intros x. rewrite length_insert, elem_of_app, list_elem_of_singleton.
    intros [Hx| ->]; [by apply Hfree|done].
  - intros x y. rewrite elem_of_app, list_elem_of_singleton.
    destruct (decide (x = h)) as [->|Hne].
    + rewrite lookup_delete_eq. split; [done|]. intros [_ Hx]. destruct Hx. by right.
    + rewrite lookup_delete_ne, list_lookup_insert_ne, Hmap by done. tauto.
Qed.

#[global] Instance heap_app_data_laws : AppDataLaws HeapAnnounceAppData.
Proof.
  refine {| ad_rep := heap_rep |}; cbn.
  - intros s m h b [_ _ Hmap] Hb. apply index_lookup. by apply Hmap.
  - intros s m b Hrep. left. by apply insert_rep.
  - intros s m h b b' Hrep Hb. left. by eapply replace_rep.
  - apply free_rep.
Defined.
End Heap.

(** * [PackedAppDataArena] *)

(** [heapless::Vec] is code outside the repository: a vector of bounded capacity. *)
Class HeaplessVec := { hv_push : ∀ {A : Type}, nat → list A → A → list A }.
(** Its documentation: pushing to a vector with room appends. *)
Class HeaplessVecLaws `{HeaplessVec} : Prop := {
  hv_push_room : ∀ {A} (cap : nat) (xs : list A) x, length xs < cap → hv_push cap xs x = xs ++ [x];
}.

Module Packed.
Record Span := mkSpan { offset : nat; len : nat }.
Record PackedAppDataArena (ARENA_BYTES MAX_ENTRIES : nat) := mk {
  arena : list Z;
  used : nat;
  spans : list Span;
  free_slots : list nat;
}.
Arguments mk {_ _} _ _ _ _.
Arguments arena {_ _} _.
Arguments used {_ _} _.
Arguments spans {_ _} _.
Arguments free_slots {_ _} _.

Section packed.
Context `{HeaplessVec} {ARENA_BYTES MAX_ENTRIES : nat}.
Abbreviation store_t := (PackedAppDataArena ARENA_BYTES MAX_ENTRIES).

Definition new : store_t := mk (replicate ARENA_BYTES 0%Z) 0 [] [].

(** [copy_within(from..to, dest)] *)
Definition copy_within (xs : list Z) (from to dest : nat) : run (list Z) :=
  src ← slice xs from to;
  copy_into xs dest src.

Definition get (s : store_t) (handle : AppDataHandle) : run (list Z) :=
  span ← index (spans s) handle;
  slice (arena s) (offset span) (offset span + len span).

Definition insert (s : store_t) (bytes : list Z) :
    run (result AnnounceAppDataError AppDataHandle * store_t) :=
  if (length (free_slots s) =? 0)%nat && (length (spans s) =? MAX_ENTRIES)%nat
  then Done (Err TooManyEntries, s) else
  if (ARENA_BYTES - used s <? length bytes)%nat then Done (Err ArenaFull, s) else
  let offset := used s in
  a ← copy_into (arena s) offset bytes;
  let used := (used s + length bytes)%nat in
  let span := mkSpan offset (length bytes) in
  match pop_last (free_slots s) with
  | Some (slot, rest) =>
      ss ← store (spans s) slot span;
      Done (Ok slot, mk a used ss rest)
  | None =>
      let ss := hv_push MAX_ENTRIES (spans s) span in
      Done (Ok (length ss - 1)%nat, mk a used ss (free_slots s))
  end.

Definition free (s : store_t) (handle : AppDataHandle) : run store_t :=
  span ← index (spans s) handle;
  let tail_start := (offset span + len span)%nat in
  let tail_len := (used s - tail_start)%nat in
  a ← copy_within (arena s) tail_start (tail_start + tail_len) (offset span);
  let ss := (λ other, if (offset span <? offset other)%nat
                      then mkSpan (offset other - len span) (len other) else other) <$> spans s in
  let used := (used s - len span)%nat in
  ss ← store ss handle (mkSpan 0 0);
  Done (mk a used ss (hv_push MAX_ENTRIES (free_slots s) handle)).

Definition replace (s : store_t) (handle : AppDataHandle) (bytes : list Z) :
    run (result AnnounceAppDataError () * store_t) :=
  span ← index (spans s) handle;
  let new_len := length bytes in
  if (new_len =? len span)%nat then
    a ← copy_into (arena s) (offset span) bytes;
    Done (Ok (), mk a (used s) (spans s) (free_slots s))
  else
  let new_used := (used s - len span + new_len)%nat in
  if (ARENA_BYTES <? new_used)%nat then Done (Err ArenaFull, s) else
  let tail_start := (offset span + len span)%nat in
  let tail_len := (used s - tail_start)%nat in
  let new_tail_start := (offset span + new_len)%nat in
  a ← copy_within (arena s) tail_start (tail_start + tail_len) new_tail_start;
  a ← copy_into a (offset span) bytes;
  ss ← store (spans s) handle (mkSpan (offset span) new_len);
  let ss := (λ other, if (offset span <? offset other)%nat
                      then mkSpan (offset other + new_len - len span) (len other)
                      else other) <$> ss in
  Done (Ok (), mk a new_used ss (free_slots s)).

#[global] Instance packed_app_data : AnnounceAppData store_t := {|
  ad_get := get; ad_insert := insert; ad_replace := replace; ad_free := free;
|}.

(** ** Layout: the live payloads in the order they lie in the arena *)

Implicit Types (L : list (nat * list Z)).

Definition flat L : list Z := concat (L.*2).
Definition total L : nat := length (flat L).

Lemma flat_app L1 L2 : flat (L1 ++ L2) = flat L1 ++ flat L2.
Proof. unfold flat. by rewrite fmap_app, concat_app. Qed.
Lemma total_app L1 L2 : total (L1 ++ L2) = total L1 + total L2.
Proof. unfold total. by rewrite flat_app, length_app. Qed.
Lemma flat_cons h b L : flat ((h, b) :: L) = b ++ flat L.
Proof. done. Qed.
Lemma total_cons h b L : total ((h, b) :: L) = length b + total L.
Proof. unfold total. by rewrite flat_cons, length_app. Qed.

Record layout (s : store_t) L : Prop := {
  ly_arena : length (arena s) = ARENA_BYTES;
  ly_flat : take (total L) (arena s) = flat L;
  ly_used : used s = total L;
  ly_fits : total L ≤ ARENA_BYTES;
  ly_spans : ∀ k h b, L !! k = Some (h, b) →
    spans s !! h = Some (mkSpan (total (take k L)) (length b));
  ly_nodup : NoDup (L.*1 ++ free_slots s);
  ly_slots : ∀ h, h ∈ L.*1 ++ free_slots s ↔ h < length (spans s);
  ly_cap : length (spans s) ≤ MAX_ENTRIES;
}.

Lemma flat_arena s L : layout s L → arena s = flat L ++ drop (total L) (arena s).
Proof. intros Hl. by rewrite <- (ly_flat _ _ Hl), take_drop. Qed.

Lemma span_middle s L1 h b L2 :
  layout s (L1 ++ (h, b) :: L2) → spans s !! h = Some (mkSpan (total L1) (length b)).
Proof.
  intros Hl. pose proof (ly_spans _ _ Hl (length L1) h b) as Hs.
  rewrite take_app_length in Hs. apply Hs. by rewrite lookup_app_r, Nat.sub_diag by lia.
Qed.

(** Reading back a payload of the layout. *)
Lemma get_layout s L1 h b L2 : layout s (L1 ++ (h, b) :: L2) → get s h = Done b.
Proof.
  intros Hl. unfold get. rewrite (index_lookup _ _ _ (span_middle _ _ _ _ _ Hl)).
  cbn [mbind run_bind offset len]. pose proof (flat_arena _ _ Hl) as Ha.
  pose proof (ly_fits _ _ Hl) as Hf. rewrite total_app, total_cons in Hf.
  unfold slice. rewrite decide_True by (rewrite (ly_arena _ _ Hl); lia).
  rewrite Ha, flat_app, flat_cons, <- !app_assoc. unfold total. rewrite drop_app_length.
  replace (length (flat L1) + length b - length (flat L1)) with (length b) by lia.
  by rewrite take_app_length.
Qed.

(** Splitting a layout at a live handle. *)
Lemma layout_split L h b : (h, b) ∈ L → ∃ L1 L2, L = L1 ++ (h, b) :: L2.
Proof. apply list_elem_of_split. Qed.

Lemma layout_slots_length s L : layout s L → length L + length (free_slots s) = length (spans s).
Proof.
  intros Hl. rewrite <- (length_fmap fst L), <- length_app, <- (length_seq (length (spans s)) 0).
  apply Permutation_length, NoDup_Permutation; [apply Hl|apply NoDup_seq|].
  intros h. rewrite (ly_slots _ _ Hl), elem_of_seq. lia.
Qed.

Lemma handle_unique L1 h b L2 k b' :
  NoDup ((L1 ++ (h, b) :: L2).*1) → (L1 ++ (h, b) :: L2) !! k = Some (h, b') → k = length L1.
Proof.
  intros Hnd Hk. apply (NoDup_lookup _ _ _ h Hnd).
  - by rewrite list_lookup_fmap, Hk.
  - by rewrite list_lookup_fmap, lookup_app_r, Nat.sub_diag by lia.
Qed.

Lemma handle_at L k h b : L !! k = Some (h, b) → h ∈ L.*1.
Proof. intros Hk. apply (list_elem_of_lookup_2 _ k). by rewrite list_lookup_fmap, Hk. Qed.

Lemma insert_layout `{!HeaplessVecLaws} s L bytes :
  layout s L → total L + length bytes ≤ ARENA_BYTES → length L < MAX_ENTRIES →
  ∃ h s', insert s bytes = Done (Ok h, s') ∧ (h ∉ L.*1) ∧ layout s' (L ++ [(h, bytes)]).
Proof.
  intros Hl Hroom Hcap. pose proof (layout_slots_length _ _ Hl) as Hcount.
  pose proof (ly_cap _ _ Hl) as Hc. pose proof (ly_used _ _ Hl) as Hu.
  pose proof (ly_arena _ _ Hl) as Ha. unfold insert.
  assert ((length (free_slots s) =? 0)%nat && (length (spans s) =? MAX_ENTRIES)%nat = false) as ->.
  { destruct (Nat.eqb_spec (length (free_slots s)) 0), (Nat.eqb_spec (length (spans s)) MAX_ENTRIES);
      cbn; try done. lia. }
  rewrite (proj2 (Nat.ltb_ge _ _)) by lia. rewrite copy_into_done by lia. cbn [mbind run_bind].
  set (a := take (used s) (arena s) ++ bytes ++ drop (used s + length bytes) (arena s)).
  assert (Hal : length a = ARENA_BYTES).
  { unfold a. rewrite !length_app, length_take, length_drop. lia. }
  assert (Hflat : ∀ h, take (total (L ++ [(h, bytes)])) a = flat (L ++ [(h, bytes)])).
  { intros h. rewrite total_app, total_cons, flat_app, flat_cons. unfold a.
    rewrite Hu, (ly_flat _ _ Hl), app_assoc. cbn [flat concat fmap list_fmap].
    rewrite app_nil_r. unfold total at 1 2. cbn. rewrite Nat.add_0_r, <- length_app.
    apply take_app_length. }
  assert (Htot : ∀ h, used s + length bytes = total (L ++ [(h, bytes)])).
  { intros h. rewrite total_app, total_cons, Hu. unfold total at 3. cbn. lia. }
  assert (Hsp : ∀ (ss : list Span) h, ss !! h = Some (mkSpan (used s) (length bytes)) →
    (∀ x, x ∈ L.*1 → ss !! x = spans s !! x) →
    ∀ k x b, (L ++ [(h, bytes)]) !! k = Some (x, b) →
      ss !! x = Some (mkSpan (total (take k (L ++ [(h, bytes)]))) (length b))).
  { intros ss h Hh Hsame k x b Hk. apply lookup_app_Some in Hk as [Hk|[Hge Hk]].
    - rewrite Hsame by (by eapply handle_at). rewrite take_app_le
        by (apply lookup_lt_Some in Hk; lia). by apply (ly_spans _ _ Hl).
    - apply list_lookup_singleton_Some in Hk as [Hz [= <- <-]].
      replace k with (length L) by lia. by rewrite take_app_length, <- Hu. }
  pose proof (pop_last_spec (free_slots s)) as Hpop.
  pose proof (ly_nodup _ _ Hl) as Hnd. pose proof (ly_slots _ _ Hl) as Hslots.
  destruct (pop_last (free_slots s)) as [[slot rest]|].
  - assert (Hin : slot < length (spans s)).
    { apply Hslots. rewrite Hpop, !elem_of_app, list_elem_of_singleton. tauto. }
    rewrite store_done by done. cbn [mbind run_bind]. rewrite Hpop in Hnd, Hslots.
    assert (Hperm : L.*1 ++ rest ++ [slot] ≡ₚ (L ++ [(slot, bytes)]).*1 ++ rest).
    { rewrite fmap_app. cbn. rewrite <- app_assoc. f_equiv. apply Permutation_app_comm. }
    assert (Hslot : slot ∉ L.*1).
    { apply list.NoDup_app in Hnd as (_ & Hd & _). intros Hx. apply (Hd _ Hx).
      rewrite elem_of_app, list_elem_of_singleton. by right. }
    do 2 eexists. split; [done|]. split; [done|]. split; cbn [arena used spans free_slots];
      try done.
    + rewrite <- Htot. lia.
    + apply Hsp; [by apply list_lookup_insert_eq|]. intros x Hx.
      rewrite list_lookup_insert_ne; [done|]. by intros ->.
    + by rewrite <- Hperm.
    + intros h. by rewrite length_insert, <- Hslots, <- Hperm.
    + by rewrite length_insert.
  - rewrite Hpop in *. cbn [length] in Hcount. rewrite hv_push_room by lia.
    rewrite length_app. cbn [length]. rewrite Nat.add_sub, app_nil_r in *.
    assert (Hnew : length (spans s) ∉ L.*1) by (intros ?%Hslots; lia).
    do 2 eexists. split; [done|]. split; [done|]. split; cbn [arena used spans free_slots];
      try done.
    + rewrite <- Htot. lia.
    + apply Hsp; [by rewrite lookup_app_r, Nat.sub_diag by lia|]. intros x Hx%Hslots.
      by rewrite lookup_app_l.
    + rewrite app_nil_r, fmap_app. cbn. rewrite Permutation_app_comm. by constructor.
    + intros h. rewrite app_nil_r, fmap_app, elem_of_app, length_app. cbn [fmap list_fmap fst length].
      rewrite list_elem_of_singleton, Hslots. lia.
    + rewrite length_app. cbn [length]. lia.
Qed.

(** How [free] and [replace] move the other spans. *)
Definition shift (at_ old n : nat) (other : Span) : Span :=
  if (at_ <? offset other)%nat then mkSpan (offset other + n - old) (len other) else other.

Section around.
Context (s : store_t) (L1 L2 : list (nat * list Z)) (h : nat) (b : list Z).
Hypothesis Hl : layout s (L1 ++ (h, b) :: L2).

Lemma fits : total L1 + length b + total L2 ≤ ARENA_BYTES.
Proof. pose proof (ly_fits _ _ Hl) as Hf. rewrite total_app, total_cons in Hf. lia. Qed.

Lemma arena_split :
  arena s = flat L1 ++ b ++ flat L2 ++ drop (total L1 + length b + total L2) (arena s).
Proof.
  rewrite (flat_arena _ _ Hl) at 1. rewrite total_app, total_cons, flat_app, flat_cons, <- !app_assoc.
  by rewrite Nat.add_assoc.
Qed.

Lemma slice_tail :
  slice (arena s) (total L1 + length b) (total L1 + length b + total L2) = Done (flat L2).
Proof.
  pose proof fits. unfold slice. rewrite decide_True by (rewrite (ly_arena _ _ Hl); lia).
  rewrite arena_split, app_assoc. unfold total at 1 4. rewrite <- length_app, drop_app_length.
  replace (length (flat L1 ++ b) + total L2 - (total L1 + length b)) with (total L2)
    by (rewrite length_app; unfold total; lia).
  f_equal. apply take_app_length.
Qed.

Lemma take_front : take (total L1) (arena s) = flat L1.
Proof. rewrite arena_split. apply take_app_length. Qed.

Lemma used_eq : used s = total L1 + length b + total L2.
Proof. rewrite (ly_used _ _ Hl), total_app, total_cons. lia. Qed.

(** A payload before the changed one keeps its place. *)
Lemma shift_before n k x b' :
  L1 !! k = Some (x, b') →
  (shift (total L1) (length b) n <$> spans s) !! x = Some (mkSpan (total (take k L1)) (length b')).
Proof.
  intros Hk. pose proof (lookup_lt_Some _ _ _ Hk).
  rewrite list_lookup_fmap, (ly_spans _ _ Hl k x b') by (by apply lookup_app_l_Some). cbn.
  rewrite take_app_le by lia. unfold shift. cbn [offset len].
  assert (total (take k L1) ≤ total L1).
  { rewrite <- (take_drop k L1) at 2. rewrite total_app. lia. }
  by rewrite (proj2 (Nat.ltb_ge _ _)) by lia.
Qed.

(** A payload after it moves by the change in length, provided it started further on. *)
Lemma shift_after n k x b' :
  0 < length b ∨ n = 0 → L2 !! k = Some (x, b') →
  (shift (total L1) (length b) n <$> spans s) !! x
  = Some (mkSpan (total L1 + n + total (take k L2)) (length b')).
Proof.
  intros Hb Hk. pose proof (lookup_lt_Some _ _ _ Hk).
  rewrite list_lookup_fmap, (ly_spans _ _ Hl (length L1 + S k) x b').
  2:{ rewrite lookup_app_r by lia. by replace (length L1 + S k - length L1) with (S k) by lia. }
  cbn [fmap option_fmap option_map]. rewrite take_app_ge by lia.
  replace (length L1 + S k - length L1) with (S k) by lia. cbn [take].
  rewrite total_app, total_cons. unfold shift. cbn [offset len]. f_equal.
  destruct (Nat.ltb_spec (total L1) (total L1 + (length b + total (take k L2)))).
  - f_equal. lia.
  - f_equal. lia.
Qed.

Lemma others_live x : x ∈ L1.*1 ∨ x ∈ L2.*1 → x ≠ h.
Proof.
  pose proof (ly_nodup _ _ Hl) as Hnd. apply list.NoDup_app in Hnd as (Hnd & _ & _).
  rewrite fmap_app in Hnd. cbn in Hnd. rewrite <- Permutation_middle in Hnd.
  apply list.NoDup_cons in Hnd as [Hnot _]. intros Hx ->. apply Hnot. by apply elem_of_app.
Qed.
End around.

(** Freeing removes the payload and moves what lies behind it. *)
Lemma free_layout `{!HeaplessVecLaws} s L1 h b L2 :
  layout s (L1 ++ (h, b) :: L2) → ∃ s', free s h = Done s' ∧ layout s' (L1 ++ L2).
Proof.
  intros Hl. pose proof (fits _ _ _ _ _ Hl) as Hf. pose proof (ly_arena _ _ Hl) as Ha.
  pose proof (span_middle _ _ _ _ _ Hl) as Hspan. pose proof (used_eq _ _ _ _ _ Hl) as Hu.
  unfold free. rewrite (index_lookup _ _ _ Hspan). cbn [mbind run_bind offset len].
  unfold copy_within. rewrite Hu.
  replace (total L1 + length b + total L2 - (total L1 + length b)) with (total L2) by lia.
  rewrite (slice_tail _ _ _ _ _ Hl). cbn [mbind run_bind].
  fold (total L2). rewrite copy_into_done by (fold (total L2); lia). cbn [mbind run_bind].
  pose proof (lookup_lt_Some _ _ _ Hspan) as Hh.
  rewrite store_done by (by rewrite length_fmap). cbn [mbind run_bind].
  set (ss := (λ other, if (total L1 <? offset other)%nat
    then mkSpan (offset other - length b) (len other) else other) <$> spans s).
  assert (Hss : ss = shift (total L1) (length b) 0 <$> spans s).
  { unfold ss. apply list_fmap_ext. intros i x _. unfold shift. by rewrite Nat.add_0_r. }
  pose proof (layout_slots_length _ _ Hl) as Hcount. rewrite length_app in Hcount. cbn [length] in Hcount.
  pose proof (ly_cap _ _ Hl) as Hcap. rewrite hv_push_room by lia.
  assert (Hperm : (L1 ++ (h, b) :: L2).*1 ++ free_slots s ≡ₚ (L1 ++ L2).*1 ++ free_slots s ++ [h]).
  { rewrite !fmap_app. cbn. solve_Permutation. }
  eexists. split; [done|]. split; cbn [arena used spans free_slots].
  - rewrite !length_app, length_take, length_drop. unfold total in *. lia.
  - rewrite (take_front _ _ _ _ _ Hl), total_app, flat_app, app_assoc. unfold total.
    rewrite <- length_app. apply take_app_length.
  - rewrite total_app. lia.
  - rewrite total_app. lia.
  - rewrite Hss. intros k x b' Hk. apply lookup_app_Some in Hk as [Hk|[Hge Hk]].
    + rewrite list_lookup_insert_ne by (apply not_eq_sym, (others_live _ _ _ _ _ Hl); left; by eapply handle_at).
      rewrite take_app_le by (apply lookup_lt_Some in Hk; lia). by apply (shift_before _ _ _ _ _ Hl).
    + rewrite list_lookup_insert_ne by (apply not_eq_sym, (others_live _ _ _ _ _ Hl); right; by eapply handle_at).
      rewrite take_app_ge, total_app by lia.
      rewrite (shift_after _ _ _ _ _ Hl 0 _ _ _ (or_intror eq_refl) Hk). by rewrite Nat.add_0_r.
  - rewrite <- Hperm. apply (ly_nodup _ _ Hl).
  - intros x. rewrite <- Hperm, length_insert. unfold ss. rewrite length_fmap. apply (ly_slots _ _ Hl).
  - rewrite length_insert. unfold ss. by rewrite length_fmap.
Qed.

(** Overwriting a payload by one of the same length moves nothing. *)
Lemma overwrite_layout s L1 h b L2 b' :
  layout s (L1 ++ (h, b) :: L2) → length b' = length b →
  layout (mk (take (total L1) (arena s) ++ b' ++ drop (total L1 + length b') (arena s)) (used s)
            (spans s) (free_slots s)) (L1 ++ (h, b') :: L2).
Proof.
  intros Hl Heq. pose proof (fits _ _ _ _ _ Hl) as Hf. pose proof (ly_arena _ _ Hl) as Ha.
  pose proof (span_middle _ _ _ _ _ Hl) as Hspan. pose proof (used_eq _ _ _ _ _ Hl) as Hu.
  split; cbn [arena used spans free_slots].
  - rewrite !length_app, length_take, length_drop. lia.
  - rewrite (take_front _ _ _ _ _ Hl), (arena_split _ _ _ _ _ Hl).
    rewrite Heq, (app_assoc (flat L1) b). unfold total at 2. rewrite <- length_app, drop_app_length.
    rewrite total_app, total_cons, flat_app, flat_cons. unfold total.
    rewrite (app_assoc b'), (app_assoc (flat L1)). rewrite <- !length_app. apply take_app_length.
  - rewrite total_app, total_cons. lia.
  - rewrite total_app, total_cons. lia.
  - intros k x y Hk.
    destruct (decide (k = length L1)) as [->|Hne].
    + rewrite lookup_app_r, Nat.sub_diag in Hk by lia. injection Hk as <- <-.
      rewrite take_app_length, Heq. done.
    + apply lookup_app_Some in Hk as [Hk|[Hge Hk]].
      * rewrite take_app_le by (apply lookup_lt_Some in Hk; lia).
        rewrite (ly_spans _ _ Hl k x y) by (by apply lookup_app_l_Some).
        by rewrite take_app_le by (apply lookup_lt_Some in Hk; lia).
      * rewrite (ly_spans _ _ Hl k x y).
        2:{ rewrite lookup_app_r by done. destruct (k - length L1) eqn:E; [lia|done]. }
        rewrite !take_app_ge by lia. destruct (k - length L1) eqn:E; [lia|]. cbn [take].
        by rewrite !total_app, !total_cons, Heq.
  - pose proof (ly_nodup _ _ Hl) as Hnd. by rewrite !fmap_app in *.
  - pose proof (ly_slots _ _ Hl) as Hs. by rewrite !fmap_app in *.
  - apply (ly_cap _ _ Hl).
Qed.

(** Replacing a non-empty payload moves what lies behind it. *)
Lemma replace_layout s L1 h b L2 b' :
  layout s (L1 ++ (h, b) :: L2) → 0 < length b →
  (total L1 + length b' + total L2 ≤ ARENA_BYTES ∧
     ∃ s', replace s h b' = Done (Ok (), s') ∧ layout s' (L1 ++ (h, b') :: L2))
  ∨ (ARENA_BYTES < total L1 + length b' + total L2 ∧ replace s h b' = Done (Err ArenaFull, s)).
Proof.
  intros Hl Hb. pose proof (fits _ _ _ _ _ Hl) as Hf. pose proof (ly_arena _ _ Hl) as Ha.
  pose proof (span_middle _ _ _ _ _ Hl) as Hspan. pose proof (used_eq _ _ _ _ _ Hl) as Hu.
  pose proof (lookup_lt_Some _ _ _ Hspan) as Hh.
  unfold replace. rewrite (index_lookup _ _ _ Hspan). cbn [mbind run_bind offset len].
  destruct (Nat.eqb_spec (length b') (length b)) as [Heq|Hneq].
  { left. split; [lia|]. rewrite copy_into_done by lia. cbn [mbind run_bind].
    eexists. split; [done|]. by apply (overwrite_layout _ _ _ b). }
  rewrite Hu. replace (total L1 + length b + total L2 - length b + length b')
    with (total L1 + length b' + total L2) by lia.
  destruct (Nat.ltb_spec ARENA_BYTES (total L1 + length b' + total L2)) as [Hfull|Hfits]; [by right|left].
  split; [done|].
  unfold copy_within.
  replace (total L1 + length b + total L2 - (total L1 + length b)) with (total L2) by lia.
  rewrite (slice_tail _ _ _ _ _ Hl). cbn [mbind run_bind].
  rewrite (copy_into_done (arena s)) by (fold (total L2); lia). cbn [mbind run_bind].
  set (a := take (total L1 + length b') (arena s) ++ flat L2
    ++ drop (total L1 + length b' + length (flat L2)) (arena s)).
  assert (Hal : length a = ARENA_BYTES).
  { unfold a. rewrite !length_app, length_take, length_drop. fold (total L2). lia. }
  rewrite (copy_into_done a) by lia. cbn [mbind run_bind].
  rewrite store_done by done. cbn [mbind run_bind].
  eexists. split; [done|]. split; cbn [arena used spans free_slots].
  - rewrite !length_app, length_take, length_drop. lia.
  - assert (Hfront : take (total L1) a = flat L1).
    { unfold a. rewrite take_app_le by (rewrite length_take; lia).
      rewrite take_take, Nat.min_l by lia. apply (take_front _ _ _ _ _ Hl). }
    assert (Hdrop : drop (total L1 + length b') a
      = flat L2 ++ drop (total L1 + length b' + length (flat L2)) (arena s)).
    { unfold a. rewrite drop_app_ge by (rewrite length_take; lia).
      rewrite length_take. by replace (total L1 + length b' - _) with 0 by lia. }
    rewrite Hfront, Hdrop, total_app, total_cons, flat_app, flat_cons. unfold total.
    rewrite (app_assoc b'), (app_assoc (flat L1)), <- !length_app. apply take_app_length.
  - rewrite total_app, total_cons. lia.
  - rewrite total_app, total_cons. lia.
  - intros k x y Hk. rewrite list_fmap_insert. unfold shift in *.
    change ((λ other, _) <$> spans s) with (shift (total L1) (length b) (length b') <$> spans s).
    destruct (decide (k = length L1)) as [->|Hne].
    + rewrite lookup_app_r, Nat.sub_diag in Hk by lia. injection Hk as <- <-.
      rewrite take_app_length, list_lookup_insert_eq by (by rewrite length_fmap).
      cbn [offset]. by rewrite (proj2 (Nat.ltb_ge _ _)) by lia.
    + apply lookup_app_Some in Hk as [Hk|[Hge Hk]].
      * rewrite list_lookup_insert_ne
          by (apply not_eq_sym, (others_live _ _ _ _ _ Hl); left; by eapply handle_at).
        rewrite take_app_le by (apply lookup_lt_Some in Hk; lia). by apply (shift_before _ _ _ _ _ Hl).
      * destruct (k - length L1) as [|k'] eqn:E; [lia|]. cbn in Hk.
        rewrite list_lookup_insert_ne
          by (apply not_eq_sym, (others_live _ _ _ _ _ Hl); right; by eapply handle_at).
        rewrite take_app_ge, E by lia. cbn [take]. rewrite total_app, total_cons.
        rewrite (shift_after _ _ _ _ _ Hl (length b') k' x y (or_introl Hb) Hk). do 2 f_equal. lia.
  - pose proof (ly_nodup _ _ Hl) as Hnd. by rewrite !fmap_app in *.
  - pose proof (ly_slots _ _ Hl) as Hs. intros x. rewrite length_fmap, length_insert.
    by rewrite !fmap_app in *.
  - rewrite length_fmap, length_insert. apply (ly_cap _ _ Hl).
Qed.

Lemma new_layout : layout new [].
Proof.
  split; cbn; [apply length_replicate|done|done|lia|done|constructor| |lia].
  intros h. split; [by intros ?%not_elem_of_nil|lia].
Qed.
End packed.
End Packed.

(** * Properties *)

(** The packed arena is a store: freeing a payload, or replacing a non-empty one within the
    byte budget, leaves every other handle reading its own bytes, and the arena stays packed
    (every live payload in turn, without gaps, in the first [used] bytes). *)
Theorem packed_arena_keeps_others `{HeaplessVecLaws} {A M : nat}
    (s : Packed.PackedAppDataArena A M) L1 h b L2 b' :
  Packed.layout s (L1 ++ (h, b) :: L2) →
  (∃ s', Packed.free s h = Done s' ∧ Packed.layout s' (L1 ++ L2)
     ∧ ∀ x bx, (x, bx) ∈ L1 ++ L2 → Packed.get s' x = Done bx)
  ∧ (0 < length b → Packed.used s - length b + length b' ≤ A →
     ∃ s', Packed.replace s h b' = Done (Ok (), s') ∧ Packed.layout s' (L1 ++ (h, b') :: L2)
       ∧ Packed.get s' h = Done b' ∧ ∀ x bx, (x, bx) ∈ L1 ++ L2 → Packed.get s' x = Done bx).
Proof.
  intros Hl.
  assert (Hget : ∀ (s' : Packed.PackedAppDataArena A M) L, Packed.layout s' L → ∀ x bx, (x, bx) ∈ L → Packed.get s' x = Done bx).
  { intros s' L Hl' x bx (P1 & P2 & ->)%Packed.layout_split. by eapply Packed.get_layout. }
  split.
  - destruct (Packed.free_layout s L1 h b L2 Hl) as (s' & -> & Hl'). exists s'.
    split; [done|]. split; [done|]. by apply Hget.
  - intros Hb Hfit. rewrite (Packed.used_eq _ _ _ _ _ Hl) in Hfit.
    destruct (Packed.replace_layout s L1 h b L2 b' Hl Hb) as [[_ (s' & -> & Hl')]|[? _]]; [|lia].
    exists s'. split; [done|]. split; [done|]. split; [by eapply Packed.get_layout|].
    intros x bx Hx. apply (Hget s' _ Hl'). rewrite elem_of_app, elem_of_cons.
    rewrite elem_of_app in Hx. tauto.
Qed.

(** Replacing an empty payload can corrupt another one: in an arena holding an empty payload
    and then a three-byte one, replacing the empty payload by two bytes succeeds, and the
    three-byte payload, which was not touched, no longer reads back as it was stored: its span
    starts at the replaced payload's offset and is not moved. *)
Theorem packed_replace_of_empty_corrupts `{HeaplessVecLaws} :
  ∃ s1 s2 s3 : Packed.PackedAppDataArena 16 4,
    Packed.insert Packed.new [] = Done (Ok 0, s1)
    ∧ Packed.insert s1 [1; 2; 3]%Z = Done (Ok 1, s2)
    ∧ Packed.get s2 1 = Done [1; 2; 3]%Z
    ∧ Packed.replace s2 0 [8; 9]%Z = Done (Ok (), s3)
    ∧ Packed.get s3 1 = Done [8; 9; 1]%Z.
Proof.
  do 3 eexists. split.
  { unfold Packed.insert. cbn. rewrite hv_push_room by (cbn; lia). cbn. reflexivity. }
  split.
  { unfold Packed.insert. cbn. rewrite hv_push_room by (cbn; lia). cbn. reflexivity. }
  split; [reflexivity|]. split; reflexivity.
Qed.

(** ** Witnesses *)

#[local] Instance list_heapless : HeaplessVec := {| hv_push := λ A cap xs x, xs ++ [x] |}.
#[local] Instance list_heapless_laws : HeaplessVecLaws.
Proof. split. done. Qed.

Definition arena_a : Packed.PackedAppDataArena 8 4 :=
  Packed.mk [5; 6; 7; 0; 0; 0; 0; 0]%Z 3 [Packed.mkSpan 0 2; Packed.mkSpan 2 1] [].

Lemma arena_a_layout : Packed.layout arena_a ([(0, [5; 6]%Z)] ++ [(1, [7]%Z)]).
Proof.
  destruct (Packed.insert_layout (ARENA_BYTES := 8) (MAX_ENTRIES := 4) Packed.new [] [5; 6]%Z
    Packed.new_layout ltac:(cbn; lia) ltac:(cbn; lia)) as (h1 & s1 & E1 & _ & H1).
  vm_compute in E1. injection E1 as <- <-.
  destruct (Packed.insert_layout (ARENA_BYTES := 8) (MAX_ENTRIES := 4) _ _ [7]%Z
    H1 ltac:(cbn; lia) ltac:(cbn; lia)) as (h2 & s2 & E2 & _ & H2).
  vm_compute in E2. injection E2 as <- <-. exact H2.
Qed.

Lemma packed_arena_keeps_others_witness :
  ∃ s', Packed.replace arena_a 0 [1; 2; 3]%Z = Done (Ok (), s') ∧
    Packed.layout s' ([] ++ (0, [1; 2; 3]%Z) :: [(1, [7]%Z)])
    ∧ Packed.get s' 0 = Done [1; 2; 3]%Z
    ∧ ∀ x bx, (x, bx) ∈ [] ++ [(1, [7]%Z)] → Packed.get s' x = Done bx.
Proof.
  refine (proj2 (packed_arena_keeps_others arena_a [] 0 [5; 6]%Z [(1, [7]%Z)] [1; 2; 3]%Z
    arena_a_layout) _ _); cbn; lia.
Defined.

Lemma packed_replace_of_empty_corrupts_witness :
  ∃ s1 s2 s3 : Packed.PackedAppDataArena 16 4,
    Packed.insert Packed.new [] = Done (Ok 0, s1)
    ∧ Packed.insert s1 [1; 2; 3]%Z = Done (Ok 1, s2)
    ∧ Packed.get s2 1 = Done [1; 2; 3]%Z
    ∧ Packed.replace s2 0 [8; 9]%Z = Done (Ok (), s3)
    ∧ Packed.get s3 1 = Done [8; 9; 1]%Z.
Proof. exact (packed_replace_of_empty_corrupts (H0 := list_heapless_laws)). Defined.
