(* ===== verification/Columns.v ===== *)
(** Tables stored as parallel columns, as every table of [prns-core] is: removal moves the last
    row into the removed one's place ([swap_removed]), and a fixed-capacity column is an array
    whose first rows are live ([column]). *)

From S2P Require Import Prelude.

(** * Removal by swapping in the last row *)

(** [Vec::swap_remove], the remaining rows. *)
Definition swap_removed {A} (xs : list A) (i : nat) : list A :=
  match list.last xs with
  | Some x => take (length xs - 1) (<[i := x]> xs)
  | None => xs
  end.

Section swap_removed.
Context {A : Type}.
Implicit Types (xs : list A).

Lemma swap_removed_snoc xs x i : swap_removed (xs ++ [x]) i = <[i := x]> xs.
Proof.
  unfold swap_removed. rewrite last_snoc, length_app. cbn [length]. rewrite Nat.add_sub.
  destruct (decide (i < length xs)) as [Hi|Hi].
  - rewrite insert_app_l by done. by rewrite take_app_le, firstn_all2 by (rewrite ?length_insert; lia).
  - rewrite take_insert_ge by lia. rewrite take_app_length. by rewrite list_insert_ge by lia.
Qed.

Lemma swap_removed_split xs i :
  i < length xs → ∃ ys x, xs = ys ++ [x] ∧ swap_removed xs i = <[i := x]> ys.
Proof.
  intros Hi. destruct (exists_last (l := xs)) as (ys & x & ->); [by intros ->; cbn in Hi; lia|].
  exists ys, x. split; [done|]. apply swap_removed_snoc.
Qed.

Lemma length_swap_removed xs i : i < length xs → length (swap_removed xs i) = length xs - 1.
Proof.
  intros Hi. destruct (swap_removed_split xs i Hi) as (ys & x & -> & ->).
  rewrite length_insert, length_app. cbn [length]. lia.
Qed.

(** What stands where afterwards. *)
Lemma lookup_swap_removed xs i j :
  i < length xs → j < length xs - 1 →
  swap_removed xs i !! j = xs !! (if decide (j = i) then length xs - 1 else j).
Proof.
  intros Hi Hj. destruct (swap_removed_split xs i Hi) as (ys & x & -> & ->).
  rewrite length_app in *. cbn [length] in *. rewrite Nat.add_sub in *. case_decide as E.
  - subst j. rewrite list_lookup_insert_eq by lia. by rewrite lookup_app_r, Nat.sub_diag by lia.
  - rewrite list_lookup_insert_ne by done. by rewrite lookup_app_l by lia.
Qed.

Lemma swap_removed_perm xs i x : xs !! i = Some x → x :: swap_removed xs i ≡ₚ xs.
Proof.
  intros Hx. destruct (swap_removed_split xs i) as (ys & y & -> & ->); [by eapply lookup_lt_Some|].
  apply lookup_app_Some in Hx as [Hx|[Hge Hx]].
  - rewrite insert_take_drop by (by eapply lookup_lt_Some).
    rewrite <- (take_drop_middle ys i x) at 3 by done. rewrite <- app_assoc. cbn [app].
    solve_Permutation.
  - apply list_lookup_singleton_Some in Hx as [Hz <-].
    rewrite list_insert_ge by lia. by rewrite Permutation_app_comm.
Qed.

Lemma swap_removed_sub xs i x : xs !! i = Some x → swap_removed xs i ⊆+ xs.
Proof.
  intros Hi. transitivity (x :: swap_removed xs i); [by apply submseteq_cons|].
  by rewrite (swap_removed_perm xs i x Hi).
Qed.

Lemma fmap_swap_removed {B} (f : A → B) xs i : f <$> swap_removed xs i = swap_removed (f <$> xs) i.
Proof.
  unfold swap_removed. rewrite fmap_last. destruct (list.last xs); cbn; [|done].
  by rewrite fmap_take, list_fmap_insert, length_fmap.
Qed.
End swap_removed.

(** [Vec::swap_remove], which panics out of range. *)
Definition vec_swap_remove {A} (xs : list A) (i : nat) : run (list A) :=
  if decide (i < length xs) then Done (swap_removed xs i) else Panic.

Lemma vec_swap_remove_done {A} (xs : list A) i : i < length xs → vec_swap_remove xs i = Done (swap_removed xs i).
Proof. intros. unfold vec_swap_remove. by rewrite decide_True. Qed.

(** [rows_fall xs ys]: every row of [ys] is a row of [xs], there at the same place or a later one.
    Removal only ever moves rows down. *)
Definition rows_fall {A} (xs ys : list A) : Prop :=
  ∀ j y, ys !! j = Some y → ∃ i, j ≤ i ∧ xs !! i = Some y.

Lemma rows_fall_refl {A} (xs : list A) : rows_fall xs xs.
Proof. intros j y Hy. by exists j. Qed.

Lemma rows_fall_trans {A} (xs ys zs : list A) : rows_fall xs ys → rows_fall ys zs → rows_fall xs zs.
Proof.
  intros H1 H2 j z Hz. destruct (H2 j z Hz) as (i & Hi & Hy). destruct (H1 i z Hy) as (k & Hk & Hx).
  exists k. split; [lia|done].
Qed.

Lemma rows_fall_swap_removed {A} (xs : list A) i : i < length xs → rows_fall xs (swap_removed xs i).
Proof.
  intros Hi j y Hy. pose proof (lookup_lt_Some _ _ _ Hy) as Hj. rewrite length_swap_removed in Hj by done.
  rewrite lookup_swap_removed in Hy by done. eexists. split; [|exact Hy]. case_decide; lia.
Qed.

Lemma rows_fall_removed {A} (xs : list A) i x : xs !! i = Some x → rows_fall xs (swap_removed xs i).
Proof. intros Hi. apply rows_fall_swap_removed. by eapply lookup_lt_Some. Qed.
#[export] Hint Resolve rows_fall_refl rows_fall_removed : prns.

Lemma submseteq_NoDup {A} (xs ys : list A) : NoDup ys → xs ⊆+ ys → NoDup xs.
Proof.
  intros Hnd [zs Hp]%submseteq_Permutation. rewrite Hp in Hnd. by apply list.NoDup_app in Hnd as [? _].
Qed.

Lemma NoDup_snoc {A} (xs : list A) x : NoDup xs → (x ∉ xs) → NoDup (xs ++ [x]).
Proof.
  intros Hnd Hx. apply list.NoDup_app. split; [done|]. split; [|apply NoDup_singleton].
  by intros y Hy ->%list_elem_of_singleton.
Qed.

(** * A column of fixed capacity *)

Section column.
Context {A : Type} (cap : nat).
Implicit Types (col live : list A).

(** An array of [cap] cells whose first [n] are [live]. *)
Definition column (n : nat) col live : Prop := length col = cap ∧ n ≤ cap ∧ take n col = live.

Lemma column_length n col live : column n col live → length live = n.
Proof. intros (Hl & Hn & <-). rewrite length_take. lia. Qed.

Lemma column_slice n col live : column n col live → slice col 0 n = Done live.
Proof.
  intros (Hl & Hn & <-). unfold slice. rewrite decide_True by lia. by rewrite Nat.sub_0_r, drop_0.
Qed.

Lemma column_store n col live i x :
  column n col live → i < n → ∃ col', store col i x = Done col' ∧ column n col' (<[i := x]> live).
Proof.
  intros (Hl & Hn & <-) Hi. rewrite store_done by lia. eexists. split; [done|].
  split; [by rewrite length_insert|]. split; [done|]. by rewrite take_insert_lt.
Qed.

Lemma column_push n col live x :
  column n col live → n < cap → ∃ col', store col n x = Done col' ∧ column (S n) col' (live ++ [x]).
Proof.
  intros (Hl & Hn & <-) Hc. rewrite store_done by lia. eexists. split; [done|].
  split; [by rewrite length_insert|]. split; [done|].
  rewrite (take_S_r _ _ x) by (apply list_lookup_insert_eq; lia). by rewrite take_insert_ge by lia.
Qed.

(** [col[i] = col[last]], [len = last] *)
Definition move_last col (i last : nat) : run (list A) :=
  x ← index col last;
  store col i x.

Lemma column_swap_remove last col live i :
  column (S last) col live → i ≤ last →
  ∃ col', move_last col i last = Done col' ∧ column last col' (swap_removed live i).
Proof.
  intros (Hl & Hn & <-) Hi. unfold move_last.
  destruct (lookup_lt_is_Some_2 col last) as [x Hx]; [lia|].
  rewrite (index_lookup _ _ _ Hx). cbn [mbind run_bind]. rewrite store_done by lia.
  eexists. split; [done|]. split; [by rewrite length_insert|]. split; [lia|].
  rewrite (take_S_r _ _ x), swap_removed_snoc by done.
  destruct (decide (i = last)) as [->|].
  - rewrite take_insert_ge by lia. by rewrite list_insert_ge by (rewrite length_take; lia).
  - by rewrite take_insert_lt by lia.
Qed.

(** [len = last] alone removes the last row. *)
Lemma column_pop last col live : column (S last) col live → column last col (swap_removed live last).
Proof.
  intros (Hl & Hn & <-). destruct (lookup_lt_is_Some_2 col last) as [x Hx]; [lia|]. split; [done|]. split; [lia|].
  rewrite (take_S_r _ _ x Hx), swap_removed_snoc. by rewrite list_insert_ge by (rewrite length_take; lia).
Qed.

(** [col.swap(i, j)] *)
Definition swap_at col (i j : nat) : run (list A) :=
  x ← index col i;
  y ← index col j;
  col ← store col i y;
  store col j x.

Lemma swap_at_done col i j x y :
  col !! i = Some x → col !! j = Some y → swap_at col i j = Done (<[j := x]> (<[i := y]> col)).
Proof.
  intros Hx Hy. unfold swap_at. rewrite (index_lookup _ _ _ Hx). cbn [mbind run_bind].
  rewrite (index_lookup _ _ _ Hy). cbn [mbind run_bind].
  rewrite store_done by (by eapply lookup_lt_Some). cbn [mbind run_bind].
  rewrite store_done; [done|]. rewrite length_insert. by eapply lookup_lt_Some.
Qed.

(** [col.swap(i, last)], [len = last] *)
Lemma column_swap last col live i :
  column (S last) col live → i ≤ last →
  ∃ col', swap_at col i last = Done col' ∧ column last col' (swap_removed live i).
Proof.
  intros Hc Hi. pose proof Hc as (Hl & Hn & Ht). destruct (lookup_lt_is_Some_2 col i) as [x Hx]; [lia|].
  destruct (lookup_lt_is_Some_2 col last) as [y Hy]; [lia|]. rewrite (swap_at_done _ _ _ _ _ Hx Hy).
  destruct (column_swap_remove last col live i Hc Hi) as (col' & E & (Hl' & Hn' & Ht')). unfold move_last in E.
  rewrite (index_lookup _ _ _ Hy) in E. cbn [mbind run_bind] in E. rewrite store_done in E by lia. injection E as <-.
  eexists. split; [done|]. split; [by rewrite !length_insert|]. split; [lia|]. by rewrite take_insert_ge by lia.
Qed.

Lemma column_lookup n col live i x : column n col live → live !! i = Some x → col !! i = Some x.
Proof. intros (_ & _ & <-) Hi. by apply lookup_take_Some in Hi as [? _]. Qed.

Lemma column_new x : column 0 (replicate cap x) [].
Proof. split; [apply length_replicate|]. split; [lia|done]. Qed.
End column.

(** [step_column L]: run the next column operation, described by the column lemma [L]. *)
Ltac step_column L :=
  let c := fresh "c" in let E := fresh "E" in let Hc := fresh "Hc" in
  destruct L as (c & E & Hc); rewrite E; cbn [mbind run_bind].

(** * Sweeping a table by index

    Every culling loop walks a table from the front; a row that goes is replaced by the last row
    and the cursor stays, a row that stays advances the cursor. *)

Section sweep.
Context {A : Type} (P : A → bool).
Implicit Types (xs : list A).

Lemma filter_none xs : Forall (λ x, P x = false) xs → filter (λ x, P x = true) xs = [].
Proof. induction 1 as [|x xs Hx _ IH]; [done|]. by rewrite filter_cons_False by (by rewrite Hx). Qed.

Lemma filter_all xs : Forall (λ x, P x = false) xs → filter (λ x, P x = false) xs = xs.
Proof. induction 1 as [|x xs Hx _ IH]; [done|]. by rewrite filter_cons_True, IH. Qed.

Lemma filter_split xs : filter (λ x, P x = true) xs ++ filter (λ x, P x = false) xs ≡ₚ xs.
Proof.
  induction xs as [|x xs IH]; [done|]. destruct (P x) eqn:Hx.
  - rewrite filter_cons_True, filter_cons_False by (by rewrite Hx). cbn. by rewrite IH.
  - rewrite filter_cons_False, filter_cons_True by (by rewrite Hx). by rewrite <- Permutation_middle, IH.
Qed.

Lemma filter_swap_removed xs i x :
  xs !! i = Some x → P x = true →
  filter (λ x, P x = false) (swap_removed xs i) ≡ₚ filter (λ x, P x = false) xs
  ∧ x :: filter (λ x, P x = true) (swap_removed xs i) ≡ₚ filter (λ x, P x = true) xs.
Proof.
  intros Hx HP. pose proof (swap_removed_perm xs i x Hx) as Hp. split.
  - rewrite <- Hp at 2. by rewrite filter_cons_False by (by rewrite HP).
  - rewrite <- Hp at 2. by rewrite filter_cons_True.
Qed.

(** The rows kept and the rows removed, in the order of removal. *)
Fixpoint sweep (fuel i : nat) xs : list A * list A :=
  match fuel with
  | O => (xs, [])
  | S fuel =>
      match xs !! i with
      | None => (xs, [])
      | Some x =>
          if P x then let r := sweep fuel i (swap_removed xs i) in (r.1, x :: r.2)
          else sweep fuel (S i) xs
      end
  end.

Lemma sweep_spec fuel i xs :
  i ≤ length xs → length xs - i < fuel → (∀ j x, j < i → xs !! j = Some x → P x = false) →
  (sweep fuel i xs).1 ≡ₚ filter (λ x, P x = false) xs
  ∧ (sweep fuel i xs).2 ≡ₚ filter (λ x, P x = true) xs.
Proof.
  revert i xs. induction fuel as [|fuel IH]; intros i xs Hi Hf Hseen; [lia|]. cbn [sweep].
  destruct (xs !! i) as [x|] eqn:Hx.
  - pose proof (lookup_lt_Some _ _ _ Hx) as Hlt. destruct (P x) eqn:HP; cbn [fst snd].
    + pose proof (length_swap_removed xs i Hlt) as Hl.
      destruct (IH i (swap_removed xs i)) as [-> ->]; [lia|lia| |].
      * intros j y Hj Hy. rewrite lookup_swap_removed in Hy by lia.
        rewrite decide_False in Hy by lia. by eapply Hseen.
      * by apply filter_swap_removed.
    + apply IH; [lia|lia|]. intros j y Hj Hy. destruct (decide (j = i)) as [->|]; [by simplify_eq|].
      eapply Hseen; [|done]. lia.
  - apply lookup_ge_None in Hx. cbn [fst snd].
    assert (F : Forall (λ x, P x = false) xs).
    { apply Forall_lookup. intros j y Hy. eapply Hseen; [|done]. apply lookup_lt_Some in Hy. lia. }
    by rewrite filter_none, filter_all.
Qed.

Lemma sweep_falls fuel i xs : rows_fall xs (sweep fuel i xs).1.
Proof.
  revert i xs. induction fuel as [|fuel IH]; intros i xs; cbn [sweep]; [apply rows_fall_refl|].
  destruct (xs !! i) as [x|] eqn:Hx; [|apply rows_fall_refl]. destruct (P x); [|apply IH]. cbn [fst].
  eapply rows_fall_trans; [|apply IH]. apply rows_fall_swap_removed. by eapply lookup_lt_Some.
Qed.

Lemma sweep_all xs :
  (sweep (S (length xs)) 0 xs).1 ≡ₚ filter (λ x, P x = false) xs
  ∧ (sweep (S (length xs)) 0 xs).2 ≡ₚ filter (λ x, P x = true) xs.
Proof. apply sweep_spec; [lia|lia|]. intros j x Hj. lia. Qed.
End sweep.

(** * Rows found by a key *)

Section keyed.
Context {A K : Type} `{EqDecision K} (key : A → K).
Implicit Types (rows : list A) (k : K).

(** [rows.iter().find(|row| row.key == k)] *)
Definition find_key k rows : option A := snd <$> list_find (λ r, key r = k) rows.

Lemma find_key_at rows i r : NoDup (key <$> rows) → rows !! i = Some r → find_key (key r) rows = Some r.
Proof.
  intros Hnd Hi. unfold find_key. destruct (list_find _ rows) as [[j r']|] eqn:E.
  - apply list_find_Some in E as (Hj & Hl & _). cbn. f_equal. assert (i = j) as <-; [|congruence].
    eapply NoDup_lookup; [exact Hnd| |]; rewrite list_lookup_fmap; [by rewrite Hi|by rewrite Hj; cbn; f_equal].
  - apply list_find_None in E. rewrite list.Forall_forall in E. destruct (E r); [by eapply list_elem_of_lookup_2|done].
Qed.

Lemma find_key_none k rows : k ∉ key <$> rows → find_key k rows = None.
Proof.
  intros Hn. unfold find_key. destruct (list_find _ rows) as [[j r]|] eqn:E; [|done].
  apply list_find_Some in E as (Hj & <- & _). destruct Hn. apply list_elem_of_fmap.
  exists r. split; [done|]. by eapply list_elem_of_lookup_2.
Qed.

Lemma find_key_Some k rows r : find_key k rows = Some r → ∃ i, rows !! i = Some r ∧ key r = k.
Proof.
  unfold find_key. destruct (list_find _ rows) as [[i r']|] eqn:E; [|done]. intros [= <-].
  apply list_find_Some in E as (Hi & Hk & _). by exists i.
Qed.

(** [keys.iter().position(|key| key == k)] over the column of keys *)
Lemma list_find_key rows k :
  (∃ i r, fst <$> list_find (λ c, c = k) (key <$> rows) = Some i ∧ rows !! i = Some r ∧ key r = k)
  ∨ (fst <$> list_find (λ c, c = k) (key <$> rows) = None ∧ k ∉ key <$> rows).
Proof.
  destruct (list_find _ _) as [[i c]|] eqn:E; cbn.
  - left. apply list_find_Some in E as (Hi & -> & _). rewrite list_lookup_fmap in Hi.
    destruct (rows !! i) as [r|] eqn:Er; [|done]. injection Hi as Hi. by exists i, r.
  - right. split; [done|]. apply list_find_None in E. rewrite list.Forall_forall in E. intros Hin. by apply (E _ Hin).
Qed.

Lemma fmap_key_insert rows i r r' : rows !! i = Some r → key r' = key r → key <$> <[i := r']> rows = key <$> rows.
Proof. intros Hi E. rewrite list_fmap_insert, E. apply list_insert_id. by rewrite list_lookup_fmap, Hi. Qed.

Lemma find_key_insert k rows i r r' :
  NoDup (key <$> rows) → rows !! i = Some r → key r' = key r →
  find_key k (<[i := r']> rows) = if decide (k = key r) then Some r' else find_key k rows.
Proof.
  intros Hnd Hi E. pose proof (fmap_key_insert rows i r r' Hi E) as Hl. pose proof (lookup_lt_Some _ _ _ Hi) as Hlt. case_decide as Hc.
  - rewrite Hc, <- E. apply (find_key_at _ i); [by rewrite Hl|]. by apply list_lookup_insert_eq.
  - destruct (decide (k ∈ key <$> rows)) as [Hin|Hin].
    + apply list_elem_of_fmap in Hin as (d & -> & Hd). apply list_elem_of_lookup in Hd as [j Hj].
      rewrite (find_key_at rows j d Hnd Hj). apply (find_key_at _ j); [by rewrite Hl|].
      rewrite list_lookup_insert_ne; [done|]. intros ->. congruence.
    + rewrite !find_key_none; [done|done|by rewrite Hl].
Qed.

Lemma find_key_snoc k rows r :
  key r ∉ key <$> rows → find_key k (rows ++ [r]) = if decide (k = key r) then Some r else find_key k rows.
Proof.
  intros Hn. unfold find_key. destruct (list_find (λ x, key x = k) rows) as [[j x]|] eqn:E.
  - rewrite (list_find_app_l _ _ _ _ _ E). apply list_find_Some in E as (Hj & <- & _). case_decide as Hk; [|done].
    destruct Hn. rewrite <- Hk. apply list_elem_of_fmap. exists x. split; [done|]. by eapply list_elem_of_lookup_2.
  - rewrite list_find_app_r by done. cbn. case_decide as Hk; cbn; case_decide; congruence.
Qed.
End keyed.
