(* ===== verification/KeyedMap.v ===== *)
(** Rows with distinct keys as a finite map: what the table operations (append, remove by swapping, overwrite,
    sweep) do to the map.  And the growing hash index over a column of hashes, as the tables use it: found by hash,
    appended to, and kept when a row is removed by swapping in the last one. *)

From stdpp Require Import gmap.
From S2P Require Import LemireIndex Prelude Columns.

Section keyed.
Context {A K : Type} `{Countable K} (key : A → K).
Implicit Types (rows : list A).

Definition entries rows : gmap K A := list_to_map ((λ r, (key r, r)) <$> rows).

Lemma entries_keys rows : ((λ r, (key r, r)) <$> rows).*1 = key <$> rows.
Proof. by rewrite <- list_fmap_compose. Qed.

Lemma entries_perm rows rows' : NoDup (key <$> rows) → rows ≡ₚ rows' → entries rows = entries rows'.
Proof. intros Hnd Hp. apply list_to_map_proper; [by rewrite entries_keys|by rewrite Hp]. Qed.

Lemma entries_none rows k : k ∉ key <$> rows ↔ entries rows !! k = None.
Proof. unfold entries. rewrite <- entries_keys. apply not_elem_of_list_to_map. Qed.

Lemma entries_some rows r : NoDup (key <$> rows) → r ∈ rows → entries rows !! key r = Some r.
Proof. intros Hnd Hr. apply elem_of_list_to_map; [by rewrite entries_keys|]. apply list_elem_of_fmap. by exists r. Qed.

Lemma entries_row rows k r : entries rows !! k = Some r → r ∈ rows ∧ key r = k.
Proof. intros Hr. by apply elem_of_list_to_map_2, list_elem_of_fmap in Hr as (r' & [= -> ->] & Hr'). Qed.

Lemma entries_iff rows k r : NoDup (key <$> rows) → entries rows !! k = Some r ↔ r ∈ rows ∧ key r = k.
Proof. intros Hnd. split; [apply entries_row|]. intros [Hr <-]. by apply entries_some. Qed.

Lemma entries_dom rows k : k ∈ key <$> rows ↔ is_Some (entries rows !! k).
Proof. rewrite <- not_eq_None_Some, <- entries_none. split; [tauto|]. intros Hn. by destruct (decide (k ∈ key <$> rows)). Qed.

Lemma entries_without rows r rest : NoDup (key <$> rows) → rows ≡ₚ r :: rest → entries rest = delete (key r) (entries rows).
Proof.
  intros Hnd Hp. rewrite (entries_perm rows (r :: rest) Hnd Hp). unfold entries at 2. cbn. rewrite delete_insert_id; [done|].
  apply entries_none. rewrite Hp in Hnd. cbn in Hnd. by apply list.NoDup_cons in Hnd as [? _].
Qed.

Lemma entries_removed rows i r :
  NoDup (key <$> rows) → rows !! i = Some r →
  entries (swap_removed rows i) = delete (key r) (entries rows) ∧ NoDup (key <$> swap_removed rows i).
Proof.
  intros Hnd Hi. pose proof (swap_removed_perm rows i r Hi) as Hp. split; [by apply entries_without|].
  rewrite <- Hp in Hnd. cbn in Hnd. by apply list.NoDup_cons in Hnd as [_ ?].
Qed.

Lemma entries_snoc rows r :
  NoDup (key <$> rows) → (key r ∉ key <$> rows) →
  entries (rows ++ [r]) = <[key r := r]> (entries rows) ∧ NoDup (key <$> (rows ++ [r])).
Proof.
  intros Hnd Hn. assert (Hnd' : NoDup (key <$> (rows ++ [r]))) by (rewrite fmap_app; by apply NoDup_snoc). split; [|done].
  by rewrite (entries_perm (rows ++ [r]) (r :: rows)) by (done || by rewrite Permutation_app_comm).
Qed.

Lemma entries_overwrite rows i r r' :
  NoDup (key <$> rows) → rows !! i = Some r → key r' = key r →
  entries (<[i := r']> rows) = <[key r := r']> (entries rows) ∧ NoDup (key <$> <[i := r']> rows).
Proof.
  intros Hnd Hi Hk. assert (Hkeys : key <$> <[i := r']> rows = key <$> rows).
  { rewrite list_fmap_insert. apply list_insert_id. by rewrite list_lookup_fmap, Hi, Hk. }
  rewrite Hkeys. split; [|done]. apply map_eq. intros k. destruct (decide (k = key r)) as [->|Hne].
  - rewrite lookup_insert_eq, <- Hk. apply entries_some; [by rewrite Hkeys|]. apply list_elem_of_lookup. exists i.
    apply list_lookup_insert_eq. by eapply lookup_lt_Some.
  - rewrite lookup_insert_ne by done. apply option_eq. intros x. rewrite !entries_iff by (by rewrite ?Hkeys). split; intros [[j Hj]%list_elem_of_lookup Hx].
    + destruct (decide (i = j)) as [<-|Hij].
      { rewrite list_lookup_insert_eq in Hj by (by eapply lookup_lt_Some). injection Hj as <-. congruence. }
      rewrite list_lookup_insert_ne in Hj by done. split; [by eapply list_elem_of_lookup_2|done].
    + assert (i ≠ j) by (intros <-; rewrite Hi in Hj; injection Hj as <-; done). split; [|done].
      apply list_elem_of_lookup. exists j. by rewrite list_lookup_insert_ne.
Qed.

Lemma entries_size rows : NoDup (key <$> rows) → size (entries rows) = length rows.
Proof.
  intros Hnd. unfold entries. rewrite <- length_map_to_list. rewrite map_to_list_to_map by (by rewrite entries_keys). apply length_fmap.
Qed.

(** Rows swept: each dropped, kept or rewritten under its key. *)
Lemma omap_sub (f : A → option A) rows :
  (∀ r r', f r = Some r' → key r' = key r) → key <$> omap f rows ⊆+ key <$> rows.
Proof.
  intros Hf. induction rows as [|r rows IH]; [done|]. cbn. destruct (f r) as [r'|] eqn:E; [|by apply submseteq_cons].
  cbn. rewrite (Hf r r' E). by apply submseteq_skip.
Qed.

Lemma entries_omap (f : A → option A) rows rows' :
  NoDup (key <$> rows) → (∀ r r', f r = Some r' → key r' = key r) → rows' ≡ₚ omap f rows →
  entries rows' = omap f (entries rows) ∧ NoDup (key <$> rows').
Proof.
  intros Hnd Hf Hp. assert (Hnd' : NoDup (key <$> rows')).
  { rewrite Hp. eapply submseteq_NoDup; [exact Hnd|]. by apply omap_sub. }
  split; [|done]. apply map_eq. intros k. apply option_eq. intros x. rewrite lookup_omap_Some, entries_iff by done. rewrite Hp. split.
  - intros [(r & Hr & Hfr)%list_elem_of_omap <-]. exists r. split; [done|]. rewrite (Hf r x Hfr). by apply entries_some.
  - intros (r & Hfr & Hr). apply entries_iff in Hr as [Hr <-]; [|done]. split; [|by apply Hf]. apply list_elem_of_omap. by exists r.
Qed.

Lemma entries_app rows rows' : entries (rows ++ rows') = entries rows ∪ entries rows'.
Proof. unfold entries. by rewrite fmap_app, list_to_map_app. Qed.
End keyed.

Lemma heap_get_ids slots (ids : list (list Z)) id :
  LemireIndex.Heap.heap_rep slots ids →
  (∃ i, LemireIndex.Heap.heap_get slots id ids = Done (Some i) ∧ ids !! i = Some id)
  ∨ (LemireIndex.Heap.heap_get slots id ids = Done None ∧ id ∉ ids).
Proof.
  intros Hix. rewrite LemireIndex.Heap.heap_get_eq.
  destruct (LemireIndex.represents_get _ _ _ _ id (proj1 Hix) (LemireIndex.lemire_key_u64 id)) as ([i|] & E & Hr).
  - left. destruct Hr as (Hi & id' & Hrow & Hkey). cbn in Hkey. subst id'. by exists i.
  - right. split; [exact E|]. intros [i Hi]%list_elem_of_lookup. apply (Hr i). split; [by eapply lookup_lt_Some|]. by exists id.
Qed.

Lemma heap_index_push slots (ids : list (list Z)) id :
  LemireIndex.Heap.heap_rep slots ids → (Z.of_nat (length ids) < u32_max)%Z →
  ∃ slots', LemireIndex.Heap.heap_insert slots (length ids) (ids ++ [id]) = Done slots'
    ∧ LemireIndex.Heap.heap_rep slots' (ids ++ [id]).
Proof. intros Hix Hlt. apply LemireIndex.Heap.heap_insert_spec; [done|apply LemireIndex.hashes_keys_ok|done]. Qed.

Lemma heap_index_new : LemireIndex.Heap.heap_rep LemireIndex.Heap.default ([] : list (list Z)).
Proof.
  split; [|split; [by apply Nat.leb_le|by vm_compute]]. exact (LemireIndex.represents_new LemireIndex.Heap.EMPTY 8 [] ltac:(lia) (LemireIndex.hashes_keys_ok [])).
Qed.

Lemma heap_index_swap slots (ids : list (list Z)) i :
  LemireIndex.Heap.heap_rep slots ids → (Z.of_nat (length ids) ≤ u32_max)%Z → i < length ids →
  ∃ slots1 slots2, LemireIndex.Heap.heap_remove_slot slots i ids = Done slots1
    ∧ (if negb (i =? length ids - 1)%nat then LemireIndex.Heap.heap_repoint_slot slots1 (length ids - 1) i ids else Done slots1)
      = Done slots2
    ∧ LemireIndex.Heap.heap_rep slots2 (swap_removed ids i).
Proof.
  intros (Hrep & Hmin & Hload) Hmax Hi. unfold LemireIndex.Heap.heap_remove_slot, LemireIndex.Heap.heap_repoint_slot, LemireIndex.Heap.heap_rep.
  pose proof (length_swap_removed ids i Hi) as Hl. destruct (length ids) as [|last] eqn:El; [lia|].
  replace (S last - 1) with last in * by lia.
  assert (Hload' : LemireIndex.exceeds_two_thirds_load (Z.of_nat last) (Z.of_nat (length slots)) = false).
  { unfold LemireIndex.exceeds_two_thirds_load in *. rewrite Z.ltb_ge in *. unfold saturating_mul in *. lia. }
  destruct (Nat.eqb_spec i last) as [->|Hne]; cbn [negb].
  - destruct (LemireIndex.represents_pop LemireIndex.Heap.EMPTY slots ids (swap_removed ids last) last Hrep) as (slots' & E & Hlen & Hrep').
    { apply LemireIndex.hashes_keys_ok. }
    { intros j Hj. rewrite lookup_swap_removed by lia. by rewrite decide_False by lia. }
    exists slots', slots'. split; [done|]. split; [done|]. rewrite Hl, Hlen. done.
  - destruct (LemireIndex.remove_slot_spec LemireIndex.Heap.EMPTY slots ids i (proj1 Hrep)) as (slots1 & E1 & Hlen & _).
    destruct (LemireIndex.represents_swap LemireIndex.Heap.EMPTY slots ids (swap_removed ids i) last i) with (slots1 := slots1)
      as (pos & E2 & Hpos & Hrep'); try done; try lia.
    + unfold LemireIndex.Heap.EMPTY. lia.
    + apply LemireIndex.hashes_keys_ok.
    + intros j Hj Hji. rewrite lookup_swap_removed by lia. by rewrite decide_False.
    + rewrite lookup_swap_removed by lia. rewrite decide_True by done. f_equal. lia.
    + unfold LemireIndex.repoint_slot. eexists _, _. split; [exact E1|]. rewrite E2. cbn [mbind run_bind].
      rewrite store_done by done. rewrite wrap_small by width. split; [done|].
      rewrite Hl, length_insert, Hlen. done.
Qed.

