(* ===== verification/ChannelTable.v ===== *)
(** The channel table: [prns-core/src/routing/links/channel/table/core.rs].

    A channel per link: the receiver's next sequence number and its buffer of early messages, the
    sender's next sequence number, its window and its messages in flight, and a cache of the earliest
    retry deadline.  The trait [ChannelTable] is a class; its contract [ChannelTableLaws] is a list of
    [Channel]s, in which the cache is always exact.  The fixed-array table is in [ChannelTableFixed]. *)

From S2P Require Import Prelude Columns Channel.

Definition LinkId := list Z.
#[global] Instance LinkId_eq_dec : EqDecision LinkId.
Proof. unfold LinkId. apply _. Defined.

Inductive BufferOutcome := Stored | BufferOutcomeFull.
Inductive TxOutcome := Tracked | TxFull.
Inductive EnsureChannelError := ChannelTableFull.

(** [OutstandingSend] *)
Record OutstandingSend := mkSend {
  os_packet_hash : list Z;
  os_command_id : Z;
  os_sequence : Z;
  os_message_type : Z;
  os_body : list Z;
  os_iv : list Z;
  os_sent_at : Z;
  os_timeout_at : Z;
}.

(** * The earliest deadline *)

(** [iter().min()] *)
Fixpoint minimum (xs : list Z) : option Z :=
  match xs with
  | [] => None
  | x :: xs => Some (match minimum xs with None => x | Some m => Z.min x m end)
  end.

Inductive OutstandingTimeoutChange :=
  | PushedAt (new : Z)
  | Rewritten (previous new : Z)
  | Retired (retired : Z).

Section earliest.
(** The cached value, and the deadlines a rescan walks. *)
Context (earliest : option Z) (rescan : run (option Z)).

(** [absorb_outstanding_timeout_change]: the new cached value. *)
Definition absorb (change : OutstandingTimeoutChange) : run (option Z) :=
  match change with
  | PushedAt new =>
      Done (match earliest with
            | None => Some new
            | Some current => if (new <? current)%Z then Some new else earliest
            end)
  | Rewritten previous new =>
      match earliest with
      | Some current =>
          if (new <=? current)%Z then Done (Some new)
          else if (previous =? current)%Z then rescan
          else Done earliest
      | None => Done (Some new)
      end
  | Retired retired => if decide (earliest = Some retired) then rescan else Done earliest
  end.
End earliest.

Lemma minimum_spec xs :
  match minimum xs with
  | None => xs = []
  | Some m => m ∈ xs ∧ Forall (λ x, (m ≤ x)%Z) xs
  end.
Proof.
  induction xs as [|x xs IH]; cbn; [done|]. destruct (minimum xs) as [m|].
  - destruct IH as [Hin Hall]. split.
    + destruct (Z.min_spec x m) as [[_ ->]|[_ ->]]; rewrite elem_of_cons; [by left|by right].
    + constructor; [lia|]. eapply list.Forall_impl; [exact Hall|]. cbn. lia.
  - subst xs. split; [apply elem_of_cons; by left|]. repeat constructor. lia.
Qed.

Lemma minimum_unique xs m :
  m ∈ xs → Forall (λ x, (m ≤ x)%Z) xs → minimum xs = Some m.
Proof.
  intros Hin Hall. pose proof (minimum_spec xs) as Hm. destruct (minimum xs) as [m'|].
  - destruct Hm as [Hin' Hall']. rewrite list.Forall_forall in Hall, Hall'. f_equal.
    specialize (Hall m' Hin'). specialize (Hall' m Hin). lia.
  - subst xs. by apply not_elem_of_nil in Hin.
Qed.

#[global] Instance minimum_perm : Proper ((≡ₚ) ==> (=)) minimum.
Proof.
  intros xs ys Hp. pose proof (minimum_spec xs) as Hm. destruct (minimum xs) as [m|].
  - symmetry. apply minimum_unique; [rewrite <- Hp|rewrite <- Hp]; apply Hm.
  - subst xs. by apply Permutation_nil in Hp as ->.
Qed.

Lemma minimum_app_r xs x : minimum (xs ++ [x]) = Some (match minimum xs with None => x | Some m => Z.min x m end).
Proof. by rewrite (Permutation_app_comm xs [x]). Qed.

(** Each change of the deadlines, absorbed, leaves the minimum of the new deadlines. *)
Lemma absorb_pushed xs new rescan :
  absorb (minimum xs) rescan (PushedAt new) = Done (minimum (xs ++ [new])).
Proof.
  cbn. rewrite minimum_app_r. destruct (minimum xs) as [m|]; [|done].
  destruct (Z.ltb_spec new m); do 2 f_equal; lia.
Qed.

Lemma absorb_rewritten xs i previous new :
  xs !! i = Some previous →
  absorb (minimum xs) (Done (minimum (<[i := new]> xs))) (Rewritten previous new) = Done (minimum (<[i := new]> xs)).
Proof.
  intros Hi. cbn. pose proof (minimum_spec xs) as Hm. pose proof (lookup_lt_Some _ _ _ Hi) as Hlt.
  destruct (minimum xs) as [m|]; [|by subst xs]. destruct Hm as [Hin Hall].
  destruct (Z.leb_spec new m).
  - f_equal. symmetry. apply minimum_unique.
    + apply list_elem_of_insert. done.
    + apply Forall_insert; [|lia]. eapply list.Forall_impl; [exact Hall|]. cbn. lia.
  - destruct (Z.eqb_spec previous m) as [|Hne]; [done|]. f_equal. symmetry. apply minimum_unique.
    + apply list_elem_of_lookup in Hin as [j Hj]. apply list_elem_of_lookup. exists j.
      rewrite list_lookup_insert_ne; [done|]. intros ->. congruence.
    + apply Forall_insert; [done|lia].
Qed.

Lemma absorb_retired xs i retired :
  xs !! i = Some retired →
  absorb (minimum xs) (Done (minimum (swap_removed xs i))) (Retired retired) = Done (minimum (swap_removed xs i)).
Proof.
  intros Hi. cbn. case_decide as E; [done|]. f_equal.
  assert (Em : minimum xs = minimum (retired :: swap_removed xs i)).
  { symmetry. apply minimum_perm. by apply swap_removed_perm. }
  rewrite Em in E |- *. cbn in E |- *. destruct (minimum (swap_removed xs i)) as [m|].
  - destruct (decide (retired ≤ m)%Z); [|f_equal; lia]. destruct E. f_equal. lia.
  - by destruct E.
Qed.

(** * The trait *)

Class ChannelTable (T : Type) := {
  ct_len : T → nat;
  ct_index_of : T → LinkId → run (option nat);
  ct_link_at : T → nat → run LinkId;
  ct_ensure : T → LinkId → run (result EnsureChannelError nat * T);
  ct_close : T → LinkId → run T;
  ct_next_expected : T → nat → run Z;
  ct_set_next_expected : T → nat → Z → run T;
  ct_buffered_sequences : T → nat → run (list Z);
  ct_buffered_message_type : T → nat → nat → run Z;
  ct_buffered_payload : T → nat → nat → run (list Z);
  ct_push_buffered : T → nat → Z → Z → list Z → run (BufferOutcome * T);
  ct_swap_remove_buffered : T → nat → nat → run T;
  ct_next_tx_sequence : T → nat → run Z;
  ct_set_next_tx_sequence : T → nat → Z → run T;
  ct_window : T → nat → run ChannelWindow;
  ct_set_window : T → nat → ChannelWindow → run T;
  ct_outstanding_count : T → nat → run nat;
  ct_outstanding_packet_hashes : T → nat → run (list (list Z));
  ct_outstanding_command_id : T → nat → nat → run Z;
  ct_outstanding_sent_at : T → nat → nat → run Z;
  ct_outstanding_timeout_at : T → nat → nat → run Z;
  ct_set_outstanding_timeout_at : T → nat → nat → Z → run T;
  ct_outstanding_tries : T → nat → nat → run Z;
  ct_set_outstanding_tries : T → nat → nat → Z → run T;
  ct_outstanding_sequence : T → nat → nat → run Z;
  ct_outstanding_message_type : T → nat → nat → run Z;
  ct_outstanding_body : T → nat → nat → run (list Z);
  ct_outstanding_iv : T → nat → nat → run (list Z);
  ct_push_outstanding : T → nat → OutstandingSend → run (TxOutcome * T);
  ct_retire_outstanding : T → nat → nat → run T;
  ct_channel_earliest_tx_timeout : T → nat → run (option Z);
}.

Section default_methods.
Context {T : Type} `{ChannelTable T}.

(** [(0..n).filter_map(f).min()] *)
Fixpoint earliest_from (t : T) (todo i : nat) : run (list Z) :=
  match todo with
  | O => Done []
  | S todo =>
      e ← ct_channel_earliest_tx_timeout t i;
      rest ← earliest_from t todo (S i);
      Done (match e with Some at_ => at_ :: rest | None => rest end)
  end.
Definition earliest_tx_timeout_at (t : T) : run (option Z) :=
  all ← earliest_from t (ct_len t) 0; Done (minimum all).

(** [(0..self.len()).find(..)] *)
Fixpoint first_due_from (t : T) (now : Z) (todo i : nat) : run (option nat) :=
  match todo with
  | O => Done None
  | S todo =>
      e ← ct_channel_earliest_tx_timeout t i;
      match e with
      | Some at_ => if (at_ <=? now)%Z then Done (Some i) else first_due_from t now todo (S i)
      | None => first_due_from t now todo (S i)
      end
  end.
Definition first_due_channel (t : T) (now : Z) : run (option nat) := first_due_from t now (ct_len t) 0.
End default_methods.

(** * The contract *)

Record Buffered := mkBuffered { b_sequence : Z; b_message_type : Z; b_payload : list Z }.
(** A message in flight: the send and the number of times it was sent again. *)
Record Outstanding := mkOutstanding { o_send : OutstandingSend; o_tries : Z }.

Record Channel := mkChannel {
  ch_link : LinkId;
  ch_next_expected : Z;
  ch_buffered : list Buffered;
  ch_next_tx : Z;
  ch_window : ChannelWindow;
  ch_outstanding : list Outstanding;
}.

Definition new_channel (link : LinkId) : Channel := mkChannel link 0 [] 0 default_window [].
Definition with_next_expected (s : Z) (c : Channel) : Channel :=
  mkChannel (ch_link c) s (ch_buffered c) (ch_next_tx c) (ch_window c) (ch_outstanding c).
Definition with_buffered (b : list Buffered) (c : Channel) : Channel :=
  mkChannel (ch_link c) (ch_next_expected c) b (ch_next_tx c) (ch_window c) (ch_outstanding c).
Definition with_next_tx (s : Z) (c : Channel) : Channel :=
  mkChannel (ch_link c) (ch_next_expected c) (ch_buffered c) s (ch_window c) (ch_outstanding c).
Definition with_window (w : ChannelWindow) (c : Channel) : Channel :=
  mkChannel (ch_link c) (ch_next_expected c) (ch_buffered c) (ch_next_tx c) w (ch_outstanding c).
Definition with_outstanding (o : list Outstanding) (c : Channel) : Channel :=
  mkChannel (ch_link c) (ch_next_expected c) (ch_buffered c) (ch_next_tx c) (ch_window c) o.

Definition o_timeout (o : Outstanding) : Z := os_timeout_at (o_send o).
Definition with_timeout (at_ : Z) (o : Outstanding) : Outstanding :=
  let s := o_send o in
  mkOutstanding (mkSend (os_packet_hash s) (os_command_id s) (os_sequence s) (os_message_type s)
    (os_body s) (os_iv s) (os_sent_at s) at_) (o_tries o).
Definition with_tries (n : Z) (o : Outstanding) : Outstanding := mkOutstanding (o_send o) n.

Definition earliest_of (c : Channel) : option Z := minimum (o_timeout <$> ch_outstanding c).

(** [ct_rep t slots room chans]: the table has room for [slots] channels and holds [chans]; a buffer
    or ring with [n] entries takes one of [k] bytes when [room n k]. *)
Class ChannelTableLaws (T : Type) `{ChannelTable T} := {
  ct_rep : T → Z → (nat → nat → bool) → list Channel → Prop;
  ct_len_ok : ∀ t slots room chans, ct_rep t slots room chans →
    ct_len t = length chans ∧ (Z.of_nat (length chans) ≤ slots)%Z;
  ct_links_ok : ∀ t slots room chans, ct_rep t slots room chans → NoDup (ch_link <$> chans);
  ct_index_of_ok : ∀ t slots room chans link, ct_rep t slots room chans →
    (∃ i c, ct_index_of t link = Done (Some i) ∧ chans !! i = Some c ∧ ch_link c = link)
    ∨ (ct_index_of t link = Done None ∧ link ∉ ch_link <$> chans);
  ct_ensure_new : ∀ t slots room chans link, ct_rep t slots room chans → (link ∉ ch_link <$> chans) →
    (Z.of_nat (length chans) < slots)%Z →
    ∃ t', ct_ensure t link = Done (Ok (length chans), t') ∧ ct_rep t' slots room (chans ++ [new_channel link]);
  ct_ensure_known : ∀ t slots room chans i c, ct_rep t slots room chans → chans !! i = Some c →
    ct_ensure t (ch_link c) = Done (Ok i, t);
  ct_ensure_full : ∀ t slots room chans link, ct_rep t slots room chans → (link ∉ ch_link <$> chans) →
    Z.of_nat (length chans) = slots → ct_ensure t link = Done (Err ChannelTableFull, t);
  ct_close_ok : ∀ t slots room chans i c, ct_rep t slots room chans → chans !! i = Some c →
    ∃ t', ct_close t (ch_link c) = Done t' ∧ ct_rep t' slots room (swap_removed chans i);
  ct_close_unknown : ∀ t slots room chans link, ct_rep t slots room chans → (link ∉ ch_link <$> chans) →
    ct_close t link = Done t;
  ct_reads_ok : ∀ t slots room chans i c, ct_rep t slots room chans → chans !! i = Some c →
    ct_link_at t i = Done (ch_link c)
    ∧ ct_next_expected t i = Done (ch_next_expected c)
    ∧ ct_buffered_sequences t i = Done (b_sequence <$> ch_buffered c)
    ∧ ct_next_tx_sequence t i = Done (ch_next_tx c)
    ∧ ct_window t i = Done (ch_window c)
    ∧ ct_outstanding_count t i = Done (length (ch_outstanding c))
    ∧ ct_outstanding_packet_hashes t i = Done ((os_packet_hash ∘ o_send) <$> ch_outstanding c)
    ∧ ct_channel_earliest_tx_timeout t i = Done (earliest_of c);
  ct_buffered_ok : ∀ t slots room chans i c sub b, ct_rep t slots room chans → chans !! i = Some c →
    ch_buffered c !! sub = Some b →
    ct_buffered_message_type t i sub = Done (b_message_type b)
    ∧ ct_buffered_payload t i sub = Done (b_payload b);
  ct_outstanding_ok : ∀ t slots room chans i c sub o, ct_rep t slots room chans → chans !! i = Some c →
    ch_outstanding c !! sub = Some o →
    ct_outstanding_command_id t i sub = Done (os_command_id (o_send o))
    ∧ ct_outstanding_sent_at t i sub = Done (os_sent_at (o_send o))
    ∧ ct_outstanding_timeout_at t i sub = Done (o_timeout o)
    ∧ ct_outstanding_tries t i sub = Done (o_tries o)
    ∧ ct_outstanding_sequence t i sub = Done (os_sequence (o_send o))
    ∧ ct_outstanding_message_type t i sub = Done (os_message_type (o_send o))
    ∧ ct_outstanding_body t i sub = Done (os_body (o_send o))
    ∧ ct_outstanding_iv t i sub = Done (os_iv (o_send o));
  ct_set_next_expected_ok : ∀ t slots room chans i c s, ct_rep t slots room chans → chans !! i = Some c →
    ∃ t', ct_set_next_expected t i s = Done t' ∧ ct_rep t' slots room (<[i := with_next_expected s c]> chans);
  ct_push_buffered_ok : ∀ t slots room chans i c s mt p, ct_rep t slots room chans → chans !! i = Some c →
    if room (length (ch_buffered c)) (length p)
    then ∃ t', ct_push_buffered t i s mt p = Done (Stored, t')
      ∧ ct_rep t' slots room (<[i := with_buffered (ch_buffered c ++ [mkBuffered s mt p]) c]> chans)
    else ct_push_buffered t i s mt p = Done (BufferOutcomeFull, t);
  ct_swap_remove_buffered_ok : ∀ t slots room chans i c sub, ct_rep t slots room chans → chans !! i = Some c →
    sub < length (ch_buffered c) →
    ∃ t', ct_swap_remove_buffered t i sub = Done t'
      ∧ ct_rep t' slots room (<[i := with_buffered (swap_removed (ch_buffered c) sub) c]> chans);
  ct_set_next_tx_ok : ∀ t slots room chans i c s, ct_rep t slots room chans → chans !! i = Some c →
    ∃ t', ct_set_next_tx_sequence t i s = Done t' ∧ ct_rep t' slots room (<[i := with_next_tx s c]> chans);
  ct_set_window_ok : ∀ t slots room chans i c w, ct_rep t slots room chans → chans !! i = Some c →
    ∃ t', ct_set_window t i w = Done t' ∧ ct_rep t' slots room (<[i := with_window w c]> chans);
  ct_set_timeout_ok : ∀ t slots room chans i c sub o at_, ct_rep t slots room chans → chans !! i = Some c →
    ch_outstanding c !! sub = Some o →
    ∃ t', ct_set_outstanding_timeout_at t i sub at_ = Done t'
      ∧ ct_rep t' slots room (<[i := with_outstanding (<[sub := with_timeout at_ o]> (ch_outstanding c)) c]> chans);
  ct_set_tries_ok : ∀ t slots room chans i c sub o n, ct_rep t slots room chans → chans !! i = Some c →
    ch_outstanding c !! sub = Some o →
    ∃ t', ct_set_outstanding_tries t i sub n = Done t'
      ∧ ct_rep t' slots room (<[i := with_outstanding (<[sub := with_tries n o]> (ch_outstanding c)) c]> chans);
  ct_push_outstanding_ok : ∀ t slots room chans i c s, ct_rep t slots room chans → chans !! i = Some c →
    if room (length (ch_outstanding c)) (length (os_body s))
    then ∃ t', ct_push_outstanding t i s = Done (Tracked, t')
      ∧ ct_rep t' slots room (<[i := with_outstanding (ch_outstanding c ++ [mkOutstanding s 0]) c]> chans)
    else ct_push_outstanding t i s = Done (TxFull, t);
  ct_retire_ok : ∀ t slots room chans i c sub, ct_rep t slots room chans → chans !! i = Some c →
    sub < length (ch_outstanding c) →
    ∃ t', ct_retire_outstanding t i sub = Done t'
      ∧ ct_rep t' slots room (<[i := with_outstanding (swap_removed (ch_outstanding c) sub) c]> chans);
}.
