(* ===== verification/DeadlineColumn.v ===== *)
(** The walk of [prefers_linear_cull] over a deadline heap ends, and what an index that may be stale keeps: the walk
    goes through the heap in preorder, skips the subtree under a row that is not due, and never comes back to a
    position, as the positions it visits increase in [before].  And a column of deadlines under a deadline heap
    ([DeadlineHeap]), as the growing tables keep it: the closure they hand to the heap, and what the heap's answers say
    of the column. *)

From S2P Require Import Prelude Columns ChannelTable DeadlineHeap.

(** * Preorder *)

Section preorder.
Context (D : nat).
Implicit Types (m p : nat).

(** Positions from one: the children of [m] are [2 * m] and [2 * m + 1].  [leftmost m] is the position of the
    leftmost descendant of [m] at depth [D], [span m] the number of descendants there. *)
Definition span m : nat := 2 ^ (D - Nat.log2 m).
Definition leftmost m : nat := m * span m.

Definition before m m' : Prop :=
  leftmost m < leftmost m' ∨ (leftmost m = leftmost m' ∧ Nat.log2 m < Nat.log2 m').

Lemma before_irrefl m : ~ before m m.
Proof. unfold before. lia. Qed.
Lemma before_trans m1 m2 m3 : before m1 m2 → before m2 m3 → before m1 m3.
Proof. unfold before. lia. Qed.

Lemma span_child m m' : 0 < m → Nat.log2 m' = S (Nat.log2 m) → Nat.log2 m' ≤ D → span m = 2 * span m'.
Proof.
  intros Hm E Hd. unfold span. rewrite E in *. replace (D - Nat.log2 m) with (S (D - S (Nat.log2 m))) by lia. by rewrite Nat.pow_succ_r'.
Qed.

Lemma left_child m : 0 < m → Nat.log2 (2 * m) ≤ D → leftmost (2 * m) = leftmost m ∧ span m = 2 * span (2 * m).
Proof.
  intros Hm Hd. pose proof (span_child m (2 * m) Hm (Nat.log2_double m Hm) Hd) as E. split; [|done]. unfold leftmost. lia.
Qed.
Lemma right_child m : 0 < m → Nat.log2 (2 * m + 1) ≤ D → leftmost (2 * m + 1) = leftmost m + span (2 * m + 1) ∧ span m = 2 * span (2 * m + 1).
Proof.
  intros Hm Hd. assert (El : Nat.log2 (2 * m + 1) = S (Nat.log2 m)) by (by apply Nat.log2_succ_double).
  pose proof (span_child m (2 * m + 1) Hm El Hd) as E. split; [|done]. unfold leftmost. lia.
Qed.

Lemma before_left m : 0 < m → Nat.log2 (2 * m) ≤ D → before m (2 * m).
Proof. intros Hm Hd. destruct (left_child m Hm Hd) as [E _]. right. split; [done|]. rewrite Nat.log2_double by done. lia. Qed.

(** The loop climbs from [m] while the subtree of [m0] is within that of the ancestor. *)
Lemma next_after_subtree_loop_ok fuel position len m0 :
  position < fuel → Nat.log2 (position + 1) ≤ D → Nat.log2 len ≤ D →
  leftmost m0 < leftmost (position + 1) + span (position + 1) →
  ∃ next, next_after_subtree_loop fuel position len = Done next
    ∧ ∀ p, next = Some p → p < len ∧ before m0 (p + 1).
Proof.
  revert position. induction fuel as [|fuel IH]; intros position Hf Hd Hlen Hin; [lia|]. cbn [next_after_subtree_loop].
  destruct (Nat.ltb_spec 0 position) as [Hpos|]; [|eexists; by split].
  pose proof (Nat.div_mod_eq (position - 1) 2) as Hdiv. pose proof (Nat.mod_upper_bound (position - 1) 2) as Hmod.
  set (k := (position - 1) / 2) in *.
  assert (Hodd : position = 2 * k + 1 ∨ position = 2 * k + 2) by lia.
  clearbody k. clear Hdiv Hmod. destruct Hodd as [-> | ->].
  - replace ((2 * k + 1) mod 2) with 1 by (symmetry; rewrite Nat.add_comm, Nat.mul_comm; apply Nat.Div0.mod_add).
    cbn [Nat.eqb andb]. replace (2 * k + 1 + 1) with (2 * (k + 1)) in * by lia.
    destruct (left_child (k + 1)) as [El Es]; [lia|done|]. destruct (Nat.ltb_spec (2 * (k + 1)) len) as [Hlt|Hge]; cbn [andb].
    + eexists. split; [done|]. intros p [= <-]. split; [done|]. left.
      assert (Hd2 : Nat.log2 (2 * (k + 1) + 1) ≤ D).
      { transitivity (Nat.log2 len); [|done]. apply Nat.log2_le_mono. lia. }
      destruct (right_child (k + 1)) as [Er Es']; [lia|done|]. change (k + 1 + (k + 1 + 0)) with (2 * (k + 1)). lia.
    + apply IH; [lia| |done|]; [|lia]. transitivity (Nat.log2 (2 * (k + 1))); [|done]. apply Nat.log2_le_mono. lia.
  - replace ((2 * k + 2) mod 2) with 0 by (symmetry; rewrite Nat.add_comm, Nat.mul_comm; apply Nat.Div0.mod_add).
    cbn [Nat.eqb andb]. replace (2 * k + 2 + 1) with (2 * (k + 1) + 1) in * by lia.
    destruct (right_child (k + 1)) as [Er Es]; [lia|done|].
    apply IH; [lia| |done|]; [|lia]. transitivity (Nat.log2 (2 * (k + 1) + 1)); [|done]. apply Nat.log2_le_mono. lia.
Qed.
End preorder.

Lemma next_after_subtree_ok position len :
  position < len →
  ∃ next, next_after_subtree position len = Done next
    ∧ ∀ p, next = Some p → p < len ∧ before (Nat.log2 len) (position + 1) (p + 1).
Proof.
  intros Hp. assert (Hd : Nat.log2 (position + 1) ≤ Nat.log2 len) by (apply Nat.log2_le_mono; lia).
  apply next_after_subtree_loop_ok; [lia|done|done|]. unfold leftmost, span.
  assert (2 ^ (Nat.log2 len - Nat.log2 (position + 1)) ≠ 0) by (by apply Nat.pow_nonzero). lia.
Qed.

(** * The walk ends *)

Section walk.
Context (d : nat → option Z) (ix : HeapDeadlineIndex) (n : nat) (now : Z).
Abbreviation len := (length (heap ix)).
Abbreviation D := (Nat.log2 len).

(** With the positions seen so far, all before the current one. *)
Lemma cull_loop_ends fuel position candidates (seen : list nat) :
  NoDup seen → Forall (λ p, p < len) seen → fuel + length seen = S len →
  (∀ p, position = Some p → p < len ∧ Forall (λ q, before D (q + 1) (p + 1)) seen) →
  ∃ b ix', cull_loop d fuel ix n now position candidates = Done (b, ix') ∧ (ix' = ix ∨ ix' = invalidate ix).
Proof.
  revert position candidates seen. induction fuel as [|fuel IH]; intros position candidates seen Hnd Hlt Hf Hp.
  { exfalso. assert (Hs : seen ⊆+ seq 0 len).
    { apply NoDup_submseteq; [done|]. intros q Hq. rewrite elem_of_seq. rewrite list.Forall_forall in Hlt. specialize (Hlt q Hq). lia. }
    apply submseteq_length in Hs. rewrite length_seq in Hs. lia. }
  destruct position as [current|]; cbn [cull_loop]; [|eauto].
  destruct (Hp current eq_refl) as [Hc Hb]. destruct (lookup_lt_is_Some_2 (heap ix) current Hc) as [row Hrow].
  rewrite (index_lookup _ _ _ Hrow). cbn [mbind run_bind]. destruct (d (Z.to_nat row)) as [at_|]; [|eauto].
  assert (Hnext : ∀ next candidates', (∀ p, next = Some p → p < len ∧ before D (current + 1) (p + 1)) →
    ∃ b ix', cull_loop d fuel ix n now next candidates' = Done (b, ix') ∧ (ix' = ix ∨ ix' = invalidate ix)).
  { intros next candidates' Hn. apply (IH next candidates' (current :: seen)).
    - constructor; [|done]. intros Hin. rewrite list.Forall_forall in Hb. exact (before_irrefl D (current + 1) (Hb current Hin)).
    - by constructor.
    - cbn. lia.
    - intros p E. destruct (Hn p E) as [Hpl Hpb]. split; [done|]. constructor; [done|].
      eapply list.Forall_impl; [exact Hb|]. intros q Hq. exact (before_trans D _ _ _ Hq Hpb). }
  destruct (next_after_subtree_ok current len Hc) as (next & En & Hn).
  destruct (at_ <=? now)%Z.
  2: { rewrite En. cbn [mbind run_bind]. by apply Hnext. }
  case_match; [eauto|]. destruct (Nat.ltb_spec current (len / 2)) as [Hhalf|_].
  - cbn [mbind run_bind]. apply Hnext. intros p E. assert (Hlt' : current * 2 + 1 < len).
    { pose proof (Nat.Div0.mul_div_le len 2). lia. }
    injection E as <-. split; [done|]. replace (current * 2 + 1 + 1) with (2 * (current + 1)) by lia.
    apply before_left; [lia|]. apply Nat.log2_le_mono. lia.
  - rewrite En. cbn [mbind run_bind]. by apply Hnext.
Qed.
End walk.

(** * Indexes that may be stale *)

(** What a table keeps of its index: when it is ready, it indexes the rows. *)
Definition kept (d : nat → option Z) (ix : HeapDeadlineIndex) (n : nat) : Prop := readiness ix = Ready → indexes d ix n.

Section kept.
Implicit Types (d : nat → option Z) (ix : HeapDeadlineIndex).

Lemma indexes_kept d ix n : indexes d ix n → kept d ix n.
Proof. by intros ? ?. Qed.
Lemma invalidate_kept d ix n : kept d (invalidate ix) n.
Proof. by intros [=]. Qed.
Lemma kept_coherent d ix n : kept d ix n → coherent d ix n.
Proof. intros Hk Hr _. by apply Hk. Qed.

Lemma prepare_kept d ix n :
  kept d ix n → ∃ ix', prepare d ix n = Done ix' ∧ kept d ix' n.
Proof.
  intros Hk. destruct (prepare_spec d ix n (kept_coherent d ix n Hk)) as (ix' & E & [Hi|Hf]); exists ix'; (split; [done|]).
  - by apply indexes_kept.
  - intros Hr. congruence.
Qed.

Lemma insert_kept d d' ix n :
  kept d ix n → (∀ r, r < n → d' r = d r) → ∃ ix', insert d' ix n (d' n) = Done ix' ∧ kept d' ix' (S n).
Proof.
  intros Hk Hd. unfold insert. case_bool_decide as Hr; cbn [negb orb].
  2: { eexists. split; [done|]. apply invalidate_kept. }
  pose proof (Hk Hr) as Hix. pose proof Hix as (_ & h & Hs & _). rewrite (sh_len _ _ _ Hs), Nat.eqb_refl. cbn [negb].
  destruct (Z.leb_spec ABSENT (Z.of_nat n)) as [Hbig|Hn].
  { eexists. split; [done|]. by intros [=]. }
  destruct (insert_indexes d d' ix n Hix Hd Hn) as (ix' & E & Hix'). exists ix'. split; [|by apply indexes_kept].
  unfold insert in E. rewrite bool_decide_true in E by done. rewrite (sh_len _ _ _ Hs), Nat.eqb_refl in E. cbn [negb orb] in E.
  by rewrite (proj2 (Z.leb_gt _ _)) in E by done.
Qed.

Lemma swap_remove_kept d d' ix last removed :
  kept d ix (S last) → removed ≤ last → (∀ r, r < last → d' r = d (if decide (r = removed) then last else r)) →
  ∃ ix', swap_remove d ix removed last = Done ix' ∧ kept d' ix' last.
Proof.
  intros Hk Hr Hd. destruct (decide (readiness ix = Ready)) as [Hrd|Hrd].
  - destruct (swap_remove_indexes d d' ix last removed (Hk Hrd) Hr Hd) as (ix' & E & Hix'). exists ix'. split; [done|]. by apply indexes_kept.
  - unfold swap_remove. rewrite bool_decide_false by done. cbn [negb orb]. eexists. split; [done|]. apply invalidate_kept.
Qed.

Lemma update_kept d d' ix n row :
  kept d ix n → row < n → (∀ r, r < n → r ≠ row → d' r = d r) → ∃ ix', update d' ix row (d' row) = Done ix' ∧ kept d' ix' n.
Proof.
  intros Hk Hr Hd. destruct (decide (readiness ix = Ready)) as [Hrd|Hrd].
  - destruct (update_indexes d d' ix n row (Hk Hrd) Hr Hd) as (ix' & E & Hix'). exists ix'. split; [done|]. by apply indexes_kept.
  - unfold update. rewrite bool_decide_false by done. cbn [negb orb]. eexists. split; [done|]. apply invalidate_kept.
Qed.

Lemma earliest_kept d ix n : kept d ix n → ∃ ix', earliest_exact d ix n = Done (linear_min d n, ix') ∧ kept d ix' n.
Proof.
  intros Hk. destruct (earliest_exact_spec d ix n (kept_coherent d ix n Hk)) as (ix' & E & _ & Hco). exists ix'. split; [done|].
  revert E. unfold earliest_exact. destruct (prepare_kept d ix n Hk) as (ix1 & -> & Hk1). cbn [mbind run_bind].
  case_bool_decide; [by intros [= <-]|]. destruct (heap ix1); [by intros [= _ <-]|].
  case_match; [by intros [= _ <-]|]. intros [= <-]. apply invalidate_kept.
Qed.

Lemma first_due_kept d ix n now :
  kept d ix n → ∃ r ix', first_due d ix n now = Done (r, ix') ∧ is_due_row d n now (λ _, true) r ∧ kept d ix' n.
Proof.
  intros Hk. unfold first_due. destruct (first_due_matching_spec d ix n now (λ _, true) (kept_coherent d ix n Hk)) as (r & ix' & E & Hr & _).
  exists r, ix'. split; [done|]. split; [done|]. revert E. unfold first_due_matching. destruct (prepare_kept d ix n Hk) as (ix1 & -> & Hk1).
  cbn [mbind run_bind]. case_bool_decide; [by intros [= _ <-]|]. destruct (heap ix1); [by intros [= _ <-]|].
  case_match; [case_match; by intros [= _ <-]|]. intros [= _ <-]. apply invalidate_kept.
Qed.

(** The choice between a scan and the index always ends. *)
Lemma prefers_linear_cull_kept d ix n now :
  kept d ix n → ∃ b ix', prefers_linear_cull d ix n now = Done (b, ix') ∧ kept d ix' n.
Proof.
  intros Hk. unfold prefers_linear_cull. destruct (prepare_kept d ix n Hk) as (ix1 & -> & Hk1). cbn [mbind run_bind].
  case_bool_decide; cbn [negb]; [|eauto].
  destruct (cull_loop_ends d ix1 n now (S (length (heap ix1))) (match heap ix1 with [] => None | _ :: _ => Some 0 end) 0 [])
    as (b & ix' & -> & Hix).
  - constructor.
  - constructor.
  - cbn. lia.
  - intros p Hp. split; [|constructor]. destruct (heap ix1); [done|]. injection Hp as <-. cbn. lia.
  - exists b, ix'. split; [done|]. destruct Hix as [-> | ->]; [done|apply invalidate_kept].
Qed.
End kept.

(** [|row| column.get(row).copied().and_then(due_at)] *)
Definition deadline_in {A} (due_at : A → option Z) (ats : list A) (row : nat) : option Z := ats !! row ≫= due_at.

Section column.
Context {A : Type} (due_at : A → option Z).
Implicit Types (ats : list A).

Lemma deadline_at ats i a : ats !! i = Some a → deadline_in due_at ats i = due_at a.
Proof. intros Hi. unfold deadline_in. by rewrite Hi. Qed.
Lemma deadline_past ats i : length ats ≤ i → deadline_in due_at ats i = None.
Proof. intros Hi. unfold deadline_in. by rewrite lookup_ge_None_2. Qed.

(** What the heap's full scan returns is the minimum of the column's deadlines. *)
Lemma linear_min_column ats : linear_min (deadline_in due_at ats) (length ats) = minimum (omap due_at ats).
Proof.
  apply (is_earliest_unique (deadline_in due_at ats) (length ats)); [apply linear_min_spec|].
  pose proof (minimum_spec (omap due_at ats)) as Hm. unfold is_earliest.
  assert (Hin : ∀ i x, deadline_in due_at ats i = Some x → x ∈ omap due_at ats).
  { intros i x Hx. destruct (ats !! i) as [r|] eqn:Hi.
    - rewrite (deadline_at ats i r Hi) in Hx. apply list_elem_of_omap. exists r. split; [|done]. by eapply list_elem_of_lookup_2.
    - by rewrite deadline_past in Hx by (by apply lookup_ge_None). }
  destruct (minimum _) as [m|].
  - destruct Hm as [(r & Hr & Hat)%list_elem_of_omap Hall]. split.
    + apply list_elem_of_lookup in Hr as [i Hi]. exists i. split; [by eapply lookup_lt_Some|]. by rewrite (deadline_at ats i r Hi).
    + intros i x _ Hx. exact (proj1 (list.Forall_forall _ _) Hall x (Hin i x Hx)).
  - intros i _. destruct (deadline_in _ _ i) as [x|] eqn:Hx; [|done]. specialize (Hin i x Hx). rewrite Hm in Hin. by apply not_elem_of_nil in Hin.
Qed.

Lemma insert_column ix ats a :
  kept (deadline_in due_at ats) ix (length ats) →
  ∃ ix', DeadlineHeap.insert (deadline_in due_at (ats ++ [a])) ix (length ats) (due_at a) = Done ix'
    ∧ kept (deadline_in due_at (ats ++ [a])) ix' (length (ats ++ [a])).
Proof.
  intros Hk. destruct (insert_kept _ (deadline_in due_at (ats ++ [a])) ix (length ats) Hk) as (ix' & E & Hk').
  { intros r Hr. unfold deadline_in. by rewrite lookup_app_l by done. }
  rewrite (deadline_at _ _ a) in E by (by apply list_lookup_middle). exists ix'. split; [done|].
  by rewrite length_app, Nat.add_1_r.
Qed.

Lemma swap_remove_column ix ats i :
  kept (deadline_in due_at ats) ix (length ats) → i < length ats →
  ∃ ix', swap_remove (deadline_in due_at ats) ix i (length ats - 1) = Done ix'
    ∧ kept (deadline_in due_at (swap_removed ats i)) ix' (length (swap_removed ats i)).
Proof.
  intros Hk Hi. rewrite (length_swap_removed ats i Hi).
  destruct (swap_remove_kept (deadline_in due_at ats) (deadline_in due_at (swap_removed ats i)) ix (length ats - 1) i)
    as (ix' & E & Hk').
  - by replace (S (length ats - 1)) with (length ats) by lia.
  - lia.
  - intros r Hr. unfold deadline_in. by rewrite lookup_swap_removed by lia.
  - by exists ix'.
Qed.

Lemma earliest_column ix ats :
  kept (deadline_in due_at ats) ix (length ats) →
  ∃ ix', earliest_exact (deadline_in due_at ats) ix (length ats) = Done (minimum (omap due_at ats), ix')
    ∧ kept (deadline_in due_at ats) ix' (length ats).
Proof. intros Hk. destruct (earliest_kept _ _ _ Hk) as (ix' & E & Hk'). exists ix'. by rewrite <- linear_min_column. Qed.

Lemma first_due_column ix ats now :
  kept (deadline_in due_at ats) ix (length ats) →
  ∃ r ix', first_due (deadline_in due_at ats) ix (length ats) now = Done (r, ix') ∧ kept (deadline_in due_at ats) ix' (length ats)
    ∧ match r with
      | Some i => ∃ a at_, ats !! i = Some a ∧ due_at a = Some at_ ∧ (at_ ≤ now)%Z
      | None => ∀ a at_, a ∈ ats → due_at a = Some at_ → (now < at_)%Z
      end.
Proof.
  intros Hk. destruct (first_due_kept _ _ _ now Hk) as (r & ix' & E & Hr & Hk'). exists r, ix'. split; [done|]. split; [done|].
  destruct r as [i|]; cbn in Hr.
  - destruct Hr as (Hi & Hdue & _). destruct (lookup_lt_is_Some_2 ats i Hi) as [a Ha]. unfold is_due in Hdue.
    rewrite (deadline_at ats i a Ha) in Hdue. destruct (due_at a) as [at_|] eqn:Ea; [|done]. exists a, at_. split; [done|]. split; [done|].
    by apply Z.leb_le.
  - intros a at_ [i Hi]%list_elem_of_lookup Ea. specialize (Hr i (lookup_lt_Some _ _ _ Hi)). unfold is_due in Hr.
    rewrite (deadline_at ats i a Hi), Ea in Hr. destruct (Z.leb_spec at_ now); [|done]. by specialize (Hr eq_refl).
Qed.

Lemma kept_default : kept (deadline_in due_at []) default_index 0.
Proof.
  intros _. split; [done|]. exists []. split; [|split].
  - split; cbn; [done|done|done| |]; [intros p row Hp; by rewrite lookup_nil in Hp|intros row Hr; lia].
  - intros q c _ Hc. cbn in Hc. lia.
  - intros row Hr. lia.
Qed.
End column.
