(* ===== verification/ChannelTableFixed.v ===== *)
(** The fixed-array channel table:
    [prns-core/src/routing/links/channel/table/impls/fixed_array.rs].

    The source keeps one array per field, indexed by slot; here a slot is a record of those fields, so
    that a swap of all the arrays is a swap of two slots.  Within a slot, the reorder buffer and the
    ring of messages in flight are parallel arrays of [REORDER_CAP] cells with a count, and a payload is
    an array of [MAX_PAYLOAD] bytes with a length. *)

From S2P Require Import Prelude Columns Channel ChannelTable.

(** * Arrays of byte strings with lengths *)

Section byte_columns.
Context (cap max : nat).

(** The first [n] rows and lengths hold the strings [ps]. *)
Record byte_column (n : nat) (lens : list nat) (rows : list (list Z)) (ps : list (list Z)) : Prop := {
  bc_lens : column cap n lens (length <$> ps);
  bc_rows : length rows = cap;
  bc_widths : Forall (λ r, length r = max) rows;
  bc_bytes : ∀ i p, ps !! i = Some p → ∃ r, rows !! i = Some r ∧ take (length p) r = p;
}.

(** [&rows[i][..lens[i]]] *)
Definition read_row (lens : list nat) (rows : list (list Z)) (i : nat) : run (list Z) :=
  row ← index rows i; n ← index lens i; slice row 0 n.

(** [rows[i][..p.len()].copy_from_slice(p)] *)
Definition write_row (rows : list (list Z)) (i : nat) (p : list Z) : run (list (list Z)) :=
  row ← index rows i; row ← copy_into row 0 p; store rows i row.

Lemma byte_column_read n lens rows ps i p :
  byte_column n lens rows ps → ps !! i = Some p → read_row lens rows i = Done p.
Proof.
  intros [Hl Hr Hw Hb] Hi. destruct (Hb i p Hi) as (r & Hri & Ht). unfold read_row.
  rewrite (index_lookup _ _ _ Hri). cbn [mbind run_bind].
  rewrite (index_lookup lens i (length p)).
  2: { eapply column_lookup; [exact Hl|]. by rewrite list_lookup_fmap, Hi. }
  cbn [mbind run_bind]. unfold slice.
  assert (length p ≤ length r) by (rewrite <- Ht, length_take; lia).
  rewrite decide_True by lia. by rewrite Nat.sub_0_r, drop_0, Ht.
Qed.

Lemma byte_column_push n lens rows ps p :
  byte_column n lens rows ps → n < cap → length p ≤ max →
  ∃ lens' rows', store lens n (length p) = Done lens' ∧ write_row rows n p = Done rows'
    ∧ byte_column (S n) lens' rows' (ps ++ [p]).
Proof.
  intros [Hl Hr Hw Hb] Hn Hp. pose proof (column_length _ _ _ _ Hl) as Hps. rewrite length_fmap in Hps.
  destruct (column_push cap n lens _ (length p) Hl Hn) as (lens' & E & Hl').
  destruct (lookup_lt_is_Some_2 rows n) as [r Hri]; [lia|].
  assert (Hrl : length r = max) by (exact (Forall_lookup_1 _ _ _ _ Hw Hri)).
  unfold write_row. rewrite (index_lookup _ _ _ Hri). cbn [mbind run_bind].
  rewrite copy_into_done by (rewrite Hrl; exact Hp). rewrite take_0, app_nil_l. cbn [mbind run_bind]. change (0 + length p) with (length p).
  assert (Hrow : length (p ++ drop (length p) r) = max) by (rewrite length_app, length_drop; lia).
  rewrite (store_done rows) by lia. eexists _, _. split; [exact E|]. split; [done|]. split.
  - by rewrite fmap_app.
  - by rewrite length_insert.
  - by apply Forall_insert.
  - intros i q Hq. apply lookup_app_Some in Hq as [Hq|[Hge Hq]].
    + pose proof (lookup_lt_Some _ _ _ Hq). rewrite list_lookup_insert_ne by lia. by apply Hb.
    + apply list_lookup_singleton_Some in Hq as [Hi <-]. replace i with n by lia.
      rewrite list_lookup_insert_eq by lia. eexists. split; [done|]. by rewrite take_app_length.
Qed.

Lemma byte_column_swap last lens rows ps i :
  byte_column (S last) lens rows ps → i ≤ last →
  ∃ lens' rows', swap_at lens i last = Done lens' ∧ swap_at rows i last = Done rows'
    ∧ byte_column last lens' rows' (swap_removed ps i).
Proof.
  intros [Hl Hr Hw Hb] Hi. pose proof (column_length _ _ _ _ Hl) as Hps. rewrite length_fmap in Hps.
  destruct (column_swap cap last lens _ i Hl Hi) as (lens' & E & Hl').
  destruct Hl as (_ & Hcap & _).
  destruct (lookup_lt_is_Some_2 rows i) as [x Hx]; [lia|].
  destruct (lookup_lt_is_Some_2 rows last) as [y Hy]; [lia|].
  eexists _, _. split; [exact E|]. split; [by apply swap_at_done|]. split.
  - by rewrite fmap_swap_removed.
  - by rewrite !length_insert.
  - apply Forall_insert; [apply Forall_insert; [done|]|].
    + exact (Forall_lookup_1 _ _ _ _ Hw Hy).
    + exact (Forall_lookup_1 _ _ _ _ Hw Hx).
  - intros j p Hj. pose proof (lookup_lt_Some _ _ _ Hj) as Hjl. rewrite length_swap_removed in Hjl by lia.
    rewrite lookup_swap_removed in Hj by lia. rewrite list_lookup_insert_ne by lia. case_decide as Eji.
    + subst j. rewrite list_lookup_insert_eq by lia. replace (length ps - 1) with last in Hj by lia.
      destruct (Hb _ _ Hj) as (r & Hr' & Ht). exists r. split; [congruence|done].
    + rewrite list_lookup_insert_ne by done. by apply Hb.
Qed.

Lemma byte_column_new row :
  length row = max → byte_column 0 (replicate cap 0) (replicate cap row) [].
Proof.
  intros Hrow. split; [apply column_new|apply length_replicate|by apply list.Forall_replicate|].
  intros i p Hi. by rewrite lookup_nil in Hi.
Qed.
End byte_columns.

(** * The table *)

Section fixed_channels.
Context {SLOTS REORDER_CAP MAX_PAYLOAD : nat}.

(** [buffered_count], [sequences], [message_types], [payload_lens], [payloads] of one slot. *)
Record ReorderBuffer := mkBuffer {
  rb_count : nat;
  rb_sequences : list Z;
  rb_message_types : list Z;
  rb_payload_lens : list nat;
  rb_payloads : list (list Z);
}.

(** The [outstanding_*] arrays of one slot. *)
Record OutstandingRing := mkRing {
  or_count : nat;
  or_packet_hashes : list (list Z);
  or_command_ids : list Z;
  or_sent_ats : list Z;
  or_timeout_ats : list Z;
  or_tries : list Z;
  or_sequences : list Z;
  or_message_types : list Z;
  or_body_lens : list nat;
  or_bodies : list (list Z);
  or_ivs : list (list Z);
}.

Record Slot := mkSlot {
  s_link_id : LinkId;
  s_next_expected : Z;
  s_buffer : ReorderBuffer;
  s_next_tx_sequence : Z;
  s_window : ChannelWindow;
  s_ring : OutstandingRing;
  s_earliest : option Z;
}.

Record FixedArrayChannelTable := mkChannels { ft_len : nat; ft_slots : list Slot }.

Definition vacant_slot : Slot :=
  mkSlot (replicate 16 0%Z) 0
    (mkBuffer 0 (replicate REORDER_CAP 0%Z) (replicate REORDER_CAP 0%Z) (replicate REORDER_CAP 0)
       (replicate REORDER_CAP (replicate MAX_PAYLOAD 0%Z)))
    0 default_window
    (mkRing 0 (replicate REORDER_CAP (replicate 32 0%Z)) (replicate REORDER_CAP 0%Z)
       (replicate REORDER_CAP 0%Z) (replicate REORDER_CAP 0%Z) (replicate REORDER_CAP 0%Z)
       (replicate REORDER_CAP 0%Z) (replicate REORDER_CAP 0%Z) (replicate REORDER_CAP 0)
       (replicate REORDER_CAP (replicate MAX_PAYLOAD 0%Z)) (replicate REORDER_CAP (replicate 16 0%Z)))
    None.
Definition channels_default : FixedArrayChannelTable := mkChannels 0 (replicate SLOTS vacant_slot).

(** ** The buffer *)

Definition buffer_push (b : ReorderBuffer) (sequence message_type : Z) (payload : list Z) :
    run (BufferOutcome * ReorderBuffer) :=
  let count := rb_count b in
  if (REORDER_CAP <=? count)%nat || (MAX_PAYLOAD <? length payload)%nat
  then Done (BufferOutcomeFull, b) else
  seqs ← store (rb_sequences b) count sequence;
  types ← store (rb_message_types b) count message_type;
  lens ← store (rb_payload_lens b) count (length payload);
  rows ← write_row (rb_payloads b) count payload;
  Done (Stored, mkBuffer (count + 1) seqs types lens rows).

(** [count - 1], which panics or wraps to an index out of range when there is none. *)
Definition last_of (count : nat) : run nat := match count with O => Panic | S last => Done last end.

Definition buffer_swap_remove (b : ReorderBuffer) (sub : nat) : run ReorderBuffer :=
  last ← last_of (rb_count b);
  seqs ← swap_at (rb_sequences b) sub last;
  types ← swap_at (rb_message_types b) sub last;
  lens ← swap_at (rb_payload_lens b) sub last;
  rows ← swap_at (rb_payloads b) sub last;
  Done (mkBuffer last seqs types lens rows).

(** ** The ring *)

Definition ring_push (r : OutstandingRing) (send : OutstandingSend) : run (TxOutcome * OutstandingRing) :=
  let count := or_count r in
  if (REORDER_CAP <=? count)%nat || (MAX_PAYLOAD <? length (os_body send))%nat
  then Done (TxFull, r) else
  hashes ← store (or_packet_hashes r) count (os_packet_hash send);
  ids ← store (or_command_ids r) count (os_command_id send);
  sents ← store (or_sent_ats r) count (os_sent_at send);
  timeouts ← store (or_timeout_ats r) count (os_timeout_at send);
  tries ← store (or_tries r) count 0%Z;
  seqs ← store (or_sequences r) count (os_sequence send);
  types ← store (or_message_types r) count (os_message_type send);
  lens ← store (or_body_lens r) count (length (os_body send));
  bodies ← write_row (or_bodies r) count (os_body send);
  ivs ← store (or_ivs r) count (os_iv send);
  Done (Tracked, mkRing (count + 1) hashes ids sents timeouts tries seqs types lens bodies ivs).

(** The swaps of [retire_outstanding]. *)
Definition ring_swap_remove (r : OutstandingRing) (sub : nat) : run OutstandingRing :=
  last ← last_of (or_count r);
  hashes ← swap_at (or_packet_hashes r) sub last;
  ids ← swap_at (or_command_ids r) sub last;
  sents ← swap_at (or_sent_ats r) sub last;
  timeouts ← swap_at (or_timeout_ats r) sub last;
  tries ← swap_at (or_tries r) sub last;
  seqs ← swap_at (or_sequences r) sub last;
  types ← swap_at (or_message_types r) sub last;
  lens ← swap_at (or_body_lens r) sub last;
  bodies ← swap_at (or_bodies r) sub last;
  ivs ← swap_at (or_ivs r) sub last;
  Done (mkRing last hashes ids sents timeouts tries seqs types lens bodies ivs).

Definition ring_set_timeout (r : OutstandingRing) (sub : nat) (at_ : Z) : run OutstandingRing :=
  timeouts ← store (or_timeout_ats r) sub at_;
  Done (mkRing (or_count r) (or_packet_hashes r) (or_command_ids r) (or_sent_ats r) timeouts (or_tries r)
          (or_sequences r) (or_message_types r) (or_body_lens r) (or_bodies r) (or_ivs r)).
Definition ring_set_tries (r : OutstandingRing) (sub : nat) (n : Z) : run OutstandingRing :=
  tries ← store (or_tries r) sub n;
  Done (mkRing (or_count r) (or_packet_hashes r) (or_command_ids r) (or_sent_ats r) (or_timeout_ats r) tries
          (or_sequences r) (or_message_types r) (or_body_lens r) (or_bodies r) (or_ivs r)).

(** [rescan_channel_earliest_tx_timeout]: the deadlines of the live entries. *)
Fixpoint timeouts_from (r : OutstandingRing) (todo sub : nat) : run (list Z) :=
  match todo with
  | O => Done []
  | S todo =>
      at_ ← index (or_timeout_ats r) sub;
      rest ← timeouts_from r todo (S sub);
      Done (at_ :: rest)
  end.
Definition rescan (r : OutstandingRing) : run (option Z) :=
  all ← timeouts_from r (or_count r) 0; Done (minimum all).

(** ** Slots *)

Definition with_slot (t : FixedArrayChannelTable) (i : nat) (f : Slot → run Slot) : run FixedArrayChannelTable :=
  s ← index (ft_slots t) i;
  s ← f s;
  slots ← store (ft_slots t) i s;
  Done (mkChannels (ft_len t) slots).
Definition read_slot {A} (t : FixedArrayChannelTable) (i : nat) (f : Slot → run A) : run A :=
  s ← index (ft_slots t) i; f s.

Definition set_ring (s : Slot) (r : OutstandingRing) (earliest : option Z) : Slot :=
  mkSlot (s_link_id s) (s_next_expected s) (s_buffer s) (s_next_tx_sequence s) (s_window s) r earliest.
Definition set_buffer (s : Slot) (b : ReorderBuffer) : Slot :=
  mkSlot (s_link_id s) (s_next_expected s) b (s_next_tx_sequence s) (s_window s) (s_ring s) (s_earliest s).

Definition channel_index_of (t : FixedArrayChannelTable) (link : LinkId) : run (option nat) :=
  live ← slice (ft_slots t) 0 (ft_len t);
  Done (fst <$> list_find (λ s, s_link_id s = link) live).

Definition channel_ensure (t : FixedArrayChannelTable) (link : LinkId) :
    run (result EnsureChannelError nat * FixedArrayChannelTable) :=
  known ← channel_index_of t link;
  match known with
  | Some i => Done (Ok i, t)
  | None =>
      if (SLOTS <=? ft_len t)%nat then Done (Err ChannelTableFull, t) else
      let i := ft_len t in
      s ← index (ft_slots t) i;
      let b := s_buffer s in let r := s_ring s in
      let s := mkSlot link 0
                 (mkBuffer 0 (rb_sequences b) (rb_message_types b) (rb_payload_lens b) (rb_payloads b))
                 0 default_window
                 (mkRing 0 (or_packet_hashes r) (or_command_ids r) (or_sent_ats r) (or_timeout_ats r)
                    (or_tries r) (or_sequences r) (or_message_types r) (or_body_lens r) (or_bodies r) (or_ivs r))
                 None in
      slots ← store (ft_slots t) i s;
      Done (Ok i, mkChannels (ft_len t + 1) slots)
  end.

Definition channel_close (t : FixedArrayChannelTable) (link : LinkId) : run FixedArrayChannelTable :=
  known ← channel_index_of t link;
  match known with
  | None => Done t
  | Some i =>
      last ← last_of (ft_len t);
      slots ← swap_at (ft_slots t) i last;
      Done (mkChannels last slots)
  end.

Definition channel_push_buffered (t : FixedArrayChannelTable) (i : nat) (sequence message_type : Z)
    (payload : list Z) : run (BufferOutcome * FixedArrayChannelTable) :=
  s ← index (ft_slots t) i;
  '(o, b) ← buffer_push (s_buffer s) sequence message_type payload;
  slots ← store (ft_slots t) i (set_buffer s b);
  Done (o, mkChannels (ft_len t) slots).

Definition channel_set_outstanding_timeout_at (t : FixedArrayChannelTable) (i sub : nat) (at_ : Z) :
    run FixedArrayChannelTable :=
  with_slot t i (λ s,
    previous ← index (or_timeout_ats (s_ring s)) sub;
    r ← ring_set_timeout (s_ring s) sub at_;
    e ← absorb (s_earliest s) (rescan r) (Rewritten previous at_);
    Done (set_ring s r e)).

Definition channel_push_outstanding (t : FixedArrayChannelTable) (i : nat) (send : OutstandingSend) :
    run (TxOutcome * FixedArrayChannelTable) :=
  s ← index (ft_slots t) i;
  '(o, r) ← ring_push (s_ring s) send;
  match o with
  | TxFull => Done (TxFull, t)
  | Tracked =>
      e ← absorb (s_earliest s) (rescan r) (PushedAt (os_timeout_at send));
      slots ← store (ft_slots t) i (set_ring s r e);
      Done (Tracked, mkChannels (ft_len t) slots)
  end.

Definition channel_retire_outstanding (t : FixedArrayChannelTable) (i sub : nat) : run FixedArrayChannelTable :=
  with_slot t i (λ s,
    retired ← index (or_timeout_ats (s_ring s)) sub;
    r ← ring_swap_remove (s_ring s) sub;
    e ← absorb (s_earliest s) (rescan r) (Retired retired);
    Done (set_ring s r e)).

#[global] Instance fixed_channels : ChannelTable FixedArrayChannelTable := {|
  ct_len := ft_len;
  ct_index_of := channel_index_of;
  ct_link_at := λ t i, read_slot t i (λ s, Done (s_link_id s));
  ct_ensure := channel_ensure;
  ct_close := channel_close;
  ct_next_expected := λ t i, read_slot t i (λ s, Done (s_next_expected s));
  ct_set_next_expected := λ t i x, with_slot t i (λ s,
    Done (mkSlot (s_link_id s) x (s_buffer s) (s_next_tx_sequence s) (s_window s) (s_ring s) (s_earliest s)));
  ct_buffered_sequences := λ t i, read_slot t i (λ s, slice (rb_sequences (s_buffer s)) 0 (rb_count (s_buffer s)));
  ct_buffered_message_type := λ t i sub, read_slot t i (λ s, index (rb_message_types (s_buffer s)) sub);
  ct_buffered_payload := λ t i sub, read_slot t i (λ s,
    read_row (rb_payload_lens (s_buffer s)) (rb_payloads (s_buffer s)) sub);
  ct_push_buffered := channel_push_buffered;
  ct_swap_remove_buffered := λ t i sub, with_slot t i (λ s,
    b ← buffer_swap_remove (s_buffer s) sub; Done (set_buffer s b));
  ct_next_tx_sequence := λ t i, read_slot t i (λ s, Done (s_next_tx_sequence s));
  ct_set_next_tx_sequence := λ t i x, with_slot t i (λ s,
    Done (mkSlot (s_link_id s) (s_next_expected s) (s_buffer s) x (s_window s) (s_ring s) (s_earliest s)));
  ct_window := λ t i, read_slot t i (λ s, Done (s_window s));
  ct_set_window := λ t i w, with_slot t i (λ s,
    Done (mkSlot (s_link_id s) (s_next_expected s) (s_buffer s) (s_next_tx_sequence s) w (s_ring s) (s_earliest s)));
  ct_outstanding_count := λ t i, read_slot t i (λ s, Done (or_count (s_ring s)));
  ct_outstanding_packet_hashes := λ t i, read_slot t i (λ s,
    slice (or_packet_hashes (s_ring s)) 0 (or_count (s_ring s)));
  ct_outstanding_command_id := λ t i sub, read_slot t i (λ s, index (or_command_ids (s_ring s)) sub);
  ct_outstanding_sent_at := λ t i sub, read_slot t i (λ s, index (or_sent_ats (s_ring s)) sub);
  ct_outstanding_timeout_at := λ t i sub, read_slot t i (λ s, index (or_timeout_ats (s_ring s)) sub);
  ct_set_outstanding_timeout_at := channel_set_outstanding_timeout_at;
  ct_outstanding_tries := λ t i sub, read_slot t i (λ s, index (or_tries (s_ring s)) sub);
  ct_set_outstanding_tries := λ t i sub n, with_slot t i (λ s,
    r ← ring_set_tries (s_ring s) sub n; Done (set_ring s r (s_earliest s)));
  ct_outstanding_sequence := λ t i sub, read_slot t i (λ s, index (or_sequences (s_ring s)) sub);
  ct_outstanding_message_type := λ t i sub, read_slot t i (λ s, index (or_message_types (s_ring s)) sub);
  ct_outstanding_body := λ t i sub, read_slot t i (λ s,
    read_row (or_body_lens (s_ring s)) (or_bodies (s_ring s)) sub);
  ct_outstanding_iv := λ t i sub, read_slot t i (λ s, index (or_ivs (s_ring s)) sub);
  ct_push_outstanding := channel_push_outstanding;
  ct_retire_outstanding := channel_retire_outstanding;
  ct_channel_earliest_tx_timeout := λ t i, read_slot t i (λ s, Done (s_earliest s));
|}.
(** * What the arrays hold *)

Record buffer_rep (b : ReorderBuffer) (held : list Buffered) : Prop := {
  br_sequences : column REORDER_CAP (rb_count b) (rb_sequences b) (b_sequence <$> held);
  br_types : column REORDER_CAP (rb_count b) (rb_message_types b) (b_message_type <$> held);
  br_payloads : byte_column REORDER_CAP MAX_PAYLOAD (rb_count b) (rb_payload_lens b) (rb_payloads b)
                  (b_payload <$> held);
}.

Record ring_rep (r : OutstandingRing) (held : list Outstanding) : Prop := {
  rr_hashes : column REORDER_CAP (or_count r) (or_packet_hashes r) ((os_packet_hash ∘ o_send) <$> held);
  rr_ids : column REORDER_CAP (or_count r) (or_command_ids r) ((os_command_id ∘ o_send) <$> held);
  rr_sents : column REORDER_CAP (or_count r) (or_sent_ats r) ((os_sent_at ∘ o_send) <$> held);
  rr_timeouts : column REORDER_CAP (or_count r) (or_timeout_ats r) (o_timeout <$> held);
  rr_tries : column REORDER_CAP (or_count r) (or_tries r) (o_tries <$> held);
  rr_sequences : column REORDER_CAP (or_count r) (or_sequences r) ((os_sequence ∘ o_send) <$> held);
  rr_types : column REORDER_CAP (or_count r) (or_message_types r) ((os_message_type ∘ o_send) <$> held);
  rr_bodies : byte_column REORDER_CAP MAX_PAYLOAD (or_count r) (or_body_lens r) (or_bodies r)
                ((os_body ∘ o_send) <$> held);
  rr_ivs : column REORDER_CAP (or_count r) (or_ivs r) ((os_iv ∘ o_send) <$> held);
}.

Record slot_rep (s : Slot) (c : Channel) : Prop := {
  sr_link : s_link_id s = ch_link c;
  sr_next_expected : s_next_expected s = ch_next_expected c;
  sr_buffer : buffer_rep (s_buffer s) (ch_buffered c);
  sr_next_tx : s_next_tx_sequence s = ch_next_tx c;
  sr_window : s_window s = ch_window c;
  sr_ring : ring_rep (s_ring s) (ch_outstanding c);
  sr_earliest : s_earliest s = earliest_of c;
}.

(** Every slot holds a channel; the first [ft_len t] of them are the table's. *)
Record fixed_rep (t : FixedArrayChannelTable) (chans : list Channel) : Prop := {
  fr_links : NoDup (ch_link <$> chans);
  fr_slots : ∃ all, Forall2 slot_rep (ft_slots t) all ∧ column SLOTS (ft_len t) all chans;
}.

Lemma buffer_length b held : buffer_rep b held → length held = rb_count b.
Proof. intros [Hs _ _]. apply column_length in Hs. by rewrite length_fmap in Hs. Qed.
Lemma ring_length r held : ring_rep r held → length held = or_count r.
Proof. intros Hr. pose proof (column_length _ _ _ _ (rr_tries _ _ Hr)) as Hl. by rewrite length_fmap in Hl. Qed.

Lemma buffer_push_ok b held seq mt p :
  buffer_rep b held → length held < REORDER_CAP → length p ≤ MAX_PAYLOAD →
  ∃ b', buffer_push b seq mt p = Done (Stored, b') ∧ buffer_rep b' (held ++ [mkBuffered seq mt p]).
Proof.
  intros Hb Hn Hp. pose proof (buffer_length _ _ Hb) as Hl. rewrite Hl in Hn. destruct Hb as [Hs Ht Hpay].
  unfold buffer_push. rewrite (proj2 (Nat.leb_gt _ _)), (proj2 (Nat.ltb_ge _ _)) by lia. cbn [orb].
  step_column (column_push _ _ _ _ seq Hs Hn). step_column (column_push _ _ _ _ mt Ht Hn).
  destruct (byte_column_push _ _ _ _ _ _ p Hpay Hn Hp) as (lens & rows & -> & Er & Hpay').
  cbn [mbind run_bind]. rewrite Er. cbn [mbind run_bind]. eexists. split; [done|].
  rewrite Nat.add_1_r. by split; cbn; rewrite fmap_app.
Qed.

Lemma buffer_swap_remove_ok b held sub :
  buffer_rep b held → sub < length held →
  ∃ b', buffer_swap_remove b sub = Done b' ∧ buffer_rep b' (swap_removed held sub).
Proof.
  intros Hb Hn. pose proof (buffer_length _ _ Hb) as Hl. destruct Hb as [Hs Ht Hp].
  unfold buffer_swap_remove. destruct (rb_count b) as [|last]; [lia|]. cbn [last_of mbind run_bind].
  assert (Hi : sub ≤ last) by lia. step_column (column_swap _ _ _ _ _ Hs Hi).
  step_column (column_swap _ _ _ _ _ Ht Hi).
  destruct (byte_column_swap _ _ _ _ _ _ _ Hp Hi) as (lens & rows & -> & Er & Hp').
  cbn [mbind run_bind]. rewrite Er. cbn [mbind run_bind]. eexists. split; [done|].
  by split; cbn; rewrite fmap_swap_removed.
Qed.

Lemma ring_push_ok r held send :
  ring_rep r held → length held < REORDER_CAP → length (os_body send) ≤ MAX_PAYLOAD →
  ∃ r', ring_push r send = Done (Tracked, r') ∧ ring_rep r' (held ++ [mkOutstanding send 0]).
Proof.
  intros Hr Hn Hp. pose proof (ring_length _ _ Hr) as Hl. rewrite Hl in Hn.
  destruct Hr as [Hhash Hid Hsent Htime Htry Hseq Htype Hbody Hiv].
  unfold ring_push. rewrite (proj2 (Nat.leb_gt _ _)), (proj2 (Nat.ltb_ge _ _)) by lia. cbn [orb].
  step_column (column_push _ _ _ _ (os_packet_hash send) Hhash Hn).
  step_column (column_push _ _ _ _ (os_command_id send) Hid Hn).
  step_column (column_push _ _ _ _ (os_sent_at send) Hsent Hn).
  step_column (column_push _ _ _ _ (os_timeout_at send) Htime Hn).
  step_column (column_push _ _ _ _ 0%Z Htry Hn).
  step_column (column_push _ _ _ _ (os_sequence send) Hseq Hn).
  step_column (column_push _ _ _ _ (os_message_type send) Htype Hn).
  destruct (byte_column_push _ _ _ _ _ _ (os_body send) Hbody Hn Hp) as (lens & rows & -> & Er & Hbody').
  cbn [mbind run_bind]. rewrite Er. cbn [mbind run_bind].
  step_column (column_push _ _ _ _ (os_iv send) Hiv Hn).
  eexists. split; [done|]. rewrite Nat.add_1_r. by split; cbn; rewrite fmap_app.
Qed.

Lemma ring_swap_remove_ok r held sub :
  ring_rep r held → sub < length held →
  ∃ r', ring_swap_remove r sub = Done r' ∧ ring_rep r' (swap_removed held sub).
Proof.
  intros Hr Hn. pose proof (ring_length _ _ Hr) as Hl.
  destruct Hr as [Hhash Hid Hsent Htime Htry Hseq Htype Hbody Hiv].
  unfold ring_swap_remove. destruct (or_count r) as [|last]; [lia|]. cbn [last_of mbind run_bind].
  assert (Hi : sub ≤ last) by lia.
  step_column (column_swap _ _ _ _ _ Hhash Hi). step_column (column_swap _ _ _ _ _ Hid Hi).
  step_column (column_swap _ _ _ _ _ Hsent Hi). step_column (column_swap _ _ _ _ _ Htime Hi).
  step_column (column_swap _ _ _ _ _ Htry Hi). step_column (column_swap _ _ _ _ _ Hseq Hi).
  step_column (column_swap _ _ _ _ _ Htype Hi).
  destruct (byte_column_swap _ _ _ _ _ _ _ Hbody Hi) as (lens & rows & -> & Er & Hbody').
  cbn [mbind run_bind]. rewrite Er. cbn [mbind run_bind]. step_column (column_swap _ _ _ _ _ Hiv Hi).
  eexists. split; [done|]. by split; cbn; rewrite fmap_swap_removed.
Qed.

Lemma ring_set_timeout_ok r held sub o at_ :
  ring_rep r held → held !! sub = Some o →
  ∃ r', ring_set_timeout r sub at_ = Done r' ∧ ring_rep r' (<[sub := with_timeout at_ o]> held).
Proof.
  intros Hr Hi. pose proof (ring_length _ _ Hr) as Hl. pose proof (lookup_lt_Some _ _ _ Hi) as Hlt.
  rewrite Hl in Hlt. destruct Hr as [Hhash Hid Hsent Htime Htry Hseq Htype Hbody Hiv].
  unfold ring_set_timeout. step_column (column_store _ _ _ _ _ at_ Htime Hlt). eexists. split; [done|].
  split; cbn; rewrite list_fmap_insert; try done; rewrite list_insert_id; try done;
    by rewrite list_lookup_fmap, Hi.
Qed.

Lemma ring_set_tries_ok r held sub o n :
  ring_rep r held → held !! sub = Some o →
  ∃ r', ring_set_tries r sub n = Done r' ∧ ring_rep r' (<[sub := with_tries n o]> held).
Proof.
  intros Hr Hi. pose proof (ring_length _ _ Hr) as Hl. pose proof (lookup_lt_Some _ _ _ Hi) as Hlt.
  rewrite Hl in Hlt. destruct Hr as [Hhash Hid Hsent Htime Htry Hseq Htype Hbody Hiv].
  unfold ring_set_tries. step_column (column_store _ _ _ _ _ n Htry Hlt). eexists. split; [done|].
  split; cbn; rewrite list_fmap_insert; try done; rewrite list_insert_id; try done;
    by rewrite list_lookup_fmap, Hi.
Qed.

Lemma timeouts_from_ok r live n i :
  column REORDER_CAP (or_count r) (or_timeout_ats r) live → i + n = length live →
  timeouts_from r n i = Done (drop i live).
Proof.
  intros Hc. revert i. induction n as [|n IH]; intros i Hi; cbn [timeouts_from].
  - by rewrite drop_ge by lia.
  - destruct (lookup_lt_is_Some_2 live i) as [x Hx]; [lia|].
    rewrite (index_lookup _ i x) by (by eapply column_lookup). cbn [mbind run_bind].
    rewrite IH by lia. cbn [mbind run_bind]. by rewrite (drop_S live x i).
Qed.

Lemma rescan_ok r held : ring_rep r held → rescan r = Done (minimum (o_timeout <$> held)).
Proof.
  intros Hr. pose proof (rr_timeouts _ _ Hr) as Ht. unfold rescan.
  rewrite (timeouts_from_ok _ _ _ _ Ht) by (by rewrite (column_length _ _ _ _ Ht)). by rewrite drop_0.
Qed.
(** ** Slots *)

Lemma fixed_slot t chans i c :
  fixed_rep t chans → chans !! i = Some c → ∃ s, ft_slots t !! i = Some s ∧ slot_rep s c.
Proof.
  intros [_ (all & Hall & Hc)] Hi. pose proof (column_lookup _ _ _ _ _ _ Hc Hi) as Ha.
  destruct (Forall2_lookup_r _ _ _ _ _ Hall Ha) as (s & ? & ?). by exists s.
Qed.

Lemma fixed_insert t chans i c s' c' :
  fixed_rep t chans → chans !! i = Some c → slot_rep s' c' → ch_link c' = ch_link c →
  ∃ slots, store (ft_slots t) i s' = Done slots ∧ fixed_rep (mkChannels (ft_len t) slots) (<[i := c']> chans).
Proof.
  intros [Hnd (all & Hall & Hc)] Hi Hs Hlink. pose proof (lookup_lt_Some _ _ _ Hi) as Hlt.
  rewrite (column_length _ _ _ _ Hc) in Hlt. pose proof (Forall2_length Hall) as Hlen.
  destruct Hc as (Hl & Hn & Ht). rewrite store_done by lia. eexists. split; [done|]. split; cbn.
  - rewrite list_fmap_insert, list_insert_id; [done|]. by rewrite list_lookup_fmap, Hi, Hlink.
  - exists (<[i := c']> all). split; [by apply Forall2_insert|]. split; [by rewrite length_insert|].
    split; [done|]. by rewrite take_insert_lt, Ht.
Qed.

Lemma read_slot_ok {A} t chans i c (f : Slot → run A) a :
  fixed_rep t chans → chans !! i = Some c → (∀ s, slot_rep s c → f s = Done a) → read_slot t i f = Done a.
Proof.
  intros Ht Hi Hf. destruct (fixed_slot t chans i c Ht Hi) as (s & Hs & Hr). unfold read_slot.
  rewrite (index_lookup _ _ _ Hs). by apply Hf.
Qed.

Lemma with_slot_ok t chans i c c' f :
  fixed_rep t chans → chans !! i = Some c → ch_link c' = ch_link c →
  (∀ s, slot_rep s c → ∃ s', f s = Done s' ∧ slot_rep s' c') →
  ∃ t', with_slot t i f = Done t' ∧ fixed_rep t' (<[i := c']> chans).
Proof.
  intros Ht Hi Hlink Hf. destruct (fixed_slot t chans i c Ht Hi) as (s & Hs & Hr).
  destruct (Hf s Hr) as (s' & Es & Hr'). unfold with_slot. rewrite (index_lookup _ _ _ Hs).
  cbn [mbind run_bind]. rewrite Es. cbn [mbind run_bind].
  destruct (fixed_insert t chans i c s' c' Ht Hi Hr' Hlink) as (slots & -> & Hrep). cbn [mbind run_bind].
  by eexists.
Qed.

(** ** Finding, opening and closing a channel *)

Lemma live_slots t chans :
  fixed_rep t chans → ∃ live, slice (ft_slots t) 0 (ft_len t) = Done live ∧ Forall2 slot_rep live chans.
Proof.
  intros [_ (all & Hall & (Hl & Hn & <-))]. pose proof (Forall2_length Hall) as Hlen. unfold slice.
  rewrite decide_True by lia. rewrite Nat.sub_0_r, drop_0. eexists. split; [done|]. by apply Forall2_take.
Qed.

Lemma channel_index_of_ok t chans link :
  fixed_rep t chans →
  (∃ i c, channel_index_of t link = Done (Some i) ∧ chans !! i = Some c ∧ ch_link c = link)
  ∨ (channel_index_of t link = Done None ∧ link ∉ ch_link <$> chans).
Proof.
  intros Ht. destruct (live_slots t chans Ht) as (live & El & Hlive). unfold channel_index_of. rewrite El.
  cbn [mbind run_bind]. destruct (list_find _ live) as [[i s]|] eqn:E; cbn.
  - left. apply list_find_Some in E as (Hs & Hlink & _).
    destruct (Forall2_lookup_l _ _ _ _ _ Hlive Hs) as (c & Hc & Hr). exists i, c. split; [done|].
    split; [done|]. by rewrite <- (sr_link _ _ Hr).
  - right. split; [done|]. apply list_find_None in E. intros (c & -> & Hc)%list_elem_of_fmap.
    apply list_elem_of_lookup in Hc as [i Hi]. destruct (Forall2_lookup_r _ _ _ _ _ Hlive Hi) as (s & Hs & Hr).
    apply (Forall_lookup_1 _ _ _ _ E Hs). by rewrite (sr_link _ _ Hr).
Qed.

Lemma channel_index_of_known t chans i c :
  fixed_rep t chans → chans !! i = Some c → channel_index_of t (ch_link c) = Done (Some i).
Proof.
  intros Ht Hi. destruct (channel_index_of_ok t chans (ch_link c) Ht) as [(j & c' & E & Hj & Hl)|[_ []]].
  - rewrite E. do 2 f_equal. eapply NoDup_lookup; [exact (fr_links _ _ Ht)| |]; by rewrite list_lookup_fmap, ?Hi, ?Hj; cbn; f_equal.
  - apply list_elem_of_fmap. exists c. split; [done|]. by eapply list_elem_of_lookup_2.
Qed.

Lemma channel_index_of_unknown t chans link :
  fixed_rep t chans → (link ∉ ch_link <$> chans) → channel_index_of t link = Done None.
Proof.
  intros Ht Hn. destruct (channel_index_of_ok t chans link Ht) as [(j & c' & E & Hj & <-)|[E _]]; [|done].
  destruct Hn. apply list_elem_of_fmap. exists c'. split; [done|]. by eapply list_elem_of_lookup_2.
Qed.

Lemma column_clear {A} n (col live : list A) cap : column cap n col live → column cap 0 col [].
Proof. intros (Hl & _ & _). split; [done|]. split; [lia|done]. Qed.
Lemma byte_column_clear cap max n lens rows ps :
  byte_column cap max n lens rows ps → byte_column cap max 0 lens rows [].
Proof.
  intros [Hl Hr Hw _]. split; [by eapply column_clear|done|done|]. intros i p Hi. by rewrite lookup_nil in Hi.
Qed.

Lemma channel_ensure_new t chans link :
  fixed_rep t chans → (link ∉ ch_link <$> chans) → length chans < SLOTS →
  ∃ t', channel_ensure t link = Done (Ok (length chans), t') ∧ fixed_rep t' (chans ++ [new_channel link]).
Proof.
  intros Ht Hn Hlt. unfold channel_ensure. rewrite (channel_index_of_unknown t chans link Ht Hn).
  cbn [mbind run_bind]. destruct Ht as [Hnd (all & Hall & Hc)]. pose proof (column_length _ _ _ _ Hc) as Hl.
  pose proof (Forall2_length Hall) as Hlen. destruct Hc as (Hsl & Hle & Ht).
  rewrite (proj2 (Nat.leb_gt _ _)) by lia. destruct (lookup_lt_is_Some_2 (ft_slots t) (ft_len t)) as [s Hs]; [lia|].
  destruct (Forall2_lookup_l _ _ _ _ _ Hall Hs) as (c & _ & [_ _ [] _ _ [] _]).
  rewrite (index_lookup _ _ _ Hs). cbn [mbind run_bind]. rewrite store_done by lia. cbn [mbind run_bind].
  rewrite Hl. eexists. split; [done|]. split; cbn.
  - rewrite fmap_app. by apply NoDup_snoc.
  - exists (<[ft_len t := new_channel link]> all). split.
    + apply Forall2_insert; [done|].
      split; cbn; try done; split; cbn; first [by eapply column_clear|by eapply byte_column_clear].
    + rewrite Nat.add_1_r. split; [by rewrite length_insert|]. split; [lia|].
      rewrite (take_S_r _ _ (new_channel link)) by (apply list_lookup_insert_eq; lia).
      by rewrite take_insert_ge, Ht by lia.
Qed.

Lemma channel_close_ok t chans i c :
  fixed_rep t chans → chans !! i = Some c →
  ∃ t', channel_close t (ch_link c) = Done t' ∧ fixed_rep t' (swap_removed chans i).
Proof.
  intros Ht Hi. unfold channel_close. rewrite (channel_index_of_known t chans i c Ht Hi). cbn [mbind run_bind].
  destruct Ht as [Hnd (all & Hall & Hc)]. pose proof (lookup_lt_Some _ _ _ Hi) as Hlt.
  rewrite (column_length _ _ _ _ Hc) in Hlt. destruct (ft_len t) as [|last]; [lia|].
  cbn [last_of mbind run_bind]. assert (Hle : i ≤ last) by lia.
  destruct (column_swap _ _ _ _ _ Hc Hle) as (all' & E & Hc'). destruct Hc as (Hsl & Hcap & _).
  destruct (lookup_lt_is_Some_2 all i) as [x Hx]; [lia|]. destruct (lookup_lt_is_Some_2 all last) as [y Hy]; [lia|].
  rewrite (swap_at_done _ _ _ _ _ Hx Hy) in E. injection E as <-.
  destruct (Forall2_lookup_r _ _ _ _ _ Hall Hx) as (sx & Hsx & Hrx).
  destruct (Forall2_lookup_r _ _ _ _ _ Hall Hy) as (sy & Hsy & Hry).
  rewrite (swap_at_done _ _ _ _ _ Hsx Hsy). cbn [mbind run_bind]. eexists. split; [done|]. split; cbn.
  - rewrite fmap_swap_removed. eapply submseteq_NoDup; [exact Hnd|].
    eapply swap_removed_sub. by rewrite list_lookup_fmap, Hi.
  - eexists. split; [|exact Hc']. by do 2 (apply Forall2_insert; [|done]).
Qed.
(** ** Messages *)

Lemma channel_push_buffered_ok t chans i c seq mt p :
  fixed_rep t chans → chans !! i = Some c → length (ch_buffered c) < REORDER_CAP → length p ≤ MAX_PAYLOAD →
  ∃ t', channel_push_buffered t i seq mt p = Done (Stored, t')
    ∧ fixed_rep t' (<[i := with_buffered (ch_buffered c ++ [mkBuffered seq mt p]) c]> chans).
Proof.
  intros Ht Hi Hn Hp. destruct (fixed_slot t chans i c Ht Hi) as (s & Hs & Hr).
  destruct (buffer_push_ok _ _ seq mt p (sr_buffer _ _ Hr) Hn Hp) as (b & Eb & Hb).
  unfold channel_push_buffered. rewrite (index_lookup _ _ _ Hs). cbn [mbind run_bind]. rewrite Eb. cbn [mbind run_bind].
  assert (Hr' : slot_rep (set_buffer s b) (with_buffered (ch_buffered c ++ [mkBuffered seq mt p]) c))
    by (destruct Hr; by split).
  destruct (fixed_insert t chans i c _ _ Ht Hi Hr' eq_refl) as (slots & -> & Hrep). by eexists.
Qed.

Lemma channel_push_buffered_full t chans i c seq mt p :
  fixed_rep t chans → chans !! i = Some c → ¬ (length (ch_buffered c) < REORDER_CAP ∧ length p ≤ MAX_PAYLOAD) →
  channel_push_buffered t i seq mt p = Done (BufferOutcomeFull, t).
Proof.
  intros Ht Hi Hn. destruct (fixed_slot t chans i c Ht Hi) as (s & Hs & Hr). unfold channel_push_buffered.
  rewrite (index_lookup _ _ _ Hs). cbn [mbind run_bind]. unfold buffer_push.
  rewrite <- (buffer_length _ _ (sr_buffer _ _ Hr)).
  replace (_ || _) with true by (destruct (Nat.leb_spec REORDER_CAP (length (ch_buffered c))), (Nat.ltb_spec MAX_PAYLOAD (length p)); cbn; lia).
  cbn [mbind run_bind]. rewrite store_done by (by eapply lookup_lt_Some). cbn [mbind run_bind].
  rewrite list_insert_id; [by destruct t|]. rewrite Hs. by destruct s.
Qed.

Lemma channel_set_timeout_ok t chans i c sub o at_ :
  fixed_rep t chans → chans !! i = Some c → ch_outstanding c !! sub = Some o →
  ∃ t', channel_set_outstanding_timeout_at t i sub at_ = Done t'
    ∧ fixed_rep t' (<[i := with_outstanding (<[sub := with_timeout at_ o]> (ch_outstanding c)) c]> chans).
Proof.
  intros Ht Hi Ho. unfold channel_set_outstanding_timeout_at. eapply with_slot_ok; [done|done|done|].
  intros s Hr. destruct (ring_set_timeout_ok _ _ sub o at_ (sr_ring _ _ Hr) Ho) as (r & Er & Hring).
  assert (Hto : (o_timeout <$> ch_outstanding c) !! sub = Some (o_timeout o)) by (by rewrite list_lookup_fmap, Ho).
  rewrite (index_lookup _ sub (o_timeout o)) by (eapply column_lookup; [exact (rr_timeouts _ _ (sr_ring _ _ Hr))|done]).
  cbn [mbind run_bind]. rewrite Er. cbn [mbind run_bind].
  rewrite (sr_earliest _ _ Hr), (rescan_ok _ _ Hring), list_fmap_insert. unfold earliest_of.
  rewrite (absorb_rewritten _ _ _ _ Hto). cbn [mbind run_bind]. eexists. split; [done|].
  destruct Hr. split; cbn; try done. unfold earliest_of. cbn. by rewrite list_fmap_insert.
Qed.

Lemma channel_push_outstanding_ok t chans i c send :
  fixed_rep t chans → chans !! i = Some c → length (ch_outstanding c) < REORDER_CAP →
  length (os_body send) ≤ MAX_PAYLOAD →
  ∃ t', channel_push_outstanding t i send = Done (Tracked, t')
    ∧ fixed_rep t' (<[i := with_outstanding (ch_outstanding c ++ [mkOutstanding send 0]) c]> chans).
Proof.
  intros Ht Hi Hn Hp. destruct (fixed_slot t chans i c Ht Hi) as (s & Hs & Hr).
  destruct (ring_push_ok _ _ send (sr_ring _ _ Hr) Hn Hp) as (r & Er & Hring).
  unfold channel_push_outstanding. rewrite (index_lookup _ _ _ Hs). cbn [mbind run_bind]. rewrite Er.
  cbn [mbind run_bind]. rewrite (sr_earliest _ _ Hr). unfold earliest_of. rewrite absorb_pushed. cbn [mbind run_bind].
  assert (Hr' : slot_rep (set_ring s r (minimum ((o_timeout <$> ch_outstanding c) ++ [os_timeout_at send])))
                  (with_outstanding (ch_outstanding c ++ [mkOutstanding send 0]) c)).
  { destruct Hr. split; cbn; try done. unfold earliest_of. cbn. by rewrite fmap_app. }
  destruct (fixed_insert t chans i c _ _ Ht Hi Hr' eq_refl) as (slots & -> & Hrep). by eexists.
Qed.

Lemma channel_push_outstanding_full t chans i c send :
  fixed_rep t chans → chans !! i = Some c →
  ¬ (length (ch_outstanding c) < REORDER_CAP ∧ length (os_body send) ≤ MAX_PAYLOAD) →
  channel_push_outstanding t i send = Done (TxFull, t).
Proof.
  intros Ht Hi Hn. destruct (fixed_slot t chans i c Ht Hi) as (s & Hs & Hr). unfold channel_push_outstanding.
  rewrite (index_lookup _ _ _ Hs). cbn [mbind run_bind]. unfold ring_push.
  rewrite <- (ring_length _ _ (sr_ring _ _ Hr)).
  replace (_ || _) with true; [done|].
  destruct (Nat.leb_spec REORDER_CAP (length (ch_outstanding c))), (Nat.ltb_spec MAX_PAYLOAD (length (os_body send))); cbn; lia.
Qed.

Lemma channel_retire_ok t chans i c sub :
  fixed_rep t chans → chans !! i = Some c → sub < length (ch_outstanding c) →
  ∃ t', channel_retire_outstanding t i sub = Done t'
    ∧ fixed_rep t' (<[i := with_outstanding (swap_removed (ch_outstanding c) sub) c]> chans).
Proof.
  intros Ht Hi Hsub. unfold channel_retire_outstanding. eapply with_slot_ok; [done|done|done|].
  intros s Hr. destruct (ring_swap_remove_ok _ _ sub (sr_ring _ _ Hr) Hsub) as (r & Er & Hring).
  destruct (lookup_lt_is_Some_2 (ch_outstanding c) sub Hsub) as [o Ho].
  assert (Hto : (o_timeout <$> ch_outstanding c) !! sub = Some (o_timeout o)) by (by rewrite list_lookup_fmap, Ho).
  rewrite (index_lookup _ sub (o_timeout o)) by (eapply column_lookup; [exact (rr_timeouts _ _ (sr_ring _ _ Hr))|done]).
  cbn [mbind run_bind]. rewrite Er. cbn [mbind run_bind].
  rewrite (sr_earliest _ _ Hr), (rescan_ok _ _ Hring), fmap_swap_removed. unfold earliest_of.
  rewrite (absorb_retired _ _ _ Hto). cbn [mbind run_bind]. eexists. split; [done|].
  destruct Hr. split; cbn; try done. unfold earliest_of. cbn. by rewrite fmap_swap_removed.
Qed.

(** ** The contract *)

(** A buffer or ring takes another message while it has a cell, and the message fits the cell. *)
Definition cell_free (n k : nat) : bool := (n <? REORDER_CAP)%nat && (k <=? MAX_PAYLOAD)%nat.

Lemma cell_free_spec n k :
  if cell_free n k then n < REORDER_CAP ∧ k ≤ MAX_PAYLOAD else ¬ (n < REORDER_CAP ∧ k ≤ MAX_PAYLOAD).
Proof.
  unfold cell_free. destruct (Nat.ltb_spec n REORDER_CAP), (Nat.leb_spec k MAX_PAYLOAD); cbn; lia.
Qed.

Definition fixed_ct_rep (t : FixedArrayChannelTable) (slots : Z) (room : nat → nat → bool) (chans : list Channel) : Prop :=
  fixed_rep t chans ∧ slots = Z.of_nat SLOTS ∧ room = cell_free.

Ltac of_slot := eapply read_slot_ok; [eassumption|eassumption|];
  let s := fresh "s" in let Hr := fresh "Hr" in intros s Hr; destruct Hr as [? ? Hb ? ? Hg ?].

Lemma fixed_reads t chans i c : fixed_rep t chans → chans !! i = Some c →
  ct_link_at t i = Done (ch_link c)
  ∧ ct_next_expected t i = Done (ch_next_expected c)
  ∧ ct_buffered_sequences t i = Done (b_sequence <$> ch_buffered c)
  ∧ ct_next_tx_sequence t i = Done (ch_next_tx c)
  ∧ ct_window t i = Done (ch_window c)
  ∧ ct_outstanding_count t i = Done (length (ch_outstanding c))
  ∧ ct_outstanding_packet_hashes t i = Done ((os_packet_hash ∘ o_send) <$> ch_outstanding c)
  ∧ ct_channel_earliest_tx_timeout t i = Done (earliest_of c).
Proof.
  intros Ht Hi. cbn. repeat split; of_slot; try by f_equal.
  - exact (column_slice _ _ _ _ (br_sequences _ _ Hb)).
  - by rewrite (ring_length _ _ Hg).
  - exact (column_slice _ _ _ _ (rr_hashes _ _ Hg)).
Qed.

Lemma fixed_buffered t chans i c sub b : fixed_rep t chans → chans !! i = Some c → ch_buffered c !! sub = Some b →
  ct_buffered_message_type t i sub = Done (b_message_type b) ∧ ct_buffered_payload t i sub = Done (b_payload b).
Proof.
  intros Ht Hi Hsub. cbn. split; of_slot.
  - apply index_lookup. eapply column_lookup; [exact (br_types _ _ Hb)|]. by rewrite list_lookup_fmap, Hsub.
  - eapply byte_column_read; [exact (br_payloads _ _ Hb)|]. by rewrite list_lookup_fmap, Hsub.
Qed.

Lemma fixed_outstanding t chans i c sub o : fixed_rep t chans → chans !! i = Some c →
  ch_outstanding c !! sub = Some o →
  ct_outstanding_command_id t i sub = Done (os_command_id (o_send o))
  ∧ ct_outstanding_sent_at t i sub = Done (os_sent_at (o_send o))
  ∧ ct_outstanding_timeout_at t i sub = Done (o_timeout o)
  ∧ ct_outstanding_tries t i sub = Done (o_tries o)
  ∧ ct_outstanding_sequence t i sub = Done (os_sequence (o_send o))
  ∧ ct_outstanding_message_type t i sub = Done (os_message_type (o_send o))
  ∧ ct_outstanding_body t i sub = Done (os_body (o_send o))
  ∧ ct_outstanding_iv t i sub = Done (os_iv (o_send o)).
Proof.
  intros Ht Hi Hsub. cbn.
  repeat split; of_slot; destruct Hg;
    first [eapply index_lookup, column_lookup; [eassumption|] | eapply byte_column_read; [eassumption|]];
    by rewrite list_lookup_fmap, Hsub.
Qed.

#[global] Instance fixed_channels_laws : ChannelTableLaws FixedArrayChannelTable.
Proof.
  refine {| ct_rep := fixed_ct_rep |};
    unfold fixed_ct_rep.
  - intros t slots room chans (Ht & -> & ->). destruct Ht as [_ (all & _ & Hc)].
    cbn. rewrite (column_length _ _ _ _ Hc). split; [done|]. destruct Hc as (_ & ? & _). lia.
  - intros t slots room chans (Ht & _). apply Ht.
  - intros t slots room chans link (Ht & _). by apply channel_index_of_ok.
  - intros t slots room chans link (Ht & -> & ->) Hn Hlt.
    destruct (channel_ensure_new t chans link Ht Hn) as (t' & E & Hrep); [lia|]. by exists t'.
  - intros t slots room chans i c (Ht & _) Hi. cbn. unfold channel_ensure.
    by rewrite (channel_index_of_known t chans i c Ht Hi).
  - intros t slots room chans link (Ht & -> & ->) Hn Hf. cbn. unfold channel_ensure.
    rewrite (channel_index_of_unknown t chans link Ht Hn). cbn [mbind run_bind].
    destruct Ht as [_ (all & _ & Hc)]. rewrite (column_length _ _ _ _ Hc) in Hf.
    by rewrite (proj2 (Nat.leb_le _ _)) by lia.
  - intros t slots room chans i c (Ht & -> & ->) Hi. destruct (channel_close_ok t chans i c Ht Hi) as (t' & E & ?).
    by exists t'.
  - intros t slots room chans link (Ht & _) Hn. cbn. unfold channel_close.
    by rewrite (channel_index_of_unknown t chans link Ht Hn).
  - intros t slots room chans i c (Ht & _). by apply fixed_reads.
  - intros t slots room chans i c sub b (Ht & _). by apply fixed_buffered.
  - intros t slots room chans i c sub o (Ht & _). by apply fixed_outstanding.
  - intros t slots room chans i c x (Ht & -> & ->) Hi.
    destruct (with_slot_ok t chans i c (with_next_expected x c) (λ s,
      Done (mkSlot (s_link_id s) x (s_buffer s) (s_next_tx_sequence s) (s_window s) (s_ring s) (s_earliest s))) Ht Hi eq_refl)
      as (t' & E & ?); [|by exists t'].
    intros s []. eexists. split; [done|]. by split.
  - intros t slots room chans i c x mt p (Ht & -> & ->) Hi.
    pose proof (cell_free_spec (length (ch_buffered c)) (length p)) as Hroom. destruct (cell_free _ _).
    + destruct (channel_push_buffered_ok t chans i c x mt p Ht Hi) as (t' & E & ?); [apply Hroom..|]. by exists t'.
    + by eapply channel_push_buffered_full.
  - intros t slots room chans i c sub (Ht & -> & ->) Hi Hsub.
    destruct (with_slot_ok t chans i c (with_buffered (swap_removed (ch_buffered c) sub) c) (λ s,
      b ← buffer_swap_remove (s_buffer s) sub; Done (set_buffer s b)) Ht Hi eq_refl) as (t' & E & ?); [|by exists t'].
    intros s Hr. destruct (buffer_swap_remove_ok _ _ sub (sr_buffer _ _ Hr) Hsub) as (b & -> & ?). cbn [mbind run_bind].
    eexists. split; [done|]. destruct Hr. by split.
  - intros t slots room chans i c x (Ht & -> & ->) Hi.
    destruct (with_slot_ok t chans i c (with_next_tx x c) (λ s,
      Done (mkSlot (s_link_id s) (s_next_expected s) (s_buffer s) x (s_window s) (s_ring s) (s_earliest s))) Ht Hi eq_refl)
      as (t' & E & ?); [|by exists t'].
    intros s []. eexists. split; [done|]. by split.
  - intros t slots room chans i c x (Ht & -> & ->) Hi.
    destruct (with_slot_ok t chans i c (with_window x c) (λ s,
      Done (mkSlot (s_link_id s) (s_next_expected s) (s_buffer s) (s_next_tx_sequence s) x (s_ring s) (s_earliest s))) Ht Hi eq_refl)
      as (t' & E & ?); [|by exists t'].
    intros s []. eexists. split; [done|]. by split.
  - intros t slots room chans i c sub o x (Ht & -> & ->) Hi Ho.
    destruct (channel_set_timeout_ok t chans i c sub o x Ht Hi Ho) as (t' & E & ?). by exists t'.
  - intros t slots room chans i c sub o x (Ht & -> & ->) Hi Ho.
    destruct (with_slot_ok t chans i c (with_outstanding (<[sub := with_tries x o]> (ch_outstanding c)) c) (λ s,
      r ← ring_set_tries (s_ring s) sub x; Done (set_ring s r (s_earliest s))) Ht Hi eq_refl) as (t' & E & ?); [|by exists t'].
    intros s Hr. destruct (ring_set_tries_ok _ _ sub o x (sr_ring _ _ Hr) Ho) as (r & -> & ?). cbn [mbind run_bind].
    eexists. split; [done|]. destruct Hr as [? ? ? ? ? ? He]. split; try done. cbn. rewrite He. unfold earliest_of. cbn.
    rewrite list_fmap_insert, list_insert_id; [done|]. by rewrite list_lookup_fmap, Ho.
  - intros t slots room chans i c x (Ht & -> & ->) Hi.
    pose proof (cell_free_spec (length (ch_outstanding c)) (length (os_body x))) as Hroom. destruct (cell_free _ _).
    + destruct (channel_push_outstanding_ok t chans i c x Ht Hi) as (t' & E & ?); [apply Hroom..|]. by exists t'.
    + by eapply channel_push_outstanding_full.
  - intros t slots room chans i c sub (Ht & -> & ->) Hi Hsub.
    destruct (channel_retire_ok t chans i c sub Ht Hi Hsub) as (t' & E & ?). by exists t'.
Defined.

(** The empty table. *)
Lemma channels_default_rep : ct_rep channels_default (Z.of_nat SLOTS) cell_free [].
Proof.
  split; [|done]. split; cbn; [constructor|]. exists (replicate SLOTS (new_channel (replicate 16 0%Z))).
  split; [|apply column_new]. apply Forall2_replicate.
  split; try done; split; cbn; first [apply column_new|apply byte_column_new, length_replicate].
Qed.
End fixed_channels.
