(* ===== verification/ChannelReceive.v ===== *)
(** Receiving on a channel: [prns-core/src/routing/links/channel/receive.rs].

    Sequence numbers are 16 bits wide and wrap; the reference receiver counts messages with unbounded
    numbers and keeps the set of early ones.  [receive] refines it for every arrival that is not
    ambiguous modulo [2^16], and hands the messages over in order, each once. *)

From S2P Require Import Prelude Columns Channel ChannelTable ChannelTableFixed.
From stdpp Require Import gmap.

Definition WINDOW_MAX_MESSAGES : Z := 48.

Definition within_receive_window (sequence next_rx : Z) : bool :=
  (wrapping_sub 16 sequence next_rx <=? WINDOW_MAX_MESSAGES)%Z.

Inductive ReceiveOutcome :=
  | Delivered (count : Z)
  | WasBuffered
  | AlreadyHave
  | OutOfWindow
  | BufferFull
  | Untracked.
#[global] Instance ReceiveOutcome_eq_dec : EqDecision ReceiveOutcome.
Proof. solve_decision. Defined.

Definition owes_proof (o : ReceiveOutcome) : bool :=
  match o with BufferFull | Untracked => false | _ => true end.

(** [on_deliver]'s calls: message type and body. *)
Definition Delivery : Type := Z * list Z.

Section receive.
Context {T : Type} `{ChannelTable T}.

(** The [while let] over the buffered successors; [count] is a [u16]. *)
Fixpoint deliver_buffered (fuel : nat) (t : T) (i : nat) (next_rx count : Z) :
    run (Z * Z * list Delivery * T) :=
  match fuel with
  | O => OutOfFuel
  | S fuel =>
      sequences ← ct_buffered_sequences t i;
      match list_find (λ buffered, buffered = next_rx) sequences with
      | None => Done (next_rx, count, [], t)
      | Some (sub, _) =>
          message_type ← ct_buffered_message_type t i sub;
          payload ← ct_buffered_payload t i sub;
          t ← ct_swap_remove_buffered t i sub;
          if decide (count = u16_max) then Panic else
          '(next_rx, count, rest, t) ← deliver_buffered fuel t i (next next_rx) (count + 1);
          Done (next_rx, count, (message_type, payload) :: rest, t)
      end
  end.

Definition receive (t : T) (link : LinkId) (sequence message_type : Z) (payload : list Z) :
    run (ReceiveOutcome * list Delivery * T) :=
  '(ensured, t) ← ct_ensure t link;
  match ensured with
  | Err ChannelTableFull => Done (Untracked, [], t)
  | Ok i =>
      next_rx ← ct_next_expected t i;
      sequences ← ct_buffered_sequences t i;
      if decide (sequence = next_rx) then
        '(next_rx, count, rest, t) ← deliver_buffered (S (length sequences)) t i (next next_rx) 1;
        t ← ct_set_next_expected t i next_rx;
        Done (Delivered count, (message_type, payload) :: rest, t)
      else if negb (within_receive_window sequence next_rx) then Done (OutOfWindow, [], t)
      else if decide (sequence ∈ sequences) then Done (AlreadyHave, [], t)
      else
        '(o, t) ← ct_push_buffered t i sequence message_type payload;
        Done (match o with Stored => WasBuffered | BufferOutcomeFull => BufferFull end, [], t)
  end.
End receive.

(** * The reference receiver *)

(** The number of the next message, and the numbers of those that came early. *)
Record Reception := mkReception { rx_next : Z; rx_early : gset Z }.

(** From [next] on, the messages already there. *)
Fixpoint consecutive (fuel : nat) (early : gset Z) (next : Z) : list Z :=
  match fuel with
  | O => []
  | S fuel => if decide (next ∈ early) then next :: consecutive fuel early (next + 1) else []
  end.

Section reference.
(** The sender's messages, by number; whether a message of [k] bytes can be held beside [n] others. *)
Context (stream : Z → Delivery) (room : nat → nat → bool).

Definition reference_receive (r : Reception) (n : Z) : ReceiveOutcome * list Z * Reception :=
  if decide (n = rx_next r) then
    let rest := consecutive (size (rx_early r)) (rx_early r) (n + 1) in
    (Delivered (1 + Z.of_nat (length rest)), n :: rest,
     mkReception (n + 1 + Z.of_nat (length rest)) (rx_early r ∖ list_to_set rest))
  else if decide (rx_next r < n ≤ rx_next r + WINDOW_MAX_MESSAGES)%Z then
    if decide (n ∈ rx_early r) then (AlreadyHave, [], r)
    else if room (size (rx_early r)) (length (stream n).2)
    then (WasBuffered, [], mkReception (rx_next r) ({[n]} ∪ rx_early r))
    else (BufferFull, [], r)
  else (OutOfWindow, [], r).

(** Early messages are ahead of the next one, within the window. *)
Definition reception_ok (r : Reception) : Prop :=
  ∀ n, n ∈ rx_early r → (rx_next r < n ≤ rx_next r + WINDOW_MAX_MESSAGES)%Z.

(** An arrival whose number is determined by its sequence number: not as far ahead as a whole round of
    sequence numbers, and not so far behind that it seems to be in the next window. *)
Definition unambiguous (r : Reception) (n : Z) : Prop :=
  (rx_next r + WINDOW_MAX_MESSAGES - 2 ^ 16 < n < rx_next r + 2 ^ 16)%Z.

Definition entry (n : Z) : Buffered := mkBuffered (wrap 16 n) (stream n).1 (stream n).2.

(** What the channel keeps for the reference receiver. *)
Record receiving (r : Reception) (c : Channel) : Prop := {
  rc_next : ch_next_expected c = wrap 16 (rx_next r);
  rc_buffered : ch_buffered c ≡ₚ entry <$> elements (rx_early r);
  rc_ok : reception_ok r;
}.
End reference.

(** * Messages in a row *)

Lemma consecutive_seq fuel early m : consecutive fuel early m = seqZ m (Z.of_nat (length (consecutive fuel early m))).
Proof.
  revert m. induction fuel as [|fuel IH]; intros m; cbn [consecutive]; [done|].
  case_decide; [|done]. cbn [length]. rewrite Nat2Z.inj_succ, seqZ_cons by lia. rewrite Z.pred_succ.
  unfold Z.succ. by rewrite <- IH.
Qed.

Lemma elem_of_consecutive fuel early m n : n ∈ consecutive fuel early m → n ∈ early ∧ (m ≤ n)%Z.
Proof.
  revert m. induction fuel as [|fuel IH]; intros m; cbn [consecutive]; [by intros ?%not_elem_of_nil|].
  case_decide; [|by intros ?%not_elem_of_nil]. intros [->|[]%IH]%elem_of_cons; [done|]. split; [done|lia].
Qed.

Lemma consecutive_remove fuel early k m :
  (k < m)%Z → consecutive fuel (early ∖ {[k]}) m = consecutive fuel early m.
Proof.
  revert m. induction fuel as [|fuel IH]; intros m Hk; cbn [consecutive]; [done|].
  rewrite IH by lia. destruct (decide (m ∈ early)) as [Hm|Hm].
  - rewrite decide_True; [done|]. set_solver by lia.
  - rewrite decide_False; [done|]. set_solver.
Qed.

(** Where it stops, there is none. *)
Lemma consecutive_stops fuel early m :
  size early ≤ fuel → (m + Z.of_nat (length (consecutive fuel early m)))%Z ∉ early.
Proof.
  revert early m. induction fuel as [|fuel IH]; intros early m Hs; cbn [consecutive].
  { assert (early = ∅) as -> by (apply leibniz_equiv, size_empty_iff; lia). set_solver. }
  case_decide as Hm; [|by rewrite Z.add_0_r].
  specialize (IH (early ∖ {[m]}) (m + 1)%Z). rewrite consecutive_remove in IH by lia.
  cbn [length]. rewrite Nat2Z.inj_succ. replace (m + Z.succ _)%Z with (m + 1 + Z.of_nat (length (consecutive fuel early (m + 1))))%Z by lia.
  intros Hin. apply IH; [|set_solver by lia].
  rewrite size_difference by set_solver. rewrite size_singleton. lia.
Qed.

(** * Sequence numbers and message numbers *)

Lemma next_wrap n : next (wrap 16 n) = wrap 16 (n + 1).
Proof. unfold next, wrapping_add, wrap. by rewrite Z.add_mod_idemp_l by lia. Qed.

(** Numbers less than a round apart have the same sequence number only if they are equal. *)
Lemma wrap_near m n : (m - 2 ^ 16 < n < m + 2 ^ 16)%Z → wrap 16 n = wrap 16 m → n = m.
Proof. unfold wrap. intros Hn E. pose proof (Z.div_mod m (2 ^ 16)). pose proof (Z.div_mod n (2 ^ 16)). nia. Qed.

Lemma window_number r n :
  unambiguous r n →
  within_receive_window (wrap 16 n) (wrap 16 (rx_next r))
  = bool_decide (rx_next r ≤ n ≤ rx_next r + WINDOW_MAX_MESSAGES)%Z.
Proof.
  unfold unambiguous, within_receive_window, wrapping_sub, wrap, WINDOW_MAX_MESSAGES. intros Hn.
  rewrite <- Zminus_mod. set (d := (n - rx_next r)%Z).
  assert (Hd : (d mod 2 ^ 16 = if decide (0 ≤ d) then d else d + 2 ^ 16)%Z).
  { case_decide; [apply Z.mod_small; lia|].
    rewrite <- (Z_mod_plus_full d 1), Z.mul_1_l. apply Z.mod_small. lia. }
  rewrite Hd. subst d. case_decide; case_bool_decide; [apply Z.leb_le|apply Z.leb_gt|apply Z.leb_le|apply Z.leb_gt]; lia.
Qed.

(** * The refinement *)

Section refinement.
Context {T : Type} `{ChannelTableLaws T}.
Context (stream : Z → Delivery).
Implicit Types (room : nat → nat → bool) (early : gset Z).

(** The buffered message with the sequence number of [m], when early numbers are near [m]. *)
Lemma find_buffered early bufs m :
  bufs ≡ₚ entry stream <$> elements early →
  (∀ n, n ∈ early → (m ≤ n ≤ m + WINDOW_MAX_MESSAGES)%Z) →
  if decide (m ∈ early) then
    ∃ sub, list_find (λ s, s = wrap 16 m) (b_sequence <$> bufs) = Some (sub, wrap 16 m)
      ∧ bufs !! sub = Some (entry stream m)
  else list_find (λ s, s = wrap 16 m) (b_sequence <$> bufs) = None.
Proof.
  intros Hb Hnear. unfold WINDOW_MAX_MESSAGES in *. case_decide as Hm.
  - assert (Hin : wrap 16 m ∈ b_sequence <$> bufs).
    { apply list_elem_of_fmap. exists (entry stream m). split; [done|]. rewrite Hb.
      apply list_elem_of_fmap. exists m. split; [done|]. by apply elem_of_elements. }
    destruct (list_find_elem_of (λ s, s = wrap 16 m) _ _ Hin eq_refl) as ((sub & x) & E). exists sub.
    apply list_find_Some in E as E'. destruct E' as (Hl & -> & _). split; [done|].
    rewrite list_lookup_fmap in Hl. destruct (bufs !! sub) as [b|] eqn:Eb; [|done].
    apply list_elem_of_lookup_2 in Eb as Hbin. rewrite Hb in Hbin.
    apply list_elem_of_fmap in Hbin as (n & -> & Hn%elem_of_elements). cbn in Hl. injection Hl as Hl.
    apply wrap_near in Hl as ->; [done|]. specialize (Hnear n Hn). lia.
  - apply list_find_None, Forall_fmap, list.Forall_forall. intros b Hbin. rewrite Hb in Hbin.
    apply list_elem_of_fmap in Hbin as (n & -> & Hn%elem_of_elements). cbn. intros E.
    apply wrap_near in E as ->; [done|]. specialize (Hnear n Hn). lia.
Qed.

Lemma elements_remove early m :
  m ∈ early → elements early ≡ₚ m :: elements (early ∖ {[m]}).
Proof.
  intros Hm. rewrite <- (elements_union_singleton (early ∖ {[m]}) m) by set_solver.
  f_equiv. by rewrite <- union_difference_singleton_L.
Qed.

Lemma deliver_buffered_ok fuel t slots room chans i c early m count :
  ct_rep t slots room chans → chans !! i = Some c →
  ch_buffered c ≡ₚ entry stream <$> elements early →
  (∀ n, n ∈ early → (m ≤ n ≤ m + WINDOW_MAX_MESSAGES)%Z) →
  size early < fuel → (0 ≤ count)%Z → (count + Z.of_nat (size early) ≤ u16_max)%Z →
  let rest := consecutive (size early) early m in
  let k := Z.of_nat (length rest) in
  ∃ t' bufs, deliver_buffered fuel t i (wrap 16 m) count
      = Done (wrap 16 (m + k), count + k, stream <$> rest, t')%Z
    ∧ ct_rep t' slots room (<[i := with_buffered bufs c]> chans)
    ∧ bufs ≡ₚ entry stream <$> elements (early ∖ list_to_set rest).
Proof.
  revert t chans c early m count.
  induction fuel as [|fuel IH]; intros t chans c early m count Ht Hi Hb Hnear Hf Hc Hcount; [lia|].
  cbn [deliver_buffered]. destruct (ct_reads_ok t slots room chans i c Ht Hi) as (_ & _ & -> & _).
  cbn [mbind run_bind]. pose proof (find_buffered early _ m Hb Hnear) as Hfind. case_decide as Hm.
  - destruct Hfind as (sub & -> & Hsub). destruct (ct_buffered_ok t slots room chans i c sub _ Ht Hi Hsub) as [-> ->].
    cbn [mbind run_bind]. destruct (ct_swap_remove_buffered_ok t slots room chans i c sub Ht Hi) as (t' & -> & Ht');
      [by eapply lookup_lt_Some|]. cbn [mbind run_bind].
    assert (Hsize : size early = S (size (early ∖ {[m]}))).
    { rewrite size_difference by set_solver. rewrite size_singleton.
      assert (size early ≠ 0) by (intros ?%size_empty_iff; set_solver). lia. }
    rewrite decide_False by lia. rewrite next_wrap.
    destruct (IH t' _ _ (early ∖ {[m]}) (m + 1)%Z (count + 1)%Z Ht' (list_lookup_insert_eq _ _ _ (lookup_lt_Some _ _ _ Hi)))
      as (t'' & bufs & E & Ht'' & Hbufs); try lia.
    + cbn. apply (Permutation_cons_inv (a := entry stream m)). rewrite (swap_removed_perm _ _ _ Hsub), Hb.
      by rewrite (elements_remove early m Hm).
    + intros n Hn. pose proof (Hnear n ltac:(set_solver)). set_solver by lia.
    + rewrite E. cbn [mbind run_bind]. rewrite consecutive_remove by lia.
      rewrite consecutive_remove in Hbufs by lia. rewrite Hsize. cbn [consecutive]. rewrite decide_True by done.
      cbn [length]. rewrite Nat2Z.inj_succ. rewrite list_insert_insert_eq in Ht''.
      exists t'', bufs. split; [|split].
      * set (k := Z.of_nat (length (consecutive _ early _))).
        replace (m + Z.succ k)%Z with (m + 1 + k)%Z by lia. replace (count + Z.succ k)%Z with (count + 1 + k)%Z by lia. 
        rewrite fmap_cons. unfold entry. cbn [b_message_type b_payload]. by rewrite <- surjective_pairing.
      * exact Ht''.
      * rewrite Hbufs. do 2 f_equiv. set_solver.
  - rewrite Hfind. exists t, (ch_buffered c).
    replace (consecutive (size early) early m) with (@nil Z) by (destruct (size early); cbn; [done|by rewrite decide_False]).
    split; [|split].
    + cbn. by rewrite !Z.add_0_r.
    + destruct c. cbn. rewrite list_insert_id; [done|]. by rewrite Hi.
    + cbn. by rewrite difference_empty_L.
Qed.

(** The fields of the sending side. *)
Definition same_sender (c c' : Channel) : Prop :=
  ch_link c' = ch_link c ∧ ch_next_tx c' = ch_next_tx c ∧ ch_window c' = ch_window c
  ∧ ch_outstanding c' = ch_outstanding c.

Lemma same_sender_refl c : same_sender c c.
Proof. done. Qed.
Lemma same_sender_trans c1 c2 c3 : same_sender c1 c2 → same_sender c2 c3 → same_sender c1 c3.
Proof. unfold same_sender. intuition congruence. Qed.

Lemma size_early r c : receiving stream r c → size (rx_early r) = length (ch_buffered c).
Proof. intros [_ Hb _]. by rewrite Hb, length_fmap. Qed.

(** At most 48 messages are early. *)
Lemma early_bound r : reception_ok r → size (rx_early r) ≤ Z.to_nat WINDOW_MAX_MESSAGES.
Proof.
  intros Hok. transitivity (size (list_to_set (seqZ (rx_next r + 1) WINDOW_MAX_MESSAGES) : gset Z)).
  - apply subseteq_size. intros n Hn. apply elem_of_list_to_set, elem_of_seqZ. specialize (Hok n Hn). lia.
  - rewrite size_list_to_set by apply NoDup_seqZ. by rewrite length_seqZ.
Qed.

Lemma receive_in_turn t slots room chans i c r :
  ct_rep t slots room chans → chans !! i = Some c → receiving stream r c →
  let n := rx_next r in
  let rest := consecutive (size (rx_early r)) (rx_early r) (n + 1) in
  let k := Z.of_nat (length rest) in
  ∃ t' c', receive t (ch_link c) (wrap 16 n) (stream n).1 (stream n).2
      = Done (Delivered (1 + k), stream <$> n :: rest, t')%Z
    ∧ ct_rep t' slots room (<[i := c']> chans) ∧ same_sender c c'
    ∧ receiving stream (mkReception (n + 1 + k) (rx_early r ∖ list_to_set rest)) c'.
Proof.
  intros Ht Hi Hr n rest k. unfold receive. rewrite (ct_ensure_known t slots room chans i c Ht Hi).
  cbn [mbind run_bind]. destruct (ct_reads_ok t slots room chans i c Ht Hi) as (_ & -> & -> & _).
  cbn [mbind run_bind]. rewrite (rc_next _ _ _ Hr). rewrite decide_True by done. rewrite next_wrap, length_fmap.
  pose proof (early_bound r (rc_ok _ _ _ Hr)) as Hle. pose proof (size_early r c Hr) as Hsz.
  destruct (deliver_buffered_ok (S (length (ch_buffered c))) t slots room chans i c (rx_early r) (n + 1) 1)
    as (t1 & bufs & E & Ht1 & Hbufs); try done; try lia.
  { apply Hr. }
  { intros m Hm. pose proof (rc_ok _ _ _ Hr m Hm). lia. }
  { unfold u16_max, max_width. change (Z.to_nat WINDOW_MAX_MESSAGES) with 48 in Hle. lia. }
  fold n. rewrite E. cbn [mbind run_bind]. fold rest k.
  destruct (ct_set_next_expected_ok t1 slots room _ i _ (wrap 16 (n + 1 + k)) Ht1
    (list_lookup_insert_eq _ _ _ (lookup_lt_Some _ _ _ Hi))) as (t2 & -> & Ht2).
  cbn [mbind run_bind]. rewrite list_insert_insert_eq in Ht2. eexists t2, _. split; [|split; [exact Ht2|split]].
  - by rewrite fmap_cons, <- surjective_pairing.
  - done.
  - split; [done|done|]. intros m [Hm Hout]%elem_of_difference. cbn [rx_next].
    pose proof (rc_ok _ _ _ Hr m Hm) as Hbound. fold n in Hbound.
    assert ((n + 1 + k)%Z ≠ m). { intros <-. by apply (consecutive_stops (size (rx_early r)) (rx_early r) (n + 1)). }
    rewrite not_elem_of_list_to_set in Hout. unfold rest in Hout. rewrite consecutive_seq, elem_of_seqZ in Hout.
    fold rest k in Hout. assert (0 ≤ k)%Z by (unfold k; lia). lia.
Qed.

Lemma receive_refines t slots room chans i c r n :
  ct_rep t slots room chans → chans !! i = Some c → receiving stream r c → unambiguous r n →
  ∃ t' c', receive t (ch_link c) (wrap 16 n) (stream n).1 (stream n).2
      = Done ((reference_receive stream room r n).1.1, stream <$> (reference_receive stream room r n).1.2, t')
    ∧ ct_rep t' slots room (<[i := c']> chans) ∧ same_sender c c'
    ∧ receiving stream (reference_receive stream room r n).2 c'.
Proof.
  intros Ht Hi Hr Hn. unfold reference_receive. case_decide as E1.
  { subst n. by apply receive_in_turn. }
  pose proof (size_early r c Hr) as Hsz. pose proof Hr as [Hnext Hb Hok].
  assert (Hsame : ct_rep t slots room (<[i := c]> chans)) by (by rewrite list_insert_id).
  unfold receive. rewrite (ct_ensure_known t slots room chans i c Ht Hi). cbn [mbind run_bind].
  destruct (ct_reads_ok t slots room chans i c Ht Hi) as (_ & -> & -> & _). cbn [mbind run_bind].
  rewrite Hnext. rewrite decide_False.
  2: { unfold unambiguous, WINDOW_MAX_MESSAGES in Hn. intros E. apply wrap_near in E; [done|lia]. }
  rewrite (window_number r n Hn).
  destruct (decide (rx_next r < n ≤ rx_next r + WINDOW_MAX_MESSAGES)%Z) as [E2|E2].
  2: { rewrite bool_decide_false by lia. exists t, c. by split. }
  rewrite bool_decide_true by lia. cbn [negb].
  assert (Hin : wrap 16 n ∈ b_sequence <$> ch_buffered c ↔ n ∈ rx_early r).
  { rewrite Hb, <- list_fmap_compose, list_elem_of_fmap. setoid_rewrite elem_of_elements. split; [|by exists n].
    intros (m & E & Hm). cbn in E. apply wrap_near in E as ->; [done|].
    specialize (Hok m Hm). unfold WINDOW_MAX_MESSAGES in *. lia. }
  destruct (decide (n ∈ rx_early r)) as [E3|E3].
  { rewrite decide_True by tauto. exists t, c. by split. }
  rewrite decide_False by tauto. pose proof (ct_push_buffered_ok t slots room chans i c (wrap 16 n) (stream n).1 (stream n).2 Ht Hi) as Hp.
  rewrite <- Hsz in Hp. destruct (room _ _).
  2: { rewrite Hp. exists t, c. by split. }
  destruct Hp as (t' & -> & Ht'). cbn [mbind run_bind]. eexists t', _. split; [done|]. split; [exact Ht'|]. split; [done|].
  split; cbn; [done| |].
  - rewrite Hb, elements_union_singleton by done. cbn. rewrite Permutation_app_comm. done.
  - intros m [->%elem_of_singleton|Hm]%elem_of_union; [done|]. by apply Hok.
Qed.
End refinement.

(** * Sequences of arrivals *)

(** Every call of [receive], in order: the outcomes and everything handed over. *)
Fixpoint receive_all {T} `{ChannelTable T} (t : T) (link : LinkId) (arrivals : list (Z * Delivery)) :
    run (list ReceiveOutcome * list Delivery * T) :=
  match arrivals with
  | [] => Done ([], [], t)
  | (sequence, (message_type, payload)) :: rest =>
      '(o, now, t) ← receive t link sequence message_type payload;
      '(os, later, t) ← receive_all t link rest;
      Done (o :: os, now ++ later, t)
  end.

Section references.
Context (stream : Z → Delivery) (room : nat → nat → bool).

(** Message [n] as it comes in. *)
Definition arrival (n : Z) : Z * Delivery := (wrap 16 n, stream n).

Fixpoint reference_all (r : Reception) (ns : list Z) : list ReceiveOutcome * list Z * Reception :=
  match ns with
  | [] => ([], [], r)
  | n :: ns =>
      let '(o, now, r) := reference_receive stream room r n in
      let '(os, later, r) := reference_all r ns in
      (o :: os, now ++ later, r)
  end.

(** Each arrival satisfies [P] at its time. *)
Fixpoint arrivals_ok (P : Reception → Z → Prop) (r : Reception) (ns : list Z) : Prop :=
  match ns with
  | [] => True
  | n :: ns => P r n ∧ arrivals_ok P (reference_receive stream room r n).2 ns
  end.

(** Delivered, or held until its turn. *)
Definition accepted (r : Reception) (n : Z) : Prop := (n < rx_next r)%Z ∨ n ∈ rx_early r.

Lemma reference_delivers r n :
  let x := reference_receive stream room r n in
  (rx_next r ≤ rx_next x.2)%Z ∧ x.1.2 = seqZ (rx_next r) (rx_next x.2 - rx_next r).
Proof.
  cbn zeta. unfold reference_receive. destruct (decide (n = rx_next r)) as [->|].
  - cbn [fst snd rx_next]. split; [lia|]. set (rest := consecutive _ _ _).
    replace (rx_next r + 1 + _ - rx_next r)%Z with (Z.succ (Z.of_nat (length rest))) by lia.
    rewrite seqZ_cons, Z.pred_succ by lia. f_equal. apply consecutive_seq.
  - repeat case_decide; [|destruct (room _ _)|]; cbn [fst snd rx_next]; by rewrite Z.sub_diag.
Qed.

Lemma reference_keeps r n m : accepted r m → accepted (reference_receive stream room r n).2 m.
Proof.
  unfold accepted, reference_receive. intros Hm. case_decide; [|by repeat case_decide; try case_match; set_solver].
  subst n. cbn [snd rx_next rx_early]. set (rest := consecutive _ _ _). destruct (decide (m ∈ rest)) as [Hin|Hin].
  - left. pose proof Hin as Hs. unfold rest in Hs. rewrite consecutive_seq, elem_of_seqZ in Hs. subst rest. lia.
  - destruct Hm as [|]; [left; lia|]. right. apply elem_of_difference. split; [done|].
    by rewrite elem_of_list_to_set.
Qed.

Lemma reference_accepts r n :
  (n ≤ rx_next r + WINDOW_MAX_MESSAGES)%Z → owes_proof (reference_receive stream room r n).1.1 = true →
  accepted (reference_receive stream room r n).2 n.
Proof.
  unfold accepted, reference_receive. intros Hn. repeat case_decide; try case_match; cbn; try done; intros _.
  - left. lia.
  - by right.
  - right. set_solver.
  - left. lia.
Qed.

Lemma reference_all_keeps r ns m : accepted r m → accepted (reference_all r ns).2 m.
Proof.
  revert r. induction ns as [|n ns IH]; intros r Hm; cbn [reference_all]; [done|].
  apply (reference_keeps r n) in Hm. destruct (reference_receive stream room r n) as [[o now] r'].
  specialize (IH r' Hm). by destruct (reference_all r' ns) as [[os later] r''].
Qed.

Lemma reference_all_delivers r ns :
  let x := reference_all r ns in
  (rx_next r ≤ rx_next x.2)%Z ∧ x.1.2 = seqZ (rx_next r) (rx_next x.2 - rx_next r).
Proof.
  revert r. induction ns as [|n ns IH]; intros r; cbn [reference_all fst snd].
  { by rewrite Z.sub_diag. }
  pose proof (reference_delivers r n) as H1. destruct (reference_receive stream room r n) as [[o now] r'].
  specialize (IH r'). destruct (reference_all r' ns) as [[os later] r'']. cbn [fst snd] in *.
  destruct H1 as [H1 ->], IH as [H2 ->]. split; [lia|].
  replace (rx_next r'' - rx_next r)%Z with ((rx_next r' - rx_next r) + (rx_next r'' - rx_next r'))%Z by lia.
  rewrite seqZ_app by lia. do 2 f_equal. lia.
Qed.

Lemma reference_all_accepts r ns j n o :
  arrivals_ok (λ r n, (n ≤ rx_next r + WINDOW_MAX_MESSAGES)%Z) r ns →
  ns !! j = Some n → (reference_all r ns).1.1 !! j = Some o → owes_proof o = true →
  accepted (reference_all r ns).2 n.
Proof.
  revert r j. induction ns as [|m ns IH]; intros r j Hok Hj; [by rewrite lookup_nil in Hj|].
  cbn [reference_all arrivals_ok] in *. destruct Hok as [Hm Hok].
  pose proof (reference_accepts r m Hm) as Hacc. destruct (reference_receive stream room r m) as [[o' now] r'].
  cbn [fst snd] in *. specialize (IH r'). pose proof (reference_all_keeps r' ns m) as Hkeep.
  destruct (reference_all r' ns) as [[os later] r'']. cbn [fst snd] in *.
  destruct j as [|j]; cbn in Hj |- *.
  - injection Hj as ->. intros [= ->] Ho. by apply Hkeep, Hacc.
  - intros Hos Ho. by eapply IH.
Qed.
End references.

(** * The channel *)

Section channel.
Context {T : Type} `{ChannelTableLaws T}.
Context (stream : Z → Delivery).

Lemma receive_all_refines t slots room chans i c r ns :
  ct_rep t slots room chans → chans !! i = Some c → receiving stream r c →
  arrivals_ok stream room unambiguous r ns →
  let x := reference_all stream room r ns in
  ∃ t' c', receive_all t (ch_link c) (arrival stream <$> ns) = Done (x.1.1, stream <$> x.1.2, t')
    ∧ ct_rep t' slots room (<[i := c']> chans) ∧ same_sender c c' ∧ receiving stream x.2 c'.
Proof.
  revert t chans c r. induction ns as [|n ns IH]; intros t chans c r Ht Hi Hr Hok; cbn [receive_all reference_all fmap list_fmap fst snd].
  { exists t, c. rewrite list_insert_id by done. split; [done|]. split; [done|]. split; [apply same_sender_refl|done]. }
  destruct Hok as [Hn Hok]. destruct (receive_refines stream t slots room chans i c r n Ht Hi Hr Hn) as (t1 & c1 & E1 & Ht1 & Hs1 & Hr1).
  unfold arrival at 1. destruct (stream n) as [mt p] eqn:Es. cbn [fst snd] in E1. rewrite E1. cbn [mbind run_bind].
  destruct (IH t1 _ c1 _ Ht1 (list_lookup_insert_eq _ _ _ (lookup_lt_Some _ _ _ Hi)) Hr1 Hok) as (t2 & c2 & E2 & Ht2 & Hs2 & Hr2).
  rewrite (proj1 Hs1) in E2. rewrite E2. cbn [mbind run_bind]. rewrite list_insert_insert_eq in Ht2.
  destruct (reference_receive stream room r n) as [[o now] r']. cbn [fst snd] in *.
  destruct (reference_all stream room r' ns) as [[os later] r'']. cbn [fst snd] in *. exists t2, c2.
  rewrite fmap_app. split; [done|]. split; [done|]. split; [by eapply same_sender_trans|done].
Qed.

(** Before anything arrived. *)
Definition fresh : Reception := mkReception 0 ∅.

Lemma receiving_new link : receiving stream fresh (new_channel link).
Proof. split; cbn; [done|by rewrite elements_empty|]. intros n Hn. set_solver. Qed.

(** The first arrival opens the channel. *)
Lemma receive_all_opens t slots room chans link n ns :
  ct_rep t slots room chans → (link ∉ ch_link <$> chans) → (Z.of_nat (length chans) < slots)%Z →
  ∃ t', ct_rep t' slots room (chans ++ [new_channel link])
    ∧ receive_all t link (arrival stream <$> n :: ns) = receive_all t' link (arrival stream <$> n :: ns).
Proof.
  intros Ht Hn Hlt. destruct (ct_ensure_new t slots room chans link Ht Hn Hlt) as (t' & E & Ht').
  exists t'. split; [done|]. cbn [fmap list_fmap receive_all]. unfold arrival at 1 3. destruct (stream n) as [mt p]. f_equiv.
  unfold receive. rewrite E. pose proof (ct_ensure_known t' slots room _ (length chans) (new_channel link) Ht') as E'.
  cbn in E'. rewrite E'; [done|]. by apply list_lookup_middle.
Qed.

Lemma receive_all_fresh t slots room chans link n ns :
  ct_rep t slots room chans → (link ∉ ch_link <$> chans) → (Z.of_nat (length chans) < slots)%Z →
  arrivals_ok stream room unambiguous fresh (n :: ns) →
  let x := reference_all stream room fresh (n :: ns) in
  ∃ t' c, receive_all t link (arrival stream <$> n :: ns) = Done (x.1.1, stream <$> x.1.2, t')
    ∧ ct_rep t' slots room (chans ++ [c]) ∧ ch_link c = link ∧ receiving stream x.2 c.
Proof.
  intros Ht Hn Hlt Hok x. destruct (receive_all_opens t slots room chans link n ns Ht Hn Hlt) as (t1 & Ht1 & ->).
  assert (Hi : (chans ++ [new_channel link]) !! length chans = Some (new_channel link)) by (by apply list_lookup_middle).
  destruct (receive_all_refines t1 slots room _ _ _ fresh (n :: ns) Ht1 Hi (receiving_new link) Hok)
    as (t2 & c & E & Ht2 & (Hl & _) & Hr). cbn [ch_link new_channel] in E. rewrite E.
  exists t2, c. split; [done|]. split; [|done].
  rewrite insert_app_r_alt, Nat.sub_diag in Ht2 by done. exact Ht2.
Qed.

(** C10. A channel hands its messages over in order, each exactly once.  A table without a channel for
    the link, and room for one, receives any non-empty sequence of the sender's messages, repeated,
    lost and out of order, none of them a whole round of sequence numbers away: [receive] never fails,
    its outcomes are those of the reference receiver, which counts with unbounded numbers, and what it
    handed over is the sender's stream from message 0 up to the one now awaited.  The channel then
    holds exactly the early messages, and no other channel changed. *)
Theorem channel_delivers_in_order t slots room chans link n ns :
  ct_rep t slots room chans → (link ∉ ch_link <$> chans) → (Z.of_nat (length chans) < slots)%Z →
  arrivals_ok stream room unambiguous fresh (n :: ns) →
  let x := reference_all stream room fresh (n :: ns) in
  ∃ t' c, receive_all t link (arrival stream <$> n :: ns)
      = Done (x.1.1, stream <$> seqZ 0 (rx_next x.2), t')
    ∧ ct_rep t' slots room (chans ++ [c]) ∧ ch_link c = link ∧ receiving stream x.2 c.
Proof.
  intros Ht Hn Hlt Hok x. destruct (receive_all_fresh t slots room chans link n ns Ht Hn Hlt Hok) as (t' & c & E & Hrest).
  exists t', c. split; [|done]. destruct (reference_all_delivers stream room fresh (n :: ns)) as [_ Hd].
  rewrite E, Hd. cbn [rx_next fresh]. by rewrite Z.sub_0_r.
Qed.

(** A proof is owed only for a message that is kept.  When the sender never runs more than 48
    messages ahead of the one awaited, every arrival that [receive] answers with a proof has been
    handed over, or is held until its turn. *)
Theorem proved_messages_are_kept t slots room chans link n ns :
  ct_rep t slots room chans → (link ∉ ch_link <$> chans) → (Z.of_nat (length chans) < slots)%Z →
  arrivals_ok stream room unambiguous fresh (n :: ns) →
  arrivals_ok stream room (λ r m, (m ≤ rx_next r + WINDOW_MAX_MESSAGES)%Z) fresh (n :: ns) →
  ∃ outcomes given t' c, receive_all t link (arrival stream <$> n :: ns) = Done (outcomes, given, t')
    ∧ ct_rep t' slots room (chans ++ [c]) ∧ ch_link c = link
    ∧ ∀ j m o, (n :: ns) !! j = Some m → outcomes !! j = Some o → owes_proof o = true → (0 ≤ m)%Z →
        given !! Z.to_nat m = Some (stream m) ∨ entry stream m ∈ ch_buffered c.
Proof.
  intros Ht Hn Hlt Hok Hpace. destruct (receive_all_fresh t slots room chans link n ns Ht Hn Hlt Hok)
    as (t' & c & E & Ht' & Hl & Hr).
  eexists _, _, t', c. split; [exact E|]. split; [done|]. split; [done|]. intros j m o Hj Ho Hp Hm.
  destruct (reference_all_accepts stream room fresh (n :: ns) j m o Hpace Hj Ho Hp) as [Hlow|Hearly].
  - left. destruct (reference_all_delivers stream room fresh (n :: ns)) as [_ Hd]. rewrite Hd. cbn [rx_next fresh].
    rewrite Z.sub_0_r, list_lookup_fmap, lookup_seqZ_lt by lia. cbn. do 2 f_equal. lia.
  - right. rewrite (rc_buffered _ _ _ Hr). apply list_elem_of_fmap. exists m. split; [done|]. by apply elem_of_elements.
Qed.

(** A message may be proved and lost.  An arrival more than 48 messages ahead of the one awaited, and
    less than a round ahead, is answered with a proof although it is neither handed over nor held. *)
Theorem proof_without_delivery t slots room chans i c r n :
  ct_rep t slots room chans → chans !! i = Some c → receiving stream r c →
  (rx_next r + WINDOW_MAX_MESSAGES < n < rx_next r + 2 ^ 16)%Z →
  ∃ t', receive t (ch_link c) (wrap 16 n) (stream n).1 (stream n).2 = Done (OutOfWindow, [], t')
    ∧ owes_proof OutOfWindow = true ∧ (∃ c', ct_rep t' slots room (<[i := c']> chans) ∧ receiving stream r c').
Proof.
  intros Ht Hi Hr Hn. assert (Hu : unambiguous r n) by (unfold unambiguous, WINDOW_MAX_MESSAGES in *; lia).
  destruct (receive_refines stream t slots room chans i c r n Ht Hi Hr Hu) as (t' & c' & E & Ht' & _ & Hr').
  unfold reference_receive in E, Hr'. unfold WINDOW_MAX_MESSAGES in *. rewrite !decide_False in E, Hr' by lia.
  exists t'. split; [exact E|]. split; [done|]. by exists c'.
Qed.
End channel.

(** * A table of two channels with 64 cells of 4 bytes *)

Module SampleChannel.
Definition Table := @FixedArrayChannelTable.
#[global] Instance table_ops : ChannelTable Table := fixed_channels (SLOTS := 2) (REORDER_CAP := 64) (MAX_PAYLOAD := 4).
#[global] Instance table_laws : ChannelTableLaws Table := fixed_channels_laws (SLOTS := 2) (REORDER_CAP := 64) (MAX_PAYLOAD := 4).
Definition table : Table := channels_default (SLOTS := 2) (REORDER_CAP := 64) (MAX_PAYLOAD := 4).
Definition room : nat → nat → bool := cell_free (REORDER_CAP := 64) (MAX_PAYLOAD := 4).
Definition link : LinkId := replicate 16 7%Z.
Definition stream (n : Z) : Delivery := (7, [wrap 8 n])%Z.

Lemma table_rep : ct_rep table 2 room [].
Proof. exact (channels_default_rep (SLOTS := 2) (REORDER_CAP := 64) (MAX_PAYLOAD := 4)). Qed.
End SampleChannel.

(** Repetitions, a gap and its filling. *)
Lemma channel_delivers_in_order_witness :
  let x := reference_all SampleChannel.stream SampleChannel.room fresh [1; 0; 0; 4; 2; 3]%Z in
  x.1.1 = [WasBuffered; Delivered 2; OutOfWindow; WasBuffered; Delivered 1; Delivered 2]
  ∧ ∃ t' c, receive_all SampleChannel.table SampleChannel.link (arrival SampleChannel.stream <$> [1; 0; 0; 4; 2; 3]%Z)
      = Done (x.1.1, SampleChannel.stream <$> seqZ 0 5, t')
    ∧ ct_rep t' 2 SampleChannel.room [c] ∧ ch_link c = SampleChannel.link ∧ receiving SampleChannel.stream x.2 c.
Proof.
  split; [by vm_compute|].
  exact (channel_delivers_in_order SampleChannel.stream SampleChannel.table 2 SampleChannel.room [] SampleChannel.link
    1%Z [0; 0; 4; 2; 3]%Z SampleChannel.table_rep (not_elem_of_nil _) eq_refl ltac:(vm_compute; repeat split)).
Defined.

Lemma proved_messages_are_kept_witness :
  ∃ outcomes given t' c,
    receive_all SampleChannel.table SampleChannel.link (arrival SampleChannel.stream <$> [1; 0; 3]%Z) = Done (outcomes, given, t')
    ∧ ct_rep t' 2 SampleChannel.room [c] ∧ ch_link c = SampleChannel.link
    ∧ ∀ j m o, [1; 0; 3]%Z !! j = Some m → outcomes !! j = Some o → owes_proof o = true → (0 ≤ m)%Z →
        given !! Z.to_nat m = Some (SampleChannel.stream m) ∨ entry SampleChannel.stream m ∈ ch_buffered c.
Proof.
  exact (proved_messages_are_kept SampleChannel.stream SampleChannel.table 2 SampleChannel.room [] SampleChannel.link
    1%Z [0; 3]%Z SampleChannel.table_rep (not_elem_of_nil _) eq_refl ltac:(vm_compute; repeat split)
    ltac:(vm_compute; repeat split; discriminate)).
Defined.

(** Message 49 arrives first. *)
Lemma proof_without_delivery_witness :
  ∃ t t', ct_rep t 2 SampleChannel.room [new_channel SampleChannel.link]
    ∧ receive t SampleChannel.link 49 7 [49%Z] = Done (OutOfWindow, [], t') ∧ owes_proof OutOfWindow = true.
Proof.
  destruct (ct_ensure_new SampleChannel.table 2 SampleChannel.room [] SampleChannel.link SampleChannel.table_rep
    (not_elem_of_nil _) eq_refl) as (t & _ & Ht).
  destruct (proof_without_delivery SampleChannel.stream t 2 SampleChannel.room _ 0 (new_channel SampleChannel.link) fresh 49%Z
    Ht eq_refl (receiving_new _ _) ltac:(done)) as (t' & E & Ho & _).
  by exists t, t'.
Defined.

(** Message 0 is lost, 1 to 49 arrive and are all proved, 0 is sent again: 0 to 48 are handed over, and
    49, which the sender has no reason to send again, is awaited for ever. *)
Example proved_then_lost :
  match receive_all SampleChannel.table SampleChannel.link (arrival SampleChannel.stream <$> seqZ 1 49 ++ [0%Z]) with
  | Done (outcomes, given, t) =>
      outcomes = replicate 48 WasBuffered ++ [OutOfWindow; Delivered 49]
      ∧ given = SampleChannel.stream <$> seqZ 0 49
      ∧ ct_next_expected t 0 = Done 49%Z ∧ ct_buffered_sequences t 0 = Done []
  | _ => False
  end.
Proof. by vm_compute. Qed.
