(* ===== verification/Routes.v ===== *)
(** Routes: [prns-core/src/routing/routes/core.rs] and [impls/fixed_array.rs].

    A route is a row of nine columns.  The trait [RouteTable] is a class; its contract
    ([RouteTableLaws]) is a list of rows that [set_row], [push] and [swap_remove] update.  The
    fixed-array table is an instance; the indexed one is in [RoutesIndexed].  Instants are [u64] milliseconds. *)

From S2P Require Import Prelude Evidence Columns.

(** * Data *)

Definition DestinationHash := list Z.
Definition TransportId := list Z.
Definition InterfaceId := list Z.
Abbreviation InstantMillis := Z (only parsing).

#[global] Instance DestinationHash_eq_dec : EqDecision DestinationHash.
Proof. unfold DestinationHash. apply _. Defined.
#[global] Instance TransportId_eq_dec : EqDecision TransportId.
Proof. unfold TransportId. apply _. Defined.
#[global] Instance InterfaceId_eq_dec : EqDecision InterfaceId.
Proof. unfold InterfaceId. apply _. Defined.

Inductive NextHop := Direct | Via (transport : TransportId).
#[global] Instance NextHop_eq_dec : EqDecision NextHop.
Proof. solve_decision. Defined.

Inductive RouteResponsiveness := Unknown | Responsive | Unresponsive.
#[global] Instance RouteResponsiveness_eq_dec : EqDecision RouteResponsiveness.
Proof. solve_decision. Defined.

(** [RouteExpiresAfter] is a non-zero [u32] of milliseconds. *)
Definition deadline_from (expires_after learned_at : Z) : Z := saturating_add 64 learned_at expires_after.

Inductive RouteRetention := Network | Ephemeral (expires_after : Z).
#[global] Instance RouteRetention_eq_dec : EqDecision RouteRetention.
Proof. solve_decision. Defined.

Definition constrain_expiry (r : RouteRetention) (learned_at network_expiry : Z) : Z :=
  match r with
  | Network => network_expiry
  | Ephemeral expires_after =>
      let expires_at := deadline_from expires_after learned_at in
      if (expires_at <? network_expiry)%Z then expires_at else network_expiry
  end.

Record RouteEntry := mkEntry {
  hops : Z;
  learned_at : InstantMillis;
  last_route_activity_at : InstantMillis;
  responsiveness : RouteResponsiveness;
  receiving_interface : InterfaceId;
  next_hop : NextHop;
  retention : RouteRetention;
}.

(** [RouteEvidenceHandle] *)
Record RouteEvidenceHandle := mkHandle { handle_id : RouteEvidenceId; row_hint : Z }.

Inductive TablePushError := TableFull.

(** * The trait *)

(** [iter().position(..)] *)
Fixpoint position_from {A} (P : A → bool) (xs : list A) (i : nat) : option nat :=
  match xs with
  | [] => None
  | x :: xs => if P x then Some i else position_from P xs (S i)
  end.

(** The trait's own [index_of], which the indexed tables override. *)
Definition default_index_of (destinations : run (list DestinationHash)) (destination : DestinationHash) :
    run (option nat) :=
  ds ← destinations;
  Done (position_from (λ candidate, bool_decide (candidate = destination)) ds 0).

Class RouteTable (T : Type) := {
  rt_capacity : T → nat;
  rt_len : T → nat;
  rt_destinations : T → run (list DestinationHash);
  rt_hops : T → run (list Z);
  rt_learned_at : T → run (list InstantMillis);
  rt_last_route_activity_at : T → run (list InstantMillis);
  rt_responsiveness : T → run (list RouteResponsiveness);
  rt_receiving_interfaces : T → run (list InterfaceId);
  rt_next_hops : T → run (list NextHop);
  rt_retentions : T → run (list RouteRetention);
  rt_evidence_ids : T → run (list RouteEvidenceId);
  rt_set_row : T → nat → RouteEntry → run T;
  rt_set_evidence_id : T → nat → RouteEvidenceId → run T;
  rt_push : T → DestinationHash → RouteEvidenceId → RouteEntry → run (result TablePushError nat * T);
  rt_swap_remove : T → nat → nat → run T;
  index_of : T → DestinationHash → run (option nat);
}.

Section default_methods.
Context {T : Type} `{RouteTable T}.

Definition route_count_via (t : T) (interface : InterfaceId) : run nat :=
  candidates ← rt_receiving_interfaces t;
  Done (length (filter (λ candidate, candidate = interface) candidates)).

(** [table.column()[i]] *)
Definition cell {A} (column : run (list A)) (i : nat) : run A := xs ← column; index xs i.

(** The row [i] as an entry, column by column. *)
Definition entry_at (t : T) (i : nat) : run RouteEntry :=
  h ← cell (rt_hops t) i;
  l ← cell (rt_learned_at t) i;
  a ← cell (rt_last_route_activity_at t) i;
  r ← cell (rt_responsiveness t) i;
  ri ← cell (rt_receiving_interfaces t) i;
  n ← cell (rt_next_hops t) i;
  rt ← cell (rt_retentions t) i;
  Done (mkEntry h l a r ri n rt).

(** The loop of [repoint_receiving_interface]. *)
Fixpoint repoint_loop (todo : nat) (t : T) (row : nat) (previous current : InterfaceId)
    (now : InstantMillis) (moved : nat) : run (nat * T) :=
  match todo with
  | O => Done (moved, t)
  | S todo =>
      ri ← cell (rt_receiving_interfaces t) row;
      if decide (ri = previous) then
        e ← entry_at t row;
        t ← rt_set_row t row (mkEntry (hops e) (learned_at e) now (responsiveness e) current
                                (next_hop e) (retention e));
        repoint_loop todo t (S row) previous current now (S moved)
      else repoint_loop todo t (S row) previous current now moved
  end.
Definition repoint_receiving_interface (t : T) (previous current : InterfaceId)
    (now : InstantMillis) : run (nat * T) :=
  repoint_loop (rt_len t) t 0 previous current now 0.
End default_methods.

(** * The contract *)

Record RouteRow := mkRow {
  row_destination : DestinationHash;
  row_evidence : RouteEvidenceId;
  row_entry : RouteEntry;
}.

Definition with_entry (e : RouteEntry) (r : RouteRow) : RouteRow :=
  mkRow (row_destination r) (row_evidence r) e.
Definition with_evidence (id : RouteEvidenceId) (r : RouteRow) : RouteRow :=
  mkRow (row_destination r) id (row_entry r).

(** [rt_rep t cap rows]: the table has capacity [cap] and holds [rows].  The owner of a table keeps
    destinations distinct: [push] is for a destination that is not there. *)
Class RouteTableLaws (T : Type) `{RouteTable T} := {
  rt_rep : T → nat → list RouteRow → Prop;
  rt_capacity_ok : ∀ t cap rows, rt_rep t cap rows → rt_capacity t = cap;
  rt_len_ok : ∀ t cap rows, rt_rep t cap rows → rt_len t = length rows ∧ length rows ≤ cap;
  rt_columns_ok : ∀ t cap rows, rt_rep t cap rows →
    rt_destinations t = Done (row_destination <$> rows)
    ∧ rt_hops t = Done ((hops ∘ row_entry) <$> rows)
    ∧ rt_learned_at t = Done ((learned_at ∘ row_entry) <$> rows)
    ∧ rt_last_route_activity_at t = Done ((last_route_activity_at ∘ row_entry) <$> rows)
    ∧ rt_responsiveness t = Done ((responsiveness ∘ row_entry) <$> rows)
    ∧ rt_receiving_interfaces t = Done ((receiving_interface ∘ row_entry) <$> rows)
    ∧ rt_next_hops t = Done ((next_hop ∘ row_entry) <$> rows)
    ∧ rt_retentions t = Done ((retention ∘ row_entry) <$> rows)
    ∧ rt_evidence_ids t = Done (row_evidence <$> rows);
  rt_set_row_ok : ∀ t cap rows i e, rt_rep t cap rows → i < length rows →
    ∃ t', rt_set_row t i e = Done t' ∧ rt_rep t' cap (alter (with_entry e) i rows);
  rt_set_evidence_ok : ∀ t cap rows i id, rt_rep t cap rows → i < length rows →
    ∃ t', rt_set_evidence_id t i id = Done t' ∧ rt_rep t' cap (alter (with_evidence id) i rows);
  rt_push_ok : ∀ t cap rows d id e, rt_rep t cap rows → length rows < cap →
    (d ∉ row_destination <$> rows) →
    ∃ t', rt_push t d id e = Done (Ok (length rows), t')
      ∧ rt_rep t' cap (rows ++ [mkRow d id e]);
  rt_push_full : ∀ t cap rows d id e, rt_rep t cap rows → length rows = cap →
    rt_push t d id e = Done (Err TableFull, t);
  rt_swap_remove_ok : ∀ t cap rows i, rt_rep t cap rows → i < length rows →
    ∃ t', rt_swap_remove t i (length rows - 1) = Done t' ∧ rt_rep t' cap (swap_removed rows i);
  index_of_rep : ∀ t cap rows d, rt_rep t cap rows →
    (∃ i r, index_of t d = Done (Some i) ∧ rows !! i = Some r ∧ row_destination r = d)
    ∨ (index_of t d = Done None ∧ d ∉ row_destination <$> rows);
}.

Lemma position_from_spec {A} (P : A → bool) (xs : list A) i :
  match position_from P xs i with
  | Some j => i ≤ j ∧ ∃ x, xs !! (j - i) = Some x ∧ P x = true
  | None => ∀ x, x ∈ xs → P x = false
  end.
Proof.
  revert i. induction xs as [|x xs IH]; intros i; cbn; [by intros x ?%not_elem_of_nil|].
  destruct (P x) eqn:Hx.
  - split; [done|]. exists x. by rewrite Nat.sub_diag.
  - specialize (IH (S i)). destruct (position_from P xs (S i)) as [j|].
    + destruct IH as (Hle & y & Hy & Hp). split; [lia|]. exists y.
      replace (j - i) with (S (j - S i)) by lia. done.
    + intros y. rewrite elem_of_cons. intros [->|Hy]; [done|by apply IH].
Qed.

(** The scan finds the destination, or it is not there. *)
Lemma default_index_of_spec rows d :
  let o := default_index_of (Done (row_destination <$> rows)) d in
  (∃ i r, o = Done (Some i) ∧ rows !! i = Some r ∧ row_destination r = d)
  ∨ (o = Done None ∧ d ∉ row_destination <$> rows).
Proof.
  unfold default_index_of. cbn [mbind run_bind].
  pose proof (position_from_spec (λ candidate, bool_decide (candidate = d)) (row_destination <$> rows) 0) as Hp.
  destruct (position_from _ _ 0) as [i|].
  - destruct Hp as (_ & x & Hx & E%bool_decide_eq_true). rewrite Nat.sub_0_r, list_lookup_fmap in Hx.
    apply fmap_Some in Hx as (r & Hr' & ->). left. by exists i, r.
  - right. split; [done|]. intros Hin. by specialize (Hp d Hin); apply bool_decide_eq_false in Hp.
Qed.
Section laws.
Context {T : Type} `{RouteTableLaws T}.

Lemma rt_destinations_rep t cap rows :
  rt_rep t cap rows → rt_destinations t = Done (row_destination <$> rows).
Proof. intros Hr. by destruct (rt_columns_ok t cap rows Hr) as (? & _). Qed.

(** Every column read of a live row succeeds. *)
Lemma rt_cells t cap rows i r :
  rt_rep t cap rows → rows !! i = Some r →
  cell (rt_destinations t) i = Done (row_destination r)
  ∧ cell (rt_hops t) i = Done (hops (row_entry r))
  ∧ cell (rt_learned_at t) i = Done (learned_at (row_entry r))
  ∧ cell (rt_last_route_activity_at t) i = Done (last_route_activity_at (row_entry r))
  ∧ cell (rt_responsiveness t) i = Done (responsiveness (row_entry r))
  ∧ cell (rt_receiving_interfaces t) i = Done (receiving_interface (row_entry r))
  ∧ cell (rt_next_hops t) i = Done (next_hop (row_entry r))
  ∧ cell (rt_retentions t) i = Done (retention (row_entry r))
  ∧ cell (rt_evidence_ids t) i = Done (row_evidence r).
Proof.
  intros Hr Hi. destruct (rt_columns_ok t cap rows Hr) as (E1 & E2 & E3 & E4 & E5 & E6 & E7 & E8 & E9).
  unfold cell. rewrite E1, E2, E3, E4, E5, E6, E7, E8, E9. cbn [mbind run_bind].
  repeat split; apply index_lookup; by rewrite list_lookup_fmap, Hi.
Qed.

Lemma entry_at_rep t cap rows i r :
  rt_rep t cap rows → rows !! i = Some r → entry_at t i = Done (row_entry r).
Proof.
  intros Hr Hi. destruct (rt_cells t cap rows i r Hr Hi) as (_ & E2 & E3 & E4 & E5 & E6 & E7 & E8 & _).
  unfold entry_at. rewrite E2, E3, E4, E5, E6, E7, E8. cbn [mbind run_bind]. by destruct (row_entry r).
Qed.

End laws.

(** * [FixedArrayRouteTable] *)

Module Fixed.
Record FixedArrayRouteTable (MAX_TRACKED_DESTINATIONS : nat) := mk {
  len : nat;
  f_destination : list DestinationHash;
  f_hops : list Z;
  f_learned_at : list InstantMillis;
  f_last_route_activity_at : list InstantMillis;
  f_responsiveness : list RouteResponsiveness;
  f_receiving_interface : list InterfaceId;
  f_next_hop : list NextHop;
  f_retention : list RouteRetention;
  f_evidence_id : list RouteEvidenceId;
}.
Arguments mk {_}.
Arguments len {_}.
Arguments f_destination {_}.
Arguments f_hops {_}.
Arguments f_learned_at {_}.
Arguments f_last_route_activity_at {_}.
Arguments f_responsiveness {_}.
Arguments f_receiving_interface {_}.
Arguments f_next_hop {_}.
Arguments f_retention {_}.
Arguments f_evidence_id {_}.

Section fixed.
Context {MAX : nat}.
Abbreviation table := (FixedArrayRouteTable MAX).

Definition default : table :=
  mk 0 (replicate MAX (replicate 16 0%Z)) (replicate MAX 0%Z) (replicate MAX 0%Z)
    (replicate MAX 0%Z) (replicate MAX Responsive) (replicate MAX (replicate 8 0%Z))
    (replicate MAX Direct) (replicate MAX Network) (replicate MAX FIRST).

Definition set_row (t : table) (i : nat) (row : RouteEntry) : run table :=
  h ← store (f_hops t) i (hops row);
  l ← store (f_learned_at t) i (learned_at row);
  a ← store (f_last_route_activity_at t) i (last_route_activity_at row);
  r ← store (f_responsiveness t) i (responsiveness row);
  ri ← store (f_receiving_interface t) i (receiving_interface row);
  n ← store (f_next_hop t) i (next_hop row);
  rt ← store (f_retention t) i (retention row);
  Done (mk (len t) (f_destination t) h l a r ri n rt (f_evidence_id t)).

Definition set_evidence_id (t : table) (i : nat) (evidence_id : RouteEvidenceId) : run table :=
  e ← store (f_evidence_id t) i evidence_id;
  Done (mk (len t) (f_destination t) (f_hops t) (f_learned_at t) (f_last_route_activity_at t)
          (f_responsiveness t) (f_receiving_interface t) (f_next_hop t) (f_retention t) e).

Definition push (t : table) (destination : DestinationHash) (evidence_id : RouteEvidenceId)
    (row : RouteEntry) : run (result TablePushError nat * table) :=
  if (MAX <=? len t)%nat then Done (Err TableFull, t) else
  let i := len t in
  d ← store (f_destination t) i destination;
  e ← store (f_evidence_id t) i evidence_id;
  let t := mk (len t) d (f_hops t) (f_learned_at t) (f_last_route_activity_at t)
             (f_responsiveness t) (f_receiving_interface t) (f_next_hop t) (f_retention t) e in
  t ← set_row t i row;
  Done (Ok i, mk (len t + 1) (f_destination t) (f_hops t) (f_learned_at t)
                (f_last_route_activity_at t) (f_responsiveness t) (f_receiving_interface t)
                (f_next_hop t) (f_retention t) (f_evidence_id t)).

Definition swap_remove (t : table) (i last : nat) : run table :=
  d ← move_last (f_destination t) i last;
  h ← move_last (f_hops t) i last;
  l ← move_last (f_learned_at t) i last;
  a ← move_last (f_last_route_activity_at t) i last;
  r ← move_last (f_responsiveness t) i last;
  ri ← move_last (f_receiving_interface t) i last;
  n ← move_last (f_next_hop t) i last;
  rt ← move_last (f_retention t) i last;
  e ← move_last (f_evidence_id t) i last;
  Done (mk last d h l a r ri n rt e).

#[global] Instance fixed_routes : RouteTable table := {|
  rt_capacity := λ _, MAX;
  rt_len := len;
  rt_destinations := λ t, slice (f_destination t) 0 (len t);
  rt_hops := λ t, slice (f_hops t) 0 (len t);
  rt_learned_at := λ t, slice (f_learned_at t) 0 (len t);
  rt_last_route_activity_at := λ t, slice (f_last_route_activity_at t) 0 (len t);
  rt_responsiveness := λ t, slice (f_responsiveness t) 0 (len t);
  rt_receiving_interfaces := λ t, slice (f_receiving_interface t) 0 (len t);
  rt_next_hops := λ t, slice (f_next_hop t) 0 (len t);
  rt_retentions := λ t, slice (f_retention t) 0 (len t);
  rt_evidence_ids := λ t, slice (f_evidence_id t) 0 (len t);
  rt_set_row := set_row;
  rt_set_evidence_id := set_evidence_id;
  rt_push := push;
  rt_swap_remove := swap_remove;
  index_of := λ t, default_index_of (slice (f_destination t) 0 (len t));
|}.

(** The first [n] cells of every column are the rows'. *)
Record columns (t : table) (rows : list RouteRow) : Prop := {
  c_destination : column MAX (len t) (f_destination t) (row_destination <$> rows);
  c_hops : column MAX (len t) (f_hops t) ((hops ∘ row_entry) <$> rows);
  c_learned_at : column MAX (len t) (f_learned_at t) ((learned_at ∘ row_entry) <$> rows);
  c_last_route_activity_at :
    column MAX (len t) (f_last_route_activity_at t) ((last_route_activity_at ∘ row_entry) <$> rows);
  c_responsiveness : column MAX (len t) (f_responsiveness t) ((responsiveness ∘ row_entry) <$> rows);
  c_receiving_interface :
    column MAX (len t) (f_receiving_interface t) ((receiving_interface ∘ row_entry) <$> rows);
  c_next_hop : column MAX (len t) (f_next_hop t) ((next_hop ∘ row_entry) <$> rows);
  c_retention : column MAX (len t) (f_retention t) ((retention ∘ row_entry) <$> rows);
  c_evidence_id : column MAX (len t) (f_evidence_id t) (row_evidence <$> rows);
}.

Lemma columns_len t rows : columns t rows → len t = length rows ∧ length rows ≤ MAX.
Proof.
  intros Hc. pose proof (c_destination _ _ Hc) as Hd. pose proof (column_length _ _ _ _ Hd) as Hl.
  rewrite length_fmap in Hl. destruct Hd as (_ & ? & _). lia.
Qed.

(** A column of [alter]ed rows: the changed field is stored, the others stay. *)
Lemma fmap_alter_eq {B} (f : RouteRow → B) (g : RouteRow → RouteRow) (i : nat) (rows : list RouteRow) x :
  (∀ r, f (g r) = x) → i < length rows → f <$> alter g i rows = <[i := x]> (f <$> rows).
Proof.
  intros Hg Hi. destruct (lookup_lt_is_Some_2 rows i Hi) as [r Hr].
  apply list_eq. intros j. rewrite list_lookup_fmap.
  destruct (decide (j = i)) as [->|Hne].
  - rewrite list_lookup_alter_eq, Hr, list_lookup_insert_eq by (by rewrite length_fmap).
    cbn. by rewrite Hg.
  - by rewrite list_lookup_alter_ne, list_lookup_insert_ne, list_lookup_fmap by done.
Qed.

Lemma fmap_alter_same {B} (f : RouteRow → B) (g : RouteRow → RouteRow) (i : nat) (rows : list RouteRow) :
  (∀ r, f (g r) = f r) → f <$> alter g i rows = f <$> rows.
Proof.
  intros Hg. apply list_eq. intros j. rewrite !list_lookup_fmap.
  destruct (decide (j = i)) as [->|Hne]; [|by rewrite list_lookup_alter_ne].
  rewrite list_lookup_alter_eq. destruct (rows !! i); cbn; [by rewrite Hg|done].
Qed.

Lemma set_row_columns t rows i e :
  columns t rows → i < length rows →
  ∃ t', set_row t i e = Done t' ∧ columns t' (alter (with_entry e) i rows).
Proof.
  intros Hc Hi. destruct (columns_len t rows Hc) as [Hlen Hmax]. rewrite <- Hlen in Hi.
  unfold set_row.
  step_column (column_store MAX _ _ _ i (hops e) (c_hops _ _ Hc) Hi).
  step_column (column_store MAX _ _ _ i (learned_at e) (c_learned_at _ _ Hc) Hi).
  step_column (column_store MAX _ _ _ i (last_route_activity_at e) (c_last_route_activity_at _ _ Hc) Hi).
  step_column (column_store MAX _ _ _ i (responsiveness e) (c_responsiveness _ _ Hc) Hi).
  step_column (column_store MAX _ _ _ i (receiving_interface e) (c_receiving_interface _ _ Hc) Hi).
  step_column (column_store MAX _ _ _ i (next_hop e) (c_next_hop _ _ Hc) Hi).
  step_column (column_store MAX _ _ _ i (retention e) (c_retention _ _ Hc) Hi).
  rewrite Hlen in Hi. eexists. split; [done|].
  split; cbn; rewrite ?(fmap_alter_same row_destination), ?(fmap_alter_same row_evidence) by done;
    try apply Hc; (erewrite fmap_alter_eq; [eassumption|done|exact Hi]).
Qed.

Lemma set_evidence_columns t rows i id :
  columns t rows → i < length rows →
  ∃ t', set_evidence_id t i id = Done t' ∧ columns t' (alter (with_evidence id) i rows).
Proof.
  intros Hc Hi. destruct (columns_len t rows Hc) as [Hlen Hmax]. rewrite <- Hlen in Hi.
  unfold set_evidence_id.
  step_column (column_store MAX _ _ _ i id (c_evidence_id _ _ Hc) Hi).
  rewrite Hlen in Hi. eexists. split; [done|].
  split; cbn; rewrite ?(fmap_alter_same row_destination), ?(fmap_alter_same (_ ∘ row_entry)) by done;
    try apply Hc. erewrite fmap_alter_eq; [eassumption|done|exact Hi].
Qed.

Lemma set_row_destination t i e t' : set_row t i e = Done t' → f_destination t' = f_destination t.
Proof. unfold set_row. run_binds. intros E. by inv_run. Qed.

Lemma set_evidence_destination t i id t' :
  set_evidence_id t i id = Done t' → f_destination t' = f_destination t.
Proof. unfold set_evidence_id. run_binds. intros E. by inv_run. Qed.

Lemma push_columns t rows d id e :
  columns t rows → length rows < MAX →
  ∃ t', push t d id e = Done (Ok (length rows), t') ∧ columns t' (rows ++ [mkRow d id e]).
Proof.
  intros Hc Hroom. destruct (columns_len t rows Hc) as [Hlen Hmax]. rewrite <- Hlen in Hroom.
  unfold push, set_row. rewrite (proj2 (Nat.leb_gt _ _)) by done. cbn [len f_destination f_hops
    f_learned_at f_last_route_activity_at f_responsiveness f_receiving_interface f_next_hop
    f_retention f_evidence_id].
  step_column (column_push MAX _ _ _ d (c_destination _ _ Hc) Hroom).
  step_column (column_push MAX _ _ _ id (c_evidence_id _ _ Hc) Hroom).
  step_column (column_push MAX _ _ _ (hops e) (c_hops _ _ Hc) Hroom).
  step_column (column_push MAX _ _ _ (learned_at e) (c_learned_at _ _ Hc) Hroom).
  step_column (column_push MAX _ _ _ (last_route_activity_at e) (c_last_route_activity_at _ _ Hc) Hroom).
  step_column (column_push MAX _ _ _ (responsiveness e) (c_responsiveness _ _ Hc) Hroom).
  step_column (column_push MAX _ _ _ (receiving_interface e) (c_receiving_interface _ _ Hc) Hroom).
  step_column (column_push MAX _ _ _ (next_hop e) (c_next_hop _ _ Hc) Hroom).
  step_column (column_push MAX _ _ _ (retention e) (c_retention _ _ Hc) Hroom).
  rewrite Hlen. eexists. split; [done|].
  split; cbn; rewrite fmap_app, Nat.add_1_r, <- Hlen; done.
Qed.

Lemma swap_remove_columns t rows i :
  columns t rows → i < length rows →
  ∃ t', swap_remove t i (length rows - 1) = Done t' ∧ columns t' (swap_removed rows i).
Proof.
  intros Hc Hi. destruct (columns_len t rows Hc) as [Hlen Hmax].
  assert (Hl : len t = S (length rows - 1)) by lia.
  destruct Hc as [H1 H2 H3 H4 H5 H6 H7 H8 H9]. rewrite Hl in *.
  set (last := length rows - 1) in *. assert (Hil : i ≤ last) by lia. unfold swap_remove.
  step_column (column_swap_remove MAX last _ _ i H1 Hil).
  step_column (column_swap_remove MAX last _ _ i H2 Hil).
  step_column (column_swap_remove MAX last _ _ i H3 Hil).
  step_column (column_swap_remove MAX last _ _ i H4 Hil).
  step_column (column_swap_remove MAX last _ _ i H5 Hil).
  step_column (column_swap_remove MAX last _ _ i H6 Hil).
  step_column (column_swap_remove MAX last _ _ i H7 Hil).
  step_column (column_swap_remove MAX last _ _ i H8 Hil).
  step_column (column_swap_remove MAX last _ _ i H9 Hil).
  eexists. split; [done|]. split; cbn; rewrite fmap_swap_removed; done.
Qed.

#[global] Instance fixed_routes_laws : RouteTableLaws table.
Proof.
  refine {| rt_rep := λ t cap rows, cap = MAX ∧ columns t rows |}; cbn.
  - by intros t cap rows [-> _].
  - intros t cap rows [-> Hc]. by apply columns_len.
  - intros t cap rows [_ []]. repeat split; by eapply column_slice.
  - intros t cap rows i e [-> Hc] Hi. destruct (set_row_columns t rows i e Hc Hi) as (t' & -> & ?).
    by exists t'.
  - intros t cap rows i id [-> Hc] Hi.
    destruct (set_evidence_columns t rows i id Hc Hi) as (t' & -> & ?). by exists t'.
  - intros t cap rows d id e [-> Hc] Hi _. destruct (push_columns t rows d id e Hc Hi) as (t' & -> & ?).
    by exists t'.
  - intros t cap rows d id e [-> Hc] Hi. destruct (columns_len t rows Hc). unfold push.
    by rewrite (proj2 (Nat.leb_le _ _)) by lia.
  - intros t cap rows i [-> Hc] Hi. destruct (swap_remove_columns t rows i Hc Hi) as (t' & -> & ?).
    by exists t'.
  - intros t cap rows d [_ Hc]. rewrite (column_slice _ _ _ _ (c_destination _ _ Hc)).
    apply default_index_of_spec.
Defined.

Lemma routes_default_rep : rt_rep default MAX [].
Proof. split; [done|]. split; cbn; apply column_new. Qed.
End fixed.
End Fixed.
