(* ===== verification/RoutesIndexed.v ===== *)
(** The indexed route table: [prns-core/src/routing/routes/impls/fixed_indexed.rs].

    The columns of the fixed-array table with a row index over the destination column, which
    answers [index_of] instead of a scan.  It keeps the contract of [RouteTable], so every theorem
    about the routing table holds of it too, and it cannot be told from the fixed-array table.
    [FixedHeapRouteTable] of [fixed_heap.rs] is the same code with boxed columns. *)

From S2P Require Import Prelude LemireIndex Evidence Columns Routes.

(** [route_index_buckets] of [routes/core.rs]. *)
Definition route_index_buckets (destinations : nat) : Z :=
  buckets_for_two_thirds_load (Z.of_nat destinations).

(** The columns [len .. evidence_id] are those of the fixed-array table; the slots of the index are
    [[u16; BUCKETS]]. *)
Record FixedIndexedRouteTable (N BUCKETS : nat) := mkIndexed {
  route_columns : Fixed.FixedArrayRouteTable N;
  route_index : list Z;
}.
Arguments mkIndexed {_ _}.
Arguments route_columns {_ _}.
Arguments route_index {_ _}.

Section indexed_routes.
Context {N BUCKETS : nat}.
Abbreviation table := (FixedIndexedRouteTable N BUCKETS).
Abbreviation EMPTY := LemireIndex.Fixed.EMPTY.
Abbreviation WIDTH := LemireIndex.Fixed.WIDTH.
Abbreviation destination t := (Fixed.f_destination (route_columns t)).
Implicit Types (t : table) (rows : list RouteRow).

Definition indexed_default : table := mkIndexed Fixed.default (new EMPTY BUCKETS).

Definition indexed_index_of t (d : DestinationHash) : run (option nat) :=
  get EMPTY (route_index t) d (destination t).

Definition indexed_set_row t (i : nat) (row : RouteEntry) : run table :=
  c ← Fixed.set_row (route_columns t) i row;
  Done (mkIndexed c (route_index t)).

Definition indexed_set_evidence_id t (i : nat) (evidence_id : RouteEvidenceId) : run table :=
  c ← Fixed.set_evidence_id (route_columns t) i evidence_id;
  Done (mkIndexed c (route_index t)).

(** The writes of [push] up to [self.len += 1] are the fixed-array table's; then the row is
    indexed. *)
Definition indexed_push t (d : DestinationHash) (evidence_id : RouteEvidenceId) (row : RouteEntry) :
    run (result TablePushError nat * table) :=
  '(o, c) ← Fixed.push (route_columns t) d evidence_id row;
  match o with
  | Err e => Done (Err e, t)
  | Ok i =>
      ix ← LemireIndex.insert EMPTY WIDTH (route_index t) i (Fixed.f_destination c);
      Done (Ok i, mkIndexed c ix)
  end.

Definition indexed_swap_remove t (i last : nat) : run table :=
  removed ← index (destination t) i;
  ix ← LemireIndex.remove EMPTY (route_index t) removed (destination t);
  ix ← (if (i =? last)%nat then Done ix else
        moved ← index (destination t) last;
        LemireIndex.repoint EMPTY WIDTH ix moved i (destination t));
  c ← Fixed.swap_remove (route_columns t) i last;
  Done (mkIndexed c ix).

#[global] Instance indexed_routes : RouteTable table := {|
  rt_capacity := λ _, N;
  rt_len := λ t, Fixed.len (route_columns t);
  rt_destinations := λ t, rt_destinations (route_columns t);
  rt_hops := λ t, rt_hops (route_columns t);
  rt_learned_at := λ t, rt_learned_at (route_columns t);
  rt_last_route_activity_at := λ t, rt_last_route_activity_at (route_columns t);
  rt_responsiveness := λ t, rt_responsiveness (route_columns t);
  rt_receiving_interfaces := λ t, rt_receiving_interfaces (route_columns t);
  rt_next_hops := λ t, rt_next_hops (route_columns t);
  rt_retentions := λ t, rt_retentions (route_columns t);
  rt_evidence_ids := λ t, rt_evidence_ids (route_columns t);
  rt_set_row := indexed_set_row;
  rt_set_evidence_id := indexed_set_evidence_id;
  rt_push := indexed_push;
  rt_swap_remove := indexed_swap_remove;
  index_of := indexed_index_of;
|}.

(** ** The invariant *)

(** The two [assert!]s evaluated when a table type is used. *)
Definition indexable : Prop := (route_index_buckets N ≤ Z.of_nat BUCKETS ∧ Z.of_nat N < u16_max)%Z.

Record indexed_rep t rows : Prop := {
  ir_indexable : indexable;
  ir_columns : Fixed.columns (route_columns t) rows;
  ir_buckets : length (route_index t) = BUCKETS;
  ir_index : represents EMPTY (route_index t) (destination t) (length rows);
  ir_distinct : NoDup (row_destination <$> rows);
}.

Lemma indexable_room : indexable → (0 < BUCKETS)%nat ∧ (0 < N → N < BUCKETS)%nat.
Proof.
  intros [Hb Hn]. change u16_max with 65535%Z in Hn.
  unfold route_index_buckets, buckets_for_two_thirds_load, saturating_add, div_ceil, max_width in Hb.
  destruct (Z.eqb_spec (Z.of_nat N) 0); [lia|].
  pose proof (Z.div_mod (Z.of_nat N + 2 - 1) 2 ltac:(lia)).
  pose proof (Z.mod_pos_bound (Z.of_nat N + 2 - 1) 2 ltac:(lia)). lia.
Qed.

(** The destination column's first rows are the rows' destinations. *)
Lemma destination_lookup (c : Fixed.FixedArrayRouteTable N) rows j :
  Fixed.columns c rows → j < length rows →
  Fixed.f_destination c !! j = row_destination <$> rows !! j.
Proof.
  intros Hc Hj. destruct (Fixed.columns_len _ _ Hc) as [Hl _].
  destruct (Fixed.c_destination _ _ Hc) as (_ & _ & E).
  rewrite <- list_lookup_fmap, <- E, Hl. by rewrite lookup_take_lt.
Qed.

Lemma indexed_distinct_keys t rows :
  Fixed.columns (route_columns t) rows → NoDup (row_destination <$> rows) →
  distinct_keys (destination t) (length rows).
Proof.
  intros Hc Hnd d i j (Hi & r & Hr & <-) (Hj & r' & Hr' & E).
  rewrite (destination_lookup _ rows i Hc Hi), <- list_lookup_fmap in Hr.
  rewrite (destination_lookup _ rows j Hc Hj), <- list_lookup_fmap in Hr'.
  eapply NoDup_lookup; [exact Hnd|exact Hr|]. cbn in E. by subst r'.
Qed.

(** Changing other columns leaves the index as it is. *)
Lemma indexed_rep_same t rows c rows' :
  indexed_rep t rows → Fixed.columns c rows' → Fixed.f_destination c = destination t →
  row_destination <$> rows' = row_destination <$> rows → indexed_rep (mkIndexed c (route_index t)) rows'.
Proof.
  intros [Ha Hc Hb Hx Hd] Hc' E Er. assert (El : length rows' = length rows).
  { by rewrite <- (length_fmap row_destination rows'), Er, length_fmap. }
  split; cbn; [done..| |by rewrite Er]. by rewrite E, El.
Qed.

Lemma indexed_push_ok t rows d id e :
  indexed_rep t rows → length rows < N → (d ∉ row_destination <$> rows) →
  ∃ t', indexed_push t d id e = Done (Ok (length rows), t') ∧ indexed_rep t' (rows ++ [mkRow d id e]).
Proof.
  intros [Ha Hc Hb Hx Hnd] Hroom Hd. unfold indexed_push.
  destruct (Fixed.push_columns _ rows d id e Hc Hroom) as (c & -> & Hc'). cbn [mbind run_bind].
  destruct (indexable_room Ha) as [_ Hlt]. specialize (Hlt ltac:(lia)). pose proof Ha as [_ Ha2]. change u16_max with 65535%Z in Ha2.
  assert (Hl : length (rows ++ [mkRow d id e]) = S (length rows)) by (rewrite length_app; cbn; lia).
  destruct (represents_push EMPTY WIDTH (route_index t) (destination t) (Fixed.f_destination c) (length rows) d)
    as (ix & -> & Hlen & Hx'); try done; try (change EMPTY with 65535%Z; lia).
  - apply hashes_keys_ok.
  - intros j Hj. rewrite (destination_lookup c _ j Hc') by lia.
    rewrite (destination_lookup _ rows j Hc Hj). by rewrite lookup_app_l.
  - rewrite (destination_lookup c _ _ Hc') by lia. by rewrite lookup_app_r, Nat.sub_diag.
  - cbn [mbind run_bind]. eexists. split; [done|].
    split; cbn; [done|done|lia|by rewrite Hl|]. rewrite fmap_app. by apply NoDup_snoc.
Qed.

Lemma indexed_swap_remove_ok t rows i :
  indexed_rep t rows → i < length rows →
  ∃ t', indexed_swap_remove t i (length rows - 1) = Done t' ∧ indexed_rep t' (swap_removed rows i).
Proof.
  intros [Ha Hc Hb Hx Hnd] Hi. unfold indexed_swap_remove.
  destruct (Fixed.columns_len _ _ Hc) as [Hlen Hmax]. set (last := length rows - 1) in *.
  assert (Hl : length rows = S last) by lia.
  destruct (Fixed.swap_remove_columns _ rows i Hc Hi) as (c & Ec & Hc'). fold last in Ec.
  destruct (lookup_lt_is_Some_2 rows i Hi) as [r Hr].
  destruct (lookup_lt_is_Some_2 rows last) as [rl Hrl]; [lia|].
  assert (Ei := destination_lookup _ rows i Hc Hi). assert (El := destination_lookup _ rows last Hc ltac:(lia)).
  rewrite Hr in Ei. rewrite Hrl in El. cbn in Ei, El.
  pose proof (indexed_distinct_keys t rows Hc Hnd) as Hk. rewrite Hl in Hx, Hk.
  pose proof Ha as [_ Ha2]. change u16_max with 65535%Z in Ha2.
  assert (Hl' : length (swap_removed rows i) = last) by (by rewrite length_swap_removed).
  assert (Hnew : ∀ j, j < last → Fixed.f_destination c !! j = destination t !! (if decide (j = i) then last else j)).
  { intros j Hj. rewrite (destination_lookup c _ j Hc') by lia.
    rewrite lookup_swap_removed by lia. rewrite (destination_lookup _ rows _ Hc) by (case_decide; lia). done. }
  destruct (represents_swap_remove EMPTY WIDTH (route_index t) (destination t) (Fixed.f_destination c) last i
    (row_destination r) (row_destination rl)) as (ix1 & ix2 & E1 & E2 & Hlen2 & Hrep); try done.
  - change EMPTY with 65535%Z. change (2 ^ WIDTH)%Z with 65536%Z. lia.
  - lia.
  - apply hashes_keys_ok.
  - intros j Hj Hne. rewrite Hnew by lia. by rewrite decide_False.
  - intros Hil. rewrite Hnew by lia. by rewrite decide_True.
  - cbn [index_key hash_row] in E1, E2. unfold DestinationHash in *. rewrite (index_lookup _ _ _ Ei). cbn [mbind run_bind].
    rewrite E1. cbn [mbind run_bind]. rewrite (index_lookup _ _ _ El). cbn [mbind run_bind].
    rewrite E2. cbn [mbind run_bind]. rewrite Ec. cbn [mbind run_bind].
    eexists. split; [done|]. split; cbn; [done|done|lia|by rewrite Hl'|].
    apply (submseteq_NoDup _ (row_destination <$> rows) Hnd), fmap_submseteq.
    by eapply swap_removed_sub.
Qed.

Lemma indexed_index_of_ok t rows d :
  indexed_rep t rows →
  (∃ i r, indexed_index_of t d = Done (Some i) ∧ rows !! i = Some r ∧ row_destination r = d)
  ∨ (indexed_index_of t d = Done None ∧ d ∉ row_destination <$> rows).
Proof.
  intros [Ha Hc Hb Hx Hnd]. unfold indexed_index_of.
  destruct (represents_get EMPTY (route_index t) (destination t) (length rows) d Hx (lemire_key_u64 d))
    as ([i|] & -> & Hr).
  - left. destruct Hr as (Hi & r' & Hr' & <-). rewrite (destination_lookup _ rows i Hc Hi) in Hr'.
    apply fmap_Some in Hr' as (r & Hr & ->). by exists i, r.
  - right. split; [done|]. intros (i & Hi)%list_elem_of_lookup. rewrite list_lookup_fmap in Hi.
    apply fmap_Some in Hi as (r & Hi & ->). pose proof (lookup_lt_Some _ _ _ Hi) as Hlt.
    apply (Hr i). split; [done|]. exists (row_destination r).
    by rewrite (destination_lookup _ rows i Hc Hlt), Hi.
Qed.

#[global] Instance indexed_routes_laws : RouteTableLaws table.
Proof.
  refine {| rt_rep := λ t cap rows, cap = N ∧ indexed_rep t rows |}.
  - by intros t cap rows [-> _].
  - intros t cap rows [-> Hr]. apply (Fixed.columns_len _ _ (ir_columns _ _ Hr)).
  - intros t cap rows [-> Hr]. exact (rt_columns_ok _ N rows (conj eq_refl (ir_columns _ _ Hr))).
  - intros t cap rows i e [-> Hr] Hi. cbn [rt_set_row indexed_routes]. unfold indexed_set_row.
    destruct (Fixed.set_row_columns _ rows i e (ir_columns _ _ Hr) Hi) as (c & E & Hc). rewrite E.
    eexists. split; [done|]. split; [done|].
    apply (indexed_rep_same t rows); [done..|by eapply Fixed.set_row_destination|by apply Fixed.fmap_alter_same].
  - intros t cap rows i id [-> Hr] Hi. cbn [rt_set_evidence_id indexed_routes]. unfold indexed_set_evidence_id.
    destruct (Fixed.set_evidence_columns _ rows i id (ir_columns _ _ Hr) Hi) as (c & E & Hc). rewrite E.
    eexists. split; [done|]. split; [done|].
    apply (indexed_rep_same t rows); [done..|by eapply Fixed.set_evidence_destination|by apply Fixed.fmap_alter_same].
  - intros t cap rows d id e [-> Hr] Hroom Hd. cbn [rt_push indexed_routes].
    destruct (indexed_push_ok t rows d id e Hr Hroom Hd) as (t' & -> & ?). by exists t'.
  - intros t cap rows d id e [-> Hr] Hfull. cbn. unfold indexed_push.
    destruct (Fixed.columns_len _ _ (ir_columns _ _ Hr)). unfold Fixed.push.
    by rewrite (proj2 (Nat.leb_le _ _)) by lia.
  - intros t cap rows i [-> Hr] Hi. cbn [rt_swap_remove indexed_routes]. destruct (indexed_swap_remove_ok t rows i Hr Hi) as (t' & -> & ?).
    by exists t'.
  - intros t cap rows d [_ Hr]. by apply indexed_index_of_ok.
Defined.

Lemma indexed_default_routes_rep : indexable → rt_rep indexed_default N [].
Proof.
  intros Ha. destruct (indexable_room Ha) as [Hpos _].
  destruct (Fixed.routes_default_rep (MAX := N)) as [_ Hc]. split; [done|]. split; cbn.
  - done.
  - exact Hc.
  - apply length_replicate.
  - apply represents_new; [done|apply hashes_keys_ok].
  - constructor.
Qed.
End indexed_routes.

(** * The index cannot be seen *)

(** The calls the owner of a route table makes: rows are written at live places, a destination is
    pushed when a lookup has not found it, and the removed row is replaced by the last. *)
Inductive RouteOp :=
  | OpIndexOf (d : DestinationHash)
  | OpSetRow (i : nat) (e : RouteEntry)
  | OpSetEvidence (i : nat) (id : RouteEvidenceId)
  | OpLearn (d : DestinationHash) (id : RouteEvidenceId) (e : RouteEntry)
  | OpSwapRemove (i : nat).

Inductive RouteAnswer :=
  | Found (o : option nat)
  | Pushed (o : result TablePushError nat)
  | Nothing.

Section route_ops.
Context {T : Type} `{RouteTable T}.

Definition run_op (t : T) (op : RouteOp) : run (RouteAnswer * T) :=
  match op with
  | OpIndexOf d => o ← index_of t d; Done (Found o, t)
  | OpSetRow i e =>
      if (i <? rt_len t)%nat then t ← rt_set_row t i e; Done (Nothing, t) else Done (Nothing, t)
  | OpSetEvidence i id =>
      if (i <? rt_len t)%nat then t ← rt_set_evidence_id t i id; Done (Nothing, t) else Done (Nothing, t)
  | OpLearn d id e =>
      o ← index_of t d;
      match o with
      | Some i => Done (Found (Some i), t)
      | None => '(r, t) ← rt_push t d id e; Done (Pushed r, t)
      end
  | OpSwapRemove i =>
      if (i <? rt_len t)%nat
      then t ← rt_swap_remove t i (rt_len t - 1); Done (Nothing, t) else Done (Nothing, t)
  end.

Fixpoint run_ops (t : T) (ops : list RouteOp) : run (list RouteAnswer * T) :=
  match ops with
  | [] => Done ([], t)
  | op :: ops =>
      '(answer, t) ← run_op t op;
      '(answers, t) ← run_ops t ops;
      Done (answer :: answers, t)
  end.
End route_ops.

Section same_answers.
Context {N BUCKETS : nat}.
Implicit Types (t : FixedIndexedRouteTable N BUCKETS).

(** A lookup answers alike while destinations are distinct. *)
Lemma index_of_unique {T1 T2} `{RouteTableLaws T1, RouteTableLaws T2} (t1 : T1) (t2 : T2) cap cap' rows d :
  rt_rep t1 cap rows → rt_rep t2 cap' rows → NoDup (row_destination <$> rows) →
  index_of t1 d = index_of t2 d.
Proof.
  intros Ha Hb Hnd.
  destruct (index_of_rep t1 cap rows d Ha) as [(i & r & -> & Hi & Hd)|[-> Hno]],
    (index_of_rep t2 cap' rows d Hb) as [(j & r' & -> & Hj & Hd')|[-> Hno']]; [|exfalso..|done].
  - do 2 f_equal. eapply NoDup_lookup; [exact Hnd| |]; rewrite list_lookup_fmap.
    + by rewrite Hi.
    + rewrite Hj. cbn. by rewrite Hd, Hd'.
  - apply Hno'. subst d. apply list_elem_of_fmap_2. by eapply list_elem_of_lookup_2.
  - apply Hno. subst d. apply list_elem_of_fmap_2. by eapply list_elem_of_lookup_2.
Qed.

Lemma indexed_lookup_as_array t rows d :
  indexed_rep t rows → index_of t d = index_of (route_columns t) d.
Proof.
  intros Hr. apply (index_of_unique t (route_columns t) N N rows d); [done| |apply Hr].
  exact (conj eq_refl (ir_columns _ _ Hr)).
Qed.

Lemma indexed_rt_rep t rows : indexed_rep t rows → rt_rep t N rows.
Proof. by intros Hr. Qed.

(** [as_array f g]: the call [f] on a table and the call [g] on its columns answer alike and leave the
    same columns, and the index is as it should be. *)
Definition as_array {A} (f : run (A * FixedIndexedRouteTable N BUCKETS))
    (g : run (A * Fixed.FixedArrayRouteTable N)) : Prop :=
  ∃ answer t' rows', f = Done (answer, t') ∧ g = Done (answer, route_columns t') ∧ indexed_rep t' rows'.

(** The writes to a live row. *)
Lemma write_as_array t rows i f g :
  indexed_rep t rows →
  (i < length rows → ∃ t' rows', f = Done t' ∧ g = Done (route_columns t') ∧ indexed_rep t' rows') →
  as_array (if (i <? rt_len t)%nat then t' ← f; Done (Nothing, t') else Done (Nothing, t))
    (if (i <? rt_len (route_columns t))%nat then c ← g; Done (Nothing, c) else Done (Nothing, route_columns t)).
Proof.
  intros Hr Hw. pose proof (Fixed.columns_len _ _ (ir_columns _ _ Hr)) as [Hlen _].
  change (rt_len t) with (Fixed.len (route_columns t)).
  change (rt_len (route_columns t)) with (Fixed.len (route_columns t)). rewrite Hlen.
  destruct (Nat.ltb_spec i (length rows)) as [Hi|]; [|by eexists _, t, rows].
  destruct (Hw Hi) as (t' & rows' & -> & -> & Hr'). by eexists _, t', rows'.
Qed.

Lemma learn_as_array t rows d id e :
  indexed_rep t rows → as_array (run_op t (OpLearn d id e)) (run_op (route_columns t) (OpLearn d id e)).
Proof.
  intros Hr. pose proof (Fixed.columns_len _ _ (ir_columns _ _ Hr)) as [Hlen Hmax]. cbn [run_op].
  rewrite <- (indexed_lookup_as_array t rows d Hr).
  destruct (index_of_rep t N rows d (indexed_rt_rep t rows Hr)) as [(i & r & -> & _)|[-> Hno]];
    [by eexists _, t, rows|]. cbn [mbind run_bind].
  destruct (decide (length rows = N)) as [Hfull|Hroom].
  - rewrite (rt_push_full t N rows d id e (indexed_rt_rep t rows Hr) Hfull). cbn [mbind run_bind].
    eexists _, t, rows. split; [done|]. split; [|done]. cbn. unfold Fixed.push.
    by rewrite (proj2 (Nat.leb_le _ _)) by lia.
  - destruct (rt_push_ok t N rows d id e (indexed_rt_rep t rows Hr)) as (t' & E & _ & Hr'); [lia|done|].
    rewrite E. eexists _, t', _. split; [done|]. split; [|exact Hr']. revert E. cbn. unfold indexed_push.
    destruct (Fixed.push_columns _ rows d id e (ir_columns _ _ Hr)) as (c & -> & _); [lia|].
    cbn [mbind run_bind]. run_binds. intros E. by inv_run.
Qed.

Lemma run_op_as_array t rows op :
  indexed_rep t rows → as_array (run_op t op) (run_op (route_columns t) op).
Proof.
  intros Hr. pose proof (Fixed.columns_len _ _ (ir_columns _ _ Hr)) as [Hlen _].
  pose proof (indexed_rt_rep t rows Hr) as Hrt.
  destruct op as [d|i e|i id|d id e|i]; [| | |by eapply learn_as_array|];
    [|apply (write_as_array t rows i); [done|]; intros Hi..].
  - cbn [run_op]. rewrite <- (indexed_lookup_as_array t rows d Hr).
    destruct (index_of_rep t N rows d Hrt) as [(i & r & -> & _)|[-> _]]; by eexists _, t, rows.
  - destruct (rt_set_row_ok t N rows i e Hrt Hi) as (t' & E & _ & Hr'). rewrite E.
    eexists t', _. split; [done|]. split; [|exact Hr']. revert E. cbn. unfold indexed_set_row.
    run_binds. intros E. by inv_run.
  - destruct (rt_set_evidence_ok t N rows i id Hrt Hi) as (t' & E & _ & Hr'). rewrite E.
    eexists t', _. split; [done|]. split; [|exact Hr']. revert E. cbn. unfold indexed_set_evidence_id.
    run_binds. intros E. by inv_run.
  - destruct (rt_swap_remove_ok t N rows i Hrt Hi) as (t' & E & _ & Hr'). cbn [rt_len indexed_routes Fixed.fixed_routes].
    rewrite Hlen, E. eexists t', _. split; [done|]. split; [|exact Hr']. revert E. cbn. unfold indexed_swap_remove.
    run_binds. intros E. by inv_run.
Qed.

Lemma run_ops_as_array t rows ops :
  indexed_rep t rows →
  ∃ answers t' rows', run_ops t ops = Done (answers, t')
    ∧ run_ops (route_columns t) ops = Done (answers, route_columns t') ∧ indexed_rep t' rows'.
Proof.
  revert t rows. induction ops as [|op ops IH]; intros t rows Hr; cbn [run_ops]; [by eexists [], t, rows|].
  destruct (run_op_as_array t rows op Hr) as (answer & t1 & rows1 & -> & -> & Hr1). cbn [mbind run_bind].
  destruct (IH t1 rows1 Hr1) as (answers & t2 & rows2 & -> & -> & Hr2). cbn [mbind run_bind].
  by eexists _, t2, rows2.
Qed.

(** The index is invisible.  Whatever sequence of lookups, row writes, pushes of destinations
    not yet present and removals is run on a new indexed table and on a new fixed-array table of the
    same capacity, neither panics nor loops, every answer is the same (the row a lookup returns, the
    row of a push, or that the table is full), and the columns are the same at the end; this for every
    size that passes the type's two assertions. *)
Theorem indexed_table_as_array (ops : list RouteOp) (Hsize : @indexable N BUCKETS) :
  ∃ answers t, run_ops (indexed_default (N := N) (BUCKETS := BUCKETS)) ops = Done (answers, t)
    ∧ run_ops (Fixed.default (MAX := N)) ops = Done (answers, route_columns t).
Proof.
  destruct (indexed_default_routes_rep Hsize) as [_ Hr].
  destruct (run_ops_as_array _ _ ops Hr) as (answers & t & _ & E1 & E2 & _). by exists answers, t.
Qed.
End same_answers.

(** A full table of two rows in four buckets, whose last row is moved and found again. *)
Definition some_ops : list RouteOp :=
  let e := mkEntry 1 0 0 Unknown (replicate 8 0%Z) Direct Network in
  [OpLearn (replicate 16 1%Z) 1%Z e; OpLearn (replicate 16 2%Z) 2%Z e; OpLearn (replicate 16 3%Z) 3%Z e;
   OpSwapRemove 0; OpIndexOf (replicate 16 2%Z); OpIndexOf (replicate 16 1%Z)].

Lemma indexed_table_as_array_witness :
  ∃ answers t, run_ops (indexed_default (N := 2) (BUCKETS := 4)) some_ops = Done (answers, t)
    ∧ run_ops (Fixed.default (MAX := 2)) some_ops = Done (answers, route_columns t).
Proof. refine (indexed_table_as_array some_ops _). split; by vm_compute. Defined.

Example some_ops_answers :
  fst <$> match run_ops (indexed_default (N := 2) (BUCKETS := 4)) some_ops with Done x => Some x | _ => None end
  = Some [Pushed (Ok 0); Pushed (Ok 1); Pushed (Err TableFull); Nothing; Found (Some 0); Found None].
Proof. by vm_compute. Qed.
