(* ===== verification/Links.v ===== *)
(** Links: [prns-core/src/routing/links/table/core.rs], with the keepalive arithmetic of
    [links/maintenance.rs].

    A link is asked for ([Pending] here, [Handshake] at the responder), becomes [Active], and is removed.
    Each phase has a deadline, and [Links] caches the earliest of them.  The trait [LinkTable] is a class
    with its contract; [Links] is proved against it. *)

From S2P Require Import Prelude Columns Evidence Routes ChannelTable.

(** * Data *)

(** Keys, secrets and hashes are byte strings. *)
Definition LinkKey := list Z.
Definition IdentityHash := list Z.

Inductive LinkMode := Aes256Cbc.
Inductive ProofStrategy := ProveNone | ProveAll | ProveIf.
Inductive ResourceStrategy :=
  | AcceptNone
  | Accept (max_uncompressed_bytes : Z) (accept_compressed : bool)
  | AcceptIf.

Inductive LinkRole :=
  | Initiator (link_signing : list Z)
  | Responder (destination : DestinationHash) (identity : IdentityHash) (proof_strategy : ProofStrategy).

Record PendingLink := mkPending {
  pl_destination : DestinationHash;
  pl_route_evidence : RouteEvidenceHandle;
  pl_expected_hops : Z;
  pl_mode : LinkMode;
  pl_initiator_secret : list Z;
  pl_link_signing : list Z;
  pl_requested_at : Z;
  pl_command_id : Z;
}.

Record HandshakeLink := mkHandshake {
  hl_key : LinkKey;
  hl_requested_at : Z;
  hl_mtu : Z;
  hl_initiator_signing : list Z;
  hl_destination : DestinationHash;
  hl_identity : IdentityHash;
  hl_proof_strategy : ProofStrategy;
}.

Record ActiveLink := mkActive {
  al_key : LinkKey;
  al_role : LinkRole;
  al_rtt : Z;
  al_mtu : Z;
  al_attached_interface : InterfaceId;
  al_last_inbound : Z;
  al_last_outbound : Z;
  al_last_keepalive_sent : Z;
  al_keepalive_ms : Z;
  al_peer_signing : list Z;
  al_remote_identity : option IdentityHash;
  al_resource_strategy : ResourceStrategy;
  al_last_resource_window : option Z;
  al_last_resource_eifr : option Z;
  al_route_evidence : option RouteEvidenceHandle;
  al_route_evidence_pending : bool;
}.

Inductive LinkPhase :=
  | Pending (p : PendingLink)
  | Handshake (h : HandshakeLink)
  | Active (a : ActiveLink).

Definition vacant : LinkPhase :=
  Pending (mkPending (replicate 16 0%Z) (mkHandle FIRST 0) 0 Aes256Cbc (replicate 32 0%Z) (replicate 32 0%Z) 0 0).

Definition local_destination (phase : LinkPhase) : option DestinationHash :=
  match phase with
  | Handshake h => Some (hl_destination h)
  | Active a => match al_role a with Responder d _ _ => Some d | Initiator _ => None end
  | Pending _ => None
  end.

Record InitiatedLink := mkInitiated {
  il_link_id : LinkId;
  il_pending : PendingLink;
  il_timeout_at : Z;
}.
Record RespondingLink := mkResponding {
  rl_link_id : LinkId;
  rl_handshake : HandshakeLink;
  rl_timeout_at : Z;
}.

Record DueKeepalive := mkDue { dk_link_id : LinkId; dk_attached_interface : InterfaceId }.

Inductive OverdueLink :=
  | Initiated (link_id : LinkId) (command_id : Z) (destination : DestinationHash)
      (route_evidence : RouteEvidenceHandle) (requested_at : Z)
  | Responding (link_id : LinkId).

Inductive TrackLinkError := LinksFull | AlreadyTracked.

Record LinkActivation := mkActivation {
  la_received_hops : Z;
  la_rtt : Z;
  la_mtu : Z;
  la_attached_interface : InterfaceId;
  la_peer_signing : list Z;
}.
Inductive LinkActivationError := UnknownLink | WrongPhase.

(** * Keepalive arithmetic ([maintenance.rs]) *)

Definition KEEPALIVE_MAX_MS : Z := 360000.
Definition KEEPALIVE_MAX_RTT_MS : Z := 1750.
Definition KEEPALIVE_MIN_MS : Z := 5000.
Definition keepalive_ms_from (rtt : Z) : Z :=
  Z.min KEEPALIVE_MAX_MS (Z.max KEEPALIVE_MIN_MS (saturating_mul 64 rtt KEEPALIVE_MAX_MS / KEEPALIVE_MAX_RTT_MS)).

Definition STALE_FACTOR : Z := 2.
Definition stale_ms_from (keepalive_ms : Z) : Z := saturating_mul 64 keepalive_ms STALE_FACTOR.

Definition KEEPALIVE_TIMEOUT_FACTOR : Z := 4.
Definition STALE_GRACE_MS : Z := 5000.
Definition timeout_grace_ms_from (rtt : Z) : Z :=
  saturating_add 64 (saturating_mul 64 rtt KEEPALIVE_TIMEOUT_FACTOR) STALE_GRACE_MS.

(** * Deadlines *)

Definition teardown_at (last_inbound keepalive_ms rtt : Z) : Z :=
  saturating_add 64 (saturating_add 64 last_inbound (stale_ms_from keepalive_ms)) (timeout_grace_ms_from rtt).

Definition stale_at (last_inbound keepalive_ms : Z) : Z := saturating_add 64 last_inbound (stale_ms_from keepalive_ms).
Definition send_at (last_inbound last_outbound last_keepalive_sent keepalive_ms : Z) : Z :=
  saturating_add 64 (Z.max (Z.min last_inbound last_outbound) last_keepalive_sent) keepalive_ms.

Definition active_deadline (role : LinkRole)
    (last_inbound last_outbound last_keepalive_sent keepalive_ms rtt : Z) : Z :=
  let teardown_at := teardown_at last_inbound keepalive_ms rtt in
  match role with
  | Responder _ _ _ => teardown_at
  | Initiator _ =>
      let send_at := send_at last_inbound last_outbound last_keepalive_sent keepalive_ms in
      if (send_at <=? stale_at last_inbound keepalive_ms)%Z then send_at else teardown_at
  end.

(** An active link's deadline. *)
Definition deadline_of (a : ActiveLink) : Z :=
  active_deadline (al_role a) (al_last_inbound a) (al_last_outbound a) (al_last_keepalive_sent a)
    (al_keepalive_ms a) (al_rtt a).

(** The conditions of [pop_stale] and [pop_due_keepalive]. *)
Definition is_stale (now : Z) (phase : LinkPhase) : bool :=
  match phase with
  | Active a => (teardown_at (al_last_inbound a) (al_keepalive_ms a) (al_rtt a) <=? now)%Z
  | Pending _ | Handshake _ => false
  end.
Definition owes_keepalive (now : Z) (phase : LinkPhase) : bool :=
  match phase with
  | Active a =>
      match al_role a with
      | Initiator _ =>
          let send_at := send_at (al_last_inbound a) (al_last_outbound a) (al_last_keepalive_sent a) (al_keepalive_ms a) in
          (send_at <=? now)%Z && (send_at <=? stale_at (al_last_inbound a) (al_keepalive_ms a))%Z
      | Responder _ _ _ => false
      end
  | Pending _ | Handshake _ => false
  end.
Definition is_unestablished (phase : LinkPhase) : bool :=
  match phase with Pending _ | Handshake _ => true | Active _ => false end.

(** * The trait *)

Class LinkTable (T : Type) := {
  lt_len : T → nat;
  lt_link_ids : T → run (list LinkId);
  lt_timeout_at : T → nat → run (option Z);
  lt_phases : T → run (list LinkPhase);
  (** [*phase_mut(index) = phase] *)
  lt_set_phase : T → nat → LinkPhase → run T;
  lt_set_timeout_at : T → nat → option Z → run T;
  lt_push : T → LinkId → LinkPhase → option Z → run (result TrackLinkError nat * T);
  lt_swap_remove : T → nat → run T;
  lt_index_of : T → LinkId → run (option nat);
  lt_earliest_indexed_timeout : T → run (option Z * T);
  lt_first_due_timeout_matching : T → Z → (nat → LinkPhase → bool) → run (option nat * T);
}.

(** The default methods. *)
Section defaults.
Context {T : Type} (len : T → nat) (link_ids : T → run (list LinkId)) (timeout_at : T → nat → run (option Z))
  (phases : T → run (list LinkPhase)).

Definition default_link_index_of (t : T) (link_id : LinkId) : run (option nat) :=
  ids ← link_ids t; Done (fst <$> list_find (λ id, id = link_id) ids).

Fixpoint timeouts_up (t : T) (todo i : nat) : run (list Z) :=
  match todo with
  | O => Done []
  | S todo =>
      at_ ← timeout_at t i; rest ← timeouts_up t todo (S i);
      Done (match at_ with Some at_ => at_ :: rest | None => rest end)
  end.
Definition default_earliest_indexed_timeout (t : T) : run (option Z * T) :=
  all ← timeouts_up t (len t) 0; Done (minimum all, t).

Fixpoint first_due_up (t : T) (now : Z) (predicate : nat → LinkPhase → bool) (todo i : nat) : run (option nat) :=
  match todo with
  | O => Done None
  | S todo =>
      at_ ← timeout_at t i;
      if match at_ with Some at_ => (at_ <=? now)%Z | None => false end then
        all ← phases t; phase ← index all i;
        if predicate i phase then Done (Some i) else first_due_up t now predicate todo (S i)
      else first_due_up t now predicate todo (S i)
  end.
Definition default_first_due_timeout_matching (t : T) (now : Z) (predicate : nat → LinkPhase → bool) :
    run (option nat * T) :=
  found ← first_due_up t now predicate (len t) 0; Done (found, t).
End defaults.

(** * The contract *)

Record LinkRow := mkLinkRow { lr_id : LinkId; lr_timeout : option Z; lr_phase : LinkPhase }.

Definition with_phase (phase : LinkPhase) (r : LinkRow) : LinkRow := mkLinkRow (lr_id r) (lr_timeout r) phase.
Definition with_timeout_at (at_ : option Z) (r : LinkRow) : LinkRow := mkLinkRow (lr_id r) at_ (lr_phase r).

Definition row_due (now : Z) (r : LinkRow) : bool :=
  match lr_timeout r with Some at_ => (at_ <=? now)%Z | None => false end.

(** [lt_rep t room rows]: the table holds [rows], and takes another when [room] allows that many.  Row
    numbers are 32 bits wide in the growing tables' indexes. *)
Class LinkTableLaws (T : Type) `{LinkTable T} := {
  lt_rep : T → (nat → bool) → list LinkRow → Prop;
  lt_len_ok : ∀ t room rows, lt_rep t room rows → lt_len t = length rows;
  lt_link_ids_ok : ∀ t room rows, lt_rep t room rows → lt_link_ids t = Done (lr_id <$> rows);
  lt_phases_ok : ∀ t room rows, lt_rep t room rows → lt_phases t = Done (lr_phase <$> rows);
  lt_timeout_at_ok : ∀ t room rows i r, lt_rep t room rows → rows !! i = Some r →
    lt_timeout_at t i = Done (lr_timeout r);
  lt_index_of_ok : ∀ t room rows link, lt_rep t room rows → NoDup (lr_id <$> rows) →
    (∃ i r, lt_index_of t link = Done (Some i) ∧ rows !! i = Some r ∧ lr_id r = link)
    ∨ (lt_index_of t link = Done None ∧ link ∉ lr_id <$> rows);
  lt_set_phase_ok : ∀ t room rows i r phase, lt_rep t room rows → rows !! i = Some r →
    ∃ t', lt_set_phase t i phase = Done t' ∧ lt_rep t' room (<[i := with_phase phase r]> rows);
  lt_set_timeout_at_ok : ∀ t room rows i r at_, lt_rep t room rows → rows !! i = Some r →
    ∃ t', lt_set_timeout_at t i at_ = Done t' ∧ lt_rep t' room (<[i := with_timeout_at at_ r]> rows);
  lt_push_ok : ∀ t room rows link phase at_, lt_rep t room rows → NoDup (lr_id <$> rows) →
    (link ∉ lr_id <$> rows) → (Z.of_nat (length rows) < u32_max)%Z →
    if room (length rows) then
      ∃ t', lt_push t link phase at_ = Done (Ok (length rows), t')
        ∧ lt_rep t' room (rows ++ [mkLinkRow link at_ phase])
    else lt_push t link phase at_ = Done (Err LinksFull, t);
  lt_swap_remove_ok : ∀ t room rows i, lt_rep t room rows → NoDup (lr_id <$> rows) → i < length rows →
    ∃ t', lt_swap_remove t i = Done t' ∧ lt_rep t' room (swap_removed rows i);
  lt_earliest_ok : ∀ t room rows, lt_rep t room rows →
    ∃ t', lt_earliest_indexed_timeout t = Done (minimum (omap lr_timeout rows), t') ∧ lt_rep t' room rows;
  lt_first_due_ok : ∀ t room rows now predicate, lt_rep t room rows →
    ∃ found t', lt_first_due_timeout_matching t now predicate = Done (found, t') ∧ lt_rep t' room rows
      ∧ match found with
        | Some i => ∃ r, rows !! i = Some r ∧ row_due now r = true ∧ predicate i (lr_phase r) = true
        | None => ∀ i r, rows !! i = Some r → row_due now r = true → predicate i (lr_phase r) = false
        end;
}.

(** * [Links] *)

Record Links (T : Type) := mkLinks { table : T; earliest_timeout : option Z }.
Arguments mkLinks {T}. Arguments table {T}. Arguments earliest_timeout {T}.

(** What [active_view] finds: the fields a sender seals and sends with. *)
Record ActiveLinkView := mkView { v_key : LinkKey; v_mtu : Z; v_attached_interface : InterfaceId; v_rtt : Z }.
Inductive ActiveLinkLookup := LookupActive (v : ActiveLinkView) | Inactive | Absent.

Section operations.
Context {T : Type} `{LinkTable T}.
Implicit Types (l : Links T).

Definition refresh_earliest_timeout (t : T) : run (Links T) :=
  '(e, t) ← lt_earliest_indexed_timeout t; Done (mkLinks t e).

Definition links_index_of l (link_id : LinkId) : run (option nat) := lt_index_of (table l) link_id.
Definition phase_at l (i : nat) : run LinkPhase := all ← lt_phases (table l); index all i.

Definition phase_for l (link_id : LinkId) : run (option LinkPhase) :=
  found ← links_index_of l link_id;
  match found with
  | None => Done None
  | Some i => all ← lt_phases (table l); Done (all !! i)
  end.

Definition track l (link_id : LinkId) (phase : LinkPhase) (timeout_at : Z) : run (result TrackLinkError unit * Links T) :=
  known ← links_index_of l link_id;
  match known with
  | Some _ => Done (Err AlreadyTracked, l)
  | None =>
      '(pushed, t) ← lt_push (table l) link_id phase (Some timeout_at);
      match pushed with
      | Err e => Done (Err e, mkLinks t (earliest_timeout l))
      | Ok _ => l ← refresh_earliest_timeout t; Done (Ok tt, l)
      end
  end.
Definition track_initiated l (link : InitiatedLink) : run (result TrackLinkError unit * Links T) :=
  track l (il_link_id link) (Pending (il_pending link)) (il_timeout_at link).
Definition track_responding l (link : RespondingLink) : run (result TrackLinkError unit * Links T) :=
  track l (rl_link_id link) (Handshake (rl_handshake link)) (rl_timeout_at link).

Definition is_active_via (interface : InterfaceId) (phase : LinkPhase) : bool :=
  match phase with Active a => bool_decide (al_attached_interface a = interface) | _ => false end.
Definition is_active (phase : LinkPhase) : bool := match phase with Active _ => true | _ => false end.
Definition link_count_via l (interface : InterfaceId) : run nat :=
  all ← lt_phases (table l); Done (length (filter (λ p, is_active_via interface p = true) all)).
Definition active_link_count l : run nat :=
  all ← lt_phases (table l); Done (length (filter (λ p, is_active p = true) all)).

(** The calls of [visit], in order. *)
Definition visit_active_links l : run (list (LinkId * Z * option IdentityHash)) :=
  ids ← lt_link_ids (table l); all ← lt_phases (table l);
  Done (omap (λ '(id, p), match p with Active a => Some (id, al_rtt a, al_remote_identity a) | _ => None end) (zip ids all)).

Definition active_view l (link_id : LinkId) : run ActiveLinkLookup :=
  found ← phase_for l link_id;
  Done (match found with
        | None => Absent
        | Some (Active a) => LookupActive (mkView (al_key a) (al_mtu a) (al_attached_interface a) (al_rtt a))
        | Some _ => Inactive
        end).

Definition has_local_link l (link_id : LinkId) : run bool :=
  found ← links_index_of l link_id; Done (bool_decide (is_Some found)).

Definition responder_links_for_destination l (destination : DestinationHash) : run (list LinkId) :=
  ids ← lt_link_ids (table l); all ← lt_phases (table l);
  Done (omap (λ '(id, p), match local_destination p with
                          | Some d => if decide (d = destination) then Some id else None
                          | None => None
                          end) (zip ids all)).

Definition new_active (key : LinkKey) (role : LinkRole) (rtt mtu : Z) (interface : InterfaceId)
    (last_inbound last_outbound : Z) (peer : list Z) (evidence : option RouteEvidenceHandle) : ActiveLink :=
  mkActive key role rtt mtu interface last_inbound last_outbound last_outbound (keepalive_ms_from rtt) peer
    None AcceptNone None None evidence false.

(** Writes an active phase with its deadline. *)
Definition put_active (t : T) (i : nat) (a : ActiveLink) : run T :=
  t ← lt_set_phase t i (Active a);
  lt_set_timeout_at t i (Some (deadline_of a)).

Definition activate_initiated l (link_id : LinkId) (key : LinkKey) (activation : LinkActivation) (now : Z) :
    run (result LinkActivationError unit * Links T) :=
  found ← links_index_of l link_id;
  match found with
  | None => Done (Err UnknownLink, l)
  | Some i =>
      phase ← phase_at l i;
      match phase with
      | Pending p =>
          t ← put_active (table l) i
                (new_active key (Initiator (pl_link_signing p)) (la_rtt activation) (la_mtu activation)
                   (la_attached_interface activation) now now (la_peer_signing activation)
                   (Some (pl_route_evidence p)));
          l ← refresh_earliest_timeout t; Done (Ok tt, l)
      | _ => Done (Err WrongPhase, l)
      end
  end.

Definition activate_responding l (link_id : LinkId) (rtt : Z) (interface : InterfaceId) (now : Z) :
    run (result LinkActivationError DestinationHash * Links T) :=
  found ← links_index_of l link_id;
  match found with
  | None => Done (Err UnknownLink, l)
  | Some i =>
      phase ← phase_at l i;
      match phase with
      | Handshake h =>
          t ← put_active (table l) i
                (new_active (hl_key h) (Responder (hl_destination h) (hl_identity h) (hl_proof_strategy h)) rtt
                   (hl_mtu h) interface now (hl_requested_at h) (hl_initiator_signing h) None);
          l ← refresh_earliest_timeout t; Done (Ok (hl_destination h), l)
      | _ => Done (Err WrongPhase, l)
      end
  end.

(** ** Updates of an active link *)

Definition with_strategy (s : ResourceStrategy) (a : ActiveLink) : ActiveLink :=
  mkActive (al_key a) (al_role a) (al_rtt a) (al_mtu a) (al_attached_interface a) (al_last_inbound a)
    (al_last_outbound a) (al_last_keepalive_sent a) (al_keepalive_ms a) (al_peer_signing a) (al_remote_identity a)
    s (al_last_resource_window a) (al_last_resource_eifr a) (al_route_evidence a) (al_route_evidence_pending a).
Definition with_concluded (window eifr : Z) (a : ActiveLink) : ActiveLink :=
  mkActive (al_key a) (al_role a) (al_rtt a) (al_mtu a) (al_attached_interface a) (al_last_inbound a)
    (al_last_outbound a) (al_last_keepalive_sent a) (al_keepalive_ms a) (al_peer_signing a) (al_remote_identity a)
    (al_resource_strategy a) (Some window) (Some eifr) (al_route_evidence a) (al_route_evidence_pending a).
Definition with_identity (id : IdentityHash) (a : ActiveLink) : ActiveLink :=
  mkActive (al_key a) (al_role a) (al_rtt a) (al_mtu a) (al_attached_interface a) (al_last_inbound a)
    (al_last_outbound a) (al_last_keepalive_sent a) (al_keepalive_ms a) (al_peer_signing a) (Some id)
    (al_resource_strategy a) (al_last_resource_window a) (al_last_resource_eifr a) (al_route_evidence a)
    (al_route_evidence_pending a).
Definition with_times (inbound outbound keepalive : Z) (a : ActiveLink) : ActiveLink :=
  mkActive (al_key a) (al_role a) (al_rtt a) (al_mtu a) (al_attached_interface a) inbound outbound keepalive
    (al_keepalive_ms a) (al_peer_signing a) (al_remote_identity a) (al_resource_strategy a)
    (al_last_resource_window a) (al_last_resource_eifr a) (al_route_evidence a) (al_route_evidence_pending a).
Definition with_evidence (evidence : option RouteEvidenceHandle) (pending : bool) (a : ActiveLink) : ActiveLink :=
  mkActive (al_key a) (al_role a) (al_rtt a) (al_mtu a) (al_attached_interface a) (al_last_inbound a)
    (al_last_outbound a) (al_last_keepalive_sent a) (al_keepalive_ms a) (al_peer_signing a) (al_remote_identity a)
    (al_resource_strategy a) (al_last_resource_window a) (al_last_resource_eifr a) evidence pending.

Definition set_resource_strategy l (link_id : LinkId) (strategy : ResourceStrategy) :
    run (result LinkActivationError unit * Links T) :=
  found ← links_index_of l link_id;
  match found with
  | None => Done (Err UnknownLink, l)
  | Some i =>
      phase ← phase_at l i;
      match phase with
      | Active a =>
          t ← lt_set_phase (table l) i (Active (with_strategy strategy a)); Done (Ok tt, mkLinks t (earliest_timeout l))
      | _ => Done (Err WrongPhase, l)
      end
  end.

(** A change of an active link that does not touch its times. *)
Definition amend l (link_id : LinkId) (f : ActiveLink → ActiveLink) : run (Links T) :=
  found ← links_index_of l link_id;
  match found with
  | None => Done l
  | Some i =>
      phase ← phase_at l i;
      match phase with
      | Active a => t ← lt_set_phase (table l) i (Active (f a)); Done (mkLinks t (earliest_timeout l))
      | _ => Done l
      end
  end.
Definition note_resource_concluded l (link_id : LinkId) (window eifr : Z) : run (Links T) :=
  if (window =? 0)%Z then Done l else amend l link_id (with_concluded window eifr).
Definition note_identified l (link_id : LinkId) (identity : IdentityHash) : run (Links T) :=
  amend l link_id (with_identity identity).

(** A change of an active link's times, with its deadline. *)
Definition retime l (link_id : LinkId) (f : ActiveLink → ActiveLink) : run (Links T) :=
  found ← links_index_of l link_id;
  match found with
  | None => Done l
  | Some i =>
      phase ← phase_at l i;
      t ← match phase with Active a => put_active (table l) i (f a) | _ => Done (table l) end;
      refresh_earliest_timeout t
  end.

Definition inbound_at (now : Z) (a : ActiveLink) : ActiveLink :=
  let a := with_times (Z.max (al_last_inbound a) now) (al_last_outbound a) (al_last_keepalive_sent a) a in
  match al_route_evidence a with Some e => with_evidence (Some e) true a | None => a end.
Definition outbound_at (now : Z) (a : ActiveLink) : ActiveLink :=
  with_times (al_last_inbound a) now (al_last_keepalive_sent a) a.
Definition keepalive_at (now : Z) (a : ActiveLink) : ActiveLink := with_times (al_last_inbound a) now now a.

Definition note_inbound l (link_id : LinkId) (now : Z) : run (Links T) := retime l link_id (inbound_at now).
Definition note_outbound l (link_id : LinkId) (now : Z) : run (Links T) := retime l link_id (outbound_at now).
Definition note_keepalive_sent l (link_id : LinkId) (now : Z) : run (Links T) := retime l link_id (keepalive_at now).

Definition keepalive_echo_due l (link_id : LinkId) (now : Z) : run bool :=
  found ← phase_for l link_id;
  Done (match found with
        | Some (Active a) =>
            match al_role a with
            | Responder _ _ _ => (saturating_add 64 (al_last_outbound a) (al_keepalive_ms a) <=? now)%Z
            | Initiator _ => false
            end
        | _ => false
        end).

(** ** Route evidence *)

Definition phase_evidence (phase : LinkPhase) : option RouteEvidenceId :=
  match phase with
  | Pending p => Some (handle_id (pl_route_evidence p))
  | Active a => handle_id <$> al_route_evidence a
  | Handshake _ => None
  end.
Definition route_evidence_ids l : run (list RouteEvidenceId) :=
  all ← lt_phases (table l); Done (omap phase_evidence (all : list LinkPhase)).

(** [apply] may move the handle and changes a state of its own. *)
Section reconcile.
Context {S : Type} (apply : S → RouteEvidenceHandle → Z → run (RouteEvidenceHandle * S)).

Fixpoint reconcile_loop l (s : S) (todo i : nat) : run (Links T * S) :=
  match todo with
  | O => Done (l, s)
  | Datatypes.S todo =>
      phase ← phase_at l i;
      match phase with
      | Active a =>
          match al_route_evidence a with
          | Some e =>
              if negb (al_route_evidence_pending a) then reconcile_loop l s todo (1 + i) else
              '(e, s) ← apply s e (al_last_inbound a);
              t ← lt_set_phase (table l) i (Active (with_evidence (Some e) false a));
              reconcile_loop (mkLinks t (earliest_timeout l)) s todo (1 + i)
          | None => reconcile_loop l s todo (1 + i)
          end
      | _ => reconcile_loop l s todo (1 + i)
      end
  end.
Definition reconcile_pending_route_evidence l (s : S) : run (Links T * S) :=
  reconcile_loop l s (lt_len (table l)) 0.
End reconcile.

(** ** Removal and due links *)

Definition remove l (link_id : LinkId) : run (bool * Links T) :=
  found ← links_index_of l link_id;
  match found with
  | Some i =>
      t ← lt_swap_remove (table l) i; l ← refresh_earliest_timeout t; Done (true, l)
  | None => Done (false, l)
  end.

Definition pop_stale l (now : Z) : run (option LinkId * Links T) :=
  '(found, t) ← lt_first_due_timeout_matching (table l) now (λ _, is_stale now);
  let l := mkLinks t (earliest_timeout l) in
  match found with
  | None => Done (None, l)
  | Some i => ids ← lt_link_ids t; id ← index ids i; Done (Some id, l)
  end.

Definition pop_due_keepalive l (now : Z) : run (option DueKeepalive * Links T) :=
  '(found, t) ← lt_first_due_timeout_matching (table l) now (λ _, owes_keepalive now);
  let l := mkLinks t (earliest_timeout l) in
  match found with
  | None => Done (None, l)
  | Some i =>
      ids ← lt_link_ids t; id ← index ids i;
      phase ← phase_at l i;
      match phase with
      | Active a =>
          match al_role a with
          | Initiator _ =>
              t ← put_active t i (keepalive_at now a);
              l ← refresh_earliest_timeout t;
              Done (Some (mkDue id (al_attached_interface a)), l)
          | Responder _ _ _ => Done (None, l)
          end
      | _ => Done (None, l)
      end
  end.

Definition overdue_of (id : LinkId) (phase : LinkPhase) : option OverdueLink :=
  match phase with
  | Pending p => Some (Initiated id (pl_command_id p) (pl_destination p) (pl_route_evidence p) (pl_requested_at p))
  | Handshake _ => Some (Responding id)
  | Active _ => None
  end.
Definition pop_overdue l (now : Z) : run (option OverdueLink * Links T) :=
  '(found, t) ← lt_first_due_timeout_matching (table l) now (λ _, is_unestablished);
  let l := mkLinks t (earliest_timeout l) in
  match found with
  | None => Done (None, l)
  | Some i =>
      ids ← lt_link_ids t; id ← index ids i;
      phase ← phase_at l i;
      match overdue_of id phase with
      | None => Done (None, l)
      | Some overdue =>
          t ← lt_swap_remove t i; l ← refresh_earliest_timeout t; Done (Some overdue, l)
      end
  end.

(** [debug_assert_eq] apart. *)
Definition earliest_timeout_at l : option Z := earliest_timeout l.

(** ** The loops of [fire_due_link_deadlines] over due links *)

(** [while let Some(due) = links.pop_due_keepalive(now)], the links in order. *)
Fixpoint keepalive_loop (fuel : nat) l (now : Z) : run (list DueKeepalive * Links T) :=
  match fuel with
  | O => OutOfFuel
  | S fuel =>
      '(due, l) ← pop_due_keepalive l now;
      match due with
      | None => Done ([], l)
      | Some due => '(rest, l) ← keepalive_loop fuel l now; Done (due :: rest, l)
      end
  end.

(** [while let Some(overdue) = pop_timed_out_link(now)] *)
Fixpoint overdue_loop (fuel : nat) l (now : Z) : run (list OverdueLink * Links T) :=
  match fuel with
  | O => OutOfFuel
  | S fuel =>
      '(overdue, l) ← pop_overdue l now;
      match overdue with
      | None => Done ([], l)
      | Some overdue => '(rest, l) ← overdue_loop fuel l now; Done (overdue :: rest, l)
      end
  end.

(** [while let Some(link_id) = links.pop_stale(now)]; [retire_link] removes the link. *)
Fixpoint stale_loop (fuel : nat) l (now : Z) : run (list LinkId * Links T) :=
  match fuel with
  | O => OutOfFuel
  | S fuel =>
      '(stale, l) ← pop_stale l now;
      match stale with
      | None => Done ([], l)
      | Some id =>
          '(_, l) ← remove l id;
          '(rest, l) ← stale_loop fuel l now; Done (id :: rest, l)
      end
  end.

(** What [fire_due_link_deadlines] does to the links, after the evidence is reconciled: expire, close,
    keep alive. *)
Definition serve_due_links l (now : Z) : run (list OverdueLink * list LinkId * list DueKeepalive * Links T) :=
  '(overdue, l) ← overdue_loop (S (lt_len (table l))) l now;
  '(closed, l) ← stale_loop (S (lt_len (table l))) l now;
  '(kept, l) ← keepalive_loop (S (lt_len (table l))) l now;
  Done (overdue, closed, kept, l).
End operations.
