(* ===== verification/LinkData.v ===== *)
(** Packets on a link: [prns-core/src/routing/links/data.rs] and the frames of [links/maintenance.rs].

    A link packet is a header that names the link, then the payload sealed under the link's key. *)

From S2P Require Import Prelude Wire Token Channel ChannelTable Links.

(** * Timeouts and lengths *)

Definition LINK_TRAFFIC_TIMEOUT_FACTOR : Z := 6.
Definition LINK_TRAFFIC_TIMEOUT_MIN_MS : Z := 5.
Definition RECEIPT_ENFORCEMENT_SLACK_MS : Z := 1000.
Definition link_traffic_timeout_ms (rtt : Z) : Z :=
  saturating_add 64 (Z.max (saturating_mul 64 rtt LINK_TRAFFIC_TIMEOUT_FACTOR) LINK_TRAFFIC_TIMEOUT_MIN_MS)
    RECEIPT_ENFORCEMENT_SLACK_MS.

Definition link_data_frame_ceiling (plaintext_len : nat) : nat :=
  HEADER_MIN_LEN + IFAC_MIN_LEN + TOKEN_OVERHEAD + (plaintext_len / 16 + 1) * 16.
Definition link_raw_frame_ceiling (payload_len : nat) : nat := HEADER_MIN_LEN + IFAC_MIN_LEN + payload_len.

(** * Packets *)

Inductive LinkDataError := DataPayloadTooLong | DataBufferTooShort.

Definition link_packet_header (link_id : LinkId) (packet_type : PacketType) (context : WireContext) : WirePacketHeader :=
  mkHeader Open ContextUnset Broadcast Link packet_type 0 None link_id context.

Section packets.
Context `{TokenCrypto}.

(** [LinkKey::seal] *)
Definition link_key_seal (key : LinkKey) (iv plaintext out : list Z) : run (result SealError nat * list Z) :=
  token_seal (from_aes256 key) iv plaintext out.

(** [header.write(buf)], then [seal(iv, plaintext, &mut buf[header_len..])]. *)
Definition write_sealed (header : WirePacketHeader) (key : LinkKey) (plaintext iv buf : list Z) :
    run (result unit nat * list Z) :=
  '(written, buf) ← Wire.write header buf;
  match written with
  | Err _ => Done (Err tt, buf)
  | Ok header_len =>
      rest ← slice buf header_len (length buf);
      '(sealed, rest) ← link_key_seal key iv plaintext rest;
      let buf := take header_len buf ++ rest in
      match sealed with
      | Err _ => Done (Err tt, buf)
      | Ok n => Done (Ok (header_len + n), buf)
      end
  end.

Definition write_link_packet (link_id : LinkId) (key : LinkKey) (mtu : Z) (context : WireContext)
    (plaintext iv buf : list Z) : run (result LinkDataError nat * list Z) :=
  if (link_mdu mtu <? Z.of_nat (length plaintext))%Z then Done (Err DataPayloadTooLong, buf) else
  '(written, buf) ← write_sealed (link_packet_header link_id Data context) key plaintext iv buf;
  Done (match written with Ok n => Ok n | Err _ => Err DataBufferTooShort end, buf).

Definition write_link_raw_packet (link_id : LinkId) (packet_type : PacketType) (context : WireContext) (mtu : Z)
    (payload buf : list Z) : run (result LinkDataError nat * list Z) :=
  if (wrapping_sub 64 (wrapping_sub 64 mtu (Z.of_nat HEADER_MIN_LEN)) (Z.of_nat IFAC_MIN_LEN) <? Z.of_nat (length payload))%Z
  then Done (Err DataPayloadTooLong, buf) else
  '(written, buf) ← Wire.write (link_packet_header link_id packet_type context) buf;
  match written with
  | Err _ => Done (Err DataBufferTooShort, buf)
  | Ok header_len =>
      let finish := header_len + length payload in
      if (length buf <? finish)%nat then Done (Err DataBufferTooShort, buf) else
      buf ← copy_into buf header_len payload;
      Done (Ok finish, buf)
  end.

(** ** The frames of [maintenance.rs] *)

Definition KEEPALIVE_REQUEST : Z := 0xFF.
Definition KEEPALIVE_ECHO : Z := 0xFE.

Definition link_frame_header (link_id : LinkId) (context : WireContext) : WirePacketHeader :=
  mkHeader Open ContextUnset Broadcast Link Data 0 None link_id context.

Definition write_keepalive (link_id : LinkId) (byte : Z) (buf : list Z) : run (result WireError nat * list Z) :=
  '(written, buf) ← Wire.write (link_frame_header link_id CtxKeepAlive) buf;
  match written with
  | Err e => Done (Err e, buf)
  | Ok header_len =>
      if (length buf <? header_len + 1)%nat then Done (Err Wire.BufferTooShort, buf) else
      buf ← store buf header_len byte;
      Done (Ok (header_len + 1), buf)
  end.

Definition write_link_close (link_id : LinkId) (key : LinkKey) (iv buf : list Z) : run (result WireError nat * list Z) :=
  '(written, buf) ← write_sealed (link_frame_header link_id CtxLinkClose) key link_id iv buf;
  Done (match written with Ok n => Ok n | Err _ => Err Wire.BufferTooShort end, buf).
End packets.

(** * What is written *)

Section proofs.
Context `{TokenCryptoLaws}.

Definition is_link_id (link_id : LinkId) : Prop := is_hash link_id.

Lemma link_header_wf link_id packet_type context :
  is_link_id link_id → canonical_context context → header_wf (link_packet_header link_id packet_type context).
Proof. intros Hid Hc. by split. Qed.

(** The bytes of a sealed packet. *)
Definition sealed_packet (header : WirePacketHeader) (key : LinkKey) (iv plaintext : list Z) : list Z :=
  encode_header header ++ sealed (from_aes256 key) iv plaintext.

(** It is written when the buffer can hold it, and refused otherwise. *)
Lemma write_sealed_ok header key plaintext iv buf :
  header_wf header → length iv = IV_LEN →
  let n := wire_len header + sealed_len (length plaintext) in
  ∃ buf', write_sealed header key plaintext iv buf
      = Done (if (length buf <? n)%nat then Err tt else Ok n, buf')
    ∧ length buf' = length buf
    ∧ (n ≤ length buf → buf' = sealed_packet header key iv plaintext ++ drop n buf).
Proof.
  intros Hwf Hiv n. unfold write_sealed. rewrite write_spec by done. pose proof (length_encode_header header Hwf) as Hh.
  case_decide as Hs; cbn [mbind run_bind].
  { rewrite (proj2 (Nat.ltb_lt _ _)) by lia. exists buf. split; [done|]. split; [done|]. lia. }
  rewrite slice_suffix by done. cbn [mbind run_bind]. unfold link_key_seal, token_seal.
  rewrite token_seal_chunks_ok by done. cbn zeta. cbn [concat]. rewrite app_nil_r, length_drop. cbn [mbind run_bind].
  pose proof (length_sealed (from_aes256 key) iv plaintext Hiv) as Hl. rewrite take_app_length' by done.
  destruct (Nat.ltb_spec (length buf - wire_len header) (sealed_len (length plaintext))).
  - rewrite (proj2 (Nat.ltb_lt _ _)) by lia. eexists. split; [done|].
    rewrite length_app, length_drop. split; lia.
  - rewrite (proj2 (Nat.ltb_ge _ _)) by lia. eexists. split; [done|]. rewrite !length_app, Hl, !length_drop.
    split; [lia|]. intros _. unfold sealed_packet. rewrite <- !app_assoc, drop_drop. done.
Qed.

Lemma write_link_packet_ok link_id key mtu context plaintext iv buf :
  is_link_id link_id → canonical_context context → length iv = IV_LEN →
  let n := HEADER_MIN_LEN + sealed_len (length plaintext) in
  ∃ buf', write_link_packet link_id key mtu context plaintext iv buf
      = Done (if (link_mdu mtu <? Z.of_nat (length plaintext))%Z then Err DataPayloadTooLong
              else if (length buf <? n)%nat then Err DataBufferTooShort else Ok n, buf')
    ∧ length buf' = length buf
    ∧ ((Z.of_nat (length plaintext) ≤ link_mdu mtu)%Z → n ≤ length buf →
       buf' = sealed_packet (link_packet_header link_id Data context) key iv plaintext ++ drop n buf).
Proof.
  intros Hid Hc Hiv n. unfold write_link_packet. destruct (Z.ltb_spec (link_mdu mtu) (Z.of_nat (length plaintext))).
  { exists buf. split; [done|]. split; [done|]. lia. }
  destruct (write_sealed_ok (link_packet_header link_id Data context) key plaintext iv buf) as (buf' & -> & Hl & Hb);
    [by apply link_header_wf|done|]. cbn [mbind run_bind]. change (wire_len (link_packet_header link_id Data context)) with HEADER_MIN_LEN in *.
  exists buf'. fold n in Hb |- *. split; [by destruct (length buf <? n)%nat|]. split; [done|]. intros _. apply Hb.
Qed.
End proofs.
