(* ===== verification/LinksInvariant.v ===== *)
(** The link table as a state machine: every operation of [Links] keeps the cached deadline exact, and
    changes the links only by opening, activating, updating or closing one of them. *)

From stdpp Require Import relations.
From S2P Require Import Prelude Columns Evidence Routes ChannelTable Links.

(** * The state machine *)

(** A row of an active link: its deadline is the one its times give. *)
Definition active_row (id : LinkId) (a : ActiveLink) : LinkRow := mkLinkRow id (Some (deadline_of a)) (Active a).

(** What establishment makes of a link: the initiator keeps its signing key and the route it asked over,
    the responder keeps everything it agreed in the handshake. *)
Definition activates (phase : LinkPhase) (a : ActiveLink) : Prop :=
  match phase with
  | Pending p => al_role a = Initiator (pl_link_signing p) ∧ al_route_evidence a = Some (pl_route_evidence p)
  | Handshake h =>
      al_role a = Responder (hl_destination h) (hl_identity h) (hl_proof_strategy h)
      ∧ al_key a = hl_key h ∧ al_mtu a = hl_mtu h ∧ al_peer_signing a = hl_initiator_signing h
      ∧ al_route_evidence a = None
  | Active _ => False
  end.

(** What never changes while a link is active; it is never heard from earlier than before. *)
Record same_link (a a' : ActiveLink) : Prop := {
  sl_key : al_key a' = al_key a;
  sl_role : al_role a' = al_role a;
  sl_rtt : al_rtt a' = al_rtt a;
  sl_mtu : al_mtu a' = al_mtu a;
  sl_interface : al_attached_interface a' = al_attached_interface a;
  sl_peer : al_peer_signing a' = al_peer_signing a;
  sl_keepalive : al_keepalive_ms a' = al_keepalive_ms a;
  sl_evidence : is_Some (al_route_evidence a') ↔ is_Some (al_route_evidence a);
  sl_inbound : (al_last_inbound a ≤ al_last_inbound a')%Z;
}.

Inductive link_step : list LinkRow → list LinkRow → Prop :=
  | step_stay rows : link_step rows rows
  | step_open rows id at_ phase :
      (id ∉ lr_id <$> rows) → is_unestablished phase = true → link_step rows (rows ++ [mkLinkRow id (Some at_) phase])
  | step_activate rows i r a :
      rows !! i = Some r → activates (lr_phase r) a → al_keepalive_ms a = keepalive_ms_from (al_rtt a) →
      link_step rows (<[i := active_row (lr_id r) a]> rows)
  | step_update rows i r a a' :
      rows !! i = Some r → lr_phase r = Active a → same_link a a' →
      link_step rows (<[i := active_row (lr_id r) a']> rows)
  | step_close rows i : i < length rows → link_step rows (swap_removed rows i).

(** An established link's deadline is exact; the others have one. *)
Definition row_ok (r : LinkRow) : Prop :=
  match lr_phase r with
  | Active a => lr_timeout r = Some (deadline_of a) ∧ al_keepalive_ms a = keepalive_ms_from (al_rtt a)
  | _ => is_Some (lr_timeout r)
  end.

Record rows_ok (rows : list LinkRow) : Prop := {
  ro_ids : NoDup (lr_id <$> rows);
  ro_rows : Forall row_ok rows;
}.

Lemma rows_ok_set rows i r r' :
  rows_ok rows → rows !! i = Some r → lr_id r' = lr_id r → row_ok r' → rows_ok (<[i := r']> rows).
Proof.
  intros [Hnd Hall] Hi Hid Hok. split; [|by apply Forall_insert].
  rewrite list_fmap_insert, list_insert_id; [done|]. by rewrite list_lookup_fmap, Hi, Hid.
Qed.

Lemma link_step_ok rows rows' : link_step rows rows' → rows_ok rows → rows_ok rows'.
Proof.
  destruct 1 as [rows|rows id at_ phase Hid Hph|rows i r a Hi Ha Hk|rows i r a a' Hi Ha Hs|rows i Hi]; intros Hok.
  - done.
  - destruct Hok as [Hnd Hall]. split; [rewrite fmap_app; by apply NoDup_snoc|].
    apply Forall_app. split; [done|]. repeat constructor. unfold row_ok. cbn. by destruct phase.
  - by eapply rows_ok_set.
  - eapply rows_ok_set; [done|done|done|]. split; [done|].
    pose proof (Forall_lookup_1 _ _ _ _ (ro_rows _ Hok) Hi) as Hr. unfold row_ok in Hr. rewrite Ha in Hr.
    by rewrite (sl_keepalive _ _ Hs), (sl_rtt _ _ Hs), (proj2 Hr).
  - destruct Hok as [Hnd Hall]. destruct (lookup_lt_is_Some_2 rows i Hi) as [r Hr]. split.
    + rewrite fmap_swap_removed. eapply submseteq_NoDup; [exact Hnd|]. eapply swap_removed_sub.
      by rewrite list_lookup_fmap, Hr.
    + rewrite <- (swap_removed_perm rows i r Hr) in Hall. by inversion Hall.
Qed.

Lemma link_step_length rows rows' : link_step rows rows' → length rows' ≤ S (length rows).
Proof.
  destruct 1; rewrite ?length_insert, ?length_app; cbn; try lia. rewrite length_swap_removed by done. lia.
Qed.

(** * [Links] implements it *)

Section links.
Context {T : Type} `{LinkTableLaws T}.
Implicit Types (l : Links T) (room : nat → bool).

(** [l] holds [rows] and its cached deadline is their minimum. *)
Record links_ok l room (rows : list LinkRow) : Prop := {
  lo_table : lt_rep (table l) room rows;
  lo_rows : rows_ok rows;
  lo_earliest : earliest_timeout l = minimum (omap lr_timeout rows);
}.

(** An operation's result and the links after it. *)
Definition moves {A} room (rows : list LinkRow) (result : run (A * Links T)) (a : A) (rows' : list LinkRow) : Prop :=
  link_step rows rows' ∧ ∃ l', result = Done (a, l') ∧ links_ok l' room rows'.

Lemma links_index l room rows link :
  links_ok l room rows →
  (∃ i r, links_index_of l link = Done (Some i) ∧ rows !! i = Some r ∧ lr_id r = link)
  ∨ (links_index_of l link = Done None ∧ link ∉ lr_id <$> rows).
Proof. intros [Ht [Hnd _] _]. by eapply lt_index_of_ok. Qed.

Lemma phase_at_ok l room rows i r :
  lt_rep (table l) room rows → rows !! i = Some r → phase_at l i = Done (lr_phase r).
Proof.
  intros Ht Hi. unfold phase_at. rewrite (lt_phases_ok _ _ _ Ht). cbn [mbind run_bind].
  apply index_lookup. by rewrite list_lookup_fmap, Hi.
Qed.

Lemma phase_for_ok l room rows link :
  links_ok l room rows →
  (∃ i r, phase_for l link = Done (Some (lr_phase r)) ∧ rows !! i = Some r ∧ lr_id r = link)
  ∨ (phase_for l link = Done None ∧ link ∉ lr_id <$> rows).
Proof.
  intros Hl. unfold phase_for. destruct (links_index l room rows link Hl) as [(i & r & -> & Hi & Hid)|[-> Hn]].
  - left. exists i, r. split; [|done]. cbn [mbind run_bind]. rewrite (lt_phases_ok _ _ _ (lo_table _ _ _ Hl)).
    cbn [mbind run_bind]. by rewrite list_lookup_fmap, Hi.
  - by right.
Qed.

Lemma refresh_ok t room rows :
  lt_rep t room rows → rows_ok rows → ∃ l', refresh_earliest_timeout t = Done l' ∧ links_ok l' room rows.
Proof.
  intros Ht Hok. destruct (lt_earliest_ok t room rows Ht) as (t' & E & Ht'). unfold refresh_earliest_timeout.
  rewrite E. cbn [mbind run_bind]. eexists. split; [done|]. by split.
Qed.

Lemma put_active_ok t room rows i r a :
  lt_rep t room rows → rows !! i = Some r →
  ∃ t', put_active t i a = Done t' ∧ lt_rep t' room (<[i := active_row (lr_id r) a]> rows).
Proof.
  intros Ht Hi. unfold put_active. destruct (lt_set_phase_ok t room rows i r (Active a) Ht Hi) as (t1 & -> & Ht1).
  cbn [mbind run_bind].
  destruct (lt_set_timeout_at_ok t1 room _ i _ (Some (deadline_of a)) Ht1 (list_lookup_insert_eq _ _ _ (lookup_lt_Some _ _ _ Hi)))
    as (t2 & -> & Ht2). rewrite list_insert_insert_eq in Ht2. by eexists.
Qed.

Lemma lookup_unique rows i j r r' :
  rows_ok rows → rows !! i = Some r → rows !! j = Some r' → lr_id r = lr_id r' → i = j.
Proof.
  intros [Hnd _] Hi Hj E. eapply NoDup_lookup; [exact Hnd| |]; rewrite list_lookup_fmap; [by rewrite Hi|by rewrite Hj, E].
Qed.

Lemma links_index_known l room rows i r :
  links_ok l room rows → rows !! i = Some r → links_index_of l (lr_id r) = Done (Some i).
Proof.
  intros Hl Hi. destruct (links_index l room rows (lr_id r) Hl) as [(j & r' & E & Hj & Hid)|[_ []]].
  - rewrite E. do 2 f_equal. symmetry. eapply lookup_unique; [exact (lo_rows _ _ _ Hl)|exact Hi|exact Hj|done].
  - apply list_elem_of_fmap. exists r. split; [done|]. by eapply list_elem_of_lookup_2.
Qed.

Lemma phase_for_known l room rows i r link :
  links_ok l room rows → rows !! i = Some r → lr_id r = link → phase_for l link = Done (Some (lr_phase r)).
Proof.
  intros Hl Hi <-. unfold phase_for. rewrite (links_index_known l room rows i r Hl Hi). cbn [mbind run_bind].
  rewrite (lt_phases_ok _ _ _ (lo_table _ _ _ Hl)). cbn [mbind run_bind]. by rewrite list_lookup_fmap, Hi.
Qed.

Lemma links_index_unknown l room rows link :
  links_ok l room rows → (link ∉ lr_id <$> rows) → links_index_of l link = Done None.
Proof.
  intros Hl Hn. destruct (links_index l room rows link Hl) as [(j & r & _ & Hj & <-)|[E _]]; [|done].
  destruct Hn. apply list_elem_of_fmap. exists r. split; [done|]. by eapply list_elem_of_lookup_2.
Qed.

Lemma put_active_step l room rows i r a :
  links_ok l room rows → rows !! i = Some r → link_step rows (<[i := active_row (lr_id r) a]> rows) →
  ∃ t l', put_active (table l) i a = Done t ∧ refresh_earliest_timeout t = Done l'
    ∧ links_ok l' room (<[i := active_row (lr_id r) a]> rows).
Proof.
  intros Hl Hi Hs. destruct (put_active_ok _ room rows i r a (lo_table _ _ _ Hl) Hi) as (t & E & Ht).
  destruct (refresh_ok t room _ Ht (link_step_ok _ _ Hs (lo_rows _ _ _ Hl))) as (l' & E' & Hl'). by exists t, l'.
Qed.

(** ** Opening and establishing *)

Lemma track_new l room rows link phase at_ :
  links_ok l room rows → (link ∉ lr_id <$> rows) → is_unestablished phase = true → room (length rows) = true →
  (Z.of_nat (length rows) < u32_max)%Z →
  moves room rows (track l link phase at_) (Ok tt) (rows ++ [mkLinkRow link (Some at_) phase]).
Proof.
  intros Hl Hn Hph Hroom Hmax. assert (Hs : link_step rows (rows ++ [mkLinkRow link (Some at_) phase])) by (by constructor).
  split; [done|]. unfold track. rewrite (links_index_unknown l room rows link Hl Hn). cbn [mbind run_bind].
  pose proof (lt_push_ok (table l) room rows link phase (Some at_) (lo_table _ _ _ Hl) (ro_ids _ (lo_rows _ _ _ Hl)) Hn Hmax) as Hp.
  rewrite Hroom in Hp. destruct Hp as (t & -> & Ht). cbn [mbind run_bind].
  destruct (refresh_ok t room _ Ht (link_step_ok _ _ Hs (lo_rows _ _ _ Hl))) as (l' & -> & Hl'). by eexists.
Qed.

Lemma track_full l room rows link phase at_ :
  links_ok l room rows → (link ∉ lr_id <$> rows) → room (length rows) = false →
  (Z.of_nat (length rows) < u32_max)%Z → track l link phase at_ = Done (Err LinksFull, l).
Proof.
  intros Hl Hn Hroom Hmax. unfold track. rewrite (links_index_unknown l room rows link Hl Hn). cbn [mbind run_bind].
  pose proof (lt_push_ok (table l) room rows link phase (Some at_) (lo_table _ _ _ Hl) (ro_ids _ (lo_rows _ _ _ Hl)) Hn Hmax) as Hp.
  rewrite Hroom in Hp. rewrite Hp. cbn [mbind run_bind]. by destruct l.
Qed.

Lemma track_known l room rows i r phase at_ :
  links_ok l room rows → rows !! i = Some r → track l (lr_id r) phase at_ = Done (Err AlreadyTracked, l).
Proof. intros Hl Hi. unfold track. by rewrite (links_index_known l room rows i r Hl Hi). Qed.

Lemma activate_initiated_ok l room rows i r p key activation now :
  links_ok l room rows → rows !! i = Some r → lr_phase r = Pending p →
  ∃ a, activates (Pending p) a ∧ al_key a = key ∧ al_rtt a = la_rtt activation ∧ al_last_inbound a = now
    ∧ moves room rows (activate_initiated l (lr_id r) key activation now) (Ok tt) (<[i := active_row (lr_id r) a]> rows).
Proof.
  intros Hl Hi Hp. unfold activate_initiated. rewrite (links_index_known l room rows i r Hl Hi). cbn [mbind run_bind].
  rewrite (phase_at_ok l room rows i r (lo_table _ _ _ Hl) Hi), Hp. cbn [mbind run_bind].
  eexists. split; [|split; [|split; [|split]]]; cycle 4.
  - match goal with |- context [put_active _ _ ?x] => set (a := x) end.
    assert (Hs : link_step rows (<[i := active_row (lr_id r) a]> rows)) by (by eapply step_activate; [done|rewrite Hp|]).
    split; [exact Hs|]. destruct (put_active_step l room rows i r a Hl Hi Hs) as (t & l' & -> & E & Hl').
    cbn [mbind run_bind]. rewrite E. by eexists.
  - done.
  - done.
  - done.
  - done.
Qed.

Lemma activate_responding_ok l room rows i r h rtt interface now :
  links_ok l room rows → rows !! i = Some r → lr_phase r = Handshake h →
  ∃ a, activates (Handshake h) a ∧ al_rtt a = rtt ∧ al_last_inbound a = now
    ∧ moves room rows (activate_responding l (lr_id r) rtt interface now) (Ok (hl_destination h))
        (<[i := active_row (lr_id r) a]> rows).
Proof.
  intros Hl Hi Hp. unfold activate_responding. rewrite (links_index_known l room rows i r Hl Hi). cbn [mbind run_bind].
  rewrite (phase_at_ok l room rows i r (lo_table _ _ _ Hl) Hi), Hp. cbn [mbind run_bind].
  eexists. split; [|split; [|split]]; cycle 3.
  - match goal with |- context [put_active _ _ ?x] => set (a := x) end.
    assert (Hs : link_step rows (<[i := active_row (lr_id r) a]> rows)) by (by eapply step_activate; [done|rewrite Hp|]).
    split; [exact Hs|]. destruct (put_active_step l room rows i r a Hl Hi Hs) as (t & l' & -> & E & Hl').
    cbn [mbind run_bind]. rewrite E. by eexists.
  - done.
  - done.
  - done.
Qed.

(** ** Updates *)

(** A change that leaves the deadline's inputs alone leaves the row's deadline right. *)
Lemma amend_row l room rows i r a a' :
  links_ok l room rows → rows !! i = Some r → lr_phase r = Active a → same_link a a' → deadline_of a' = deadline_of a →
  link_step rows (<[i := with_phase (Active a') r]> rows)
  ∧ ∃ t, lt_set_phase (table l) i (Active a') = Done t
    ∧ links_ok (mkLinks t (earliest_timeout l)) room (<[i := with_phase (Active a') r]> rows).
Proof.
  intros Hl Hi Ha Hsame Hd. pose proof (Forall_lookup_1 _ _ _ _ (ro_rows _ (lo_rows _ _ _ Hl)) Hi) as Hr.
  unfold row_ok in Hr. rewrite Ha in Hr. destruct Hr as [Hto _].
  assert (Erow : with_phase (Active a') r = active_row (lr_id r) a') by (unfold with_phase, active_row; by rewrite Hto, Hd).
  assert (Hs : link_step rows (<[i := with_phase (Active a') r]> rows)) by (rewrite Erow; by eapply step_update).
  split; [done|]. destruct (lt_set_phase_ok _ room rows i r (Active a') (lo_table _ _ _ Hl) Hi) as (t & E & Ht).
  exists t. split; [done|]. split; [done|exact (link_step_ok _ _ Hs (lo_rows _ _ _ Hl))|]. cbn. rewrite (lo_earliest _ _ _ Hl).
  f_equal. clear -Hi. revert i Hi. induction rows as [|x rows IH]; intros [|i] Hi; cbn in *; [done|done| |].
  - by injection Hi as ->.
  - by rewrite <- IH.
Qed.

Lemma amend_ok l room rows link f :
  links_ok l room rows → (∀ a, same_link a (f a) ∧ deadline_of (f a) = deadline_of a) →
  ∃ l' rows', amend l link f = Done l' ∧ links_ok l' room rows' ∧ link_step rows rows'.
Proof.
  intros Hl Hf. unfold amend. destruct (links_index l room rows link Hl) as [(i & r & -> & Hi & Hid)|[-> Hn]]; cbn [mbind run_bind].
  2: { exists l, rows. split; [done|]. split; [done|constructor]. }
  rewrite (phase_at_ok l room rows i r (lo_table _ _ _ Hl) Hi). cbn [mbind run_bind].
  destruct (lr_phase r) as [p|h|a] eqn:Ep; [exists l, rows; split; [done|]; split; [done|constructor]..|].
  destruct (amend_row l room rows i r a (f a) Hl Hi Ep) as (Hs & t & -> & Hl'); [apply Hf..|]. by eexists _, _.
Qed.

Lemma set_resource_strategy_ok l room rows link strategy :
  links_ok l room rows →
  ∃ o rows', moves room rows (set_resource_strategy l link strategy) o rows'.
Proof.
  intros Hl. assert (Hstay : link_step rows rows) by constructor. unfold set_resource_strategy.
  destruct (links_index l room rows link Hl) as [(i & r & -> & Hi & Hid)|[-> Hn]]; cbn [mbind run_bind].
  2: { eexists _, rows. split; [done|]. by eexists. }
  rewrite (phase_at_ok l room rows i r (lo_table _ _ _ Hl) Hi). cbn [mbind run_bind].
  destruct (lr_phase r) as [p|h|a] eqn:Ep; [eexists _, rows; split; [done|]; by eexists..|].
  destruct (amend_row l room rows i r a (with_strategy strategy a) Hl Hi Ep) as (Hs & t & -> & Hl'); [by split|done|].
  eexists _, _. split; [exact Hs|]. by eexists.
Qed.

Lemma retime_ok l room rows i r a f :
  links_ok l room rows → rows !! i = Some r → lr_phase r = Active a → same_link a (f a) →
  link_step rows (<[i := active_row (lr_id r) (f a)]> rows)
  ∧ ∃ l', retime l (lr_id r) f = Done l' ∧ links_ok l' room (<[i := active_row (lr_id r) (f a)]> rows).
Proof.
  intros Hl Hi Ha Hsame. assert (Hs : link_step rows (<[i := active_row (lr_id r) (f a)]> rows)) by (by eapply step_update).
  split; [done|]. unfold retime. rewrite (links_index_known l room rows i r Hl Hi). cbn [mbind run_bind].
  rewrite (phase_at_ok l room rows i r (lo_table _ _ _ Hl) Hi), Ha. cbn [mbind run_bind].
  destruct (put_active_step l room rows i r (f a) Hl Hi Hs) as (t & l' & -> & E & Hl').
  cbn [mbind run_bind]. rewrite E. by eexists.
Qed.

Lemma retime_other l room rows link f :
  links_ok l room rows → (∀ i r a, rows !! i = Some r → lr_id r = link → lr_phase r = Active a → False) →
  ∃ l', retime l link f = Done l' ∧ links_ok l' room rows.
Proof.
  intros Hl Hn. unfold retime. destruct (links_index l room rows link Hl) as [(i & r & -> & Hi & Hid)|[-> _]];
    cbn [mbind run_bind]; [|by exists l].
  rewrite (phase_at_ok l room rows i r (lo_table _ _ _ Hl) Hi). cbn [mbind run_bind].
  destruct (lr_phase r) as [p|h|a] eqn:Ep; [| |destruct (Hn i r a Hi Hid Ep)]; cbn [mbind run_bind];
    apply refresh_ok; apply Hl.
Qed.

(** What [f] leaves alone in a link stays as it was in every row. *)
Lemma retime_kept {B} (g : LinkPhase → B) l room rows link f :
  links_ok l room rows → (∀ a, same_link a (f a)) → (∀ a, g (Active (f a)) = g (Active a)) →
  ∃ l' rows', retime l link f = Done l' ∧ links_ok l' room rows' ∧ link_step rows rows'
    ∧ (λ r, g (lr_phase r)) <$> rows' = (λ r, g (lr_phase r)) <$> rows.
Proof.
  intros Hl Hf Hg. destruct (links_index l room rows link Hl) as [(i & r & E & Hi & <-)|[E Hn]].
  - destruct (lr_phase r) as [p|h|a] eqn:Ep.
    3: { destruct (retime_ok l room rows i r a f Hl Hi Ep (Hf a)) as (? & l' & ? & ?). eexists l', _. split; [done|]. split; [done|]. split; [done|].
         rewrite list_fmap_insert, list_insert_id; [done|]. rewrite list_lookup_fmap, Hi. cbn. by rewrite Ep, Hg. }
    1-2: destruct (retime_other l room rows (lr_id r) f Hl) as (l' & ? & ?); [|exists l', rows; split; [done|]; split; [done|by split; [constructor|]]];
      intros j r' a Hj Hid Ha; rewrite (lookup_unique rows j i r' r (lo_rows _ _ _ Hl) Hj Hi Hid) in Hj; congruence.
  - destruct (retime_other l room rows link f Hl) as (l' & ? & ?).
    { intros i r a Hi <- _. apply Hn, list_elem_of_fmap. exists r. split; [done|]. by eapply list_elem_of_lookup_2. }
    exists l', rows. split; [done|]. split; [done|]. by split; [constructor|].
Qed.

Lemma retime_any l room rows link f :
  links_ok l room rows → (∀ a, same_link a (f a)) →
  ∃ l' rows', retime l link f = Done l' ∧ links_ok l' room rows' ∧ link_step rows rows'.
Proof. intros Hl Hf. destruct (retime_kept (λ _, tt) l room rows link f Hl Hf) as (l' & rows' & ? & ? & ? & _); [done|by exists l', rows']. Qed.

Lemma inbound_same now a : same_link a (inbound_at now a).
Proof. unfold inbound_at. destruct (al_route_evidence a) eqn:E; cbn; rewrite ?E; split; cbn; rewrite ?E; try done; lia. Qed.
Lemma outbound_same now a : same_link a (outbound_at now a).
Proof. by split. Qed.
Lemma keepalive_same now a : same_link a (keepalive_at now a).
Proof. by split. Qed.

(** ** Removal *)

Lemma remove_ok l room rows link :
  links_ok l room rows →
  (∃ i r, rows !! i = Some r ∧ lr_id r = link ∧ moves room rows (remove l link) true (swap_removed rows i))
  ∨ ((link ∉ lr_id <$> rows) ∧ remove l link = Done (false, l)).
Proof.
  intros Hl. unfold remove. destruct (links_index l room rows link Hl) as [(i & r & -> & Hi & Hid)|[-> Hn]]; [left|by right].
  exists i, r. split; [done|]. split; [done|]. cbn [mbind run_bind]. pose proof (lookup_lt_Some _ _ _ Hi) as Hlt.
  assert (Hs : link_step rows (swap_removed rows i)) by (by constructor). split; [done|].
  destruct (lt_swap_remove_ok _ room rows i (lo_table _ _ _ Hl) (ro_ids _ (lo_rows _ _ _ Hl)) Hlt) as (t & -> & Ht). cbn [mbind run_bind].
  destruct (refresh_ok t room _ Ht (link_step_ok _ _ Hs (lo_rows _ _ _ Hl))) as (l' & -> & Hl'). by eexists.
Qed.

(** ** Due links *)

Lemma links_same l room rows t :
  links_ok l room rows → lt_rep t room rows → links_ok (mkLinks t (earliest_timeout l)) room rows.
Proof. intros [_ Hok He] Ht. by split. Qed.

Lemma link_id_at t room rows i r : lt_rep t room rows → rows !! i = Some r →
  (ids ← lt_link_ids t; index ids i) = Done (lr_id r).
Proof.
  intros Ht Hi. rewrite (lt_link_ids_ok _ _ _ Ht). cbn [mbind run_bind]. apply index_lookup. by rewrite list_lookup_fmap, Hi.
Qed.

Lemma pop_stale_ok l room rows now :
  links_ok l room rows →
  ∃ found l', pop_stale l now = Done (found, l') ∧ links_ok l' room rows
    ∧ match found with
      | Some id => ∃ i r, rows !! i = Some r ∧ lr_id r = id ∧ row_due now r = true ∧ is_stale now (lr_phase r) = true
      | None => ∀ i r, rows !! i = Some r → row_due now r = true → is_stale now (lr_phase r) = false
      end.
Proof.
  intros Hl. unfold pop_stale.
  destruct (lt_first_due_ok _ room rows now (λ _, is_stale now) (lo_table _ _ _ Hl)) as (found & t & -> & Ht & Hf).
  cbn [mbind run_bind]. pose proof (links_same l room rows t Hl Ht) as Hl'. destruct found as [i|].
  - destruct Hf as (r & Hi & Hdue & Hst). rewrite (lt_link_ids_ok _ _ _ Ht). cbn [mbind run_bind].
    rewrite (index_lookup _ i (lr_id r)) by (by rewrite list_lookup_fmap, Hi). cbn [mbind run_bind].
    eexists _, _. split; [done|]. split; [done|]. by exists i, r.
  - by eexists _, _.
Qed.

Definition serves (now : Z) (r : LinkRow) : bool := row_due now r && owes_keepalive now (lr_phase r).
Definition kept_alive (now : Z) (r : LinkRow) : LinkRow :=
  match lr_phase r with Active a => active_row (lr_id r) (keepalive_at now a) | _ => r end.
Definition due_keepalive (r : LinkRow) : option DueKeepalive :=
  match lr_phase r with Active a => Some (mkDue (lr_id r) (al_attached_interface a)) | _ => None end.

Lemma pop_due_keepalive_ok l room rows now :
  links_ok l room rows →
  ∃ found l', pop_due_keepalive l now = Done (found, l')
    ∧ match found with
      | Some due => ∃ i r, rows !! i = Some r ∧ serves now r = true ∧ due_keepalive r = Some due
          ∧ links_ok l' room (<[i := kept_alive now r]> rows) ∧ link_step rows (<[i := kept_alive now r]> rows)
      | None => (∀ i r, rows !! i = Some r → serves now r = false) ∧ links_ok l' room rows
      end.
Proof.
  intros Hl. unfold pop_due_keepalive.
  destruct (lt_first_due_ok _ room rows now (λ _, owes_keepalive now) (lo_table _ _ _ Hl)) as (found & t & -> & Ht & Hf).
  cbn [mbind run_bind]. pose proof (links_same l room rows t Hl Ht) as Hl'. destruct found as [i|].
  2: { eexists _, _. split; [done|]. split; [|done]. intros i r Hi. unfold serves. specialize (Hf i r Hi).
       destruct (row_due now r); cbn; [by apply Hf|done]. }
  destruct Hf as (r & Hi & Hdue & Ho). rewrite (lt_link_ids_ok _ _ _ Ht). cbn [mbind run_bind].
  rewrite (index_lookup _ i (lr_id r)) by (by rewrite list_lookup_fmap, Hi). cbn [mbind run_bind].
  rewrite (phase_at_ok (mkLinks t (earliest_timeout l)) room rows i r Ht Hi). cbn [mbind run_bind].
  pose proof Ho as Ho'. unfold owes_keepalive in Ho'. destruct (lr_phase r) as [p|h|a] eqn:Ep; [done|done|].
  destruct (al_role a) eqn:Er; [|done].
  assert (Hs : link_step rows (<[i := active_row (lr_id r) (keepalive_at now a)]> rows)).
  { eapply step_update; [done|done|apply keepalive_same]. }
  destruct (put_active_step _ room rows i r (keepalive_at now a) Hl' Hi Hs) as (t' & l' & E & E' & Hl'').
  cbn [table] in E. rewrite E. cbn [mbind run_bind]. rewrite E'. cbn [mbind run_bind].
  eexists _, _. split; [done|]. exists i, r. unfold serves, due_keepalive, kept_alive. rewrite Ep, Hdue, Ho. done.
Qed.

Definition expires (now : Z) (r : LinkRow) : bool := row_due now r && is_unestablished (lr_phase r).

Lemma pop_overdue_ok l room rows now :
  links_ok l room rows →
  ∃ found l', pop_overdue l now = Done (found, l')
    ∧ match found with
      | Some overdue => ∃ i r, rows !! i = Some r ∧ expires now r = true ∧ overdue_of (lr_id r) (lr_phase r) = Some overdue
          ∧ links_ok l' room (swap_removed rows i)
      | None => (∀ i r, rows !! i = Some r → expires now r = false) ∧ links_ok l' room rows
      end.
Proof.
  intros Hl. unfold pop_overdue.
  destruct (lt_first_due_ok _ room rows now (λ _, is_unestablished) (lo_table _ _ _ Hl)) as (found & t & -> & Ht & Hf).
  cbn [mbind run_bind]. pose proof (links_same l room rows t Hl Ht) as Hl'. destruct found as [i|].
  2: { eexists _, _. split; [done|]. split; [|done]. intros i r Hi. unfold expires. specialize (Hf i r Hi).
       destruct (row_due now r); cbn; [by apply Hf|done]. }
  destruct Hf as (r & Hi & Hdue & Hu). rewrite (lt_link_ids_ok _ _ _ Ht). cbn [mbind run_bind].
  rewrite (index_lookup _ i (lr_id r)) by (by rewrite list_lookup_fmap, Hi). cbn [mbind run_bind].
  rewrite (phase_at_ok (mkLinks t (earliest_timeout l)) room rows i r Ht Hi). cbn [mbind run_bind]. pose proof (lookup_lt_Some _ _ _ Hi) as Hlt.
  destruct (overdue_of (lr_id r) (lr_phase r)) as [overdue|] eqn:Eo; [|by destruct (lr_phase r)].
  destruct (lt_swap_remove_ok t room rows i Ht (ro_ids _ (lo_rows _ _ _ Hl)) Hlt) as (t' & -> & Ht'). cbn [mbind run_bind].
  assert (Hs : link_step rows (swap_removed rows i)) by (by constructor).
  destruct (refresh_ok t' room _ Ht' (link_step_ok _ _ Hs (lo_rows _ _ _ Hl))) as (l' & -> & Hl''). cbn [mbind run_bind].
  eexists _, _. split; [done|]. exists i, r. unfold expires. by rewrite Hdue, Hu.
Qed.

(** ** Any sequence of operations *)

Inductive link_op :=
  | TrackInitiated (link : InitiatedLink)
  | TrackResponding (link : RespondingLink)
  | ActivateInitiated (link : LinkId) (key : LinkKey) (activation : LinkActivation) (now : Z)
  | ActivateResponding (link : LinkId) (rtt : Z) (interface : InterfaceId) (now : Z)
  | SetResourceStrategy (link : LinkId) (strategy : ResourceStrategy)
  | NoteResourceConcluded (link : LinkId) (window eifr : Z)
  | NoteIdentified (link : LinkId) (identity : IdentityHash)
  | NoteInbound (link : LinkId) (now : Z)
  | NoteOutbound (link : LinkId) (now : Z)
  | NoteKeepaliveSent (link : LinkId) (now : Z)
  | Remove (link : LinkId)
  | PopStale (now : Z)
  | PopDueKeepalive (now : Z)
  | PopOverdue (now : Z).

Definition after {A} (result : run (A * Links T)) : run (Links T) := '(_, l) ← result; Done l.
Definition links_do l (op : link_op) : run (Links T) :=
  match op with
  | TrackInitiated link => after (track_initiated l link)
  | TrackResponding link => after (track_responding l link)
  | ActivateInitiated link key activation now => after (activate_initiated l link key activation now)
  | ActivateResponding link rtt interface now => after (activate_responding l link rtt interface now)
  | SetResourceStrategy link strategy => after (set_resource_strategy l link strategy)
  | NoteResourceConcluded link window eifr => note_resource_concluded l link window eifr
  | NoteIdentified link identity => note_identified l link identity
  | NoteInbound link now => note_inbound l link now
  | NoteOutbound link now => note_outbound l link now
  | NoteKeepaliveSent link now => note_keepalive_sent l link now
  | Remove link => after (remove l link)
  | PopStale now => after (pop_stale l now)
  | PopDueKeepalive now => after (pop_due_keepalive l now)
  | PopOverdue now => after (pop_overdue l now)
  end.
Fixpoint links_do_all l (ops : list link_op) : run (Links T) :=
  match ops with [] => Done l | op :: ops => l ← links_do l op; links_do_all l ops end.

(** The operation completed and made one step. *)
Definition advances room (rows : list LinkRow) (result : run (Links T)) : Prop :=
  ∃ l' rows', result = Done l' ∧ links_ok l' room rows' ∧ link_step rows rows'.

Lemma advances_stay l room rows : links_ok l room rows → advances room rows (Done l).
Proof. intros Hl. exists l, rows. split; [done|]. split; [done|constructor]. Qed.

Lemma advances_moves {A} room rows (result : run (A * Links T)) a rows' :
  moves room rows result a rows' → advances room rows (after result).
Proof. intros (Hs & l' & -> & Hl'). by exists l', rows'. Qed.

Lemma track_advances l room rows link phase at_ :
  links_ok l room rows → (Z.of_nat (length rows) < u32_max)%Z → is_unestablished phase = true →
  advances room rows (after (track l link phase at_)).
Proof.
  intros Hl Hmax Hph. destruct (links_index l room rows link Hl) as [(i & r & _ & Hi & <-)|[_ Hn]].
  - rewrite (track_known l room rows i r phase at_ Hl Hi). by apply advances_stay.
  - destruct (room (length rows)) eqn:Hroom.
    + eapply advances_moves. by eapply track_new.
    + rewrite (track_full l room rows link phase at_ Hl Hn Hroom Hmax). by apply advances_stay.
Qed.

Lemma activate_initiated_advances l room rows link key activation now :
  links_ok l room rows → advances room rows (after (activate_initiated l link key activation now)).
Proof.
  intros Hl. destruct (links_index l room rows link Hl) as [(i & r & E & Hi & <-)|[E _]].
  - destruct (lr_phase r) as [p|h|a] eqn:Ep.
    + destruct (activate_initiated_ok l room rows i r p key activation now Hl Hi Ep) as (a & _ & _ & _ & _ & Hm).
      by eapply advances_moves.
    + unfold activate_initiated. rewrite E. cbn [mbind run_bind].
      rewrite (phase_at_ok l room rows i r (lo_table _ _ _ Hl) Hi), Ep. by apply advances_stay.
    + unfold activate_initiated. rewrite E. cbn [mbind run_bind].
      rewrite (phase_at_ok l room rows i r (lo_table _ _ _ Hl) Hi), Ep. by apply advances_stay.
  - unfold activate_initiated. rewrite E. by apply advances_stay.
Qed.

Lemma activate_responding_advances l room rows link rtt interface now :
  links_ok l room rows → advances room rows (after (activate_responding l link rtt interface now)).
Proof.
  intros Hl. destruct (links_index l room rows link Hl) as [(i & r & E & Hi & <-)|[E _]].
  - destruct (lr_phase r) as [p|h|a] eqn:Ep.
    2: { destruct (activate_responding_ok l room rows i r h rtt interface now Hl Hi Ep) as (a & _ & _ & _ & Hm).
         by eapply advances_moves. }
    all: unfold activate_responding; rewrite E; cbn [mbind run_bind];
      rewrite (phase_at_ok l room rows i r (lo_table _ _ _ Hl) Hi), Ep; by apply advances_stay.
  - unfold activate_responding. rewrite E. by apply advances_stay.
Qed.

Lemma pops_advance l room rows now :
  links_ok l room rows →
  advances room rows (after (pop_stale l now)) ∧ advances room rows (after (pop_due_keepalive l now))
  ∧ advances room rows (after (pop_overdue l now)).
Proof.
  intros Hl. conj.
  - destruct (pop_stale_ok l room rows now Hl) as (found & l' & -> & Hl' & _). by apply advances_stay.
  - destruct (pop_due_keepalive_ok l room rows now Hl) as ([due|] & l' & -> & Hf).
    + destruct Hf as (i & r & _ & _ & _ & Hl' & Hs). by eexists _, _.
    + destruct Hf as [_ Hl']. by apply advances_stay.
  - destruct (pop_overdue_ok l room rows now Hl) as ([o|] & l' & -> & Hf).
    + destruct Hf as (i & r & Hi & _ & _ & Hl'). eexists _, _. split; [done|]. split; [exact Hl'|].
      constructor. by eapply lookup_lt_Some.
    + destruct Hf as [_ Hl']. by apply advances_stay.
Qed.

Lemma links_do_advances l room rows op :
  links_ok l room rows → (Z.of_nat (length rows) < u32_max)%Z → advances room rows (links_do l op).
Proof.
  intros Hl Hmax. destruct op; cbn [links_do].
  - by apply track_advances.
  - by apply track_advances.
  - by apply activate_initiated_advances.
  - by apply activate_responding_advances.
  - destruct (set_resource_strategy_ok l room rows link strategy Hl) as (o & rows' & Hm). by eapply advances_moves.
  - unfold note_resource_concluded. case_match; [by apply advances_stay|]. by apply amend_ok.
  - by apply amend_ok.
  - apply retime_any; [done|]. apply inbound_same.
  - apply retime_any; [done|]. apply outbound_same.
  - apply retime_any; [done|]. apply keepalive_same.
  - destruct (remove_ok l room rows link Hl) as [(i & r & _ & _ & Hm)|[_ ->]]; [by eapply advances_moves|by apply advances_stay].
  - by apply pops_advance.
  - by apply pops_advance.
  - by apply pops_advance.
Qed.

Lemma links_do_all_ok l room rows ops :
  links_ok l room rows → (Z.of_nat (length rows + length ops) ≤ u32_max)%Z →
  ∃ l' rows', links_do_all l ops = Done l' ∧ rtc link_step rows rows' ∧ links_ok l' room rows'.
Proof.
  revert l rows. induction ops as [|op ops IH]; intros l rows Hl Hmax; cbn [links_do_all length] in *.
  { exists l, rows. split; [done|]. split; [constructor|done]. }
  destruct (links_do_advances l room rows op Hl) as (l1 & rows1 & -> & Hl1 & Hs); [lia|]. cbn [mbind run_bind].
  pose proof (link_step_length _ _ Hs). destruct (IH l1 rows1 Hl1 ltac:(lia)) as (l2 & rows2 & E & Hrtc & Hl2). exists l2, rows2. split; [done|].
  split; [by eapply rtc_l|done].
Qed.

(** C12. The links are a state machine, and their earliest deadline is always known.  From links whose
    invariant holds, any sequence of operations, short of 2^32 links, completes; it is a sequence of steps that open, establish,
    update or close one link, in which an established link never changes its key, role, peer, interface or
    round-trip time; and after it no two links share an id, each established link's deadline is the one its
    times give, and [earliest_timeout_at] is the minimum of all the deadlines. *)
Theorem links_are_a_state_machine l room rows ops :
  links_ok l room rows → (Z.of_nat (length rows + length ops) ≤ u32_max)%Z →
  ∃ l' rows', links_do_all l ops = Done l' ∧ rtc link_step rows rows' ∧ lt_rep (table l') room rows'
    ∧ rows_ok rows' ∧ earliest_timeout_at l' = minimum (omap lr_timeout rows').
Proof.
  intros Hl Hmax. destruct (links_do_all_ok l room rows ops Hl Hmax) as (l' & rows' & E & Hrtc & [Ht Hok He]). by exists l', rows'.
Qed.
End links.
