(* ===== verification/LinksFixed.v ===== *)
(** The fixed link table: [prns-core/src/routing/links/table/impls/fixed.rs].  Four arrays of
    [MAX_LINKS] cells; a row has a deadline when its [has_timeout] flag is set. *)

From S2P Require Import Prelude Columns Evidence Routes ChannelTable Links LinksInvariant.

(** * The default methods of the trait *)

Section default_links.
Context {T : Type} (len : T → nat) (link_ids : T → run (list LinkId)) (timeout_at : T → nat → run (option Z))
  (phases : T → run (list LinkPhase)).
Context (t : T) (rows : list LinkRow).
Context (Hlen : len t = length rows).
Context (Hids : link_ids t = Done (lr_id <$> rows)) (Hphases : phases t = Done (lr_phase <$> rows)).
Context (Hat : ∀ i r, rows !! i = Some r → timeout_at t i = Done (lr_timeout r)).

Lemma default_index_of_rows link :
  (∃ i r, default_link_index_of link_ids t link = Done (Some i) ∧ rows !! i = Some r ∧ lr_id r = link)
  ∨ (default_link_index_of link_ids t link = Done None ∧ link ∉ lr_id <$> rows).
Proof.
  unfold default_link_index_of. rewrite Hids. cbn [mbind run_bind].
  destruct (list_find _ _) as [[i id]|] eqn:E; cbn.
  - left. apply list_find_Some in E as (Hi & -> & _). rewrite list_lookup_fmap in Hi.
    destruct (rows !! i) as [r|] eqn:Er; [|done]. injection Hi as Hi. by exists i, r.
  - right. split; [done|]. apply list_find_None in E. intros Hin.
    rewrite list.Forall_forall in E. by apply (E _ Hin).
Qed.

Lemma timeouts_up_rows n i :
  i + n = length rows → timeouts_up timeout_at t n i = Done (omap lr_timeout (drop i rows)).
Proof.
  revert i. induction n as [|n IH]; intros i Hi; cbn [timeouts_up]; [by rewrite drop_ge by lia|].
  destruct (lookup_lt_is_Some_2 rows i) as [r Hr]; [lia|]. rewrite (Hat i r Hr). cbn [mbind run_bind].
  rewrite IH by lia. cbn [mbind run_bind]. rewrite (drop_S rows r i Hr). cbn. by destruct (lr_timeout r).
Qed.

Lemma default_earliest_rows :
  default_earliest_indexed_timeout len timeout_at t = Done (minimum (omap lr_timeout rows), t).
Proof.
  unfold default_earliest_indexed_timeout. by rewrite timeouts_up_rows by (by rewrite Hlen).
Qed.

Lemma first_due_up_rows now predicate n i :
  i + n = length rows →
  ∃ found, first_due_up timeout_at phases t now predicate n i = Done found
    ∧ match found with
      | Some j => ∃ r, rows !! j = Some r ∧ row_due now r = true ∧ predicate j (lr_phase r) = true
      | None => ∀ j r, i ≤ j → rows !! j = Some r → row_due now r = true → predicate j (lr_phase r) = false
      end.
Proof.
  revert i. induction n as [|n IH]; intros i Hi; cbn [first_due_up].
  { eexists. split; [done|]. intros j r Hj Hr. apply lookup_lt_Some in Hr. lia. }
  destruct (lookup_lt_is_Some_2 rows i) as [r Hr]; [lia|]. rewrite (Hat i r Hr). cbn [mbind run_bind].
  change (match lr_timeout r with Some at_ => (at_ <=? now)%Z | None => false end) with (row_due now r).
  destruct (IH (S i)) as (found & E & Hf); [lia|].
  assert (Hskip : ∀ b, (row_due now r = true → predicate i (lr_phase r) = false) → b = Done found →
    ∃ found, b = Done found ∧ match found with
      | Some j => ∃ r, rows !! j = Some r ∧ row_due now r = true ∧ predicate j (lr_phase r) = true
      | None => ∀ j r, i ≤ j → rows !! j = Some r → row_due now r = true → predicate j (lr_phase r) = false
      end).
  { intros b Hno ->. exists found. split; [done|]. destruct found; [done|]. intros j r' Hj Hr'.
    destruct (decide (j = i)) as [->|]; [|apply Hf; [lia|done]]. rewrite Hr in Hr'. by injection Hr' as <-. }
  destruct (row_due now r) eqn:Ed; [|by apply Hskip].
  rewrite Hphases. cbn [mbind run_bind]. rewrite (index_lookup _ i (lr_phase r)) by (by rewrite list_lookup_fmap, Hr).
  cbn [mbind run_bind]. destruct (predicate i (lr_phase r)) eqn:Ep; [|by apply Hskip].
  eexists. split; [done|]. by exists r.
Qed.

Lemma default_first_due_rows now predicate :
  ∃ found, default_first_due_timeout_matching len timeout_at phases t now predicate = Done (found, t)
    ∧ match found with
      | Some j => ∃ r, rows !! j = Some r ∧ row_due now r = true ∧ predicate j (lr_phase r) = true
      | None => ∀ j r, rows !! j = Some r → row_due now r = true → predicate j (lr_phase r) = false
      end.
Proof.
  unfold default_first_due_timeout_matching.
  destruct (first_due_up_rows now predicate (len t) 0) as (found & -> & Hf); [by rewrite Hlen|].
  exists found. split; [done|]. destruct found; [done|]. intros j r. apply Hf. lia.
Qed.
End default_links.

(** * The table *)

Section fixed_links.
Context {MAX_LINKS : nat}.

Record FixedLinkTable := mkFixedLinks {
  fl_len : nat;
  fl_link_ids : list LinkId;
  fl_timeout_ats : list Z;
  fl_has_timeout : list bool;
  fl_phases : list LinkPhase;
}.

Definition fixed_links_default : FixedLinkTable :=
  mkFixedLinks 0 (replicate MAX_LINKS (replicate 16 0%Z)) (replicate MAX_LINKS 0%Z) (replicate MAX_LINKS false)
    (replicate MAX_LINKS vacant).

Definition fixed_link_ids (t : FixedLinkTable) : run (list LinkId) := slice (fl_link_ids t) 0 (fl_len t).
Definition fixed_timeout_at (t : FixedLinkTable) (i : nat) : run (option Z) :=
  flags ← slice (fl_has_timeout t) 0 (fl_len t);
  has ← index flags i;
  at_ ← index (fl_timeout_ats t) i;
  Done (if (has : bool) then Some at_ else None).
Definition fixed_phases (t : FixedLinkTable) : run (list LinkPhase) := slice (fl_phases t) 0 (fl_len t).
Definition fixed_set_phase (t : FixedLinkTable) (i : nat) (phase : LinkPhase) : run FixedLinkTable :=
  phases ← store (fl_phases t) i phase;
  Done (mkFixedLinks (fl_len t) (fl_link_ids t) (fl_timeout_ats t) (fl_has_timeout t) phases).
Definition fixed_set_timeout_at (t : FixedLinkTable) (i : nat) (timeout_at : option Z) : run FixedLinkTable :=
  flags ← store (fl_has_timeout t) i (bool_decide (is_Some timeout_at));
  ats ← match timeout_at with Some at_ => store (fl_timeout_ats t) i at_ | None => Done (fl_timeout_ats t) end;
  Done (mkFixedLinks (fl_len t) (fl_link_ids t) ats flags (fl_phases t)).
Definition fixed_push (t : FixedLinkTable) (link_id : LinkId) (phase : LinkPhase) (timeout_at : option Z) :
    run (result TrackLinkError nat * FixedLinkTable) :=
  if (MAX_LINKS <=? fl_len t)%nat then Done (Err LinksFull, t) else
  let i := fl_len t in
  ids ← store (fl_link_ids t) i link_id;
  t ← fixed_set_timeout_at (mkFixedLinks (fl_len t) ids (fl_timeout_ats t) (fl_has_timeout t) (fl_phases t)) i timeout_at;
  phases ← store (fl_phases t) i phase;
  Done (Ok i, mkFixedLinks (fl_len t + 1) (fl_link_ids t) (fl_timeout_ats t) (fl_has_timeout t) phases).
Definition fixed_swap_remove (t : FixedLinkTable) (i : nat) : run FixedLinkTable :=
  last ← match fl_len t with O => Panic | S last => Done last end;
  ids ← swap_at (fl_link_ids t) i last;
  ats ← swap_at (fl_timeout_ats t) i last;
  flags ← swap_at (fl_has_timeout t) i last;
  phases ← swap_at (fl_phases t) i last;
  phases ← store phases last vacant;
  Done (mkFixedLinks last ids ats flags phases).

#[global] Instance fixed_links : LinkTable FixedLinkTable := {|
  lt_len := fl_len;
  lt_link_ids := fixed_link_ids;
  lt_timeout_at := fixed_timeout_at;
  lt_phases := fixed_phases;
  lt_set_phase := fixed_set_phase;
  lt_set_timeout_at := fixed_set_timeout_at;
  lt_push := fixed_push;
  lt_swap_remove := fixed_swap_remove;
  lt_index_of := default_link_index_of fixed_link_ids;
  lt_earliest_indexed_timeout := default_earliest_indexed_timeout fl_len fixed_timeout_at;
  lt_first_due_timeout_matching := default_first_due_timeout_matching fl_len fixed_timeout_at fixed_phases;
|}.

(** * The contract *)

(** The cell behind a row's deadline; without the flag it holds anything. *)
Definition flag_of (r : LinkRow) : bool := bool_decide (is_Some (lr_timeout r)).
Definition deadline_cells (ats : list Z) (rows : list LinkRow) : Prop :=
  length ats = MAX_LINKS ∧ ∀ i r at_, rows !! i = Some r → lr_timeout r = Some at_ → ats !! i = Some at_.

Record fixed_links_rep (t : FixedLinkTable) (rows : list LinkRow) : Prop := {
  fx_ids : column MAX_LINKS (fl_len t) (fl_link_ids t) (lr_id <$> rows);
  fx_flags : column MAX_LINKS (fl_len t) (fl_has_timeout t) (flag_of <$> rows);
  fx_ats : deadline_cells (fl_timeout_ats t) rows;
  fx_phases : column MAX_LINKS (fl_len t) (fl_phases t) (lr_phase <$> rows);
}.

Lemma fixed_length t rows : fixed_links_rep t rows → length rows = fl_len t ∧ fl_len t ≤ MAX_LINKS.
Proof.
  intros [Hi _ _ _]. pose proof (column_length _ _ _ _ Hi) as Hl. rewrite length_fmap in Hl.
  split; [done|]. by destruct Hi as (_ & ? & _).
Qed.

Lemma fixed_timeout_at_ok t rows i r :
  fixed_links_rep t rows → rows !! i = Some r → fixed_timeout_at t i = Done (lr_timeout r).
Proof.
  intros Ht Hi. pose proof (fixed_length t rows Ht) as [Hl Hle]. destruct Ht as [_ Hf [Hal Ha] _].
  pose proof (lookup_lt_Some _ _ _ Hi) as Hlt. unfold fixed_timeout_at.
  rewrite (column_slice _ _ _ _ Hf). cbn [mbind run_bind].
  rewrite (index_lookup _ i (flag_of r)) by (by rewrite list_lookup_fmap, Hi). cbn [mbind run_bind].
  destruct (lookup_lt_is_Some_2 (fl_timeout_ats t) i) as [at_ Hat]; [lia|].
  rewrite (index_lookup _ _ _ Hat). cbn [mbind run_bind]. unfold flag_of.
  destruct (lr_timeout r) as [d|] eqn:Ed; cbn; [|done]. rewrite (Ha i r d Hi Ed) in Hat. congruence.
Qed.

Lemma deadline_cells_set ats rows i r (at_ : option Z) ats' :
  deadline_cells ats rows → rows !! i = Some r →
  match at_ with Some x => store ats i x | None => Done ats end = Done ats' →
  deadline_cells ats' (<[i := with_timeout_at at_ r]> rows).
Proof.
  intros [Hl Ha] Hi E. pose proof (lookup_lt_Some _ _ _ Hi) as Hlt. split.
  - destruct at_ as [x|]; [|by inv_run]. unfold store in E. case_decide; [|done]. inv_run. by rewrite length_insert.
  - intros j r' d Hj Hd. destruct (decide (j = i)) as [->|Hne].
    + rewrite list_lookup_insert_eq in Hj by done. injection Hj as <-. cbn in Hd. subst at_.
      unfold store in E. case_decide; [|done]. inv_run. by rewrite list_lookup_insert_eq.
    + rewrite list_lookup_insert_ne in Hj by done. specialize (Ha j r' d Hj Hd).
      destruct at_ as [x|]; [|by inv_run]. unfold store in E. case_decide; [|done]. inv_run.
      by rewrite list_lookup_insert_ne.
Qed.

Lemma fixed_set_timeout_ok t rows i r at_ :
  fixed_links_rep t rows → rows !! i = Some r →
  ∃ t', fixed_set_timeout_at t i at_ = Done t' ∧ fixed_links_rep t' (<[i := with_timeout_at at_ r]> rows).
Proof.
  intros Ht Hi. pose proof (fixed_length t rows Ht) as [Hl Hle]. pose proof (lookup_lt_Some _ _ _ Hi) as Hlt.
  destruct Ht as [Hids Hf Ha Hp]. unfold fixed_set_timeout_at. rewrite Hl in Hlt.
  step_column (column_store _ _ _ _ _ (bool_decide (is_Some at_)) Hf Hlt).
  assert (∃ ats', match at_ with Some x => store (fl_timeout_ats t) i x | None => Done (fl_timeout_ats t) end = Done ats')
    as [ats' Eats].
  { destruct at_; [|by eexists]. rewrite store_done; [by eexists|]. destruct Ha as [-> _]. lia. }
  rewrite Eats. cbn [mbind run_bind]. eexists. split; [done|]. split; cbn.
  - rewrite list_fmap_insert, list_insert_id; [done|]. by rewrite list_lookup_fmap, Hi.
  - rewrite list_fmap_insert. exact Hc.
  - by eapply deadline_cells_set.
  - rewrite list_fmap_insert, list_insert_id; [done|]. by rewrite list_lookup_fmap, Hi.
Qed.

Lemma fixed_set_phase_ok t rows i r phase :
  fixed_links_rep t rows → rows !! i = Some r →
  ∃ t', fixed_set_phase t i phase = Done t' ∧ fixed_links_rep t' (<[i := with_phase phase r]> rows).
Proof.
  intros Ht Hi. pose proof (fixed_length t rows Ht) as [Hl Hle]. pose proof (lookup_lt_Some _ _ _ Hi) as Hlt.
  destruct Ht as [Hids Hf [Hal Ha] Hp]. unfold fixed_set_phase. rewrite Hl in Hlt.
  step_column (column_store _ _ _ _ _ phase Hp Hlt). eexists. split; [done|].
  split; cbn.
  - rewrite list_fmap_insert, list_insert_id; [done|]. by rewrite list_lookup_fmap, Hi.
  - rewrite list_fmap_insert, list_insert_id; [done|]. by rewrite list_lookup_fmap, Hi.
  - split; [done|]. intros j r' at_ Hj. destruct (decide (j = i)) as [->|].
    + rewrite list_lookup_insert_eq in Hj by lia. injection Hj as <-. exact (Ha i r at_ Hi).
    + rewrite list_lookup_insert_ne in Hj by done. by apply Ha.
  - rewrite list_fmap_insert. exact Hc.
Qed.

Lemma fixed_push_ok t rows link phase at_ :
  fixed_links_rep t rows →
  if (length rows <? MAX_LINKS)%nat then
    ∃ t', fixed_push t link phase at_ = Done (Ok (length rows), t') ∧ fixed_links_rep t' (rows ++ [mkLinkRow link at_ phase])
  else fixed_push t link phase at_ = Done (Err LinksFull, t).
Proof.
  intros Ht. pose proof (fixed_length t rows Ht) as [Hl Hle]. rewrite Hl. unfold fixed_push.
  destruct (Nat.ltb_spec (fl_len t) MAX_LINKS) as [Hlt|Hge].
  2: { by rewrite (proj2 (Nat.leb_le _ _)) by lia. }
  rewrite (proj2 (Nat.leb_gt _ _)) by lia. destruct Ht as [Hids Hf [Hal Ha] Hp].
  step_column (column_push _ _ _ _ link Hids Hlt). unfold fixed_set_timeout_at. cbn [fl_has_timeout fl_timeout_ats].
  step_column (column_push _ _ _ _ (bool_decide (is_Some at_)) Hf Hlt).
  assert (∃ ats', match at_ with Some x => store (fl_timeout_ats t) (fl_len t) x | None => Done (fl_timeout_ats t) end = Done ats'
    ∧ length ats' = MAX_LINKS ∧ (∀ x, at_ = Some x → ats' !! fl_len t = Some x)
    ∧ ∀ j, j < fl_len t → ats' !! j = fl_timeout_ats t !! j) as (ats' & -> & Hl' & Hnew & Hold).
  { destruct at_ as [x|]; [|by eexists]. rewrite store_done by lia. eexists. split; [done|]. rewrite length_insert.
    split; [done|]. split; [|intros j Hj; by rewrite list_lookup_insert_ne by lia].
    intros y [= ->]. by rewrite list_lookup_insert_eq by lia. }
  cbn [mbind run_bind fl_len fl_link_ids fl_timeout_ats fl_has_timeout fl_phases]. step_column (column_push _ _ _ _ phase Hp Hlt).
  eexists. split; [done|]. rewrite Nat.add_1_r. split; cbn; rewrite ?fmap_app; try done.
  split; [done|]. intros j r' d Hj Hd. apply lookup_app_Some in Hj as [Hj|[Hge Hj]].
  - rewrite Hold by (rewrite <- Hl; by eapply lookup_lt_Some). by eapply Ha.
  - apply list_lookup_singleton_Some in Hj as [Hz <-]. replace j with (fl_len t) by lia. by apply Hnew.
Qed.

Lemma column_overwrite {A} cap n (col live : list A) x :
  column cap n col live → n < cap → ∃ col', store col n x = Done col' ∧ column cap n col' live.
Proof.
  intros (Hl & Hn & <-) Hlt. rewrite store_done by lia. eexists. split; [done|].
  split; [by rewrite length_insert|]. split; [done|]. by rewrite take_insert_ge by lia.
Qed.

Lemma fixed_swap_remove_ok t rows i :
  fixed_links_rep t rows → i < length rows →
  ∃ t', fixed_swap_remove t i = Done t' ∧ fixed_links_rep t' (swap_removed rows i).
Proof.
  intros Ht Hi. pose proof (fixed_length t rows Ht) as [Hl Hle]. destruct Ht as [Hids Hf [Hal Ha] Hp].
  unfold fixed_swap_remove. destruct (fl_len t) as [|last]; [lia|]. cbn [mbind run_bind]. assert (Hil : i ≤ last) by lia.
  step_column (column_swap _ _ _ _ _ Hids Hil).
  destruct (lookup_lt_is_Some_2 (fl_timeout_ats t) i) as [x Hx]; [lia|].
  destruct (lookup_lt_is_Some_2 (fl_timeout_ats t) last) as [y Hy]; [lia|].
  rewrite (swap_at_done _ _ _ _ _ Hx Hy). cbn [mbind run_bind].
  step_column (column_swap _ _ _ _ _ Hf Hil). step_column (column_swap _ _ _ _ _ Hp Hil).
  step_column (column_overwrite _ _ _ _ vacant Hc1 ltac:(lia)).
  eexists. split; [done|]. split; cbn; rewrite ?fmap_swap_removed; try done.
  split; [by rewrite !length_insert|]. intros j r' d Hj Hd. pose proof (lookup_lt_Some _ _ _ Hj) as Hjl.
  rewrite length_swap_removed in Hjl by done. rewrite lookup_swap_removed in Hj by lia.
  rewrite list_lookup_insert_ne by lia. case_decide as Eji.
  - subst j. rewrite list_lookup_insert_eq by lia. replace (length rows - 1) with last in Hj by lia.
    rewrite (Ha last r' d Hj Hd) in Hy. congruence.
  - rewrite list_lookup_insert_ne by done. by eapply Ha.
Qed.

Definition link_free (n : nat) : bool := (n <? MAX_LINKS)%nat.

#[global] Instance fixed_links_laws : LinkTableLaws FixedLinkTable.
Proof.
  refine {| lt_rep := λ t room rows, fixed_links_rep t rows ∧ room = link_free |}.
  - intros t room rows [Ht _]. symmetry. by apply fixed_length.
  - intros t room rows [Ht _]. exact (column_slice _ _ _ _ (fx_ids _ _ Ht)).
  - intros t room rows [Ht _]. exact (column_slice _ _ _ _ (fx_phases _ _ Ht)).
  - intros t room rows i r [Ht _] Hi. by eapply fixed_timeout_at_ok.
  - intros t room rows link [Ht _] _. apply default_index_of_rows. exact (column_slice _ _ _ _ (fx_ids _ _ Ht)).
  - intros t room rows i r phase [Ht ->] Hi. destruct (fixed_set_phase_ok t rows i r phase Ht Hi) as (t' & ? & ?). by exists t'.
  - intros t room rows i r at_ [Ht ->] Hi. destruct (fixed_set_timeout_ok t rows i r at_ Ht Hi) as (t' & ? & ?). by exists t'.
  - intros t room rows link phase at_ [Ht ->] _ _ _. pose proof (fixed_push_ok t rows link phase at_ Ht) as Hp.
    unfold link_free. case_match; [|done]. destruct Hp as (t' & ? & ?). by exists t'.
  - intros t room rows i [Ht ->] _ Hi. destruct (fixed_swap_remove_ok t rows i Ht Hi) as (t' & ? & ?). by exists t'.
  - intros t room rows [Ht ->]. exists t. split; [|done]. apply default_earliest_rows.
    + symmetry. by apply fixed_length.
    + intros i r. by apply fixed_timeout_at_ok.
  - intros t room rows now predicate [Ht ->].
    destruct (default_first_due_rows fl_len fixed_timeout_at fixed_phases t rows) with (now := now) (predicate := predicate)
      as (found & E & Hf).
    + symmetry. by apply fixed_length.
    + exact (column_slice _ _ _ _ (fx_phases _ _ Ht)).
    + intros i r. by apply fixed_timeout_at_ok.
    + by exists found, t.
Defined.

Lemma fixed_links_default_ok : links_ok (mkLinks fixed_links_default None) link_free [].
Proof.
  split; [|by split; [constructor|constructor]|done]. split; [|done]. split; cbn; [apply column_new..| |apply column_new].
  split; [apply length_replicate|]. intros i r at_ Hi. by rewrite lookup_nil in Hi.
Qed.
End fixed_links.
