(* ===== verification/LinksDue.v ===== *)
(** Due links: what the sweep of [fire_due_link_deadlines] over the links does
    ([prns-core/src/engine/deadlines/mod.rs]), that it ends, and that nothing is due after it. *)

From S2P Require Import Prelude Columns Evidence Routes ChannelTable Links LinksInvariant LinksFixed.

(** * Keepalive arithmetic *)

Lemma keepalive_bounds rtt : (KEEPALIVE_MIN_MS ≤ keepalive_ms_from rtt ≤ KEEPALIVE_MAX_MS)%Z.
Proof. unfold keepalive_ms_from, KEEPALIVE_MIN_MS, KEEPALIVE_MAX_MS. lia. Qed.

(** A due established link is stale, or owes a keepalive. *)
Lemma due_active now r a :
  row_ok r → lr_phase r = Active a → row_due now r = true →
  is_stale now (lr_phase r) = true ∨ owes_keepalive now (lr_phase r) = true.
Proof.
  unfold row_ok, row_due. intros Hok Ha. rewrite Ha in Hok |- *. destruct Hok as [-> _]. unfold deadline_of, active_deadline.
  cbn [is_stale owes_keepalive]. destruct (al_role a); [|by left]. case_match eqn:E; [|by left]. intros Hs. right. by rewrite Hs.
Qed.

(** After its keepalive a link owes no other one, and is not due unless it is stale. *)
Lemma kept_alive_served now r :
  row_ok r → serves now r = true → (now < u64_max)%Z → serves now (kept_alive now r) = false.
Proof.
  unfold serves, kept_alive, row_ok. intros Hok [Hdue Ho]%andb_prop Hnow. destruct (lr_phase r) as [p|h|a]; [done|done|].
  cbn [lr_phase active_row owes_keepalive keepalive_at with_times al_role al_last_inbound al_last_outbound al_last_keepalive_sent al_keepalive_ms].
  destruct (al_role a); [|apply andb_false_r]. destruct Hok as [_ Hk]. pose proof (keepalive_bounds (al_rtt a)).
  unfold KEEPALIVE_MIN_MS in *. unfold send_at at 1.
  rewrite (proj2 (Z.leb_gt _ _)); [by rewrite andb_false_r|]. rewrite Hk. width.
Qed.

Lemma kept_alive_not_due now r :
  row_ok r → serves now r = true → is_stale now (lr_phase r) = false → (now < u64_max)%Z →
  row_due now (kept_alive now r) = false ∧ is_stale now (lr_phase (kept_alive now r)) = false.
Proof.
  intros Hok Hs Hst Hnow. pose proof (kept_alive_served now r Hok Hs Hnow) as Hno.
  unfold serves in Hs. apply andb_prop in Hs as [_ Ho]. unfold kept_alive in *. unfold row_ok in Hok.
  destruct (lr_phase r) as [p|h|a] eqn:Ep; [done|done|].
  assert (Hst' : is_stale now (lr_phase (active_row (lr_id r) (keepalive_at now a))) = false) by done.
  split; [|done]. apply not_true_is_false. intros Hdue.
  destruct (due_active now (active_row (lr_id r) (keepalive_at now a)) (keepalive_at now a)) as [E|E]; [|done|done|congruence|].
  - by destruct Hok.
  - unfold serves in Hno. by rewrite Hdue, E in Hno.
Qed.

(** * The loops *)

Section loops.
Context {T : Type} `{LinkTableLaws T}.
Implicit Types (l : Links T) (room : nat → bool).

Lemma loop_length l room rows : links_ok l room rows → lt_len (table l) = length rows.
Proof. intros Hl. apply (lt_len_ok _ _ _ (lo_table _ _ _ Hl)). Qed.

Lemma filter_nothing (P : LinkRow → bool) rows :
  (∀ i r, rows !! i = Some r → P r = false) → filter (λ r, P r = true) rows = [] ∧ filter (λ r, P r = false) rows = rows.
Proof.
  intros Hn. assert (Hall : Forall (λ r, P r = false) rows) by (apply Forall_lookup; exact Hn).
  split; [by apply filter_none|by apply filter_all].
Qed.

Lemma overdue_loop_ok fuel l room rows now :
  links_ok l room rows → length rows < fuel →
  ∃ overdue l' rows', overdue_loop fuel l now = Done (overdue, l') ∧ links_ok l' room rows'
    ∧ overdue ≡ₚ omap (λ r, overdue_of (lr_id r) (lr_phase r)) (filter (λ r, expires now r = true) rows)
    ∧ rows' ≡ₚ filter (λ r, expires now r = false) rows.
Proof.
  revert l rows. induction fuel as [|fuel IH]; intros l rows Hl Hf; [lia|]. cbn [overdue_loop].
  destruct (pop_overdue_ok l room rows now Hl) as ([o|] & l1 & -> & Hp); cbn [mbind run_bind].
  - destruct Hp as (i & r & Hi & Hex & Eo & Hl1). pose proof (lookup_lt_Some _ _ _ Hi) as Hlt.
    destruct (IH l1 (swap_removed rows i) Hl1) as (os & l' & rows' & -> & Hl' & Hos & Hrows');
      [rewrite length_swap_removed by done; lia|]. cbn [mbind run_bind].
    destruct (filter_swap_removed (expires now) rows i r Hi Hex) as [Hkeep Hgone].
    eexists _, l', rows'. split; [done|]. split; [done|]. split; [|by rewrite Hrows'].
    rewrite <- Hgone. cbn. by rewrite Eo, Hos.
  - destruct Hp as [Hnone Hl1]. destruct (filter_nothing (expires now) rows Hnone) as [-> ->].
    eexists _, l1, rows. by split.
Qed.

Definition closes (now : Z) (r : LinkRow) : bool := row_due now r && is_stale now (lr_phase r).

Lemma stale_loop_ok fuel l room rows now :
  links_ok l room rows → length rows < fuel →
  ∃ closed l' rows', stale_loop fuel l now = Done (closed, l') ∧ links_ok l' room rows'
    ∧ closed ≡ₚ lr_id <$> filter (λ r, closes now r = true) rows
    ∧ rows' ≡ₚ filter (λ r, closes now r = false) rows.
Proof.
  revert l rows. induction fuel as [|fuel IH]; intros l rows Hl Hf; [lia|]. cbn [stale_loop].
  destruct (pop_stale_ok l room rows now Hl) as ([id|] & l1 & -> & Hl1 & Hp); cbn [mbind run_bind].
  - destruct Hp as (i & r & Hi & <- & Hdue & Hst).
    destruct (remove_ok l1 room rows (lr_id r) Hl1) as [(j & r' & Hj & Hid & _ & l2 & -> & Hl2)|[[] _]].
    2: { apply list_elem_of_fmap. exists r. split; [done|]. by eapply list_elem_of_lookup_2. }
    cbn [mbind run_bind]. rewrite (lookup_unique rows j i r' r (lo_rows _ _ _ Hl) Hj Hi Hid) in Hl2.
    destruct (IH l2 (swap_removed rows i) Hl2) as (ids & l' & rows' & -> & Hl' & Hids & Hrows');
      [rewrite length_swap_removed by (by eapply lookup_lt_Some); apply lookup_lt_Some in Hi; lia|]. cbn [mbind run_bind].
    assert (Hc : closes now r = true) by (unfold closes; by rewrite Hdue, Hst).
    destruct (filter_swap_removed (closes now) rows i r Hi Hc) as [Hkeep Hgone].
    eexists _, l', rows'. split; [done|]. split; [done|]. split; [|by rewrite Hrows'].
    rewrite <- Hgone. cbn. by rewrite Hids.
  - destruct (filter_nothing (closes now) rows) as [-> ->]; [|by eexists _, l1, rows].
    intros i r Hi. unfold closes. specialize (Hp i r Hi). destruct (row_due now r); cbn; [by apply Hp|done].
Qed.

(** Every link that owes a keepalive, with its keepalive noted. *)
Definition served (now : Z) (r : LinkRow) : LinkRow := if serves now r then kept_alive now r else r.

Lemma serves_insert now rows i r :
  rows !! i = Some r → serves now r = true → serves now (kept_alive now r) = false →
  filter (λ r, serves now r = true) rows ≡ₚ r :: filter (λ r, serves now r = true) (<[i := kept_alive now r]> rows)
  ∧ served now <$> <[i := kept_alive now r]> rows = served now <$> rows.
Proof.
  intros Hi Hs Hk. pose proof (lookup_lt_Some _ _ _ Hi) as Hlt. split.
  - rewrite insert_take_drop by done. rewrite <- (take_drop_middle rows i r Hi) at 1.
    rewrite !list.filter_app, filter_cons_True by done. rewrite filter_cons_False by (by rewrite Hk).
    by rewrite <- Permutation_middle.
  - rewrite list_fmap_insert. apply list_insert_id. rewrite list_lookup_fmap, Hi. cbn. unfold served. by rewrite Hs, Hk.
Qed.

Lemma keepalive_loop_ok fuel l room rows now :
  links_ok l room rows → (now < u64_max)%Z → length (filter (λ r, serves now r = true) rows) < fuel →
  ∃ kept l', keepalive_loop fuel l now = Done (kept, l') ∧ links_ok l' room (served now <$> rows)
    ∧ kept ≡ₚ omap due_keepalive (filter (λ r, serves now r = true) rows).
Proof.
  intros Hl Hnow. revert l rows Hl. induction fuel as [|fuel IH]; intros l rows Hl Hf; [lia|]. cbn [keepalive_loop].
  destruct (pop_due_keepalive_ok l room rows now Hl) as ([due|] & l1 & -> & Hp); cbn [mbind run_bind].
  - destruct Hp as (i & r & Hi & Hs & Hdue & Hl1 & _).
    pose proof (kept_alive_served now r (Forall_lookup_1 _ _ _ _ (ro_rows _ (lo_rows _ _ _ Hl)) Hi) Hs Hnow) as Hk.
    destruct (serves_insert now rows i r Hi Hs Hk) as [Hfilter Hserved].
    destruct (IH l1 _ Hl1) as (kept & l' & -> & Hl' & Hkept); [rewrite Hfilter in Hf; cbn in Hf; lia|].
    cbn [mbind run_bind]. rewrite Hserved in Hl'. eexists _, l'. split; [done|]. split; [done|].
    rewrite Hfilter. cbn. by rewrite Hdue, Hkept.
  - destruct Hp as [Hnone Hl1]. destruct (filter_nothing (serves now) rows Hnone) as [-> _]. eexists _, l1. split; [done|].
    split; [|done]. replace (served now <$> rows) with rows; [done|]. symmetry. apply list_eq. intros i.
    rewrite list_lookup_fmap. destruct (rows !! i) as [r|] eqn:Hi; [|done]. cbn. unfold served. by rewrite (Hnone i r Hi).
Qed.
End loops.

(** * The sweep *)

Section sweep.
Context {T : Type} `{LinkTableLaws T}.

(** The links the sweep leaves established: neither expired nor closed. *)
Definition stays (now : Z) (r : LinkRow) : bool := negb (expires now r) && negb (closes now r).

(** A served link that was not to close is no longer due. *)
Lemma served_not_due now r :
  row_ok r → stays now r = true → (now < u64_max)%Z → row_due now (served now r) = false.
Proof.
  unfold stays. intros Hok [He Hc]%andb_prop Hnow. unfold served. destruct (serves now r) eqn:Hs.
  - apply kept_alive_not_due; [done|done| |done]. unfold serves in Hs. apply andb_prop in Hs as [Hdue _].
    unfold closes in Hc. rewrite Hdue in Hc. by destruct (is_stale now (lr_phase r)).
  - apply not_true_is_false. intros Hdue. unfold expires, closes, serves in *. rewrite Hdue in *. cbn in *.
    destruct (lr_phase r) as [p|h|a] eqn:Ep; [done|done|].
    destruct (due_active now r a Hok Ep Hdue) as [E|E]; rewrite Ep in E; by rewrite E in *.
Qed.

Lemma filter_filter_perm (P Q : LinkRow → bool) rows rows' :
  rows' ≡ₚ filter (λ r, P r = false) rows →
  filter (λ r, Q r = true) rows' ≡ₚ filter (λ r, negb (P r) && Q r = true) rows
  ∧ filter (λ r, Q r = false) rows' ≡ₚ filter (λ r, negb (P r) && negb (Q r) = true) rows.
Proof.
  intros ->. split; rewrite list_filter_filter; match goal with |- ?x ≡ₚ ?y => cut (x = y); [by intros ->|] end; apply list_filter_iff; intros r;
    destruct (P r), (Q r); cbn; intuition congruence.
Qed.

Lemma serve_due_links_ok (l : Links T) room rows now :
  links_ok l room rows → (now < u64_max)%Z →
  ∃ overdue closed kept l' rows', serve_due_links l now = Done (overdue, closed, kept, l')
    ∧ links_ok l' room rows'
    ∧ overdue ≡ₚ omap (λ r, overdue_of (lr_id r) (lr_phase r)) (filter (λ r, expires now r = true) rows)
    ∧ closed ≡ₚ lr_id <$> filter (λ r, negb (expires now r) && closes now r = true) rows
    ∧ kept ≡ₚ omap due_keepalive (filter (λ r, serves now r = true) (filter (λ r, stays now r = true) rows))
    ∧ rows' ≡ₚ served now <$> filter (λ r, stays now r = true) rows.
Proof.
  intros Hl Hnow. unfold serve_due_links. rewrite (loop_length l room rows Hl).
  destruct (overdue_loop_ok (S (length rows)) l room rows now Hl) as (overdue & l1 & rows1 & -> & Hl1 & Ho & Hr1); [lia|].
  cbn [mbind run_bind]. rewrite (loop_length l1 room rows1 Hl1).
  destruct (stale_loop_ok (S (length rows1)) l1 room rows1 now Hl1) as (closed & l2 & rows2 & -> & Hl2 & Hc & Hr2); [lia|].
  cbn [mbind run_bind]. rewrite (loop_length l2 room rows2 Hl2).
  destruct (keepalive_loop_ok (S (length rows2)) l2 room rows2 now Hl2 Hnow) as (kept & l3 & -> & Hl3 & Hk).
  { pose proof (length_filter (λ r, serves now r = true) rows2). lia. }
  cbn [mbind run_bind]. destruct (filter_filter_perm (expires now) (closes now) rows rows1 Hr1) as [Hclosed Hstay].
  rewrite Hstay in Hr2. change (λ r, negb (expires now r) && negb (closes now r) = true) with (λ r, stays now r = true) in Hr2.
  exists overdue, closed, kept, l3, (served now <$> rows2). conj; [done|done|done|by rewrite Hc, Hclosed| |].
  - by rewrite Hk, Hr2.
  - by rewrite Hr2.
Qed.

(** C11. The sweep over due links ends and leaves none due.  [serve_due_links] returns: the links that
    were asked for and not established in time are dropped and reported, the silent ones are closed, and
    each remaining initiator whose keepalive is due is sent exactly one; the links left are exactly the
    others, with those keepalives noted, and the earliest deadline is then later than now, so the next
    wake is in the future. *)
Theorem due_links_are_served (l : Links T) room rows now :
  links_ok l room rows → (now < u64_max)%Z →
  ∃ overdue closed kept l' rows', serve_due_links l now = Done (overdue, closed, kept, l')
    ∧ links_ok l' room rows'
    ∧ overdue ≡ₚ omap (λ r, overdue_of (lr_id r) (lr_phase r)) (filter (λ r, expires now r = true) rows)
    ∧ closed ≡ₚ lr_id <$> filter (λ r, negb (expires now r) && closes now r = true) rows
    ∧ kept ≡ₚ omap due_keepalive (filter (λ r, serves now r = true) (filter (λ r, stays now r = true) rows))
    ∧ rows' ≡ₚ served now <$> filter (λ r, stays now r = true) rows
    ∧ ∀ at_, earliest_timeout_at l' = Some at_ → (now < at_)%Z.
Proof.
  intros Hl Hnow. destruct (serve_due_links_ok l room rows now Hl Hnow)
    as (overdue & closed & kept & l' & rows' & E & Hl' & Ho & Hc & Hk & Hr).
  exists overdue, closed, kept, l', rows'. conj; try done. intros at_. unfold earliest_timeout_at.
  rewrite (lo_earliest _ _ _ Hl'). pose proof (minimum_spec (omap lr_timeout rows')) as Hm. intros Eat. rewrite Eat in Hm.
  destruct Hm as [(r' & Hin & Hat)%list_elem_of_omap _]. rewrite Hr in Hin. apply list_elem_of_fmap in Hin as (r & -> & Hin).
  apply list_elem_of_filter in Hin as [Hs Hin].
  pose proof (proj1 (list.Forall_forall _ _) (ro_rows _ (lo_rows _ _ _ Hl)) r Hin) as Hok.
  pose proof (served_not_due now r Hok Hs Hnow) as Hdue. unfold row_due in Hdue. rewrite Hat in Hdue. lia.
Qed.
End sweep.

(** * A table of four links *)

Module SampleLinks.
#[global] Instance ops : LinkTable FixedLinkTable := fixed_links (MAX_LINKS := 4).
#[global] Instance laws : LinkTableLaws FixedLinkTable := fixed_links_laws (MAX_LINKS := 4).
Definition room : nat → bool := link_free (MAX_LINKS := 4).
Definition empty : Links FixedLinkTable := mkLinks (fixed_links_default (MAX_LINKS := 4)) None.

Definition id (n : Z) : LinkId := replicate 16 n.
Definition pending (n : Z) : PendingLink := mkPending (replicate 16 n) (mkHandle 1%Z 0%Z) 1 Aes256Cbc [n] [n] 0 n.
Definition handshake (n : Z) : HandshakeLink := mkHandshake [n] 0 500 [n] (replicate 16 n) [n] ProveAll.
Definition activation : LinkActivation := mkActivation 1 50 500 [1%Z] [9%Z].

(** A link established from here, one from its peer, and one asked for. *)
Definition setup : list link_op :=
  [TrackInitiated (mkInitiated (id 1) (pending 1) 6000); TrackResponding (mkResponding (id 2) (handshake 2) 6000);
   ActivateInitiated (id 1) [7%Z] activation 100; ActivateResponding (id 2) 50 [1%Z] 120;
   TrackInitiated (mkInitiated (id 3) (pending 3) 6000); NoteInbound (id 1) 200].
Definition links : Links FixedLinkTable := match links_do_all empty setup with Done l => l | _ => empty end.

Lemma no_links_ok : links_ok empty room [].
Proof. exact (fixed_links_default_ok (MAX_LINKS := 4)). Qed.
Lemma links_sample_ok : ∃ rows, links_ok links room rows.
Proof. destruct (links_do_all_ok empty room [] setup no_links_ok ltac:(done)) as (l & rows & E & _ & Hl). exists rows. unfold links. rewrite E. exact Hl. Qed.
End SampleLinks.

Lemma links_are_a_state_machine_witness :
  ∃ rows', links_do_all SampleLinks.empty SampleLinks.setup = Done SampleLinks.links
    ∧ lt_rep (table SampleLinks.links) SampleLinks.room rows' ∧ rows_ok rows'
    ∧ earliest_timeout_at SampleLinks.links = minimum (omap lr_timeout rows')
    ∧ earliest_timeout_at SampleLinks.links = Some 6000%Z.
Proof.
  destruct (links_are_a_state_machine SampleLinks.empty SampleLinks.room [] SampleLinks.setup SampleLinks.no_links_ok ltac:(done))
    as (l' & rows' & E & _ & Ht & Hok & He).
  assert (El : l' = SampleLinks.links) by (unfold SampleLinks.links; rewrite E; reflexivity). subst l'.
  exists rows'. split; [exact E|]. split; [exact Ht|]. split; [exact Hok|]. split; [exact He|]. vm_compute. reflexivity.
Defined.

(** At 12 seconds: link 3 expires, link 1 is kept alive, and next both established links are
    due to be closed unless heard from. *)
Lemma due_links_are_served_witness :
  (∃ l', serve_due_links SampleLinks.links 12000
     = Done ([Initiated (SampleLinks.id 3) 3 (SampleLinks.id 3) (mkHandle 1%Z 0%Z) 0], [], [mkDue (SampleLinks.id 1) [1%Z]], l')
     ∧ earliest_timeout_at l' = Some 25890%Z)
  ∧ ∃ overdue closed kept l', serve_due_links SampleLinks.links 12000 = Done (overdue, closed, kept, l')
    ∧ ∀ at_, earliest_timeout_at l' = Some at_ → (12000 < at_)%Z.
Proof.
  split; [eexists; split; vm_compute; reflexivity|]. destruct SampleLinks.links_sample_ok as (rows & Hl).
  destruct (due_links_are_served SampleLinks.links SampleLinks.room rows 12000 Hl ltac:(done))
    as (overdue & closed & kept & l' & rows' & E & _ & _ & _ & _ & _ & Hat).
  exists overdue, closed, kept, l'. split; [exact E|exact Hat].
Defined.
