(* ===== verification/LinksHeap.v ===== *)
(** The growing link table: [prns-core/src/routing/links/table/impls/heap.rs], with the [std] feature.

    Three vectors, a hash index of the ids ([LemireIndex]) and a heap of the deadlines ([DeadlineHeap]).
    It meets the contract of [Links], so everything proved of [Links] holds of it. *)

From S2P Require Import LemireIndex DeadlineHeap Prelude Columns KeyedMap Evidence Routes ChannelTable DeadlineColumn Links LinksInvariant LinksFixed LinksDue.

Record HeapLinkTable := mkHeapLinks {
  hl_link_ids : list LinkId;
  hl_timeout_ats : list (option Z);
  hl_phases : list LinkPhase;
  hl_index : list Z;
  hl_timeout_index : DeadlineHeap.HeapDeadlineIndex;
}.

Definition heap_links_default : HeapLinkTable := mkHeapLinks [] [] [] LemireIndex.Heap.default DeadlineHeap.default_index.

Definition heap_set_timeout_at (t : HeapLinkTable) (i : nat) (timeout_at : option Z) : run HeapLinkTable :=
  ats ← store (hl_timeout_ats t) i timeout_at;
  ix ← DeadlineHeap.update (deadline_in (λ at_, at_) ats) (hl_timeout_index t) i timeout_at;
  Done (mkHeapLinks (hl_link_ids t) ats (hl_phases t) (hl_index t) ix).

Definition heap_link_push (t : HeapLinkTable) (link_id : LinkId) (phase : LinkPhase) (timeout_at : option Z) :
    run (result TrackLinkError nat * HeapLinkTable) :=
  let slot := length (hl_link_ids t) in
  let ids := hl_link_ids t ++ [link_id] in
  let ats := hl_timeout_ats t ++ [timeout_at] in
  let phases := hl_phases t ++ [phase] in
  index ← LemireIndex.Heap.heap_insert (hl_index t) slot ids;
  ix ← DeadlineHeap.insert (deadline_in (λ at_, at_) ats) (hl_timeout_index t) slot timeout_at;
  Done (Ok slot, mkHeapLinks ids ats phases index ix).

Definition heap_link_swap_remove (t : HeapLinkTable) (i : nat) : run HeapLinkTable :=
  if (length (hl_link_ids t) <=? i)%nat then Done t else
  let last := length (hl_link_ids t) - 1 in
  index ← LemireIndex.Heap.heap_remove_slot (hl_index t) i (hl_link_ids t);
  index ← (if negb (i =? last)%nat then LemireIndex.Heap.heap_repoint_slot index last i (hl_link_ids t) else Done index);
  ix ← DeadlineHeap.swap_remove (deadline_in (λ at_, at_) (hl_timeout_ats t)) (hl_timeout_index t) i last;
  ids ← vec_swap_remove (hl_link_ids t) i;
  ats ← vec_swap_remove (hl_timeout_ats t) i;
  phases ← vec_swap_remove (hl_phases t) i;
  Done (mkHeapLinks ids ats phases index ix).

Definition heap_earliest_timeout (t : HeapLinkTable) : run (option Z * HeapLinkTable) :=
  '(e, ix) ← DeadlineHeap.earliest_exact (deadline_in (λ at_, at_) (hl_timeout_ats t)) (hl_timeout_index t) (length (hl_timeout_ats t));
  Done (e, mkHeapLinks (hl_link_ids t) (hl_timeout_ats t) (hl_phases t) (hl_index t) ix).

(** The predicate indexes the phases, which are as many as the rows. *)
Definition heap_first_due (t : HeapLinkTable) (now : Z) (predicate : nat → LinkPhase → bool) :
    run (option nat * HeapLinkTable) :=
  '(found, ix) ← DeadlineHeap.first_due_matching (deadline_in (λ at_, at_) (hl_timeout_ats t)) (hl_timeout_index t)
                   (length (hl_timeout_ats t)) now
                   (λ row, match hl_phases t !! row with Some phase => predicate row phase | None => false end);
  Done (found, mkHeapLinks (hl_link_ids t) (hl_timeout_ats t) (hl_phases t) (hl_index t) ix).

#[global] Instance heap_links : LinkTable HeapLinkTable := {|
  lt_len := λ t, length (hl_link_ids t);
  lt_link_ids := λ t, Done (hl_link_ids t);
  lt_timeout_at := λ t i, index (hl_timeout_ats t) i;
  lt_phases := λ t, Done (hl_phases t);
  lt_set_phase := λ t i phase, phases ← store (hl_phases t) i phase;
    Done (mkHeapLinks (hl_link_ids t) (hl_timeout_ats t) phases (hl_index t) (hl_timeout_index t));
  lt_set_timeout_at := heap_set_timeout_at;
  lt_push := heap_link_push;
  lt_swap_remove := heap_link_swap_remove;
  lt_index_of := λ t link_id, LemireIndex.Heap.heap_get (hl_index t) link_id (hl_link_ids t);
  lt_earliest_indexed_timeout := heap_earliest_timeout;
  lt_first_due_timeout_matching := heap_first_due;
|}.

(** * The contract *)

Record heap_links_rep (t : HeapLinkTable) (rows : list LinkRow) : Prop := {
  hr_ids : hl_link_ids t = lr_id <$> rows;
  hr_ats : hl_timeout_ats t = lr_timeout <$> rows;
  hr_phases : hl_phases t = lr_phase <$> rows;
  hr_index : LemireIndex.Heap.heap_rep (hl_index t) (lr_id <$> rows);
  hr_deadlines : DeadlineHeap.indexes (deadline_in (λ at_, at_) (lr_timeout <$> rows)) (hl_timeout_index t) (length rows);
  hr_max : (Z.of_nat (length rows) ≤ u32_max)%Z;
}.

Lemma deadline_in_rows rows i r : rows !! i = Some r → deadline_in (λ at_, at_) (lr_timeout <$> rows) i = lr_timeout r.
Proof. intros Hi. unfold deadline_in. by rewrite list_lookup_fmap, Hi. Qed.

Lemma deadline_in_past rows i : length rows ≤ i → deadline_in (λ at_, at_) (lr_timeout <$> rows) i = None.
Proof. intros Hi. unfold deadline_in. by rewrite list_lookup_fmap, lookup_ge_None_2. Qed.

(** ** The deadlines *)

Lemma earliest_of_rows rows :
  DeadlineHeap.linear_min (deadline_in (λ at_, at_) (lr_timeout <$> rows)) (length rows) = minimum (omap lr_timeout rows).
Proof. rewrite <- (length_fmap lr_timeout rows), linear_min_column. f_equal. induction rows as [|r rows IH]; [done|]. cbn. by rewrite IH. Qed.

Lemma heap_set_timeout_ok t rows i r at_ :
  heap_links_rep t rows → rows !! i = Some r →
  ∃ t', heap_set_timeout_at t i at_ = Done t' ∧ heap_links_rep t' (<[i := with_timeout_at at_ r]> rows).
Proof.
  intros [Hid Hat Hph Hix Hd Hmax] Hi. pose proof (lookup_lt_Some _ _ _ Hi) as Hlt. unfold heap_set_timeout_at.
  rewrite Hat, store_done by (by rewrite length_fmap). cbn [mbind run_bind].
  assert (Erow : <[i := at_]> (lr_timeout <$> rows) = lr_timeout <$> <[i := with_timeout_at at_ r]> rows) by (by rewrite list_fmap_insert).
  assert (Enew : deadline_in (λ at_, at_) (lr_timeout <$> <[i := with_timeout_at at_ r]> rows) i = at_).
  { apply (deadline_in_rows _ i (with_timeout_at at_ r)). by apply list_lookup_insert_eq. }
  rewrite Erow. destruct (DeadlineHeap.update_indexes _ (deadline_in (λ at_, at_) (lr_timeout <$> <[i := with_timeout_at at_ r]> rows))
    (hl_timeout_index t) (length rows) i Hd Hlt) as (ix & E & Hix').
  { intros j Hj Hji. unfold deadline_in. rewrite !list_lookup_fmap. by rewrite list_lookup_insert_ne. }
  rewrite Enew in E. rewrite E. cbn [mbind run_bind]. eexists. split; [done|].
  assert (Eid : lr_id <$> <[i := with_timeout_at at_ r]> rows = lr_id <$> rows).
  { rewrite list_fmap_insert. apply list_insert_id. by rewrite list_lookup_fmap, Hi. }
  split; cbn; rewrite ?Eid, ?length_insert; try done.
  rewrite list_fmap_insert, list_insert_id; [done|]. by rewrite list_lookup_fmap, Hi.
Qed.

Lemma heap_set_phase_ok t rows i r phase :
  heap_links_rep t rows → rows !! i = Some r →
  ∃ t', lt_set_phase t i phase = Done t' ∧ heap_links_rep t' (<[i := with_phase phase r]> rows).
Proof.
  intros [Hid Hat Hph Hix Hd Hmax] Hi. cbn. rewrite Hph, store_done by (rewrite length_fmap; by eapply lookup_lt_Some).
  cbn [mbind run_bind]. eexists. split; [done|].
  assert (Eid : lr_id <$> <[i := with_phase phase r]> rows = lr_id <$> rows).
  { rewrite list_fmap_insert. apply list_insert_id. by rewrite list_lookup_fmap, Hi. }
  assert (Eat : lr_timeout <$> <[i := with_phase phase r]> rows = lr_timeout <$> rows).
  { rewrite list_fmap_insert. apply list_insert_id. by rewrite list_lookup_fmap, Hi. }
  split; cbn; rewrite ?Eid, ?Eat, ?length_insert; try done. by rewrite list_fmap_insert.
Qed.

Lemma heap_push_ok t rows link phase at_ :
  heap_links_rep t rows → (Z.of_nat (length rows) < u32_max)%Z →
  ∃ t', heap_link_push t link phase at_ = Done (Ok (length rows), t') ∧ heap_links_rep t' (rows ++ [mkLinkRow link at_ phase]).
Proof.
  intros [Hid Hat Hph Hix Hd Hmax] Hlt. unfold heap_link_push. rewrite Hid, length_fmap.
  set (new := mkLinkRow link at_ phase).
  change [link] with (lr_id <$> [new]). rewrite <- fmap_app.
  destruct (heap_index_push (hl_index t) (lr_id <$> rows) link Hix) as (slots & E & Hix').
  { by rewrite length_fmap. }
  rewrite length_fmap in E. rewrite fmap_app. cbn [fmap list_fmap lr_id new].
  change (LemireIndex.Heap.heap_insert (hl_index t) (length rows) ((lr_id <$> rows) ++ [link]) = Done slots) in E.
  rewrite E. cbn [mbind run_bind].
  destruct (DeadlineHeap.insert_indexes _ (deadline_in (λ at_, at_) (lr_timeout <$> rows ++ [new])) (hl_timeout_index t) (length rows) Hd)
    as (ix & E' & Hd'); [|done|].
  { intros j Hj. unfold deadline_in. rewrite fmap_app. by rewrite lookup_app_l by (by rewrite length_fmap). }
  rewrite (deadline_in_rows _ _ new) in E' by (by apply list_lookup_middle). cbn [lr_timeout new] in E'.
  rewrite Hat. rewrite fmap_app in E'. cbn [fmap list_fmap lr_timeout new] in E'. rewrite E'. cbn [mbind run_bind].
  eexists. split; [done|]. split; cbn [hl_link_ids hl_timeout_ats hl_phases hl_index hl_timeout_index].
  - by rewrite fmap_app.
  - by rewrite fmap_app.
  - by rewrite fmap_app, Hph.
  - by rewrite fmap_app.
  - rewrite length_app, Nat.add_1_r. exact Hd'.
  - rewrite length_app. cbn. lia.
Qed.


Lemma heap_swap_remove_ok t rows i :
  heap_links_rep t rows → i < length rows →
  ∃ t', heap_link_swap_remove t i = Done t' ∧ heap_links_rep t' (swap_removed rows i).
Proof.
  intros [Hid Hat Hph Hix Hd Hmax] Hi. unfold heap_link_swap_remove. rewrite Hid, length_fmap.
  rewrite (proj2 (Nat.leb_gt _ _)) by done.
  destruct (heap_index_swap (hl_index t) (lr_id <$> rows) i Hix) as (slots1 & slots2 & E1 & E2 & Hix').
  { by rewrite length_fmap. }
  { by rewrite length_fmap. }
  unfold LinkId in *. rewrite E1. cbn [mbind run_bind]. rewrite length_fmap in E2. rewrite E2. cbn [mbind run_bind].
  pose proof (length_swap_removed rows i Hi) as Hl. rewrite Hat.
  destruct (DeadlineHeap.swap_remove_indexes (deadline_in (λ at_, at_) (lr_timeout <$> rows)) (deadline_in (λ at_, at_) (lr_timeout <$> swap_removed rows i))
    (hl_timeout_index t) (length rows - 1) i) as (ix & E & Hd').
  { by replace (S (length rows - 1)) with (length rows) by lia. }
  { lia. }
  { intros j Hj. unfold deadline_in. rewrite !list_lookup_fmap, lookup_swap_removed by lia. by case_decide. }
  rewrite E. cbn [mbind run_bind]. rewrite Hph, !vec_swap_remove_done by (by rewrite length_fmap). cbn [mbind run_bind].
  eexists. split; [done|]. split; cbn; rewrite ?fmap_swap_removed; try done.
  - by rewrite Hl, <- fmap_swap_removed.
  - lia.
Qed.

Lemma heap_first_due_ok t rows now predicate :
  heap_links_rep t rows →
  ∃ found, heap_first_due t now predicate = Done (found, t)
    ∧ match found with
      | Some i => ∃ r, rows !! i = Some r ∧ row_due now r = true ∧ predicate i (lr_phase r) = true
      | None => ∀ i r, rows !! i = Some r → row_due now r = true → predicate i (lr_phase r) = false
      end.
Proof.
  intros [Hid Hat Hph Hix Hd Hmax]. unfold heap_first_due. rewrite Hat, length_fmap, Hph.
  destruct (DeadlineHeap.first_due_matching_ready _ (hl_timeout_index t) (length rows) now
    (λ row, match (lr_phase <$> rows) !! row with Some phase => predicate row phase | None => false end) Hd) as (found & -> & Hf).
  cbn [mbind run_bind]. exists found. split; [destruct t; cbn in *; by subst|].
  assert (Hdue : ∀ i r, rows !! i = Some r → DeadlineHeap.is_due (deadline_in (λ at_, at_) (lr_timeout <$> rows)) now i = row_due now r).
  { intros i r Hi. unfold DeadlineHeap.is_due, row_due. by rewrite (deadline_in_rows rows i r Hi). }
  destruct found as [i|]; cbn in Hf.
  - destruct Hf as (Hi & Hdue' & Hp). destruct (lookup_lt_is_Some_2 rows i Hi) as [r Hr]. exists r. split; [done|].
    rewrite <- (Hdue i r Hr). split; [done|]. by rewrite list_lookup_fmap, Hr in Hp.
  - intros i r Hi Hrd. rewrite <- (Hdue i r Hi) in Hrd. specialize (Hf i (lookup_lt_Some _ _ _ Hi) Hrd).
    by rewrite list_lookup_fmap, Hi in Hf.
Qed.

Lemma heap_get_ok t rows link :
  heap_links_rep t rows →
  (∃ i r, lt_index_of t link = Done (Some i) ∧ rows !! i = Some r ∧ lr_id r = link)
  ∨ (lt_index_of t link = Done None ∧ link ∉ lr_id <$> rows).
Proof.
  intros [Hid Hat Hph Hix Hd Hmax].
  change (lt_index_of t link) with (LemireIndex.Heap.heap_get (hl_index t) link (hl_link_ids t)). rewrite Hid.
  destruct (heap_get_ids (hl_index t) (lr_id <$> rows) link Hix) as [(i & E & Hrow)|]; [left|by right].
  rewrite list_lookup_fmap in Hrow. destruct (rows !! i) as [r|] eqn:Er; [|done]. injection Hrow as Hrow. by exists i, r.
Qed.

Lemma heap_earliest_ok t rows :
  heap_links_rep t rows → heap_earliest_timeout t = Done (minimum (omap lr_timeout rows), t).
Proof.
  intros [Hid Hat Hph Hix Hd Hmax]. unfold heap_earliest_timeout. rewrite Hat, length_fmap.
  rewrite (DeadlineHeap.earliest_exact_ready _ _ _ Hd). cbn [mbind run_bind]. rewrite earliest_of_rows.
  destruct t. cbn in *. by subst.
Qed.

(** Room for any number of links. *)
Definition unbounded (n : nat) : bool := true.

#[global] Instance heap_links_laws : LinkTableLaws HeapLinkTable.
Proof.
  refine {| lt_rep := λ t room rows, heap_links_rep t rows ∧ room = unbounded |}.
  - intros t room rows [Ht _]. cbn. by rewrite (hr_ids _ _ Ht), length_fmap.
  - intros t room rows [Ht _]. cbn. by rewrite (hr_ids _ _ Ht).
  - intros t room rows [Ht _]. cbn. by rewrite (hr_phases _ _ Ht).
  - intros t room rows i r [Ht _] Hi. cbn. apply index_lookup. by rewrite (hr_ats _ _ Ht), list_lookup_fmap, Hi.
  - intros t room rows link [Ht _] _. by apply heap_get_ok.
  - intros t room rows i r phase [Ht ->] Hi. destruct (heap_set_phase_ok t rows i r phase Ht Hi) as (t' & ? & ?). by exists t'.
  - intros t room rows i r at_ [Ht ->] Hi. destruct (heap_set_timeout_ok t rows i r at_ Ht Hi) as (t' & ? & ?). by exists t'.
  - intros t room rows link phase at_ [Ht ->] _ _ Hmax. destruct (heap_push_ok t rows link phase at_ Ht Hmax) as (t' & ? & ?).
    by exists t'.
  - intros t room rows i [Ht ->] _ Hi. destruct (heap_swap_remove_ok t rows i Ht Hi) as (t' & ? & ?). by exists t'.
  - intros t room rows [Ht ->]. exists t. split; [|done]. exact (heap_earliest_ok t rows Ht).
  - intros t room rows now predicate [Ht ->]. destruct (heap_first_due_ok t rows now predicate Ht) as (found & E & Hf).
    by exists found, t.
Defined.

Lemma heap_links_default_ok : links_ok (mkLinks heap_links_default None) unbounded [].
Proof.
  split; [|by split; [constructor|constructor]|done]. split; [|done]. split; cbn; [done|done|done| | |done].
  - exact heap_index_new.
  - split; [done|]. exists []. split; [|split].
    + split; cbn; [done|done|done| |]; [intros p row Hp; by rewrite lookup_nil in Hp|intros row Hr; lia].
    + intros q c _ Hc. cbn in Hc. lia.
    + intros row Hr. lia.
Qed.

(** * The two tables *)

#[global] Instance omap_timeout_perm : Proper ((≡ₚ) ==> (≡ₚ)) (omap lr_timeout : list LinkRow → list Z).
Proof.
  induction 1 as [|r rows rows' _ IH|r1 r2 rows|rows1 rows2 rows3 _ IH1 _ IH2]; cbn; [done| | |by rewrite IH1].
  - by destruct (lr_timeout r); rewrite IH.
  - destruct (lr_timeout r1), (lr_timeout r2); try done. constructor.
Qed.

Section tables.
Context (MAX_LINKS : nat).
#[local] Instance fixed_ops : LinkTable FixedLinkTable := fixed_links (MAX_LINKS := MAX_LINKS).
#[local] Instance fixed_laws : LinkTableLaws FixedLinkTable := fixed_links_laws (MAX_LINKS := MAX_LINKS).

(** The growing table and the fixed one serve the same links.  When both hold the same links, the
    sweep over due links expires, closes and keeps alive the same ones, up to their order, and leaves the
    same earliest deadline: the hash index and the deadline heap change nothing but the cost. *)
Theorem link_tables_agree (f : Links FixedLinkTable) (h : Links HeapLinkTable) room rows now :
  links_ok f room rows → links_ok h unbounded rows → (now < u64_max)%Z →
  ∃ o1 c1 k1 f' o2 c2 k2 h', serve_due_links f now = Done (o1, c1, k1, f')
    ∧ serve_due_links h now = Done (o2, c2, k2, h')
    ∧ o1 ≡ₚ o2 ∧ c1 ≡ₚ c2 ∧ k1 ≡ₚ k2 ∧ earliest_timeout_at f' = earliest_timeout_at h'.
Proof.
  intros Hf Hh Hnow. destruct (serve_due_links_ok f room rows now Hf Hnow) as (o1 & c1 & k1 & f' & rows1 & E1 & Hf' & Ho1 & Hc1 & Hk1 & Hr1).
  destruct (serve_due_links_ok h unbounded rows now Hh Hnow) as (o2 & c2 & k2 & h' & rows2 & E2 & Hh' & Ho2 & Hc2 & Hk2 & Hr2).
  exists o1, c1, k1, f', o2, c2, k2, h'. conj; [done|done|by rewrite Ho1, Ho2|by rewrite Hc1, Hc2|by rewrite Hk1, Hk2|].
  unfold earliest_timeout_at. rewrite (lo_earliest _ _ _ Hf'), (lo_earliest _ _ _ Hh'), Hr1, Hr2. done.
Qed.
End tables.

(** A table's contents are what its columns read. *)
Lemma rows_same `{LinkTableLaws T1, LinkTableLaws T2} (t1 : T1) (t2 : T2) room1 room2 rows1 rows2 :
  lt_rep t1 room1 rows1 → lt_rep t2 room2 rows2 →
  lt_link_ids t1 = lt_link_ids t2 → lt_phases t1 = lt_phases t2 →
  (∀ i, i < lt_len t1 → lt_timeout_at t1 i = lt_timeout_at t2 i) → rows1 = rows2.
Proof.
  intros R1 R2 Hids Hphases Hats. rewrite (lt_link_ids_ok _ _ _ R1), (lt_link_ids_ok _ _ _ R2) in Hids.
  rewrite (lt_phases_ok _ _ _ R1), (lt_phases_ok _ _ _ R2) in Hphases. injection Hids as Hids. injection Hphases as Hphases.
  assert (Hlen : length rows1 = length rows2) by (rewrite <- (length_fmap lr_id rows1), Hids; apply length_fmap).
  apply (list_eq_same_length _ _ (length rows1)); [done|done|]. intros i r1 r2 Hi Hr1 Hr2.
  specialize (Hats i). rewrite (lt_len_ok _ _ _ R1), (lt_timeout_at_ok _ _ _ _ _ R1 Hr1), (lt_timeout_at_ok _ _ _ _ _ R2 Hr2) in Hats.
  apply (f_equal (λ xs, xs !! i)) in Hids. rewrite !list_lookup_fmap, Hr1, Hr2 in Hids.
  apply (f_equal (λ xs, xs !! i)) in Hphases. rewrite !list_lookup_fmap, Hr1, Hr2 in Hphases.
  specialize (Hats Hi). destruct r1, r2. cbn in *. congruence.
Qed.

Module SampleHeapLinks.
Definition empty : Links HeapLinkTable := mkLinks heap_links_default None.
Definition links : Links HeapLinkTable := match links_do_all empty SampleLinks.setup with Done l => l | _ => empty end.

Lemma heap_links_sample_ok : ∃ rows, links_ok links unbounded rows.
Proof.
  destruct (links_do_all_ok empty unbounded [] SampleLinks.setup heap_links_default_ok ltac:(done)) as (l & rows & E & _ & Hl).
  exists rows. unfold links. rewrite E. exact Hl.
Qed.
End SampleHeapLinks.

(** The same operations on both. *)
Lemma link_tables_agree_witness :
  ∃ o1 c1 k1 f' o2 c2 k2 h', serve_due_links SampleLinks.links 12000 = Done (o1, c1, k1, f')
    ∧ serve_due_links SampleHeapLinks.links 12000 = Done (o2, c2, k2, h')
    ∧ o1 ≡ₚ o2 ∧ c1 ≡ₚ c2 ∧ k1 ≡ₚ k2 ∧ earliest_timeout_at f' = earliest_timeout_at h'.
Proof.
  destruct SampleLinks.links_sample_ok as (rows & Hf). destruct SampleHeapLinks.heap_links_sample_ok as (rows' & Hh).
  assert (rows' = rows) as ->.
  { apply (rows_same (table SampleHeapLinks.links) (table SampleLinks.links) unbounded SampleLinks.room); [apply Hh|apply Hf|..].
    - vm_compute. reflexivity.
    - vm_compute. reflexivity.
    - intros i Hi. change (i < 3) in Hi. destruct i as [|[|[|i]]]; [vm_compute; reflexivity..|lia]. }
  exact (link_tables_agree 4 SampleLinks.links SampleHeapLinks.links SampleLinks.room rows 12000 Hf Hh ltac:(done)).
Defined.
