(* ===== verification/ChannelSend.v ===== *)
(** Sending on a channel: [prns-core/src/routing/links/channel/send.rs].

    A message takes the next sequence number once it is framed and tracked, is sent again when its deadline
    passes without a proof, and its window grows with proofs and shrinks with losses.  The engine's columns
    that these handlers touch are the links and the channels; the wake schedules they return, which only repeat
    the earliest deadlines of those columns, are left out. *)

From S2P Require Import Prelude Wire Token Dedup Columns Evidence Routes Channel ChannelTable Links LinkData.

Record SendToChannel := mkSendTo { sc_link_id : LinkId; sc_message_type : Z; sc_body : list Z }.

Inductive SendToChannelRejection := NoSuchLink | LinkNotActive.
Inductive SendToChannelFailure :=
  | Rejected (r : SendToChannelRejection)
  | WriteFailed (e : LinkDataError)
  | SendWindowFull
  | SendUntrackable
  | SendTimeout
  | SendLinkClosed.
Inductive ChannelCommandOutcome :=
  | SendToChannelRejected (id : Z) (failure : SendToChannelFailure)
  | OwesSendToChannel (id : Z) (send : SendToChannel).

Inductive SendToChannelWriteError := LinkVanished | Untrackable | WindowFull | Frame (e : LinkDataError).

Inductive DeliveryProof := Explicit (hash : list Z) | Implicit (hash : list Z).
Inductive DeliveryEvidence := ByProof (proof : DeliveryProof) | ByResponse.
Record PacketReceiptDelivered := mkDelivered { pd_rtt : Z; pd_evidence : DeliveryEvidence }.

Inductive LinkClosedReason := ReasonTimeout | ReasonPeerClosed | ReasonMalformedRtt | ReasonLocallyClosed.

(** The reactions these handlers hand to the sink. *)
Inductive Reaction :=
  | CommandSettled (id : Z) (settlement : result SendToChannelFailure PacketReceiptDelivered)
  | LinkClosed (link_id : LinkId) (reason : LinkClosedReason)
  | SendFrame (target : InterfaceId) (bytes : list Z).

Record ChannelAckVerifyOwed := mkAckOwed {
  ao_link_id : LinkId;
  ao_packet_hash : list Z;
  ao_signing_key : list Z;
  ao_signature : list Z;
  ao_proof : DeliveryProof;
  ao_arrived_at : Z;
}.
Inductive ChannelAckVerification := Valid | Invalid.

Inductive DueSendVerdict := OrphanedByLink | Exhausted | Retry (rtt : Z) (fire_on : InterfaceId).

Definition CHANNEL_PLAINTEXT_CAP : nat := CHANNEL_ENVELOPE_HEADER_LEN + Z.to_nat MAX_SEND_TO_CHANNEL_BODY_LEN.
Definition EXPLICIT_PROOF_PAYLOAD_LEN : nat := 32 + 64.
Definition PACKET_HASH_LEN : nat := 32.

(** [RttMillis::measured_between] *)
Definition measured_between (sent arrived : Z) : Z := saturating_sub arrived sent.

(** The columns of [EngineState] these handlers touch. *)
Record Engine (L C : Type) := mkEngine { en_links : Links L; en_channels : C }.
Arguments mkEngine {L C}. Arguments en_links {L C}. Arguments en_channels {L C}.

Section send.
Context {L C : Type} `{LinkTable L, ChannelTable C, TokenCrypto, Sha256}.
Implicit Types (e : Engine L C) (ch : C).

Definition ingest_send_to_channel e (id : Z) (send : SendToChannel) : run ChannelCommandOutcome :=
  phase ← phase_for (en_links e) (sc_link_id send);
  match phase with
  | None => Done (SendToChannelRejected id (Rejected NoSuchLink))
  | Some (Pending _ | Handshake _) => Done (SendToChannelRejected id (Rejected LinkNotActive))
  | Some (Active _) =>
      found ← ct_index_of (en_channels e) (sc_link_id send);
      window_full ←
        match found with
        | None => Done false
        | Some i =>
            n ← ct_outstanding_count (en_channels e) i;
            w ← ct_window (en_channels e) i;
            Done (in_flight_count_limit w <=? n)%nat
        end;
      Done (if (window_full : bool) then SendToChannelRejected id SendWindowFull else OwesSendToChannel id send)
  end.

(** [for outstanding_index in (0..in_flight_count).rev()] *)
Fixpoint stretch_loop (todo : nat) ch (i : nat) (rtt in_flight_count : Z) : run C :=
  match todo with
  | O => Done ch
  | S sub =>
      tries ← ct_outstanding_tries ch i sub;
      sent_at ← ct_outstanding_sent_at ch i sub;
      let stretched := saturating_add 64 sent_at (channel_retry_timeout_ms rtt tries in_flight_count) in
      at_ ← ct_outstanding_timeout_at ch i sub;
      ch ← (if (at_ <? stretched)%Z then ct_set_outstanding_timeout_at ch i sub stretched else Done ch);
      stretch_loop sub ch i rtt in_flight_count
  end.
Definition stretch_channel_deadlines ch (i : nat) (rtt : Z) : run C :=
  n ← ct_outstanding_count ch i; stretch_loop n ch i rtt (Z.of_nat n).

(** The bytes written, or why not; the channels; the buffer. *)
Definition write_commanded_send_to_channel e (id : Z) (send : SendToChannel) (now : Z) (iv buf : list Z) :
    run (result SendToChannelWriteError nat * Engine L C * list Z) :=
  let done (r : result SendToChannelWriteError nat) ch buf := Done (r, mkEngine (en_links e) ch, buf) in
  phase ← phase_for (en_links e) (sc_link_id send);
  match phase with
  | Some (Active a) =>
      let rtt := al_rtt a in
      '(ensured, ch) ← ct_ensure (en_channels e) (sc_link_id send);
      match ensured with
      | Err _ => done (Err Untrackable) ch buf
      | Ok i =>
          sequence ← ct_next_tx_sequence ch i;
          count ← ct_outstanding_count ch i;
          ch ← (if ((sequence =? 0)%Z && (count =? 0)%nat)%bool then ct_set_window ch i (for_rtt rtt) else Done ch);
          count ← ct_outstanding_count ch i;
          window ← ct_window ch i;
          if (in_flight_count_limit window <=? count)%nat then done (Err WindowFull) ch buf else
          sequence ← ct_next_tx_sequence ch i;
          '(written, envelope) ← write_envelope (sc_message_type send) sequence (sc_body send)
                                    (replicate CHANNEL_PLAINTEXT_CAP 0%Z);
          match written with
          | Err _ => done (Err (Frame DataPayloadTooLong)) ch buf
          | Ok plaintext_len =>
              phase ← phase_for (en_links e) (sc_link_id send);
              match phase with
              | Some (Active a) =>
                  count ← ct_outstanding_count ch i;
                  let timeout_at := saturating_add 64 now (channel_retry_timeout_ms rtt 0 (Z.of_nat (count + 1))) in
                  plaintext ← slice envelope 0 plaintext_len;
                  '(framed, buf) ← write_link_packet (sc_link_id send) (al_key a) (al_mtu a) CtxChannel plaintext iv buf;
                  match framed with
                  | Err err => done (Err (Frame err)) ch buf
                  | Ok wire_bytes =>
                      payload ← slice buf HEADER_MIN_LEN wire_bytes;
                      let packet_hash := of_data_fields Link (sc_link_id send) CtxChannel payload in
                      '(outcome, ch) ← ct_push_outstanding ch i
                         (mkSend packet_hash id sequence (sc_message_type send) (sc_body send) iv now timeout_at);
                      match outcome with
                      | Tracked =>
                          ch ← ct_set_next_tx_sequence ch i (next sequence);
                          ch ← stretch_channel_deadlines ch i rtt;
                          done (Ok wire_bytes) ch buf
                      | TxFull => done (Err WindowFull) ch buf
                      end
                  end
              | _ => done (Err LinkVanished) ch buf
              end
          end
      end
  | _ => Done (Err LinkVanished, e, buf)
  end.

(** [None] without a signature to verify. *)
Definition prepare_channel_ack_verify e (link_id : LinkId) (payload : list Z) (proof : DeliveryProof) (arrived_at : Z) :
    run (option ChannelAckVerifyOwed) :=
  if negb (length payload =? EXPLICIT_PROOF_PAYLOAD_LEN)%nat then Done None else
  found ← ct_index_of (en_channels e) link_id;
  match found with
  | None => Done None
  | Some i =>
      let named_hash := take PACKET_HASH_LEN payload in
      hashes ← ct_outstanding_packet_hashes (en_channels e) i;
      if decide (named_hash ∈ hashes) then
        phase ← phase_for (en_links e) link_id;
        match phase with
        | Some (Active a) =>
            Done (Some (mkAckOwed link_id named_hash (al_peer_signing a) (drop PACKET_HASH_LEN payload) proof arrived_at))
        | _ => Done None
        end
      else Done None
  end.

Definition resume_channel_ack_verify e (owed : ChannelAckVerifyOwed) (verification : ChannelAckVerification) :
    run (list Reaction * Engine L C) :=
  match verification with
  | Invalid => Done ([], e)
  | Valid =>
      let ch := en_channels e in
      found ← ct_index_of ch (ao_link_id owed);
      match found with
      | None => Done ([], e)
      | Some i =>
          hashes ← ct_outstanding_packet_hashes ch i;
          match list_find (λ hash, hash = ao_packet_hash owed) hashes with
          | None => Done ([], e)
          | Some (sub, _) =>
              phase ← phase_for (en_links e) (ao_link_id owed);
              match phase with
              | Some (Active a) =>
                  if decide (al_peer_signing a = ao_signing_key owed) then
                    let rtt := al_rtt a in
                    command_id ← ct_outstanding_command_id ch i sub;
                    sent_at ← ct_outstanding_sent_at ch i sub;
                    ch ← ct_retire_outstanding ch i sub;
                    window ← ct_window ch i;
                    ch ← ct_set_window ch i (grow_on_ack window rtt);
                    links ← note_inbound (en_links e) (ao_link_id owed) (ao_arrived_at owed);
                    Done ([CommandSettled command_id
                             (Ok (mkDelivered (measured_between sent_at (ao_arrived_at owed)) (ByProof (ao_proof owed))))],
                          mkEngine links ch)
                  else Done ([], e)
              | _ => Done ([], e)
              end
          end
      end
  end.

(** ** Timeouts *)

Fixpoint due_up ch (i : nat) (now : Z) (todo sub : nat) : run (option nat) :=
  match todo with
  | O => Done None
  | S todo =>
      at_ ← ct_outstanding_timeout_at ch i sub;
      if (at_ <=? now)%Z then Done (Some sub) else due_up ch i now todo (S sub)
  end.
Definition next_due_channel ch (now : Z) : run (option (nat * nat)) :=
  found ← first_due_channel ch now;
  match found with
  | None => Done None
  | Some i =>
      n ← ct_outstanding_count ch i;
      sub ← due_up ch i now n 0;
      Done (match sub with Some sub => Some (i, sub) | None => None end)
  end.

Definition classify_due_send e (link_id : LinkId) (tries : Z) : run DueSendVerdict :=
  phase ← phase_for (en_links e) link_id;
  Done (match phase with
        | Some (Active a) =>
            if (CHANNEL_MAX_TRIES <=? tries)%Z then Exhausted else Retry (al_rtt a) (al_attached_interface a)
        | _ => OrphanedByLink
        end).

(** [is_egress_eligible(interface, Egress::Transmit)] of the attached interfaces. *)
Context (transmits : InterfaceId → bool).

(** The message sealed again, byte for byte. *)
Definition reseal e (link_id : LinkId) (message_type sequence : Z) (body iv : list Z) : run (option (list Z)) :=
  phase ← phase_for (en_links e) link_id;
  match phase with
  | Some (Active a) =>
      '(written, envelope) ← write_envelope message_type sequence body (replicate CHANNEL_PLAINTEXT_CAP 0%Z);
      match written with
      | Err _ => Done None
      | Ok env_len =>
          plaintext ← slice envelope 0 env_len;
          '(framed, frame) ← write_link_packet link_id (al_key a) (al_mtu a) CtxChannel plaintext iv
                               (replicate BROADCAST_MTU 0%Z);
          match framed with
          | Err _ => Done None
          | Ok wire_bytes => bytes ← slice frame 0 wire_bytes; Done (Some bytes)
          end
      end
  | _ => Done None
  end.

Definition retry_outstanding_send e (i sub : nat) (link_id : LinkId) (rtt : Z) (fire_on : InterfaceId) :
    run (list Reaction * Engine L C) :=
  let ch := en_channels e in
  tries ← ct_outstanding_tries ch i sub;
  sequence ← ct_outstanding_sequence ch i sub;
  message_type ← ct_outstanding_message_type ch i sub;
  iv ← ct_outstanding_iv ch i sub;
  body_src ← ct_outstanding_body ch i sub;
  body ← copy_into (replicate (Z.to_nat MAX_SEND_TO_CHANNEL_BODY_LEN) 0%Z) 0 body_src;
  body ← slice body 0 (length body_src);
  resealed ← reseal e link_id message_type sequence body iv;
  let reactions :=
    match resealed with
    | Some bytes => if transmits fire_on then [SendFrame fire_on bytes] else []
    | None => []
    end in
  let new_tries := u8_add tries 1 in
  ch ← ct_set_outstanding_tries ch i sub new_tries;
  sent_at ← ct_outstanding_sent_at ch i sub;
  n ← ct_outstanding_count ch i;
  ch ← ct_set_outstanding_timeout_at ch i sub
         (saturating_add 64 sent_at (channel_retry_timeout_ms rtt new_tries (Z.of_nat n)));
  ch ← stretch_channel_deadlines ch i rtt;
  window ← ct_window ch i;
  ch ← ct_set_window ch i (shrink_on_loss window);
  Done (reactions, mkEngine (en_links e) ch).

(** ** The loop of [fire_due_channel_timeouts]

    A step serves the next due message; when it has no tries left, the link is torn down ([ChannelTeardown]). *)
Inductive due_step :=
  | NothingDue
  | Served (reactions : list Reaction) (e : Engine L C)
  | TearsDown (link_id : LinkId).

Definition serve_due_channel e (now : Z) : run due_step :=
  let ch := en_channels e in
  found ← next_due_channel ch now;
  match found with
  | None => Done NothingDue
  | Some (i, sub) =>
      link_id ← ct_link_at ch i;
      tries ← ct_outstanding_tries ch i sub;
      verdict ← classify_due_send e link_id tries;
      match verdict with
      | OrphanedByLink =>
          id ← ct_outstanding_command_id ch i sub;
          ch ← ct_retire_outstanding ch i sub;
          Done (Served [CommandSettled id (Err SendTimeout)] (mkEngine (en_links e) ch))
      | Exhausted => Done (TearsDown link_id)
      | Retry rtt fire_on =>
          '(reactions, e) ← retry_outstanding_send e i sub link_id rtt fire_on;
          Done (Served reactions e)
      end
  end.

(** The loop up to the first teardown, whose link it returns; [None] when the fuel runs out. *)
Fixpoint serve_due_channels (fuel : nat) e (now : Z) : run (option (list Reaction * Engine L C * option LinkId)) :=
  match fuel with
  | O => Done None
  | S fuel =>
      step ← serve_due_channel e now;
      match step with
      | NothingDue => Done (Some ([], e, None))
      | TearsDown link_id => Done (Some ([], e, Some link_id))
      | Served reactions e =>
          rest ← serve_due_channels fuel e now;
          Done (match rest with
                | None => None
                | Some (more, e, torn) => Some (reactions ++ more, e, torn)
                end)
      end
  end.
End send.
Arguments NothingDue {L C}. Arguments Served {L C}. Arguments TearsDown {L C}.
