(* ===== verification/ChannelSendProofs.v ===== *)
(** What sending does to a channel: a number is used once, deadlines are only extended. *)

From S2P Require Import Prelude Wire Token Dedup Columns Evidence Routes Channel ChannelTable Links LinkData LinksInvariant ChannelSend.

(** * Deadlines *)

(** The deadline of a message when [n] are in flight; it is only extended. *)
Definition stretched_to (rtt n : Z) (o : Outstanding) : Z :=
  saturating_add 64 (os_sent_at (o_send o)) (channel_retry_timeout_ms rtt (o_tries o) n).
Definition stretched (rtt n : Z) (o : Outstanding) : Outstanding :=
  if (o_timeout o <? stretched_to rtt n o)%Z then with_timeout (stretched_to rtt n o) o else o.

Definition stretch (rtt : Z) (c : Channel) : Channel :=
  with_outstanding (stretched rtt (Z.of_nat (length (ch_outstanding c))) <$> ch_outstanding c) c.

Lemma stretched_timeout rtt n o : o_timeout (stretched rtt n o) = Z.max (o_timeout o) (stretched_to rtt n o).
Proof. unfold stretched. destruct (Z.ltb_spec (o_timeout o) (stretched_to rtt n o)); cbn; lia. Qed.

Lemma stretched_same rtt n o :
  o_tries (stretched rtt n o) = o_tries o
  ∧ os_packet_hash (o_send (stretched rtt n o)) = os_packet_hash (o_send o)
  ∧ os_command_id (o_send (stretched rtt n o)) = os_command_id (o_send o)
  ∧ os_sequence (o_send (stretched rtt n o)) = os_sequence (o_send o)
  ∧ os_body (o_send (stretched rtt n o)) = os_body (o_send o)
  ∧ os_sent_at (o_send (stretched rtt n o)) = os_sent_at (o_send o).
Proof. unfold stretched. by case_match. Qed.

Section proofs.
Context {L C : Type} `{LinkTableLaws L, ChannelTableLaws C, TokenCryptoLaws, Sha256}.
Implicit Types (e : Engine L C) (ch : C).

Lemma with_outstanding_same c : with_outstanding (ch_outstanding c) c = c.
Proof. by destruct c. Qed.

Lemma stretch_loop_ok todo ch slots room chans i c rtt n :
  ct_rep ch slots room chans → chans !! i = Some c → todo ≤ length (ch_outstanding c) →
  ∃ ch', stretch_loop todo ch i rtt n = Done ch'
    ∧ ct_rep ch' slots room
        (<[i := with_outstanding ((stretched rtt n <$> take todo (ch_outstanding c)) ++ drop todo (ch_outstanding c)) c]> chans).
Proof.
  revert ch chans c. induction todo as [|sub IH]; intros ch chans c Hr Hi Ht; cbn [stretch_loop].
  { exists ch. split; [done|]. rewrite take_0, drop_0. cbn [fmap list_fmap app].
    rewrite with_outstanding_same, list_insert_id; done. }
  destruct (lookup_lt_is_Some_2 (ch_outstanding c) sub) as [o Ho]; [lia|].
  destruct (ct_outstanding_ok ch slots room chans i c sub o Hr Hi Ho) as (_ & -> & -> & -> & _). cbn [mbind run_bind].
  change (saturating_add 64 (os_sent_at (o_send o)) (channel_retry_timeout_ms rtt (o_tries o) n)) with (stretched_to rtt n o).
  assert (Hstep : ∃ ch1, (if (o_timeout o <? stretched_to rtt n o)%Z
        then ct_set_outstanding_timeout_at ch i sub (stretched_to rtt n o) else Done ch) = Done ch1
      ∧ ct_rep ch1 slots room (<[i := with_outstanding (<[sub := stretched rtt n o]> (ch_outstanding c)) c]> chans)).
  { unfold stretched. case_match.
    - by apply ct_set_timeout_ok.
    - exists ch. split; [done|]. rewrite (list_insert_id (ch_outstanding c) sub o Ho), with_outstanding_same, list_insert_id; done. }
  destruct Hstep as (ch1 & -> & Hr1). cbn [mbind run_bind].
  destruct (IH ch1 _ _ Hr1 (list_lookup_insert_eq _ _ _ (lookup_lt_Some _ _ _ Hi))) as (ch2 & E & Hr2).
  { cbn. rewrite length_insert. lia. }
  exists ch2. split; [done|]. rewrite list_insert_insert_eq in Hr2. cbn [ch_outstanding with_outstanding] in Hr2.
  rewrite take_insert_ge, drop_insert_ge, Nat.sub_diag in Hr2 by lia.
  rewrite (take_S_r _ _ o Ho), fmap_app. rewrite <- app_assoc. cbn.
  rewrite (drop_S _ o sub Ho) in Hr2. cbn in Hr2. exact Hr2.
Qed.

Lemma stretch_ok ch slots room chans i c rtt :
  ct_rep ch slots room chans → chans !! i = Some c →
  ∃ ch', stretch_channel_deadlines ch i rtt = Done ch' ∧ ct_rep ch' slots room (<[i := stretch rtt c]> chans).
Proof.
  intros Hr Hi. unfold stretch_channel_deadlines.
  destruct (ct_reads_ok ch slots room chans i c Hr Hi) as (_ & _ & _ & _ & _ & -> & _). cbn [mbind run_bind].
  destruct (stretch_loop_ok (length (ch_outstanding c)) ch slots room chans i c rtt (Z.of_nat (length (ch_outstanding c))) Hr Hi)
    as (ch' & E & Hr'); [lia|]. exists ch'. split; [done|]. rewrite firstn_all, drop_all, app_nil_r in Hr'. exact Hr'.
Qed.

(** * Opening *)

(** The channels once [link] has one. *)
Definition opened (link : LinkId) (chans : list Channel) : list Channel :=
  if decide (link ∈ ch_link <$> chans) then chans else chans ++ [new_channel link].

Lemma ensure_ok ch slots room chans link :
  ct_rep ch slots room chans →
  (∃ i c ch', ct_ensure ch link = Done (Ok i, ch') ∧ ct_rep ch' slots room (opened link chans)
     ∧ opened link chans !! i = Some c ∧ ch_link c = link)
  ∨ (ct_ensure ch link = Done (Err ChannelTableFull, ch) ∧ (link ∉ ch_link <$> chans) ∧ Z.of_nat (length chans) = slots).
Proof.
  intros Hr. unfold opened. case_decide as Hin.
  - left. apply list_elem_of_fmap in Hin as (c & -> & Hc). apply list_elem_of_lookup in Hc as [i Hi].
    exists i, c, ch. split; [by eapply ct_ensure_known|]. done.
  - destruct (ct_len_ok ch slots room chans Hr) as [_ Hle].
    destruct (decide (Z.of_nat (length chans) < slots)%Z) as [Hlt|Hge].
    + left. destruct (ct_ensure_new ch slots room chans link Hr Hin Hlt) as (ch' & E & Hr').
      exists (length chans), (new_channel link), ch'. split; [done|]. split; [done|]. split; [|done]. by apply list_lookup_middle.
    + right. assert (Hs : Z.of_nat (length chans) = slots) by lia. split; [|done]. by eapply ct_ensure_full.
Qed.

(** * Sending *)

(** An envelope is written when the payload has a 16-bit length and fits, and refused otherwise. *)
Lemma write_envelope_short mt seq payload buf :
  length buf < 6 + length payload → ∃ err, write_envelope mt seq payload buf = Done (Err err, buf).
Proof.
  intros Hl. unfold write_envelope. case_match; [by eexists|]. rewrite (proj2 (Nat.ltb_lt _ _)) by done. by eexists.
Qed.

(** A first message sets the window from the link's round-trip time. *)
Definition tuned (rtt : Z) (c : Channel) : Channel :=
  if ((ch_next_tx c =? 0)%Z && (length (ch_outstanding c) =? 0)%nat)%bool then with_window (for_rtt rtt) c else c.

(** Whether channel [c] of active link [a] takes the message, and the bytes it takes on the wire. *)
Definition send_verdict (room : nat → nat → bool) (a : ActiveLink) (c : Channel) (send : SendToChannel) (buffer : nat) :
    result SendToChannelWriteError nat :=
  let body := length (sc_body send) in
  let wire := HEADER_MIN_LEN + sealed_len (6 + body) in
  if (in_flight_count_limit (ch_window c) <=? length (ch_outstanding c))%nat then Err WindowFull
  else if (MAX_SEND_TO_CHANNEL_BODY_LEN <? Z.of_nat body)%Z then Err (Frame DataPayloadTooLong)
  else if (link_mdu (al_mtu a) <? Z.of_nat (6 + body))%Z then Err (Frame DataPayloadTooLong)
  else if (buffer <? wire)%nat then Err (Frame DataBufferTooShort)
  else if room (length (ch_outstanding c)) body then Ok wire
  else Err WindowFull.

(** The frame of the message with number [seq], and the entry that tracks it beside [others]. *)
Definition frame_of (a : ActiveLink) (seq : Z) (send : SendToChannel) (iv : list Z) : list Z :=
  sealed_packet (link_packet_header (sc_link_id send) Data CtxChannel) (al_key a) iv
    (envelope_bytes (sc_message_type send) seq (sc_body send)).
Definition tracked (a : ActiveLink) (seq : Z) (others : nat) (id : Z) (send : SendToChannel) (now : Z) (iv : list Z) : Outstanding :=
  mkOutstanding
    (mkSend (of_data_fields Link (sc_link_id send) CtxChannel (sealed (from_aes256 (al_key a)) iv
               (envelope_bytes (sc_message_type send) seq (sc_body send))))
       id seq (sc_message_type send) (sc_body send) iv now
       (saturating_add 64 now (channel_retry_timeout_ms (al_rtt a) 0 (Z.of_nat (others + 1))))) 0.

(** The channel once the message is sent. *)
Definition sent (a : ActiveLink) (id : Z) (send : SendToChannel) (now : Z) (iv : list Z) (c : Channel) : Channel :=
  stretch (al_rtt a)
    (with_next_tx (next (ch_next_tx c))
       (with_outstanding
          (ch_outstanding c ++ [tracked a (ch_next_tx c) (length (ch_outstanding c)) id send now iv]) c)).

Lemma tuned_same rtt c :
  ch_next_tx (tuned rtt c) = ch_next_tx c ∧ ch_outstanding (tuned rtt c) = ch_outstanding c ∧ ch_link (tuned rtt c) = ch_link c.
Proof. unfold tuned. by case_match. Qed.

Lemma tune_ok ch slots room chans i c rtt :
  ct_rep ch slots room chans → chans !! i = Some c →
  ∃ ch', (if ((ch_next_tx c =? 0)%Z && (length (ch_outstanding c) =? 0)%nat)%bool
          then ct_set_window ch i (for_rtt rtt) else Done ch) = Done ch'
    ∧ ct_rep ch' slots room (<[i := tuned rtt c]> chans).
Proof.
  intros Hr Hi. unfold tuned. case_match; [by apply ct_set_window_ok|]. exists ch. by rewrite list_insert_id.
Qed.

Lemma length_envelope_bytes mt seq payload : length (envelope_bytes mt seq payload) = 6 + length payload.
Proof. unfold envelope_bytes. rewrite !length_app, !length_to_be_bytes. lia. Qed.

(** The plaintext buffer takes exactly the bodies a channel message may have. *)
Lemma write_envelope_cap mt seq body :
  if (MAX_SEND_TO_CHANNEL_BODY_LEN <? Z.of_nat (length body))%Z
  then ∃ err, write_envelope mt seq body (replicate CHANNEL_PLAINTEXT_CAP 0%Z)
      = Done (Err err, replicate CHANNEL_PLAINTEXT_CAP 0%Z)
  else ∃ envelope, write_envelope mt seq body (replicate CHANNEL_PLAINTEXT_CAP 0%Z)
      = Done (Ok (6 + length body), envelope) ∧ slice envelope 0 (6 + length body) = Done (envelope_bytes mt seq body).
Proof.
  rewrite channel_body_len. destruct (Z.ltb_spec 425 (Z.of_nat (length body))).
  - apply write_envelope_short. rewrite length_replicate. change CHANNEL_PLAINTEXT_CAP with 431. lia.
  - destruct (write_envelope_ok mt seq body (replicate CHANNEL_PLAINTEXT_CAP 0%Z)) as (after & ->);
      [change u16_max with 65535%Z; lia|rewrite length_replicate; change CHANNEL_PLAINTEXT_CAP with 431; lia|].
    eexists. split; [done|]. apply slice_prefix, length_envelope_bytes.
Qed.

Lemma channel_context : canonical_context CtxChannel.
Proof. split; [done|cbn; width]. Qed.

(** A link packet, its bytes, and the payload behind the header. *)
Lemma frame_ok link_id key mtu plaintext iv buf :
  is_link_id link_id → length iv = IV_LEN →
  let n := HEADER_MIN_LEN + sealed_len (length plaintext) in
  let packet := sealed_packet (link_packet_header link_id Data CtxChannel) key iv plaintext in
  ∃ buf', length buf' = length buf
    ∧ write_link_packet link_id key mtu CtxChannel plaintext iv buf
      = Done (if (link_mdu mtu <? Z.of_nat (length plaintext))%Z then Err DataPayloadTooLong
              else if (length buf <? n)%nat then Err DataBufferTooShort else Ok n, buf')
    ∧ ((Z.of_nat (length plaintext) ≤ link_mdu mtu)%Z → n ≤ length buf →
       slice buf' 0 n = Done packet ∧ slice buf' HEADER_MIN_LEN n = Done (sealed (from_aes256 key) iv plaintext)).
Proof.
  intros Hid Hiv n packet. destruct (write_link_packet_ok link_id key mtu CtxChannel plaintext iv buf Hid)
    as (buf' & E & Hl & Hb); [apply channel_context|done|]. exists buf'. split; [done|]. split; [exact E|]. intros Hm Hn.
  rewrite Hb by done. pose proof (length_sealed (from_aes256 key) iv plaintext Hiv) as Hs.
  pose proof (length_encode_header (link_packet_header link_id Data CtxChannel)) as Hh.
  specialize (Hh (link_header_wf _ _ _ Hid channel_context)).
  change (wire_len (link_packet_header link_id Data CtxChannel)) with HEADER_MIN_LEN in Hh. split.
  - apply slice_prefix. unfold packet, sealed_packet. rewrite length_app. lia.
  - unfold sealed_packet. rewrite <- app_assoc. apply slice_middle; [done|]. lia.
Qed.

(** ** The handler *)

(** What a send does: the verdict, the links kept, and the channels after it. *)
Record send_done (e : Engine L C) slots room chans (a : ActiveLink) (id : Z) (send : SendToChannel) (now : Z) (iv buf : list Z)
    (r : result SendToChannelWriteError nat) (e' : Engine L C) (buf' : list Z) (i : nat) (c : Channel) : Prop := {
  sd_at : opened (sc_link_id send) chans !! i = Some c;
  sd_link : ch_link c = sc_link_id send;
  sd_links : en_links e' = en_links e;
  sd_result : r = send_verdict room a (tuned (al_rtt a) c) send (length buf);
  sd_channels : ct_rep (en_channels e') slots room
    (<[i := match r with
            | Ok _ => sent a id send now iv (tuned (al_rtt a) c)
            | Err _ => tuned (al_rtt a) c
            end]> (opened (sc_link_id send) chans));
  sd_bytes : ∀ n, r = Ok n → slice buf' 0 n = Done (frame_of a (ch_next_tx c) send iv);
}.

(** Tracking, numbering and stretching the deadlines of a message that is framed. *)
Lemma track_ok ch slots room chans i c a id send now iv :
  ct_rep ch slots room chans → chans !! i = Some c → room (length (ch_outstanding c)) (length (sc_body send)) = true →
  ∃ ch1 ch2 ch3,
    ct_push_outstanding ch i (o_send (tracked a (ch_next_tx c) (length (ch_outstanding c)) id send now iv)) = Done (Tracked, ch1)
    ∧ ct_set_next_tx_sequence ch1 i (next (ch_next_tx c)) = Done ch2
    ∧ stretch_channel_deadlines ch2 i (al_rtt a) = Done ch3
    ∧ ct_rep ch3 slots room (<[i := sent a id send now iv c]> chans).
Proof.
  intros Hr Hi Hroom. pose proof (lookup_lt_Some _ _ _ Hi) as Hlt.
  pose proof (ct_push_outstanding_ok ch slots room chans i c (o_send (tracked a (ch_next_tx c) (length (ch_outstanding c)) id send now iv)) Hr Hi) as Hpush.
  cbn [o_send tracked os_body] in Hpush. rewrite Hroom in Hpush. destruct Hpush as (ch1 & E1 & Hr1).
  destruct (ct_set_next_tx_ok ch1 slots room _ i _ (next (ch_next_tx c)) Hr1 (list_lookup_insert_eq _ _ _ Hlt)) as (ch2 & E2 & Hr2).
  rewrite list_insert_insert_eq in Hr2.
  destruct (stretch_ok ch2 slots room _ i _ (al_rtt a) Hr2 (list_lookup_insert_eq _ _ _ Hlt)) as (ch3 & E3 & Hr3).
  rewrite list_insert_insert_eq in Hr3. exists ch1, ch2, ch3. done.
Qed.

(** On an active link: the table is full, or the link's channel gives the verdict. *)
Definition send_outcome e slots room chans (a : ActiveLink) (id : Z) (send : SendToChannel) (now : Z) (iv buf : list Z)
    (result : run (result SendToChannelWriteError nat * Engine L C * list Z)) : Prop :=
  ∃ r e' buf', result = Done (r, e', buf')
    ∧ length buf' = length buf
    ∧ ((r = Err Untrackable ∧ e' = e ∧ (sc_link_id send ∉ ch_link <$> chans) ∧ Z.of_nat (length chans) = slots)
       ∨ ∃ i c, send_done e slots room chans a id send now iv buf r e' buf' i c).

(** A refusal changes at most the window. *)
Lemma send_refused e slots room chans a id send now iv buf i c ch err buf' :
  opened (sc_link_id send) chans !! i = Some c → ch_link c = sc_link_id send →
  ct_rep ch slots room (<[i := tuned (al_rtt a) c]> (opened (sc_link_id send) chans)) → length buf' = length buf →
  send_verdict room a (tuned (al_rtt a) c) send (length buf) = Err err →
  send_outcome e slots room chans a id send now iv buf (Done (Err err, mkEngine (en_links e) ch, buf')).
Proof.
  intros Hi Hc Hr Hlen E. eexists _, _, buf'. split; [done|]. split; [done|]. right. exists i, c. by split.
Qed.

Lemma send_on_active e lroom rows j r a slots room chans id send now iv buf :
  links_ok (en_links e) lroom rows → rows !! j = Some r → lr_id r = sc_link_id send → lr_phase r = Active a →
  ct_rep (en_channels e) slots room chans → is_link_id (sc_link_id send) → length iv = IV_LEN →
  send_outcome e slots room chans a id send now iv buf (write_commanded_send_to_channel e id send now iv buf).
Proof.
  intros Hl Hj Hid Hph Hr Hlid Hiv. unfold write_commanded_send_to_channel. cbn zeta.
  rewrite (phase_for_known _ _ _ _ _ _ Hl Hj Hid), Hph. cbn [mbind run_bind].
  destruct (ensure_ok (en_channels e) slots room chans (sc_link_id send) Hr) as [(i & c & ch0 & -> & Hr0 & Hi & Hc)|(-> & Hn & Hs)];
    cbn [mbind run_bind].
  2: { eexists _, _, buf. split; [done|]. split; [done|]. left. by destruct e. }
  pose proof (lookup_lt_Some _ _ _ Hi) as Hlt.
  destruct (ct_reads_ok ch0 slots room _ i c Hr0 Hi) as (_ & _ & _ & -> & _ & -> & _). cbn [mbind run_bind].
  destruct (tune_ok ch0 slots room _ i c (al_rtt a) Hr0 Hi) as (ch1 & -> & Hr1). cbn [mbind run_bind].
  pose proof (λ err buf', send_refused e slots room chans a id send now iv buf i c ch1 err buf' Hi Hc Hr1) as Hstay.
  pose proof (tuned_same (al_rtt a) c) as (Htx & _ & _). set (w := tuned (al_rtt a) c) in *. pose proof (list_lookup_insert_eq (opened (sc_link_id send) chans) i w Hlt) as Hw.
  destruct (ct_reads_ok ch1 slots room _ i w Hr1 Hw) as (_ & _ & _ & Etx & Ew & Ec & _).
  rewrite Ec, Ew. cbn [mbind run_bind]. unfold send_verdict in Hstay.
  destruct (Nat.leb_spec (in_flight_count_limit (ch_window w)) (length (ch_outstanding w))) as [|Hwin]; [by apply Hstay|].
  rewrite Etx. cbn [mbind run_bind].
  pose proof (write_envelope_cap (sc_message_type send) (ch_next_tx w) (sc_body send)) as Henv.
  destruct (Z.ltb_spec MAX_SEND_TO_CHANNEL_BODY_LEN (Z.of_nat (length (sc_body send)))) as [|Hmax].
  { destruct Henv as (err & ->). cbn [mbind run_bind]. by apply Hstay. }
  destruct Henv as (envelope & -> & Hslice). cbn [mbind run_bind]. rewrite Hslice. cbn [mbind run_bind].
  destruct (frame_ok (sc_link_id send) (al_key a) (al_mtu a)
    (envelope_bytes (sc_message_type send) (ch_next_tx w) (sc_body send)) iv buf Hlid Hiv) as (buf' & Hbuf & Ef & Hb).
  rewrite Ef. cbn [mbind run_bind]. rewrite length_envelope_bytes in *.
  destruct (Z.ltb_spec (link_mdu (al_mtu a)) (Z.of_nat (6 + length (sc_body send)))) as [|Hmdu]; [by apply Hstay|].
  destruct (Nat.ltb_spec (length buf) (HEADER_MIN_LEN + sealed_len (6 + length (sc_body send)))) as [|Hfits]; [by apply Hstay|].
  destruct Hb as [Hpacket Hpayload]; [done|done|]. rewrite Hpayload. cbn [mbind run_bind].
  destruct (room (length (ch_outstanding w)) (length (sc_body send))) eqn:Hroom.
  - destruct (track_ok ch1 slots room _ i w a id send now iv Hr1 Hw Hroom) as (ch2 & ch3 & ch4 & E2 & E3 & E4 & Hr4).
    cbn [o_send tracked] in E2. rewrite E2. cbn [mbind run_bind]. rewrite E3. cbn [mbind run_bind]. rewrite E4. cbn [mbind run_bind].
    rewrite list_insert_insert_eq in Hr4. eexists _, _, buf'. split; [done|]. split; [done|]. right. exists i, c.
    split; try done; [|intros n [= <-]; by rewrite <- Htx]. fold w. unfold send_verdict.
    by rewrite (proj2 (Nat.leb_gt _ _) Hwin), (proj2 (Z.ltb_ge _ _) Hmax), (proj2 (Z.ltb_ge _ _) Hmdu), (proj2 (Nat.ltb_ge _ _) Hfits), Hroom.
  - match goal with |- context[ct_push_outstanding ch1 i ?s] =>
      pose proof (ct_push_outstanding_ok ch1 slots room _ i w s Hr1 Hw) as Hpush; cbn [os_body] in Hpush; rewrite Hroom in Hpush end.
    rewrite Hpush. cbn [mbind run_bind]. by apply Hstay.
Qed.

(** Off an active link the send is refused, and nothing changes. *)
Lemma send_effect e lroom rows slots room chans id send now iv buf :
  links_ok (en_links e) lroom rows → ct_rep (en_channels e) slots room chans →
  is_link_id (sc_link_id send) → length iv = IV_LEN →
  ∃ r e' buf', write_commanded_send_to_channel e id send now iv buf = Done (r, e', buf') ∧ length buf' = length buf
    ∧ ((e' = e ∧ ∃ err, r = Err err)
       ∨ ∃ j row a i c, rows !! j = Some row ∧ lr_id row = sc_link_id send ∧ lr_phase row = Active a
           ∧ send_done e slots room chans a id send now iv buf r e' buf' i c).
Proof.
  intros Hl Hr Hid Hiv.
  destruct (phase_for_ok (en_links e) lroom rows (sc_link_id send) Hl) as [(j & row & E & Hj & Hrow)|[E _]].
  - destruct (lr_phase row) as [p|h|a] eqn:Ep;
      [unfold write_commanded_send_to_channel; cbn zeta; rewrite E; eexists _, _, _; naive_solver..|].
    destruct (send_on_active e lroom rows j row a slots room chans id send now iv buf) as (r & e' & buf' & E' & Hlen & Hor); try done.
    exists r, e', buf'. split; [done|]. split; [done|]. destruct Hor as [(-> & -> & _)|(i & c & D)]; [left; eauto|right].
    by exists j, row, a, i, c.
  - unfold write_commanded_send_to_channel. cbn zeta. rewrite E. eexists _, _, _. naive_solver.
Qed.

(** ** The sending side of the channels *)

Definition channel_of (link : LinkId) (chans : list Channel) : option Channel := find_key ch_link link chans.
(** The next number and the messages in flight on [link]. *)
Definition sends_of (link : LinkId) (chans : list Channel) : Z * list Outstanding :=
  match channel_of link chans with Some c => (ch_next_tx c, ch_outstanding c) | None => (0%Z, []) end.

Lemma sends_of_insert link chans i c c' :
  NoDup (ch_link <$> chans) → chans !! i = Some c → ch_link c' = ch_link c →
  sends_of link (<[i := c']> chans)
    = if decide (link = ch_link c) then (ch_next_tx c', ch_outstanding c') else sends_of link chans.
Proof. intros. unfold sends_of, channel_of. rewrite (find_key_insert ch_link link chans i c c') by done. by case_decide. Qed.

Lemma sends_of_opened link link' chans : sends_of link (opened link' chans) = sends_of link chans.
Proof.
  unfold opened. case_decide as Hin; [done|]. unfold sends_of, channel_of. rewrite find_key_snoc by done.
  case_decide as Hl; [|done]. cbn in Hl. subst link. by rewrite find_key_none.
Qed.

Lemma NoDup_opened link chans : NoDup (ch_link <$> chans) → NoDup (ch_link <$> opened link chans).
Proof.
  intros Hnd. unfold opened. case_decide as Hin; [done|]. rewrite fmap_app. apply list.NoDup_app.
  split; [done|]. split; [|by apply NoDup_singleton]. intros l Hl [= ->]%list_elem_of_singleton. done.
Qed.

(** C14. A send on a channel succeeds or changes nothing that matters: a refused send (no active link, table or
    window full, body too long, buffer too short) leaves every channel's next number and messages in flight as
    they were; an accepted one writes the sealed packet of the link's next number, uses exactly that number, tracks
    the message with zero tries, and only ever extends the deadlines of the messages already in flight; no other
    channel is touched. *)
Theorem a_send_uses_one_number e lroom rows slots room chans id send now iv buf :
  links_ok (en_links e) lroom rows → ct_rep (en_channels e) slots room chans →
  is_link_id (sc_link_id send) → length iv = IV_LEN →
  ∃ r e' buf' chans', write_commanded_send_to_channel e id send now iv buf = Done (r, e', buf')
    ∧ en_links e' = en_links e ∧ ct_rep (en_channels e') slots room chans'
    ∧ match r with
      | Err _ => ∀ link, sends_of link chans' = sends_of link chans
      | Ok n => ∃ i row a, rows !! i = Some row ∧ lr_id row = sc_link_id send ∧ lr_phase row = Active a
          ∧ slice buf' 0 n = Done (frame_of a (sends_of (sc_link_id send) chans).1 send iv)
          ∧ ∀ link, sends_of link chans'
              = let '(seq, flying) := sends_of link chans in
                if decide (link = sc_link_id send)
                then (next seq, stretched (al_rtt a) (Z.of_nat (length flying + 1))
                        <$> (flying ++ [tracked a seq (length flying) id send now iv]))
                else (seq, flying)
      end.
Proof.
  intros Hl Hr Hid Hiv. pose proof (ct_links_ok _ _ _ _ Hr) as Hnd.
  destruct (send_effect e lroom rows slots room chans id send now iv buf Hl Hr Hid Hiv)
    as (r & e' & buf' & E & _ & [[-> [err ->]]|(j & row & a & i & c & Hj & Hrow & Hact & D)]).
  { by exists (Err err), e, buf', chans. }
  destruct D as [Hi Hc Hlinks Hres Hch Hbytes]. exists r, e', buf'. eexists. split; [done|]. split; [done|]. split; [exact Hch|].
  pose proof (tuned_same (al_rtt a) c) as (Etx & Eo & El). pose proof (NoDup_opened (sc_link_id send) chans Hnd) as Hndo.
  pose proof (find_key_at ch_link _ i c Hndo Hi) as Hof. pose proof (λ link, sends_of_opened link (sc_link_id send) chans) as Hop.
  assert (Hs : sends_of (sc_link_id send) chans = (ch_next_tx c, ch_outstanding c)).
  { rewrite Hc in Hof. rewrite <- Hop. unfold sends_of, channel_of. by rewrite Hof. }
  destruct r as [n|err].
  - exists j, row, a. split; [done|]. split; [done|]. split; [done|]. rewrite Hs. split; [by apply Hbytes|]. intros link.
    rewrite (sends_of_insert link _ i c), Hop by done. rewrite Hc. case_decide as Hlink; [|by destruct (sends_of link chans)].
    subst link. rewrite Hs. cbn. rewrite Etx, Eo, length_app. cbn. done.
  - intros link. rewrite (sends_of_insert link _ i c), Hop by done. rewrite Hc, Etx, Eo.
    case_decide as Hlink; [|done]. subst link. by rewrite Hs.
Qed.

(** * Sending again *)

(** What a channel promises while it sends: its window, the messages in flight, their tries. *)
Record message_ok (o : Outstanding) : Prop := {
  mo_tries : (0 ≤ o_tries o ≤ CHANNEL_MAX_TRIES)%Z;
  mo_body : (Z.of_nat (length (os_body (o_send o))) ≤ MAX_SEND_TO_CHANNEL_BODY_LEN)%Z;
  mo_iv : length (os_iv (o_send o)) = IV_LEN;
}.
Record channel_ok (c : Channel) : Prop := {
  co_link : is_link_id (ch_link c);
  co_window : window_ok (ch_window c);
  co_flying : (Z.of_nat (length (ch_outstanding c)) ≤ MAX_FAST)%Z;
  co_messages : Forall message_ok (ch_outstanding c);
}.

(** The packet of a message in flight. *)
Definition packet_of (a : ActiveLink) (link : LinkId) (o : Outstanding) : list Z :=
  let s := o_send o in
  sealed_packet (link_packet_header link Data CtxChannel) (al_key a) (os_iv s)
    (envelope_bytes (os_message_type s) (os_sequence s) (os_body s)).

Definition again (rtt : Z) (flying : nat) (o : Outstanding) : Outstanding :=
  with_timeout (saturating_add 64 (os_sent_at (o_send o))
    (channel_retry_timeout_ms rtt (u8_add (o_tries o) 1) (Z.of_nat flying))) (with_tries (u8_add (o_tries o) 1) o).
Definition resent (rtt : Z) (sub : nat) (o : Outstanding) (c : Channel) : Channel :=
  with_window (shrink_on_loss (ch_window c))
    (stretch rtt (with_outstanding (<[sub := again rtt (length (ch_outstanding c)) o]> (ch_outstanding c)) c)).

(** Sealing it again gives the packet, as long as the link can carry it. *)
Lemma reseal_ok e lroom rows j row a o :
  links_ok (en_links e) lroom rows → rows !! j = Some row → lr_phase row = Active a → is_link_id (lr_id row) → message_ok o →
  reseal e (lr_id row) (os_message_type (o_send o)) (os_sequence (o_send o)) (os_body (o_send o)) (os_iv (o_send o))
    = Done (if (link_mdu (al_mtu a) <? Z.of_nat (6 + length (os_body (o_send o))))%Z then None
            else Some (packet_of a (lr_id row) o)).
Proof.
  intros Hl Hj Ha Hid [_ Hb Hiv]. unfold reseal. rewrite (phase_for_known _ _ _ _ _ _ Hl Hj eq_refl), Ha. cbn [mbind run_bind].
  pose proof (write_envelope_cap (os_message_type (o_send o)) (os_sequence (o_send o)) (os_body (o_send o))) as Henv.
  rewrite (proj2 (Z.ltb_ge _ _) Hb) in Henv. destruct Henv as (envelope & -> & Hslice). cbn [mbind run_bind].
  rewrite Hslice. cbn [mbind run_bind].
  destruct (frame_ok (lr_id row) (al_key a) (al_mtu a)
    (envelope_bytes (os_message_type (o_send o)) (os_sequence (o_send o)) (os_body (o_send o))) (os_iv (o_send o))
    (replicate BROADCAST_MTU 0%Z) Hid Hiv) as (frame & _ & Ef & Hf).
  rewrite Ef. cbn [mbind run_bind]. rewrite length_envelope_bytes, length_replicate in *.
  destruct (Z.ltb_spec (link_mdu (al_mtu a)) (Z.of_nat (6 + length (os_body (o_send o))))) as [|Hmdu]; [done|]. rewrite channel_body_len in Hb.
  assert (Hfit : HEADER_MIN_LEN + sealed_len (6 + length (os_body (o_send o))) ≤ BROADCAST_MTU).
  { unfold sealed_len. change HEADER_MIN_LEN with 19. change BROADCAST_MTU with 500. change IV_LEN with 16.
    change BLOCK_LEN with 16. change MAC_LEN with 32.
    pose proof (Nat.Div0.mul_div_le (6 + length (os_body (o_send o))) 16). lia. }
  rewrite (proj2 (Nat.ltb_ge _ _) Hfit). destruct (Hf Hmdu Hfit) as [-> _]. done.
Qed.

Context (transmits : InterfaceId → bool).

(** What a resend hands to the interfaces. *)
Definition resends (a : ActiveLink) (link : LinkId) (o : Outstanding) : list Reaction :=
  if ((link_mdu (al_mtu a) <? Z.of_nat (6 + length (os_body (o_send o))))%Z || negb (transmits (al_attached_interface a)))%bool then []
  else [SendFrame (al_attached_interface a) (packet_of a link o)].

Lemma copy_front_short {A} (xs src : list A) :
  length src ≤ length xs → copy_into xs 0 src = Done (src ++ drop (length src) xs).
Proof.
  intros Hl. rewrite <- (take_drop (length src) xs) at 1. apply copy_front. rewrite length_take. lia.
Qed.

(** One more try, counted and timed. *)
Lemma set_again_ok ch slots room chans i c rtt sub o :
  ct_rep ch slots room chans → chans !! i = Some c → ch_outstanding c !! sub = Some o →
  let n := u8_add (o_tries o) 1 in
  let flying := length (ch_outstanding c) in
  ∃ ch1 ch2 ch3, ct_set_outstanding_tries ch i sub n = Done ch1
    ∧ ct_outstanding_sent_at ch1 i sub = Done (os_sent_at (o_send o)) ∧ ct_outstanding_count ch1 i = Done flying
    ∧ ct_set_outstanding_timeout_at ch1 i sub
        (saturating_add 64 (os_sent_at (o_send o)) (channel_retry_timeout_ms rtt n (Z.of_nat flying))) = Done ch2
    ∧ stretch_channel_deadlines ch2 i rtt = Done ch3
    ∧ ct_rep ch3 slots room (<[i := stretch rtt (with_outstanding (<[sub := again rtt flying o]> (ch_outstanding c)) c)]> chans).
Proof.
  intros Hr Hi Ho n flying. pose proof (lookup_lt_Some _ _ _ Hi) as Hlt. pose proof (lookup_lt_Some _ _ _ Ho) as Hso.
  destruct (ct_set_tries_ok _ slots room chans i c sub o n Hr Hi Ho) as (ch1 & E1 & Hr1).
  pose proof (list_lookup_insert_eq chans i (with_outstanding (<[sub := with_tries n o]> (ch_outstanding c)) c) Hlt) as Hi1.
  pose proof (list_lookup_insert_eq (ch_outstanding c) sub (with_tries n o) Hso) as Ho1.
  destruct (ct_outstanding_ok _ slots room _ i _ sub _ Hr1 Hi1 Ho1) as (_ & Esent & _).
  destruct (ct_reads_ok _ slots room _ i _ Hr1 Hi1) as (_ & _ & _ & _ & _ & Ecount & _).
  cbn [ch_outstanding with_outstanding] in Ecount. rewrite length_insert in Ecount.
  destruct (ct_set_timeout_ok _ slots room _ i _ sub _ (saturating_add 64 (os_sent_at (o_send o))
    (channel_retry_timeout_ms rtt n (Z.of_nat flying))) Hr1 Hi1 Ho1) as (ch2 & E2 & Hr2).
  rewrite list_insert_insert_eq in Hr2. cbn [ch_outstanding with_outstanding] in Hr2. rewrite list_insert_insert_eq in Hr2.
  destruct (stretch_ok ch2 slots room _ i _ rtt Hr2 (list_lookup_insert_eq _ _ _ Hlt)) as (ch3 & E3 & Hr3).
  rewrite list_insert_insert_eq in Hr3. by exists ch1, ch2, ch3.
Qed.

Lemma retry_ok e lroom rows j row a slots room chans i c sub o :
  links_ok (en_links e) lroom rows → rows !! j = Some row → lr_phase row = Active a → lr_id row = ch_link c →
  ct_rep (en_channels e) slots room chans → chans !! i = Some c → ch_outstanding c !! sub = Some o → channel_ok c →
  ∃ e', retry_outstanding_send transmits e i sub (ch_link c) (al_rtt a) (al_attached_interface a) = Done (resends a (ch_link c) o, e')
    ∧ en_links e' = en_links e ∧ ct_rep (en_channels e') slots room (<[i := resent (al_rtt a) sub o c]> chans).
Proof.
  intros Hl Hj Ha Hid Hr Hi Ho [Hlid _ _ Hms]. pose proof (lookup_lt_Some _ _ _ Hi) as Hlt. pose proof (lookup_lt_Some _ _ _ Ho) as Hso.
  pose proof (Forall_lookup_1 _ _ _ _ Hms Ho) as Hm. unfold retry_outstanding_send. cbn zeta.
  destruct (ct_outstanding_ok _ slots room chans i c sub o Hr Hi Ho) as (_ & _ & _ & -> & -> & -> & -> & ->). cbn [mbind run_bind].
  pose proof (mo_body _ Hm) as Hb. rewrite channel_body_len in Hb |- *. change (Z.to_nat 425) with 425.
  rewrite copy_front_short by (rewrite length_replicate; lia). cbn [mbind run_bind]. rewrite slice_prefix by done. cbn [mbind run_bind].
  rewrite <- Hid in Hlid |- *. rewrite (reseal_ok e lroom rows j row a o) by done. cbn [mbind run_bind].
  destruct (set_again_ok _ slots room chans i c (al_rtt a) sub o Hr Hi Ho) as (ch1 & ch2 & ch3 & -> & E1 & E2 & E3 & E4 & Hr3).
  cbn [mbind run_bind]. rewrite E1. cbn [mbind run_bind]. rewrite E2. cbn [mbind run_bind]. rewrite E3. cbn [mbind run_bind].
  rewrite E4. cbn [mbind run_bind]. pose proof (list_lookup_insert_eq chans i
    (stretch (al_rtt a) (with_outstanding (<[sub := again (al_rtt a) (length (ch_outstanding c)) o]> (ch_outstanding c)) c)) Hlt) as Hi3.
  destruct (ct_reads_ok _ slots room _ i _ Hr3 Hi3) as (_ & _ & _ & _ & -> & _). cbn [mbind run_bind].
  destruct (ct_set_window_ok _ slots room _ i _ (shrink_on_loss (ch_window c)) Hr3 Hi3) as (ch4 & E5 & Hr4).
  cbn [ch_window stretch with_outstanding]. rewrite E5. cbn [mbind run_bind]. rewrite list_insert_insert_eq in Hr4.
  exists (mkEngine (en_links e) ch4). split; [|by split]. unfold resends. rewrite Hid. destruct (_ <? _)%Z; cbn; [done|]. by destruct (transmits _).
Qed.

(** * Due messages *)

Definition not_due (now : Z) (c : Channel) : Prop := Forall (λ o, (now < o_timeout o)%Z) (ch_outstanding c).

(** The cached earliest deadline says whether a message is due. *)
Lemma earliest_due now c :
  match earliest_of c with
  | Some at_ => if (at_ <=? now)%Z then Exists (λ o, (o_timeout o ≤ now)%Z) (ch_outstanding c) else not_due now c
  | None => not_due now c
  end.
Proof.
  unfold earliest_of, not_due. pose proof (minimum_spec (o_timeout <$> ch_outstanding c)) as Hm.
  destruct (minimum _) as [at_|].
  - destruct Hm as [Hin Hall]. rewrite list.Forall_fmap in Hall. destruct (Z.leb_spec at_ now).
    + apply list_elem_of_fmap in Hin as (o & -> & Ho). apply list.Exists_exists. eauto.
    + eapply list.Forall_impl; [exact Hall|]. cbn. lia.
  - apply fmap_nil_inv in Hm. by rewrite Hm.
Qed.

Lemma first_due_from_ok ch slots room chans now todo i :
  ct_rep ch slots room chans → i + todo = length chans →
  (∃ j c, first_due_from ch now todo i = Done (Some j) ∧ chans !! j = Some c
     ∧ Exists (λ o, (o_timeout o ≤ now)%Z) (ch_outstanding c))
  ∨ (first_due_from ch now todo i = Done None ∧ Forall (not_due now) (drop i chans)).
Proof.
  intros Hr. revert i. induction todo as [|todo IH]; intros i Hlen; cbn [first_due_from].
  { right. split; [done|]. rewrite drop_ge by lia. done. }
  destruct (lookup_lt_is_Some_2 chans i) as [c Hc]; [lia|].
  destruct (ct_reads_ok ch slots room chans i c Hr Hc) as (_ & _ & _ & _ & _ & _ & _ & ->). cbn [mbind run_bind].
  pose proof (earliest_due now c) as He. rewrite (drop_S _ _ _ Hc).
  assert (Hnext : not_due now c → (∃ j c, first_due_from ch now todo (S i) = Done (Some j) ∧ chans !! j = Some c
     ∧ Exists (λ o, (o_timeout o ≤ now)%Z) (ch_outstanding c))
    ∨ (first_due_from ch now todo (S i) = Done None ∧ Forall (not_due now) (c :: drop (S i) chans))).
  { intros Hn. destruct (IH (S i)) as [|[E Hall]]; [lia|by left|right]. split; [done|]. by constructor. }
  destruct (earliest_of c) as [at_|]; [|by apply Hnext]. destruct (at_ <=? now)%Z; [|by apply Hnext].
  left. by exists i, c.
Qed.

Lemma due_up_ok ch slots room chans i c now todo sub :
  ct_rep ch slots room chans → chans !! i = Some c → sub + todo = length (ch_outstanding c) →
  Exists (λ o, (o_timeout o ≤ now)%Z) (drop sub (ch_outstanding c)) →
  ∃ k o, due_up ch i now todo sub = Done (Some k) ∧ ch_outstanding c !! k = Some o ∧ (o_timeout o ≤ now)%Z.
Proof.
  intros Hr Hi. revert sub. induction todo as [|todo IH]; intros sub Hlen Hex; cbn [due_up].
  { rewrite drop_ge in Hex by lia. by inversion Hex. }
  destruct (lookup_lt_is_Some_2 (ch_outstanding c) sub) as [o Ho]; [lia|].
  destruct (ct_outstanding_ok ch slots room chans i c sub o Hr Hi Ho) as (_ & _ & -> & _). cbn [mbind run_bind].
  destruct (Z.leb_spec (o_timeout o) now); [by exists sub, o|]. apply IH; [lia|].
  rewrite (drop_S _ _ _ Ho) in Hex. apply List.Exists_cons in Hex as [|]; [lia|done].
Qed.

Lemma next_due_ok ch slots room chans now :
  ct_rep ch slots room chans →
  (∃ i c sub o, next_due_channel ch now = Done (Some (i, sub)) ∧ chans !! i = Some c
     ∧ ch_outstanding c !! sub = Some o ∧ (o_timeout o ≤ now)%Z)
  ∨ (next_due_channel ch now = Done None ∧ Forall (not_due now) chans).
Proof.
  intros Hr. unfold next_due_channel, first_due_channel. destruct (ct_len_ok ch slots room chans Hr) as [-> _].
  destruct (first_due_from_ok ch slots room chans now (length chans) 0 Hr) as [(i & c & -> & Hi & Hex)|[-> Hall]];
    [done| |by right]. left. cbn [mbind run_bind].
  destruct (ct_reads_ok ch slots room chans i c Hr Hi) as (_ & _ & _ & _ & _ & -> & _). cbn [mbind run_bind].
  destruct (due_up_ok ch slots room chans i c now (length (ch_outstanding c)) 0 Hr Hi) as (sub & o & -> & Ho & Hdue); [done..|].
  by exists i, c, sub, o.
Qed.

(** ** A step *)

Definition retired (sub : nat) (c : Channel) : Channel := with_outstanding (swap_removed (ch_outstanding c) sub) c.

Definition is_active (rows : list LinkRow) (link : LinkId) : Prop :=
  ∃ j row a, rows !! j = Some row ∧ lr_id row = link ∧ lr_phase row = Active a.

(** A step serves one due message [o] of one channel [c]. *)
Inductive serves_due (rows : list LinkRow) (now : Z) (chans : list Channel) : list Reaction → list Channel → Prop :=
  | ServesAgain i c sub o j row a :
      chans !! i = Some c → ch_outstanding c !! sub = Some o → (o_timeout o ≤ now)%Z →
      rows !! j = Some row → lr_id row = ch_link c → lr_phase row = Active a → (o_tries o < CHANNEL_MAX_TRIES)%Z →
      serves_due rows now chans (resends a (ch_link c) o) (<[i := resent (al_rtt a) sub o c]> chans)
  | ServesOrphan i c sub o :
      chans !! i = Some c → ch_outstanding c !! sub = Some o → (o_timeout o ≤ now)%Z →
      ¬ is_active rows (ch_link c) →
      serves_due rows now chans [CommandSettled (os_command_id (o_send o)) (Err SendTimeout)] (<[i := retired sub c]> chans).

(** A message that is due and has no tries left on an active link. *)
Definition exhausted (rows : list LinkRow) (now : Z) (chans : list Channel) (link : LinkId) : Prop :=
  is_active rows link ∧ ∃ c o, c ∈ chans ∧ ch_link c = link ∧ o ∈ ch_outstanding c ∧ (o_timeout o ≤ now)%Z
    ∧ (CHANNEL_MAX_TRIES ≤ o_tries o)%Z.

Lemma never_active l lroom rows j row :
  links_ok l lroom rows → rows !! j = Some row → (∀ a, lr_phase row ≠ Active a) → ¬ is_active rows (lr_id row).
Proof.
  intros Hl Hj Hn (k & row' & a & Hk & Hid & Ha).
  assert (j = k) as <- by (eapply lookup_unique; [exact (lo_rows _ _ _ Hl)|exact Hj|exact Hk|done]).
  apply (Hn a). congruence.
Qed.

Lemma serve_due_ok e lroom rows slots room chans now :
  links_ok (en_links e) lroom rows → ct_rep (en_channels e) slots room chans → Forall channel_ok chans →
  (serve_due_channel transmits e now = Done NothingDue ∧ Forall (not_due now) chans)
  ∨ (∃ link, serve_due_channel transmits e now = Done (TearsDown link) ∧ exhausted rows now chans link)
  ∨ (∃ reactions e' chans', serve_due_channel transmits e now = Done (Served reactions e')
       ∧ en_links e' = en_links e ∧ ct_rep (en_channels e') slots room chans' ∧ serves_due rows now chans reactions chans').
Proof.
  intros Hl Hr Hok. unfold serve_due_channel. cbn zeta.
  destruct (next_due_ok _ slots room chans now Hr) as [(i & c & sub & o & -> & Hi & Ho & Hdue)|[-> Hall]]; [|by left].
  right. cbn [mbind run_bind]. destruct (ct_reads_ok _ slots room chans i c Hr Hi) as (-> & _). cbn [mbind run_bind].
  destruct (ct_outstanding_ok _ slots room chans i c sub o Hr Hi Ho) as (Eid & _ & _ & -> & _). cbn [mbind run_bind].
  unfold classify_due_send.
  assert (Horphan : ¬ is_active rows (ch_link c) →
    ∃ reactions e' chans', (id ← ct_outstanding_command_id (en_channels e) i sub;
        ch ← ct_retire_outstanding (en_channels e) i sub;
        Done (Served [CommandSettled id (Err SendTimeout)] (mkEngine (en_links e) ch))) = Done (Served reactions e')
       ∧ en_links e' = en_links e ∧ ct_rep (en_channels e') slots room chans' ∧ serves_due rows now chans reactions chans').
  { intros Hno. rewrite Eid. cbn [mbind run_bind].
    destruct (ct_retire_ok _ slots room chans i c sub Hr Hi (lookup_lt_Some _ _ _ Ho)) as (ch' & -> & Hr'). cbn [mbind run_bind].
    eexists _, _, _. split; [done|]. split; [done|]. split; [exact Hr'|]. by eapply ServesOrphan. }
  destruct (phase_for_ok (en_links e) lroom rows (ch_link c) Hl) as [(j & row & -> & Hj & Hrow)|[-> Hnone]]; cbn [mbind run_bind].
  2: { right. apply Horphan. intros (j & row & a & Hj & Hid & _). apply Hnone, list_elem_of_fmap. exists row.
       split; [done|]. by eapply list_elem_of_lookup_2. }
  destruct (lr_phase row) as [p|h|a] eqn:Ep.
  - right. apply Horphan. rewrite <- Hrow. eapply never_active; [done|done|congruence].
  - right. apply Horphan. rewrite <- Hrow. eapply never_active; [done|done|congruence].
  - destruct (Z.leb_spec CHANNEL_MAX_TRIES (o_tries o)).
    + left. exists (ch_link c). split; [done|]. split; [by exists j, row, a|]. exists c, o. split; [by eapply list_elem_of_lookup_2|].
      split; [done|]. split; [by eapply list_elem_of_lookup_2|]. done.
    + right. destruct (retry_ok e lroom rows j row a slots room chans i c sub o) as (e' & -> & El & Hr'); try done.
      { by eapply Forall_lookup_1. }
      cbn [mbind run_bind]. eexists _, _, _. split; [done|]. split; [done|]. split; [exact Hr'|]. by eapply ServesAgain.
Qed.
End proofs.
