(* ===== verification/ChannelTimeouts.v ===== *)
(** What holds of a channel's sending side over a whole run: sends, delivery proofs and timeouts.

    Every change keeps the window and the messages in flight within their bounds; serving the due messages ends; a
    delivery proof settles exactly the message it names.  [ChannelTeardown] has the whole handlers. *)

From S2P Require Import Prelude Wire Token Dedup Columns Evidence Routes Channel ChannelTable ChannelTableFixed Links LinkData LinksInvariant LinksFixed LinksDue ChannelSend ChannelSendProofs.

(** * Each transition keeps a channel within its bounds *)

Lemma stretched_ok rtt n o : message_ok o → message_ok (stretched rtt n o).
Proof. intros [Ht Hb Hi]. unfold stretched. case_match; by split. Qed.

Lemma stretch_channel_ok rtt c : channel_ok c → channel_ok (stretch rtt c).
Proof.
  intros [Hl Hw Hf Hm]. split; cbn; [done|done|by rewrite length_fmap|].
  apply list.Forall_fmap. eapply list.Forall_impl; [exact Hm|]. intros o. apply stretched_ok.
Qed.

Lemma with_window_ok w c : window_ok w → channel_ok c → channel_ok (with_window w c).
Proof. intros Hw [Hl _ Hf Hm]. by split. Qed.

Lemma tuned_ok rtt c : channel_ok c → channel_ok (tuned rtt c).
Proof. intros Hc. unfold tuned. case_match; [|done]. apply with_window_ok; [apply for_rtt_ok|done]. Qed.

Lemma new_channel_ok link : is_link_id link → channel_ok (new_channel link).
Proof. intros Hl. split; cbn; [done|exact (for_rtt_ok 0)|unfold MAX_FAST; lia|done]. Qed.

Lemma opened_ok link chans : is_link_id link → Forall channel_ok chans → Forall channel_ok (opened link chans).
Proof.
  intros Hl Hc. unfold opened. case_decide; [done|]. apply Forall_app. split; [done|]. constructor; [|done]. by apply new_channel_ok.
Qed.

Lemma again_ok rtt n o : message_ok o → (o_tries o < CHANNEL_MAX_TRIES)%Z → message_ok (again rtt n o).
Proof.
  intros [Ht Hb Hi] Hlt. unfold CHANNEL_MAX_TRIES in *. split; cbn; [|done|done]. unfold CHANNEL_MAX_TRIES.
  rewrite u8_add_small; lia.
Qed.

Lemma resent_ok rtt sub o c :
  channel_ok c → ch_outstanding c !! sub = Some o → (o_tries o < CHANNEL_MAX_TRIES)%Z → channel_ok (resent rtt sub o c).
Proof.
  intros Hc Ho Hlt. destruct Hc as [Hl Hw Hf Hm]. apply with_window_ok; [by apply shrink_on_loss_ok|].
  apply stretch_channel_ok. split; cbn; [done|done|by rewrite length_insert|].
  apply Forall_insert; [done|]. apply again_ok; [|done]. by eapply Forall_lookup_1.
Qed.

Lemma retired_ok sub c : channel_ok c → sub < length (ch_outstanding c) → channel_ok (retired sub c).
Proof.
  intros [Hl Hw Hf Hm] Hsub. destruct (lookup_lt_is_Some_2 _ _ Hsub) as [o Ho].
  pose proof (swap_removed_perm _ _ _ Ho) as Hp. split; cbn; [done|done| |].
  - apply Permutation_length in Hp. cbn in Hp. lia.
  - rewrite <- Hp in Hm. by apply list.Forall_cons in Hm as [_ Hm].
Qed.

Section proofs.
Context {L C : Type} `{LinkTableLaws L, ChannelTableLaws C, TokenCryptoLaws, Sha256}.
Implicit Types (e : Engine L C).

Lemma sent_ok room a id send now iv c buffer n :
  channel_ok c → length iv = IV_LEN → send_verdict room a c send buffer = Ok n → channel_ok (sent a id send now iv c).
Proof.
  intros [Hl Hw Hf Hm] Hiv Hv. unfold send_verdict in Hv. apply stretch_channel_ok.
  destruct (Nat.leb_spec (in_flight_count_limit (ch_window c)) (length (ch_outstanding c))) as [|Hroom]; [done|].
  destruct (Z.ltb_spec MAX_SEND_TO_CHANNEL_BODY_LEN (Z.of_nat (length (sc_body send)))) as [|Hbody]; [done|].
  split; cbn; [done|done| |].
  - rewrite length_app. cbn. pose proof (wo_size _ Hw). pose proof (wo_max _ Hw).
    unfold in_flight_count_limit in Hroom. lia.
  - apply Forall_app. split; [done|]. constructor; [|done]. by split.
Qed.

(** * Delivery proofs *)

(** The channel once the message at [sub] is proved delivered. *)
Definition acked (rtt : Z) (sub : nat) (c : Channel) : Channel :=
  with_window (grow_on_ack (ch_window c) rtt) (retired sub c).

Lemma acked_ok rtt sub c : channel_ok c → sub < length (ch_outstanding c) → channel_ok (acked rtt sub c).
Proof. intros Hc Hsub. apply with_window_ok; [apply grow_on_ack_ok, Hc|by apply retired_ok]. Qed.

Definition is_active_as (rows : list LinkRow) (link : LinkId) (a : ActiveLink) : Prop :=
  ∃ j row, rows !! j = Some row ∧ lr_id row = link ∧ lr_phase row = Active a.

(** The message a proof names, on an active link whose peer signs with the key it was checked against. *)
Definition named_by (rows : list LinkRow) (chans : list Channel) (owed : ChannelAckVerifyOwed) (a : ActiveLink)
    (i : nat) (c : Channel) (sub : nat) (o : Outstanding) : Prop :=
  chans !! i = Some c ∧ ch_link c = ao_link_id owed ∧ ch_outstanding c !! sub = Some o
  ∧ os_packet_hash (o_send o) = ao_packet_hash owed
  ∧ is_active_as rows (ao_link_id owed) a
  ∧ al_peer_signing a = ao_signing_key owed.

(** The handle on the route that a link keeps. *)
Definition evidence_of (p : LinkPhase) : option RouteEvidenceHandle :=
  match p with Active a => al_route_evidence a | _ => None end.
Definition same_evidence (rows rows' : list LinkRow) : Prop :=
  (λ r, evidence_of (lr_phase r)) <$> rows' = (λ r, evidence_of (lr_phase r)) <$> rows.

Definition settlement_of (owed : ChannelAckVerifyOwed) (o : Outstanding) : Reaction :=
  CommandSettled (os_command_id (o_send o))
    (Ok (mkDelivered (measured_between (os_sent_at (o_send o)) (ao_arrived_at owed)) (ByProof (ao_proof owed)))).

(** Retiring the message: what the tail of the handler does. *)
Lemma ack_tail_ok e lroom rows slots room chans owed a i c sub o :
  links_ok (en_links e) lroom rows → ct_rep (en_channels e) slots room chans →
  chans !! i = Some c → ch_outstanding c !! sub = Some o →
  ∃ e' rows', (command_id ← ct_outstanding_command_id (en_channels e) i sub;
      sent_at ← ct_outstanding_sent_at (en_channels e) i sub;
      ch ← ct_retire_outstanding (en_channels e) i sub;
      window ← ct_window ch i;
      ch ← ct_set_window ch i (grow_on_ack window (al_rtt a));
      links ← note_inbound (en_links e) (ao_link_id owed) (ao_arrived_at owed);
      Done ([CommandSettled command_id (Ok (mkDelivered (measured_between sent_at (ao_arrived_at owed)) (ByProof (ao_proof owed))))],
            mkEngine links ch)) = Done ([settlement_of owed o], e')
    ∧ links_ok (en_links e') lroom rows' ∧ link_step rows rows' ∧ same_evidence rows rows'
    ∧ ct_rep (en_channels e') slots room (<[i := acked (al_rtt a) sub c]> chans).
Proof.
  intros Hl Hr Hi Ho. pose proof (lookup_lt_Some _ _ _ Hi) as Hlt.
  destruct (ct_outstanding_ok _ slots room chans i c sub o Hr Hi Ho) as (-> & -> & _). cbn [mbind run_bind].
  destruct (ct_retire_ok _ slots room chans i c sub Hr Hi (lookup_lt_Some _ _ _ Ho)) as (ch1 & -> & Hr1). cbn [mbind run_bind].
  pose proof (list_lookup_insert_eq chans i (retired sub c) Hlt) as Hi1.
  destruct (ct_reads_ok ch1 slots room _ i (retired sub c) Hr1 Hi1) as (_ & _ & _ & _ & -> & _). cbn [mbind run_bind].
  destruct (ct_set_window_ok ch1 slots room _ i _ (grow_on_ack (ch_window c) (al_rtt a)) Hr1 Hi1) as (ch2 & E2 & Hr2).
  change (ch_window (retired sub c)) with (ch_window c). rewrite E2. cbn [mbind run_bind]. rewrite list_insert_insert_eq in Hr2.
  destruct (retime_kept evidence_of (en_links e) lroom rows (ao_link_id owed) (inbound_at (ao_arrived_at owed)) Hl) as (l' & rows' & E3 & Hl' & Hs & He).
  { intros b. apply inbound_same. }
  { intros b. cbn. unfold inbound_at. destruct (al_route_evidence b) eqn:Eb; cbn; by rewrite ?Eb. }
  unfold note_inbound. rewrite E3. cbn [mbind run_bind]. by exists (mkEngine l' ch2), rows'.
Qed.

Lemma resume_ack_ok e lroom rows slots room chans owed verification :
  links_ok (en_links e) lroom rows → ct_rep (en_channels e) slots room chans →
  (resume_channel_ack_verify e owed verification = Done ([], e)
     ∧ (verification = Invalid ∨ ∀ a i c sub o, ¬ named_by rows chans owed a i c sub o))
  ∨ (verification = Valid ∧ ∃ a i c sub o e' rows', named_by rows chans owed a i c sub o
     ∧ resume_channel_ack_verify e owed verification = Done ([settlement_of owed o], e')
     ∧ links_ok (en_links e') lroom rows' ∧ link_step rows rows' ∧ same_evidence rows rows'
     ∧ ct_rep (en_channels e') slots room (<[i := acked (al_rtt a) sub c]> chans)).
Proof.
  intros Hl Hr. unfold resume_channel_ack_verify. destruct verification; [|by left; split; [|left]]. cbn zeta.
  destruct (ct_index_of_ok _ slots room chans (ao_link_id owed) Hr) as [(i & c & -> & Hi & Hc)|[-> Hn]]; cbn [mbind run_bind].
  2: { left. split; [done|]. right. intros a i c sub o (Hi & Hc & _). apply Hn, list_elem_of_fmap. exists c.
       split; [done|]. by eapply list_elem_of_lookup_2. }
  destruct (ct_reads_ok _ slots room chans i c Hr Hi) as (_ & _ & _ & _ & Ew & _ & -> & _). cbn [mbind run_bind].
  assert (Hsame : ∀ k d, chans !! k = Some d → ch_link d = ao_link_id owed → k = i ∧ d = c).
  { intros k d Hk Hd. assert (k = i) as ->; [|split; [done|congruence]].
    eapply NoDup_lookup; [exact (ct_links_ok _ _ _ _ Hr)| |]; rewrite list_lookup_fmap; [by rewrite Hk|by rewrite Hi; cbn; congruence]. }
  destruct (list_find _ _) as [[sub h]|] eqn:Ef.
  2: { left. split; [done|]. right. intros a k d sub o (Hk & Hd & Ho & Hh & _). destruct (Hsame k d Hk Hd) as [-> ->].
       apply list_find_None in Ef. rewrite list.Forall_forall in Ef. apply (Ef (os_packet_hash (o_send o))); [|done].
       apply list_elem_of_fmap. exists o. split; [done|]. by eapply list_elem_of_lookup_2. }
  apply list_find_Some in Ef as (Hsub & Hh & _). rewrite list_lookup_fmap in Hsub.
  destruct (ch_outstanding c !! sub) as [o|] eqn:Ho; [|done]. cbn in Hsub. injection Hsub as Hh'.
  assert (Hnot : (∀ a, is_active_as rows (ao_link_id owed) a → al_peer_signing a ≠ ao_signing_key owed) →
    ∀ a i c sub o, ¬ named_by rows chans owed a i c sub o).
  { intros Hkey b k d sub' o' (_ & _ & _ & _ & Hact & Hk). by apply (Hkey b). }
  destruct (phase_for_ok (en_links e) lroom rows (ao_link_id owed) Hl) as [(j & row & -> & Hj & Hrow)|[-> Hnone]]; cbn [mbind run_bind].
  2: { left. split; [done|]. right. apply Hnot. intros a (j & row & Hj & Hid & _) _. apply Hnone, list_elem_of_fmap. exists row.
       split; [done|]. by eapply list_elem_of_lookup_2. }
  assert (Honly : ∀ a, is_active_as rows (ao_link_id owed) a → lr_phase row = Active a).
  { intros a (k & row' & Hk & Hid & Ha). assert (j = k) as <-; [|congruence].
    eapply lookup_unique; [exact (lo_rows _ _ _ Hl)|exact Hj|exact Hk|congruence]. }
  destruct (lr_phase row) as [p|hs|a] eqn:Ep;
    [left; split; [done|]; right; apply Hnot; intros a Ha; by specialize (Honly a Ha)..|].
  case_decide as Hkey.
  2: { left. split; [done|]. right. apply Hnot. intros b Hb. specialize (Honly b Hb). congruence. }
  right. split; [done|]. destruct (ack_tail_ok e lroom rows slots room chans owed a i c sub o Hl Hr Hi Ho) as (e' & rows' & E & Hl' & Hs & He & Hr').
  exists a, i, c, sub, o, e', rows'. split; [|done]. split; [done|]. split; [done|]. split; [done|]. split; [congruence|].
  split; [by exists j, row|done].
Qed.

Lemma sends_of_at chans i c :
  NoDup (ch_link <$> chans) → chans !! i = Some c → sends_of (ch_link c) chans = (ch_next_tx c, ch_outstanding c).
Proof. intros Hnd Hi. unfold sends_of, channel_of. by rewrite (find_key_at ch_link chans i c Hnd Hi). Qed.

Definition hash_of (o : Outstanding) : list Z := os_packet_hash (o_send o).

(** A proof whose message is gone names nothing. *)
Lemma not_named rows chans owed a i c sub o :
  NoDup (ch_link <$> chans) → (ao_packet_hash owed ∉ hash_of <$> (sends_of (ao_link_id owed) chans).2) →
  ¬ named_by rows chans owed a i c sub o.
Proof.
  intros Hnd Hn (Hi & Hc & Ho & Hh & _). apply Hn. rewrite <- Hc, (sends_of_at chans i c Hnd Hi). cbn.
  apply list_elem_of_fmap. exists o. split; [done|]. by eapply list_elem_of_lookup_2.
Qed.

(** A delivery proof settles exactly the message it names: a proof that does not verify, or that names no
    message in flight on an active link with the key it was checked against, changes nothing; a valid one settles
    the one command of the message with that packet hash as delivered, takes that message alone out of flight and
    leaves the numbers and every other channel as they were; a second copy of the proof then settles nothing. *)
Theorem a_proof_settles_one_send e lroom rows slots room chans owed verification :
  links_ok (en_links e) lroom rows → ct_rep (en_channels e) slots room chans →
  ∃ reactions e' rows' chans', resume_channel_ack_verify e owed verification = Done (reactions, e')
    ∧ links_ok (en_links e') lroom rows' ∧ ct_rep (en_channels e') slots room chans'
    ∧ ((reactions = [] ∧ e' = e ∧ (verification = Invalid ∨ ∀ a i c sub o, ¬ named_by rows chans owed a i c sub o))
       ∨ (∃ o, hash_of o = ao_packet_hash owed ∧ reactions = [settlement_of owed o]
            ∧ (sends_of (ao_link_id owed) chans).2 ≡ₚ o :: (sends_of (ao_link_id owed) chans').2
            ∧ (sends_of (ao_link_id owed) chans').1 = (sends_of (ao_link_id owed) chans).1
            ∧ (∀ link, link ≠ ao_link_id owed → sends_of link chans' = sends_of link chans)
            ∧ (NoDup (hash_of <$> (sends_of (ao_link_id owed) chans).2) →
               resume_channel_ack_verify e' owed verification = Done ([], e')))).
Proof.
  intros Hl Hr. pose proof (ct_links_ok _ _ _ _ Hr) as Hnd.
  destruct (resume_ack_ok e lroom rows slots room chans owed verification Hl Hr)
    as [[E Hno]|(-> & a & i & c & sub & o & e' & rows' & Hn & E & Hl' & _ & _ & Hr')].
  { exists [], e, rows, chans. split; [done|]. split; [done|]. split; [done|]. by left. }
  pose proof (ct_links_ok _ _ _ _ Hr') as Hnd'. destruct Hn as (Hi & Hc & Ho & Hh & _).
  eexists _, e', rows', _. split; [exact E|]. split; [done|]. split; [exact Hr'|]. right. exists o. split; [done|]. split; [done|].
  pose proof (λ link, sends_of_insert link chans i c (acked (al_rtt a) sub c) Hnd Hi eq_refl) as Hs.
  pose proof (Hs (ao_link_id owed)) as Hs'. rewrite decide_True in Hs' by done. cbn in Hs'.
  pose proof (sends_of_at chans i c Hnd Hi) as Hs0. rewrite Hc in Hs0. pose proof (swap_removed_perm _ _ _ Ho) as Hp.
  rewrite Hs', Hs0. cbn [fst snd]. split; [by rewrite Hp|]. split; [done|]. split.
  { intros link Hne. rewrite Hs, decide_False; [done|]. congruence. }
  intros Hdup. destruct (resume_ack_ok e' lroom rows' slots room _ owed Valid Hl' Hr') as [[E' _]|(_ & b & k & d & sub' & o' & ? & ? & Hn & _)]; [done|].
  destruct (not_named rows' (<[i:=acked (al_rtt a) sub c]> chans) owed b k d sub' o' Hnd'); [|done].
  rewrite Hs'. cbn [snd]. rewrite <- Hp in Hdup. cbn in Hdup. apply list.NoDup_cons in Hdup as [Hdup _]. by rewrite <- Hh.
Qed.

(** * Serving the due messages *)

Context (transmits : InterfaceId → bool).

(** The tries left to the messages in flight. *)
Definition tries_left (o : Outstanding) : nat := Z.to_nat (1 + CHANNEL_MAX_TRIES - o_tries o).
Definition budget (chans : list Channel) : nat := sum_list_with (λ c, sum_list_with tries_left (ch_outstanding c)) chans.

Lemma sum_insert {A} (f : A → nat) (xs : list A) i x y :
  xs !! i = Some x → sum_list_with f (<[i := y]> xs) + f x = sum_list_with f xs + f y.
Proof.
  revert i. induction xs as [|z xs IH]; intros [|i] Hi; cbn in *; [done..|injection Hi as ->; lia|].
  specialize (IH i Hi). change (f z + sum_list_with f (<[i := y]> xs) + f x = f z + sum_list_with f xs + f y). lia.
Qed.

Lemma sum_stretched rtt n os : sum_list_with tries_left (stretched rtt n <$> os) = sum_list_with tries_left os.
Proof.
  induction os as [|o os IH]; cbn; [done|]. f_equal; [|exact IH]. unfold tries_left.
  destruct (stretched_same rtt n o) as (-> & _). done.
Qed.

(** A step uses one of them up. *)
Lemma serves_due_budget rows now chans reactions chans' :
  Forall channel_ok chans → serves_due transmits rows now chans reactions chans' → budget chans' < budget chans.
Proof.
  intros Hok Hs. unfold budget. destruct Hs as [i c sub o j row a Hi Ho _ _ _ _ Hlt|i c sub o Hi Ho _ _].
  - pose proof (sum_insert (λ c, sum_list_with tries_left (ch_outstanding c)) chans i c (resent (al_rtt a) sub o c) Hi) as E.
    cbn in E. rewrite sum_stretched in E.
    pose proof (sum_insert tries_left (ch_outstanding c) sub o (again (al_rtt a) (length (ch_outstanding c)) o) Ho) as E'.
    assert (tries_left (again (al_rtt a) (length (ch_outstanding c)) o) < tries_left o); [|lia].
    pose proof (mo_tries _ (Forall_lookup_1 _ _ _ _ (co_messages _ (Forall_lookup_1 _ _ _ _ Hok Hi)) Ho)).
    unfold tries_left, again, CHANNEL_MAX_TRIES in *. cbn. rewrite u8_add_small by lia. lia.
  - pose proof (sum_insert (λ c, sum_list_with tries_left (ch_outstanding c)) chans i c (retired sub c) Hi) as E.
    cbn in E. pose proof (swap_removed_perm _ _ _ Ho) as Hp.
    assert (E' : sum_list_with tries_left (o :: swap_removed (ch_outstanding c) sub) = sum_list_with tries_left (ch_outstanding c)) by (by rewrite Hp).
    cbn in E'. pose proof (mo_tries _ (Forall_lookup_1 _ _ _ _ (co_messages _ (Forall_lookup_1 _ _ _ _ Hok Hi)) Ho)).
    assert (0 < tries_left o) by (unfold tries_left; lia). lia.
Qed.

Lemma serves_due_ok rows now chans reactions chans' :
  Forall channel_ok chans → serves_due transmits rows now chans reactions chans' → Forall channel_ok chans'.
Proof.
  intros Hok [i c sub o j row a Hi Ho _ _ _ _ Hlt|i c sub o Hi Ho _ _]; apply Forall_insert; try done.
  - apply resent_ok; [by eapply Forall_lookup_1|done|done].
  - apply retired_ok; [by eapply Forall_lookup_1|]. by eapply lookup_lt_Some.
Qed.

Inductive serving (rows : list LinkRow) (now : Z) : list Channel → list Reaction → list Channel → Prop :=
  | ServingEnds chans : serving rows now chans [] chans
  | ServingOne chans reactions chans1 more chans2 :
      serves_due transmits rows now chans reactions chans1 → serving rows now chans1 more chans2 →
      serving rows now chans (reactions ++ more) chans2.

(** C13. Serving the due channel messages ends: within the tries left to the messages in flight, the loop has served
    due messages one by one (each sent again byte for byte on its active link with one more try and a smaller
    window, or settled as timed out when its link is gone) until no message is due, or it has met a due message
    with no tries left on an active link, whose link it tears down. *)
Theorem due_messages_are_served fuel e lroom rows slots room chans now :
  links_ok (en_links e) lroom rows → ct_rep (en_channels e) slots room chans → Forall channel_ok chans → budget chans < fuel →
  ∃ reactions e' torn chans', serve_due_channels transmits fuel e now = Done (Some (reactions, e', torn))
    ∧ en_links e' = en_links e ∧ ct_rep (en_channels e') slots room chans' ∧ Forall channel_ok chans'
    ∧ serving rows now chans reactions chans'
    ∧ match torn with None => Forall (not_due now) chans' | Some link => exhausted rows now chans' link end.
Proof.
  revert e chans. induction fuel as [|fuel IH]; intros e chans Hl Hr Hok Hf; [lia|]. cbn [serve_due_channels].
  destruct (serve_due_ok transmits e lroom rows slots room chans now Hl Hr Hok)
    as [[-> Hn]|[(link & -> & Hx)|(reactions & e1 & chans1 & -> & El & Hr1 & Hs)]]; cbn [mbind run_bind].
  - exists [], e, None, chans. repeat split; try done. constructor.
  - exists [], e, (Some link), chans. split; [done|]. split; [done|]. split; [done|]. split; [done|]. split; [constructor|done].
  - pose proof (serves_due_budget _ _ _ _ _ Hok Hs) as Hb. pose proof (serves_due_ok _ _ _ _ _ Hok Hs) as Hok1.
    destruct (IH e1 chans1) as (more & e2 & torn & chans2 & -> & El2 & Hr2 & Hok2 & Hs2 & Ht); [by rewrite El|done|done|lia|].
    cbn [mbind run_bind]. exists (reactions ++ more), e2, torn, chans2. split; [done|]. split; [congruence|].
    split; [done|]. split; [done|]. split; [|done]. by econstructor.
Qed.

Record engine_ok e lroom slots room rows chans : Prop := {
  eo_links : links_ok (en_links e) lroom rows;
  eo_channels : ct_rep (en_channels e) slots room chans;
  eo_bounds : Forall channel_ok chans;
}.
End proofs.

(** * A sender *)

Module SampleSender.
#[global] Instance sha : Sha256 := toy_sha256.
#[global] Instance table_ops : ChannelTable FixedArrayChannelTable := fixed_channels (SLOTS := 2) (REORDER_CAP := 64) (MAX_PAYLOAD := 4).
#[global] Instance table_laws : ChannelTableLaws FixedArrayChannelTable := fixed_channels_laws (SLOTS := 2) (REORDER_CAP := 64) (MAX_PAYLOAD := 4).
Definition room : nat → nat → bool := cell_free (REORDER_CAP := 64) (MAX_PAYLOAD := 4).
Definition Sender := Engine FixedLinkTable FixedArrayChannelTable.

(** Links 1 and 2 of [SampleLinks] are active. *)
Definition engine : Sender := mkEngine SampleLinks.links (channels_default (SLOTS := 2) (REORDER_CAP := 64) (MAX_PAYLOAD := 4)).
Definition iv (n : Z) : list Z := replicate 16 n.
Definition buf : list Z := replicate 500 0%Z.
Definition message (link : Z) (body : list Z) : SendToChannel := mkSendTo (SampleLinks.id link) 7 body.
Definition transmits (_ : InterfaceId) : bool := true.

Lemma engine_sample_ok : ∃ rows, engine_ok engine SampleLinks.room 2 room rows [].
Proof.
  destruct SampleLinks.links_sample_ok as [rows Hl]. exists rows. split; [exact Hl| |constructor].
  exact (channels_default_rep (SLOTS := 2) (REORDER_CAP := 64) (MAX_PAYLOAD := 4)).
Qed.
Lemma link_id_ok n : is_u8 n → is_link_id (SampleLinks.id n).
Proof. intros Hn. split; [done|]. by apply Forall_replicate. Qed.

(** A message sent on link 1, and the engine after it. *)
Definition first_send : run (result SendToChannelWriteError nat * Sender * list Z) :=
  write_commanded_send_to_channel engine 41 (message 1 [1; 2; 3]%Z) 1000 (iv 5) buf.
Definition sending : Sender := match first_send with Done (_, e, _) => e | _ => engine end.

Lemma sending_ok : ∃ rows c, engine_ok sending SampleLinks.room 2 room rows [c] ∧ budget [c] = 6.
Proof.
  destruct engine_sample_ok as (rows & [Hl Hr _]).
  pose proof (link_id_ok 1 ltac:(width)) as Hid.
  destruct (send_effect engine SampleLinks.room rows 2 room [] 41 (message 1 [1; 2; 3]%Z) 1000 (iv 5) buf Hl Hr Hid eq_refl)
    as (r & e' & buf' & E & _ & Hor).
  assert (Er : r = Ok 83 ∧ sending = e').
  { unfold sending, first_send. rewrite E. split; [|done].
    assert (E' : match first_send with Done (r, _, _) => Some r | _ => None end = Some (Ok 83)) by (vm_compute; reflexivity).
    unfold first_send in E'. rewrite E in E'. by injection E'. }
  destruct Er as [-> Es]. destruct Hor as [[_ [err [=]]]|(j & row & a & i & c & _ & _ & _ & D)]. destruct D as [Hi Hc El Hv Hr' _].
  assert (Ho : opened (sc_link_id (message 1 [1; 2; 3]%Z)) [] = [new_channel (SampleLinks.id 1)]) by reflexivity.
  rewrite Ho in Hi, Hr'. destruct i as [|[|i]]; [|discriminate Hi|discriminate Hi]. injection Hi as <-.
  exists rows, (sent a 41 (message 1 [1; 2; 3]%Z) 1000 (iv 5) (tuned (al_rtt a) (new_channel (SampleLinks.id 1)))).
  split; [rewrite Es; split; [by rewrite El|exact Hr'|]|].
  - constructor; [|constructor]. eapply sent_ok; [apply tuned_ok, new_channel_ok; exact Hid|reflexivity|symmetry; exact Hv].
  - unfold budget. cbn [sum_list_with]. unfold sent, stretch. cbn [ch_outstanding with_outstanding]. rewrite sum_stretched. reflexivity.
Qed.

Definition owed : ChannelAckVerifyOwed :=
  mkAckOwed (SampleLinks.id 1) (take 32 ([12%Z] ++ SampleLinks.id 1 ++ [14%Z] ++ iv 5)) [9%Z] [] (Explicit []) 1200.
End SampleSender.

(** A first message, and one on a link that is still pending. *)
Lemma a_send_uses_one_number_witness :
  (∃ e' buf' chans', SampleSender.first_send = Done (Ok 83, e', buf')
     ∧ ct_rep (en_channels e') 2 SampleSender.room chans'
     ∧ (sends_of (SampleLinks.id 1) chans').1 = 1%Z ∧ length (sends_of (SampleLinks.id 1) chans').2 = 1)
  ∧ (∃ e' buf' chans', write_commanded_send_to_channel SampleSender.engine 42 (SampleSender.message 3 [1%Z]) 1000 (SampleSender.iv 5) SampleSender.buf
       = Done (Err LinkVanished, e', buf') ∧ ct_rep (en_channels e') 2 SampleSender.room chans'
     ∧ sends_of (SampleLinks.id 3) chans' = (0%Z, [])).
Proof.
  destruct SampleSender.engine_sample_ok as (rows & [Hl Hr _]). split.
  - destruct (a_send_uses_one_number SampleSender.engine SampleLinks.room rows 2 SampleSender.room [] 41 (SampleSender.message 1 [1; 2; 3]%Z) 1000
      (SampleSender.iv 5) SampleSender.buf Hl Hr (SampleSender.link_id_ok 1 ltac:(width)) eq_refl) as (r & e' & buf' & chans' & E & _ & Hr' & Hm).
    assert (Er : r = Ok 83).
    { assert (E' : match SampleSender.first_send with Done (r, _, _) => Some r | _ => None end = Some (Ok 83)) by (vm_compute; reflexivity).
      unfold SampleSender.first_send in E'. rewrite E in E'. by injection E'. }
    subst r. exists e', buf', chans'. split; [exact E|]. split; [exact Hr'|]. destruct Hm as (i & row & a & _ & _ & _ & _ & Hs).
    rewrite (Hs (SampleLinks.id 1)). split; reflexivity.
  - destruct (a_send_uses_one_number SampleSender.engine SampleLinks.room rows 2 SampleSender.room [] 42 (SampleSender.message 3 [1%Z]) 1000
      (SampleSender.iv 5) SampleSender.buf Hl Hr (SampleSender.link_id_ok 3 ltac:(width)) eq_refl) as (r & e' & buf' & chans' & E & _ & Hr' & Hm).
    assert (Er : r = Err LinkVanished).
    { assert (E' : match write_commanded_send_to_channel SampleSender.engine 42 (SampleSender.message 3 [1%Z]) 1000 (SampleSender.iv 5) SampleSender.buf
        with Done (r, _, _) => Some r | _ => None end = Some (Err LinkVanished)) by (vm_compute; reflexivity).
      rewrite E in E'. by injection E'. }
    subst r. exists e', buf', chans'. split; [exact E|]. split; [exact Hr'|]. rewrite (Hm (SampleLinks.id 3)). reflexivity.
Defined.

(** The proof of the message in flight, 200 milliseconds after it was sent. *)
Lemma a_proof_settles_one_send_witness :
  ∃ e' rows' chans', resume_channel_ack_verify SampleSender.sending SampleSender.owed Valid
      = Done ([CommandSettled 41 (Ok (mkDelivered 200 (ByProof (Explicit []))))], e')
    ∧ links_ok (en_links e') SampleLinks.room rows' ∧ ct_rep (en_channels e') 2 SampleSender.room chans'.
Proof.
  destruct SampleSender.sending_ok as (rows & c & [Hl Hr _] & _).
  destruct (a_proof_settles_one_send SampleSender.sending SampleLinks.room rows 2 SampleSender.room [c] SampleSender.owed Valid Hl Hr)
    as (reactions & e' & rows' & chans' & E & Hl' & Hr' & _).
  assert (Er : reactions = [CommandSettled 41 (Ok (mkDelivered 200 (ByProof (Explicit []))))]).
  { assert (E' : match resume_channel_ack_verify SampleSender.sending SampleSender.owed Valid with Done (r, _) => Some r | _ => None end
      = Some [CommandSettled 41 (Ok (mkDelivered 200 (ByProof (Explicit []))))]) by (vm_compute; reflexivity).
    rewrite E in E'. by injection E'. }
  subst reactions. exists e', rows', chans'. split; [exact E|]. split; [exact Hl'|exact Hr'].
Defined.

(** Without a proof: one resend by 1300, and five before the link is torn down. *)
Lemma due_messages_are_served_witness :
  (∃ reactions e' chans', serve_due_channels SampleSender.transmits 7 SampleSender.sending 1300 = Done (Some (reactions, e', None))
     ∧ length reactions = 1 ∧ ct_rep (en_channels e') 2 SampleSender.room chans' ∧ Forall (not_due 1300) chans')
  ∧ (∃ rows reactions e' chans', serve_due_channels SampleSender.transmits 7 SampleSender.sending 100000
       = Done (Some (reactions, e', Some (SampleLinks.id 1)))
     ∧ length reactions = 5 ∧ exhausted rows 100000 chans' (SampleLinks.id 1)).
Proof.
  destruct SampleSender.sending_ok as (rows & c & [Hl Hr Hok] & Hb). assert (Hfuel : budget [c] < 7) by lia. split.
  - destruct (due_messages_are_served SampleSender.transmits 7 SampleSender.sending SampleLinks.room rows 2 SampleSender.room [c] 1300 Hl Hr Hok Hfuel)
      as (reactions & e' & torn & chans' & E & _ & Hr' & _ & _ & Ht).
    assert (E' : match serve_due_channels SampleSender.transmits 7 SampleSender.sending 1300 with
      | Done (Some (r, _, t)) => Some (length r, t) | _ => None end = Some (1, None)) by (vm_compute; reflexivity).
    rewrite E in E'. injection E' as Hlen ->. exists reactions, e', chans'. split; [exact E|]. split; [exact Hlen|]. split; [exact Hr'|exact Ht].
  - destruct (due_messages_are_served SampleSender.transmits 7 SampleSender.sending SampleLinks.room rows 2 SampleSender.room [c] 100000 Hl Hr Hok Hfuel)
      as (reactions & e' & torn & chans' & E & _ & _ & _ & _ & Ht).
    assert (E' : match serve_due_channels SampleSender.transmits 7 SampleSender.sending 100000 with
      | Done (Some (r, _, t)) => Some (length r, t) | _ => None end = Some (5, Some (SampleLinks.id 1))) by (vm_compute; reflexivity).
    rewrite E in E'. injection E' as Hlen ->. exists rows, reactions, e', chans'. split; [exact E|]. split; [exact Hlen|exact Ht].
Defined.
