(* ===== verification/Announce.v ===== *)
(** Announces: [prns-core/src/routing/announce/id.rs], [stored/core.rs],
    [stored/impls/fixed_array_announce_record_table.rs],
    [stored/impls/fixed_announce_id_history.rs].

    The id of an announce (a nonce and the origin's clock), the table of stored announces, which
    advances row for row with the route table, and the bounded history of the ids heard for each
    route.  The two storage traits are classes with contracts; the fixed arrays are instances. *)

From S2P Require Import Prelude AppData Columns Routes.

(** * [AnnounceId] *)

Definition ANNOUNCE_ID_WIRE_LEN : nat := 10.
Definition NONCE_LEN : nat := 5.
Definition TIMEBASE_LEN : nat := 5.

Record AnnounceId := mkAnnounceId { nonce : list Z; timebase : list Z }.
#[global] Instance AnnounceId_eq_dec : EqDecision AnnounceId.
Proof. solve_decision. Defined.

Definition TIMEBASE_ZERO : list Z := replicate TIMEBASE_LEN 0%Z.

(** [MonotonicTimebase::as_count] *)
Definition as_count (timebase : list Z) : Z := from_be_bytes (replicate 3 0%Z ++ timebase).

Definition mint (announce_entropy : list Z) (now : InstantMillis) : AnnounceId :=
  let emitted_seconds := (now / 1000)%Z in
  mkAnnounceId announce_entropy (drop (8 - TIMEBASE_LEN) (to_be_bytes 8 emitted_seconds)).

Definition AnnounceId_from_wire (bytes : list Z) : AnnounceId :=
  mkAnnounceId (take NONCE_LEN bytes) (drop NONCE_LEN bytes).
Definition to_wire_bytes (id : AnnounceId) : list Z := nonce id ++ timebase id.

(** The derived [Ord] of [[u8; 5]]: lexicographic. *)
Fixpoint bytes_cmp (a b : list Z) : comparison :=
  match a, b with
  | [], [] => Eq
  | [], _ :: _ => Lt
  | _ :: _, [] => Gt
  | x :: a, y :: b => match Z.compare x y with Eq => bytes_cmp a b | c => c end
  end.
Definition bytes_max (a b : list Z) : list Z :=
  match bytes_cmp a b with Gt => a | _ => b end.

(** Big-endian bytes compare as the numbers they encode. *)
Lemma from_be_bytes_cons x bs :
  from_be_bytes (x :: bs) = (x * 256 ^ Z.of_nat (length bs) + from_be_bytes bs)%Z.
Proof.
  unfold from_be_bytes. rewrite reverse_cons, from_le_bytes_app, length_reverse. cbn [from_le_bytes]. lia.
Qed.

Lemma from_be_bytes_range bs :
  Forall is_u8 bs → (0 ≤ from_be_bytes bs < 256 ^ Z.of_nat (length bs))%Z.
Proof.
  intros Hb. unfold from_be_bytes. rewrite <- (length_reverse bs).
  apply from_le_bytes_bound. by apply Forall_reverse.
Qed.

Lemma bytes_cmp_numeric a b :
  length a = length b → Forall is_u8 a → Forall is_u8 b →
  bytes_cmp a b = Z.compare (from_be_bytes a) (from_be_bytes b).
Proof.
  revert b. induction a as [|x a IH]; intros [|y b] Hl Ha Hb; try discriminate; [done|].
  injection Hl as Hl. apply Forall_cons_iff in Ha as [Hx Ha]. apply Forall_cons_iff in Hb as [Hy Hb].
  cbn [bytes_cmp]. rewrite !from_be_bytes_cons, Hl.
  pose proof (from_be_bytes_range a Ha) as Ra. pose proof (from_be_bytes_range b Hb) as Rb.
  rewrite Hl in Ra. set (k := (256 ^ Z.of_nat (length b))%Z) in *.
  destruct (Z.compare_spec x y) as [->|Hlt|Hgt]; symmetry.
  - rewrite IH by done. destruct (Z.compare_spec (from_be_bytes a) (from_be_bytes b));
      [apply Z.compare_eq_iff|apply Z.compare_lt_iff|apply Z.compare_gt_iff]; lia.
  - apply Z.compare_lt_iff. nia.
  - apply Z.compare_gt_iff. nia.
Qed.

Definition is_timebase (t : list Z) : Prop := length t = TIMEBASE_LEN ∧ Forall is_u8 t.

Lemma as_count_be t : as_count t = from_be_bytes t.
Proof. unfold as_count. cbn [replicate app]. by rewrite !from_be_bytes_cons. Qed.

Lemma timebase_cmp a b :
  is_timebase a → is_timebase b → bytes_cmp a b = Z.compare (as_count a) (as_count b).
Proof. intros [La Ha] [Lb Hb]. rewrite !as_count_be. apply bytes_cmp_numeric; congruence || done. Qed.

Lemma timebase_max a b :
  is_timebase a → is_timebase b →
  is_timebase (bytes_max a b) ∧ as_count (bytes_max a b) = Z.max (as_count a) (as_count b).
Proof.
  intros Ha Hb. unfold bytes_max. rewrite timebase_cmp by done.
  destruct (Z.compare_spec (as_count a) (as_count b)); (split; [done|]); lia.
Qed.

(** The clock of a minted id is the emission second, modulo 2^40. *)
Lemma mint_timebase entropy now :
  (0 ≤ now)%Z →
  is_timebase (timebase (mint entropy now))
  ∧ as_count (timebase (mint entropy now)) = (now / 1000 mod 2 ^ 40)%Z.
Proof.
  intros Hn. unfold mint, to_be_bytes. cbn [timebase]. change (8 - TIMEBASE_LEN) with 3.
  assert (E : drop 3 (reverse (to_le_bytes 8 (now / 1000))) = reverse (to_le_bytes 5 (now / 1000))).
  { rewrite <- (take_drop 5 (to_le_bytes 8 (now / 1000))) at 1.
    rewrite take_to_le_bytes, reverse_app by lia.
    rewrite drop_app_ge; rewrite length_reverse, length_drop, length_to_le_bytes; [|lia]. done. }
  rewrite E. split.
  - split; [by rewrite length_reverse, length_to_le_bytes|]. apply Forall_reverse, to_le_bytes_u8.
  - rewrite as_count_be. unfold from_be_bytes. rewrite reverse_involutive.
    rewrite from_to_le_bytes by (apply Z.div_pos; lia). done.
Qed.

(** * Stored announces *)

Record IdentityPublicKeys := mkKeys { encryption : list Z; signing : list Z }.

Record AnnounceRecord := mkRecord {
  public_keys : IdentityPublicKeys;
  dotted_name_hash : list Z;
  announce_id : AnnounceId;
  signature : list Z;
  ratchet : option (list Z);
  maybe_app_data_handle : option AppDataHandle;
}.

Class AnnounceRecordTable (T : Type) := {
  ar_capacity : T → nat;
  ar_len : T → nat;
  ar_public_keys : T → run (list IdentityPublicKeys);
  ar_dotted_name_hashes : T → run (list (list Z));
  ar_announce_ids : T → run (list AnnounceId);
  ar_ratchets : T → run (list (option (list Z)));
  ar_signatures : T → run (list (list Z));
  ar_app_data_handles : T → run (list (option AppDataHandle));
  ar_set_row : T → nat → AnnounceRecord → run T;
  ar_push : T → AnnounceRecord → run (result TablePushError nat * T);
  ar_swap_remove : T → nat → nat → run T;
}.

Class AnnounceRecordLaws (T : Type) `{AnnounceRecordTable T} := {
  ar_rep : T → nat → list AnnounceRecord → Prop;
  ar_capacity_ok : ∀ t cap rows, ar_rep t cap rows → ar_capacity t = cap;
  ar_len_ok : ∀ t cap rows, ar_rep t cap rows → ar_len t = length rows ∧ length rows ≤ cap;
  ar_columns_ok : ∀ t cap rows, ar_rep t cap rows →
    ar_public_keys t = Done (public_keys <$> rows)
    ∧ ar_dotted_name_hashes t = Done (dotted_name_hash <$> rows)
    ∧ ar_announce_ids t = Done (announce_id <$> rows)
    ∧ ar_ratchets t = Done (ratchet <$> rows)
    ∧ ar_signatures t = Done (signature <$> rows)
    ∧ ar_app_data_handles t = Done (maybe_app_data_handle <$> rows);
  ar_set_row_ok : ∀ t cap rows i r, ar_rep t cap rows → i < length rows →
    ∃ t', ar_set_row t i r = Done t' ∧ ar_rep t' cap (<[i := r]> rows);
  ar_push_ok : ∀ t cap rows r, ar_rep t cap rows → length rows < cap →
    ∃ t', ar_push t r = Done (Ok (length rows), t') ∧ ar_rep t' cap (rows ++ [r]);
  ar_push_full : ∀ t cap rows r, ar_rep t cap rows → length rows = cap →
    ar_push t r = Done (Err TableFull, t);
  ar_swap_remove_ok : ∀ t cap rows i, ar_rep t cap rows → i < length rows →
    ∃ t', ar_swap_remove t i (length rows - 1) = Done t' ∧ ar_rep t' cap (swap_removed rows i);
}.

(** [FixedArrayAnnounceRecordTable] *)
Module FixedRecords.
Record FixedArrayAnnounceRecordTable (MAX_TRACKED_DESTINATIONS : nat) := mk {
  len : nat;
  f_public_keys : list IdentityPublicKeys;
  f_dotted_name_hashes : list (list Z);
  f_announce_ids : list AnnounceId;
  f_ratchets : list (option (list Z));
  f_signatures : list (list Z);
  f_app_data_handles : list (option AppDataHandle);
}.
Arguments mk {_}.
Arguments len {_}.
Arguments f_public_keys {_}.
Arguments f_dotted_name_hashes {_}.
Arguments f_announce_ids {_}.
Arguments f_ratchets {_}.
Arguments f_signatures {_}.
Arguments f_app_data_handles {_}.

Section fixed.
Context {MAX : nat}.
Abbreviation table := (FixedArrayAnnounceRecordTable MAX).

Definition default : table :=
  mk 0 (replicate MAX (mkKeys (replicate 32 0%Z) (replicate 32 0%Z)))
    (replicate MAX (replicate 10 0%Z)) (replicate MAX (AnnounceId_from_wire (replicate 10 0%Z)))
    (replicate MAX None) (replicate MAX (replicate 64 0%Z)) (replicate MAX None).

Definition set_row (t : table) (i : nat) (row : AnnounceRecord) : run table :=
  p ← store (f_public_keys t) i (public_keys row);
  d ← store (f_dotted_name_hashes t) i (dotted_name_hash row);
  a ← store (f_announce_ids t) i (announce_id row);
  r ← store (f_ratchets t) i (ratchet row);
  s ← store (f_signatures t) i (signature row);
  h ← store (f_app_data_handles t) i (maybe_app_data_handle row);
  Done (mk (len t) p d a r s h).

Definition push (t : table) (row : AnnounceRecord) : run (result TablePushError nat * table) :=
  if (MAX <=? len t)%nat then Done (Err TableFull, t) else
  let i := len t in
  t ← set_row t i row;
  Done (Ok i, mk (len t + 1) (f_public_keys t) (f_dotted_name_hashes t) (f_announce_ids t)
                (f_ratchets t) (f_signatures t) (f_app_data_handles t)).

Definition swap_remove (t : table) (i last : nat) : run table :=
  p ← move_last (f_public_keys t) i last;
  d ← move_last (f_dotted_name_hashes t) i last;
  a ← move_last (f_announce_ids t) i last;
  r ← move_last (f_ratchets t) i last;
  s ← move_last (f_signatures t) i last;
  h ← move_last (f_app_data_handles t) i last;
  Done (mk last p d a r s h).

#[global] Instance fixed_records : AnnounceRecordTable table := {|
  ar_capacity := λ _, MAX;
  ar_len := len;
  ar_public_keys := λ t, slice (f_public_keys t) 0 (len t);
  ar_dotted_name_hashes := λ t, slice (f_dotted_name_hashes t) 0 (len t);
  ar_announce_ids := λ t, slice (f_announce_ids t) 0 (len t);
  ar_ratchets := λ t, slice (f_ratchets t) 0 (len t);
  ar_signatures := λ t, slice (f_signatures t) 0 (len t);
  ar_app_data_handles := λ t, slice (f_app_data_handles t) 0 (len t);
  ar_set_row := set_row;
  ar_push := push;
  ar_swap_remove := swap_remove;
|}.

Record columns (t : table) (rows : list AnnounceRecord) : Prop := {
  c_public_keys : column MAX (len t) (f_public_keys t) (public_keys <$> rows);
  c_dotted_name_hashes : column MAX (len t) (f_dotted_name_hashes t) (dotted_name_hash <$> rows);
  c_announce_ids : column MAX (len t) (f_announce_ids t) (announce_id <$> rows);
  c_ratchets : column MAX (len t) (f_ratchets t) (ratchet <$> rows);
  c_signatures : column MAX (len t) (f_signatures t) (signature <$> rows);
  c_app_data_handles : column MAX (len t) (f_app_data_handles t) (maybe_app_data_handle <$> rows);
}.

Lemma records_columns_len t rows : columns t rows → len t = length rows ∧ length rows ≤ MAX.
Proof.
  intros Hc. pose proof (c_public_keys _ _ Hc) as Hd. pose proof (column_length _ _ _ _ Hd) as Hl.
  rewrite length_fmap in Hl. destruct Hd as (_ & ? & _). lia.
Qed.

Lemma records_set_row_columns t rows i r :
  columns t rows → i < length rows →
  ∃ t', set_row t i r = Done t' ∧ columns t' (<[i := r]> rows).
Proof.
  intros Hc Hi. destruct (records_columns_len t rows Hc) as [Hlen _]. rewrite <- Hlen in Hi.
  unfold set_row.
  step_column (column_store MAX _ _ _ i (public_keys r) (c_public_keys _ _ Hc) Hi).
  step_column (column_store MAX _ _ _ i (dotted_name_hash r) (c_dotted_name_hashes _ _ Hc) Hi).
  step_column (column_store MAX _ _ _ i (announce_id r) (c_announce_ids _ _ Hc) Hi).
  step_column (column_store MAX _ _ _ i (ratchet r) (c_ratchets _ _ Hc) Hi).
  step_column (column_store MAX _ _ _ i (signature r) (c_signatures _ _ Hc) Hi).
  step_column (column_store MAX _ _ _ i (maybe_app_data_handle r) (c_app_data_handles _ _ Hc) Hi).
  eexists. split; [done|]. split; cbn; by rewrite list_fmap_insert.
Qed.

Lemma records_push_columns t rows r :
  columns t rows → length rows < MAX →
  ∃ t', push t r = Done (Ok (length rows), t') ∧ columns t' (rows ++ [r]).
Proof.
  intros Hc Hroom. destruct (records_columns_len t rows Hc) as [Hlen _]. rewrite <- Hlen in Hroom.
  unfold push, set_row. rewrite (proj2 (Nat.leb_gt _ _)) by done.
  step_column (column_push MAX _ _ _ (public_keys r) (c_public_keys _ _ Hc) Hroom).
  step_column (column_push MAX _ _ _ (dotted_name_hash r) (c_dotted_name_hashes _ _ Hc) Hroom).
  step_column (column_push MAX _ _ _ (announce_id r) (c_announce_ids _ _ Hc) Hroom).
  step_column (column_push MAX _ _ _ (ratchet r) (c_ratchets _ _ Hc) Hroom).
  step_column (column_push MAX _ _ _ (signature r) (c_signatures _ _ Hc) Hroom).
  step_column (column_push MAX _ _ _ (maybe_app_data_handle r) (c_app_data_handles _ _ Hc) Hroom).
  rewrite Hlen. eexists. split; [done|].
  split; cbn; rewrite fmap_app, Nat.add_1_r, <- Hlen; done.
Qed.

Lemma records_swap_remove_columns t rows i :
  columns t rows → i < length rows →
  ∃ t', swap_remove t i (length rows - 1) = Done t' ∧ columns t' (swap_removed rows i).
Proof.
  intros Hc Hi. destruct (records_columns_len t rows Hc) as [Hlen _].
  assert (Hl : len t = S (length rows - 1)) by lia.
  destruct Hc as [H1 H2 H3 H4 H5 H6]. rewrite Hl in *.
  set (last := length rows - 1) in *. assert (Hil : i ≤ last) by lia. unfold swap_remove.
  step_column (column_swap_remove MAX last _ _ i H1 Hil).
  step_column (column_swap_remove MAX last _ _ i H2 Hil).
  step_column (column_swap_remove MAX last _ _ i H3 Hil).
  step_column (column_swap_remove MAX last _ _ i H4 Hil).
  step_column (column_swap_remove MAX last _ _ i H5 Hil).
  step_column (column_swap_remove MAX last _ _ i H6 Hil).
  eexists. split; [done|]. split; cbn; rewrite fmap_swap_removed; done.
Qed.

#[global] Instance fixed_records_laws : AnnounceRecordLaws table.
Proof.
  refine {| ar_rep := λ t cap rows, cap = MAX ∧ columns t rows |}; cbn.
  - by intros t cap rows [-> _].
  - intros t cap rows [-> Hc]. by apply records_columns_len.
  - intros t cap rows [_ []]. repeat split; by eapply column_slice.
  - intros t cap rows i r [-> Hc] Hi. destruct (records_set_row_columns t rows i r Hc Hi) as (t' & -> & ?).
    by exists t'.
  - intros t cap rows r [-> Hc] Hi. destruct (records_push_columns t rows r Hc Hi) as (t' & -> & ?).
    by exists t'.
  - intros t cap rows r [-> Hc] Hi. destruct (records_columns_len t rows Hc). unfold push.
    by rewrite (proj2 (Nat.leb_le _ _)) by lia.
  - intros t cap rows i [-> Hc] Hi. destruct (records_swap_remove_columns t rows i Hc Hi) as (t' & -> & ?).
    by exists t'.
Defined.

Lemma records_default_rep : ar_rep default MAX [].
Proof. split; [done|]. split; cbn; apply column_new. Qed.
End fixed.
End FixedRecords.

(** * The history of announce ids *)

Inductive RememberOutcome := AlreadyKnown | StoredFresh | StoredEvictingOldest.

Class AnnounceIdHistory (H : Type) := {
  ah_history : H → nat → run (list AnnounceId);
  ah_remember : H → nat → AnnounceId → run (RememberOutcome * H);
  ah_swap_remove : H → nat → nat → run H;
}.

(** What remembering does to the ids of one route: at most [max] of them, the oldest dropped. *)
Definition remember_id (max : nat) (ids : list AnnounceId) (id : AnnounceId) :
    RememberOutcome * list AnnounceId :=
  if bool_decide (id ∈ ids) then (AlreadyKnown, ids)
  else if (length ids <? max)%nat then (StoredFresh, ids ++ [id])
  else (StoredEvictingOldest, drop 1 ids ++ [id]).

(** [ah_rep h max hs]: slot [i] holds the ids [hs !! i], at most [max] each. *)
Class AnnounceIdHistoryLaws (H : Type) `{AnnounceIdHistory H} := {
  ah_rep : H → nat → list (list AnnounceId) → Prop;
  ah_bound : ∀ h max hs, ah_rep h max hs → 1 ≤ max ∧ Forall (λ ids, length ids ≤ max) hs;
  ah_history_ok : ∀ h max hs i ids, ah_rep h max hs → hs !! i = Some ids → ah_history h i = Done ids;
  ah_remember_ok : ∀ h max hs i ids id, ah_rep h max hs → hs !! i = Some ids →
    ∃ h', ah_remember h i id = Done ((remember_id max ids id).1, h')
      ∧ ah_rep h' max (<[i := (remember_id max ids id).2]> hs);
  ah_swap_remove_ok : ∀ h max hs i last ids, ah_rep h max hs → i < length hs →
    hs !! last = Some ids →
    ∃ h', ah_swap_remove h i last = Done h' ∧ ah_rep h' max (<[last := []]> (<[i := ids]> hs));
}.

(** [FixedAnnounceIdHistory] *)
Module FixedHistory.
Record FixedAnnounceIdHistory (MAX_DESTINATIONS MAX_PER_DESTINATION : nat) := mk {
  rows : list (list AnnounceId);
  lens : list Z;
}.
Arguments mk {_ _}.
Arguments rows {_ _}.
Arguments lens {_ _}.

Section fixed.
Context {MAX PER : nat}.
Abbreviation history_t := (FixedAnnounceIdHistory MAX PER).

Definition default : history_t :=
  mk (replicate MAX (replicate PER (AnnounceId_from_wire (replicate 10 0%Z)))) (replicate MAX 0%Z).

Definition history (h : history_t) (slot : nat) : run (list AnnounceId) :=
  row ← index (rows h) slot;
  len ← index (lens h) slot;
  slice row 0 (Z.to_nat len).

Definition remember (h : history_t) (slot : nat) (id : AnnounceId) :
    run (RememberOutcome * history_t) :=
  len ← index (lens h) slot;
  let len := Z.to_nat len in
  row ← index (rows h) slot;
  seen ← slice row 0 len;
  if existsb (λ x, bool_decide (x = id)) seen then Done (AlreadyKnown, h) else
  if (len <? PER)%nat then
    row ← store row len id;
    rs ← store (rows h) slot row;
    ls ← store (lens h) slot (wrap 8 (Z.of_nat (len + 1)));
    Done (StoredFresh, mk rs ls)
  else
    (* rows[slot].copy_within(1.., 0) *)
    moved ← slice row 1 (length row);
    row ← copy_into row 0 moved;
    row ← store row (PER - 1) id;
    rs ← store (rows h) slot row;
    Done (StoredEvictingOldest, mk rs (lens h)).

Definition swap_remove (h : history_t) (i last : nat) : run history_t :=
  row ← index (rows h) last;
  rs ← store (rows h) i row;
  len ← index (lens h) last;
  ls ← store (lens h) i len;
  ls ← store ls last 0%Z;
  Done (mk rs ls).

#[global] Instance fixed_history : AnnounceIdHistory history_t := {|
  ah_history := history; ah_remember := remember; ah_swap_remove := swap_remove;
|}.

(** A row array with its live prefix. *)
Record history_rep (h : history_t) (hs : list (list AnnounceId)) : Prop := {
  hr_per : 1 ≤ PER ∧ (Z.of_nat PER ≤ 255)%Z;
  hr_rows : length (rows h) = length hs;
  hr_lens : lens h = (Z.of_nat ∘ length) <$> hs;
  hr_live : ∀ i row ids, rows h !! i = Some row → hs !! i = Some ids →
    column PER (length ids) row ids;
}.

Lemma history_slot h hs i ids :
  history_rep h hs → hs !! i = Some ids →
  ∃ row, rows h !! i = Some row ∧ column PER (length ids) row ids
    ∧ index (lens h) i = Done (Z.of_nat (length ids)) ∧ i < length (lens h).
Proof.
  intros Hr Hi. pose proof (lookup_lt_Some _ _ _ Hi) as Hlt.
  destruct (lookup_lt_is_Some_2 (rows h) i) as [row Hrow]; [by rewrite (hr_rows _ _ Hr)|].
  exists row. split; [done|]. split; [by eapply hr_live|]. rewrite (hr_lens _ _ Hr). split.
  - apply index_lookup. by rewrite list_lookup_fmap, Hi.
  - by rewrite length_fmap.
Qed.

Lemma existsb_elem (ids : list AnnounceId) id :
  existsb (λ x, bool_decide (x = id)) ids = bool_decide (id ∈ ids).
Proof.
  apply eq_bool_prop_intro. rewrite bool_decide_spec, Is_true_true, existsb_exists.
  split.
  - intros (x & Hx & ->%bool_decide_eq_true). by apply list_elem_of_In.
  - intros Hin. exists id. split; [by apply list_elem_of_In|]. by apply bool_decide_eq_true.
Qed.

(** Replacing one slot. *)
Lemma set_slot h hs i ids ids' row' :
  history_rep h hs → hs !! i = Some ids → column PER (length ids') row' ids' →
  history_rep (mk (<[i := row']> (rows h)) (<[i := Z.of_nat (length ids')]> (lens h))) (<[i := ids']> hs).
Proof.
  intros [Hp Hr Hl Hlive] Hi Hcol. pose proof (lookup_lt_Some _ _ _ Hi). split; cbn [rows lens].
  - done.
  - by rewrite !length_insert.
  - by rewrite Hl, list_fmap_insert.
  - intros j row x. rewrite !list_lookup_insert_Some.
    intros [(<- & <- & _)|[? Hj]] [(E & <- & _)|[? Hx]]; try done. by eapply Hlive.
Qed.

Lemma remember_rep h hs i ids id :
  history_rep h hs → hs !! i = Some ids →
  ∃ h', remember h i id = Done ((remember_id PER ids id).1, h')
    ∧ history_rep h' (<[i := (remember_id PER ids id).2]> hs).
Proof.
  intros Hr Hi. destruct (history_slot h hs i ids Hr Hi) as (row & Hrow & Hcol & Elen & Hlt).
  pose proof (hr_per _ _ Hr) as [Hp1 Hp255]. pose proof Hcol as (Hcl & Hcn & Htake).
  unfold remember, remember_id. rewrite Elen. cbn [mbind run_bind]. rewrite Nat2Z.id.
  rewrite (index_lookup _ _ _ Hrow). cbn [mbind run_bind].
  rewrite (column_slice PER _ row ids) by done. cbn [mbind run_bind]. rewrite existsb_elem.
  case_bool_decide as Hin; [exists h; cbn; by rewrite list_insert_id|].
  assert (Hri : i < length (rows h)) by (by eapply lookup_lt_Some).
  destruct (Nat.ltb_spec (length ids) PER) as [Hroom|Hfull]; cbn [fst snd].
  - destruct (column_push PER _ row ids id Hcol Hroom) as (row' & -> & Hcol'). cbn [mbind run_bind].
    rewrite store_done by done. cbn [mbind run_bind]. rewrite store_done by done. cbn [mbind run_bind].
    rewrite wrap_small by (unfold in_width; lia). eexists. split; [done|].
    replace (length ids + 1) with (length (ids ++ [id])) by (rewrite length_app; cbn [length]; lia).
    eapply set_slot; [done..|]. rewrite length_app. cbn [length]. by rewrite Nat.add_1_r.
  - assert (Hids : ids = row). { rewrite <- Htake. rewrite take_ge by lia. done. }
    subst row. assert (Hlen : length ids = PER) by lia.
    destruct ids as [|x ids]; [cbn in Hlen; lia|].
    unfold slice. rewrite decide_True by (cbn [length] in *; lia). cbn [mbind run_bind drop].
    rewrite !drop_0, take_ge by (cbn [length]; lia).
    rewrite copy_into_done by (cbn [length]; lia). cbn [mbind run_bind take app].
    assert (∃ z, drop (0 + length ids) (x :: ids) = [z]) as [z Hdrop].
    { clear. cbn [Nat.add]. revert x. induction ids as [|y ids IH]; intros x; [by exists x|].
      apply (IH y). }
    rewrite Hdrop. cbn [length] in Hlen. rewrite store_done by (rewrite length_app; cbn [length]; lia).
    cbn [mbind run_bind]. rewrite store_done by done. cbn [mbind run_bind].
    replace (PER - 1) with (length ids + 0) by lia. rewrite insert_app_r. cbn [insert list_insert].
    eexists. split; [done|].
    pose proof (set_slot h hs i (x :: ids) (ids ++ [id]) (ids ++ [id]) Hr Hi) as Hs.
    rewrite length_app in Hs. cbn [length] in Hs.
    replace (<[i := Z.of_nat (length ids + 1)]> (lens h)) with (lens h) in Hs.
    + apply Hs. split; [rewrite length_app; cbn [length]; lia|]. split; [lia|].
      apply take_ge. rewrite length_app. cbn [length]. lia.
    + symmetry. apply list_insert_id. rewrite (hr_lens _ _ Hr), list_lookup_fmap, Hi. cbn. do 2 f_equal. lia.
Qed.

Lemma swap_remove_rep h hs i last ids :
  history_rep h hs → i < length hs → hs !! last = Some ids →
  ∃ h', swap_remove h i last = Done h' ∧ history_rep h' (<[last := []]> (<[i := ids]> hs)).
Proof.
  intros Hr Hi Hl. destruct (history_slot h hs last ids Hr Hl) as (row & Hrow & Hcol & Elen & Hlt).
  destruct (lookup_lt_is_Some_2 hs i Hi) as [idsi Hidsi].
  destruct (history_slot h hs i idsi Hr Hidsi) as (rowi & Hrowi & _ & _ & Hlti).
  pose proof (lookup_lt_Some _ _ _ Hrowi). unfold swap_remove.
  rewrite (index_lookup _ _ _ Hrow), Elen. cbn [mbind run_bind].
  rewrite (store_done (rows h)) by done. cbn [mbind run_bind].
  rewrite (store_done (lens h)) by done. cbn [mbind run_bind].
  rewrite store_done by (by rewrite length_insert). cbn [mbind run_bind].
  eexists. split; [done|].
  pose proof (set_slot h hs i idsi ids row Hr Hidsi Hcol) as Hs.
  assert (Hl2 : ∃ y, (<[i := ids]> hs) !! last = Some y).
  { apply lookup_lt_is_Some_2. rewrite length_insert. by eapply lookup_lt_Some. }
  destruct Hl2 as [y Hy].
  destruct (history_slot _ _ last y Hs Hy) as (row2 & Hrow2 & (Hc1 & _) & _).
  pose proof (set_slot _ _ last y [] row2 Hs Hy) as Hs2. cbn [rows lens length] in Hs2.
  rewrite (list_insert_id (<[i:=row]> (rows h)) last row2) in Hs2 by done.
  apply Hs2. split; [done|]. split; [lia|done].
Qed.

#[global] Instance fixed_history_laws : AnnounceIdHistoryLaws history_t.
Proof.
  refine {| ah_rep := λ h max hs, max = PER ∧ history_rep h hs |}; cbn.
  - intros h max hs [-> Hr]. split; [apply (hr_per _ _ Hr)|]. apply Forall_lookup.
    intros i ids Hi. destruct (history_slot h hs i ids Hr Hi) as (row & _ & (_ & ? & _) & _). done.
  - intros h max hs i ids [-> Hr] Hi. unfold history.
    destruct (history_slot h hs i ids Hr Hi) as (row & Hrow & Hcol & -> & _).
    rewrite (index_lookup _ _ _ Hrow). cbn [mbind run_bind]. rewrite Nat2Z.id. by eapply column_slice.
  - intros h max hs i ids id [-> Hr] Hi.
    destruct (remember_rep h hs i ids id Hr Hi) as (h' & -> & ?). by exists h'.
  - intros h max hs i last ids [-> Hr] Hi Hl.
    destruct (swap_remove_rep h hs i last ids Hr Hi Hl) as (h' & -> & ?). by exists h'.
Defined.

Lemma ids_default_rep :
  1 ≤ PER → (Z.of_nat PER ≤ 255)%Z → ah_rep default PER (replicate MAX []).
Proof.
  intros Hp H255. split; [done|]. split; cbn [rows lens default].
  - done.
  - by rewrite !length_replicate.
  - by rewrite fmap_replicate.
  - intros i row ids [-> _]%lookup_replicate [-> _]%lookup_replicate. apply column_new.
Qed.
End fixed.
End FixedHistory.
