(* ===== verification/Acceptance.v ===== *)
(** The announce-acceptance predicate: [prns-core/src/routing/announce/acceptance.rs], with
    [ExistingRoute] of [routing/table/model.rs]. *)

From S2P Require Import Prelude Wire Routes Announce.

(** * The code *)

(** [ExistingRoute]; an [InterfaceGravity] is an [i64]. *)
Record ExistingRoute := mkExisting {
  ex_hops : Z;
  ex_expires_at : InstantMillis;
  ex_announce_id_history : list AnnounceId;
  ex_responsiveness : RouteResponsiveness;
  ex_interface_gravity : option Z;
}.

Record AnnounceAcceptanceInput := mkInput {
  packet_hops : Z;
  in_announce_id : AnnounceId;
  destination_is_self_or_upstream : bool;
  existing_route : option ExistingRoute;
  incoming_interface_gravity : option Z;
  arrived_at : InstantMillis;
}.

Inductive AcceptReason :=
  | FirstSighting
  | KnownRouteFreshEvidence
  | ExpiredRouteSucceededByLongerAlternative
  | LongerAlternativeWithNewerEvidence
  | FailoverFromUnresponsiveIncumbent
  | EqualEvidenceHigherGravity.

Inductive RejectReason :=
  | ExceedsMaxHops
  | DestinationIsSelfOrUpstream
  | KnownRouteReplay
  | KnownRouteNoNewerEvidence
  | DeadRouteReplay
  | EqualEvidenceIncumbentStillWorking
  | StaleEvidence.

Inductive AnnounceAcceptanceDecision := Accept (r : AcceptReason) | Reject (r : RejectReason).

(** The loop over the stored ids: the early rejection, or whether the id is known and the latest
    stored emission. *)
Fixpoint history_loop (id : AnnounceId) (dead : bool) (history : list AnnounceId)
    (route_max_emitted : list Z) (known_announce : bool) : option (bool * list Z) :=
  match history with
  | [] => Some (known_announce, route_max_emitted)
  | stored :: history =>
      if bool_decide (stored = id) && dead then None
      else history_loop id dead history (bytes_max route_max_emitted (timebase stored))
             (if bool_decide (stored = id) then true else known_announce)
  end.

Definition determine_acceptance (input : AnnounceAcceptanceInput) : AnnounceAcceptanceDecision :=
  if (MAX_HOP_COUNT <? packet_hops input)%Z then Reject ExceedsMaxHops else
  if destination_is_self_or_upstream input then Reject DestinationIsSelfOrUpstream else
  match existing_route input with
  | None => Accept FirstSighting
  | Some existing =>
      let is_longer_hops := (ex_hops existing <? packet_hops input)%Z in
      let route_is_expired := (ex_expires_at existing <=? arrived_at input)%Z in
      let announce_emitted_at := timebase (in_announce_id input) in
      match history_loop (in_announce_id input) (is_longer_hops && route_is_expired)
              (ex_announce_id_history existing) TIMEBASE_ZERO false with
      | None => Reject DeadRouteReplay
      | Some (known_announce, route_max_emitted) =>
          if negb is_longer_hops then
            if bool_decide (announce_emitted_at = route_max_emitted)
               && match incoming_interface_gravity input, ex_interface_gravity existing with
                  | Some incoming, Some incumbent => (incumbent <? incoming)%Z
                  | _, _ => false
                  end
            then Accept EqualEvidenceHigherGravity
            else if known_announce : bool then Reject KnownRouteReplay
            else match bytes_cmp announce_emitted_at route_max_emitted with
                 | Gt => Accept KnownRouteFreshEvidence
                 | _ => Reject KnownRouteNoNewerEvidence
                 end
          else if route_is_expired then Accept ExpiredRouteSucceededByLongerAlternative
          else match bytes_cmp announce_emitted_at route_max_emitted with
               | Lt => Reject StaleEvidence
               | Eq => match ex_responsiveness existing with
                       | Unresponsive => Accept FailoverFromUnresponsiveIncumbent
                       | Responsive | Routes.Unknown => Reject EqualEvidenceIncumbentStillWorking
                       end
               | Gt => Accept LongerAlternativeWithNewerEvidence
               end
      end
  end.

(** * What the loop computes *)

(** The latest emission heard on the route, in seconds; zero when none was. *)
Definition latest_emission (history : list AnnounceId) : Z :=
  foldr (λ id m, Z.max (as_count (timebase id)) m) 0%Z history.

Definition history_ok (history : list AnnounceId) : Prop :=
  Forall (λ id, is_timebase (timebase id)) history.

Lemma latest_emission_cons id history :
  latest_emission (id :: history) = Z.max (as_count (timebase id)) (latest_emission history).
Proof. done. Qed.

Lemma history_loop_spec id dead history m known :
  history_ok history → is_timebase m →
  if bool_decide (id ∈ history) && dead
  then history_loop id dead history m known = None
  else ∃ m', history_loop id dead history m known
             = Some (known || bool_decide (id ∈ history), m')
         ∧ is_timebase m' ∧ as_count m' = Z.max (as_count m) (latest_emission history).
Proof.
  intros Hh. revert m known. induction Hh as [|stored history Hs _ IH]; intros m known Hm;
    cbn [history_loop].
  { rewrite bool_decide_false by apply not_elem_of_nil. cbn [andb]. exists m. rewrite orb_false_r.
    split; [done|]. split; [done|]. pose proof (from_be_bytes_range m (proj2 Hm)).
    rewrite as_count_be. change (latest_emission []) with 0%Z. lia. }
  rewrite latest_emission_cons. assert (Hin : bool_decide (id ∈ stored :: history)
    = bool_decide (stored = id) || bool_decide (id ∈ history)).
  { apply eq_bool_prop_intro. rewrite orb_True, !bool_decide_spec, elem_of_cons.
    split; (intros [->|?]; [by left|by right]). }
  rewrite Hin. destruct (timebase_max m (timebase stored) Hm Hs) as [Hmt Hmc].
  specialize (IH (bytes_max m (timebase stored)) (if bool_decide (stored = id) then true else known) Hmt).
  destruct (bool_decide (stored = id)), dead; cbn [andb orb] in *; try done.
  - rewrite andb_false_r in IH. destruct IH as (m' & -> & Hm' & Hc). exists m'.
    split; [by rewrite orb_true_r|]. split; [done|]. rewrite Hc, Hmc. lia.
  - rewrite andb_true_r in *. destruct (bool_decide (id ∈ history)); [done|].
    destruct IH as (m' & -> & Hm' & Hc). exists m'. split; [done|]. split; [done|].
    rewrite Hc, Hmc. lia.
  - rewrite andb_false_r in *. destruct IH as (m' & -> & Hm' & Hc). exists m'.
    split; [done|]. split; [done|]. rewrite Hc, Hmc. lia.
Qed.

Lemma known_emission id history :
  id ∈ history → (as_count (timebase id) ≤ latest_emission history)%Z.
Proof.
  induction 1 as [x history|x y history _ IH]; rewrite latest_emission_cons; lia.
Qed.

Lemma latest_emission_perm h h' : h ≡ₚ h' → latest_emission h = latest_emission h'.
Proof. intros Hp. induction Hp; rewrite ?latest_emission_cons; lia. Qed.

Lemma timebase_eq a b : is_timebase a → is_timebase b → a = b ↔ as_count a = as_count b.
Proof.
  intros Ha Hb. split; [by intros ->|]. intros E.
  assert (Hc : bytes_cmp a b = Eq) by (rewrite timebase_cmp, E by done; apply Z.compare_refl).
  clear -Hc. revert b Hc. induction a as [|x a IH]; intros [|y b]; cbn; try done.
  destruct (Z.compare_spec x y) as [->| |]; try done. intros Hc. f_equal. by apply IH.
Qed.

(** The decision in terms of the set of stored ids. *)
Definition decide_by_knowledge (input : AnnounceAcceptanceInput) (existing : ExistingRoute) :
    AnnounceAcceptanceDecision :=
  let longer := (ex_hops existing <? packet_hops input)%Z in
  let expired := (ex_expires_at existing <=? arrived_at input)%Z in
  let known := bool_decide (in_announce_id input ∈ ex_announce_id_history existing) in
  let emitted := as_count (timebase (in_announce_id input)) in
  let latest := latest_emission (ex_announce_id_history existing) in
  let heavier :=
    match incoming_interface_gravity input, ex_interface_gravity existing with
    | Some incoming, Some incumbent => (incumbent <? incoming)%Z
    | _, _ => false
    end in
  if longer then
    if expired then
      if known then Reject DeadRouteReplay else Accept ExpiredRouteSucceededByLongerAlternative
    else match Z.compare emitted latest with
         | Lt => Reject StaleEvidence
         | Eq => match ex_responsiveness existing with
                 | Unresponsive => Accept FailoverFromUnresponsiveIncumbent
                 | _ => Reject EqualEvidenceIncumbentStillWorking
                 end
         | Gt => Accept LongerAlternativeWithNewerEvidence
         end
  else if (emitted =? latest)%Z && heavier then Accept EqualEvidenceHigherGravity
  else if known then Reject KnownRouteReplay
  else if (latest <? emitted)%Z then Accept KnownRouteFreshEvidence
  else Reject KnownRouteNoNewerEvidence.

Definition input_ok (input : AnnounceAcceptanceInput) : Prop :=
  is_timebase (timebase (in_announce_id input))
  ∧ from_option (λ e, history_ok (ex_announce_id_history e)) True (existing_route input).

Lemma latest_emission_nonneg history : (0 ≤ latest_emission history)%Z.
Proof. induction history; [done|]. rewrite latest_emission_cons. lia. Qed.

Lemma determine_existing input existing :
  input_ok input → existing_route input = Some existing →
  (packet_hops input ≤ MAX_HOP_COUNT)%Z → destination_is_self_or_upstream input = false →
  determine_acceptance input = decide_by_knowledge input existing.
Proof.
  intros [Ht Hh] He Hhops Hself. rewrite He in Hh. cbn in Hh.
  unfold determine_acceptance, decide_by_knowledge. rewrite (proj2 (Z.ltb_ge _ _)) by done.
  rewrite Hself, He.
  set (longer := (ex_hops existing <? packet_hops input)%Z).
  set (expired := (ex_expires_at existing <=? arrived_at input)%Z).
  pose proof (history_loop_spec (in_announce_id input) (longer && expired)
    (ex_announce_id_history existing) TIMEBASE_ZERO false Hh) as Hloop.
  assert (Hz : is_timebase TIMEBASE_ZERO) by (split; [done|]; repeat constructor; done).
  specialize (Hloop Hz). change (as_count TIMEBASE_ZERO) with 0%Z in Hloop.
  pose proof (latest_emission_nonneg (ex_announce_id_history existing)).
  set (known := bool_decide (in_announce_id input ∈ ex_announce_id_history existing)) in *.
  destruct (known && (longer && expired)) eqn:Hdead.
  { rewrite Hloop. apply andb_true_iff in Hdead as [-> [-> ->]%andb_true_iff]. done. }
  destruct Hloop as (m & -> & Hm & Hmc). cbn [orb].
  rewrite Z.max_r in Hmc by done. rewrite timebase_cmp, Hmc by done.
  destruct longer; cbn [negb].
  - destruct expired; [|done]. cbn in Hdead. rewrite andb_true_r in Hdead. by rewrite Hdead.
  - assert (Heq : bool_decide (timebase (in_announce_id input) = m)
      = (as_count (timebase (in_announce_id input)) =? latest_emission (ex_announce_id_history existing))%Z).
    { apply eq_bool_prop_intro. rewrite bool_decide_spec, Is_true_true, Z.eqb_eq, <- Hmc.
      by apply timebase_eq. }
    rewrite Heq. destruct (_ && _); [done|]. destruct known; [done|].
    destruct (Z.compare_spec (as_count (timebase (in_announce_id input)))
      (latest_emission (ex_announce_id_history existing))), (Z.ltb_spec
      (latest_emission (ex_announce_id_history existing))
      (as_count (timebase (in_announce_id input)))); (done || lia).
Qed.

Lemma latest_emission_le id history :
  id ∈ history → (as_count (timebase id) ≤ latest_emission history)%Z.
Proof.
  induction history as [|x history IH]; [by intros ?%not_elem_of_nil|].
  rewrite elem_of_cons, latest_emission_cons. intros [->|Hin]; [lia|]. specialize (IH Hin). lia.
Qed.

(** An id already stored is refused while the route works and no heavier interface brings it. *)
Lemma replay_rejected input e :
  input_ok input → existing_route input = Some e →
  in_announce_id input ∈ ex_announce_id_history e → ex_responsiveness e ≠ Unresponsive →
  (∀ a b, incoming_interface_gravity input = Some a → ex_interface_gravity e = Some b → (a ≤ b)%Z) →
  ∃ r, determine_acceptance input = Reject r.
Proof.
  intros Hok He Hin Hr Hg. destruct (Z.ltb_spec MAX_HOP_COUNT (packet_hops input)) as [Hh|Hh].
  { unfold determine_acceptance. rewrite (proj2 (Z.ltb_lt _ _)) by done. by eexists. }
  destruct (destination_is_self_or_upstream input) eqn:Hself.
  { unfold determine_acceptance. rewrite (proj2 (Z.ltb_ge _ _)), Hself by done. by eexists. }
  rewrite (determine_existing input e) by done. unfold decide_by_knowledge.
  rewrite (bool_decide_true (in_announce_id input ∈ _)) by done.
  pose proof (latest_emission_le _ _ Hin) as Hle.
  assert (Hheavy : match incoming_interface_gravity input, ex_interface_gravity e with
    | Some incoming, Some incumbent => (incumbent <? incoming)%Z | _, _ => false end = false).
  { destruct (incoming_interface_gravity input) as [a|], (ex_interface_gravity e) as [b|]; try done.
    apply Z.ltb_ge. by apply Hg. }
  rewrite Hheavy, andb_false_r.
  destruct (ex_hops e <? packet_hops input)%Z; [|by eexists].
  destruct (ex_expires_at e <=? arrived_at input)%Z; [by eexists|].
  destruct (Z.compare_spec (as_count (timebase (in_announce_id input))) (latest_emission (ex_announce_id_history e)));
    [|by eexists|lia].
  destruct (ex_responsiveness e); [by eexists..|done].
Qed.

(** * Properties *)

(** C4. When a path is learned: an announce is accepted exactly when it is within the hop limit,
    not for one of our own destinations, and either no route is known, or it comes over no more
    hops with a newer emission (or the same emission over a heavier interface), or over more hops
    when the known route has expired and the announce was not heard before, or has a newer
    emission, or the same emission and the known route does not answer. *)
Theorem announce_accepted_iff input :
  input_ok input →
  (∃ r, determine_acceptance input = Accept r) ↔
  (packet_hops input ≤ MAX_HOP_COUNT)%Z ∧ destination_is_self_or_upstream input = false ∧
  match existing_route input with
  | None => True
  | Some e =>
      let emitted := as_count (timebase (in_announce_id input)) in
      let latest := latest_emission (ex_announce_id_history e) in
      ((packet_hops input ≤ ex_hops e)%Z ∧
        ((latest < emitted)%Z
         ∨ (emitted = latest ∧ ∃ a b, incoming_interface_gravity input = Some a
              ∧ ex_interface_gravity e = Some b ∧ (b < a)%Z)))
      ∨ ((ex_hops e < packet_hops input)%Z ∧
          (((ex_expires_at e ≤ arrived_at input)%Z ∧ in_announce_id input ∉ ex_announce_id_history e)
           ∨ ((arrived_at input < ex_expires_at e)%Z ∧
               ((latest < emitted)%Z ∨ (emitted = latest ∧ ex_responsiveness e = Unresponsive)))))
  end.
Proof.
  intros Hok. destruct (Z.ltb_spec MAX_HOP_COUNT (packet_hops input)) as [Hh|Hh].
  { unfold determine_acceptance. rewrite (proj2 (Z.ltb_lt _ _)) by done.
    split; [by intros [? ?]|]. intros [? _]. lia. }
  destruct (destination_is_self_or_upstream input) eqn:Hself.
  { unfold determine_acceptance. rewrite (proj2 (Z.ltb_ge _ _)), Hself by done.
    split; [by intros [? ?]|]. by intros (_ & ? & _). }
  destruct (existing_route input) as [e|] eqn:He.
  2:{ unfold determine_acceptance. rewrite (proj2 (Z.ltb_ge _ _)), Hself, He by done.
      split; [done|]. intros _. by eexists. }
  rewrite (determine_existing input e) by done. unfold decide_by_knowledge.
  set (emitted := as_count (timebase (in_announce_id input))).
  set (latest := latest_emission (ex_announce_id_history e)).
  destruct (Z.ltb_spec (ex_hops e) (packet_hops input)) as [Hl|Hl].
  - destruct (Z.leb_spec (ex_expires_at e) (arrived_at input)) as [Hx|Hx].
    + case_bool_decide as Hk.
      * split; [by intros [? ?]|]. intros (_ & _ & [[? _]|[_ [[_ ?]|[? _]]]]); [lia|done|lia].
      * split; [|intros _; by eexists]. intros _. split; [done|]. split; [done|]. right. split; [done|]. by left.
    + destruct (Z.compare_spec emitted latest) as [Heq|Hlt|Hgt].
      * destruct (ex_responsiveness e) eqn:Hr.
        3:{ split; [|intros _; by eexists]. intros _. split; [done|]. split; [done|]. right.
            split; [done|]. right. split; [done|]. by right. }
        all: split; [by intros [? ?]|].
        all: intros (_ & _ & [[? _]|[_ [[? _]|[_ [?|[_ ?]]]]]]); (lia || done).
      * split; [by intros [? ?]|].
        intros (_ & _ & [[? _]|[_ [[? _]|[_ [?|[? _]]]]]]); lia.
      * split; [|intros _; by eexists]. intros _. split; [done|]. split; [done|]. right. split; [done|]. right.
        split; [done|]. by left.
  - destruct ((emitted =? latest)%Z && _) eqn:Hg.
    { split; [|intros _; by eexists]. intros _. split; [done|]. split; [done|]. left. split; [done|]. right.
      apply andb_true_iff in Hg as [Heq%Z.eqb_eq Hg]. split; [done|].
      destruct (incoming_interface_gravity input) as [a|], (ex_interface_gravity e) as [b|]; try done.
      exists a, b. split; [done|]. split; [done|]. by apply Z.ltb_lt. }
    assert (Hng : ¬ (emitted = latest ∧ ∃ a b, incoming_interface_gravity input = Some a
      ∧ ex_interface_gravity e = Some b ∧ (b < a)%Z)).
    { intros (Heq & a & b & Ha & Hb & Hab). rewrite Ha, Hb, Heq, Z.eqb_refl in Hg. cbn in Hg.
      apply Z.ltb_ge in Hg. lia. }
    case_bool_decide as Hk.
    { apply known_emission in Hk. fold emitted latest in Hk. split; [by intros [? ?]|].
      intros (_ & _ & [[_ [?|?]]|[? _]]); [lia|done|lia]. }
    destruct (Z.ltb_spec latest emitted) as [Hlt|Hge].
    + split; [|intros _; by eexists]. intros _. split; [done|]. split; [done|]. left. split; [done|]. by left.
    + split; [by intros [? ?]|]. intros (_ & _ & [[_ [?|?]]|[? _]]); [lia|done|lia].
Qed.

(** The decision depends on what was heard and not on the order it was heard in: permuting
    the stored ids of the known route does not change it. *)
Theorem acceptance_ignores_history_order input e history' :
  input_ok input → existing_route input = Some e →
  history' ≡ₚ ex_announce_id_history e →
  determine_acceptance
    (mkInput (packet_hops input) (in_announce_id input) (destination_is_self_or_upstream input)
       (Some (mkExisting (ex_hops e) (ex_expires_at e) history' (ex_responsiveness e)
                (ex_interface_gravity e)))
       (incoming_interface_gravity input) (arrived_at input))
  = determine_acceptance input.
Proof.
  intros Hok He Hp. set (e' := mkExisting _ _ history' _ _). set (input' := mkInput _ _ _ _ _ _).
  destruct (Z.ltb_spec MAX_HOP_COUNT (packet_hops input)) as [Hh|Hh].
  { unfold determine_acceptance, input'. cbn. by rewrite (proj2 (Z.ltb_lt _ _)) by done. }
  destruct (destination_is_self_or_upstream input) eqn:Hself.
  { unfold determine_acceptance, input'. cbn. by rewrite (proj2 (Z.ltb_ge _ _)), Hself by done. }
  assert (Hok' : input_ok input').
  { destruct Hok as [Ht Hh']. split; [done|]. cbn. rewrite He in Hh'. cbn in Hh'.
    unfold history_ok in *. by rewrite Hp. }
  rewrite (determine_existing input' e'), (determine_existing input e) by done.
  unfold decide_by_knowledge, input', e'. cbn [ex_hops ex_expires_at ex_announce_id_history
    ex_responsiveness ex_interface_gravity packet_hops in_announce_id incoming_interface_gravity
    arrived_at].
  rewrite (latest_emission_perm _ _ Hp).
  replace (bool_decide (in_announce_id input ∈ history'))
    with (bool_decide (in_announce_id input ∈ ex_announce_id_history e)); [done|].
  apply bool_decide_ext. by rewrite Hp.
Qed.

(** ** Witnesses *)

Definition id_at (tag seconds : Z) : AnnounceId := mint (replicate 5 tag) (seconds * 1000)%Z.
Definition sample_input : AnnounceAcceptanceInput :=
  mkInput 6%Z (id_at 0x9a 300) false
    (Some (mkExisting 2%Z 10000%Z [id_at 0x99 300; id_at 0x98 200] Unresponsive None)) None 1000%Z.

Lemma sample_input_ok : input_ok sample_input.
Proof.
  split; [by apply (mint_timebase (replicate 5 0x9a%Z) 300000%Z)|].
  cbn. apply list.Forall_cons. split; [by apply (mint_timebase (replicate 5 0x99%Z) 300000%Z)|].
  apply list.Forall_cons. split; [by apply (mint_timebase (replicate 5 0x98%Z) 200000%Z)|constructor].
Qed.

Lemma announce_accepted_iff_witness :
  ∃ r, determine_acceptance sample_input = Accept r.
Proof.
  apply (announce_accepted_iff sample_input sample_input_ok).
  split; [done|]. split; [done|]. cbn. right. split; [done|]. right. split; [done|]. right.
  split; [by vm_compute|done].
Defined.

Lemma acceptance_ignores_history_order_witness :
  determine_acceptance
    (mkInput 6%Z (id_at 0x9a 300) false
      (Some (mkExisting 2%Z 10000%Z [id_at 0x98 200; id_at 0x99 300] Unresponsive None)) None 1000%Z)
  = determine_acceptance sample_input.
Proof.
  refine (acceptance_ignores_history_order sample_input
    (mkExisting 2%Z 10000%Z [id_at 0x99 300; id_at 0x98 200] Unresponsive None)
    [id_at 0x98 200; id_at 0x99 300] sample_input_ok eq_refl _).
  apply perm_swap.
Defined.
