(* ===== verification/Interfaces.v ===== *)
(** Interfaces as routing sees them: their kinds ([interfaces/identity/kind.rs], [id.rs]), capabilities
    ([interfaces/policy/capabilities.rs]) and bitrates ([interfaces/descriptor/]). *)

From S2P Require Import Prelude Routes.

(** * Kinds *)

Inductive InterfaceKind :=
  | Loopback | TcpClient | TcpServer | Udp | Serial | UsbAutoHost | UsbAutoDevice | AutoWifi | WifiPeer
  | LocalServer | LocalClient | TcpServerPeer | BluetoothAuto | BluetoothPeer | LoRa | Kiss | Ax25Kiss | Pipe
  | Rnode | BackboneServer | BackboneServerPeer | BackboneClient | EspNow | WebSocketClient | WebSocketServer
  | WebSocketServerPeer | WifiDirect | WifiDirectPeer | WifiAware | WifiAwarePeer | I2p | I2pPeer | Weave
  | WeavePeer | WifiHaLow | WifiHaLowPeer | WifiHaLowBroadcast.
#[global] Instance InterfaceKind_eq_dec : EqDecision InterfaceKind.
Proof. solve_decision. Defined.

(** The variants in the order of their discriminants: [InterfaceKind::ALL]. *)
Definition ALL_KINDS : list InterfaceKind :=
  [Loopback; TcpClient; TcpServer; Udp; Serial; UsbAutoHost; UsbAutoDevice; AutoWifi; WifiPeer; LocalServer;
   LocalClient; TcpServerPeer; BluetoothAuto; BluetoothPeer; LoRa; Kiss; Ax25Kiss; Pipe; Rnode; BackboneServer;
   BackboneServerPeer; BackboneClient; EspNow; WebSocketClient; WebSocketServer; WebSocketServerPeer;
   WifiDirect; WifiDirectPeer; WifiAware; WifiAwarePeer; I2p; I2pPeer; Weave; WeavePeer; WifiHaLow;
   WifiHaLowPeer; WifiHaLowBroadcast].

(** [kind as u8] *)
Definition kind_as_u8 (kind : InterfaceKind) : Z :=
  match kind with
  | Loopback => 0 | TcpClient => 1 | TcpServer => 2 | Udp => 3 | Serial => 4 | UsbAutoHost => 5
  | UsbAutoDevice => 6 | AutoWifi => 7 | WifiPeer => 8 | LocalServer => 9 | LocalClient => 10
  | TcpServerPeer => 11 | BluetoothAuto => 12 | BluetoothPeer => 13 | LoRa => 14 | Kiss => 15 | Ax25Kiss => 16
  | Pipe => 17 | Rnode => 18 | BackboneServer => 19 | BackboneServerPeer => 20 | BackboneClient => 21
  | EspNow => 22 | WebSocketClient => 23 | WebSocketServer => 24 | WebSocketServerPeer => 25 | WifiDirect => 26
  | WifiDirectPeer => 27 | WifiAware => 28 | WifiAwarePeer => 29 | I2p => 30 | I2pPeer => 31 | Weave => 32
  | WeavePeer => 33 | WifiHaLow => 34 | WifiHaLowPeer => 35 | WifiHaLowBroadcast => 36
  end.

Definition kind_from_u8 (byte : Z) : option InterfaceKind :=
  match byte with
  | 0 => Some Loopback | 1 => Some TcpClient | 2 => Some TcpServer | 3 => Some Udp | 4 => Some Serial
  | 5 => Some UsbAutoHost | 6 => Some UsbAutoDevice | 7 => Some AutoWifi | 8 => Some WifiPeer
  | 9 => Some LocalServer | 10 => Some LocalClient | 11 => Some TcpServerPeer | 12 => Some BluetoothAuto
  | 13 => Some BluetoothPeer | 14 => Some LoRa | 15 => Some Kiss | 16 => Some Ax25Kiss | 17 => Some Pipe
  | 18 => Some Rnode | 19 => Some BackboneServer | 20 => Some BackboneServerPeer | 21 => Some BackboneClient
  | 22 => Some EspNow | 23 => Some WebSocketClient | 24 => Some WebSocketServer | 25 => Some WebSocketServerPeer
  | 26 => Some WifiDirect | 27 => Some WifiDirectPeer | 28 => Some WifiAware | 29 => Some WifiAwarePeer
  | 30 => Some I2p | 31 => Some I2pPeer | 32 => Some Weave | 33 => Some WeavePeer | 34 => Some WifiHaLow
  | 35 => Some WifiHaLowPeer | 36 => Some WifiHaLowBroadcast
  | _ => None
  end%Z.

(** [InterfaceId::kind]: the first of the id's eight bytes. *)
Definition interface_kind (id : InterfaceId) : option InterfaceKind :=
  match id with [] => None | byte :: _ => kind_from_u8 byte end.

Definition is_shared_broadcast (kind : InterfaceKind) : bool := bool_decide (kind = WifiHaLowBroadcast).

Definition member_kind (kind : InterfaceKind) : option InterfaceKind :=
  match kind with
  | AutoWifi => Some WifiPeer
  | LocalServer => Some LocalClient
  | TcpServer => Some TcpServerPeer
  | BackboneServer => Some BackboneServerPeer
  | BluetoothAuto => Some BluetoothPeer
  | WebSocketServer => Some WebSocketServerPeer
  | WifiDirect => Some WifiDirectPeer
  | WifiAware => Some WifiAwarePeer
  | I2p => Some I2pPeer
  | Weave => Some WeavePeer
  | WifiHaLow => Some WifiHaLowPeer
  | _ => None
  end.

Definition supervisor_kind (kind : InterfaceKind) : option InterfaceKind :=
  match kind with
  | WifiPeer => Some AutoWifi
  | LocalClient => Some LocalServer
  | TcpServerPeer => Some TcpServer
  | BackboneServerPeer => Some BackboneServer
  | BluetoothPeer => Some BluetoothAuto
  | WebSocketServerPeer => Some WebSocketServer
  | WifiDirectPeer => Some WifiDirect
  | WifiAwarePeer => Some WifiAware
  | I2pPeer => Some I2p
  | WeavePeer => Some Weave
  | WifiHaLowPeer => Some WifiHaLow
  | _ => None
  end.

Definition fanout_kind (kind : InterfaceKind) : option InterfaceKind :=
  match kind with
  | WifiHaLowBroadcast => Some WifiHaLow
  | _ => supervisor_kind kind
  end.

(** * Capabilities *)

Record Capabilities := mkCapabilities { receives : bool; transmits : bool; forwards : bool; repeats : bool }.

Inductive IngressCapability := IngressDisabled | IngressEnabled.
Inductive TransportCapability := NoTransport | CrossInterfaceOnly | SameInterfaceRepeat.
Inductive EgressCapability := EgressDisabled | EgressEnabled (transport : TransportCapability).
Record InterfaceCapabilities := mkInterfaceCapabilities { ingress : IngressCapability; egress : EgressCapability }.
Inductive InterfaceCapabilitiesError := TransportRequiresTransmit | SameInterfaceRepeatRequiresTransport.

Definition allows_transmit (c : InterfaceCapabilities) : bool :=
  match egress c with EgressDisabled => false | EgressEnabled _ => true end.
Definition allows_transport (c : InterfaceCapabilities) : bool :=
  match egress c with EgressEnabled (CrossInterfaceOnly | SameInterfaceRepeat) => true | _ => false end.
Definition allows_same_interface_repeat (c : InterfaceCapabilities) : bool :=
  match egress c with EgressEnabled SameInterfaceRepeat => true | _ => false end.

(** [TryFrom<Capabilities>] *)
Definition capabilities_try_from (c : Capabilities) : result InterfaceCapabilitiesError InterfaceCapabilities :=
  let ingress := if receives c then IngressEnabled else IngressDisabled in
  match transmits c, forwards c, repeats c with
  | false, false, false => Ok (mkInterfaceCapabilities ingress EgressDisabled)
  | true, false, false => Ok (mkInterfaceCapabilities ingress (EgressEnabled NoTransport))
  | true, true, false => Ok (mkInterfaceCapabilities ingress (EgressEnabled CrossInterfaceOnly))
  | true, true, true => Ok (mkInterfaceCapabilities ingress (EgressEnabled SameInterfaceRepeat))
  | false, true, _ => Err TransportRequiresTransmit
  | false, false, true => Err SameInterfaceRepeatRequiresTransport
  | true, false, true => Err SameInterfaceRepeatRequiresTransport
  end.

(** * Policies ([interfaces/policy/common.rs]) *)

Inductive RecursivePathRequestPolicy := InheritNode | RecursiveEnabled | RecursiveDisabled.
#[global] Instance RecursivePathRequestPolicy_eq_dec : EqDecision RecursivePathRequestPolicy.
Proof. solve_decision. Defined.
Definition recursive_from_configured (enabled : bool) : RecursivePathRequestPolicy :=
  if enabled then RecursiveEnabled else RecursiveDisabled.
Record InterfaceForwardingPolicy := mkForwardingPolicy {
  fp_recursive_path_requests : RecursivePathRequestPolicy;
  fp_announces_from_internal : bool;
  fp_announces_to_internal : bool;
}.

(** Frequencies are in millihertz. *)
Record IngressControlPolicy := mkIngress {
  ic_enabled : bool;
  ic_max_held_announces : Z;
  ic_new_interface_millis : Z;
  ic_announce_burst_frequency_new : Z;
  ic_announce_burst_frequency : Z;
  ic_path_request_burst_frequency_new : Z;
  ic_path_request_burst_frequency : Z;
  ic_burst_hold_millis : Z;
  ic_burst_penalty_millis : Z;
  ic_held_release_interval_millis : Z;
}.
Record PathRequestEgressControl := mkEgress { ec_enabled : bool; ec_frequency : Z }.
Record InterfaceCommonPolicy := mkCommonPolicy {
  cp_forwarding : InterfaceForwardingPolicy;
  cp_ingress_control : IngressControlPolicy;
  cp_path_request_egress : PathRequestEgressControl;
}.

(** [InterfaceCommonPolicy::RNS_DEFAULT] *)
Definition RNS_DEFAULT_ingress_control : IngressControlPolicy :=
  mkIngress true 256 (2 * 60 * 60 * 1000) 3000 10000 3000 8000 15000 15000 5000.
Definition RNS_DEFAULT : InterfaceCommonPolicy :=
  mkCommonPolicy (mkForwardingPolicy InheritNode true false) RNS_DEFAULT_ingress_control (mkEgress false 5000).

(** * Bitrates *)

(** [BitrateBps], a [u64] of at least [MINIMUM_BITRATE] *)
Definition MINIMUM_BITRATE : Z := 5.
Definition BitrateBps_new (bps : Z) : option Z := if (MINIMUM_BITRATE <=? bps)%Z then Some bps else None.

Definition hardware_mtu_for_bitrate (bitrate_bps : Z) : option Z :=
  if (1000000000 <=? bitrate_bps)%Z then Some 524288%Z
  else if (750000000 <=? bitrate_bps)%Z then Some 262144%Z
  else if (400000000 <=? bitrate_bps)%Z then Some 131072%Z
  else if (200000000 <=? bitrate_bps)%Z then Some 65536%Z
  else if (100000000 <=? bitrate_bps)%Z then Some 32768%Z
  else if (10000000 <=? bitrate_bps)%Z then Some 16384%Z
  else if (5000000 <=? bitrate_bps)%Z then Some 8192%Z
  else if (2000000 <=? bitrate_bps)%Z then Some 4096%Z
  else if (1000000 <=? bitrate_bps)%Z then Some 2048%Z
  else if (62500 <=? bitrate_bps)%Z then Some 1024%Z
  else None.

(** * Properties *)

(** What the capabilities of an interface mean, by themselves. *)
Definition coherent_capabilities (c : Capabilities) : Prop :=
  (repeats c = true → forwards c = true) ∧ (forwards c = true → transmits c = true).

(** What each byte stands for. *)
Lemma kind_bytes byte :
  is_u8 byte → match kind_from_u8 byte with Some kind => (byte =? kind_as_u8 kind)%Z | None => (Z.of_nat (length ALL_KINDS) <=? byte)%Z end = true.
Proof.
  apply (u8_forall (λ b, match kind_from_u8 b with Some kind => (b =? kind_as_u8 kind)%Z | None => (Z.of_nat (length ALL_KINDS) <=? b)%Z end)).
  vm_compute. reflexivity.
Qed.

(** C33. The types rule out what makes no sense.  Flags are accepted exactly if repeating implies forwarding and
    forwarding implies transmitting, and the accepted capabilities answer exactly the flags; every kind of
    interface is the one read from its own byte, any other byte is refused; and a kind supervises another exactly
    if that one names it as its supervisor. *)
Theorem interface_types_are_coherent :
  (∀ c, coherent_capabilities c ↔ ∃ ic, capabilities_try_from c = Ok ic)
  ∧ (∀ c ic, capabilities_try_from c = Ok ic →
       (ingress ic = IngressEnabled ↔ receives c = true) ∧ allows_transmit ic = transmits c
       ∧ allows_transport ic = forwards c ∧ allows_same_interface_repeat ic = repeats c)
  ∧ (∀ kind, kind_from_u8 (kind_as_u8 kind) = Some kind ∧ ALL_KINDS !! Z.to_nat (kind_as_u8 kind) = Some kind)
  ∧ (∀ byte kind, is_u8 byte → kind_from_u8 byte = Some kind → byte = kind_as_u8 kind)
  ∧ (∀ byte, is_u8 byte → (kind_from_u8 byte = None ↔ (Z.of_nat (length ALL_KINDS) ≤ byte)%Z))
  ∧ (∀ kind member, member_kind kind = Some member ↔ supervisor_kind member = Some kind).
Proof.
  split; [|split; [|split; [|split; [|split]]]].
  - intros [r t f p]. unfold coherent_capabilities. cbn. destruct t, f, p; cbn; split; try (intros [H1 H2]; naive_solver); by eauto || (intros [? [=]]).
  - intros [r t f p] ic. destruct r, t, f, p; cbn; intros [= <-]; done.
  - intros []; done.
  - intros byte kind Hb E. pose proof (kind_bytes byte Hb) as Hk. rewrite E in Hk. by apply Z.eqb_eq.
  - intros byte Hb. pose proof (kind_bytes byte Hb) as Hk. destruct (kind_from_u8 byte) as [kind|].
    + apply Z.eqb_eq in Hk. split; [done|]. subst byte. by destruct kind.
    + apply Z.leb_le in Hk. by split.
  - intros [] []; cbn; split; done.
Qed.
