(* ===== verification/Lifetime.v ===== *)
(** What a route's lifetime depends on: interface modes and their route expiry
    ([prns-core/src/routing/announce/defaults.rs], [interfaces/policy/mode.rs],
    [interfaces/descriptor/]), route warmth ([routing/warmth/core.rs]), departed interfaces
    ([routing/warmth/departed/core.rs]) and the expiry index trait with its linear
    implementation ([routing/route_expiry/]). *)

From S2P Require Import Prelude Columns Routes Interfaces.

(** * Interfaces *)

Inductive InterfaceMode := Full | PointToPoint | AccessPoint | Roaming | Boundary | Gateway | Internal.
#[global] Instance InterfaceMode_eq_dec : EqDecision InterfaceMode.
Proof. solve_decision. Defined.

Definition DEFAULT_ROUTE_EXPIRY_MILLIS : Z := (60 * 60 * 24 * 7 * 1000)%Z.
Definition ACCESS_POINT_ROUTE_EXPIRY_MILLIS : Z := (60 * 60 * 24 * 1000)%Z.
Definition ROAMING_ROUTE_EXPIRY_MILLIS : Z := (60 * 60 * 6 * 1000)%Z.

Definition route_expiry_millis (mode : InterfaceMode) : Z :=
  match mode with
  | AccessPoint => ACCESS_POINT_ROUTE_EXPIRY_MILLIS
  | Roaming => ROAMING_ROUTE_EXPIRY_MILLIS
  | Full | PointToPoint | Boundary | Gateway | Internal => DEFAULT_ROUTE_EXPIRY_MILLIS
  end.

(** The fields of [InterfaceDescriptor] that routing reads. *)
Record InterfaceDescriptor := mkDescriptor {
  d_id : InterfaceId;
  d_capabilities : InterfaceCapabilities;
  d_mode : InterfaceMode;
  d_gravity : Z;
  d_bitrate : Z;
  d_hardware_mtu : option Z;
  d_common : InterfaceCommonPolicy;
}.

(** [AttachedInterfaces::descriptor_for] over the plain slice. *)
Definition AttachedInterfaces := list InterfaceDescriptor.
Definition descriptor_for (interfaces : AttachedInterfaces) (id : InterfaceId) :
    option InterfaceDescriptor := find (λ d, bool_decide (d_id d = id)) interfaces.

(** * Warmth *)

(** [RouteWarmth]: until when a detached interface's routes stay. *)
Definition RouteWarmth := InterfaceId → option InstantMillis.
Definition no_warmth : RouteWarmth := λ _, None.
Definition WarmestOf (a b : RouteWarmth) : RouteWarmth := λ interface,
  match a interface, b interface with
  | Some x, Some y => Some (Z.max x y)
  | Some x, None => Some x
  | None, o => o
  end.

(** * Departed interfaces *)

Inductive Departure := Forgotten | MayReturn.
Definition DEPARTED_INTERFACE_GRACE_MS : Z := (5 * 60 * 1000)%Z.

Record DepartedInterface := mkDeparted { dep_interface : InterfaceId; dep_warm_until : InstantMillis }.

(** The trait [DepartedInterfaceTable] *)
Class DepartedInterfaceTable (T : Type) := {
  dt_capacity : T → Z;
  dt_len : T → nat;
  dt_interfaces : T → run (list InterfaceId);
  dt_warm_untils : T → run (list InstantMillis);
  dt_push : T → DepartedInterface → run T;
  dt_swap_remove : T → nat → run T;
}.

(** [min_by_key]: the position of the first minimum. *)
Fixpoint argmin_loop (xs : list Z) (i best_i : nat) (best : Z) : nat :=
  match xs with
  | [] => best_i
  | x :: xs => if (x <? best)%Z then argmin_loop xs (S i) i x else argmin_loop xs (S i) best_i best
  end.
Definition argmin (xs : list Z) : option nat :=
  match xs with [] => None | x :: xs => Some (argmin_loop xs 1 0 x) end.

Section departed.
Context {T : Type} `{DepartedInterfaceTable T}.

(** The purging loop of [record]. *)
Fixpoint purge_loop (fuel : nat) (t : T) (interface : InterfaceId) (now : InstantMillis)
    (i : nat) : run T :=
  match fuel with
  | O => OutOfFuel
  | S fuel =>
      if (i <? dt_len t)%nat then
        id ← cell (dt_interfaces t) i;
        warm_until ← cell (dt_warm_untils t) i;
        if bool_decide (id = interface) || (warm_until <=? now)%Z
        then t ← dt_swap_remove t i; purge_loop fuel t interface now i
        else purge_loop fuel t interface now (S i)
      else Done t
  end.

Definition evict_soonest_expiring (t : T) : run T :=
  ws ← dt_warm_untils t;
  match argmin ws with
  | None => Done t
  | Some i => dt_swap_remove t i
  end.

Definition record (t : T) (interface : InterfaceId) (departure : Departure)
    (now : InstantMillis) : run T :=
  t ← purge_loop (S (dt_len t)) t interface now 0;
  match departure with
  | Forgotten => Done t
  | MayReturn =>
      t ← (if (dt_capacity t <=? Z.of_nat (dt_len t))%Z then evict_soonest_expiring t else Done t);
      dt_push t (mkDeparted interface (saturating_add 64 now DEPARTED_INTERFACE_GRACE_MS))
  end.

Fixpoint evict_expired_loop (fuel : nat) (t : T) (now : InstantMillis) (evicted : nat) :
    run (nat * T) :=
  match fuel with
  | O => OutOfFuel
  | S fuel =>
      ws ← dt_warm_untils t;
      match position_from (λ warm_until, (warm_until <=? now)%Z) ws 0 with
      | None => Done (evicted, t)
      | Some i => t ← dt_swap_remove t i; evict_expired_loop fuel t now (S evicted)
      end
  end.
Definition evict_expired (t : T) (now : InstantMillis) : run (nat * T) :=
  evict_expired_loop (S (dt_len t)) t now 0.

(** [RouteWarmth::warm_until] *)
Definition departed_warm_until (t : T) (interface : InterfaceId) : run (option InstantMillis) :=
  ids ← dt_interfaces t;
  match position_from (λ candidate, bool_decide (candidate = interface)) ids 0 with
  | None => Done None
  | Some i => w ← cell (dt_warm_untils t) i; Done (Some w)
  end.
End departed.

(** The contract: at most [cap] rows, appended and swap-removed. *)
Class DepartedLaws (T : Type) `{DepartedInterfaceTable T} := {
  dt_rep : T → Z → list DepartedInterface → Prop;
  dt_capacity_ok : ∀ t cap rows, dt_rep t cap rows → dt_capacity t = cap;
  dt_len_ok : ∀ t cap rows, dt_rep t cap rows → dt_len t = length rows ∧ (Z.of_nat (length rows) ≤ cap)%Z;
  dt_columns_ok : ∀ t cap rows, dt_rep t cap rows →
    dt_interfaces t = Done (dep_interface <$> rows)
    ∧ dt_warm_untils t = Done (dep_warm_until <$> rows);
  dt_push_ok : ∀ t cap rows e, dt_rep t cap rows → (Z.of_nat (length rows) < cap)%Z →
    ∃ t', dt_push t e = Done t' ∧ dt_rep t' cap (rows ++ [e]);
  dt_swap_remove_ok : ∀ t cap rows i, dt_rep t cap rows → i < length rows →
    ∃ t', dt_swap_remove t i = Done t' ∧ dt_rep t' cap (swap_removed rows i);
}.

(** [FixedDepartedInterfaceTable] *)
Module FixedDeparted.
Record FixedDepartedInterfaceTable (MAX_DEPARTED_INTERFACES : nat) := mk {
  len : nat;
  f_interfaces : list InterfaceId;
  f_warm_untils : list InstantMillis;
}.
Arguments mk {_}.
Arguments len {_}.
Arguments f_interfaces {_}.
Arguments f_warm_untils {_}.

Section fixed.
Context {MAX : nat}.
Abbreviation table := (FixedDepartedInterfaceTable MAX).

Definition default : table := mk 0 (replicate MAX (replicate 8 0%Z)) (replicate MAX 0%Z).

Definition push (t : table) (entry : DepartedInterface) : run table :=
  if (MAX <=? len t)%nat then Done t else
  ids ← store (f_interfaces t) (len t) (dep_interface entry);
  ws ← store (f_warm_untils t) (len t) (dep_warm_until entry);
  Done (mk (len t + 1) ids ws).

Definition swap_remove (t : table) (index : nat) : run table :=
  if (len t =? 0)%nat then Panic else
  let last := len t - 1 in
  if (index =? last)%nat then Done (mk last (f_interfaces t) (f_warm_untils t)) else
  ids ← move_last (f_interfaces t) index last;
  ws ← move_last (f_warm_untils t) index last;
  Done (mk last ids ws).

#[global] Instance fixed_departed : DepartedInterfaceTable table := {|
  dt_capacity := λ _, Z.of_nat MAX;
  dt_len := len;
  dt_interfaces := λ t, slice (f_interfaces t) 0 (len t);
  dt_warm_untils := λ t, slice (f_warm_untils t) 0 (len t);
  dt_push := push;
  dt_swap_remove := swap_remove;
|}.
End fixed.
End FixedDeparted.

(** [HeapDepartedInterfaceTable] *)
Module HeapDeparted.
Record HeapDepartedInterfaceTable := mk {
  h_interfaces : list InterfaceId;
  h_warm_untils : list InstantMillis;
}.
Definition default : HeapDepartedInterfaceTable := mk [] [].

Definition push (t : HeapDepartedInterfaceTable) (entry : DepartedInterface) :
    run HeapDepartedInterfaceTable :=
  Done (mk (h_interfaces t ++ [dep_interface entry]) (h_warm_untils t ++ [dep_warm_until entry])).

Definition swap_remove (t : HeapDepartedInterfaceTable) (index : nat) :
    run HeapDepartedInterfaceTable :=
  ids ← vec_swap_remove (h_interfaces t) index;
  ws ← vec_swap_remove (h_warm_untils t) index;
  Done (mk ids ws).

#[global] Instance heap_departed : DepartedInterfaceTable HeapDepartedInterfaceTable := {|
  dt_capacity := λ _, usize_max;
  dt_len := λ t, length (h_interfaces t);
  dt_interfaces := λ t, Done (h_interfaces t);
  dt_warm_untils := λ t, Done (h_warm_untils t);
  dt_push := push;
  dt_swap_remove := swap_remove;
|}.
End HeapDeparted.

(** * The expiry index *)

(** [RouteExpiryIndex]; the index is shared, so its readers may also update it. *)
Class RouteExpiryIndex (I : Type) := {
  INDEXED : bool;
  ei_invalidate : I → run I;
  ei_insert : I → nat → InstantMillis → run I;
  ei_update : I → nat → InstantMillis → run I;
  ei_swap_remove : I → nat → nat → run I;
  ei_prefers_linear_cull : I → nat → InstantMillis → run (bool * I);
  ei_earliest_exact : I → nat → (nat → run InstantMillis) → run (option InstantMillis * I);
  ei_first_expired : I → nat → InstantMillis → (nat → run InstantMillis) → run (option nat * I);
}.

(** [(0..row_count).map(expiry_of).min()] and [(0..row_count).find(..)] *)
Fixpoint min_from (f : nat → run InstantMillis) (todo row : nat) (best : option InstantMillis) :
    run (option InstantMillis) :=
  match todo with
  | O => Done best
  | S todo =>
      e ← f row;
      min_from f todo (S row)
        (Some (match best with None => e | Some b => if (e <? b)%Z then e else b end))
  end.
Fixpoint find_from (f : nat → run InstantMillis) (now : InstantMillis) (todo row : nat) :
    run (option nat) :=
  match todo with
  | O => Done None
  | S todo => e ← f row; if (e <=? now)%Z then Done (Some row) else find_from f now todo (S row)
  end.

Record LinearRouteExpiryIndex := Linear {}.
#[global] Instance linear_expiry : RouteExpiryIndex LinearRouteExpiryIndex := {|
  INDEXED := false;
  ei_invalidate := λ ix, Done ix;
  ei_insert := λ ix _ _, Done ix;
  ei_update := λ ix _ _, Done ix;
  ei_swap_remove := λ ix _ _, Done ix;
  ei_prefers_linear_cull := λ ix _ _, Done (true, ix);
  ei_earliest_exact := λ ix n f, o ← min_from f n 0 None; Done (o, ix);
  ei_first_expired := λ ix n now f, o ← find_from f now n 0; Done (o, ix);
|}.

(** [ei_rep ix es]: [ix] serves rows with the expiries [es]. *)
Class RouteExpiryLaws (I : Type) `{RouteExpiryIndex I} := {
  ei_rep : I → list InstantMillis → Prop;
  ei_invalidate_ok : ∀ ix es, ei_rep ix es →
    ∃ ix', ei_invalidate ix = Done ix' ∧ ∀ es', ei_rep ix' es';
  ei_insert_ok : ∀ ix es e, ei_rep ix es →
    ∃ ix', ei_insert ix (length es) e = Done ix' ∧ ei_rep ix' (es ++ [e]);
  ei_update_ok : ∀ ix es i e, ei_rep ix es → i < length es →
    ∃ ix', ei_update ix i e = Done ix' ∧ ei_rep ix' (<[i := e]> es);
  ei_swap_remove_ok : ∀ ix es i, ei_rep ix es → i < length es →
    ∃ ix', ei_swap_remove ix i (length es - 1) = Done ix' ∧ ei_rep ix' (swap_removed es i);
  ei_prefers_ok : ∀ ix es n now, ei_rep ix es →
    ∃ b ix', ei_prefers_linear_cull ix n now = Done (b, ix') ∧ ei_rep ix' es;
  ei_earliest_ok : ∀ ix es f, ei_rep ix es → (∀ i e, es !! i = Some e → f i = Done e) →
    ∃ o ix', ei_earliest_exact ix (length es) f = Done (o, ix') ∧ ei_rep ix' es
      ∧ match o with
        | None => es = []
        | Some e => e ∈ es ∧ Forall (λ e', (e ≤ e')%Z) es
        end;
  ei_first_expired_ok : ∀ ix es now f, ei_rep ix es → (∀ i e, es !! i = Some e → f i = Done e) →
    ∃ o ix', ei_first_expired ix (length es) now f = Done (o, ix') ∧ ei_rep ix' es
      ∧ match o with
        | None => Forall (λ e, (now < e)%Z) es
        | Some i => ∃ e, es !! i = Some e ∧ (e ≤ now)%Z
        end;
}.

(** * Lemmas: searching a column *)

Lemma argmin_loop_spec xs ys best_i best i :
  length ys = i → ys !! best_i = Some best → Forall (λ y, (best ≤ y)%Z) ys →
  ∃ m, (ys ++ xs) !! argmin_loop xs i best_i best = Some m ∧ Forall (λ y, (m ≤ y)%Z) (ys ++ xs).
Proof.
  revert ys best_i best i. induction xs as [|x xs IH]; intros ys best_i best i Hl Hb Hall; cbn [argmin_loop].
  - rewrite app_nil_r. by exists best.
  - replace (ys ++ x :: xs) with ((ys ++ [x]) ++ xs) by (by rewrite <- app_assoc).
    destruct (Z.ltb_spec x best); apply IH; try (rewrite length_app; cbn; lia).
    + by rewrite lookup_app_r, Hl, Nat.sub_diag by lia.
    + apply Forall_app. split; [|by repeat constructor].
      eapply list.Forall_impl; [exact Hall|]. cbn. lia.
    + rewrite lookup_app_l; [done|]. by eapply lookup_lt_Some.
    + apply Forall_app. split; [done|]. by repeat constructor.
Qed.

Lemma argmin_spec xs :
  match argmin xs with
  | None => xs = []
  | Some i => ∃ m, xs !! i = Some m ∧ Forall (λ y, (m ≤ y)%Z) xs
  end.
Proof.
  destruct xs as [|x xs]; cbn [argmin]; [done|].
  apply (argmin_loop_spec xs [x] 0 x 1); [done|done|]. by repeat constructor.
Qed.

Lemma min_from_spec f (es : list InstantMillis) i best :
  (∀ j e, es !! j = Some e → f (i + j) = Done e) →
  ∃ o, min_from f (length es) i best = Done o
    ∧ match o with
      | None => es = [] ∧ best = None
      | Some e => (e ∈ es ∨ best = Some e) ∧ Forall (λ e', (e ≤ e')%Z) es
                  ∧ match best with None => True | Some b => (e ≤ b)%Z end
      end.
Proof.
  revert i best. induction es as [|e es IH]; intros i best Hf; cbn [length min_from].
  - exists best. split; [done|]. destruct best; [|done].
    split; [by right|]. split; [constructor|lia].
  - assert (E0 : f i = Done e) by (rewrite <- (Nat.add_0_r i); by apply (Hf 0)).
    rewrite E0. cbn [mbind run_bind].
    destruct (IH (S i) (Some (match best with None => e | Some b => if (e <? b)%Z then e else b end)))
      as (o & -> & Ho).
    { intros j x Hx. rewrite Nat.add_succ_l, <- Nat.add_succ_r. by apply Hf. }
    exists o. split; [done|]. destruct o as [m|]; [|by destruct Ho].
    destruct Ho as (Hin & Hall & Hle). destruct best as [b|].
    + destruct (Z.ltb_spec e b); (split; [|split; [constructor; [lia|done]|lia]]);
        destruct Hin as [Hin|[=->]]; first [left; apply elem_of_cons; by auto|by right|idtac].
    + split; [|split; [by constructor|done]].
      destruct Hin as [Hin|[=->]]; left; apply elem_of_cons; by auto.
Qed.

Lemma find_from_spec f now (es : list InstantMillis) i :
  (∀ j e, es !! j = Some e → f (i + j) = Done e) →
  ∃ o, find_from f now (length es) i = Done o
    ∧ match o with
      | None => Forall (λ e, (now < e)%Z) es
      | Some r => i ≤ r ∧ ∃ e, es !! (r - i) = Some e ∧ (e ≤ now)%Z
      end.
Proof.
  revert i. induction es as [|e es IH]; intros i Hf; cbn [length find_from].
  - by exists None.
  - assert (E0 : f i = Done e) by (rewrite <- (Nat.add_0_r i); by apply (Hf 0)).
    rewrite E0. cbn [mbind run_bind].
    destruct (Z.leb_spec e now).
    + exists (Some i). split; [done|]. split; [done|]. exists e. by rewrite Nat.sub_diag.
    + destruct (IH (S i)) as (o & -> & Ho).
      { intros j x Hx. rewrite Nat.add_succ_l, <- Nat.add_succ_r. by apply Hf. }
      exists o. split; [done|]. destruct o as [r|]; [|by constructor].
      destruct Ho as (Hr & x & Hx & Hle). split; [lia|]. exists x.
      by replace (r - i) with (S (r - S i)) by lia.
Qed.

#[local] Obligation Tactic := idtac.
#[global] Program Instance linear_expiry_laws : RouteExpiryLaws LinearRouteExpiryIndex := {|
  ei_rep := λ _ _, True;
|}.
Next Obligation. by intros ix; exists ix. Qed.
Next Obligation. by intros ix; exists ix. Qed.
Next Obligation. by intros ix; exists ix. Qed.
Next Obligation. by intros ix; exists ix. Qed.
Next Obligation. intros ix. by exists true, ix. Qed.
Next Obligation.
  intros ix es f _ Hf. destruct (min_from_spec f es 0 None) as (o & E & Ho); [exact Hf|].
  exists o, ix. cbn [ei_earliest_exact linear_expiry]. rewrite E. split; [done|]. split; [done|].
  destruct o; [|by destruct Ho]. destruct Ho as ([?|?] & ? & _); [by split|done].
Qed.
Next Obligation.
  intros ix es now f _ Hf. destruct (find_from_spec f now es 0) as (o & E & Ho); [exact Hf|].
  exists o, ix. cbn [ei_first_expired linear_expiry]. rewrite E. split; [done|]. split; [done|].
  destruct o; [|done]. destruct Ho as (_ & e & He & Hle). rewrite Nat.sub_0_r in He. by exists e.
Qed.

(** * Lemmas: the departed tables *)

Module FixedDepartedLaws.
Import FixedDeparted.
Section fixed.
Context {MAX : nat}.

Record departed_columns (t : FixedDepartedInterfaceTable MAX) (rows : list DepartedInterface) : Prop := {
  dc_interfaces : column MAX (len t) (f_interfaces t) (dep_interface <$> rows);
  dc_warm_untils : column MAX (len t) (f_warm_untils t) (dep_warm_until <$> rows);
}.

Lemma departed_columns_len t rows : departed_columns t rows → len t = length rows ∧ length rows ≤ MAX.
Proof.
  intros [Hi _]. pose proof (column_length _ _ _ _ Hi) as E. rewrite length_fmap in E.
  destruct Hi as (_ & Hle & _). lia.
Qed.

Lemma departed_push t rows e :
  departed_columns t rows → length rows < MAX →
  ∃ t', push t e = Done t' ∧ departed_columns t' (rows ++ [e]).
Proof.
  intros Hc Hlt. destruct (departed_columns_len t rows Hc) as [El _]. destruct Hc as [Hi Hw].
  unfold push. rewrite (proj2 (Nat.leb_gt MAX (len t))) by lia.
  step_column (column_push MAX (len t) _ _ (dep_interface e) Hi ltac:(lia)).
  step_column (column_push MAX (len t) _ _ (dep_warm_until e) Hw ltac:(lia)).
  eexists. split; [done|]. split; cbn [len f_interfaces f_warm_untils];
    rewrite Nat.add_1_r, fmap_app; done.
Qed.

Lemma column_drop_last {A} n (col live : list A) :
  column MAX (S n) col live → column MAX n col (swap_removed live n).
Proof.
  intros (Hl & Hn & <-). split; [done|]. split; [lia|].
  destruct (lookup_lt_is_Some_2 col n) as [x Hx]; [lia|].
  rewrite (take_S_r _ _ x Hx), swap_removed_snoc, list_insert_ge; [done|]. rewrite length_take. lia.
Qed.

Lemma departed_swap_remove t rows i :
  departed_columns t rows → i < length rows →
  ∃ t', swap_remove t i = Done t' ∧ departed_columns t' (swap_removed rows i).
Proof.
  intros Hc Hi. destruct (departed_columns_len t rows Hc) as [El _]. destruct Hc as [Ha Hw].
  unfold swap_remove. rewrite (proj2 (Nat.eqb_neq (len t) 0)) by lia.
  destruct (len t) as [|last] eqn:Elen; [lia|].
  replace (S last - 1) with last by lia. destruct (Nat.eqb_spec i last) as [->|Hne].
  - eexists. split; [done|]. split; cbn [len f_interfaces f_warm_untils];
      rewrite fmap_swap_removed; by apply column_drop_last.
  - step_column (column_swap_remove MAX last _ _ i Ha ltac:(lia)).
    step_column (column_swap_remove MAX last _ _ i Hw ltac:(lia)).
    eexists. split; [done|]. split; cbn [len f_interfaces f_warm_untils]; by rewrite fmap_swap_removed.
Qed.

#[global] Program Instance fixed_departed_laws : DepartedLaws (FixedDepartedInterfaceTable MAX) := {|
  dt_rep := λ t cap rows, cap = Z.of_nat MAX ∧ departed_columns t rows;
|}.
Next Obligation. by intros t cap rows [-> _]. Qed.
Next Obligation. intros t cap rows [-> Hc]. cbn. apply departed_columns_len in Hc. lia. Qed.
Next Obligation. intros t cap rows [-> [Ha Hw]]. cbn. split; by eapply column_slice. Qed.
Next Obligation.
  intros t cap rows e [-> Hc] Hlt. destruct (departed_push t rows e Hc) as (t' & ? & ?); [lia|]. by exists t'.
Qed.
Next Obligation.
  intros t cap rows i [-> Hc] Hlt. destruct (departed_swap_remove t rows i Hc Hlt) as (t' & ? & ?). by exists t'.
Qed.
End fixed.
End FixedDepartedLaws.
Export (hints) FixedDepartedLaws.

Module HeapDepartedLaws.
Import HeapDeparted.

#[global] Program Instance heap_departed_laws : DepartedLaws HeapDepartedInterfaceTable := {|
  dt_rep := λ t cap rows, cap = usize_max ∧ (Z.of_nat (length rows) ≤ usize_max)%Z
    ∧ h_interfaces t = dep_interface <$> rows ∧ h_warm_untils t = dep_warm_until <$> rows;
|}.
Next Obligation. by intros t cap rows [-> _]. Qed.
Next Obligation. intros t cap rows (-> & Hl & Ei & _). cbn. by rewrite Ei, length_fmap. Qed.
Next Obligation. intros t cap rows (-> & Hl & Ei & Ew). cbn. by rewrite Ei, Ew. Qed.
Next Obligation.
  intros t cap rows e (-> & Hl & Ei & Ew) Hlt. eexists. split; [done|]. cbn.
  rewrite Ei, Ew, !fmap_app, length_app. cbn [length]. split; [done|]. split; [lia|]. done.
Qed.
Next Obligation.
  intros t cap rows i (-> & Hl & Ei & Ew) Hi. cbn. unfold swap_remove.
  rewrite Ei, Ew, vec_swap_remove_done by (by rewrite length_fmap). cbn [mbind run_bind].
  rewrite vec_swap_remove_done by (by rewrite length_fmap). cbn [mbind run_bind].
  eexists. split; [done|]. cbn. rewrite length_swap_removed, !fmap_swap_removed by done.
  split; [done|]. split; [lia|]. done.
Qed.
End HeapDepartedLaws.
Export (hints) HeapDepartedLaws.

(** ** Recording a departure *)

Definition purged (interface : InterfaceId) (now : Z) (e : DepartedInterface) : bool :=
  bool_decide (dep_interface e = interface) || (dep_warm_until e <=? now)%Z.

Section departed_facts.
Context {T : Type} `{DepartedLaws T}.

Lemma dt_cells t cap rows i e :
  dt_rep t cap rows → rows !! i = Some e →
  cell (dt_interfaces t) i = Done (dep_interface e) ∧ cell (dt_warm_untils t) i = Done (dep_warm_until e).
Proof.
  intros Hr Hi. destruct (dt_columns_ok t cap rows Hr) as [E1 E2]. unfold cell. rewrite E1, E2.
  cbn [mbind run_bind]. split; apply index_lookup; by rewrite list_lookup_fmap, Hi.
Qed.

Lemma purge_loop_sweeps fuel t cap rows interface now i :
  dt_rep t cap rows → length rows - i < fuel → i ≤ length rows →
  ∃ t', purge_loop fuel t interface now i = Done t'
    ∧ dt_rep t' cap (sweep (purged interface now) fuel i rows).1.
Proof.
  revert t rows i. induction fuel as [|fuel IH]; intros t rows i Hr Hf Hi; [lia|].
  cbn [purge_loop sweep]. destruct (dt_len_ok t cap rows Hr) as [-> _].
  destruct (Nat.ltb_spec i (length rows)) as [Hlt|Hge].
  - destruct (lookup_lt_is_Some_2 rows i Hlt) as [e He]. rewrite He.
    destruct (dt_cells t cap rows i e Hr He) as [-> ->]. cbn [mbind run_bind].
    change (bool_decide (dep_interface e = interface) || (dep_warm_until e <=? now)%Z)
      with (purged interface now e). destruct (purged interface now e).
    + destruct (dt_swap_remove_ok t cap rows i Hr Hlt) as (t' & -> & Hr'). cbn [mbind run_bind fst].
      apply IH; [done| |]; rewrite length_swap_removed by done; lia.
    + apply IH; [done|lia|lia].
  - rewrite (proj2 (lookup_ge_None rows i)) by done. by exists t.
Qed.

Lemma purge_spec t cap rows interface now :
  dt_rep t cap rows →
  ∃ t' kept, purge_loop (S (dt_len t)) t interface now 0 = Done t' ∧ dt_rep t' cap kept
    ∧ kept ≡ₚ filter (λ e, purged interface now e = false) rows.
Proof.
  intros Hr. destruct (dt_len_ok t cap rows Hr) as [-> _].
  destruct (purge_loop_sweeps (S (length rows)) t cap rows interface now 0 Hr) as (t' & E & Hr'); [lia|lia|].
  eexists t', _. split; [exact E|]. split; [exact Hr'|]. apply (sweep_all (purged interface now) rows).
Qed.

Lemma evict_soonest_spec t cap rows :
  dt_rep t cap rows → rows ≠ [] →
  ∃ t' x rows', evict_soonest_expiring t = Done t' ∧ dt_rep t' cap rows' ∧ rows ≡ₚ x :: rows'
    ∧ length rows' = length rows - 1 ∧ Forall (λ e, (dep_warm_until x ≤ dep_warm_until e)%Z) rows.
Proof.
  intros Hr Hne. unfold evict_soonest_expiring.
  destruct (dt_columns_ok t cap rows Hr) as [_ ->]. cbn [mbind run_bind].
  pose proof (argmin_spec (dep_warm_until <$> rows)) as Hm. destruct (argmin _) as [i|].
  - destruct Hm as (m & Hm & Hall). rewrite list_lookup_fmap in Hm. apply fmap_Some in Hm as (x & Hx & ->).
    pose proof (lookup_lt_Some _ _ _ Hx) as Hlt.
    destruct (dt_swap_remove_ok t cap rows i Hr Hlt) as (t' & -> & Hr'). exists t', x, (swap_removed rows i).
    split; [done|]. split; [done|]. split; [by rewrite (swap_removed_perm _ _ _ Hx)|].
    split; [by apply length_swap_removed|]. by rewrite Forall_fmap in Hall.
  - by destruct rows.
Qed.

Lemma departed_warm_until_spec t cap rows e :
  dt_rep t cap rows → NoDup (dep_interface <$> rows) → e ∈ rows →
  departed_warm_until t (dep_interface e) = Done (Some (dep_warm_until e)).
Proof.
  intros Hr Hnd He. unfold departed_warm_until. destruct (dt_columns_ok t cap rows Hr) as [-> _].
  cbn [mbind run_bind].
  pose proof (position_from_spec (λ c, bool_decide (c = dep_interface e)) (dep_interface <$> rows) 0) as Hp.
  destruct (position_from _ _ 0) as [i|].
  - destruct Hp as (_ & x & Hx & ->%bool_decide_eq_true). rewrite Nat.sub_0_r in Hx.
    apply list_elem_of_lookup in He as [j Hj].
    assert (i = j) as ->.
    { eapply NoDup_lookup; [exact Hnd|exact Hx|]. by rewrite list_lookup_fmap, Hj. }
    by destruct (dt_cells t cap rows j e Hr Hj) as [_ ->].
  - specialize (Hp (dep_interface e)). rewrite bool_decide_eq_false in Hp. exfalso. apply Hp; [|done].
    by apply list_elem_of_fmap_2.
Qed.
End departed_facts.

Lemma kept_interfaces (rows kept : list DepartedInterface) interface now :
  kept ≡ₚ filter (λ e, purged interface now e = false) rows →
  NoDup (dep_interface <$> rows) →
  NoDup (dep_interface <$> kept) ∧ (interface ∉ dep_interface <$> kept).
Proof.
  intros Hk Hnd. rewrite Hk. split.
  - eapply sublist_NoDup; [exact Hnd|]. apply fmap_sublist, sublist_filter.
  - intros (e & -> & He)%list_elem_of_fmap. apply list_elem_of_filter in He as [Hp _].
    apply orb_false_iff in Hp as [Hp _]. by apply bool_decide_eq_false in Hp.
Qed.

Section departures.
Context {T : Type} `{DepartedLaws T}.

(** Recording a departure on any table that keeps the contract and has room for at least one
    row.  Entries of the interface itself and entries whose grace has ended go; the others stay.
    A forgotten interface leaves nothing behind.  One that may return is warm until five minutes
    from now, and then another entry is lost only if the table was full of still-warm entries,
    and it is the one that was to expire soonest.  No interface is listed twice. *)
Theorem departure_recorded (t : T) (cap : Z) (rows : list DepartedInterface)
    (interface : InterfaceId) (departure : Departure) (now : InstantMillis)
    (Hr : dt_rep t cap rows) (Hcap : (0 < cap)%Z) (Hnd : NoDup (dep_interface <$> rows)) :
  ∃ t' rows', record t interface departure now = Done t' ∧ dt_rep t' cap rows'
    ∧ NoDup (dep_interface <$> rows')
    ∧ let kept := filter (λ e, purged interface now e = false) rows in
      match departure with
      | Forgotten => rows' ≡ₚ kept
      | MayReturn =>
          departed_warm_until t' interface
          = Done (Some (saturating_add 64 now DEPARTED_INTERFACE_GRACE_MS))
          ∧ ∃ others, rows' ≡ₚ mkDeparted interface (saturating_add 64 now DEPARTED_INTERFACE_GRACE_MS) :: others
            ∧ (others ≡ₚ kept
               ∨ (Z.of_nat (length kept) = cap
                  ∧ ∃ x, kept ≡ₚ x :: others ∧ Forall (λ e, (dep_warm_until x ≤ dep_warm_until e)%Z) kept))
      end.
Proof.
  unfold record. destruct (purge_spec t cap rows interface now Hr) as (t1 & kept & -> & Hr1 & Hk).
  cbn [mbind run_bind]. destruct (kept_interfaces rows kept interface now Hk Hnd) as [Hnd1 Hni].
  destruct departure; [by exists t1, kept|].
  destruct (dt_len_ok t1 cap kept Hr1) as [El Hle]. rewrite El, (dt_capacity_ok t1 cap kept Hr1).
  set (entry := mkDeparted interface _).
  assert (∃ t2 others, (if (cap <=? Z.of_nat (length kept))%Z then evict_soonest_expiring t1 else Done t1) = Done t2
    ∧ dt_rep t2 cap others ∧ (Z.of_nat (length others) < cap)%Z ∧ others ⊆+ kept
    ∧ (others ≡ₚ kept ∨ (Z.of_nat (length kept) = cap
         ∧ ∃ x, kept ≡ₚ x :: others ∧ Forall (λ e, (dep_warm_until x ≤ dep_warm_until e)%Z) kept)))
    as (t2 & others & -> & Hr2 & Hlt & Hsub & Hcase).
  { destruct (Z.leb_spec cap (Z.of_nat (length kept))) as [Hfull|Hroom].
    - destruct (evict_soonest_spec t1 cap kept Hr1) as (t2 & x & others & -> & Hr2 & Hp & Hlen & Hall).
      { intros ->. cbn in Hfull. lia. }
      exists t2, others. split; [done|]. split; [done|]. split; [lia|]. split.
      + rewrite Hp. by apply submseteq_cons.
      + right. split; [lia|]. by exists x.
    - exists t1, kept. split; [done|]. split; [done|]. split; [done|]. split; [done|]. by left. }
  cbn [mbind run_bind].
  destruct (dt_push_ok t2 cap others entry Hr2 Hlt) as (t3 & E3 & Hr3).
  assert (Hnd3 : NoDup (dep_interface <$> (others ++ [entry]))).
  { rewrite fmap_app. cbn. apply list.NoDup_app. split.
    - eapply submseteq_NoDup; [exact Hnd1|]. by apply fmap_submseteq.
    - split; [|apply NoDup_singleton]. intros y Hy ->%list_elem_of_singleton. apply Hni.
      eapply elem_of_submseteq; [exact Hy|]. by apply fmap_submseteq. }
  exists t3, (others ++ [entry]). split; [exact E3|]. split; [done|]. split; [done|]. cbn. split.
  - change interface with (dep_interface entry) at 1. apply (departed_warm_until_spec t3 cap (others ++ [entry]) entry Hr3 Hnd3).
    apply elem_of_app. right. by apply list_elem_of_singleton.
  - exists others. split; [by rewrite Permutation_app_comm|]. destruct Hcase as [Hc|(Hc & x & Hx & Hall)].
    + left. by rewrite Hc.
    + right. split; [by rewrite <- Hk|]. exists x. rewrite <- Hk. by split.
Qed.

Definition grace_ended (now : InstantMillis) (e : DepartedInterface) : bool := (dep_warm_until e <=? now)%Z.

Lemma evict_expired_loop_spec fuel t cap rows now evicted :
  dt_rep t cap rows → length rows < fuel →
  ∃ t' rows', evict_expired_loop fuel t now evicted
      = Done (evicted + length (filter (λ e, grace_ended now e = true) rows), t')
    ∧ dt_rep t' cap rows' ∧ rows' ≡ₚ filter (λ e, grace_ended now e = false) rows.
Proof.
  revert t rows evicted. induction fuel as [|fuel IH]; intros t rows evicted Hr Hf; [lia|].
  cbn [evict_expired_loop]. destruct (dt_columns_ok t cap rows Hr) as [_ ->]. cbn [mbind run_bind].
  pose proof (position_from_spec (λ w, (w <=? now)%Z) (dep_warm_until <$> rows) 0) as Hp.
  destruct (position_from _ _ 0) as [i|].
  - destruct Hp as (_ & w & Hw & Hle). rewrite Nat.sub_0_r, list_lookup_fmap in Hw.
    apply fmap_Some in Hw as (x & Hx & ->). pose proof (lookup_lt_Some _ _ _ Hx) as Hlt.
    destruct (dt_swap_remove_ok t cap rows i Hr Hlt) as (t' & -> & Hr'). cbn [mbind run_bind].
    destruct (IH t' (swap_removed rows i) (S evicted) Hr') as (t'' & rows' & -> & Hr'' & Hk).
    { rewrite length_swap_removed by done. lia. }
    destruct (filter_swap_removed (grace_ended now) rows i x Hx Hle) as [Hp1 Hp2]. exists t'', rows'.
    split; [|split; [done|by rewrite Hk]].
    do 2 f_equal. apply Permutation_length in Hp2. cbn [length] in Hp2. lia.
  - assert (F : Forall (λ e, grace_ended now e = false) rows).
    { apply list.Forall_forall. intros e He. apply (Hp (dep_warm_until e)). by apply list_elem_of_fmap_2. }
    exists t, rows. rewrite filter_none, filter_all by done. by rewrite Nat.add_0_r.
Qed.

(** Evicting removes exactly the entries whose grace has ended, and counts them. *)
Lemma evict_expired_exact t cap rows now :
  dt_rep t cap rows →
  ∃ t' rows', evict_expired t now
      = Done (length (filter (λ e, grace_ended now e = true) rows), t')
    ∧ dt_rep t' cap rows' ∧ rows' ≡ₚ filter (λ e, grace_ended now e = false) rows.
Proof.
  intros Hr. unfold evict_expired. destruct (dt_len_ok t cap rows Hr) as [-> _].
  apply (evict_expired_loop_spec (S (length rows)) t cap rows now 0 Hr). lia.
Qed.
End departures.

Definition iface_a : InterfaceId := replicate 8 1%Z.
Definition iface_b : InterfaceId := replicate 8 2%Z.
Definition departed1 : FixedDeparted.FixedDepartedInterfaceTable 1 :=
  FixedDeparted.mk 1 [iface_a] [100%Z].

Lemma departure_recorded_witness :
  NoDup [iface_a]
  ∧ ∃ t' rows', record departed1 iface_b MayReturn 50%Z = Done t' ∧ dt_rep t' 1%Z rows'
    ∧ NoDup (dep_interface <$> rows')
    ∧ departed_warm_until t' iface_b = Done (Some 300050%Z)
    ∧ ∃ others, rows' ≡ₚ mkDeparted iface_b 300050%Z :: others
        ∧ (others ≡ₚ [mkDeparted iface_a 100%Z]
           ∨ (1 = 1)%Z ∧ ∃ x, [mkDeparted iface_a 100%Z] ≡ₚ x :: others
               ∧ Forall (λ e, (dep_warm_until x ≤ dep_warm_until e)%Z) [mkDeparted iface_a 100%Z]).
Proof.
  split; [apply NoDup_singleton|].
  refine (departure_recorded departed1 1%Z [mkDeparted iface_a 100%Z] iface_b MayReturn 50%Z _ _ _).
  - split; [done|]. split; (split; [done|]; split; [cbn; lia|done]).
  - lia.
  - apply NoDup_singleton.
Defined.
