(* ===== verification/Timing.v ===== *)
(** How long to wait: [routing/timing.rs], timeouts from the bitrates of the interfaces. *)

From S2P Require Import Prelude Wire Routes ChannelTable Interfaces Lifetime.

Definition DEFAULT_PER_HOP_TIMEOUT_SECONDS : Z := 6.
Definition DEFAULT_PER_HOP_TIMEOUT_MS : Z := (DEFAULT_PER_HOP_TIMEOUT_SECONDS * 1000)%Z.
Definition DEFAULT_FIRST_HOP_TIMEOUT_MS : Z := DEFAULT_PER_HOP_TIMEOUT_MS.
Definition PATH_REQUEST_TIMEOUT_FLOOR_MS : Z := 15000.

Inductive PathRequestAudience := Network | BoundaryAndGateway | LocalClients.

Definition is_local (kind : option InterfaceKind) : bool :=
  match kind with Some (LocalClient | LocalServer) => true | _ => false end.

Definition path_request_egress_eligible (descriptor : InterfaceDescriptor) (ingress_id : option InterfaceId)
    (audience : PathRequestAudience) : bool :=
  if negb (allows_transmit (d_capabilities descriptor)) || bool_decide (ingress_id = Some (d_id descriptor))
     || match interface_kind (d_id descriptor) with Some kind => is_shared_broadcast kind | None => false end
  then false else
  match audience with
  | Network => negb (is_local (interface_kind (d_id descriptor)))
  | BoundaryAndGateway =>
      negb (is_local (interface_kind (d_id descriptor)))
      && match d_mode descriptor with Boundary | Gateway => true | _ => false end
  | LocalClients => bool_decide (interface_kind (d_id descriptor) = Some LocalClient)
  end.

(** Rounded up, in [u128] arithmetic that saturates.  The bitrate is not zero ([BitrateBps_new]). *)
Definition frame_airtime_ms (bytes bitrate : Z) : Z :=
  let numerator := saturating_mul 128 (saturating_mul 128 bytes 8) 1000 in
  let milliseconds := (saturating_add 128 numerator (saturating_sub bitrate 1) / bitrate)%Z in
  Z.min milliseconds u64_max.
Definition broadcast_airtime_ms (bitrate : Z) : Z := frame_airtime_ms (Z.of_nat BROADCAST_MTU) bitrate.

Definition first_hop_timeout_ms (bitrate : option Z) : Z :=
  saturating_add 64 DEFAULT_FIRST_HOP_TIMEOUT_MS (from_option broadcast_airtime_ms 0%Z bitrate).
Definition single_packet_timeout_ms (hops : Z) (bitrate : option Z) : Z :=
  saturating_add 64 (first_hop_timeout_ms bitrate) (saturating_mul 64 DEFAULT_PER_HOP_TIMEOUT_MS hops).
Definition link_establishment_timeout_ms (hops : Z) (bitrate : option Z) : Z :=
  saturating_add 64 (first_hop_timeout_ms bitrate) (saturating_mul 64 DEFAULT_PER_HOP_TIMEOUT_MS (Z.max hops 1)).

Definition medium_path_timeout_ms (slowest : option Z) : Z :=
  from_option (λ bitrate, saturating_add 64 DEFAULT_FIRST_HOP_TIMEOUT_MS (saturating_mul 64 (broadcast_airtime_ms bitrate) 2)) 0%Z slowest.
Definition path_discovery_timeout_ms (slowest : option Z) : Z :=
  Z.max PATH_REQUEST_TIMEOUT_FLOOR_MS (medium_path_timeout_ms slowest).

Definition slowest_eligible_bitrate (interfaces : AttachedInterfaces) (eligible : InterfaceDescriptor → bool) : option Z :=
  minimum (d_bitrate <$> List.filter (λ d, allows_transmit (d_capabilities d) && eligible d) interfaces).

(** * Properties *)

(** Bitrates are at least [MINIMUM_BITRATE] and fit [u64]. *)
Definition is_bitrate (bitrate : Z) : Prop := (MINIMUM_BITRATE ≤ bitrate ≤ u64_max)%Z.

Lemma frame_airtime_eq bytes bitrate :
  is_u64 bytes → is_bitrate bitrate →
  frame_airtime_ms bytes bitrate = Z.min ((bytes * 8000 + (bitrate - 1)) / bitrate) u64_max.
Proof.
  unfold is_bitrate, MINIMUM_BITRATE, frame_airtime_ms. intros Hb Hr.
  assert (E : saturating_add 128 (saturating_mul 128 (saturating_mul 128 bytes 8) 1000) (saturating_sub bitrate 1)
            = (bytes * 8000 + (bitrate - 1))%Z) by width.
  by rewrite E.
Qed.

(** A frame's airtime is its bits over the bitrate, rounded up. *)
Lemma frame_airtime_covers bytes bitrate :
  (0 ≤ bytes ≤ u32_max)%Z → is_bitrate bitrate →
  (bytes * 8 * 1000 ≤ frame_airtime_ms bytes bitrate * bitrate < bytes * 8 * 1000 + bitrate)%Z.
Proof.
  intros Hb Hr. assert (Hpos : (0 < bitrate)%Z) by (unfold is_bitrate, MINIMUM_BITRATE in Hr; lia). rewrite frame_airtime_eq; [|width|done].
  pose proof (Z.div_mod (bytes * 8000 + (bitrate - 1)) bitrate ltac:(lia)) as Hd.
  pose proof (Z.mod_pos_bound (bytes * 8000 + (bitrate - 1)) bitrate Hpos) as Hm.
  set (q := ((bytes * 8000 + (bitrate - 1)) / bitrate)%Z) in *. assert (Hq : (q ≤ u64_max)%Z).
  { assert (q < bytes * 8000 + 1)%Z; [|width]. apply Z.div_lt_upper_bound; [done|]. nia. }
  rewrite Z.min_l by done. nia.
Qed.

Lemma mtu_u32 : (0 ≤ Z.of_nat BROADCAST_MTU ≤ u32_max)%Z.
Proof. by vm_compute. Qed.

Lemma slower_airtime bitrate bitrate' :
  is_bitrate bitrate → (bitrate ≤ bitrate' ≤ u64_max)%Z → (broadcast_airtime_ms bitrate' ≤ broadcast_airtime_ms bitrate)%Z.
Proof.
  intros Hr Hle. assert (Hr' : is_bitrate bitrate') by (unfold is_bitrate, MINIMUM_BITRATE in *; lia). unfold broadcast_airtime_ms.
  destruct (frame_airtime_covers (Z.of_nat BROADCAST_MTU) bitrate) as [H1 _]; [apply mtu_u32|done|].
  destruct (frame_airtime_covers (Z.of_nat BROADCAST_MTU) bitrate') as [_ H2]; [apply mtu_u32|done|].
  unfold is_bitrate, MINIMUM_BITRATE in *.
  set (a := frame_airtime_ms _ bitrate) in *. set (a' := frame_airtime_ms _ bitrate') in *.
  destruct (Z.le_gt_cases a' a) as [|Hgt]; [done|]. assert (0 ≤ a)%Z by nia.
  assert ((a + 1) * bitrate' ≤ a' * bitrate')%Z by (apply Z.mul_le_mono_nonneg_r; lia).
  assert (a * bitrate ≤ a * bitrate')%Z by (apply Z.mul_le_mono_nonneg_l; lia). lia.
Qed.

(** Waiting for a path covers a round trip on every interface that asks.  Whatever interfaces are attached, the
    timeout of a path discovery is at least fifteen seconds, and for each interface the request goes out on it is
    at least six seconds and twice the time that interface needs to transmit a full packet, rounded up; and every
    timeout of a packet or a link covers six seconds for each hop and the first transmission. *)
Theorem discovery_covers_round_trip (interfaces : AttachedInterfaces) ingress_id audience :
  Forall (λ d, is_bitrate (d_bitrate d)) interfaces →
  let timeout := path_discovery_timeout_ms
    (slowest_eligible_bitrate interfaces (λ d, path_request_egress_eligible d ingress_id audience)) in
  (PATH_REQUEST_TIMEOUT_FLOOR_MS ≤ timeout ≤ u64_max)%Z
  ∧ (∀ d, d ∈ interfaces → path_request_egress_eligible d ingress_id audience = true →
       (DEFAULT_FIRST_HOP_TIMEOUT_MS + 2 * broadcast_airtime_ms (d_bitrate d) ≤ timeout)%Z
       ∧ (Z.of_nat BROADCAST_MTU * 8 * 1000 ≤ broadcast_airtime_ms (d_bitrate d) * d_bitrate d)%Z)
  ∧ (∀ hops bitrate, is_u8 hops → is_bitrate bitrate →
       single_packet_timeout_ms hops (Some bitrate) = (6000 + broadcast_airtime_ms bitrate + 6000 * hops)%Z
       ∧ link_establishment_timeout_ms hops (Some bitrate) = (6000 + broadcast_airtime_ms bitrate + 6000 * Z.max hops 1)%Z).
Proof.
  intros Hall timeout.
  assert (Hair : ∀ bitrate, is_bitrate bitrate → (0 ≤ broadcast_airtime_ms bitrate ≤ 800000)%Z).
  { intros bitrate Hr. unfold broadcast_airtime_ms. destruct (frame_airtime_covers (Z.of_nat BROADCAST_MTU) bitrate) as [H1 H2]; [apply mtu_u32|done|].
    unfold is_bitrate, MINIMUM_BITRATE, BROADCAST_MTU in *. nia. }
  assert (Hsat : ∀ bitrate, is_bitrate bitrate →
    medium_path_timeout_ms (Some bitrate) = (DEFAULT_FIRST_HOP_TIMEOUT_MS + 2 * broadcast_airtime_ms bitrate)%Z).
  { intros bitrate Hr. pose proof (Hair bitrate Hr). cbn. unfold DEFAULT_FIRST_HOP_TIMEOUT_MS, DEFAULT_PER_HOP_TIMEOUT_MS, DEFAULT_PER_HOP_TIMEOUT_SECONDS. width. }
  pose proof (minimum_spec (d_bitrate <$> List.filter (λ d, allows_transmit (d_capabilities d) && path_request_egress_eligible d ingress_id audience) interfaces)) as Hm.
  fold (slowest_eligible_bitrate interfaces (λ d, path_request_egress_eligible d ingress_id audience)) in Hm.
  rewrite list.Forall_forall in Hall. split; [|split].
  - unfold timeout, path_discovery_timeout_ms. destruct (slowest_eligible_bitrate _ _) as [m|].
    + destruct Hm as [(d & -> & Hd)%list_elem_of_fmap _]. apply list_elem_of_In, filter_In in Hd as [Hd _].
      assert (Hr : is_bitrate (d_bitrate d)) by (by apply Hall, list_elem_of_In). rewrite Hsat by done. pose proof (Hair _ Hr).
      unfold PATH_REQUEST_TIMEOUT_FLOOR_MS, DEFAULT_FIRST_HOP_TIMEOUT_MS, DEFAULT_PER_HOP_TIMEOUT_MS, DEFAULT_PER_HOP_TIMEOUT_SECONDS. width.
    + cbn. unfold PATH_REQUEST_TIMEOUT_FLOOR_MS. width.
  - intros d Hd Hel. pose proof (Hall d Hd) as Hr. split.
    2: { unfold broadcast_airtime_ms. apply frame_airtime_covers; [apply mtu_u32|done]. }
    assert (Hin : d_bitrate d ∈ d_bitrate <$> List.filter (λ d, allows_transmit (d_capabilities d) && path_request_egress_eligible d ingress_id audience) interfaces).
    { apply list_elem_of_fmap. exists d. split; [done|]. apply list_elem_of_In, filter_In. split; [by apply list_elem_of_In|]. rewrite Hel, andb_true_r.
      unfold path_request_egress_eligible in Hel. by destruct (allows_transmit (d_capabilities d)). }
    unfold timeout, path_discovery_timeout_ms. destruct (slowest_eligible_bitrate _ _) as [m|].
    + destruct Hm as [(d' & -> & Hd')%list_elem_of_fmap Hmin]. apply list_elem_of_In, filter_In in Hd' as [Hd' _].
      assert (Hr' : is_bitrate (d_bitrate d')) by (by apply Hall, list_elem_of_In). rewrite Hsat by done.
      rewrite list.Forall_forall in Hmin. specialize (Hmin _ Hin).
      pose proof (slower_airtime (d_bitrate d') (d_bitrate d) Hr' ltac:(unfold is_bitrate in *; lia)). lia.
    + apply fmap_nil_inv in Hm. rewrite Hm in Hin. by apply not_elem_of_nil in Hin.
  - intros hops bitrate Hh Hr. pose proof (Hair bitrate Hr). unfold single_packet_timeout_ms, link_establishment_timeout_ms, first_hop_timeout_ms. cbn [from_option].
    unfold DEFAULT_FIRST_HOP_TIMEOUT_MS, DEFAULT_PER_HOP_TIMEOUT_MS, DEFAULT_PER_HOP_TIMEOUT_SECONDS. split; width.
Qed.

(** On one interface at 500 bits per second that forwards, discovery waits 22 seconds. *)
Definition slow_interface : InterfaceDescriptor :=
  mkDescriptor [0xB2; 0; 0; 0; 0; 0; 0; 0]%Z (mkInterfaceCapabilities IngressEnabled (EgressEnabled CrossInterfaceOnly))
    Boundary 0%Z 500%Z None RNS_DEFAULT.
Lemma discovery_covers_round_trip_witness :
  path_discovery_timeout_ms
    (slowest_eligible_bitrate [slow_interface] (λ d, path_request_egress_eligible d None Network)) = 22000%Z
  ∧ (6000 + 2 * broadcast_airtime_ms 500 ≤ 22000)%Z.
Proof.
  assert (Hall : Forall (λ d, is_bitrate (d_bitrate d)) [slow_interface]).
  { repeat constructor. all: vm_compute; discriminate. }
  destruct (discovery_covers_round_trip [slow_interface] None Network Hall) as (_ & H & _).
  split; [vm_compute; reflexivity|].
  destruct (H slow_interface) as [H1 _]; [by left|vm_compute; reflexivity|].
  vm_compute in H1. vm_compute. exact H1.
Defined.
