(* ===== verification/RowTable.v ===== *)
(** Tables as one state machine per key: a table of keyed rows with room for every key that appears behaves as
    independent machines, one for each key.  The limits per interface and per destination are such tables.

    And tables whose rows are one array of records, as the announce and path-request limits of the interfaces
    ([routing/announce/interface_announce_limit/], [routing/path_requests/interface_path_request_limit/]) keep
    them: the trait, its contract, and the two implementations, an array with a length and a vector. *)

From S2P Require Import Prelude Columns.

Section machine.
Context {R T K : Type} `{EqDecision K} (key : R → K) (rep : T → Z → list R → Prop).
Implicit Types (t : T) (rows : list R).

(** The keys that ever appear: they fit the table. *)
Record fits (known : list K) (cap : Z) rows : Prop := {
  ft_distinct : NoDup (key <$> rows);
  ft_known : key <$> rows ⊆ known;
  ft_nodup : NoDup known;
  ft_cap : (Z.of_nat (length known) ≤ cap)%Z;
}.

Lemma fits_has_room known cap rows i :
  fits known cap rows → i ∈ known → (i ∉ key <$> rows) → (Z.of_nat (length rows) < cap)%Z.
Proof.
  intros [Hd Hk Hnd Hcap] Hi Hn.
  assert (Hs : (i :: (key <$> rows)) ⊆+ known).
  { apply NoDup_submseteq; [by constructor|]. intros x [->|Hx]%elem_of_cons; [done|by apply Hk]. }
  apply submseteq_length in Hs. cbn in Hs. rewrite length_fmap in Hs. lia.
Qed.

Lemma fits_snoc known cap rows r :
  fits known cap rows → key r ∈ known → (key r ∉ key <$> rows) → fits known cap (rows ++ [r]).
Proof.
  intros [Hd Hk Hnd Hcap] Hi Hn. split; [| |done|done].
  - rewrite fmap_app. by apply NoDup_snoc.
  - rewrite fmap_app. intros x [Hx|Hx]%elem_of_app; [by apply Hk|]. apply list_elem_of_singleton in Hx as ->. done.
Qed.

Lemma fits_insert known cap rows i r r' :
  fits known cap rows → rows !! i = Some r → key r' = key r → fits known cap (<[i := r']> rows).
Proof. intros [Hd Hk Hnd Hcap] Hi E. pose proof (fmap_key_insert key rows i r r' Hi E) as El. split; by rewrite ?El. Qed.

(** After an operation the row of [i] is [row], and no other changed. *)
Definition updated known cap rows (i : K) (row : option R) t' rows' : Prop :=
  rep t' cap rows' ∧ fits known cap rows'
  ∧ ∀ j, find_key key j rows' = if decide (j = i) then row else find_key key j rows.

Lemma updated_same t known cap rows i : rep t cap rows → fits known cap rows → updated known cap rows i (find_key key i rows) t rows.
Proof. intros Hr Hf. split; [done|]. split; [done|]. intros j. case_decide; [by subst j|done]. Qed.

(** ** Sequences of operations *)

Context {Op A : Type} (op_key : Op → K) (op_do : T → Op → run (A * T)).
(** What an operation does to the row of its key. *)
Context (row_step : Op → option R → A * option R).

Definition refines_step : Prop := ∀ t known cap rows op,
  rep t cap rows → fits known cap rows → op_key op ∈ known →
  ∃ t' rows', op_do t op = Done ((row_step op (find_key key (op_key op) rows)).1, t')
    ∧ updated known cap rows (op_key op) (row_step op (find_key key (op_key op) rows)).2 t' rows'.

Fixpoint do_all t (ops : list Op) : run (list A * T) :=
  match ops with
  | [] => Done ([], t)
  | op :: ops => '(a, t) ← op_do t op; '(rest, t) ← do_all t ops; Done (a :: rest, t)
  end.

(** The machines: a row, or none yet, for each key. *)
Fixpoint machines_do_all (state : K → option R) (ops : list Op) : list A * (K → option R) :=
  match ops with
  | [] => ([], state)
  | op :: ops =>
      let '(a, row) := row_step op (state (op_key op)) in
      let '(rest, state) := machines_do_all (λ j, if decide (j = op_key op) then row else state j) ops in
      (a :: rest, state)
  end.

Lemma machines_ext s s' ops :
  (∀ j, s j = s' j) → (machines_do_all s ops).1 = (machines_do_all s' ops).1
  ∧ ∀ j, (machines_do_all s ops).2 j = (machines_do_all s' ops).2 j.
Proof.
  revert s s'. induction ops as [|op ops IH]; intros s s' E; [by split|]. cbn [machines_do_all]. rewrite E.
  destruct (row_step op (s' (op_key op))) as [a row].
  destruct (IH (λ j, if decide (j = op_key op) then row else s j) (λ j, if decide (j = op_key op) then row else s' j)) as [E1 E2].
  { intros j. case_decide; [done|]. apply E. }
  destruct (machines_do_all (λ j, if decide (j = op_key op) then row else s j) ops).
  destruct (machines_do_all (λ j, if decide (j = op_key op) then row else s' j) ops). cbn in *. split; [by f_equal|done].
Qed.

Lemma do_all_ok t known cap rows ops :
  refines_step → rep t cap rows → fits known cap rows → Forall (λ op, op_key op ∈ known) ops →
  ∃ t' rows', do_all t ops = Done ((machines_do_all (λ j, find_key key j rows) ops).1, t')
    ∧ rep t' cap rows'
    ∧ ∀ j, find_key key j rows' = (machines_do_all (λ j, find_key key j rows) ops).2 j.
Proof.
  intros Hstep Hr Hf Hops. revert t rows Hr Hf. induction Hops as [|op ops Hop Hops IH]; intros t rows Hr Hf; cbn [do_all machines_do_all].
  { by exists t, rows. }
  destruct (Hstep t known cap rows op Hr Hf Hop) as (t1 & rows1 & -> & (Hr1 & Hf1 & E1)). cbn [mbind run_bind].
  destruct (IH t1 rows1 Hr1 Hf1) as (t2 & rows2 & -> & Hr2 & E2). cbn [mbind run_bind]. exists t2, rows2.
  destruct (row_step op (find_key key (op_key op) rows)) as [a row] eqn:Es. cbn [fst snd] in *.
  destruct (machines_ext (λ j, find_key key j rows1) (λ j, if decide (j = op_key op) then row else find_key key j rows) ops)
    as [Ea Eb]; [by intros j; rewrite E1|].
  destruct (machines_do_all (λ j, if decide (j = op_key op) then row else find_key key j rows) ops).
  cbn [fst snd] in *. split; [by rewrite Ea|]. split; [done|]. intros j. by rewrite E2.
Qed.
End machine.

(** * The trait *)

(** [rows_mut()[i] = row] is [row_set]. *)
Class RowTable (R T : Type) := {
  row_capacity : T → Z;
  row_list : T → run (list R);
  row_set : T → nat → R → run T;
  row_push : T → R → run T;
  row_swap_remove : T → nat → run T;
}.

Class RowTableLaws (R T : Type) `{RowTable R T} := {
  row_rep : T → Z → list R → Prop;
  row_capacity_ok : ∀ t cap rows, row_rep t cap rows → row_capacity t = cap ∧ (Z.of_nat (length rows) ≤ cap)%Z;
  row_list_ok : ∀ t cap rows, row_rep t cap rows → row_list t = Done rows;
  row_set_ok : ∀ t cap rows i r, row_rep t cap rows → i < length rows →
    ∃ t', row_set t i r = Done t' ∧ row_rep t' cap (<[i := r]> rows);
  row_push_ok : ∀ t cap rows r, row_rep t cap rows → (Z.of_nat (length rows) < cap)%Z →
    ∃ t', row_push t r = Done t' ∧ row_rep t' cap (rows ++ [r]);
  row_swap_remove_ok : ∀ t cap rows i, row_rep t cap rows → i < length rows →
    ∃ t', row_swap_remove t i = Done t' ∧ row_rep t' cap (swap_removed rows i);
}.

(** * An array with a length *)

Section fixed.
Context {R : Type} {cap : nat} (blank : R).

Record FixedRows := mkFixedRows { fr_len : nat; fr_rows : list R }.

Definition fixed_rows_default : FixedRows := mkFixedRows 0 (replicate cap blank).

Definition fixed_rows_push (t : FixedRows) (r : R) : run FixedRows :=
  if (cap <=? fr_len t)%nat then Done t else
  rows ← store (fr_rows t) (fr_len t) r;
  Done (mkFixedRows (fr_len t + 1) rows).

Definition fixed_rows_swap_remove (t : FixedRows) (i : nat) : run FixedRows :=
  last ← match fr_len t with O => Panic | S last => Done last end;
  rows ← (if negb (i =? last)%nat then move_last (fr_rows t) i last else Done (fr_rows t));
  Done (mkFixedRows last rows).

#[global] Instance fixed_row_table : RowTable R FixedRows := {|
  row_capacity := λ _, Z.of_nat cap;
  row_list := λ t, slice (fr_rows t) 0 (fr_len t);
  row_set := λ t i r, live ← slice (fr_rows t) 0 (fr_len t); _ ← store live i r;
    rows ← store (fr_rows t) i r; Done (mkFixedRows (fr_len t) rows);
  row_push := fixed_rows_push;
  row_swap_remove := fixed_rows_swap_remove;
|}.

Definition fixed_rows_rep (t : FixedRows) (c : Z) (rows : list R) : Prop :=
  c = Z.of_nat cap ∧ column cap (fr_len t) (fr_rows t) rows.

#[global] Instance fixed_row_laws : RowTableLaws R FixedRows.
Proof.
  refine {| row_rep := fixed_rows_rep |}.
  - intros t c rows [-> Hc]. pose proof (column_length _ _ _ _ Hc) as Hl. destruct Hc as (_ & Hle & _). cbn. split; [done|lia].
  - intros t c rows [_ Hc]. by eapply column_slice.
  - intros t c rows i r [-> Hc] Hi. pose proof (column_length _ _ _ _ Hc) as Hl. cbn. rewrite (column_slice _ _ _ _ Hc).
    cbn [mbind run_bind]. rewrite (store_done rows i r Hi). cbn [mbind run_bind].
    destruct (column_store cap _ _ _ i r Hc) as (rows' & -> & Hc'); [lia|]. cbn [mbind run_bind]. eexists. split; [done|]. by split.
  - intros t c rows r [-> Hc] Hlt. pose proof (column_length _ _ _ _ Hc) as Hl. cbn. unfold fixed_rows_push.
    rewrite (proj2 (Nat.leb_gt _ _)) by lia.
    destruct (column_push cap _ _ _ r Hc) as (rows' & -> & Hc'); [lia|]. cbn [mbind run_bind]. eexists. split; [done|].
    split; [done|]. cbn. by rewrite Nat.add_1_r.
  - intros t c rows i [-> Hc] Hi. pose proof (column_length _ _ _ _ Hc) as Hl. cbn. unfold fixed_rows_swap_remove.
    destruct (fr_len t) as [|last]; [lia|]. cbn [mbind run_bind].
    destruct (column_swap_remove cap last _ _ i Hc) as (rows' & E & Hc'); [lia|].
    destruct (Nat.eqb_spec i last) as [->|Hne]; cbn [negb].
    + cbn [mbind run_bind]. eexists. split; [done|]. split; [done|]. by apply column_pop.
    + rewrite E. cbn [mbind run_bind]. eexists. split; [done|]. by split.
Defined.

Lemma fixed_rows_default_rep : row_rep fixed_rows_default (Z.of_nat cap) [].
Proof. split; [done|]. apply column_new. Qed.
End fixed.
Arguments FixedRows : clear implicits.

(** * A vector *)

Section vec.
Context {R : Type}.

#[global] Instance vec_row_table : RowTable R (list R) := {|
  row_capacity := λ _, usize_max;
  row_list := λ t, Done t;
  row_set := λ t i r, store t i r;
  row_push := λ t r, Done (t ++ [r]);
  row_swap_remove := λ t i, vec_swap_remove t i;
|}.

Definition vec_rows_rep (t : list R) (c : Z) (rows : list R) : Prop :=
  c = usize_max ∧ t = rows ∧ (Z.of_nat (length rows) ≤ usize_max)%Z.

#[global] Instance vec_row_laws : RowTableLaws R (list R).
Proof.
  refine {| row_rep := vec_rows_rep |}.
  - by intros t c rows (-> & -> & Hl).
  - by intros t c rows (-> & -> & Hl).
  - intros t c rows i r (-> & -> & Hl) Hi. cbn. rewrite store_done by done. eexists. split; [done|].
    split; [done|]. split; [done|]. by rewrite length_insert.
  - intros t c rows r (-> & -> & Hl) Hlt. cbn. eexists. split; [done|]. split; [done|]. split; [done|].
    rewrite length_app. cbn. lia.
  - intros t c rows i (-> & -> & Hl) Hi. cbn. rewrite vec_swap_remove_done by done. eexists. split; [done|].
    split; [done|]. split; [done|]. rewrite length_swap_removed by done. lia.
Defined.
End vec.
