(* ===== verification/DueTable.v ===== *)
(** Tables of rows under a destination with an instant each, as the path-request tables
    ([routing/path_requests/recent/], [pending/], [recursive/]) keep them: the trait, its contract, and the two
    implementations, arrays with a length, and vectors with a hash index and a heap of deadlines.

    The three tables have the same code but for the column in the middle: nothing, a command id, an interface. *)

From S2P Require Import LemireIndex DeadlineHeap Prelude Columns KeyedMap Routes ChannelTable DeadlineColumn Lifetime.

Record DueRow (V : Type) := mkDue { du_key : DestinationHash; du_value : V; du_at : Z }.
Arguments mkDue {V} _ _ _.
Arguments du_key {V} _.
Arguments du_value {V} _.
Arguments du_at {V} _.

(** * The trait *)

(** [du_push] answers the row pushed, or [None] when the table is full; [du_first_due] is [first_stale] or
    [first_expired], [du_earliest] is [earliest_indexed_timeout] or [earliest_indexed_expiry] (recent requests have
    none), [du_prefers_linear] and [du_invalidate] belong to the culls. *)
Class DueTable (V T : Type) := {
  du_capacity : T → Z;
  du_len : T → nat;
  du_values : T → run (list V);
  du_ats : T → run (list Z);
  du_push : T → DueRow V → run (option nat * T);
  du_swap_remove : T → nat → run T;
  du_index_of : T → DestinationHash → run (option nat);
  du_first_due : T → Z → run (option nat * T);
  du_earliest : T → run (option Z * T);
  du_prefers_linear : T → Z → run (bool * T);
  du_invalidate : T → T;
}.

(** The instants at which rows fall due: [due now at_] as the scans test it, [due_at at_] as the heap orders it. *)
Class DueTimes := { due : Z → Z → bool; due_at : Z → option Z }.
Class DueTimesLaws `{DueTimes} := {
  due_is_due_at : ∀ now at_, is_u64 now → due now at_ = match due_at at_ with Some t => (t <=? now)%Z | None => false end;
}.

(** * Loops over a table *)

Section loops.
Context `{DueTimes} {V T : Type} `{DueTable V T}.

Fixpoint cull_linear_loop (fuel : nat) (t : T) (i : nat) (now : Z) : run T :=
  match fuel with
  | O => OutOfFuel
  | S fuel =>
      if (i <? du_len t)%nat then
        ats ← du_ats t;
        at_ ← index ats i;
        if due now at_ then t ← du_swap_remove t i; cull_linear_loop fuel t i now
        else cull_linear_loop fuel t (S i) now
      else Done t
  end.

(** [while let Some(index) = first_due(now)] *)
Fixpoint cull_indexed_loop (fuel : nat) (t : T) (now : Z) : run T :=
  match fuel with
  | O => OutOfFuel
  | S fuel =>
      '(found, t) ← du_first_due t now;
      match found with
      | None => Done t
      | Some i => t ← du_swap_remove t i; cull_indexed_loop fuel t now
      end
  end.

Definition cull (t : T) (now : Z) : run T :=
  '(scan, t) ← du_prefers_linear t now;
  if (scan : bool) then let t := du_invalidate t in cull_linear_loop (S (du_len t)) t 0 now
  else cull_indexed_loop (S (du_len t)) t now.

(** [min_by_key] of the instants, removed *)
Definition evict_earliest (t : T) : run T :=
  ats ← du_ats t;
  match argmin ats with
  | Some i => du_swap_remove t i
  | None => Done t
  end.
End loops.

(** * The contract *)

Class DueTableLaws `{DueTimes} (V T : Type) `{DueTable V T} := {
  du_rep : T → Z → list (DueRow V) → Prop;
  du_capacity_ok : ∀ t cap rows, du_rep t cap rows → du_capacity t = cap ∧ (Z.of_nat (length rows) ≤ cap)%Z;
  du_len_ok : ∀ t cap rows, du_rep t cap rows → du_len t = length rows;
  du_values_ok : ∀ t cap rows, du_rep t cap rows → du_values t = Done (du_value <$> rows);
  du_ats_ok : ∀ t cap rows, du_rep t cap rows → du_ats t = Done (du_at <$> rows);
  du_push_ok : ∀ t cap rows r, du_rep t cap rows → (Z.of_nat (length rows) < cap)%Z → (Z.of_nat (length rows) < u32_max)%Z →
    ∃ t', du_push t r = Done (Some (length rows), t') ∧ du_rep t' cap (rows ++ [r]);
  du_push_full : ∀ t cap rows r, du_rep t cap rows → Z.of_nat (length rows) = cap → (cap ≤ u32_max)%Z → du_push t r = Done (None, t);
  du_swap_remove_ok : ∀ t cap rows i, du_rep t cap rows → i < length rows →
    ∃ t', du_swap_remove t i = Done t' ∧ du_rep t' cap (swap_removed rows i);
  du_index_of_ok : ∀ t cap rows d, du_rep t cap rows →
    (∃ i r, du_index_of t d = Done (Some i) ∧ rows !! i = Some r ∧ du_key r = d)
    ∨ (du_index_of t d = Done None ∧ d ∉ du_key <$> rows);
  du_first_due_ok : ∀ t cap rows now, du_rep t cap rows → is_u64 now →
    ∃ found t', du_first_due t now = Done (found, t') ∧ du_rep t' cap rows
      ∧ match found with
        | Some i => ∃ r, rows !! i = Some r ∧ due now (du_at r) = true
        | None => Forall (λ r, due now (du_at r) = false) rows
        end;
  du_earliest_ok : ∀ t cap rows, du_rep t cap rows → (∀ at_, due_at at_ = Some at_) →
    ∃ t', du_earliest t = Done (minimum (du_at <$> rows), t') ∧ du_rep t' cap rows;
  du_prefers_ok : ∀ t cap rows now, du_rep t cap rows →
    ∃ b t', du_prefers_linear t now = Done (b, t') ∧ du_rep t' cap rows;
  du_invalidate_ok : ∀ t cap rows, du_rep t cap rows → du_rep (du_invalidate t) cap rows;
}.

Section loop_lemmas.
Context `{DueTimes} {V T : Type} `{!DueTable V T} `{!DueTableLaws V T}.
Implicit Types (t : T) (rows : list (DueRow V)).

Lemma cull_linear_loop_ok fuel t cap rows i now :
  du_rep t cap rows → length rows - i < fuel →
  ∃ t', cull_linear_loop fuel t i now = Done t' ∧ du_rep t' cap (sweep (λ r, due now (du_at r)) fuel i rows).1.
Proof.
  revert t rows i. induction fuel as [|fuel IH]; intros t rows i Hr Hf; [lia|]. cbn [cull_linear_loop sweep].
  rewrite (du_len_ok _ _ _ Hr). destruct (rows !! i) as [r|] eqn:Hi.
  - pose proof (lookup_lt_Some _ _ _ Hi) as Hlt. rewrite (proj2 (Nat.ltb_lt _ _)) by done.
    rewrite (du_ats_ok _ _ _ Hr). cbn [mbind run_bind]. rewrite (index_lookup _ i (du_at r)) by (by rewrite list_lookup_fmap, Hi).
    cbn [mbind run_bind]. destruct (due now (du_at r)); [|apply IH; [done|lia]].
    destruct (du_swap_remove_ok t cap rows i Hr Hlt) as (t' & -> & Hr'). cbn [mbind run_bind fst].
    apply IH; [done|]. rewrite length_swap_removed by done. lia.
  - rewrite (proj2 (Nat.ltb_ge _ _)) by (by apply lookup_ge_None). by exists t.
Qed.

Lemma cull_indexed_loop_ok fuel t cap rows now :
  du_rep t cap rows → is_u64 now → length rows < fuel →
  ∃ t' rows', cull_indexed_loop fuel t now = Done t' ∧ du_rep t' cap rows'
    ∧ rows' ≡ₚ filter (λ r, due now (du_at r) = false) rows.
Proof.
  intros Hr Hn. revert t rows Hr. induction fuel as [|fuel IH]; intros t rows Hr Hf; [lia|]. cbn [cull_indexed_loop].
  destruct (du_first_due_ok t cap rows now Hr Hn) as (found & t1 & -> & Hr1 & Hfound). cbn [mbind run_bind].
  destruct found as [i|].
  - destruct Hfound as (r & Hi & Hdue). pose proof (lookup_lt_Some _ _ _ Hi) as Hlt.
    destruct (du_swap_remove_ok t1 cap rows i Hr1 Hlt) as (t2 & -> & Hr2). cbn [mbind run_bind].
    destruct (IH t2 (swap_removed rows i) Hr2) as (t3 & rows3 & -> & Hr3 & Hp); [rewrite length_swap_removed by done; lia|].
    exists t3, rows3. split; [done|]. split; [done|]. rewrite Hp.
    by apply (filter_swap_removed (λ r, due now (du_at r)) rows i r).
  - exists t1, rows. split; [done|]. split; [done|]. by rewrite (filter_all (λ r, due now (du_at r))).
Qed.

(** Both ways of culling remove exactly the rows that are due. *)
Lemma cull_ok t cap rows now :
  du_rep t cap rows → is_u64 now →
  ∃ t' rows', cull t now = Done t' ∧ du_rep t' cap rows' ∧ rows' ≡ₚ filter (λ r, due now (du_at r) = false) rows.
Proof.
  intros Hr Hn. unfold cull. destruct (du_prefers_ok t cap rows now Hr) as (b & t1 & -> & Hr1). cbn [mbind run_bind]. destruct b.
  - pose proof (du_invalidate_ok t1 cap rows Hr1) as Hr2. rewrite (du_len_ok _ _ _ Hr2).
    destruct (cull_linear_loop_ok (S (length rows)) _ cap rows 0 now Hr2) as (t3 & E & Hr3); [lia|].
    eexists _, _. split; [exact E|]. split; [exact Hr3|]. by apply sweep_all.
  - rewrite (du_len_ok _ _ _ Hr1). apply cull_indexed_loop_ok; [done|done|lia].
Qed.

(** The row [min_by_key] finds. *)
Lemma argmin_rows rows :
  match argmin (du_at <$> rows) with
  | None => rows = []
  | Some i => ∃ r, rows !! i = Some r ∧ Forall (λ r', (du_at r ≤ du_at r')%Z) rows
  end.
Proof.
  pose proof (argmin_spec (du_at <$> rows)) as Ha. destruct (argmin (du_at <$> rows)) as [i|].
  - destruct Ha as (m & Hi & Hall). rewrite list_lookup_fmap in Hi. destruct (rows !! i) as [r|]; [|done]. injection Hi as <-.
    exists r. split; [done|]. by rewrite Forall_fmap in Hall.
  - by apply fmap_nil_inv in Ha.
Qed.

(** Room for a row: what goes, if anything does, is a row with the earliest instant. *)
Inductive room_made (cap : Z) rows : option (DueRow V) → list (DueRow V) → Prop :=
  | RoomLeft : (Z.of_nat (length rows) < cap)%Z → room_made cap rows None rows
  | RoomTaken r rows' : (Z.of_nat (length rows) = cap)%Z → rows ≡ₚ r :: rows' → Forall (λ r', (du_at r ≤ du_at r')%Z) rows →
      room_made cap rows (Some r) rows'
  | NoRoom : cap = 0%Z → rows = [] → room_made cap rows None [].

(** Whatever [evict] answers when it removes the row [min_by_key] finds. *)
Lemma room_by_ok {A} (evict : run (A * T)) (answer : option (DueRow V) → A) t cap rows :
  du_rep t cap rows →
  (∀ r i t', rows !! i = Some r → argmin (du_at <$> rows) = Some i → du_swap_remove t i = Done t' → evict = Done (answer (Some r), t')) →
  (argmin (du_at <$> rows) = None → evict = Done (answer None, t)) →
  ∃ t' gone rows', (if (du_capacity t <=? Z.of_nat (du_len t))%Z then evict else Done (answer None, t)) = Done (answer gone, t')
    ∧ du_rep t' cap rows' ∧ room_made cap rows gone rows'.
Proof.
  intros Hr Hsome Hnone. rewrite (du_len_ok _ _ _ Hr). destruct (du_capacity_ok t cap rows Hr) as [-> Hcap].
  destruct (Z.leb_spec cap (Z.of_nat (length rows))) as [Hle|Hlt].
  - pose proof (argmin_rows rows) as Ha. destruct (argmin (du_at <$> rows)) as [i|].
    + destruct Ha as (r & Hi & Hall). destruct (du_swap_remove_ok t cap rows i Hr (lookup_lt_Some _ _ _ Hi)) as (t' & E & Hr').
      exists t', (Some r), (swap_removed rows i). split; [by apply (Hsome r i)|]. split; [done|].
      apply RoomTaken; [lia|by rewrite (swap_removed_perm rows i r Hi)|done].
    + subst rows. exists t, None, []. split; [by apply Hnone|]. split; [done|]. apply NoRoom; [cbn in *; lia|done].
  - exists t, None, rows. split; [done|]. split; [done|]. by apply RoomLeft.
Qed.

Lemma room_ok t cap rows :
  du_rep t cap rows →
  ∃ t' gone rows', (if (du_capacity t <=? Z.of_nat (du_len t))%Z then evict_earliest t else Done t) = Done t'
    ∧ du_rep t' cap rows' ∧ room_made cap rows gone rows'.
Proof.
  intros Hr. pose proof (room_by_ok (t ← evict_earliest t; Done ((), t)) (λ _, ()) t cap rows Hr) as H1.
  destruct H1 as (t' & gone & rows' & E & Hr' & Hroom).
  - intros r i t' Hi Ha E. unfold evict_earliest. rewrite (du_ats_ok _ _ _ Hr). cbn [mbind run_bind]. rewrite Ha, E. done.
  - intros Ha. unfold evict_earliest. rewrite (du_ats_ok _ _ _ Hr). cbn [mbind run_bind]. by rewrite Ha.
  - exists t', gone, rows'. split; [|done]. destruct (du_capacity t <=? Z.of_nat (du_len t))%Z; [|congruence].
    destruct (evict_earliest t); cbn in E; congruence.
Qed.

(** The rows after a push into what [room_ok] left. *)
Definition pushed (cap : Z) rows (r : DueRow V) : list (DueRow V) := if (cap =? 0)%Z then rows else rows ++ [r].

Lemma push_ok t cap rows gone rows' r :
  du_rep t cap rows' → room_made cap rows gone rows' → (Z.of_nat (length rows) ≤ cap)%Z → (Z.of_nat (length rows) < u32_max)%Z →
  ∃ i t', du_push t r = Done (i, t') ∧ du_rep t' cap (pushed cap rows' r) ∧ (i = None ↔ cap = 0%Z).
Proof.
  intros Hr Hroom Hcap Hmax.
  assert (Hpush : (Z.of_nat (length rows') < cap)%Z → (Z.of_nat (length rows') < u32_max)%Z →
    ∃ i t', du_push t r = Done (i, t') ∧ du_rep t' cap (pushed cap rows' r) ∧ (i = None ↔ cap = 0%Z)).
  { intros Hlt Hlt'. destruct (du_push_ok t cap rows' r Hr Hlt Hlt') as (t' & E & Hr'). eexists _, t'. split; [done|].
    unfold pushed. rewrite (proj2 (Z.eqb_neq _ _)) by lia. split; [done|]. split; [done|]. lia. }
  destruct Hroom as [Hlt|r0 rows' Hl Hp _|Hz ->].
  - by apply Hpush.
  - apply Permutation_length in Hp. cbn in Hp. apply Hpush; lia.
  - eexists _, t. split; [apply (du_push_full t cap [] r Hr); cbn; [lia|width]|]. subst cap. split; [done|]. done.
Qed.
End loop_lemmas.

(** * Arrays with a length *)

Section fixed.
Context `{DueTimes} {V : Type} {MAX : nat} (blank : V).

Record FixedDue := mkFixedDue { fx_len : nat; fx_keys : list DestinationHash; fx_values : list V; fx_ats : list Z }.

Definition fixed_due_default : FixedDue :=
  mkFixedDue 0 (replicate MAX (replicate 16 0%Z)) (replicate MAX blank) (replicate MAX 0%Z).

Definition fixed_due_push (t : FixedDue) (r : DueRow V) : run (option nat * FixedDue) :=
  if (MAX <=? fx_len t)%nat then Done (None, t) else
  let i := fx_len t in
  ks ← store (fx_keys t) i (du_key r);
  vs ← store (fx_values t) i (du_value r);
  ats ← store (fx_ats t) i (du_at r);
  Done (Some i, mkFixedDue (i + 1) ks vs ats).

Definition fixed_due_swap_remove (t : FixedDue) (i : nat) : run FixedDue :=
  last ← match fx_len t with O => Panic | S last => Done last end;
  if (i =? last)%nat then Done (mkFixedDue last (fx_keys t) (fx_values t) (fx_ats t)) else
  ks ← move_last (fx_keys t) i last;
  vs ← move_last (fx_values t) i last;
  ats ← move_last (fx_ats t) i last;
  Done (mkFixedDue last ks vs ats).

#[global] Instance fixed_due : DueTable V FixedDue := {|
  du_capacity := λ _, Z.of_nat MAX;
  du_len := fx_len;
  du_values := λ t, slice (fx_values t) 0 (fx_len t);
  du_ats := λ t, slice (fx_ats t) 0 (fx_len t);
  du_push := fixed_due_push;
  du_swap_remove := fixed_due_swap_remove;
  du_index_of := λ t d, ks ← slice (fx_keys t) 0 (fx_len t); Done (fst <$> list_find (λ c, c = d) ks);
  du_first_due := λ t now, ats ← slice (fx_ats t) 0 (fx_len t); Done (fst <$> list_find (λ a, due now a = true) ats, t);
  du_earliest := λ t, ats ← slice (fx_ats t) 0 (fx_len t); Done (minimum ats, t);
  du_prefers_linear := λ t _, Done (true, t);
  du_invalidate := λ t, t;
|}.

Record fixed_due_rep (t : FixedDue) (cap : Z) (rows : list (DueRow V)) : Prop := {
  fxr_cap : cap = Z.of_nat MAX;
  fxr_keys : column MAX (fx_len t) (fx_keys t) (du_key <$> rows);
  fxr_values : column MAX (fx_len t) (fx_values t) (du_value <$> rows);
  fxr_ats : column MAX (fx_len t) (fx_ats t) (du_at <$> rows);
}.

Lemma fixed_due_len t cap rows : fixed_due_rep t cap rows → fx_len t = length rows ∧ length rows ≤ MAX.
Proof. intros [_ Hk _ _]. pose proof (column_length _ _ _ _ Hk) as Hl. rewrite length_fmap in Hl. destruct Hk as (_ & Hle & _). lia. Qed.

Lemma fixed_due_push_ok t cap rows r :
  fixed_due_rep t cap rows → (Z.of_nat (length rows) < cap)%Z →
  ∃ t', fixed_due_push t r = Done (Some (length rows), t') ∧ fixed_due_rep t' cap (rows ++ [r]).
Proof.
  intros Hr Hlt. destruct (fixed_due_len t cap rows Hr) as [Hl Hle]. destruct Hr as [-> Hk Hv Ha]. unfold fixed_due_push.
  rewrite Hl in *. rewrite (proj2 (Nat.leb_gt _ _)) by lia.
  step_column (column_push MAX _ _ _ (du_key r) Hk ltac:(lia)). step_column (column_push MAX _ _ _ (du_value r) Hv ltac:(lia)).
  step_column (column_push MAX _ _ _ (du_at r) Ha ltac:(lia)). eexists. split; [done|].
  split; cbn; [done|rewrite fmap_app, Nat.add_1_r; done..].
Qed.

Lemma fixed_due_swap_remove_ok t cap rows i :
  fixed_due_rep t cap rows → i < length rows →
  ∃ t', fixed_due_swap_remove t i = Done t' ∧ fixed_due_rep t' cap (swap_removed rows i).
Proof.
  intros Hr Hi. destruct (fixed_due_len t cap rows Hr) as [Hl Hle]. destruct Hr as [-> Hk Hv Ha]. unfold fixed_due_swap_remove.
  destruct (fx_len t) as [|last]; [lia|]. cbn [mbind run_bind]. destruct (Nat.eqb_spec i last) as [->|Hne].
  - eexists. split; [done|]. split; cbn; [done|rewrite fmap_swap_removed; by apply column_pop..].
  - step_column (column_swap_remove MAX last _ _ i Hk ltac:(lia)). step_column (column_swap_remove MAX last _ _ i Hv ltac:(lia)).
    step_column (column_swap_remove MAX last _ _ i Ha ltac:(lia)). eexists. split; [done|].
    split; cbn; [done|by rewrite fmap_swap_removed..].
Qed.

#[global] Instance fixed_due_laws : DueTableLaws V FixedDue.
Proof.
  refine {| du_rep := fixed_due_rep |}.
  - intros t cap rows Hr. destruct (fixed_due_len t cap rows Hr) as [Hl Hle]. rewrite (fxr_cap _ _ _ Hr). cbn. split; [done|lia].
  - intros t cap rows Hr. by destruct (fixed_due_len t cap rows Hr).
  - intros t cap rows [_ _ Hv _]. by eapply column_slice.
  - intros t cap rows [_ _ _ Ha]. by eapply column_slice.
  - intros t cap rows r Hr Hlt _. by apply fixed_due_push_ok.
  - intros t cap rows r Hr E _. destruct (fixed_due_len t cap rows Hr) as [Hl _]. rewrite (fxr_cap _ _ _ Hr) in E.
    cbn. unfold fixed_due_push. by rewrite (proj2 (Nat.leb_le _ _)) by lia.
  - intros t cap rows i Hr Hi. by apply fixed_due_swap_remove_ok.
  - intros t cap rows d [_ Hk _ _]. cbn. rewrite (column_slice _ _ _ _ Hk). cbn [mbind run_bind].
    destruct (list_find_key du_key rows d) as [(i & r & -> & Hi)|[-> Hn]]; [left; by exists i, r|by right].
  - intros t cap rows now Hr _. cbn. rewrite (column_slice _ _ _ _ (fxr_ats _ _ _ Hr)). cbn [mbind run_bind].
    eexists _, t. split; [done|]. split; [done|].
    destruct (list_find _ _) as [[i a]|] eqn:E; cbn.
    + apply list_find_Some in E as (Hi & Hdue & _). rewrite list_lookup_fmap in Hi. destruct (rows !! i) as [r|] eqn:Er; [|done].
      injection Hi as <-. by exists r.
    + apply list_find_None in E. rewrite Forall_fmap in E. eapply list.Forall_impl; [exact E|]. cbn. intros r. by destruct (due now (du_at r)).
  - intros t cap rows Hr _. cbn. rewrite (column_slice _ _ _ _ (fxr_ats _ _ _ Hr)). cbn [mbind run_bind]. by exists t.
  - intros t cap rows now Hr. cbn. by exists true, t.
  - done.
Defined.

Lemma fixed_due_default_rep : du_rep fixed_due_default (Z.of_nat MAX) [].
Proof. split; [done|apply column_new..]. Qed.
End fixed.
Arguments FixedDue : clear implicits.

(** * Vectors with a hash index and a heap of deadlines *)

Section heap.
Context `{DueTimes} {V : Type}.

Record HeapDue := mkHeapDue {
  hp_keys : list DestinationHash;
  hp_values : list V;
  hp_ats : list Z;
  hp_index : list Z;
  hp_deadlines : DeadlineHeap.HeapDeadlineIndex;
}.

Definition heap_due_default : HeapDue := mkHeapDue [] [] [] LemireIndex.Heap.default DeadlineHeap.default_index.

Definition heap_due_push (t : HeapDue) (r : DueRow V) : run (option nat * HeapDue) :=
  let row := length (hp_keys t) in
  let ks := hp_keys t ++ [du_key r] in
  let vs := hp_values t ++ [du_value r] in
  let ats := hp_ats t ++ [du_at r] in
  index ← LemireIndex.Heap.heap_insert (hp_index t) row ks;
  ix ← DeadlineHeap.insert (deadline_in due_at ats) (hp_deadlines t) row (due_at (du_at r));
  Done (Some row, mkHeapDue ks vs ats index ix).

Definition heap_due_swap_remove (t : HeapDue) (i : nat) : run HeapDue :=
  if (length (hp_keys t) <=? i)%nat then Done t else
  let last := length (hp_keys t) - 1 in
  index ← LemireIndex.Heap.heap_remove_slot (hp_index t) i (hp_keys t);
  index ← (if negb (i =? last)%nat then LemireIndex.Heap.heap_repoint_slot index last i (hp_keys t) else Done index);
  ix ← DeadlineHeap.swap_remove (deadline_in due_at (hp_ats t)) (hp_deadlines t) i last;
  ks ← vec_swap_remove (hp_keys t) i;
  vs ← vec_swap_remove (hp_values t) i;
  ats ← vec_swap_remove (hp_ats t) i;
  Done (mkHeapDue ks vs ats index ix).

(** The heap's queries prepare it first. *)
Definition with_deadlines {A} (t : HeapDue) (query : run (A * DeadlineHeap.HeapDeadlineIndex)) : run (A * HeapDue) :=
  '(a, ix) ← query; Done (a, mkHeapDue (hp_keys t) (hp_values t) (hp_ats t) (hp_index t) ix).

#[global] Instance heap_due : DueTable V HeapDue := {|
  du_capacity := λ _, usize_max;
  du_len := λ t, length (hp_keys t);
  du_values := λ t, Done (hp_values t);
  du_ats := λ t, Done (hp_ats t);
  du_push := heap_due_push;
  du_swap_remove := heap_due_swap_remove;
  du_index_of := λ t d, LemireIndex.Heap.heap_get (hp_index t) d (hp_keys t);
  du_first_due := λ t now, with_deadlines t
    (DeadlineHeap.first_due (deadline_in due_at (hp_ats t)) (hp_deadlines t) (length (hp_ats t)) now);
  du_earliest := λ t, with_deadlines t
    (DeadlineHeap.earliest_exact (deadline_in due_at (hp_ats t)) (hp_deadlines t) (length (hp_ats t)));
  du_prefers_linear := λ t now, with_deadlines t
    (DeadlineHeap.prefers_linear_cull (deadline_in due_at (hp_ats t)) (hp_deadlines t) (length (hp_ats t)) now);
  du_invalidate := λ t, mkHeapDue (hp_keys t) (hp_values t) (hp_ats t) (hp_index t) (DeadlineHeap.invalidate (hp_deadlines t));
|}.

Record heap_due_rep (t : HeapDue) (cap : Z) (rows : list (DueRow V)) : Prop := {
  hpr_cap : cap = usize_max;
  hpr_keys : hp_keys t = du_key <$> rows;
  hpr_values : hp_values t = du_value <$> rows;
  hpr_ats : hp_ats t = du_at <$> rows;
  hpr_index : LemireIndex.Heap.heap_rep (hp_index t) (du_key <$> rows);
  hpr_deadlines : kept (deadline_in due_at (du_at <$> rows)) (hp_deadlines t) (length (du_at <$> rows));
  hpr_max : (Z.of_nat (length rows) ≤ u32_max)%Z;
}.

Lemma heap_due_push_ok t cap rows r :
  heap_due_rep t cap rows → (Z.of_nat (length rows) < u32_max)%Z →
  ∃ t', heap_due_push t r = Done (Some (length rows), t') ∧ heap_due_rep t' cap (rows ++ [r]).
Proof.
  intros [-> Hk Hv Ha Hix Hd Hmax] Hlt. unfold heap_due_push. rewrite Hk, Hv, Ha, length_fmap.
  destruct (heap_index_push (hp_index t) (du_key <$> rows) (du_key r) Hix) as (slots & E & Hix'); [by rewrite length_fmap|].
  rewrite length_fmap in E. unfold DestinationHash in *. rewrite E. cbn [mbind run_bind].
  destruct (insert_column due_at (hp_deadlines t) (du_at <$> rows) (du_at r) Hd) as (ix & E' & Hd'). rewrite length_fmap in E'.
  rewrite E'. cbn [mbind run_bind]. eexists. split; [done|].
  split; cbn [hp_keys hp_values hp_ats hp_index hp_deadlines]; rewrite ?fmap_app; try done. rewrite length_app. cbn. lia.
Qed.

Lemma heap_due_swap_remove_ok t cap rows i :
  heap_due_rep t cap rows → i < length rows →
  ∃ t', heap_due_swap_remove t i = Done t' ∧ heap_due_rep t' cap (swap_removed rows i).
Proof.
  intros [-> Hk Hv Ha Hix Hd Hmax] Hi. unfold heap_due_swap_remove. rewrite Hk, length_fmap, (proj2 (Nat.leb_gt _ _)) by done.
  destruct (heap_index_swap (hp_index t) (du_key <$> rows) i Hix) as (slots1 & slots2 & E1 & E2 & Hix'); [by rewrite length_fmap..|].
  unfold DestinationHash in *. rewrite E1. cbn [mbind run_bind]. rewrite length_fmap in E2. rewrite E2. cbn [mbind run_bind].
  destruct (swap_remove_column due_at (hp_deadlines t) (du_at <$> rows) i Hd) as (ix & E & Hd'); [by rewrite length_fmap|].
  rewrite length_fmap in E. rewrite Ha, E. cbn [mbind run_bind]. rewrite Hv, !vec_swap_remove_done by (by rewrite length_fmap).
  cbn [mbind run_bind]. eexists. split; [done|]. rewrite <- !fmap_swap_removed in *.
  split; cbn [hp_keys hp_values hp_ats hp_index hp_deadlines]; try done. rewrite length_swap_removed by done. lia.
Qed.

(** A query leaves the rows as they are. *)
Lemma with_deadlines_ok {A} t cap rows (query : run (A * DeadlineHeap.HeapDeadlineIndex)) a ix :
  heap_due_rep t cap rows → query = Done (a, ix) → kept (deadline_in due_at (du_at <$> rows)) ix (length (du_at <$> rows)) →
  ∃ t', with_deadlines t query = Done (a, t') ∧ heap_due_rep t' cap rows.
Proof. intros [-> Hk Hv Ha Hix Hd Hmax] -> Hix'. unfold with_deadlines. cbn [mbind run_bind]. eexists. split; [done|]. by split. Qed.

#[global] Instance heap_due_laws `{!DueTimesLaws} : DueTableLaws V HeapDue.
Proof.
  refine {| du_rep := heap_due_rep |}.
  - intros t cap rows Hr. rewrite (hpr_cap _ _ _ Hr). split; [done|]. pose proof (hpr_max _ _ _ Hr). width.
  - intros t cap rows Hr. cbn. by rewrite (hpr_keys _ _ _ Hr), length_fmap.
  - intros t cap rows Hr. cbn. by rewrite (hpr_values _ _ _ Hr).
  - intros t cap rows Hr. cbn. by rewrite (hpr_ats _ _ _ Hr).
  - intros t cap rows r Hr _ Hlt. by apply heap_due_push_ok.
  - intros t cap rows r Hr _ Hc. rewrite (hpr_cap _ _ _ Hr) in Hc. width.
  - intros t cap rows i Hr Hi. by apply heap_due_swap_remove_ok.
  - intros t cap rows d Hr. cbn. rewrite (hpr_keys _ _ _ Hr).
    destruct (heap_get_ids (hp_index t) (du_key <$> rows) d (hpr_index _ _ _ Hr)) as [(i & E & Hi)|[E Hn]]; [left|by right].
    rewrite list_lookup_fmap in Hi. destruct (rows !! i) as [r|] eqn:Er; [|done]. injection Hi as Hi. by exists i, r.
  - intros t cap rows now Hr Hn. cbn. rewrite (hpr_ats _ _ _ Hr).
    destruct (first_due_column due_at (hp_deadlines t) (du_at <$> rows) now (hpr_deadlines _ _ _ Hr)) as (found & ix & E & Hd & Hf).
    destruct (with_deadlines_ok t cap rows _ found ix Hr E Hd) as (t' & -> & Hr'). exists found, t'. split; [done|]. split; [done|].
    destruct found as [i|].
    + destruct Hf as (a & at_ & Hi & Ea & Hle). rewrite list_lookup_fmap in Hi. destruct (rows !! i) as [r|] eqn:Er; [|done].
      injection Hi as <-. exists r. split; [done|]. rewrite due_is_due_at, Ea by done. by apply Z.leb_le.
    + apply list.Forall_forall. intros r Hin. rewrite due_is_due_at by done. destruct (due_at (du_at r)) as [at_|] eqn:Ea; [|done].
      apply Z.leb_gt. apply (Hf (du_at r) at_); [|done]. apply list_elem_of_fmap. by exists r.
  - intros t cap rows Hr Hsome. cbn. rewrite (hpr_ats _ _ _ Hr).
    destruct (earliest_column due_at (hp_deadlines t) (du_at <$> rows) (hpr_deadlines _ _ _ Hr)) as (ix & E & Hd).
    destruct (with_deadlines_ok t cap rows _ _ ix Hr E Hd) as (t' & -> & Hr'). exists t'. split; [|done]. do 3 f_equal.
    clear -Hsome. induction rows as [|r rows IH]; [done|]. cbn. by rewrite Hsome, IH.
  - intros t cap rows now Hr. cbn. rewrite (hpr_ats _ _ _ Hr).
    destruct (prefers_linear_cull_kept _ _ _ now (hpr_deadlines _ _ _ Hr)) as (b & ix & E & Hd).
    destruct (with_deadlines_ok t cap rows _ b ix Hr E Hd) as (t' & -> & Hr'). by exists b, t'.
  - intros t cap rows [-> Hk Hv Ha Hix Hd Hmax]. split; try done.
Defined.

Lemma heap_due_default_rep `{!DueTimesLaws} : du_rep heap_due_default usize_max [].
Proof. split; cbn; try done; [exact heap_index_new|apply kept_default]. Qed.
End heap.
Arguments HeapDue : clear implicits.
