(* ===== verification/PathRequests.v ===== *)
(** Path requests: [routing/path_requests/].

    [Recent] throttles requests for the same destination, [Pending] holds the requests the host commanded until
    they are settled, [Recursive] the ones forwarded for others, and [Seen] remembers request ids to drop copies.
    The tables of the first three are those of [DueTable]. *)

From S2P Require Import Prelude Columns Routes ChannelTable Lifetime DueTable.

(** Rows that fall due at their instant. *)
#[local] Instance timeouts : DueTimes := {| due := λ now at_, (at_ <=? now)%Z; due_at := Some |}.
#[local] Instance timeouts_laws : DueTimesLaws.
Proof. by split. Qed.

(** * Recent requests: [recent/core.rs] *)

Module Recent.
Definition PATH_REQUEST_MIN_INTERVAL_MS : Z := (20 * 1000)%Z.

Definition aged_out (requested_at now : Z) : bool := (PATH_REQUEST_MIN_INTERVAL_MS <=? saturating_sub now requested_at)%Z.
(** [checked_add] *)
Definition expires_at (requested_at : Z) : option Z :=
  if (requested_at + PATH_REQUEST_MIN_INTERVAL_MS <=? u64_max)%Z then Some (requested_at + PATH_REQUEST_MIN_INTERVAL_MS)%Z else None.

#[local] Instance ages : DueTimes := {| due := λ now at_, aged_out at_ now; due_at := expires_at |}.
#[local] Instance ages_laws : DueTimesLaws.
Proof.
  split. intros now at_ Hn. cbn. unfold aged_out, expires_at, PATH_REQUEST_MIN_INTERVAL_MS. destruct (Z.leb_spec (at_ + 20 * 1000) u64_max).
  - destruct (Z.leb_spec (at_ + 20 * 1000) now), (Z.leb_spec (20 * 1000) (saturating_sub now at_)); width.
  - apply Z.leb_gt. width.
Qed.

Section operations.
Context {T : Type} `{DueTable unit T}.

Definition evict_stale (t : T) (now : Z) : run T := cull t now.
Definition evict_oldest (t : T) : run T := evict_earliest t.

Definition mark_seen_at (t : T) (destination : DestinationHash) (now : Z) : run T :=
  found ← du_index_of t destination;
  t ← match found with Some i => du_swap_remove t i | None => Done t end;
  t ← evict_stale t now;
  t ← (if (du_capacity t <=? Z.of_nat (du_len t))%Z then evict_oldest t else Done t);
  '(_, t) ← du_push t (mkDue destination () now);
  Done t.

Definition is_throttled (t : T) (destination : DestinationHash) (now : Z) : run bool :=
  found ← du_index_of t destination;
  match found with
  | None => Done false
  | Some i => ats ← du_ats t; at_ ← index ats i; Done (negb (aged_out at_ now))
  end.
End operations.

Definition FixedRecentPathRequestTable : Type := FixedDue unit.
Definition HeapRecentPathRequestTable : Type := HeapDue unit.
End Recent.

(** * Pending requests: [pending/core.rs] *)

Module Pending.
Definition CommandId : Type := Z.
Definition PendingPathRequest : Type := DueRow CommandId.

Record PendingPathRequests (T : Type) := mkPending { table : T; earliest_timeout : option Z }.
Arguments mkPending {T} _ _.
Arguments table {T} _.
Arguments earliest_timeout {T} _.

Section operations.
Context {T : Type} `{DueTable CommandId T}.
Implicit Types (p : PendingPathRequests T).

(** The cached value, taken from the table again. *)
Definition refresh_earliest_timeout (t : T) : run (PendingPathRequests T) :=
  '(e, t) ← du_earliest t; Done (mkPending t e).

Definition cull_soonest_expiring (t : T) : run (option CommandId * T) :=
  ats ← du_ats t;
  match argmin ats with
  | None => Done (None, t)
  | Some i =>
      ids ← du_values t;
      match ids !! i with
      | None => Done (None, t)
      | Some command_id => t ← du_swap_remove t i; Done (Some command_id, t)
      end
  end.

Definition track p (request : PendingPathRequest) : run (option CommandId * PendingPathRequests T) :=
  '(culled, t) ← (if (du_capacity (table p) <=? Z.of_nat (du_len (table p)))%Z
                  then cull_soonest_expiring (table p) else Done (None, table p));
  '(pushed, t) ← du_push t request;
  p ← refresh_earliest_timeout t;
  Done (match pushed with Some _ => culled | None => Some (du_value request) end, p).

Definition earliest_timeout_at p : option Z := earliest_timeout p.

Definition contains p (destination : DestinationHash) : run bool :=
  found ← du_index_of (table p) destination; Done (bool_decide (is_Some found)).

(** The row found is popped, with its command. *)
Definition pop_row p (t : T) (found : option nat) : run (option CommandId * PendingPathRequests T) :=
  let unchanged := mkPending t (earliest_timeout p) in
  match found with
  | None => Done (None, unchanged)
  | Some i =>
      ids ← du_values t;
      match ids !! i with
      | None => Done (None, unchanged)
      | Some command_id =>
          t ← du_swap_remove t i;
          p ← refresh_earliest_timeout t;
          Done (Some command_id, p)
      end
  end.
Definition pop_settled_for p (destination : DestinationHash) : run (option CommandId * PendingPathRequests T) :=
  found ← du_index_of (table p) destination; pop_row p (table p) found.
Definition pop_expired p (now : Z) : run (option CommandId * PendingPathRequests T) :=
  '(found, t) ← du_first_due (table p) now; pop_row p t found.
End operations.

Definition FixedPendingPathRequestTable : Type := FixedDue CommandId.
Definition HeapPendingPathRequestTable : Type := HeapDue CommandId.
End Pending.

(** * Recursive requests: [recursive/core.rs] *)

Module Recursive.
Inductive RecursiveOutcome := Opened | AlreadyInFlight.

Record RecursivePathRequests (T : Type) := mkRecursive { table : T; earliest_expiry : option Z }.
Arguments mkRecursive {T} _ _.
Arguments table {T} _.
Arguments earliest_expiry {T} _.

Section operations.
Context {T : Type} `{DueTable InterfaceId T}.
Implicit Types (p : RecursivePathRequests T).

Definition in_flight_count p : nat := du_len (table p).

Definition refresh_earliest_expiry (t : T) : run (RecursivePathRequests T) :=
  '(e, t) ← du_earliest t; Done (mkRecursive t e).
Definition evict_soonest_expiring (t : T) : run T := evict_earliest t.

Definition begin p (destination : DestinationHash) (requesting_interface : InterfaceId) (expires_at : Z) :
    run (RecursiveOutcome * RecursivePathRequests T) :=
  found ← du_index_of (table p) destination;
  if bool_decide (is_Some found) then Done (AlreadyInFlight, p) else
  t ← (if (du_capacity (table p) <=? Z.of_nat (du_len (table p)))%Z then evict_soonest_expiring (table p) else Done (table p));
  '(_, t) ← du_push t (mkDue destination requesting_interface expires_at);
  p ← refresh_earliest_expiry t;
  Done (Opened, p).

Definition take_requester p (destination : DestinationHash) : run (option InterfaceId * RecursivePathRequests T) :=
  found ← du_index_of (table p) destination;
  match found with
  | None => Done (None, p)
  | Some i =>
      interfaces ← du_values (table p);
      interface ← index interfaces i;
      t ← du_swap_remove (table p) i;
      p ← refresh_earliest_expiry t;
      Done (Some interface, p)
  end.

Definition contains p (destination : DestinationHash) : run bool :=
  found ← du_index_of (table p) destination; Done (bool_decide (is_Some found)).

Definition cull_expired p (now : Z) : run (RecursivePathRequests T) :=
  t ← cull (table p) now; refresh_earliest_expiry t.

Definition earliest_expiry_at p : option Z := earliest_expiry p.
End operations.

Definition FixedRecursivePathRequestTable : Type := FixedDue InterfaceId.
Definition HeapRecursivePathRequestTable : Type := HeapDue InterfaceId.
End Recursive.

(** * Request ids seen: [seen/core.rs] *)

Module Seen.
Definition PathRequestIdBytes : Type := list Z.
Inductive PathRequestNovelty := Fresh | Duplicate.
#[global] Instance PathRequestNovelty_eq_dec : EqDecision PathRequestNovelty.
Proof. solve_decision. Defined.

Class SeenPathRequestTable (T : Type) := {
  sn_destinations : T → run (list DestinationHash);
  sn_ids : T → run (list PathRequestIdBytes);
  sn_remember : T → DestinationHash → PathRequestIdBytes → run T;
}.

Section operations.
Context {T : Type} `{SeenPathRequestTable T}.

Definition observe (t : T) (destination : DestinationHash) (id : PathRequestIdBytes) : run (PathRequestNovelty * T) :=
  ds ← sn_destinations t;
  ids ← sn_ids t;
  if existsb (λ c, bool_decide (c.1 = destination) && bool_decide (c.2 = id)) (zip ds ids)
  then Done (Duplicate, t)
  else t ← sn_remember t destination id; Done (Fresh, t).
End operations.

(** [impls/fixed.rs]: a ring. *)
Section fixed.
Context {MAX_SEEN_PATH_REQUESTS : nat}.
Abbreviation MAX := MAX_SEEN_PATH_REQUESTS.

Record FixedSeenPathRequestTable := mkFixedSeen {
  fs_len : nat;
  fs_write_cursor : nat;
  fs_destinations : list DestinationHash;
  fs_ids : list PathRequestIdBytes;
}.
Definition fixed_seen_default : FixedSeenPathRequestTable :=
  mkFixedSeen 0 0 (replicate MAX (replicate 16 0%Z)) (replicate MAX (replicate 16 0%Z)).

Definition fixed_seen_remember (t : FixedSeenPathRequestTable) (destination : DestinationHash) (id : PathRequestIdBytes) :
    run FixedSeenPathRequestTable :=
  if (MAX =? 0)%nat then Done t else
  let i := fs_write_cursor t in
  ds ← store (fs_destinations t) i destination;
  ids ← store (fs_ids t) i id;
  Done (mkFixedSeen ((fs_len t + 1) `min` MAX) ((i + 1) mod MAX) ds ids).

#[global] Instance fixed_seen : SeenPathRequestTable FixedSeenPathRequestTable := {|
  sn_destinations := λ t, slice (fs_destinations t) 0 (fs_len t);
  sn_ids := λ t, slice (fs_ids t) 0 (fs_len t);
  sn_remember := fixed_seen_remember;
|}.
End fixed.

(** [impls/heap.rs]: vectors that grow up to a bound, a ring from then on. *)
Definition RNS_MAX_PR_TAGS : nat := Z.to_nat 32000.

Record HeapSeenPathRequestTable := mkHeapSeen {
  hs_write_cursor : nat;
  hs_destinations : list DestinationHash;
  hs_ids : list PathRequestIdBytes;
}.
Definition heap_seen_default : HeapSeenPathRequestTable := mkHeapSeen 0 [] [].

Definition heap_seen_remember (t : HeapSeenPathRequestTable) (destination : DestinationHash) (id : PathRequestIdBytes) :
    run HeapSeenPathRequestTable :=
  if (length (hs_destinations t) <? RNS_MAX_PR_TAGS)%nat
  then Done (mkHeapSeen (hs_write_cursor t) (hs_destinations t ++ [destination]) (hs_ids t ++ [id])) else
  let i := hs_write_cursor t in
  ds ← store (hs_destinations t) i destination;
  ids ← store (hs_ids t) i id;
  Done (mkHeapSeen ((i + 1) mod RNS_MAX_PR_TAGS) ds ids).

#[global] Instance heap_seen : SeenPathRequestTable HeapSeenPathRequestTable := {|
  sn_destinations := λ t, Done (hs_destinations t);
  sn_ids := λ t, Done (hs_ids t);
  sn_remember := heap_seen_remember;
|}.
End Seen.
