(* ===== verification/PathRequestsProofs.v ===== *)
(** What the tables of path requests promise ([PathRequests]): requests pending are answered once each, the throttle
    lasts exactly its interval, forwarded requests are remembered until they expire, and requests seen are a bounded
    queue without repetitions. *)

From stdpp Require Import gmap.
From S2P Require Import Prelude Columns Routes ChannelTable Lifetime DueTable RowTable PathRequests.

(** * Recent requests *)

Module Throttle.
Import PathRequests.Recent.
#[local] Existing Instance ages.
#[local] Existing Instance ages_laws.

(** The requests made so far, the last first. *)
Record mark := Marked { m_destination : DestinationHash; m_at : Z }.
Definition last_mark (d : DestinationHash) (history : list mark) : option Z := m_at <$> find_key m_destination d history.

(** In the order of time, none later than [latest]. *)
Fixpoint in_order (latest : Z) (history : list mark) : Prop :=
  match history with
  | [] => True
  | m :: history => (0 ≤ m_at m ≤ latest)%Z ∧ in_order (m_at m) history
  end.

Lemma in_order_last latest history d at_ : in_order latest history → last_mark d history = Some at_ → (0 ≤ at_ ≤ latest)%Z.
Proof.
  revert latest. induction history as [|m history IH]; intros latest Ho; [done|]. destruct Ho as [Hm Ho].
  unfold last_mark, find_key. cbn. case_decide; cbn; [by intros [= <-]|].
  intros E. assert (0 ≤ at_ ≤ m_at m)%Z; [|lia]. apply IH; [done|]. unfold last_mark, find_key.
  destruct (list_find _ history) as [[i x]|]; done.
Qed.

Lemma last_mark_cons d m history :
  last_mark d (m :: history) = if decide (m_destination m = d) then Some (m_at m) else last_mark d history.
Proof.
  unfold last_mark, find_key. cbn. case_decide; [done|]. by destruct (list_find _ history) as [[i x]|].
Qed.

Lemma aged_later at_ now now' : (now ≤ now')%Z → aged_out at_ now = true → aged_out at_ now' = true.
Proof. unfold aged_out. rewrite !Z.leb_le. width. Qed.
Lemma aged_older at_ at' now : (at_ ≤ at')%Z → aged_out at' now = true → aged_out at_ now = true.
Proof. unfold aged_out. rewrite !Z.leb_le. width. Qed.

Section marks.
Context {T : Type} `{!DueTable unit T} `{!DueTableLaws unit T}.
Implicit Types (t : T) (rows : list (DueRow unit)).

Fixpoint mark_all t (history : list mark) : run T :=
  match history with
  | [] => Done t
  | m :: history => t ← mark_all t history; mark_seen_at t (m_destination m) (m_at m)
  end.

(** A destination that was marked is in the table, unless it aged out or [cap] others are, all marked no earlier. *)
Record remembers (cap : Z) (history : list mark) rows : Prop := {
  rm_distinct : NoDup (du_key <$> rows);
  rm_marked : ∀ r, r ∈ rows → last_mark (du_key r) history = Some (du_at r);
  rm_kept : ∀ d at_, last_mark d history = Some at_ →
    (d ∈ du_key <$> rows) ∨ (∃ now, m_at <$> head history = Some now ∧ aged_out at_ now = true)
    ∨ (Z.of_nat (length rows) = cap ∧ Forall (λ r, (at_ ≤ du_at r)%Z) rows);
}.

(** The row of [d] is gone. *)
Lemma forget_ok t cap rows d :
  du_rep t cap rows → NoDup (du_key <$> rows) →
  ∃ t' rows', (found ← du_index_of t d; match found with Some i => du_swap_remove t i | None => Done t end) = Done t'
    ∧ du_rep t' cap rows' ∧ (d ∉ du_key <$> rows')
    ∧ (rows' = rows ∨ ∃ r, rows ≡ₚ r :: rows' ∧ du_key r = d).
Proof.
  intros Hr Hnd. destruct (du_index_of_ok t cap rows d Hr) as [(i & r & -> & Hi & Hk)|[-> Hn]]; cbn [mbind run_bind].
  - destruct (du_swap_remove_ok t cap rows i Hr (lookup_lt_Some _ _ _ Hi)) as (t' & -> & Hr').
    pose proof (swap_removed_perm rows i r Hi) as Hp. eexists _, _. split; [done|]. split; [done|]. split; [|right; by exists r].
    rewrite <- Hp in Hnd. cbn in Hnd. apply list.NoDup_cons in Hnd as [Hnot _]. by rewrite Hk in Hnot.
  - exists t, rows. split; [done|]. split; [done|]. split; [done|]. by left.
Qed.

(** The rows that are left of [rows] when [d] is marked at [now]: [gone] made room. *)
Record mark_leaves (cap : Z) rows (d : DestinationHash) (now : Z) (gone : option (DueRow unit)) (rest : list (DueRow unit)) : Prop := {
  ml_sub : rest ⊆+ rows;
  ml_not : d ∉ du_key <$> rest;
  ml_out : ∀ r, r ∈ rows → r ∈ rest ∨ du_key r = d ∨ aged_out (du_at r) now = true ∨ gone = Some r;
  ml_gone : ∀ r, gone = Some r → Z.of_nat (length rest) = (cap - 1)%Z ∧ Forall (λ r', (du_at r ≤ du_at r')%Z) rest;
  ml_full : (∀ r, r ∈ rows → aged_out (du_at r) now = false) → Z.of_nat (length rows) = cap → (0 < cap)%Z →
    Z.of_nat (length rest) = (cap - 1)%Z;
  ml_zero : cap = 0%Z → rest = [];
}.

Lemma mark_ok t cap rows d now :
  du_rep t cap rows → NoDup (du_key <$> rows) → is_u64 now → (Z.of_nat (length rows) < u32_max)%Z →
  ∃ t' gone rest, mark_seen_at t d now = Done t' ∧ du_rep t' cap (pushed cap rest (mkDue d () now)) ∧ mark_leaves cap rows d now gone rest.
Proof.
  intros Hr Hnd Hn Hmax. pose proof (proj2 (du_capacity_ok t cap rows Hr)) as Hcap.
  destruct (forget_ok t cap rows d Hr Hnd) as (t1 & rows1 & E1 & Hr1 & Hd1 & Hrows1).
  destruct (cull_ok t1 cap rows1 now Hr1 Hn) as (t2 & rows2 & E2 & Hr2 & Hp2).
  destruct (room_ok t2 cap rows2 Hr2) as (t3 & gone & rows3 & E3 & Hr3 & Hroom).
  assert (Hs1 : rows1 ⊆+ rows) by (destruct Hrows1 as [->|(r & -> & _)]; [done|by apply submseteq_cons]).
  assert (Hs2 : rows2 ⊆+ rows1) by (rewrite Hp2; apply sublist_submseteq, sublist_filter).
  assert (Hs3 : rows3 ⊆+ rows2) by (destruct Hroom as [|r rows3 _ -> _|_ ->]; [done|by apply submseteq_cons|done]).
  pose proof (submseteq_length _ _ Hs1). pose proof (submseteq_length _ _ Hs2).
  destruct (push_ok t3 cap rows2 gone rows3 (mkDue d () now) Hr3 Hroom) as (i & t4 & E4 & Hr4 & _); [lia|lia|].
  exists t4, gone, rows3. split.
  { unfold mark_seen_at, evict_stale, evict_oldest. revert E1. destruct (du_index_of t d) as [found| |]; cbn [mbind run_bind]; [|done|done].
    intros ->. cbn [mbind run_bind]. rewrite E2. cbn [mbind run_bind]. rewrite E3. cbn [mbind run_bind]. by rewrite E4. }
  split; [done|]. split.
  - by rewrite Hs3, Hs2.
  - intros (r & -> & Hin)%list_elem_of_fmap. apply Hd1, list_elem_of_fmap. exists r. split; [done|].
    eapply elem_of_submseteq; [exact Hin|]. by rewrite Hs3.
  - intros r Hin. assert (Hin1 : r ∈ rows1 ∨ du_key r = d).
    { destruct Hrows1 as [->|(r0 & Hp & Hk)]; [by left|]. rewrite Hp in Hin. apply elem_of_cons in Hin as [->|]; auto. }
    destruct Hin1 as [Hin1|]; [|auto]. destruct (aged_out (du_at r) now) eqn:Ha; [auto|].
    assert (Hin2 : r ∈ rows2) by (rewrite Hp2; by apply list_elem_of_filter).
    destruct Hroom as [|r0 rows3 _ Hp _|_ ->]; [auto| |by apply not_elem_of_nil in Hin2].
    rewrite Hp in Hin2. apply elem_of_cons in Hin2 as [->|]; auto.
  - intros r ->. inversion Hroom as [|r' rows' Hl Hp Hall|]; subst. split.
    + apply Permutation_length in Hp. cbn in Hp. lia.
    + rewrite Hp in Hall. by inversion Hall.
  - intros Hage Hl Hpos.
    assert (Hl2 : length rows2 = length rows1).
    { apply Permutation_length. rewrite Hp2, (filter_all (λ r, due now (du_at r))); [done|]. apply list.Forall_forall. intros r Hin.
      apply Hage. by eapply elem_of_submseteq. }
    destruct Hrows1 as [->|(r0 & Hp & _)].
    + destruct Hroom as [|r0 rows3 Hl3 Hp _|]; [lia| |lia]. apply Permutation_length in Hp. cbn in Hp. lia.
    + apply Permutation_length in Hp. cbn in Hp. destruct Hroom; lia.
  - intros ->. assert (length rows = 0) by lia. apply nil_length_inv. pose proof (submseteq_length _ _ Hs3). lia.
Qed.

Lemma pushed_in cap (rest : list (DueRow unit)) r r' : r' ∈ pushed cap rest r → r' ∈ rest ∨ r' = r.
Proof. unfold pushed. destruct (cap =? 0)%Z; [by left|]. intros [|Hr]%elem_of_app; [by left|]. apply list_elem_of_singleton in Hr. by right. Qed.

Lemma mark_remembers cap history latest rows d now gone rest :
  remembers cap history rows → (Z.of_nat (length rows) ≤ cap)%Z → in_order latest history → m_at <$> head history = Some latest ∨ history = [] →
  (latest ≤ now)%Z → mark_leaves cap rows d now gone rest →
  remembers cap (Marked d now :: history) (pushed cap rest (mkDue d () now)).
Proof.
  intros [Hnd Hmark Hkept] Hcap Hord Hhead Hle [Hsub Hnot Hout Hgone Hfull Hzero].
  assert (Hin : ∀ r, r ∈ rest → r ∈ rows) by (intros r; by intros ?; eapply elem_of_submseteq).
  split.
  - assert (Hndr : NoDup (du_key <$> rest)) by (eapply submseteq_NoDup; [exact Hnd|by apply fmap_submseteq]).
    unfold pushed. destruct (cap =? 0)%Z; [done|]. rewrite fmap_app. by apply NoDup_snoc.
  - intros r Hr. rewrite last_mark_cons. cbn. apply pushed_in in Hr as [Hr| ->]; [|by rewrite decide_True].
    rewrite decide_False; [by apply Hmark, Hin|]. intros ->. apply Hnot. apply list_elem_of_fmap. by exists r.
  - intros d' at_. rewrite last_mark_cons. cbn. case_decide as Hd.
    { intros [= <-]. subst d'. destruct (Z.eqb_spec cap 0) as [Hz|Hz].
      - right. right. unfold pushed. rewrite Hz. cbn. rewrite Hzero by done. by split.
      - left. unfold pushed. rewrite (proj2 (Z.eqb_neq _ _) Hz), fmap_app. apply elem_of_app. right. by apply list_elem_of_singleton. }
    intros Hlast. pose proof (in_order_last latest history d' at_ Hord Hlast) as Hat.
    destruct (aged_out at_ now) eqn:Ha; [right; left; by exists now|]. cbn [head fmap option_fmap].
    assert (Hpush : (0 < cap)%Z → Z.of_nat (length rest) = (cap - 1)%Z → Forall (λ r, (at_ ≤ du_at r)%Z) rest →
      Z.of_nat (length (pushed cap rest (mkDue d () now))) = cap ∧ Forall (λ r, (at_ ≤ du_at r)%Z) (pushed cap rest (mkDue d () now))).
    { intros Hpos Hl Hall. unfold pushed. rewrite (proj2 (Z.eqb_neq _ _)) by lia. rewrite length_app. cbn. split; [lia|].
      apply Forall_app. split; [done|]. repeat constructor. cbn. lia. }
    destruct (Hkept d' at_ Hlast) as [Hk|[(now0 & Hn0 & Ha0)|[Hl Hall]]].
    + apply list_elem_of_fmap in Hk as (r & -> & Hr). pose proof (Hmark r Hr) as Hr'. rewrite Hlast in Hr'. injection Hr' as ->.
      destruct (Hout r Hr) as [Hrest|[Hk|[Ha'|Hg]]]; [|congruence|congruence|].
      * left. unfold pushed. destruct (cap =? 0)%Z; rewrite ?fmap_app, ?elem_of_app; [|left]; apply list_elem_of_fmap; by exists r.
      * right. right. destruct (Hgone r Hg) as [Hl Hall]. apply Hpush; [lia|done|done].
    + destruct Hhead as [Hhead| ->]; [|done]. rewrite Hhead in Hn0. injection Hn0 as ->.
      rewrite (aged_later at_ now0 now) in Ha by done. done.
    + right. right. destruct (Z.eqb_spec cap 0) as [Hz|Hz]; [unfold pushed; rewrite Hz; cbn; rewrite Hzero by done; by split|].
      apply Hpush; [lia| |].
      * apply Hfull; [|done|lia]. intros r Hr. destruct (aged_out (du_at r) now) eqn:E; [|done].
        rewrite list.Forall_forall in Hall. by rewrite (aged_older at_ (du_at r) now (Hall r Hr)) in Ha.
      * apply list.Forall_forall. intros r Hr. rewrite list.Forall_forall in Hall. by apply Hall, Hin.
Qed.

Lemma mark_all_ok t cap history latest :
  du_rep t cap [] → in_order latest history → (latest ≤ u64_max)%Z → (Z.of_nat (length history) ≤ u32_max)%Z →
  ∃ t' rows, mark_all t history = Done t' ∧ du_rep t' cap rows ∧ remembers cap history rows ∧ length rows ≤ length history.
Proof.
  intros Hr. revert latest. induction history as [|[d now] history IH]; intros latest Ho Hlate Hmax; cbn [mark_all].
  { exists t, []. split; [done|]. split; [done|]. split; [|done]. split; [constructor| |].
    - by intros r ?%not_elem_of_nil.
    - done. }
  destruct Ho as [Hm Ho]. cbn [m_at m_destination length] in *.
  destruct (IH now Ho) as (t1 & rows & -> & Hr1 & Hrem & Hlen); [lia|lia|]. cbn [mbind run_bind].
  destruct (mark_ok t1 cap rows d now Hr1 (rm_distinct _ _ _ Hrem)) as (t2 & gone & rest & -> & Hr2 & Hl); [width|lia|].
  exists t2, (pushed cap rest (mkDue d () now)). split; [done|]. split; [done|]. split.
  - destruct history as [|m0 history0] eqn:Eh.
    + eapply (mark_remembers cap [] now rows); [done|by apply (du_capacity_ok t1)|done|by right|done|done].
    + destruct Ho as [Hm0 Ho]. eapply (mark_remembers cap (m0 :: history0) (m_at m0) rows); [done|by apply (du_capacity_ok t1)| |by left|lia|done].
      split; [lia|done].
  - pose proof (submseteq_length _ _ (ml_sub _ _ _ _ _ _ Hl)). unfold pushed. destruct (cap =? 0)%Z; rewrite ?length_app; cbn; lia.
Qed.
End marks.

(** Path requests are throttled by their recency.  After any requests in the order of time, marking and asking
    end, and a destination is throttled only if its last request was less than twenty seconds ago; and it is
    throttled then unless as many other destinations as the table holds were requested no earlier. *)
Theorem recent_requests_throttle {T} `{!DueTable unit T} `{!DueTableLaws unit T} (t : T) cap history latest d now :
  du_rep t cap [] → in_order latest history → (latest ≤ now ≤ u64_max)%Z → (Z.of_nat (length history) ≤ u32_max)%Z →
  ∃ t' b, mark_all t history = Done t' ∧ is_throttled t' d now = Done b
    ∧ (b = true → ∃ at_, last_mark d history = Some at_ ∧ (now - at_ < PATH_REQUEST_MIN_INTERVAL_MS)%Z)
    ∧ (∀ at_, last_mark d history = Some at_ → (now - at_ < PATH_REQUEST_MIN_INTERVAL_MS)%Z →
         (∀ others, NoDup others → Forall (λ d', d' ≠ d ∧ ∃ at', last_mark d' history = Some at' ∧ (at_ ≤ at')%Z) others →
            (Z.of_nat (length others) < cap)%Z) → b = true).
Proof.
  intros Hr Ho Hn Hmax. destruct (mark_all_ok t cap history latest Hr Ho ltac:(lia) Hmax) as (t' & rows & E & Hr' & [Hnd Hmark Hkept] & Hlen).
  assert (Hage : ∀ at_, aged_out at_ now = false ↔ (now - at_ < PATH_REQUEST_MIN_INTERVAL_MS)%Z).
  { intros at_. unfold aged_out, PATH_REQUEST_MIN_INTERVAL_MS. rewrite Z.leb_gt. width. }
  exists t'. unfold is_throttled. destruct (du_index_of_ok t' cap rows d Hr') as [(i & r & -> & Hi & Hk)|[-> Hnot]]; cbn [mbind run_bind].
  - rewrite (du_ats_ok _ _ _ Hr'). cbn [mbind run_bind]. rewrite (index_lookup _ i (du_at r)) by (by rewrite list_lookup_fmap, Hi).
    cbn [mbind run_bind]. eexists. split; [exact E|]. split; [done|].
    pose proof (Hmark r (list_elem_of_lookup_2 _ _ _ Hi)) as Hr0. rewrite Hk in Hr0. split.
    + intros Hb%negb_true_iff. exists (du_at r). split; [done|]. by apply Hage.
    + intros at_ Hat Hlt _. rewrite Hr0 in Hat. injection Hat as ->. apply negb_true_iff. by apply Hage.
  - exists false. split; [exact E|]. split; [done|]. split; [done|]. intros at_ Hat Hlt Hothers. exfalso.
    destruct (Hkept d at_ Hat) as [?|[(now0 & Hn0 & Ha)|[Hl Hall]]]; [done| |].
    + apply Hage in Hlt. rewrite (aged_later at_ now0 now) in Hlt; [done| |done]. destruct history as [|m0 history]; [done|].
      injection Hn0 as <-. destruct Ho as [Hm _]. lia.
    + specialize (Hothers (du_key <$> rows) Hnd). rewrite length_fmap, Hl in Hothers. cut (cap < cap)%Z; [lia|]. apply Hothers.
      apply list.Forall_forall. intros d' Hd'. apply list_elem_of_fmap in Hd' as (r & -> & Hr0). split.
      * intros Hk. apply Hnot. rewrite <- Hk. apply list_elem_of_fmap. by exists r.
      * exists (du_at r). split; [by apply Hmark|]. rewrite list.Forall_forall in Hall. by apply Hall.
Qed.

Definition sample_a : DestinationHash := replicate 16 1%Z.
Definition sample_b : DestinationHash := replicate 16 2%Z.
Definition sample_history : list mark := [Marked sample_b 25000; Marked sample_a 22000; Marked sample_b 1000].

Lemma recent_requests_throttle_witness :
  ∃ t' b, mark_all (T := FixedDue unit) (DueTable0 := fixed_due (MAX := 2)) (fixed_due_default (MAX := 2) ()) sample_history = Done t'
    ∧ is_throttled (H := fixed_due (MAX := 2)) t' sample_a 41999 = Done b ∧ b = true
    ∧ is_throttled (H := fixed_due (MAX := 2)) t' sample_a 42000 = Done false.
Proof.
  destruct (recent_requests_throttle (DueTable0 := fixed_due (MAX := 2)) (DueTableLaws0 := fixed_due_laws (MAX := 2)) (fixed_due_default (MAX := 2) ()) 2 sample_history 25000
    sample_a 41999) as (t' & b & E & Eb & _ & Hb).
  - apply (fixed_due_default_rep (MAX := 2)).
  - vm_compute. repeat split; discriminate.
  - vm_compute. split; discriminate.
  - vm_compute. discriminate.
  - exists t', b. split; [exact E|]. split; [exact Eb|]. split.
    + apply (Hb 22000%Z); [reflexivity|reflexivity|]. intros others Hnd Hall.
      assert (Hs : others ⊆+ [sample_b]).
      { apply NoDup_submseteq; [done|]. intros d' Hd'. rewrite list.Forall_forall in Hall. destruct (Hall d' Hd') as [Hne (at' & Hat & _)].
        apply list_elem_of_singleton. unfold last_mark, find_key in Hat. cbn in Hat. repeat case_decide; try congruence; done. }
      apply submseteq_length in Hs. cbn in Hs. lia.
    + vm_compute in E. injection E as <-. vm_compute. reflexivity.
Defined.
End Throttle.

(** * Pending requests *)

Module Settlement.
Import PathRequests.Pending.
#[local] Existing Instance timeouts.
#[local] Existing Instance timeouts_laws.

Inductive pending_op := Track (r : PendingPathRequest) | Settle (d : DestinationHash) | Expire (now : Z).

Definition op_do {T} `{DueTable CommandId T} (p : PendingPathRequests T) (op : pending_op) :
    run (option CommandId * PendingPathRequests T) :=
  match op with
  | Track r => track p r
  | Settle d => pop_settled_for p d
  | Expire now => pop_expired p now
  end.

(** What an operation answers and leaves of the rows. *)
Inductive pending_step (cap : Z) (rows : list PendingPathRequest) : pending_op → option CommandId → list PendingPathRequest → Prop :=
  | StepTrack r gone rest : room_made cap rows gone rest →
      pending_step cap rows (Track r) (if (cap =? 0)%Z then Some (du_value r) else du_value <$> gone) (pushed cap rest r)
  | StepSettle r rest : rows ≡ₚ r :: rest → pending_step cap rows (Settle (du_key r)) (Some (du_value r)) rest
  | StepSettleNone d : (d ∉ du_key <$> rows) → pending_step cap rows (Settle d) None rows
  | StepExpire r rest now : rows ≡ₚ r :: rest → (du_at r ≤ now)%Z → pending_step cap rows (Expire now) (Some (du_value r)) rest
  | StepExpireNone now : Forall (λ r, (now < du_at r)%Z) rows → pending_step cap rows (Expire now) None rows.

Inductive pending_steps (cap : Z) : list PendingPathRequest → list pending_op → list (option CommandId) → list PendingPathRequest → Prop :=
  | StepsNil rows : pending_steps cap rows [] [] rows
  | StepsCons rows op answer rows1 ops answers rows2 :
      pending_step cap rows op answer rows1 → pending_steps cap rows1 ops answers rows2 →
      pending_steps cap rows (op :: ops) (answer :: answers) rows2.

(** The commands that came in. *)
Definition tracked (op : pending_op) : option CommandId := match op with Track r => Some (du_value r) | _ => None end.

Lemma pending_step_conserves cap rows op answer rows' :
  pending_step cap rows op answer rows' →
  option_list (tracked op) ++ (du_value <$> rows) ≡ₚ option_list answer ++ (du_value <$> rows').
Proof.
  destruct 1 as [r gone rest Hroom|r rest Hp|d Hd|r rest now Hp Hnow|now Hnow]; cbn [tracked option_list app].
  - unfold pushed. destruct Hroom as [Hlt|r0 rest Hl Hp _|Hz ->].
    + rewrite (proj2 (Z.eqb_neq _ _)) by lia. cbn. rewrite fmap_app, Permutation_app_comm. done.
    + rewrite (proj2 (Z.eqb_neq _ _)).
      * cbn. rewrite Hp, fmap_app. cbn. rewrite perm_swap. constructor. by rewrite Permutation_app_comm.
      * apply Permutation_length in Hp. cbn in Hp. lia.
    + rewrite Hz. done.
  - by rewrite Hp.
  - done.
  - by rewrite Hp.
  - done.
Qed.

Lemma omap_cons_app {A B} (f : A → option B) x xs : omap f (x :: xs) = option_list (f x) ++ omap f xs.
Proof. cbn. by destruct (f x). Qed.

Lemma pending_steps_conserve cap rows ops answers rows' :
  pending_steps cap rows ops answers rows' →
  omap tracked ops ++ (du_value <$> rows) ≡ₚ omap id answers ++ (du_value <$> rows').
Proof.
  induction 1 as [|rows op answer rows1 ops answers rows2 Hs _ IH]; [done|]. apply pending_step_conserves in Hs.
  rewrite !omap_cons_app. cbn [id]. rewrite <- (app_assoc (option_list answer)), <- IH, !app_assoc.
  rewrite (Permutation_app_comm (option_list answer)), <- (app_assoc (omap tracked ops)), <- Hs, app_assoc.
  by rewrite (Permutation_app_comm (option_list (tracked op))).
Qed.

Section settlement.
Context {T : Type} `{!DueTable CommandId T} `{!DueTableLaws CommandId T}.
Implicit Types (p : PendingPathRequests T) (rows : list (DueRow CommandId)).

(** The rows, and the cached timeout exact. *)
Definition pending_ok p (cap : Z) rows : Prop :=
  du_rep (table p) cap rows ∧ earliest_timeout_at p = minimum (du_at <$> rows).

Lemma refresh_timeout_ok t cap rows :
  du_rep t cap rows → ∃ p, refresh_earliest_timeout t = Done p ∧ pending_ok p cap rows.
Proof.
  intros Hr. unfold refresh_earliest_timeout. destruct (du_earliest_ok t cap rows Hr ltac:(done)) as (t' & -> & Hr'). cbn [mbind run_bind].
  eexists. split; [done|]. by split.
Qed.

Lemma track_request_ok p cap rows r :
  pending_ok p cap rows → (Z.of_nat (length rows) < u32_max)%Z →
  ∃ answer p' rows', track p r = Done (answer, p') ∧ pending_ok p' cap rows' ∧ pending_step cap rows (Track r) answer rows'.
Proof.
  unfold PendingPathRequest in *. intros [Hr _] Hmax. unfold track.
  destruct (room_by_ok (cull_soonest_expiring (table p)) (λ gone, du_value <$> gone) (table p) cap rows Hr) as (t1 & gone & rest & E & Hr1 & Hroom).
  { intros r0 i t' Hi Ha E. unfold cull_soonest_expiring. rewrite (du_ats_ok _ _ _ Hr), (du_values_ok _ _ _ Hr). cbn [mbind run_bind].
    rewrite Ha, list_lookup_fmap, Hi. cbn [fmap option_fmap option_map]. by rewrite E. }
  { intros Ha. unfold cull_soonest_expiring. rewrite (du_ats_ok _ _ _ Hr). cbn [mbind run_bind]. by rewrite Ha. }
  cbn [fmap option_fmap option_map] in E. rewrite E. cbn [mbind run_bind].
  destruct (push_ok t1 cap rows gone rest r Hr1 Hroom) as (i & t2 & -> & Hr2 & Hi); [by apply (du_capacity_ok (table p))|done|].
  cbn [mbind run_bind]. destruct (refresh_timeout_ok t2 cap _ Hr2) as (p' & -> & Hp'). cbn [mbind run_bind].
  eexists _, p', _. split; [done|]. split; [exact Hp'|].
  replace (match i with Some _ => du_value <$> gone | None => Some (du_value r) end) with (if (cap =? 0)%Z then Some (du_value r) else du_value <$> gone).
  - by apply StepTrack.
  - destruct i as [i|]; [|by rewrite (proj1 Hi)]. destruct (Z.eqb_spec cap 0) as [Hz|]; [|done]. by apply Hi in Hz.
Qed.

(** A pop of the row at [i]. *)
Lemma pop_row_ok p t cap rows i r :
  du_rep t cap rows → rows !! i = Some r →
  ∃ p', pop_row p t (Some i) = Done (Some (du_value r), p') ∧ pending_ok p' cap (swap_removed rows i).
Proof.
  intros Hr Hi. unfold pop_row. rewrite (du_values_ok _ _ _ Hr). cbn [mbind run_bind]. rewrite list_lookup_fmap, Hi. cbn [fmap option_fmap option_map].
  destruct (du_swap_remove_ok t cap rows i Hr (lookup_lt_Some _ _ _ Hi)) as (t' & -> & Hr'). cbn [mbind run_bind].
  destruct (refresh_timeout_ok t' cap _ Hr') as (p' & -> & Hp'). by exists p'.
Qed.

Definition op_in_range (op : pending_op) : Prop := match op with Expire now => is_u64 now | _ => True end.

Lemma pending_op_ok p cap rows op :
  pending_ok p cap rows → op_in_range op → (Z.of_nat (length rows) < u32_max)%Z →
  ∃ answer p' rows', op_do p op = Done (answer, p') ∧ pending_ok p' cap rows' ∧ pending_step cap rows op answer rows'.
Proof.
  intros Hp Hin Hmax. destruct op as [r|d|now]; cbn [op_do]; [by apply track_request_ok| |].
  - destruct Hp as [Hr He]. unfold pop_settled_for. destruct (du_index_of_ok (table p) cap rows d Hr) as [(i & r & -> & Hi & <-)|[-> Hn]]; cbn [mbind run_bind].
    + destruct (pop_row_ok p (table p) cap rows i r Hr Hi) as (p' & -> & Hp'). eexists _, p', _. split; [done|]. split; [exact Hp'|].
      apply StepSettle. by rewrite (swap_removed_perm rows i r Hi).
    + eexists _, _, rows. split; [done|]. split; [by split|]. by apply StepSettleNone.
  - destruct Hp as [Hr He]. unfold pop_expired. destruct (du_first_due_ok (table p) cap rows now Hr Hin) as ([i|] & t & -> & Hr' & Hf); cbn [mbind run_bind].
    + destruct Hf as (r & Hi & Hdue). destruct (pop_row_ok p t cap rows i r Hr' Hi) as (p' & -> & Hp'). eexists _, p', _. split; [done|].
      split; [exact Hp'|]. eapply StepExpire; [by rewrite (swap_removed_perm rows i r Hi)|]. by apply Z.leb_le.
    + eexists _, _, rows. split; [done|]. split; [by split|]. apply StepExpireNone. eapply list.Forall_impl; [exact Hf|].
      intros r Hdue. by apply Z.leb_gt.
Qed.

Lemma pending_step_length cap rows op answer rows' : pending_step cap rows op answer rows' → length rows' ≤ S (length rows).
Proof.
  destruct 1 as [r gone rest Hroom|r rest Hp|d Hd|r rest now Hp Hnow|now Hnow]; unfold PendingPathRequest in *.
  - assert (length rest ≤ length rows); [|unfold pushed; destruct (cap =? 0)%Z; rewrite ?length_app; cbn; lia].
    destruct Hroom as [|r0 rest _ Hp _|_ ->]; [done| |done]. apply Permutation_length in Hp. cbn in Hp. lia.
  - apply Permutation_length in Hp. cbn in Hp. lia.
  - lia.
  - apply Permutation_length in Hp. cbn in Hp. lia.
  - lia.
Qed.
End settlement.

(** C32. Every command for a path is settled once.  Whatever requests are tracked, answered and timed out, in any
    order: nothing panics; an answered destination pops a request for it if there is one, a timeout pops one that
    is due if there is one, and a full table gives up a request that expires soonest; the commands that came in are
    exactly those that were settled, timed out or given up, once each, and those still pending; and the next
    timeout kept beside the table is the earliest of these. *)
Theorem pending_requests_settle_once {T} `{!DueTable CommandId T} `{!DueTableLaws CommandId T} (p : PendingPathRequests T) cap rows ops :
  pending_ok p cap rows → Forall op_in_range ops → (Z.of_nat (length rows + length ops) ≤ u32_max)%Z →
  ∃ answers p' rows', do_all op_do p ops = Done (answers, p') ∧ du_rep (table p') cap rows'
    ∧ pending_steps cap rows ops answers rows'
    ∧ omap tracked ops ++ (du_value <$> rows) ≡ₚ omap id answers ++ (du_value <$> rows')
    ∧ earliest_timeout_at p' = minimum (du_at <$> rows').
Proof.
  intros Hp Hin Hmax.
  assert (∃ answers p' rows', do_all op_do p ops = Done (answers, p') ∧ pending_ok p' cap rows' ∧ pending_steps cap rows ops answers rows')
    as (answers & p' & rows' & E & [Hr He] & Hs).
  2: { exists answers, p', rows'. split; [done|]. split; [done|]. split; [done|]. split; [by eapply pending_steps_conserve|done]. }
  revert p rows Hp Hmax. induction Hin as [|op ops Hop Hin IH]; intros p rows Hp Hmax; cbn [do_all].
  { exists [], p, rows. split; [done|]. split; [done|]. constructor. }
  cbn [length] in Hmax. destruct (pending_op_ok p cap rows op Hp Hop) as (answer & p1 & rows1 & -> & Hp1 & Hs1); [lia|]. cbn [mbind run_bind].
  pose proof (pending_step_length cap rows op answer rows1 Hs1). destruct (IH p1 rows1 Hp1) as (answers & p2 & rows2 & -> & Hp2 & Hs2); [lia|].
  cbn [mbind run_bind]. exists (answer :: answers), p2, rows2. split; [done|]. split; [done|]. by eapply StepsCons.
Qed.

(** Two commands for one destination, and one that times out. *)
Definition sample_ops : list pending_op :=
  [Track (mkDue (replicate 16 1%Z) 7%Z 15000); Track (mkDue (replicate 16 1%Z) 8%Z 16000); Track (mkDue (replicate 16 2%Z) 9%Z 15500);
   Settle (replicate 16 1%Z); Expire 15600; Expire 15600].
Definition sample_pending : PendingPathRequests (HeapDue CommandId) := mkPending heap_due_default None.

Lemma pending_requests_settle_once_witness :
  ∃ answers p' rows', do_all op_do sample_pending sample_ops = Done (answers, p')
    ∧ answers = [None; None; None; Some 7%Z; Some 9%Z; None]
    ∧ [7; 8; 9]%Z ≡ₚ omap id answers ++ (du_value <$> rows') ∧ earliest_timeout_at p' = Some 16000%Z.
Proof.
  destruct (pending_requests_settle_once sample_pending usize_max [] sample_ops) as (answers & p' & rows' & E & _ & _ & Hp & _).
  - split; [exact heap_due_default_rep|reflexivity].
  - repeat constructor; vm_compute; try discriminate.
  - vm_compute. discriminate.
  - exists answers, p', rows'. split; [exact E|]. vm_compute in E. injection E as <- <-. split; [reflexivity|]. split; [exact Hp|reflexivity].
Defined.
End Settlement.

(** * Recursive requests *)

Module Forwarded.
Import PathRequests.Recursive.
#[local] Existing Instance timeouts.
#[local] Existing Instance timeouts_laws.

Inductive forward_op :=
  | Begin (d : DestinationHash) (i : InterfaceId) (expires_at : Z)
  | Take (d : DestinationHash)
  | Cull (now : Z).
Inductive forward_answer := Began (outcome : RecursiveOutcome) | Took (i : option InterfaceId) | Culled.

Definition op_do {T} `{DueTable InterfaceId T} (p : RecursivePathRequests T) (op : forward_op) :
    run (forward_answer * RecursivePathRequests T) :=
  match op with
  | Begin d i expires_at => '(outcome, p) ← begin p d i expires_at; Done (Began outcome, p)
  | Take d => '(i, p) ← take_requester p d; Done (Took i, p)
  | Cull now => p ← cull_expired p now; Done (Culled, p)
  end.

(** ** The specification: a map of the destinations in flight *)

Abbreviation flights := (gmap DestinationHash (InterfaceId * Z)).

Inductive forward_step (cap : Z) (m : flights) : forward_op → forward_answer → flights → Prop :=
  | StepKnown d i e : is_Some (m !! d) → forward_step cap m (Begin d i e) (Began AlreadyInFlight) m
  | StepOpen d i e : m !! d = None → (Z.of_nat (size m) < cap)%Z → forward_step cap m (Begin d i e) (Began Opened) (<[d := (i, e)]> m)
  | StepReplace d i e d0 i0 e0 : m !! d = None → (Z.of_nat (size m) = cap)%Z → m !! d0 = Some (i0, e0) →
      map_Forall (λ _ f, (e0 ≤ f.2)%Z) m → forward_step cap m (Begin d i e) (Began Opened) (<[d := (i, e)]> (delete d0 m))
  | StepUntracked d i e : cap = 0%Z → m = ∅ → forward_step cap m (Begin d i e) (Began Opened) ∅
  | StepTake d : forward_step cap m (Take d) (Took (fst <$> m !! d)) (delete d m)
  | StepCull now : forward_step cap m (Cull now) Culled (filter (λ f, (now < f.2.2)%Z) m).

Inductive forward_steps (cap : Z) : flights → list forward_op → list forward_answer → flights → Prop :=
  | FlightsNil m : forward_steps cap m [] [] m
  | FlightsCons m op answer m1 ops answers m2 :
      forward_step cap m op answer m1 → forward_steps cap m1 ops answers m2 → forward_steps cap m (op :: ops) (answer :: answers) m2.

(** ** The table as such a map *)

Definition flight (r : DueRow InterfaceId) : DestinationHash * (InterfaceId * Z) := (du_key r, (du_value r, du_at r)).
Definition in_flight (rows : list (DueRow InterfaceId)) : flights := list_to_map (flight <$> rows).

Lemma flight_keys rows : (flight <$> rows).*1 = du_key <$> rows.
Proof. rewrite <- list_fmap_compose. done. Qed.

Lemma in_flight_perm rows rows' : NoDup (du_key <$> rows) → rows ≡ₚ rows' → in_flight rows = in_flight rows'.
Proof. intros Hnd Hp. unfold in_flight. apply list_to_map_proper; [by rewrite flight_keys|by rewrite Hp]. Qed.

Lemma in_flight_none rows d : d ∉ du_key <$> rows ↔ in_flight rows !! d = None.
Proof. unfold in_flight. rewrite <- flight_keys. apply not_elem_of_list_to_map. Qed.

Lemma in_flight_some rows r : NoDup (du_key <$> rows) → r ∈ rows → in_flight rows !! du_key r = Some (du_value r, du_at r).
Proof.
  intros Hnd Hr. unfold in_flight. apply elem_of_list_to_map; [by rewrite flight_keys|]. apply list_elem_of_fmap. by exists r.
Qed.

Lemma in_flight_row rows d f : in_flight rows !! d = Some f → ∃ r, r ∈ rows ∧ du_key r = d ∧ f = (du_value r, du_at r).
Proof. intros Hf. apply elem_of_list_to_map_2, list_elem_of_fmap in Hf as (r & [= -> ->] & Hr). by exists r. Qed.

Lemma in_flight_without rows r rest :
  NoDup (du_key <$> rows) → rows ≡ₚ r :: rest → in_flight rest = delete (du_key r) (in_flight rows).
Proof.
  intros Hnd Hp. rewrite (in_flight_perm rows (r :: rest) Hnd Hp). unfold in_flight at 2. cbn. rewrite delete_insert_id; [done|].
  apply in_flight_none. rewrite Hp in Hnd. cbn in Hnd. by apply list.NoDup_cons in Hnd as [? _].
Qed.

Lemma in_flight_snoc rows r :
  NoDup (du_key <$> rows) → (du_key r ∉ du_key <$> rows) → in_flight (rows ++ [r]) = <[du_key r := (du_value r, du_at r)]> (in_flight rows).
Proof.
  intros Hnd Hn. rewrite (in_flight_perm (rows ++ [r]) (r :: rows)); [done| |by rewrite Permutation_app_comm].
  rewrite fmap_app. by apply NoDup_snoc.
Qed.

Lemma in_flight_size rows : NoDup (du_key <$> rows) → size (in_flight rows) = length rows.
Proof.
  intros Hnd. unfold in_flight. rewrite <- length_map_to_list. rewrite map_to_list_to_map by (by rewrite flight_keys). apply length_fmap.
Qed.

Lemma in_flight_filter rows now :
  NoDup (du_key <$> rows) →
  in_flight (filter (λ r, (du_at r <=? now)%Z = false) rows) = filter (λ f, (now < f.2.2)%Z) (in_flight rows).
Proof.
  intros Hnd. assert (Hnd' : NoDup (du_key <$> filter (λ r, (du_at r <=? now)%Z = false) rows)).
  { eapply submseteq_NoDup; [exact Hnd|]. apply fmap_submseteq, sublist_submseteq, sublist_filter. }
  apply map_eq. intros d. destruct (in_flight (filter _ rows) !! d) as [f|] eqn:E; symmetry.
  - apply in_flight_row in E as (r & Hr & <- & ->). apply list_elem_of_filter in Hr as [Hat%Z.leb_gt Hr].
    apply map_lookup_filter_Some. split; [by apply in_flight_some|done].
  - apply map_lookup_filter_None. destruct (in_flight rows !! d) as [f|] eqn:E'; [right|by left]. intros f' [= <-] Hlt.
    apply in_flight_row in E' as (r & Hr & <- & ->). apply in_flight_none in E. apply E, list_elem_of_fmap. exists r. split; [done|].
    apply list_elem_of_filter. split; [by apply Z.leb_gt|done].
Qed.

Section forwarded.
Context {T : Type} `{!DueTable InterfaceId T} `{!DueTableLaws InterfaceId T}.
Implicit Types (p : RecursivePathRequests T) (rows : list (DueRow InterfaceId)).

Record forwards p (cap : Z) rows : Prop := {
  fw_rep : du_rep (table p) cap rows;
  fw_distinct : NoDup (du_key <$> rows);
  fw_earliest : earliest_expiry_at p = minimum (du_at <$> rows);
}.

Lemma refresh_expiry_ok t cap rows :
  du_rep t cap rows → NoDup (du_key <$> rows) → ∃ p, refresh_earliest_expiry t = Done p ∧ forwards p cap rows.
Proof.
  intros Hr Hnd. unfold refresh_earliest_expiry. destruct (du_earliest_ok t cap rows Hr ltac:(done)) as (t' & -> & Hr'). cbn [mbind run_bind].
  eexists. split; [done|]. by split.
Qed.

(** What [begin] makes of the rows is a step of the map. *)
Lemma begin_step cap rows gone rest d i e :
  NoDup (du_key <$> rows) → (d ∉ du_key <$> rows) → room_made cap rows gone rest →
  NoDup (du_key <$> pushed cap rest (mkDue d i e))
  ∧ forward_step cap (in_flight rows) (Begin d i e) (Began Opened) (in_flight (pushed cap rest (mkDue d i e))).
Proof.
  intros Hnd Hd Hroom. pose proof (proj1 (in_flight_none rows d) Hd) as Hnone. pose proof (in_flight_size rows Hnd) as Hsize.
  destruct Hroom as [Hlt|r rest Hl Hp Hall|Hz ->]; unfold pushed.
  - rewrite (proj2 (Z.eqb_neq _ _)) by lia. rewrite in_flight_snoc by done. split; [rewrite fmap_app; by apply NoDup_snoc|].
    apply StepOpen; [done|lia].
  - pose proof (Permutation_length Hp) as Hlen. cbn in Hlen. rewrite (proj2 (Z.eqb_neq _ _)) by lia.
    assert (Hndr : NoDup (du_key <$> rest)) by (rewrite Hp in Hnd; by apply list.NoDup_cons in Hnd as [_ ?]).
    assert (Hdr : d ∉ du_key <$> rest) by (intros Hin; apply Hd; rewrite Hp; by apply elem_of_cons; right).
    rewrite in_flight_snoc, (in_flight_without rows r rest) by done. split; [rewrite fmap_app; by apply NoDup_snoc|]. cbn.
    apply (StepReplace _ _ _ _ _ _ (du_value r) (du_at r)); [done|lia| |].
    + apply in_flight_some; [done|]. rewrite Hp. by apply elem_of_cons; left.
    + intros d' f Hf. apply in_flight_row in Hf as (r' & Hr' & _ & ->). cbn. rewrite list.Forall_forall in Hall. by apply Hall.
  - rewrite Hz. cbn. split; [constructor|]. by apply StepUntracked.
Qed.

Definition op_in_range (op : forward_op) : Prop := match op with Cull now => is_u64 now | _ => True end.

Lemma forward_op_ok p cap rows op :
  forwards p cap rows → op_in_range op → (Z.of_nat (length rows) < u32_max)%Z →
  ∃ answer p' rows', op_do p op = Done (answer, p') ∧ forwards p' cap rows'
    ∧ forward_step cap (in_flight rows) op answer (in_flight rows') ∧ length rows' ≤ S (length rows).
Proof.
  intros Hf Hin Hmax. pose proof (fw_rep _ _ _ Hf) as Hr. pose proof (fw_distinct _ _ _ Hf) as Hnd.
  destruct op as [d i e|d|now]; cbn [op_do].
  - unfold begin. destruct (du_index_of_ok (table p) cap rows d Hr) as [(k & r & -> & Hk & <-)|[-> Hn]]; cbn [mbind run_bind].
    + rewrite bool_decide_true by done. cbn [mbind run_bind]. eexists _, p, rows. split; [done|]. split; [done|]. split; [|lia].
      apply StepKnown. rewrite (in_flight_some rows r Hnd (list_elem_of_lookup_2 _ _ _ Hk)). done.
    + rewrite bool_decide_false by (by intros []). unfold evict_soonest_expiring.
      destruct (room_ok (table p) cap rows Hr) as (t1 & gone & rest & -> & Hr1 & Hroom). cbn [mbind run_bind].
      destruct (push_ok t1 cap rows gone rest (mkDue d i e) Hr1 Hroom) as (k & t2 & -> & Hr2 & _); [by apply (du_capacity_ok (table p))|done|].
      cbn [mbind run_bind]. destruct (begin_step cap rows gone rest d i e Hnd Hn Hroom) as [Hnd' Hstep].
      destruct (refresh_expiry_ok t2 cap _ Hr2 Hnd') as (p' & -> & Hp'). cbn [mbind run_bind]. eexists _, p', _. split; [done|].
      split; [exact Hp'|]. split; [exact Hstep|]. assert (length rest ≤ length rows).
      { destruct Hroom as [|r rest _ Hp _|_ ->]; [done| |done]. apply Permutation_length in Hp. cbn in Hp. lia. }
      unfold pushed. destruct (cap =? 0)%Z; rewrite ?length_app; cbn; lia.
  - unfold take_requester. destruct (du_index_of_ok (table p) cap rows d Hr) as [(k & r & -> & Hk & <-)|[-> Hn]]; cbn [mbind run_bind].
    + rewrite (du_values_ok _ _ _ Hr). cbn [mbind run_bind]. rewrite (index_lookup _ k (du_value r)) by (by rewrite list_lookup_fmap, Hk).
      cbn [mbind run_bind]. destruct (du_swap_remove_ok (table p) cap rows k Hr (lookup_lt_Some _ _ _ Hk)) as (t1 & -> & Hr1). cbn [mbind run_bind].
      pose proof (swap_removed_perm rows k r Hk) as Hp. symmetry in Hp.
      assert (Hnd' : NoDup (du_key <$> swap_removed rows k)) by (rewrite Hp in Hnd; by apply list.NoDup_cons in Hnd as [_ ?]).
      destruct (refresh_expiry_ok t1 cap _ Hr1 Hnd') as (p' & -> & Hp'). cbn [mbind run_bind]. eexists _, p', _. split; [done|].
      split; [exact Hp'|]. rewrite (in_flight_without rows r (swap_removed rows k) Hnd Hp). split.
      * replace (Some (du_value r)) with (fst <$> in_flight rows !! du_key r); [apply StepTake|].
        by rewrite (in_flight_some rows r Hnd (list_elem_of_lookup_2 _ _ _ Hk)).
      * apply Permutation_length in Hp. cbn in Hp. lia.
    + eexists _, p, rows. split; [done|]. split; [done|]. split; [|lia]. pose proof (proj1 (in_flight_none rows d) Hn) as Hnone.
      pose proof (StepTake cap (in_flight rows) d) as Hs. by rewrite Hnone, delete_id in Hs.
  - unfold cull_expired. destruct (cull_ok (table p) cap rows now Hr Hin) as (t1 & rows1 & -> & Hr1 & Hp). cbn [mbind run_bind].
    assert (Hsub : rows1 ⊆+ rows) by (rewrite Hp; apply sublist_submseteq, sublist_filter).
    assert (Hnd' : NoDup (du_key <$> rows1)) by (eapply submseteq_NoDup; [exact Hnd|by apply fmap_submseteq]).
    destruct (refresh_expiry_ok t1 cap rows1 Hr1 Hnd') as (p' & -> & Hp'). cbn [mbind run_bind]. eexists _, p', rows1. split; [done|].
    split; [done|]. split; [|apply submseteq_length in Hsub; lia].
    assert (E : in_flight rows1 = filter (λ f, (now < f.2.2)%Z) (in_flight rows)); [|rewrite E; apply StepCull].
    rewrite <- in_flight_filter by done. exact (in_flight_perm rows1 _ Hnd' Hp).
Qed.
End forwarded.

(** Forwarded path requests are a map from destinations to requesters.  Whatever is begun, answered and culled,
    in any order: nothing panics; a destination is in flight once, and beginning it again changes nothing; taking
    the requester answers the interface that opened the request, once; culling removes exactly the expired
    ones; a full table gives up one that expires soonest; and the next expiry kept beside the table is the earliest. *)
Theorem forwarded_requests_are_a_map {T} `{!DueTable InterfaceId T} `{!DueTableLaws InterfaceId T} (p : RecursivePathRequests T) cap rows ops :
  forwards p cap rows → Forall op_in_range ops → (Z.of_nat (length rows + length ops) ≤ u32_max)%Z →
  ∃ answers p' rows', do_all op_do p ops = Done (answers, p') ∧ forwards p' cap rows'
    ∧ forward_steps cap (in_flight rows) ops answers (in_flight rows').
Proof.
  intros Hf Hin. revert p rows Hf. induction Hin as [|op ops Hop Hin IH]; intros p rows Hf Hmax; cbn [do_all].
  { exists [], p, rows. split; [done|]. split; [done|]. constructor. }
  cbn [length] in Hmax. destruct (forward_op_ok p cap rows op Hf Hop) as (answer & p1 & rows1 & -> & Hf1 & Hs1 & Hl); [lia|]. cbn [mbind run_bind].
  destruct (IH p1 rows1 Hf1) as (answers & p2 & rows2 & -> & Hf2 & Hs2); [lia|]. cbn [mbind run_bind].
  exists (answer :: answers), p2, rows2. split; [done|]. split; [done|]. by eapply FlightsCons.
Qed.

Definition sample_ops : list forward_op :=
  [Begin (replicate 16 1%Z) (replicate 8 5%Z) 15000; Begin (replicate 16 1%Z) (replicate 8 6%Z) 16000; Begin (replicate 16 2%Z) (replicate 8 6%Z) 16000;
   Cull 15000; Take (replicate 16 2%Z); Take (replicate 16 2%Z)].
Definition sample_requests : RecursivePathRequests (HeapDue InterfaceId) := mkRecursive heap_due_default None.

Lemma forwarded_requests_are_a_map_witness :
  ∃ answers p' rows', do_all op_do sample_requests sample_ops = Done (answers, p')
    ∧ answers = [Began Opened; Began AlreadyInFlight; Began Opened; Culled; Took (Some (replicate 8 6%Z)); Took None]
    ∧ forward_steps usize_max ∅ sample_ops answers (in_flight rows').
Proof.
  destruct (forwarded_requests_are_a_map sample_requests usize_max [] sample_ops) as (answers & p' & rows' & E & _ & Hs).
  - split; [exact heap_due_default_rep|constructor|reflexivity].
  - repeat constructor; vm_compute; try discriminate.
  - vm_compute. discriminate.
  - exists answers, p', rows'. split; [exact E|]. vm_compute in E. injection E as <- <-. split; [reflexivity|exact Hs].
Defined.
End Forwarded.

Import PathRequests.Seen.

(** * The specification *)

Abbreviation request := (DestinationHash * PathRequestIdBytes)%type.

(** The last [cap] requests that were fresh, the oldest first. *)
Definition fifo_push (cap : nat) (q : list request) (x : request) : list request := drop (length q + 1 - cap) (q ++ [x]).
Definition fifo_observe (cap : nat) (q : list request) (x : request) : PathRequestNovelty * list request :=
  if decide (x ∈ q) then (Duplicate, q) else (Fresh, fifo_push cap q x).
Fixpoint fifo_all (cap : nat) (q : list request) (xs : list request) : list PathRequestNovelty * list request :=
  match xs with
  | [] => ([], q)
  | x :: xs => let '(a, q) := fifo_observe cap q x in let '(rest, q) := fifo_all cap q xs in (a :: rest, q)
  end.

(** * The contract *)

Class SeenLaws (T : Type) `{SeenPathRequestTable T} := {
  sn_rep : T → nat → list request → Prop;
  sn_columns_ok : ∀ t cap q, sn_rep t cap q → ∃ live, sn_destinations t = Done live.*1 ∧ sn_ids t = Done live.*2 ∧ live ≡ₚ q;
  sn_remember_ok : ∀ t cap q d id, sn_rep t cap q → ∃ t', sn_remember t d id = Done t' ∧ sn_rep t' cap (fifo_push cap q (d, id));
}.

Lemma zip_fst_snd {A B} (l : list (A * B)) : zip l.*1 l.*2 = l.
Proof. induction l as [|[a b] l IH]; [done|]. cbn. by rewrite IH. Qed.

Lemma observe_ok {T} `{SeenLaws T} (t : T) cap q d id :
  sn_rep t cap q →
  ∃ t', observe t d id = Done ((fifo_observe cap q (d, id)).1, t') ∧ sn_rep t' cap (fifo_observe cap q (d, id)).2.
Proof.
  intros Hr. unfold observe, fifo_observe. destruct (sn_columns_ok t cap q Hr) as (live & -> & -> & Hp). cbn [mbind run_bind].
  rewrite zip_fst_snd. case_decide as Hin.
  - rewrite <- Hp in Hin. rewrite (proj2 (existsb_exists _ _)); [by exists t|]. exists (d, id). split; [by apply list_elem_of_In|].
    by rewrite !bool_decide_true.
  - destruct (existsb _ live) eqn:E.
    + apply existsb_exists in E as ([d' id'] & Hx & Heq). apply andb_true_iff in Heq as [E1%bool_decide_eq_true E2%bool_decide_eq_true].
      cbn in E1, E2. subst. destruct Hin. rewrite <- Hp. by apply list_elem_of_In.
    + destruct (sn_remember_ok t cap q d id Hr) as (t' & -> & Hr'). cbn [mbind run_bind]. by exists t'.
Qed.

(** * A ring *)

(** The entries of a full ring, from the oldest. *)
Definition ring {A} (cursor : nat) (live : list A) : list A := drop cursor live ++ take cursor live.

Lemma ring_perm {A} cursor (live : list A) : ring cursor live ≡ₚ live.
Proof. unfold ring. by rewrite Permutation_app_comm, take_drop. Qed.

Lemma ring_store {A} cursor (live : list A) x :
  cursor < length live → ring ((cursor + 1) mod length live) (<[cursor := x]> live) = drop 1 (ring cursor live ++ [x]).
Proof.
  intros Hc. destruct (lookup_lt_is_Some_2 live cursor Hc) as [y Hy]. unfold ring. rewrite (drop_S live y cursor Hy). cbn [app drop].
  rewrite <- app_assoc. destruct (decide (cursor + 1 = length live)) as [E|E].
  - rewrite E, Nat.Div0.mod_same, drop_0, take_0, app_nil_r. rewrite (drop_ge live (S cursor)) by lia. cbn [app].
    rewrite insert_take_drop by done. by rewrite (drop_ge live (S cursor)) by lia.
  - rewrite Nat.mod_small by lia. rewrite drop_insert_lt by lia. rewrite Nat.add_1_r. f_equal.
    rewrite (take_S_r _ _ x) by (by apply list_lookup_insert_eq). by rewrite take_insert_ge by lia.
Qed.

Lemma fifo_room cap q x : length q < cap → fifo_push cap q x = q ++ [x].
Proof. intros Hl. unfold fifo_push. replace (length q + 1 - cap) with 0 by lia. apply drop_0. Qed.
Lemma fifo_full cap q x : length q = cap → fifo_push cap q x = drop 1 (q ++ [x]).
Proof. intros Hl. unfold fifo_push. f_equal. lia. Qed.

(** The queue of a ring that fills first: while it fills, [cursor] is not used or points at its end. *)
Definition ring_queue (cap cursor : nat) (live q : list request) : Prop :=
  (length live < cap ∧ q = live) ∨ (length live = cap ∧ (cursor < cap ∨ cap = 0) ∧ q = ring cursor live).

Lemma ring_queue_perm cap cursor live q : ring_queue cap cursor live q → live ≡ₚ q.
Proof. intros [[_ ->]|(_ & _ & ->)]; [done|]. by rewrite ring_perm. Qed.
Lemma ring_queue_length cap cursor live q : ring_queue cap cursor live q → length q = length live.
Proof. intros Hq. by rewrite (ring_queue_perm _ _ _ _ Hq). Qed.

(** Storing at the cursor of a full ring. *)
Lemma ring_queue_store cap cursor live q x :
  ring_queue cap cursor live q → length live = cap → 0 < cap →
  cursor < cap ∧ ring_queue cap ((cursor + 1) mod cap) (<[cursor := x]> live) (fifo_push cap q x).
Proof.
  intros [[Hl _]|(_ & [Hc|Hz] & ->)] Hfull Hpos; [lia| |lia]. split; [done|]. right. rewrite length_insert.
  split; [done|]. split; [left; apply Nat.mod_upper_bound; lia|]. subst cap. rewrite ring_store by done.
  apply fifo_full. by rewrite ring_perm.
Qed.
(** Filling it. *)
Lemma ring_queue_push cap cursor live q x :
  ring_queue cap cursor live q → length live < cap → (length live + 1 = cap → cursor = 0) →
  ring_queue cap cursor (live ++ [x]) (fifo_push cap q x).
Proof.
  intros [[_ ->]|(Hl & _)] Hlt Hc; [|lia]. rewrite fifo_room by done. unfold ring_queue. rewrite length_app. cbn.
  destruct (decide (length live + 1 = cap)) as [E|E]; [right|left; split; [lia|done]]. rewrite (Hc E). split; [done|].
  split; [lia|]. unfold ring. by rewrite drop_0, take_0, app_nil_r.
Qed.

(** * The tables *)

Section fixed.
Context {MAX : nat}.

Definition fixed_seen_rep (t : FixedSeenPathRequestTable) (cap : nat) (q : list request) : Prop :=
  cap = MAX ∧ ∃ live : list request, column MAX (fs_len t) (fs_destinations t) live.*1 ∧ column MAX (fs_len t) (fs_ids t) live.*2
    ∧ (fs_len t < MAX → fs_write_cursor t = fs_len t) ∧ ring_queue MAX (fs_write_cursor t) live q.

Lemma fixed_seen_remember_ok t cap q d id :
  fixed_seen_rep t cap q → ∃ t', fixed_seen_remember (MAX_SEEN_PATH_REQUESTS := MAX) t d id = Done t' ∧ fixed_seen_rep t' cap (fifo_push cap q (d, id)).
Proof.
  intros (-> & live & Hd & Hi & Hc & Hq). pose proof (column_length _ _ _ _ Hd) as Hl. rewrite length_fmap in Hl.
  pose proof Hd as (_ & Hle & _). unfold fixed_seen_remember. destruct (Nat.eqb_spec MAX 0) as [Hz|Hz].
  { exists t. split; [done|]. split; [done|]. exists live. assert (live = []) as -> by (apply nil_length_inv; lia).
    apply ring_queue_perm, Permutation_nil_l in Hq. subst q. split; [exact Hd|]. split; [exact Hi|]. split; [done|]. right.
    unfold ring, fifo_push. rewrite Hz, drop_nil, take_nil. split; [done|]. split; [by right|done]. }
  destruct (decide (fs_len t < MAX)) as [Hlt|Hge].
  - rewrite (Hc Hlt). step_column (column_push MAX _ _ _ d Hd Hlt). step_column (column_push MAX _ _ _ id Hi Hlt).
    eexists. split; [done|]. split; [done|]. exists (live ++ [(d, id)]). rewrite !fmap_app. cbn.
    rewrite Nat.min_l, Nat.add_1_r by lia. split; [done|]. split; [done|]. split; [intros; by rewrite Nat.mod_small|].
    destruct (decide (S (fs_len t) = MAX)) as [Ec|Ec].
    + rewrite Ec, Nat.Div0.mod_same. apply ring_queue_push; [|lia|done]. left. split; [lia|].
      destruct Hq as [[_ ->]|(? & _)]; [done|lia].
    + apply ring_queue_push; [|lia|lia]. left. split; [lia|]. destruct Hq as [[_ ->]|(? & _)]; [done|lia].
  - destruct (ring_queue_store MAX (fs_write_cursor t) live q (d, id) Hq ltac:(lia) ltac:(lia)) as [Hcur Hq'].
    step_column (column_store MAX _ _ _ (fs_write_cursor t) d Hd ltac:(lia)). step_column (column_store MAX _ _ _ (fs_write_cursor t) id Hi ltac:(lia)).
    eexists. split; [done|]. split; [done|]. exists (<[fs_write_cursor t := (d, id)]> live). rewrite !list_fmap_insert. cbn.
    rewrite Nat.min_r by lia. replace MAX with (fs_len t) at 2 4 by lia. split; [done|]. split; [done|]. split; [lia|done].
Qed.

#[global] Instance fixed_seen_laws : SeenLaws FixedSeenPathRequestTable (H := fixed_seen (MAX_SEEN_PATH_REQUESTS := MAX)).
Proof.
  refine {| sn_rep := fixed_seen_rep |}.
  - intros t cap q (_ & live & Hd & Hi & _ & Hq). exists live. cbn. rewrite (column_slice _ _ _ _ Hd), (column_slice _ _ _ _ Hi).
    split; [done|]. split; [done|]. by eapply ring_queue_perm.
  - intros t cap q d id Hr. by apply fixed_seen_remember_ok.
Defined.

Lemma fixed_seen_default_rep : sn_rep (SeenLaws := fixed_seen_laws) (fixed_seen_default (MAX_SEEN_PATH_REQUESTS := MAX)) MAX [].
Proof.
  split; [done|]. exists []. split; [apply column_new|]. split; [apply column_new|]. split; [done|].
  destruct MAX; [right|left; split; [cbn; lia|done]]. split; [done|]. split; [by right|done].
Qed.
End fixed.

Definition heap_seen_rep (t : HeapSeenPathRequestTable) (cap : nat) (q : list request) : Prop :=
  cap = RNS_MAX_PR_TAGS ∧ ∃ live : list request, hs_destinations t = live.*1 ∧ hs_ids t = live.*2
    ∧ (length live < RNS_MAX_PR_TAGS → hs_write_cursor t = 0) ∧ ring_queue RNS_MAX_PR_TAGS (hs_write_cursor t) live q.

Lemma some_tags : 0 < RNS_MAX_PR_TAGS.
Proof. unfold RNS_MAX_PR_TAGS. lia. Qed.

Lemma heap_seen_remember_ok t cap q d id :
  heap_seen_rep t cap q → ∃ t', heap_seen_remember t d id = Done t' ∧ heap_seen_rep t' cap (fifo_push cap q (d, id)).
Proof.
  intros (-> & live & Hd & Hi & Hc & Hq). unfold heap_seen_remember, heap_seen_rep. pose proof some_tags as Hpos. revert Hc Hq Hpos.
  generalize RNS_MAX_PR_TAGS as cap. intros cap Hc Hq Hpos. rewrite Hd, Hi, length_fmap.
  destruct (Nat.ltb_spec (length live) cap) as [Hlt|Hge].
  - eexists. split; [done|]. split; [done|]. exists (live ++ [(d, id)]). cbn. rewrite !fmap_app. split; [done|]. split; [done|].
    split; [intros _; by apply Hc|]. apply ring_queue_push; [done|done|]. intros _. by apply Hc.
  - assert (Hl : length live = cap) by (destruct Hq as [[? _]|(? & _)]; [lia|done]).
    destruct (ring_queue_store cap (hs_write_cursor t) live q (d, id) Hq Hl Hpos) as [Hcur Hq'].
    rewrite !store_done by (rewrite length_fmap; lia). cbn [mbind run_bind]. eexists. split; [done|]. split; [done|].
    exists (<[hs_write_cursor t := (d, id)]> live). cbn. rewrite !list_fmap_insert, length_insert. split; [done|]. split; [done|]. split; [lia|done].
Qed.

#[global] Instance heap_seen_laws : SeenLaws HeapSeenPathRequestTable.
Proof.
  refine {| sn_rep := heap_seen_rep |}.
  - intros t cap q (_ & live & Hd & Hi & _ & Hq). exists live. cbn. rewrite Hd, Hi. split; [done|]. split; [done|]. by eapply ring_queue_perm.
  - intros t cap q d id Hr. by apply heap_seen_remember_ok.
Defined.

Lemma heap_seen_default_rep : sn_rep heap_seen_default RNS_MAX_PR_TAGS [].
Proof. split; [done|]. exists []. split; [done|]. split; [done|]. split; [done|]. left. split; [exact some_tags|done]. Qed.

(** * Copies are dropped *)

Definition observe_request {T} `{SeenPathRequestTable T} (t : T) (x : request) : run (PathRequestNovelty * T) := observe t x.1 x.2.

(** The ids of path requests are remembered first in, first out.  Any sequence of observations on either table
    ends, and each request is answered as a copy exactly if it is among the last [cap] that were fresh: the fixed
    ring and the vectors that turn into a ring at their bound answer what a queue of that length answers. *)
Theorem seen_requests_are_fifo {T} `{SeenLaws T} (t : T) cap q xs :
  sn_rep t cap q →
  ∃ t', do_all observe_request t xs = Done ((fifo_all cap q xs).1, t') ∧ sn_rep t' cap (fifo_all cap q xs).2
    ∧ (length q ≤ cap → length (fifo_all cap q xs).2 ≤ cap).
Proof.
  revert t q. induction xs as [|[d id] xs IH]; intros t q Hr; cbn [do_all fifo_all]; [by exists t|].
  destruct (observe_ok t cap q d id Hr) as (t1 & E & Hr1). change (observe_request t (d, id)) with (observe t d id). rewrite E. cbn [mbind run_bind].
  destruct (fifo_observe cap q (d, id)) as [a q1] eqn:Ef. cbn [fst snd] in *. destruct (IH t1 q1 Hr1) as (t2 & -> & Hr2 & Hl). cbn [mbind run_bind].
  destruct (fifo_all cap q1 xs) as [rest q2]. cbn [fst snd] in *. exists t2. split; [done|]. split; [done|]. intros Hq. apply Hl.
  unfold fifo_observe, fifo_push in Ef. case_decide; injection Ef as _ <-; [done|]. rewrite length_drop, length_app. cbn. lia.
Qed.

Definition sample_request (n : Z) : request := (replicate 16 n, replicate 16 n).
Lemma seen_requests_are_fifo_witness :
  (∃ t', do_all (observe_request (H := fixed_seen (MAX_SEEN_PATH_REQUESTS := 2))) (fixed_seen_default (MAX_SEEN_PATH_REQUESTS := 2))
     (sample_request <$> [1; 2; 1; 3; 2; 1]%Z) = Done ([Fresh; Fresh; Duplicate; Fresh; Duplicate; Fresh], t'))
  ∧ (∃ t', do_all observe_request heap_seen_default (sample_request <$> [1; 1]%Z)
       = Done ((fifo_all RNS_MAX_PR_TAGS [] (sample_request <$> [1; 1]%Z)).1, t')).
Proof.
  split.
  - destruct (seen_requests_are_fifo (H0 := fixed_seen_laws (MAX := 2)) (fixed_seen_default (MAX_SEEN_PATH_REQUESTS := 2)) 2 []
      (sample_request <$> [1; 2; 1; 3; 2; 1]%Z) fixed_seen_default_rep) as (t' & E & _). exists t'. rewrite E. vm_compute. reflexivity.
  - destruct (seen_requests_are_fifo heap_seen_default RNS_MAX_PR_TAGS [] (sample_request <$> [1; 1]%Z) heap_seen_default_rep) as (t' & E & _).
    exists t'. exact E.
Defined.
