(* ===== verification/PathRequestWire.v ===== *)
(** The packet of a path request and the command that sends one: [routing/path_requests/wire.rs],
    [request_path.rs], and the parser of [routing/ingress/path_requests.rs]. *)

From S2P Require Import Prelude Wire Columns Routes ChannelTable Interfaces Lifetime Timing DueTable PathRequests PathRequestsProofs.

Definition PATH_REQUEST_DESTINATION : DestinationHash :=
  [0x6b; 0x9f; 0x66; 0x01; 0x4d; 0x98; 0x53; 0xfa; 0xab; 0x22; 0x0f; 0xba; 0x47; 0xd0; 0x27; 0x61]%Z.
Definition PATH_REQUEST_PAYLOAD_LEN : nat := TRUNCATED_HASH_BYTE_LEN * 2.

(** * The packet *)

Definition path_request_header : WirePacketHeader :=
  mkHeader Open ContextUnset Broadcast Plain Data 0 None PATH_REQUEST_DESTINATION CtxNone.

Definition payload_len_for (requester_transport_id : option TransportId) : nat :=
  match requester_transport_id with
  | Some _ => PATH_REQUEST_PAYLOAD_LEN + TRUNCATED_HASH_BYTE_LEN
  | None => PATH_REQUEST_PAYLOAD_LEN
  end.
Definition write_path_request_wire_packet (destination : DestinationHash) (requester_transport_id : option TransportId)
    (id buf : list Z) : run (result WireError nat * list Z) :=
  let payload_len := payload_len_for requester_transport_id in
  let total_len := (HEADER_MIN_LEN + payload_len)%nat in
  if (length buf <? total_len)%nat then Done (Err BufferTooShort, buf) else
  head ← slice buf 0 HEADER_MIN_LEN;
  '(written, head) ← Wire.write path_request_header head;
  let buf := head ++ drop HEADER_MIN_LEN buf in
  match written with
  | Err e => Done (Err e, buf)
  | Ok _ =>
      payload ← slice buf HEADER_MIN_LEN total_len;
      payload ← copy_into payload 0 destination;
      '(payload, id_offset) ← match requester_transport_id with
        | Some via => payload ← copy_into payload TRUNCATED_HASH_BYTE_LEN via; Done (payload, (TRUNCATED_HASH_BYTE_LEN * 2)%nat)
        | None => Done (payload, TRUNCATED_HASH_BYTE_LEN)
        end;
      if (length payload - id_offset =? length id)%nat then
        payload ← copy_into payload id_offset id;
        buf ← copy_into buf HEADER_MIN_LEN payload;
        Done (Ok total_len, buf)
      else Panic
  end.

(** [PathRequest] and its parser; the id is padded with zeros. *)
Record PathRequest := mkPathRequest {
  pr_destination : DestinationHash;
  pr_requester_transport_id : option TransportId;
  pr_id : list Z;
}.
Inductive PathRequestError := NoDestination | NoId.

Definition parse_path_request (payload : list Z) : run (result PathRequestError PathRequest) :=
  if (length payload <? TRUNCATED_HASH_BYTE_LEN)%nat then Done (Err NoDestination) else
  let destination := take TRUNCATED_HASH_BYTE_LEN payload in
  let finish (requester : option TransportId) (id_region : list Z) : run (result PathRequestError PathRequest) :=
    let used := length id_region `min` TRUNCATED_HASH_BYTE_LEN in
    part ← slice id_region 0 used;
    id ← copy_into (replicate TRUNCATED_HASH_BYTE_LEN 0%Z) 0 part;
    Done (Ok (mkPathRequest destination requester id)) in
  if (TRUNCATED_HASH_BYTE_LEN * 2 <? length payload)%nat then
    requester ← slice payload TRUNCATED_HASH_BYTE_LEN (TRUNCATED_HASH_BYTE_LEN * 2);
    id_region ← slice payload (TRUNCATED_HASH_BYTE_LEN * 2) (length payload);
    finish (Some requester) id_region
  else if (TRUNCATED_HASH_BYTE_LEN <? length payload)%nat then
    id_region ← slice payload TRUNCATED_HASH_BYTE_LEN (length payload);
    finish None id_region
  else Done (Err NoId).

Definition loops_back_through_requester (request : PathRequest) (next_hop : NextHop) : bool :=
  match next_hop, pr_requester_transport_id request with
  | Via via, Some id => bool_decide (via = id)
  | _, _ => false
  end.

(** * The command *)

(** [engine/state.rs] *)
Inductive NetworkTransport := NetworkDisabled | NetworkEnabled.
Inductive TransportState := Unidentified | Identified (id : TransportId) (network : NetworkTransport).
Definition transport_state_id (t : TransportState) : option TransportId :=
  match t with Unidentified => None | Identified id _ => Some id end.
Definition network_transport_enabled (t : TransportState) : bool :=
  match t with Identified _ NetworkEnabled => true | _ => false end.

Record RequestPath := mkRequestPath { rp_destination : DestinationHash; rp_id : list Z }.
Inductive PathRequestWriteOutcome := Written (wire_bytes : nat) (culled : option Pending.CommandId) | SerializeFailed (e : WireError).

(** The part of [EngineState] that path requests of the host's own use. *)
Record RequestState (P R : Type) := mkRequestState {
  rs_transport : TransportState;
  rs_pending : Pending.PendingPathRequests P;
  rs_recent : R;
}.
Arguments mkRequestState {P R} _ _ _.
Arguments rs_transport {P R} _.
Arguments rs_pending {P R} _.
Arguments rs_recent {P R} _.

Section command.
Context {P R : Type} `{DueTable Pending.CommandId P} `{DueTable unit R}.
Implicit Types (s : RequestState P R).

Definition write_commanded_path_request_with_timing s (id : Pending.CommandId) (request : RequestPath) (now : Z)
    (interfaces : AttachedInterfaces) (path_timeout_floor_ms : option Z) (buf : list Z) :
    run (PathRequestWriteOutcome * RequestState P R * list Z) :=
  let requester := if network_transport_enabled (rs_transport s) then transport_state_id (rs_transport s) else None in
  '(written, buf) ← write_path_request_wire_packet (rp_destination request) requester (rp_id request) buf;
  match written with
  | Err e => Done (SerializeFailed e, s, buf)
  | Ok wire_bytes =>
      let slowest := slowest_eligible_bitrate interfaces (λ descriptor, path_request_egress_eligible descriptor None Network) in
      let timeout_ms := match path_timeout_floor_ms with
        | None => path_discovery_timeout_ms slowest
        | Some floor => Z.max (path_discovery_timeout_ms slowest) floor
        end in
      '(culled, pending) ← Pending.track (rs_pending s) (mkDue (rp_destination request) id (saturating_add 64 now timeout_ms));
      recent ← Recent.mark_seen_at (rs_recent s) (rp_destination request) now;
      Done (Written wire_bytes culled, mkRequestState (rs_transport s) pending recent, buf)
  end.

Definition write_commanded_path_request_with_interfaces s id request now interfaces buf :=
  write_commanded_path_request_with_timing s id request now interfaces None buf.
Definition write_commanded_path_request s id request now buf :=
  write_commanded_path_request_with_interfaces s id request now [] buf.

Definition pop_settled_path_request s (destination : DestinationHash) : run (option Pending.CommandId * RequestState P R) :=
  '(settled, pending) ← Pending.pop_settled_for (rs_pending s) destination;
  Done (settled, mkRequestState (rs_transport s) pending (rs_recent s)).
Definition pop_timed_out_path_request s (now : Z) : run (option Pending.CommandId * RequestState P R) :=
  '(expired, pending) ← Pending.pop_expired (rs_pending s) now;
  Done (expired, mkRequestState (rs_transport s) pending (rs_recent s)).
End command.

(** * The packet is read back *)

Definition path_request_payload (destination : DestinationHash) (requester : option TransportId) (id : list Z) : list Z :=
  destination ++ default [] requester ++ id.

Lemma path_request_header_wf : header_wf path_request_header.
Proof. split; cbn; [vm_compute; done|done| |done]. split; [done|]. repeat constructor; vm_compute; done. Qed.

Lemma length_path_request_payload destination requester id :
  is_hash destination → from_option is_hash True requester → is_hash id →
  length (path_request_payload destination requester id) = payload_len_for requester.
Proof.
  intros [Hd _] Hr [Hi _]. unfold path_request_payload. rewrite !length_app, Hd, Hi. destruct requester as [via|]; [|done]. cbn.
  by rewrite (proj1 Hr).
Qed.

Lemma write_packet_ok destination requester id buf :
  is_hash destination → from_option is_hash True requester → is_hash id →
  let packet := encode_header path_request_header ++ path_request_payload destination requester id in
  write_path_request_wire_packet destination requester id buf
  = if (length buf <? length packet)%nat then Done (Err BufferTooShort, buf)
    else Done (Ok (length packet), packet ++ drop (length packet) buf).
Proof.
  intros Hd Hr Hi packet. pose proof (length_path_request_payload destination requester id Hd Hr Hi) as Hl.
  assert (Hlp : length packet = (HEADER_MIN_LEN + length (path_request_payload destination requester id))%nat) by (unfold packet; by rewrite length_app).
  unfold write_path_request_wire_packet. cbn zeta. rewrite <- Hl, <- Hlp. destruct (Nat.ltb_spec (length buf) (length packet)) as [|Hge]; [done|].
  set (n := length (path_request_payload destination requester id)) in *.
  rewrite <- (firstn_skipn HEADER_MIN_LEN buf) at 1. assert (Hh : length (take HEADER_MIN_LEN buf) = HEADER_MIN_LEN) by (rewrite length_take; lia).
  rewrite slice_prefix by done. cbn [mbind run_bind]. rewrite (write_spec _ _ path_request_header_wf).
  change (wire_len path_request_header) with HEADER_MIN_LEN. rewrite decide_False by (rewrite Hh; lia). cbn [mbind run_bind].
  rewrite drop_ge by lia. rewrite app_nil_r.
  set (head := encode_header path_request_header). assert (Hhead : length head = HEADER_MIN_LEN) by done.
  set (rest := drop HEADER_MIN_LEN buf). assert (Hrest : n ≤ length rest) by (unfold rest; rewrite length_drop; lia).
  assert (Es : slice (head ++ rest) HEADER_MIN_LEN (length packet) = Done (take n rest)).
  { unfold slice. rewrite decide_True by (rewrite length_app; lia). rewrite <- Hhead, drop_app_length. do 2 f_equal. lia. }
  rewrite Es. cbn [mbind run_bind].
  destruct Hd as [Hd _], Hi as [Hi _]. unfold path_request_payload in n.
  assert (Hn : n = (16 + (length (default [] requester) + 16))%nat) by (unfold n; rewrite !length_app, Hd, Hi; done).
  change TRUNCATED_HASH_BYTE_LEN with 16%nat in *.
  assert (Ep : take n rest = take 16 rest ++ take (length (default [] requester)) (drop 16 rest) ++ take 16 (drop (16 + length (default [] requester)) rest)).
  { rewrite Hn, <- !take_take_drop, drop_drop. done. }
  assert (Hfinish : ∀ payload, length payload = n → copy_into (head ++ rest) HEADER_MIN_LEN payload = Done (head ++ payload ++ drop (length packet) buf)).
  { intros payload Hp. rewrite copy_into_done by (rewrite length_app; lia). rewrite take_app_length' by done. do 3 f_equal.
    rewrite drop_app, (drop_ge head) by lia. rewrite app_nil_l. unfold rest. rewrite drop_drop. f_equal. lia. }
  rewrite Ep. pose proof (λ xs src post, @copy_at Z 0 [] xs src post eq_refl) as Hfront. cbn [app] in Hfront.
  rewrite Hfront by (rewrite ?length_take; lia). cbn [mbind run_bind app].
  destruct requester as [via|]; cbn [default from_option Datatypes.id] in *.
  - destruct Hr as [Hv _]. change TRUNCATED_HASH_BYTE_LEN with 16%nat in Hv. rewrite copy_at by (rewrite ?length_take, ?length_drop; lia). cbn [mbind run_bind].
    rewrite !length_app, length_take, length_drop, Hd, Hv. rewrite (proj2 (Nat.eqb_eq _ _)) by lia.
    rewrite app_assoc, <- (app_nil_r (take 16 (drop _ rest))), copy_at by (rewrite ?length_app, ?length_take, ?length_drop; lia). cbn [mbind run_bind].
    rewrite app_nil_r, Hfinish by (rewrite !length_app; lia). cbn [mbind run_bind]. unfold packet, path_request_payload. cbn [default from_option Datatypes.id].
    by rewrite <- !app_assoc.
  - rewrite take_0, app_nil_l. cbn [length Nat.add mbind run_bind] in *. rewrite !length_app, length_take, length_drop, Hd. rewrite (proj2 (Nat.eqb_eq _ _)) by lia.
    rewrite <- (app_nil_r (take 16 (drop _ rest))), copy_at by (rewrite ?length_app, ?length_take, ?length_drop; lia). cbn [mbind run_bind].
    rewrite app_nil_r, Hfinish by (rewrite !length_app; lia). cbn [mbind run_bind]. unfold packet, path_request_payload. cbn [default from_option Datatypes.id].
    by rewrite <- !app_assoc.
Qed.

Lemma slice_drop (xs : list Z) n : n ≤ length xs → slice xs n (length xs) = Done (drop n xs).
Proof. intros Hn. rewrite <- (firstn_skipn n xs) at 1 2. apply slice_suffix. rewrite length_take. lia. Qed.

Lemma pad_id (region : list Z) :
  let used := length region `min` 16 in
  (part ← slice region 0 used; copy_into (replicate 16 0%Z) 0 part) = Done (take 16 (region ++ replicate 16 0%Z)).
Proof.
  cbn zeta. unfold slice. rewrite decide_True by lia. cbn [mbind run_bind]. rewrite Nat.sub_0_r, drop_0.
  rewrite copy_into_done by (rewrite length_take, length_replicate; lia). rewrite take_0, app_nil_l, Nat.add_0_l, length_take. f_equal.
  rewrite take_app. f_equal; [by rewrite Nat.min_comm, <- take_take, (take_ge region) by done|]. rewrite take_replicate, drop_replicate. f_equal. lia.
Qed.

(** The parser reads any payload, and refuses those of sixteen bytes or fewer. *)
Lemma parse_path_request_total payload :
  parse_path_request payload
  = Done (if (length payload <? 16)%nat then Err NoDestination else
          if (length payload =? 16)%nat then Err NoId else
          let long := (32 <? length payload)%nat in
          Ok (mkPathRequest (take 16 payload) (if long then Some (take 16 (drop 16 payload)) else None)
                (take 16 (drop (if long then 32 else 16) payload ++ replicate 16 0%Z)))).
Proof.
  unfold parse_path_request. change TRUNCATED_HASH_BYTE_LEN with 16%nat. change (16 * 2)%nat with 32%nat. cbn zeta.
  destruct (Nat.ltb_spec (length payload) 16); [done|]. destruct (Nat.ltb_spec 32 (length payload)) as [Hl|Hl].
  - rewrite (proj2 (Nat.eqb_neq _ _)) by lia. rewrite (slice_drop payload 32) by lia.
    assert (E16 : slice payload 16 32 = Done (take 16 (drop 16 payload))) by (unfold slice; by rewrite decide_True by lia).
    rewrite E16. cbn [mbind run_bind].
    pose proof (pad_id (drop 32 payload)) as E. cbn zeta in E. revert E. destruct (slice _ 0 _) as [part| |]; cbn [mbind run_bind]; [|done|done]. by intros ->.
  - destruct (Nat.ltb_spec 16 (length payload)) as [Hg|Hg].
    + rewrite (proj2 (Nat.eqb_neq _ _)) by lia. rewrite (slice_drop payload 16) by lia. cbn [mbind run_bind].
      pose proof (pad_id (drop 16 payload)) as E. cbn zeta in E. revert E. destruct (slice _ 0 _) as [part| |]; cbn [mbind run_bind]; [|done|done]. by intros ->.
    + by rewrite (proj2 (Nat.eqb_eq _ _)) by lia.
Qed.

Lemma parse_written destination requester id :
  is_hash destination → from_option is_hash True requester → is_hash id →
  parse_path_request (path_request_payload destination requester id) = Done (Ok (mkPathRequest destination requester id)).
Proof.
  intros Hd Hr Hi. pose proof (length_path_request_payload destination requester id Hd Hr Hi) as Hl. rewrite parse_path_request_total. destruct Hd as [Hd _], Hi as [Hi _].
  change TRUNCATED_HASH_BYTE_LEN with 16%nat in *. unfold path_request_payload in *. destruct requester as [via|]; rewrite Hl; cbn.
  - destruct Hr as [Hv _]. change TRUNCATED_HASH_BYTE_LEN with 16%nat in Hv. rewrite take_app_length', !drop_app_length', take_app_length' by done.
    change (drop 32 (destination ++ via ++ id)) with (drop (16 + 16) (destination ++ via ++ id)).
    rewrite <- drop_drop, !drop_app_length', take_app_length' by done. done.
  - rewrite take_app_length', drop_app_length', take_app_length' by done. done.
Qed.

(** * What a command does *)

Section commanded.
Context {P R : Type} `{!DueTable Pending.CommandId P} `{!DueTable unit R}.
Context `{LP : !DueTableLaws (H := timeouts) Pending.CommandId P} `{LR : !DueTableLaws (H := Recent.ages) unit R}.

(** The request state holds [prows] pending requests and [rrows] recent ones. *)
Record request_state_ok (s : RequestState P R) (pcap rcap : Z) (prows : list (DueRow Pending.CommandId)) (rrows : list (DueRow unit)) : Prop := {
  rq_transport : from_option is_hash True (transport_state_id (rs_transport s));
  rq_pending : Settlement.pending_ok (rs_pending s) pcap prows;
  rq_recent : du_rep (DueTableLaws := LR) (rs_recent s) rcap rrows;
  rq_distinct : NoDup (du_key <$> rrows);
  rq_prows : (Z.of_nat (length prows) < u32_max)%Z;
  rq_rrows : (Z.of_nat (length rrows) < u32_max)%Z;
}.

Definition requester_of (s : RequestState P R) : option TransportId :=
  if network_transport_enabled (rs_transport s) then transport_state_id (rs_transport s) else None.

Lemma requester_is_hash s pcap rcap prows rrows :
  request_state_ok s pcap rcap prows rrows → from_option is_hash True (requester_of s).
Proof. intros [Ht _ _ _ _ _]. unfold requester_of. by destruct (network_transport_enabled _). Qed.

Lemma pushed_distinct cap rows d now gone rest :
  NoDup (du_key <$> rows) → Throttle.mark_leaves cap rows d now gone rest → NoDup (du_key <$> pushed cap rest (mkDue d () now)).
Proof.
  intros Hnd [Hs Hnot _ _ _ _]. assert (Hr : NoDup (du_key <$> rest)) by (eapply submseteq_NoDup; [exact Hnd|by apply fmap_submseteq]).
  unfold pushed. destruct (cap =? 0)%Z; [done|]. rewrite fmap_app. by apply NoDup_snoc.
Qed.

Lemma marked_is_throttled t cap rows d now :
  du_rep (DueTableLaws := LR) t cap rows → NoDup (du_key <$> rows) → mkDue d () now ∈ rows → Recent.is_throttled t d now = Done true.
Proof.
  intros Hr Hnd Hin. unfold Recent.is_throttled. destruct (du_index_of_ok t cap rows d Hr) as [(i & r & -> & Hi & Hk)|[_ Hnot]].
  - cbn [mbind run_bind]. rewrite (du_ats_ok _ _ _ Hr). cbn [mbind run_bind]. rewrite (index_lookup _ i (du_at r)) by (by rewrite list_lookup_fmap, Hi).
    cbn [mbind run_bind]. apply list_elem_of_lookup in Hin as [j Hj].
    assert (j = i) as ->. { eapply (NoDup_lookup (du_key <$> rows)); [done|by rewrite list_lookup_fmap, Hj|by rewrite list_lookup_fmap, Hi; cbn; rewrite Hk]. }
    rewrite Hj in Hi. injection Hi as <-. cbn. unfold Recent.aged_out, saturating_sub. rewrite Z.sub_diag. done.
  - destruct Hnot. apply list_elem_of_fmap. by exists (mkDue d () now).
Qed.

(** C31. A command to find a path either fails and changes nothing or is sent, pending and throttled.  If the buffer
    is too short, the state and the buffer stay as they are.  Otherwise the packet written parses as a path request
    for the destination with the command's id and, on a transport node, the node's own id; the rest of the buffer
    is untouched; the command is pending until a timeout no earlier than fifteen seconds and the given floor, as
    far as instants reach, and at most one other command is given up for it; and the destination is throttled. *)
Theorem commanded_request_is_sent_and_tracked (s : RequestState P R) pcap rcap prows rrows id request now interfaces floor buf :
  request_state_ok s pcap rcap prows rrows → is_hash (rp_destination request) → is_hash (rp_id request) → is_u64 now →
  ∃ outcome s' buf', write_commanded_path_request_with_timing s id request now interfaces floor buf = Done (outcome, s', buf')
    ∧ match outcome with
      | SerializeFailed _ => s' = s ∧ buf' = buf ∧ (length buf < HEADER_MIN_LEN + payload_len_for (requester_of s))%nat
      | Written n culled =>
          (∃ payload, parse (take n buf') = Ok (path_request_header, payload)
             ∧ parse_path_request payload = Done (Ok (mkPathRequest (rp_destination request) (requester_of s) (rp_id request))))
          ∧ drop n buf' = drop n buf
          ∧ (∃ prows' timeout_at, Settlement.pending_ok (rs_pending s') pcap prows'
               ∧ Settlement.pending_step pcap prows (Settlement.Track (mkDue (rp_destination request) id timeout_at)) culled prows'
               ∧ (Z.min u64_max (now + Z.max PATH_REQUEST_TIMEOUT_FLOOR_MS (default 0 floor)) ≤ timeout_at)%Z)
          ∧ (rcap ≠ 0%Z → Recent.is_throttled (rs_recent s') (rp_destination request) now = Done true)
      end.
Proof.
  intros Hok Hd Hi Hn. pose proof (requester_is_hash _ _ _ _ _ Hok) as Hr. destruct Hok as [_ Hp Hre Hnd Hpl Hrl].
  unfold write_commanded_path_request_with_timing. fold (requester_of s).
  rewrite write_packet_ok by done. set (payload := path_request_payload _ _ _).
  assert (Hl : length (encode_header path_request_header ++ payload) = (HEADER_MIN_LEN + payload_len_for (requester_of s))%nat)
    by (by rewrite length_app; unfold payload; rewrite length_path_request_payload).
  cbn zeta. destruct (Nat.ltb_spec (length buf) (length (encode_header path_request_header ++ payload))) as [Hlt|Hge].
  { cbn [mbind run_bind]. eexists _, _, _. split; [done|]. cbn beta iota. split; [done|]. split; [done|]. by rewrite <- Hl. }
  cbn [mbind run_bind]. set (timeout := match floor with None => _ | Some f => _ end).
  destruct (Settlement.track_request_ok (rs_pending s) pcap prows (mkDue (rp_destination request) id (saturating_add 64 now timeout)) Hp Hpl)
    as (culled & p' & prows' & -> & Hp' & Hstep). cbn [mbind run_bind].
  destruct (Throttle.mark_ok (rs_recent s) rcap rrows (rp_destination request) now Hre Hnd Hn Hrl) as (r' & gone & rest & -> & Hr' & Hleft).
  cbn [mbind run_bind]. eexists _, _, _. split; [done|]. cbn beta iota. split; [|split; [|split]].
  - exists payload. rewrite take_app_length. split; [apply parse_encode, path_request_header_wf|by apply parse_written].
  - by rewrite drop_app_length.
  - exists prows', (saturating_add 64 now timeout). split; [done|]. split; [done|]. unfold timeout, path_discovery_timeout_ms, PATH_REQUEST_TIMEOUT_FLOOR_MS. destruct floor as [f|]; cbn; width.
  - intros Hcap. eapply (marked_is_throttled _ rcap); [exact Hr'|by eapply pushed_distinct|]. unfold pushed.
    rewrite (proj2 (Z.eqb_neq _ _) Hcap). apply elem_of_app. right. by apply list_elem_of_singleton.
Qed.
End commanded.

#[local] Existing Instance timeouts.
#[local] Existing Instance timeouts_laws.
#[local] Abbreviation two_recents := (fixed_due (H := Recent.ages) (V := unit) (MAX := 2)).
Definition sample_request_state : RequestState (HeapDue Pending.CommandId) (FixedDue unit) :=
  mkRequestState (Identified (replicate 16 7%Z) NetworkEnabled) (Pending.mkPending heap_due_default None) (fixed_due_default (MAX := 2) ()).
Definition sample_request_path : RequestPath := mkRequestPath (replicate 16 0x22%Z) (replicate 16 0xAB%Z).

(** A transport node asks for a destination: 67 bytes, pending for 15 seconds; 66 bytes are too few. *)
Lemma commanded_request_is_sent_and_tracked_witness :
  ∃ outcome s' buf', write_commanded_path_request_with_timing (H0 := two_recents) sample_request_state 9%Z sample_request_path 1000 [] None (replicate 70 0%Z)
      = Done (outcome, s', buf')
    ∧ outcome = Written 67 None ∧ Pending.earliest_timeout_at (rs_pending s') = Some 16000%Z
    ∧ Recent.is_throttled (H := two_recents) (rs_recent s') (replicate 16 0x22%Z) 1000 = Done true
    ∧ write_commanded_path_request_with_timing (H0 := two_recents) sample_request_state 9%Z sample_request_path 1000 [] None (replicate 66 0%Z)
      = Done (SerializeFailed BufferTooShort, sample_request_state, replicate 66 0%Z).
Proof.
  assert (Hh : ∀ b, is_u8 b → is_hash (replicate 16 b)) by (intros b Hb; split; [done|by apply Forall_replicate]).
  destruct (commanded_request_is_sent_and_tracked (DueTable1 := two_recents) (LR := fixed_due_laws (H := Recent.ages) (MAX := 2)) sample_request_state
    usize_max 2 [] [] 9%Z sample_request_path 1000 [] None (replicate 70 0%Z)) as (outcome & s' & buf' & E & H).
  - split; [apply Hh; vm_compute; split; [discriminate|reflexivity]|split; [exact heap_due_default_rep|reflexivity]|apply (fixed_due_default_rep (H := Recent.ages) (MAX := 2))
      |constructor|vm_compute; reflexivity|vm_compute; reflexivity].
  - apply Hh. vm_compute. split; [discriminate|reflexivity].
  - apply Hh. vm_compute. split; [discriminate|reflexivity].
  - vm_compute. split; [discriminate|reflexivity].
  - exists outcome, s', buf'. split; [exact E|]. pose proof E as E'. vm_compute in E'. injection E' as <- <- <-.
    split; [reflexivity|]. split; [reflexivity|]. split; [|vm_compute; reflexivity]. destruct H as (_ & _ & _ & H). apply H. discriminate.
Defined.
