(* ===== verification/AnnounceSchedule.v ===== *)
(** Announces waiting to be sent on: [routing/announce/schedule/].

    A queue has one row per destination, in columns: a flood to all interfaces, or an answer directed to one.  An
    answer displaces the flood of its destination, which is parked in [held] and comes back when the answer is
    done.  The two queues, on bounded vectors ([impls/fixed.rs]) and on growing ones with a hash index and a heap of
    deadlines ([impls/heap.rs]), have the same operations over different row primitives: [AnnounceRows]. *)

From S2P Require Import LemireIndex DeadlineHeap AppData Prelude Columns Routes ChannelTable DeadlineColumn Lifetime.

Definition MAX_OUR_EMISSIONS : Z := 2.
Definition MAX_PEER_EMISSIONS : Z := 2.
Definition ANNOUNCE_WITH_RETRY_INITIAL_EMISSION_COUNT : Z := 0.
Definition ANNOUNCE_ONE_SHOT_INITIAL_EMISSION_COUNT : Z := (MAX_OUR_EMISSIONS - 1)%Z.

Record ScheduledAnnounce := mkScheduled {
  sa_destination : DestinationHash;
  sa_due_at : Z;
  sa_source_interface : InterfaceId;
  sa_hops : Z;
  sa_our_emission_count : Z;
  sa_peer_emission_count : Z;
  sa_directed_to : option InterfaceId;
}.
Inductive ScheduleRejection := QueueFull.
Inductive ScheduleOutcome := Inserted | Updated | Rejected (rejection : ScheduleRejection).
Record ScheduleCancellation := mkCancellation { active_removed : bool; parked_removed : bool }.
Inductive EchoOutcome := NoPendingEntry | PeerEmissionCounted | RetransmitCancelled | HopsUnrelated.

Record ScheduleColumns := mkScheduleColumns {
  sc_destination : list DestinationHash;
  sc_due_at : list Z;
  sc_source_interface : list InterfaceId;
  sc_hops : list Z;
  sc_our_emission_count : list Z;
  sc_peer_emission_count : list Z;
  sc_directed_to : list (option InterfaceId);
}.

(** ** Columns *)

Definition row (c : ScheduleColumns) (i : nat) : run ScheduledAnnounce :=
  destination ← index (sc_destination c) i;
  due_at ← index (sc_due_at c) i;
  source_interface ← index (sc_source_interface c) i;
  hops ← index (sc_hops c) i;
  our ← index (sc_our_emission_count c) i;
  peer ← index (sc_peer_emission_count c) i;
  directed_to ← index (sc_directed_to c) i;
  Done (mkScheduled destination due_at source_interface hops our peer directed_to).

Definition set_due_column (c : ScheduleColumns) (i : nat) (due_at : Z) : run ScheduleColumns :=
  dues ← store (sc_due_at c) i due_at;
  Done (mkScheduleColumns (sc_destination c) dues (sc_source_interface c) (sc_hops c) (sc_our_emission_count c)
    (sc_peer_emission_count c) (sc_directed_to c)).
Definition set_our_emission_count (c : ScheduleColumns) (i : nat) (count : Z) : run ScheduleColumns :=
  ours ← store (sc_our_emission_count c) i count;
  Done (mkScheduleColumns (sc_destination c) (sc_due_at c) (sc_source_interface c) (sc_hops c) ours
    (sc_peer_emission_count c) (sc_directed_to c)).
Definition set_peer_emission_count (c : ScheduleColumns) (i : nat) (peers : Z) : run ScheduleColumns :=
  counts ← store (sc_peer_emission_count c) i peers;
  Done (mkScheduleColumns (sc_destination c) (sc_due_at c) (sc_source_interface c) (sc_hops c) (sc_our_emission_count c)
    counts (sc_directed_to c)).
(** The columns that [upsert] overwrites beside the due time. *)
Definition set_entry (c : ScheduleColumns) (i : nat) (source_interface : InterfaceId) (hops our : Z)
    (directed_to : option InterfaceId) : run ScheduleColumns :=
  sources ← store (sc_source_interface c) i source_interface;
  hopss ← store (sc_hops c) i hops;
  ours ← store (sc_our_emission_count c) i our;
  peers ← store (sc_peer_emission_count c) i 0%Z;
  directeds ← store (sc_directed_to c) i directed_to;
  Done (mkScheduleColumns (sc_destination c) (sc_due_at c) sources hopss ours peers directeds).

(** * The row primitives *)

Class AnnounceRows (T : Type) := {
  ar_columns : T → ScheduleColumns;
  ar_with_columns : T → ScheduleColumns → T;
  ar_index_of : T → DestinationHash → run (option nat);
  ar_active_directed_index : T → DestinationHash → run (option nat);
  ar_push_row : T → ScheduledAnnounce → run (result ScheduleRejection unit * T);
  ar_swap_remove_row : T → nat → run T;
  ar_set_due_at : T → nat → Z → run T;
  ar_earliest : T → run (option Z * T);
  ar_first_due : T → Z → run (option nat * T);
  ar_prefers_linear_due_cull : T → Z → run (bool * T);
  ar_invalidate : T → T;
  ar_held_push : list ScheduledAnnounce → ScheduledAnnounce → list ScheduledAnnounce;
  ar_held_swap_remove : list ScheduledAnnounce → nat → run (list ScheduledAnnounce);
}.

Record ScheduledAnnounceQueue (T : Type) := mkQueue {
  q_rows : T;
  q_held : list ScheduledAnnounce;
  q_earliest_due : option Z;
}.
Arguments mkQueue {T} _ _ _.
Arguments q_rows {T} _.
Arguments q_held {T} _.
Arguments q_earliest_due {T} _.

Section operations.
Context {T : Type} `{AnnounceRows T}.
Implicit Types (q : ScheduledAnnounceQueue T) (t : T) (held : list ScheduledAnnounce).

Definition scheduled_count q : nat := length (sc_due_at (ar_columns (q_rows q))).
Definition held_count q : nat := length (q_held q).
Definition earliest_due_at q : option Z := q_earliest_due q.

Definition refresh_earliest t held : run (ScheduledAnnounceQueue T) :=
  '(earliest, t) ← ar_earliest t; Done (mkQueue t held earliest).

Definition held_contains held (destination : DestinationHash) : bool :=
  existsb (λ entry, bool_decide (sa_destination entry = destination)) held.
Definition held_position held (destination : DestinationHash) : option nat :=
  fst <$> list_find (λ entry, sa_destination entry = destination) held.

Definition upsert t held (destination : DestinationHash) (due_at : Z) (source_interface : InterfaceId) (hops : Z)
    (directed_to : option InterfaceId) (our_emission_count : Z) : run (ScheduleOutcome * ScheduledAnnounceQueue T) :=
  found ← ar_index_of t destination;
  match found with
  | Some i =>
      t ← ar_set_due_at t i due_at;
      c ← set_entry (ar_columns t) i source_interface hops our_emission_count directed_to;
      q ← refresh_earliest (ar_with_columns t c) held;
      Done (Updated, q)
  | None =>
      '(pushed, t) ← ar_push_row t (mkScheduled destination due_at source_interface hops our_emission_count 0 directed_to);
      q ← refresh_earliest t held;
      Done (match pushed with Ok _ => Inserted | Err rejection => Rejected rejection end, q)
  end.

Definition park_displaced_flood t held (destination : DestinationHash) : run (T * list ScheduledAnnounce) :=
  found ← ar_index_of t destination;
  match found with
  | None => Done (t, held)
  | Some i =>
      directed ← index (sc_directed_to (ar_columns t)) i;
      if bool_decide (is_Some directed) then Done (t, held) else
      flood ← row (ar_columns t) i;
      t ← ar_swap_remove_row t i;
      Done (t, ar_held_push held flood)
  end.

Definition clear_held held (destination : DestinationHash) : run (list ScheduledAnnounce) :=
  match held_position held destination with
  | Some j => ar_held_swap_remove held j
  | None => Done held
  end.

Fixpoint restore_orphaned_loop (fuel : nat) t held (j : nat) : run (T * list ScheduledAnnounce) :=
  match fuel with
  | O => OutOfFuel
  | S fuel =>
      if (j <? length held)%nat then
        flood ← index held j;
        found ← ar_active_directed_index t (sa_destination flood);
        if bool_decide (is_Some found) then restore_orphaned_loop fuel t held (S j) else
        held ← ar_held_swap_remove held j;
        '(_, t) ← ar_push_row t flood;
        restore_orphaned_loop fuel t held j
      else Done (t, held)
  end.
Definition restore_orphaned_held t held : run (T * list ScheduledAnnounce) := restore_orphaned_loop (S (length held)) t held 0.

(** [schedule], [schedule_shared_client] *)
Definition schedule_with q (our_emission_count : Z) (destination : DestinationHash) (due_at : Z) (source_interface : InterfaceId) (hops : Z) :
    run (ScheduleOutcome * ScheduledAnnounceQueue T) :=
  held ← clear_held (q_held q) destination;
  upsert (q_rows q) held destination due_at source_interface hops None our_emission_count.
Definition schedule q := schedule_with q ANNOUNCE_WITH_RETRY_INITIAL_EMISSION_COUNT.
Definition schedule_shared_client q := schedule_with q ANNOUNCE_ONE_SHOT_INITIAL_EMISSION_COUNT.

(** [schedule_directed], [schedule_directed_shared_client] *)
Definition schedule_directed_with q (our_emission_count : Z) (destination : DestinationHash) (due_at : Z) (target : InterfaceId) (hops : Z) :
    run (ScheduleOutcome * ScheduledAnnounceQueue T) :=
  replacing ← ar_index_of (q_rows q) destination;
  '(t, held) ← park_displaced_flood (q_rows q) (q_held q) destination;
  '(outcome, q) ← upsert t held destination due_at target hops (Some target) our_emission_count;
  Done (match replacing, outcome with Some _, Inserted => Updated | _, _ => outcome end, q).
Definition schedule_directed q := schedule_directed_with q ANNOUNCE_WITH_RETRY_INITIAL_EMISSION_COUNT.
Definition schedule_directed_shared_client q := schedule_directed_with q ANNOUNCE_ONE_SHOT_INITIAL_EMISSION_COUNT.

Definition cancel q (destination : DestinationHash) : run (ScheduleCancellation * ScheduledAnnounceQueue T) :=
  found ← ar_index_of (q_rows q) destination;
  t ← match found with Some i => ar_swap_remove_row (q_rows q) i | None => Done (q_rows q) end;
  let parked := held_position (q_held q) destination in
  held ← match parked with Some j => ar_held_swap_remove (q_held q) j | None => Done (q_held q) end;
  q ← (if bool_decide (is_Some found) then refresh_earliest t held else Done (mkQueue t held (q_earliest_due q)));
  Done (mkCancellation (bool_decide (is_Some found)) (bool_decide (is_Some parked)), q).

Fixpoint drain_linear_loop (fuel : nat) t (i removed : nat) (now : Z) : run (nat * T) :=
  match fuel with
  | O => OutOfFuel
  | S fuel =>
      if (i <? length (sc_due_at (ar_columns t)))%nat then
        due ← index (sc_due_at (ar_columns t)) i;
        if (due <=? now)%Z then t ← ar_swap_remove_row t i; drain_linear_loop fuel t i (S removed) now
        else drain_linear_loop fuel t (S i) removed now
      else Done (removed, t)
  end.
Fixpoint drain_indexed_loop (fuel : nat) t (removed : nat) (now : Z) : run (nat * T) :=
  match fuel with
  | O => OutOfFuel
  | S fuel =>
      '(found, t) ← ar_first_due t now;
      match found with
      | None => Done (removed, t)
      | Some i => t ← ar_swap_remove_row t i; drain_indexed_loop fuel t (S removed) now
      end
  end.
Definition drain_due q (now : Z) : run (nat * ScheduledAnnounceQueue T) :=
  '(scan, t) ← ar_prefers_linear_due_cull (q_rows q) now;
  let rows := S (length (sc_due_at (ar_columns t))) in
  '(removed, t) ← (if (scan : bool) then drain_linear_loop rows (ar_invalidate t) 0 0 now else drain_indexed_loop rows t 0 now);
  q ← refresh_earliest t (q_held q);
  Done (removed, q).

(** A due row is sent: an answer with a flood parked behind it is done, others are counted, and done at the
    maximum or due again. *)
Definition advance_row t held (i : nat) (next_due max_our_emission_count : Z) : run (bool * T) :=
  directed ← index (sc_directed_to (ar_columns t)) i;
  destination ← index (sc_destination (ar_columns t)) i;
  if bool_decide (is_Some directed) && held_contains held destination then t ← ar_swap_remove_row t i; Done (true, t) else
  our ← index (sc_our_emission_count (ar_columns t)) i;
  let count := saturating_add 8 our 1 in
  c ← set_our_emission_count (ar_columns t) i count;
  let t := ar_with_columns t c in
  if (max_our_emission_count <=? count)%Z then t ← ar_swap_remove_row t i; Done (true, t) else
  t ← ar_set_due_at t i next_due;
  Done (false, t).

Fixpoint advance_linear_loop (fuel : nat) t held (i completed : nat) (now next_due max_our_emission_count : Z) : run (nat * T) :=
  match fuel with
  | O => OutOfFuel
  | S fuel =>
      if (i <? length (sc_due_at (ar_columns t)))%nat then
        due ← index (sc_due_at (ar_columns t)) i;
        if (due <=? now)%Z then
          '(gone, t) ← advance_row t held i next_due max_our_emission_count;
          if (gone : bool) then advance_linear_loop fuel t held i (S completed) now next_due max_our_emission_count
          else advance_linear_loop fuel t held (S i) completed now next_due max_our_emission_count
        else advance_linear_loop fuel t held (S i) completed now next_due max_our_emission_count
      else Done (completed, t)
  end.
Fixpoint advance_indexed_loop (fuel : nat) t held (completed : nat) (now next_due max_our_emission_count : Z) : run (nat * T) :=
  match fuel with
  | O => OutOfFuel
  | S fuel =>
      '(found, t) ← ar_first_due t now;
      match found with
      | None => Done (completed, t)
      | Some i =>
          '(gone, t) ← advance_row t held i next_due max_our_emission_count;
          advance_indexed_loop fuel t held (if (gone : bool) then S completed else completed) now next_due max_our_emission_count
      end
  end.

(** The heap is walked only when the next due time is later than now. *)
Definition advance_due_retransmits q (now interval_ms max_our_emission_count : Z) : run (nat * ScheduledAnnounceQueue T) :=
  let held := q_held q in
  '(scan, t) ← (if (now + interval_ms <=? u64_max)%Z && negb (interval_ms =? 0)%Z
    then '(linear, t) ← ar_prefers_linear_due_cull (q_rows q) now; Done (linear, if (linear : bool) then ar_invalidate t else t)
    else Done (true, q_rows q));
  let rows := S (length (sc_due_at (ar_columns t))) in
  '(completed, t) ← (if (scan : bool)
    then advance_linear_loop rows t held 0 0 now (saturating_add 64 now interval_ms) max_our_emission_count
    else advance_indexed_loop rows t held 0 now (now + interval_ms)%Z max_our_emission_count);
  '(t, held) ← restore_orphaned_held t held;
  q ← refresh_earliest t held;
  Done (completed, q).

Definition absorb_echo q (destination : DestinationHash) (received_hops now max_peer_emission_count : Z) :
    run (EchoOutcome * ScheduledAnnounceQueue T) :=
  let t := q_rows q in
  found ← ar_index_of t destination;
  match found with
  | None => Done (NoPendingEntry, q)
  | Some i =>
      let hops_below := saturating_sub received_hops 1 in
      entry_hops ← index (sc_hops (ar_columns t)) i;
      our ← index (sc_our_emission_count (ar_columns t)) i;
      let emitted := (0 <? our)%Z in
      if (hops_below =? entry_hops)%Z then
        peer ← index (sc_peer_emission_count (ar_columns t)) i;
        let peers := saturating_add 8 peer 1 in
        c ← set_peer_emission_count (ar_columns t) i peers;
        let t := ar_with_columns t c in
        if emitted && (max_peer_emission_count <=? peers)%Z then
          t ← ar_swap_remove_row t i;
          q ← refresh_earliest t (q_held q);
          Done (RetransmitCancelled, q)
        else Done (PeerEmissionCounted, mkQueue t (q_held q) (q_earliest_due q))
      else
        due ← index (sc_due_at (ar_columns t)) i;
        if (hops_below =? saturating_add 8 entry_hops 1)%Z && emitted && (now <? due)%Z then
          t ← ar_swap_remove_row t i;
          q ← refresh_earliest t (q_held q);
          Done (RetransmitCancelled, q)
        else Done (HopsUnrelated, q)
  end.
End operations.

(** * Bounded vectors: [impls/fixed.rs]

    [heapless::Vec] is code outside the repository: [HeaplessVec] has its [push], [HeaplessRemove] its
    [swap_remove]. *)

Class HeaplessRemove := { hv_swap_remove : ∀ {A : Type}, list A → nat → run (list A) }.
Class HeaplessQueueLaws `{HeaplessVec} `{HeaplessRemove} : Prop := {
  hq_push :: HeaplessVecLaws;
  hq_push_full : ∀ {A} (cap : nat) (xs : list A) x, cap ≤ length xs → hv_push cap xs x = xs;
  hq_swap_remove : ∀ {A} (xs : list A) i, i < length xs → hv_swap_remove xs i = Done (swap_removed xs i);
}.

Section fixed.
Context `{HeaplessVec} `{HeaplessRemove} {MAX_PENDING : nat}.

Definition FixedScheduledAnnounceQueue : Type := ScheduledAnnounceQueue ScheduleColumns.
Definition no_announces : ScheduleColumns := mkScheduleColumns [] [] [] [] [] [] [].
Definition fixed_queue_new : FixedScheduledAnnounceQueue := mkQueue no_announces [] None.

Definition fixed_push_row (c : ScheduleColumns) (entry : ScheduledAnnounce) : run (result ScheduleRejection unit * ScheduleColumns) :=
  if (MAX_PENDING <=? length (sc_destination c))%nat then Done (Err QueueFull, c) else
  Done (Ok (), mkScheduleColumns
    (hv_push MAX_PENDING (sc_destination c) (sa_destination entry))
    (hv_push MAX_PENDING (sc_due_at c) (sa_due_at entry))
    (hv_push MAX_PENDING (sc_source_interface c) (sa_source_interface entry))
    (hv_push MAX_PENDING (sc_hops c) (sa_hops entry))
    (hv_push MAX_PENDING (sc_our_emission_count c) (sa_our_emission_count entry))
    (hv_push MAX_PENDING (sc_peer_emission_count c) (sa_peer_emission_count entry))
    (hv_push MAX_PENDING (sc_directed_to c) (sa_directed_to entry))).

Definition fixed_swap_remove_row (c : ScheduleColumns) (i : nat) : run ScheduleColumns :=
  ds ← hv_swap_remove (sc_destination c) i;
  dues ← hv_swap_remove (sc_due_at c) i;
  sources ← hv_swap_remove (sc_source_interface c) i;
  hopss ← hv_swap_remove (sc_hops c) i;
  ours ← hv_swap_remove (sc_our_emission_count c) i;
  peers ← hv_swap_remove (sc_peer_emission_count c) i;
  directeds ← hv_swap_remove (sc_directed_to c) i;
  Done (mkScheduleColumns ds dues sources hopss ours peers directeds).

#[global] Instance fixed_announce_rows : AnnounceRows ScheduleColumns := {|
  ar_columns := λ c, c;
  ar_with_columns := λ _ c, c;
  ar_index_of := λ c d, Done (fst <$> list_find (λ existing, existing = d) (sc_destination c));
  ar_active_directed_index := λ c d,
    Done (fst <$> list_find (λ e, e.1 = d ∧ is_Some e.2) (zip (sc_destination c) (sc_directed_to c)));
  ar_push_row := fixed_push_row;
  ar_swap_remove_row := fixed_swap_remove_row;
  ar_set_due_at := set_due_column;
  ar_earliest := λ c, Done (minimum (sc_due_at c), c);
  ar_first_due := λ c now, Done (fst <$> list_find (λ due, (due ≤ now)%Z) (sc_due_at c), c);
  ar_prefers_linear_due_cull := λ c _, Done (true, c);
  ar_invalidate := λ c, c;
  ar_held_push := hv_push MAX_PENDING;
  ar_held_swap_remove := hv_swap_remove;
|}.

(** [take_due], which only this queue has *)
Definition take_due (q : FixedScheduledAnnounceQueue) (now : Z) : run (option ScheduledAnnounce * FixedScheduledAnnounceQueue) :=
  '(found, c) ← ar_first_due (q_rows q) now;
  match found with
  | None => Done (None, q)
  | Some i =>
      entry ← row c i;
      c ← ar_swap_remove_row c i;
      q ← refresh_earliest c (q_held q);
      Done (Some entry, q)
  end.
Definition count_due (q : FixedScheduledAnnounceQueue) (now : Z) : nat :=
  length (filter (λ due, (due ≤ now)%Z) (sc_due_at (q_rows q))).
End fixed.

(** * Growing vectors: [impls/heap.rs] *)

Record HeapAnnounceRows := mkHeapRows {
  hr_columns : ScheduleColumns;
  hr_index : list Z;
  hr_due_index : DeadlineHeap.HeapDeadlineIndex;
}.
Definition HeapScheduledAnnounceQueue : Type := ScheduledAnnounceQueue HeapAnnounceRows.
Definition heap_queue_default : HeapScheduledAnnounceQueue :=
  mkQueue (mkHeapRows (mkScheduleColumns [] [] [] [] [] [] []) LemireIndex.Heap.default DeadlineHeap.default_index) [] None.

Definition heap_index_of (t : HeapAnnounceRows) (d : DestinationHash) : run (option nat) :=
  LemireIndex.Heap.heap_get (hr_index t) d (sc_destination (hr_columns t)).
Definition due_in (t : HeapAnnounceRows) : nat → option Z := deadline_in Some (sc_due_at (hr_columns t)).

Definition heap_push_row (t : HeapAnnounceRows) (entry : ScheduledAnnounce) : run (result ScheduleRejection unit * HeapAnnounceRows) :=
  let c := hr_columns t in
  let row := length (sc_destination c) in
  let c := mkScheduleColumns (sc_destination c ++ [sa_destination entry]) (sc_due_at c ++ [sa_due_at entry])
    (sc_source_interface c ++ [sa_source_interface entry]) (sc_hops c ++ [sa_hops entry])
    (sc_our_emission_count c ++ [sa_our_emission_count entry]) (sc_peer_emission_count c ++ [sa_peer_emission_count entry])
    (sc_directed_to c ++ [sa_directed_to entry]) in
  index ← LemireIndex.Heap.heap_insert (hr_index t) row (sc_destination c);
  ix ← DeadlineHeap.insert (deadline_in Some (sc_due_at c)) (hr_due_index t) row (Some (sa_due_at entry));
  Done (Ok (), mkHeapRows c index ix).

Definition heap_swap_remove_row (t : HeapAnnounceRows) (i : nat) : run HeapAnnounceRows :=
  let c := hr_columns t in
  if (length (sc_destination c) <=? i)%nat then Done t else
  let last := length (sc_destination c) - 1 in
  index ← LemireIndex.Heap.heap_remove_slot (hr_index t) i (sc_destination c);
  index ← (if negb (i =? last)%nat then LemireIndex.Heap.heap_repoint_slot index last i (sc_destination c) else Done index);
  ix ← DeadlineHeap.swap_remove (due_in t) (hr_due_index t) i last;
  ds ← vec_swap_remove (sc_destination c) i;
  dues ← vec_swap_remove (sc_due_at c) i;
  sources ← vec_swap_remove (sc_source_interface c) i;
  hopss ← vec_swap_remove (sc_hops c) i;
  ours ← vec_swap_remove (sc_our_emission_count c) i;
  peers ← vec_swap_remove (sc_peer_emission_count c) i;
  directeds ← vec_swap_remove (sc_directed_to c) i;
  Done (mkHeapRows (mkScheduleColumns ds dues sources hopss ours peers directeds) index ix).

Definition heap_set_due_at (t : HeapAnnounceRows) (i : nat) (due_at : Z) : run HeapAnnounceRows :=
  c ← set_due_column (hr_columns t) i due_at;
  ix ← DeadlineHeap.update (deadline_in Some (sc_due_at c)) (hr_due_index t) i (Some due_at);
  Done (mkHeapRows c (hr_index t) ix).

(** The heap's queries prepare it first. *)
Definition with_due_index {A} (t : HeapAnnounceRows) (query : run (A * DeadlineHeap.HeapDeadlineIndex)) : run (A * HeapAnnounceRows) :=
  '(a, ix) ← query; Done (a, mkHeapRows (hr_columns t) (hr_index t) ix).

#[global] Instance heap_announce_rows : AnnounceRows HeapAnnounceRows := {|
  ar_columns := hr_columns;
  ar_with_columns := λ t c, mkHeapRows c (hr_index t) (hr_due_index t);
  ar_index_of := heap_index_of;
  ar_active_directed_index := λ t d,
    found ← heap_index_of t d;
    match found with
    | None => Done None
    | Some i => directed ← index (sc_directed_to (hr_columns t)) i; Done (if bool_decide (is_Some directed) then Some i else None)
    end;
  ar_push_row := heap_push_row;
  ar_swap_remove_row := heap_swap_remove_row;
  ar_set_due_at := heap_set_due_at;
  ar_earliest := λ t, with_due_index t (DeadlineHeap.earliest_exact (due_in t) (hr_due_index t) (length (sc_due_at (hr_columns t))));
  ar_first_due := λ t now, with_due_index t (DeadlineHeap.first_due (due_in t) (hr_due_index t) (length (sc_due_at (hr_columns t))) now);
  ar_prefers_linear_due_cull := λ t now,
    with_due_index t (DeadlineHeap.prefers_linear_cull (due_in t) (hr_due_index t) (length (sc_due_at (hr_columns t))) now);
  ar_invalidate := λ t, mkHeapRows (hr_columns t) (hr_index t) (DeadlineHeap.invalidate (hr_due_index t));
  ar_held_push := λ held flood, held ++ [flood];
  ar_held_swap_remove := vec_swap_remove;
|}.
