(* ===== verification/AnnounceScheduleRows.v ===== *)
(** The contract of the rows of an announce queue ([AnnounceSchedule]), met by both implementations. *)

From S2P Require Import LemireIndex DeadlineHeap AppData Prelude Columns KeyedMap Routes ChannelTable DeadlineColumn Lifetime AnnounceSchedule.

Definition columns_of (rows : list ScheduledAnnounce) : ScheduleColumns :=
  mkScheduleColumns (sa_destination <$> rows) (sa_due_at <$> rows) (sa_source_interface <$> rows) (sa_hops <$> rows)
    (sa_our_emission_count <$> rows) (sa_peer_emission_count <$> rows) (sa_directed_to <$> rows).

(** ** Rows rewritten *)

Definition with_due_at (due_at : Z) (r : ScheduledAnnounce) : ScheduledAnnounce :=
  mkScheduled (sa_destination r) due_at (sa_source_interface r) (sa_hops r) (sa_our_emission_count r) (sa_peer_emission_count r) (sa_directed_to r).
Definition with_our_emission_count (count : Z) (r : ScheduledAnnounce) : ScheduledAnnounce :=
  mkScheduled (sa_destination r) (sa_due_at r) (sa_source_interface r) (sa_hops r) count (sa_peer_emission_count r) (sa_directed_to r).
Definition with_peer_emission_count (count : Z) (r : ScheduledAnnounce) : ScheduledAnnounce :=
  mkScheduled (sa_destination r) (sa_due_at r) (sa_source_interface r) (sa_hops r) (sa_our_emission_count r) count (sa_directed_to r).

Section columns.
Implicit Types (rows : list ScheduledAnnounce).

Lemma index_field {A} (f : ScheduledAnnounce → A) rows i r : rows !! i = Some r → index (f <$> rows) i = Done (f r).
Proof. intros Hi. apply index_lookup. by rewrite list_lookup_fmap, Hi. Qed.

Lemma store_field {A} (f : ScheduledAnnounce → A) rows i r' :
  i < length rows → store (f <$> rows) i (f r') = Done (f <$> <[i := r']> rows).
Proof. intros Hi. rewrite store_done by (by rewrite length_fmap). by rewrite list_fmap_insert. Qed.

(** A field that the new row has in common with the old one stays. *)
Lemma same_field {A} (f : ScheduledAnnounce → A) rows i r r' :
  rows !! i = Some r → f r' = f r → f <$> <[i := r']> rows = f <$> rows.
Proof. intros Hi Hf. rewrite list_fmap_insert. apply list_insert_id. by rewrite list_lookup_fmap, Hi, Hf. Qed.

Lemma row_ok rows i r : rows !! i = Some r → row (columns_of rows) i = Done r.
Proof.
  intros Hi. unfold row, columns_of. cbn [sc_destination sc_due_at sc_source_interface sc_hops sc_our_emission_count sc_peer_emission_count sc_directed_to].
  repeat (rewrite (index_field _ _ _ _ Hi); cbn [mbind run_bind]). by destruct r.
Qed.

(** Writing one row of the columns. *)
Ltac write_row Hi := pose proof (lookup_lt_Some _ _ _ Hi) as Hlt; unfold columns_of; cbn [sc_destination sc_due_at sc_source_interface sc_hops sc_our_emission_count sc_peer_emission_count sc_directed_to];
  rewrite ?store_done by (by rewrite length_fmap); cbn [mbind run_bind];
  rewrite ?store_done by (by rewrite length_fmap); cbn [mbind run_bind]; f_equal; f_equal; rewrite ?list_fmap_insert; try done; symmetry;
  apply list_insert_id; by rewrite list_lookup_fmap, Hi.

Lemma set_due_column_ok rows i r due_at :
  rows !! i = Some r → set_due_column (columns_of rows) i due_at = Done (columns_of (<[i := with_due_at due_at r]> rows)).
Proof. intros Hi. unfold set_due_column. write_row Hi. Qed.
Lemma set_our_ok rows i r count :
  rows !! i = Some r → set_our_emission_count (columns_of rows) i count = Done (columns_of (<[i := with_our_emission_count count r]> rows)).
Proof. intros Hi. unfold set_our_emission_count. write_row Hi. Qed.
Lemma set_peer_ok rows i r count :
  rows !! i = Some r → set_peer_emission_count (columns_of rows) i count = Done (columns_of (<[i := with_peer_emission_count count r]> rows)).
Proof. intros Hi. unfold set_peer_emission_count. write_row Hi. Qed.
Lemma set_entry_ok rows i r source hops our directed :
  rows !! i = Some r →
  set_entry (columns_of rows) i source hops our directed
  = Done (columns_of (<[i := mkScheduled (sa_destination r) (sa_due_at r) source hops our 0 directed]> rows)).
Proof. intros Hi. unfold set_entry. write_row Hi. Qed.
End columns.

(** * The contract *)

Class AnnounceRowsLaws (T : Type) `{AnnounceRows T} := {
  ar_rep : T → Z → list ScheduledAnnounce → Prop;
  ar_columns_ok : ∀ t cap rows, ar_rep t cap rows → ar_columns t = columns_of rows;
  ar_cap_ok : ∀ t cap rows, ar_rep t cap rows → (Z.of_nat (length rows) ≤ cap)%Z;
  ar_with_ok : ∀ t cap rows rows', ar_rep t cap rows →
    sa_destination <$> rows' = sa_destination <$> rows → sa_due_at <$> rows' = sa_due_at <$> rows →
    ar_rep (ar_with_columns t (columns_of rows')) cap rows';
  ar_index_of_ok : ∀ t cap rows d, ar_rep t cap rows →
    (∃ i r, ar_index_of t d = Done (Some i) ∧ rows !! i = Some r ∧ sa_destination r = d)
    ∨ (ar_index_of t d = Done None ∧ d ∉ sa_destination <$> rows);
  ar_active_ok : ∀ t cap rows d, ar_rep t cap rows → NoDup (sa_destination <$> rows) →
    ∃ found, ar_active_directed_index t d = Done found
      ∧ (is_Some found ↔ ∃ r, r ∈ rows ∧ sa_destination r = d ∧ is_Some (sa_directed_to r));
  ar_push_ok : ∀ t cap rows r, ar_rep t cap rows → (Z.of_nat (length rows) < cap)%Z → (Z.of_nat (length rows) < u32_max)%Z →
    ∃ t', ar_push_row t r = Done (Ok (), t') ∧ ar_rep t' cap (rows ++ [r]);
  ar_push_full : ∀ t cap rows r, ar_rep t cap rows → Z.of_nat (length rows) = cap → (cap ≤ u32_max)%Z →
    ar_push_row t r = Done (Err QueueFull, t);
  ar_swap_ok : ∀ t cap rows i, ar_rep t cap rows → i < length rows →
    ∃ t', ar_swap_remove_row t i = Done t' ∧ ar_rep t' cap (swap_removed rows i);
  ar_set_due_ok : ∀ t cap rows i r due_at, ar_rep t cap rows → rows !! i = Some r →
    ∃ t', ar_set_due_at t i due_at = Done t' ∧ ar_rep t' cap (<[i := with_due_at due_at r]> rows);
  ar_earliest_ok : ∀ t cap rows, ar_rep t cap rows →
    ∃ t', ar_earliest t = Done (minimum (sa_due_at <$> rows), t') ∧ ar_rep t' cap rows;
  ar_first_due_ok : ∀ t cap rows now, ar_rep t cap rows →
    ∃ found t', ar_first_due t now = Done (found, t') ∧ ar_rep t' cap rows
      ∧ match found with
        | Some i => ∃ r, rows !! i = Some r ∧ (sa_due_at r ≤ now)%Z
        | None => Forall (λ r, (now < sa_due_at r)%Z) rows
        end;
  ar_prefers_ok : ∀ t cap rows now, ar_rep t cap rows →
    ∃ b t', ar_prefers_linear_due_cull t now = Done (b, t') ∧ ar_rep t' cap rows;
  ar_invalidate_ok : ∀ t cap rows, ar_rep t cap rows → ar_rep (ar_invalidate t) cap rows;
  ar_held_push_ok : ∀ t cap rows held flood, ar_rep t cap rows → (Z.of_nat (length held) < cap)%Z → ar_held_push held flood = held ++ [flood];
  ar_held_remove_ok : ∀ held j, j < length held → ar_held_swap_remove held j = Done (swap_removed held j);
}.

(** ** The first row of a destination, in a scan *)
Lemma scan_destination (rows : list ScheduledAnnounce) d :
  (∃ i r, fst <$> list_find (λ c, c = d) (sa_destination <$> rows) = Some i ∧ rows !! i = Some r ∧ sa_destination r = d)
  ∨ (fst <$> list_find (λ c, c = d) (sa_destination <$> rows) = None ∧ d ∉ sa_destination <$> rows).
Proof. apply list_find_key. Qed.

(** * Bounded vectors *)

Section fixed.
Context `{HeaplessVec} `{HeaplessRemove} `{!HeaplessQueueLaws} {MAX_PENDING : nat}.
#[local] Existing Instance fixed_announce_rows.

Definition fixed_rows_rep (c : ScheduleColumns) (cap : Z) (rows : list ScheduledAnnounce) : Prop :=
  cap = Z.of_nat MAX_PENDING ∧ c = columns_of rows ∧ length rows ≤ MAX_PENDING.

Lemma fixed_push_row_ok rows r :
  length rows < MAX_PENDING → fixed_push_row (MAX_PENDING := MAX_PENDING) (columns_of rows) r = Done (Ok (), columns_of (rows ++ [r])).
Proof.
  intros Hl. unfold fixed_push_row. cbn. rewrite length_fmap, (proj2 (Nat.leb_gt _ _)) by done.
  rewrite !hv_push_room by (by rewrite length_fmap). unfold columns_of. by rewrite !fmap_app.
Qed.

Lemma fixed_swap_remove_row_ok rows i :
  i < length rows → fixed_swap_remove_row (columns_of rows) i = Done (columns_of (swap_removed rows i)).
Proof.
  intros Hi. unfold fixed_swap_remove_row. cbn. repeat (rewrite hq_swap_remove by (by rewrite length_fmap); cbn [mbind run_bind]).
  unfold columns_of. by rewrite !fmap_swap_removed.
Qed.

Lemma scan_directed (rows : list ScheduledAnnounce) d :
  is_Some (fst <$> list_find (λ e, e.1 = d ∧ is_Some e.2) (zip (sa_destination <$> rows) (sa_directed_to <$> rows)))
  ↔ ∃ r, r ∈ rows ∧ sa_destination r = d ∧ is_Some (sa_directed_to r).
Proof.
  rewrite fmap_is_Some, zip_with_fmap_l, zip_with_fmap_r, zip_with_diag. split.
  - intros [[i e] (Hi & [He1 He2] & _)%list_find_Some]. rewrite list_lookup_fmap in Hi. destruct (rows !! i) as [r|] eqn:Hr; [|done].
    injection Hi as <-. exists r. split; [by eapply list_elem_of_lookup_2|done].
  - intros (r & Hr & Hd & Hs). eapply (list_find_elem_of _ _ (sa_destination r, sa_directed_to r)); [|done].
    apply list_elem_of_fmap. by exists r.
Qed.

#[global] Instance fixed_rows_laws : AnnounceRowsLaws ScheduleColumns (H := fixed_announce_rows (MAX_PENDING := MAX_PENDING)).
Proof.
  refine {| ar_rep := fixed_rows_rep |}.
  - by intros t cap rows (_ & -> & _).
  - intros t cap rows (-> & _ & Hl). lia.
  - intros t cap rows rows' (-> & -> & Hl) Hd _. split; [done|]. split; [done|]. rewrite <- (length_fmap sa_destination rows'), Hd, length_fmap. done.
  - intros t cap rows d (-> & -> & Hl). cbn. destruct (scan_destination rows d) as [(i & r & E & Hr)|[E Hn]].
    + left. exists i, r. by rewrite E.
    + right. by rewrite E.
  - intros t cap rows d (-> & -> & Hl) _. cbn. eexists. split; [done|]. apply scan_directed.
  - intros t cap rows r (-> & -> & Hl) Hlt _. cbn. rewrite fixed_push_row_ok by lia. eexists. split; [done|]. split; [done|]. split; [done|].
    rewrite length_app. cbn. lia.
  - intros t cap rows r (-> & -> & Hl) He _. cbn. unfold fixed_push_row. cbn. rewrite length_fmap, (proj2 (Nat.leb_le _ _)) by lia. done.
  - intros t cap rows i (-> & -> & Hl) Hi. cbn. rewrite fixed_swap_remove_row_ok by done. eexists. split; [done|]. split; [done|]. split; [done|].
    rewrite length_swap_removed by done. lia.
  - intros t cap rows i r due_at (-> & -> & Hl) Hi. cbn. rewrite (set_due_column_ok rows i r due_at Hi). eexists. split; [done|]. split; [done|]. split; [done|].
    by rewrite length_insert.
  - intros t cap rows (-> & -> & Hl). cbn. eexists. split; [done|]. done.
  - intros t cap rows now (-> & -> & Hl). cbn. eexists _, _. split; [done|]. split; [done|].
    destruct (list_find _ _) as [[i due]|] eqn:E; cbn.
    + apply list_find_Some in E as (Hi & Hle & _). rewrite list_lookup_fmap in Hi. destruct (rows !! i) as [r|]; [|done]. injection Hi as <-. by exists r.
    + apply list_find_None in E. rewrite Forall_fmap in E. eapply list.Forall_impl; [exact E|]. cbn. lia.
  - intros t cap rows now Hr. cbn. by exists true, t.
  - intros t cap rows Hr. done.
  - intros t cap rows held flood (-> & -> & Hl) Hlt. cbn. apply hv_push_room. lia.
  - intros held j Hj. cbn. by apply hq_swap_remove.
Defined.

Lemma fixed_queue_new_rep : ar_rep (AnnounceRowsLaws := fixed_rows_laws) (q_rows fixed_queue_new) (Z.of_nat MAX_PENDING) [].
Proof. split; [done|]. split; [done|]. cbn. lia. Qed.
End fixed.

(** * Growing vectors *)

Record heap_rows_rep (t : HeapAnnounceRows) (cap : Z) (rows : list ScheduledAnnounce) : Prop := {
  hrr_cap : cap = usize_max;
  hrr_columns : hr_columns t = columns_of rows;
  hrr_index : LemireIndex.Heap.heap_rep (hr_index t) (sa_destination <$> rows);
  hrr_due : kept (deadline_in Some (sa_due_at <$> rows)) (hr_due_index t) (length (sa_due_at <$> rows));
  hrr_max : (Z.of_nat (length rows) ≤ u32_max)%Z;
}.

Lemma heap_push_row_ok t cap rows r :
  heap_rows_rep t cap rows → (Z.of_nat (length rows) < u32_max)%Z →
  ∃ t', heap_push_row t r = Done (Ok (), t') ∧ heap_rows_rep t' cap (rows ++ [r]).
Proof.
  intros [-> Hc Hix Hd Hmax] Hlt. unfold heap_push_row. rewrite Hc. cbn. rewrite length_fmap.
  destruct (heap_index_push (hr_index t) (sa_destination <$> rows) (sa_destination r) Hix) as (slots & E & Hix'); [by rewrite length_fmap|].
  rewrite length_fmap in E. unfold DestinationHash in *. rewrite E. cbn [mbind run_bind].
  destruct (insert_column Some (hr_due_index t) (sa_due_at <$> rows) (sa_due_at r) Hd) as (ix & E' & Hd'). rewrite length_fmap in E'.
  rewrite E'. cbn [mbind run_bind]. eexists. split; [done|].
  split; cbn [hr_columns hr_index hr_due_index]; unfold columns_of; rewrite ?fmap_app; try done. rewrite length_app. cbn. lia.
Qed.

Lemma heap_swap_remove_row_ok t cap rows i :
  heap_rows_rep t cap rows → i < length rows →
  ∃ t', heap_swap_remove_row t i = Done t' ∧ heap_rows_rep t' cap (swap_removed rows i).
Proof.
  intros [-> Hc Hix Hd Hmax] Hi. unfold heap_swap_remove_row, due_in. rewrite Hc. cbn. rewrite length_fmap, (proj2 (Nat.leb_gt _ _)) by done.
  destruct (heap_index_swap (hr_index t) (sa_destination <$> rows) i Hix) as (slots1 & slots2 & E1 & E2 & Hix'); [by rewrite length_fmap..|].
  unfold DestinationHash in *. rewrite E1. cbn [mbind run_bind]. rewrite length_fmap in E2. rewrite E2. cbn [mbind run_bind].
  destruct (swap_remove_column Some (hr_due_index t) (sa_due_at <$> rows) i Hd) as (ix & E & Hd'); [by rewrite length_fmap|].
  rewrite length_fmap in E. rewrite E. cbn [mbind run_bind]. repeat (rewrite vec_swap_remove_done by (by rewrite length_fmap); cbn [mbind run_bind]).
  eexists. split; [done|]. rewrite <- !fmap_swap_removed in *.
  split; cbn [hr_columns hr_index hr_due_index]; try done. rewrite length_swap_removed by done. lia.
Qed.

Lemma heap_set_due_at_ok t cap rows i r due_at :
  heap_rows_rep t cap rows → rows !! i = Some r →
  ∃ t', heap_set_due_at t i due_at = Done t' ∧ heap_rows_rep t' cap (<[i := with_due_at due_at r]> rows).
Proof.
  intros [-> Hc Hix Hd Hmax] Hi. pose proof (lookup_lt_Some _ _ _ Hi) as Hlt. unfold heap_set_due_at. rewrite Hc, (set_due_column_ok rows i r due_at Hi). cbn [mbind run_bind].
  set (rows' := <[i := with_due_at due_at r]> rows).
  assert (Hl' : length (sa_due_at <$> rows') = length (sa_due_at <$> rows)) by (unfold rows'; by rewrite !length_fmap, length_insert).
  assert (Hi' : rows' !! i = Some (with_due_at due_at r)) by (by apply list_lookup_insert_eq).
  destruct (update_kept (deadline_in Some (sa_due_at <$> rows)) (deadline_in Some (sa_due_at <$> rows')) (hr_due_index t) (length (sa_due_at <$> rows)) i Hd)
    as (ix & E & Hd').
  - by rewrite length_fmap.
  - intros j _ Hj. unfold deadline_in. rewrite !list_lookup_fmap. unfold rows'. by rewrite list_lookup_insert_ne.
  - rewrite (deadline_at Some (sa_due_at <$> rows') i due_at) in E by (by rewrite list_lookup_fmap, Hi').
    cbn. rewrite E. cbn [mbind run_bind]. eexists. split; [done|]. split; cbn [hr_columns hr_index hr_due_index]; try done.
    + unfold rows'. by rewrite (same_field sa_destination rows i r _ Hi).
    + by rewrite Hl'.
    + unfold rows'. by rewrite length_insert.
Qed.

(** A query leaves the rows as they are. *)
Lemma with_due_index_ok {A} t cap rows (query : run (A * DeadlineHeap.HeapDeadlineIndex)) a ix :
  heap_rows_rep t cap rows → query = Done (a, ix) → kept (deadline_in Some (sa_due_at <$> rows)) ix (length (sa_due_at <$> rows)) →
  ∃ t', with_due_index t query = Done (a, t') ∧ heap_rows_rep t' cap rows.
Proof. intros [-> Hc Hix Hd Hmax] -> Hix'. unfold with_due_index. cbn [mbind run_bind]. eexists. split; [done|]. by split. Qed.

Lemma heap_index_of_ok t cap rows d :
  heap_rows_rep t cap rows →
  (∃ i r, heap_index_of t d = Done (Some i) ∧ rows !! i = Some r ∧ sa_destination r = d)
  ∨ (heap_index_of t d = Done None ∧ d ∉ sa_destination <$> rows).
Proof.
  intros [-> Hc Hix Hd Hmax]. unfold heap_index_of. rewrite Hc. cbn.
  destruct (heap_get_ids (hr_index t) (sa_destination <$> rows) d Hix) as [(i & E & Hi)|[E Hn]]; [left|by right].
  rewrite list_lookup_fmap in Hi. destruct (rows !! i) as [r|] eqn:Er; [|done]. injection Hi as Hi. by exists i, r.
Qed.

#[global] Instance heap_rows_laws : AnnounceRowsLaws HeapAnnounceRows.
Proof.
  refine {| ar_rep := heap_rows_rep |}.
  - intros t cap rows Hr. exact (hrr_columns _ _ _ Hr).
  - intros t cap rows Hr. rewrite (hrr_cap _ _ _ Hr). pose proof (hrr_max _ _ _ Hr). width.
  - intros t cap rows rows' [-> Hc Hix Hd Hmax] Hk Ha. split; cbn; try done.
    + by rewrite Hk.
    + by rewrite Ha.
    + rewrite <- (length_fmap sa_destination rows'), Hk, length_fmap. done.
  - intros t cap rows d Hr. by eapply heap_index_of_ok.
  - intros t cap rows d Hr Hnd. cbn [ar_active_directed_index heap_announce_rows]. destruct (heap_index_of_ok t cap rows d Hr) as [(i & r & -> & Hi & Hk)|[-> Hn]]; cbn [mbind run_bind].
    + rewrite (hrr_columns _ _ _ Hr). cbn. rewrite (index_field _ _ _ _ Hi). cbn [mbind run_bind]. eexists. split; [done|]. case_bool_decide as Hs.
      * split; [intros _|done]. exists r. split; [by eapply list_elem_of_lookup_2|done].
      * split; [by intros [? ?]|]. intros (r' & Hr' & Hk' & Hs'). destruct Hs. apply list_elem_of_lookup in Hr' as [j Hj].
        assert (i = j) as <-; [|rewrite Hi in Hj; by injection Hj as <-].
        eapply (NoDup_lookup (sa_destination <$> rows)); [done|by rewrite list_lookup_fmap, Hi|rewrite list_lookup_fmap, Hj; cbn; by rewrite Hk', Hk].
    + eexists. split; [done|]. split; [by intros [? ?]|]. intros (r & Hr' & Hk & _). destruct Hn. apply list_elem_of_fmap. by exists r.
  - intros t cap rows r Hr _ Hlt. by apply heap_push_row_ok.
  - intros t cap rows r Hr _ Hc. rewrite (hrr_cap _ _ _ Hr) in Hc. width.
  - intros t cap rows i Hr Hi. by apply heap_swap_remove_row_ok.
  - intros t cap rows i r due_at Hr Hi. by apply heap_set_due_at_ok.
  - intros t cap rows Hr. cbn. unfold due_in. rewrite (hrr_columns _ _ _ Hr). cbn.
    destruct (earliest_column Some (hr_due_index t) (sa_due_at <$> rows) (hrr_due _ _ _ Hr)) as (ix & E & Hd).
    destruct (with_due_index_ok t cap rows _ _ ix Hr E Hd) as (t' & -> & Hr'). exists t'. split; [|done]. do 3 f_equal.
    clear. induction rows as [|r rows IH]; [done|]. cbn. by rewrite IH.
  - intros t cap rows now Hr. cbn. unfold due_in. rewrite (hrr_columns _ _ _ Hr). cbn.
    destruct (first_due_column Some (hr_due_index t) (sa_due_at <$> rows) now (hrr_due _ _ _ Hr)) as (found & ix & E & Hd & Hf).
    destruct (with_due_index_ok t cap rows _ found ix Hr E Hd) as (t' & -> & Hr'). exists found, t'. split; [done|]. split; [done|].
    destruct found as [i|].
    + destruct Hf as (a & at_ & Hi & [= ->] & Hle). rewrite list_lookup_fmap in Hi. destruct (rows !! i) as [r|]; [|done]. injection Hi as <-. by exists r.
    + apply list.Forall_forall. intros r Hin. apply (Hf (sa_due_at r)); [|done]. apply list_elem_of_fmap. by exists r.
  - intros t cap rows now Hr. cbn. unfold due_in. rewrite (hrr_columns _ _ _ Hr). cbn.
    destruct (prefers_linear_cull_kept _ _ _ now (hrr_due _ _ _ Hr)) as (b & ix & E & Hd).
    destruct (with_due_index_ok t cap rows _ b ix Hr E Hd) as (t' & -> & Hr'). by exists b, t'.
  - intros t cap rows [-> Hc Hix Hd Hmax]. split; try done.
  - intros t cap rows held flood Hr _. done.
  - intros held j Hj. cbn. by apply vec_swap_remove_done.
Defined.

Lemma heap_queue_default_rep : ar_rep (q_rows heap_queue_default) usize_max [].
Proof. split; cbn; try done; [exact heap_index_new|apply kept_default]. Qed.
