(* ===== verification/AnnounceSchedulePlan.v ===== *)
(** What the announce queues ([AnnounceSchedule]) promise: a plan of one active announce per destination and at
    most one parked behind it, as finite maps; both queues refine it. *)

From stdpp Require Import gmap.
From S2P Require Import AppData Prelude Columns KeyedMap Routes ChannelTable Lifetime RowTable AnnounceSchedule AnnounceScheduleRows.

(** * The specification *)

Record plan := mkPlan { p_active : gmap DestinationHash ScheduledAnnounce; p_held : gmap DestinationHash ScheduledAnnounce }.

Inductive schedule_op :=
  | Flood (our_emission_count : Z) (d : DestinationHash) (due_at : Z) (source : InterfaceId) (hops : Z)
  | Answer (our_emission_count : Z) (d : DestinationHash) (due_at : Z) (target : InterfaceId) (hops : Z)
  | Cancel (d : DestinationHash)
  | Drain (now : Z)
  | Advance (now interval max : Z)
  | Echo (d : DestinationHash) (received_hops now max : Z).
Inductive schedule_answer :=
  | Scheduled (outcome : ScheduleOutcome) | Cancelled (c : ScheduleCancellation) | Drained (removed : nat)
  | Advanced (completed : nat) | Echoed (outcome : EchoOutcome).

Definition planned_outcome (p : plan) (d : DestinationHash) : schedule_answer :=
  Scheduled (if bool_decide (is_Some (p_active p !! d)) then Updated else Inserted).

Definition plan_flood (p : plan) (our : Z) d due source hops : schedule_answer * plan :=
  (planned_outcome p d, mkPlan (<[d := mkScheduled d due source hops our 0 None]> (p_active p)) (delete d (p_held p))).

(** The flood that an answer displaces is parked. *)
Definition parked_by (p : plan) (d : DestinationHash) : gmap DestinationHash ScheduledAnnounce :=
  match p_active p !! d with
  | Some flood => if bool_decide (is_Some (sa_directed_to flood)) then p_held p else <[d := flood]> (p_held p)
  | None => p_held p
  end.
Definition plan_answer (p : plan) (our : Z) d due target hops : schedule_answer * plan :=
  (planned_outcome p d, mkPlan (<[d := mkScheduled d due target hops our 0 (Some target)]> (p_active p)) (parked_by p d)).

Definition plan_cancel (p : plan) d : schedule_answer * plan :=
  (Cancelled (mkCancellation (bool_decide (is_Some (p_active p !! d))) (bool_decide (is_Some (p_held p !! d)))),
   mkPlan (delete d (p_active p)) (delete d (p_held p))).

Definition not_due (now : Z) (r : ScheduledAnnounce) : option ScheduledAnnounce := if (sa_due_at r <=? now)%Z then None else Some r.
Definition plan_drain (p : plan) (now : Z) : schedule_answer * plan :=
  let left := omap (not_due now) (p_active p) in
  (Drained (size (p_active p) - size left), mkPlan left (p_held p)).

(** What becomes of an active announce; [parked]: is a flood of its destination parked? *)
Definition advanced (parked : DestinationHash → bool) (now next_due max : Z) (r : ScheduledAnnounce) : option ScheduledAnnounce :=
  if (sa_due_at r <=? now)%Z then
    if bool_decide (is_Some (sa_directed_to r)) && parked (sa_destination r) then None else
    let count := saturating_add 8 (sa_our_emission_count r) 1 in
    if (max <=? count)%Z then None else Some (with_due_at next_due (with_our_emission_count count r))
  else Some r.

Definition answered (active : gmap DestinationHash ScheduledAnnounce) (d : DestinationHash) : bool :=
  match active !! d with Some r => bool_decide (is_Some (sa_directed_to r)) | None => false end.
(** A parked flood stays while its answer is active, and is active again otherwise. *)
Definition stays_parked (active : gmap DestinationHash ScheduledAnnounce) (f : ScheduledAnnounce) : option ScheduledAnnounce :=
  if answered active (sa_destination f) then Some f else None.
Definition comes_back (active : gmap DestinationHash ScheduledAnnounce) (f : ScheduledAnnounce) : option ScheduledAnnounce :=
  if answered active (sa_destination f) then None else Some f.

Definition plan_advance (p : plan) (now interval max : Z) : schedule_answer * plan :=
  let next_due := saturating_add 64 now interval in
  let left := omap (advanced (λ d, bool_decide (is_Some (p_held p !! d))) now next_due max) (p_active p) in
  (Advanced (size (p_active p) - size left),
   mkPlan (left ∪ omap (comes_back left) (p_held p)) (omap (stays_parked left) (p_held p))).

Definition plan_echo (p : plan) d (received_hops now max : Z) : schedule_answer * plan :=
  match p_active p !! d with
  | None => (Echoed NoPendingEntry, p)
  | Some r =>
      let below := saturating_sub received_hops 1 in
      let emitted := (0 <? sa_our_emission_count r)%Z in
      let peers := saturating_add 8 (sa_peer_emission_count r) 1 in
      let without := mkPlan (delete d (p_active p)) (p_held p) in
      if (below =? sa_hops r)%Z then
        if emitted && (max <=? peers)%Z then (Echoed RetransmitCancelled, without)
        else (Echoed PeerEmissionCounted, mkPlan (<[d := with_peer_emission_count peers r]> (p_active p)) (p_held p))
      else if (below =? saturating_add 8 (sa_hops r) 1)%Z && emitted && (now <? sa_due_at r)%Z then (Echoed RetransmitCancelled, without)
      else (Echoed HopsUnrelated, p)
  end.

Definition plan_step (p : plan) (op : schedule_op) : schedule_answer * plan :=
  match op with
  | Flood our d due source hops => plan_flood p our d due source hops
  | Answer our d due target hops => plan_answer p our d due target hops
  | Cancel d => plan_cancel p d
  | Drain now => plan_drain p now
  | Advance now interval max => plan_advance p now interval max
  | Echo d hops now max => plan_echo p d hops now max
  end.

Fixpoint plan_all (p : plan) (ops : list schedule_op) : list schedule_answer * plan :=
  match ops with
  | [] => ([], p)
  | op :: ops => let '(a, p) := plan_step p op in let '(answers, p) := plan_all p ops in (a :: answers, p)
  end.

(** ** What plans keep: one announce per destination, and only answers before parked floods *)

Definition op_destination (op : schedule_op) : option DestinationHash :=
  match op with Flood _ d _ _ _ | Answer _ d _ _ _ | Cancel d | Echo d _ _ _ => Some d | Drain _ | Advance _ _ _ => None end.

Record plan_ok (universe : list DestinationHash) (p : plan) : Prop := {
  po_active : map_Forall (λ d r, sa_destination r = d ∧ d ∈ universe) (p_active p);
  po_held : map_Forall (λ d f, sa_destination f = d ∧ d ∈ universe) (p_held p);
  po_behind : ∀ d r, is_Some (p_held p !! d) → p_active p !! d = Some r → is_Some (sa_directed_to r);
}.

Lemma delete_ok universe p d : plan_ok universe p → plan_ok universe (mkPlan (delete d (p_active p)) (p_held p)).
Proof.
  intros [Ha Hh Hb]. split; cbn; [by apply map_Forall_delete|done|]. intros d' r Hs Hr. apply lookup_delete_Some in Hr as [_ Hr]. by apply (Hb d').
Qed.

Lemma omap_ok universe p (f : ScheduledAnnounce → option ScheduledAnnounce) :
  (∀ r r', f r = Some r' → sa_destination r' = sa_destination r ∧ sa_directed_to r' = sa_directed_to r) →
  plan_ok universe p → plan_ok universe (mkPlan (omap f (p_active p)) (p_held p)).
Proof.
  intros Hf [Ha Hh Hb]. split; cbn; [|done|].
  - intros d r' (r & Hfr & Hr)%lookup_omap_Some. destruct (Hf r r' Hfr) as [-> _]. by apply (Ha d).
  - intros d r' Hs (r & Hfr & Hr)%lookup_omap_Some. destruct (Hf r r' Hfr) as [_ ->]. by apply (Hb d).
Qed.

Lemma advanced_same parked now next_due max r r' :
  advanced parked now next_due max r = Some r' → sa_destination r' = sa_destination r ∧ sa_directed_to r' = sa_directed_to r.
Proof. unfold advanced. repeat case_match; by intros [= <-]. Qed.
Lemma not_due_same now r r' : not_due now r = Some r' → sa_destination r' = sa_destination r ∧ sa_directed_to r' = sa_directed_to r.
Proof. unfold not_due. case_match; by intros [= <-]. Qed.

Lemma restored_ok universe p :
  plan_ok universe p →
  plan_ok universe (mkPlan (p_active p ∪ omap (comes_back (p_active p)) (p_held p)) (omap (stays_parked (p_active p)) (p_held p))).
Proof.
  intros [Ha Hh Hb]. split; cbn.
  - intros d r [Hr|[_ (f & Hf & Hd)%lookup_omap_Some]]%lookup_union_Some_raw; [by apply (Ha d)|]. unfold comes_back in Hf. case_match; [done|].
    injection Hf as <-. by apply (Hh d).
  - intros d f (f' & Hf & Hd)%lookup_omap_Some. unfold stays_parked in Hf. case_match; [|done]. injection Hf as <-. by apply (Hh d).
  - intros d r [f (f' & Hf & Hd)%lookup_omap_Some] Hr. unfold stays_parked, answered in Hf. rewrite (proj1 (Hh d f' Hd)) in Hf.
    apply lookup_union_Some_raw in Hr as [Hr|[Hr _]]; rewrite Hr in Hf; [|done]. by case_bool_decide.
Qed.

Lemma plan_step_ok universe p op :
  plan_ok universe p → from_option (λ d, d ∈ universe) True (op_destination op) → plan_ok universe (plan_step p op).2.
Proof.
  intros Hp Hop. destruct op as [our d due source hops|our d due target hops|d|now|now interval max|d hops now max]; cbn in *.
  - destruct Hp as [Ha Hh Hb]. split; cbn; [by apply map_Forall_insert_2|by apply map_Forall_delete|]. intros d' r [f Hf] Hr.
    apply lookup_delete_Some in Hf as [Hne Hf]. rewrite lookup_insert_ne in Hr by done. by apply (Hb d').
  - destruct Hp as [Ha Hh Hb]. assert (Hpark : ∀ d' f, parked_by p d !! d' = Some f → p_held p !! d' = Some f ∨ d' = d ∧ p_active p !! d = Some f).
    { intros d' f. unfold parked_by. destruct (p_active p !! d) as [flood|] eqn:E; [|by left]. case_bool_decide; [by left|].
      intros [[<- <-]|[_ Hf]]%lookup_insert_Some; auto. }
    split; cbn; [by apply map_Forall_insert_2| |].
    + intros d' f [Hf|[-> Hf]]%Hpark; [by apply (Hh d')|by apply (Ha d)].
    + intros d' r [f Hf] Hr. apply lookup_insert_Some in Hr as [[<- <-]|[Hne Hr]]; [by eexists|].
      apply Hpark in Hf as [Hf|[-> _]]; [|done]. apply (Hb d'); [by eexists|done].
  - apply (delete_ok universe p d) in Hp as [Ha Hh Hb]. split; cbn in *; [done|by apply map_Forall_delete|]. intros d' r [f Hf] Hr.
    apply (Hb d'); [|done]. by apply lookup_delete_Some in Hf as [_ ?].
  - apply omap_ok; [apply not_due_same|done].
  - unfold plan_advance. cbn. set (left := omap _ (p_active p)).
    apply (restored_ok universe (mkPlan left (p_held p))), omap_ok; [apply advanced_same|done].
  - unfold plan_echo. destruct (p_active p !! d) as [r|] eqn:Hd; [|done]. cbn zeta. destruct (_ =? _)%Z; [destruct (_ && _)|destruct (_ && _)]; cbn; try done; try by apply delete_ok.
    destruct Hp as [Ha Hh Hb]. split; cbn; [|done|].
    + apply map_Forall_insert_2; [|done]. split; [|done]. exact (proj1 (Ha d r Hd)).
    + intros d' r' Hs [[<- <-]|[Hne Hr]]%lookup_insert_Some; [by apply (Hb d r)|by apply (Hb d')].
Qed.

(** * The queues *)

Section refinement.
Context {T : Type} `{!AnnounceRows T} `{!AnnounceRowsLaws T}.
Implicit Types (q : ScheduledAnnounceQueue T) (t : T) (rows held : list ScheduledAnnounce).

Definition op_do q (op : schedule_op) : run (schedule_answer * ScheduledAnnounceQueue T) :=
  match op with
  | Flood our d due source hops => '(outcome, q) ← schedule_with q our d due source hops; Done (Scheduled outcome, q)
  | Answer our d due target hops => '(outcome, q) ← schedule_directed_with q our d due target hops; Done (Scheduled outcome, q)
  | Cancel d => '(c, q) ← cancel q d; Done (Cancelled c, q)
  | Drain now => '(removed, q) ← drain_due q now; Done (Drained removed, q)
  | Advance now interval max => '(completed, q) ← advance_due_retransmits q now interval max; Done (Advanced completed, q)
  | Echo d hops now max => '(outcome, q) ← absorb_echo q d hops now max; Done (Echoed outcome, q)
  end.

Abbreviation keys := (fmap sa_destination).
Abbreviation entries_of := (entries sa_destination).

Lemma refresh_queue t cap rows held :
  ar_rep t cap rows → ∃ t', refresh_earliest t held = Done (mkQueue t' held (minimum (sa_due_at <$> rows))) ∧ ar_rep t' cap rows.
Proof. intros Hr. unfold refresh_earliest. destruct (ar_earliest_ok t cap rows Hr) as (t' & -> & Hr'). cbn [mbind run_bind]. by exists t'. Qed.

(** ** Scheduling *)

Lemma upsert_ok t cap rows held d due source hops directed our :
  ar_rep t cap rows → NoDup (keys rows) → ((d ∉ keys rows) → (Z.of_nat (length rows) < cap)%Z ∧ (Z.of_nat (length rows) < u32_max)%Z) →
  ∃ t' rows', upsert t held d due source hops directed our
      = Done (if bool_decide (is_Some (entries_of rows !! d)) then Updated else Inserted, mkQueue t' held (minimum (sa_due_at <$> rows')))
    ∧ ar_rep t' cap rows' ∧ NoDup (keys rows')
    ∧ entries_of rows' = <[d := mkScheduled d due source hops our 0 directed]> (entries_of rows).
Proof.
  intros Hr Hnd Hroom. unfold upsert. destruct (ar_index_of_ok t cap rows d Hr) as [(i & r & -> & Hi & Hk)|[-> Hn]]; cbn [mbind run_bind].
  - destruct (ar_set_due_ok t cap rows i r due Hr Hi) as (t1 & -> & Hr1). cbn [mbind run_bind].
    pose proof (lookup_lt_Some _ _ _ Hi) as Hlt. set (rows1 := <[i := with_due_at due r]> rows) in *.
    assert (Hi1 : rows1 !! i = Some (with_due_at due r)) by (by apply list_lookup_insert_eq).
    rewrite (ar_columns_ok _ _ _ Hr1), (set_entry_ok rows1 i _ source hops our directed Hi1). cbn [mbind run_bind].
    set (r' := mkScheduled _ _ source hops our 0 directed).
    assert (Hr2 : ar_rep (ar_with_columns t1 (columns_of (<[i := r']> rows1))) cap (<[i := r']> rows1)).
    { apply (ar_with_ok t1 cap rows1); [done| |]; by apply (same_field _ _ _ _ _ Hi1). }
    destruct (refresh_queue _ cap _ held Hr2) as (t3 & -> & Hr3). cbn [mbind run_bind].
    assert (Hrows : <[i := r']> rows1 = <[i := r']> rows) by apply list_insert_insert_eq. rewrite Hrows in *.
    destruct (entries_overwrite sa_destination rows i r r' Hnd Hi eq_refl) as [He Hnd'].
    exists t3, (<[i := r']> rows). rewrite bool_decide_true by (rewrite <- Hk, (entries_some _ rows r Hnd) by (by eapply list_elem_of_lookup_2); done).
    split; [done|]. split; [done|]. split; [done|]. rewrite He, Hk. unfold r'. cbn. by rewrite Hk.
  - destruct (Hroom Hn) as [Hcap Hmax]. set (r' := mkScheduled d due source hops our 0 directed).
    destruct (ar_push_ok t cap rows r' Hr Hcap Hmax) as (t1 & -> & Hr1). cbn [mbind run_bind].
    destruct (refresh_queue t1 cap _ held Hr1) as (t2 & -> & Hr2). cbn [mbind run_bind].
    destruct (entries_snoc sa_destination rows r' Hnd Hn) as [He Hnd']. exists t2, (rows ++ [r']).
    rewrite bool_decide_false by (rewrite (proj1 (entries_none _ rows d) Hn); by intros [? ?]). done.
Qed.

(** ** Parked floods *)

Lemma held_position_ok held d :
  NoDup (keys held) →
  match held_position held d with
  | Some j => ∃ f, held !! j = Some f ∧ sa_destination f = d ∧ entries_of held !! d = Some f
  | None => entries_of held !! d = None
  end.
Proof.
  intros Hnd. unfold held_position. destruct (list_find _ held) as [[j f]|] eqn:E; cbn.
  - apply list_find_Some in E as (Hj & <- & _). exists f. split; [done|]. split; [done|]. apply entries_some; [done|]. by eapply list_elem_of_lookup_2.
  - apply list_find_None in E. apply entries_none. intros (f & -> & Hf)%list_elem_of_fmap. rewrite list.Forall_forall in E. by apply (E f).
Qed.

Lemma clear_held_ok held d :
  NoDup (keys held) →
  ∃ held', clear_held (T := T) held d = Done held' ∧ NoDup (keys held') ∧ entries_of held' = delete d (entries_of held).
Proof.
  intros Hnd. unfold clear_held. pose proof (held_position_ok held d Hnd) as Hp. destruct (held_position held d) as [j|].
  - destruct Hp as (f & Hj & Hk & _). rewrite ar_held_remove_ok by (by eapply lookup_lt_Some). eexists. split; [done|].
    destruct (entries_removed sa_destination held j f Hnd Hj) as [-> Hnd']. by rewrite Hk.
  - exists held. split; [done|]. split; [done|]. by rewrite delete_id.
Qed.

Lemma held_contains_ok held d : NoDup (keys held) → held_contains held d = bool_decide (is_Some (entries_of held !! d)).
Proof.
  intros Hnd. unfold held_contains. destruct (existsb _ held) eqn:E; symmetry.
  - apply bool_decide_eq_true. apply existsb_exists in E as (f & Hf%list_elem_of_In & Hd%bool_decide_eq_true). rewrite <- Hd.
    rewrite (entries_some _ held f Hnd Hf). by eexists.
  - apply bool_decide_eq_false. intros [f Hf]. apply entries_row in Hf as [Hf Hd]. assert (existsb (λ entry, bool_decide (sa_destination entry = d)) held = true); [|congruence].
    apply existsb_exists. exists f. split; [by apply list_elem_of_In|]. by apply bool_decide_eq_true.
Qed.

(** The row of a destination, found and removed. *)
Lemma remove_found t cap rows i r :
  ar_rep t cap rows → NoDup (keys rows) → rows !! i = Some r →
  ∃ t', ar_swap_remove_row t i = Done t' ∧ ar_rep t' cap (swap_removed rows i) ∧ NoDup (keys (swap_removed rows i))
    ∧ entries_of (swap_removed rows i) = delete (sa_destination r) (entries_of rows).
Proof.
  intros Hr Hnd Hi. destruct (ar_swap_ok t cap rows i Hr) as (t' & -> & Hr'); [by eapply lookup_lt_Some|]. exists t'.
  destruct (entries_removed sa_destination rows i r Hnd Hi) as [-> Hnd']. done.
Qed.

Lemma park_ok t cap rows held d :
  ar_rep t cap rows → NoDup (keys rows) → NoDup (keys held) →
  (∀ r, entries_of rows !! d = Some r → sa_directed_to r = None → entries_of held !! d = None ∧ (Z.of_nat (length held) < cap)%Z) →
  ∃ t' rows' held', park_displaced_flood t held d = Done (t', held')
    ∧ ar_rep t' cap rows' ∧ NoDup (keys rows') ∧ NoDup (keys held')
    ∧ entries_of held' = parked_by (mkPlan (entries_of rows) (entries_of held)) d
    ∧ delete d (entries_of rows') = delete d (entries_of rows)
    ∧ (length rows' ≤ length rows)%nat ∧ ((d ∉ keys rows) → rows' = rows).
Proof.
  intros Hr Hnd Hndh Hfree. unfold park_displaced_flood, parked_by. cbn [p_active p_held].
  destruct (ar_index_of_ok t cap rows d Hr) as [(i & r & -> & Hi & Hk)|[-> Hn]]; cbn [mbind run_bind].
  2: { exists t, rows, held. rewrite (proj1 (entries_none _ rows d) Hn). done. }
  assert (Hd : entries_of rows !! d = Some r) by (rewrite <- Hk; apply entries_some; [done|by eapply list_elem_of_lookup_2]).
  rewrite (ar_columns_ok _ _ _ Hr). cbn [columns_of sc_directed_to]. rewrite (index_field _ _ _ _ Hi). cbn [mbind run_bind]. rewrite Hd.
  case_bool_decide as Hdir.
  { exists t, rows, held. done. }
  rewrite (row_ok rows i r Hi). cbn [mbind run_bind]. destruct (remove_found t cap rows i r Hr Hnd Hi) as (t' & -> & Hr' & Hnd' & He').
  cbn [mbind run_bind]. destruct (Hfree r Hd) as [Hh Hl]; [by apply eq_None_not_Some|]. rewrite (ar_held_push_ok t cap rows held r Hr Hl).
  assert (Hnh : sa_destination r ∉ keys held) by (rewrite Hk; by apply entries_none).
  destruct (entries_snoc sa_destination held r Hndh Hnh) as [Heh Hndh']. exists t', (swap_removed rows i), (held ++ [r]). split; [done|]. split; [done|].
  split; [done|]. split; [done|]. split; [by rewrite Heh, Hk|]. split; [by rewrite He', Hk, delete_delete_eq|].
  split; [rewrite length_swap_removed by (by eapply lookup_lt_Some); lia|]. intros []. apply list_elem_of_fmap. exists r. split; [done|by eapply list_elem_of_lookup_2].
Qed.

(** ** Sweeps

    A sweep drops, keeps or rewrites each row by [f]; rows not yet visited stand behind [i]. *)

Lemma swap_removed_behind {A} (xs : list A) i x :
  xs !! i = Some x → ∃ rest, swap_removed xs i = take i xs ++ rest ∧ rest ≡ₚ drop (S i) xs.
Proof.
  intros Hi. pose proof (lookup_lt_Some _ _ _ Hi) as Hlt. destruct (swap_removed_split xs i Hlt) as (ys & y & -> & ->).
  rewrite length_app in Hlt. cbn in Hlt. destruct (decide (i = length ys)) as [->|Hne].
  - exists []. rewrite list_insert_ge by lia. rewrite take_app_length, app_nil_r. split; [done|]. rewrite drop_ge; [done|]. rewrite length_app. cbn. lia.
  - rewrite insert_take_drop by lia. exists (y :: drop (S i) ys). rewrite take_app_le by lia. split; [done|]. rewrite drop_app_le by lia.
    by rewrite Permutation_app_comm.
Qed.

Lemma swap_removed_insert {A} (xs : list A) i x : i < length xs → swap_removed (<[i := x]> xs) i = swap_removed xs i.
Proof.
  intros Hi. apply list_eq. intros j. destruct (decide (j < length xs - 1)) as [Hj|Hj].
  - rewrite !lookup_swap_removed by (rewrite ?length_insert; lia). rewrite length_insert. case_decide; [|by rewrite list_lookup_insert_ne].
    subst j. by rewrite list_lookup_insert_ne by lia.
  - rewrite !lookup_ge_None_2; [done|rewrite length_swap_removed by done; lia|rewrite length_swap_removed by (by rewrite length_insert); rewrite length_insert; lia].
Qed.

Lemma swept_removed {A} (f : A → option A) (xs : list A) (i : nat) x :
  xs !! i = Some x → f x = None →
  take i (swap_removed xs i) ++ omap f (drop i (swap_removed xs i)) ≡ₚ take i xs ++ omap f (drop i xs).
Proof.
  intros Hi Hf. pose proof (lookup_lt_Some _ _ _ Hi) as Hlt. destruct (swap_removed_behind xs i x Hi) as (rest & -> & Hp).
  assert (Hl : length (take i xs) = i) by (rewrite length_take; lia).
  rewrite take_app_length', drop_app_length' by done. rewrite (drop_S _ _ _ Hi). cbn. by rewrite Hf, Hp.
Qed.

Lemma swept_kept {A} (f : A → option A) (xs : list A) (i : nat) x x' :
  xs !! i = Some x → f x = Some x' →
  take (S i) (<[i := x']> xs) ++ omap f (drop (S i) (<[i := x']> xs)) = take i xs ++ omap f (drop i xs).
Proof.
  intros Hi Hf. pose proof (lookup_lt_Some _ _ _ Hi) as Hlt. rewrite (take_S_r _ _ x') by (by apply list_lookup_insert_eq).
  rewrite take_insert_ge, drop_insert_lt by lia. rewrite (drop_S _ _ _ Hi). cbn. rewrite Hf, <- app_assoc. done.
Qed.

(** The rows dropped are those the sweep leaves out. *)
Lemma swept_all_removed {A} (f : A → option A) (xs : list A) (i : nat) x : xs !! i = Some x → f x = None → omap f (swap_removed xs i) ≡ₚ omap f xs.
Proof.
  intros Hi Hf. transitivity (omap f (x :: swap_removed xs i)); [cbn; by rewrite Hf|]. by rewrite (swap_removed_perm xs i x Hi).
Qed.

Lemma swept_all_kept {A} (f : A → option A) (xs : list A) (i : nat) x x' : xs !! i = Some x → f x = Some x' → f x' = Some x' → omap f (<[i := x']> xs) = omap f xs.
Proof.
  intros Hi Hf Hf'. pose proof (lookup_lt_Some _ _ _ Hi) as Hlt. rewrite <- (take_drop_middle xs i x Hi) at 2.
  rewrite insert_take_drop by done. rewrite !omap_app. cbn. by rewrite Hf, Hf'.
Qed.

Lemma drain_linear_ok fuel t cap rows i removed now :
  ar_rep t cap rows → length rows - i < fuel →
  ∃ t' rows', drain_linear_loop fuel t i removed now = Done (removed + (length rows - length rows'), t') ∧ ar_rep t' cap rows'
    ∧ rows' ≡ₚ take i rows ++ omap (not_due now) (drop i rows) ∧ length rows' ≤ length rows.
Proof.
  revert t rows i removed. induction fuel as [|fuel IH]; intros t rows i removed Hr Hf; [lia|]. cbn [drain_linear_loop].
  rewrite (ar_columns_ok _ _ _ Hr). cbn [columns_of sc_due_at]. rewrite length_fmap. destruct (rows !! i) as [r|] eqn:Hi.
  - pose proof (lookup_lt_Some _ _ _ Hi) as Hlt. rewrite (proj2 (Nat.ltb_lt _ _)) by done. rewrite (index_field _ _ _ _ Hi). cbn [mbind run_bind].
    destruct (sa_due_at r <=? now)%Z eqn:Hdue.
    + destruct (ar_swap_ok t cap rows i Hr Hlt) as (t1 & -> & Hr1). cbn [mbind run_bind]. pose proof (length_swap_removed rows i Hlt).
      destruct (IH t1 _ i (S removed) Hr1) as (t2 & rows2 & -> & Hr2 & Hp & Hl); [lia|]. exists t2, rows2. split; [do 2 f_equal; lia|]. split; [done|].
      split; [|lia]. rewrite Hp. apply (swept_removed _ _ _ r); [done|]. unfold not_due. by rewrite Hdue.
    + destruct (IH t rows (S i) removed Hr) as (t2 & rows2 & -> & Hr2 & Hp & Hl); [lia|]. exists t2, rows2. split; [done|]. split; [done|]. split; [|done].
      rewrite Hp, <- (swept_kept (not_due now) rows i r r Hi) by (unfold not_due; by rewrite Hdue). by rewrite list_insert_id.
  - rewrite (proj2 (Nat.ltb_ge _ _)) by (by apply lookup_ge_None). exists t, rows. split; [do 2 f_equal; lia|]. split; [done|]. apply lookup_ge_None in Hi.
    by rewrite take_ge, drop_ge, app_nil_r by done.
Qed.

Lemma not_due_all now rows : Forall (λ r, (now < sa_due_at r)%Z) rows → omap (not_due now) rows = rows.
Proof. induction 1 as [|r rows Hr _ IH]; [done|]. cbn. unfold not_due at 1. rewrite (proj2 (Z.leb_gt _ _)) by done. by rewrite IH. Qed.

Lemma drain_indexed_ok fuel t cap rows removed now :
  ar_rep t cap rows → length rows < fuel →
  ∃ t' rows', drain_indexed_loop fuel t removed now = Done (removed + (length rows - length rows'), t') ∧ ar_rep t' cap rows'
    ∧ rows' ≡ₚ omap (not_due now) rows ∧ length rows' ≤ length rows.
Proof.
  revert t rows removed. induction fuel as [|fuel IH]; intros t rows removed Hr Hf; [lia|]. cbn [drain_indexed_loop].
  destruct (ar_first_due_ok t cap rows now Hr) as (found & t1 & -> & Hr1 & Hfound). cbn [mbind run_bind]. destruct found as [i|].
  - destruct Hfound as (r & Hi & Hdue). pose proof (lookup_lt_Some _ _ _ Hi) as Hlt. pose proof (length_swap_removed rows i Hlt).
    destruct (ar_swap_ok t1 cap rows i Hr1 Hlt) as (t2 & -> & Hr2). cbn [mbind run_bind].
    destruct (IH t2 _ (S removed) Hr2) as (t3 & rows3 & -> & Hr3 & Hp & Hl); [lia|]. exists t3, rows3. split; [do 2 f_equal; lia|]. split; [done|].
    split; [|lia]. rewrite Hp. apply (swept_all_removed _ _ _ r); [done|]. unfold not_due. by rewrite (proj2 (Z.leb_le _ _)).
  - exists t1, rows. split; [do 2 f_equal; lia|]. split; [done|]. by rewrite not_due_all.
Qed.

(** ** Sending what is due *)

Lemma advance_row_ok t cap rows held i r now next_due max :
  ar_rep t cap rows → rows !! i = Some r → (sa_due_at r ≤ now)%Z →
  ∃ t', match advanced (held_contains held) now next_due max r with
    | None => advance_row t held i next_due max = Done (true, t') ∧ ar_rep t' cap (swap_removed rows i)
    | Some r' => advance_row t held i next_due max = Done (false, t') ∧ ar_rep t' cap (<[i := r']> rows)
    end.
Proof.
  intros Hr Hi Hdue. pose proof (lookup_lt_Some _ _ _ Hi) as Hlt. unfold advanced, advance_row. rewrite (proj2 (Z.leb_le _ _)) by done.
  rewrite (ar_columns_ok _ _ _ Hr). cbn [columns_of sc_directed_to sc_destination sc_our_emission_count]. repeat (rewrite (index_field _ _ _ _ Hi); cbn [mbind run_bind]).
  destruct (bool_decide _ && _).
  { destruct (ar_swap_ok t cap rows i Hr Hlt) as (t' & -> & Hr'). by exists t'. }
  set (count := saturating_add 8 (sa_our_emission_count r) 1).
  rewrite (set_our_ok rows i r count Hi). cbn [mbind run_bind]. set (r1 := with_our_emission_count count r).
  assert (Hr1 : ar_rep (ar_with_columns t (columns_of (<[i := r1]> rows))) cap (<[i := r1]> rows))
    by (apply (ar_with_ok t cap rows); [done| |]; by apply (same_field _ _ _ _ _ Hi)).
  assert (Hi1 : <[i := r1]> rows !! i = Some r1) by (by apply list_lookup_insert_eq).
  destruct (max <=? count)%Z.
  - destruct (ar_swap_ok _ cap _ i Hr1) as (t' & -> & Hr'); [by rewrite length_insert|]. cbn [mbind run_bind]. exists t'. split; [done|].
    by rewrite swap_removed_insert in Hr'.
  - destruct (ar_set_due_ok _ cap _ i r1 next_due Hr1 Hi1) as (t' & -> & Hr'). cbn [mbind run_bind]. exists t'. split; [done|].
    by rewrite list_insert_insert_eq in Hr'.
Qed.

Lemma advance_linear_ok fuel t cap rows held i completed now next_due max :
  ar_rep t cap rows → length rows - i < fuel →
  ∃ t' rows', advance_linear_loop fuel t held i completed now next_due max = Done (completed + (length rows - length rows'), t') ∧ ar_rep t' cap rows'
    ∧ rows' ≡ₚ take i rows ++ omap (advanced (held_contains held) now next_due max) (drop i rows) ∧ length rows' ≤ length rows.
Proof.
  revert t rows i completed. induction fuel as [|fuel IH]; intros t rows i completed Hr Hf; [lia|]. cbn [advance_linear_loop].
  rewrite (ar_columns_ok _ _ _ Hr). cbn [columns_of sc_due_at]. rewrite length_fmap. destruct (rows !! i) as [r|] eqn:Hi.
  2: { rewrite (proj2 (Nat.ltb_ge _ _)) by (by apply lookup_ge_None). exists t, rows. split; [do 2 f_equal; lia|]. split; [done|]. apply lookup_ge_None in Hi.
    by rewrite take_ge, drop_ge, app_nil_r by done. }
  pose proof (lookup_lt_Some _ _ _ Hi) as Hlt. rewrite (proj2 (Nat.ltb_lt _ _)) by done. rewrite (index_field _ _ _ _ Hi). cbn [mbind run_bind].
  destruct (Z.leb_spec (sa_due_at r) now) as [Hdue|Hdue].
  - destruct (advance_row_ok t cap rows held i r now next_due max Hr Hi Hdue) as [t1 Ha].
    destruct (advanced _ _ _ _ r) as [r'|] eqn:Ef; destruct Ha as [-> Hr1]; cbn [mbind run_bind].
    + destruct (IH t1 _ (S i) completed Hr1) as (t2 & rows2 & -> & Hr2 & Hp & Hl); [rewrite length_insert; lia|]. rewrite length_insert in Hl. rewrite length_insert.
      exists t2, rows2. split; [done|]. split; [done|]. split; [|done]. rewrite Hp. by rewrite (swept_kept _ rows i r r' Hi Ef).
    + pose proof (length_swap_removed rows i Hlt). destruct (IH t1 _ i (S completed) Hr1) as (t2 & rows2 & -> & Hr2 & Hp & Hl); [lia|].
      exists t2, rows2. split; [do 2 f_equal; lia|]. split; [done|]. split; [|lia]. rewrite Hp. by apply (swept_removed _ _ _ r).
  - destruct (IH t rows (S i) completed Hr) as (t2 & rows2 & -> & Hr2 & Hp & Hl); [lia|]. exists t2, rows2. split; [done|]. split; [done|]. split; [|done].
    rewrite Hp, <- (swept_kept (advanced (held_contains held) now next_due max) rows i r r Hi)
      by (unfold advanced; by rewrite (proj2 (Z.leb_gt _ _))). by rewrite list_insert_id.
Qed.

Definition due_rows (now : Z) rows : nat := length (filter (λ r, (sa_due_at r ≤ now)%Z) rows).

Lemma advance_indexed_ok fuel t cap rows held completed now next_due max :
  ar_rep t cap rows → (now < next_due)%Z → due_rows now rows < fuel →
  ∃ t' rows', advance_indexed_loop fuel t held completed now next_due max = Done (completed + (length rows - length rows'), t') ∧ ar_rep t' cap rows'
    ∧ rows' ≡ₚ omap (advanced (held_contains held) now next_due max) rows ∧ length rows' ≤ length rows.
Proof.
  intros Hr Hnext. revert t rows completed Hr. induction fuel as [|fuel IH]; intros t rows completed Hr Hf; [lia|]. cbn [advance_indexed_loop].
  destruct (ar_first_due_ok t cap rows now Hr) as (found & t1 & -> & Hr1 & Hfound). cbn [mbind run_bind]. destruct found as [i|].
  - destruct Hfound as (r & Hi & Hdue). pose proof (lookup_lt_Some _ _ _ Hi) as Hlt.
    assert (Hd : due_rows now rows = S (due_rows now (swap_removed rows i))).
    { unfold due_rows. rewrite <- (swap_removed_perm rows i r Hi) at 1. by rewrite filter_cons_True. }
    destruct (advance_row_ok t1 cap rows held i r now next_due max Hr1 Hi Hdue) as [t2 Ha].
    destruct (advanced _ _ _ _ r) as [r'|] eqn:Ef; destruct Ha as [-> Hr2]; cbn [mbind run_bind].
    + assert (Hlate : (now < sa_due_at r')%Z).
      { unfold advanced in Ef. rewrite (proj2 (Z.leb_le _ _)) in Ef by done. destruct (_ && _); [done|]. destruct (_ <=? _)%Z; [done|]. by injection Ef as <-. }
      assert (Hd' : due_rows now (<[i := r']> rows) = due_rows now (swap_removed rows i)).
      { unfold due_rows. assert (Hi' : <[i := r']> rows !! i = Some r') by (by apply list_lookup_insert_eq).
        rewrite <- (swap_removed_perm (<[i := r']> rows) i r' Hi') at 1. rewrite filter_cons_False by lia. by rewrite swap_removed_insert. }
      destruct (IH t2 _ completed Hr2) as (t3 & rows3 & -> & Hr3 & Hp & Hl); [lia|]. rewrite length_insert in Hl. rewrite length_insert.
      exists t3, rows3. split; [done|]. split; [done|]. split; [|done]. rewrite Hp. rewrite (swept_all_kept _ rows i r r' Hi Ef); [done|].
      unfold advanced. by rewrite (proj2 (Z.leb_gt _ _)).
    + pose proof (length_swap_removed rows i Hlt). destruct (IH t2 _ (S completed) Hr2) as (t3 & rows3 & -> & Hr3 & Hp & Hl); [lia|].
      exists t3, rows3. split; [do 2 f_equal; lia|]. split; [done|]. split; [|lia]. rewrite Hp. by apply (swept_all_removed _ _ _ r).
  - exists t1, rows. split; [do 2 f_equal; lia|]. split; [done|]. split; [|done].
    clear -Hfound. induction Hfound as [|r rows Hd _ IH]; [done|]. cbn. unfold advanced at 1. rewrite (proj2 (Z.leb_gt _ _)) by done. by apply perm_skip.
Qed.

(** ** Parked floods come back *)

Lemma restore_loop_ok (P : ScheduledAnnounce → bool) fuel t cap rows held j :
  ar_rep t cap rows → NoDup (keys rows) → NoDup (keys held) → length held - j < fuel →
  (∀ f, f ∈ drop j held → P f = true ↔ ∃ r, r ∈ rows ∧ sa_destination r = sa_destination f ∧ is_Some (sa_directed_to r)) →
  (∀ f r, f ∈ drop j held → r ∈ rows → sa_destination r = sa_destination f → is_Some (sa_directed_to r)) →
  (Z.of_nat (length rows + length (omap (λ f, if P f then None else Some f) (drop j held))) ≤ cap `min` u32_max)%Z →
  ∃ t' rows' held', restore_orphaned_loop fuel t held j = Done (t', held') ∧ ar_rep t' cap rows' ∧ NoDup (keys rows')
    ∧ rows' ≡ₚ rows ++ omap (λ f, if P f then None else Some f) (drop j held)
    ∧ held' ≡ₚ take j held ++ omap (λ f, if P f then Some f else None) (drop j held).
Proof.
  revert t rows held j. induction fuel as [|fuel IH]; intros t rows held j Hr Hnd Hndh Hf HP Hinv Hroom; [lia|]. cbn [restore_orphaned_loop].
  destruct (held !! j) as [f|] eqn:Hj.
  2: { apply lookup_ge_None in Hj. rewrite (proj2 (Nat.ltb_ge _ _)) by done. exists t, rows, held. rewrite take_ge, drop_ge by done. cbn. by rewrite !app_nil_r. }
  pose proof (lookup_lt_Some _ _ _ Hj) as Hlt. rewrite (proj2 (Nat.ltb_lt _ _)) by done. rewrite (index_lookup _ _ _ Hj). cbn [mbind run_bind].
  rewrite (drop_S _ _ _ Hj) in HP, Hinv, Hroom |- *. destruct (ar_active_ok t cap rows (sa_destination f) Hr Hnd) as (found & -> & Hfound). cbn [mbind run_bind].
  pose proof (HP f ltac:(by left)) as HPf. cbn [omap list_omap] in Hroom |- *. case_bool_decide as Hs.
  - assert (Et : P f = true) by (by apply HPf, Hfound). rewrite Et in Hroom |- *.
    destruct (IH t rows held (S j) Hr Hnd Hndh) as (t' & rows' & held' & -> & Hr' & Hnd' & Hp & Hph); [lia| | |done|].
    + intros f' Hf'. apply HP. by right.
    + intros f' r Hf'. apply Hinv. by right.
    + exists t', rows', held'. split; [done|]. split; [done|]. split; [done|]. split; [done|]. rewrite Hph, (take_S_r _ _ _ Hj), <- app_assoc. done.
  - assert (Ef : P f = false). { apply not_true_is_false. intros Et. apply Hs, Hfound, HPf, Et. } rewrite Ef in Hroom |- *. cbn [length] in Hroom.
    rewrite ar_held_remove_ok by done. cbn [mbind run_bind]. destruct (ar_push_ok t cap rows f Hr) as (t1 & -> & Hr1); [lia|lia|]. cbn [mbind run_bind].
    assert (Hnf : sa_destination f ∉ keys rows).
    { intros (r & Hk & Hin)%list_elem_of_fmap. apply Hs, Hfound. exists r. split; [done|]. split; [done|]. apply (Hinv f r); [by left|done|done]. }
    destruct (entries_snoc sa_destination rows f Hnd Hnf) as [_ Hnd1].
    destruct (swap_removed_behind held j f Hj) as (rest & Hheld & Hrest). assert (Hlj : length (take j held) = j) by (rewrite length_take; lia).
    assert (Hother : ∀ f', f' ∈ rest → f' ∈ drop (S j) held ∧ sa_destination f' ≠ sa_destination f).
    { intros f' Hf'. rewrite Hrest in Hf'. split; [done|]. intros Hk. rewrite <- (take_drop_middle held j f Hj) in Hndh.
      rewrite fmap_app in Hndh. apply list.NoDup_app in Hndh as (_ & _ & Hndh). cbn in Hndh. apply list.NoDup_cons in Hndh as [Hn _]. apply Hn.
      apply list_elem_of_fmap. by exists f'. }
    assert (Hdrop : drop j (swap_removed held j) = rest) by (by rewrite Hheld, drop_app_length').
    destruct (IH t1 (rows ++ [f]) (swap_removed held j) j Hr1 Hnd1) as (t' & rows' & held' & -> & Hr' & Hnd' & Hp & Hph).
    + apply (entries_removed sa_destination held j f Hndh Hj).
    + rewrite length_swap_removed by done. lia.
    + rewrite Hdrop. intros f' Hf'. destruct (Hother f' Hf') as [Hin Hne]. rewrite (HP f') by (by right). split; intros (r & Hrin & Hk & Hd); exists r.
      * split; [apply elem_of_app; by left|done].
      * apply elem_of_app in Hrin as [Hrin|Hrin%list_elem_of_singleton]; [done|]. subst r. by destruct Hne.
    + rewrite Hdrop. intros f' r Hf' Hrin Hk. destruct (Hother f' Hf') as [Hin Hne]. apply elem_of_app in Hrin as [Hrin|Hrin%list_elem_of_singleton].
      * apply (Hinv f' r); [by right|done|done].
      * subst r. by destruct Hne.
    + rewrite Hdrop, Hrest, length_app. cbn [length]. lia.
    + exists t', rows', held'. split; [done|]. split; [done|]. split; [done|]. rewrite Hdrop, Hrest in Hp, Hph. split; [by rewrite Hp, <- app_assoc|].
      by rewrite Hph, Hheld, take_app_length'.
Qed.

(** The floods that come back have destinations of their own. *)
Lemma restored_entries rows held :
  NoDup (keys rows) → NoDup (keys held) →
  (∀ d r, is_Some (entries_of held !! d) → entries_of rows !! d = Some r → is_Some (sa_directed_to r)) →
  NoDup (keys (rows ++ omap (comes_back (entries_of rows)) held))
  ∧ entries_of (rows ++ omap (comes_back (entries_of rows)) held) = entries_of rows ∪ omap (comes_back (entries_of rows)) (entries_of held).
Proof.
  intros Hnd Hndh Hb. assert (Hkey : ∀ f f', comes_back (entries_of rows) f = Some f' → sa_destination f' = sa_destination f)
    by (intros f f'; unfold comes_back; case_match; by intros [= <-]).
  destruct (entries_omap sa_destination (comes_back (entries_of rows)) held _ Hndh Hkey (reflexivity _)) as [He Hndo].
  split; [|by rewrite entries_app, He]. rewrite fmap_app. apply list.NoDup_app. split; [done|]. split; [|done].
  intros d [r Hd]%entries_dom (f' & -> & (f & Hf & Hc)%list_elem_of_omap)%list_elem_of_fmap. rewrite (Hkey f f' Hc) in Hd. unfold comes_back, answered in Hc.
  rewrite Hd in Hc. specialize (Hb (sa_destination f) r). rewrite (entries_some _ held f Hndh Hf) in Hb. rewrite bool_decide_true in Hc; [done|].
  apply Hb; [by eexists|done].
Qed.

(** ** The refinement *)

Record planned q (cap : Z) rows (p : plan) : Prop := {
  pn_rep : ar_rep (q_rows q) cap rows;
  pn_rows : NoDup (keys rows);
  pn_held : NoDup (keys (q_held q));
  pn_earliest : earliest_due_at q = minimum (sa_due_at <$> rows);
  pn_plan : p = mkPlan (entries_of rows) (entries_of (q_held q));
}.

Lemma keys_room (universe : list DestinationHash) rows :
  NoDup (keys rows) → map_Forall (λ d r, sa_destination r = d ∧ d ∈ universe) (entries_of rows) → length rows ≤ length universe.
Proof.
  intros Hnd Hall. rewrite <- (length_fmap sa_destination). apply submseteq_length, NoDup_submseteq; [done|].
  intros d [r Hr]%entries_dom. by apply (Hall d r).
Qed.

Lemma key_room (universe : list DestinationHash) rows d :
  NoDup (keys rows) → map_Forall (λ d r, sa_destination r = d ∧ d ∈ universe) (entries_of rows) → d ∈ universe → (d ∉ keys rows) →
  length rows < length universe.
Proof.
  intros Hnd Hall Hd Hn. rewrite <- (length_fmap sa_destination). cut (length (d :: keys rows) ≤ length universe); [cbn; lia|].
  apply submseteq_length, NoDup_submseteq; [by apply list.NoDup_cons|]. intros d' [->|[r Hr]%entries_dom]%elem_of_cons; [done|]. by apply (Hall d' r).
Qed.

Section steps.
Context (universe : list DestinationHash) (cap : Z).
Hypothesis Hroom : (Z.of_nat (length universe) ≤ cap `min` u32_max)%Z.

Lemma flood_step q rows p our d due source hops :
  planned q cap rows p → plan_ok universe p → d ∈ universe →
  ∃ q' rows', op_do q (Flood our d due source hops) = Done ((plan_flood p our d due source hops).1, q')
    ∧ planned q' cap rows' (plan_flood p our d due source hops).2.
Proof.
  intros [Hr Hnd Hndh He ->] [Ha Hh Hb] Hd. cbn [op_do]. unfold schedule_with.
  destruct (clear_held_ok (q_held q) d Hndh) as (held' & -> & Hndh' & Heh). cbn [mbind run_bind].
  destruct (upsert_ok (q_rows q) cap rows held' d due source hops None our Hr Hnd) as (t' & rows' & -> & Hr' & Hnd' & Her).
  { intros Hn. pose proof (key_room universe rows d Hnd Ha Hd Hn). lia. }
  cbn [mbind run_bind]. eexists _, rows'. split; [done|]. split; cbn [q_rows q_held q_earliest_due earliest_due_at snd plan_flood plan_answer]; try done. by rewrite Her, Heh.
Qed.

Lemma answer_step q rows p our d due target hops :
  planned q cap rows p → plan_ok universe p → d ∈ universe →
  ∃ q' rows', op_do q (Answer our d due target hops) = Done ((plan_answer p our d due target hops).1, q')
    ∧ planned q' cap rows' (plan_answer p our d due target hops).2.
Proof.
  intros [Hr Hnd Hndh He ->] [Ha Hh Hb] Hd. cbn [op_do p_active p_held] in *. unfold schedule_directed_with.
  destruct (park_ok (q_rows q) cap rows (q_held q) d Hr Hnd Hndh) as (t1 & rows1 & held1 & Ep & Hr1 & Hnd1 & Hndh1 & Heh & Hdel & Hl & Hsame).
  { intros r Hact Hdir. destruct (entries_of (q_held q) !! d) as [f|] eqn:Ef.
    - specialize (Hb d r ltac:(by eexists) Hact). rewrite Hdir in Hb. by destruct Hb.
    - split; [done|]. pose proof (key_room universe (q_held q) d Hndh Hh Hd (proj2 (entries_none _ _ _) Ef)). lia. }
  destruct (upsert_ok t1 cap rows1 held1 d due target hops (Some target) our Hr1 Hnd1) as (t2 & rows2 & Eu & Hr2 & Hnd2 & Her).
  { intros Hn1. destruct (decide (d ∈ keys rows)) as [Hin|Hn].
    - assert (length rows1 < length universe); [|lia]. apply (key_room universe rows1 d); [done| |done|done].
      intros d' r Hd'. destruct (decide (d' = d)) as [->|Hne].
      + exfalso. apply Hn1. apply entries_dom. by eexists.
      + apply (Ha d'). rewrite <- (lookup_delete_ne (entries_of rows) d d') by done. rewrite <- Hdel. by rewrite lookup_delete_ne.
    - rewrite (Hsame Hn). pose proof (key_room universe rows d Hnd Ha Hd Hn). lia. }
  assert (Hactive : <[d := mkScheduled d due target hops our 0 (Some target)]> (entries_of rows1) = <[d := mkScheduled d due target hops our 0 (Some target)]> (entries_of rows)).
  { rewrite <- (insert_delete_eq (entries_of rows1)), Hdel. apply insert_delete_eq. }
  unfold plan_answer, planned_outcome. cbn [p_active p_held fst snd].
  destruct (ar_index_of_ok (q_rows q) cap rows d Hr) as [(i & r & -> & Hi & Hk)|[-> Hn]]; cbn [mbind run_bind]; rewrite Ep; cbn [mbind run_bind];
    rewrite Eu; cbn [mbind run_bind].
  - assert (Hact : entries_of rows !! d = Some r) by (rewrite <- Hk; apply entries_some; [done|by eapply list_elem_of_lookup_2]).
    eexists _, rows2. split.
    { rewrite (bool_decide_true (is_Some (entries_of rows !! d))) by (by rewrite Hact). by case_bool_decide. }
    split; cbn [q_rows q_held q_earliest_due earliest_due_at snd plan_flood plan_answer]; try done. by rewrite Her, Heh, Hactive.
  - rewrite (Hsame Hn) in *. eexists _, rows2. split; [done|]. split; cbn [q_rows q_held q_earliest_due earliest_due_at snd plan_flood plan_answer]; try done. by rewrite Her, Heh.
Qed.

Lemma cancel_step q rows p d :
  planned q cap rows p →
  ∃ q' rows', op_do q (Cancel d) = Done ((plan_cancel p d).1, q') ∧ planned q' cap rows' (plan_cancel p d).2.
Proof.
  intros [Hr Hnd Hndh He ->]. cbn [op_do]. unfold cancel, plan_cancel. cbn [p_active p_held fst snd].
  destruct (clear_held_ok (q_held q) d Hndh) as (held' & Eh & Hndh' & Heh). unfold clear_held in Eh.
  assert (Hpos : bool_decide (is_Some (held_position (q_held q) d)) = bool_decide (is_Some (entries_of (q_held q) !! d))).
  { pose proof (held_position_ok (q_held q) d Hndh) as Hp. apply bool_decide_ext. destruct (held_position _ d); [|by rewrite Hp].
    destruct Hp as (f & _ & _ & ->). by split; eexists. }
  destruct (ar_index_of_ok (q_rows q) cap rows d Hr) as [(i & r & -> & Hi & Hk)|[-> Hn]]; cbn [mbind run_bind].
  - destruct (remove_found (q_rows q) cap rows i r Hr Hnd Hi) as (t1 & -> & Hr1 & Hnd1 & He1). cbn [mbind run_bind]. rewrite Eh. cbn [mbind run_bind].
    rewrite bool_decide_true by done. destruct (refresh_queue t1 cap _ held' Hr1) as (t2 & -> & Hr2). cbn [mbind run_bind]. rewrite Hpos.
    rewrite (bool_decide_true (is_Some (entries_of rows !! d))) by (rewrite <- Hk, (entries_some _ rows r Hnd) by (by eapply list_elem_of_lookup_2); done).
    eexists _, _. split; [done|]. split; cbn [q_rows q_held q_earliest_due earliest_due_at snd plan_flood plan_answer]; try done. by rewrite He1, Heh, Hk.
  - rewrite Eh. cbn [mbind run_bind]. rewrite bool_decide_false by (by intros [? ?]). cbn [mbind run_bind]. rewrite Hpos.
    apply entries_none in Hn. rewrite (bool_decide_false (is_Some (entries_of rows !! d))) by (rewrite Hn; by intros [? ?]).
    eexists _, rows. split; [done|]. split; cbn [q_rows q_held q_earliest_due earliest_due_at snd plan_flood plan_answer]; try done. by rewrite Heh, delete_id.
Qed.

Lemma drain_step q rows p now :
  planned q cap rows p →
  ∃ q' rows', op_do q (Drain now) = Done ((plan_drain p now).1, q') ∧ planned q' cap rows' (plan_drain p now).2.
Proof.
  intros [Hr Hnd Hndh He ->]. cbn [op_do]. unfold drain_due, plan_drain. cbn [p_active p_held fst snd].
  destruct (ar_prefers_ok (q_rows q) cap rows now Hr) as (scan & t1 & -> & Hr1). cbn [mbind run_bind].
  assert (Hloop : ∃ t2 rows2, (if scan then drain_linear_loop (S (length (sc_due_at (ar_columns t1)))) (ar_invalidate t1) 0 0 now
      else drain_indexed_loop (S (length (sc_due_at (ar_columns t1)))) t1 0 now) = Done (length rows - length rows2, t2)
    ∧ ar_rep t2 cap rows2 ∧ rows2 ≡ₚ omap (not_due now) rows).
  { rewrite (ar_columns_ok _ _ _ Hr1). cbn [columns_of sc_due_at]. rewrite length_fmap. destruct scan.
    - destruct (drain_linear_ok (S (length rows)) (ar_invalidate t1) cap rows 0 0 now) as (t2 & rows2 & -> & Hr2 & Hp & _);
        [by apply ar_invalidate_ok|lia|]. by exists t2, rows2.
    - destruct (drain_indexed_ok (S (length rows)) t1 cap rows 0 now Hr1) as (t2 & rows2 & -> & Hr2 & Hp & _); [lia|]. by exists t2, rows2. }
  destruct Hloop as (t2 & rows2 & -> & Hr2 & Hp). cbn [mbind run_bind]. destruct (refresh_queue t2 cap rows2 (q_held q) Hr2) as (t3 & -> & Hr3). cbn [mbind run_bind].
  destruct (entries_omap sa_destination (not_due now) rows rows2 Hnd) as [Hent Hnd2]; [by intros r r' [? _]%not_due_same|done|].
  rewrite <- Hent, !entries_size by done. eexists _, rows2. split; [done|]. by split.
Qed.

(** Whichever way the due rows are found, each is sent once. *)
Lemma sweep_due_ok q rows now interval max :
  ar_rep (q_rows q) cap rows → NoDup (keys (q_held q)) → is_u64 now → (0 ≤ interval)%Z →
  let next_due := saturating_add 64 now interval in
  ∃ t2 rows2,
    ('(scan, t) ← (if (now + interval <=? u64_max)%Z && negb (interval =? 0)%Z
       then '(linear, t) ← ar_prefers_linear_due_cull (q_rows q) now; Done (linear, if (linear : bool) then ar_invalidate t else t)
       else Done (true, q_rows q));
     if (scan : bool)
     then advance_linear_loop (S (length (sc_due_at (ar_columns t)))) t (q_held q) 0 0 now next_due max
     else advance_indexed_loop (S (length (sc_due_at (ar_columns t)))) t (q_held q) 0 now (now + interval)%Z max)
      = Done (length rows - length rows2, t2)
    ∧ ar_rep t2 cap rows2 ∧ rows2 ≡ₚ omap (advanced (λ d, bool_decide (is_Some (entries_of (q_held q) !! d))) now next_due max) rows.
Proof.
  intros Hr Hndh Hnow Hint next_due. set (f := advanced (λ d, bool_decide (is_Some (entries_of (q_held q) !! d))) now next_due max).
  assert (Hf : ∀ rs : list ScheduledAnnounce, omap (advanced (held_contains (q_held q)) now next_due max) rs = omap f rs).
  { intros rs. induction rs as [|r rs IH]; [done|]. cbn. rewrite IH. unfold f, advanced. by rewrite held_contains_ok. }
  assert (Hlin : ∀ t, ar_rep t cap rows → ∃ t2 rows2, advance_linear_loop (S (length (sc_due_at (ar_columns t)))) t (q_held q) 0 0 now next_due max
    = Done (length rows - length rows2, t2) ∧ ar_rep t2 cap rows2 ∧ rows2 ≡ₚ omap f rows).
  { intros t Ht. rewrite (ar_columns_ok _ _ _ Ht). cbn [columns_of sc_due_at]. rewrite length_fmap.
    destruct (advance_linear_ok (S (length rows)) t cap rows (q_held q) 0 0 now next_due max Ht) as (t2 & rows2 & -> & Hr2 & Hp & _); [lia|].
    exists t2, rows2. split; [done|]. split; [done|]. by rewrite Hp, take_0, drop_0, Hf. }
  destruct ((now + interval <=? u64_max)%Z && negb (interval =? 0)%Z) eqn:Eover; [|cbn [mbind run_bind]; by apply Hlin].
  apply andb_true_iff in Eover as [Hle%Z.leb_le Hne%negb_true_iff%Z.eqb_neq].
  destruct (ar_prefers_ok (q_rows q) cap rows now Hr) as (scan & t1 & -> & Hr1). cbn [mbind run_bind]. destruct scan; [by apply Hlin, ar_invalidate_ok|].
  rewrite (ar_columns_ok _ _ _ Hr1). cbn [columns_of sc_due_at]. rewrite length_fmap. assert (Enext : next_due = (now + interval)%Z) by (unfold next_due; width).
  destruct (advance_indexed_ok (S (length rows)) t1 cap rows (q_held q) 0 now next_due max Hr1) as (t2 & rows2 & E & Hr2 & Hp & _).
  - lia.
  - unfold due_rows. pose proof (length_filter (λ r, (sa_due_at r ≤ now)%Z) rows). lia.
  - rewrite <- Enext, E. exists t2, rows2. split; [done|]. split; [done|]. by rewrite Hp, Hf.
Qed.

Lemma advance_step q rows p now interval max :
  planned q cap rows p → plan_ok universe p → is_u64 now → (0 ≤ interval)%Z →
  ∃ q' rows', op_do q (Advance now interval max) = Done ((plan_advance p now interval max).1, q')
    ∧ planned q' cap rows' (plan_advance p now interval max).2.
Proof.
  intros [Hr Hnd Hndh He ->] Hok Hnow Hint. cbn [op_do]. unfold advance_due_retransmits, plan_advance. cbn [p_active p_held fst snd].
  set (next_due := saturating_add 64 now interval). set (f := advanced (λ d, bool_decide (is_Some (entries_of (q_held q) !! d))) now next_due max).
  destruct (sweep_due_ok q rows now interval max Hr Hndh Hnow Hint) as (t2 & rows2 & E & Hr2 & Hp). fold next_due f in E, Hp.
  revert E. destruct (if _ && _ then _ else _) as [[scan t]| |]; cbn [mbind run_bind]; [|done|done]. intros ->.
  cbn [mbind run_bind]. destruct (entries_omap sa_destination f rows rows2 Hnd) as [Hent Hnd2]; [by intros r r' [? _]%advanced_same|done|].
  pose proof (omap_ok universe _ f (λ r r', advanced_same _ _ _ _ r r') Hok) as Hok2. cbn [p_active p_held] in Hok2. rewrite <- Hent in Hok2 |- *.
  pose proof (restored_ok universe _ Hok2) as Hok3. destruct Hok2 as [Ha2 Hh2 Hb2]. cbn [p_active p_held] in *.
  destruct (restored_entries rows2 (q_held q) Hnd2 Hndh Hb2) as [Hndr Herr].
  set (left := entries_of rows2) in *.
  destruct (restore_loop_ok (λ f, answered left (sa_destination f)) (S (length (q_held q))) t2 cap rows2 (q_held q) 0 Hr2 Hnd2 Hndh) as (t3 & rows3 & held3 & E3 & Hr3 & Hnd3 & Hp3 & Hph3).
  - lia.
  - intros g _. unfold answered. destruct (left !! sa_destination g) as [r|] eqn:Eg.
    + rewrite bool_decide_eq_true. apply entries_iff in Eg as [Hrin Hk]; [|done]. split; [intros Hd; by exists r|]. intros (r' & Hr' & Hk' & Hd').
      assert (r' = r) as ->; [|done]. apply (entries_some sa_destination rows2 r' Hnd2) in Hr'. apply (entries_some sa_destination rows2 r Hnd2) in Hrin. congruence.
    + split; [done|]. intros (r' & Hr' & Hk' & _). apply (entries_some sa_destination rows2 r' Hnd2) in Hr'. unfold left in Eg. congruence.
  - intros g r Hg Hrin Hk. rewrite drop_0 in Hg. apply (Hb2 (sa_destination g)).
    + rewrite (entries_some _ (q_held q) g Hndh Hg). by eexists.
    + rewrite <- Hk. by apply entries_some.
  - rewrite drop_0. pose proof (keys_room universe (rows2 ++ omap (comes_back left) (q_held q)) Hndr) as Hk. rewrite Herr in Hk. specialize (Hk (po_active _ _ Hok3)).
    rewrite length_app in Hk. change (omap (λ f0, if answered left (sa_destination f0) then None else Some f0) (q_held q)) with (omap (comes_back left) (q_held q)). lia.
  - unfold restore_orphaned_held. rewrite E3. cbn [mbind run_bind]. rewrite drop_0 in Hp3, Hph3. rewrite take_0 in Hph3. cbn [app] in Hph3.
    destruct (refresh_queue t3 cap rows3 held3 Hr3) as (t4 & -> & Hr4). cbn [mbind run_bind].
    destruct (entries_omap sa_destination (stays_parked left) (q_held q) held3 Hndh) as [Hes Hnds];
      [intros g g'; unfold stays_parked; case_match; by intros [= <-]|exact Hph3|].
    rewrite (entries_size _ rows Hnd). unfold left at 1. rewrite (entries_size _ rows2 Hnd2). eexists _, rows3. split; [done|].
    split; cbn [q_rows q_held q_earliest_due earliest_due_at]; try done. f_equal; [|done]. rewrite <- Herr. by apply entries_perm.
Qed.

Lemma echo_step q rows p d hops now max :
  planned q cap rows p → plan_ok universe p →
  ∃ q' rows', op_do q (Echo d hops now max) = Done ((plan_echo p d hops now max).1, q') ∧ planned q' cap rows' (plan_echo p d hops now max).2.
Proof.
  intros Hpl _. pose proof Hpl as [Hr Hnd Hndh He Ep]. cbn [op_do]. unfold absorb_echo, plan_echo. rewrite Ep. cbn [p_active p_held].
  destruct (ar_index_of_ok (q_rows q) cap rows d Hr) as [(i & r & -> & Hi & Hk)|[-> Hn]]; cbn [mbind run_bind].
  2: { rewrite (proj1 (entries_none _ rows d) Hn). exists q, rows. by split. }
  rewrite <- Hk, (entries_some _ rows r Hnd) by (by eapply list_elem_of_lookup_2).
  assert (Hgone : ∀ t' rows' r', ar_rep t' cap rows' → NoDup (keys rows') → rows' !! i = Some r' → sa_destination r' = sa_destination r →
    delete (sa_destination r) (entries_of rows') = delete (sa_destination r) (entries_of rows) →
    ∃ q', (t ← ar_swap_remove_row t' i; q ← refresh_earliest t (q_held q); Done (RetransmitCancelled, q)) = Done (RetransmitCancelled, q')
      ∧ planned q' cap (swap_removed rows' i) (mkPlan (delete (sa_destination r) (entries_of rows)) (entries_of (q_held q)))).
  { intros t' rows' r' Hr' Hnd' Hi' Hk' Hdel. destruct (remove_found t' cap rows' i r' Hr' Hnd' Hi') as (t2 & -> & Hr2 & Hnd2 & He2). cbn [mbind run_bind].
    destruct (refresh_queue t2 cap _ (q_held q) Hr2) as (t3 & -> & Hr3). cbn [mbind run_bind]. eexists. split; [done|].
    split; cbn [q_rows q_held q_earliest_due earliest_due_at]; try done. by rewrite He2, Hk', Hdel. }
  rewrite (ar_columns_ok _ _ _ Hr). cbn [columns_of sc_hops sc_our_emission_count sc_peer_emission_count sc_due_at].
  repeat (rewrite (index_field _ _ _ _ Hi); cbn [mbind run_bind]). destruct (saturating_sub hops 1 =? sa_hops r)%Z.
  - set (peers := saturating_add 8 (sa_peer_emission_count r) 1). rewrite (set_peer_ok rows i r peers Hi). cbn [mbind run_bind].
    set (r1 := with_peer_emission_count peers r). pose proof (lookup_lt_Some _ _ _ Hi) as Hlt.
    assert (Hr1 : ar_rep (ar_with_columns (q_rows q) (columns_of (<[i := r1]> rows))) cap (<[i := r1]> rows))
      by (apply (ar_with_ok (q_rows q) cap rows); [done| |]; by apply (same_field _ _ _ _ _ Hi)).
    destruct (entries_overwrite sa_destination rows i r r1 Hnd Hi eq_refl) as [He1 Hnd1]. destruct (_ && _).
    + destruct (Hgone _ _ r1 Hr1 Hnd1) as (q' & -> & Hq'); [by apply list_lookup_insert_eq|done|by rewrite He1, delete_insert_eq|]. cbn [mbind run_bind].
      by exists q', (swap_removed (<[i := r1]> rows) i).
    + cbn [mbind run_bind]. eexists _, (<[i := r1]> rows). split; [done|]. split; cbn [q_rows q_held q_earliest_due earliest_due_at snd]; try done.
      * unfold earliest_due_at in He. rewrite He. by rewrite (same_field sa_due_at rows i r r1 Hi eq_refl).
      * by rewrite He1.
  - destruct (_ && _ && _).
    + destruct (Hgone _ _ r Hr Hnd Hi eq_refl eq_refl) as (q' & -> & Hq'). cbn [mbind run_bind]. by exists q', (swap_removed rows i).
    + exists q, rows. by rewrite <- Ep.
Qed.
End steps.
End refinement.

(** * Runs *)

Definition op_in (universe : list DestinationHash) (op : schedule_op) : Prop :=
  from_option (λ d, d ∈ universe) True (op_destination op)
  ∧ match op with Advance now interval _ => is_u64 now ∧ (0 ≤ interval)%Z | _ => True end.

Lemma step_follows_plan {T} `{!AnnounceRows T} `{!AnnounceRowsLaws T} universe (cap : Z) (q : ScheduledAnnounceQueue T) rows p op :
  (Z.of_nat (length universe) ≤ cap `min` u32_max)%Z → planned q cap rows p → plan_ok universe p → op_in universe op →
  ∃ q' rows', op_do q op = Done ((plan_step p op).1, q') ∧ planned q' cap rows' (plan_step p op).2.
Proof.
  intros Hroom Hq Hp [Hd Hop]. destruct op; cbn [plan_step op_destination from_option] in *.
  - by eapply flood_step.
  - by eapply answer_step.
  - by eapply cancel_step.
  - by eapply drain_step.
  - destruct Hop. by eapply advance_step.
  - by eapply echo_step.
Qed.

(** C18. Announces wait as planned.  Whatever is scheduled, answered, cancelled, drained, sent and echoed, in any
    order, in a queue with room for the destinations that occur: nothing panics and every sweep ends; each operation
    answers and leaves what the plan says, one active announce per destination and parked floods only behind
    answers; and the queue's next due time is the earliest of the active announces, if there are any.  The fixed
    and the growing queue therefore agree. *)
Theorem announce_queue_follows_plan {T} `{!AnnounceRows T} `{!AnnounceRowsLaws T} universe (cap : Z) (q : ScheduledAnnounceQueue T) rows p ops :
  (Z.of_nat (length universe) ≤ cap `min` u32_max)%Z → planned q cap rows p → plan_ok universe p → Forall (op_in universe) ops →
  ∃ q' rows', do_all op_do q ops = Done ((plan_all p ops).1, q') ∧ planned q' cap rows' (plan_all p ops).2
    ∧ plan_ok universe (plan_all p ops).2
    ∧ match earliest_due_at q' with
      | Some due => (∃ d r, p_active (plan_all p ops).2 !! d = Some r ∧ sa_due_at r = due)
                    ∧ map_Forall (λ _ r, (due ≤ sa_due_at r)%Z) (p_active (plan_all p ops).2)
      | None => p_active (plan_all p ops).2 = ∅
      end.
Proof.
  intros Hroom Hq Hp Hops. revert q rows p Hq Hp. induction Hops as [|op ops Hop _ IH]; intros q rows p Hq Hp; cbn [do_all plan_all].
  - exists q, rows. split; [done|]. split; [done|]. split; [done|]. destruct Hq as [_ Hnd _ -> ->]. cbn [p_active snd]. pose proof (minimum_spec (sa_due_at <$> rows)) as Hm.
    destruct (minimum _) as [due|].
    + destruct Hm as [(r & -> & Hr)%list_elem_of_fmap Hall]. split.
      * exists (sa_destination r), r. split; [by apply entries_some|done].
      * intros d r' [Hr' _]%entries_row. rewrite list.Forall_forall in Hall. apply Hall, list_elem_of_fmap. by exists r'.
    + apply fmap_nil_inv in Hm. by rewrite Hm.
  - destruct (step_follows_plan universe cap q rows p op Hroom Hq Hp Hop) as (q1 & rows1 & -> & Hq1). cbn [mbind run_bind].
    pose proof (plan_step_ok universe p op Hp (proj1 Hop)) as Hp1. destruct (plan_step p op) as [a p1]. cbn [fst snd] in *.
    destruct (IH q1 rows1 p1 Hq1 Hp1) as (q2 & rows2 & -> & Hq2 & Hp2 & He). cbn [mbind run_bind]. destruct (plan_all p1 ops) as [answers p2]. cbn [fst snd] in *.
    by exists q2, rows2.
Qed.

(** ** Samples *)

Definition sample_d (n : Z) : DestinationHash := replicate 16 n.
Definition sample_i (n : Z) : InterfaceId := replicate 8 n.
(** A flood, an answer that displaces it, and a second destination; the answer is sent, the flood comes back. *)
Definition sample_schedule : list schedule_op :=
  [Flood 0 (sample_d 1) 100 (sample_i 5) 3; Answer 0 (sample_d 1) 50 (sample_i 6) 3; Flood 1 (sample_d 2) 70 (sample_i 5) 2;
   Advance 60 5500 2; Echo (sample_d 2) 3 65 2; Advance 100 5500 2; Cancel (sample_d 2)].

Lemma sample_empty_plan : plan_ok [sample_d 1; sample_d 2] (mkPlan ∅ ∅).
Proof. split; cbn; [apply map_Forall_empty|apply map_Forall_empty|done]. Qed.

Lemma announce_queue_follows_plan_witness :
  ∃ q', do_all op_do heap_queue_default sample_schedule
      = Done ([Scheduled Inserted; Scheduled Updated; Scheduled Inserted; Advanced 1; Echoed PeerEmissionCounted; Advanced 1;
               Cancelled (mkCancellation false false)], q')
    ∧ earliest_due_at q' = Some 5600%Z.
Proof.
  destruct (announce_queue_follows_plan [sample_d 1; sample_d 2] usize_max heap_queue_default [] (mkPlan ∅ ∅) sample_schedule) as (q' & rows' & E & _).
  - vm_compute. discriminate.
  - split; [exact heap_queue_default_rep|constructor|constructor|reflexivity|reflexivity].
  - exact sample_empty_plan.
  - repeat constructor; try (apply elem_of_cons; (by left) || (right; by apply list_elem_of_singleton)); vm_compute; discriminate.
  - exists q'. pose proof E as E'. vm_compute in E'. injection E' as <-. split; [rewrite E; vm_compute; reflexivity|vm_compute; reflexivity].
Defined.

(** A displaced flood comes back.  When an answer for a destination displaces its flood, and the answer has been
    sent once, the flood is active again exactly as it was, and nothing stays parked for the destination. *)
Theorem displaced_flood_returns {T} `{!AnnounceRows T} `{!AnnounceRowsLaws T} universe (cap : Z) (q : ScheduledAnnounceQueue T) rows p
    our d due target hops flood now interval max :
  (Z.of_nat (length universe) ≤ cap `min` u32_max)%Z → planned q cap rows p → plan_ok universe p → d ∈ universe →
  p_active p !! d = Some flood → sa_directed_to flood = None → is_u64 now → (0 ≤ interval)%Z → (due ≤ now)%Z →
  ∃ q1 q2 rows2 p2 completed, op_do q (Answer our d due target hops) = Done (Scheduled Updated, q1)
    ∧ op_do q1 (Advance now interval max) = Done (Advanced completed, q2)
    ∧ planned q2 cap rows2 p2 ∧ p_active p2 !! d = Some flood ∧ p_held p2 !! d = None.
Proof.
  intros Hroom Hq Hp Hd Hact Hflood Hnow Hint Hdue.
  destruct (step_follows_plan universe cap q rows p (Answer our d due target hops) Hroom Hq Hp) as (q1 & rows1 & E1 & Hq1); [by split|].
  pose proof (plan_step_ok universe p (Answer our d due target hops) Hp Hd) as Hp1.
  destruct (step_follows_plan universe cap q1 rows1 _ (Advance now interval max) Hroom Hq1 Hp1) as (q2 & rows2 & E2 & Hq2); [split; [done|by split]|].
  eexists q1, q2, rows2, _, _. split; [|split; [exact E2|split; [exact Hq2|]]].
  { rewrite E1. cbn [plan_step plan_answer fst]. unfold planned_outcome. by rewrite Hact, bool_decide_true by done. }
  cbn [plan_step plan_answer snd plan_advance p_active p_held]. unfold parked_by. rewrite Hact, Hflood, bool_decide_false by (by intros [? ?]).
  set (held := <[d := flood]> (p_held p)). assert (Hheld : held !! d = Some flood) by apply lookup_insert_eq.
  set (left := omap _ (<[d := _]> (p_active p))). assert (Hleft : left !! d = None).
  { unfold left. rewrite lookup_omap, lookup_insert_eq. cbn. unfold advanced. cbn [sa_due_at sa_directed_to sa_destination].
    rewrite (proj2 (Z.leb_le _ _)), (bool_decide_true (is_Some (Some target))), Hheld by done. done. }
  assert (Hk : answered left (sa_destination flood) = false).
  { rewrite (proj1 (po_active _ _ Hp d flood Hact)). unfold answered. by rewrite Hleft. }
  split.
  - apply lookup_union_Some_raw. right. split; [done|]. rewrite lookup_omap, Hheld. cbn. unfold comes_back. by rewrite Hk.
  - rewrite lookup_omap, Hheld. cbn. unfold stays_parked. by rewrite Hk.
Qed.

Lemma displaced_flood_returns_witness :
  ∃ q, op_do heap_queue_default (Flood 0 (sample_d 1) 100 (sample_i 5) 3) = Done (Scheduled Inserted, q)
    ∧ ∃ q1 q2 completed, op_do q (Answer 0 (sample_d 1) 50 (sample_i 6) 3) = Done (Scheduled Updated, q1)
        ∧ op_do q1 (Advance 60 5500 2) = Done (Advanced completed, q2) ∧ held_count q1 = 1%nat ∧ held_count q2 = 0%nat
        ∧ earliest_due_at q2 = Some 100%Z.
Proof.
  destruct (step_follows_plan [sample_d 1; sample_d 2] usize_max heap_queue_default [] (mkPlan ∅ ∅) (Flood 0 (sample_d 1) 100 (sample_i 5) 3))
    as (q & rows & E & Hq).
  - vm_compute. discriminate.
  - split; [exact heap_queue_default_rep|constructor|constructor|reflexivity|reflexivity].
  - exact sample_empty_plan.
  - split; [by left|done].
  - exists q. split; [exact E|]. cbn [plan_step snd] in Hq.
    destruct (displaced_flood_returns [sample_d 1; sample_d 2] usize_max q rows _ 0 (sample_d 1) 50 (sample_i 6) 3
      (mkScheduled (sample_d 1) 100 (sample_i 5) 3 0 0 None) 60 5500 2 ltac:(vm_compute; discriminate) Hq) as (q1 & q2 & rows2 & p2 & completed & E1 & E2 & _).
    + apply (plan_step_ok [sample_d 1; sample_d 2] (mkPlan ∅ ∅) (Flood 0 (sample_d 1) 100 (sample_i 5) 3)); [exact sample_empty_plan|by left].
    + by left.
    + reflexivity.
    + reflexivity.
    + vm_compute. split; [discriminate|reflexivity].
    + lia.
    + lia.
    + exists q1, q2, completed. split; [exact E1|]. split; [exact E2|]. vm_compute in E. injection E as <-. vm_compute in E1. injection E1 as <-.
      vm_compute in E2. injection E2 as <- <-. vm_compute. split; [reflexivity|]. split; reflexivity.
Defined.

(** What a full queue does with a destination it does not hold. *)
Section full.
Context {T : Type} `{!AnnounceRows T} `{!AnnounceRowsLaws T} (cap : Z) (q : ScheduledAnnounceQueue T) (rows : list ScheduledAnnounce) (p : plan).
Context (our : Z) (d : DestinationHash) (due : Z) (interface : InterfaceId) (hops : Z).
Hypothesis Hp : planned q cap rows p.
Hypothesis Hfull : Z.of_nat (length rows) = cap.
Hypothesis Hcap : (cap ≤ u32_max)%Z.
Hypothesis Hn : p_active p !! d = None.

Lemma absent_row : ar_index_of (q_rows q) d = Done None.
Proof.
  destruct Hp as [Hr Hnd Hndh He ->]. cbn in Hn. apply entries_none in Hn.
  destruct (ar_index_of_ok (q_rows q) cap rows d Hr) as [(i & r & _ & Hi & Hk)|[Ei _]]; [|done].
  destruct Hn. apply list_elem_of_fmap. exists r. split; [done|]. by eapply list_elem_of_lookup_2.
Qed.

Lemma upsert_refused held directed :
  ∃ t', upsert (q_rows q) held d due interface hops directed our = Done (Rejected QueueFull, mkQueue t' held (minimum (sa_due_at <$> rows)))
    ∧ ar_rep t' cap rows.
Proof.
  unfold upsert. rewrite absent_row. cbn [mbind run_bind]. rewrite (ar_push_full (q_rows q) cap rows) by (done || apply Hp). cbn [mbind run_bind].
  destruct (refresh_queue (q_rows q) cap rows held (pn_rep _ _ _ _ Hp)) as (t' & -> & Hr'). cbn [mbind run_bind]. by exists t'.
Qed.

Lemma answer_refused :
  ∃ q', schedule_directed_with q our d due interface hops = Done (Rejected QueueFull, q') ∧ planned q' cap rows p.
Proof.
  unfold schedule_directed_with, park_displaced_flood. rewrite absent_row. cbn [mbind run_bind].
  destruct (upsert_refused (q_held q) (Some interface)) as (t' & -> & Hr'). cbn [mbind run_bind]. eexists. split; [done|].
  destruct Hp as [Hr Hnd Hndh He ->]. by split.
Qed.

Lemma flood_refused :
  ∃ q', schedule_with q our d due interface hops = Done (Rejected QueueFull, q') ∧ planned q' cap rows (mkPlan (p_active p) (delete d (p_held p))).
Proof.
  pose proof (upsert_refused) as Hup. destruct Hp as [Hr Hnd Hndh He ->].
  unfold schedule_with. destruct (clear_held_ok (q_held q) d Hndh) as (held' & -> & Hndh' & Heh). cbn [mbind run_bind].
  destruct (Hup held' None) as (t' & -> & Hr'). cbn [mbind run_bind]. eexists. split; [done|].
  split; cbn [q_rows q_held q_earliest_due earliest_due_at p_active p_held]; try done. by rewrite Heh.
Qed.
End full.

(** A full queue refuses new destinations.  An answer that is refused leaves everything as it was; a flood that is
    refused leaves the active announces as they were, but a flood parked for its destination is forgotten. *)
Theorem full_queue_refuses {T} `{!AnnounceRows T} `{!AnnounceRowsLaws T} (cap : Z) (q : ScheduledAnnounceQueue T) rows p our d due interface hops :
  planned q cap rows p → Z.of_nat (length rows) = cap → (cap ≤ u32_max)%Z → p_active p !! d = None →
  (∃ q', op_do q (Answer our d due interface hops) = Done (Scheduled (Rejected QueueFull), q') ∧ planned q' cap rows p)
  ∧ (∃ q', op_do q (Flood our d due interface hops) = Done (Scheduled (Rejected QueueFull), q')
       ∧ planned q' cap rows (mkPlan (p_active p) (delete d (p_held p)))).
Proof.
  intros Hp Hfull Hcap Hn. split; cbn [op_do].
  - destruct (answer_refused cap q rows p our d due interface hops Hp Hfull Hcap Hn) as (q' & -> & Hq). by exists q'.
  - destruct (flood_refused cap q rows p our d due interface hops Hp Hfull Hcap Hn) as (q' & -> & Hq). by exists q'.
Qed.

(** A queue of one row: the flood of the first destination is parked behind an answer, two echoes cancel the answer,
    and the second destination takes the row. *)
#[local] Instance list_push : HeaplessVec := {| hv_push := λ A cap xs x, if (length xs <? cap)%nat then xs ++ [x] else xs |}.
#[local] Instance list_remove : HeaplessRemove := {| hv_swap_remove := λ A xs i, vec_swap_remove xs i |}.
#[local] Instance list_queue_laws : HeaplessQueueLaws.
Proof.
  split; [split|..]; intros A.
  - intros cap xs x Hl. unfold hv_push, list_push. by rewrite (proj2 (Nat.ltb_lt _ _)).
  - intros cap xs x Hl. unfold hv_push, list_push. by rewrite (proj2 (Nat.ltb_ge _ _)).
  - intros xs i Hi. exact (vec_swap_remove_done xs i Hi).
Qed.

Definition sample_full : list schedule_op :=
  [Flood 0 (sample_d 1) 100 (sample_i 5) 3; Answer 1 (sample_d 1) 50 (sample_i 6) 3; Echo (sample_d 1) 4 10 2; Echo (sample_d 1) 4 11 2;
   Flood 0 (sample_d 2) 70 (sample_i 5) 2].
#[local] Abbreviation one_row := (fixed_announce_rows (MAX_PENDING := 1)).
Definition sample_full_rows : list ScheduledAnnounce := [mkScheduled (sample_d 2) 70 (sample_i 5) 2 0 0 None].
Definition sample_parked : list ScheduledAnnounce := [mkScheduled (sample_d 1) 100 (sample_i 5) 3 0 0 None].

Lemma full_queue_refuses_witness :
  ∃ q answers, do_all (op_do (AnnounceRows0 := one_row)) fixed_queue_new sample_full = Done (answers, q) ∧ held_count q = 1%nat
    ∧ ∃ q', op_do (AnnounceRows0 := one_row) q (Flood 0 (sample_d 1) 200 (sample_i 5) 3) = Done (Scheduled (Rejected QueueFull), q')
        ∧ held_count q' = 0%nat.
Proof.
  exists (mkQueue (columns_of sample_full_rows) sample_parked (Some 70%Z)). eexists. split; [vm_compute; reflexivity|]. split; [reflexivity|].
  destruct (full_queue_refuses (AnnounceRows0 := one_row) (AnnounceRowsLaws0 := fixed_rows_laws (MAX_PENDING := 1)) 1
    (mkQueue (columns_of sample_full_rows) sample_parked (Some 70%Z)) sample_full_rows
    (mkPlan (entries sa_destination sample_full_rows) (entries sa_destination sample_parked)) 0 (sample_d 1) 200 (sample_i 5) 3) as [_ (q' & E & _)].
  - split; [split; [reflexivity|split; [reflexivity|cbn; lia]]|apply NoDup_singleton|apply NoDup_singleton|reflexivity|reflexivity].
  - reflexivity.
  - vm_compute. discriminate.
  - vm_compute. reflexivity.
  - exists q'. split; [exact E|]. vm_compute in E. injection E as <-. reflexivity.
Defined.
