(* ===== verification/DestinationLimits.v ===== *)
(** Rate limits per destination: [routing/announce/destination_announce_limit/] with its fixed and its growing
    table.

    A destination that announces faster than the target collects violations; with more than its grace it is
    blocked until the target and a penalty have passed since the last announce that was allowed. *)

From S2P Require Import LemireIndex Prelude Columns KeyedMap Routes RowTable.

(** [AnnounceRateLimit] of [interfaces/policy/common.rs] *)
Record AnnounceRateLimit := mkRateLimit { target_ms : Z; grace : Z; penalty_ms : Z }.

Record DestinationAnnounceLimit := mkEntry {
  last_allowed_announce_at : Z;
  blocked_until : Z;
  rate_violations : Z;
}.
Definition default_entry : DestinationAnnounceLimit := mkEntry 0 0 0.

Inductive DestinationAnnounceVerdict := Allowed | Blocked.
#[global] Instance DestinationAnnounceVerdict_eq_dec : EqDecision DestinationAnnounceVerdict.
Proof. solve_decision. Defined.
Inductive DestinationAnnounceObservation := Started (v : DestinationAnnounceVerdict) | Continued (v : DestinationAnnounceVerdict).
Inductive DestinationAnnounceLimitAdmission := WasRecorded | Untrackable.

Definition observe_existing (entry : DestinationAnnounceLimit) (now : Z) (limit : AnnounceRateLimit) :
    DestinationAnnounceVerdict * DestinationAnnounceLimit :=
  if (now <=? blocked_until entry)%Z then (Blocked, entry) else
  let interval_ms := saturating_sub now (last_allowed_announce_at entry) in
  let violations := if (interval_ms <? target_ms limit)%Z then saturating_add 16 (rate_violations entry) 1
                    else saturating_sub (rate_violations entry) 1 in
  if (grace limit <? violations)%Z then
    (Blocked,
     mkEntry (last_allowed_announce_at entry)
       (saturating_add 64 (saturating_add 64 (last_allowed_announce_at entry) (target_ms limit)) (penalty_ms limit)) violations)
  else (Allowed, mkEntry now (blocked_until entry) violations).

(** * The trait *)

Class DestinationAnnounceLimitTable (T : Type) := {
  dl_index_of : T → DestinationHash → run (option nat);
  dl_entries : T → run (list DestinationAnnounceLimit);
  dl_set_entry : T → nat → DestinationAnnounceLimit → run T;
  dl_insert : T → DestinationHash → DestinationAnnounceLimit → run (DestinationAnnounceLimitAdmission * T);
}.

Section operations.
Context {T : Type} `{DestinationAnnounceLimitTable T}.

Definition observe_with_continuity (t : T) (destination : DestinationHash) (now : Z) (limit : AnnounceRateLimit) :
    run (DestinationAnnounceObservation * T) :=
  found ← dl_index_of t destination;
  match found with
  | Some i =>
      entries ← dl_entries t;
      entry ← index entries i;
      let '(verdict, entry) := observe_existing entry now limit in
      t ← dl_set_entry t i entry;
      Done (Continued verdict, t)
  | None =>
      '(_, t) ← dl_insert t destination (mkEntry now 0 0);
      Done (Started Allowed, t)
  end.

Definition observe (t : T) (destination : DestinationHash) (now : Z) (limit : AnnounceRateLimit) :
    run (DestinationAnnounceVerdict * T) :=
  '(o, t) ← observe_with_continuity t destination now limit;
  Done (match o with Started v | Continued v => v end, t).
End operations.

(** * The contract *)

Record LimitRow := mkLimitRow { l_destination : DestinationHash; l_entry : DestinationAnnounceLimit }.

(** [dl_rep t cap rows]: [t] holds [rows] and takes new ones up to [cap]. *)
Class DestinationLimitLaws (T : Type) `{DestinationAnnounceLimitTable T} := {
  dl_rep : T → Z → list LimitRow → Prop;
  dl_index_of_ok : ∀ t cap rows d, dl_rep t cap rows →
    (∃ i r, dl_index_of t d = Done (Some i) ∧ rows !! i = Some r ∧ l_destination r = d)
    ∨ (dl_index_of t d = Done None ∧ d ∉ l_destination <$> rows);
  dl_entries_ok : ∀ t cap rows, dl_rep t cap rows → dl_entries t = Done (l_entry <$> rows);
  dl_set_entry_ok : ∀ t cap rows i r e, dl_rep t cap rows → rows !! i = Some r →
    ∃ t', dl_set_entry t i e = Done t' ∧ dl_rep t' cap (<[i := mkLimitRow (l_destination r) e]> rows);
  dl_insert_ok : ∀ t cap rows d e, dl_rep t cap rows → (d ∉ l_destination <$> rows) → (Z.of_nat (length rows) < cap)%Z →
    ∃ t', dl_insert t d e = Done (WasRecorded, t') ∧ dl_rep t' cap (rows ++ [mkLimitRow d e]);
}.

(** * The fixed table *)

Section fixed.
Context {MAX_ANNOUNCE_RATE_ENTRIES : nat}.
Abbreviation MAX := MAX_ANNOUNCE_RATE_ENTRIES.

Record FixedDestinationAnnounceLimitTable := mkFixedLimits {
  fd_len : nat;
  fd_destinations : list DestinationHash;
  fd_entries : list DestinationAnnounceLimit;
}.
Definition fixed_limits_default : FixedDestinationAnnounceLimitTable :=
  mkFixedLimits 0 (replicate MAX (replicate 16 0%Z)) (replicate MAX default_entry).

(** [for index in 1..len] *)
Fixpoint least_loop (entries : list DestinationAnnounceLimit) (todo i victim : nat) : run nat :=
  match todo with
  | O => Done victim
  | S todo =>
      e ← index entries i;
      v ← index entries victim;
      least_loop entries todo (S i)
        (if (last_allowed_announce_at e <? last_allowed_announce_at v)%Z then i else victim)
  end.
Definition least_recently_active (t : FixedDestinationAnnounceLimitTable) : run nat :=
  least_loop (fd_entries t) (fd_len t - 1) 1 0.

Definition fixed_limits_insert (t : FixedDestinationAnnounceLimitTable) (destination : DestinationHash)
    (entry : DestinationAnnounceLimit) : run (DestinationAnnounceLimitAdmission * FixedDestinationAnnounceLimitTable) :=
  if (MAX =? 0)%nat then Done (Untrackable, t) else
  '(i, len) ← (if (fd_len t <? MAX)%nat then Done (fd_len t, fd_len t + 1)
               else v ← least_recently_active t; Done (v, fd_len t));
  ds ← store (fd_destinations t) i destination;
  es ← store (fd_entries t) i entry;
  Done (WasRecorded, mkFixedLimits len ds es).

#[global] Instance fixed_limits : DestinationAnnounceLimitTable FixedDestinationAnnounceLimitTable := {|
  dl_index_of := λ t d, ds ← slice (fd_destinations t) 0 (fd_len t); Done (fst <$> list_find (λ c, c = d) ds);
  dl_entries := λ t, slice (fd_entries t) 0 (fd_len t);
  dl_set_entry := λ t i e, live ← slice (fd_entries t) 0 (fd_len t); _ ← store live i e;
    es ← store (fd_entries t) i e; Done (mkFixedLimits (fd_len t) (fd_destinations t) es);
  dl_insert := fixed_limits_insert;
|}.

Record fixed_limits_rep (t : FixedDestinationAnnounceLimitTable) (cap : Z) (rows : list LimitRow) : Prop := {
  fdr_cap : cap = Z.of_nat MAX;
  fdr_destinations : column MAX (fd_len t) (fd_destinations t) (l_destination <$> rows);
  fdr_entries : column MAX (fd_len t) (fd_entries t) (l_entry <$> rows);
}.

Lemma fixed_limits_len t cap rows : fixed_limits_rep t cap rows → fd_len t = length rows.
Proof. intros [_ Hd _]. apply column_length in Hd. by rewrite length_fmap in Hd. Qed.

Lemma fixed_limits_insert_ok t cap rows d e :
  fixed_limits_rep t cap rows → (Z.of_nat (length rows) < cap)%Z →
  ∃ t', fixed_limits_insert t d e = Done (WasRecorded, t') ∧ fixed_limits_rep t' cap (rows ++ [mkLimitRow d e]).
Proof.
  intros Hr Hlt. pose proof (fixed_limits_len t cap rows Hr) as Hlen. destruct Hr as [-> Hd He]. unfold fixed_limits_insert.
  rewrite (proj2 (Nat.eqb_neq _ _)) by lia. rewrite (proj2 (Nat.ltb_lt _ _)) by lia. cbn [mbind run_bind].
  destruct (column_push MAX _ _ _ d Hd) as (ds & -> & Hd'); [lia|]. cbn [mbind run_bind].
  destruct (column_push MAX _ _ _ e He) as (es & -> & He'); [lia|]. cbn [mbind run_bind]. eexists. split; [done|].
  split; cbn; [done|rewrite fmap_app, Nat.add_1_r; done..].
Qed.

Lemma least_loop_ok (entries : list DestinationAnnounceLimit) todo i victim v :
  i + todo = length entries → entries !! victim = Some v →
  Forall (λ e, (last_allowed_announce_at v ≤ last_allowed_announce_at e)%Z) (take i entries) →
  ∃ k w, least_loop entries todo i victim = Done k ∧ entries !! k = Some w
    ∧ Forall (λ e, (last_allowed_announce_at w ≤ last_allowed_announce_at e)%Z) entries.
Proof.
  revert i victim v. induction todo as [|todo IH]; intros i victim v Hl Hv Hall; cbn [least_loop].
  { exists victim, v. split; [done|]. split; [done|]. rewrite take_ge in Hall by lia. done. }
  destruct (lookup_lt_is_Some_2 entries i) as [e He]; [lia|].
  rewrite (index_lookup _ _ _ He). cbn [mbind run_bind]. rewrite (index_lookup _ _ _ Hv). cbn [mbind run_bind].
  destruct (Z.ltb_spec (last_allowed_announce_at e) (last_allowed_announce_at v)).
  - apply (IH (S i) i e); [lia|done|]. rewrite (take_S_r _ _ _ He). apply Forall_app. split; [|repeat constructor; lia].
    eapply list.Forall_impl; [exact Hall|]. cbn. lia.
  - apply (IH (S i) victim v); [lia|done|]. rewrite (take_S_r _ _ _ He). apply Forall_app. split; [done|]. repeat constructor. lia.
Qed.

#[global] Instance fixed_limits_laws : DestinationLimitLaws FixedDestinationAnnounceLimitTable.
Proof.
  refine {| dl_rep := fixed_limits_rep |}.
  - intros t cap rows d [_ Hd _]. cbn. rewrite (column_slice _ _ _ _ Hd). cbn [mbind run_bind].
    destruct (list_find_key l_destination rows d) as [(i & r & -> & Hi)|[-> Hn]]; [left; by exists i, r|by right].
  - intros t cap rows [_ _ He]. by eapply column_slice.
  - intros t cap rows i r e Hr Hi. pose proof (fixed_limits_len t cap rows Hr) as Hlen. destruct Hr as [-> Hd He].
    pose proof (lookup_lt_Some _ _ _ Hi) as Hlt. cbn. rewrite (column_slice _ _ _ _ He). cbn [mbind run_bind].
    rewrite (store_done (l_entry <$> rows)) by (by rewrite length_fmap). cbn [mbind run_bind].
    destruct (column_store MAX _ _ _ i e He) as (es & -> & He'); [lia|]. cbn [mbind run_bind]. eexists. split; [done|].
    split; cbn; [done| |by rewrite list_fmap_insert]. rewrite (fmap_key_insert l_destination rows i r); done.
  - intros t cap rows d e Hr _ Hlt. by apply fixed_limits_insert_ok.
Defined.
End fixed.

(** * The growing table *)

Record HeapDestinationAnnounceLimitTable := mkHeapLimits {
  hd_destinations : list DestinationHash;
  hd_entries : list DestinationAnnounceLimit;
  hd_index : list Z;
}.
Definition heap_limits_default : HeapDestinationAnnounceLimitTable := mkHeapLimits [] [] LemireIndex.Heap.default.

Definition heap_limits_insert (t : HeapDestinationAnnounceLimitTable) (destination : DestinationHash)
    (entry : DestinationAnnounceLimit) : run (DestinationAnnounceLimitAdmission * HeapDestinationAnnounceLimitTable) :=
  let slot := length (hd_destinations t) in
  let ds := hd_destinations t ++ [destination] in
  index ← LemireIndex.Heap.heap_insert (hd_index t) slot ds;
  Done (WasRecorded, mkHeapLimits ds (hd_entries t ++ [entry]) index).

#[global] Instance heap_limits : DestinationAnnounceLimitTable HeapDestinationAnnounceLimitTable := {|
  dl_index_of := λ t d, LemireIndex.Heap.heap_get (hd_index t) d (hd_destinations t);
  dl_entries := λ t, Done (hd_entries t);
  dl_set_entry := λ t i e, es ← store (hd_entries t) i e; Done (mkHeapLimits (hd_destinations t) es (hd_index t));
  dl_insert := heap_limits_insert;
|}.

Record heap_limits_rep (t : HeapDestinationAnnounceLimitTable) (cap : Z) (rows : list LimitRow) : Prop := {
  hdr_cap : cap = u32_max;
  hdr_destinations : hd_destinations t = l_destination <$> rows;
  hdr_entries : hd_entries t = l_entry <$> rows;
  hdr_index : LemireIndex.Heap.heap_rep (hd_index t) (l_destination <$> rows);
}.

#[global] Instance heap_limits_laws : DestinationLimitLaws HeapDestinationAnnounceLimitTable.
Proof.
  refine {| dl_rep := heap_limits_rep |}.
  - intros t cap rows d [_ Hd _ Hix]. cbn. rewrite Hd.
    destruct (heap_get_ids (hd_index t) (l_destination <$> rows) d Hix) as [(i & E & Hi)|[E Hn]]; [left|by right].
    rewrite list_lookup_fmap in Hi. destruct (rows !! i) as [r|] eqn:Er; [|done]. injection Hi as Hi. by exists i, r.
  - intros t cap rows [_ _ He _]. cbn. by rewrite He.
  - intros t cap rows i r e [-> Hd He Hix] Hi. cbn. rewrite He, store_done by (rewrite length_fmap; by eapply lookup_lt_Some).
    cbn [mbind run_bind]. eexists. split; [done|].
    pose proof (fmap_key_insert l_destination rows i r (mkLimitRow (l_destination r) e) Hi eq_refl) as El.
    split; cbn; [done|by rewrite El|by rewrite list_fmap_insert|by rewrite El].
  - intros t cap rows d e [-> Hd He Hix] _ Hlt. cbn. unfold heap_limits_insert. rewrite Hd, He, length_fmap.
    destruct (heap_index_push (hd_index t) (l_destination <$> rows) d Hix) as (slots & E & Hix'); [by rewrite length_fmap|].
    rewrite length_fmap in E. unfold DestinationHash in *. rewrite E. cbn [mbind run_bind]. eexists. split; [done|]. split; cbn; rewrite ?fmap_app; done.
Defined.
