(* ===== verification/DestinationLimitsProofs.v ===== *)
(** Destinations are limited apart from each other ([RowTable]), a destination's rate is bounded, and one that keeps
    its pace is never blocked. *)

From S2P Require Import LemireIndex Prelude Columns KeyedMap Routes RowTable DestinationLimits.

Record observation := Observed { o_destination : DestinationHash; o_now : Z }.

Section limited.
Context (limit : AnnounceRateLimit).

(** What an observation does to the row of its destination. *)
Definition row_step (o : observation) (r : option LimitRow) : DestinationAnnounceVerdict * option LimitRow :=
  match r with
  | None => (Allowed, Some (mkLimitRow (o_destination o) (mkEntry (o_now o) 0 0)))
  | Some row => let '(v, e) := observe_existing (l_entry row) (o_now o) limit in (v, Some (mkLimitRow (o_destination o) e))
  end.

Definition op_do {T} `{DestinationAnnounceLimitTable T} (t : T) (o : observation) : run (DestinationAnnounceVerdict * T) :=
  observe t (o_destination o) (o_now o) limit.

Lemma destination_step {T} `{DestinationLimitLaws T} : refines_step l_destination dl_rep o_destination op_do row_step.
Proof.
  intros t known cap rows [d now] Hr Hf Hd. cbn [o_destination o_now] in *.
  unfold op_do, observe, observe_with_continuity. cbn [o_destination o_now].
  destruct (dl_index_of_ok t cap rows d Hr) as [(i & r & -> & Hi & <-)|[-> Hn]]; cbn [mbind run_bind].
  - rewrite (dl_entries_ok _ _ _ Hr). cbn [mbind run_bind].
    rewrite (index_lookup _ i (l_entry r)) by (by rewrite list_lookup_fmap, Hi). cbn [mbind run_bind].
    rewrite (find_key_at _ rows i r (ft_distinct _ _ _ _ Hf) Hi). cbn [row_step o_now o_destination].
    destruct (observe_existing (l_entry r) now limit) as [v e].
    destruct (dl_set_entry_ok t cap rows i r e Hr Hi) as (t' & -> & Hr'). cbn [mbind run_bind].
    eexists _, _. split; [done|]. split; [exact Hr'|]. split; [by eapply fits_insert|].
    intros j. apply find_key_insert; [apply Hf|done|done].
  - rewrite find_key_none by done. cbn [row_step fst snd].
    destruct (dl_insert_ok t cap rows d (mkEntry now 0 0) Hr Hn (fits_has_room _ _ _ _ _ Hf Hd Hn)) as (t' & -> & Hr'). cbn [mbind run_bind].
    eexists _, _. split; [done|]. split; [exact Hr'|]. split; [by apply fits_snoc|].
    intros j. by rewrite find_key_snoc by done.
Qed.

Abbreviation machines := (machines_do_all o_destination row_step).

(** The announces of [d] that were allowed. *)
Fixpoint allowed (d : DestinationHash) (ops : list observation) (answers : list DestinationAnnounceVerdict) : Z :=
  match ops, answers with
  | o :: ops, v :: answers => ((if decide (o_destination o = d ∧ v = Allowed) then 1 else 0) + allowed d ops answers)%Z
  | _, _ => 0%Z
  end.

(** The observations of [d] are in order, from [from] to [until]. *)
Fixpoint timed (d : DestinationHash) (from until : Z) (ops : list observation) : Prop :=
  match ops with
  | [] => True
  | o :: ops =>
      if decide (o_destination o = d) then (from ≤ o_now o ≤ until)%Z ∧ timed d (o_now o) until ops else timed d from until ops
  end.

(** ** The rate is bounded *)

(** A destination over its grace is blocked past the target. *)
Definition penalised (e : DestinationAnnounceLimit) : Prop :=
  (0 ≤ rate_violations e)%Z
  ∧ ((rate_violations e ≤ grace limit)%Z
     ∨ (rate_violations e = grace limit + 1
        ∧ (last_allowed_announce_at e + target_ms limit ≤ blocked_until e ∨ max_width 64 ≤ blocked_until e))%Z).

Context (limit_ok : (0 ≤ target_ms limit ∧ 0 ≤ penalty_ms limit ∧ 0 ≤ grace limit < max_width 16)%Z).

(** Allowed and fast, which takes a violation; allowed and slow, which gives one back; or blocked. *)
Lemma observe_penalised e now v e' :
  penalised e → (0 ≤ last_allowed_announce_at e ≤ now ≤ max_width 64)%Z → observe_existing e now limit = (v, e') →
  penalised e' ∧ (rate_violations e' ≤ grace limit + 1)%Z
  ∧ match v with
    | Allowed => last_allowed_announce_at e' = now ∧ (rate_violations e' ≤ grace limit)%Z ∧
        (rate_violations e' = rate_violations e + 1 ∨
         (rate_violations e - 1 ≤ rate_violations e' ∧ last_allowed_announce_at e + target_ms limit ≤ now))%Z
    | Blocked => last_allowed_announce_at e' = last_allowed_announce_at e ∧ (rate_violations e ≤ rate_violations e')%Z
    end.
Proof.
  intros [H0 Hv] Hn. unfold observe_existing, penalised. destruct limit_ok as (Ht & Hp & Hg).
  destruct (Z.leb_spec now (blocked_until e)); [intros [= <- <-]; repeat split; lia|].
  unfold saturating_sub, saturating_add. unfold max_width in *.
  destruct (Z.ltb_spec (Z.max 0 (now - last_allowed_announce_at e)) (target_ms limit));
    match goal with |- context [(grace limit <? ?x)%Z] => destruct (Z.ltb_spec (grace limit) x) end;
    intros [= <- <-]; cbn [rate_violations last_allowed_announce_at blocked_until]; repeat split; lia.
Qed.

Lemma allowed_machine d start until s ops row :
  s d = Some row → penalised (l_entry row) → (0 ≤ last_allowed_announce_at (l_entry row) ≤ start)%Z →
  (start ≤ until ≤ max_width 64)%Z → timed d start until ops →
  let n := allowed d ops (machines s ops).1 in
  (n = 0 ∨ ∃ slow, 0 ≤ slow ∧ slow * target_ms limit ≤ until - last_allowed_announce_at (l_entry row)
     ∧ n ≤ grace limit - rate_violations (l_entry row) + 2 * slow)%Z.
Proof.
  revert start s row. induction ops as [|o ops IH]; intros start s row Hs Hp Hl Hu Ht; [by left|].
  cbn [machines_do_all timed] in *. destruct (row_step o (s (o_destination o))) as [v r] eqn:E.
  destruct (machines_do_all _ _ _ ops) as [rest s'] eqn:Em. cbn [fst allowed].
  destruct (decide (o_destination o = d)) as [Hd|Hd].
  2: { rewrite decide_False by (by intros []). specialize (IH start (λ j, if decide (j = o_destination o) then r else s j) row).
    rewrite Em in IH. cbn in IH. rewrite Z.add_0_l. apply IH; try done. by rewrite decide_False by congruence. }
  destruct Ht as [Hn Ht]. rewrite Hd, Hs in E. cbn in E.
  destruct (observe_existing (l_entry row) (o_now o) limit) as [v' e] eqn:Eo. injection E as -> <-.
  assert (Hnow : (0 ≤ last_allowed_announce_at (l_entry row) ≤ o_now o ≤ max_width 64)%Z) by lia.
  destruct (observe_penalised (l_entry row) (o_now o) v e Hp Hnow Eo) as (Hp' & Hv' & Hout).
  specialize (IH (o_now o) (λ j, if decide (j = o_destination o) then Some (mkLimitRow (o_destination o) e) else s j) (mkLimitRow (o_destination o) e)).
  rewrite Em in IH. cbn [fst l_entry] in IH. destruct v.
  - destruct Hout as (Hl' & Hg & Hc), Hp as [H0 Hp]. rewrite decide_True by done. right.
    destruct (IH ltac:(by rewrite decide_True) Hp' ltac:(lia) ltac:(lia) Ht) as [->|(slow & S0 & S1 & S2)];
      (destruct Hc as [Hc|[Hc Hs']]).
    + exists 0%Z. lia.
    + exists 1%Z. lia.
    + exists slow. lia.
    + exists (slow + 1)%Z. lia.
  - destruct Hout as (Hl' & Hc). rewrite decide_False by (by intros []). rewrite Z.add_0_l.
    destruct (IH ltac:(by rewrite decide_True) Hp' ltac:(lia) ltac:(lia) Ht) as [->|(slow & S0 & S1 & S2)]; [by left|].
    right. exists slow. lia.
Qed.

Lemma allowed_from_none d start until s ops :
  s d = None → (0 ≤ start ≤ until ∧ until ≤ max_width 64)%Z → timed d start until ops →
  (target_ms limit * (allowed d ops (machines s ops).1 - 1 - grace limit) ≤ 2 * (until - start))%Z.
Proof.
  intros Hs Hu. revert s Hs. induction ops as [|o ops IH]; intros s Hs Ht; [cbn; nia|].
  cbn [machines_do_all timed] in *. destruct (row_step o (s (o_destination o))) as [v r] eqn:E.
  destruct (machines_do_all _ _ _ ops) as [rest s'] eqn:Em. cbn [fst allowed].
  destruct (decide (o_destination o = d)) as [Hd|Hd].
  2: { rewrite decide_False by (by intros []). specialize (IH (λ j, if decide (j = o_destination o) then r else s j)).
    rewrite Em in IH. cbn in IH. rewrite Z.add_0_l. apply IH; try done. by rewrite decide_False by congruence. }
  destruct Ht as [Hn Ht]. rewrite Hd, Hs in E. injection E as <- <-. rewrite decide_True by done.
  set (row := mkLimitRow (o_destination o) (mkEntry (o_now o) 0 0)) in *.
  pose proof (allowed_machine d (o_now o) until (λ j, if decide (j = o_destination o) then Some row else s j) ops row) as Hm.
  rewrite Em in Hm. cbn [fst row l_entry last_allowed_announce_at rate_violations] in Hm.
  destruct Hm as [->|(slow & S0 & S1 & S2)]; [by rewrite decide_True|split; cbn; lia|lia|lia|done|nia|nia].
Qed.

(** ** A steady destination is never blocked *)

Fixpoint paced (d : DestinationHash) (last : option Z) (ops : list observation) : Prop :=
  match ops with
  | [] => True
  | o :: ops =>
      if decide (o_destination o = d) then
        match last with Some l => (l + target_ms limit ≤ o_now o)%Z | None => (0 ≤ o_now o)%Z end ∧ paced d (Some (o_now o)) ops
      else paced d last ops
  end.
Definition never_blocked (d : DestinationHash) (o : observation) (v : DestinationAnnounceVerdict) : Prop :=
  o_destination o = d → v = Allowed.

(** No violation, and the last announce was allowed. *)
Definition steady (last : option Z) (r : option LimitRow) : Prop :=
  match r, last with
  | None, None => True
  | Some row, Some l => (0 ≤ l)%Z ∧ l_entry row = mkEntry l 0 0
  | _, _ => False
  end.

Lemma paced_machine d last s ops :
  (0 < target_ms limit)%Z → steady last (s d) → paced d last ops → Forall2 (never_blocked d) ops (machines s ops).1.
Proof.
  intros HT. revert s last. induction ops as [|o ops IH]; intros s last Hs Hp; [constructor|].
  cbn [machines_do_all paced] in *. destruct (row_step o (s (o_destination o))) as [v r] eqn:E.
  destruct (machines_do_all _ _ _ ops) as [rest s'] eqn:Em. cbn [fst].
  destruct (decide (o_destination o = d)) as [Hd|Hd].
  - destruct Hp as [Hl Hp]. specialize (IH (λ j, if decide (j = o_destination o) then r else s j) (Some (o_now o))).
    rewrite Em, decide_True in IH by done.
    assert (v = Allowed ∧ steady (Some (o_now o)) r) as [-> Hr]; [|by constructor; [|apply IH]].
    rewrite Hd in E. destruct (s d) as [row|], last as [l|]; cbn in Hs, E; try done; [|by injection E as <- <-].
    destruct Hs as [H0 Hs]. rewrite Hs in E. unfold observe_existing in E. cbn in E.
    rewrite (proj2 (Z.leb_gt _ _)) in E by lia. unfold saturating_sub in E.
    rewrite (proj2 (Z.ltb_ge _ (target_ms limit))) in E by lia. rewrite (proj2 (Z.ltb_ge (grace limit) _)) in E by lia. injection E as <- <-. split; [done|]. cbn. split; [lia|done].
  - constructor; [by intros ?|]. specialize (IH (λ j, if decide (j = o_destination o) then r else s j) last).
    rewrite Em in IH. apply IH; [by rewrite decide_False by congruence|done].
Qed.
End limited.

(** C16. The rate of a destination's announces is bounded.  In a table with room for every destination that appears,
    any sequence of observations completes and judges each destination on its own; a destination first seen after
    [start] has, of its announces up to [until], at most one, the grace, and two for each target interval allowed;
    and one whose announces come at least the target apart is never blocked. *)
Theorem announce_rate_is_bounded {T} `{DestinationLimitLaws T} (t : T) limit known cap rows ops d :
  dl_rep t cap rows → fits l_destination known cap rows → Forall (λ o, o_destination o ∈ known) ops →
  (0 ≤ target_ms limit ∧ 0 ≤ penalty_ms limit ∧ 0 ≤ grace limit < u16_max)%Z → find_key l_destination d rows = None →
  ∃ answers t', do_all (op_do limit) t ops = Done (answers, t')
    ∧ answers = (machines_do_all o_destination (row_step limit) (λ j, find_key l_destination j rows) ops).1
    ∧ (∀ start until, (0 ≤ start ≤ until ∧ until ≤ u64_max)%Z → timed d start until ops →
         target_ms limit * (allowed d ops answers - 1 - grace limit) ≤ 2 * (until - start))%Z
    ∧ ((0 < target_ms limit)%Z → paced limit d None ops → Forall2 (never_blocked d) ops answers).
Proof.
  intros Hr Hf Hops Hl Hd.
  destruct (do_all_ok l_destination dl_rep o_destination (op_do limit) (row_step limit) t known cap rows ops (destination_step limit) Hr Hf Hops) as (t' & rows' & E & _ & _).
  eexists _, t'. split; [exact E|]. split; [done|]. split.
  - intros start until Hu Ht. by apply allowed_from_none.
  - intros HT Hp. apply (paced_machine limit Hl d None); [done|by rewrite Hd|done].
Qed.

Module SampleDestinations.
Definition a : DestinationHash := replicate 16 1%Z.
Definition b : DestinationHash := replicate 16 2%Z.
(** Every second, two more than that, then a second of penalty. *)
Definition limit : AnnounceRateLimit := mkRateLimit 1000 2 1000.
Definition traffic : list observation :=
  [Observed a 0; Observed b 5; Observed b 10; Observed b 15; Observed b 20; Observed b 2009; Observed b 2016; Observed a 2500].
Definition table : @FixedDestinationAnnounceLimitTable := @fixed_limits_default 2.
End SampleDestinations.

Lemma announce_rate_is_bounded_witness :
  ∃ answers t', do_all (@op_do SampleDestinations.limit _ (@fixed_limits 2)) SampleDestinations.table SampleDestinations.traffic = Done (answers, t')
    ∧ answers = [Allowed; Allowed; Allowed; Allowed; Blocked; Blocked; Allowed; Allowed]
    ∧ (1000 * (allowed SampleDestinations.b SampleDestinations.traffic answers - 1 - 2) ≤ 2 * (2016 - 5))%Z
    ∧ Forall2 (never_blocked SampleDestinations.a) SampleDestinations.traffic answers.
Proof.
  pose proof (λ d, @announce_rate_is_bounded _ (@fixed_limits 2) (@fixed_limits_laws 2) SampleDestinations.table SampleDestinations.limit
    [SampleDestinations.a; SampleDestinations.b] 2 [] SampleDestinations.traffic d) as H.
  assert (Hr : @dl_rep _ _ (@fixed_limits_laws 2) SampleDestinations.table 2 []).
  { split; [reflexivity|apply column_new..]. }
  assert (Hf : fits l_destination [SampleDestinations.a; SampleDestinations.b] 2 []).
  { split; [constructor|by intros x Hx%not_elem_of_nil|apply (bool_decide_unpack _); reflexivity|vm_compute; discriminate]. }
  assert (Hk : Forall (λ o, o_destination o ∈ [SampleDestinations.a; SampleDestinations.b]) SampleDestinations.traffic)
    by (apply (bool_decide_unpack _); reflexivity).
  assert (Hl : (0 ≤ target_ms SampleDestinations.limit ∧ 0 ≤ penalty_ms SampleDestinations.limit
    ∧ 0 ≤ grace SampleDestinations.limit < u16_max)%Z) by (vm_compute; repeat split; discriminate).
  destruct (H SampleDestinations.b Hr Hf Hk Hl eq_refl) as (answers & t' & E & Ea & Hb & _).
  destruct (H SampleDestinations.a Hr Hf Hk Hl eq_refl) as (answers' & t'' & E' & _ & _ & Hp).
  rewrite E in E'. injection E' as <- <-. exists answers, t'. split; [exact E|]. split; [rewrite Ea; vm_compute; reflexivity|]. split.
  - apply (Hb 5%Z 2016%Z); vm_compute; repeat split; discriminate.
  - apply Hp; vm_compute; repeat split; discriminate.
Defined.
