(* ===== verification/InterfaceLimits.v ===== *)
(** Rate limits per interface: [routing/announce/interface_announce_limit/core.rs] and
    [routing/path_requests/interface_path_request_limit/core.rs].

    An interface whose announces or path requests come too fast latches a burst; while it is latched,
    announces for unknown destinations are held, and path requests are not forwarded.  A count per window
    of ten seconds stands for the rate. *)

From S2P Require Import Prelude Columns Routes Interfaces Lifetime RowTable.

Definition FREQUENCY_WINDOW_MS : Z := (10 * 1000)%Z.
Definition MIN_SAMPLES_TO_JUDGE : Z := 3.
Definition BURST_CLEAR_MIN_SAMPLES : Z := 2.
Definition MIN_EGRESS_SAMPLES_TO_JUDGE : Z := 6.

Inductive BurstState := Calm | Bursting (since : Z).
#[global] Instance BurstState_eq_dec : EqDecision BurstState.
Proof. solve_decision. Defined.

(** * One row per interface *)

Section rows.
Context {R T : Type} `{RowTable R T} (interface_of : R → InterfaceId) (started_at : R → Z) (fresh : InterfaceId → Z → R).

(** [rows().iter().position(|row| row.interface == interface)] *)
Definition row_position (rows : list R) (interface : InterfaceId) : option nat :=
  fst <$> list_find (λ r, interface_of r = interface) rows.
Definition evict_least_recent (t : T) : run T :=
  rows ← row_list t;
  match argmin (started_at <$> rows) with
  | Some i => row_swap_remove t i
  | None => Done t
  end.

Definition index_or_insert (t : T) (interface : InterfaceId) (now : Z) : run (nat * T) :=
  rows ← row_list t;
  match row_position rows interface with
  | Some i => Done (i, t)
  | None =>
      t ← (if (row_capacity t <=? Z.of_nat (length rows))%Z then evict_least_recent t else Done t);
      t ← row_push t (fresh interface now);
      rows ← row_list t;
      match length rows with O => Panic | S last => Done (last, t) end
  end.

(** [f(&mut rows_mut()[index])] *)
Definition at_row {A} (t : T) (i : nat) (f : R → A * R) : run (A * T) :=
  rows ← row_list t;
  row ← index rows i;
  t ← row_set t i (f row).2;
  Done ((f row).1, t).
End rows.

(** * Announces *)

Module AnnounceLimit.
Record InterfaceAnnounceLimit := mkLimit {
  interface : InterfaceId;
  created_at : Z;
  window_started_at : Z;
  window_count : Z;
  burst : BurstState;
  next_held_release_at : Z;
}.

Definition fresh (interface : InterfaceId) (now : Z) : InterfaceAnnounceLimit := mkLimit interface now now 0 Calm 0.

Inductive RateReading := UnderLimit | AtLimit | OverLimit.

(** The products are [u128], which holds them. *)
Definition rate_reading (row : InterfaceAnnounceLimit) (now : Z) (policy : IngressControlPolicy) : RateReading :=
  let limit := if (saturating_sub now (created_at row) <? ic_new_interface_millis policy)%Z
               then ic_announce_burst_frequency_new policy else ic_announce_burst_frequency policy in
  let elapsed_ms := saturating_sub now (window_started_at row) in
  if ((window_count row <? MIN_SAMPLES_TO_JUDGE) || (elapsed_ms =? 0))%Z then UnderLimit else
  match (window_count row * 1000000 ?= limit * elapsed_ms)%Z with
  | Lt => UnderLimit | Eq => AtLimit | Gt => OverLimit
  end.

Definition with_window (started count : Z) (row : InterfaceAnnounceLimit) : InterfaceAnnounceLimit :=
  mkLimit (interface row) (created_at row) started count (burst row) (next_held_release_at row).
Definition with_burst (b : BurstState) (row : InterfaceAnnounceLimit) : InterfaceAnnounceLimit :=
  mkLimit (interface row) (created_at row) (window_started_at row) (window_count row) b (next_held_release_at row).
Definition with_release (at_ : Z) (row : InterfaceAnnounceLimit) : InterfaceAnnounceLimit :=
  mkLimit (interface row) (created_at row) (window_started_at row) (window_count row) (burst row) at_.

(** What [record] does to the row. *)
Definition recorded (now : Z) (row : InterfaceAnnounceLimit) : InterfaceAnnounceLimit :=
  if ((window_count row =? 0) || (FREQUENCY_WINDOW_MS <=? saturating_sub now (window_started_at row)))%Z
  then with_window now 1 row
  else with_window (window_started_at row) (saturating_add 16 (window_count row) 1) row.

(** What [should_limit_with_policy] answers and does to the row. *)
Definition judged (now : Z) (policy : IngressControlPolicy) (row : InterfaceAnnounceLimit) : bool * InterfaceAnnounceLimit :=
  let reading := rate_reading row now policy in
  match burst row with
  | Bursting since =>
      (true,
       match reading with
       | UnderLimit =>
           if ((saturating_add 64 since (ic_burst_hold_millis policy) <=? now)
               && (BURST_CLEAR_MIN_SAMPLES <=? window_count row))%Z
           then with_burst Calm row else row
       | _ => row
       end)
  | Calm =>
      match reading with
      | OverLimit => (true, with_release (saturating_add 64 now (ic_burst_penalty_millis policy)) (with_burst (Bursting now) row))
      | _ => (false, row)
      end
  end.

Section operations.
Context {T : Type} `{RowTable InterfaceAnnounceLimit T}.

Definition index_or_insert (t : T) (i : InterfaceId) (now : Z) : run (nat * T) :=
  InterfaceLimits.index_or_insert interface window_started_at fresh t i now.

Definition record (t : T) (i : InterfaceId) (now : Z) : run T :=
  '(index, t) ← index_or_insert t i now;
  '(_, t) ← at_row t index (λ row, ((), recorded now row));
  Done t.

Definition interface_attached (t : T) (i : InterfaceId) (now : Z) : run T :=
  '(_, t) ← index_or_insert t i now; Done t.

Definition should_limit_with_policy (t : T) (i : InterfaceId) (now : Z) (policy : IngressControlPolicy) : run (bool * T) :=
  if negb (ic_enabled policy) then Done (false, t) else
  rows ← row_list t;
  match row_position interface rows i with
  | None => Done (false, t)
  | Some index => at_row t index (judged now policy)
  end.
Definition should_limit (t : T) (i : InterfaceId) (now : Z) : run (bool * T) :=
  should_limit_with_policy t i now RNS_DEFAULT_ingress_control.

Definition next_held_release_for (t : T) (i : InterfaceId) : run (option Z) :=
  rows ← row_list t; Done (next_held_release_at <$> find_key interface i rows).

Definition schedule_next_held_release_with_policy (t : T) (i : InterfaceId) (now : Z) (policy : IngressControlPolicy) : run T :=
  rows ← row_list t;
  match row_position interface rows i with
  | None => Done t
  | Some index =>
      '(_, t) ← at_row t index (λ row, ((), with_release (saturating_add 64 now (ic_held_release_interval_millis policy)) row));
      Done t
  end.
Definition schedule_next_held_release (t : T) (i : InterfaceId) (now : Z) : run T :=
  schedule_next_held_release_with_policy t i now RNS_DEFAULT_ingress_control.

Definition rate_is_under_limit_with_policy (t : T) (i : InterfaceId) (now : Z) (policy : IngressControlPolicy) : run bool :=
  rows ← row_list t;
  Done (match find_key interface i rows with
        | None => true
        | Some row => match rate_reading row now policy with UnderLimit => true | _ => false end
        end).
Definition rate_is_under_limit (t : T) (i : InterfaceId) (now : Z) : run bool :=
  rate_is_under_limit_with_policy t i now RNS_DEFAULT_ingress_control.
End operations.

(** The tables. *)
Definition FixedInterfaceAnnounceLimitTable : Type := FixedRows InterfaceAnnounceLimit.
#[global] Instance fixed_announce_limits {MAX_INTERFACES : nat} : RowTable InterfaceAnnounceLimit FixedInterfaceAnnounceLimitTable :=
  fixed_row_table (cap := MAX_INTERFACES).
Definition fixed_announce_limits_default {MAX_INTERFACES : nat} : FixedInterfaceAnnounceLimitTable :=
  fixed_rows_default (cap := MAX_INTERFACES) (mkLimit (replicate 8 0%Z) 0 0 0 Calm 0).
Definition HeapInterfaceAnnounceLimitTable : Type := list InterfaceAnnounceLimit.
#[global] Instance heap_announce_limits : RowTable InterfaceAnnounceLimit HeapInterfaceAnnounceLimitTable := vec_row_table.
End AnnounceLimit.

(** * Path requests *)

Module PathRequestLimit.
Record InterfacePathRequestLimit := mkLimit {
  interface : InterfaceId;
  created_at : Z;
  window_start : Z;
  window_count : Z;
  burst : BurstState;
}.

Definition fresh (interface : InterfaceId) (now : Z) : InterfacePathRequestLimit := mkLimit interface now now 0 Calm.

Definition with_window (start count : Z) (row : InterfacePathRequestLimit) : InterfacePathRequestLimit :=
  mkLimit (interface row) (created_at row) start count (burst row).
Definition with_burst (b : BurstState) (row : InterfacePathRequestLimit) : InterfacePathRequestLimit :=
  mkLimit (interface row) (created_at row) (window_start row) (window_count row) b.

Definition counted (now : Z) (row : InterfacePathRequestLimit) : InterfacePathRequestLimit :=
  if (FREQUENCY_WINDOW_MS <=? saturating_sub now (window_start row))%Z then with_window now 1 row
  else with_window (window_start row) (saturating_add 16 (window_count row) 1) row.

(** More than [samples] counted, faster than [frequency]. *)
Definition faster_than (frequency samples now : Z) (row : InterfacePathRequestLimit) : bool :=
  let elapsed_ms := saturating_sub now (window_start row) in
  (negb (elapsed_ms =? 0) && (samples <=? window_count row) && (frequency * elapsed_ms <? window_count row * 1000000))%Z.

Definition counted_and_judged (now : Z) (policy : IngressControlPolicy) (row : InterfacePathRequestLimit) :
    bool * InterfacePathRequestLimit :=
  let row := counted now row in
  let threshold := if (saturating_sub now (created_at row) <? ic_new_interface_millis policy)%Z
                   then ic_path_request_burst_frequency_new policy else ic_path_request_burst_frequency policy in
  let over_threshold := faster_than threshold MIN_SAMPLES_TO_JUDGE now row in
  match burst row with
  | Bursting since =>
      (true, if (negb over_threshold && (saturating_add 64 since (ic_burst_hold_millis policy) <=? now)%Z)%bool
             then with_burst Calm row else row)
  | Calm => if over_threshold then (true, with_burst (Bursting now) row) else (false, row)
  end.

Section operations.
Context {T : Type} `{RowTable InterfacePathRequestLimit T}.

Definition index_or_insert (t : T) (i : InterfaceId) (now : Z) : run (nat * T) :=
  InterfaceLimits.index_or_insert interface window_start fresh t i now.

Definition should_egress_limit (t : T) (i : InterfaceId) (now : Z) (policy : PathRequestEgressControl) : run bool :=
  if negb (ec_enabled policy) then Done false else
  rows ← row_list t;
  Done (match find_key interface i rows with
        | None => false
        | Some row => faster_than (ec_frequency policy) MIN_EGRESS_SAMPLES_TO_JUDGE now row
        end).

Definition record_egress (t : T) (i : InterfaceId) (now : Z) : run T :=
  '(index, t) ← index_or_insert t i now;
  '(_, t) ← at_row t index (λ row, ((), counted now row));
  Done t.

Definition record_and_should_limit_with_policy (t : T) (i : InterfaceId) (now : Z) (policy : IngressControlPolicy) :
    run (bool * T) :=
  if negb (ic_enabled policy) then Done (false, t) else
  '(index, t) ← index_or_insert t i now;
  at_row t index (counted_and_judged now policy).
Definition record_and_should_limit (t : T) (i : InterfaceId) (now : Z) : run (bool * T) :=
  record_and_should_limit_with_policy t i now RNS_DEFAULT_ingress_control.
End operations.

Definition FixedInterfacePathRequestLimitTable : Type := FixedRows InterfacePathRequestLimit.
#[global] Instance fixed_path_request_limits {MAX_INTERFACES : nat} :
    RowTable InterfacePathRequestLimit FixedInterfacePathRequestLimitTable :=
  fixed_row_table (cap := MAX_INTERFACES).
Definition fixed_path_request_limits_default {MAX_INTERFACES : nat} : FixedInterfacePathRequestLimitTable :=
  fixed_rows_default (cap := MAX_INTERFACES) (mkLimit (replicate 8 0%Z) 0 0 0 Calm).
Definition HeapInterfacePathRequestLimitTable : Type := list InterfacePathRequestLimit.
#[global] Instance heap_path_request_limits : RowTable InterfacePathRequestLimit HeapInterfacePathRequestLimitTable := vec_row_table.
End PathRequestLimit.
