(* ===== verification/InterfaceLimitsProofs.v ===== *)
(** Interfaces are limited apart from each other ([RowTable]), a burst holds, and a steady interface is spared. *)

From S2P Require Import Prelude Columns Routes Interfaces Lifetime RowTable InterfaceLimits.

(** * The row of an interface *)

Section rows.
Context {R T : Type} `{RowTableLaws R T} (interface_of : R → InterfaceId) (started_at : R → Z) (fresh : InterfaceId → Z → R).
Context (fresh_interface : ∀ i now, interface_of (fresh i now) = i).
Implicit Types (t : T) (rows : list R).

Lemma row_position_Some rows i k : row_position interface_of rows i = Some k → ∃ r, rows !! k = Some r ∧ interface_of r = i.
Proof.
  unfold row_position. destruct (list_find _ rows) as [[j r]|] eqn:E; [|done]. intros [= <-].
  apply list_find_Some in E as (Hj & Hi & _). by exists r.
Qed.
Lemma row_position_None rows i : row_position interface_of rows i = None → i ∉ interface_of <$> rows.
Proof.
  unfold row_position. destruct (list_find _ rows) as [[j r]|] eqn:E; [done|]. intros _.
  apply list_find_None in E. rewrite list.Forall_forall in E. intros (r & -> & Hr)%list_elem_of_fmap. by apply (E r).
Qed.

(** The row of an interface, opened when there is none. *)
Lemma index_or_insert_ok t known cap rows i now :
  row_rep t cap rows → fits interface_of known cap rows → i ∈ known →
  ∃ k t' rows' r, index_or_insert interface_of started_at fresh t i now = Done (k, t') ∧ row_rep t' cap rows'
    ∧ fits interface_of known cap rows' ∧ rows' !! k = Some r ∧ interface_of r = i
    ∧ r = default (fresh i now) (find_key interface_of i rows)
    ∧ ∀ j, j ≠ i → find_key interface_of j rows' = find_key interface_of j rows.
Proof.
  intros Hr Hf Hi. unfold index_or_insert. rewrite (row_list_ok _ _ _ Hr). cbn [mbind run_bind].
  destruct (row_position interface_of rows i) as [k|] eqn:Ep.
  - apply row_position_Some in Ep as (r & Hk & <-). exists k, t, rows, r. split; [done|]. split; [done|]. split; [done|].
    split; [done|]. split; [done|]. split; [|done]. by rewrite (find_key_at _ rows k r (ft_distinct _ _ _ _ Hf) Hk).
  - apply row_position_None in Ep. pose proof (fits_has_room interface_of known cap rows i Hf Hi Ep) as Hlt.
    destruct (row_capacity_ok t cap rows Hr) as [-> _]. rewrite (proj2 (Z.leb_gt _ _)) by lia. cbn [mbind run_bind].
    destruct (row_push_ok t cap rows (fresh i now) Hr Hlt) as (t' & -> & Hr'). cbn [mbind run_bind].
    rewrite (row_list_ok _ _ _ Hr'). cbn [mbind run_bind]. rewrite length_app. cbn [length]. rewrite Nat.add_1_r.
    exists (length rows), t', (rows ++ [fresh i now]), (fresh i now). split; [done|]. split; [done|].
    assert (Hn : interface_of (fresh i now) ∉ interface_of <$> rows) by (by rewrite fresh_interface).
    split; [apply fits_snoc; [done|by rewrite fresh_interface|done]|].
    split; [by apply list_lookup_middle|]. split; [done|]. split; [by rewrite find_key_none|].
    intros j Hj. rewrite find_key_snoc by done. rewrite decide_False; [done|]. by rewrite fresh_interface.
Qed.

Lemma at_row_ok {A} t known cap rows k r (f : R → A * R) :
  row_rep t cap rows → fits interface_of known cap rows → rows !! k = Some r → interface_of (f r).2 = interface_of r →
  ∃ t', at_row t k f = Done ((f r).1, t') ∧ row_rep t' cap (<[k := (f r).2]> rows) ∧ fits interface_of known cap (<[k := (f r).2]> rows)
    ∧ ∀ j, find_key interface_of j (<[k := (f r).2]> rows)
           = if decide (j = interface_of r) then Some (f r).2 else find_key interface_of j rows.
Proof.
  intros Hr Hf Hk Hi. unfold at_row. rewrite (row_list_ok _ _ _ Hr). cbn [mbind run_bind].
  rewrite (index_lookup _ _ _ Hk). cbn [mbind run_bind].
  destruct (row_set_ok t cap rows k (f r).2 Hr (lookup_lt_Some _ _ _ Hk)) as (t' & -> & Hr'). cbn [mbind run_bind].
  exists t'. split; [done|]. split; [done|]. split; [by eapply fits_insert|].
  intros j. apply find_key_insert; [apply Hf|done|done].
Qed.

(** An operation on the row of [i], opened first if need be; and on the row of [i] if there is one. *)
Lemma open_row_ok {A} t known cap rows i now (f : R → A * R) :
  row_rep t cap rows → fits interface_of known cap rows → i ∈ known → (∀ r, interface_of (f r).2 = interface_of r) →
  let r := default (fresh i now) (find_key interface_of i rows) in
  ∃ k t1 t' rows', index_or_insert interface_of started_at fresh t i now = Done (k, t1)
    ∧ at_row t1 k f = Done ((f r).1, t') ∧ updated interface_of row_rep known cap rows i (Some (f r).2) t' rows'.
Proof.
  intros Hr Hf Hi Hfi r.
  destruct (index_or_insert_ok t known cap rows i now Hr Hf Hi) as (k & t1 & rows1 & r1 & E1 & Hr1 & Hf1 & Hk & Hri & Er & Hj).
  destruct (at_row_ok t1 known cap rows1 k r1 f Hr1 Hf1 Hk (Hfi r1)) as (t2 & E2 & Hr2 & Hf2 & Hfind).
  fold r in Er. subst r1. eexists k, t1, t2, _. split; [done|]. split; [done|]. split; [exact Hr2|]. split; [exact Hf2|].
  intros j. rewrite Hfind, Hri. case_decide; [done|by apply Hj].
Qed.

Lemma open_only_ok t known cap rows i now :
  row_rep t cap rows → fits interface_of known cap rows → i ∈ known →
  ∃ k t' rows', index_or_insert interface_of started_at fresh t i now = Done (k, t')
    ∧ updated interface_of row_rep known cap rows i (Some (default (fresh i now) (find_key interface_of i rows))) t' rows'.
Proof.
  intros Hr Hf Hi.
  destruct (index_or_insert_ok t known cap rows i now Hr Hf Hi) as (k & t1 & rows1 & r1 & E1 & Hr1 & Hf1 & Hk & Hri & Er & Hj).
  exists k, t1, rows1. split; [done|]. split; [done|]. split; [done|]. intros j. case_decide as E; [|by apply Hj].
  subst j. rewrite <- Er, <- Hri. apply (find_key_at interface_of rows1 k r1); [apply Hf1|done].
Qed.

Lemma known_row_ok {A} t known cap rows i (f : R → A * R) :
  row_rep t cap rows → fits interface_of known cap rows → (∀ r, interface_of (f r).2 = interface_of r) →
  match row_position interface_of rows i with
  | None => find_key interface_of i rows = None
  | Some k => ∃ r t' rows', find_key interface_of i rows = Some r ∧ at_row t k f = Done ((f r).1, t')
      ∧ updated interface_of row_rep known cap rows i (Some (f r).2) t' rows'
  end.
Proof.
  intros Hr Hf Hfi. destruct (row_position interface_of rows i) as [k|] eqn:Ep.
  - apply row_position_Some in Ep as (r & Hk & <-).
    destruct (at_row_ok t known cap rows k r f Hr Hf Hk (Hfi r)) as (t2 & E2 & Hr2 & Hf2 & Hfind).
    eexists r, t2, _. split; [apply (find_key_at interface_of rows k r); [apply Hf|done]|]. split; [done|]. by split.
  - apply row_position_None in Ep. by apply find_key_none.
Qed.

End rows.

(** * Announces *)

Module Announces.
Import AnnounceLimit.

Inductive limit_op :=
  | Attached (i : InterfaceId) (now : Z)
  | Recorded (i : InterfaceId) (now : Z)
  | Judged (i : InterfaceId) (now : Z) (policy : IngressControlPolicy)
  | Scheduled (i : InterfaceId) (now : Z) (policy : IngressControlPolicy).
Definition op_interface (op : limit_op) : InterfaceId :=
  match op with Attached i _ | Recorded i _ | Judged i _ _ | Scheduled i _ _ => i end.

(** The answer is whether the announce is to be held. *)
Definition op_do {T} `{RowTable InterfaceAnnounceLimit T} (t : T) (op : limit_op) : run (option bool * T) :=
  match op with
  | Attached i now => t ← interface_attached t i now; Done (None, t)
  | Recorded i now => t ← record t i now; Done (None, t)
  | Judged i now policy => '(held, t) ← should_limit_with_policy t i now policy; Done (Some held, t)
  | Scheduled i now policy => t ← schedule_next_held_release_with_policy t i now policy; Done (None, t)
  end.

Definition row_step (op : limit_op) (r : option InterfaceAnnounceLimit) : option bool * option InterfaceAnnounceLimit :=
  match op with
  | Attached i now => (None, Some (default (fresh i now) r))
  | Recorded i now => (None, Some (recorded now (default (fresh i now) r)))
  | Judged i now policy =>
      match r with
      | None => (Some false, None)
      | Some row => if ic_enabled policy then (Some (judged now policy row).1, Some (judged now policy row).2) else (Some false, Some row)
      end
  | Scheduled i now policy => (None, with_release (saturating_add 64 now (ic_held_release_interval_millis policy)) <$> r)
  end.

Lemma recorded_interface now row : interface (recorded now row) = interface row.
Proof. unfold recorded. by case_match. Qed.
Lemma judged_interface now policy row : interface (judged now policy row).2 = interface row.
Proof. unfold judged. destruct (burst row), (rate_reading row now policy); cbn; try done. by case_match. Qed.

Lemma announce_step {T} `{RowTableLaws InterfaceAnnounceLimit T} :
  refines_step interface row_rep op_interface op_do row_step.
Proof.
  intros t known cap rows op Hr Hf Hi. destruct op as [i now|i now|i now policy|i now policy]; cbn [op_interface op_do] in *.
  - unfold interface_attached, index_or_insert.
    destruct (open_only_ok interface window_started_at fresh ltac:(done) t known cap rows i now Hr Hf Hi) as (k & t' & rows' & -> & Hu).
    cbn [mbind run_bind]. by exists t', rows'.
  - unfold record, index_or_insert.
    destruct (open_row_ok interface window_started_at fresh ltac:(done) t known cap rows i now (λ row, ((), recorded now row)) Hr Hf Hi
      ltac:(intros; apply recorded_interface)) as (k & t1 & t' & rows' & -> & E2 & Hu). cbn [mbind run_bind]. rewrite E2. cbn [mbind run_bind].
    by exists t', rows'.
  - unfold should_limit_with_policy. pose proof (updated_same interface row_rep t known cap rows i Hr Hf) as Hsame.
    destruct (ic_enabled policy) eqn:Een; cbn [negb].
    2: { exists t, rows. cbn [row_step mbind run_bind]. by destruct (find_key interface i rows); rewrite ?Een. }
    rewrite (row_list_ok _ _ _ Hr). cbn [mbind run_bind].
    pose proof (known_row_ok interface t known cap rows i (judged now policy) Hr Hf (judged_interface now policy)) as Hk.
    destruct (row_position interface rows i) as [k|].
    + destruct Hk as (r & t' & rows' & Ef & -> & Hu). cbn [mbind run_bind]. exists t', rows'. cbn [row_step]. rewrite Ef, Een. by split.
    + exists t, rows. cbn [row_step mbind run_bind]. by rewrite Hk in Hsame |- *.
  - unfold schedule_next_held_release_with_policy. pose proof (updated_same interface row_rep t known cap rows i Hr Hf) as Hsame.
    rewrite (row_list_ok _ _ _ Hr). cbn [mbind run_bind].
    pose proof (known_row_ok interface t known cap rows i
      (λ row, ((), with_release (saturating_add 64 now (ic_held_release_interval_millis policy)) row)) Hr Hf ltac:(done)) as Hk.
    destruct (row_position interface rows i) as [k|].
    + destruct Hk as (r & t' & rows' & Ef & -> & Hu). cbn [mbind run_bind]. exists t', rows'. cbn [row_step]. rewrite Ef. by split.
    + exists t, rows. cbn [row_step mbind run_bind]. by rewrite Hk in Hsame |- *.
Qed.

Abbreviation machines := (machines_do_all op_interface row_step).

(** ** A burst holds *)

(** The judgements of [i] come before the burst may end. *)
Definition within_burst (i : InterfaceId) (since : Z) (op : limit_op) : Prop :=
  ∀ now policy, op = Judged i now policy →
    ic_enabled policy = true ∧ (now < saturating_add 64 since (ic_burst_hold_millis policy))%Z.
Definition holds (i : InterfaceId) (op : limit_op) (answer : option bool) : Prop :=
  ∀ now policy, op = Judged i now policy → answer = Some true.

Lemma burst_kept i since row op :
  burst row = Bursting since → op_interface op = i → within_burst i since op →
  holds i op (row_step op (Some row)).1 ∧ ∃ row', (row_step op (Some row)).2 = Some row' ∧ burst row' = Bursting since.
Proof.
  intros Hb <- Hw. destruct op as [i now|i now|i now policy|i now policy]; cbn.
  - split; [done|]. by exists row.
  - split; [done|]. eexists. split; [done|]. unfold recorded. by case_match.
  - destruct (Hw now policy eq_refl) as [-> Hlt]. unfold judged. rewrite Hb. cbn. split; [by intros ? ? [= <- <-]|].
    eexists. split; [done|]. destruct (rate_reading row now policy); [|done..].
    by rewrite (proj2 (Z.leb_gt _ _) Hlt).
  - split; [done|]. by eexists.
Qed.

Lemma burst_machine i since row s ops :
  s i = Some row → burst row = Bursting since → Forall (within_burst i since) ops → Forall2 (holds i) ops (machines s ops).1.
Proof.
  intros Hs Hb Hops. revert s row Hs Hb. induction Hops as [|op ops Hop Hops IH]; intros s row Hs Hb; [constructor|].
  cbn [machines_do_all]. destruct (row_step op (s (op_interface op))) as [a r] eqn:E.
  destruct (machines_do_all _ _ _ ops) as [rest s'] eqn:Em. cbn [fst].
  destruct (decide (op_interface op = i)) as [Hi|Hi].
  - rewrite Hi, Hs in E. destruct (burst_kept i since row op Hb Hi Hop) as [Ha (row' & Hr & Hb')]. rewrite E in Ha, Hr. cbn in Ha, Hr.
    constructor; [done|]. specialize (IH (λ j, if decide (j = op_interface op) then r else s j) row').
    rewrite Em in IH. apply IH; [by rewrite decide_True by (by symmetry); rewrite Hr|done].
  - constructor; [intros now policy ->; done|]. specialize (IH (λ j, if decide (j = op_interface op) then r else s j) row).
    rewrite Em in IH. apply IH; [by rewrite decide_False by congruence|done].
Qed.

(** ** A steady interface is spared *)

(** Its announces come at least [gap] apart, and each judgement comes after the last of them. *)
Fixpoint paced (i : InterfaceId) (gap : Z) (last : option Z) (ops : list limit_op) : Prop :=
  match ops with
  | [] => True
  | op :: ops =>
      if decide (op_interface op = i) then
        match op with
        | Recorded _ now => match last with Some l => (l + gap ≤ now)%Z | None => True end ∧ paced i gap (Some now) ops
        | Judged _ now policy =>
            match last with Some l => (l ≤ now)%Z | None => True end
            ∧ (3 * 1000000 ≤ 2 * ic_announce_burst_frequency_new policy * gap)%Z
            ∧ (3 * 1000000 ≤ 2 * ic_announce_burst_frequency policy * gap)%Z
            ∧ paced i gap last ops
        | _ => paced i gap last ops
        end
      else paced i gap last ops
  end.
Definition spares (i : InterfaceId) (op : limit_op) (answer : option bool) : Prop :=
  ∀ now policy, op = Judged i now policy → answer = Some false.

(** The announces counted in the window took their time. *)
Definition steady (gap : Z) (last : option Z) (row : InterfaceAnnounceLimit) : Prop :=
  burst row = Calm ∧ (0 ≤ window_count row)%Z
  ∧ ((1 ≤ window_count row)%Z → ∃ l, last = Some l ∧ (window_started_at row + (window_count row - 1) * gap ≤ l)%Z).
Definition steady_at (gap : Z) (last : option Z) (r : option InterfaceAnnounceLimit) : Prop :=
  match r with Some row => steady gap last row | None => True end.

Lemma steady_recorded gap last row now :
  (0 ≤ gap)%Z → match last with Some l => (l + gap ≤ now)%Z | None => True end → steady gap last row →
  steady gap (Some now) (recorded now row).
Proof.
  intros Hg Hl (Hb & H0 & Hc). unfold recorded. destruct (Z.eqb_spec (window_count row) 0) as [E|E]; cbn [orb].
  { split; [done|]. split; [cbn; lia|]. intros _. exists now. split; [done|]. cbn. lia. }
  destruct (FREQUENCY_WINDOW_MS <=? saturating_sub now (window_started_at row))%Z.
  { split; [done|]. split; [cbn; lia|]. intros _. exists now. split; [done|]. cbn. lia. }
  destruct Hc as (l & -> & Hw); [lia|]. split; [done|]. cbn. unfold saturating_add, max_width. split; [lia|].
  intros _. exists now. split; [done|]. nia.
Qed.

Lemma steady_under gap last row now policy :
  (0 ≤ gap)%Z → match last with Some l => (l ≤ now)%Z | None => True end → steady gap last row →
  (3 * 1000000 ≤ 2 * ic_announce_burst_frequency_new policy * gap)%Z →
  (3 * 1000000 ≤ 2 * ic_announce_burst_frequency policy * gap)%Z →
  judged now policy row = (false, row).
Proof.
  intros Hg Hl (Hb & H0 & Hc) Hn He. unfold judged. rewrite Hb.
  assert (Hr : rate_reading row now policy ≠ OverLimit); [|by destruct (rate_reading row now policy)].
  unfold rate_reading. cbv zeta.
  set (limit := if (saturating_sub now (created_at row) <? ic_new_interface_millis policy)%Z then _ else _).
  assert (Hlim : (3 * 1000000 ≤ 2 * limit * gap)%Z) by (unfold limit; destruct (_ <? _)%Z; assumption).
  unfold MIN_SAMPLES_TO_JUDGE. destruct (Z.ltb_spec (window_count row) 3); cbn [orb]; [done|].
  destruct (Z.eqb_spec (saturating_sub now (window_started_at row)) 0); [done|].
  destruct Hc as (l & -> & Hw); [lia|]. destruct (Z.compare_spec (window_count row * 1000000) (limit * saturating_sub now (window_started_at row))); [done..|].
  unfold saturating_sub in *. assert ((window_count row - 1) * gap ≤ now - window_started_at row)%Z by lia.
  assert (0 ≤ limit)%Z by nia. assert (limit * ((window_count row - 1) * gap) ≤ limit * (now - window_started_at row))%Z by nia. nia.
Qed.

(** What an operation of the interface does to a steady row, and what the pace asks of the rest. *)
Lemma steady_step i gap last op ops r :
  (0 ≤ gap)%Z → op_interface op = i → steady_at gap last r → paced i gap last (op :: ops) →
  spares i op (row_step op r).1 ∧ ∃ last', steady_at gap last' (row_step op r).2 ∧ paced i gap last' ops.
Proof.
  intros Hg <- Hs Hp. cbn [paced] in Hp. rewrite decide_True in Hp by done.
  assert (Hfresh : ∀ i now l, steady gap l (fresh i now)) by (intros; split; [done|]; cbn; lia).
  destruct op as [i now|i now|i now policy|i now policy]; cbn [op_interface row_step fst snd] in *.
  - split; [done|]. exists last. split; [|done]. destruct r; cbn; [done|apply Hfresh].
  - destruct Hp as [Hl Hp]. split; [done|]. exists (Some now). split; [|done]. cbn. apply (steady_recorded gap last); [done|done|].
    destruct r; cbn; [done|apply Hfresh].
  - destruct Hp as (Hl & Hn & He & Hp). destruct r as [row|]; cbn in *.
    + rewrite (steady_under gap last row now policy) by done. split; [by intros ? ? [= <- <-]; destruct (ic_enabled policy)|].
      exists last. split; [|done]. by destruct (ic_enabled policy).
    + split; [by intros ? ? [= <- <-]|]. by exists last.
  - split; [done|]. exists last. split; [|done]. by destruct r.
Qed.

Lemma steady_machine i gap last s ops :
  (0 ≤ gap)%Z → steady_at gap last (s i) → paced i gap last ops → Forall2 (spares i) ops (machines s ops).1.
Proof.
  intros Hg. revert s last. induction ops as [|op ops IH]; intros s last Hs Hp; [constructor|].
  cbn [machines_do_all]. destruct (row_step op (s (op_interface op))) as [a r] eqn:E.
  destruct (machines_do_all _ _ _ ops) as [rest s'] eqn:Em. cbn [fst].
  destruct (decide (op_interface op = i)) as [Hi|Hi].
  - rewrite Hi in E. destruct (steady_step i gap last op ops (s i) Hg Hi Hs Hp) as [Ha (last' & Hs' & Hp')]. rewrite E in Ha, Hs'.
    constructor; [done|]. specialize (IH (λ j, if decide (j = op_interface op) then r else s j) last').
    rewrite Em in IH. apply IH; [by rewrite decide_True by (by symmetry)|done].
  - constructor; [intros now policy ->; done|]. cbn [paced] in Hp. rewrite decide_False in Hp by done.
    specialize (IH (λ j, if decide (j = op_interface op) then r else s j) last).
    rewrite Em in IH. apply IH; [by rewrite decide_False by congruence|done].
Qed.

(** C17. Announce limits hold a burst and spare a steady interface.  In a table with room for every interface that
    appears, any sequence of announces and judgements completes and treats each interface on its own; an interface
    that has latched a burst has every announce judged before the hold time is over held back; and one whose
    announces, starting from none, always come at least 1.5 periods of its limits apart is never held back. *)
Theorem announce_limits_hold_and_spare {T} `{RowTableLaws InterfaceAnnounceLimit T} (t : T) known cap rows ops i :
  row_rep t cap rows → fits interface known cap rows → Forall (λ op, op_interface op ∈ known) ops →
  ∃ answers t', do_all op_do t ops = Done (answers, t')
    ∧ answers = (machines (λ j, find_key interface j rows) ops).1
    ∧ (∀ row since, find_key interface i rows = Some row → burst row = Bursting since →
         Forall (within_burst i since) ops → Forall2 (holds i) ops answers)
    ∧ (∀ gap, find_key interface i rows = None → (0 ≤ gap)%Z → paced i gap None ops → Forall2 (spares i) ops answers).
Proof.
  intros Hr Hf Hops. destruct (do_all_ok interface row_rep op_interface op_do row_step t known cap rows ops announce_step Hr Hf Hops) as (t' & rows' & E & _ & _).
  eexists _, t'. split; [exact E|]. split; [done|]. split.
  - intros row since Hi Hb Hw. by eapply burst_machine.
  - intros gap Hi Hg Hp. apply (steady_machine i gap None); [done|by rewrite Hi|done].
Qed.
End Announces.

Module SampleAnnounces.
Import AnnounceLimit Announces.
Definition a : InterfaceId := replicate 8 1%Z.
Definition b : InterfaceId := replicate 8 2%Z.
Definition policy : IngressControlPolicy := RNS_DEFAULT_ingress_control.
(** Two announces a second on [a], and three in ten milliseconds on [b], which latch a burst. *)
Definition traffic : list limit_op :=
  [Recorded a 0; Judged a 0 policy; Recorded b 10; Recorded b 15; Recorded b 20; Judged b 20 policy;
   Recorded a 500; Judged a 500 policy; Recorded a 1000; Judged a 1000 policy; Judged b 15019 policy].
Definition bursting : HeapInterfaceAnnounceLimitTable := [mkLimit b 10 10 3 (Bursting 20) 15020].
End SampleAnnounces.

Lemma announce_limits_hold_and_spare_witness :
  (∃ answers t', do_all Announces.op_do ([] : AnnounceLimit.HeapInterfaceAnnounceLimitTable) SampleAnnounces.traffic = Done (answers, t')
    ∧ answers = [None; Some false; None; None; None; Some true; None; Some false; None; Some false; Some true]
    ∧ Forall2 (Announces.spares SampleAnnounces.a) SampleAnnounces.traffic answers)
  ∧ (∃ answers t', do_all Announces.op_do SampleAnnounces.bursting
       [Announces.Judged SampleAnnounces.b 15019 SampleAnnounces.policy] = Done (answers, t') ∧ answers = [Some true]).
Proof.
  assert (Hk : NoDup [SampleAnnounces.a; SampleAnnounces.b]) by (apply (bool_decide_unpack _); reflexivity). split.
  - destruct (Announces.announce_limits_hold_and_spare ([] : AnnounceLimit.HeapInterfaceAnnounceLimitTable) [SampleAnnounces.a; SampleAnnounces.b]
      usize_max [] SampleAnnounces.traffic SampleAnnounces.a) as (answers & t' & E & Ea & _ & Hs).
    + split; [reflexivity|]. split; [reflexivity|]. vm_compute. discriminate.
    + split; [constructor|by intros x Hx%not_elem_of_nil|exact Hk|vm_compute; discriminate].
    + apply (bool_decide_unpack _). reflexivity.
    + exists answers, t'. split; [exact E|]. split; [rewrite Ea; vm_compute; reflexivity|].
      apply (Hs 500%Z); [reflexivity|lia|]. vm_compute. repeat split; discriminate.
  - destruct (Announces.announce_limits_hold_and_spare SampleAnnounces.bursting [SampleAnnounces.a; SampleAnnounces.b]
      usize_max SampleAnnounces.bursting [Announces.Judged SampleAnnounces.b 15019 SampleAnnounces.policy] SampleAnnounces.b) as (answers & t' & E & Ea & Hb & _).
    + split; [reflexivity|]. split; [reflexivity|]. vm_compute. discriminate.
    + split; [apply (bool_decide_unpack _); reflexivity| |exact Hk|vm_compute; discriminate].
      intros x Hx. apply list_elem_of_singleton in Hx as ->. apply elem_of_cons. right. by apply list_elem_of_singleton.
    + apply (bool_decide_unpack _). reflexivity.
    + exists answers, t'. split; [exact E|]. rewrite Ea. vm_compute. reflexivity.
Defined.

(** * Path requests *)

Module PathRequests.
Import PathRequestLimit.

Inductive limit_op :=
  | SentOn (i : InterfaceId) (now : Z)
  | Requested (i : InterfaceId) (now : Z) (policy : IngressControlPolicy).
Definition op_interface (op : limit_op) : InterfaceId := match op with SentOn i _ | Requested i _ _ => i end.

Definition op_do {T} `{RowTable InterfacePathRequestLimit T} (t : T) (op : limit_op) : run (option bool * T) :=
  match op with
  | SentOn i now => t ← record_egress t i now; Done (None, t)
  | Requested i now policy => '(limited, t) ← record_and_should_limit_with_policy t i now policy; Done (Some limited, t)
  end.

Definition row_step (op : limit_op) (r : option InterfacePathRequestLimit) : option bool * option InterfacePathRequestLimit :=
  match op with
  | SentOn i now => (None, Some (counted now (default (fresh i now) r)))
  | Requested i now policy =>
      if ic_enabled policy then
        let x := counted_and_judged now policy (default (fresh i now) r) in (Some x.1, Some x.2)
      else (Some false, r)
  end.

Lemma counted_interface now row : interface (counted now row) = interface row.
Proof. unfold counted. by case_match. Qed.
Lemma counted_and_judged_interface now policy row : interface (counted_and_judged now policy row).2 = interface row.
Proof.
  unfold counted_and_judged. rewrite <- (counted_interface now row). destruct (burst (counted now row)); case_match; done.
Qed.

(** Each interface on its own. *)
Lemma path_request_step {T} `{RowTableLaws InterfacePathRequestLimit T} : refines_step interface row_rep op_interface op_do row_step.
Proof.
  intros t known cap rows op Hr Hf Hi. destruct op as [i now|i now policy]; cbn [op_interface op_do] in *.
  - unfold record_egress, index_or_insert.
    destruct (open_row_ok interface window_start fresh ltac:(done) t known cap rows i now (λ row, ((), counted now row)) Hr Hf Hi
      ltac:(intros; apply counted_interface)) as (k & t1 & t' & rows' & -> & E2 & Hu). cbn [mbind run_bind]. rewrite E2. cbn [mbind run_bind].
    by exists t', rows'.
  - unfold record_and_should_limit_with_policy, index_or_insert. pose proof (updated_same interface row_rep t known cap rows i Hr Hf) as Hsame.
    cbn [row_step]. destruct (ic_enabled policy) eqn:Een; cbn [negb]; [|by exists t, rows].
    destruct (open_row_ok interface window_start fresh ltac:(done) t known cap rows i now (counted_and_judged now policy) Hr Hf Hi
      (counted_and_judged_interface now policy)) as (k & t1 & t' & rows' & -> & E2 & Hu). cbn [mbind run_bind]. rewrite E2. cbn [mbind run_bind].
    by exists t', rows'.
Qed.

(** A burst of path requests holds as long. *)
Lemma path_request_burst i since now policy row :
  burst row = Bursting since → ic_enabled policy = true → (now < saturating_add 64 since (ic_burst_hold_millis policy))%Z →
  (row_step (Requested i now policy) (Some row)).1 = Some true
  ∧ ∃ row', (row_step (Requested i now policy) (Some row)).2 = Some row' ∧ burst row' = Bursting since.
Proof.
  intros Hb He Hlt. cbn [row_step]. rewrite He. change (default (fresh i now) (Some row)) with row. unfold counted_and_judged.
  assert (Hb' : burst (counted now row) = Bursting since) by (unfold counted; by case_match). cbv zeta. rewrite Hb'. cbn [fst snd].
  split; [done|]. eexists. split; [done|]. by rewrite (proj2 (Z.leb_gt _ _) Hlt), andb_false_r.
Qed.
End PathRequests.
