(* ===== verification/RoutingTable.v ===== *)
(** The routing table: [prns-core/src/routing/table/] ([model.rs], [learning.rs], [lifetime.rs],
    [lookup.rs], [removal.rs], [updates.rs], [persistence.rs]).

    The table is four row-aligned stores (routes, announce records, announce ids, announce
    payloads) and an expiry index, all behind traits.  The operations are written over the
    classes that model the traits and run in [run]; the callbacks [on_removed] become the list of
    removed routes, in the order of the calls.  The theorems about it are in [RoutingTableInvariant],
    [RoutingTableLearning], [RoutingTableQueries] and [RoutingTableEvidence], and at a concrete table in [RoutingTableSample]. *)

From S2P Require Import Prelude Wire Dedup AppData Columns Evidence Routes Announce Acceptance Lifetime.

(** * The data *)

Record RoutingTable (R A H D I : Type) := mkTable {
  routes : R;
  route_expiries : I;
  announce_records : A;
  announce_id_history : H;
  announce_app_data : D;
}.
Arguments mkTable {R A H D I}.
Arguments routes {R A H D I}.
Arguments route_expiries {R A H D I}.
Arguments announce_records {R A H D I}.
Arguments announce_id_history {R A H D I}.
Arguments announce_app_data {R A H D I}.

Record ForwardingRoute := mkForwarding {
  fw_hops : Z;
  fw_receiving_interface : InterfaceId;
  fw_next_hop : NextHop;
}.

(** [Announce] and [AnnounceArrival] *)
Record AnnounceMessage := mkAnnounce {
  an_destination : DestinationHash;
  an_public_keys : IdentityPublicKeys;
  an_dotted_name_hash : list Z;
  an_announce_id : AnnounceId;
  an_ratchet : option (list Z);
  an_signature : list Z;
  an_app_data : list Z;
}.

Record AnnounceArrival := mkArrival {
  arr_announce : AnnounceMessage;
  arr_hops : Z;
  arr_arrived_at : InstantMillis;
  arr_receiving_interface : InterfaceId;
  arr_next_hop : NextHop;
  arr_is_path_response : bool;
}.

Record StoredAnnounce := mkStored {
  st_hops : Z;
  st_receiving_interface : InterfaceId;
  st_next_hop : NextHop;
  st_announce : AnnounceMessage;
}.

Inductive RouteRemovalCause := Expired | Evicted | InterfaceGone | Dropped.
Record RemovedRoute := mkRemoved {
  rem_destination : DestinationHash;
  rem_receiving_interface : InterfaceId;
  rem_cause : RouteRemovalCause;
}.

Inductive Eviction := EvictedOne | NothingToEvict.
Inductive DropCause := RoutingTableFull | PayloadArenaFull.
Inductive UpsertRouteOutcome := Inserted | Updated | UpsertDropped (cause : DropCause).

Inductive AnnounceIdRing := RingTable (ids : list AnnounceId) | RingWire (bytes : list Z).
Record PersistedRouteRow := mkPersisted {
  pr_destination : DestinationHash;
  pr_entry : RouteEntry;
  pr_public_keys : IdentityPublicKeys;
  pr_dotted_name_hash : list Z;
  pr_announce_id : AnnounceId;
  pr_ratchet : option (list Z);
  pr_signature : list Z;
  pr_app_data : list Z;
  pr_announce_id_ring : AnnounceIdRing;
}.
Inductive SeedRouteOutcome := Seeded | AlreadyPresent | SeedTableFull | AppDataArenaFull.

(** [crypto::sha256], [derive_identity_hash] *)
Definition sha256 `{Sha256} (data : list Z) : list Z := hasher_finalize (hasher_update hasher_new data).
Definition derive_identity_hash `{Sha256} (keys : IdentityPublicKeys) : run (list Z) :=
  slice (sha256 (encryption keys ++ signing keys)) 0 TRUNCATED_HASH_BYTE_LEN.

(** [AnnounceIdRing::ids] and [len] *)
Fixpoint wire_ids (fuel : nat) (bytes : list Z) : list AnnounceId :=
  match fuel with
  | O => []
  | S fuel =>
      match split_at_checked ANNOUNCE_ID_WIRE_LEN bytes with
      | None => []
      | Some (chunk, rest) => AnnounceId_from_wire chunk :: wire_ids fuel rest
      end
  end.
Definition ring_ids (r : AnnounceIdRing) : list AnnounceId :=
  match r with
  | RingTable ids => ids
  | RingWire bytes => wire_ids (S (length bytes)) bytes
  end.
Definition ring_len (r : AnnounceIdRing) : nat :=
  match r with
  | RingTable ids => length ids
  | RingWire bytes => length bytes `div` ANNOUNCE_ID_WIRE_LEN
  end.

Section operations.
Context {R A H D I : Type}
  `{RouteTable R, AnnounceRecordTable A, AnnounceIdHistory H, AnnounceAppData D, RouteExpiryIndex I}.
Abbreviation table := (RoutingTable R A H D I).
Implicit Types (t : table) (i row : nat) (interfaces : AttachedInterfaces) (warmth : RouteWarmth)
  (removed : list RemovedRoute).

Definition set_routes t (r : R) : table :=
  mkTable r (route_expiries t) (announce_records t) (announce_id_history t) (announce_app_data t).
Definition set_expiries t (x : I) : table :=
  mkTable (routes t) x (announce_records t) (announce_id_history t) (announce_app_data t).
Definition set_records t (a : A) : table :=
  mkTable (routes t) (route_expiries t) a (announce_id_history t) (announce_app_data t).
Definition set_history t (h : H) : table :=
  mkTable (routes t) (route_expiries t) (announce_records t) h (announce_app_data t).
Definition set_app_data t (d : D) : table :=
  mkTable (routes t) (route_expiries t) (announce_records t) (announce_id_history t) d.

(** * Lifetime *)

Definition last_active_at t i : run InstantMillis :=
  learned ← cell (rt_learned_at (routes t)) i;
  activity ← cell (rt_last_route_activity_at (routes t)) i;
  Done (Z.max learned activity).

Definition expiry_from_anchor t (anchor : InstantMillis) i interfaces warmth : run InstantMillis :=
  receiving ← cell (rt_receiving_interfaces (routes t)) i;
  let network_expiry :=
    match descriptor_for interfaces receiving with
    | Some descriptor => saturating_add 64 anchor (route_expiry_millis (d_mode descriptor))
    | None => default anchor (warmth receiving)
    end in
  ret ← cell (rt_retentions (routes t)) i;
  learned ← cell (rt_learned_at (routes t)) i;
  Done (constrain_expiry ret learned network_expiry).

Definition expiry_of_with_warmth t i interfaces warmth : run InstantMillis :=
  anchor ← last_active_at t i;
  expiry_from_anchor t anchor i interfaces warmth.

Definition expiry_of t i interfaces : run InstantMillis :=
  expiry_of_with_warmth t i interfaces no_warmth.

Definition gate_expiry_of t i interfaces : run InstantMillis :=
  r ← cell (rt_responsiveness (routes t)) i;
  match r with
  | Responsive => expiry_of t i interfaces
  | Unknown | Unresponsive =>
      learned ← cell (rt_learned_at (routes t)) i;
      expiry_from_anchor t learned i interfaces no_warmth
  end.

(** * Removal *)

Definition route_removal_at t row (cause : RouteRemovalCause) : run RemovedRoute :=
  d ← cell (rt_destinations (routes t)) row;
  ri ← cell (rt_receiving_interfaces (routes t)) row;
  Done (mkRemoved d ri cause).

Definition remove_route_at t row : run table :=
  if (rt_len (routes t) =? 0)%nat then Panic else
  let last := rt_len (routes t) - 1 in
  freed ← cell (ar_app_data_handles (announce_records t)) row;
  app ← match freed with
        | Some handle => ad_free (announce_app_data t) handle
        | None => Done (announce_app_data t)
        end;
  rs ← rt_swap_remove (routes t) row last;
  ars ← ar_swap_remove (announce_records t) row last;
  ids ← ah_swap_remove (announce_id_history t) row last;
  ix ← ei_swap_remove (route_expiries t) row last;
  Done (mkTable rs ix ars ids app).

Definition drop_route t (destination : DestinationHash) : run (option RemovedRoute * table) :=
  o ← index_of (routes t) destination;
  match o with
  | None => Done (None, t)
  | Some row =>
      removed ← route_removal_at t row Dropped;
      t ← remove_route_at t row;
      Done (Some removed, t)
  end.

(** The loop that [drop_routes_via] and [drop_routes_for_identity] share; [goes t row] is their
    test. *)
Fixpoint drop_loop (goes : table → nat → run bool) (fuel : nat) t row removed (dropped : nat) :
    run (nat * list RemovedRoute * table) :=
  match fuel with
  | O => OutOfFuel
  | S fuel =>
      if (row <? rt_len (routes t))%nat then
        b ← goes t row;
        if b : bool then
          r ← route_removal_at t row Dropped;
          t ← remove_route_at t row;
          drop_loop goes fuel t row (removed ++ [r]) (S dropped)
        else drop_loop goes fuel t (S row) removed dropped
      else Done (dropped, removed, t)
  end.

Definition drop_routes_via t (transport : TransportId) : run (nat * list RemovedRoute * table) :=
  drop_loop (λ t row, n ← cell (rt_next_hops (routes t)) row; Done (bool_decide (n = Via transport)))
    (S (rt_len (routes t))) t 0 [] 0.

Definition drop_routes_for_identity `{Sha256} t (identity : list Z) :
    run (nat * list RemovedRoute * table) :=
  drop_loop (λ t row, keys ← cell (ar_public_keys (announce_records t)) row;
                      h ← derive_identity_hash keys; Done (bool_decide (h = identity)))
    (S (rt_len (routes t))) t 0 [] 0.

(** * Culling *)

Definition remove_expired_route t row interfaces : run (RemovedRoute * table) :=
  receiving ← cell (rt_receiving_interfaces (routes t)) row;
  let cause := match descriptor_for interfaces receiving with Some _ => Expired | None => InterfaceGone end in
  r ← route_removal_at t row cause;
  t ← remove_route_at t row;
  Done (r, t).

Fixpoint cull_linear_loop (fuel : nat) t i (now : InstantMillis) interfaces warmth removed (culled : nat) :
    run (nat * list RemovedRoute * table) :=
  match fuel with
  | O => OutOfFuel
  | S fuel =>
      if (i <? rt_len (routes t))%nat then
        e ← expiry_of_with_warmth t i interfaces warmth;
        if (e <=? now)%Z then
          '(r, t) ← remove_expired_route t i interfaces;
          cull_linear_loop fuel t i now interfaces warmth (removed ++ [r]) (S culled)
        else cull_linear_loop fuel t (S i) now interfaces warmth removed culled
      else Done (culled, removed, t)
  end.

Definition cull_expired_routes_with_warmth t (now : InstantMillis) interfaces warmth :
    run (nat * list RemovedRoute * table) :=
  cull_linear_loop (S (rt_len (routes t))) t 0 now interfaces warmth [] 0.

Definition cull_expired_routes t (now : InstantMillis) interfaces :
    run (nat * list RemovedRoute * table) :=
  cull_expired_routes_with_warmth t now interfaces no_warmth.

Fixpoint cull_indexed_loop (fuel : nat) t (now : InstantMillis) interfaces warmth removed (culled : nat) :
    run (nat * list RemovedRoute * table) :=
  match fuel with
  | O => OutOfFuel
  | S fuel =>
      '(o, ix) ← ei_first_expired (route_expiries t) (rt_len (routes t)) now
                   (λ row, expiry_of_with_warmth t row interfaces warmth);
      let t := set_expiries t ix in
      match o with
      | None => Done (culled, removed, t)
      | Some i =>
          '(r, t) ← remove_expired_route t i interfaces;
          cull_indexed_loop fuel t now interfaces warmth (removed ++ [r]) (S culled)
      end
  end.

Definition cull_expired_routes_indexed_with_warmth t (now : InstantMillis) interfaces warmth :
    run (nat * list RemovedRoute * table) :=
  if negb (INDEXED (I := I)) then cull_expired_routes_with_warmth t now interfaces warmth else
  '(b, ix) ← ei_prefers_linear_cull (route_expiries t) (rt_len (routes t)) now;
  let t := set_expiries t ix in
  if b : bool then
    ix ← ei_invalidate (route_expiries t);
    cull_expired_routes_with_warmth (set_expiries t ix) now interfaces warmth
  else cull_indexed_loop (S (rt_len (routes t))) t now interfaces warmth [] 0.

Definition soonest_route_expiry_with_warmth t interfaces warmth : run (option InstantMillis) :=
  min_from (λ i, expiry_of_with_warmth t i interfaces warmth) (rt_len (routes t)) 0 None.

Definition soonest_route_expiry_indexed_with_warmth t interfaces warmth :
    run (option InstantMillis * table) :=
  '(o, ix) ← ei_earliest_exact (route_expiries t) (rt_len (routes t))
               (λ row, expiry_of_with_warmth t row interfaces warmth);
  Done (o, set_expiries t ix).

Definition invalidate_route_expiries t : run table :=
  ix ← ei_invalidate (route_expiries t); Done (set_expiries t ix).

(** * Learning *)

Definition destination_capacity t : nat :=
  rt_capacity (routes t) `min` ar_capacity (announce_records t).

Fixpoint expiries_from t interfaces warmth (todo i : nat) : run (list InstantMillis) :=
  match todo with
  | O => Done []
  | S todo =>
      e ← expiry_of_with_warmth t i interfaces warmth;
      es ← expiries_from t interfaces warmth todo (S i);
      Done (e :: es)
  end.

Definition evict_route_nearest_expiry t interfaces warmth removed :
    run (Eviction * list RemovedRoute * table) :=
  es ← expiries_from t interfaces warmth (rt_len (routes t)) 0;
  match argmin es with
  | None => Done (NothingToEvict, removed, t)
  | Some i =>
      r ← route_removal_at t i Evicted;
      t ← remove_route_at t i;
      Done (EvictedOne, removed ++ [r], t)
  end.

(** The two attempts of [insert_new_route] to place the payload. *)
Definition insert_payload t (app : list Z) interfaces warmth removed :
    run (option AppDataHandle * list RemovedRoute * table) :=
  '(first, d) ← ad_insert (announce_app_data t) app;
  let t := set_app_data t d in
  match first with
  | Ok handle => Done (Some handle, removed, t)
  | Err _ =>
      '(ev, removed, t) ← evict_route_nearest_expiry t interfaces warmth removed;
      match ev with
      | NothingToEvict => Done (None, removed, t)
      | EvictedOne =>
          '(second, d) ← ad_insert (announce_app_data t) app;
          let t := set_app_data t d in
          match second with
          | Ok handle => Done (Some handle, removed, t)
          | Err _ => Done (None, removed, t)
          end
      end
  end.

Definition learned_entry (arrival : AnnounceArrival) (ret : RouteRetention) : RouteEntry :=
  mkEntry (arr_hops arrival) (arr_arrived_at arrival) 0 Unknown (arr_receiving_interface arrival)
    (arr_next_hop arrival) ret.
Definition announce_entry (announce : AnnounceMessage) (handle : AppDataHandle) : AnnounceRecord :=
  mkRecord (an_public_keys announce) (an_dotted_name_hash announce) (an_announce_id announce)
    (an_signature announce) (an_ratchet announce) (Some handle).

(** Pushing the row into both tables, undone when the second one is full; the common tail of
    [insert_new_route] and [seed_route]. *)
Definition push_rows t (handle : AppDataHandle) (d : DestinationHash) (id : RouteEvidenceId)
    (e : RouteEntry) (a : AnnounceRecord) : run (option nat * table) :=
  '(pushed, rs) ← rt_push (routes t) d id e;
  match pushed with
  | Err TableFull =>
      app ← ad_free (announce_app_data t) handle;
      Done (None, set_app_data (set_routes t rs) app)
  | Ok routes_slot =>
      let t := set_routes t rs in
      '(ar, ars) ← ar_push (announce_records t) a;
      match ar with
      | Err _ =>
          app ← ad_free (announce_app_data t) handle;
          rs ← rt_swap_remove (routes t) routes_slot (rt_len (routes t) - 1);
          Done (None, set_routes (set_app_data (set_records t ars) app) rs)
      | Ok _ => Done (Some routes_slot, set_records t ars)
      end
  end.

(** The rest of [insert_new_route], once the payload is placed. *)
Definition store_new_route t (arrival : AnnounceArrival) (evidence_id : RouteEvidenceId)
    (ret : RouteRetention) (handle : AppDataHandle) interfaces warmth removed :
    run (UpsertRouteOutcome * list RemovedRoute * table) :=
  let announce := arr_announce arrival in
  '(o, t) ← push_rows t handle (an_destination announce) evidence_id (learned_entry arrival ret)
              (announce_entry announce handle);
  match o with
  | None => Done (UpsertDropped RoutingTableFull, removed, t)
  | Some routes_slot =>
      '(_, ids) ← ah_remember (announce_id_history t) routes_slot (an_announce_id announce);
      let t := set_history t ids in
      expiry ← expiry_of_with_warmth t routes_slot interfaces warmth;
      ix ← ei_insert (route_expiries t) routes_slot expiry;
      Done (Inserted, removed, set_expiries t ix)
  end.

Definition insert_new_route t (arrival : AnnounceArrival) (evidence_id : RouteEvidenceId)
    (ret : RouteRetention) interfaces warmth removed :
    run (UpsertRouteOutcome * list RemovedRoute * table) :=
  if (destination_capacity t <=? rt_len (routes t))%nat
  then Done (UpsertDropped RoutingTableFull, removed, t) else
  '(placed, removed, t) ←
    insert_payload t (an_app_data (arr_announce arrival)) interfaces warmth removed;
  match placed with
  | None => Done (UpsertDropped PayloadArenaFull, removed, t)
  | Some handle => store_new_route t arrival evidence_id ret handle interfaces warmth removed
  end.

Definition refresh_existing_route t i (arrival : AnnounceArrival) (replacement : RouteEvidenceId)
    (ret : RouteRetention) interfaces warmth : run (UpsertRouteOutcome * table) :=
  let announce := arr_announce arrival in
  ri ← cell (rt_receiving_interfaces (routes t)) i;
  nh ← cell (rt_next_hops (routes t)) i;
  let path_changed := negb (bool_decide (ri = arr_receiving_interface arrival))
                      || negb (bool_decide (nh = arr_next_hop arrival)) in
  h ← cell (ar_app_data_handles (announce_records t)) i;
  match h with
  | None => Done (UpsertDropped PayloadArenaFull, t)
  | Some handle =>
      '(replaced, d) ← ad_replace (announce_app_data t) handle (an_app_data announce);
      let t := set_app_data t d in
      match replaced with
      | Err _ => Done (UpsertDropped PayloadArenaFull, t)
      | Ok _ =>
          rs ← rt_set_row (routes t) i (learned_entry arrival ret);
          rs ← (if path_changed then rt_set_evidence_id rs i replacement else Done rs);
          ars ← ar_set_row (announce_records t) i (announce_entry announce handle);
          '(_, ids) ← ah_remember (announce_id_history t) i (an_announce_id announce);
          let t := mkTable rs (route_expiries t) ars ids (announce_app_data t) in
          expiry ← expiry_of_with_warmth t i interfaces warmth;
          ix ← ei_update (route_expiries t) i expiry;
          Done (Updated, set_expiries t ix)
      end
  end.

Definition upsert_route_with_retention_and_warmth t (arrival : AnnounceArrival)
    (replacement : RouteEvidenceId) (ret : RouteRetention) interfaces warmth :
    run (UpsertRouteOutcome * list RemovedRoute * table) :=
  o ← index_of (routes t) (an_destination (arr_announce arrival));
  match o with
  | Some i =>
      '(outcome, t) ← refresh_existing_route t i arrival replacement ret interfaces warmth;
      Done (outcome, [], t)
  | None =>
      '(removed, t) ←
        (if (destination_capacity t <=? rt_len (routes t))%nat then
           '(_, removed, t) ← cull_expired_routes_with_warmth t (arr_arrived_at arrival) interfaces warmth;
           if (destination_capacity t <=? rt_len (routes t))%nat then
             '(_, removed, t) ← evict_route_nearest_expiry t interfaces warmth removed;
             Done (removed, t)
           else Done (removed, t)
         else Done ([], t));
      insert_new_route t arrival replacement ret interfaces warmth removed
  end.

Definition upsert_route_with_warmth t arrival replacement interfaces warmth :=
  upsert_route_with_retention_and_warmth t arrival replacement Network interfaces warmth.
Definition upsert_route t arrival replacement interfaces :=
  upsert_route_with_warmth t arrival replacement interfaces no_warmth.

(** * Lookup *)

Definition route_evidence_row_hint (row : nat) : Z :=
  if (Z.of_nat row <=? u16_max)%Z then Z.of_nat row else u16_max.
Definition route_evidence_scan_start (hint : Z) (len : nat) : nat :=
  if (hint =? u16_max)%Z then len - 1 else Z.to_nat hint `min` (len - 1).

Definition stored_announce_for t (destination : DestinationHash) : run (option StoredAnnounce) :=
  o ← index_of (routes t) destination;
  match o with
  | None => Done None
  | Some i =>
      h ← cell (ar_app_data_handles (announce_records t)) i;
      match h with
      | None => Done None
      | Some handle =>
          app ← ad_get (announce_app_data t) handle;
          hp ← cell (rt_hops (routes t)) i;
          ri ← cell (rt_receiving_interfaces (routes t)) i;
          nh ← cell (rt_next_hops (routes t)) i;
          d ← cell (rt_destinations (routes t)) i;
          pk ← cell (ar_public_keys (announce_records t)) i;
          nm ← cell (ar_dotted_name_hashes (announce_records t)) i;
          id ← cell (ar_announce_ids (announce_records t)) i;
          ra ← cell (ar_ratchets (announce_records t)) i;
          sg ← cell (ar_signatures (announce_records t)) i;
          Done (Some (mkStored hp ri nh (mkAnnounce d pk nm id ra sg app)))
      end
  end.

Definition app_data_for t destination : run (option (list Z)) :=
  o ← stored_announce_for t destination;
  Done (option_map (λ s, an_app_data (st_announce s)) o).

(** [self.index_of(destination).map(|i| ..)] *)
Definition at_destination {B} t destination (f : nat → run B) : run (option B) :=
  o ← index_of (routes t) destination;
  match o with None => Done None | Some i => b ← f i; Done (Some b) end.

Definition hop_count_to t destination : run (option Z) :=
  at_destination t destination (λ i, cell (rt_hops (routes t)) i).
Definition has_route t destination : run bool :=
  o ← index_of (routes t) destination; Done (bool_decide (is_Some o)).
Definition responsiveness_of t destination : run (option RouteResponsiveness) :=
  at_destination t destination (λ i, cell (rt_responsiveness (routes t)) i).

Definition path_row_at t i : run RouteEntry := entry_at (routes t) i.
Definition path_row t destination : run (option RouteEntry) :=
  at_destination t destination (path_row_at t).
Definition path_row_with_expiry t destination interfaces warmth :
    run (option (RouteEntry * InstantMillis)) :=
  at_destination t destination (λ i,
    e ← path_row_at t i; x ← expiry_of_with_warmth t i interfaces warmth; Done (e, x)).

Definition route_evidence_handle_for t destination : run (option RouteEvidenceHandle) :=
  at_destination t destination (λ row,
    id ← cell (rt_evidence_ids (routes t)) row;
    Done (mkHandle id (route_evidence_row_hint row))).

(** [for row in (0..=start).rev()]; [todo] rows remain, the next one is [todo - 1]. *)
Fixpoint resolve_loop t (handle : RouteEvidenceHandle) (todo : nat) :
    run (option nat * RouteEvidenceHandle) :=
  match todo with
  | O => Done (None, handle)
  | S row =>
      id ← cell (rt_evidence_ids (routes t)) row;
      if (id =? handle_id handle)%Z
      then Done (Some row, mkHandle (handle_id handle) (route_evidence_row_hint row))
      else resolve_loop t handle row
  end.
Definition resolve_route_evidence t (handle : RouteEvidenceHandle) :
    run (option nat * RouteEvidenceHandle) :=
  let len := rt_len (routes t) in
  if (len =? 0)%nat then Done (None, handle) else
  resolve_loop t handle (S (route_evidence_scan_start (row_hint handle) len)).

Definition existing_route_for t destination interfaces : run (option ExistingRoute) :=
  at_destination t destination (λ i,
    hp ← cell (rt_hops (routes t)) i;
    x ← gate_expiry_of t i interfaces;
    ids ← ah_history (announce_id_history t) i;
    r ← cell (rt_responsiveness (routes t)) i;
    ri ← cell (rt_receiving_interfaces (routes t)) i;
    Done (mkExisting hp x ids r (d_gravity <$> descriptor_for interfaces ri))).

Definition forwarding_route_for t destination : run (option ForwardingRoute) :=
  at_destination t destination (λ i,
    hp ← cell (rt_hops (routes t)) i;
    ri ← cell (rt_receiving_interfaces (routes t)) i;
    nh ← cell (rt_next_hops (routes t)) i;
    Done (mkForwarding hp ri nh)).

(** * Updates *)

(** [self.routes.set_row(i, RouteEntry { .. })] with fields of the row replaced *)
Definition update_row t i (f : RouteEntry → RouteEntry) : run table :=
  e ← entry_at (routes t) i;
  rs ← rt_set_row (routes t) i (f e);
  Done (set_routes t rs).

Definition with_activity (now : InstantMillis) (e : RouteEntry) : RouteEntry :=
  mkEntry (hops e) (learned_at e) now (responsiveness e) (receiving_interface e) (next_hop e) (retention e).
Definition with_responsiveness (r : RouteResponsiveness) (e : RouteEntry) : RouteEntry :=
  mkEntry (hops e) (learned_at e) (last_route_activity_at e) r (receiving_interface e) (next_hop e) (retention e).
Definition with_hops (h : Z) (e : RouteEntry) : RouteEntry :=
  mkEntry h (learned_at e) (last_route_activity_at e) (responsiveness e) (receiving_interface e)
    (next_hop e) (retention e).

Definition apply_route_evidence t (handle : RouteEvidenceHandle) (observed_at : InstantMillis) :
    run (bool * RouteEvidenceHandle * table) :=
  '(o, handle) ← resolve_route_evidence t handle;
  match o with
  | None => Done (false, handle, t)
  | Some i =>
      activity ← cell (rt_last_route_activity_at (routes t)) i;
      let last_route_activity := Z.max activity observed_at in
      r ← cell (rt_responsiveness (routes t)) i;
      let changed := negb (last_route_activity =? activity)%Z || negb (bool_decide (r = Responsive)) in
      if negb changed then Done (false, handle, t) else
      t ← update_row t i (λ e, with_responsiveness Responsive (with_activity last_route_activity e));
      t ← invalidate_route_expiries t;
      Done (true, handle, t)
  end.

Definition mark_unresponsive_if_not_active_since t (handle : RouteEvidenceHandle)
    (attempt_started_at : InstantMillis) : run (bool * RouteEvidenceHandle * table) :=
  '(o, handle) ← resolve_route_evidence t handle;
  match o with
  | None => Done (false, handle, t)
  | Some i =>
      last_active ← last_active_at t i;
      r ← cell (rt_responsiveness (routes t)) i;
      if (attempt_started_at <? last_active)%Z || bool_decide (r = Unresponsive)
      then Done (false, handle, t) else
      t ← update_row t i (with_responsiveness Unresponsive);
      Done (true, handle, t)
  end.

Definition mark_responsiveness t destination (r : RouteResponsiveness) : run table :=
  o ← index_of (routes t) destination;
  match o with None => Done t | Some i => update_row t i (with_responsiveness r) end.

Definition rebalance_hops t destination (h : Z) : run table :=
  o ← index_of (routes t) destination;
  match o with None => Done t | Some i => update_row t i (with_hops h) end.

Definition note_relayed t destination (now : InstantMillis) : run table :=
  o ← index_of (routes t) destination;
  match o with
  | None => Done t
  | Some i => t ← update_row t i (with_activity now); invalidate_route_expiries t
  end.

Definition note_relayed_with_warmth t destination (now : InstantMillis) interfaces warmth : run table :=
  o ← index_of (routes t) destination;
  match o with
  | None => Done t
  | Some i =>
      t ← update_row t i (with_activity now);
      expiry ← expiry_of_with_warmth t i interfaces warmth;
      ix ← ei_update (route_expiries t) i expiry;
      Done (set_expiries t ix)
  end.

Definition repoint_routes t (previous current : InterfaceId) (now : InstantMillis) : run (nat * table) :=
  '(moved, rs) ← repoint_receiving_interface (routes t) previous current now;
  let t := set_routes t rs in
  if (moved =? 0)%nat then Done (moved, t) else
  t ← invalidate_route_expiries t;
  Done (moved, t).

(** * Persistence *)

Definition persisted_row_at t i : run PersistedRouteRow :=
  d ← cell (rt_destinations (routes t)) i;
  e ← path_row_at t i;
  pk ← cell (ar_public_keys (announce_records t)) i;
  nm ← cell (ar_dotted_name_hashes (announce_records t)) i;
  id ← cell (ar_announce_ids (announce_records t)) i;
  ra ← cell (ar_ratchets (announce_records t)) i;
  sg ← cell (ar_signatures (announce_records t)) i;
  h ← cell (ar_app_data_handles (announce_records t)) i;
  app ← match h with None => Done [] | Some handle => ad_get (announce_app_data t) handle end;
  ids ← ah_history (announce_id_history t) i;
  Done (mkPersisted d e pk nm id ra sg app (RingTable ids)).

Fixpoint persisted_from t (todo i : nat) : run (list PersistedRouteRow) :=
  match todo with
  | O => Done []
  | S todo =>
      ret ← cell (rt_retentions (routes t)) i;
      if bool_decide (ret = Network) then
        p ← persisted_row_at t i;
        ps ← persisted_from t todo (S i);
        Done (p :: ps)
      else persisted_from t todo (S i)
  end.
Definition persisted_rows t : run (list PersistedRouteRow) := persisted_from t (rt_len (routes t)) 0.

Definition persisted_row t destination : run (option PersistedRouteRow) :=
  o ← index_of (routes t) destination;
  match o with
  | None => Done None
  | Some i =>
      ret ← cell (rt_retentions (routes t)) i;
      match ret with
      | Network => p ← persisted_row_at t i; Done (Some p)
      | Ephemeral _ => Done None
      end
  end.

Fixpoint remember_all_ids (h : H) (slot : nat) (ids : list AnnounceId) : run H :=
  match ids with
  | [] => Done h
  | id :: ids => '(_, h) ← ah_remember h slot id; remember_all_ids h slot ids
  end.

Definition with_retention (r : RouteRetention) (e : RouteEntry) : RouteEntry :=
  mkEntry (hops e) (learned_at e) (last_route_activity_at e) (responsiveness e)
    (receiving_interface e) (next_hop e) r.

Definition seed_route t (p : PersistedRouteRow) (evidence_id : RouteEvidenceId) :
    run (SeedRouteOutcome * table) :=
  o ← index_of (routes t) (pr_destination p);
  match o with
  | Some _ => Done (AlreadyPresent, t)
  | None =>
      if (destination_capacity t <=? rt_len (routes t))%nat then Done (SeedTableFull, t) else
      '(placed, d) ← ad_insert (announce_app_data t) (pr_app_data p);
      let t := set_app_data t d in
      match placed with
      | Err _ => Done (AppDataArenaFull, t)
      | Ok handle =>
          '(o, t) ← push_rows t handle (pr_destination p) evidence_id
                      (with_retention Network (pr_entry p))
                      (mkRecord (pr_public_keys p) (pr_dotted_name_hash p) (pr_announce_id p)
                         (pr_signature p) (pr_ratchet p) (Some handle));
          match o with
          | None => Done (SeedTableFull, t)
          | Some routes_slot =>
              ids ← remember_all_ids (announce_id_history t) routes_slot (ring_ids (pr_announce_id_ring p));
              t ← invalidate_route_expiries (set_history t ids);
              Done (Seeded, t)
          end
      end
  end.
End operations.
