(* ===== verification/RoutingTableInvariant.v ===== *)
(** The routing table's invariant, and the operations that remove routes: culling by a scan and
    through the expiry index remove exactly the expired routes, dropping removes exactly the
    routes named. *)

From stdpp Require Import gmap.
From S2P Require Import Prelude Wire Dedup AppData Columns Evidence Routes Announce Acceptance Lifetime RoutingTable.

(** * What the table holds *)

(** One destination's route: its row, its record with the payload handle, its payload and its
    announce ids. *)
Record StoredRoute := mkStoredRoute {
  sr_row : RouteRow;
  sr_record : AnnounceRecord;
  sr_handle : AppDataHandle;
  sr_app : list Z;
  sr_ids : list AnnounceId;
}.

Definition sr_destination (s : StoredRoute) : DestinationHash := row_destination (sr_row s).
Definition sr_entry (s : StoredRoute) : RouteEntry := row_entry (sr_row s).
Definition sr_evidence (s : StoredRoute) : RouteEvidenceId := row_evidence (sr_row s).

(** The payload store's contents. *)
Definition payload (s : StoredRoute) : nat * list Z := (sr_handle s, sr_app s).
Definition payloads (v : list StoredRoute) : gmap nat (list Z) := list_to_map (payload <$> v).

(** When a route expires. *)
Definition expiry_from (interfaces : AttachedInterfaces) (warmth : RouteWarmth)
    (anchor : InstantMillis) (e : RouteEntry) : InstantMillis :=
  constrain_expiry (retention e) (learned_at e)
    match descriptor_for interfaces (receiving_interface e) with
    | Some descriptor => saturating_add 64 anchor (route_expiry_millis (d_mode descriptor))
    | None => default anchor (warmth (receiving_interface e))
    end.
Definition entry_expiry (interfaces : AttachedInterfaces) (warmth : RouteWarmth) (e : RouteEntry) :
    InstantMillis :=
  expiry_from interfaces warmth (Z.max (learned_at e) (last_route_activity_at e)) e.
Definition sr_expiry interfaces warmth (s : StoredRoute) : InstantMillis :=
  entry_expiry interfaces warmth (sr_entry s).

(** ** Lemmas on payloads *)

Lemma payloads_perm v v' :
  NoDup (sr_handle <$> v) → v ≡ₚ v' → payloads v = payloads v'.
Proof.
  intros Hnd Hp. unfold payloads. apply list_to_map_proper; [|by apply fmap_Permutation].
  rewrite <- list_fmap_compose. exact Hnd.
Qed.

Lemma payloads_lookup v i s :
  NoDup (sr_handle <$> v) → v !! i = Some s → payloads v !! sr_handle s = Some (sr_app s).
Proof.
  intros Hnd Hi. unfold payloads. apply elem_of_list_to_map.
  - rewrite <- list_fmap_compose. exact Hnd.
  - change (sr_handle s, sr_app s) with (payload s). apply list_elem_of_fmap_2.
    by eapply list_elem_of_lookup_2.
Qed.

Lemma payloads_fresh v h : payloads v !! h = None → h ∉ sr_handle <$> v.
Proof.
  unfold payloads. intros Hn. apply not_elem_of_list_to_map_2 in Hn.
  by rewrite <- list_fmap_compose in Hn.
Qed.

Lemma payloads_cons s v : payloads (s :: v) = <[sr_handle s := sr_app s]> (payloads v).
Proof. done. Qed.

(** Handles and payloads after a removal. *)
Lemma payloads_removed v i s :
  NoDup (sr_handle <$> v) → v !! i = Some s →
  NoDup (sr_handle <$> swap_removed v i)
  ∧ payloads (swap_removed v i) = delete (sr_handle s) (payloads v).
Proof.
  intros Hnd Hi. pose proof (swap_removed_perm v i s Hi) as Hp.
  assert (Hnd' := Hnd). rewrite <- Hp in Hnd'. cbn in Hnd'. apply list.NoDup_cons in Hnd' as [Hni Hnd'].
  split; [done|]. rewrite <- (payloads_perm _ _ (ltac:(by rewrite Hp) : NoDup (sr_handle <$> (s :: swap_removed v i))) Hp).
  rewrite payloads_cons. symmetry. apply delete_insert_id.
  unfold payloads. apply not_elem_of_list_to_map_1. by rewrite <- list_fmap_compose.
Qed.

Lemma insert_perm {X} (v : list X) i s s' :
  v !! i = Some s → ∃ rest, v ≡ₚ s :: rest ∧ <[i := s']> v ≡ₚ s' :: rest.
Proof.
  intros Hi. exists (take i v ++ drop (S i) v). split.
  - rewrite <- (take_drop_middle v i s Hi) at 1. symmetry. apply Permutation_middle.
  - rewrite insert_take_drop by (by eapply lookup_lt_Some). symmetry. apply Permutation_middle.
Qed.

(** Replacing one route's payload under the same handle. *)
Lemma payloads_replaced v i s s' :
  NoDup (sr_handle <$> v) → v !! i = Some s → sr_handle s' = sr_handle s →
  NoDup (sr_handle <$> <[i := s']> v)
  ∧ payloads (<[i := s']> v) = <[sr_handle s := sr_app s']> (payloads v).
Proof.
  intros Hnd Hi Hh. destruct (insert_perm v i s s' Hi) as (rest & Hp & Hp').
  assert (Hnd1 : NoDup (sr_handle <$> (s :: rest))) by (by rewrite <- Hp).
  assert (Hnd2 : NoDup (sr_handle <$> (s' :: rest))) by (cbn in *; by rewrite Hh).
  split; [by rewrite Hp'|].
  rewrite <- (payloads_perm _ _ Hnd2 (symmetry Hp')), <- (payloads_perm _ _ Hnd1 (symmetry Hp)).
  rewrite !payloads_cons, Hh. by rewrite insert_insert_eq.
Qed.

Lemma payloads_snoc v s :
  NoDup (sr_handle <$> v) → payloads v !! sr_handle s = None →
  NoDup (sr_handle <$> (v ++ [s])) ∧ payloads (v ++ [s]) = <[sr_handle s := sr_app s]> (payloads v).
Proof.
  intros Hnd Hn. apply payloads_fresh in Hn.
  assert (Hnd1 : NoDup (sr_handle <$> (s :: v))) by (cbn; by apply list.NoDup_cons).
  assert (Hp : s :: v ≡ₚ v ++ [s]) by (apply Permutation_cons_append).
  split; [by rewrite <- Hp|]. by rewrite <- (payloads_perm _ _ Hnd1 Hp).
Qed.

(** * The invariant *)

Section invariant.
Context {R A H D I : Type} `{RouteTableLaws R, AnnounceRecordLaws A, AnnounceIdHistoryLaws H,
  AppDataLaws D, RouteExpiryLaws I}.
Abbreviation table := (RoutingTable R A H D I).
Implicit Types (t : table) (v : list StoredRoute) (s : StoredRoute).

(** [table_core rcap acap per t v]: the stores of [t] hold exactly the routes [v], row for row;
    every route has a payload of its own and no other payload is stored; the announce ids beyond
    the last row are empty; no destination occurs twice. *)
Record table_core (rcap acap per : nat) t v : Prop := {
  ok_routes : rt_rep (routes t) rcap (sr_row <$> v);
  ok_records : ar_rep (announce_records t) acap (sr_record <$> v);
  ok_ids : ∃ free, ah_rep (announce_id_history t) per ((sr_ids <$> v) ++ replicate free [])
             ∧ rcap `min` acap ≤ length v + free;
  ok_ids_nodup : Forall (λ s, NoDup (sr_ids s)) v;
  ok_app : ad_rep (announce_app_data t) (payloads v);
  ok_handles : Forall (λ s, maybe_app_data_handle (sr_record s) = Some (sr_handle s)) v;
  ok_handles_nodup : NoDup (sr_handle <$> v);
  ok_destinations : NoDup (sr_destination <$> v);
}.

(** [table_ok]: and the expiry index serves the routes' expiries under these interfaces and this
    warmth. *)
Record table_ok (interfaces : AttachedInterfaces) (warmth : RouteWarmth) (rcap acap per : nat)
    t v : Prop := {
  ok_core :> table_core rcap acap per t v;
  ok_index : ei_rep (route_expiries t) (sr_expiry interfaces warmth <$> v);
}.
#[global] Arguments ok_routes {_ _ _ _ _} _.
#[global] Arguments ok_records {_ _ _ _ _} _.
#[global] Arguments ok_ids {_ _ _ _ _} _.
#[global] Arguments ok_ids_nodup {_ _ _ _ _} _.
#[global] Arguments ok_app {_ _ _ _ _} _.
#[global] Arguments ok_handles {_ _ _ _ _} _.
#[global] Arguments ok_handles_nodup {_ _ _ _ _} _.
#[global] Arguments ok_destinations {_ _ _ _ _} _.
#[global] Arguments ok_index {_ _ _ _ _ _ _} _.

Context {interfaces : AttachedInterfaces} {warmth : RouteWarmth} {rcap acap per : nat}.
Abbreviation core := (table_core rcap acap per).
Abbreviation ok := (table_ok interfaces warmth rcap acap per).

Lemma ok_len t v :
  core t v → rt_len (routes t) = length v ∧ length v ≤ rcap ∧ length v ≤ acap
           ∧ destination_capacity t = rcap `min` acap.
Proof.
  intros Hok. destruct (rt_len_ok _ _ _ (ok_routes Hok)) as [E1 L1].
  destruct (ar_len_ok _ _ _ (ok_records Hok)) as [_ L2].
  rewrite (length_fmap sr_row) in E1, L1. rewrite length_fmap in L2. unfold destination_capacity.
  rewrite (rt_capacity_ok _ _ _ (ok_routes Hok)).
  rewrite (ar_capacity_ok _ _ _ (ok_records Hok)). tauto.
Qed.

Lemma ok_cells t v i s :
  core t v → v !! i = Some s →
  cell (rt_destinations (routes t)) i = Done (sr_destination s)
  ∧ cell (rt_hops (routes t)) i = Done (hops (sr_entry s))
  ∧ cell (rt_learned_at (routes t)) i = Done (learned_at (sr_entry s))
  ∧ cell (rt_last_route_activity_at (routes t)) i = Done (last_route_activity_at (sr_entry s))
  ∧ cell (rt_responsiveness (routes t)) i = Done (responsiveness (sr_entry s))
  ∧ cell (rt_receiving_interfaces (routes t)) i = Done (receiving_interface (sr_entry s))
  ∧ cell (rt_next_hops (routes t)) i = Done (next_hop (sr_entry s))
  ∧ cell (rt_retentions (routes t)) i = Done (retention (sr_entry s))
  ∧ cell (rt_evidence_ids (routes t)) i = Done (sr_evidence s).
Proof.
  intros Hok Hi. apply (rt_cells _ _ _ i (sr_row s) (ok_routes Hok)).
  by rewrite list_lookup_fmap, Hi.
Qed.

Lemma ok_record_cells t v i s :
  core t v → v !! i = Some s →
  cell (ar_public_keys (announce_records t)) i = Done (public_keys (sr_record s))
  ∧ cell (ar_dotted_name_hashes (announce_records t)) i = Done (dotted_name_hash (sr_record s))
  ∧ cell (ar_announce_ids (announce_records t)) i = Done (announce_id (sr_record s))
  ∧ cell (ar_ratchets (announce_records t)) i = Done (ratchet (sr_record s))
  ∧ cell (ar_signatures (announce_records t)) i = Done (signature (sr_record s))
  ∧ cell (ar_app_data_handles (announce_records t)) i = Done (Some (sr_handle s)).
Proof.
  intros Hok Hi.
  destruct (ar_columns_ok _ _ _ (ok_records Hok)) as (E1 & E2 & E3 & E4 & E5 & E6).
  pose proof (Forall_lookup_1 _ _ _ _ (ok_handles Hok) Hi) as Hh. cbn in Hh.
  unfold cell. rewrite E1, E2, E3, E4, E5, E6. cbn [mbind run_bind]. rewrite <- Hh.
  repeat split; apply index_lookup; by rewrite !list_lookup_fmap, Hi.
Qed.

(** The expiry the code computes for a row, under any interfaces and warmth. *)
Lemma expiry_from_anchor_ok t v i s anchor ifs w :
  core t v → v !! i = Some s →
  expiry_from_anchor t anchor i ifs w = Done (expiry_from ifs w anchor (sr_entry s)).
Proof.
  intros Hok Hi. destruct (ok_cells t v i s Hok Hi) as (_ & _ & E3 & _ & _ & E6 & _ & E8 & _).
  unfold expiry_from_anchor. rewrite E6. cbn [mbind run_bind]. rewrite E8. cbn [mbind run_bind].
  rewrite E3. done.
Qed.

Lemma last_active_ok t v i s :
  core t v → v !! i = Some s →
  last_active_at t i = Done (Z.max (learned_at (sr_entry s)) (last_route_activity_at (sr_entry s))).
Proof.
  intros Hok Hi. destruct (ok_cells t v i s Hok Hi) as (_ & _ & E3 & E4 & _).
  unfold last_active_at. rewrite E3. cbn [mbind run_bind]. by rewrite E4.
Qed.

Lemma expiry_of_ok t v i s ifs w :
  core t v → v !! i = Some s → expiry_of_with_warmth t i ifs w = Done (sr_expiry ifs w s).
Proof.
  intros Hok Hi. unfold expiry_of_with_warmth. rewrite (last_active_ok t v i s Hok Hi).
  cbn [mbind run_bind]. by apply (expiry_from_anchor_ok t v).
Qed.

(** ** Removing a row *)

Lemma swap_removed_tail {X} (xs : list X) (free : nat) i x e :
  i < length xs → xs !! (length xs - 1) = Some x →
  <[length xs - 1 := e]> (<[i := x]> (xs ++ replicate free e))
  = swap_removed xs i ++ replicate (S free) e.
Proof.
  intros Hi Hx. destruct (swap_removed_split xs i Hi) as (ys & y & -> & ->).
  rewrite length_app in *. cbn [length] in *. rewrite Nat.add_sub in *.
  rewrite lookup_app_r, Nat.sub_diag in Hx by lia. injection Hx as <-.
  destruct (decide (i < length ys)) as [Hlt|Hge].
  - rewrite <- app_assoc, insert_app_l by done.
    rewrite insert_app_r_alt by (rewrite length_insert; lia). rewrite length_insert, Nat.sub_diag. done.
  - replace i with (length ys) by lia. rewrite <- app_assoc.
    rewrite !insert_app_r_alt by lia. rewrite Nat.sub_diag. cbn.
    by rewrite list_insert_ge by lia.
Qed.

Lemma Forall_swap_removed {X} (P : X → Prop) (xs : list X) i x :
  xs !! i = Some x → Forall P xs → Forall P (swap_removed xs i).
Proof. intros Hi Hx. rewrite <- (swap_removed_perm xs i x Hi) in Hx. by inversion Hx. Qed.

Lemma remove_route_ok t v i s :
  ok t v → v !! i = Some s →
  ∃ t', remove_route_at t i = Done t' ∧ ok t' (swap_removed v i).
Proof.
  intros Hok Hi. pose proof (lookup_lt_Some _ _ _ Hi) as Hlt.
  destruct (ok_len t v Hok) as (El & _). unfold remove_route_at. rewrite El.
  rewrite (proj2 (Nat.eqb_neq (length v) 0)) by lia.
  destruct (ok_record_cells t v i s Hok Hi) as (_ & _ & _ & _ & _ & ->).
  destruct Hok as [[Hr Ha (free & Hh & Hfree) Hin Hp Hhd Hhnd Hd] Hx]. cbn [mbind run_bind].
  destruct (ad_free_ok _ _ _ _ Hp (payloads_lookup v i s Hhnd Hi)) as (app & -> & Hp').
  assert (Hlast : (sr_ids <$> v) !! (length v - 1) ≠ None).
  { apply not_eq_None_Some, lookup_lt_is_Some_2. rewrite length_fmap. lia. }
  destruct ((sr_ids <$> v) !! (length v - 1)) as [lids|] eqn:El'; [clear Hlast|done].
  destruct (rt_swap_remove_ok _ _ _ i Hr) as (rs & Ers & Hr'); [by rewrite length_fmap|].
  destruct (ar_swap_remove_ok _ _ _ i Ha) as (ars & Ears & Ha'); [by rewrite length_fmap|].
  destruct (ah_swap_remove_ok _ _ _ i (length v - 1) lids Hh) as (ids & Eids & Hh').
  { rewrite length_app, length_fmap. lia. }
  { rewrite lookup_app_l; [done|]. rewrite length_fmap. lia. }
  destruct (ei_swap_remove_ok _ _ i Hx) as (ix & Eix & Hx'); [by rewrite length_fmap|].
  rewrite length_fmap in Ers. rewrite length_fmap in Ears. rewrite length_fmap in Eix.
  cbn [mbind run_bind]. rewrite Ers. cbn [mbind run_bind].
  rewrite Ears. cbn [mbind run_bind]. rewrite Eids. cbn [mbind run_bind]. rewrite Eix.
  eexists. split; [done|]. destruct (payloads_removed v i s Hhnd Hi) as [Hhnd' Hpl].
  split; [split|]; cbn [routes route_expiries announce_records announce_id_history announce_app_data].
  - by rewrite fmap_swap_removed.
  - by rewrite fmap_swap_removed.
  - exists (S free). rewrite fmap_swap_removed, length_swap_removed by done. split; [|lia].
    rewrite <- (swap_removed_tail (sr_ids <$> v) free i lids []); rewrite ?length_fmap; done.
  - by eapply Forall_swap_removed.
  - by rewrite Hpl.
  - by eapply Forall_swap_removed.
  - done.
  - eapply submseteq_NoDup; [exact Hd|]. apply fmap_submseteq.
    rewrite <- (swap_removed_perm v i s Hi) at 2. by apply submseteq_cons.
  - by rewrite fmap_swap_removed.
Qed.

(** ** Culling *)

Definition expired (now : InstantMillis) (s : StoredRoute) : bool :=
  (sr_expiry interfaces warmth s <=? now)%Z.

(** What [on_removed] is told about a route. *)
Definition removed_as (cause : RouteRemovalCause) (s : StoredRoute) : RemovedRoute :=
  mkRemoved (sr_destination s) (receiving_interface (sr_entry s)) cause.
Definition removed_expired (s : StoredRoute) : RemovedRoute :=
  removed_as match descriptor_for interfaces (receiving_interface (sr_entry s)) with
             | Some _ => Expired
             | None => InterfaceGone
             end s.

Lemma route_removal_ok t v i s cause :
  core t v → v !! i = Some s → route_removal_at t i cause = Done (removed_as cause s).
Proof.
  intros Hok Hi. destruct (ok_cells t v i s Hok Hi) as (E1 & _ & _ & _ & _ & E6 & _).
  unfold route_removal_at. rewrite E1. cbn [mbind run_bind]. by rewrite E6.
Qed.

Lemma remove_expired_ok t v i s :
  ok t v → v !! i = Some s →
  ∃ t', remove_expired_route t i interfaces = Done (removed_expired s, t') ∧ ok t' (swap_removed v i).
Proof.
  intros Hok Hi. destruct (ok_cells t v i s Hok Hi) as (_ & _ & _ & _ & _ & E6 & _).
  unfold remove_expired_route. rewrite E6. cbn [mbind run_bind].
  rewrite (route_removal_ok t v i s _ Hok Hi). cbn [mbind run_bind].
  destruct (remove_route_ok t v i s Hok Hi) as (t' & -> & Hok'). by exists t'.
Qed.

Lemma cull_linear_sweeps fuel t v i now removed culled :
  ok t v → i ≤ length v → length v - i < fuel →
  let r := sweep (expired now) fuel i v in
  ∃ t', cull_linear_loop fuel t i now interfaces warmth removed culled
        = Done (culled + length r.2, removed ++ (removed_expired <$> r.2), t') ∧ ok t' r.1.
Proof.
  revert t v i removed culled. induction fuel as [|fuel IH]; intros t v i removed culled Hok Hi Hf; [lia|].
  cbn [cull_linear_loop sweep]. destruct (ok_len t v Hok) as (-> & _).
  destruct (Nat.ltb_spec i (length v)) as [Hlt|Hge].
  - destruct (lookup_lt_is_Some_2 v i Hlt) as [s Hs]. rewrite Hs, (expiry_of_ok t v i s _ _ Hok Hs).
    cbn [mbind run_bind]. change (sr_expiry interfaces warmth s <=? now)%Z with (expired now s).
    destruct (expired now s).
    + destruct (remove_expired_ok t v i s Hok Hs) as (t' & -> & Hok'). cbn [mbind run_bind fst snd].
      destruct (IH t' (swap_removed v i) i (removed ++ [removed_expired s]) (S culled)) as (t'' & -> & Hok'');
        [done|rewrite length_swap_removed by done; lia..|].
      exists t''. split; [|done]. rewrite <- app_assoc. cbn. do 3 f_equal. lia.
    + by apply IH; [|lia|lia].
  - rewrite (proj2 (lookup_ge_None v i)) by done. exists t. cbn. by rewrite Nat.add_0_r, app_nil_r.
Qed.

(** What a cull should do: the routes left are those that have not expired, each at its row or a
    lower one; the others were reported, each once, and counted. *)
Definition culls_exactly (now : InstantMillis) v (result : run (nat * list RemovedRoute * table)) : Prop :=
  ∃ t' left gone, result = Done (length gone, removed_expired <$> gone, t') ∧ ok t' left
    ∧ rows_fall v left ∧ left ≡ₚ filter (λ s, expired now s = false) v ∧ gone ≡ₚ filter (λ s, expired now s = true) v.

Lemma cull_linear_exact t v now :
  ok t v → culls_exactly now v (cull_expired_routes_with_warmth t now interfaces warmth).
Proof.
  intros Hok. unfold cull_expired_routes_with_warmth. destruct (ok_len t v Hok) as (-> & _).
  destruct (cull_linear_sweeps (S (length v)) t v 0 now [] 0 Hok) as (t' & -> & Hok'); [lia|lia|].
  eexists t', _, _. split; [done|]. split; [done|]. split; [apply sweep_falls|]. apply (sweep_all (expired now) v).
Qed.

Lemma set_expiries_ok t v ix :
  ok t v → ei_rep ix (sr_expiry interfaces warmth <$> v) → ok (set_expiries t ix) v.
Proof. intros [[] _] Hx. by repeat split. Qed.

Lemma cull_indexed_loop_exact fuel t v now removed culled :
  ok t v → length v < fuel →
  ∃ t' left gone, cull_indexed_loop fuel t now interfaces warmth removed culled
      = Done (culled + length gone, removed ++ (removed_expired <$> gone), t') ∧ ok t' left
    ∧ rows_fall v left ∧ left ≡ₚ filter (λ s, expired now s = false) v ∧ gone ≡ₚ filter (λ s, expired now s = true) v.
Proof.
  revert t v removed culled. induction fuel as [|fuel IH]; intros t v removed culled Hok Hf; [lia|].
  cbn [cull_indexed_loop]. destruct (ok_len t v Hok) as (-> & _).
  destruct (ei_first_expired_ok _ _ now (λ row, expiry_of_with_warmth t row interfaces warmth)
              (ok_index Hok)) as (o & ix & E & Hix & Ho).
  { intros i e He. rewrite list_lookup_fmap in He. apply fmap_Some in He as (s & Hs & ->).
    exact (expiry_of_ok t v i s _ _ Hok Hs). }
  rewrite length_fmap in E. rewrite E. cbn [mbind run_bind].
  pose proof (set_expiries_ok t v ix Hok Hix) as Hok1. destruct o as [i|].
  - destruct Ho as (e & He & Hle). rewrite list_lookup_fmap in He. apply fmap_Some in He as (s & Hs & ->).
    destruct (remove_expired_ok _ v i s Hok1 Hs) as (t' & -> & Hok'). cbn [mbind run_bind].
    pose proof (lookup_lt_Some _ _ _ Hs) as Hlt.
    destruct (IH t' (swap_removed v i) (removed ++ [removed_expired s]) (S culled))
      as (t'' & left & gone & -> & Hok'' & Hfall & Hl & Hg); [done|rewrite length_swap_removed by done; lia|].
    assert (Hx : expired now s = true) by (by apply Z.leb_le).
    exists t'', left, (s :: gone). split; [|split; [done|split]].
    + rewrite <- app_assoc. cbn. do 3 f_equal. lia.
    + eapply rows_fall_trans; [by apply rows_fall_swap_removed|done].
    + rewrite Hl, Hg. by apply filter_swap_removed.
  - exists (set_expiries t ix), v, []. cbn. rewrite Nat.add_0_r, app_nil_r. split; [done|]. split; [done|].
    split; [apply rows_fall_refl|]. assert (F : Forall (λ s, expired now s = false) v).
    { rewrite Forall_fmap in Ho. eapply list.Forall_impl; [exact Ho|]. intros s. apply Z.leb_gt. }
    by rewrite filter_none, filter_all.
Qed.

(** ** Dropping *)

Lemma drop_loop_sweeps (goes : table → nat → run bool) (P : StoredRoute → bool) fuel t v row removed dropped :
  (∀ t v i s, ok t v → v !! i = Some s → goes t i = Done (P s)) →
  ok t v → row ≤ length v → length v - row < fuel →
  let r := sweep P fuel row v in
  ∃ t', drop_loop goes fuel t row removed dropped
        = Done (dropped + length r.2, removed ++ (removed_as Dropped <$> r.2), t') ∧ ok t' r.1.
Proof.
  intros HP. revert t v row removed dropped.
  induction fuel as [|fuel IH]; intros t v row removed dropped Hok Hi Hf; [lia|].
  cbn [drop_loop sweep]. destruct (ok_len t v Hok) as (-> & _).
  destruct (Nat.ltb_spec row (length v)) as [Hlt|Hge].
  - destruct (lookup_lt_is_Some_2 v row Hlt) as [s Hs]. rewrite Hs, (HP t v row s Hok Hs).
    cbn [mbind run_bind]. destruct (P s).
    + rewrite (route_removal_ok t v row s _ Hok Hs). cbn [mbind run_bind].
      destruct (remove_route_ok t v row s Hok Hs) as (t' & -> & Hok'). cbn [mbind run_bind fst snd].
      destruct (IH t' (swap_removed v row) row (removed ++ [removed_as Dropped s]) (S dropped)) as (t'' & -> & Hok'');
        [done|rewrite length_swap_removed by done; lia..|].
      exists t''. split; [|done]. rewrite <- app_assoc. cbn. do 3 f_equal. lia.
    + by apply IH; [|lia|lia].
  - rewrite (proj2 (lookup_ge_None v row)) by done. exists t. cbn. by rewrite Nat.add_0_r, app_nil_r.
Qed.

(** What dropping the routes with [P] should do. *)
Definition drops_exactly (P : StoredRoute → bool) v (result : run (nat * list RemovedRoute * table)) : Prop :=
  ∃ t' left gone, result = Done (length gone, removed_as Dropped <$> gone, t') ∧ ok t' left
    ∧ rows_fall v left ∧ left ≡ₚ filter (λ s, P s = false) v ∧ gone ≡ₚ filter (λ s, P s = true) v.

Lemma drop_loop_exact goes (P : StoredRoute → bool) t v :
  (∀ t v i s, ok t v → v !! i = Some s → goes t i = Done (P s)) → ok t v →
  drops_exactly P v (drop_loop goes (S (rt_len (routes t))) t 0 [] 0).
Proof.
  intros HP Hok. destruct (ok_len t v Hok) as (-> & _).
  destruct (drop_loop_sweeps goes P (S (length v)) t v 0 [] 0 HP Hok) as (t' & -> & Hok'); [lia|lia|].
  eexists t', _, _. split; [done|]. split; [done|]. split; [apply sweep_falls|]. apply (sweep_all P v).
Qed.

(** ** Looking a destination up *)

Lemma index_of_ok t v d :
  core t v →
  (∃ i s, index_of (routes t) d = Done (Some i) ∧ v !! i = Some s ∧ sr_destination s = d)
  ∨ (index_of (routes t) d = Done None ∧ d ∉ sr_destination <$> v).
Proof.
  intros Hok. destruct (index_of_rep _ _ _ d (ok_routes Hok)) as [(i & r & E & Hr & Hd)|[E Hn]].
  - left. rewrite list_lookup_fmap in Hr. apply fmap_Some in Hr as (s & Hs & ->). by exists i, s.
  - right. split; [done|]. by rewrite <- list_fmap_compose in Hn.
Qed.

Lemma index_of_present t v i s :
  core t v → v !! i = Some s → index_of (routes t) (sr_destination s) = Done (Some i).
Proof.
  intros Hok Hi. destruct (index_of_ok t v (sr_destination s) Hok) as [(j & s' & E & Hj & Hd)|[_ Hn]].
  - rewrite E. do 2 f_equal. eapply NoDup_lookup; [exact (ok_destinations Hok)| |].
    + rewrite list_lookup_fmap, Hj. cbn. by rewrite Hd.
    + by rewrite list_lookup_fmap, Hi.
  - exfalso. apply Hn, list_elem_of_fmap_2. by eapply list_elem_of_lookup_2.
Qed.

(** ** The soonest expiry and the eviction *)

Lemma expiries_from_ok t v ifs w todo i :
  core t v → i + todo = length v →
  expiries_from t ifs w todo i = Done (sr_expiry ifs w <$> drop i v).
Proof.
  revert i. induction todo as [|todo IH]; intros i Hok Hl; cbn [expiries_from].
  - by rewrite drop_ge by lia.
  - destruct (lookup_lt_is_Some_2 v i) as [s Hs]; [lia|].
    rewrite (expiry_of_ok t v i s ifs w Hok Hs). cbn [mbind run_bind].
    rewrite IH by (done || lia). cbn [mbind run_bind]. by rewrite (drop_S v s i Hs).
Qed.

Lemma evict_nearest_ok t v removed :
  ok t v → v ≠ [] →
  ∃ t' i s, evict_route_nearest_expiry t interfaces warmth removed
      = Done (EvictedOne, removed ++ [removed_as Evicted s], t') ∧ ok t' (swap_removed v i)
    ∧ v !! i = Some s
    ∧ Forall (λ s', (sr_expiry interfaces warmth s ≤ sr_expiry interfaces warmth s')%Z) v.
Proof.
  intros Hok Hne. unfold evict_route_nearest_expiry. destruct (ok_len t v Hok) as (-> & _).
  rewrite (expiries_from_ok t v interfaces warmth (length v) 0 Hok) by done. cbn [mbind run_bind].
  rewrite drop_0. pose proof (argmin_spec (sr_expiry interfaces warmth <$> v)) as Hm.
  destruct (argmin _) as [i|]; [|by destruct v].
  destruct Hm as (m & Hm & Hall). rewrite list_lookup_fmap in Hm. apply fmap_Some in Hm as (s & Hs & ->).
  rewrite (route_removal_ok t v i s _ Hok Hs). cbn [mbind run_bind].
  destruct (remove_route_ok t v i s Hok Hs) as (t' & -> & Hok'). exists t', i, s.
  by rewrite Forall_fmap in Hall.
Qed.
Lemma invalidate_ok t v v' :
  core t v' → ei_rep (route_expiries t) (sr_expiry interfaces warmth <$> v) →
  ∃ t', invalidate_route_expiries t = Done t' ∧ ok t' v'.
Proof.
  intros Hc Hx. unfold invalidate_route_expiries.
  destruct (ei_invalidate_ok _ _ Hx) as (ix & -> & Hix). cbn [mbind run_bind].
  eexists. split; [done|]. split; [destruct Hc; by split|]. cbn. apply Hix.
Qed.
(** ** Culling through the index, and the drops *)

Lemma cull_indexed_exact t v now :
  ok t v → culls_exactly now v (cull_expired_routes_indexed_with_warmth t now interfaces warmth).
Proof.
  intros Hok. unfold cull_expired_routes_indexed_with_warmth. destruct INDEXED; cbn [negb].
  2: { by apply cull_linear_exact. }
  destruct (ok_len t v Hok) as (El & _). rewrite El.
  destruct (ei_prefers_ok _ _ (length v) now (ok_index Hok)) as (b & ix & -> & Hx). cbn [mbind run_bind].
  pose proof (set_expiries_ok t v ix Hok Hx) as Hok1. destruct b.
  - cbn [set_expiries route_expiries]. destruct (ei_invalidate_ok _ _ Hx) as (ix' & -> & Hx'). cbn [mbind run_bind].
    apply cull_linear_exact. by apply (set_expiries_ok (set_expiries t ix)).
  - destruct (ok_len _ v Hok1) as (-> & _).
    by destruct (cull_indexed_loop_exact (S (length v)) _ v now [] 0 Hok1) as (t' & left & gone & -> & ?);
      [lia|exists t', left, gone].
Qed.

Lemma drop_route_exact t v d :
  ok t v →
  (∃ i s t', v !! i = Some s ∧ sr_destination s = d
     ∧ drop_route t d = Done (Some (removed_as Dropped s), t') ∧ ok t' (swap_removed v i))
  ∨ ((d ∉ sr_destination <$> v) ∧ drop_route t d = Done (None, t)).
Proof.
  intros Hok. unfold drop_route. destruct (index_of_ok t v d Hok) as [(i & s & -> & Hi & Hs)|[-> Hd]].
  - left. cbn [mbind run_bind]. rewrite (route_removal_ok t v i s _ Hok Hi). cbn [mbind run_bind].
    destruct (remove_route_ok t v i s Hok Hi) as (t' & -> & Hok'). by exists i, s, t'.
  - by right.
Qed.

Lemma drop_via_exact t v transport :
  ok t v → drops_exactly  (λ s, bool_decide (next_hop (sr_entry s) = Via transport)) v (drop_routes_via t transport).
Proof.
  intros Hok. apply drop_loop_exact; [|done]. intros t0 v0 i s Hok0 Hi.
  destruct (ok_cells t0 v0 i s Hok0 Hi) as (_ & _ & _ & _ & _ & _ & -> & _). done.
Qed.

(** The hash of a stored route's identity. *)
Definition sr_identity `{Sha256} (s : StoredRoute) : list Z :=
  take TRUNCATED_HASH_BYTE_LEN (sha256 (encryption (public_keys (sr_record s)) ++ signing (public_keys (sr_record s)))).

Lemma drop_identity_exact `{Sha256Laws} t v identity :
  ok t v → drops_exactly  (λ s, bool_decide (sr_identity s = identity)) v (drop_routes_for_identity t identity).
Proof.
  intros Hok. apply drop_loop_exact; [|done]. intros t0 v0 i s Hok0 Hi.
  destruct (ok_record_cells t0 v0 i s Hok0 Hi) as (-> & _). cbn [mbind run_bind].
  unfold derive_identity_hash, slice, sr_identity, sha256.
  match goal with |- context [hasher_finalize ?h] => destruct (digest_bytes h) as [E32 _] end.
  rewrite decide_True by (rewrite E32; unfold TRUNCATED_HASH_BYTE_LEN; lia). cbn [mbind run_bind].
  by rewrite Nat.sub_0_r, drop_0.
Qed.
(** ** The soonest expiry *)

Definition is_soonest v (o : option InstantMillis) : Prop :=
  match o with
  | None => v = []
  | Some e => (∃ s, s ∈ v ∧ sr_expiry interfaces warmth s = e)
              ∧ Forall (λ s, (e ≤ sr_expiry interfaces warmth s)%Z) v
  end.

Lemma is_soonest_unique v o o' : is_soonest v o → is_soonest v o' → o = o'.
Proof.
  destruct o as [e|], o' as [e'|]; cbn; [|by intros [(s & Hs & _) _] ->; apply not_elem_of_nil in Hs
    |by intros -> [(s & Hs & _) _]; apply not_elem_of_nil in Hs|done].
  intros [(s & Hs & <-) Hall] [(s' & Hs' & <-) Hall']. rewrite list.Forall_forall in Hall, Hall'.
  f_equal. apply Z.le_antisymm; [by apply Hall|by apply Hall'].
Qed.

Lemma soonest_ok t v :
  ok t v → ∃ o, soonest_route_expiry_with_warmth t interfaces warmth = Done o ∧ is_soonest v o.
Proof.
  intros Hok. unfold soonest_route_expiry_with_warmth. destruct (ok_len t v Hok) as (-> & _).
  destruct (min_from_spec (λ i, expiry_of_with_warmth t i interfaces warmth) (sr_expiry interfaces warmth <$> v) 0 None)
    as (o & E & Ho).
  { intros j e He. rewrite list_lookup_fmap in He. apply fmap_Some in He as (s & Hs & ->).
    exact (expiry_of_ok t v j s _ _ Hok Hs). }
  rewrite length_fmap in E. exists o. split; [done|]. destruct o as [e|]; cbn.
  - destruct Ho as ([Hin|?] & Hall & _); [|done]. apply list_elem_of_fmap in Hin as (s & -> & Hs).
    split; [by exists s|]. by rewrite Forall_fmap in Hall.
  - destruct Ho as [Hnil _]. by apply fmap_nil_inv in Hnil.
Qed.

Lemma soonest_indexed_ok t v :
  ok t v → ∃ o t', soonest_route_expiry_indexed_with_warmth t interfaces warmth = Done (o, t')
    ∧ ok t' v ∧ is_soonest v o.
Proof.
  intros Hok. unfold soonest_route_expiry_indexed_with_warmth. destruct (ok_len t v Hok) as (-> & _).
  destruct (ei_earliest_ok _ _ (λ row, expiry_of_with_warmth t row interfaces warmth) (ok_index Hok))
    as (o & ix & E & Hx & Ho).
  { intros j e He. rewrite list_lookup_fmap in He. apply fmap_Some in He as (s & Hs & ->).
    exact (expiry_of_ok t v j s _ _ Hok Hs). }
  rewrite length_fmap in E. rewrite E. cbn [mbind run_bind]. eexists o, _. split; [done|].
  split; [by apply set_expiries_ok|]. destruct o as [e|]; cbn.
  - destruct Ho as [Hin Hall]. apply list_elem_of_fmap in Hin as (s & -> & Hs).
    split; [by exists s|]. by rewrite Forall_fmap in Hall.
  - by apply fmap_nil_inv in Ho.
Qed.

(** * Properties *)

(** C2. Culling, by the scan and through the expiry index, over any stores that keep their
    contracts: the call returns, removes exactly the routes whose expiry has come, reports each of
    them once with the cause (the interface gone or the route expired) and counts them; the table
    left is well formed and its routes have only moved down. *)
Theorem cull_removes_exactly_expired (t : table) (v : list StoredRoute) (now : InstantMillis)
    (Hok : ok t v) :
  culls_exactly now v (cull_expired_routes_with_warmth t now interfaces warmth)
  ∧ culls_exactly now v (cull_expired_routes_indexed_with_warmth t now interfaces warmth).
Proof. split; [by apply cull_linear_exact|by apply cull_indexed_exact]. Qed.

(** C8. Waking at a deadline makes progress: the scan and the index agree on the soonest expiry;
    culling at that instant or later removes at least one route, and the soonest expiry left is
    strictly later, so a loop that sleeps until the soonest expiry and culls never spins. *)
Theorem cull_at_deadline_progresses (t : table) (v : list StoredRoute) (e now : InstantMillis)
    (Hok : ok t v)
    (Hsoonest : soonest_route_expiry_with_warmth t interfaces warmth = Done (Some e))
    (Hdue : (e ≤ now)%Z) :
  (∃ t1, soonest_route_expiry_indexed_with_warmth t interfaces warmth = Done (Some e, t1))
  ∧ ∃ n removed t' o, cull_expired_routes_indexed_with_warmth t now interfaces warmth = Done (n, removed, t')
    ∧ 0 < n ∧ soonest_route_expiry_with_warmth t' interfaces warmth = Done o
    ∧ match o with None => True | Some e' => (now < e')%Z end.
Proof.
  destruct (soonest_ok t v Hok) as (o & E & Ho). rewrite Hsoonest in E. injection E as <-.
  destruct (soonest_indexed_ok t v Hok) as (o1 & t1 & E1 & _ & Ho1). split.
  { exists t1. rewrite E1. by rewrite (is_soonest_unique v o1 (Some e) Ho1 Ho). }
  destruct (cull_indexed_exact t v now Hok) as (t' & left & gone & E2 & Hok' & _ & Hl & Hg).
  destruct (soonest_ok t' left Hok') as (o2 & E3 & Ho2).
  eexists _, _, t', o2. split; [exact E2|]. split; [|split; [done|]].
  - destruct Ho as [(s & Hs & <-) _]. destruct gone as [|g gone]; [|cbn; lia]. exfalso.
    assert (Hin : s ∈ filter (λ s, expired now s = true) v) by (apply list_elem_of_filter; split; [by apply Z.leb_le|done]).
    rewrite <- Hg in Hin. by apply not_elem_of_nil in Hin.
  - destruct o2 as [e2|]; [|done]. destruct Ho2 as [(s & Hs & <-) _]. rewrite Hl in Hs.
    apply list_elem_of_filter in Hs as [Hx _]. by apply Z.leb_gt.
Qed.

(** Dropping: [drop_route] removes exactly the route of the destination, [drop_routes_via]
    exactly those whose next hop is the transport, [drop_routes_for_identity] exactly those
    announced by the identity; what is removed is what is reported and counted. *)
Theorem drops_remove_exactly `{Sha256Laws} (t : table) (v : list StoredRoute) (d : DestinationHash)
    (transport : TransportId) (identity : list Z) (Hok : ok t v) :
  ((∃ i s t', v !! i = Some s ∧ sr_destination s = d
      ∧ drop_route t d = Done (Some (removed_as Dropped s), t') ∧ ok t' (swap_removed v i))
   ∨ ((d ∉ sr_destination <$> v) ∧ drop_route t d = Done (None, t)))
  ∧ drops_exactly (λ s, bool_decide (next_hop (sr_entry s) = Via transport)) v (drop_routes_via t transport)
  ∧ drops_exactly (λ s, bool_decide (sr_identity s = identity)) v (drop_routes_for_identity t identity).
Proof. conj; [by apply drop_route_exact|by apply drop_via_exact|by apply drop_identity_exact]. Qed.
End invariant.
#[global] Arguments expired interfaces warmth now s : clear implicits.
#[global] Arguments removed_expired interfaces s : clear implicits.
