(* ===== verification/RoutingTableLearning.v ===== *)
(** Learning routes ([routing/table/learning.rs]): what an upsert does to the table, that the
    invariant is kept, and what a lookup then finds. *)

From stdpp Require Import gmap.
From S2P Require Import Prelude AppData Columns Evidence Routes Announce Acceptance Lifetime RoutingTable RoutingTableInvariant.

(** The route an arrival stores. *)
Definition new_route (arrival : AnnounceArrival) (id : RouteEvidenceId) (ret : RouteRetention)
    (handle : AppDataHandle) : StoredRoute :=
  let an := arr_announce arrival in
  mkStoredRoute (mkRow (an_destination an) id (learned_entry arrival ret)) (announce_entry an handle)
    handle (an_app_data an) [an_announce_id an].

(** The route an arrival makes of the stored one: a new evidence id only if the path changed, the
    announce id appended to the ids kept. *)
Definition path_changed (arrival : AnnounceArrival) (s : StoredRoute) : bool :=
  negb (bool_decide (receiving_interface (sr_entry s) = arr_receiving_interface arrival))
  || negb (bool_decide (next_hop (sr_entry s) = arr_next_hop arrival)).
Definition refreshed_route (per : nat) (arrival : AnnounceArrival) (id : RouteEvidenceId)
    (ret : RouteRetention) (s : StoredRoute) : StoredRoute :=
  let an := arr_announce arrival in
  mkStoredRoute
    (mkRow (sr_destination s) (if path_changed arrival s then id else sr_evidence s)
       (learned_entry arrival ret))
    (announce_entry an (sr_handle s)) (sr_handle s) (an_app_data an)
    (remember_id per (sr_ids s) (an_announce_id an)).2.

Section learning.
Context {R A H D I : Type} `{RouteTableLaws R, AnnounceRecordLaws A, AnnounceIdHistoryLaws H,
  AppDataLaws D, RouteExpiryLaws I}.
Context {interfaces : AttachedInterfaces} {warmth : RouteWarmth} {rcap acap per : nat}.
Abbreviation table := (RoutingTable R A H D I).
Abbreviation ok := (table_ok interfaces warmth rcap acap per).
Implicit Types (t : table) (v : list StoredRoute) (s : StoredRoute).

(** The invariant but for the payload store, which may hold one more payload: the state in
    [insert_new_route] between placing the payload and pushing the rows. *)
Record placed t v (handle : AppDataHandle) (bytes : list Z) : Prop := {
  pl_table : ∃ d, ok (set_app_data t d) v;
  pl_fresh : payloads v !! handle = None;
  pl_app : ad_rep (announce_app_data t) (<[handle := bytes]> (payloads v));
}.

Lemma remember_id_nodup max ids id : NoDup ids → NoDup (remember_id max ids id).2.
Proof.
  intros Hnd. unfold remember_id. case_bool_decide as Hin; [done|].
  destruct (length ids <? max)%nat; cbn; apply NoDup_snoc; try done.
  - eapply sublist_NoDup; [exact Hnd|apply sublist_drop].
  - intros Hd. apply Hin. rewrite <- (take_drop 1 ids). apply elem_of_app. by right.
Qed.

Lemma app_set_same t : set_app_data t (announce_app_data t) = t.
Proof. by destruct t. Qed.

(** ** Placing the payload *)

Lemma insert_payload_ok t v app removed :
  ok t v →
  (∃ handle t', insert_payload t app interfaces warmth removed = Done (Some handle, removed, t')
     ∧ placed t' v handle app)
  ∨ (∃ i s o t', insert_payload t app interfaces warmth removed
                 = Done (o, removed ++ [removed_as Evicted s], t')
     ∧ v !! i = Some s
     ∧ Forall (λ s', (sr_expiry interfaces warmth s ≤ sr_expiry interfaces warmth s')%Z) v
     ∧ (∃ e, ad_insert (announce_app_data t) app = Done (Err e, announce_app_data t))
     ∧ match o with
       | Some handle => placed t' (swap_removed v i) handle app
       | None => ok t' (swap_removed v i)
       end)
  ∨ (v = [] ∧ insert_payload t app interfaces warmth removed = Done (None, removed, t)).
Proof.
  intros Hok. unfold insert_payload.
  destruct (ad_insert_ok _ _ app (ok_app Hok)) as [(h & d & -> & Hn & Hd)|[e Ee]].
  - cbn [mbind run_bind]. left. exists h, (set_app_data t d). split; [done|]. split; [|done|done].
    exists (announce_app_data t). cbn. by destruct t.
  - rewrite Ee. cbn [mbind run_bind]. rewrite app_set_same. right. destruct v as [|s0 v0] eqn:Ev.
    + right. split; [done|]. unfold evict_route_nearest_expiry.
      destruct (ok_len t [] Hok) as (-> & _). done.
    + left. rewrite <- Ev in *. destruct (evict_nearest_ok t v removed Hok) as (t1 & i & s & -> & Hok1 & Hi & Hall);
        [by rewrite Ev|].
      cbn [mbind run_bind].
      destruct (ad_insert_ok _ _ app (ok_app Hok1)) as [(h & d & -> & Hn & Hd)|[e' ->]].
      * exists i, s, (Some h), (set_app_data t1 d). split; [done|]. split; [done|]. split; [done|].
        split; [by exists e|]. split; [|done|done]. exists (announce_app_data t1). cbn. by destruct t1.
      * cbn [mbind run_bind]. rewrite app_set_same. exists i, s, None, t1.
        split; [done|]. split; [done|]. split; [done|]. split; [by exists e|done].
Qed.
(** ** Pushing the rows *)

(** The state once the rows are pushed: the new route has no announce ids yet, and the index does
    not know it. *)
Record pushed t v s : Prop := {
  pu_core : table_core rcap acap per t (v ++ [s]);
  pu_no_ids : sr_ids s = [];
  pu_index : ei_rep (route_expiries t) (sr_expiry interfaces warmth <$> v);
}.

Lemma push_rows_ok t v handle app d id e a :
  placed t v handle app → length v < rcap `min` acap → (d ∉ sr_destination <$> v) →
  maybe_app_data_handle a = Some handle →
  ∃ t', push_rows t handle d id e a = Done (Some (length v), t')
    ∧ pushed t' v (mkStoredRoute (mkRow d id e) a handle app []).
Proof.
  intros [[d0 Hok] Hn Happ] Hlt Hd Ha. unfold push_rows.
  destruct Hok as [[Hr Hrec (free & Hh & Hfree) Hin _ Hhd Hhnd Hdn] Hx].
  cbn [set_app_data routes announce_records announce_id_history route_expiries] in *.
  destruct (rt_push_ok _ _ _ d id e Hr) as (rs & -> & Hr');
    [rewrite length_fmap; lia|by rewrite <- list_fmap_compose|].
  cbn [mbind run_bind set_routes announce_records].
  destruct (ar_push_ok _ _ _ a Hrec) as (ars & -> & Hrec'); [rewrite length_fmap; lia|].
  cbn [mbind run_bind]. eexists. split; [by rewrite length_fmap|].
  destruct (payloads_snoc v (mkStoredRoute (mkRow d id e) a handle app []) Hhnd Hn) as [Hhnd' Hpl].
  split; [|done|done]. split; cbn.
  - by rewrite fmap_app.
  - by rewrite fmap_app.
  - destruct free as [|free]; [lia|]. exists free. rewrite fmap_app, length_app, <- app_assoc. cbn.
    split; [done|lia].
  - apply Forall_app. split; [done|]. by repeat constructor.
  - by rewrite Hpl.
  - apply Forall_app. split; [done|]. by repeat constructor.
  - done.
  - rewrite fmap_app. by apply NoDup_snoc.
Qed.

Definition with_ids (ids : list AnnounceId) (s : StoredRoute) : StoredRoute :=
  mkStoredRoute (sr_row s) (sr_record s) (sr_handle s) (sr_app s) ids.

(** Remembering an id for the last row. *)
Lemma remember_last t v s id :
  table_core rcap acap per t (v ++ [s]) →
  ∃ o h, ah_remember (announce_id_history t) (length v) id = Done (o, h)
    ∧ table_core rcap acap per (set_history t h) (v ++ [with_ids (remember_id per (sr_ids s) id).2 s]).
Proof.
  intros [Hr Ha (free & Hh & Hfree) Hin Hp Hhd Hhnd Hd]. rewrite fmap_app in Hh.
  assert (Hs : (((sr_ids <$> v) ++ (sr_ids <$> [s])) ++ replicate free []) !! length v = Some (sr_ids s)).
  { rewrite lookup_app_l by (rewrite length_app, length_fmap; cbn; lia).
    by rewrite lookup_app_r, length_fmap, Nat.sub_diag by (rewrite length_fmap; lia). }
  destruct (ah_remember_ok _ _ _ (length v) (sr_ids s) id Hh Hs) as (h & E & Hh').
  eexists _, h. split; [exact E|]. split; cbn; rewrite ?fmap_app in *; try done.
  - exists free. split; [|by rewrite !length_app in *]. rewrite <- app_assoc in *.
    rewrite insert_app_r_alt in Hh' by (rewrite length_fmap; lia).
    rewrite length_fmap, Nat.sub_diag in Hh'. done.
  - apply Forall_app in Hin as [Hin Hs1]. apply Forall_app. split; [done|]. repeat constructor.
    cbn. apply remember_id_nodup. by inversion Hs1.
  - unfold payloads in *. rewrite fmap_app in *. done.
  - apply Forall_app in Hhd as [Hhd Hs1]. apply Forall_app. split; [done|]. repeat constructor.
    cbn. by inversion Hs1.
Qed.

(** The index learns the last row. *)
Lemma index_last t v s ix :
  table_core rcap acap per t (v ++ [s]) →
  ei_rep ix ((sr_expiry interfaces warmth <$> v) ++ [sr_expiry interfaces warmth s]) →
  ok (set_expiries t ix) (v ++ [s]).
Proof. intros [] Hx. split; [by split|]. by rewrite fmap_app. Qed.

(** ** Inserting a new route *)

Lemma store_new_ok t v arrival id ret handle removed :
  placed t v handle (an_app_data (arr_announce arrival)) → length v < rcap `min` acap →
  (an_destination (arr_announce arrival) ∉ sr_destination <$> v) →
  ∃ t', store_new_route t arrival id ret handle interfaces warmth removed = Done (Inserted, removed, t')
    ∧ ok t' (v ++ [new_route arrival id ret handle]).
Proof.
  intros Hpl Hlt Hd. unfold store_new_route. set (an := arr_announce arrival) in *.
  destruct (push_rows_ok t v handle (an_app_data an) (an_destination an) id (learned_entry arrival ret)
              (announce_entry an handle) Hpl Hlt Hd eq_refl) as (t1 & -> & [Hc _ Hx]).
  cbn [mbind run_bind].
  destruct (remember_last t1 v _ (an_announce_id an) Hc) as (o & h & -> & Hc2). cbn [mbind run_bind].
  assert (Hper : 1 ≤ per).
  { destruct Hc as [_ _ (free & Hh & _) _ _ _ _ _]. by destruct (ah_bound _ _ _ Hh). }
  assert (Enew : with_ids (remember_id per [] (an_announce_id an)).2
      (mkStoredRoute (mkRow (an_destination an) id (learned_entry arrival ret)) (announce_entry an handle)
         handle (an_app_data an) []) = new_route arrival id ret handle).
  { unfold remember_id. rewrite bool_decide_false by apply not_elem_of_nil.
    cbn [length]. by rewrite (proj2 (Nat.ltb_lt 0 per)) by lia. }
  cbn [sr_ids] in Hc2. rewrite Enew in Hc2.
  rewrite (expiry_of_ok _ (v ++ [new_route arrival id ret handle]) (length v) (new_route arrival id ret handle) _ _ Hc2)
    by (by rewrite lookup_app_r, Nat.sub_diag by lia).
  cbn [mbind run_bind]. cbn [set_history route_expiries].
  destruct (ei_insert_ok _ _ (sr_expiry interfaces warmth (new_route arrival id ret handle)) Hx) as (ix & E3 & Hx').
  rewrite length_fmap in E3. rewrite E3. cbn [mbind run_bind]. eexists. split; [done|]. by apply index_last.
Qed.

(** ** What an upsert of a new destination may remove *)

Definition report (g : RouteRemovalCause * StoredRoute) : RemovedRoute := removed_as g.1 g.2.

(** A route may go because it had expired by [now], or because its expiry was nearest: not after
    that of any route kept. *)
Definition justified (now : InstantMillis) (kept : list StoredRoute) (g : RouteRemovalCause * StoredRoute) : Prop :=
  match g.1 with
  | Expired | InterfaceGone => expired interfaces warmth now g.2 = true
  | Evicted => Forall (λ k, (sr_expiry interfaces warmth g.2 ≤ sr_expiry interfaces warmth k)%Z) kept
  | Dropped => False
  end.

Lemma justified_mono now kept kept' gone :
  kept' ⊆+ kept → Forall (justified now kept) gone → Forall (justified now kept') gone.
Proof.
  intros Hsub Hall. eapply list.Forall_impl; [exact Hall|]. intros [c s] Hj. unfold justified in *.
  destruct c; try done. cbn in *. apply list.Forall_forall. intros k Hk.
  rewrite list.Forall_forall in Hj. apply Hj. by eapply elem_of_submseteq.
Qed.

Lemma evicted_justified now v i s :
  v !! i = Some s → Forall (λ s', (sr_expiry interfaces warmth s ≤ sr_expiry interfaces warmth s')%Z) v →
  Forall (justified now (swap_removed v i)) [(Evicted, s)].
Proof.
  intros Hi Hall. apply (justified_mono now v); [by eapply swap_removed_sub|]. by repeat constructor.
Qed.

(** What the table holds after the outcome. *)
Definition after_insert (arrival : AnnounceArrival) id ret (outcome : UpsertRouteOutcome)
    (kept v' : list StoredRoute) : Prop :=
  match outcome with
  | Inserted => ∃ handle, v' = kept ++ [new_route arrival id ret handle]
  | UpsertDropped _ => v' = kept
  | Updated => False
  end.

Lemma insert_new_ok t v arrival id ret removed now :
  let an := arr_announce arrival in
  ok t v → (an_destination an ∉ sr_destination <$> v) →
  ∃ outcome gone kept t' v',
    insert_new_route t arrival id ret interfaces warmth removed
      = Done (outcome, removed ++ (report <$> gone), t')
    ∧ ok t' v' ∧ rows_fall v kept ∧ v ≡ₚ gone.*2 ++ kept ∧ Forall (justified now kept) gone
    ∧ after_insert arrival id ret outcome kept v'
    ∧ (length v < rcap `min` acap → outcome ≠ UpsertDropped RoutingTableFull)
    ∧ (∀ h d, ad_insert (announce_app_data t) (an_app_data an) = Done (Ok h, d) → gone = []).
Proof.
  intros an Hok Hd. unfold insert_new_route. fold an. cbv zeta. destruct (ok_len t v Hok) as (-> & Hl1 & Hl2 & ->).
  destruct (Nat.leb_spec (rcap `min` acap) (length v)) as [Hfull|Hroom].
  { exists (UpsertDropped RoutingTableFull), [], v, t, v. rewrite app_nil_r.
    conj; eauto with prns; try done. intros Hlt. lia. }
  assert (Hins : ∀ t0 kept handle removed', placed t0 kept handle (an_app_data an) → kept ⊆+ v →
    ∃ t', store_new_route t0 arrival id ret handle interfaces warmth removed' = Done (Inserted, removed', t')
      ∧ ok t' (kept ++ [new_route arrival id ret handle])).
  { intros t0 kept handle removed' Hpl Hsub. apply store_new_ok; [done| |].
    - apply submseteq_length in Hsub. lia.
    - intros Hin. apply Hd. eapply elem_of_submseteq; [exact Hin|]. by apply fmap_submseteq. }
  destruct (insert_payload_ok t v (an_app_data an) removed Hok)
    as [(handle & t1 & -> & Hpl)|[(i & s & o & t1 & -> & Hi & Hall & (e & Ee) & Ho)|[-> ->]]]; cbn [mbind run_bind].
  - destruct (Hins t1 v handle removed Hpl) as (t' & -> & Hok'); [done|].
    exists Inserted, [], v, t', (v ++ [new_route arrival id ret handle]). rewrite app_nil_r.
    conj; eauto with prns; try done. by exists handle.
  - assert (Hnf : ∀ h d, ad_insert (announce_app_data t) (an_app_data an) = Done (Ok h, d) → [(Evicted, s)] = []).
    { intros h d. by rewrite Ee. }
    pose proof (evicted_justified now v i s Hi Hall) as Hj.
    assert (Hperm : v ≡ₚ [(Evicted, s)].*2 ++ swap_removed v i) by (cbn; by rewrite swap_removed_perm).
    destruct o as [handle|].
    + destruct (Hins t1 (swap_removed v i) handle (removed ++ [removed_as Evicted s]) Ho) as (t' & -> & Hok');
        [by eapply swap_removed_sub|].
      exists Inserted, [(Evicted, s)], (swap_removed v i), t', (swap_removed v i ++ [new_route arrival id ret handle]).
      conj; eauto with prns; try done. by exists handle.
    + exists (UpsertDropped PayloadArenaFull), [(Evicted, s)], (swap_removed v i), t1, (swap_removed v i).
      conj; eauto with prns; done.
  - exists (UpsertDropped PayloadArenaFull), [], [], t, []. rewrite app_nil_r. conj; eauto with prns; done.
Qed.
(** ** Making room *)

Definition culled (gone : list StoredRoute) : list (RouteRemovalCause * StoredRoute) :=
  (λ s, (rem_cause (removed_expired interfaces s), s)) <$> gone.

Lemma report_culled gone : report <$> culled gone = removed_expired interfaces <$> gone.
Proof. unfold culled. by rewrite <- list_fmap_compose. Qed.

Lemma culled_routes gone : (culled gone).*2 = gone.
Proof. unfold culled. rewrite <- list_fmap_compose. apply list_fmap_id. Qed.

Lemma culled_justified now v gone kept :
  gone ≡ₚ filter (λ s, expired interfaces warmth now s = true) v →
  Forall (justified now kept) (culled gone).
Proof.
  intros Hg. unfold culled. rewrite Forall_fmap, Hg. apply list.Forall_forall.
  intros s [Hx _]%list_elem_of_filter. unfold justified, removed_expired. cbn.
  by destruct (descriptor_for interfaces (receiving_interface (sr_entry s))).
Qed.

(** The room-making of an upsert: what it computes before [insert_new_route]. *)
Definition make_room t (now : InstantMillis) : run (list RemovedRoute * table) :=
  if (destination_capacity t <=? rt_len (routes t))%nat then
    '(_, removed, t) ← cull_expired_routes_with_warmth t now interfaces warmth;
    if (destination_capacity t <=? rt_len (routes t))%nat then
      '(_, removed, t) ← evict_route_nearest_expiry t interfaces warmth removed;
      Done (removed, t)
    else Done (removed, t)
  else Done ([], t).

Lemma make_room_ok t v now :
  ok t v →
  ∃ gone t' kept, make_room t now = Done (report <$> gone, t') ∧ ok t' kept
    ∧ rows_fall v kept ∧ v ≡ₚ gone.*2 ++ kept ∧ Forall (justified now kept) gone
    ∧ (0 < rcap `min` acap → length kept < rcap `min` acap)
    ∧ (length v < rcap `min` acap → gone = [] ∧ t' = t).
Proof.
  intros Hok. unfold make_room. destruct (ok_len t v Hok) as (El & Hl1 & Hl2 & ->). rewrite El.
  destruct (Nat.leb_spec (rcap `min` acap) (length v)) as [Hfull|Hroom].
  2: { exists [], t, v. conj; eauto with prns; done. }
  destruct (cull_linear_exact t v now Hok) as (t1 & left & gone & -> & Hok1 & Hfall & Hl & Hg). cbn [mbind run_bind].
  assert (Hp : v ≡ₚ gone ++ left).
  { rewrite Hl, Hg. symmetry. apply (filter_split (expired interfaces warmth now)). }
  pose proof (culled_justified now v gone left Hg) as Hj.
  destruct (ok_len t1 left Hok1) as (El1 & _ & _ & ->). rewrite El1.
  destruct (Nat.leb_spec (rcap `min` acap) (length left)) as [Hfull1|Hroom1].
  - destruct (decide (left = [])) as [->|Hne].
    + assert (E0 : evict_route_nearest_expiry t1 interfaces warmth (removed_expired interfaces <$> gone)
        = Done (NothingToEvict, removed_expired interfaces <$> gone, t1)).
      { unfold evict_route_nearest_expiry. by rewrite El1. }
      rewrite E0. cbn [mbind run_bind].
      exists (culled gone), t1, []. rewrite report_culled, culled_routes. conj; eauto with prns; try done. intros Hlt. cbn in *. lia.
    + destruct (evict_nearest_ok t1 left (removed_expired interfaces <$> gone) Hok1 Hne)
        as (t2 & i & s & -> & Hok2 & Hi & Hall). cbn [mbind run_bind].
      exists (culled gone ++ [(Evicted, s)]), t2, (swap_removed left i).
      rewrite !fmap_app, report_culled, culled_routes. conj; eauto with prns; try done.
      * eapply rows_fall_trans; [done|]. eauto with prns.
      * rewrite <- app_assoc. cbn. by rewrite swap_removed_perm.
      * apply Forall_app. split; [|by apply evicted_justified].
        eapply justified_mono; [by eapply swap_removed_sub|exact Hj].
      * pose proof (lookup_lt_Some _ _ _ Hi). rewrite length_swap_removed by done.
        apply Permutation_length in Hp.
        rewrite length_app in Hp. lia.
      * intros Hlt. lia.
  - exists (culled gone), t1, left. rewrite report_culled, culled_routes. conj; eauto with prns; try done. intros Hlt. lia.
Qed.
Lemma upsert_unknown t arrival id ret :
  index_of (routes t) (an_destination (arr_announce arrival)) = Done None →
  upsert_route_with_retention_and_warmth t arrival id ret interfaces warmth
  = '(removed, t) ← make_room t (arr_arrived_at arrival);
    insert_new_route t arrival id ret interfaces warmth removed.
Proof. intros E. unfold upsert_route_with_retention_and_warmth. by rewrite E. Qed.

Lemma not_elem_sub d v kept :
  kept ⊆+ v → (d ∉ sr_destination <$> v) → d ∉ sr_destination <$> kept.
Proof. intros Hsub Hd Hin. apply Hd. eapply elem_of_submseteq; [exact Hin|]. by apply fmap_submseteq. Qed.

Lemma upsert_new t v arrival id ret :
  ok t v → (an_destination (arr_announce arrival) ∉ sr_destination <$> v) →
  ∃ outcome gone kept t' v',
    upsert_route_with_retention_and_warmth t arrival id ret interfaces warmth
      = Done (outcome, report <$> gone, t')
    ∧ ok t' v' ∧ rows_fall v kept ∧ v ≡ₚ gone.*2 ++ kept ∧ Forall (justified (arr_arrived_at arrival) kept) gone
    ∧ after_insert arrival id ret outcome kept v'
    ∧ (0 < rcap `min` acap → outcome ≠ UpsertDropped RoutingTableFull)
    ∧ (length v < rcap `min` acap →
       ∀ h d, ad_insert (announce_app_data t) (an_app_data (arr_announce arrival)) = Done (Ok h, d) → gone = []).
Proof.
  intros Hok Hd.
  destruct (index_of_ok t v (an_destination (arr_announce arrival)) Hok) as [(i & s & _ & Hi & Hs)|[E _]].
  { exfalso. apply Hd. rewrite <- Hs. apply list_elem_of_fmap_2. by eapply list_elem_of_lookup_2. }
  rewrite (upsert_unknown t arrival id ret E).
  destruct (make_room_ok t v (arr_arrived_at arrival) Hok) as (gone1 & t1 & kept1 & -> & Hok1 & Hf1 & Hp1 & Hj1 & Hr1 & Hn1).
  cbn [mbind run_bind].
  assert (Hsub1 : kept1 ⊆+ v) by (rewrite Hp1; apply submseteq_inserts_l; done).
  destruct (insert_new_ok t1 kept1 arrival id ret (report <$> gone1) (arr_arrived_at arrival) Hok1)
    as (outcome & gone2 & kept & t' & v' & -> & Hok' & Hf2 & Hp2 & Hj2 & Ha & Hf & Hn2).
  { by eapply not_elem_sub. }
  exists outcome, (gone1 ++ gone2), kept, t', v'. rewrite <- fmap_app. conj; try done.
  - by eapply rows_fall_trans.
  - rewrite fmap_app, <- app_assoc, <- Hp2. done.
  - apply Forall_app. split; [|done]. eapply justified_mono; [|exact Hj1].
    rewrite Hp2. apply submseteq_inserts_l. done.
  - intros Hc. apply Hf. by apply Hr1.
  - intros Hlt h d Had. destruct (Hn1 Hlt) as [-> ->]. by apply (Hn2 h d).
Qed.

(** C1. Learning a route to an unknown destination, over any stores that keep their contracts.
    The call returns and the table stays well formed; the routes of before are those kept and those
    reported as removed, each once; a route is removed only because it had expired by the arrival
    or because its expiry is not after that of any route kept; on [Inserted] the table holds the
    kept routes and the new one, on a drop only the kept ones.  A table with room for any route
    never answers [RoutingTableFull], and with room and space for the payload nothing is
    removed. *)
Theorem upsert_learns_route (t : table) (v : list StoredRoute) (arrival : AnnounceArrival)
    (id : RouteEvidenceId) (ret : RouteRetention) (Hok : ok t v)
    (Hd : an_destination (arr_announce arrival) ∉ sr_destination <$> v) :
  ∃ outcome gone kept t' v',
    upsert_route_with_retention_and_warmth t arrival id ret interfaces warmth
      = Done (outcome, report <$> gone, t')
    ∧ ok t' v' ∧ rows_fall v kept ∧ v ≡ₚ gone.*2 ++ kept ∧ Forall (justified (arr_arrived_at arrival) kept) gone
    ∧ after_insert arrival id ret outcome kept v'
    ∧ (0 < rcap `min` acap → outcome ≠ UpsertDropped RoutingTableFull)
    ∧ (length v < rcap `min` acap →
       ∀ h d, ad_insert (announce_app_data t) (an_app_data (arr_announce arrival)) = Done (Ok h, d) → gone = []).
Proof. by apply upsert_new. Qed.

(** ** Refreshing a known destination *)

Lemma core_replaced t v i s s' rs ars ids app (ix : I) :
  table_core rcap acap per t v → v !! i = Some s →
  rt_rep rs rcap (<[i := sr_row s']> (sr_row <$> v)) →
  ar_rep ars acap (<[i := sr_record s']> (sr_record <$> v)) →
  (∀ free, ah_rep (announce_id_history t) per ((sr_ids <$> v) ++ replicate free []) →
     ah_rep ids per (<[i := sr_ids s']> (sr_ids <$> v) ++ replicate free [])) →
  ad_rep app (<[sr_handle s := sr_app s']> (payloads v)) →
  NoDup (sr_ids s') → maybe_app_data_handle (sr_record s') = Some (sr_handle s') →
  sr_handle s' = sr_handle s → sr_destination s' = sr_destination s →
  table_core rcap acap per (mkTable rs ix ars ids app) (<[i := s']> v).
Proof.
  intros [Hr Ha (free & Hh & Hfree) Hin Hp Hhd Hhnd Hdn] Hi Hr' Ha' Hh' Hp' Hnd Hhs Heq Hds.
  destruct (payloads_replaced v i s s' Hhnd Hi Heq) as [Hhnd' Hpl].
  split; cbn [routes route_expiries announce_records announce_id_history announce_app_data].
  - by rewrite list_fmap_insert.
  - by rewrite list_fmap_insert.
  - exists free. rewrite list_fmap_insert, length_insert. split; [by apply Hh'|done].
  - by apply Forall_insert.
  - by rewrite Hpl.
  - by apply Forall_insert.
  - done.
  - rewrite list_fmap_insert. rewrite list_insert_id; [done|]. by rewrite list_lookup_fmap, Hi, Hds.
Qed.
Lemma alter_insert {X} (f : X → X) (xs : list X) i x :
  xs !! i = Some x → alter f i xs = <[i := f x]> xs.
Proof. revert i. induction xs as [|y xs IH]; intros [|i]; cbn; [done..|by intros [= ->]|]. intros Hi. by rewrite IH. Qed.

(** Setting the row, and the evidence id when the path changed. *)
Lemma set_row_and_evidence t v i s e id (changed : bool) :
  table_core rcap acap per t v → v !! i = Some s →
  ∃ rs1 rs2, rt_set_row (routes t) i e = Done rs1
    ∧ (if changed then rt_set_evidence_id rs1 i id else Done rs1) = Done rs2
    ∧ rt_rep rs2 rcap
        (<[i := mkRow (sr_destination s) (if changed then id else sr_evidence s) e]> (sr_row <$> v)).
Proof.
  intros Hc Hi. pose proof (lookup_lt_Some _ _ _ Hi) as Hlt.
  assert (Hr : (sr_row <$> v) !! i = Some (sr_row s)) by (by rewrite list_lookup_fmap, Hi).
  destruct (rt_set_row_ok _ _ _ i e (ok_routes Hc)) as (rs1 & E1 & Hr1); [by rewrite length_fmap|].
  rewrite (alter_insert _ _ _ _ Hr) in Hr1. destruct changed.
  - destruct (rt_set_evidence_ok _ _ _ i id Hr1) as (rs2 & E2 & Hr2); [by rewrite length_insert, length_fmap|].
    rewrite (alter_insert _ _ _ (with_entry e (sr_row s))), list_insert_insert_eq in Hr2
      by (by rewrite list_lookup_insert_eq by (by rewrite length_fmap)).
    by exists rs1, rs2.
  - by exists rs1, rs1.
Qed.

Lemma remember_at t v i s id :
  table_core rcap acap per t v → v !! i = Some s →
  ∃ o h, ah_remember (announce_id_history t) i id = Done (o, h)
    ∧ ∀ free, ah_rep (announce_id_history t) per ((sr_ids <$> v) ++ replicate free []) →
        ah_rep h per (<[i := (remember_id per (sr_ids s) id).2]> (sr_ids <$> v) ++ replicate free []).
Proof.
  intros Hc Hi. destruct (ok_ids Hc) as (free & Hh & _).
  assert (Hids : ∀ free, ((sr_ids <$> v) ++ replicate free []) !! i = Some (sr_ids s)).
  { intros n. apply lookup_app_l_Some. by rewrite list_lookup_fmap, Hi. }
  destruct (ah_remember_ok _ _ _ i (sr_ids s) id Hh (Hids free)) as (h & E & Hh').
  eexists _, h. split; [exact E|]. intros free' Hfree'.
  destruct (ah_remember_ok _ _ _ i (sr_ids s) id Hfree' (Hids free')) as (h2 & E2 & Hh2).
  rewrite E in E2. injection E2 as <-. rewrite insert_app_l in Hh2; [done|].
  rewrite length_fmap. by eapply lookup_lt_Some.
Qed.

Lemma upsert_known t v i s arrival id ret :
  ok t v → v !! i = Some s → sr_destination s = an_destination (arr_announce arrival) →
  (∃ t', upsert_route_with_retention_and_warmth t arrival id ret interfaces warmth = Done (Updated, [], t')
     ∧ ok t' (<[i := refreshed_route per arrival id ret s]> v))
  ∨ (upsert_route_with_retention_and_warmth t arrival id ret interfaces warmth
     = Done (UpsertDropped PayloadArenaFull, [], t)).
Proof.
  intros Hok Hi Hd.
  unfold upsert_route_with_retention_and_warmth. rewrite <- Hd, (index_of_present t v i s Hok Hi).
  cbn [mbind run_bind]. unfold refresh_existing_route. cbv zeta.
  destruct (ok_cells t v i s Hok Hi) as (_ & _ & _ & _ & _ & -> & E7 & _). cbn [mbind run_bind].
  rewrite E7. cbn [mbind run_bind].
  destruct (ok_record_cells t v i s Hok Hi) as (_ & _ & _ & _ & _ & ->). cbn [mbind run_bind].
  set (an := arr_announce arrival). fold (path_changed arrival s).
  destruct (ad_replace_ok _ _ _ _ (an_app_data an) (ok_app Hok) (payloads_lookup v i s (ok_handles_nodup Hok) Hi))
    as [(d & -> & Hp)|[e ->]]; cbn [mbind run_bind].
  2: { right. by rewrite app_set_same. }
  left. cbn [set_app_data routes announce_records announce_id_history announce_app_data route_expiries].
  destruct (set_row_and_evidence t v i s (learned_entry arrival ret) id (path_changed arrival s) Hok Hi)
    as (rs1 & rs2 & -> & E2 & Hr). cbn [mbind run_bind]. rewrite E2. cbn [mbind run_bind].
  destruct (ar_set_row_ok _ _ _ i (announce_entry an (sr_handle s)) (ok_records Hok)) as (ars & -> & Ha).
  { rewrite length_fmap. by eapply lookup_lt_Some. }
  cbn [mbind run_bind].
  destruct (remember_at t v i s (an_announce_id an) Hok Hi) as (o & h & -> & Hh). cbn [mbind run_bind].
  set (s' := refreshed_route per arrival id ret s).
  assert (Hc : table_core rcap acap per (mkTable rs2 (route_expiries t) ars h d) (<[i := s']> v)).
  { apply (core_replaced t v i s s' _ _ _ _ _ Hok Hi); try done.
    apply remember_id_nodup. exact (Forall_lookup_1 _ _ _ _ (ok_ids_nodup Hok) Hi). }
  rewrite (expiry_of_ok _ _ i s' _ _ Hc) by (apply list_lookup_insert_eq; by eapply lookup_lt_Some).
  cbn [mbind run_bind]. cbn [route_expiries].
  destruct (ei_update_ok _ _ i (sr_expiry interfaces warmth s') (ok_index Hok)) as (ix & -> & Hx).
  { rewrite length_fmap. by eapply lookup_lt_Some. }
  cbn [mbind run_bind]. eexists. split; [done|]. split.
  - destruct Hc. by split.
  - by rewrite list_fmap_insert.
Qed.

(** C7. An arrival for a known destination, over any stores that keep their contracts: either the
    payload store refuses the new payload and the table holds what it held, or that destination's
    route is replaced by the arrival's — its evidence id renewed exactly when the receiving
    interface or the next hop changed, the announce id added to those remembered — and every other
    route is as before.  Nothing is removed. *)
Theorem upsert_refreshes_route (t : table) (v : list StoredRoute) (i : nat) (s : StoredRoute)
    (arrival : AnnounceArrival) (id : RouteEvidenceId) (ret : RouteRetention)
    (Hok : ok t v) (Hi : v !! i = Some s) (Hd : sr_destination s = an_destination (arr_announce arrival)) :
  (∃ t', upsert_route_with_retention_and_warmth t arrival id ret interfaces warmth = Done (Updated, [], t')
     ∧ ok t' (<[i := refreshed_route per arrival id ret s]> v))
  ∨ (upsert_route_with_retention_and_warmth t arrival id ret interfaces warmth
     = Done (UpsertDropped PayloadArenaFull, [], t)).
Proof. by apply upsert_known. Qed.
End learning.
