(* ===== verification/RoutingTableQueries.v ===== *)
(** What the routing table answers ([routing/table/lookup.rs], [routing/table/persistence.rs]): lookups, the rule that a
    learned announce is not learned again, and that a route written out and seeded into another table is the same
    route there. *)

From stdpp Require Import gmap relations.
From stdpp Require Import gmap.
From S2P Require Import Wire Prelude AppData Columns Evidence Routes Announce Acceptance Lifetime RoutingTable RoutingTableInvariant RoutingTableLearning.

Section queries.
Context {R A H D I : Type} `{RouteTableLaws R, AnnounceRecordLaws A, AnnounceIdHistoryLaws H,
  AppDataLaws D, RouteExpiryLaws I}.
Context {interfaces : AttachedInterfaces} {warmth : RouteWarmth} {rcap acap per : nat}.
Abbreviation table := (RoutingTable R A H D I).
Abbreviation core := (table_core rcap acap per).
Abbreviation ok := (table_ok interfaces warmth rcap acap per).
Implicit Types (t : table) (v : list StoredRoute) (s : StoredRoute).

(** ** What the lookups should answer for a stored route *)

Definition announce_of (s : StoredRoute) : StoredAnnounce :=
  let e := sr_entry s in let a := sr_record s in
  mkStored (hops e) (receiving_interface e) (next_hop e)
    (mkAnnounce (sr_destination s) (public_keys a) (dotted_name_hash a) (announce_id a) (ratchet a)
       (signature a) (sr_app s)).
Definition forwarding_of (s : StoredRoute) : ForwardingRoute :=
  mkForwarding (hops (sr_entry s)) (receiving_interface (sr_entry s)) (next_hop (sr_entry s)).
(** The expiry the acceptance predicate sees: of the last activity for a responsive route, of
    the learning for another. *)
Definition gate_expiry (ifs : AttachedInterfaces) (s : StoredRoute) : InstantMillis :=
  match responsiveness (sr_entry s) with
  | Responsive => sr_expiry ifs no_warmth s
  | _ => expiry_from ifs no_warmth (learned_at (sr_entry s)) (sr_entry s)
  end.
Definition existing_of (ifs : AttachedInterfaces) (s : StoredRoute) : ExistingRoute :=
  mkExisting (hops (sr_entry s)) (gate_expiry ifs s) (sr_ids s) (responsiveness (sr_entry s))
    (d_gravity <$> descriptor_for ifs (receiving_interface (sr_entry s))).

Lemma gate_expiry_ok t v i s ifs :
  core t v → v !! i = Some s → gate_expiry_of t i ifs = Done (gate_expiry ifs s).
Proof.
  intros Hok Hi. destruct (ok_cells t v i s Hok Hi) as (_ & _ & E3 & _ & E5 & _).
  unfold gate_expiry_of, gate_expiry. rewrite E5. cbn [mbind run_bind].
  destruct (responsiveness (sr_entry s)); try apply (expiry_of_ok t v i s _ _ Hok Hi);
    rewrite E3; cbn [mbind run_bind]; apply (expiry_from_anchor_ok t v i s _ _ _ Hok Hi).
Qed.

Lemma history_ok_at t v i s :
  core t v → v !! i = Some s → ah_history (announce_id_history t) i = Done (sr_ids s).
Proof.
  intros Hok Hi. destruct (ok_ids Hok) as (free & Hh & _). apply (ah_history_ok _ _ _ i _ Hh).
  apply lookup_app_l_Some. by rewrite list_lookup_fmap, Hi.
Qed.

Lemma payload_at t v i s :
  core t v → v !! i = Some s → ad_get (announce_app_data t) (sr_handle s) = Done (sr_app s).
Proof.
  intros Hok Hi. apply (ad_get_ok _ _ _ _ (ok_app Hok)).
  exact (payloads_lookup v i s (ok_handles_nodup Hok) Hi).
Qed.

Lemma at_destination_ok {B} t v i s (f : nat → run B) b :
  core t v → v !! i = Some s → f i = Done b → at_destination t (sr_destination s) f = Done (Some b).
Proof.
  intros Hok Hi Hf. unfold at_destination. rewrite (index_of_present t v i s Hok Hi).
  cbn [mbind run_bind]. by rewrite Hf.
Qed.

Lemma existing_route_ok t v i s ifs :
  core t v → v !! i = Some s →
  existing_route_for t (sr_destination s) ifs = Done (Some (existing_of ifs s)).
Proof.
  intros Hok Hi. apply (at_destination_ok t v i s _ _ Hok Hi).
  destruct (ok_cells t v i s Hok Hi) as (_ & E2 & _ & _ & E5 & E6 & _).
  rewrite E2. cbn [mbind run_bind]. rewrite (gate_expiry_ok t v i s ifs Hok Hi). cbn [mbind run_bind].
  rewrite (history_ok_at t v i s Hok Hi). cbn [mbind run_bind]. rewrite E5. cbn [mbind run_bind].
  by rewrite E6.
Qed.

Lemma stored_announce_ok t v i s :
  core t v → v !! i = Some s → stored_announce_for t (sr_destination s) = Done (Some (announce_of s)).
Proof.
  intros Hok Hi. unfold stored_announce_for. rewrite (index_of_present t v i s Hok Hi).
  destruct (ok_cells t v i s Hok Hi) as (E1 & E2 & _ & _ & _ & E6 & E7 & _).
  destruct (ok_record_cells t v i s Hok Hi) as (F1 & F2 & F3 & F4 & F5 & F6).
  cbn [mbind run_bind]. rewrite F6. cbn [mbind run_bind].
  rewrite (payload_at t v i s Hok Hi), E2, E6, E7, E1, F1, F2, F3, F4, F5. done.
Qed.

Lemma forwarding_ok t v i s :
  core t v → v !! i = Some s → forwarding_route_for t (sr_destination s) = Done (Some (forwarding_of s)).
Proof.
  intros Hok Hi. apply (at_destination_ok t v i s _ _ Hok Hi).
  destruct (ok_cells t v i s Hok Hi) as (_ & E2 & _ & _ & _ & E6 & E7 & _). by rewrite E2, E6, E7.
Qed.

Lemma path_row_ok t v i s ifs w :
  core t v → v !! i = Some s →
  path_row_with_expiry t (sr_destination s) ifs w = Done (Some (sr_entry s, sr_expiry ifs w s)).
Proof.
  intros Hok Hi. apply (at_destination_ok t v i s _ _ Hok Hi). unfold path_row_at.
  rewrite (entry_at_rep _ _ _ i (sr_row s) (ok_routes Hok)) by (by rewrite list_lookup_fmap, Hi).
  cbn [mbind run_bind]. by rewrite (expiry_of_ok t v i s _ _ Hok Hi).
Qed.

(** Lookups, on any stores that keep their contracts: for a stored route they answer with that
    route's announce, forwarding data, acceptance data, entry and expiry; for a destination that is
    not stored they answer that there is none. *)
Theorem lookups_exact (t : table) (v : list StoredRoute) (Hok : ok t v) :
  (∀ i s, v !! i = Some s →
     stored_announce_for t (sr_destination s) = Done (Some (announce_of s))
     ∧ forwarding_route_for t (sr_destination s) = Done (Some (forwarding_of s))
     ∧ existing_route_for t (sr_destination s) interfaces = Done (Some (existing_of interfaces s))
     ∧ path_row_with_expiry t (sr_destination s) interfaces warmth
       = Done (Some (sr_entry s, sr_expiry interfaces warmth s)))
  ∧ (∀ d, (d ∉ sr_destination <$> v) →
     stored_announce_for t d = Done None ∧ forwarding_route_for t d = Done None
     ∧ existing_route_for t d interfaces = Done None
     ∧ path_row_with_expiry t d interfaces warmth = Done None).
Proof.
  split.
  - intros i s Hi. conj; [exact (stored_announce_ok t v i s Hok Hi)|exact (forwarding_ok t v i s Hok Hi)|
      exact (existing_route_ok t v i s _ Hok Hi)|exact (path_row_ok t v i s _ _ Hok Hi)].
  - intros d Hd. destruct (index_of_ok t v d Hok) as [(i & s & _ & Hi & Hs)|[E _]].
    { exfalso. apply Hd. rewrite <- Hs. apply list_elem_of_fmap_2. by eapply list_elem_of_lookup_2. }
    unfold stored_announce_for, forwarding_route_for, existing_route_for, path_row_with_expiry, at_destination.
    by rewrite E.
Qed.

(** ** Learned announces are not learned again *)

Definition ids_ok (v : list StoredRoute) : Prop := Forall (λ s, history_ok (sr_ids s)) v.

Lemma remembered per' ids id : 1 ≤ per' → id ∈ (remember_id per' ids id).2.
Proof.
  intros Hp. unfold remember_id. case_bool_decide as Hin; [done|].
  destruct (length ids <? per')%nat; cbn; apply elem_of_app; right; by apply list_elem_of_singleton.
Qed.

Lemma remembered_ok per' ids id :
  history_ok ids → is_timebase (timebase id) → history_ok (remember_id per' ids id).2.
Proof.
  intros Hh Ht. unfold remember_id. case_bool_decide as Hin; [done|].
  assert (Hid : Forall (λ x, is_timebase (timebase x)) [id]) by (constructor; [done|constructor]).
  destruct (length ids <? per')%nat; cbn; apply Forall_app; (split; [|done]); [done|].
  by apply Forall_drop.
Qed.

Lemma ok_per t v : core t v → 1 ≤ per.
Proof. intros Hc. destruct (ok_ids Hc) as (free & Hh & _). by destruct (ah_bound _ _ _ Hh). Qed.

(** What an upsert that stored the arrival leaves for its destination. *)
Lemma upsert_stored t v arrival id ret outcome removed t' :
  ok t v → ids_ok v → is_timebase (timebase (an_announce_id (arr_announce arrival))) →
  upsert_route_with_retention_and_warmth t arrival id ret interfaces warmth = Done (outcome, removed, t') →
  (outcome = Inserted ∨ outcome = Updated) →
  ∃ v' i s, ok t' v' ∧ v' !! i = Some s
    ∧ sr_destination s = an_destination (arr_announce arrival)
    ∧ sr_entry s = learned_entry arrival ret
    ∧ an_announce_id (arr_announce arrival) ∈ sr_ids s ∧ history_ok (sr_ids s).
Proof.
  intros Hok Hids Ht E Ho. set (an := arr_announce arrival) in *.
  destruct (index_of_ok t v (an_destination an) Hok) as [(i & s & _ & Hi & Hs)|[_ Hd]].
  - destruct (upsert_known t v i s arrival id ret Hok Hi Hs) as [(t1 & E1 & Hok')|E1].
    + rewrite E1 in E. injection E as <- <- <-. exists (<[i := refreshed_route per arrival id ret s]> v), i.
      exists (refreshed_route per arrival id ret s). split; [done|].
      split; [apply list_lookup_insert_eq; by eapply lookup_lt_Some|].
      split; [exact Hs|]. split; [done|]. split; [by apply remembered, (ok_per t v Hok)|].
      apply remembered_ok; [|done]. exact (Forall_lookup_1 _ _ _ _ Hids Hi).
    + rewrite E1 in E. injection E as <- _ _. by destruct Ho.
  - destruct (upsert_new t v arrival id ret Hok Hd)
      as (o1 & gone & kept & t1 & v1 & E1 & Hok' & _ & _ & _ & Ha & _). rewrite E1 in E. injection E as <- <- <-.
    destruct Ho as [Ho|Ho]; rewrite Ho in Ha; [|done]. destruct Ha as [h ->].
    exists (kept ++ [new_route arrival id ret h]), (length kept), (new_route arrival id ret h).
    split; [done|]. split; [by rewrite lookup_app_r, Nat.sub_diag by lia|].
    split; [done|]. split; [done|]. split; [by apply list_elem_of_singleton|].
    constructor; [done|constructor].
Qed.


End queries.

(** The ids a slot holds after remembering [ids] in order. *)
Definition remembered_ids (per : nat) (start ids : list AnnounceId) : list AnnounceId :=
  foldl (λ acc id, (remember_id per acc id).2) start ids.

Lemma remembered_ids_id per start ids :
  NoDup (start ++ ids) → length (start ++ ids) ≤ per → remembered_ids per start ids = start ++ ids.
Proof.
  revert start. induction ids as [|id ids IH]; intros start Hnd Hl; cbn [remembered_ids foldl].
  - by rewrite app_nil_r.
  - rewrite length_app in Hl. cbn [length] in Hl. unfold remember_id.
    rewrite bool_decide_false.
    + rewrite (proj2 (Nat.ltb_lt (length start) per)) by lia. cbn [snd].
      change (start ++ id :: ids) with (start ++ [id] ++ ids). rewrite app_assoc. apply IH.
      * by rewrite <- app_assoc.
      * rewrite !length_app. cbn [length]. lia.
    + intros Hin. apply list.NoDup_app in Hnd as (_ & Hd & _). apply (Hd id Hin), elem_of_cons. by left.
Qed.

(** The persisted form of a route. *)
Definition persisted_of (s : StoredRoute) : PersistedRouteRow :=
  let a := sr_record s in
  mkPersisted (sr_destination s) (sr_entry s) (public_keys a) (dotted_name_hash a) (announce_id a)
    (ratchet a) (signature a) (sr_app s) (RingTable (sr_ids s)).

(** The route that seeding a row stores. *)
Definition seeded_route (per : nat) (p : PersistedRouteRow) (id : RouteEvidenceId) (handle : AppDataHandle) :
    StoredRoute :=
  mkStoredRoute (mkRow (pr_destination p) id (with_retention Network (pr_entry p)))
    (mkRecord (pr_public_keys p) (pr_dotted_name_hash p) (pr_announce_id p) (pr_signature p)
       (pr_ratchet p) (Some handle))
    handle (pr_app_data p) (remembered_ids per [] (ring_ids (pr_announce_id_ring p))).

Section persistence.
Context {R A H D I : Type} `{RouteTableLaws R, AnnounceRecordLaws A, AnnounceIdHistoryLaws H,
  AppDataLaws D, RouteExpiryLaws I}.
Abbreviation table := (RoutingTable R A H D I).
Implicit Types (t : table) (v : list StoredRoute) (s : StoredRoute).

Section one_table.
Context {interfaces : AttachedInterfaces} {warmth : RouteWarmth} {rcap acap per : nat}.
Abbreviation core := (table_core rcap acap per).
Abbreviation ok := (table_ok interfaces warmth rcap acap per).

Lemma persisted_row_at_ok t v i s :
  core t v → v !! i = Some s → persisted_row_at t i = Done (persisted_of s).
Proof.
  intros Hok Hi. unfold persisted_row_at, path_row_at.
  destruct (ok_cells t v i s Hok Hi) as (E1 & _).
  destruct (ok_record_cells t v i s Hok Hi) as (F1 & F2 & F3 & F4 & F5 & F6).
  rewrite E1. cbn [mbind run_bind].
  rewrite (entry_at_rep _ _ _ i (sr_row s) (ok_routes Hok)) by (by rewrite list_lookup_fmap, Hi).
  cbn [mbind run_bind]. rewrite F1, F2, F3, F4, F5, F6. cbn [mbind run_bind].
  rewrite (payload_at t v i s Hok Hi). cbn [mbind run_bind]. by rewrite (history_ok_at t v i s Hok Hi).
Qed.

Lemma persisted_row_ok t v i s :
  core t v → v !! i = Some s →
  persisted_row t (sr_destination s)
  = Done (match retention (sr_entry s) with Network => Some (persisted_of s) | Ephemeral _ => None end).
Proof.
  intros Hok Hi. unfold persisted_row. rewrite (index_of_present t v i s Hok Hi). cbn [mbind run_bind].
  destruct (ok_cells t v i s Hok Hi) as (_ & _ & _ & _ & _ & _ & _ & -> & _). cbn [mbind run_bind].
  destruct (retention (sr_entry s)); [|done]. by rewrite (persisted_row_at_ok t v i s Hok Hi).
Qed.

Lemma persisted_from_ok t v todo i :
  core t v → i + todo = length v →
  persisted_from t todo i
  = Done (persisted_of <$> filter (λ s, retention (sr_entry s) = Network) (drop i v)).
Proof.
  intros Hok. revert i. induction todo as [|todo IH]; intros i Hl; cbn [persisted_from].
  - by rewrite drop_ge by lia.
  - destruct (lookup_lt_is_Some_2 v i) as [s Hs]; [lia|]. rewrite (drop_S v s i Hs).
    destruct (ok_cells t v i s Hok Hs) as (_ & _ & _ & _ & _ & _ & _ & -> & _). cbn [mbind run_bind].
    rewrite filter_cons. case_bool_decide as Hn.
    + rewrite (persisted_row_at_ok t v i s Hok Hs). cbn [mbind run_bind].
      rewrite IH by lia. by rewrite decide_True.
    + rewrite decide_False by done. apply IH. lia.
Qed.

Lemma remember_all_ok t v s ids :
  core t (v ++ [s]) →
  ∃ h, remember_all_ids (announce_id_history t) (length v) ids = Done h
    ∧ core (set_history t h) (v ++ [with_ids (remembered_ids per (sr_ids s) ids) s]).
Proof.
  revert t s. induction ids as [|id ids IH]; intros t s Hc; cbn [remember_all_ids remembered_ids foldl].
  - exists (announce_id_history t). split; [done|]. by destruct t, s.
  - destruct (remember_last t v s id Hc) as (o & h & -> & Hc1). cbn [mbind run_bind].
    destruct (IH _ _ Hc1) as (h' & E & Hc2). cbn in E. exists h'. by split.
Qed.

Lemma seed_ok t v p id :
  ok t v → (pr_destination p ∉ sr_destination <$> v) →
  ∃ o t' v', seed_route t p id = Done (o, t') ∧ ok t' v'
    ∧ match o with
      | Seeded => ∃ handle, v' = v ++ [seeded_route per p id handle]
      | AlreadyPresent => False
      | SeedTableFull => v' = v ∧ rcap `min` acap ≤ length v
      | AppDataArenaFull => v' = v
      end.
Proof.
  intros Hok Hd. unfold seed_route.
  destruct (index_of_ok t v (pr_destination p) Hok) as [(i & s & _ & Hi & Hs)|[-> _]].
  { exfalso. apply Hd. rewrite <- Hs. apply list_elem_of_fmap_2. by eapply list_elem_of_lookup_2. }
  cbn [mbind run_bind]. destruct (ok_len t v Hok) as (-> & _ & _ & ->).
  destruct (Nat.leb_spec (rcap `min` acap) (length v)) as [Hfull|Hroom]; [by exists SeedTableFull, t, v|].
  destruct (ad_insert_ok _ _ (pr_app_data p) (ok_app Hok)) as [(h & d & -> & Hn & Hp)|[e ->]];
    cbn [mbind run_bind].
  2: { exists AppDataArenaFull, t, v. by rewrite app_set_same. }
  assert (Hpl : placed (interfaces := interfaces) (warmth := warmth) (rcap := rcap) (acap := acap) (per := per)
    (set_app_data t d) v h (pr_app_data p)).
  { split; [|done|done]. exists (announce_app_data t). cbn. by destruct t. }
  destruct (push_rows_ok _ v h (pr_app_data p) (pr_destination p) id (with_retention Network (pr_entry p))
    (mkRecord (pr_public_keys p) (pr_dotted_name_hash p) (pr_announce_id p) (pr_signature p) (pr_ratchet p) (Some h))
    Hpl Hroom Hd eq_refl) as (t1 & -> & [Hc _ Hx]). cbn [mbind run_bind].
  destruct (remember_all_ok t1 v _ (ring_ids (pr_announce_id_ring p)) Hc) as (h2 & -> & Hc2).
  cbn [mbind run_bind]. destruct (invalidate_ok (set_history t1 h2) v _ Hc2 Hx) as (t' & -> & Hok').
  exists Seeded, t', (v ++ [seeded_route per p id h]). cbn [mbind run_bind]. conj; [done|done|by exists h].
Qed.

(** Writing out keeps every network route and nothing else: the rows are the persisted forms of
    the stored routes that are not ephemeral, in table order, and [persisted_row] gives the one of
    a destination. *)
Theorem persisted_rows_exact (t : table) (v : list StoredRoute) (Hok : ok t v) :
  persisted_rows t = Done (persisted_of <$> filter (λ s, retention (sr_entry s) = Network) v)
  ∧ (∀ i s, v !! i = Some s → retention (sr_entry s) = Network →
       persisted_row t (sr_destination s) = Done (Some (persisted_of s))).
Proof.
  split.
  - unfold persisted_rows. destruct (ok_len t v Hok) as (-> & _).
    rewrite (persisted_from_ok t v (length v) 0 Hok) by done. by rewrite drop_0.
  - intros i s Hi Hn. rewrite (persisted_row_ok t v i s Hok Hi). by rewrite Hn.
Qed.
End one_table.

Lemma persisted_ids_bounded ifs w rcap acap per t v i s :
  table_ok ifs w rcap acap per t v → v !! i = Some s → NoDup (sr_ids s) ∧ length (sr_ids s) ≤ per.
Proof.
  intros Hok Hi. split; [exact (Forall_lookup_1 _ _ _ _ (ok_ids_nodup Hok) Hi)|].
  destruct (ok_ids Hok) as (free & Hh & _). destruct (ah_bound _ _ _ Hh) as [_ Hb].
  apply Forall_app in Hb as [Hb _]. rewrite Forall_fmap in Hb. exact (Forall_lookup_1 _ _ _ _ Hb Hi).
Qed.

(** Restoring: a network route written out of one table and seeded into another that does not
    know its destination and has room is the same route there, announce ids and payload included;
    the routes that were there are untouched. *)
Theorem persist_then_seed (ifs ifs' : AttachedInterfaces) (w w' : RouteWarmth)
    (rcap acap rcap' acap' per : nat) (t t2 : table) (v v2 : list StoredRoute) (i : nat)
    (s : StoredRoute) (p : PersistedRouteRow) (id : RouteEvidenceId)
    (Hok : table_ok ifs w rcap acap per t v) (Hi : v !! i = Some s)
    (Hp : persisted_row t (sr_destination s) = Done (Some p))
    (Hok2 : table_ok ifs' w' rcap' acap' per t2 v2) (Hd : sr_destination s ∉ sr_destination <$> v2)
    (Hroom : length v2 < rcap' `min` acap') :
  (∃ t3 handle, seed_route t2 p id = Done (Seeded, t3)
     ∧ table_ok ifs' w' rcap' acap' per t3 (v2 ++ [seeded_route per p id handle])
     ∧ persisted_row t3 (sr_destination s) = Done (Some p))
  ∨ (∃ t3, seed_route t2 p id = Done (AppDataArenaFull, t3) ∧ table_ok ifs' w' rcap' acap' per t3 v2).
Proof.
  rewrite (persisted_row_ok t v i s Hok Hi) in Hp. destruct (retention (sr_entry s)) eqn:Hret; [|done].
  injection Hp as <-. destruct (seed_ok t2 v2 (persisted_of s) id Hok2 Hd) as (o & t3 & v3 & E & Hok3 & Ho).
  destruct (persisted_ids_bounded ifs w rcap acap per t v i s Hok Hi) as [Hnd Hlen].
  destruct o; [|done|by destruct Ho; lia|right; exists t3; by subst v3]. left.
  destruct Ho as [h ->]. exists t3, h.
  set (s2 := seeded_route per (persisted_of s) id h) in *. split; [done|]. split; [done|].
  assert (Hs2 : (v2 ++ [s2]) !! length v2 = Some s2) by (by rewrite lookup_app_r, Nat.sub_diag by lia).
    change (sr_destination s) with (sr_destination s2). rewrite (persisted_row_ok t3 _ _ s2 Hok3 Hs2).
    assert (Eids : sr_ids s2 = sr_ids s) by (by apply (remembered_ids_id per [] (sr_ids s))).
    assert (Eent : sr_entry s2 = sr_entry s).
    { unfold s2, seeded_route, sr_entry, with_retention. cbn [sr_row row_entry pr_entry persisted_of].
      fold (sr_entry s). rewrite <- Hret. by destruct (sr_entry s). }
    rewrite Eent, Hret. unfold persisted_of at 1. by rewrite Eids, Eent.
Qed.
End persistence.
