(* ===== verification/RoutingTableEvidence.v ===== *)
(** Updates of single routes ([routing/table/updates.rs]) and route evidence handles
    ([lookup.rs], [resolve_route_evidence]).

    A handle names a route incarnation by its evidence id and guesses its row.  Rows only ever
    move down, so scanning down from the guess finds the route however the table has changed. *)

From stdpp Require Import gmap relations.
From S2P Require Import Prelude Wire Dedup AppData Columns Evidence Routes Announce Acceptance Lifetime RoutingTable RoutingTableInvariant RoutingTableLearning RoutingTableQueries.

Definition set_entry (e : RouteEntry) (s : StoredRoute) : StoredRoute :=
  mkStoredRoute (mkRow (sr_destination s) (sr_evidence s) e) (sr_record s) (sr_handle s) (sr_app s) (sr_ids s).

(** A route repointed from one interface to another. *)
Definition repointed (previous current : InterfaceId) (now : InstantMillis) (e : RouteEntry) : RouteEntry :=
  if decide (receiving_interface e = previous)
  then mkEntry (hops e) (learned_at e) now (responsiveness e) current (next_hop e) (retention e)
  else e.

Section updates.
Context {R A H D I : Type} `{RouteTableLaws R, AnnounceRecordLaws A, AnnounceIdHistoryLaws H,
  AppDataLaws D, RouteExpiryLaws I}.
Context {interfaces : AttachedInterfaces} {warmth : RouteWarmth} {rcap acap per : nat}.
Abbreviation table := (RoutingTable R A H D I).
Abbreviation core := (table_core rcap acap per).
Abbreviation ok := (table_ok interfaces warmth rcap acap per).
Implicit Types (t : table) (v : list StoredRoute) (s : StoredRoute).

(** Replacing rows of the route table only. *)
Lemma core_set_routes t v v' rs :
  core t v → rt_rep rs rcap (sr_row <$> v') →
  sr_record <$> v' = sr_record <$> v → sr_ids <$> v' = sr_ids <$> v →
  payload <$> v' = payload <$> v → sr_destination <$> v' = sr_destination <$> v →
  core (set_routes t rs) v'.
Proof.
  intros [Hr Ha (free & Hh & Hfree) Hin Hp Hhd Hhnd Hdn] Hr' Erec Eids Ep Ed.
  assert (Eh : sr_handle <$> v' = sr_handle <$> v).
  { change sr_handle with (fst ∘ payload). by rewrite !list_fmap_compose, Ep. }
  assert (El : length v' = length v) by (rewrite <- (length_fmap sr_ids v'), Eids; apply length_fmap).
  split; cbn [set_routes routes route_expiries announce_records announce_id_history announce_app_data].
  - done.
  - by rewrite Erec.
  - exists free. by rewrite Eids, El.
  - change (Forall (NoDup ∘ sr_ids) v'). apply Forall_fmap. rewrite Eids. by apply Forall_fmap.
  - unfold payloads in *. by rewrite Ep.
  - apply Forall_lookup. intros i s Hi.
    assert (E1 : (sr_record <$> v') !! i = Some (sr_record s)) by (by rewrite list_lookup_fmap, Hi).
    assert (E2 : (sr_handle <$> v') !! i = Some (sr_handle s)) by (by rewrite list_lookup_fmap, Hi).
    rewrite Erec, list_lookup_fmap in E1. rewrite Eh, list_lookup_fmap in E2.
    destruct (v !! i) as [s0|] eqn:E0; [|done]. injection E1 as <-. injection E2 as <-.
    exact (Forall_lookup_1 _ _ _ _ Hhd E0).
  - by rewrite Eh.
  - by rewrite Ed.
Qed.

Lemma fmap_insert_same {X Y} (f : X → Y) (xs : list X) i x x' :
  xs !! i = Some x → f x' = f x → f <$> <[i := x']> xs = f <$> xs.
Proof. intros Hi Hf. rewrite list_fmap_insert, list_insert_id; [done|]. by rewrite list_lookup_fmap, Hi, Hf. Qed.

Lemma update_row_core t v i s f :
  core t v → v !! i = Some s →
  ∃ rs, update_row t i f = Done (set_routes t rs)
    ∧ core (set_routes t rs) (<[i := set_entry (f (sr_entry s)) s]> v).
Proof.
  intros Hc Hi. unfold update_row.
  assert (Hr : (sr_row <$> v) !! i = Some (sr_row s)) by (by rewrite list_lookup_fmap, Hi).
  rewrite (entry_at_rep _ _ _ i (sr_row s) (ok_routes Hc) Hr). cbn [mbind run_bind]. fold (sr_entry s).
  destruct (rt_set_row_ok _ _ _ i (f (sr_entry s)) (ok_routes Hc)) as (rs & -> & Hr1).
  { rewrite length_fmap. by eapply lookup_lt_Some. }
  cbn [mbind run_bind]. exists rs. split; [done|]. rewrite (alter_insert _ _ _ _ Hr) in Hr1.
  apply (core_set_routes t v _ _ Hc); try (by eapply fmap_insert_same).
  by rewrite list_fmap_insert.
Qed.

(** An update that leaves the expiry alone keeps the index coherent. *)
Lemma update_row_ok t v i s f :
  ok t v → v !! i = Some s → entry_expiry interfaces warmth (f (sr_entry s)) = entry_expiry interfaces warmth (sr_entry s) →
  ∃ t', update_row t i f = Done t' ∧ ok t' (<[i := set_entry (f (sr_entry s)) s]> v).
Proof.
  intros Hok Hi Hf. destruct (update_row_core t v i s f Hok Hi) as (rs & -> & Hc).
  eexists. split; [done|]. split; [done|]. cbn.
  rewrite (fmap_insert_same _ _ _ s) by done. apply (ok_index Hok).
Qed.

Lemma update_and_invalidate t v i s f :
  ok t v → v !! i = Some s →
  ∃ t1 t', update_row t i f = Done t1 ∧ invalidate_route_expiries t1 = Done t'
    ∧ ok t' (<[i := set_entry (f (sr_entry s)) s]> v).
Proof.
  intros Hok Hi. destruct (update_row_core t v i s f Hok Hi) as (rs & E & Hc).
  destruct (invalidate_ok (set_routes t rs) v _ Hc (ok_index Hok)) as (t' & E' & Hok').
  by exists (set_routes t rs), t'.
Qed.

(** ** Repointing *)

Lemma repoint_loop_ok todo (r : R) rows row previous current now moved :
  rt_rep r rcap rows → row + todo = length rows →
  ∃ n r', repoint_loop todo r row previous current now moved = Done (moved + n, r')
    ∧ rt_rep r' rcap
        (take row rows ++ ((λ x, with_entry (repointed previous current now (row_entry x)) x) <$> drop row rows))
    ∧ (n = 0 → r' = r).
Proof.
  revert r rows row moved. induction todo as [|todo IH]; intros r rows row moved Hr Hl; cbn [repoint_loop].
  - exists 0, r. rewrite Nat.add_0_r, take_ge, drop_ge, app_nil_r by lia. done.
  - destruct (lookup_lt_is_Some_2 rows row) as [x Hx]; [lia|].
    destruct (rt_cells _ _ _ row x Hr Hx) as (_ & _ & _ & _ & _ & E6 & _). rewrite E6. cbn [mbind run_bind].
    rewrite (drop_S rows x row Hx), fmap_cons. unfold repointed at 1. case_decide as Hri.
    + rewrite (entry_at_rep _ _ _ row x Hr Hx). cbn [mbind run_bind].
      destruct (rt_set_row_ok _ _ _ row (mkEntry (hops (row_entry x)) (learned_at (row_entry x)) now
        (responsiveness (row_entry x)) current (next_hop (row_entry x)) (retention (row_entry x))) Hr)
        as (r1 & -> & Hr1); [lia|]. cbn [mbind run_bind].
      rewrite (alter_insert _ _ _ x Hx) in Hr1.
      destruct (IH r1 _ (S row) (S moved) Hr1) as (n & r' & -> & Hr' & _); [rewrite length_insert; lia|].
      exists (S n), r'. split; [do 2 f_equal; lia|]. split; [|done].
      rewrite drop_insert_lt in Hr' by lia.
      rewrite (take_S_r _ row (with_entry _ x)), take_insert_ge in Hr'
        by first [lia|apply list_lookup_insert_eq; lia].
      by rewrite <- app_assoc in Hr'.
    + destruct (IH r rows (S row) moved Hr) as (n & r' & -> & Hr' & Hn); [lia|].
      exists n, r'. split; [done|]. split; [|done].
      rewrite (take_S_r _ _ _ Hx), <- app_assoc in Hr'. by destruct x as [? ? []].
Qed.
(** ** Resolving a handle *)

Definition carries (id : RouteEvidenceId) (s : StoredRoute) : Prop := sr_evidence s = id.

(** No row that carries the handle's id is above the row its scan starts at. *)
Definition handle_valid v (hd : RouteEvidenceHandle) : Prop :=
  (0 ≤ row_hint hd ≤ u16_max)%Z
  ∧ ∀ r s, v !! r = Some s → carries (handle_id hd) s →
      (Z.of_nat r ≤ row_hint hd)%Z ∨ row_hint hd = u16_max.

Lemma row_hint_range r : (0 ≤ route_evidence_row_hint r ≤ u16_max)%Z.
Proof. unfold route_evidence_row_hint. destruct (Z.leb_spec (Z.of_nat r) u16_max); unfold u16_max, max_width in *; lia. Qed.

Lemma row_hint_covers r r' :
  r ≤ r' → (Z.of_nat r ≤ route_evidence_row_hint r')%Z ∨ route_evidence_row_hint r' = u16_max.
Proof. intros Hr. unfold route_evidence_row_hint. destruct (Z.leb_spec (Z.of_nat r') u16_max); lia. Qed.

Lemma resolve_loop_ok t v hd todo :
  core t v → todo ≤ length v →
  (∃ r s, resolve_loop t hd todo = Done (Some r, mkHandle (handle_id hd) (route_evidence_row_hint r))
     ∧ v !! r = Some s ∧ carries (handle_id hd) s
     ∧ ∀ r' s', r < r' < todo → v !! r' = Some s' → ¬ carries (handle_id hd) s')
  ∨ (resolve_loop t hd todo = Done (None, hd)
     ∧ ∀ r' s', r' < todo → v !! r' = Some s' → ¬ carries (handle_id hd) s').
Proof.
  intros Hc. induction todo as [|row IH]; intros Hl; cbn [resolve_loop].
  - right. split; [done|]. intros. lia.
  - destruct (lookup_lt_is_Some_2 v row) as [s Hs]; [lia|].
    destruct (ok_cells t v row s Hc Hs) as (_ & _ & _ & _ & _ & _ & _ & _ & ->). cbn [mbind run_bind].
    destruct (Z.eqb_spec (sr_evidence s) (handle_id hd)) as [Heq|Hne].
    + left. exists row, s. conj; try done. intros. lia.
    + destruct IH as [(r & s0 & -> & Hr & Hcar & Hno)|[-> Hno]]; [lia| |].
      * left. exists r, s0. conj; try done. intros r' s' Hr' Hs'.
        destruct (decide (r' = row)) as [->|]; [by simplify_eq|]. eapply Hno; [|done]. lia.
      * right. split; [done|]. intros r' s' Hr' Hs'.
        destruct (decide (r' = row)) as [->|]; [by simplify_eq|]. eapply Hno; [|done]. lia.
Qed.

(** A valid handle resolves to a row that carries its id, if there is one, and stays valid. *)
Lemma resolve_ok t v hd :
  core t v → handle_valid v hd →
  (∃ r s hd', resolve_route_evidence t hd = Done (Some r, hd') ∧ v !! r = Some s
     ∧ carries (handle_id hd) s ∧ handle_id hd' = handle_id hd ∧ handle_valid v hd')
  ∨ (resolve_route_evidence t hd = Done (None, hd) ∧ ∀ r s, v !! r = Some s → ¬ carries (handle_id hd) s).
Proof.
  intros Hc [Hrange Hv]. unfold resolve_route_evidence. destruct (ok_len t v Hc) as (-> & _).
  destruct (Nat.eqb_spec (length v) 0) as [E0|Hne].
  { right. split; [done|]. intros r s Hr. apply lookup_lt_Some in Hr. lia. }
  set (start := route_evidence_scan_start (row_hint hd) (length v)).
  assert (Hstart : start < length v ∧ ∀ r s, v !! r = Some s → carries (handle_id hd) s → r ≤ start).
  { unfold start, route_evidence_scan_start. destruct (Z.eqb_spec (row_hint hd) u16_max) as [E|Hn].
    - split; [lia|]. intros r s Hr _. apply lookup_lt_Some in Hr. lia.
    - split; [lia|]. intros r s Hr Hcar. destruct (Hv r s Hr Hcar); [|done]. apply lookup_lt_Some in Hr. lia. }
  destruct Hstart as [Hlt Hall].
  destruct (resolve_loop_ok t v hd (S start) Hc) as [(r & s & E & Hr & Hcar & Hno)|[E Hno]]; [lia| |].
  - left. eexists r, s, _. conj; try done. split; [apply row_hint_range|]. cbn.
    intros r' s' Hr' Hcar'. apply row_hint_covers. destruct (decide (r' ≤ r)) as [|Hgt]; [done|]. exfalso.
    apply (Hno r' s'); [|done..]. specialize (Hall r' s' Hr' Hcar'). lia.
  - right. split; [done|]. intros r s Hr Hcar. apply (Hno r s); [|done..]. specialize (Hall r s Hr Hcar). lia.
Qed.

(** What a step may do to the rows that carry an id: they only fall, and no new one appears. *)
Definition evidence_falls (id : RouteEvidenceId) v v' : Prop :=
  ∀ j s', v' !! j = Some s' → carries id s' → ∃ i s, j ≤ i ∧ v !! i = Some s ∧ carries id s.

Lemma handle_valid_falls v v' hd :
  handle_valid v hd → evidence_falls (handle_id hd) v v' → handle_valid v' hd.
Proof.
  intros [Hrange Hv] Hf. split; [done|]. intros r s Hr Hcar.
  destruct (Hf r s Hr Hcar) as (i & s0 & Hi & Hs & Hc). destruct (Hv i s0 Hs Hc); [left; lia|by right].
Qed.

Lemma rows_fall_evidence id v v' : rows_fall v v' → evidence_falls id v v'.
Proof. intros Hf j s Hj Hc. destruct (Hf j s Hj) as (i & Hi & Hs). by exists i, s. Qed.

Lemma falls_snoc id v v' s :
  rows_fall v v' → sr_evidence s ≠ id → evidence_falls id v (v' ++ [s]).
Proof.
  intros Hf Hne j s' Hj Hc. apply lookup_app_Some in Hj as [Hj|[_ Hj]].
  - by apply (rows_fall_evidence id v v' Hf j s').
  - apply list_lookup_singleton_Some in Hj as [_ <-]. by destruct Hne.
Qed.

Lemma falls_replace id v i s s' :
  v !! i = Some s → (sr_evidence s' = sr_evidence s ∨ sr_evidence s' ≠ id) →
  evidence_falls id v (<[i := s']> v).
Proof.
  intros Hi Hev j x Hj Hc. apply list_lookup_insert_Some in Hj as [(-> & <- & _)|[_ Hj]].
  - exists j, s. destruct Hev as [Hev|Hne]; [|by destruct Hne]. unfold carries in *. by rewrite <- Hev.
  - by exists j, x.
Qed.

Lemma falls_fmap id v (f : StoredRoute → StoredRoute) :
  (∀ s, sr_evidence (f s) = sr_evidence s) → evidence_falls id v (f <$> v).
Proof.
  intros Hf j x Hj Hc. rewrite list_lookup_fmap in Hj. apply fmap_Some in Hj as (s & Hs & ->).
  exists j, s. unfold carries in *. by rewrite <- Hf.
Qed.
(** ** Every operation keeps the table, and lets rows only fall *)

(** [keeps id v t']: [t'] is a well-formed table in which the rows that carry [id] are rows of
    [v] that have not risen. *)
Definition keeps (id : RouteEvidenceId) v t' : Prop := ∃ v', ok t' v' ∧ evidence_falls id v v'.

Lemma keeps_same id t v : ok t v → keeps id v t.
Proof. intros Hok. exists v. split; [done|]. apply rows_fall_evidence, rows_fall_refl. Qed.

Lemma keeps_row id t' v i s e :
  v !! i = Some s → ok t' (<[i := set_entry e s]> v) → keeps id v t'.
Proof. intros Hi Hok. eexists. split; [exact Hok|]. eapply falls_replace; [done|]. by left. Qed.

Lemma upsert_keeps t v arrival new_id ret :
  ok t v →
  ∃ outcome removed t', upsert_route_with_retention_and_warmth t arrival new_id ret interfaces warmth
      = Done (outcome, removed, t') ∧ ∀ id, new_id ≠ id → keeps id v t'.
Proof.
  intros Hok. destruct (index_of_ok t v (an_destination (arr_announce arrival)) Hok) as [(i & s & _ & Hi & Hs)|[_ Hd]].
  - destruct (upsert_known t v i s arrival new_id ret Hok Hi Hs) as [(t' & E & Hok')|E].
    + eexists _, _, t'. split; [exact E|]. intros id Hne. eexists. split; [exact Hok'|].
      apply (falls_replace id v i s _ Hi). unfold refreshed_route, sr_evidence. cbn.
      destruct (path_changed arrival s); [by right|by left].
    + eexists _, _, t. split; [exact E|]. intros id _. by apply keeps_same.
  - destruct (upsert_new t v arrival new_id ret Hok Hd) as (o & gone & kept & t' & v' & E & Hok' & Hf & _ & _ & Ha & _).
    eexists _, _, t'. split; [exact E|]. intros id Hne. exists v'. split; [done|].
    destruct o as [| |c]; [|done|].
    + destruct Ha as [h ->]. by apply falls_snoc.
    + cbn in Ha. subst v'. by apply rows_fall_evidence.
Qed.

Lemma seed_keeps t v p new_id :
  ok t v → ∃ o t', seed_route t p new_id = Done (o, t') ∧ ∀ id, new_id ≠ id → keeps id v t'.
Proof.
  intros Hok. destruct (index_of_ok t v (pr_destination p) Hok) as [(i & s & E & Hi & Hs)|[_ Hd]].
  - exists AlreadyPresent, t. unfold seed_route. rewrite E. split; [done|]. intros id _. by apply keeps_same.
  - destruct (seed_ok t v p new_id Hok Hd) as (o & t' & v' & E & Hok' & Ho). exists o, t'. split; [done|].
    intros id Hne. exists v'. split; [done|]. destruct o.
    + destruct Ho as [h ->]. apply falls_snoc; [apply rows_fall_refl|done].
    + done.
    + destruct Ho as [-> _]. apply rows_fall_evidence, rows_fall_refl.
    + subst v'. apply rows_fall_evidence, rows_fall_refl.
Qed.
(** Resolving any handle at all gives a row of the table or nothing. *)
Lemma resolve_any t v hd :
  core t v →
  ∃ o hd', resolve_route_evidence t hd = Done (o, hd')
    ∧ match o with Some r => ∃ s, v !! r = Some s ∧ carries (handle_id hd) s | None => True end.
Proof.
  intros Hc. unfold resolve_route_evidence. destruct (ok_len t v Hc) as (-> & _).
  destruct (Nat.eqb_spec (length v) 0) as [E0|Hne]; [by exists None, hd|].
  destruct (resolve_loop_ok t v hd (S (route_evidence_scan_start (row_hint hd) (length v))) Hc)
    as [(r & s & -> & Hr & Hcar & _)|[-> _]].
  - unfold route_evidence_scan_start. case_match; lia.
  - eexists _, _. split; [done|]. by exists s.
  - by exists None, hd.
Qed.

(** ** What each update does *)

Lemma evidence_updates_spec t v hd at_time :
  ok t v →
  (∃ changed hd' t' v', apply_route_evidence t hd at_time = Done (changed, hd', t') ∧ ok t' v'
     ∧ (if changed : bool then ∃ i s, v !! i = Some s ∧ sr_evidence s = handle_id hd
          ∧ v' = <[i := set_entry (with_responsiveness Responsive
                     (with_activity (Z.max (last_route_activity_at (sr_entry s)) at_time) (sr_entry s))) s]> v
        else v' = v))
  ∧ (∃ changed hd' t' v', mark_unresponsive_if_not_active_since t hd at_time = Done (changed, hd', t') ∧ ok t' v'
     ∧ (if changed : bool then ∃ i s, v !! i = Some s ∧ sr_evidence s = handle_id hd
          ∧ (learned_at (sr_entry s) ≤ at_time)%Z ∧ (last_route_activity_at (sr_entry s) ≤ at_time)%Z
          ∧ v' = <[i := set_entry (with_responsiveness Unresponsive (sr_entry s)) s]> v
        else v' = v)).
Proof.
  intros Hok.
  destruct (resolve_any t v hd Hok) as (o & hd' & E & Ho).
  unfold apply_route_evidence, mark_unresponsive_if_not_active_since. rewrite E. cbn [mbind run_bind].
  destruct o as [i|].
  2: { split; exists false, hd', t, v; (split; [done|]); (split; [done|]); done. }
  destruct Ho as (s & Hi & Hcar).
  destruct (ok_cells t v i s Hok Hi) as (_ & _ & _ & E4 & E5 & _). split.
  - rewrite E4. cbn [mbind run_bind]. rewrite E5. cbn [mbind run_bind]. destruct (negb (_ || _)).
    { exists false, hd', t, v. split; [done|]. done. }
    destruct (update_and_invalidate t v i s (λ e, with_responsiveness Responsive
      (with_activity (Z.max (last_route_activity_at (sr_entry s)) at_time) e)) Hok Hi) as (t1 & t' & -> & E' & Hok').
    cbn [mbind run_bind]. rewrite E'. cbn [mbind run_bind]. eexists _, _, t', _. split; [done|]. split; [exact Hok'|].
    by exists i, s.
  - rewrite (last_active_ok t v i s Hok Hi). cbn [mbind run_bind]. rewrite E5. cbn [mbind run_bind].
    destruct (Z.ltb_spec at_time (Z.max (learned_at (sr_entry s)) (last_route_activity_at (sr_entry s)))) as [Hlt|Hge];
      cbn [orb]; [exists false, hd', t, v; split; [done|]; done|].
    case_bool_decide as Hu; [exists false, hd', t, v; split; [done|]; done|].
    destruct (update_row_ok t v i s (with_responsiveness Unresponsive) Hok Hi eq_refl) as (t' & -> & Hok').
    cbn [mbind run_bind]. eexists _, _, t', _. split; [done|]. split; [exact Hok'|].
    exists i, s. conj; try done; lia.
Qed.

(** Traffic evidence.  Applying evidence to a handle's route sets its activity to the later of
    the two instants and marks it responsive; a failed attempt marks the route unresponsive only if
    nothing was heard on it after the attempt began.  Either changes only that route, and only the
    incarnation with the handle's evidence id; the table stays well formed and, since a route's
    expiry does not depend on its responsiveness, the expiry index stays right even where the code
    does not invalidate it. *)
Theorem evidence_updates_one_route (t : table) (v : list StoredRoute) (hd : RouteEvidenceHandle)
    (at_time : InstantMillis) (Hok : ok t v) :
  (∃ changed hd' t' v', apply_route_evidence t hd at_time = Done (changed, hd', t') ∧ ok t' v'
     ∧ (if changed : bool then ∃ i s, v !! i = Some s ∧ sr_evidence s = handle_id hd
          ∧ v' = <[i := set_entry (with_responsiveness Responsive
                     (with_activity (Z.max (last_route_activity_at (sr_entry s)) at_time) (sr_entry s))) s]> v
        else v' = v))
  ∧ (∃ changed hd' t' v', mark_unresponsive_if_not_active_since t hd at_time = Done (changed, hd', t') ∧ ok t' v'
     ∧ (if changed : bool then ∃ i s, v !! i = Some s ∧ sr_evidence s = handle_id hd
          ∧ (learned_at (sr_entry s) ≤ at_time)%Z ∧ (last_route_activity_at (sr_entry s) ≤ at_time)%Z
          ∧ v' = <[i := set_entry (with_responsiveness Unresponsive (sr_entry s)) s]> v
        else v' = v)).
Proof. by apply evidence_updates_spec. Qed.

Lemma evidence_keeps t v hd at_time :
  ok t v →
  (∃ b hd' t', apply_route_evidence t hd at_time = Done (b, hd', t') ∧ ∀ id, keeps id v t')
  ∧ (∃ b hd' t', mark_unresponsive_if_not_active_since t hd at_time = Done (b, hd', t') ∧ ∀ id, keeps id v t').
Proof.
  intros Hok. destruct (evidence_updates_spec t v hd at_time Hok)
    as [(b & hd' & t' & v' & E & Hok' & Hv) (b2 & hd2 & t2 & v2 & E2 & Hok2 & Hv2)]. split.
  - exists b, hd', t'. split; [done|]. intros id. destruct b.
    + destruct Hv as (i & s & Hi & _ & ->). by eapply keeps_row.
    + subst v'. by apply keeps_same.
  - exists b2, hd2, t2. split; [done|]. intros id. destruct b2.
    + destruct Hv2 as (i & s & Hi & _ & _ & _ & ->). by eapply keeps_row.
    + subst v2. by apply keeps_same.
Qed.

(** What happens to the row of a destination, if it has one. *)
Lemma update_destination t v d (f : RouteEntry → RouteEntry) (g : nat → run table) :
  ok t v →
  (∀ i s, v !! i = Some s → ∃ t', g i = Done t' ∧ ok t' (<[i := set_entry (f (sr_entry s)) s]> v)) →
  ∃ t', (o ← index_of (routes t) d; match o with None => Done t | Some i => g i end) = Done t'
    ∧ ∀ id, keeps id v t'.
Proof.
  intros Hok Hg. destruct (index_of_ok t v d Hok) as [(i & s & -> & Hi & Hs)|[-> _]]; cbn [mbind run_bind].
  - destruct (Hg i s Hi) as (t' & -> & Hok'). exists t'. split; [done|]. intros id. by eapply keeps_row.
  - exists t. split; [done|]. intros id. by apply keeps_same.
Qed.

Lemma mark_responsiveness_keeps t v d r :
  ok t v → ∃ t', mark_responsiveness t d r = Done t' ∧ ∀ id, keeps id v t'.
Proof.
  intros Hok. apply (update_destination t v d (with_responsiveness r) _ Hok). intros i s Hi.
  by apply update_row_ok.
Qed.

Lemma rebalance_keeps t v d h :
  ok t v → ∃ t', rebalance_hops t d h = Done t' ∧ ∀ id, keeps id v t'.
Proof.
  intros Hok. apply (update_destination t v d (with_hops h) _ Hok). intros i s Hi. by apply update_row_ok.
Qed.

Lemma note_relayed_keeps t v d now :
  ok t v → ∃ t', note_relayed t d now = Done t' ∧ ∀ id, keeps id v t'.
Proof.
  intros Hok. apply (update_destination t v d (with_activity now) _ Hok). intros i s Hi.
  destruct (update_and_invalidate t v i s (with_activity now) Hok Hi) as (t1 & t' & -> & E' & Hok').
  cbn [mbind run_bind]. by exists t'.
Qed.

Lemma note_relayed_row t v i s now :
  ok t v → v !! i = Some s →
  ∃ t', (t ← update_row t i (with_activity now);
         expiry ← expiry_of_with_warmth t i interfaces warmth;
         ix ← ei_update (route_expiries t) i expiry;
         Done (set_expiries t ix)) = Done t'
    ∧ ok t' (<[i := set_entry (with_activity now (sr_entry s)) s]> v).
Proof.
  intros Hok Hi. pose proof (lookup_lt_Some _ _ _ Hi) as Hlt.
  destruct (update_row_core t v i s (with_activity now) Hok Hi) as (rs & -> & Hc). cbn [mbind run_bind].
  set (s' := set_entry (with_activity now (sr_entry s)) s) in *.
  rewrite (expiry_of_ok _ _ i s' _ _ Hc) by (by apply list_lookup_insert_eq). cbn [mbind run_bind].
  cbn [set_routes route_expiries].
  destruct (ei_update_ok _ _ i (sr_expiry interfaces warmth s') (ok_index Hok)) as (ix & -> & Hx).
  { by rewrite length_fmap. }
  cbn [mbind run_bind]. eexists. split; [done|]. split; [destruct Hc; by split|]. by rewrite list_fmap_insert.
Qed.

Lemma note_relayed_with_warmth_keeps t v d now :
  ok t v → ∃ t', note_relayed_with_warmth t d now interfaces warmth = Done t' ∧ ∀ id, keeps id v t'.
Proof.
  intros Hok. apply (update_destination t v d (with_activity now) _ Hok). intros i s Hi. by apply note_relayed_row.
Qed.

(** Relaying slides the activity of the destination's route, and nothing else. *)
Lemma note_relayed_ok t v d now :
  ok t v → ∃ t' v', note_relayed_with_warmth t d now interfaces warmth = Done t' ∧ ok t' v'
    ∧ ((∃ i s, v !! i = Some s ∧ sr_destination s = d ∧ v' = <[i := set_entry (with_activity now (sr_entry s)) s]> v)
       ∨ (d ∉ sr_destination <$> v) ∧ v' = v).
Proof.
  intros Hok. unfold note_relayed_with_warmth. destruct (index_of_ok t v d Hok) as [(i & s & -> & Hi & Hs)|[-> Hn]]; cbn [mbind run_bind].
  - destruct (note_relayed_row t v i s now Hok Hi) as (t' & -> & Hok'). eexists _, _. split; [done|]. split; [exact Hok'|]. left. by exists i, s.
  - exists t, v. split; [done|]. split; [done|]. by right.
Qed.

Lemma repoint_keeps t v previous current now :
  ok t v → ∃ n t', repoint_routes t previous current now = Done (n, t') ∧ ∀ id, keeps id v t'.
Proof.
  intros Hok. unfold repoint_routes, repoint_receiving_interface. destruct (ok_len t v Hok) as (-> & _).
  destruct (repoint_loop_ok (length v) (routes t) (sr_row <$> v) 0 previous current now 0 (ok_routes Hok))
    as (n & rs & -> & Hr & Hn); [by rewrite length_fmap|]. cbn [mbind run_bind Nat.add].
  rewrite drop_0, take_0, app_nil_l, <- list_fmap_compose in Hr. set (f := λ s, set_entry (repointed previous current now (sr_entry s)) s).
  destruct (Nat.eqb_spec n 0) as [E0|Hne].
  { rewrite (Hn E0). exists n, (set_routes t (routes t)). split; [done|]. intros id. apply keeps_same. by destruct t. }
  assert (Hc : core (set_routes t rs) (f <$> v)).
  { by apply (core_set_routes t v _ _ Hok); rewrite <- list_fmap_compose. }
  destruct (invalidate_ok (set_routes t rs) v _ Hc (ok_index Hok)) as (t' & -> & Hok'). cbn [mbind run_bind].
  exists n, t'. split; [done|]. intros id. eexists. split; [exact Hok'|]. by apply falls_fmap.
Qed.
(** ** A handle finds its route however the table changes *)

(** One operation on the table, none of which issues the id [id] anew. *)
Inductive table_step `{Sha256} (id : RouteEvidenceId) : table → table → Prop :=
  | step_upsert t arrival new_id ret outcome removed t' : new_id ≠ id →
      upsert_route_with_retention_and_warmth t arrival new_id ret interfaces warmth = Done (outcome, removed, t') →
      table_step id t t'
  | step_seed t p new_id o t' : new_id ≠ id → seed_route t p new_id = Done (o, t') → table_step id t t'
  | step_cull t now n removed t' :
      cull_expired_routes_with_warmth t now interfaces warmth = Done (n, removed, t') → table_step id t t'
  | step_cull_indexed t now n removed t' :
      cull_expired_routes_indexed_with_warmth t now interfaces warmth = Done (n, removed, t') → table_step id t t'
  | step_drop t d o t' : drop_route t d = Done (o, t') → table_step id t t'
  | step_drop_via t transport n removed t' : drop_routes_via t transport = Done (n, removed, t') → table_step id t t'
  | step_drop_identity t identity n removed t' :
      drop_routes_for_identity t identity = Done (n, removed, t') → table_step id t t'
  | step_evidence t hd now b hd' t' : apply_route_evidence t hd now = Done (b, hd', t') → table_step id t t'
  | step_unresponsive t hd now b hd' t' :
      mark_unresponsive_if_not_active_since t hd now = Done (b, hd', t') → table_step id t t'
  | step_responsiveness t d r t' : mark_responsiveness t d r = Done t' → table_step id t t'
  | step_rebalance t d h t' : rebalance_hops t d h = Done t' → table_step id t t'
  | step_relayed t d now t' : note_relayed t d now = Done t' → table_step id t t'
  | step_relayed_warm t d now t' :
      note_relayed_with_warmth t d now interfaces warmth = Done t' → table_step id t t'
  | step_repoint t previous current now n t' :
      repoint_routes t previous current now = Done (n, t') → table_step id t t'.

Lemma keeps_left id v left t' : ok t' left → rows_fall v left → keeps id v t'.
Proof. intros Hok Hf. exists left. split; [done|]. by apply rows_fall_evidence. Qed.

Lemma table_step_keeps `{Sha256Laws} id t t' v : ok t v → table_step id t t' → keeps id v t'.
Proof.
  intros Hok Hstep. destruct Hstep as [t ? ? ? ? ? ? Hne E|t ? ? ? ? Hne E|t ? ? ? ? E|t ? ? ? ? E|t ? ? ? E
    |t ? ? ? ? E|t ? ? ? ? E|t ? ? ? ? ? E|t ? ? ? ? ? E|t ? ? ? E|t ? ? ? E|t ? ? ? E|t ? ? ? E|t ? ? ? ? ? E].
  - destruct (upsert_keeps t v arrival new_id ret Hok) as (? & ? & ? & E' & Hk). rewrite E in E'. inv_run. by apply Hk.
  - destruct (seed_keeps t v p new_id Hok) as (? & ? & E' & Hk). rewrite E in E'. inv_run. by apply Hk.
  - destruct (cull_linear_exact t v now Hok) as (? & ? & ? & E' & Hok' & Hf & _). rewrite E in E'. inv_run.
    by eapply keeps_left.
  - destruct (cull_indexed_exact t v now Hok) as (? & ? & ? & E' & Hok' & Hf & _). rewrite E in E'. inv_run.
    by eapply keeps_left.
  - destruct (drop_route_exact t v d Hok) as [(i & s & ? & Hi & _ & E' & Hok')|[_ E']]; rewrite E in E'; inv_run.
    + eapply keeps_left; [done|]. eauto with prns.
    + by apply keeps_same.
  - destruct (drop_via_exact t v transport Hok) as (? & ? & ? & E' & Hok' & Hf & _). rewrite E in E'. inv_run.
    by eapply keeps_left.
  - destruct (drop_identity_exact t v identity Hok) as (? & ? & ? & E' & Hok' & Hf & _). rewrite E in E'. inv_run.
    by eapply keeps_left.
  - destruct (evidence_keeps t v hd now Hok) as [(? & ? & ? & E' & Hk) _]. rewrite E in E'. inv_run. apply Hk.
  - destruct (evidence_keeps t v hd now Hok) as [_ (? & ? & ? & E' & Hk)]. rewrite E in E'. inv_run. apply Hk.
  - destruct (mark_responsiveness_keeps t v d r Hok) as (? & E' & Hk). rewrite E in E'. inv_run. apply Hk.
  - destruct (rebalance_keeps t v d h Hok) as (? & E' & Hk). rewrite E in E'. inv_run. apply Hk.
  - destruct (note_relayed_keeps t v d now Hok) as (? & E' & Hk). rewrite E in E'. inv_run. apply Hk.
  - destruct (note_relayed_with_warmth_keeps t v d now Hok) as (? & E' & Hk). rewrite E in E'. inv_run. apply Hk.
  - destruct (repoint_keeps t v previous current now Hok) as (? & ? & E' & Hk). rewrite E in E'. inv_run. apply Hk.
Qed.

(** What a run of steps keeps: a well-formed table on which the handle is valid. *)
Lemma steps_keep_handle `{Sha256Laws} t t' hd :
  (∃ v, ok t v ∧ handle_valid v hd) → rtc (table_step (handle_id hd)) t t' → ∃ v, ok t' v ∧ handle_valid v hd.
Proof.
  intros Hinv Hsteps. induction Hsteps as [|t t1 t2 Hstep _ IH]; [done|]. apply IH.
  destruct Hinv as (v & Hok & Hv). destruct (table_step_keeps _ t t1 v Hok Hstep) as (v1 & Hok1 & Hf).
  exists v1. split; [done|]. by eapply handle_valid_falls.
Qed.

Lemma fresh_handle_valid v i s :
  NoDup (sr_evidence <$> v) → v !! i = Some s →
  handle_valid v (mkHandle (sr_evidence s) (route_evidence_row_hint i)).
Proof.
  intros Hnd Hi. split; [apply row_hint_range|]. cbn. intros r s' Hr Hcar. apply row_hint_covers.
  assert (r = i) as ->; [|done]. eapply NoDup_lookup; [exact Hnd| |].
  - by rewrite list_lookup_fmap, Hr.
  - rewrite list_lookup_fmap, Hi. cbn. by rewrite Hcar.
Qed.

(** C5. The claim the comment of [resolve_route_evidence] makes.  A handle taken for a destination's
    route, in a table whose evidence ids are distinct, finds that incarnation after any sequence of
    table operations that does not issue its id again: it resolves to a row that carries the id
    whenever one does, and to nothing otherwise, although the rows have moved and only the rows at
    and below the guessed one are scanned; the call never panics. *)
Theorem evidence_handle_finds_route `{Sha256Laws} (t t' : table) (v : list StoredRoute)
    (d : DestinationHash) (hd : RouteEvidenceHandle) (Hok : ok t v) (Hnd : NoDup (sr_evidence <$> v))
    (Hhandle : route_evidence_handle_for t d = Done (Some hd))
    (Hsteps : rtc (table_step (handle_id hd)) t t') :
  ∃ v' o hd', ok t' v' ∧ resolve_route_evidence t' hd = Done (o, hd') ∧ handle_id hd' = handle_id hd
    ∧ match o with
      | Some r => ∃ s, v' !! r = Some s ∧ sr_evidence s = handle_id hd
      | None => ∀ r s, v' !! r = Some s → sr_evidence s ≠ handle_id hd
      end.
Proof.
  unfold route_evidence_handle_for, at_destination in Hhandle.
  destruct (index_of_ok t v d Hok) as [(i & s & Ei & Hi & Hs)|[Ei _]]; rewrite Ei in Hhandle;
    cbn [mbind run_bind] in Hhandle; [|done].
  destruct (ok_cells t v i s Hok Hi) as (_ & _ & _ & _ & _ & _ & _ & _ & E9). rewrite E9 in Hhandle.
  injection Hhandle as <-.
  destruct (steps_keep_handle t t' (mkHandle (sr_evidence s) (route_evidence_row_hint i))) as (v' & Hok' & Hv').
  { exists v. split; [done|]. by apply fresh_handle_valid. }
  { exact Hsteps. }
  destruct (resolve_ok t' v' _ Hok' Hv') as [(r & s' & hd' & E & Hr & Hcar & Hid & _)|[E Hno]].
  - exists v', (Some r), hd'. conj; try done. by exists s'.
  - eexists v', None, _. conj; done.
Qed.
End updates.
