(* ===== verification/RoutingTableSample.v ===== *)
(** The routing theorems on a concrete table: the indexed route table with room for two routes, the
    fixed-array record and id stores, the heap payload store and the linear expiry index, holding one route. *)

From stdpp Require Import gmap relations.
From S2P Require Import Prelude Wire Dedup AppData Columns Evidence Routes RoutesIndexed Announce Acceptance Interfaces Lifetime RoutingTable RoutingTableInvariant RoutingTableLearning RoutingTableQueries RoutingTableEvidence.

Abbreviation sample_t :=
  (RoutingTable (FixedIndexedRouteTable 2 4) (FixedRecords.FixedArrayAnnounceRecordTable 2)
     (FixedHistory.FixedAnnounceIdHistory 2 2) AppData.Heap.HeapAnnounceAppData LinearRouteExpiryIndex).

Definition empty_table : sample_t :=
  mkTable indexed_default Linear FixedRecords.default FixedHistory.default AppData.Heap.default.

Definition attached : AttachedInterfaces := [mkDescriptor iface_a (mkInterfaceCapabilities IngressEnabled (EgressEnabled CrossInterfaceOnly)) Full 10%Z 1000000%Z None RNS_DEFAULT].

Lemma empty_ok ifs w : table_ok ifs w 2 2 2 empty_table [].
Proof.
  split; [split|done]; cbn [empty_table routes announce_records announce_id_history announce_app_data].
  - apply indexed_default_routes_rep. split; by vm_compute.
  - apply FixedRecords.records_default_rep.
  - exists 2. split; [|cbn; lia]. apply (FixedHistory.ids_default_rep (MAX := 2) (PER := 2)); lia.
  - constructor.
  - apply AppData.Heap.heap_default_rep.
  - constructor.
  - constructor.
  - constructor.
Qed.

Definition dest_1 : DestinationHash := replicate 16 1%Z.
Definition dest_2 : DestinationHash := replicate 16 2%Z.
Definition transport_1 : TransportId := replicate 16 7%Z.
Definition keys_1 : IdentityPublicKeys := mkKeys (replicate 32 3%Z) (replicate 32 4%Z).

(** One route, learned at 1000 over [iface_a], two hops away. *)
Definition row_1 : PersistedRouteRow :=
  mkPersisted dest_1 (mkEntry 2 1000 0 Unknown iface_a (Via transport_1) Network) keys_1
    (replicate 10 5%Z) (id_at 1 100) None (replicate 64 6%Z) [1; 2; 3]%Z (RingTable [id_at 1 100]).

Definition seeded (t : sample_t) (p : PersistedRouteRow) (id : RouteEvidenceId) : sample_t :=
  match seed_route t p id with Done (_, t') => t' | _ => t end.
Definition table_1 : sample_t := seeded empty_table row_1 1%Z.
Definition routes_1 : list StoredRoute := [seeded_route 2 row_1 1%Z 0].

Lemma table_1_ok : table_ok attached no_warmth 2 2 2 table_1 routes_1.
Proof.
  destruct (seed_ok empty_table [] row_1 1%Z (empty_ok attached no_warmth)) as (o & t' & v' & E & Hok & Ho).
  { apply not_elem_of_nil. }
  assert (Ht : table_1 = t') by (unfold table_1, seeded; by rewrite E).
  assert (Hs : o = Seeded) by (vm_compute in E; by injection E as <- _). subst o t'. destruct Ho as [h ->].
  destruct (ok_record_cells table_1 _ 0 _ Hok eq_refl) as (_ & _ & _ & _ & _ & Eh).
  vm_compute in Eh. injection Eh as <-. exact Hok.
Qed.

(** An announce of another destination, and one of the known destination over another path. *)
Definition announce_2 : AnnounceMessage :=
  mkAnnounce dest_2 keys_1 (replicate 10 5%Z) (id_at 2 200) None (replicate 64 6%Z) [9]%Z.
Definition arrival_2 : AnnounceArrival := mkArrival announce_2 1 2000 iface_a Direct false.
Definition arrival_1 : AnnounceArrival :=
  mkArrival (mkAnnounce dest_1 keys_1 (replicate 10 5%Z) (id_at 2 200) None (replicate 64 6%Z) [9]%Z)
    1 2000 iface_a Direct false.

Definition learned (arrival : AnnounceArrival) : sample_t :=
  match upsert_route_with_retention_and_warmth table_1 arrival 2%Z Network attached no_warmth with
  | Done (_, _, t) => t | _ => table_1
  end.

Lemma dest_2_unknown : dest_2 ∉ sr_destination <$> routes_1.
Proof. by apply (bool_decide_unpack (dest_2 ∉ sr_destination <$> routes_1)). Qed.

Lemma upsert_learns_route_witness :
  ∃ outcome gone kept t' v',
    upsert_route_with_retention_and_warmth table_1 arrival_2 2%Z Network attached no_warmth
      = Done (outcome, report <$> gone, t')
    ∧ table_ok attached no_warmth 2 2 2 t' v' ∧ rows_fall routes_1 kept ∧ routes_1 ≡ₚ gone.*2 ++ kept
    ∧ Forall (justified (interfaces := attached) (warmth := no_warmth) 2000%Z kept) gone
    ∧ after_insert arrival_2 2%Z Network outcome kept v'
    ∧ (0 < 2 → outcome ≠ UpsertDropped RoutingTableFull)
    ∧ (1 < 2 → ∀ h d, ad_insert (announce_app_data table_1) [9]%Z = Done (Ok h, d) → gone = []).
Proof. exact (upsert_learns_route table_1 routes_1 arrival_2 2%Z Network table_1_ok dest_2_unknown). Defined.

Lemma upsert_refreshes_route_witness :
  (∃ t', upsert_route_with_retention_and_warmth table_1 arrival_1 2%Z Network attached no_warmth = Done (Updated, [], t')
     ∧ table_ok attached no_warmth 2 2 2 t' [refreshed_route 2 arrival_1 2%Z Network (seeded_route 2 row_1 1%Z 0)])
  ∨ (upsert_route_with_retention_and_warmth table_1 arrival_1 2%Z Network attached no_warmth
     = Done (UpsertDropped PayloadArenaFull, [], table_1)).
Proof.
  exact (upsert_refreshes_route table_1 routes_1 0 (seeded_route 2 row_1 1%Z 0) arrival_1 2%Z Network
    table_1_ok eq_refl eq_refl).
Defined.

Lemma lookups_exact_witness :
  stored_announce_for table_1 dest_1 = Done (Some (announce_of (seeded_route 2 row_1 1%Z 0)))
  ∧ stored_announce_for table_1 dest_2 = Done None.
Proof.
  destruct (lookups_exact table_1 routes_1 table_1_ok) as [Hin Hout]. split.
  - exact (proj1 (Hin 0 (seeded_route 2 row_1 1%Z 0) eq_refl)).
  - exact (proj1 (Hout dest_2 dest_2_unknown)).
Defined.

Lemma routes_1_ids : ids_ok routes_1.
Proof.
  constructor; [|constructor]. constructor; [|constructor].
  by apply (mint_timebase (replicate 5 1%Z) 100000%Z).
Qed.


Lemma persisted_rows_exact_witness :
  persisted_rows table_1 = Done [persisted_of (seeded_route 2 row_1 1%Z 0)]
  ∧ persisted_row table_1 dest_1 = Done (Some (persisted_of (seeded_route 2 row_1 1%Z 0))).
Proof.
  destruct (persisted_rows_exact table_1 routes_1 table_1_ok) as [Hall Hone]. split; [exact Hall|].
  exact (Hone 0 (seeded_route 2 row_1 1%Z 0) eq_refl eq_refl).
Defined.

Lemma persist_then_seed_witness :
  (∃ t3 handle, seed_route empty_table row_1 7%Z = Done (Seeded, t3)
     ∧ table_ok [] no_warmth 2 2 2 t3 [seeded_route 2 row_1 7%Z handle]
     ∧ persisted_row t3 dest_1 = Done (Some row_1))
  ∨ (∃ t3, seed_route empty_table row_1 7%Z = Done (AppDataArenaFull, t3) ∧ table_ok [] no_warmth 2 2 2 t3 []).
Proof.
  refine (persist_then_seed attached [] no_warmth no_warmth 2 2 2 2 2 table_1 empty_table routes_1 [] 0
    (seeded_route 2 row_1 1%Z 0) row_1 7%Z table_1_ok eq_refl _ (empty_ok [] no_warmth) _ _).
  - by vm_compute.
  - apply not_elem_of_nil.
  - cbn. lia.
Defined.

Lemma evidence_updates_one_route_witness :
  ∃ changed hd' t' v', apply_route_evidence table_1 (mkHandle 1%Z 0%Z) 3000%Z = Done (changed, hd', t')
    ∧ table_ok attached no_warmth 2 2 2 t' v'.
Proof.
  destruct (evidence_updates_one_route table_1 routes_1 (mkHandle 1%Z 0%Z) 3000%Z table_1_ok)
    as [(changed & hd' & t' & v' & E & Hok & _) _]. exists changed, hd', t', v'.
  split; [exact E|exact Hok].
Defined.

#[local] Existing Instance toy_sha256.
#[local] Existing Instance toy_sha256_laws.

(** The handle of [dest_1], after the hop count of its route was changed. *)
Definition rebalanced : sample_t :=
  match rebalance_hops table_1 dest_1 5%Z with Done t => t | _ => table_1 end.

Lemma evidence_handle_finds_route_witness :
  ∃ v' o hd', table_ok attached no_warmth 2 2 2 rebalanced v'
    ∧ resolve_route_evidence rebalanced (mkHandle 1%Z 0%Z) = Done (o, hd') ∧ handle_id hd' = 1%Z
    ∧ match o with
      | Some r => ∃ s, v' !! r = Some s ∧ sr_evidence s = 1%Z
      | None => ∀ r s, v' !! r = Some s → sr_evidence s ≠ 1%Z
      end.
Proof.
  refine (evidence_handle_finds_route table_1 rebalanced routes_1 dest_1 (mkHandle 1%Z 0%Z) table_1_ok _ _ _).
  - apply NoDup_singleton.
  - by vm_compute.
  - apply rtc_once. apply (step_rebalance _ table_1 dest_1 5%Z). by vm_compute.
Defined.

(** Past the week a route over a full interface lasts. *)
Definition late : InstantMillis := 700000000%Z.

Lemma cull_removes_exactly_expired_witness :
  ∃ t' left gone,
    cull_expired_routes_with_warmth table_1 late attached no_warmth
      = Done (length gone, removed_expired attached <$> gone, t')
    ∧ table_ok attached no_warmth 2 2 2 t' left ∧ rows_fall routes_1 left
    ∧ left ≡ₚ [] ∧ gone ≡ₚ routes_1.
Proof. exact (proj1 (cull_removes_exactly_expired table_1 routes_1 late table_1_ok)). Defined.

Lemma cull_at_deadline_progresses_witness :
  (∃ t1, soonest_route_expiry_indexed_with_warmth table_1 attached no_warmth = Done (Some 604801000%Z, t1))
  ∧ ∃ n removed t' o, cull_expired_routes_indexed_with_warmth table_1 late attached no_warmth = Done (n, removed, t')
    ∧ 0 < n ∧ soonest_route_expiry_with_warmth t' attached no_warmth = Done o
    ∧ match o with None => True | Some e' => (late < e')%Z end.
Proof.
  refine (cull_at_deadline_progresses table_1 routes_1 604801000%Z late table_1_ok _ _).
  - by vm_compute.
  - unfold late. lia.
Defined.

Lemma drops_remove_exactly_witness :
  ∃ t' left gone, drop_routes_via table_1 transport_1 = Done (length gone, removed_as Dropped <$> gone, t')
    ∧ table_ok attached no_warmth 2 2 2 t' left ∧ rows_fall routes_1 left ∧ left ≡ₚ [] ∧ gone ≡ₚ routes_1.
Proof.
  exact (proj1 (proj2 (drops_remove_exactly table_1 routes_1 dest_1 transport_1 (replicate 16 0%Z) table_1_ok))).
Defined.
