(* ===== verification/Upstream.v ===== *)
(** The destinations of the applications on this node: [routing/upstream_app_destinations/], with the names of
    [routing/announce/mod.rs] they are addressed by. *)

From S2P Require Import AppData Prelude Wire Dedup Columns Routes Announce ChannelTable Links Lifetime RoutingTable AnnounceSchedule.

(** * Names and addresses *)

Definition DOTTED_NAME_HASH_BYTE_LEN : nat := 10.
Definition MAX_DOTTED_NAME_LEN : nat := 128.
Definition DottedNameHash : Type := list Z.
Inductive ExpandNameError := DotInComponent | NameTooLong.

(** [heapless::Vec::extend_from_slice] and [push] with their errors, of the third-party crate. *)
Class HeaplessExtend := {
  hv_extend : ∀ {A : Type}, nat → list A → list A → option (list A);
  hv_try_push : ∀ {A : Type}, nat → list A → A → option (list A);
}.
Class HeaplessExtendLaws `{HeaplessExtend} : Prop := {
  hv_extend_ok : ∀ {A} (cap : nat) (xs ys : list A), hv_extend cap xs ys = if (length xs + length ys <=? cap)%nat then Some (xs ++ ys) else None;
  hv_try_push_ok : ∀ {A} (cap : nat) (xs : list A) x, hv_try_push cap xs x = if (length xs <? cap)%nat then Some (xs ++ [x]) else None;
}.

Definition DOT : Z := 46.
Definition contains_dot (component : list Z) : bool := existsb (λ b, (b =? DOT)%Z) component.

Section names.
Context `{Sha256} `{HeaplessExtend}.

Fixpoint append_aspects (name : list Z) (aspects : list (list Z)) : result ExpandNameError (list Z) :=
  match aspects with
  | [] => Ok name
  | aspect :: aspects =>
      if contains_dot aspect then Err DotInComponent else
      match hv_try_push MAX_DOTTED_NAME_LEN name DOT with
      | None => Err NameTooLong
      | Some name =>
          match hv_extend MAX_DOTTED_NAME_LEN name aspect with
          | None => Err NameTooLong
          | Some name => append_aspects name aspects
          end
      end
  end.
Definition expand_name (app_name : list Z) (aspects : list (list Z)) : result ExpandNameError DottedNameHash :=
  if contains_dot app_name then Err DotInComponent else
  match hv_extend MAX_DOTTED_NAME_LEN [] app_name with
  | None => Err NameTooLong
  | Some name =>
      match append_aspects name aspects with
      | Err e => Err e
      | Ok name => Ok (take DOTTED_NAME_HASH_BYTE_LEN (sha256 name))
      end
  end.

Definition derive_destination_hash (identity_hash : IdentityHash) (dotted_name_hash : DottedNameHash) : DestinationHash :=
  take TRUNCATED_HASH_BYTE_LEN (sha256 (dotted_name_hash ++ identity_hash)).
Definition derive_plain_destination_hash (dotted_name_hash : DottedNameHash) : DestinationHash :=
  take TRUNCATED_HASH_BYTE_LEN (sha256 dotted_name_hash).
End names.

(** * The registry *)

Inductive LinkRequestPolicy := AcceptAll | AcceptDirect | AcceptDirectFrom (interface : InterfaceId) | AcceptNoLinks.
Inductive ByteLimit := Unlimited | Maximum (bytes : Z).
Inductive RatchetPolicy := NoRatchets | Ratcheted | RatchetsRequired.

Definition ByteLimit_allows (limit : ByteLimit) (byte_count : Z) : bool :=
  match limit with Unlimited => true | Maximum maximum => (byte_count <=? maximum)%Z end.

Record SinglePolicy := mkSingle {
  sp_identity : IdentityHash;
  sp_proof_strategy : ProofStrategy;
  sp_link_request_policy : LinkRequestPolicy;
  sp_resource_strategy : ResourceStrategy;
  sp_maximum_request_bytes : ByteLimit;
  sp_ratchet_policy : RatchetPolicy;
}.
Inductive UpstreamAppDestinationKind := KindPlain | KindSingle (single : SinglePolicy) | KindGroup.
Definition wire_type (kind : UpstreamAppDestinationKind) : DestinationType :=
  match kind with KindPlain => Plain | KindSingle _ => Single | KindGroup => Group end.
#[global] Instance DestinationType_eq_dec : EqDecision DestinationType.
Proof. solve_decision. Defined.

Record UpstreamAppDestination := mkUpstream {
  ud_destination : DestinationHash;
  ud_kind : UpstreamAppDestinationKind;
  ud_name_hash : DottedNameHash;
}.

Definition ANNOUNCE_PUBLIC_KEY_BYTE_LEN : nat := 64.
Definition SIGNATURE_BYTE_LEN : nat := 64.
Definition ANNOUNCE_FIXED_FIELDS_LEN : nat :=
  ANNOUNCE_PUBLIC_KEY_BYTE_LEN + DOTTED_NAME_HASH_BYTE_LEN + ANNOUNCE_ID_WIRE_LEN + SIGNATURE_BYTE_LEN.
Definition MAX_ANNOUNCE_APP_DATA_LEN : nat := BROADCAST_MDU - ANNOUNCE_FIXED_FIELDS_LEN.

(** The rows of the registry. *)
Record Registration := mkRegistration { rg_destination : DestinationHash; rg_kind : UpstreamAppDestinationKind; rg_name_hash : DottedNameHash; rg_app_data : list Z }.

(** [kind_mut] and [app_data_at_mut] borrow a cell: what it holds, and the table with another value in it. *)
Class UpstreamAppDestinationTable (T : Type) := {
  ut_capacity : T → Z;
  ut_len : T → nat;
  ut_destinations : T → run (list DestinationHash);
  ut_kinds : T → run (list UpstreamAppDestinationKind);
  ut_name_hashes : T → run (list DottedNameHash);
  ut_app_data_at : T → nat → option (list Z);
  ut_app_data_at_mut : T → nat → option (list Z * (list Z → T));
  ut_kind_mut : T → nat → run (UpstreamAppDestinationKind * (UpstreamAppDestinationKind → T));
  ut_swap_remove : T → nat → run (option (list Z) * T);
  ut_upsert : T → Registration → run (option nat * T);
}.

Inductive RegisterDestinationError :=
  BadName (e : ExpandNameError) | RegistryFull | UnknownIdentity | RatchetTableFull | AppDataTooLong | InvalidGroupKey.
Inductive UnregisterRegistrationOutcome := Unregistered (registration : UpstreamAppDestination) | NotRegistered.

Section registry.
Context {T : Type} `{UpstreamAppDestinationTable T}.
Implicit Types (t : T) (destination : DestinationHash).

Definition registered_slot t destination : run (option nat) :=
  ds ← ut_destinations t; Done (fst <$> list_find (λ candidate, candidate = destination) ds).

Definition registry_upsert t (r : Registration) : run (result RegisterDestinationError DestinationHash * T) :=
  '(slot, t) ← ut_upsert t r;
  Done (match slot with Some _ => Ok (rg_destination r) | None => Err RegistryFull end, t).

Section register.
Context `{Sha256} `{HeaplessExtend}.

Definition register_plain t (app_name : list Z) (aspects : list (list Z)) : run (result RegisterDestinationError DestinationHash * T) :=
  match expand_name app_name aspects with
  | Err e => Done (Err (BadName e), t)
  | Ok name_hash => registry_upsert t (mkRegistration (derive_plain_destination_hash name_hash) KindPlain name_hash [])
  end.

Definition register_single t (identity_hash : IdentityHash) (app_name : list Z) (aspects : list (list Z)) (app_data : list Z)
    (proof_strategy : ProofStrategy) (link_request_policy : LinkRequestPolicy) (ratchet_policy : RatchetPolicy) :
    run (result RegisterDestinationError DestinationHash * T) :=
  match expand_name app_name aspects with
  | Err e => Done (Err (BadName e), t)
  | Ok name_hash =>
      match hv_extend MAX_ANNOUNCE_APP_DATA_LEN [] app_data with
      | None => Done (Err AppDataTooLong, t)
      | Some app_data =>
          registry_upsert t (mkRegistration (derive_destination_hash identity_hash name_hash)
            (KindSingle (mkSingle identity_hash proof_strategy link_request_policy AcceptNone Unlimited ratchet_policy)) name_hash app_data)
      end
  end.

Definition register_group t (identity_hash : IdentityHash) (app_name : list Z) (aspects : list (list Z)) :
    run (result RegisterDestinationError DestinationHash * T) :=
  match expand_name app_name aspects with
  | Err e => Done (Err (BadName e), t)
  | Ok name_hash => registry_upsert t (mkRegistration (derive_destination_hash identity_hash name_hash) KindGroup name_hash [])
  end.
End register.

Definition default_resource_strategy t destination : run ResourceStrategy :=
  slot ← registered_slot t destination;
  match slot with
  | None => Done AcceptNone
  | Some i =>
      kinds ← ut_kinds t;
      kind ← index kinds i;
      Done (match kind with KindSingle s => sp_resource_strategy s | _ => AcceptNone end)
  end.

(** The kind of a registered single, changed in place. *)
Definition change_single t destination (f : SinglePolicy → SinglePolicy) : run (bool * T) :=
  slot ← registered_slot t destination;
  match slot with
  | None => Done (false, t)
  | Some i =>
      '(kind, set_kind) ← ut_kind_mut t i;
      match kind with
      | KindSingle s => Done (true, set_kind (KindSingle (f s)))
      | _ => Done (false, t)
      end
  end.
Definition set_default_resource_strategy t destination (strategy : ResourceStrategy) : run (bool * T) :=
  change_single t destination (λ s, mkSingle (sp_identity s) (sp_proof_strategy s) (sp_link_request_policy s) strategy
    (sp_maximum_request_bytes s) (sp_ratchet_policy s)).
Definition set_maximum_request_bytes t destination (maximum : ByteLimit) : run (bool * T) :=
  change_single t destination (λ s, mkSingle (sp_identity s) (sp_proof_strategy s) (sp_link_request_policy s) (sp_resource_strategy s)
    maximum (sp_ratchet_policy s)).

(** [app_data_for] *)
Definition registered_app_data t destination : run (option (list Z)) :=
  slot ← registered_slot t destination; Done (slot ≫= ut_app_data_at t).

Definition replace_registered_announce_app_data t destination (app_data : list Z) : run (option (list Z) * T) :=
  slot ← registered_slot t destination;
  match slot with
  | None => Done (None, t)
  | Some i =>
      match ut_app_data_at_mut t i with
      | None => Done (None, t)
      | Some (registered, replace) => Done (Some registered, replace app_data)
      end
  end.

(** [kinds().get(slot)?], [name_hashes().get(slot)?] *)
Definition registered_at t destination (i : nat) : run (option UpstreamAppDestination) :=
  kinds ← ut_kinds t;
  names ← ut_name_hashes t;
  Done (match kinds !! i, names !! i with Some kind, Some name_hash => Some (mkUpstream destination kind name_hash) | _, _ => None end).

Definition registration_for t destination : run (option (UpstreamAppDestination * list Z)) :=
  slot ← registered_slot t destination;
  match slot with
  | None => Done None
  | Some i =>
      registered ← registered_at t destination i;
      Done (match registered, ut_app_data_at t i with Some r, Some app_data => Some (r, app_data) | _, _ => None end)
  end.

Definition unregister t destination : run (UnregisterRegistrationOutcome * T) :=
  slot ← registered_slot t destination;
  match slot with
  | None => Done (NotRegistered, t)
  | Some i =>
      registered ← registered_at t destination i;
      match registered with
      | None => Done (NotRegistered, t)
      | Some r =>
          '(removed, t) ← ut_swap_remove t i;
          Done (match removed with None => NotRegistered | Some _ => Unregistered r end, t)
      end
  end.

Definition lookup t destination (destination_type : DestinationType) : run (option UpstreamAppDestination) :=
  slot ← registered_slot t destination;
  match slot with
  | None => Done None
  | Some i =>
      kinds ← ut_kinds t;
      match kinds !! i with
      | None => Done None
      | Some kind => if bool_decide (wire_type kind = destination_type) then registered_at t destination i else Done None
      end
  end.

Definition lookup_single t destination : run (option SinglePolicy) :=
  found ← lookup t destination Single;
  Done (found ≫= λ r, match ud_kind r with KindSingle s => Some s | _ => None end).

Definition has_capacity_for t (additional : Z) : bool := (additional <=? saturating_sub (ut_capacity t) (Z.of_nat (ut_len t)))%Z.
End registry.

(** * Arrays with a length *)

Definition BLANK_DESTINATION : DestinationHash := replicate TRUNCATED_HASH_BYTE_LEN 0%Z.
Definition BLANK_NAME_HASH : DottedNameHash := replicate DOTTED_NAME_HASH_BYTE_LEN 0%Z.

Section fixed.
Context `{HeaplessVec} `{HeaplessRemove} {MAX : nat}.

Record FixedUpstreamAppDestinationTable := mkFixedUpstream {
  fu_len : nat;
  fu_destination : list DestinationHash;
  fu_kind : list UpstreamAppDestinationKind;
  fu_name_hash : list DottedNameHash;
  fu_app_data : list (list Z);
}.

Definition fixed_upstream_default : FixedUpstreamAppDestinationTable :=
  mkFixedUpstream 0 (replicate MAX BLANK_DESTINATION) (replicate MAX KindPlain) (replicate MAX BLANK_NAME_HASH) [].

Definition fixed_upstream_swap_remove (t : FixedUpstreamAppDestinationTable) (i : nat) : run (option (list Z) * FixedUpstreamAppDestinationTable) :=
  match fu_len t with
  | O => Done (None, t)
  | S last =>
      if (last <? i)%nat || (length (fu_app_data t) <=? i)%nat then Done (None, t) else
      ds ← swap_at (fu_destination t) i last;
      ks ← swap_at (fu_kind t) i last;
      ns ← swap_at (fu_name_hash t) i last;
      app_data ← index (fu_app_data t) i;
      as_ ← hv_swap_remove (fu_app_data t) i;
      ds ← store ds last BLANK_DESTINATION;
      ks ← store ks last KindPlain;
      ns ← store ns last BLANK_NAME_HASH;
      Done (Some app_data, mkFixedUpstream last ds ks ns as_)
  end.

Definition fixed_upstream_upsert (t : FixedUpstreamAppDestinationTable) (r : Registration) : run (option nat * FixedUpstreamAppDestinationTable) :=
  live ← slice (fu_destination t) 0 (fu_len t);
  match fst <$> list_find (λ candidate, candidate = rg_destination r) live with
  | Some i =>
      ks ← store (fu_kind t) i (rg_kind r);
      ns ← store (fu_name_hash t) i (rg_name_hash r);
      as_ ← store (fu_app_data t) i (rg_app_data r);
      Done (Some i, mkFixedUpstream (fu_len t) (fu_destination t) ks ns as_)
  | None =>
      if (MAX <=? fu_len t)%nat then Done (None, t) else
      let i := fu_len t in
      ds ← store (fu_destination t) i (rg_destination r);
      ks ← store (fu_kind t) i (rg_kind r);
      ns ← store (fu_name_hash t) i (rg_name_hash r);
      Done (Some i, mkFixedUpstream (fu_len t + 1) ds ks ns (hv_push MAX (fu_app_data t) (rg_app_data r)))
  end.

#[global] Instance fixed_upstream_table : UpstreamAppDestinationTable FixedUpstreamAppDestinationTable := {|
  ut_capacity := λ _, Z.of_nat MAX;
  ut_len := fu_len;
  ut_destinations := λ t, slice (fu_destination t) 0 (fu_len t);
  ut_kinds := λ t, slice (fu_kind t) 0 (fu_len t);
  ut_name_hashes := λ t, slice (fu_name_hash t) 0 (fu_len t);
  ut_app_data_at := λ t i, fu_app_data t !! i;
  ut_app_data_at_mut := λ t i,
    match fu_app_data t !! i with
    | None => None
    | Some app_data => Some (app_data, λ data, mkFixedUpstream (fu_len t) (fu_destination t) (fu_kind t) (fu_name_hash t) (<[i := data]> (fu_app_data t)))
    end;
  ut_kind_mut := λ t i,
    kind ← index (fu_kind t) i;
    Done (kind, λ kind, mkFixedUpstream (fu_len t) (fu_destination t) (<[i := kind]> (fu_kind t)) (fu_name_hash t) (fu_app_data t));
  ut_swap_remove := fixed_upstream_swap_remove;
  ut_upsert := fixed_upstream_upsert;
|}.
End fixed.

(** * Vectors *)

Record HeapUpstreamAppDestinationTable := mkHeapUpstream {
  hu_destination : list DestinationHash;
  hu_kind : list UpstreamAppDestinationKind;
  hu_name_hash : list DottedNameHash;
  hu_app_data : list (list Z);
}.
Definition heap_upstream_default : HeapUpstreamAppDestinationTable := mkHeapUpstream [] [] [] [].

Definition heap_upstream_swap_remove (t : HeapUpstreamAppDestinationTable) (i : nat) : run (option (list Z) * HeapUpstreamAppDestinationTable) :=
  if (length (hu_destination t) <=? i)%nat || (length (hu_kind t) <=? i)%nat || (length (hu_name_hash t) <=? i)%nat
    || (length (hu_app_data t) <=? i)%nat then Done (None, t) else
  ds ← vec_swap_remove (hu_destination t) i;
  ks ← vec_swap_remove (hu_kind t) i;
  ns ← vec_swap_remove (hu_name_hash t) i;
  app_data ← index (hu_app_data t) i;
  as_ ← vec_swap_remove (hu_app_data t) i;
  Done (Some app_data, mkHeapUpstream ds ks ns as_).

Definition heap_upstream_upsert (t : HeapUpstreamAppDestinationTable) (r : Registration) : run (option nat * HeapUpstreamAppDestinationTable) :=
  match fst <$> list_find (λ candidate, candidate = rg_destination r) (hu_destination t) with
  | Some i =>
      ks ← store (hu_kind t) i (rg_kind r);
      ns ← store (hu_name_hash t) i (rg_name_hash r);
      as_ ← store (hu_app_data t) i (rg_app_data r);
      Done (Some i, mkHeapUpstream (hu_destination t) ks ns as_)
  | None =>
      Done (Some (length (hu_destination t)),
        mkHeapUpstream (hu_destination t ++ [rg_destination r]) (hu_kind t ++ [rg_kind r]) (hu_name_hash t ++ [rg_name_hash r])
          (hu_app_data t ++ [rg_app_data r]))
  end.

#[global] Instance heap_upstream_table : UpstreamAppDestinationTable HeapUpstreamAppDestinationTable := {|
  ut_capacity := λ _, usize_max;
  ut_len := λ t, length (hu_destination t);
  ut_destinations := λ t, Done (hu_destination t);
  ut_kinds := λ t, Done (hu_kind t);
  ut_name_hashes := λ t, Done (hu_name_hash t);
  ut_app_data_at := λ t i, hu_app_data t !! i;
  ut_app_data_at_mut := λ t i,
    match hu_app_data t !! i with
    | None => None
    | Some app_data => Some (app_data, λ data, mkHeapUpstream (hu_destination t) (hu_kind t) (hu_name_hash t) (<[i := data]> (hu_app_data t)))
    end;
  ut_kind_mut := λ t i,
    kind ← index (hu_kind t) i;
    Done (kind, λ kind, mkHeapUpstream (hu_destination t) (<[i := kind]> (hu_kind t)) (hu_name_hash t) (hu_app_data t));
  ut_swap_remove := heap_upstream_swap_remove;
  ut_upsert := heap_upstream_upsert;
|}.
