(* ===== verification/UpstreamRegistry.v ===== *)
(** The registry of app destinations ([Upstream]): the contract of its tables, met by both implementations, and that it
    answers as a finite map would.  Names are hashed without ambiguity. *)

From stdpp Require Import gmap.
From S2P Require Import AppData Prelude Wire Dedup Columns KeyedMap Routes Announce ChannelTable Links AnnounceSchedule AnnounceSchedulePlan RoutingTable Upstream.

Definition with_kind (kind : UpstreamAppDestinationKind) (r : Registration) : Registration :=
  mkRegistration (rg_destination r) kind (rg_name_hash r) (rg_app_data r).
Definition with_app_data (app_data : list Z) (r : Registration) : Registration :=
  mkRegistration (rg_destination r) (rg_kind r) (rg_name_hash r) app_data.

Class UpstreamTableLaws (T : Type) `{UpstreamAppDestinationTable T} := {
  ut_rep : T → Z → list Registration → Prop;
  ut_capacity_ok : ∀ t cap rows, ut_rep t cap rows → ut_capacity t = cap ∧ ut_len t = length rows ∧ (Z.of_nat (length rows) ≤ cap)%Z;
  ut_destinations_ok : ∀ t cap rows, ut_rep t cap rows → ut_destinations t = Done (rg_destination <$> rows);
  ut_kinds_ok : ∀ t cap rows, ut_rep t cap rows → ut_kinds t = Done (rg_kind <$> rows);
  ut_name_hashes_ok : ∀ t cap rows, ut_rep t cap rows → ut_name_hashes t = Done (rg_name_hash <$> rows);
  ut_app_data_at_ok : ∀ t cap rows i, ut_rep t cap rows → ut_app_data_at t i = rg_app_data <$> rows !! i;
  ut_app_data_at_mut_ok : ∀ t cap rows i r, ut_rep t cap rows → rows !! i = Some r →
    ∃ replace, ut_app_data_at_mut t i = Some (rg_app_data r, replace)
      ∧ ∀ data, ut_rep (replace data) cap (<[i := with_app_data data r]> rows);
  ut_kind_mut_ok : ∀ t cap rows i r, ut_rep t cap rows → rows !! i = Some r →
    ∃ replace, ut_kind_mut t i = Done (rg_kind r, replace)
      ∧ ∀ kind, ut_rep (replace kind) cap (<[i := with_kind kind r]> rows);
  ut_swap_remove_ok : ∀ t cap rows i r, ut_rep t cap rows → rows !! i = Some r →
    ∃ t', ut_swap_remove t i = Done (Some (rg_app_data r), t') ∧ ut_rep t' cap (swap_removed rows i);
  ut_upsert_known : ∀ t cap rows i r r', ut_rep t cap rows → NoDup (rg_destination <$> rows) →
    rows !! i = Some r → rg_destination r' = rg_destination r →
    ∃ t', ut_upsert t r' = Done (Some i, t') ∧ ut_rep t' cap (<[i := r']> rows);
  ut_upsert_new : ∀ t cap rows r', ut_rep t cap rows → (rg_destination r' ∉ rg_destination <$> rows) →
    (Z.of_nat (length rows) < cap)%Z →
    ∃ t', ut_upsert t r' = Done (Some (length rows), t') ∧ ut_rep t' cap (rows ++ [r']);
  ut_upsert_full : ∀ t cap rows r', ut_rep t cap rows → (rg_destination r' ∉ rg_destination <$> rows) →
    Z.of_nat (length rows) = cap → (cap < usize_max)%Z → ut_upsert t r' = Done (None, t);
}.

(** ** The position of a destination among the rows *)

Lemma position_at (rows : list Registration) i r :
  NoDup (rg_destination <$> rows) → rows !! i = Some r →
  fst <$> list_find (λ candidate, candidate = rg_destination r) (rg_destination <$> rows) = Some i.
Proof.
  intros Hnd Hi. destruct (list_find_key rg_destination rows (rg_destination r)) as [(j & r' & -> & Hj & Hk)|[_ Hn]].
  - f_equal. eapply (NoDup_lookup (rg_destination <$> rows)); [done|rewrite list_lookup_fmap, Hj; cbn; by rewrite Hk|by rewrite list_lookup_fmap, Hi].
  - destruct Hn. apply list_elem_of_fmap. exists r. split; [done|]. by eapply list_elem_of_lookup_2.
Qed.

Lemma position_none (rows : list Registration) d :
  (d ∉ rg_destination <$> rows) → fst <$> list_find (λ candidate, candidate = d) (rg_destination <$> rows) = None.
Proof.
  intros Hn. destruct (list_find_key rg_destination rows d) as [(j & r' & _ & Hj & Hk)|[-> _]]; [|done].
  destruct Hn. apply list_elem_of_fmap. exists r'. split; [done|]. by eapply list_elem_of_lookup_2.
Qed.

(** A field the new row shares with the old one. *)
Lemma field_kept {A} (f : Registration → A) (rows : list Registration) (i : nat) r r' : rows !! i = Some r → f r' = f r → f <$> rows = f <$> <[i := r']> rows.
Proof. intros Hi E. rewrite list_fmap_insert, E. symmetry. apply list_insert_id. by rewrite list_lookup_fmap, Hi. Qed.

(** * Arrays with a length *)

(** A cell past the live rows may hold anything. *)
Lemma column_store_beyond {A} cap n (col live : list A) x :
  column cap n col live → n < cap → ∃ col', store col n x = Done col' ∧ column cap n col' live.
Proof.
  intros (Hl & Hn & Ht) Hlt. rewrite store_done by lia. eexists. split; [done|]. split; [by rewrite length_insert|]. split; [done|].
  by rewrite take_insert_ge.
Qed.

Lemma column_set {A} cap n (col live : list A) i x : column cap n col live → i < n → column cap n (<[i := x]> col) (<[i := x]> live).
Proof. intros (Hl & Hn & <-) Hi. split; [by rewrite length_insert|]. split; [done|]. by rewrite take_insert_lt. Qed.

Section fixed.
Context `{HeaplessVec} `{HeaplessRemove} `{!HeaplessQueueLaws} {MAX : nat}.
#[local] Existing Instance fixed_upstream_table.

Record fixed_upstream_rep (t : FixedUpstreamAppDestinationTable) (cap : Z) (rows : list Registration) : Prop := {
  fur_cap : cap = Z.of_nat MAX;
  fur_destination : column MAX (fu_len t) (fu_destination t) (rg_destination <$> rows);
  fur_kind : column MAX (fu_len t) (fu_kind t) (rg_kind <$> rows);
  fur_name_hash : column MAX (fu_len t) (fu_name_hash t) (rg_name_hash <$> rows);
  fur_app_data : fu_app_data t = rg_app_data <$> rows;
}.

Lemma fixed_upstream_len t cap rows : fixed_upstream_rep t cap rows → fu_len t = length rows ∧ fu_len t ≤ MAX.
Proof. intros [_ Hd _ _ _]. split; [|by destruct Hd as (_ & ? & _)]. apply column_length in Hd. by rewrite length_fmap in Hd. Qed.

Lemma fixed_upstream_removed t cap rows i r :
  fixed_upstream_rep t cap rows → rows !! i = Some r →
  ∃ t', fixed_upstream_swap_remove t i = Done (Some (rg_app_data r), t') ∧ fixed_upstream_rep t' cap (swap_removed rows i).
Proof.
  intros Hr Hi. pose proof (lookup_lt_Some _ _ _ Hi) as Hlt. destruct (fixed_upstream_len t cap rows Hr) as [Hl Hm].
  destruct Hr as [-> Hd Hk Hn Ha]. unfold fixed_upstream_swap_remove. rewrite Ha, length_fmap. destruct (fu_len t) as [|last]; [lia|].
  rewrite (proj2 (Nat.ltb_ge _ _)), (proj2 (Nat.leb_gt _ _)) by lia. cbn [orb].
  step_column (column_swap MAX last _ _ i Hd ltac:(lia)). step_column (column_swap MAX last _ _ i Hk ltac:(lia)).
  step_column (column_swap MAX last _ _ i Hn ltac:(lia)). rewrite (index_lookup _ i (rg_app_data r)) by (by rewrite list_lookup_fmap, Hi).
  cbn [mbind run_bind]. rewrite hq_swap_remove by (by rewrite length_fmap). cbn [mbind run_bind].
  step_column (column_store_beyond MAX last _ _ BLANK_DESTINATION Hc ltac:(lia)).
  step_column (column_store_beyond MAX last _ _ KindPlain Hc0 ltac:(lia)).
  step_column (column_store_beyond MAX last _ _ BLANK_NAME_HASH Hc1 ltac:(lia)).
  eexists. split; [done|]. by split; cbn; rewrite ?fmap_swap_removed.
Qed.

Lemma fixed_upstream_overwritten t cap rows i r r' :
  fixed_upstream_rep t cap rows → NoDup (rg_destination <$> rows) → rows !! i = Some r → rg_destination r' = rg_destination r →
  ∃ t', fixed_upstream_upsert (MAX := MAX) t r' = Done (Some i, t') ∧ fixed_upstream_rep t' cap (<[i := r']> rows).
Proof.
  intros Hr Hnd Hi Hk'. pose proof (lookup_lt_Some _ _ _ Hi) as Hlt. destruct (fixed_upstream_len t cap rows Hr) as [Hl Hm].
  destruct Hr as [-> Hd Hk Hn Ha]. unfold fixed_upstream_upsert. rewrite (column_slice _ _ _ _ Hd). cbn [mbind run_bind].
  rewrite Hk', (position_at rows i r Hnd Hi).
  step_column (column_store MAX _ _ _ i (rg_kind r') Hk ltac:(lia)). step_column (column_store MAX _ _ _ i (rg_name_hash r') Hn ltac:(lia)).
  rewrite Ha, store_done by (by rewrite length_fmap). cbn [mbind run_bind]. eexists. split; [done|].
  split; cbn [fu_len fu_destination fu_kind fu_name_hash fu_app_data]; rewrite ?list_fmap_insert; try done.
  by rewrite <- list_fmap_insert, <- (field_kept rg_destination rows i r r' Hi).
Qed.

Lemma fixed_upstream_appended t cap rows r' :
  fixed_upstream_rep t cap rows → (rg_destination r' ∉ rg_destination <$> rows) → (Z.of_nat (length rows) < cap)%Z →
  ∃ t', fixed_upstream_upsert (MAX := MAX) t r' = Done (Some (length rows), t') ∧ fixed_upstream_rep t' cap (rows ++ [r']).
Proof.
  intros Hr Hnew Hroom. destruct (fixed_upstream_len t cap rows Hr) as [Hl Hm].
  destruct Hr as [-> Hd Hk Hn Ha]. unfold fixed_upstream_upsert. rewrite (column_slice _ _ _ _ Hd). cbn [mbind run_bind].
  rewrite (position_none rows _ Hnew), (proj2 (Nat.leb_gt _ _)) by lia. cbn zeta.
  step_column (column_push MAX _ _ _ (rg_destination r') Hd ltac:(lia)). step_column (column_push MAX _ _ _ (rg_kind r') Hk ltac:(lia)).
  step_column (column_push MAX _ _ _ (rg_name_hash r') Hn ltac:(lia)). rewrite Ha, hv_push_room by (rewrite length_fmap; lia).
  rewrite <- Hl. eexists. split; [done|]. by split; cbn; rewrite ?Nat.add_1_r, ?fmap_app.
Qed.

Lemma fixed_upstream_refused t cap rows r' :
  fixed_upstream_rep t cap rows → (rg_destination r' ∉ rg_destination <$> rows) → Z.of_nat (length rows) = cap →
  fixed_upstream_upsert (MAX := MAX) t r' = Done (None, t).
Proof.
  intros Hr Hnew Hfull. destruct (fixed_upstream_len t cap rows Hr) as [Hl Hm]. destruct Hr as [-> Hd Hk Hn Ha].
  unfold fixed_upstream_upsert. rewrite (column_slice _ _ _ _ Hd). cbn [mbind run_bind].
  by rewrite (position_none rows _ Hnew), (proj2 (Nat.leb_le _ _)) by lia.
Qed.

#[global] Instance fixed_upstream_laws : UpstreamTableLaws FixedUpstreamAppDestinationTable (H := fixed_upstream_table (MAX := MAX)).
Proof.
  refine {| ut_rep := fixed_upstream_rep |}.
  - intros t cap rows Hr. destruct (fixed_upstream_len t cap rows Hr) as [Hl Hm]. rewrite (fur_cap _ _ _ Hr). cbn. split_and!; [done|done|lia].
  - intros t cap rows Hr. eapply column_slice, (fur_destination _ _ _ Hr).
  - intros t cap rows Hr. eapply column_slice, (fur_kind _ _ _ Hr).
  - intros t cap rows Hr. eapply column_slice, (fur_name_hash _ _ _ Hr).
  - intros t cap rows i Hr. cbn. by rewrite (fur_app_data _ _ _ Hr), list_lookup_fmap.
  - intros t cap rows i r Hr Hi. pose proof (fur_app_data _ _ _ Hr) as Ha. cbn. rewrite Ha, list_lookup_fmap, Hi. cbn. eexists. split; [done|].
    intros data. destruct Hr as [-> Hd Hk Hn _].
    split; cbn [fu_len fu_destination fu_kind fu_name_hash fu_app_data]; rewrite <- ?(field_kept _ rows i r (with_app_data data r) Hi) by done; try done.
    by rewrite list_fmap_insert.
  - intros t cap rows i r Hr Hi. pose proof (lookup_lt_Some _ _ _ Hi) as Hlt. destruct (fixed_upstream_len t cap rows Hr) as [Hl Hm].
    destruct Hr as [-> Hd Hk Hn Ha]. cbn. rewrite (index_lookup _ i (rg_kind r)).
    2: { eapply column_lookup; [exact Hk|]. by rewrite list_lookup_fmap, Hi. }
    cbn [mbind run_bind]. eexists. split; [done|]. intros kind.
    split; cbn [fu_len fu_destination fu_kind fu_name_hash fu_app_data]; rewrite <- ?(field_kept _ rows i r (with_kind kind r) Hi) by done; try done.
    rewrite list_fmap_insert. apply column_set; [done|lia].
  - apply fixed_upstream_removed.
  - apply fixed_upstream_overwritten.
  - apply fixed_upstream_appended.
  - intros t cap rows r' Hr Hnew Hfull _. by eapply fixed_upstream_refused.
Defined.

Lemma fixed_upstream_default_rep : ut_rep (UpstreamTableLaws := fixed_upstream_laws) (fixed_upstream_default (MAX := MAX)) (Z.of_nat MAX) [].
Proof. split; cbn; [done|apply column_new..|done]. Qed.
End fixed.

(** * Vectors *)

Definition heap_upstream_rep (t : HeapUpstreamAppDestinationTable) (cap : Z) (rows : list Registration) : Prop :=
  cap = usize_max ∧ (Z.of_nat (length rows) ≤ usize_max)%Z
  ∧ t = mkHeapUpstream (rg_destination <$> rows) (rg_kind <$> rows) (rg_name_hash <$> rows) (rg_app_data <$> rows).

#[global] Instance heap_upstream_laws : UpstreamTableLaws HeapUpstreamAppDestinationTable.
Proof.
  refine {| ut_rep := heap_upstream_rep |}.
  - intros t cap rows (-> & Hl & ->). cbn. by rewrite length_fmap.
  - by intros t cap rows (-> & Hl & ->).
  - by intros t cap rows (-> & Hl & ->).
  - by intros t cap rows (-> & Hl & ->).
  - intros t cap rows i (-> & Hl & ->). cbn. by rewrite list_lookup_fmap.
  - intros t cap rows i r (-> & Hl & ->) Hi. cbn. rewrite list_lookup_fmap, Hi. cbn. eexists. split; [done|]. intros data.
    split; [done|]. split; [by rewrite length_insert|]. f_equal; [by apply (field_kept _ rows i r)..|by rewrite list_fmap_insert].
  - intros t cap rows i r (-> & Hl & ->) Hi. cbn. rewrite (index_lookup _ i (rg_kind r)) by (by rewrite list_lookup_fmap, Hi). cbn [mbind run_bind].
    eexists. split; [done|]. intros kind. split; [done|]. split; [by rewrite length_insert|].
    f_equal; try (by apply (field_kept _ rows i r)); by rewrite list_fmap_insert.
  - intros t cap rows i r (-> & Hl & ->) Hi. pose proof (lookup_lt_Some _ _ _ Hi) as Hlt. cbn. unfold heap_upstream_swap_remove. cbn.
    rewrite !length_fmap, (proj2 (Nat.leb_gt _ _)) by lia. cbn [orb].
    repeat (rewrite vec_swap_remove_done by (by rewrite length_fmap); cbn [mbind run_bind]).
    rewrite (index_lookup _ i (rg_app_data r)) by (by rewrite list_lookup_fmap, Hi). cbn [mbind run_bind].
    eexists. split; [done|]. split; [done|].
    split; [rewrite length_swap_removed by done; lia|]. by rewrite !fmap_swap_removed.
  - intros t cap rows i r r' (-> & Hl & ->) Hnd Hi Hk. pose proof (lookup_lt_Some _ _ _ Hi) as Hlt. cbn. unfold heap_upstream_upsert. cbn.
    rewrite Hk, (position_at rows i r Hnd Hi). repeat (rewrite store_done by (by rewrite length_fmap); cbn [mbind run_bind]).
    eexists. split; [done|]. split; [done|]. split; [by rewrite length_insert|]. f_equal; rewrite ?list_fmap_insert; try done.
    rewrite <- list_fmap_insert. by apply (field_kept _ rows i r).
  - intros t cap rows r' (-> & Hl & ->) Hnew Hlt. cbn. unfold heap_upstream_upsert. cbn. rewrite (position_none rows _ Hnew), length_fmap.
    eexists. split; [done|]. split; [done|]. split; [rewrite length_app; cbn; lia|]. by rewrite !fmap_app.
  - intros t cap rows r' (-> & Hl & ->) _ _ Hlt. lia.
Defined.

Lemma heap_upstream_default_rep : ut_rep heap_upstream_default usize_max [].
Proof. split; [done|]. split; [|done]. unfold usize_max; cbn; width. Qed.

(** * Names *)

(** ["app.aspect1.aspect2"] *)
Fixpoint dotted (app_name : list Z) (aspects : list (list Z)) : list Z :=
  match aspects with [] => app_name | aspect :: aspects => app_name ++ DOT :: dotted aspect aspects end.

Definition dotless (component : list Z) : Prop := contains_dot component = false.

Lemma dotless_not_in component : dotless component ↔ DOT ∉ component.
Proof.
  unfold dotless, contains_dot. rewrite <- not_true_iff_false, existsb_exists. split.
  - intros Hn Hin. apply Hn. exists DOT. split; [by apply list_elem_of_In|]. by rewrite Z.eqb_refl.
  - intros Hn (x & Hx & ->%Z.eqb_eq). by apply Hn, list_elem_of_In.
Qed.

(** Up to the first dot. *)
Lemma split_first (a a' xs ys : list Z) : (DOT ∉ a) → (DOT ∉ a') → a ++ DOT :: xs = a' ++ DOT :: ys → a = a' ∧ xs = ys.
Proof.
  revert a'. induction a as [|x a IH]; intros [|x' a'] Ha Ha' E; cbn in E; injection E as E; try subst.
  - done.
  - destruct Ha'. left.
  - destruct Ha. left.
  - apply not_elem_of_cons in Ha as [_ Ha]. apply not_elem_of_cons in Ha' as [_ Ha']. by destruct (IH a' Ha Ha' H) as [-> ->].
Qed.

Lemma dotted_has_dot app_name aspect aspects : DOT ∈ dotted app_name (aspect :: aspects).
Proof. cbn. apply elem_of_app. right. left. Qed.

Lemma dotted_injective app_name aspects app_name' aspects' :
  Forall dotless (app_name :: aspects) → Forall dotless (app_name' :: aspects') →
  dotted app_name aspects = dotted app_name' aspects' → app_name = app_name' ∧ aspects = aspects'.
Proof.
  revert app_name app_name' aspects'. induction aspects as [|b bs IH]; intros a a' [|b' bs'] [Ha Hbs]%list.Forall_cons [Ha' Hbs']%list.Forall_cons E; cbn [dotted] in E.
  - done.
  - apply dotless_not_in in Ha. destruct Ha. rewrite E. apply elem_of_app. right. left.
  - apply dotless_not_in in Ha'. destruct Ha'. rewrite <- E. apply elem_of_app. right. left.
  - apply dotless_not_in in Ha, Ha'. destruct (split_first _ _ _ _ Ha Ha' E) as [-> E'].
    destruct (IH b b' bs' Hbs Hbs' E') as [-> ->]. done.
Qed.

Section names.
Context `{Sha256} `{HeaplessExtend} `{!HeaplessExtendLaws}.

Lemma append_aspects_ok name aspects full :
  append_aspects name aspects = Ok full ↔
  Forall dotless aspects ∧ full = dotted name aspects ∧ (aspects = [] ∨ length full ≤ MAX_DOTTED_NAME_LEN).
Proof.
  revert name. induction aspects as [|aspect aspects IH]; intros name; cbn [append_aspects dotted].
  { split; [intros [= ->]; auto|]. by intros (_ & -> & _). }
  destruct (contains_dot aspect) eqn:Hdot.
  { split; [done|]. intros ([Hd _]%list.Forall_cons & _). unfold dotless in Hd. congruence. }
  rewrite hv_try_push_ok. destruct (Nat.ltb_spec (length name) MAX_DOTTED_NAME_LEN).
  2: { split; [done|]. intros (_ & -> & [?|Hl]); [done|]. rewrite length_app in Hl. cbn in Hl. lia. }
  rewrite hv_extend_ok, length_app. destruct (Nat.leb_spec (length name + length [DOT] + length aspect) MAX_DOTTED_NAME_LEN) as [Hle|Hgt]; cbn in *.
  - rewrite IH, <- app_assoc. cbn. assert (E : dotted (name ++ DOT :: aspect) aspects = name ++ DOT :: dotted aspect aspects).
    { destruct aspects; cbn [dotted]; [done|]. by rewrite <- app_assoc. }
    rewrite E, list.Forall_cons. split.
    + intros (Hf & -> & Hor). split_and!; [done|done|done|]. right. destruct Hor as [->|?]; [|done]. cbn. rewrite length_app. cbn. lia.
    + intros ([_ Hf] & -> & [?|?]); [done|]. split_and!; [done|done|by right].
  - split; [done|]. intros (_ & -> & [?|Hl]); [done|]. destruct aspects; cbn [dotted] in Hl; rewrite !length_app in Hl; cbn in Hl; rewrite ?length_app in Hl; lia.
Qed.

Lemma expand_name_ok app_name aspects h :
  expand_name app_name aspects = Ok h ↔
  Forall dotless (app_name :: aspects) ∧ length (dotted app_name aspects) ≤ MAX_DOTTED_NAME_LEN
  ∧ h = take DOTTED_NAME_HASH_BYTE_LEN (sha256 (dotted app_name aspects)).
Proof.
  unfold expand_name. rewrite list.Forall_cons. destruct (contains_dot app_name) eqn:Hdot.
  { split; [done|]. intros ([Hd _] & _). unfold dotless in Hd. congruence. }
  rewrite hv_extend_ok. cbn. destruct (Nat.leb_spec (length app_name) MAX_DOTTED_NAME_LEN) as [Hle|Hgt].
  - destruct (append_aspects app_name aspects) as [full|e] eqn:E.
    + apply append_aspects_ok in E as (Hf & -> & Hor). split.
      * intros [= <-]. split_and!; [done|done| |done]. destruct Hor as [->|?]; done.
      * by intros (_ & _ & ->).
    + split; [done|]. intros ([_ Hf] & Hl & _). enough (append_aspects app_name aspects = Ok (dotted app_name aspects)) by congruence.
      apply append_aspects_ok. auto.
  - split; [done|]. intros (_ & Hl & _). destruct aspects; cbn [dotted] in Hl; rewrite ?length_app in Hl; cbn in Hl; lia.
Qed.

(** Names are hashed unambiguously.  A name is accepted exactly when none of its components has a dot and the
    dotted name has at most 128 bytes; its hash is the first ten bytes of the SHA-256 of the dotted name; and two
    names that are accepted have the same dotted name only if they have the same components, so that addresses
    collide only where SHA-256, truncated, does. *)
Theorem names_hashed_unambiguously (app_name : list Z) (aspects : list (list Z)) (app_name' : list Z) (aspects' : list (list Z)) :
  ((∃ h, expand_name app_name aspects = Ok h)
    ↔ Forall (λ c, contains_dot c = false) (app_name :: aspects) ∧ length (dotted app_name aspects) ≤ MAX_DOTTED_NAME_LEN)
  ∧ (∀ h, expand_name app_name aspects = Ok h → h = take DOTTED_NAME_HASH_BYTE_LEN (sha256 (dotted app_name aspects)))
  ∧ (∀ h h', expand_name app_name aspects = Ok h → expand_name app_name' aspects' = Ok h' →
      dotted app_name aspects = dotted app_name' aspects' → app_name = app_name' ∧ aspects = aspects').
Proof.
  split_and!.
  - split; [by intros [h (Hf & Hl & _)%expand_name_ok]|]. intros [Hf Hl]. eexists. by apply expand_name_ok.
  - by intros h (_ & _ & ->)%expand_name_ok.
  - intros h h' (Hf & _)%expand_name_ok (Hf' & _)%expand_name_ok. by apply dotted_injective.
Qed.
End names.

(** * The registry as a map *)

Inductive registry_op :=
  | RegisterPlain (app_name : list Z) (aspects : list (list Z))
  | RegisterSingle (identity : IdentityHash) (app_name : list Z) (aspects : list (list Z)) (app_data : list Z)
      (proofs : ProofStrategy) (links : LinkRequestPolicy) (ratchets : RatchetPolicy)
  | RegisterGroup (identity : IdentityHash) (app_name : list Z) (aspects : list (list Z))
  | SetStrategy (d : DestinationHash) (strategy : ResourceStrategy)
  | SetMaximum (d : DestinationHash) (maximum : ByteLimit)
  | ReplaceAppData (d : DestinationHash) (app_data : list Z)
  | Unregister (d : DestinationHash)
  | Lookup (d : DestinationHash) (type : DestinationType)
  | LookupSingle (d : DestinationHash)
  | RegistrationFor (d : DestinationHash)
  | AppDataFor (d : DestinationHash)
  | StrategyFor (d : DestinationHash)
  | RoomFor (additional : Z).
Inductive registry_answer :=
  | Registered (outcome : result RegisterDestinationError DestinationHash)
  | Changed (changed : bool)
  | Replaced (before : option (list Z))
  | Removed (outcome : UnregisterRegistrationOutcome)
  | Found (found : option UpstreamAppDestination)
  | FoundSingle (found : option SinglePolicy)
  | FoundRegistration (found : option (UpstreamAppDestination * list Z))
  | FoundAppData (found : option (list Z))
  | FoundStrategy (strategy : ResourceStrategy)
  | Room (enough : bool).

Abbreviation registry_map := (gmap DestinationHash Registration).
Definition view (r : Registration) : UpstreamAppDestination := mkUpstream (rg_destination r) (rg_kind r) (rg_name_hash r).
Definition single_of (kind : UpstreamAppDestinationKind) : option SinglePolicy := match kind with KindSingle s => Some s | _ => None end.
Definition found_at (m : registry_map) (d : DestinationHash) (type : DestinationType) : option Registration :=
  match m !! d with Some r => if bool_decide (wire_type (rg_kind r) = type) then Some r else None | None => None end.

Section specification.
Context `{Sha256} (cap : Z).
Implicit Types (m : registry_map).

Definition map_register m (r : Registration) : registry_answer * registry_map :=
  if bool_decide (is_Some (m !! rg_destination r)) || (Z.of_nat (size m) <? cap)%Z
  then (Registered (Ok (rg_destination r)), <[rg_destination r := r]> m)
  else (Registered (Err RegistryFull), m).

(** A registration whose name expands. *)
Definition map_named m (name : result ExpandNameError DottedNameHash) (r : DottedNameHash → registry_answer * registry_map) :
    registry_answer * registry_map :=
  match name with Err e => (Registered (Err (BadName e)), m) | Ok h => r h end.

Definition map_change m (d : DestinationHash) (f : SinglePolicy → SinglePolicy) : registry_answer * registry_map :=
  match m !! d with
  | Some r => match rg_kind r with KindSingle s => (Changed true, <[d := with_kind (KindSingle (f s)) r]> m) | _ => (Changed false, m) end
  | None => (Changed false, m)
  end.

Section expand.
Context `{HeaplessExtend}.
Definition map_step m (op : registry_op) : registry_answer * registry_map :=
  match op with
  | RegisterPlain app_name aspects =>
      map_named m (expand_name app_name aspects) (λ h, map_register m (mkRegistration (derive_plain_destination_hash h) KindPlain h []))
  | RegisterSingle identity app_name aspects app_data proofs links ratchets =>
      map_named m (expand_name app_name aspects) (λ h,
        if (MAX_ANNOUNCE_APP_DATA_LEN <? length app_data)%nat then (Registered (Err AppDataTooLong), m) else
        map_register m (mkRegistration (derive_destination_hash identity h)
          (KindSingle (mkSingle identity proofs links AcceptNone Unlimited ratchets)) h app_data))
  | RegisterGroup identity app_name aspects =>
      map_named m (expand_name app_name aspects) (λ h, map_register m (mkRegistration (derive_destination_hash identity h) KindGroup h []))
  | SetStrategy d strategy => map_change m d (λ s, mkSingle (sp_identity s) (sp_proof_strategy s) (sp_link_request_policy s) strategy
      (sp_maximum_request_bytes s) (sp_ratchet_policy s))
  | SetMaximum d maximum => map_change m d (λ s, mkSingle (sp_identity s) (sp_proof_strategy s) (sp_link_request_policy s) (sp_resource_strategy s)
      maximum (sp_ratchet_policy s))
  | ReplaceAppData d app_data =>
      match m !! d with Some r => (Replaced (Some (rg_app_data r)), <[d := with_app_data app_data r]> m) | None => (Replaced None, m) end
  | Unregister d => match m !! d with Some r => (Removed (Unregistered (view r)), delete d m) | None => (Removed NotRegistered, m) end
  | Lookup d type => (Found (view <$> found_at m d type), m)
  | LookupSingle d => (FoundSingle (found_at m d Single ≫= λ r, single_of (rg_kind r)), m)
  | RegistrationFor d => (FoundRegistration ((λ r, (view r, rg_app_data r)) <$> m !! d), m)
  | AppDataFor d => (FoundAppData (rg_app_data <$> m !! d), m)
  | StrategyFor d => (FoundStrategy (from_option sp_resource_strategy AcceptNone (m !! d ≫= λ r, single_of (rg_kind r))), m)
  | RoomFor additional => (Room (additional <=? cap - Z.of_nat (size m))%Z, m)
  end.

Fixpoint map_all m (ops : list registry_op) : list registry_answer * registry_map :=
  match ops with
  | [] => ([], m)
  | op :: ops => let '(a, m) := map_step m op in let '(answers, m) := map_all m ops in (a :: answers, m)
  end.
End expand.
End specification.

(** ** The operations on a table *)

Section refinement.
Context {T : Type} `{!UpstreamAppDestinationTable T} `{!UpstreamTableLaws T} `{Sha256} `{HeaplessExtend} `{!HeaplessExtendLaws}.
Implicit Types (t : T) (rows : list Registration) (m : registry_map).

Definition registry_do t (op : registry_op) : run (registry_answer * T) :=
  match op with
  | RegisterPlain app_name aspects => '(r, t) ← register_plain t app_name aspects; Done (Registered r, t)
  | RegisterSingle identity app_name aspects app_data proofs links ratchets =>
      '(r, t) ← register_single t identity app_name aspects app_data proofs links ratchets; Done (Registered r, t)
  | RegisterGroup identity app_name aspects => '(r, t) ← register_group t identity app_name aspects; Done (Registered r, t)
  | SetStrategy d strategy => '(b, t) ← set_default_resource_strategy t d strategy; Done (Changed b, t)
  | SetMaximum d maximum => '(b, t) ← set_maximum_request_bytes t d maximum; Done (Changed b, t)
  | ReplaceAppData d app_data => '(before, t) ← replace_registered_announce_app_data t d app_data; Done (Replaced before, t)
  | Unregister d => '(o, t) ← unregister t d; Done (Removed o, t)
  | Lookup d type => f ← lookup t d type; Done (Found f, t)
  | LookupSingle d => f ← lookup_single t d; Done (FoundSingle f, t)
  | RegistrationFor d => f ← registration_for t d; Done (FoundRegistration f, t)
  | AppDataFor d => f ← registered_app_data t d; Done (FoundAppData f, t)
  | StrategyFor d => s ← default_resource_strategy t d; Done (FoundStrategy s, t)
  | RoomFor additional => Done (Room (has_capacity_for t additional), t)
  end.

Fixpoint registry_run t (ops : list registry_op) : run (list registry_answer * T) :=
  match ops with
  | [] => Done ([], t)
  | op :: ops => '(a, t) ← registry_do t op; '(answers, t) ← registry_run t ops; Done (a :: answers, t)
  end.

(** The table holds the rows of the map. *)
Definition holds t (cap : Z) m : Prop :=
  ∃ rows, ut_rep t cap rows ∧ NoDup (rg_destination <$> rows) ∧ m = entries rg_destination rows.

Lemma slot_cases t cap rows d :
  ut_rep t cap rows → NoDup (rg_destination <$> rows) →
  (∃ i r, registered_slot t d = Done (Some i) ∧ rows !! i = Some r ∧ rg_destination r = d ∧ entries rg_destination rows !! d = Some r)
  ∨ (registered_slot t d = Done None ∧ (d ∉ rg_destination <$> rows) ∧ entries rg_destination rows !! d = None).
Proof.
  intros Hr Hnd. unfold registered_slot. rewrite (ut_destinations_ok t cap rows Hr). cbn [mbind run_bind].
  destruct (list_find_key rg_destination rows d) as [(i & r & E & Hi & Hk)|[E Hn]]; rewrite E.
  - left. exists i, r. split_and!; [done|done|done|]. rewrite <- Hk. apply entries_some; [done|]. by eapply list_elem_of_lookup_2.
  - right. split_and!; [done|done|]. by apply entries_none.
Qed.

Lemma registered_at_ok t cap rows i r :
  ut_rep t cap rows → rows !! i = Some r → registered_at t (rg_destination r) i = Done (Some (view r)).
Proof.
  intros Hr Hi. unfold registered_at. rewrite (ut_kinds_ok t cap rows Hr). cbn [mbind run_bind].
  rewrite (ut_name_hashes_ok t cap rows Hr). cbn [mbind run_bind]. by rewrite !list_lookup_fmap, Hi.
Qed.

(** One operation and its step on the map. *)
Definition matches t (cap : Z) (op : run (registry_answer * T)) (step : registry_answer * registry_map) : Prop :=
  ∃ t', op = Done (step.1, t') ∧ holds t' cap step.2.

Lemma answered_in_place t cap m a : holds t cap m → matches t cap (Done (a, t)) (a, m).
Proof. intros Hh. by exists t. Qed.

Lemma register_matches t cap m r :
  holds t cap m → (Z.of_nat (size m) < usize_max)%Z →
  matches t cap ('(r, t) ← registry_upsert t r; Done (Registered r, t)) (map_register cap m r).
Proof.
  intros (rows & Hr & Hnd & ->) Hmax. rewrite entries_size in Hmax by done. unfold registry_upsert, map_register, matches.
  destruct (ut_capacity_ok t cap rows Hr) as (_ & _ & Hcap). rewrite entries_size by done.
  destruct (slot_cases t cap rows (rg_destination r) Hr Hnd) as [(i & r0 & _ & Hi & Hk & ->)|(_ & Hn & ->)].
  - rewrite bool_decide_true by done. cbn [orb].
    destruct (ut_upsert_known t cap rows i r0 r Hr Hnd Hi (eq_sym Hk)) as (t' & -> & Hr'). cbn [mbind run_bind]. exists t'. split; [done|].
    destruct (entries_overwrite rg_destination rows i r0 r Hnd Hi (eq_sym Hk)) as [E Hnd']. exists (<[i := r]> rows). cbn. by rewrite E, Hk.
  - rewrite bool_decide_false by (by intros [? ?]). cbn [orb]. destruct (Z.ltb_spec (Z.of_nat (length rows)) cap) as [Hlt|Hge].
    + destruct (ut_upsert_new t cap rows r Hr Hn Hlt) as (t' & -> & Hr'). cbn [mbind run_bind]. exists t'. split; [done|].
      destruct (entries_snoc rg_destination rows r Hnd Hn) as [E Hnd']. exists (rows ++ [r]). cbn. by rewrite E.
    + rewrite (ut_upsert_full t cap rows r Hr Hn) by lia. cbn [mbind run_bind]. exists t. split; [done|]. by exists rows.
Qed.

Lemma change_matches t cap m d f : holds t cap m → matches t cap ('(b, t) ← change_single t d f; Done (Changed b, t)) (map_change m d f).
Proof.
  intros (rows & Hr & Hnd & ->). unfold change_single, map_change, matches.
  destruct (slot_cases t cap rows d Hr Hnd) as [(i & r & -> & Hi & <- & ->)|(-> & Hn & ->)]; cbn [mbind run_bind]; [|exists t; split; [done|by exists rows]].
  destruct (ut_kind_mut_ok t cap rows i r Hr Hi) as (replace & -> & Hreplace). cbn [mbind run_bind].
  destruct (rg_kind r) as [|s|]; cbn [mbind run_bind]; [exists t; split; [done|by exists rows]| |exists t; split; [done|by exists rows]].
  eexists. split; [done|]. destruct (entries_overwrite rg_destination rows i r (with_kind (KindSingle (f s)) r) Hnd Hi eq_refl) as [E Hnd'].
  exists (<[i := with_kind (KindSingle (f s)) r]> rows). split_and!; [apply Hreplace|done|by rewrite E].
Qed.

Lemma replace_matches t cap m d app_data :
  holds t cap m → matches t cap ('(b, t) ← replace_registered_announce_app_data t d app_data; Done (Replaced b, t))
    (match m !! d with Some r => (Replaced (Some (rg_app_data r)), <[d := with_app_data app_data r]> m) | None => (Replaced None, m) end).
Proof.
  intros (rows & Hr & Hnd & ->). unfold replace_registered_announce_app_data, matches.
  destruct (slot_cases t cap rows d Hr Hnd) as [(i & r & -> & Hi & <- & ->)|(-> & Hn & ->)]; cbn [mbind run_bind]; [|exists t; split; [done|by exists rows]].
  destruct (ut_app_data_at_mut_ok t cap rows i r Hr Hi) as (replace & -> & Hreplace). cbn [mbind run_bind].
  eexists. split; [done|]. destruct (entries_overwrite rg_destination rows i r (with_app_data app_data r) Hnd Hi eq_refl) as [E Hnd'].
  exists (<[i := with_app_data app_data r]> rows). split_and!; [apply Hreplace|done|by rewrite E].
Qed.

Lemma unregister_matches t cap m d :
  holds t cap m → matches t cap ('(o, t) ← unregister t d; Done (Removed o, t))
    (match m !! d with Some r => (Removed (Unregistered (view r)), delete d m) | None => (Removed NotRegistered, m) end).
Proof.
  intros (rows & Hr & Hnd & ->). unfold unregister, matches.
  destruct (slot_cases t cap rows d Hr Hnd) as [(i & r & -> & Hi & <- & ->)|(-> & Hn & ->)]; cbn [mbind run_bind]; [|exists t; split; [done|by exists rows]].
  rewrite (registered_at_ok t cap rows i r Hr Hi). cbn [mbind run_bind]. destruct (ut_swap_remove_ok t cap rows i r Hr Hi) as (t' & -> & Hr').
  cbn [mbind run_bind]. exists t'. split; [done|]. destruct (entries_removed rg_destination rows i r Hnd Hi) as [E Hnd']. exists (swap_removed rows i). by rewrite E.
Qed.

(** ** Queries *)

Lemma lookup_ok t cap rows d type :
  ut_rep t cap rows → NoDup (rg_destination <$> rows) → lookup t d type = Done (view <$> found_at (entries rg_destination rows) d type).
Proof.
  intros Hr Hnd. unfold lookup, found_at.
  destruct (slot_cases t cap rows d Hr Hnd) as [(i & r & -> & Hi & <- & ->)|(-> & Hn & ->)]; cbn [mbind run_bind]; [|done].
  rewrite (ut_kinds_ok t cap rows Hr). cbn [mbind run_bind]. rewrite list_lookup_fmap, Hi. cbn.
  case_bool_decide; [|done]. by rewrite (registered_at_ok t cap rows i r Hr Hi).
Qed.

Lemma query_ok t cap rows d :
  ut_rep t cap rows → NoDup (rg_destination <$> rows) → let m := entries rg_destination rows in
  registration_for t d = Done ((λ r, (view r, rg_app_data r)) <$> m !! d)
  ∧ registered_app_data t d = Done (rg_app_data <$> m !! d)
  ∧ default_resource_strategy t d = Done (from_option sp_resource_strategy AcceptNone (m !! d ≫= λ r, single_of (rg_kind r))).
Proof.
  intros Hr Hnd m. unfold registration_for, registered_app_data, default_resource_strategy, m.
  destruct (slot_cases t cap rows d Hr Hnd) as [(i & r & -> & Hi & <- & ->)|(-> & Hn & ->)]; cbn [mbind run_bind]; [|done].
  rewrite (registered_at_ok t cap rows i r Hr Hi), (ut_kinds_ok t cap rows Hr). cbn [mbind run_bind option_bind].
  rewrite (ut_app_data_at_ok t cap rows i Hr), Hi. rewrite (index_lookup _ i (rg_kind r)) by (by rewrite list_lookup_fmap, Hi).
  cbn. split_and!; [done|done|]. by destruct (rg_kind r).
Qed.

Lemma registry_step_matches t cap m op :
  holds t cap m → (Z.of_nat (size m) < usize_max)%Z → matches t cap (registry_do t op) (map_step cap m op).
Proof.
  intros Hh Hmax. pose proof Hh as (rows & Hr & Hnd & Em).
  destruct op as [app_name aspects|identity app_name aspects app_data proofs links ratchets|identity app_name aspects|d s|d mx|d data|d|d ty|d|d|d|d|n]; cbn [registry_do map_step].
  - unfold register_plain, map_named. destruct (expand_name _ _); [by apply register_matches|by apply answered_in_place].
  - unfold register_single, map_named. destruct (expand_name _ _); [|by apply answered_in_place]. rewrite hv_extend_ok. cbn [length Nat.add app].
    destruct (Nat.leb_spec (length app_data) MAX_ANNOUNCE_APP_DATA_LEN).
    + rewrite (proj2 (Nat.ltb_ge _ _)) by done. by apply register_matches.
    + rewrite (proj2 (Nat.ltb_lt _ _)) by done. by apply answered_in_place.
  - unfold register_group, map_named. destruct (expand_name _ _); [by apply register_matches|by apply answered_in_place].
  - by apply change_matches.
  - by apply change_matches.
  - by apply replace_matches.
  - by apply unregister_matches.
  - rewrite Em, (lookup_ok t cap rows d ty Hr Hnd). by apply answered_in_place, ex_intro with rows.
  - unfold lookup_single. rewrite Em, (lookup_ok t cap rows d Single Hr Hnd). cbn [mbind run_bind].
    replace (_ ≫= _) with (found_at (entries rg_destination rows) d Single ≫= λ r, single_of (rg_kind r)) by (by destruct (found_at _ _ _)).
    by apply answered_in_place, ex_intro with rows.
  - destruct (query_ok t cap rows d Hr Hnd) as (E & _ & _). rewrite Em, E. by apply answered_in_place, ex_intro with rows.
  - destruct (query_ok t cap rows d Hr Hnd) as (_ & E & _). rewrite Em, E. by apply answered_in_place, ex_intro with rows.
  - destruct (query_ok t cap rows d Hr Hnd) as (_ & _ & E). rewrite Em, E. by apply answered_in_place, ex_intro with rows.
  - unfold has_capacity_for. destruct (ut_capacity_ok t cap rows Hr) as (-> & -> & Hc).
    replace (saturating_sub cap _) with (cap - Z.of_nat (size m))%Z by (rewrite Em, entries_size by done; width). by apply answered_in_place.
Qed.

Lemma map_step_size cap m op : size (map_step cap m op).2 ≤ S (size m).
Proof.
  assert (Hins : ∀ d r, size (<[d := r]> m) ≤ S (size m)) by (intros d r; rewrite map_size_insert; destruct (m !! d); cbn; lia).
  assert (Hreg : ∀ r, size (map_register cap m r).2 ≤ S (size m)) by (intros r; unfold map_register; case_match; cbn; [done|lia]).
  assert (Hch : ∀ d f, size (map_change m d f).2 ≤ S (size m)) by (intros d f; unfold map_change; repeat case_match; cbn; auto with lia).
  destruct op; cbn [map_step]; unfold map_named; repeat case_match; cbn [snd]; try apply Hreg; try apply Hch; try apply Hins; try lia.
  rewrite map_size_delete. destruct (m !! d); cbn; lia.
Qed.

(** C30. The registry of destinations is a finite map.  From a table that holds the registrations of a map, any
    sequence of registrations (plain, single, group), changes of a single's resource strategy or request limit,
    replacements of announce data, removals and queries gives the answers of the map: registering an address again
    overwrites it, also when the registry is full, and takes every setting of the new registration; a new address is
    refused exactly when the registry is full; removal moves another row into the gap and loses nothing.  Both tables
    meet the contract [UpstreamTableLaws], so this holds of both. *)
Theorem registry_is_a_map t cap m (ops : list registry_op) :
  holds t cap m → (Z.of_nat (size m + length ops) ≤ usize_max)%Z →
  ∃ t', registry_run t ops = Done ((map_all cap m ops).1, t') ∧ holds t' cap (map_all cap m ops).2.
Proof.
  revert t m. induction ops as [|op ops IH]; intros t m Hh Hmax; cbn [registry_run map_all length] in *; [by exists t|].
  destruct (registry_step_matches t cap m op Hh) as (t1 & -> & Hh1); [lia|]. pose proof (map_step_size cap m op) as Hsize.
  destruct (map_step cap m op) as [a m1]. cbn [fst snd mbind run_bind] in *.
  destruct (IH t1 m1 Hh1) as (t2 & -> & Hh2); [lia|]. cbn [mbind run_bind]. destruct (map_all cap m1 ops) as [answers m2]. by exists t2.
Qed.
End refinement.

(** * Witnesses *)

#[local] Existing Instance list_push.
#[local] Existing Instance list_remove.
#[local] Existing Instance list_queue_laws.
#[local] Instance list_extend : HeaplessExtend := {|
  hv_extend := λ A cap xs ys, if (length xs + length ys <=? cap)%nat then Some (xs ++ ys) else None;
  hv_try_push := λ A cap xs x, if (length xs <? cap)%nat then Some (xs ++ [x]) else None;
|}.
#[local] Instance list_extend_laws : HeaplessExtendLaws.
Proof. by split. Defined.
#[local] Instance sum_sha256 : Sha256 := toy_sha256.

(** ["a"] with the aspects ["b"], ["c"], and ["a"] with ["b.c"]. *)
Lemma names_hashed_unambiguously_witness :
  expand_name [97%Z] [[98%Z]; [99%Z]] = Ok (take 10 (sha256 [97; 46; 98; 46; 99]%Z))
  ∧ expand_name [97%Z] [[98; 46; 99]%Z] = Err DotInComponent
  ∧ (∀ h app_name' aspects', expand_name app_name' aspects' = Ok h → dotted [97%Z] [[98%Z]; [99%Z]] = dotted app_name' aspects' →
      [97%Z] = app_name' ∧ [[98%Z]; [99%Z]] = aspects').
Proof.
  split; [reflexivity|]. split; [reflexivity|]. intros h app_name' aspects' Hn Hd.
  destruct (names_hashed_unambiguously [97%Z] [[98%Z]; [99%Z]] app_name' aspects') as (_ & _ & H).
  eapply H; [reflexivity|exact Hn|exact Hd].
Defined.

Definition sample_identity : IdentityHash := replicate 16 0x21%Z.
Definition single_address (app_name : list Z) : DestinationHash :=
  match expand_name app_name [] with Ok h => derive_destination_hash sample_identity h | Err _ => [] end.
Definition sample_registry_ops : list registry_op :=
  [RegisterSingle sample_identity [97%Z] [] [1; 2]%Z ProveAll AcceptAll NoRatchets;
   RegisterPlain [98%Z] [];
   RegisterPlain [99%Z] [];
   SetStrategy (single_address [97%Z]) AcceptIf;
   StrategyFor (single_address [97%Z]);
   RegisterSingle sample_identity [97%Z] [] [3%Z] ProveAll AcceptAll NoRatchets;
   StrategyFor (single_address [97%Z]);
   Unregister (single_address [97%Z]);
   RegistrationFor (single_address [97%Z])].

#[local] Abbreviation two_registrations := (fixed_upstream_table (MAX := 2)).

(** A registry of two rows: the third address is refused, registering the single again is not, and forgets its
    strategy; removed, it is unknown. *)
Lemma registry_is_a_map_witness :
  ∃ t', registry_run (H := sum_sha256) (UpstreamAppDestinationTable0 := two_registrations) (fixed_upstream_default (MAX := 2)) sample_registry_ops
      = Done ((map_all 2 ∅ sample_registry_ops).1, t')
    ∧ holds (UpstreamAppDestinationTable0 := two_registrations) t' 2 (map_all 2 ∅ sample_registry_ops).2
    ∧ (map_all 2 ∅ sample_registry_ops).1 !! 2 = Some (Registered (Err RegistryFull))
    ∧ (map_all 2 ∅ sample_registry_ops).1 !! 4 = Some (FoundStrategy AcceptIf)
    ∧ (map_all 2 ∅ sample_registry_ops).1 !! 5 = Some (Registered (Ok (single_address [97%Z])))
    ∧ (map_all 2 ∅ sample_registry_ops).1 !! 6 = Some (FoundStrategy AcceptNone)
    ∧ (map_all 2 ∅ sample_registry_ops).1 !! 8 = Some (FoundRegistration None).
Proof.
  destruct (registry_is_a_map (H := sum_sha256) (UpstreamAppDestinationTable0 := two_registrations) (fixed_upstream_default (MAX := 2)) 2 ∅ sample_registry_ops) as (t' & E & Hh).
  - exists []. split; [exact (fixed_upstream_default_rep (MAX := 2))|]. split; [constructor|reflexivity].
  - vm_compute. discriminate.
  - exists t'. split; [exact E|]. split; [exact Hh|]. split_and!; vm_compute; reflexivity.
Defined.
