(* ===== verification/LinkEvidence.v ===== *)
(** Traffic on links as evidence for routes: [engine/route_evidence.rs], where the links ([Links]) and the routing
    table ([RoutingTable]) meet.

    A link that has heard from its peer keeps one observation, of the last instant, until the engine hands it to
    the routing table. *)

From stdpp Require Import gmap.
From S2P Require Import Prelude Wire Dedup AppData Columns Evidence Routes Announce Acceptance Lifetime Links LinksInvariant RoutingTable RoutingTableInvariant RoutingTableQueries RoutingTableEvidence.

(** * The operation *)

Section operation.
Context {T : Type} {LT : LinkTable T}.
Context {R A H D I : Type} `{RouteTable R, AnnounceRecordTable A, AnnounceIdHistory H, AnnounceAppData D, RouteExpiryIndex I}.

(** The closure passed to the links: apply the evidence and count the routes it changed. *)
Definition apply_counted (s : nat * RoutingTable R A H D I) (handle : RouteEvidenceHandle) (observed_at : Z) :
    run (RouteEvidenceHandle * (nat * RoutingTable R A H D I)) :=
  '(changed, handle, t) ← apply_route_evidence s.2 handle observed_at;
  Done (handle, ((if changed : bool then s.1 + 1 else s.1), t)).

Definition reconcile_pending_link_route_evidence (l : Links T) (t : RoutingTable R A H D I) :
    run (nat * Links T * RoutingTable R A H D I) :=
  '(l, (changed, t)) ← reconcile_pending_route_evidence apply_counted l (0, t);
  Done (changed, l, t).
End operation.

(** * What it does *)

(** The observation a link keeps. *)
Definition pending_evidence (r : LinkRow) : option (RouteEvidenceId * Z) :=
  match lr_phase r with
  | Active a =>
      match al_route_evidence a with
      | Some e => if al_route_evidence_pending a then Some (handle_id e, al_last_inbound a) else None
      | None => None
      end
  | _ => None
  end.

(** When the links heard from the route [id]. *)
Definition observations (rows : list LinkRow) (id : RouteEvidenceId) : list Z :=
  omap (λ r, match pending_evidence r with Some (id', at_) => if (id' =? id)%Z then Some at_ else None | None => None end) rows.

Definition heard_at (at_ : Z) (e : RouteEntry) : RouteEntry :=
  with_responsiveness Responsive (with_activity (Z.max (last_route_activity_at e) at_) e).
Definition noted (o : option (RouteEvidenceId * Z)) (s : StoredRoute) : StoredRoute :=
  match o with
  | Some (id, at_) => if (sr_evidence s =? id)%Z then set_entry (heard_at at_ (sr_entry s)) s else s
  | None => s
  end.

(** The handles of a link are good for the routes. *)
Definition handles_valid (v : list StoredRoute) (r : LinkRow) : Prop :=
  match lr_phase r with Active a => from_option (handle_valid v) True (al_route_evidence a) | _ => True end.

(** The same link, its observation handed over; the row its handle guesses may be another. *)
Inductive settled : LinkRow → LinkRow → Prop :=
  | SettledNone r : pending_evidence r = None → settled r r
  | SettledOne r a e e' : lr_phase r = Active a → al_route_evidence a = Some e → al_route_evidence_pending a = true →
      handle_id e' = handle_id e → settled r (with_phase (Active (with_evidence (Some e') false a)) r).

Lemma settled_none r r' : settled r r' → pending_evidence r' = None.
Proof. intros [|? a e e' Ha He Hp]; [done|]. done. Qed.

Lemma noted_evidence o s : sr_evidence (noted o s) = sr_evidence s.
Proof. destruct o as [[id at_]|]; [|done]. cbn. by case_match. Qed.
Lemma noted_destination o s : sr_destination (noted o s) = sr_destination s.
Proof. destruct o as [[id at_]|]; [|done]. cbn. by case_match. Qed.

Lemma handle_valid_ids v v' hd : sr_evidence <$> v' = sr_evidence <$> v → handle_valid v hd → handle_valid v' hd.
Proof.
  intros E [Hr Hv]. split; [done|]. intros r s Hs Hc. assert (Hl : (sr_evidence <$> v') !! r = Some (handle_id hd)).
  { rewrite list_lookup_fmap, Hs. cbn. by rewrite Hc. }
  rewrite E, list_lookup_fmap in Hl. destruct (v !! r) as [s0|] eqn:E0; [|done]. injection Hl as Hl. by apply (Hv r s0).
Qed.

Lemma entry_unchanged s at_ :
  (Z.max (last_route_activity_at (sr_entry s)) at_ = last_route_activity_at (sr_entry s))%Z → responsiveness (sr_entry s) = Responsive →
  set_entry (heard_at at_ (sr_entry s)) s = s.
Proof. destruct s as [[d e []] ? ? ? ?]. unfold heard_at, set_entry, sr_entry. cbn. by intros -> ->. Qed.

(** Only the row that carries the id changes. *)
Lemma noted_row (v : list StoredRoute) (i : nat) s id at_ :
  NoDup (sr_evidence <$> v) → v !! i = Some s → sr_evidence s = id →
  noted (Some (id, at_)) <$> v = <[i := set_entry (heard_at at_ (sr_entry s)) s]> v.
Proof.
  intros Hnd Hi Hid. apply list_eq. intros j. rewrite list_lookup_fmap. destruct (decide (i = j)) as [<-|Hne].
  - rewrite list_lookup_insert_eq by (by eapply lookup_lt_Some). rewrite Hi. cbn. by rewrite Hid, Z.eqb_refl.
  - rewrite list_lookup_insert_ne by done. destruct (v !! j) as [s'|] eqn:Hj; [|done]. cbn. f_equal.
    destruct (Z.eqb_spec (sr_evidence s') id) as [E|]; [|done]. destruct Hne.
    eapply (NoDup_lookup (sr_evidence <$> v)); [done|by rewrite list_lookup_fmap, Hi|rewrite list_lookup_fmap, Hj; cbn; by rewrite E, Hid].
Qed.

Lemma noted_nowhere (v : list StoredRoute) id at_ : (∀ (r : nat) s, v !! r = Some s → sr_evidence s ≠ id) → noted (Some (id, at_)) <$> v = v.
Proof.
  intros Hno. rewrite <- (list_fmap_id v) at 2. apply list_fmap_ext. intros r s Hs. cbn. by rewrite (proj2 (Z.eqb_neq _ _) (Hno r s Hs)).
Qed.

Section proofs.
Context {T : Type} {LT : LinkTable T} {LL : LinkTableLaws T}.
Context {R A H D I : Type} `{RouteTableLaws R, AnnounceRecordLaws A, AnnounceIdHistoryLaws H, AppDataLaws D, RouteExpiryLaws I}.
Context {interfaces : AttachedInterfaces} {warmth : RouteWarmth} {rcap acap per : nat}.
Abbreviation table := (RoutingTable R A H D I).
Abbreviation ok := (table_ok interfaces warmth rcap acap per).
Implicit Types (t : table) (v : list StoredRoute) (l : Links T) (rows : list LinkRow).

Lemma apply_exact t v hd at_ :
  ok t v → NoDup (sr_evidence <$> v) → handle_valid v hd →
  ∃ b hd' t', apply_route_evidence t hd at_ = Done (b, hd', t') ∧ ok t' (noted (Some (handle_id hd, at_)) <$> v)
    ∧ handle_id hd' = handle_id hd ∧ handle_valid v hd'.
Proof.
  intros Hok Hnd Hv. unfold apply_route_evidence.
  destruct (resolve_ok t v hd Hok Hv) as [(i & s & hd' & -> & Hi & Hcar & Hid & Hv')|[-> Hno]]; cbn [mbind run_bind].
  2: { exists false, hd, t. rewrite noted_nowhere by exact Hno. done. }
  destruct (ok_cells t v i s Hok Hi) as (_ & _ & _ & -> & -> & _). cbn [mbind run_bind].
  rewrite (noted_row v i s (handle_id hd) at_ Hnd Hi Hcar).
  destruct (negb (_ || _)) eqn:Hc.
  - exists false, hd', t. split; [done|]. split; [|done]. apply negb_true_iff, orb_false_iff in Hc as [Ha%negb_false_iff%Z.eqb_eq Hb%negb_false_iff%bool_decide_eq_true].
    rewrite entry_unchanged by done. by rewrite list_insert_id.
  - destruct (update_and_invalidate t v i s (λ e, with_responsiveness Responsive
      (with_activity (Z.max (last_route_activity_at (sr_entry s)) at_) e)) Hok Hi) as (t1 & t' & -> & E' & Hok').
    cbn [mbind run_bind]. rewrite E'. cbn [mbind run_bind]. by exists true, hd', t'.
Qed.

Lemma apply_counted_ok n t v hd at_ :
  ok t v → NoDup (sr_evidence <$> v) → handle_valid v hd →
  ∃ n' hd' t', apply_counted (n, t) hd at_ = Done (hd', (n', t')) ∧ ok t' (noted (Some (handle_id hd, at_)) <$> v)
    ∧ handle_id hd' = handle_id hd ∧ handle_valid v hd'.
Proof.
  intros Hok Hnd Hv. unfold apply_counted. cbn [fst snd].
  destruct (apply_exact t v hd at_ Hok Hnd Hv) as (b & hd' & t' & -> & Hr). cbn [mbind run_bind]. by eexists _, hd', t'.
Qed.

(** The routes after the observations of some links, in order. *)
Definition noted_all rows v : list StoredRoute := foldl (λ v r, noted (pending_evidence r) <$> v) v rows.

Lemma noted_all_evidence rows v : sr_evidence <$> noted_all rows v = sr_evidence <$> v.
Proof.
  revert v. induction rows as [|r rows IH]; intros v; [done|]. cbn. unfold noted_all in IH. rewrite IH, <- list_fmap_compose.
  apply list_fmap_ext. intros i s _. apply noted_evidence.
Qed.

Lemma heard_twice at1 at2 s : set_entry (heard_at at2 (sr_entry (set_entry (heard_at at1 (sr_entry s)) s))) (set_entry (heard_at at1 (sr_entry s)) s)
  = set_entry (heard_at (Z.max at1 at2) (sr_entry s)) s.
Proof. destruct s as [[d e []] ? ? ? ?]. unfold set_entry, heard_at, sr_entry. cbn. by rewrite Z.max_assoc. Qed.

(** Route by route: the latest observation counts. *)
Lemma noted_all_at rows v i s :
  v !! i = Some s →
  noted_all rows v !! i = Some (match observations rows (sr_evidence s) with
                                | [] => s
                                | at_ :: ats => set_entry (heard_at (foldl Z.max at_ ats) (sr_entry s)) s
                                end).
Proof.
  unfold noted_all. revert v s. induction rows as [|r rows IH]; intros v s Hi; [done|]. cbn [foldl].
  rewrite (IH _ (noted (pending_evidence r) s)) by (by rewrite list_lookup_fmap, Hi). rewrite noted_evidence. f_equal.
  unfold observations. cbn [omap list_omap]. destruct (pending_evidence r) as [[id at_]|]; [|done]. cbn [noted].
  rewrite (Z.eqb_sym id). destruct (Z.eqb_spec (sr_evidence s) id) as [E|]; [|done].
  destruct (omap _ rows) as [|at1 ats]; [done|]. rewrite heard_twice. cbn. f_equal. f_equal. clear. revert at_ at1.
  induction ats as [|a ats IH]; intros at_ at1; [done|]. cbn. rewrite IH. f_equal. lia.
Qed.

Lemma reconcile_loop_ok l room prefix todo n t v :
  lt_rep (Links.table l) room (prefix ++ todo) → ok t v → NoDup (sr_evidence <$> v) → Forall (handles_valid v) todo →
  ∃ l' n' t' todo', reconcile_loop apply_counted l (n, t) (length todo) (length prefix) = Done (l', (n', t'))
    ∧ lt_rep (Links.table l') room (prefix ++ todo') ∧ earliest_timeout l' = earliest_timeout l
    ∧ Forall2 settled todo todo' ∧ Forall (handles_valid v) todo' ∧ ok t' (noted_all todo v).
Proof.
  revert l prefix n t v. induction todo as [|r todo IH]; intros l prefix n t v Hr Hok Hnd Hval; cbn [length reconcile_loop].
  { exists l, n, t, []. split; [done|]. split; [done|]. split; [done|]. done. }
  assert (Hi : (prefix ++ r :: todo) !! length prefix = Some r) by (by apply list_lookup_middle).
  apply list.Forall_cons in Hval as [Hv Hval]. rewrite (phase_at_ok l room _ _ r Hr Hi). cbn [mbind run_bind].
  assert (Hskip : pending_evidence r = None →
    ∃ l' n' t' todo', reconcile_loop apply_counted l (n, t) (length todo) (1 + length prefix) = Done (l', (n', t'))
    ∧ lt_rep (Links.table l') room (prefix ++ todo') ∧ earliest_timeout l' = earliest_timeout l
    ∧ Forall2 settled (r :: todo) todo' ∧ Forall (handles_valid v) todo' ∧ ok t' (noted_all (r :: todo) v)).
  { intros Hp. destruct (IH l (prefix ++ [r]) n t v) as (l' & n' & t' & todo' & E & Hr' & He & Hs & Hv' & Hok');
      [by rewrite <- app_assoc|done..|].
    rewrite length_app, Nat.add_1_r in E. exists l', n', t', (r :: todo'). rewrite <- app_assoc in Hr'. split; [exact E|].
    split; [done|]. split; [done|]. split; [constructor; [by constructor|done]|]. split; [by constructor|].
    unfold noted_all. cbn. rewrite Hp. cbn. by rewrite list_fmap_id. }
  destruct (lr_phase r) as [|h|a] eqn:Ep; [apply Hskip; unfold pending_evidence; by rewrite Ep..|].
  destruct (al_route_evidence a) as [e|] eqn:Ee; [|apply Hskip; unfold pending_evidence; by rewrite Ep, Ee].
  destruct (al_route_evidence_pending a) eqn:Epend; cbn [negb]; [|apply Hskip; unfold pending_evidence; by rewrite Ep, Ee, Epend].
  unfold handles_valid in Hv. rewrite Ep, Ee in Hv. cbn in Hv.
  destruct (apply_counted_ok n t v e (al_last_inbound a) Hok Hnd Hv) as (n1 & e' & t1 & -> & Hok1 & Hid & Hv1). cbn [mbind run_bind].
  destruct (lt_set_phase_ok _ room _ _ r (Active (with_evidence (Some e') false a)) Hr Hi) as (lt & -> & Hr1). cbn [mbind run_bind].
  set (v1 := noted (Some (handle_id e, al_last_inbound a)) <$> v) in *.
  assert (Hids : sr_evidence <$> v1 = sr_evidence <$> v).
  { unfold v1. rewrite <- list_fmap_compose. apply list_fmap_ext. intros. apply noted_evidence. }
  set (r' := with_phase (Active (with_evidence (Some e') false a)) r) in *.
  rewrite insert_app_r_alt, Nat.sub_diag in Hr1 by done. cbn in Hr1.
  destruct (IH (mkLinks lt (earliest_timeout l)) (prefix ++ [r']) n1 t1 v1)
    as (l' & n' & t' & todo' & E & Hr' & He & Hs & Hv' & Hok').
  { by rewrite <- app_assoc. }
  { done. }
  { by rewrite Hids. }
  { eapply list.Forall_impl; [exact Hval|]. intros r0. unfold handles_valid. destruct (lr_phase r0) as [| |a0]; [done..|].
    destruct (al_route_evidence a0); [|done]. cbn. by apply handle_valid_ids. }
  rewrite length_app, Nat.add_1_r in E. exists l', n', t', (r' :: todo'). rewrite <- app_assoc in Hr'. split; [exact E|].
  split; [done|]. split; [done|]. split; [constructor; [by econstructor|done]|]. split.
  - constructor; [cbn; done|]. eapply list.Forall_impl; [exact Hv'|]. intros r0. unfold handles_valid. destruct (lr_phase r0) as [| |a0]; [done..|].
    destruct (al_route_evidence a0); [|done]. cbn. by apply handle_valid_ids.
  - unfold noted_all. cbn [foldl]. unfold pending_evidence at 2. by rewrite Ep, Ee, Epend.
Qed.

Lemma reconcile_ok l room rows t v :
  lt_rep (Links.table l) room rows → ok t v → NoDup (sr_evidence <$> v) → Forall (handles_valid v) rows →
  ∃ changed l' rows' t' v', reconcile_pending_link_route_evidence l t = Done (changed, l', t')
    ∧ lt_rep (Links.table l') room rows' ∧ earliest_timeout l' = earliest_timeout l ∧ Forall2 settled rows rows'
    ∧ Forall (handles_valid v) rows' ∧ ok t' v' ∧ v' = noted_all rows v.
Proof.
  intros Hr Hok Hnd Hval. unfold reconcile_pending_link_route_evidence, reconcile_pending_route_evidence.
  rewrite (lt_len_ok _ _ _ Hr).
  destruct (reconcile_loop_ok l room [] rows 0 t v Hr Hok Hnd Hval) as (l' & n' & t' & rows' & E & Hr' & He & Hs & Hv & Hok').
  cbn [length] in E. rewrite E. cbn [mbind run_bind]. by exists n', l', rows', t', (noted_all rows v).
Qed.

(** C29. What links hear reaches the routes, once.  From links whose handles are good and a table whose evidence ids
    are distinct, handing the observations over never panics.  Every link is left as it was except that its
    observation is gone (and the row its handle guesses may be another, good one), so that doing it again changes
    nothing.  A route that no observing link uses stays as it is; one that some use is responsive, and its last
    activity is the latest of what it was and what the links heard. *)
Theorem link_evidence_reaches_routes l room rows t v :
  lt_rep (Links.table l) room rows → ok t v → NoDup (sr_evidence <$> v) → Forall (handles_valid v) rows →
  ∃ changed l' rows' t' v', reconcile_pending_link_route_evidence l t = Done (changed, l', t')
    ∧ lt_rep (Links.table l') room rows' ∧ Forall2 settled rows rows' ∧ Forall (handles_valid v') rows'
    ∧ Forall (λ r, pending_evidence r = None) rows'
    ∧ ok t' v' ∧ length v' = length v
    ∧ ∀ i s, v !! i = Some s →
        v' !! i = Some (match observations rows (sr_evidence s) with
                        | [] => s
                        | at_ :: ats => set_entry (heard_at (foldl Z.max at_ ats) (sr_entry s)) s
                        end).
Proof.
  intros Hr Hok Hnd Hval. destruct (reconcile_ok l room rows t v Hr Hok Hnd Hval) as (n & l' & rows' & t' & v' & E & Hr' & _ & Hs & Hv & Hok' & ->).
  exists n, l', rows', t', (noted_all rows v). split; [exact E|]. split; [done|]. split; [done|]. split; [|split; [|split; [done|split]]].
  - eapply list.Forall_impl; [exact Hv|]. intros r. unfold handles_valid. destruct (lr_phase r) as [| |a]; [done..|].
    destruct (al_route_evidence a); [|done]. cbn. apply handle_valid_ids, noted_all_evidence.
  - clear -Hs. induction Hs as [|r r' rows rows' H12 _ IH]; constructor; [by eapply settled_none|done].
  - rewrite <- (length_fmap sr_evidence), noted_all_evidence. apply length_fmap.
  - intros i s Hi. by apply noted_all_at.
Qed.
End proofs.
