(* ===== verification/ChannelTeardown.v ===== *)
(** The channel timeouts as a whole: [fire_due_channel_timeouts] and [teardown_channel_link] of
    [prns-core/src/routing/links/channel/send.rs], with [write_owed_link_close] and [retire_link] of
    [prns-core/src/routing/links/maintenance.rs].

    A message out of tries takes its link down: the messages of its channel are settled as timed out, what the link
    heard is handed to the routing table, the link and its channel are forgotten and a close packet is sent.  The node
    here is the links, the channels and the routing table; what a closed link owns in other tables of the engine
    (resources, receipts, pairing attempts), which [retire_link] also clears without touching these three, is left out. *)

From stdpp Require Import gmap.
From S2P Require Import Prelude Wire Token Dedup AppData Columns Evidence Routes Announce Acceptance Lifetime Channel ChannelTable ChannelTableFixed Links LinkData LinksInvariant LinksFixed LinksDue ChannelSend ChannelSendProofs ChannelTimeouts RoutingTable RoutingTableInvariant RoutingTableQueries RoutingTableEvidence RoutingTableSample LinkEvidence.

Record Node (L C T : Type) := mkNode { nd_engine : Engine L C; nd_routes : T }.
Arguments mkNode {L C T}. Arguments nd_engine {L C T}. Arguments nd_routes {L C T}.

Record LinkCloseDispatch := mkDispatch { lc_wire_bytes : nat; lc_fire_on : option InterfaceId }.
Inductive WriteLinkCloseError := CloseNoSuchLink | CloseSerialize.

Section handlers.
Context {L C : Type} {LT : LinkTable L} {CT : ChannelTable C} {TC : TokenCrypto} {SH : Sha256}.
Context {R A H D I : Type} `{RouteTable R, AnnounceRecordTable A, AnnounceIdHistory H, AnnounceAppData D, RouteExpiryIndex I}.
Abbreviation node := (Node L C (RoutingTable R A H D I)).
Implicit Types (nd : node) (ch : C).

(** [while self.channels.outstanding_count(index) > 0] *)
Fixpoint settle_outstanding (fuel : nat) ch (i : nat) (failure : SendToChannelFailure) : run (list Reaction * C) :=
  match fuel with
  | O => OutOfFuel
  | S fuel =>
      n ← ct_outstanding_count ch i;
      if (0 <? n)%nat then
        id ← ct_outstanding_command_id ch i 0;
        ch ← ct_retire_outstanding ch i 0;
        '(more, ch) ← settle_outstanding fuel ch i failure;
        Done (CommandSettled id (Err failure) :: more, ch)
      else Done ([], ch)
  end.
Definition settle_channel ch (link_id : LinkId) (failure : SendToChannelFailure) : run (list Reaction * C) :=
  found ← ct_index_of ch link_id;
  match found with
  | None => Done ([], ch)
  | Some i => n ← ct_outstanding_count ch i; settle_outstanding (n + 1) ch i failure
  end.

Definition retire_link nd (link_id : LinkId) (reason : LinkClosedReason) : run (list Reaction * node) :=
  '(reactions, ch) ← settle_channel (en_channels (nd_engine nd)) link_id SendLinkClosed;
  '(_, links, routes) ← reconcile_pending_link_route_evidence (en_links (nd_engine nd)) (nd_routes nd);
  '(_, links) ← remove links link_id;
  ch ← ct_close ch link_id;
  Done (reactions ++ [LinkClosed link_id reason], mkNode (mkEngine links ch) routes).

Definition write_owed_link_close nd (link_id : LinkId) (reason : LinkClosedReason) (iv buf : list Z) :
    run (result WriteLinkCloseError LinkCloseDispatch * list Z * list Reaction * node) :=
  phase ← phase_for (en_links (nd_engine nd)) link_id;
  match
    match phase with
    | Some (Active a) => Some (al_key a, Some (al_attached_interface a))
    | Some (Handshake h) => Some (hl_key h, None)
    | Some (Pending _) | None => None
    end
  with
  | None => Done (Err CloseNoSuchLink, buf, [], nd)
  | Some (key, fire_on) =>
      '(written, buf) ← write_link_close link_id key iv buf;
      '(reactions, nd) ← retire_link nd link_id reason;
      Done (match written with Ok wire_bytes => Ok (mkDispatch wire_bytes fire_on) | Err _ => Err CloseSerialize end,
            buf, reactions, nd)
  end.

(** [is_egress_eligible(interface, Egress::Transmit)] of the attached interfaces, and the closure that fills buffers
    with random bytes. *)
Context (transmits : InterfaceId → bool) {G : Type} (fill_random : G → list Z * G).

Definition teardown_channel_link (g : G) nd (link_id : LinkId) : run (list Reaction * G * node) :=
  '(settled, ch) ← settle_channel (en_channels (nd_engine nd)) link_id SendTimeout;
  let nd := mkNode (mkEngine (en_links (nd_engine nd)) ch) (nd_routes nd) in
  let '(iv, g) := fill_random g in
  '(dispatch, buf, closed, nd) ← write_owed_link_close nd link_id ReasonTimeout iv (replicate BROADCAST_MTU 0%Z);
  sent ← match dispatch with
         | Ok (mkDispatch wire_bytes (Some target)) =>
             if transmits target then bytes ← slice buf 0 wire_bytes; Done [SendFrame target bytes] else Done []
         | _ => Done []
         end;
  Done (settled ++ closed ++ sent, g, nd).

Fixpoint fire_due_loop (fuel : nat) (g : G) nd (now : Z) : run (list Reaction * G * node) :=
  match fuel with
  | O => OutOfFuel
  | S fuel =>
      step ← serve_due_channel transmits (nd_engine nd) now;
      match step with
      | NothingDue => Done ([], g, nd)
      | Served reactions e =>
          '(more, g, nd) ← fire_due_loop fuel g (mkNode e (nd_routes nd)) now;
          Done (reactions ++ more, g, nd)
      | TearsDown link_id =>
          '(reactions, g, nd) ← teardown_channel_link g nd link_id;
          '(more, g, nd) ← fire_due_loop fuel g nd now;
          Done (reactions ++ more, g, nd)
      end
  end.

(** The messages in flight; each is served at most six times. *)
Fixpoint in_flight ch (todo i : nat) : run nat :=
  match todo with
  | O => Done 0
  | S todo => n ← ct_outstanding_count ch i; rest ← in_flight ch todo (S i); Done (n + rest)
  end.
Definition fire_due_channel_timeouts (g : G) nd (now : Z) : run (list Reaction * G * node) :=
  n ← in_flight (en_channels (nd_engine nd)) (ct_len (en_channels (nd_engine nd))) 0;
  fire_due_loop (6 * n + 1) g nd now.
End handlers.

(** * The channels of a link, settled and closed *)

(** What a channel reports when all its messages fail. *)
Definition failed (failure : SendToChannelFailure) (ids : list Z) : list Reaction := (λ id, CommandSettled id (Err failure)) <$> ids.
Definition commands_of (c : Channel) : list Z := (λ o, os_command_id (o_send o)) <$> ch_outstanding c.
Definition other_channels (link : LinkId) (chans : list Channel) : list Channel := filter (λ c, ch_link c ≠ link) chans.

Lemma swap_removed_forall {A} (P : A → Prop) xs i x : xs !! i = Some x → Forall P xs → Forall P (swap_removed xs i).
Proof. intros Hi HP. rewrite <- (swap_removed_perm _ _ _ Hi) in HP. by apply list.Forall_cons in HP as [_ HP]. Qed.

Lemma others_all link chans : (link ∉ ch_link <$> chans) → other_channels link chans = chans.
Proof.
  intros Hn. induction chans as [|c chans IH]; [done|]. unfold other_channels. cbn in Hn. apply not_elem_of_cons in Hn as [Hc Hn].
  rewrite filter_cons_True by done. f_equal. by apply IH.
Qed.

Lemma others_removed link chans i c :
  NoDup (ch_link <$> chans) → chans !! i = Some c → ch_link c = link → swap_removed chans i ≡ₚ other_channels link chans.
Proof.
  intros Hnd Hi Hc. pose proof (swap_removed_perm _ _ _ Hi) as Hp.
  assert (Hn : link ∉ ch_link <$> swap_removed chans i) by (rewrite <- Hp in Hnd; cbn in Hnd; apply list.NoDup_cons in Hnd as [Hn _]; by rewrite Hc in Hn).
  rewrite <- (others_all link _ Hn). transitivity (other_channels link (c :: swap_removed chans i)).
  - unfold other_channels. by rewrite filter_cons_False by tauto.
  - unfold other_channels. by apply filter_Permutation.
Qed.

Section channels.
Context {C : Type} {CT : ChannelTable C} {CL : ChannelTableLaws C}.
Implicit Types (ch : C).

Lemma settle_outstanding_ok fuel ch slots room chans i c failure :
  ct_rep ch slots room chans → chans !! i = Some c → length (ch_outstanding c) < fuel →
  ∃ ids ch', settle_outstanding fuel ch i failure = Done (failed failure ids, ch') ∧ ids ≡ₚ commands_of c
    ∧ ct_rep ch' slots room (<[i := with_outstanding [] c]> chans).
Proof.
  revert ch chans c. induction fuel as [|fuel IH]; intros ch chans c Hr Hi Hf; [lia|]. cbn [settle_outstanding].
  destruct (ct_reads_ok ch slots room chans i c Hr Hi) as (_ & _ & _ & _ & _ & -> & _). cbn [mbind run_bind].
  destruct (ch_outstanding c) as [|o os] eqn:Eo; cbn [length Nat.ltb Nat.leb].
  { exists [], ch. split; [done|]. unfold commands_of. rewrite Eo. split; [done|].
    rewrite list_insert_id; [done|]. rewrite Hi. destruct c; cbn in *; by subst. }
  assert (H0 : ch_outstanding c !! 0 = Some o) by (by rewrite Eo).
  destruct (ct_outstanding_ok ch slots room chans i c 0 o Hr Hi H0) as (-> & _). cbn [mbind run_bind].
  destruct (ct_retire_ok ch slots room chans i c 0 Hr Hi (lookup_lt_Some _ _ _ H0)) as (ch1 & -> & Hr1). cbn [mbind run_bind].
  pose proof (lookup_lt_Some _ _ _ Hi) as Hlt. pose proof (swap_removed_perm _ _ _ H0) as Hp.
  destruct (IH ch1 _ (retired 0 c) Hr1) as (ids & ch2 & -> & Hids & Hr2).
  { by apply list_lookup_insert_eq. }
  { cbn. rewrite length_swap_removed by (rewrite Eo; cbn; lia). rewrite Eo. cbn in Hf |- *. lia. }
  cbn [mbind run_bind]. exists (os_command_id (o_send o) :: ids), ch2. split; [done|]. split.
  - rewrite Hids. unfold commands_of. rewrite <- Hp. done.
  - by rewrite list_insert_insert_eq in Hr2.
Qed.

Lemma settle_channel_ok ch slots room chans i c failure :
  ct_rep ch slots room chans → chans !! i = Some c →
  ∃ ids ch', settle_channel ch (ch_link c) failure = Done (failed failure ids, ch') ∧ ids ≡ₚ commands_of c
    ∧ ct_rep ch' slots room (<[i := with_outstanding [] c]> chans).
Proof.
  intros Hr Hi. unfold settle_channel. destruct (ct_index_of_ok ch slots room chans (ch_link c) Hr) as [(k & d & -> & Hk & Hd)|[_ Hn]].
  - assert (k = i) as -> by (eapply NoDup_lookup; [exact (ct_links_ok _ _ _ _ Hr)| |]; rewrite list_lookup_fmap; [by rewrite Hk|rewrite Hi; cbn; congruence]).
    assert (d = c) as -> by congruence. cbn [mbind run_bind].
    destruct (ct_reads_ok ch slots room chans i c Hr Hi) as (_ & _ & _ & _ & _ & -> & _). cbn [mbind run_bind].
    apply settle_outstanding_ok; [done|done|lia].
  - destruct Hn. apply list_elem_of_fmap. exists c. split; [done|]. by eapply list_elem_of_lookup_2.
Qed.
End channels.

(** * Handing over what the links heard *)

Lemma settled_row r r' : settled r r' → lr_id r' = lr_id r ∧ lr_timeout r' = lr_timeout r ∧ (row_ok r → row_ok r')
  ∧ (∀ a, lr_phase r = Active a → ∃ a', lr_phase r' = Active a' ∧ al_key a' = al_key a ∧ al_attached_interface a' = al_attached_interface a).
Proof.
  intros [r0 _|r0 a e e' Ha He Hp Hh].
  - split; [done|]. split; [done|]. split; [done|]. intros a ->. by exists a.
  - split; [done|]. split; [done|]. split.
    + unfold row_ok. rewrite Ha. done.
    + intros a0 Ha0. rewrite Ha in Ha0. injection Ha0 as <-. by eexists.
Qed.

Lemma settled_rows rows rows' :
  Forall2 settled rows rows' → lr_id <$> rows' = lr_id <$> rows ∧ omap lr_timeout rows' = omap lr_timeout rows ∧ (rows_ok rows → rows_ok rows').
Proof.
  intros Hs. assert (Hids : lr_id <$> rows' = lr_id <$> rows).
  { induction Hs as [|r r' rows rows' Hr _ IH]; [done|]. cbn. destruct (settled_row _ _ Hr) as (-> & _). by f_equal. }
  split; [done|]. split.
  - clear Hids. induction Hs as [|r r' rows rows' Hr _ IH]; [done|]. cbn. destruct (settled_row _ _ Hr) as (_ & -> & _). by rewrite IH.
  - intros [Hnd Hok]. split; [by rewrite Hids|]. clear Hids Hnd. induction Hs as [|r r' rows rows' Hr _ IH]; [done|].
    apply list.Forall_cons in Hok as [Hr0 Hok]. constructor; [by apply (settled_row _ _ Hr)|by apply IH].
Qed.

Lemma evidence_valid v rows rows' : same_evidence rows rows' → Forall (handles_valid v) rows → Forall (handles_valid v) rows'.
Proof.
  assert (Hh : ∀ r, handles_valid v r ↔ from_option (handle_valid v) True (evidence_of (lr_phase r))).
  { intros r. unfold handles_valid, evidence_of. by destruct (lr_phase r). }
  intros E Hv. assert (Hall : Forall (from_option (handle_valid v) True) ((λ r, evidence_of (lr_phase r)) <$> rows')).
  { rewrite E. apply list.Forall_fmap. eapply list.Forall_impl; [exact Hv|]. intros r. apply Hh. }
  rewrite list.Forall_fmap in Hall. eapply list.Forall_impl; [exact Hall|]. intros r. apply Hh.
Qed.

(** * The node *)

Section proofs.
Context {L C : Type} {LT : LinkTable L} {LL : LinkTableLaws L} {CT : ChannelTable C} {CL : ChannelTableLaws C} {TC : TokenCrypto} {TL : TokenCryptoLaws} {SH : Sha256}.
Context {R A H D I : Type} `{RouteTableLaws R, AnnounceRecordLaws A, AnnounceIdHistoryLaws H, AppDataLaws D, RouteExpiryLaws I}.
Context {interfaces : AttachedInterfaces} {warmth : RouteWarmth} {rcap acap per : nat}.
Abbreviation node := (Node L C (RoutingTable R A H D I)).
Implicit Types (nd : node).

(** The links, the channels within their bounds, and a routing table whose ids are distinct and for which the links'
    handles are good. *)
Record node_ok nd lroom slots room rows chans (v : list StoredRoute) : Prop := {
  no_engine : engine_ok (nd_engine nd) lroom slots room rows chans;
  no_routes : table_ok interfaces warmth rcap acap per (nd_routes nd) v;
  no_ids : NoDup (sr_evidence <$> v);
  no_handles : Forall (handles_valid v) rows;
}.

Lemma reconcile_links_ok l lroom rows t v :
  links_ok l lroom rows → table_ok interfaces warmth rcap acap per t v → NoDup (sr_evidence <$> v) → Forall (handles_valid v) rows →
  ∃ changed l' rows' t' v', reconcile_pending_link_route_evidence l t = Done (changed, l', t')
    ∧ links_ok l' lroom rows' ∧ Forall2 settled rows rows' ∧ table_ok interfaces warmth rcap acap per t' v'
    ∧ NoDup (sr_evidence <$> v') ∧ Forall (handles_valid v') rows'.
Proof.
  intros [Hr Hok He] Ht Hnd Hv.
  destruct (reconcile_ok l lroom rows t v Hr Ht Hnd Hv) as (n & l' & rows' & t' & v' & E & Hr' & He' & Hs & Hv' & Ht' & ->).
  destruct (settled_rows _ _ Hs) as (_ & Et & Hok'). exists n, l', rows', t', (noted_all rows v). split; [done|]. split.
  { split; [done|by apply Hok'|by rewrite He', Et]. }
  split; [done|]. split; [done|]. rewrite noted_all_evidence. split; [done|]. eapply list.Forall_impl; [exact Hv'|].
  intros r. unfold handles_valid. destruct (lr_phase r) as [| |a]; [done..|]. destruct (al_route_evidence a); [|done]. cbn.
  apply handle_valid_ids, noted_all_evidence.
Qed.

(** Retiring a link that is in the table and whose channel has no messages left. *)
Lemma retire_link_ok nd lroom slots room rows chans v i c reason :
  node_ok nd lroom slots room rows chans v → chans !! i = Some c → ch_outstanding c = [] → (ch_link c ∈ lr_id <$> rows) →
  ∃ nd' rows' chans' v', retire_link nd (ch_link c) reason = Done ([LinkClosed (ch_link c) reason], nd')
    ∧ node_ok nd' lroom slots room rows' chans' v'
    ∧ chans' ≡ₚ other_channels (ch_link c) chans ∧ ch_link c :: (lr_id <$> rows') ≡ₚ lr_id <$> rows.
Proof.
  intros [[Hl Hr Hok] Ht Hnd Hv] Hi Ho Hin. unfold retire_link.
  destruct (settle_channel_ok _ slots room chans i c SendLinkClosed Hr Hi) as (ids & ch1 & -> & Hids & Hr1). cbn [mbind run_bind].
  unfold commands_of in Hids. rewrite Ho in Hids. apply Permutation_nil_r in Hids as ->.
  rewrite list_insert_id in Hr1 by (rewrite Hi; destruct c; cbn in *; by subst).
  destruct (reconcile_links_ok _ lroom rows _ v Hl Ht Hnd Hv) as (n & l1 & rows1 & t1 & v1 & -> & Hl1 & Hs & Ht1 & Hnd1 & Hv1). cbn [mbind run_bind].
  destruct (settled_rows _ _ Hs) as (Eids & _ & _).
  destruct (remove_ok l1 lroom rows1 (ch_link c) Hl1) as [(j & r & Hj & Hid & _ & l2 & -> & Hl2)|[Hn _]]; [|by rewrite Eids in Hn]. cbn [mbind run_bind].
  destruct (ct_close_ok ch1 slots room chans i c Hr1 Hi) as (ch2 & -> & Hr2). cbn [mbind run_bind].
  pose proof (others_removed _ chans i c (ct_links_ok _ _ _ _ Hr) Hi eq_refl) as Hp.
  eexists _, _, _, v1. split; [done|]. split; [split; cbn; [split; [exact Hl2|exact Hr2|]|done|done|]|].
  - by eapply swap_removed_forall.
  - by eapply swap_removed_forall.
  - split; [done|]. rewrite <- Eids, <- Hid. change (lr_id r :: (lr_id <$> swap_removed rows1 j)) with (lr_id <$> (r :: swap_removed rows1 j)).
    by rewrite (swap_removed_perm _ _ _ Hj).
Qed.

Context (transmits : InterfaceId → bool) {G : Type} (fill_random : G → list Z * G) (random_len : ∀ g, length (fill_random g).1 = IV_LEN).

(** What tearing down reports: the commands of the channel failed, the link closed and, if its interface transmits, the
    packet that closes it. *)
Definition torn_down (g : G) (a : ActiveLink) (c : Channel) (ids : list Z) : list Reaction :=
  failed SendTimeout ids ++ [LinkClosed (ch_link c) ReasonTimeout]
  ++ (if transmits (al_attached_interface a)
      then [SendFrame (al_attached_interface a) (sealed_packet (link_frame_header (ch_link c) CtxLinkClose) (al_key a) (fill_random g).1 (ch_link c))]
      else []).

Lemma teardown_ok g nd lroom slots room rows chans v i c j row a :
  node_ok nd lroom slots room rows chans v → length (fill_random g).1 = IV_LEN →
  chans !! i = Some c → rows !! j = Some row → lr_id row = ch_link c → lr_phase row = Active a →
  ∃ ids nd' rows' chans' v', teardown_channel_link transmits fill_random g nd (ch_link c)
      = Done (torn_down g a c ids, (fill_random g).2, nd')
    ∧ ids ≡ₚ commands_of c ∧ node_ok nd' lroom slots room rows' chans' v'
    ∧ chans' ≡ₚ other_channels (ch_link c) chans ∧ ch_link c :: (lr_id <$> rows') ≡ₚ lr_id <$> rows.
Proof.
  intros [[Hl Hr Hok] Ht Hnd Hv] Hiv Hi Hj Hid Ha. pose proof (lookup_lt_Some _ _ _ Hi) as Hlt. unfold teardown_channel_link.
  pose proof (Forall_lookup_1 _ _ _ _ Hok Hi) as Hc.
  destruct (settle_channel_ok _ slots room chans i c SendTimeout Hr Hi) as (ids & ch1 & -> & Hids & Hr1). cbn [mbind run_bind].
  destruct (fill_random g) as [iv g'] eqn:Eg. cbn [fst snd] in *. unfold write_owed_link_close. cbn [nd_engine en_links].
  rewrite (phase_for_known _ lroom rows j row (ch_link c) Hl Hj Hid), Ha. cbn [mbind run_bind]. unfold write_link_close.
  assert (Hwf : header_wf (link_frame_header (ch_link c) CtxLinkClose)) by (apply (link_header_wf (ch_link c) Data CtxLinkClose); [apply Hc|done]).
  destruct (write_sealed_ok _ (al_key a) (ch_link c) iv (replicate BROADCAST_MTU 0%Z) Hwf Hiv) as (buf & -> & _ & Hbuf). cbn [mbind run_bind].
  assert (Hlen : length (ch_link c) = 16) by apply Hc. rewrite Hlen, length_replicate in *.
  set (nd1 := mkNode _ _).
  destruct (retire_link_ok nd1 lroom slots room rows (<[i := with_outstanding [] c]> chans) v i (with_outstanding [] c) ReasonTimeout)
    as (nd2 & rows' & chans' & v' & E & Hok2 & Hp & Hrows).
  { split; [split|..]; try done. apply Forall_insert; [done|]. destruct Hc as [? ? ? ?]. split; cbn; [done|done|unfold MAX_FAST; lia|constructor]. }
  { by apply list_lookup_insert_eq. }
  { done. }
  { apply list_elem_of_fmap. exists row. split; [done|]. by eapply list_elem_of_lookup_2. }
  cbn [ch_link with_outstanding] in *. rewrite E. cbn [mbind run_bind]. clear E.
  assert (Hn : (BROADCAST_MTU <? wire_len (link_frame_header (ch_link c) CtxLinkClose) + sealed_len 16)%nat = false) by reflexivity.
  rewrite Hn. specialize (Hbuf ltac:(apply Nat.ltb_ge; exact Hn)). exists ids, nd2, rows', chans', v'. split.
  - unfold torn_down. rewrite Eg. cbn [fst snd]. destruct (transmits _); cbn [mbind run_bind]; [|done]. rewrite Hbuf.
    assert (Hs : length (sealed_packet (link_frame_header (ch_link c) CtxLinkClose) (al_key a) iv (ch_link c))
      = wire_len (link_frame_header (ch_link c) CtxLinkClose) + sealed_len 16).
    { unfold sealed_packet. rewrite length_app, length_encode_header, length_sealed by done. by rewrite Hlen. }
    rewrite <- Hs. rewrite slice_prefix by done. done.
  - split; [done|]. split; [done|]. split; [|done]. rewrite Hp. unfold other_channels. clear -Hi. revert i Hi. induction chans as [|d chans IH]; intros [|i] Hi; [done..|injection Hi as ->|]; cbn [insert list_insert].
    + by rewrite !filter_cons_False by tauto.
    + rewrite !filter_cons. case_decide; [f_equiv|]; by apply IH.
Qed.

(** * The timeouts *)

Lemma budget_closed chans i c o :
  NoDup (ch_link <$> chans) → chans !! i = Some c → o ∈ ch_outstanding c → message_ok o →
  budget (other_channels (ch_link c) chans) < budget chans.
Proof.
  intros Hnd Hi Ho Hok. unfold budget. pose proof (others_removed _ chans i c Hnd Hi eq_refl) as Hp.
  assert (E : chans ≡ₚ c :: other_channels (ch_link c) chans) by (rewrite <- Hp; symmetry; by apply swap_removed_perm).
  apply (sum_list_with_Permutation_proper (λ c, sum_list_with tries_left (ch_outstanding c))) in E. rewrite E. cbn. pose proof (sum_list_with_in o tries_left _ Ho) as Hle.
  pose proof (mo_tries _ Hok). assert (0 < tries_left o) by (unfold tries_left, CHANNEL_MAX_TRIES in *; lia). lia.
Qed.

Lemma fire_due_loop_ok fuel g nd lroom slots room rows chans v now :
  node_ok nd lroom slots room rows chans v → budget chans < fuel →
  ∃ reactions g' nd' rows' chans' v', fire_due_loop transmits fill_random fuel g nd now = Done (reactions, g', nd')
    ∧ node_ok nd' lroom slots room rows' chans' v' ∧ Forall (not_due now) chans'.
Proof.
  revert g nd rows chans v. induction fuel as [|fuel IH]; intros g nd rows chans v Hok Hf; [lia|]. cbn [fire_due_loop].
  pose proof Hok as [[Hl Hr Hb] Ht Hnd Hv].
  destruct (serve_due_ok transmits _ lroom rows slots room chans now Hl Hr Hb)
    as [[-> Hn]|[(link & -> & (j & row & a & Hj & Hid & Ha) & c & o & Hc & Hcl & Ho & _)|(reactions & e1 & chans1 & -> & El & Hr1 & Hs)]]; cbn [mbind run_bind].
  - exists [], g, nd, rows, chans, v. done.
  - apply list_elem_of_lookup in Hc as [i Hi]. subst link.
    destruct (teardown_ok g nd lroom slots room rows chans v i c j row a Hok (random_len g) Hi Hj ltac:(congruence) Ha)
      as (ids & nd1 & rows1 & chans1 & v1 & E & _ & Hok1 & Hp & _). rewrite <- Hcl, E. cbn [mbind run_bind].
    assert (Hlt : budget chans1 < budget chans).
    { unfold budget. rewrite Hp. eapply budget_closed; [exact (ct_links_ok _ _ _ _ Hr)|exact Hi|exact Ho|].
      pose proof (co_messages _ (Forall_lookup_1 _ _ _ _ Hb Hi)) as Hm. rewrite list.Forall_forall in Hm. by apply Hm. }
    destruct (IH (fill_random g).2 nd1 rows1 chans1 v1 Hok1) as (more & g2 & nd2 & rows2 & chans2 & v2 & -> & Hok2 & Hn); [lia|].
    cbn [mbind run_bind]. by eexists _, g2, nd2, rows2, chans2, v2.
  - pose proof (serves_due_budget transmits _ _ _ _ _ Hb Hs) as Hlt. pose proof (serves_due_ok transmits _ _ _ _ _ Hb Hs) as Hb1.
    destruct (IH g (mkNode e1 (nd_routes nd)) rows chans1 v) as (more & g2 & nd2 & rows2 & chans2 & v2 & -> & Hok2 & Hn); [|lia|].
    { split; cbn; [split; [by rewrite El|done|done]|done..]. }
    cbn [mbind run_bind]. by eexists _, g2, nd2, rows2, chans2, v2.
Qed.

Lemma in_flight_ok ch slots room prefix todo :
  ct_rep ch slots room (prefix ++ todo) → Forall channel_ok todo →
  ∃ n, in_flight ch (length todo) (length prefix) = Done n ∧ budget todo ≤ 6 * n.
Proof.
  revert prefix. induction todo as [|c todo IH]; intros prefix Hr Hok; cbn [length in_flight]; [by exists 0|].
  apply list.Forall_cons in Hok as [Hc Hok]. assert (Hi : (prefix ++ c :: todo) !! length prefix = Some c) by (by apply list_lookup_middle).
  destruct (ct_reads_ok ch slots room _ _ c Hr Hi) as (_ & _ & _ & _ & _ & -> & _). cbn [mbind run_bind].
  destruct (IH (prefix ++ [c])) as (n & E & Hn); [by rewrite <- app_assoc|done|]. rewrite length_app, Nat.add_1_r in E. rewrite E. cbn [mbind run_bind].
  eexists. split; [done|]. unfold budget. cbn. fold (budget todo).
  assert (sum_list_with tries_left (ch_outstanding c) ≤ 6 * length (ch_outstanding c)); [|lia].
  pose proof (co_messages _ Hc) as Hm. clear -Hm. induction Hm as [|o os Ho _ IH]; cbn; [lia|]. pose proof (mo_tries _ Ho).
  unfold tries_left, CHANNEL_MAX_TRIES in *. lia.
Qed.

Lemma fire_due_ok g nd lroom slots room rows chans v now :
  node_ok nd lroom slots room rows chans v →
  ∃ reactions g' nd' rows' chans' v', fire_due_channel_timeouts transmits fill_random g nd now = Done (reactions, g', nd')
    ∧ node_ok nd' lroom slots room rows' chans' v' ∧ Forall (not_due now) chans'.
Proof.
  intros Hok. pose proof Hok as [[_ Hr Hb] _ _ _]. unfold fire_due_channel_timeouts. destruct (ct_len_ok _ _ _ _ Hr) as [-> _].
  destruct (in_flight_ok _ slots room [] chans Hr Hb) as (n & E & Hn). cbn [length] in E. rewrite E. cbn [mbind run_bind].
  apply (fire_due_loop_ok _ g nd lroom slots room rows chans v now Hok). lia.
Qed.

(** * A whole run *)

Inductive channel_op :=
  | SendOp (id : Z) (send : SendToChannel) (now : Z) (iv buf : list Z)
  | AckOp (owed : ChannelAckVerifyOwed) (verification : ChannelAckVerification)
  | TimeoutsOp (now : Z).

Definition channel_do (g : G) nd (op : channel_op) : run (list Reaction * G * node) :=
  match op with
  | SendOp id send now iv buf =>
      '(_, e, _) ← write_commanded_send_to_channel (nd_engine nd) id send now iv buf; Done ([], g, mkNode e (nd_routes nd))
  | AckOp owed verification =>
      '(reactions, e) ← resume_channel_ack_verify (nd_engine nd) owed verification; Done (reactions, g, mkNode e (nd_routes nd))
  | TimeoutsOp now => fire_due_channel_timeouts transmits fill_random g nd now
  end.
Fixpoint channel_do_all (g : G) nd (ops : list channel_op) : run (list Reaction * G * node) :=
  match ops with
  | [] => Done ([], g, nd)
  | op :: ops =>
      '(reactions, g, nd) ← channel_do g nd op; '(more, g, nd) ← channel_do_all g nd ops; Done (reactions ++ more, g, nd)
  end.

Definition channel_op_ok (op : channel_op) : Prop :=
  match op with SendOp _ send _ iv _ => is_link_id (sc_link_id send) ∧ length iv = IV_LEN | _ => True end.

Lemma channel_do_ok g nd lroom slots room rows chans v op :
  node_ok nd lroom slots room rows chans v → channel_op_ok op →
  ∃ reactions g' nd' rows' chans' v', channel_do g nd op = Done (reactions, g', nd') ∧ node_ok nd' lroom slots room rows' chans' v'.
Proof.
  intros Hok Hop. pose proof Hok as [[Hl Hr Hb] Ht Hnd Hv]. destruct op as [id send now iv buf|owed verification|now]; unfold channel_do.
  - destruct Hop as [Hid Hiv].
    destruct (send_effect (nd_engine nd) lroom rows slots room chans id send now iv buf Hl Hr Hid Hiv)
      as (r & e' & buf' & -> & _ & [[-> _]|(j & row & a & i & c & _ & _ & _ & [Hi Hc El Hres Hr' _])]); cbn [mbind run_bind].
    { eexists _, _, _, rows, chans, v. split; [done|]. by split. }
    eexists _, _, _, rows, _, v. split; [done|]. split; cbn; [split; [by rewrite El|exact Hr'|]|done..].
    pose proof (opened_ok (sc_link_id send) chans Hid Hb) as Hopen. apply Forall_insert; [done|].
    pose proof (tuned_ok (al_rtt a) c (Forall_lookup_1 _ _ _ _ Hopen Hi)) as Htune. destruct r; [|done]. by eapply sent_ok.
  - destruct (resume_ack_ok (nd_engine nd) lroom rows slots room chans owed verification Hl Hr)
      as [[-> _]|(-> & a & i & c & sub & o & e' & rows' & (Hi & _ & Ho & _) & -> & Hl' & _ & He & Hr')]; cbn [mbind run_bind].
    { eexists _, _, _, rows, chans, v. split; [done|]. by split. }
    eexists _, _, _, rows', _, v. split; [done|]. split; cbn; [split; [done|exact Hr'|]|done|done|by eapply evidence_valid].
    apply Forall_insert; [done|]. apply acked_ok; [by eapply Forall_lookup_1|by eapply lookup_lt_Some].
  - destruct (fire_due_ok g nd lroom slots room rows chans v now Hok) as (reactions & g' & nd' & rows' & chans' & v' & -> & Hok' & _).
    by eexists _, g', nd', rows', chans', v'.
Qed.

Definition channel_in_bounds (c : Channel) : Prop :=
  (1 ≤ w_size (ch_window c) ≤ w_max (ch_window c) ∧ w_max (ch_window c) ≤ 48)%Z
  ∧ length (ch_outstanding c) ≤ 48
  ∧ Forall (λ o, (0 ≤ o_tries o ≤ 5)%Z ∧ length (os_body (o_send o)) ≤ 425 ∧ length (os_iv (o_send o)) = 16) (ch_outstanding c).

Lemma channel_ok_bounds c : channel_ok c → channel_in_bounds c.
Proof.
  intros [_ [Hs Hm _ _] Hf Hms]. unfold MAX_FAST in *. split; [lia|]. split; [lia|].
  eapply list.Forall_impl; [exact Hms|]. intros o [Ht Hb Hiv]. rewrite channel_body_len in Hb. unfold CHANNEL_MAX_TRIES in Ht.
  split; [lia|]. split; [lia|exact Hiv].
Qed.

(** C15. Whatever sends, delivery proofs and timeouts arrive, in any order, no handler panics or runs for ever, teardowns
    of links whose messages are out of tries included, and every channel stays within its bounds: its window is between
    1 and its maximum, which never exceeds 48, at most 48 messages are in flight, none has been tried again more than
    five times, and every body and initialisation vector fits its packet.  The links and the routing table stay well formed,
    and once the timeouts have fired at an instant no message is due then. *)
Theorem channels_stay_in_bounds g nd lroom slots room rows chans v ops now :
  node_ok nd lroom slots room rows chans v → Forall channel_op_ok ops →
  ∃ reactions g1 nd1 rows1 chans1 v1, channel_do_all g nd ops = Done (reactions, g1, nd1)
    ∧ node_ok nd1 lroom slots room rows1 chans1 v1 ∧ Forall channel_in_bounds chans1
    ∧ ∃ more g2 nd2 rows2 chans2 v2, fire_due_channel_timeouts transmits fill_random g1 nd1 now = Done (more, g2, nd2)
      ∧ node_ok nd2 lroom slots room rows2 chans2 v2 ∧ Forall (not_due now) chans2.
Proof.
  intros Hok Hops. revert g nd rows chans v Hok. induction Hops as [|op ops Hop Hops IH]; intros g nd rows chans v Hok; cbn [channel_do_all].
  - exists [], g, nd, rows, chans, v. split; [done|]. split; [done|]. split; [|by apply fire_due_ok with (1 := Hok)].
    eapply list.Forall_impl; [exact (eo_bounds _ _ _ _ _ _ (no_engine _ _ _ _ _ _ _ Hok))|]. apply channel_ok_bounds.
  - destruct (channel_do_ok g nd lroom slots room rows chans v op Hok Hop) as (rs & g' & nd' & rows' & chans' & v' & -> & Hok'). cbn [mbind run_bind].
    destruct (IH g' nd' rows' chans' v' Hok') as (more & g1 & nd1 & rows1 & chans1 & v1 & -> & Hrest). cbn [mbind run_bind].
    by eexists _, g1, nd1, rows1, chans1, v1.
Qed.
End proofs.

(** * The sender with its routes *)

Module SampleNode.
Definition node : Node FixedLinkTable FixedArrayChannelTable sample_t := mkNode SampleSender.engine table_1.
Definition random (g : Z) : list Z * Z := (replicate 16 (wrap 8 g), (g + 1)%Z).
(** Sends on two links, the proof of the first, and a timeout. *)
Definition traffic : list channel_op :=
  [SendOp 41 (SampleSender.message 1 [1; 2; 3]%Z) 1000 (SampleSender.iv 5) SampleSender.buf;
   SendOp 42 (SampleSender.message 2 [4%Z]) 1010 (SampleSender.iv 6) SampleSender.buf;
   AckOp SampleSender.owed Valid; TimeoutsOp 1300].
Abbreviation state := (run (list Reaction * Z * Node FixedLinkTable FixedArrayChannelTable sample_t)).
Abbreviation after := (channel_do_all SampleSender.transmits random 0%Z node traffic).
Abbreviation timeouts := (fire_due_channel_timeouts SampleSender.transmits random).

(** How much is reported, and the report before the last of the timeouts at 100 seconds. *)
Definition reports (rs : list Reaction) (r : state) : option (nat * nat * option Reaction) :=
  match r with Done (more, _, _) => Some (length rs, length more, more !! 5) | _ => None end.
Definition outcome (r : state) : option (nat * nat * option Reaction) :=
  match r with Done (rs, g, nd) => reports rs (timeouts g nd 100000) | _ => None end.
Lemma traffic_outcome : outcome after = Some (2, 7, Some (LinkClosed (SampleLinks.id 2) ReasonTimeout)).
Proof. vm_compute. reflexivity. Qed.
Lemma outcome_done rs g nd : outcome (Done (rs, g, nd)) = reports rs (timeouts g nd 100000).
Proof. done. Qed.
Lemma reports_done rs more g nd : reports rs (Done (more, g, nd)) = Some (length rs, length more, more !! 5).
Proof. done. Qed.

Lemma handles_sample_valid rows : links_ok SampleLinks.links SampleLinks.room rows → Forall (handles_valid routes_1) rows.
Proof.
  intros Hl. pose proof (lt_phases_ok _ _ _ (lo_table _ _ _ Hl)) as E.
  assert (Hp : Forall (λ p, from_option (handle_valid routes_1) True (evidence_of p)) (lr_phase <$> rows)).
  { remember (lr_phase <$> rows) as phases eqn:Ep. clear Ep. vm_compute in E. injection E as <-.
    repeat (apply Forall_nil_2 || apply Forall_cons_2); cbn; try exact I. split; [vm_compute; split; discriminate|]. intros [|[|r]] s Hr _; [left; vm_compute; discriminate|discriminate Hr|discriminate Hr]. }
  rewrite list.Forall_fmap in Hp. eapply list.Forall_impl; [exact Hp|]. intros r. unfold handles_valid, evidence_of. cbn. by destruct (lr_phase r).
Qed.

Lemma node_sample_ok : ∃ rows, node_ok (interfaces := attached) (warmth := no_warmth) (rcap := 2) (acap := 2) (per := 2)
  node SampleLinks.room 2 SampleSender.room rows [] routes_1.
Proof.
  destruct SampleSender.engine_sample_ok as (rows & He). exists rows. split; [exact He|exact table_1_ok|apply NoDup_singleton|].
  apply handles_sample_valid, He.
Qed.
End SampleNode.

(** The first message is proved, the second is sent again; at 100 seconds the second has no tries left and its link is
    closed. *)
Lemma channels_stay_in_bounds_witness :
  ∃ reactions g1 nd1 rows1 chans1 v1, SampleNode.after = Done (reactions, g1, nd1)
    ∧ node_ok (interfaces := attached) (warmth := no_warmth) (rcap := 2) (acap := 2) (per := 2) nd1 SampleLinks.room 2 SampleSender.room rows1 chans1 v1
    ∧ length reactions = 2
    ∧ ∃ more g2 nd2 chans2, fire_due_channel_timeouts SampleSender.transmits SampleNode.random g1 nd1 100000 = Done (more, g2, nd2)
      ∧ Forall (not_due 100000) chans2 ∧ length more = 7 ∧ more !! 5 = Some (LinkClosed (SampleLinks.id 2) ReasonTimeout).
Proof.
  destruct SampleNode.node_sample_ok as (rows & Hok).
  destruct (channels_stay_in_bounds SampleSender.transmits SampleNode.random ltac:(reflexivity) 0%Z SampleNode.node SampleLinks.room 2 SampleSender.room rows [] routes_1
      SampleNode.traffic 100000 Hok) as (reactions & g1 & nd1 & rows1 & chans1 & v1 & E & Hok1 & _ & more & g2 & nd2 & rows2 & chans2 & v2 & E2 & _ & Hn).
  { constructor; [split; [apply (SampleSender.link_id_ok 1); width|reflexivity]|].
    constructor; [split; [apply (SampleSender.link_id_ok 2); width|reflexivity]|]. constructor; [exact I|]. constructor; [exact I|constructor]. }
  exists reactions, g1, nd1, rows1, chans1, v1. split; [exact E|]. split; [exact Hok1|].
  pose proof SampleNode.traffic_outcome as Er. rewrite E, SampleNode.outcome_done, E2, SampleNode.reports_done in Er.
  injection Er as Hlen Hmore Hat.
  split; [exact Hlen|]. exists more, g2, nd2, chans2. split; [exact E2|]. split; [exact Hn|]. split; [exact Hmore|exact Hat].
Defined.
