(* ===== verification/PathRequestIngress.v ===== *)
(** Path requests arriving: [routing/ingress/path_requests.rs], where the seen and forwarded requests, the registered
    destinations, the links and the routing table, the rate limits and the announce queue meet. *)

From S2P Require Import LemireIndex AppData Prelude Wire Dedup Columns Evidence Routes Announce Acceptance ChannelTable Interfaces Lifetime Timing RowTable DueTable InterfaceLimits AnnounceSchedule Links RoutingTable LinkEvidence PathRequests PathRequestWire Upstream.

(** * What the handler needs of routes

    The handler brings the routes up to date with what the links heard, and looks destinations up. *)
Class RouteSource (S : Type) := {
  src_reconcile : S → run S;
  src_forwarding_route_for : S → DestinationHash → run (option ForwardingRoute);
  src_responsiveness_of : S → DestinationHash → run (option RouteResponsiveness);
}.

(** The engine's routes: its links and its routing table. *)
Section engine_routes.
Context {T : Type} {LT : LinkTable T}.
Context {R A H D I : Type} `{RouteTable R, AnnounceRecordTable A, AnnounceIdHistory H, AnnounceAppData D, RouteExpiryIndex I}.

Record EngineRoutes := mkEngineRoutes { er_links : Links T; er_routing_table : RoutingTable R A H D I }.

#[global] Instance engine_route_source : RouteSource EngineRoutes := {|
  src_reconcile := λ s,
    '(_, l, t) ← reconcile_pending_link_route_evidence (er_links s) (er_routing_table s);
    Done (mkEngineRoutes l t);
  src_forwarding_route_for := λ s d, forwarding_route_for (er_routing_table s) d;
  src_responsiveness_of := λ s d, responsiveness_of (er_routing_table s) d;
|}.
End engine_routes.

(** * The outcomes of a path request *)

(** Of [IgnoreReason] and [IngestPacketOutcome], those a path request can have. *)
Inductive IgnoreReason :=
  Malformed | DuplicateRequest | Superseded | NotForUs | LoopPrevented | RouteUnresponsive | RateLimited.
Inductive IngestPacketOutcome :=
  | Ignored (reason : IgnoreReason)
  | AnswerPathRequest (destination : DestinationHash)
  | ScheduledPathResponse (destination : DestinationHash)
  | PathResponseScheduleRejected (destination : DestinationHash) (rejection : ScheduleRejection)
  | ForwardRecursivePathRequest (destination : DestinationHash) (id : Seen.PathRequestIdBytes)
  | ForwardBoundaryPathRequest (destination : DestinationHash) (id : Seen.PathRequestIdBytes)
  | ForwardLocalClientPathRequest (destination : DestinationHash) (id : Seen.PathRequestIdBytes)
  | RelayPathRequestToLocalClients (destination : DestinationHash) (id : Seen.PathRequestIdBytes).
#[global] Instance IgnoreReason_eq_dec : EqDecision IgnoreReason.
Proof. solve_decision. Defined.

Definition PATH_REQUEST_GRACE_MS : Z := 400.
Definition PATH_REQUEST_ROAMING_GRACE_MS : Z := 1500.

Inductive RecursivePathRequestDefault := RecursiveByDefault | NotByDefault.

Definition recursively_forwards_unknown_paths (mode : InterfaceMode) : bool :=
  match mode with AccessPoint | Gateway | Roaming | Internal => true | _ => false end.

(** [interfaces.descriptor_for(id).is_some_and(|descriptor| descriptor.mode == mode)] *)
Definition attached_in_mode (interfaces : AttachedInterfaces) (id : InterfaceId) (mode : InterfaceMode) : bool :=
  match descriptor_for interfaces id with Some d => bool_decide (d_mode d = mode) | None => false end.

Definition path_response_grace_ms (source_interface : InterfaceId) (interfaces : AttachedInterfaces) : Z :=
  if attached_in_mode interfaces source_interface Roaming
  then (PATH_REQUEST_GRACE_MS + PATH_REQUEST_ROAMING_GRACE_MS)%Z else PATH_REQUEST_GRACE_MS.

Definition request_echoes_into_its_own_roaming_segment (route_learned_on source_interface : InterfaceId)
    (interfaces : AttachedInterfaces) : bool :=
  bool_decide (route_learned_on = source_interface) && attached_in_mode interfaces source_interface Roaming.

(** [slowest_eligible_bitrate] with a predicate that reads a table. *)
Fixpoint eligible_bitrates (interfaces : AttachedInterfaces) (eligible : InterfaceDescriptor → run bool) : run (list Z) :=
  match interfaces with
  | [] => Done []
  | d :: interfaces =>
      yes ← (if allows_transmit (d_capabilities d) then eligible d else Done false);
      rest ← eligible_bitrates interfaces eligible;
      Done (if yes : bool then d_bitrate d :: rest else rest)
  end.

(** * The handler *)

(** The parts of the engine's state a path request touches. *)
Record IngressState (SE U S L E C Q : Type) := mkIngressState {
  is_transport : TransportState;
  is_recursive_default : RecursivePathRequestDefault;
  is_seen : SE;
  is_upstream : U;
  is_routes : S;
  is_limits : L;
  is_egress_limits : E;
  is_recursive : Recursive.RecursivePathRequests C;
  is_announces : ScheduledAnnounceQueue Q;
}.
Arguments mkIngressState {SE U S L E C Q}. Arguments is_transport {SE U S L E C Q}. Arguments is_recursive_default {SE U S L E C Q}.
Arguments is_seen {SE U S L E C Q}. Arguments is_upstream {SE U S L E C Q}. Arguments is_routes {SE U S L E C Q}. Arguments is_limits {SE U S L E C Q}.
Arguments is_egress_limits {SE U S L E C Q}. Arguments is_recursive {SE U S L E C Q}. Arguments is_announces {SE U S L E C Q}.

Section handler.
Context {SE U S L E C Q : Type} {HSE : Seen.SeenPathRequestTable SE} {HU : UpstreamAppDestinationTable U} {HS : RouteSource S}
  {HL : RowTable PathRequestLimit.InterfacePathRequestLimit L} {HE : RowTable PathRequestLimit.InterfacePathRequestLimit E}
  {HC : DueTable InterfaceId C} {HQ : AnnounceRows Q}.
Abbreviation state := (IngressState SE U S L E C Q).
Implicit Types (s : state) (interfaces : AttachedInterfaces) (source_interface : InterfaceId) (now : Z).

Definition with_seen s (seen : SE) : state :=
  mkIngressState (is_transport s) (is_recursive_default s) seen (is_upstream s) (is_routes s) (is_limits s) (is_egress_limits s) (is_recursive s) (is_announces s).
Definition with_routes s (routes : S) : state :=
  mkIngressState (is_transport s) (is_recursive_default s) (is_seen s) (is_upstream s) routes (is_limits s) (is_egress_limits s) (is_recursive s) (is_announces s).
Definition with_limits s (limits : L) : state :=
  mkIngressState (is_transport s) (is_recursive_default s) (is_seen s) (is_upstream s) (is_routes s) limits (is_egress_limits s) (is_recursive s) (is_announces s).
Definition with_recursive s (recursive : Recursive.RecursivePathRequests C) : state :=
  mkIngressState (is_transport s) (is_recursive_default s) (is_seen s) (is_upstream s) (is_routes s) (is_limits s) (is_egress_limits s) recursive (is_announces s).
Definition with_announces s (announces : ScheduledAnnounceQueue Q) : state :=
  mkIngressState (is_transport s) (is_recursive_default s) (is_seen s) (is_upstream s) (is_routes s) (is_limits s) (is_egress_limits s) (is_recursive s) announces.

Definition recursive_policy interfaces source_interface : RecursivePathRequestPolicy :=
  match descriptor_for interfaces source_interface with
  | Some d => fp_recursive_path_requests (cp_forwarding (d_common d))
  | None => InheritNode
  end.
Definition forwards_recursively s interfaces source_interface : bool :=
  network_transport_enabled (is_transport s)
  && match descriptor_for interfaces source_interface with
     | None => false
     | Some d =>
         match recursive_policy interfaces source_interface with
         | InheritNode => match is_recursive_default s with RecursiveByDefault => true | NotByDefault => recursively_forwards_unknown_paths (d_mode d) end
         | RecursiveEnabled => true
         | RecursiveDisabled => false
         end
     end.
Definition forwards_across_boundary s interfaces source_interface : bool :=
  network_transport_enabled (is_transport s)
  && negb (bool_decide (recursive_policy interfaces source_interface = RecursiveEnabled))
  && negb (bool_decide (recursive_policy interfaces source_interface = RecursiveDisabled))
  && attached_in_mode interfaces source_interface Boundary.
Definition has_local_client interfaces : bool :=
  existsb (λ d, bool_decide (interface_kind (d_id d) = Some LocalClient)) interfaces.

(** Who a request without a usable route goes to: the outcome and, for the timeout, the interfaces asked. *)
Definition forwarding_outcome s (request : PathRequest) source_interface (from_local_client : bool) interfaces :
    option (IngestPacketOutcome * option PathRequestAudience) :=
  let d := pr_destination request in let id := pr_id request in
  if from_local_client then Some (ForwardLocalClientPathRequest d id, Some Network)
  else if forwards_recursively s interfaces source_interface then Some (ForwardRecursivePathRequest d id, Some Network)
  else if forwards_across_boundary s interfaces source_interface then Some (ForwardBoundaryPathRequest d id, Some BoundaryAndGateway)
  else if has_local_client interfaces then Some (RelayPathRequestToLocalClients d id, None)
  else None.

Definition is_local_clients (audience : PathRequestAudience) : bool := match audience with LocalClients => true | _ => false end.

(** The slowest of the interfaces asked. *)
Definition slowest_asked s source_interface (audience : option PathRequestAudience) now interfaces : run (option Z) :=
  match audience with
  | None => Done None
  | Some audience =>
      bitrates ← eligible_bitrates interfaces (λ d,
        if path_request_egress_eligible d (Some source_interface) audience then
          if is_local_clients audience then Done true else
          limited ← PathRequestLimit.should_egress_limit (is_egress_limits s) (d_id d) now (cp_path_request_egress (d_common d));
          Done (negb limited)
        else Done false);
      Done (minimum bitrates)
  end.

Definition forward_unavailable_path_request s (request : PathRequest) source_interface (from_local_client : bool) now interfaces :
    run (IngestPacketOutcome * state) :=
  '(limited, s) ← (if forwards_recursively s interfaces source_interface || forwards_across_boundary s interfaces source_interface then
      '(limited, limits) ← PathRequestLimit.record_and_should_limit_with_policy (is_limits s) source_interface now
        match descriptor_for interfaces source_interface with Some d => cp_ingress_control (d_common d) | None => cp_ingress_control RNS_DEFAULT end;
      Done (limited, with_limits s limits)
    else Done (false, s));
  if limited : bool then Done (Ignored RateLimited, s) else
  match forwarding_outcome s request source_interface from_local_client interfaces with
  | None => Done (Ignored NotForUs, s)
  | Some (outcome, audience) =>
      slowest ← slowest_asked s source_interface audience now interfaces;
      let expires_at := saturating_add 64 now (path_discovery_timeout_ms slowest) in
      '(begun, recursive) ← Recursive.begin (is_recursive s) (pr_destination request) source_interface expires_at;
      Done (match begun with Recursive.AlreadyInFlight => Ignored Superseded | Recursive.Opened => outcome end, with_recursive s recursive)
  end.

(** [classify_path_request], from the route held on. *)
Definition answer_with_route s (request : PathRequest) source_interface (from_local_client : bool) now interfaces
    (held_route : option ForwardingRoute) : run (IngestPacketOutcome * state) :=
  match held_route with
  | None => forward_unavailable_path_request s request source_interface from_local_client now interfaces
  | Some route =>
      if request_echoes_into_its_own_roaming_segment (fw_receiving_interface route) source_interface interfaces
      then Done (Ignored LoopPrevented, s) else
      if loops_back_through_requester request (fw_next_hop route) then Done (Ignored LoopPrevented, s) else
      responsiveness ← src_responsiveness_of (is_routes s) (pr_destination request);
      if bool_decide (responsiveness = Some Unresponsive) then
        '(outcome, s) ← forward_unavailable_path_request s request source_interface from_local_client now interfaces;
        Done (match outcome with Ignored NotForUs => Ignored RouteUnresponsive | outcome => outcome end, s)
      else if bool_decide (descriptor_for interfaces (fw_receiving_interface route) = None) then
        forward_unavailable_path_request s request source_interface from_local_client now interfaces
      else
        let due_at := if from_local_client then now
                      else saturating_add 64 now (path_response_grace_ms source_interface interfaces) in
        '(scheduled, announces) ← schedule_directed (is_announces s) (pr_destination request) due_at source_interface (fw_hops route);
        Done (match scheduled with
              | AnnounceSchedule.Inserted | AnnounceSchedule.Updated => ScheduledPathResponse (pr_destination request)
              | AnnounceSchedule.Rejected rejection => PathResponseScheduleRejected (pr_destination request) rejection
              end, with_announces s announces)
  end.

(** [classify_path_request] *)
Definition classify_path_request s (payload : list Z) source_interface now interfaces : run (IngestPacketOutcome * state) :=
  parsed ← parse_path_request payload;
  match parsed with
  | Err _ => Done (Ignored Malformed, s)
  | Ok request =>
      '(novelty, seen) ← Seen.observe (is_seen s) (pr_destination request) (pr_id request);
      let s := with_seen s seen in
      match novelty with
      | Seen.Duplicate => Done (Ignored DuplicateRequest, s)
      | Seen.Fresh =>
          registered ← lookup (is_upstream s) (pr_destination request) Single;
          if bool_decide (is_Some registered) then Done (AnswerPathRequest (pr_destination request), s) else
          routes ← src_reconcile (is_routes s);
          let s := with_routes s routes in
          let from_local_client := bool_decide (interface_kind source_interface = Some LocalClient) in
          held_route ← (if network_transport_enabled (is_transport s) || from_local_client
                        then src_forwarding_route_for (is_routes s) (pr_destination request) else Done None);
          answer_with_route s request source_interface from_local_client now interfaces held_route
      end
  end.
End handler.
