(* ===== verification/PathRequestIngressProofs.v ===== *)
(** What the handler of path requests ([PathRequestIngress]) does, on maps instead of tables: each call is one of
    the steps of [classified]. *)

From stdpp Require Import gmap.
From S2P Require Import LemireIndex AppData Prelude Wire Dedup Columns KeyedMap Evidence Routes Announce Acceptance ChannelTable Interfaces Lifetime Timing RowTable DueTable InterfaceLimits InterfaceLimitsProofs AnnounceSchedule AnnounceScheduleRows AnnounceSchedulePlan Links LinksInvariant RoutingTable RoutingTableInvariant RoutingTableQueries RoutingTableEvidence LinkEvidence PathRequests PathRequestsProofs PathRequestWire Upstream UpstreamRegistry PathRequestIngress.

(** * What routes promise the handler *)

Definition routes_view : Type := DestinationHash → option (ForwardingRoute * RouteResponsiveness).

(** Evidence from links only makes routes responsive. *)
Definition refreshed (view view' : routes_view) : Prop :=
  ∀ d, view' d = view d ∨ ∃ route before, view d = Some (route, before) ∧ view' d = Some (route, Responsive).

Class RouteSourceLaws (S : Type) `{RouteSource S} := {
  src_rep : S → routes_view → Prop;
  src_reconcile_ok : ∀ s view, src_rep s view → ∃ s' view', src_reconcile s = Done s' ∧ src_rep s' view' ∧ refreshed view view';
  src_route_ok : ∀ s view d, src_rep s view → src_forwarding_route_for s d = Done (fst <$> view d);
  src_responsiveness_ok : ∀ s view d, src_rep s view → src_responsiveness_of s d = Done (snd <$> view d);
}.

(** ** The links and the routing table keep the promise *)

Definition view_of (v : list StoredRoute) : routes_view := λ d,
  (λ s, (forwarding_of s, responsiveness (sr_entry s))) <$> find_key sr_destination d v.

Lemma noted_all_destinations rows v : sr_destination <$> noted_all rows v = sr_destination <$> v.
Proof.
  revert v. induction rows as [|r rows IH]; intros v; [done|]. cbn. unfold noted_all in IH. rewrite IH, <- list_fmap_compose.
  apply list_fmap_ext. intros i s _. apply noted_destination.
Qed.

Lemma noted_view rows v : NoDup (sr_destination <$> v) → refreshed (view_of v) (view_of (noted_all rows v)).
Proof.
  intros Hnd d. pose proof (noted_all_destinations rows v) as Hd. unfold view_of.
  destruct (decide (d ∈ sr_destination <$> v)) as [Hin|Hn].
  2: { left. by rewrite !find_key_none by (by rewrite ?Hd). }
  apply list_elem_of_fmap in Hin as (s & -> & [i Hi]%list_elem_of_lookup). pose proof (noted_all_at rows v i s Hi) as Hi'.
  rewrite (find_key_at sr_destination v i s Hnd Hi). destruct (observations rows (sr_evidence s)) as [|at_ ats].
  - left. by rewrite (find_key_at sr_destination _ i s (ltac:(by rewrite Hd)) Hi').
  - right. set (s' := set_entry _ s) in Hi'. exists (forwarding_of s), (responsiveness (sr_entry s)). split; [done|].
    change (sr_destination s) with (sr_destination s'). rewrite (find_key_at sr_destination _ i s' (ltac:(by rewrite Hd)) Hi'). done.
Qed.

Section engine_routes.
Context {T : Type} {LT : LinkTable T} {LL : LinkTableLaws T}.
Context {R A H D I : Type} `{RouteTableLaws R, AnnounceRecordLaws A, AnnounceIdHistoryLaws H, AppDataLaws D, RouteExpiryLaws I}.
Context (interfaces : AttachedInterfaces) (warmth : RouteWarmth) (rcap acap per : nat).
Abbreviation ok := (table_ok interfaces warmth rcap acap per).

Definition engine_routes_rep (s : EngineRoutes) (view : routes_view) : Prop :=
  ∃ room rows v, lt_rep (Links.table (er_links s)) room rows ∧ ok (er_routing_table s) v ∧ NoDup (sr_evidence <$> v)
    ∧ Forall (handles_valid v) rows ∧ ∀ d, view d = view_of v d.

Definition engine_route_laws : RouteSourceLaws (EngineRoutes (T := T) (R := R) (A := A) (H := H) (D := D) (I := I)).
Proof.
  refine {| src_rep := engine_routes_rep |}.
  - intros s view (room & rows & v & Hl & Hok & Hnd & Hval & Hview). cbn.
    destruct (reconcile_ok (er_links s) room rows (er_routing_table s) v Hl Hok Hnd Hval) as (n & l' & rows' & t' & v' & -> & Hl' & _ & _ & Hv' & Hok' & ->).
    cbn [mbind run_bind]. eexists _, (view_of (noted_all rows v)). split; [done|]. split.
    + exists room, rows', (noted_all rows v). cbn. split; [done|]. split; [done|]. split; [by rewrite noted_all_evidence|]. split; [|done].
      eapply list.Forall_impl; [exact Hv'|]. intros r. unfold handles_valid. destruct (lr_phase r) as [| |a]; [done..|].
      destruct (al_route_evidence a); [|done]. cbn. apply handle_valid_ids, noted_all_evidence.
    + intros d. rewrite Hview. apply noted_view, (ok_destinations Hok).
  - intros s view d (room & rows & v & _ & Hok & _ & _ & Hview). cbn. rewrite Hview. unfold view_of.
    destruct (index_of_ok (er_routing_table s) v d Hok) as [(i & x & _ & Hi & <-)|[E Hn]].
    + rewrite (find_key_at sr_destination v i x (ok_destinations Hok) Hi). cbn. by apply (forwarding_ok _ v i x Hok).
    + rewrite find_key_none by done. unfold forwarding_route_for, at_destination. by rewrite E.
  - intros s view d (room & rows & v & _ & Hok & _ & _ & Hview). cbn. rewrite Hview. unfold view_of.
    destruct (index_of_ok (er_routing_table s) v d Hok) as [(i & x & _ & Hi & <-)|[E Hn]].
    + rewrite (find_key_at sr_destination v i x (ok_destinations Hok) Hi). cbn. unfold responsiveness_of. apply (at_destination_ok _ v i x _ _ Hok Hi).
      by destruct (ok_cells _ v i x Hok Hi) as (_ & _ & _ & _ & -> & _).
    + rewrite find_key_none by done. unfold responsiveness_of, at_destination. by rewrite E.
Defined.
End engine_routes.

(** * The handler on maps *)

Abbreviation limit_row := PathRequestLimit.InterfacePathRequestLimit.

Record ingress_view := mkIngressView {
  w_seen : list request;
  w_registered : gmap DestinationHash Registration;
  w_routes : routes_view;
  w_limits : InterfaceId → option limit_row;
  w_egress : InterfaceId → option limit_row;
  w_flights : Forwarded.flights;
  w_plan : plan;
}.

Definition asked_before (w : ingress_view) (request : PathRequest) : Prop := (pr_destination request, pr_id request) ∈ w_seen w.

(** ** Timeouts *)

Definition egress_limited (w : ingress_view) (now : Z) (d : InterfaceDescriptor) : bool :=
  let policy := cp_path_request_egress (d_common d) in
  ec_enabled policy && from_option (PathRequestLimit.faster_than (ec_frequency policy) MIN_EGRESS_SAMPLES_TO_JUDGE now) false (w_egress w (d_id d)).

(** The interfaces the request goes out on. *)
Definition asked_on (w : ingress_view) (source : InterfaceId) (audience : PathRequestAudience) (now : Z) (d : InterfaceDescriptor) : bool :=
  allows_transmit (d_capabilities d) && path_request_egress_eligible d (Some source) audience
  && (is_local_clients audience || negb (egress_limited w now d)).
Definition flight_expiry (w : ingress_view) (source : InterfaceId) (audience : option PathRequestAudience) (now : Z) (interfaces : AttachedInterfaces) : Z :=
  saturating_add 64 now (path_discovery_timeout_ms
    (audience ≫= λ audience, minimum (d_bitrate <$> List.filter (asked_on w source audience now) interfaces))).

(** ** One request *)

Section classified.
Context (transport : TransportState) (recursive_default : RecursivePathRequestDefault) (seen_cap : nat) (flight_cap queue_cap : Z).
Context (payload : list Z) (source : InterfaceId) (now : Z) (interfaces : AttachedInterfaces).

Definition from_local_client : bool := bool_decide (interface_kind source = Some LocalClient).
(** A route is used by a transport node, or for a client on this machine. *)
Definition may_answer : bool := network_transport_enabled transport || from_local_client.
Definition loops (request : PathRequest) (route : ForwardingRoute) : bool :=
  request_echoes_into_its_own_roaming_segment (fw_receiving_interface route) source interfaces
  || loops_back_through_requester request (fw_next_hop route).
Definition is_attached (interface : InterfaceId) : bool := bool_decide (is_Some (descriptor_for interfaces interface)).

(** No route to answer with: none, one that went silent, one over an interface that is gone. *)
Inductive unavailable (view : routes_view) (request : PathRequest) : bool → Prop :=
  | NoRoute : may_answer = false ∨ view (pr_destination request) = None → unavailable view request false
  | Silent route : may_answer = true → view (pr_destination request) = Some (route, Unresponsive) → loops request route = false →
      unavailable view request true
  | Detached route r : may_answer = true → view (pr_destination request) = Some (route, r) → r ≠ Unresponsive → loops request route = false →
      is_attached (fw_receiving_interface route) = false → unavailable view request false.

Definition source_policy : IngressControlPolicy :=
  match descriptor_for interfaces source with Some d => cp_ingress_control (d_common d) | None => cp_ingress_control RNS_DEFAULT end.
(** The state [s] is read for its transport and its default only. *)
Definition forwards_for_source : bool :=
  network_transport_enabled transport
  && match descriptor_for interfaces source with
     | None => false
     | Some d =>
         match recursive_policy interfaces source with
         | InheritNode => match recursive_default with RecursiveByDefault => true | NotByDefault => recursively_forwards_unknown_paths (d_mode d) end
         | RecursiveEnabled => true
         | RecursiveDisabled => false
         end
     end.
Definition crosses_boundary : bool :=
  network_transport_enabled transport && bool_decide (recursive_policy interfaces source = InheritNode)
  && attached_in_mode interfaces source Boundary.
Definition audience_of (request : PathRequest) : option (IngestPacketOutcome * option PathRequestAudience) :=
  let d := pr_destination request in let id := pr_id request in
  if from_local_client then Some (ForwardLocalClientPathRequest d id, Some Network)
  else if forwards_for_source then Some (ForwardRecursivePathRequest d id, Some Network)
  else if crosses_boundary then Some (ForwardBoundaryPathRequest d id, Some BoundaryAndGateway)
  else if has_local_client interfaces then Some (RelayPathRequestToLocalClients d id, None)
  else None.

(** The limit of the source interface counts requests the node would forward; [limited] says whether this is one too many. *)
Inductive counted_at_source (limits : InterfaceId → option limit_row) : bool → (InterfaceId → option limit_row) → Prop :=
  | NotCounted limits' : forwards_for_source || crosses_boundary = false → (∀ j, limits' j = limits j) → counted_at_source limits false limits'
  | Counted limited row limits' : forwards_for_source || crosses_boundary = true →
      PathRequests.row_step (PathRequests.Requested source now source_policy) (limits source) = (Some limited, row) →
      (∀ j, limits' j = if decide (j = source) then row else limits j) → counted_at_source limits limited limits'.

(** [forwarded w request silent o w']: what becomes of a request that cannot be answered. *)
Inductive forwarded (w : ingress_view) (request : PathRequest) (silent : bool) : IngestPacketOutcome → ingress_view → Prop :=
  | TooMany limits : counted_at_source (w_limits w) true limits →
      forwarded w request silent (Ignored RateLimited)
        (mkIngressView (w_seen w) (w_registered w) (w_routes w) limits (w_egress w) (w_flights w) (w_plan w))
  | Nobody limits : counted_at_source (w_limits w) false limits → audience_of request = None →
      forwarded w request silent (Ignored (if silent then RouteUnresponsive else NotForUs))
        (mkIngressView (w_seen w) (w_registered w) (w_routes w) limits (w_egress w) (w_flights w) (w_plan w))
  | InFlight limits o audience : counted_at_source (w_limits w) false limits → audience_of request = Some (o, audience) →
      is_Some (w_flights w !! pr_destination request) →
      forwarded w request silent (Ignored Superseded)
        (mkIngressView (w_seen w) (w_registered w) (w_routes w) limits (w_egress w) (w_flights w) (w_plan w))
  | Asked limits o audience flights : counted_at_source (w_limits w) false limits → audience_of request = Some (o, audience) →
      w_flights w !! pr_destination request = None →
      Forwarded.forward_step flight_cap (w_flights w)
        (Forwarded.Begin (pr_destination request) source (flight_expiry w source audience now interfaces))
        (Forwarded.Began Recursive.Opened) flights →
      forwarded w request silent o
        (mkIngressView (w_seen w) (w_registered w) (w_routes w) limits (w_egress w) flights (w_plan w)).

(** The request noted as seen, and the routes refreshed. *)
Definition noted_request (w : ingress_view) (request : PathRequest) (view : routes_view) : ingress_view :=
  mkIngressView (fifo_push seen_cap (w_seen w) (pr_destination request, pr_id request)) (w_registered w) view
    (w_limits w) (w_egress w) (w_flights w) (w_plan w).
Definition with_plan (w : ingress_view) (p : plan) : ingress_view :=
  mkIngressView (w_seen w) (w_registered w) (w_routes w) (w_limits w) (w_egress w) (w_flights w) p.
Definition answer_due : Z := if from_local_client then now else saturating_add 64 now (path_response_grace_ms source interfaces).

Inductive classified (w : ingress_view) : IngestPacketOutcome → ingress_view → Prop :=
  | Unreadable e : parse_path_request payload = Done (Err e) → classified w (Ignored Malformed) w
  | Repeated request : parse_path_request payload = Done (Ok request) → asked_before w request → classified w (Ignored DuplicateRequest) w
  | OneOfOurs request r : parse_path_request payload = Done (Ok request) → ¬ asked_before w request →
      found_at (w_registered w) (pr_destination request) Single = Some r →
      classified w (AnswerPathRequest (pr_destination request)) (noted_request w request (w_routes w))
  | Loops request view route r : parse_path_request payload = Done (Ok request) → ¬ asked_before w request →
      found_at (w_registered w) (pr_destination request) Single = None → refreshed (w_routes w) view →
      may_answer = true → view (pr_destination request) = Some (route, r) → loops request route = true →
      classified w (Ignored LoopPrevented) (noted_request w request view)
  | Answered request view route r : parse_path_request payload = Done (Ok request) → ¬ asked_before w request →
      found_at (w_registered w) (pr_destination request) Single = None → refreshed (w_routes w) view →
      may_answer = true → view (pr_destination request) = Some (route, r) → loops request route = false → r ≠ Unresponsive →
      is_attached (fw_receiving_interface route) = true →
      classified w (ScheduledPathResponse (pr_destination request))
        (with_plan (noted_request w request view)
          (plan_answer (w_plan w) ANNOUNCE_WITH_RETRY_INITIAL_EMISSION_COUNT (pr_destination request) answer_due source (fw_hops route)).2)
  | QueueRefused request view route r : parse_path_request payload = Done (Ok request) → ¬ asked_before w request →
      found_at (w_registered w) (pr_destination request) Single = None → refreshed (w_routes w) view →
      may_answer = true → view (pr_destination request) = Some (route, r) → loops request route = false → r ≠ Unresponsive →
      is_attached (fw_receiving_interface route) = true →
      p_active (w_plan w) !! pr_destination request = None → Z.of_nat (size (p_active (w_plan w))) = queue_cap →
      classified w (PathResponseScheduleRejected (pr_destination request) QueueFull) (noted_request w request view)
  | Unanswered request view silent o w' : parse_path_request payload = Done (Ok request) → ¬ asked_before w request →
      found_at (w_registered w) (pr_destination request) Single = None → refreshed (w_routes w) view →
      unavailable view request silent → forwarded (noted_request w request view) request silent o w' → classified w o w'.
End classified.

Lemma fifo_push_last cap q x : 0 < cap → x ∈ fifo_push cap q x.
Proof.
  intros Hcap. unfold fifo_push. rewrite drop_app_le by lia. apply elem_of_app. right. by apply list_elem_of_singleton.
Qed.

(** ** The state as maps *)

Section refinement.
Context {SE U S L E C Q : Type} {HSE : Seen.SeenPathRequestTable SE} {HU : UpstreamAppDestinationTable U} {HS : RouteSource S}
  {HL : RowTable limit_row L} {HE : RowTable limit_row E} {HC : DueTable InterfaceId C} {HQ : AnnounceRows Q}.
Context {LSE : SeenLaws SE} {LU : UpstreamTableLaws U} {LS : RouteSourceLaws S} {LHL : RowTableLaws limit_row L} {LHE : RowTableLaws limit_row E}
  {LC : DueTableLaws (H := timeouts) InterfaceId C} {LQ : AnnounceRowsLaws Q}.
Abbreviation state := (IngressState SE U S L E C Q).
Context (known : list InterfaceId) (seen_cap : nat) (registry_cap limit_cap egress_cap flight_cap queue_cap : Z).
Implicit Types (s : state) (w : ingress_view) (request : PathRequest).

Record ingress_ok s w : Prop := {
  io_seen : sn_rep (is_seen s) seen_cap (w_seen w);
  io_registered : holds (is_upstream s) registry_cap (w_registered w);
  io_routes : src_rep (is_routes s) (w_routes w);
  io_limits : ∃ rows, row_rep (is_limits s) limit_cap rows ∧ fits PathRequestLimit.interface known limit_cap rows
    ∧ ∀ j, w_limits w j = find_key PathRequestLimit.interface j rows;
  io_egress : ∃ rows, row_rep (is_egress_limits s) egress_cap rows ∧ ∀ j, w_egress w j = find_key PathRequestLimit.interface j rows;
  io_flights : ∃ rows, Forwarded.forwards (is_recursive s) flight_cap rows ∧ w_flights w = Forwarded.in_flight rows;
  io_plan : ∃ rows, planned (is_announces s) queue_cap rows (w_plan w);
}.

(** The queue has room for the destination, or is full and the destination is not in it. *)
Definition queue_ready (p : plan) (d : DestinationHash) : Prop :=
  (∃ universe, plan_ok universe p ∧ d ∈ universe ∧ (Z.of_nat (length universe) ≤ queue_cap `min` u32_max)%Z)
  ∨ (p_active p !! d = None ∧ Z.of_nat (size (p_active p)) = queue_cap ∧ (queue_cap ≤ u32_max)%Z).

Section one_request.
Context (source : InterfaceId) (now : Z) (interfaces : AttachedInterfaces).

Lemma boundary_agrees s : forwards_across_boundary s interfaces source = crosses_boundary (is_transport s) source interfaces.
Proof.
  unfold forwards_across_boundary, crosses_boundary. destruct (network_transport_enabled _); [|done]. cbn.
  by destruct (recursive_policy interfaces source).
Qed.

Lemma outcome_agrees s request :
  forwarding_outcome s request source (from_local_client source) interfaces
  = audience_of (is_transport s) (is_recursive_default s) source interfaces request.
Proof. unfold forwarding_outcome, audience_of. by rewrite boundary_agrees. Qed.

Lemma eligible_bitrates_ok (eligible : InterfaceDescriptor → run bool) (f : InterfaceDescriptor → bool) ifs :
  (∀ d, eligible d = Done (f d)) → eligible_bitrates ifs eligible = Done (d_bitrate <$> List.filter (λ d, allows_transmit (d_capabilities d) && f d) ifs).
Proof.
  intros Hf. induction ifs as [|d ifs IH]; [done|]. cbn [eligible_bitrates List.filter]. rewrite Hf, IH.
  destruct (allows_transmit (d_capabilities d)); cbn; [|done]. by destruct (f d).
Qed.

Lemma slowest_ok s w audience :
  ingress_ok s w →
  slowest_asked s source audience now interfaces
  = Done (audience ≫= λ audience, minimum (d_bitrate <$> List.filter (asked_on w source audience now) interfaces)).
Proof.
  intros Hok. destruct (io_egress s w Hok) as (rows & Hr & Hw). unfold slowest_asked. destruct audience as [audience|]; [|done].
  rewrite (eligible_bitrates_ok _ (λ d, path_request_egress_eligible d (Some source) audience && (is_local_clients audience || negb (egress_limited w now d)))).
  - cbn [mbind run_bind option_bind]. do 3 f_equal. clear. induction interfaces as [|d ifs IH]; [done|]. cbn. unfold asked_on. rewrite <- andb_assoc. by rewrite IH.
  - intros d. destruct (path_request_egress_eligible d (Some source) audience); [|done]. destruct (is_local_clients audience); [done|].
    unfold PathRequestLimit.should_egress_limit, egress_limited. rewrite Hw, (row_list_ok _ _ _ Hr).
    destruct (ec_enabled _); [|done]. cbn. by destruct (find_key _ _ rows).
Qed.

Lemma limit_ok s w :
  ingress_ok s w → source ∈ known →
  ∃ limited s' limits,
    (if forwards_recursively s interfaces source || forwards_across_boundary s interfaces source then
       '(limited, limits) ← PathRequestLimit.record_and_should_limit_with_policy (is_limits s) source now (source_policy source interfaces);
       Done (limited, with_limits s limits)
     else Done (false, s)) = Done (limited, s')
    ∧ ingress_ok s' (mkIngressView (w_seen w) (w_registered w) (w_routes w) limits (w_egress w) (w_flights w) (w_plan w))
    ∧ counted_at_source (is_transport s) (is_recursive_default s) source now interfaces (w_limits w) limited limits
    ∧ is_transport s' = is_transport s ∧ is_recursive_default s' = is_recursive_default s.
Proof.
  intros Hok Hk. rewrite boundary_agrees. change (forwards_recursively s interfaces source) with (forwards_for_source (is_transport s) (is_recursive_default s) source interfaces).
  destruct (_ || _) eqn:Ef.
  2: { exists false, s, (w_limits w). split; [done|]. split; [by destruct Hok|]. split; [by apply NotCounted|done]. }
  destruct (io_limits s w Hok) as (rows & Hr & Hf & Hw).
  destruct (PathRequests.path_request_step (is_limits s) known limit_cap rows (PathRequests.Requested source now (source_policy source interfaces)) Hr Hf Hk)
    as (t' & rows' & Ed & (Hr' & Hf' & Hu)). cbn [PathRequests.op_do PathRequests.op_interface] in *.
  destruct (PathRequestLimit.record_and_should_limit_with_policy _ _ _ _) as [[limited t1]| |]; [|done..]. cbn [mbind run_bind] in *.
  destruct (PathRequests.row_step _ _) as [answer row] eqn:Es. cbn [fst snd] in *. injection Ed as <- <-.
  exists limited, (with_limits s t1), (λ j, find_key PathRequestLimit.interface j rows'). split; [done|]. split; [|split; [|done]].
  - destruct Hok as [H1 H2 H3 _ H5 H6 H7]. split; [exact H1|exact H2|exact H3| |exact H5|exact H6|exact H7]. by exists rows'.
  - eapply Counted; [done|rewrite Hw; exact Es|]. intros j. by rewrite Hu, Hw.
Qed.

Lemma begin_ok s w d expires_at :
  ingress_ok s w → (Z.of_nat (size (w_flights w)) < u32_max)%Z →
  (is_Some (w_flights w !! d) ∧ ∃ recursive, Recursive.begin (is_recursive s) d source expires_at = Done (Recursive.AlreadyInFlight, recursive)
     ∧ ingress_ok (with_recursive s recursive) w)
  ∨ (w_flights w !! d = None ∧ ∃ recursive flights, Recursive.begin (is_recursive s) d source expires_at = Done (Recursive.Opened, recursive)
     ∧ Forwarded.forward_step flight_cap (w_flights w) (Forwarded.Begin d source expires_at) (Forwarded.Began Recursive.Opened) flights
     ∧ ingress_ok (with_recursive s recursive) (mkIngressView (w_seen w) (w_registered w) (w_routes w) (w_limits w) (w_egress w) flights (w_plan w))).
Proof.
  intros Hok Hsize. destruct (io_flights s w Hok) as (rows & Hf & Ew). rewrite Ew in *. rewrite Forwarded.in_flight_size in Hsize by apply Hf.
  destruct (Forwarded.forward_op_ok (is_recursive s) flight_cap rows (Forwarded.Begin d source expires_at) Hf ltac:(done) Hsize) as (a & p' & rows' & Ed & Hf' & Hstep & _).
  cbn [Forwarded.op_do] in Ed. destruct (Recursive.begin _ _ _ _) as [[o p1]| |]; [|done..]. cbn [mbind run_bind] in Ed. injection Ed as <- <-.
  assert (Hnew : ∀ flights, flights = Forwarded.in_flight rows' →
    ingress_ok (with_recursive s p1) (mkIngressView (w_seen w) (w_registered w) (w_routes w) (w_limits w) (w_egress w) flights (w_plan w))).
  { intros flights ->. destruct Hok as [H1 H2 H3 H4 H5 _ H7]. split; [exact H1|exact H2|exact H3|exact H4|exact H5| |exact H7]. by exists rows'. }
  destruct (Forwarded.in_flight rows !! d) as [f|] eqn:Ed.
  - left. split; [by eexists|]. exists p1. inversion Hstep; subst; try congruence.
    + split; [done|]. replace w with (mkIngressView (w_seen w) (w_registered w) (w_routes w) (w_limits w) (w_egress w) (w_flights w) (w_plan w)) by (by destruct w).
      apply Hnew. congruence.
    + match goal with H : _ = ∅ |- _ => rewrite H in Ed end. by rewrite lookup_empty in Ed.
  - right. split; [done|]. exists p1, (Forwarded.in_flight rows').
    assert (o = Recursive.Opened) as -> by (inversion Hstep as [? ? ? Hs| | | | |]; [destruct Hs; congruence|done..]).
    split; [done|]. split; [exact Hstep|by apply Hnew].
Qed.

(** What becomes of a request that cannot be answered. *)
Lemma forward_ok s w request :
  ingress_ok s w → source ∈ known → (Z.of_nat (size (w_flights w)) < u32_max)%Z →
  ∃ o s' w', forward_unavailable_path_request s request source (from_local_client source) now interfaces = Done (o, s')
    ∧ ingress_ok s' w' ∧ forwarded (is_transport s) (is_recursive_default s) flight_cap source now interfaces w request false o w'.
Proof.
  intros Hok Hk Hsize. unfold forward_unavailable_path_request.
  destruct (limit_ok s w Hok Hk) as (limited & s1 & limits & El & Hok1 & Hcount & Et & Er). unfold source_policy in El.
  rewrite El. cbn [mbind run_bind]. destruct limited.
  { eexists _, s1, _. split; [done|]. split; [exact Hok1|by apply TooMany]. }
  rewrite outcome_agrees, Et, Er. destruct (audience_of _ _ _ _ request) as [[o audience]|] eqn:Ea.
  2: { eexists _, s1, _. split; [done|]. split; [exact Hok1|by apply (Nobody _ _ _ _ _ _ _ _ false limits)]. }
  set (w1 := mkIngressView _ _ _ limits _ _ _) in Hok1.
  rewrite (slowest_ok s1 w1 audience Hok1). cbn [mbind run_bind].
  fold (flight_expiry w1 source audience now interfaces). change (flight_expiry w1 source audience now interfaces) with (flight_expiry w source audience now interfaces).
  destruct (begin_ok s1 w1 (pr_destination request) (flight_expiry w source audience now interfaces) Hok1 Hsize)
    as [(Hin & r & -> & Hok2)|(Hnone & r & flights & -> & Hstep & Hok2)]; cbn [mbind run_bind].
  - eexists _, _, w1. split; [done|]. split; [exact Hok2|]. by eapply InFlight.
  - eexists _, _, (mkIngressView (w_seen w) (w_registered w) (w_routes w) limits (w_egress w) flights (w_plan w)). split; [done|].
    split; [exact Hok2|]. by eapply Asked.
Qed.

(** A route that went silent is reported instead of none. *)
Lemma forwarded_silent transport recursive_default w request o w' :
  forwarded transport recursive_default flight_cap source now interfaces w request false o w' →
  forwarded transport recursive_default flight_cap source now interfaces w request true
    (match o with Ignored NotForUs => Ignored RouteUnresponsive | o => o end) w'.
Proof.
  intros [limits Hc|limits Hc Ha|limits o' audience Hc Ha Hf|limits o' audience flights Hc Ha Hf Hs].
  - by apply TooMany.
  - by apply (Nobody _ _ _ _ _ _ _ _ true limits).
  - by eapply InFlight.
  - assert (Ho : (match o' with Ignored NotForUs => Ignored RouteUnresponsive | o => o end) = o').
    { unfold audience_of in Ha. by repeat case_match; simplify_eq. }
    rewrite Ho. by eapply Asked.
Qed.

Lemma schedule_answer_ok s w d due_at hops :
  ingress_ok s w → queue_ready (w_plan w) d →
  (∃ outcome q, schedule_directed (is_announces s) d due_at source hops = Done (outcome, q)
     ∧ (outcome = AnnounceSchedule.Inserted ∨ outcome = AnnounceSchedule.Updated)
     ∧ ingress_ok (with_announces s q) (with_plan w (plan_answer (w_plan w) ANNOUNCE_WITH_RETRY_INITIAL_EMISSION_COUNT d due_at source hops).2))
  ∨ (p_active (w_plan w) !! d = None ∧ Z.of_nat (size (p_active (w_plan w))) = queue_cap
     ∧ ∃ q, schedule_directed (is_announces s) d due_at source hops = Done (AnnounceSchedule.Rejected QueueFull, q)
       ∧ ingress_ok (with_announces s q) w).
Proof.
  intros Hok Hready. destruct (io_plan s w Hok) as (rows & Hp). unfold schedule_directed.
  assert (Hnew : ∀ q rows' p, planned q queue_cap rows' p → ingress_ok (with_announces s q) (with_plan w p)).
  { intros q rows' p Hq. destruct Hok as [H1 H2 H3 H4 H5 H6 _]. split; [exact H1|exact H2|exact H3|exact H4|exact H5|exact H6|]. by exists rows'. }
  destruct Hready as [(universe & Hpok & Hd & Hroom)|(Hn & Hfull & Hcap)].
  - left. destruct (answer_step universe queue_cap Hroom (is_announces s) rows (w_plan w) ANNOUNCE_WITH_RETRY_INITIAL_EMISSION_COUNT d due_at source hops Hp Hpok Hd)
      as (q & rows' & Es & Hq). cbn [op_do] in Es. destruct (schedule_directed_with _ _ _ _ _ _) as [[outcome q1]| |]; [|done..]. cbn [mbind run_bind] in Es.
    injection Es as Eo <-. exists outcome, q1. split; [done|]. split; [|by eapply Hnew]. unfold planned_outcome in Eo. case_bool_decide; subst outcome; auto.
  - right. split; [done|]. split; [done|]. pose proof Hp as [Hr Hnd Hndh He Ep]. rewrite Ep in Hn, Hfull. cbn in Hn, Hfull. rewrite entries_size in Hfull by done.
    destruct (answer_refused queue_cap (is_announces s) rows (w_plan w) ANNOUNCE_WITH_RETRY_INITIAL_EMISSION_COUNT d due_at source hops Hp Hfull Hcap) as (q & -> & Hq).
    { by rewrite Ep. }
    exists q. split; [done|]. replace w with (with_plan w (w_plan w)) by (by destruct w). by eapply Hnew.
Qed.

Lemma seen_ok s w request :
  ingress_ok s w →
  (asked_before w request ∧ ∃ seen, Seen.observe (is_seen s) (pr_destination request) (pr_id request) = Done (Seen.Duplicate, seen)
     ∧ ingress_ok (with_seen s seen) w)
  ∨ (¬ asked_before w request ∧ ∃ seen, Seen.observe (is_seen s) (pr_destination request) (pr_id request) = Done (Seen.Fresh, seen)
     ∧ ingress_ok (with_seen s seen) (noted_request seen_cap w request (w_routes w))).
Proof.
  intros Hok. destruct (observe_ok (is_seen s) seen_cap (w_seen w) (pr_destination request) (pr_id request) (io_seen s w Hok)) as (seen & -> & Hs).
  unfold fifo_observe in *. unfold asked_before. destruct Hok as [_ H2 H3 H4 H5 H6 H7].
  case_decide; [left|right]; (split; [done|]); exists seen; (split; [done|]); by split.
Qed.

Lemma refresh_routes_ok s w :
  ingress_ok s w → ∃ routes view, src_reconcile (is_routes s) = Done routes ∧ refreshed (w_routes w) view
    ∧ ingress_ok (with_routes s routes) (mkIngressView (w_seen w) (w_registered w) view (w_limits w) (w_egress w) (w_flights w) (w_plan w)).
Proof.
  intros Hok. destruct (src_reconcile_ok (is_routes s) (w_routes w) (io_routes s w Hok)) as (routes & view & E1 & Hr & Hv).
  exists routes, view. split; [done|]. split; [done|]. destruct Hok as [H1 H2 _ H4 H5 H6 H7]. by split.
Qed.

(** A request that is neither repeated nor for a destination of ours, on refreshed routes. *)
Lemma route_ok s w request :
  ingress_ok s w → source ∈ known → (Z.of_nat (size (w_flights w)) < u32_max)%Z → queue_ready (w_plan w) (pr_destination request) →
  ∃ o s' w', (held_route ← (if network_transport_enabled (is_transport s) || from_local_client source
                            then src_forwarding_route_for (is_routes s) (pr_destination request) else Done None);
      answer_with_route s request source (from_local_client source) now interfaces held_route) = Done (o, s')
    ∧ ingress_ok s' w'
    ∧ ((∃ route r, may_answer (is_transport s) source = true ∧ w_routes w (pr_destination request) = Some (route, r)
          ∧ (loops source interfaces request route = true ∧ o = Ignored LoopPrevented ∧ w' = w
             ∨ loops source interfaces request route = false ∧ r ≠ Unresponsive ∧ is_attached interfaces (fw_receiving_interface route) = true
               ∧ (o = ScheduledPathResponse (pr_destination request)
                  ∧ w' = with_plan w (plan_answer (w_plan w) ANNOUNCE_WITH_RETRY_INITIAL_EMISSION_COUNT (pr_destination request)
                           (answer_due source now interfaces) source (fw_hops route)).2
                  ∨ o = PathResponseScheduleRejected (pr_destination request) QueueFull ∧ w' = w
                    ∧ p_active (w_plan w) !! pr_destination request = None ∧ Z.of_nat (size (p_active (w_plan w))) = queue_cap)))
       ∨ (∃ silent, unavailable (is_transport s) source interfaces (w_routes w) request silent
            ∧ forwarded (is_transport s) (is_recursive_default s) flight_cap source now interfaces w request silent o w')).
Proof.
  intros Hok Hk Hsize Hready. fold (may_answer (is_transport s) source).
  assert (Hfwd : ∀ silent, unavailable (is_transport s) source interfaces (w_routes w) request silent →
    ∃ o s' w', forward_unavailable_path_request s request source (from_local_client source) now interfaces = Done (o, s')
      ∧ ingress_ok s' w' ∧ forwarded (is_transport s) (is_recursive_default s) flight_cap source now interfaces w request false o w')
    by (intros; by apply forward_ok).
  destruct (may_answer _ _) eqn:Ema.
  2: { destruct (Hfwd false) as (o & s' & w' & Ef & Hok' & Hf); [apply NoRoute; by left|]. exists o, s', w'. cbn [mbind run_bind answer_with_route].
       split; [done|]. split; [done|]. right. exists false. split; [apply NoRoute; by left|done]. }
  rewrite (src_route_ok _ _ _ (io_routes s w Hok)). cbn [mbind run_bind].
  destruct (w_routes w (pr_destination request)) as [[route r]|] eqn:Ev; cbn [fmap option_fmap option_map fst answer_with_route].
  2: { destruct (Hfwd false) as (o & s' & w' & Ef & Hok' & Hf); [apply NoRoute; by right|]. exists o, s', w'.
       split; [done|]. split; [done|]. right. exists false. split; [apply NoRoute; by right|done]. }
  destruct (request_echoes_into_its_own_roaming_segment _ _ _) eqn:E1.
  { eexists _, s, w. split; [done|]. split; [done|]. left. exists route, r. split; [done|]. split; [done|]. left. unfold loops. by rewrite E1. }
  destruct (loops_back_through_requester _ _) eqn:E2.
  { eexists _, s, w. split; [done|]. split; [done|]. left. exists route, r. split; [done|]. split; [done|]. left. unfold loops. by rewrite E1, E2. }
  assert (Hl : loops source interfaces request route = false) by (unfold loops; by rewrite E1, E2).
  rewrite (src_responsiveness_ok _ _ _ (io_routes s w Hok)), Ev. cbn [mbind run_bind fmap option_fmap option_map snd].
  case_bool_decide as Hr.
  { injection Hr as ->. assert (Hu : unavailable (is_transport s) source interfaces (w_routes w) request true) by (by eapply Silent).
    destruct (Hfwd true Hu) as (o & s' & w' & -> & Hok' & Hf). cbn [mbind run_bind]. eexists _, s', w'. split; [done|]. split; [done|].
    right. exists true. split; [done|by apply forwarded_silent]. }
  assert (Hne : r ≠ Unresponsive) by (by intros ->).
  case_bool_decide as Ha.
  { assert (Hu : unavailable (is_transport s) source interfaces (w_routes w) request false).
    { eapply Detached; [done..|]. unfold is_attached. rewrite Ha. by apply bool_decide_false; intros [? ?]. }
    destruct (Hfwd false Hu) as (o & s' & w' & Ef & Hok' & Hf). exists o, s', w'. split; [done|]. split; [done|]. right. by exists false. }
  assert (Hat : is_attached interfaces (fw_receiving_interface route) = true) by (unfold is_attached; by apply bool_decide_true, not_eq_None_Some).
  fold (answer_due source now interfaces).
  destruct (schedule_answer_ok s w (pr_destination request) (answer_due source now interfaces) (fw_hops route) Hok Hready)
    as [(outcome & q & -> & Ho & Hok')|(Hn & Hfull & q & -> & Hok')]; cbn [mbind run_bind]; eexists _, _, _; (split; [done|]); (split; [exact Hok'|]);
    left; exists route, r; (split; [done|]); (split; [done|]); right; (split; [done|]); (split; [done|]); (split; [done|]).
  - left. split; [|done]. by destruct Ho as [->| ->].
  - by right.
Qed.
End one_request.

Lemma classification s w (payload : list Z) (source : InterfaceId) (now : Z) (interfaces : AttachedInterfaces) :
  ingress_ok s w → source ∈ known → (Z.of_nat (size (w_flights w)) < u32_max)%Z →
  (∀ request, parse_path_request payload = Done (Ok request) → queue_ready (w_plan w) (pr_destination request)) →
  ∃ o s' w', classify_path_request s payload source now interfaces = Done (o, s') ∧ ingress_ok s' w'
    ∧ classified (is_transport s) (is_recursive_default s) seen_cap flight_cap queue_cap payload source now interfaces w o w'.
Proof.
  intros Hok Hk Hsize Hready. unfold classify_path_request.
  destruct (parse_path_request payload) as [[request|e]| |] eqn:Ep; [|by eexists _, s, w; split; [done|]; split; [done|]; eapply Unreadable|
    by rewrite parse_path_request_total in Ep; repeat case_match..].
  cbn [mbind run_bind]. specialize (Hready request eq_refl).
  destruct (seen_ok s w request Hok) as [(Hbefore & seen & -> & Hok1)|(Hfresh & seen & -> & Hok1)]; cbn [mbind run_bind].
  { eexists _, _, w. split; [done|]. split; [exact Hok1|by eapply Repeated]. }
  destruct (io_registered _ _ Hok1) as (rows & Hr & Hnd & Em). cbn [w_registered noted_request is_upstream with_seen] in *.
  rewrite (lookup_ok _ _ rows (pr_destination request) Single Hr Hnd), <- Em. cbn [mbind run_bind].
  destruct (found_at (w_registered w) (pr_destination request) Single) as [r|] eqn:Ef; cbn [fmap option_fmap option_map].
  { rewrite bool_decide_true by done. eexists _, _, _. split; [done|]. split; [exact Hok1|by eapply OneOfOurs]. }
  rewrite bool_decide_false by (by intros [? ?]).
  destruct (refresh_routes_ok _ _ Hok1) as (routes & view & -> & Href & Hok2). cbn [mbind run_bind w_routes noted_request] in *.
  fold (from_local_client source). change (ingress_ok (with_routes (with_seen s seen) routes) (noted_request seen_cap w request view)) in Hok2.
  destruct (route_ok source now interfaces _ _ request Hok2 Hk Hsize Hready) as (o & s' & w' & E1 & Hok' & Hcase).
  exists o, s', w'. split; [exact E1|]. split; [done|]. cbn [w_routes w_plan noted_request is_transport is_recursive_default with_routes with_seen] in Hcase.
  destruct Hcase as [(route & r & Hma & Hv & [(Hl & -> & ->)|(Hl & Hne & Hat & [(-> & ->)|(-> & -> & Hn & Hfull)])])|(silent & Hu & Hf)].
  - by eapply Loops.
  - by eapply Answered.
  - by eapply QueueRefused.
  - by eapply Unanswered.
Qed.

(** C19. A path request is classified as the maps say.  Whatever tables keep the state, a call of the handler returns,
    keeps every part of the state well formed, and is one of the steps of [classified]: a request seen before changes
    nothing; one for a destination of ours is answered; one whose route leads back to who asks is dropped; one with a
    usable route schedules the announce of the destination, addressed to the interface that asked, after a grace of
    400 ms, 1900 ms on a roaming interface, or at once for a local client; every other one is forwarded to its
    audience, once for each destination until an answer or the timeout, unless its source asks too often or nobody is
    to be asked. *)
Theorem path_requests_are_classified s w (payload : list Z) (source : InterfaceId) (now : Z) (interfaces : AttachedInterfaces) :
  ingress_ok s w → source ∈ known → (Z.of_nat (size (w_flights w)) < u32_max)%Z →
  (∀ request, parse_path_request payload = Done (Ok request) → queue_ready (w_plan w) (pr_destination request)) →
  ∃ o s' w', classify_path_request s payload source now interfaces = Done (o, s') ∧ ingress_ok s' w'
    ∧ classified (is_transport s) (is_recursive_default s) seen_cap flight_cap queue_cap payload source now interfaces w o w'.
Proof. apply classification. Qed.

(** A request is handled once.  Whatever a readable request came to, the same request arriving again, at any time
    and from any interface, is a duplicate, and leaves the state as it is. *)
Theorem a_request_is_handled_once s w (payload : list Z) (source : InterfaceId) (now : Z) (interfaces : AttachedInterfaces) request
    (source2 : InterfaceId) (now2 : Z) (interfaces2 : AttachedInterfaces) :
  ingress_ok s w → source ∈ known → (Z.of_nat (size (w_flights w)) < u32_max)%Z → 0 < seen_cap →
  parse_path_request payload = Done (Ok request) → queue_ready (w_plan w) (pr_destination request) →
  ∃ o s' w' s'', classify_path_request s payload source now interfaces = Done (o, s')
    ∧ classify_path_request s' payload source2 now2 interfaces2 = Done (Ignored DuplicateRequest, s'')
    ∧ ingress_ok s' w' ∧ ingress_ok s'' w'.
Proof.
  intros Hok Hk Hsize Hcap Hparse Hready.
  destruct (classification s w payload source now interfaces Hok Hk Hsize) as (o & s' & w' & E1 & Hok' & Hc).
  { intros r Hr. rewrite Hparse in Hr. by injection Hr as <-. }
  assert (Hseen : asked_before w' request).
  { assert (Hnew : (pr_destination request, pr_id request) ∈ fifo_push seen_cap (w_seen w) (pr_destination request, pr_id request))
      by (by apply fifo_push_last).
    destruct Hc as [e Hp|r Hp Hb|r x Hp|r view route x Hp|r view route x Hp|r view route x Hp|r view silent o' w' Hp _ _ _ _ Hf];
      rewrite Hparse in Hp; try discriminate Hp; injection Hp as <-; try done. destruct Hf; exact Hnew. }
  destruct (seen_ok s' w' request Hok') as [(_ & seen & Eo & Hok2)|(Hn & _)]; [|done].
  exists o, s', w', (with_seen s' seen). split; [done|]. split; [|done]. unfold classify_path_request. rewrite Hparse. cbn [mbind run_bind]. by rewrite Eo.
Qed.
End refinement.
