(* ===== verification/IngressSample.v ===== *)
(** The theorems on links, routes and path requests on a concrete engine: the sample routing table of one route, a
    link that heard from it, and empty stores for the rest. *)

From stdpp Require Import gmap.
From S2P Require Import LemireIndex AppData Prelude Wire Dedup Columns KeyedMap Evidence Routes RoutesIndexed Announce Acceptance ChannelTable Interfaces Lifetime Timing RowTable DueTable InterfaceLimits InterfaceLimitsProofs AnnounceSchedule AnnounceScheduleRows AnnounceSchedulePlan Links LinksInvariant LinksHeap RoutingTable RoutingTableInvariant RoutingTableQueries RoutingTableEvidence RoutingTableSample LinkEvidence PathRequests PathRequestsProofs PathRequestWire Upstream UpstreamRegistry PathRequestIngress PathRequestIngressProofs.

(** A link over the route of [dest_1] that heard from its peer at 5000. *)
Definition sample_link : ActiveLink :=
  mkActive (replicate 64 1%Z) (Initiator (replicate 32 8%Z)) 100 500 iface_a 5000 4000 4000 360000 (replicate 32 9%Z) None AcceptNone None None
    (Some (mkHandle 1%Z 0%Z)) true.
Definition sample_links : Links HeapLinkTable :=
  match lt_push heap_links_default (replicate 16 5%Z) (Active sample_link) None with Done (_, t) => mkLinks t None | _ => mkLinks heap_links_default None end.
Definition sample_link_row : LinkRow := mkLinkRow (replicate 16 5%Z) None (Active sample_link).

Lemma sample_links_rep : lt_rep (Links.table sample_links) unbounded [sample_link_row].
Proof.
  pose proof (lt_push_ok heap_links_default unbounded [] (replicate 16 5%Z) (Active sample_link) None (lo_table _ _ _ heap_links_default_ok)
    ltac:(constructor) ltac:(apply not_elem_of_nil) ltac:(by vm_compute)) as H.
  cbn [length unbounded] in H. destruct H as (t' & E & Hr). unfold sample_links. rewrite E. exact Hr.
Qed.

Lemma sample_handle_valid : Forall (handles_valid routes_1) [sample_link_row].
Proof.
  constructor; [|constructor]. cbn. split; [by vm_compute|]. intros r s Hr _. left. destruct r as [|r]; [by vm_compute|]. by destruct r.
Qed.

(** The route becomes responsive, last active at 5000; before, it was unknown. *)
Lemma link_evidence_reaches_routes_witness :
  responsiveness_of table_1 dest_1 = Done (Some Unknown)
  ∧ ∃ changed l' t', reconcile_pending_link_route_evidence sample_links table_1 = Done (changed, l', t')
    ∧ changed = 1 ∧ responsiveness_of t' dest_1 = Done (Some Responsive)
    ∧ ∃ v', table_ok attached no_warmth 2 2 2 t' v'
        ∧ v' !! 0 = Some (set_entry (heard_at 5000 (sr_entry (seeded_route 2 row_1 1%Z 0))) (seeded_route 2 row_1 1%Z 0)).
Proof.
  split; [vm_compute; reflexivity|].
  destruct (link_evidence_reaches_routes sample_links unbounded [sample_link_row] table_1 routes_1 sample_links_rep table_1_ok)
    as (changed & l' & rows' & t' & v' & E & _ & _ & _ & _ & Hok & _ & Hroutes).
  - apply NoDup_singleton.
  - exact sample_handle_valid.
  - exists changed, l', t'. split; [exact E|]. pose proof E as E'. vm_compute in E'. injection E' as <- <- <-.
    split; [reflexivity|]. split; [vm_compute; reflexivity|]. exists v'. split; [exact Hok|]. exact (Hroutes 0 _ eq_refl).
Defined.

(** * An engine *)

#[local] Existing Instance timeouts.
#[local] Existing Instance timeouts_laws.

Definition sample_engine_routes := mkEngineRoutes sample_links table_1.
Definition sample_state :=
  mkIngressState (Identified (replicate 16 9%Z) NetworkEnabled) NotByDefault (Seen.fixed_seen_default (MAX_SEEN_PATH_REQUESTS := 2))
    heap_upstream_default sample_engine_routes ([] : list limit_row) ([] : list limit_row)
    (Recursive.mkRecursive (heap_due_default (V := InterfaceId)) None) heap_queue_default.
Definition iface_b : InterfaceId := replicate 8 2%Z.

Definition sample_view : ingress_view :=
  mkIngressView [] ∅ (view_of routes_1) (λ _, None) (λ _, None) ∅ (mkPlan ∅ ∅).

#[local] Abbreviation two_seen := (Seen.fixed_seen (MAX_SEEN_PATH_REQUESTS := 2)).
#[local] Abbreviation sample_laws := (engine_route_laws (LL := heap_links_laws) attached no_warmth 2 2 2).
#[local] Abbreviation sample_ok := (ingress_ok (HSE := two_seen) (LSE := fixed_seen_laws (MAX := 2)) (LS := sample_laws) [iface_b] 2 usize_max usize_max usize_max usize_max usize_max).

Lemma sample_state_ok : sample_ok sample_state sample_view.
Proof.
  split.
  - exact (fixed_seen_default_rep (MAX := 2)).
  - exists []. split; [exact heap_upstream_default_rep|]. split; [constructor|reflexivity].
  - exists unbounded, [sample_link_row], routes_1. split; [exact sample_links_rep|]. split; [exact table_1_ok|]. split; [apply NoDup_singleton|].
    split; [exact sample_handle_valid|done].
  - exists []. split; [split; [done|]; split; [done|by vm_compute]|]. split; [|done]. split; [constructor|apply list_subseteq_nil|apply NoDup_singleton|by vm_compute].
  - exists []. split; [split; [done|]; split; [done|by vm_compute]|done].
  - exists []. split; [|reflexivity]. split; [exact heap_due_default_rep|constructor|reflexivity].
  - exists []. split; [exact heap_queue_default_rep|constructor|constructor|reflexivity|reflexivity].
Qed.

Definition sample_payload (d : DestinationHash) : list Z := d ++ replicate 16 3%Z.

Lemma sample_queue_ready d : queue_ready usize_max (mkPlan ∅ ∅) d.
Proof.
  left. exists [d]. split; [split; cbn; [apply map_Forall_empty|apply map_Forall_empty|by intros d' r []]|]. split; [by left|by vm_compute].
Qed.

(** A request for the known destination is answered 400 ms later, as the link made its route responsive; one for another
    destination, on a full-mode interface, is not ours. *)
Lemma path_requests_are_classified_witness :
  ∃ o s' w', classify_path_request (HSE := two_seen) sample_state (sample_payload dest_1) iface_b 6000 attached = Done (o, s')
    ∧ sample_ok s' w' ∧ o = ScheduledPathResponse dest_1 ∧ earliest_due_at (is_announces s') = Some 6400%Z
    ∧ (∃ s2, classify_path_request (HSE := two_seen) sample_state (sample_payload dest_2) iface_b 6000 attached = Done (Ignored NotForUs, s2)).
Proof.
  destruct (path_requests_are_classified (HSE := two_seen) (LSE := fixed_seen_laws (MAX := 2)) (LS := sample_laws) [iface_b] 2 usize_max usize_max usize_max usize_max
    usize_max sample_state sample_view (sample_payload dest_1) iface_b 6000 attached) as (o & s' & w' & E & Hok & _).
  - exact sample_state_ok.
  - by left.
  - by vm_compute.
  - intros request _. apply sample_queue_ready.
  - exists o, s', w'. split; [exact E|]. split; [exact Hok|]. vm_compute in E. injection E as <- <-. split; [reflexivity|]. split; [vm_compute; reflexivity|].
    eexists. vm_compute. reflexivity.
Defined.

(** The same request from another interface. *)
Lemma a_request_is_handled_once_witness :
  ∃ o s' s'', classify_path_request (HSE := two_seen) sample_state (sample_payload dest_1) iface_b 6000 attached = Done (o, s')
    ∧ classify_path_request (HSE := two_seen) s' (sample_payload dest_1) iface_a 6001 attached = Done (Ignored DuplicateRequest, s'').
Proof.
  destruct (a_request_is_handled_once (HSE := two_seen) (LSE := fixed_seen_laws (MAX := 2)) (LS := sample_laws) [iface_b] 2 usize_max usize_max usize_max usize_max
    usize_max sample_state sample_view (sample_payload dest_1) iface_b 6000 attached (mkPathRequest dest_1 None (replicate 16 3%Z)) iface_a 6001 attached)
    as (o & s' & w' & s'' & E1 & E2 & _).
  - exact sample_state_ok.
  - by left.
  - by vm_compute.
  - lia.
  - vm_compute. reflexivity.
  - apply sample_queue_ready.
  - exists o, s', s''. split; [exact E1|exact E2].
Defined.
