(* ===== verification/ReverseRoutes.v ===== *)
(** The ways back: [routing/reverse_routes/], where relayed packets came from, so that their proofs return.

    The table is one of those of [DueTable]; its two columns of interfaces are one column of pairs here. *)

From S2P Require Import Prelude Columns Routes ChannelTable Lifetime DueTable PathRequests.

#[local] Existing Instance timeouts.
#[local] Existing Instance timeouts_laws.

Definition DEFAULT_REVERSE_ROUTE_TIMEOUT_MS : Z := (8 * 60 * 1000)%Z.

Record ReverseRoute := mkReverse { rv_received_interface : InterfaceId; rv_outbound_interface : InterfaceId }.
(** The key is the destination proofs are sent to. *)
Abbreviation ReverseRouteEntry := (DueRow ReverseRoute).

Section operations.
Context {T : Type} `{DueTable ReverseRoute T}.

Definition reverse_evict_expired (t : T) (now : Z) : run T := cull t now.
Definition reverse_evict_soonest_expiring (t : T) : run T := evict_earliest t.

Definition reverse_remember (t : T) (entry : ReverseRouteEntry) (now : Z) : run T :=
  t ← reverse_evict_expired t now;
  t ← (if (du_capacity t <=? Z.of_nat (du_len t))%Z then reverse_evict_soonest_expiring t else Done t);
  '(_, t) ← du_push t entry;
  Done t.

Definition reverse_take (t : T) (proof_destination : DestinationHash) (now : Z) : run (option ReverseRoute * T) :=
  found ← du_index_of t proof_destination;
  match found with
  | None => Done (None, t)
  | Some i =>
      ats ← du_ats t;
      at_ ← index ats i;
      let expired := (at_ <=? now)%Z in
      values ← du_values t;
      route ← index values i;
      t ← du_swap_remove t i;
      Done (if expired then None else Some route, t)
  end.

Fixpoint cull_orphans_loop (fuel : nat) (t : T) (i : nat) (interface_present : InterfaceId → bool) : run T :=
  match fuel with
  | O => OutOfFuel
  | S fuel =>
      if (i <? du_len t)%nat then
        values ← du_values t;
        route ← index values i;
        if interface_present (rv_received_interface route) && interface_present (rv_outbound_interface route)
        then cull_orphans_loop fuel t (S i) interface_present
        else t ← du_swap_remove t i; cull_orphans_loop fuel t i interface_present
      else Done t
  end.
Definition cull_interface_orphans (t : T) (interface_present : InterfaceId → bool) : run T :=
  cull_orphans_loop (S (du_len t)) t 0 interface_present.
End operations.

(** * What they do to the rows *)

Section lemmas.
Context {T : Type} `{!DueTable ReverseRoute T} `{!DueTableLaws ReverseRoute T}.
Implicit Types (t : T) (rows : list ReverseRouteEntry).

Lemma remember_ok t cap rows entry now :
  du_rep t cap rows → is_u64 now → (Z.of_nat (length rows) < u32_max)%Z →
  ∃ t' live gone rest, reverse_remember t entry now = Done t' ∧ du_rep t' cap (pushed cap rest entry)
    ∧ live ≡ₚ filter (λ r, (du_at r <=? now)%Z = false) rows ∧ room_made cap live gone rest.
Proof.
  intros Hr Hn Hmax. unfold reverse_remember, reverse_evict_expired, reverse_evict_soonest_expiring.
  destruct (cull_ok t cap rows now Hr Hn) as (t1 & live & -> & Hr1 & Hp). cbn [mbind run_bind].
  destruct (room_ok t1 cap live Hr1) as (t2 & gone & rest & -> & Hr2 & Hroom). cbn [mbind run_bind].
  assert (Hlen : length live ≤ length rows) by (rewrite Hp; apply length_filter).
  destruct (push_ok t2 cap live gone rest entry Hr2 Hroom) as (i & t3 & -> & Hr3 & _); [by apply (du_capacity_ok t1)|lia|].
  cbn [mbind run_bind]. by exists t3, live, gone, rest.
Qed.

Lemma take_ok t cap rows d now :
  du_rep t cap rows →
  (∃ i r t', rows !! i = Some r ∧ du_key r = d ∧ du_rep t' cap (swap_removed rows i)
     ∧ reverse_take t d now = Done (if (du_at r <=? now)%Z then None else Some (du_value r), t'))
  ∨ (d ∉ du_key <$> rows) ∧ reverse_take t d now = Done (None, t).
Proof.
  intros Hr. unfold reverse_take. destruct (du_index_of_ok t cap rows d Hr) as [(i & r & -> & Hi & Hk)|[-> Hn]]; cbn [mbind run_bind].
  - left. rewrite (du_ats_ok _ _ _ Hr). cbn [mbind run_bind]. rewrite (index_lookup _ i (du_at r)) by (by rewrite list_lookup_fmap, Hi).
    cbn [mbind run_bind]. rewrite (du_values_ok _ _ _ Hr). cbn [mbind run_bind]. rewrite (index_lookup _ i (du_value r)) by (by rewrite list_lookup_fmap, Hi).
    cbn [mbind run_bind]. destruct (du_swap_remove_ok t cap rows i Hr (lookup_lt_Some _ _ _ Hi)) as (t' & -> & Hr'). cbn [mbind run_bind].
    by exists i, r, t'.
  - by right.
Qed.

Definition orphaned (interface_present : InterfaceId → bool) (r : ReverseRouteEntry) : bool :=
  negb (interface_present (rv_received_interface (du_value r)) && interface_present (rv_outbound_interface (du_value r))).

Lemma cull_orphans_loop_ok fuel t cap rows i present :
  du_rep t cap rows → length rows - i < fuel →
  ∃ t', cull_orphans_loop fuel t i present = Done t' ∧ du_rep t' cap (sweep (orphaned present) fuel i rows).1.
Proof.
  revert t rows i. induction fuel as [|fuel IH]; intros t rows i Hr Hf; [lia|]. cbn [cull_orphans_loop sweep].
  rewrite (du_len_ok _ _ _ Hr). destruct (rows !! i) as [r|] eqn:Hi.
  - pose proof (lookup_lt_Some _ _ _ Hi) as Hlt. rewrite (proj2 (Nat.ltb_lt _ _)) by done.
    rewrite (du_values_ok _ _ _ Hr). cbn [mbind run_bind]. rewrite (index_lookup _ i (du_value r)) by (by rewrite list_lookup_fmap, Hi).
    cbn [mbind run_bind]. unfold orphaned at 1. destruct (_ && _); cbn [negb]; [apply IH; [done|lia]|].
    destruct (du_swap_remove_ok t cap rows i Hr Hlt) as (t' & -> & Hr'). cbn [mbind run_bind fst].
    apply IH; [done|]. rewrite length_swap_removed by done. lia.
  - rewrite (proj2 (Nat.ltb_ge _ _)) by (by apply lookup_ge_None). by exists t.
Qed.

Lemma cull_orphans_ok t cap rows present :
  du_rep t cap rows →
  ∃ t' rows', cull_interface_orphans t present = Done t' ∧ du_rep t' cap rows' ∧ rows' ≡ₚ filter (λ r, orphaned present r = false) rows.
Proof.
  intros Hr. unfold cull_interface_orphans. rewrite (du_len_ok _ _ _ Hr).
  destruct (cull_orphans_loop_ok (S (length rows)) t cap rows 0 present Hr) as (t' & E & Hr'); [lia|].
  eexists t', _. split; [exact E|]. split; [exact Hr'|]. by apply sweep_all.
Qed.

Lemma filter_absent {A} (P : A → Prop) `{∀ x, Decision (P x)} (xs : list A) : (∀ x, x ∈ xs → ¬ P x) → filter P xs = [].
Proof.
  intros HP. induction xs as [|x xs IH]; [done|]. rewrite filter_cons_False by (apply HP; left). apply IH. intros y Hy. apply HP. by right.
Qed.

(** ** A way back stays until its proof comes *)

Inductive reverse_op := Remember (entry : ReverseRouteEntry) (now : Z) | TakeBack (d : DestinationHash) (now : Z) | Orphans (present : InterfaceId → bool).

Definition reverse_do t (op : reverse_op) : run T :=
  match op with
  | Remember entry now => reverse_remember t entry now
  | TakeBack d now => '(_, t) ← reverse_take t d now; Done t
  | Orphans present => cull_interface_orphans t present
  end.
Fixpoint reverse_do_all t (ops : list reverse_op) : run T :=
  match ops with [] => Done t | op :: ops => t ← reverse_do t op; reverse_do_all t ops end.

(** What may happen while the row [r] waits: other packets, other proofs, interfaces of others that go, all before it
    expires. *)
Definition spares (r : ReverseRouteEntry) (op : reverse_op) : Prop :=
  match op with
  | Remember entry now => is_u64 now ∧ (now < du_at r)%Z ∧ du_key entry ≠ du_key r
  | TakeBack d _ => d ≠ du_key r
  | Orphans present => orphaned present r = false
  end.

(** [r] is the only row of its key. *)
Definition waits rows (r : ReverseRouteEntry) : Prop := filter (λ x, du_key x = du_key r) rows ≡ₚ [r].

#[global] Instance waits_proper : Proper ((≡ₚ) ==> (=) ==> iff) waits.
Proof. intros rows rows' Hp r r' <-. unfold waits. by rewrite Hp. Qed.

Lemma waits_filter rows r (P : ReverseRouteEntry → Prop) `{∀ x, Decision (P x)} : waits rows r → P r → waits (filter P rows) r.
Proof.
  intros Hw HP. unfold waits in *. rewrite list_filter_filter.
  rewrite (list_filter_iff _ (λ x, P x ∧ du_key x = du_key r)) by tauto. rewrite <- list_filter_filter, Hw. by rewrite filter_cons_True.
Qed.

Lemma waits_other rows r x : du_key x ≠ du_key r → waits (x :: rows) r ↔ waits rows r.
Proof. intros Hne. unfold waits. by rewrite filter_cons_False. Qed.

Lemma waits_in rows r : waits rows r → r ∈ rows ∧ ∀ x, x ∈ rows → du_key x = du_key r → x = r.
Proof.
  intros Hw. unfold waits in Hw. split.
  - assert (Hin : r ∈ filter (λ x, du_key x = du_key r) rows) by (rewrite Hw; left). by apply list_elem_of_filter in Hin as [_ ?].
  - intros x Hx Hk. assert (Hin : x ∈ filter (λ x, du_key x = du_key r) rows) by (by apply list_elem_of_filter). rewrite Hw in Hin.
    by apply list_elem_of_singleton in Hin.
Qed.

Lemma waits_new ways r : (du_key r ∉ du_key <$> ways) → waits (ways ++ [r]) r.
Proof.
  intros Hn. unfold waits. rewrite (Permutation_app_comm ways [r]). cbn [app]. rewrite filter_cons_True by done. rewrite filter_absent; [done|].
  intros x Hx Hk. apply Hn. rewrite <- Hk. by apply list_elem_of_fmap_2.
Qed.

Lemma waits_used ways r : waits (r :: ways) r → du_key r ∉ du_key <$> ways.
Proof.
  intros Hw Hin. apply list_elem_of_fmap in Hin as (x & Hk & Hx). unfold waits in Hw. rewrite filter_cons_True in Hw by done.
  apply Permutation_cons_inv, Permutation_nil_r in Hw. assert (Hx' : x ∈ filter (λ x, du_key x = du_key r) ways) by (by apply list_elem_of_filter).
  rewrite Hw in Hx'. by apply not_elem_of_nil in Hx'.
Qed.

(** How many packets are remembered. *)
Definition remembered (ops : list reverse_op) : nat := length (List.filter (λ op, match op with Remember _ _ => true | _ => false end) ops).

Lemma reverse_op_ok t cap rows r op :
  du_rep t cap rows → waits rows r → spares r op → (Z.of_nat (length rows + remembered [op]) ≤ cap `min` u32_max)%Z →
  ∃ t' rows', reverse_do t op = Done t' ∧ du_rep t' cap rows' ∧ waits rows' r ∧ length rows' ≤ length rows + remembered [op].
Proof.
  intros Hr Hw Hs Hroom. destruct op as [entry now|d now|present]; cbn [reverse_do spares] in *.
  - destruct Hs as (Hn & Halive & Hk). change (remembered [Remember entry now]) with 1 in *.
    destruct (remember_ok t cap rows entry now Hr Hn) as (t' & live & gone & rest & -> & Hr' & Hp & Hmade); [lia|].
    assert (Hlive : length live ≤ length rows) by (rewrite Hp; apply length_filter).
    assert (Hrest : rest = live) by (destruct Hmade; [done|lia|lia]). subst rest. unfold pushed in Hr'. rewrite (proj2 (Z.eqb_neq _ _)) in Hr' by lia.
    exists t', (live ++ [entry]). split; [done|]. split; [done|]. rewrite length_app. cbn. split; [|lia].
    rewrite (Permutation_app_comm live [entry]). cbn. rewrite waits_other by done. rewrite Hp. apply waits_filter; [done|]. by apply Z.leb_gt.
  - destruct (take_ok t cap rows d now Hr) as [(i & x & t' & Hi & Hk & Hr' & ->)|[Hn ->]]; cbn [mbind run_bind].
    + exists t', (swap_removed rows i). split; [done|]. split; [done|]. pose proof (swap_removed_perm rows i x Hi) as Hp. split.
      * rewrite <- Hp in Hw. by rewrite waits_other in Hw by congruence.
      * rewrite length_swap_removed by (by eapply lookup_lt_Some). lia.
    + exists t, rows. split; [done|]. split; [done|]. split; [done|lia].
  - destruct (cull_orphans_ok t cap rows present Hr) as (t' & rows' & -> & Hr' & Hp). exists t', rows'. split; [done|]. split; [done|]. split.
    + rewrite Hp. by apply waits_filter.
    + rewrite Hp. etransitivity; [apply length_filter|lia].
Qed.

Lemma reverse_ops_ok t cap rows r ops :
  du_rep t cap rows → waits rows r → Forall (spares r) ops → (Z.of_nat (length rows + remembered ops) ≤ cap `min` u32_max)%Z →
  ∃ t' rows', reverse_do_all t ops = Done t' ∧ du_rep t' cap rows' ∧ waits rows' r.
Proof.
  revert t rows. induction ops as [|op ops IH]; intros t rows Hr Hw Hs Hroom; cbn [reverse_do_all]; [by exists t, rows|].
  apply list.Forall_cons in Hs as [Hs1 Hs].
  assert (Hsum : remembered (op :: ops) = remembered [op] + remembered ops) by (unfold remembered; by destruct op).
  destruct (reverse_op_ok t cap rows r op Hr Hw Hs1) as (t1 & rows1 & -> & Hr1 & Hw1 & Hl); [lia|]. cbn [mbind run_bind].
  apply (IH t1 rows1); [done..|lia].
Qed.
End lemmas.

(** A way back stays until its proof comes, and is used once.  Whatever packets, proofs and departing interfaces of
    others come in between, as long as the table is not full, the way of a relayed packet is found before its eight
    minutes are over, and is gone then; after them nothing is found. *)
Theorem way_back_is_kept {T} `{!DueTable ReverseRoute T} `{!DueTableLaws ReverseRoute T} (t : T) cap (rows : list ReverseRouteEntry)
    (entry : ReverseRouteEntry) (now : Z) (ops : list reverse_op) (later : Z) :
  du_rep t cap rows → (du_key entry ∉ du_key <$> rows) → is_u64 now → Forall (spares entry) ops →
  (Z.of_nat (length rows + 1 + remembered ops) ≤ cap `min` u32_max)%Z →
  ∃ t1 t2 t3 rows3, reverse_remember t entry now = Done t1 ∧ reverse_do_all t1 ops = Done t2
    ∧ reverse_take t2 (du_key entry) later = Done (if (later <? du_at entry)%Z then Some (du_value entry) else None, t3)
    ∧ du_rep t3 cap rows3 ∧ reverse_take t3 (du_key entry) later = Done (None, t3).
Proof.
  intros Hr Hn Hnow Hs Hroom.
  destruct (remember_ok t cap rows entry now Hr Hnow) as (t1 & live & gone & rest & -> & Hr1 & Hp & Hmade); [lia|].
  assert (Hlive : length live ≤ length rows) by (rewrite Hp; apply length_filter).
  assert (Hrest : rest = live) by (destruct Hmade; [done|lia|lia]). subst rest. unfold pushed in Hr1. rewrite (proj2 (Z.eqb_neq _ _)) in Hr1 by lia.
  assert (Hw1 : waits (live ++ [entry]) entry).
  { apply waits_new. intros Hin. apply Hn. apply list_elem_of_fmap in Hin as (x & -> & Hx). rewrite Hp in Hx. apply list_elem_of_filter in Hx as [_ Hx]. by apply list_elem_of_fmap_2. }
  destruct (reverse_ops_ok t1 cap _ entry ops Hr1 Hw1 Hs) as (t2 & rows2 & E2 & Hr2 & Hw2); [rewrite length_app; cbn; lia|].
  destruct (waits_in rows2 entry Hw2) as [Hin Honly].
  destruct (take_ok t2 cap rows2 (du_key entry) later Hr2) as [(i & x & t3 & Hi & Hk & Hr3 & E3)|[Hno _]].
  2: { destruct Hno. by apply list_elem_of_fmap_2. }
  assert (x = entry) as -> by (apply Honly; [by eapply list_elem_of_lookup_2|done]).
  exists t1, t2, t3, (swap_removed rows2 i). split; [done|]. split; [done|]. split.
  { rewrite E3. do 2 f_equal. by rewrite Z.leb_antisym; destruct (later <? du_at entry)%Z. }
  split; [done|]. destruct (take_ok t3 cap _ (du_key entry) later Hr3) as [(j & y & t4 & Hj & Hky & _)|[_ ->]]; [|done]. exfalso.
  pose proof (swap_removed_perm rows2 i entry Hi) as Hp2. rewrite <- Hp2 in Hw2. apply (waits_used _ _ Hw2). rewrite <- Hky. apply list_elem_of_fmap_2. by eapply list_elem_of_lookup_2.
Qed.

(** * Witness *)

Definition sample_way (key received outbound at_ : Z) : ReverseRouteEntry :=
  mkDue (replicate 16 key) (mkReverse (replicate 8 received) (replicate 8 outbound)) at_.
Definition no_reverse : ReverseRoute := mkReverse (replicate 8 0%Z) (replicate 8 0%Z).
(** Another packet, another proof, an interface that goes. *)
Definition sample_between : list reverse_op :=
  [Remember (sample_way 2 0xA2 0xB2 20000) 1500; TakeBack (replicate 16 2%Z) 1600; Orphans (λ id, negb (bool_decide (id = replicate 8 0xB2%Z)))].

Lemma way_back_is_kept_witness :
  ∃ t1 t2 t3 rows3,
    reverse_remember (H := fixed_due (MAX := 2)) (fixed_due_default (MAX := 2) no_reverse) (sample_way 1 0xA1 0xB1 10000) 1000 = Done t1
    ∧ reverse_do_all (DueTable0 := fixed_due (MAX := 2)) t1 sample_between = Done t2
    ∧ reverse_take (H := fixed_due (MAX := 2)) t2 (replicate 16 1%Z) 2000 = Done (Some (mkReverse (replicate 8 0xA1%Z) (replicate 8 0xB1%Z)), t3)
    ∧ du_rep (DueTableLaws := fixed_due_laws (MAX := 2)) t3 2 rows3
    ∧ reverse_take (H := fixed_due (MAX := 2)) t3 (replicate 16 1%Z) 2000 = Done (None, t3).
Proof.
  apply (way_back_is_kept (DueTableLaws0 := fixed_due_laws (MAX := 2)) (fixed_due_default (MAX := 2) no_reverse) 2 [] (sample_way 1 0xA1 0xB1 10000) 1000 sample_between 2000).
  - exact (fixed_due_default_rep (MAX := 2) no_reverse).
  - apply not_elem_of_nil.
  - split; vm_compute; congruence.
  - repeat constructor; try (vm_compute; congruence).
  - vm_compute. discriminate.
Defined.
