(* ===== verification/TransportedLinks.v ===== *)
(** The links a node carries for others: [prns-core/src/routing/links/transported.rs].

    A link request that passes through leaves a row; the proof that comes back over the next hop validates it; from
    then on packets of the link are switched from one side to the other, while the hop counts fit.  The trait
    [TransportedLinkTable] is a class; its fixed and its growing implementation are instances. *)

From S2P Require Import LemireIndex DeadlineHeap AppData Prelude Columns KeyedMap Evidence Routes ChannelTable DeadlineColumn Timing Links AnnounceSchedule Upstream.

(** * Data *)

Definition TRANSPORTED_LINK_TIMEOUT_MS : Z := 900000.
Definition extra_link_proof_timeout_ms (bitrate : Z) : Z := broadcast_airtime_ms bitrate.

Record TransportedLink := mkTransported {
  tl_link_id : LinkId;
  tl_destination : DestinationHash;
  tl_route_evidence : RouteEvidenceHandle;
  tl_mode : LinkMode;
  tl_next_hop : option TransportId;
  tl_next_hop_interface : InterfaceId;
  tl_received_interface : InterfaceId;
  tl_taken_hops : Z;
  tl_remaining_hops : Z;
  tl_validated_by_proof : bool;
  tl_last_active : Z;
  tl_proof_timeout : Z;
}.

Definition transported_deadline (e : TransportedLink) : Z :=
  if tl_validated_by_proof e then saturating_add 64 (tl_last_active e) TRANSPORTED_LINK_TIMEOUT_MS else tl_proof_timeout e.

(** [TransportSwitch]: the interface to fire on. *)
Record TransportSwitch := mkSwitch { fire_on : InterfaceId }.
Inductive ValidateByProofError := ProofUnknownLink | AlreadyValidated | ProofWrongInterface | ProofHopMismatch.
Inductive SwitchError := SwitchUnknownLink | NotValidated | SwitchWrongInterface | SwitchHopMismatch.
Inductive TrackTransportedLinkError := AlreadyTracked | TransportedTableFull.

(** The row after [entry.validated_by_proof = true; entry.last_active = now], and after [last_active = now]. *)
Definition with_validated (remaining_hops now : Z) (e : TransportedLink) : TransportedLink :=
  mkTransported (tl_link_id e) (tl_destination e) (tl_route_evidence e) (tl_mode e) (tl_next_hop e) (tl_next_hop_interface e)
    (tl_received_interface e) (tl_taken_hops e) remaining_hops true now (tl_proof_timeout e).
Definition with_last_active (now : Z) (e : TransportedLink) : TransportedLink :=
  mkTransported (tl_link_id e) (tl_destination e) (tl_route_evidence e) (tl_mode e) (tl_next_hop e) (tl_next_hop_interface e)
    (tl_received_interface e) (tl_taken_hops e) (tl_remaining_hops e) (tl_validated_by_proof e) now (tl_proof_timeout e).

(** * The trait *)

(** [tb_set] writes through [entries_mut]; [tb_deadline_updated] tells the table that a row was written. *)
Class TransportedLinkTable (T : Type) := {
  tb_capacity : T → Z;
  tb_len : T → nat;
  tb_entries : T → list TransportedLink;
  tb_set : T → nat → TransportedLink → run T;
  tb_index_of : T → LinkId → run (option nat);
  tb_push : T → TransportedLink → run (option () * T);
  tb_swap_remove : T → nat → run T;
  tb_deadline_updated : T → nat → run T;
  tb_earliest_indexed_deadline : T → run (option Z * T);
  tb_first_overdue : T → Z → run (option nat * T);
}.

(** * The operations *)

Record TransportedLinks (T : Type) := mkTransportedLinks { ts_table : T; ts_earliest_deadline : option Z }.
Arguments mkTransportedLinks {T} _ _.
Arguments ts_table {T} _.
Arguments ts_earliest_deadline {T} _.

Section operations.
Context {T : Type} `{TransportedLinkTable T}.
Abbreviation links := (TransportedLinks T).
Implicit Types (l : links) (link_id : LinkId) (arrived_on : InterfaceId) (received_hops now : Z).

Definition transported_index_of l link_id : run (option nat) := tb_index_of (ts_table l) link_id.

(** [refresh_earliest_deadline], after the table became [t]. *)
Definition refreshed (t : T) : run links :=
  '(earliest, t) ← tb_earliest_indexed_deadline t;
  Done (mkTransportedLinks t earliest).

Definition track_transported l (entry : TransportedLink) : run (result TrackTransportedLinkError () * links) :=
  found ← transported_index_of l (tl_link_id entry);
  match found with
  | Some _ => Done (Err AlreadyTracked, l)
  | None =>
      '(pushed, t) ← tb_push (ts_table l) entry;
      l ← refreshed t;
      Done (match pushed with Some _ => Ok () | None => Err TransportedTableFull end, l)
  end.

Definition transported_entry_for l link_id : run (option TransportedLink) :=
  found ← transported_index_of l link_id;
  Done (match found with Some i => tb_entries (ts_table l) !! i | None => None end).

Definition transported_route_evidence_ids l : list Z := (λ e, handle_id (tl_route_evidence e)) <$> tb_entries (ts_table l).

(** A row looked up to be written: [index_of(..).ok_or(..)?], then [entries_mut().get_mut(index).ok_or(..)?]. *)
Definition transported_row l link_id : run (option (nat * TransportedLink)) :=
  found ← transported_index_of l link_id;
  Done (match found with Some i => (λ e, (i, e)) <$> tb_entries (ts_table l) !! i | None => None end).

(** The row written, [deadline_updated] and [refresh_earliest_deadline]. *)
Definition rewritten l (i : nat) (e : TransportedLink) : run links :=
  t ← tb_set (ts_table l) i e;
  t ← tb_deadline_updated t i;
  refreshed t.

Definition validate_by_proof l link_id arrived_on received_hops now : run (result ValidateByProofError TransportSwitch * links) :=
  row ← transported_row l link_id;
  match row with
  | None => Done (Err ProofUnknownLink, l)
  | Some (i, entry) =>
      if tl_validated_by_proof entry then Done (Err AlreadyValidated, l)
      else if negb (bool_decide (arrived_on = tl_next_hop_interface entry)) then Done (Err ProofWrongInterface, l)
      else if negb (received_hops =? tl_remaining_hops entry)%Z then Done (Err ProofHopMismatch, l)
      else
        l ← rewritten l i (with_validated (tl_remaining_hops entry) now entry);
        Done (Ok (mkSwitch (tl_received_interface entry)), l)
  end.

Definition rebalance_and_validate_by_proof l link_id arrived_on received_hops now :
    run (result ValidateByProofError TransportSwitch * links) :=
  row ← transported_row l link_id;
  match row with
  | None => Done (Err ProofUnknownLink, l)
  | Some (i, entry) =>
      if tl_validated_by_proof entry then Done (Err AlreadyValidated, l)
      else if negb (bool_decide (arrived_on = tl_next_hop_interface entry)) then Done (Err ProofWrongInterface, l)
      else if (received_hops =? tl_remaining_hops entry)%Z then Done (Err ProofHopMismatch, l)
      else
        l ← rewritten l i (with_validated received_hops now entry);
        Done (Ok (mkSwitch (tl_received_interface entry)), l)
  end.

(** The side a packet leaves on, of a validated row. *)
Definition switch_side (entry : TransportedLink) arrived_on received_hops : result SwitchError InterfaceId :=
  if bool_decide (tl_next_hop_interface entry = tl_received_interface entry) then
    if (received_hops =? tl_remaining_hops entry)%Z || (received_hops =? tl_taken_hops entry)%Z
    then Ok (tl_next_hop_interface entry) else Err SwitchHopMismatch
  else if bool_decide (arrived_on = tl_next_hop_interface entry) then
    if (received_hops =? tl_remaining_hops entry)%Z then Ok (tl_received_interface entry) else Err SwitchHopMismatch
  else if bool_decide (arrived_on = tl_received_interface entry) then
    if (received_hops =? tl_taken_hops entry)%Z then Ok (tl_next_hop_interface entry) else Err SwitchHopMismatch
  else Err SwitchWrongInterface.

Definition switch_through l link_id arrived_on received_hops now : run (result SwitchError TransportSwitch * links) :=
  row ← transported_row l link_id;
  match row with
  | None => Done (Err SwitchUnknownLink, l)
  | Some (i, entry) =>
      if negb (tl_validated_by_proof entry) then Done (Err NotValidated, l) else
      match switch_side entry arrived_on received_hops with
      | Err e => Done (Err e, l)
      | Ok out =>
          l ← rewritten l i (with_last_active now entry);
          Done (Ok (mkSwitch out), l)
      end
  end.

Definition transported_earliest_deadline l : option Z := ts_earliest_deadline l.

(** [first_overdue(now)?] and [entries().get(index)?] leave the table as the query left it. *)
Definition pop_overdue_transported l now : run (option TransportedLink * links) :=
  '(found, t) ← tb_first_overdue (ts_table l) now;
  match found with
  | None => Done (None, mkTransportedLinks t (ts_earliest_deadline l))
  | Some i =>
      match tb_entries t !! i with
      | None => Done (None, mkTransportedLinks t (ts_earliest_deadline l))
      | Some entry =>
          t ← tb_swap_remove t i;
          l ← refreshed t;
          Done (Some entry, l)
      end
  end.

(** [on_culled] is told the interfaces of each row that goes; here they are answered in order. *)
Fixpoint transported_orphans_loop (fuel : nat) (t : T) (i : nat) (interface_present : InterfaceId → bool) (culled : list InterfaceId) :
    run (list InterfaceId * T) :=
  match fuel with
  | O => OutOfFuel
  | S fuel =>
      if (i <? tb_len t)%nat then
        entry ← index (tb_entries t) i;
        if interface_present (tl_next_hop_interface entry) && interface_present (tl_received_interface entry)
        then transported_orphans_loop fuel t (S i) interface_present culled
        else
          t ← tb_swap_remove t i;
          transported_orphans_loop fuel t i interface_present (culled ++ [tl_next_hop_interface entry; tl_received_interface entry])
      else Done (culled, t)
  end.
Definition cull_transported_orphans l (interface_present : InterfaceId → bool) : run (list InterfaceId * links) :=
  '(culled, t) ← transported_orphans_loop (S (tb_len (ts_table l))) (ts_table l) 0 interface_present [];
  l ← refreshed t;
  Done (culled, l).

Definition transported_link_count_via l (interface : InterfaceId) : nat :=
  length (List.filter (λ e, tl_validated_by_proof e
    && (bool_decide (tl_next_hop_interface e = interface) || bool_decide (tl_received_interface e = interface))) (tb_entries (ts_table l))).
Definition validated_count l : nat := length (List.filter tl_validated_by_proof (tb_entries (ts_table l))).
Definition transported_len l : nat := tb_len (ts_table l).
End operations.

(** * A vector of a bounded length *)

Section fixed.
Context `{HeaplessExtend} `{HeaplessRemove} {MAX_TRANSIT_LINKS : nat}.

Record FixedTransportedLinkTable := mkFixedTransported { ft_entries : list TransportedLink }.

Definition fixed_transported_push (t : FixedTransportedLinkTable) (entry : TransportedLink) : run (option () * FixedTransportedLinkTable) :=
  match hv_try_push MAX_TRANSIT_LINKS (ft_entries t) entry with
  | Some es => Done (Some (), mkFixedTransported es)
  | None => Done (None, t)
  end.
Definition fixed_transported_swap_remove (t : FixedTransportedLinkTable) (i : nat) : run FixedTransportedLinkTable :=
  if (i <? length (ft_entries t))%nat then es ← hv_swap_remove (ft_entries t) i; Done (mkFixedTransported es) else Done t.

#[global] Instance fixed_transported : TransportedLinkTable FixedTransportedLinkTable := {|
  tb_capacity := λ _, Z.of_nat MAX_TRANSIT_LINKS;
  tb_len := λ t, length (ft_entries t);
  tb_entries := ft_entries;
  tb_set := λ t i e, es ← store (ft_entries t) i e; Done (mkFixedTransported es);
  tb_index_of := λ t link_id, Done (fst <$> list_find (λ e, tl_link_id e = link_id) (ft_entries t));
  tb_push := fixed_transported_push;
  tb_swap_remove := fixed_transported_swap_remove;
  tb_deadline_updated := λ t _, Done t;
  tb_earliest_indexed_deadline := λ t, Done (minimum (transported_deadline <$> ft_entries t), t);
  tb_first_overdue := λ t now, Done (fst <$> list_find (λ e, (transported_deadline e <=? now)%Z = true) (ft_entries t), t);
|}.
End fixed.

(** * A growing vector with a hash index and a heap of deadlines *)

Record HeapTransportedLinkTable := mkHeapTransported {
  ht_entries : list TransportedLink;
  ht_index : list Z;
  ht_deadline_index : DeadlineHeap.HeapDeadlineIndex;
}.

(** [|row| entries.get(row).map(TransportedLink::deadline)] *)
Definition deadline_of (entries : list TransportedLink) : nat → option Z := deadline_in (λ e, Some (transported_deadline e)) entries.

Definition heap_transported_push (t : HeapTransportedLinkTable) (entry : TransportedLink) : run (option () * HeapTransportedLinkTable) :=
  let slot := length (ht_entries t) in
  let deadline := transported_deadline entry in
  let entries := ht_entries t ++ [entry] in
  index ← LemireIndex.Heap.heap_insert (ht_index t) slot (tl_link_id <$> entries);
  ix ← DeadlineHeap.insert (deadline_of entries) (ht_deadline_index t) slot (Some deadline);
  Done (Some (), mkHeapTransported entries index ix).

Definition heap_transported_swap_remove (t : HeapTransportedLinkTable) (i : nat) : run HeapTransportedLinkTable :=
  if (length (ht_entries t) <=? i)%nat then Done t else
  let last := length (ht_entries t) - 1 in
  let ids := tl_link_id <$> ht_entries t in
  index ← LemireIndex.Heap.heap_remove_slot (ht_index t) i ids;
  index ← (if negb (i =? last)%nat then LemireIndex.Heap.heap_repoint_slot index last i ids else Done index);
  ix ← DeadlineHeap.swap_remove (deadline_of (ht_entries t)) (ht_deadline_index t) i last;
  entries ← vec_swap_remove (ht_entries t) i;
  Done (mkHeapTransported entries index ix).

Definition heap_transported_updated (t : HeapTransportedLinkTable) (i : nat) : run HeapTransportedLinkTable :=
  let deadline := transported_deadline <$> ht_entries t !! i in
  ix ← DeadlineHeap.update (deadline_of (ht_entries t)) (ht_deadline_index t) i deadline;
  Done (mkHeapTransported (ht_entries t) (ht_index t) ix).

Definition with_deadline_index {A} (t : HeapTransportedLinkTable) (query : run (A * DeadlineHeap.HeapDeadlineIndex)) :
    run (A * HeapTransportedLinkTable) :=
  '(a, ix) ← query; Done (a, mkHeapTransported (ht_entries t) (ht_index t) ix).

#[global] Instance heap_transported : TransportedLinkTable HeapTransportedLinkTable := {|
  tb_capacity := λ _, usize_max;
  tb_len := λ t, length (ht_entries t);
  tb_entries := ht_entries;
  tb_set := λ t i e, es ← store (ht_entries t) i e; Done (mkHeapTransported es (ht_index t) (ht_deadline_index t));
  tb_index_of := λ t link_id, LemireIndex.Heap.heap_get (ht_index t) link_id (tl_link_id <$> ht_entries t);
  tb_push := heap_transported_push;
  tb_swap_remove := heap_transported_swap_remove;
  tb_deadline_updated := heap_transported_updated;
  tb_earliest_indexed_deadline := λ t, with_deadline_index t
    (DeadlineHeap.earliest_exact (deadline_of (ht_entries t)) (ht_deadline_index t) (length (ht_entries t)));
  tb_first_overdue := λ t now, with_deadline_index t
    (DeadlineHeap.first_due (deadline_of (ht_entries t)) (ht_deadline_index t) (length (ht_entries t)) now);
|}.

Definition fixed_transported_default : FixedTransportedLinkTable := mkFixedTransported [].
Definition heap_transported_default : HeapTransportedLinkTable := mkHeapTransported [] LemireIndex.Heap.default DeadlineHeap.default_index.
