(* ===== verification/TransportedLinksProofs.v ===== *)
(** What the transported links ([TransportedLinks]) promise: rules over a finite map of rows, which both tables follow,
    and that nothing is switched before the proof of its link came back. *)

From stdpp Require Import gmap.
From S2P Require Import LemireIndex DeadlineHeap AppData Prelude Columns KeyedMap Evidence Routes ChannelTable DeadlineColumn Timing Links AnnounceSchedule AnnounceSchedulePlan Upstream UpstreamRegistry TransportedLinks.

(** * The contract of the tables *)

Class TransportedTableLaws (T : Type) `{TransportedLinkTable T} := {
  tb_rep : T → Z → list TransportedLink → Prop;
  tb_entries_ok : ∀ t cap rows, tb_rep t cap rows →
    tb_capacity t = cap ∧ tb_len t = length rows ∧ tb_entries t = rows ∧ (Z.of_nat (length rows) ≤ cap)%Z;
  tb_index_of_ok : ∀ t cap rows id, tb_rep t cap rows →
    (∃ i e, tb_index_of t id = Done (Some i) ∧ rows !! i = Some e ∧ tl_link_id e = id)
    ∨ (tb_index_of t id = Done None ∧ id ∉ tl_link_id <$> rows);
  tb_push_ok : ∀ t cap rows e, tb_rep t cap rows → (Z.of_nat (length rows) < cap)%Z → (Z.of_nat (length rows) < u32_max)%Z →
    ∃ t', tb_push t e = Done (Some (), t') ∧ tb_rep t' cap (rows ++ [e]);
  tb_push_full : ∀ t cap rows e, tb_rep t cap rows → Z.of_nat (length rows) = cap → (Z.of_nat (length rows) < u32_max)%Z →
    tb_push t e = Done (None, t);
  tb_swap_remove_ok : ∀ t cap rows i, tb_rep t cap rows → i < length rows →
    ∃ t', tb_swap_remove t i = Done t' ∧ tb_rep t' cap (swap_removed rows i);
  tb_rewrite_ok : ∀ t cap rows i e e', tb_rep t cap rows → rows !! i = Some e → tl_link_id e' = tl_link_id e →
    ∃ t1 t2, tb_set t i e' = Done t1 ∧ tb_deadline_updated t1 i = Done t2 ∧ tb_rep t2 cap (<[i := e']> rows);
  tb_earliest_ok : ∀ t cap rows, tb_rep t cap rows →
    ∃ t', tb_earliest_indexed_deadline t = Done (minimum (transported_deadline <$> rows), t') ∧ tb_rep t' cap rows;
  tb_overdue_ok : ∀ t cap rows now, tb_rep t cap rows →
    ∃ found t', tb_first_overdue t now = Done (found, t') ∧ tb_rep t' cap rows
      ∧ match found with
        | Some i => ∃ e, rows !! i = Some e ∧ (transported_deadline e ≤ now)%Z
        | None => Forall (λ e, (now < transported_deadline e)%Z) rows
        end;
}.

(** ** The bounded vector *)

Section fixed.
Context `{!HeaplessVec} `{!HeaplessExtend} `{!HeaplessRemove} `{!HeaplessExtendLaws} `{!HeaplessQueueLaws} {MAX : nat}.

Definition fixed_transported_rep (t : FixedTransportedLinkTable) (cap : Z) (rows : list TransportedLink) : Prop :=
  cap = Z.of_nat MAX ∧ ft_entries t = rows ∧ length rows ≤ MAX.

#[global] Instance fixed_transported_laws : TransportedTableLaws FixedTransportedLinkTable (H := fixed_transported (MAX_TRANSIT_LINKS := MAX)).
Proof.
  refine {| tb_rep := fixed_transported_rep |}.
  - intros t cap rows (-> & <- & Hm). cbn. split_and!; [done|done|done|lia].
  - intros t cap rows id (-> & <- & Hm). cbn. destruct (list_find _ _) as [[i e]|] eqn:E.
    + apply list_find_Some in E as (Hi & Hk & _). left. by exists i, e.
    + right. split; [done|]. apply list_find_None in E. rewrite list.Forall_forall in E. intros (e & -> & He)%list_elem_of_fmap. by apply (E e He).
  - intros t cap rows e (-> & <- & Hm) Hlt _. cbn. unfold fixed_transported_push. rewrite hv_try_push_ok, (proj2 (Nat.ltb_lt _ _)) by lia.
    eexists. split; [done|]. split_and!; [done|done|]. rewrite length_app. cbn. lia.
  - intros t cap rows e (-> & <- & Hm) Hfull _. cbn. unfold fixed_transported_push. by rewrite hv_try_push_ok, (proj2 (Nat.ltb_ge _ _)) by lia.
  - intros t cap rows i (-> & <- & Hm) Hi. cbn. unfold fixed_transported_swap_remove. rewrite (proj2 (Nat.ltb_lt _ _)), hq_swap_remove by done.
    eexists. split; [done|]. split_and!; [done|done|]. rewrite length_swap_removed by done. lia.
  - intros t cap rows i e e' (-> & <- & Hm) Hi _. cbn. rewrite store_done by (by eapply lookup_lt_Some). eexists _, _. split; [done|]. split; [done|].
    split_and!; [done|done|]. by rewrite length_insert.
  - intros t cap rows (-> & <- & Hm). cbn. by eexists.
  - intros t cap rows now (-> & <- & Hm). cbn. eexists _, t. split; [done|]. split; [done|]. destruct (list_find _ _) as [[i e]|] eqn:E; cbn.
    + apply list_find_Some in E as (Hi & Hd & _). exists e. split; [done|]. by apply Z.leb_le.
    + apply list_find_None in E. eapply list.Forall_impl; [exact E|]. cbn. intros e He. by apply Z.leb_gt, not_true_iff_false.
Defined.

Lemma fixed_transported_default_rep : fixed_transported_rep fixed_transported_default (Z.of_nat MAX) [].
Proof. split_and!; [done|done|cbn; lia]. Qed.
End fixed.

(** ** The growing vector *)

Record heap_transported_rep (t : HeapTransportedLinkTable) (cap : Z) (rows : list TransportedLink) : Prop := {
  htr_cap : cap = usize_max;
  htr_entries : ht_entries t = rows;
  htr_index : LemireIndex.Heap.heap_rep (ht_index t) (tl_link_id <$> rows);
  htr_deadlines : kept (deadline_of rows) (ht_deadline_index t) (length rows);
  htr_max : (Z.of_nat (length rows) ≤ u32_max)%Z;
}.

Lemma heap_transported_pushed t cap rows e :
  heap_transported_rep t cap rows → (Z.of_nat (length rows) < u32_max)%Z →
  ∃ t', heap_transported_push t e = Done (Some (), t') ∧ heap_transported_rep t' cap (rows ++ [e]).
Proof.
  intros [-> Hc Hix Hd Hmax] Hlt. unfold heap_transported_push. rewrite Hc, fmap_app. cbn [fmap list_fmap].
  destruct (heap_index_push (ht_index t) (tl_link_id <$> rows) (tl_link_id e) Hix) as (slots & E & Hix'); [by rewrite length_fmap|].
  rewrite length_fmap in E. unfold LinkId in *. rewrite E. cbn [mbind run_bind].
  destruct (insert_column (λ e, Some (transported_deadline e)) (ht_deadline_index t) rows e Hd) as (ix & E' & Hd').
  unfold deadline_of. rewrite E'. cbn [mbind run_bind]. eexists. split; [done|].
  split; cbn [ht_entries ht_index ht_deadline_index]; rewrite ?fmap_app; try done. rewrite length_app. cbn. lia.
Qed.

Lemma heap_transported_removed t cap rows i :
  heap_transported_rep t cap rows → i < length rows →
  ∃ t', heap_transported_swap_remove t i = Done t' ∧ heap_transported_rep t' cap (swap_removed rows i).
Proof.
  intros [-> Hc Hix Hd Hmax] Hi. unfold heap_transported_swap_remove. rewrite Hc, (proj2 (Nat.leb_gt _ _)) by done.
  destruct (heap_index_swap (ht_index t) (tl_link_id <$> rows) i Hix) as (slots1 & slots2 & E1 & E2 & Hix'); [by rewrite length_fmap..|].
  unfold LinkId in *. rewrite E1. cbn [mbind run_bind]. rewrite length_fmap in E2. rewrite E2. cbn [mbind run_bind].
  destruct (swap_remove_column (λ e, Some (transported_deadline e)) (ht_deadline_index t) rows i Hd Hi) as (ix & E & Hd').
  unfold deadline_of. rewrite E. cbn [mbind run_bind]. rewrite vec_swap_remove_done by done. cbn [mbind run_bind].
  eexists. split; [done|]. rewrite <- !fmap_swap_removed in *.
  split; cbn [ht_entries ht_index ht_deadline_index]; try done. rewrite length_swap_removed by done. lia.
Qed.

Lemma heap_transported_rewritten t cap rows i e e' :
  heap_transported_rep t cap rows → rows !! i = Some e → tl_link_id e' = tl_link_id e →
  ∃ t1 t2, tb_set t i e' = Done t1 ∧ heap_transported_updated t1 i = Done t2 ∧ heap_transported_rep t2 cap (<[i := e']> rows).
Proof.
  intros [-> Hc Hix Hd Hmax] Hi Hk. pose proof (lookup_lt_Some _ _ _ Hi) as Hlt. cbn. rewrite Hc, store_done by done.
  cbn [mbind run_bind].
  destruct (update_kept (deadline_of rows) (deadline_of (<[i := e']> rows)) (ht_deadline_index t) (length rows) i Hd Hlt) as (ix & E & Hd').
  - intros j _ Hj. unfold deadline_of, deadline_in. by rewrite list_lookup_insert_ne.
  - unfold deadline_of at 2 in E. rewrite (deadline_at _ _ i e') in E by (by apply list_lookup_insert_eq). eexists _, _. split; [done|].
    unfold heap_transported_updated. cbn [ht_entries ht_index ht_deadline_index]. rewrite list_lookup_insert_eq by done. cbn [fmap option_fmap option_map].
    rewrite E. cbn [mbind run_bind]. split; [done|]. split; cbn [ht_entries ht_index ht_deadline_index]; rewrite ?length_insert; try done.
    by rewrite (fmap_key_insert tl_link_id rows i e e' Hi Hk).
Qed.

Lemma with_deadline_index_ok {A} t cap rows (query : run (A * DeadlineHeap.HeapDeadlineIndex)) a ix :
  heap_transported_rep t cap rows → query = Done (a, ix) → kept (deadline_of rows) ix (length rows) →
  ∃ t', with_deadline_index t query = Done (a, t') ∧ heap_transported_rep t' cap rows.
Proof. intros [-> Hc Hix Hd Hmax] -> Hix'. unfold with_deadline_index. cbn [mbind run_bind]. eexists. split; [done|]. by split. Qed.

#[global] Instance heap_transported_laws : TransportedTableLaws HeapTransportedLinkTable.
Proof.
  refine {| tb_rep := heap_transported_rep |}.
  - intros t cap rows [-> Hc Hix Hd Hmax]. cbn. rewrite Hc. split_and!; [done|done|done|]. width.
  - intros t cap rows id [-> Hc Hix Hd Hmax]. cbn. rewrite Hc. destruct (heap_get_ids (ht_index t) (tl_link_id <$> rows) id Hix) as [(i & E & Hi)|[E Hn]]; [left|by right].
    rewrite list_lookup_fmap in Hi. destruct (rows !! i) as [e|] eqn:Ee; [|done]. injection Hi as Hi. by exists i, e.
  - intros t cap rows e Hr _ Hlt. by apply heap_transported_pushed.
  - intros t cap rows e [-> Hc Hix Hd Hmax] Hfull Hlt. width.
  - intros t cap rows i Hr Hi. by apply heap_transported_removed.
  - intros t cap rows i e e' Hr Hi Hk. by eapply heap_transported_rewritten.
  - intros t cap rows Hr. cbn. rewrite (htr_entries _ _ _ Hr).
    destruct (earliest_column (λ e, Some (transported_deadline e)) (ht_deadline_index t) rows (htr_deadlines _ _ _ Hr)) as (ix & E & Hd).
    destruct (with_deadline_index_ok t cap rows _ _ ix Hr E Hd) as (t' & Et & Hr'). exists t'. split; [|done]. etransitivity; [exact Et|]. do 3 f_equal.
  - intros t cap rows now Hr. cbn. rewrite (htr_entries _ _ _ Hr).
    destruct (first_due_column (λ e, Some (transported_deadline e)) (ht_deadline_index t) rows now (htr_deadlines _ _ _ Hr)) as (found & ix & E & Hd & Hf).
    destruct (with_deadline_index_ok t cap rows _ found ix Hr E Hd) as (t' & Et & Hr'). exists found, t'. split; [exact Et|]. split; [done|].
    destruct found as [i|].
    + destruct Hf as (e & at_ & Hi & [= <-] & Hle). by exists e.
    + apply list.Forall_forall. intros e He. by apply (Hf e _ He).
Defined.

Lemma heap_transported_default_rep : tb_rep heap_transported_default usize_max [].
Proof. split; cbn; try done; [exact heap_index_new|apply kept_default]. Qed.

(** * The rules *)

Inductive transported_op :=
  | Track (entry : TransportedLink)
  | ProofArrives (link_id : LinkId) (arrived_on : InterfaceId) (received_hops now : Z)
  | RebalancedProofArrives (link_id : LinkId) (arrived_on : InterfaceId) (received_hops now : Z)
  | PacketArrives (link_id : LinkId) (arrived_on : InterfaceId) (received_hops now : Z)
  | PopOverdue (now : Z)
  | CullOrphans (interface_present : InterfaceId → bool).
Inductive transported_answer :=
  | TrackAnswer (outcome : result TrackTransportedLinkError ())
  | ProofAnswer (outcome : result ValidateByProofError TransportSwitch)
  | SwitchAnswer (outcome : result SwitchError TransportSwitch)
  | Popped (entry : option TransportedLink)
  | CulledOver (interfaces : list InterfaceId).

Abbreviation transported_map := (gmap LinkId TransportedLink).

Definition keeps (interface_present : InterfaceId → bool) (e : TransportedLink) : bool :=
  interface_present (tl_next_hop_interface e) && interface_present (tl_received_interface e).
Definition sides (e : TransportedLink) : list InterfaceId := [tl_next_hop_interface e; tl_received_interface e].

(** Why a proof does not validate: [exact] says whether the hop count is to be the one expected. *)
Inductive proof_refused (exact : bool) (m : transported_map) (id : LinkId) (arrived_on : InterfaceId) (hops : Z) : ValidateByProofError → Prop :=
  | RefusedUnknown : m !! id = None → proof_refused exact m id arrived_on hops ProofUnknownLink
  | RefusedAgain e : m !! id = Some e → tl_validated_by_proof e = true → proof_refused exact m id arrived_on hops AlreadyValidated
  | RefusedSide e : m !! id = Some e → tl_validated_by_proof e = false → arrived_on ≠ tl_next_hop_interface e →
      proof_refused exact m id arrived_on hops ProofWrongInterface
  | RefusedHops e : m !! id = Some e → tl_validated_by_proof e = false → arrived_on = tl_next_hop_interface e →
      (hops =? tl_remaining_hops e)%Z = negb exact → proof_refused exact m id arrived_on hops ProofHopMismatch.

(** Where a packet goes that came in on [arrived_on] with [hops]. *)
Inductive crosses (e : TransportedLink) (arrived_on : InterfaceId) (hops : Z) : InterfaceId → Prop :=
  | Outward : tl_next_hop_interface e ≠ tl_received_interface e → arrived_on = tl_received_interface e → hops = tl_taken_hops e →
      crosses e arrived_on hops (tl_next_hop_interface e)
  | Homeward : tl_next_hop_interface e ≠ tl_received_interface e → arrived_on = tl_next_hop_interface e → hops = tl_remaining_hops e →
      crosses e arrived_on hops (tl_received_interface e)
  | OnOneInterface : tl_next_hop_interface e = tl_received_interface e → hops = tl_remaining_hops e ∨ hops = tl_taken_hops e →
      crosses e arrived_on hops (tl_next_hop_interface e).

Inductive switch_refused (m : transported_map) (id : LinkId) (arrived_on : InterfaceId) (hops : Z) : SwitchError → Prop :=
  | NoSuchLink : m !! id = None → switch_refused m id arrived_on hops SwitchUnknownLink
  | NotYet e : m !! id = Some e → tl_validated_by_proof e = false → switch_refused m id arrived_on hops NotValidated
  | Stranger e : m !! id = Some e → tl_validated_by_proof e = true → tl_next_hop_interface e ≠ tl_received_interface e →
      (arrived_on ∉ sides e) → switch_refused m id arrived_on hops SwitchWrongInterface
  | WrongHops e : m !! id = Some e → tl_validated_by_proof e = true → (∀ out, ~ crosses e arrived_on hops out) →
      (tl_next_hop_interface e = tl_received_interface e ∨ arrived_on ∈ sides e) → switch_refused m id arrived_on hops SwitchHopMismatch.

Inductive carried (cap : Z) (m : transported_map) : transported_op → transported_answer → transported_map → Prop :=
  | IsTracked e : m !! tl_link_id e = None → (Z.of_nat (size m) < cap)%Z →
      carried cap m (Track e) (TrackAnswer (Ok ())) (<[tl_link_id e := e]> m)
  | IsKnown e : is_Some (m !! tl_link_id e) → carried cap m (Track e) (TrackAnswer (Err AlreadyTracked)) m
  | IsFull e : m !! tl_link_id e = None → Z.of_nat (size m) = cap → carried cap m (Track e) (TrackAnswer (Err TransportedTableFull)) m
  | IsValidated id e now : m !! id = Some e → tl_validated_by_proof e = false →
      carried cap m (ProofArrives id (tl_next_hop_interface e) (tl_remaining_hops e) now)
        (ProofAnswer (Ok (mkSwitch (tl_received_interface e)))) (<[id := with_validated (tl_remaining_hops e) now e]> m)
  | IsRebalanced id e hops now : m !! id = Some e → tl_validated_by_proof e = false → hops ≠ tl_remaining_hops e →
      carried cap m (RebalancedProofArrives id (tl_next_hop_interface e) hops now)
        (ProofAnswer (Ok (mkSwitch (tl_received_interface e)))) (<[id := with_validated hops now e]> m)
  | ProofRefused id arrived_on hops now error : proof_refused true m id arrived_on hops error →
      carried cap m (ProofArrives id arrived_on hops now) (ProofAnswer (Err error)) m
  | RebalancedRefused id arrived_on hops now error : proof_refused false m id arrived_on hops error →
      carried cap m (RebalancedProofArrives id arrived_on hops now) (ProofAnswer (Err error)) m
  | IsSwitched id e arrived_on hops now out : m !! id = Some e → tl_validated_by_proof e = true → crosses e arrived_on hops out →
      carried cap m (PacketArrives id arrived_on hops now) (SwitchAnswer (Ok (mkSwitch out))) (<[id := with_last_active now e]> m)
  | SwitchRefused id arrived_on hops now error : switch_refused m id arrived_on hops error →
      carried cap m (PacketArrives id arrived_on hops now) (SwitchAnswer (Err error)) m
  | IsPopped id e now : m !! id = Some e → (transported_deadline e ≤ now)%Z → carried cap m (PopOverdue now) (Popped (Some e)) (delete id m)
  | NoneOverdue now : (∀ id e, m !! id = Some e → (now < transported_deadline e)%Z) → carried cap m (PopOverdue now) (Popped None) m
  | AreCulled present over gone : entries tl_link_id gone = filter (λ p, keeps present p.2 = false) m → NoDup (tl_link_id <$> gone) →
      over = gone ≫= sides →
      carried cap m (CullOrphans present) (CulledOver over) (filter (λ p, keeps present p.2 = true) m).

(** The operations one after the other. *)
Inductive carried_all (cap : Z) : transported_map → list (transported_op * transported_answer) → transported_map → Prop :=
  | NothingArrives m : carried_all cap m [] m
  | Arrives m op answer m' rest m'' : carried cap m op answer m' → carried_all cap m' rest m'' →
      carried_all cap m ((op, answer) :: rest) m''.

(** * The tables follow the rules *)

Section refinement.
Context {T : Type} `{!TransportedLinkTable T} `{!TransportedTableLaws T}.
Implicit Types (l : TransportedLinks T) (t : T) (rows : list TransportedLink) (m : transported_map).

Definition transported_do l (op : transported_op) : run (transported_answer * TransportedLinks T) :=
  match op with
  | Track e => '(r, l) ← track_transported l e; Done (TrackAnswer r, l)
  | ProofArrives id arrived_on hops now => '(r, l) ← validate_by_proof l id arrived_on hops now; Done (ProofAnswer r, l)
  | RebalancedProofArrives id arrived_on hops now => '(r, l) ← rebalance_and_validate_by_proof l id arrived_on hops now; Done (ProofAnswer r, l)
  | PacketArrives id arrived_on hops now => '(r, l) ← switch_through l id arrived_on hops now; Done (SwitchAnswer r, l)
  | PopOverdue now => '(e, l) ← pop_overdue_transported l now; Done (Popped e, l)
  | CullOrphans present => '(over, l) ← cull_transported_orphans l present; Done (CulledOver over, l)
  end.
Fixpoint transported_run l (ops : list transported_op) : run (list (transported_op * transported_answer) * TransportedLinks T) :=
  match ops with
  | [] => Done ([], l)
  | op :: ops => '(a, l) ← transported_do l op; '(trace, l) ← transported_run l ops; Done ((op, a) :: trace, l)
  end.

(** The rows of the table are those of [m], and the cached deadline is the earliest of theirs. *)
Definition carries l (cap : Z) m : Prop :=
  ∃ rows, tb_rep (ts_table l) cap rows ∧ NoDup (tl_link_id <$> rows) ∧ m = entries tl_link_id rows
    ∧ ts_earliest_deadline l = minimum (transported_deadline <$> rows).

Definition does l (cap : Z) m (op : transported_op) : Prop :=
  ∃ a l' m', transported_do l op = Done (a, l') ∧ carried cap m op a m' ∧ carries l' cap m'.

Lemma refreshed_ok t cap rows :
  tb_rep t cap rows → NoDup (tl_link_id <$> rows) →
  ∃ l, refreshed t = Done l ∧ carries l cap (entries tl_link_id rows).
Proof.
  intros Hr Hnd. unfold refreshed. destruct (tb_earliest_ok t cap rows Hr) as (t' & -> & Hr'). cbn [mbind run_bind].
  eexists. split; [done|]. by exists rows.
Qed.

(** What is found under an id. *)
Lemma row_cases l cap rows id :
  tb_rep (ts_table l) cap rows → NoDup (tl_link_id <$> rows) →
  (∃ i e, transported_row l id = Done (Some (i, e)) ∧ rows !! i = Some e ∧ id = tl_link_id e ∧ entries tl_link_id rows !! id = Some e)
  ∨ (transported_row l id = Done None ∧ entries tl_link_id rows !! id = None).
Proof.
  intros Hr Hnd. unfold transported_row, transported_index_of. destruct (tb_entries_ok _ _ _ Hr) as (_ & _ & -> & _).
  destruct (tb_index_of_ok (ts_table l) cap rows id Hr) as [(i & e & -> & Hi & <-)|[-> Hn]]; cbn [mbind run_bind].
  - left. exists i, e. rewrite Hi. split_and!; [done|done|done|]. apply entries_some; [done|]. by eapply list_elem_of_lookup_2.
  - right. split; [done|]. by apply entries_none.
Qed.

Lemma rewritten_ok l cap rows i e e' :
  tb_rep (ts_table l) cap rows → NoDup (tl_link_id <$> rows) → rows !! i = Some e → tl_link_id e' = tl_link_id e →
  ∃ l', rewritten l i e' = Done l' ∧ carries l' cap (<[tl_link_id e := e']> (entries tl_link_id rows)).
Proof.
  intros Hr Hnd Hi Hk. unfold rewritten. destruct (tb_rewrite_ok _ cap rows i e e' Hr Hi Hk) as (t1 & t2 & -> & E2 & Hr2). cbn [mbind run_bind].
  rewrite E2. cbn [mbind run_bind]. destruct (entries_overwrite tl_link_id rows i e e' Hnd Hi Hk) as [<- Hnd']. by apply refreshed_ok.
Qed.

Lemma track_does l cap m e : carries l cap m → (Z.of_nat (size m) < u32_max)%Z → does l cap m (Track e).
Proof.
  intros (rows & Hr & Hnd & -> & Hd) Hmax. unfold does. cbn [transported_do]. unfold track_transported, transported_index_of.
  pose proof (entries_size tl_link_id rows Hnd) as Hsize. destruct (tb_entries_ok _ _ _ Hr) as (_ & _ & _ & Hcap).
  destruct (tb_index_of_ok (ts_table l) cap rows (tl_link_id e) Hr) as [(i & e0 & -> & Hi & Hk)|[-> Hn]]; cbn [mbind run_bind].
  - eexists _, l, _. split; [done|]. split; [|by exists rows]. apply IsKnown. apply entries_dom. rewrite <- Hk. apply list_elem_of_fmap_2. by eapply list_elem_of_lookup_2.
  - pose proof (proj1 (entries_none tl_link_id rows _) Hn) as Hnone. rewrite Hsize in Hmax. destruct (decide (Z.of_nat (length rows) = cap)) as [Hfull|Hroom].
    + rewrite (tb_push_full _ cap rows e Hr Hfull Hmax). cbn [mbind run_bind]. destruct (refreshed_ok _ cap rows Hr Hnd) as (l' & -> & Hl'). cbn [mbind run_bind].
      eexists _, l', _. split; [done|]. split; [|exact Hl']. apply IsFull; [done|]. by rewrite Hsize.
    + destruct (tb_push_ok _ cap rows e Hr) as (t' & -> & Hr'); [lia|done|]. cbn [mbind run_bind].
      destruct (entries_snoc tl_link_id rows e Hnd Hn) as [E Hnd']. destruct (refreshed_ok t' cap (rows ++ [e]) Hr' Hnd') as (l' & -> & Hl'). cbn [mbind run_bind].
      eexists _, l', _. split; [done|]. split; [|exact Hl']. rewrite E. apply IsTracked; [done|]. rewrite Hsize. lia.
Qed.

Lemma validate_does l cap m id arrived_on hops now : carries l cap m → does l cap m (ProofArrives id arrived_on hops now).
Proof.
  intros (rows & Hr & Hnd & -> & Hd). unfold does. cbn [transported_do]. unfold validate_by_proof.
  assert (Hsame : carries l cap (entries tl_link_id rows)) by (by exists rows).
  destruct (row_cases l cap rows id Hr Hnd) as [(i & e & -> & Hi & -> & Hm)|[-> Hm]]; cbn [mbind run_bind].
  2: { eexists _, l, _. split; [done|]. split; [|done]. apply ProofRefused. by apply RefusedUnknown. }
  destruct (tl_validated_by_proof e) eqn:Hv.
  { eexists _, l, _. split; [done|]. split; [|done]. apply ProofRefused. by eapply RefusedAgain. }
  case_bool_decide as Hside; cbn [negb].
  2: { eexists _, l, _. split; [done|]. split; [|done]. apply ProofRefused. by eapply RefusedSide. }
  destruct (Z.eqb_spec hops (tl_remaining_hops e)) as [->|Hh]; cbn [negb].
  2: { eexists _, l, _. split; [done|]. split; [|done]. apply ProofRefused. eapply RefusedHops; [done..|]. by apply Z.eqb_neq. }
  destruct (rewritten_ok l cap rows i e (with_validated (tl_remaining_hops e) now e) Hr Hnd Hi eq_refl) as (l' & -> & Hl'). cbn [mbind run_bind].
  eexists _, l', _. split; [done|]. split; [|exact Hl']. subst arrived_on. by apply IsValidated.
Qed.

Lemma rebalance_does l cap m id arrived_on hops now : carries l cap m → does l cap m (RebalancedProofArrives id arrived_on hops now).
Proof.
  intros (rows & Hr & Hnd & -> & Hd). unfold does. cbn [transported_do]. unfold rebalance_and_validate_by_proof.
  assert (Hsame : carries l cap (entries tl_link_id rows)) by (by exists rows).
  destruct (row_cases l cap rows id Hr Hnd) as [(i & e & -> & Hi & -> & Hm)|[-> Hm]]; cbn [mbind run_bind].
  2: { eexists _, l, _. split; [done|]. split; [|done]. apply RebalancedRefused. by apply RefusedUnknown. }
  destruct (tl_validated_by_proof e) eqn:Hv.
  { eexists _, l, _. split; [done|]. split; [|done]. apply RebalancedRefused. by eapply RefusedAgain. }
  case_bool_decide as Hside; cbn [negb].
  2: { eexists _, l, _. split; [done|]. split; [|done]. apply RebalancedRefused. by eapply RefusedSide. }
  destruct (Z.eqb_spec hops (tl_remaining_hops e)) as [->|Hh].
  { eexists _, l, _. split; [done|]. split; [|done]. apply RebalancedRefused. eapply RefusedHops; [done..|]. by apply Z.eqb_eq. }
  destruct (rewritten_ok l cap rows i e (with_validated hops now e) Hr Hnd Hi eq_refl) as (l' & -> & Hl'). cbn [mbind run_bind].
  eexists _, l', _. split; [done|]. split; [|exact Hl']. subst arrived_on. by apply IsRebalanced.
Qed.

(** [switch_side] decides [crosses]. *)
Lemma switch_side_ok m id e arrived_on hops :
  m !! id = Some e → tl_validated_by_proof e = true →
  match switch_side e arrived_on hops with
  | Ok out => crosses e arrived_on hops out
  | Err error => switch_refused m id arrived_on hops error
  end.
Proof.
  intros Hm Hv. unfold switch_side. case_bool_decide as Hone.
  - destruct (Z.eqb_spec hops (tl_remaining_hops e)) as [Ehops|Hr]; cbn [orb].
    { apply OnOneInterface; [done|]. by left. }
    destruct (Z.eqb_spec hops (tl_taken_hops e)) as [Ehops|Ht].
    { apply OnOneInterface; [done|]. by right. }
    apply (WrongHops _ _ _ _ e); [done|done| |by left]. intros out Hc. destruct Hc as [? ? ?|? ? ?|? [?|?]]; congruence.
  - case_bool_decide as Hnext; [|case_bool_decide as Hrecv].
    + destruct (Z.eqb_spec hops (tl_remaining_hops e)) as [Ehops|Hr]; [by apply Homeward|].
      apply (WrongHops _ _ _ _ e); [done|done| |right; unfold sides; set_solver]. intros out Hc. destruct Hc as [? ? ?|? ? ?|? [?|?]]; congruence.
    + destruct (Z.eqb_spec hops (tl_taken_hops e)) as [Ehops|Ht]; [by apply Outward|].
      apply (WrongHops _ _ _ _ e); [done|done| |right; unfold sides; set_solver]. intros out Hc. destruct Hc as [? ? ?|? ? ?|? [?|?]]; congruence.
    + apply (Stranger _ _ _ _ e); [done|done|done|]. unfold sides. intros [->|[->|[]%not_elem_of_nil]%elem_of_cons]%elem_of_cons; done.
Qed.

Lemma switch_does l cap m id arrived_on hops now : carries l cap m → does l cap m (PacketArrives id arrived_on hops now).
Proof.
  intros (rows & Hr & Hnd & -> & Hd). unfold does. cbn [transported_do]. unfold switch_through.
  assert (Hsame : carries l cap (entries tl_link_id rows)) by (by exists rows).
  destruct (row_cases l cap rows id Hr Hnd) as [(i & e & -> & Hi & -> & Hm)|[-> Hm]]; cbn [mbind run_bind].
  2: { eexists _, l, _. split; [done|]. split; [|done]. apply SwitchRefused. by apply NoSuchLink. }
  destruct (tl_validated_by_proof e) eqn:Hv; cbn [negb].
  2: { eexists _, l, _. split; [done|]. split; [|done]. apply SwitchRefused. by eapply NotYet. }
  pose proof (switch_side_ok _ _ e arrived_on hops Hm Hv) as Hside. destruct (switch_side e arrived_on hops) as [out|error].
  - destruct (rewritten_ok l cap rows i e (with_last_active now e) Hr Hnd Hi eq_refl) as (l' & -> & Hl'). cbn [mbind run_bind].
    eexists _, l', _. split; [done|]. split; [|exact Hl']. by apply IsSwitched.
  - eexists _, l, _. split; [done|]. split; [|done]. by apply SwitchRefused.
Qed.

Lemma pop_does l cap m now : carries l cap m → does l cap m (PopOverdue now).
Proof.
  intros (rows & Hr & Hnd & -> & Hd). unfold does. cbn [transported_do]. unfold pop_overdue_transported.
  destruct (tb_overdue_ok _ cap rows now Hr) as (found & t' & -> & Hr' & Hf). cbn [mbind run_bind]. destruct found as [i|].
  - destruct Hf as (e & Hi & Hdue). destruct (tb_entries_ok _ _ _ Hr') as (_ & _ & -> & _). rewrite Hi.
    destruct (tb_swap_remove_ok _ cap rows i Hr' (lookup_lt_Some _ _ _ Hi)) as (t2 & -> & Hr2). cbn [mbind run_bind].
    destruct (entries_removed tl_link_id rows i e Hnd Hi) as [E Hnd']. destruct (refreshed_ok t2 cap _ Hr2 Hnd') as (l' & -> & Hl'). cbn [mbind run_bind].
    eexists _, l', _. split; [done|]. split; [|exact Hl']. rewrite E. apply IsPopped; [|done]. apply entries_some; [done|]. by eapply list_elem_of_lookup_2.
  - eexists _, _, _. split; [done|]. split; [|by exists rows]. apply NoneOverdue. intros id e [He _]%entries_row. by eapply list.Forall_forall in Hf.
Qed.

Lemma entries_filter rows rows' (P : TransportedLink → bool) b :
  NoDup (tl_link_id <$> rows) → rows' ≡ₚ filter (λ e, negb (P e) = b) rows →
  entries tl_link_id rows' = filter (λ p, P p.2 = negb b) (entries tl_link_id rows) ∧ NoDup (tl_link_id <$> rows').
Proof.
  intros Hnd Hp. assert (Hnd' : NoDup (tl_link_id <$> rows')).
  { rewrite Hp. eapply submseteq_NoDup; [exact Hnd|]. apply fmap_submseteq. apply sublist_submseteq, sublist_filter. }
  split; [|done]. apply map_eq. intros k. apply option_eq. intros e. rewrite map_lookup_filter_Some, !entries_iff by done. rewrite Hp, list_elem_of_filter.
  cbn. rewrite <- (negb_involutive (P e)) at 2. split; intros H; repeat split; try tauto; destruct H as [H1 H2]; try destruct H1; destruct b, (P e); done.
Qed.

Lemma orphans_loop_ok fuel t cap rows i present culled :
  tb_rep t cap rows → length rows - i < fuel →
  ∃ t', transported_orphans_loop fuel t i present culled
      = Done (culled ++ ((sweep (λ e, negb (keeps present e)) fuel i rows).2 ≫= sides), t')
    ∧ tb_rep t' cap (sweep (λ e, negb (keeps present e)) fuel i rows).1.
Proof.
  revert t rows i culled. induction fuel as [|fuel IH]; intros t rows i culled Hr Hf; [lia|]. cbn [transported_orphans_loop sweep].
  destruct (tb_entries_ok _ _ _ Hr) as (_ & -> & -> & _). destruct (rows !! i) as [e|] eqn:Hi.
  - pose proof (lookup_lt_Some _ _ _ Hi) as Hlt. rewrite (proj2 (Nat.ltb_lt _ _)) by done. rewrite (index_lookup _ i e) by done. cbn [mbind run_bind].
    fold (keeps present e). destruct (keeps present e); cbn [negb]; [apply IH; [done|lia]|].
    destruct (tb_swap_remove_ok t cap rows i Hr Hlt) as (t' & -> & Hr'). cbn [mbind run_bind fst snd].
    destruct (IH t' (swap_removed rows i) i (culled ++ [tl_next_hop_interface e; tl_received_interface e]) Hr') as (t2 & -> & Hr2).
    { rewrite length_swap_removed by done. lia. }
    exists t2. split; [|done]. do 2 f_equal. rewrite <- app_assoc. done.
  - rewrite (proj2 (Nat.ltb_ge _ _)) by (by apply lookup_ge_None). exists t. cbn. by rewrite app_nil_r.
Qed.

Lemma orphans_does l cap m present : carries l cap m → does l cap m (CullOrphans present).
Proof.
  intros (rows & Hr & Hnd & -> & Hd). unfold does. cbn [transported_do]. unfold cull_transported_orphans.
  destruct (tb_entries_ok _ _ _ Hr) as (_ & -> & _ & _).
  destruct (orphans_loop_ok (S (length rows)) _ cap rows 0 present [] Hr) as (t' & -> & Hr'); [lia|]. cbn [mbind run_bind app].
  destruct (sweep_all (λ e, negb (keeps present e)) rows) as [Hkept Hgone].
  destruct (entries_filter rows _ (keeps present) false Hnd Hkept) as [E Hnd']. destruct (entries_filter rows _ (keeps present) true Hnd Hgone) as [Eg Hndg].
  destruct (refreshed_ok t' cap _ Hr' Hnd') as (l' & -> & Hl'). cbn [mbind run_bind]. eexists _, l', _. split; [done|]. split; [|exact Hl'].
  rewrite E. cbn [negb]. by eapply AreCulled.
Qed.

Lemma transported_does l cap m op : carries l cap m → (Z.of_nat (size m) < u32_max)%Z → does l cap m op.
Proof.
  intros Hl Hmax. destruct op; [by apply track_does|by apply validate_does|by apply rebalance_does|by apply switch_does|by apply pop_does|by apply orphans_does].
Qed.

Lemma carried_size cap m op a m' : carried cap m op a m' → size m' ≤ S (size m).
Proof.
  assert (Hover : ∀ id e e', m !! id = Some e → size (<[id := e']> m) ≤ S (size m)).
  { intros id e e' Hm. rewrite map_size_insert_Some by (by exists e). lia. }
  intros [e Hn _|e _|e _ _|id e now Hm _|id e hops now Hm _ _|id a0 hops now er _|id a0 hops now er _|id e a0 hops now out Hm _ _|id a0 hops now er _|id e now Hm _|now _|present over gone _ _ _]; try lia;
    try (by eapply Hover).
  - rewrite map_size_insert_None by done. lia.
  - rewrite map_size_delete_Some by (by exists e). lia.
  - etransitivity; [apply map_subseteq_size, map_filter_subseteq|lia].
Qed.

Lemma transported_runs l cap m ops :
  carries l cap m → (Z.of_nat (size m + length ops) ≤ u32_max)%Z →
  ∃ trace l' m', transported_run l ops = Done (trace, l') ∧ trace.*1 = ops ∧ carried_all cap m trace m' ∧ carries l' cap m'.
Proof.
  revert l m. induction ops as [|op ops IH]; intros l m Hl Hmax; cbn [transported_run].
  { exists [], l, m. split_and!; [done|done|constructor|done]. }
  cbn in Hmax. destruct (transported_does l cap m op Hl) as (a & l1 & m1 & -> & Hc & Hl1); [lia|]. cbn [mbind run_bind].
  apply carried_size in Hc as Hs. destruct (IH l1 m1 Hl1) as (trace & l' & m' & -> & Et & Hc' & Hl'); [lia|]. cbn [mbind run_bind].
  exists ((op, a) :: trace), l', m'. split_and!; [done|by cbn; rewrite Et|by econstructor|done].
Qed.

(** C27. The links carried for others follow the rules.  On both tables every operation returns, and what it answers and
    leaves is what the rules of [carried] allow: a proof validates a row once, over its next hop and with its hop
    count; packets cross a validated row from side to side with the hop count of the side; every refusal has its
    reason and changes nothing; only overdue or orphaned rows go; and the cached deadline stays the earliest. *)
Theorem transported_links_follow_rules l cap m ops :
  carries l cap m → (Z.of_nat (size m + length ops) ≤ u32_max)%Z →
  ∃ trace l' m', transported_run l ops = Done (trace, l') ∧ trace.*1 = ops ∧ carried_all cap m trace m' ∧ carries l' cap m'.
Proof. apply transported_runs. Qed.
End refinement.

(** * Nothing crosses before its proof *)

Lemma carried_split cap m past op a rest m'' :
  carried_all cap m (past ++ (op, a) :: rest) m'' → ∃ m1 m2, carried_all cap m past m1 ∧ carried cap m1 op a m2 ∧ carried_all cap m2 rest m''.
Proof.
  revert m. induction past as [|[op0 a0] past IH]; intros m Hc; inversion Hc; subst.
  - eexists _, _. split; [constructor|]. split; eassumption.
  - destruct (IH _ ltac:(eassumption)) as (m1 & m2 & H1 & H2). exists m1, m2. split; [by econstructor|done].
Qed.

(** What happens while the row of [e] stays. *)
Definition leaves (e : TransportedLink) (step : transported_op * transported_answer) : Prop :=
  match step with
  | (PopOverdue _, Popped (Some gone)) => tl_link_id gone ≠ tl_link_id e
  | (CullOrphans present, _) => keeps present e = true
  | _ => True
  end.

(** The proof of [e], with the hop count it came with. *)
Inductive is_proof (e : TransportedLink) (hops : Z) : transported_op * transported_answer → Prop :=
  | ExactProof now : hops = tl_remaining_hops e →
      is_proof e hops (ProofArrives (tl_link_id e) (tl_next_hop_interface e) hops now, ProofAnswer (Ok (mkSwitch (tl_received_interface e))))
  | OtherProof now : hops ≠ tl_remaining_hops e →
      is_proof e hops (RebalancedProofArrives (tl_link_id e) (tl_next_hop_interface e) hops now, ProofAnswer (Ok (mkSwitch (tl_received_interface e)))).

Definition tracked_since (past : list (transported_op * transported_answer)) (e : TransportedLink) : Prop :=
  ∃ before after, past = before ++ (Track e, TrackAnswer (Ok ())) :: after ∧ Forall (leaves e) after.
Definition proved_since (past : list (transported_op * transported_answer)) (e : TransportedLink) (hops : Z) : Prop :=
  ∃ before middle proof after, past = before ++ (Track e, TrackAnswer (Ok ())) :: middle ++ proof :: after
    ∧ is_proof e hops proof ∧ Forall (leaves e) (middle ++ proof :: after).

(** What never changes of a row. *)
Definition same_link (e e' : TransportedLink) : Prop :=
  tl_link_id e = tl_link_id e' ∧ tl_next_hop_interface e = tl_next_hop_interface e'
  ∧ tl_received_interface e = tl_received_interface e' ∧ tl_taken_hops e = tl_taken_hops e'.

Definition row_traced (past : list (transported_op * transported_answer)) (e : TransportedLink) : Prop :=
  ∃ e0, same_link e0 e
    ∧ if tl_validated_by_proof e then proved_since past e0 (tl_remaining_hops e)
      else tracked_since past e0 ∧ tl_remaining_hops e0 = tl_remaining_hops e.

Lemma tracked_longer past e step : tracked_since past e → leaves e step → tracked_since (past ++ [step]) e.
Proof.
  intros (before & after & -> & Hl) Hs. exists before, (after ++ [step]). split; [by rewrite <- app_assoc|]. apply Forall_app. split; [done|by constructor].
Qed.
Lemma proved_longer past e hops step : proved_since past e hops → leaves e step → proved_since (past ++ [step]) e hops.
Proof.
  intros (before & middle & proof & after & -> & Hp & Hl) Hs. exists before, middle, proof, (after ++ [step]). split_and!; [|done|].
  - rewrite <- !app_assoc. cbn. by rewrite <- app_assoc.
  - rewrite app_comm_cons, app_assoc. apply Forall_app. split; [done|by constructor].
Qed.
Lemma proved_now past e hops step : tracked_since past e → is_proof e hops step → proved_since (past ++ [step]) e hops.
Proof.
  intros (before & after & -> & Hl) Hp. exists before, after, step, []. split_and!; [by rewrite <- app_assoc|done|].
  apply Forall_app. split; [done|]. constructor; [|constructor]. by destruct Hp.
Qed.
Lemma traced_longer past e step : row_traced past e → (∀ e0, same_link e0 e → leaves e0 step) → row_traced (past ++ [step]) e.
Proof.
  intros (e0 & Hsame & Hst) Hs. exists e0. split; [done|]. specialize (Hs e0 Hsame). destruct (tl_validated_by_proof e).
  - by apply proved_longer.
  - destruct Hst. split; [by apply tracked_longer|done].
Qed.
Lemma traced_validated past id e hops now step :
  row_traced past e → tl_link_id e = id → tl_validated_by_proof e = false →
  (∀ e0, same_link e0 e → tl_remaining_hops e0 = tl_remaining_hops e → is_proof e0 hops step) → row_traced (past ++ [step]) (with_validated hops now e).
Proof.
  intros (e0 & Hsame & Hst) Hid Hv Hp. rewrite Hv in Hst. destruct Hst as [Ht Hr]. exists e0. split; [done|]. cbn. apply proved_now; [done|]. by apply Hp.
Qed.

(** Entries are tracked before they are validated, as [ingest_transported_link_request] does. *)
Definition tracks_unproved (op : transported_op) : Prop := match op with Track e => tl_validated_by_proof e = false | _ => True end.

Definition all_traced (past : list (transported_op * transported_answer)) (m : transported_map) : Prop :=
  ∀ id e, m !! id = Some e → tl_link_id e = id ∧ row_traced past e.

(** A step that changes the row of [id] only. *)
Lemma traced_insert past m step id e' :
  all_traced past m → (∀ e, leaves e step) → tl_link_id e' = id → row_traced (past ++ [step]) e' → all_traced (past ++ [step]) (<[id := e']> m).
Proof.
  intros Hall Hs Hid He' id1 e1 H1. destruct (decide (id = id1)) as [<-|Hne].
  - rewrite lookup_insert_eq in H1. injection H1 as <-. done.
  - rewrite lookup_insert_ne in H1 by done. destruct (Hall id1 e1 H1). split; [done|]. by apply traced_longer.
Qed.
Lemma traced_same past m step : all_traced past m → (∀ e, leaves e step) → all_traced (past ++ [step]) m.
Proof. intros Hall Hs id e He. destruct (Hall id e He). split; [done|]. by apply traced_longer. Qed.

Lemma carried_traced cap past m op a m' :
  all_traced past m → tracks_unproved op → carried cap m op a m' → all_traced (past ++ [(op, a)]) m'.
Proof.
  intros Hall Hop Hc. revert Hop.
  destruct Hc as [e Hn _|e _|e _ _|id e now Hm Hv|id e hops now Hm Hv Hh|id a0 hops now er _|id a0 hops now er _|id e a0 hops now out Hm Hv _|id a0 hops now er _|id e now Hm _|now _|present over gone _ _ _];
    intros Hop; try (by apply traced_same).
  - apply traced_insert; [done|done|done|]. exists e. split; [done|]. rewrite (Hop : tl_validated_by_proof e = false). split; [|done]. by exists past, [].
  - destruct (Hall id e Hm) as [Hid Ht]. apply traced_insert; [done|done|done|]. eapply traced_validated; [done|done|done|].
    intros e0 (E1 & E2 & E3 & _) E4. rewrite <- Hid, <- E1, <- E2, <- E3, <- ?E4. constructor; congruence.
  - destruct (Hall id e Hm) as [Hid Ht]. apply traced_insert; [done|done|done|]. eapply traced_validated; [done|done|done|].
    intros e0 (E1 & E2 & E3 & _) E4. rewrite <- Hid, <- E1, <- E2, <- E3, <- ?E4. constructor; congruence.
  - destruct (Hall id e Hm) as [Hid Ht]. apply traced_insert; [done|done|done|]. apply (traced_longer past e (PacketArrives id a0 hops now, SwitchAnswer (Ok (mkSwitch out)))); done.
  - destruct (Hall id e Hm) as [Hid _]. intros id1 e1 [Hne H1]%lookup_delete_Some. destruct (Hall id1 e1 H1) as [Hid1 Ht1]. split; [done|]. apply traced_longer; [done|].
    intros e0 [E _]. cbn. congruence.
  - intros id1 e1 [H1 Hk]%map_lookup_filter_Some. destruct (Hall id1 e1 H1) as [Hid1 Ht1]. split; [done|]. apply traced_longer; [done|].
    intros e0 (_ & E1 & E2 & _). cbn in *. unfold keeps in *. by rewrite E1, E2.
Qed.

Lemma carried_all_traced cap past m :
  Forall tracks_unproved past.*1 → carried_all cap ∅ past m → all_traced past m.
Proof.
  revert m. induction past as [|[op a] past IH] using rev_ind; intros m Hops Hc.
  { inversion Hc; subst. intros id e He. by rewrite lookup_empty in He. }
  rewrite fmap_app in Hops. apply Forall_app in Hops as [Hops [Hop _]%list.Forall_cons].
  destruct (carried_split cap ∅ past op a [] m Hc) as (m1 & m2 & H1 & H2 & H3). inversion H3; subst.
  eapply carried_traced; [by apply IH|done|done].
Qed.

(** Nothing crosses before its proof.  From an empty table, whatever arrives in whatever order: a packet of a link is
    sent on only if the link was tracked and afterwards, over its next hop, proved, and its row has stayed since; and
    it goes from one side of the link to the other, with the hop count of the side it came from. *)
Theorem nothing_crosses_unproved {T} `{!TransportedLinkTable T} `{!TransportedTableLaws T} (l : TransportedLinks T) cap ops trace l' past link_id arrived_on hops now switch rest :
  carries l cap ∅ → (Z.of_nat (length ops) ≤ u32_max)%Z → Forall tracks_unproved ops → transported_run l ops = Done (trace, l') →
  trace = past ++ (PacketArrives link_id arrived_on hops now, SwitchAnswer (Ok switch)) :: rest →
  ∃ e returned, tl_link_id e = link_id ∧ proved_since past e returned
    ∧ crosses (with_validated returned now e) arrived_on hops (fire_on switch).
Proof.
  intros Hl Hmax Hops E ->. destruct (transported_runs l cap ∅ ops Hl) as (trace & l2 & m' & E2 & Hfst & Hc & _); [by rewrite map_size_empty|].
  rewrite E in E2. injection E2 as <- <-. destruct (carried_split _ _ _ _ _ _ _ Hc) as (m1 & m2 & H1 & H2 & _).
  rewrite <- Hfst, fmap_app in Hops. apply Forall_app in Hops as [Hops _]. inversion H2; subst.
  destruct (carried_all_traced cap past m1 Hops H1 link_id e ltac:(done)) as [Hid (e0 & (S1 & S2 & S3 & S4) & Hp)].
  destruct (tl_validated_by_proof e); [|done]. exists e0, (tl_remaining_hops e). split; [by rewrite S1|]. split; [done|]. cbn.
  match goal with Hx : crosses e _ _ _ |- _ => destruct Hx as [A B C|A B C|A B] end.
  - rewrite <- S2. apply (Outward (with_validated (tl_remaining_hops e) now e0)); cbn; congruence.
  - rewrite <- S3. apply (Homeward (with_validated (tl_remaining_hops e) now e0)); cbn; congruence.
  - rewrite <- S2. apply (OnOneInterface (with_validated (tl_remaining_hops e) now e0)); cbn; [congruence|]. destruct B; [by left|right; congruence].
Qed.

(** * Witnesses *)

#[local] Existing Instance list_push.
#[local] Existing Instance list_remove.
#[local] Existing Instance list_queue_laws.
#[local] Existing Instance list_extend.
#[local] Existing Instance list_extend_laws.
#[local] Abbreviation two_transported := (fixed_transported (MAX_TRANSIT_LINKS := 2)).
#[local] Abbreviation two_transported_laws := (fixed_transported_laws (MAX := 2)).

Definition sample_transported (link : Z) : TransportedLink :=
  mkTransported (replicate 16 link) (replicate 16 0xDD%Z) (mkHandle 1%Z 0%Z) Aes256Cbc (Some (replicate 16 0x77%Z)) (replicate 8 0xB2%Z) (replicate 8 0xA1%Z) 1%Z 3%Z false 1000%Z 9000%Z.
(** A link tracked; a packet before its proof, its proof, a packet out and one back, with a wrong and with the right
    hop count; a second and a third link, which does not fit; the second, never proved, is overdue. *)
Definition sample_traffic : list transported_op :=
  [Track (sample_transported 1);
   PacketArrives (replicate 16 1%Z) (replicate 8 0xA1%Z) 1 1500;
   ProofArrives (replicate 16 1%Z) (replicate 8 0xB2%Z) 3 2000;
   PacketArrives (replicate 16 1%Z) (replicate 8 0xB2%Z) 1 2100;
   PacketArrives (replicate 16 1%Z) (replicate 8 0xB2%Z) 3 2200;
   Track (sample_transported 2);
   Track (sample_transported 3);
   PopOverdue 9000].
Definition no_transported : TransportedLinks FixedTransportedLinkTable := mkTransportedLinks fixed_transported_default None.

Lemma no_transported_carries : carries (TransportedTableLaws0 := two_transported_laws) no_transported 2 ∅.
Proof. exists []. split; [exact (fixed_transported_default_rep (MAX := 2))|]. split; [constructor|done]. Qed.

Lemma transported_links_follow_rules_witness :
  ∃ trace l' m', transported_run (TransportedLinkTable0 := two_transported) no_transported sample_traffic = Done (trace, l')
    ∧ carried_all 2 ∅ trace m' ∧ carries (TransportedTableLaws0 := two_transported_laws) l' 2 m'
    ∧ trace.*2 = [TrackAnswer (Ok ()); SwitchAnswer (Err NotValidated); ProofAnswer (Ok (mkSwitch (replicate 8 0xA1%Z)));
                  SwitchAnswer (Err SwitchHopMismatch); SwitchAnswer (Ok (mkSwitch (replicate 8 0xA1%Z)));
                  TrackAnswer (Ok ()); TrackAnswer (Err TransportedTableFull); Popped (Some (sample_transported 2))].
Proof.
  destruct (transported_links_follow_rules (TransportedTableLaws0 := two_transported_laws) no_transported 2 ∅ sample_traffic no_transported_carries) as (trace & l' & m' & E & _ & Hc & Hl).
  - vm_compute. discriminate.
  - exists trace, l', m'. split; [exact E|]. split; [exact Hc|]. split; [exact Hl|]. revert E. vm_compute. intros [= <- _]. reflexivity.
Defined.

Lemma nothing_crosses_unproved_witness :
  ∃ trace l', transported_run (TransportedLinkTable0 := two_transported) no_transported (take 5 sample_traffic) = Done (trace, l')
    ∧ ∃ e returned, tl_link_id e = replicate 16 1%Z ∧ proved_since (take 4 trace) e returned
      ∧ crosses (with_validated returned 2200 e) (replicate 8 0xB2%Z) 3 (replicate 8 0xA1%Z).
Proof.
  eexists _, _. split; [reflexivity|].
  eapply (nothing_crosses_unproved (TransportedTableLaws0 := two_transported_laws) no_transported 2 (take 5 sample_traffic)) with (rest := []) (switch := mkSwitch (replicate 8 0xA1%Z)).
  - exact no_transported_carries.
  - vm_compute. discriminate.
  - repeat constructor.
  - reflexivity.
  - reflexivity.
Defined.
