(* ===== verification/AnnounceWire.v ===== *)
(** The bytes of an announce: [routing/announce/mod.rs] and [routing/announce/wire.rs].

    An announce names its destination in the packet's header, and carries the keys of its identity, the hash of its
    name, its id, perhaps a ratchet, a signature over all of these, and data of the app.  Ed25519 is a parameter
    with its documented laws. *)

From S2P Require Import Prelude AppData Wire Dedup Columns Routes Announce Links RoutingTable Upstream.

Definition RATCHET_BYTE_LEN : nat := 32.
Definition X25519_KEY_LEN : nat := 32.
Definition ED25519_KEY_LEN : nat := 32.

(** * Signatures *)

(** The crate [ed25519_dalek]: [VerifyingKey::from_bytes], [verify], [sign] and [verifying_key]. *)
Class Ed25519 := {
  VerifyingKey : Type;
  SigningKey : Type;
  verifying_key_from_bytes : list Z → option VerifyingKey;
  verifying_key_verify : VerifyingKey → list Z → list Z → bool;
  signing_key_sign : SigningKey → list Z → list Z;
  signing_key_public : SigningKey → list Z;
}.
(** Its documentation: a key of 32 bytes, signatures of 64, and the signatures of a key verify under its public key. *)
Class Ed25519Laws `{Ed25519} : Prop := {
  ed_public_len : ∀ secret, length (signing_key_public secret) = ED25519_KEY_LEN;
  ed_signature_len : ∀ secret message, length (signing_key_sign secret message) = SIGNATURE_BYTE_LEN;
  ed_verifies : ∀ secret message, ∃ key, verifying_key_from_bytes (signing_key_public secret) = Some key
    ∧ verifying_key_verify key message (signing_key_sign secret message) = true;
}.

(** [ed25519_verify(..).is_ok()] *)
Definition ed25519_verify `{Ed25519} (key message signature : list Z) : bool :=
  match verifying_key_from_bytes key with
  | None => false
  | Some verifier => verifying_key_verify verifier message signature
  end.

(** The trait [IdentitySigner]; [InMemoryNodeIdentity] signs with its secret. *)
Record IdentitySigner := mkSigner {
  sg_encryption_public_key : list Z;
  sg_signing_public_key : list Z;
  sg_sign : list Z → list Z;
}.
Definition in_memory_signer `{Ed25519} (encryption_public : list Z) (secret : SigningKey) : IdentitySigner :=
  mkSigner encryption_public (signing_key_public secret) (signing_key_sign secret).

(** * Writing *)

Definition wire_bytes (a : AnnounceMessage) : nat :=
  let ratchet_len := match an_ratchet a with Some _ => RATCHET_BYTE_LEN | None => 0 end in
  ANNOUNCE_PUBLIC_KEY_BYTE_LEN + DOTTED_NAME_HASH_BYTE_LEN + ANNOUNCE_ID_WIRE_LEN + ratchet_len + SIGNATURE_BYTE_LEN
  + length (an_app_data a).

Definition write_fields_before_signature (a : AnnounceMessage) (buf : list Z) (offset : nat) : run (nat * list Z) :=
  buf ← copy_into buf offset (encryption (an_public_keys a));
  let offset := offset + X25519_KEY_LEN in
  buf ← copy_into buf offset (signing (an_public_keys a));
  let offset := offset + ED25519_KEY_LEN in
  buf ← copy_into buf offset (an_dotted_name_hash a);
  let offset := offset + DOTTED_NAME_HASH_BYTE_LEN in
  buf ← copy_into buf offset (to_wire_bytes (an_announce_id a));
  let offset := offset + ANNOUNCE_ID_WIRE_LEN in
  match an_ratchet a with
  | Some ratchet => buf ← copy_into buf offset ratchet; Done (offset + RATCHET_BYTE_LEN, buf)
  | None => Done (offset, buf)
  end.

(** [BufferTooShort] of this module. *)
Inductive AnnounceBufferError := AnnounceBufferTooShort.

Definition write_signed_material (a : AnnounceMessage) (buf : list Z) : run (result AnnounceBufferError nat * list Z) :=
  let total := TRUNCATED_HASH_BYTE_LEN + wire_bytes a - SIGNATURE_BYTE_LEN in
  if (length buf <? total)%nat then Done (Err AnnounceBufferTooShort, buf) else
  buf ← copy_into buf 0 (an_destination a);
  '(offset, buf) ← write_fields_before_signature a buf TRUNCATED_HASH_BYTE_LEN;
  buf ← copy_into buf offset (an_app_data a);
  Done (Ok (offset + length (an_app_data a)), buf).

Definition announce_to_wire (a : AnnounceMessage) (buf : list Z) : run (result AnnounceBufferError nat * list Z) :=
  let total := wire_bytes a in
  if (length buf <? total)%nat then Done (Err AnnounceBufferTooShort, buf) else
  '(offset, buf) ← write_fields_before_signature a buf 0;
  buf ← copy_into buf offset (an_signature a);
  let offset := offset + SIGNATURE_BYTE_LEN in
  buf ← copy_into buf offset (an_app_data a);
  Done (Ok (offset + length (an_app_data a)), buf).

(** ** Packets *)

Definition announce_header (a : AnnounceMessage) (hops : Z) (propagation : PropagationType) (transport_id : option TransportId)
    (context : WireContext) : WirePacketHeader :=
  mkHeader Open (match an_ratchet a with Some _ => ContextSet | None => ContextUnset end) propagation Single Wire.Announce hops transport_id
    (an_destination a) context.

Definition frame_announce_wire_packet (a : AnnounceMessage) (hops : Z) (propagation : PropagationType) (transport_id : option TransportId)
    (context : WireContext) (buf : list Z) : run (result WireError nat * list Z) :=
  let header := announce_header a hops propagation transport_id context in
  let header_len := match transport_id with Some _ => HEADER_MAX_LEN | None => HEADER_MIN_LEN end in
  let total_len := header_len + wire_bytes a in
  if (length buf <? total_len)%nat then Done (Err BufferTooShort, buf) else
  head ← slice buf 0 header_len;
  '(written, head) ← Wire.write header head;
  let buf := head ++ drop header_len buf in
  match written with
  | Err e => Done (Err e, buf)
  | Ok _ =>
      tail ← slice buf header_len (length buf);
      '(written, tail) ← announce_to_wire a tail;
      let buf := take header_len buf ++ tail in
      match written with
      | Err _ => Done (Err BufferTooShort, buf)
      | Ok _ => Done (Ok total_len, buf)
      end
  end.

Definition write_announce_wire_packet (a : AnnounceMessage) (hops : Z) (buf : list Z) :=
  frame_announce_wire_packet a hops Broadcast None CtxNone buf.
Definition write_path_response_announce_wire_packet (a : AnnounceMessage) (hops : Z) (buf : list Z) :=
  frame_announce_wire_packet a hops Broadcast None CtxPathResponse buf.
Definition write_retransmitted_announce_wire_packet (a : AnnounceMessage) (hops : Z) (via : TransportId) (buf : list Z) :=
  frame_announce_wire_packet a hops Transport (Some via) CtxNone buf.
Definition write_relayed_path_response_wire_packet (a : AnnounceMessage) (hops : Z) (via : TransportId) (buf : list Z) :=
  frame_announce_wire_packet a hops Transport (Some via) CtxPathResponse buf.

Definition originated_header (destination : DestinationHash) (has_ratchet path_response : bool) : WirePacketHeader :=
  mkHeader Open (if has_ratchet then ContextSet else ContextUnset) Broadcast Single Wire.Announce 0 None destination
    (if path_response then CtxPathResponse else CtxNone).

(** The packet of an announce signed elsewhere: the signature goes between the fields and the app's data. *)
Definition write_originated_announce_from_signed_material (destination : DestinationHash) (has_ratchet path_response : bool)
    (signed_material : list Z) (fields_before_signature : nat) (signature buf : list Z) : run (result WireError nat * list Z) :=
  if (length signed_material <? TRUNCATED_HASH_BYTE_LEN)%nat then Done (Err BufferTooShort, buf) else
  let payload_without_signature := drop TRUNCATED_HASH_BYTE_LEN signed_material in
  match split_at_checked fields_before_signature payload_without_signature with
  | None => Done (Err BufferTooShort, buf)
  | Some (fields, app_data) =>
      let total_len := HEADER_MIN_LEN + length fields + length signature + length app_data in
      if (length buf <? total_len)%nat then Done (Err BufferTooShort, buf) else
      head ← slice buf 0 HEADER_MIN_LEN;
      '(written, head) ← Wire.write (originated_header destination has_ratchet path_response) head;
      let buf := head ++ drop HEADER_MIN_LEN buf in
      match written with
      | Err e => Done (Err e, buf)
      | Ok _ =>
          buf ← copy_into buf HEADER_MIN_LEN fields;
          let offset := HEADER_MIN_LEN + length fields in
          buf ← copy_into buf offset signature;
          let offset := offset + length signature in
          buf ← copy_into buf offset app_data;
          Done (Ok total_len, buf)
      end
  end.

(** * Reading and signing *)

Inductive AnnounceValidationError :=
  NotAnnounce | NotSingleDestination | PayloadTooSmall | PayloadTooBig | InvalidSignature | DestinationMismatch.
Inductive AnnounceBuildError := AnnounceTooLarge.

(** [split_first_chunk().ok_or(PayloadTooSmall)?] *)
Definition field (n : nat) (rest : list Z) : result AnnounceValidationError (list Z * list Z) := ok_or PayloadTooSmall (split_at_checked n rest).

Section crypto.
Context `{Sha256} `{Ed25519}.

(** The fields of the payload, before the destination is compared. *)
Definition parse_announce (has_ratchet : bool) (destination : DestinationHash) (payload : list Z) : result AnnounceValidationError AnnounceMessage :=
  '(encryption, rest) ← field X25519_KEY_LEN payload;
  '(signing, rest) ← field ED25519_KEY_LEN rest;
  '(name_hash, rest) ← field DOTTED_NAME_HASH_BYTE_LEN rest;
  '(announce_id, rest) ← field ANNOUNCE_ID_WIRE_LEN rest;
  '(ratchet, rest) ← (if has_ratchet then '(ratchet, rest) ← field RATCHET_BYTE_LEN rest; Ok (Some ratchet, rest) else Ok (None, rest));
  '(signature, app_data) ← field SIGNATURE_BYTE_LEN rest;
  Ok (mkAnnounce destination (mkKeys encryption signing) name_hash (AnnounceId_from_wire announce_id) ratchet signature app_data).

Definition from_wire_unverified_with_identity (header : WirePacketHeader) (payload : list Z) :
    run (result AnnounceValidationError (AnnounceMessage * IdentityHash)) :=
  if negb (bool_decide (packet_type header = Wire.Announce)) then Done (Err NotAnnounce)
  else if negb (bool_decide (destination_type header = Single)) then Done (Err NotSingleDestination)
  else if (BROADCAST_MTU <? length payload)%nat then Done (Err PayloadTooBig)
  else
    match parse_announce (bool_decide (context_flag header = ContextSet)) (address header) payload with
    | Err e => Done (Err e)
    | Ok a =>
        identity_hash ← derive_identity_hash (an_public_keys a);
        if negb (bool_decide (derive_destination_hash identity_hash (an_dotted_name_hash a) = an_destination a))
        then Done (Err DestinationMismatch) else Done (Ok (a, identity_hash))
    end.

Definition from_wire_unverified (header : WirePacketHeader) (payload : list Z) : run (result AnnounceValidationError AnnounceMessage) :=
  r ← from_wire_unverified_with_identity header payload;
  Done (match r with Ok (a, _) => Ok a | Err e => Err e end).

Definition signature_is_valid (a : AnnounceMessage) : run bool :=
  '(written, scratch) ← write_signed_material a (replicate (TRUNCATED_HASH_BYTE_LEN + BROADCAST_MTU) 0%Z);
  match written with
  | Err _ => Done false
  | Ok signed_bytes =>
      message ← slice scratch 0 signed_bytes;
      Done (ed25519_verify (signing (an_public_keys a)) message (an_signature a))
  end.

Definition announce_from_wire (header : WirePacketHeader) (payload : list Z) : run (result AnnounceValidationError AnnounceMessage) :=
  r ← from_wire_unverified header payload;
  match r with
  | Err e => Done (Err e)
  | Ok a => valid ← signature_is_valid a; Done (if valid : bool then Ok a else Err InvalidSignature)
  end.

Definition with_signature (signature : list Z) (a : AnnounceMessage) : AnnounceMessage :=
  mkAnnounce (an_destination a) (an_public_keys a) (an_dotted_name_hash a) (an_announce_id a) (an_ratchet a) signature (an_app_data a).

Definition build_signed (signer : IdentitySigner) (dotted_name_hash : DottedNameHash) (announce_id : AnnounceId) (ratchet : option (list Z))
    (app_data : list Z) : run (result AnnounceBuildError AnnounceMessage) :=
  let public_keys := mkKeys (sg_encryption_public_key signer) (sg_signing_public_key signer) in
  identity_hash ← derive_identity_hash public_keys;
  let a := mkAnnounce (derive_destination_hash identity_hash dotted_name_hash) public_keys dotted_name_hash announce_id ratchet
    (replicate SIGNATURE_BYTE_LEN 0%Z) app_data in
  '(written, scratch) ← write_signed_material a (replicate (TRUNCATED_HASH_BYTE_LEN + BROADCAST_MTU) 0%Z);
  match written with
  | Err _ => Done (Err AnnounceTooLarge)
  | Ok signed_bytes =>
      message ← slice scratch 0 signed_bytes;
      Done (Ok (with_signature (sg_sign signer message) a))
  end.
End crypto.
