(* ===== verification/AnnounceWireProofs.v ===== *)
(** What the bytes of announces ([AnnounceWire]) promise: what is read is what was written, byte for byte, and an
    announce that its owner signed is accepted by whoever receives it. *)

From S2P Require Import Prelude AppData Wire Dedup Columns Routes Announce Links RoutingTable Upstream AnnounceWire.

Record announce_wf (a : AnnounceMessage) : Prop := {
  aw_destination : length (an_destination a) = TRUNCATED_HASH_BYTE_LEN;
  aw_encryption : length (encryption (an_public_keys a)) = X25519_KEY_LEN;
  aw_signing : length (signing (an_public_keys a)) = ED25519_KEY_LEN;
  aw_name : length (an_dotted_name_hash a) = DOTTED_NAME_HASH_BYTE_LEN;
  aw_id : length (nonce (an_announce_id a)) = NONCE_LEN ∧ length (timebase (an_announce_id a)) = TIMEBASE_LEN;
  aw_ratchet : match an_ratchet a with Some ratchet => length ratchet = RATCHET_BYTE_LEN | None => True end;
  aw_signature : length (an_signature a) = SIGNATURE_BYTE_LEN;
}.

(** The bytes: the fields that are signed first, and the whole payload. *)
Definition fields_of (a : AnnounceMessage) : list Z :=
  encryption (an_public_keys a) ++ signing (an_public_keys a) ++ an_dotted_name_hash a ++ to_wire_bytes (an_announce_id a) ++ default [] (an_ratchet a).
Definition encode_announce (a : AnnounceMessage) : list Z := fields_of a ++ an_signature a ++ an_app_data a.
Definition signed_part (a : AnnounceMessage) : list Z := an_destination a ++ fields_of a ++ an_app_data a.

Lemma length_fields a : announce_wf a → length (fields_of a) + SIGNATURE_BYTE_LEN + length (an_app_data a) = wire_bytes a.
Proof.
  intros [_ He Hs Hn [Hi Ht] Hr _]. unfold fields_of, wire_bytes, to_wire_bytes. rewrite !length_app, He, Hs, Hn, Hi, Ht.
  destruct (an_ratchet a) as [r|]; cbn [default from_option Datatypes.id]; [rewrite Hr|]; cbn; lia.
Qed.
Lemma length_encode_announce a : announce_wf a → length (encode_announce a) = wire_bytes a.
Proof. intros Hwf. rewrite <- (length_fields a Hwf). unfold encode_announce. rewrite !length_app, (aw_signature a Hwf). lia. Qed.
Lemma length_signed_part a : announce_wf a → length (signed_part a) = TRUNCATED_HASH_BYTE_LEN + wire_bytes a - SIGNATURE_BYTE_LEN.
Proof. intros Hwf. rewrite <- (length_fields a Hwf). unfold signed_part. rewrite !length_app, (aw_destination a Hwf). lia. Qed.

(** * Writing *)

(** A field after what is already written. *)
Lemma copy_next {A} (d rest src : list A) n :
  length d = n → length src ≤ length rest → copy_into (d ++ rest) n src = Done ((d ++ src) ++ drop (length src) rest).
Proof.
  intros <- Hl. rewrite copy_into_done by (rewrite length_app; lia). rewrite take_app_length, <- app_assoc. do 3 f_equal.
  rewrite drop_app_ge by lia. f_equal. lia.
Qed.

Ltac next_field :=
  rewrite copy_next; cbn [mbind run_bind]; [|rewrite ?length_app; cbn [length]; lia|rewrite ?length_drop; lia].

Ltac same_tail := repeat match goal with |- ?x ++ _ = ?x ++ _ => apply (f_equal (app x)) end; apply (f_equal2 drop); [lia|done].

Lemma write_fields_ok a d rest offset :
  announce_wf a → length d = offset → length (fields_of a) ≤ length rest →
  write_fields_before_signature a (d ++ rest) offset = Done (offset + length (fields_of a), (d ++ fields_of a) ++ drop (length (fields_of a)) rest).
Proof.
  intros [_ He Hs Hn [Hi Ht] Hr _] Hd Hl. unfold write_fields_before_signature.
  assert (Hid : length (to_wire_bytes (an_announce_id a)) = ANNOUNCE_ID_WIRE_LEN) by (unfold to_wire_bytes; rewrite length_app, Hi, Ht; done).
  assert (Hall : length (fields_of a) = X25519_KEY_LEN + ED25519_KEY_LEN + DOTTED_NAME_HASH_BYTE_LEN + ANNOUNCE_ID_WIRE_LEN + length (default [] (an_ratchet a))).
  { unfold fields_of. rewrite !length_app, Hid. lia. }
  do 4 next_field. unfold fields_of in *. destruct (an_ratchet a) as [r|]; cbn [default from_option Datatypes.id] in *.
  - next_field. rewrite <- !app_assoc, !drop_drop, !length_app. apply f_equal, (f_equal2 pair); [try apply f_equal; lia|same_tail].
  - rewrite app_nil_r, <- !app_assoc, !drop_drop, !length_app. cbn [length] in Hall. apply f_equal, (f_equal2 pair); [try apply f_equal; lia|same_tail].
Qed.

Lemma write_signed_material_ok a buf :
  announce_wf a →
  write_signed_material a buf = Done (if (length buf <? length (signed_part a))%nat then Err AnnounceBufferTooShort else Ok (length (signed_part a)),
    if (length buf <? length (signed_part a))%nat then buf else signed_part a ++ drop (length (signed_part a)) buf).
Proof.
  intros Hwf. unfold write_signed_material. rewrite <- (length_signed_part a Hwf). destruct (Nat.ltb_spec (length buf) (length (signed_part a))) as [|Hl]; [done|].
  unfold signed_part in Hl. rewrite !length_app in Hl. change buf with ([] ++ buf) at 1. pose proof (aw_destination a Hwf) as Hd. next_field.
  rewrite (write_fields_ok a (an_destination a)) by (rewrite ?length_drop; done || lia). cbn [mbind run_bind]. next_field.
  unfold signed_part. rewrite !length_app, <- !app_assoc, !drop_drop. apply f_equal, (f_equal2 pair); [try apply f_equal; lia|same_tail].
Qed.

Lemma announce_to_wire_ok a buf :
  announce_wf a →
  announce_to_wire a buf = Done (if (length buf <? wire_bytes a)%nat then Err AnnounceBufferTooShort else Ok (wire_bytes a),
    if (length buf <? wire_bytes a)%nat then buf else encode_announce a ++ drop (wire_bytes a) buf).
Proof.
  intros Hwf. unfold announce_to_wire. pose proof (length_fields a Hwf) as Hw. destruct (Nat.ltb_spec (length buf) (wire_bytes a)) as [|Hl]; [done|].
  change buf with ([] ++ buf) at 1. pose proof (aw_signature a Hwf) as Hsig. rewrite write_fields_ok by (done || lia). cbn [mbind run_bind app].
  next_field. next_field. unfold encode_announce. rewrite <- !app_assoc, !drop_drop. rewrite <- Hw. apply f_equal, (f_equal2 pair); [try apply f_equal; lia|same_tail].
Qed.

(** ** Packets *)

Lemma announce_header_len a hops propagation via context :
  wire_len (announce_header a hops propagation via context) = match via with Some _ => HEADER_MAX_LEN | None => HEADER_MIN_LEN end.
Proof. by destruct via. Qed.

Lemma frame_announce_ok a hops propagation via context buf :
  announce_wf a → header_wf (announce_header a hops propagation via context) →
  let h := announce_header a hops propagation via context in let n := wire_len h + wire_bytes a in
  frame_announce_wire_packet a hops propagation via context buf
  = Done (if (length buf <? n)%nat then Err BufferTooShort else Ok n,
          if (length buf <? n)%nat then buf else (encode_header h ++ encode_announce a) ++ drop n buf).
Proof.
  intros Hwf Hh h n. unfold frame_announce_wire_packet. rewrite <- (announce_header_len a hops propagation via context). fold h n.
  destruct (Nat.ltb_spec (length buf) n) as [|Hl]; [done|]. pose proof (length_encode_header h Hh) as Hlh.
  unfold slice. rewrite decide_True by lia. cbn [mbind run_bind]. rewrite Nat.sub_0_r, drop_0, write_spec by done.
  rewrite length_take, decide_False by lia. cbn [mbind run_bind]. rewrite (drop_ge (take _ _)), app_nil_r by (rewrite length_take; lia).
  rewrite decide_True by (rewrite length_app, length_drop; lia). cbn [mbind run_bind].
  rewrite (drop_app_length' (encode_header h)), (take_ge (drop _ _)) by (rewrite ?length_app, ?length_drop; lia).
  rewrite announce_to_wire_ok by done. rewrite length_drop, (proj2 (Nat.ltb_ge _ _)) by lia. cbn [mbind run_bind].
  rewrite (take_app_length' (encode_header h)), drop_drop, <- app_assoc by lia. done.
Qed.

(** * Reading *)

Lemma field_app n (xs ys : list Z) : length xs = n → field n (xs ++ ys) = Ok (xs, ys).
Proof. intros Hl. unfold field. by rewrite split_at_checked_app. Qed.
Lemma field_Ok n rest xs ys : field n rest = Ok (xs, ys) → rest = xs ++ ys ∧ length xs = n.
Proof. unfold field. destruct (split_at_checked n rest) as [[a b]|] eqn:E; [|done]. cbn. intros [= -> ->]. by apply split_at_checked_Some. Qed.

Definition has_ratchet (a : AnnounceMessage) : bool := match an_ratchet a with Some _ => true | None => false end.

Lemma announce_id_roundtrip id : length (nonce id) = NONCE_LEN → AnnounceId_from_wire (to_wire_bytes id) = id.
Proof. intros Hn. destruct id as [n t]. cbn [nonce] in Hn. unfold AnnounceId_from_wire, to_wire_bytes. cbn [nonce timebase]. by rewrite (take_app_length' n t), (drop_app_length' n t). Qed.

Lemma parse_encode_announce a : announce_wf a → parse_announce (has_ratchet a) (an_destination a) (encode_announce a) = Ok a.
Proof.
  intros [_ He Hs Hn [Hi Ht] Hr Hsig]. unfold parse_announce, encode_announce, fields_of. rewrite <- !app_assoc.
  assert (Hid : length (to_wire_bytes (an_announce_id a)) = ANNOUNCE_ID_WIRE_LEN) by (unfold to_wire_bytes; rewrite length_app, Hi, Ht; done).
  do 4 (rewrite field_app by done; cbn [mbind result_bind]). unfold has_ratchet.
  destruct a as [d [e sg] nm id [r|] sig data]; cbn [an_ratchet default from_option Datatypes.id an_signature an_app_data an_announce_id nonce app] in *.
  - do 2 (rewrite field_app by done; cbn [mbind result_bind]). by rewrite announce_id_roundtrip.
  - cbn [mbind result_bind]. rewrite field_app by done. cbn [mbind result_bind]. by rewrite announce_id_roundtrip.
Qed.

Lemma parse_announce_Ok ratcheted d payload a :
  length d = TRUNCATED_HASH_BYTE_LEN → parse_announce ratcheted d payload = Ok a →
  announce_wf a ∧ encode_announce a = payload ∧ an_destination a = d ∧ has_ratchet a = ratcheted.
Proof.
  intros Hd. unfold parse_announce.
  destruct (field X25519_KEY_LEN payload) as [[e r1]|] eqn:E1; [|done]. cbn [mbind result_bind]. apply field_Ok in E1 as [-> L1].
  destruct (field ED25519_KEY_LEN r1) as [[sg r2]|] eqn:E2; [|done]. cbn [mbind result_bind]. apply field_Ok in E2 as [-> L2].
  destruct (field DOTTED_NAME_HASH_BYTE_LEN r2) as [[nm r3]|] eqn:E3; [|done]. cbn [mbind result_bind]. apply field_Ok in E3 as [-> L3].
  destruct (field ANNOUNCE_ID_WIRE_LEN r3) as [[id r4]|] eqn:E4; [|done]. cbn [mbind result_bind]. apply field_Ok in E4 as [-> L4].
  assert (Lid : length (take NONCE_LEN id) = NONCE_LEN ∧ length (drop NONCE_LEN id) = TIMEBASE_LEN).
  { rewrite length_take, length_drop, L4. done. }
  destruct ratcheted.
  - destruct (field RATCHET_BYTE_LEN r4) as [[rt r5]|] eqn:E5; [|done]. cbn [mbind result_bind]. apply field_Ok in E5 as [-> L5].
    destruct (field SIGNATURE_BYTE_LEN r5) as [[sig data]|] eqn:E6; [|done]. cbn [mbind result_bind]. apply field_Ok in E6 as [-> L6].
    intros [= <-]. split; [by split|]. split; [|done]. unfold encode_announce, fields_of, to_wire_bytes. cbn. by rewrite take_drop, <- !app_assoc.
  - cbn [mbind result_bind]. destruct (field SIGNATURE_BYTE_LEN r4) as [[sig data]|] eqn:E6; [|done]. cbn [mbind result_bind]. apply field_Ok in E6 as [-> L6].
    intros [= <-]. split; [by split|]. split; [|done]. unfold encode_announce, fields_of, to_wire_bytes. cbn. by rewrite take_drop, app_nil_r, <- !app_assoc.
Qed.

Section crypto.
Context `{Sha256} `{!Sha256Laws} `{Ed25519}.

(** The hash of the keys is sixteen bytes of a digest. *)
Lemma identity_hash_ok keys : ∃ id, derive_identity_hash keys = Done id ∧ is_hash id.
Proof.
  unfold derive_identity_hash, slice, sha256. destruct (digest_bytes (hasher_update hasher_new (encryption keys ++ signing keys))) as [Hl Hb].
  rewrite decide_True by (rewrite Hl; unfold TRUNCATED_HASH_BYTE_LEN; lia). eexists. split; [done|]. rewrite Nat.sub_0_r, drop_0. split.
  - rewrite length_take, Hl. done.
  - by apply Forall_take.
Qed.
Lemma destination_hash_ok id name : is_hash (derive_destination_hash id name).
Proof.
  unfold derive_destination_hash, sha256. destruct (digest_bytes (hasher_update hasher_new (name ++ id))) as [Hl Hb]. split.
  - rewrite length_take, Hl. done.
  - by apply Forall_take.
Qed.

(** The destination is the one the keys and the name give. *)
Definition owns_destination (a : AnnounceMessage) : Prop :=
  ∃ id, derive_identity_hash (an_public_keys a) = Done id ∧ derive_destination_hash id (an_dotted_name_hash a) = an_destination a.

Lemma from_wire_unverified_ok h payload a id :
  length (address h) = TRUNCATED_HASH_BYTE_LEN →
  from_wire_unverified_with_identity h payload = Done (Ok (a, id)) ↔
  packet_type h = Wire.Announce ∧ destination_type h = Single ∧ length payload ≤ BROADCAST_MTU
  ∧ announce_wf a ∧ payload = encode_announce a ∧ an_destination a = address h ∧ has_ratchet a = bool_decide (context_flag h = ContextSet)
  ∧ derive_identity_hash (an_public_keys a) = Done id ∧ derive_destination_hash id (an_dotted_name_hash a) = an_destination a.
Proof.
  intros Haddr. unfold from_wire_unverified_with_identity. case_bool_decide as Ht; cbn [negb]; [|split; [done|by intros (? & _)]].
  case_bool_decide as Hd; cbn [negb]; [|split; [done|by intros (_ & ? & _)]]. destruct (Nat.ltb_spec BROADCAST_MTU (length payload)) as [Hbig|Hfit].
  { split; [done|]. intros (_ & _ & Hle & _). lia. }
  destruct (parse_announce _ _ payload) as [a0|e] eqn:Ep.
  - apply parse_announce_Ok in Ep as (Hwf & Henc & Hdest & Hrat); [|done]. destruct (identity_hash_ok (an_public_keys a0)) as (id0 & E0 & _). rewrite E0. cbn [mbind run_bind].
    assert (Hsame : ∀ a', announce_wf a' → payload = encode_announce a' → an_destination a' = address h → has_ratchet a' = has_ratchet a0 → a' = a0).
    { intros a' Hwf' -> Hd' Hr'. pose proof (parse_encode_announce a0 Hwf) as P0. pose proof (parse_encode_announce a' Hwf') as P1.
      rewrite Henc, Hdest, <- Hd', <- Hr' in P0. congruence. }
    destruct (bool_decide_reflect (derive_destination_hash id0 (an_dotted_name_hash a0) = an_destination a0)) as [Hown|Hown]; cbn [negb]; split.
    + intros [= <- <-]. by rewrite Hrat.
    + intros (_ & _ & _ & Hwf' & Henc' & Hd' & Hr' & E' & _). assert (a = a0) as -> by (apply Hsame; congruence). congruence.
    + done.
    + intros (_ & _ & _ & Hwf' & Henc' & Hd' & Hr' & E' & Hown'). assert (a = a0) as -> by (apply Hsame; congruence). congruence.
  - split; [done|]. intros (_ & _ & _ & Hwf & -> & Hdest & Hrat & _). pose proof (parse_encode_announce a Hwf) as P. rewrite Hdest, Hrat in P. congruence.
Qed.

(** ** Signatures *)

Lemma signed_slice a :
  announce_wf a → length (signed_part a) ≤ TRUNCATED_HASH_BYTE_LEN + BROADCAST_MTU →
  ∃ scratch, write_signed_material a (replicate (TRUNCATED_HASH_BYTE_LEN + BROADCAST_MTU) 0%Z) = Done (Ok (length (signed_part a)), scratch)
    ∧ slice scratch 0 (length (signed_part a)) = Done (signed_part a).
Proof.
  intros Hwf Hl. rewrite write_signed_material_ok, length_replicate, (proj2 (Nat.ltb_ge _ _)) by done. eexists. split; [done|]. by apply slice_prefix.
Qed.

Lemma signature_is_valid_ok a :
  announce_wf a → wire_bytes a ≤ BROADCAST_MTU →
  signature_is_valid a = Done (ed25519_verify (signing (an_public_keys a)) (signed_part a) (an_signature a)).
Proof.
  intros Hwf Hl. unfold signature_is_valid. pose proof (length_signed_part a Hwf) as Hs. pose proof (length_fields a Hwf) as Hf.
  destruct (signed_slice a Hwf) as (scratch & -> & E); [lia|]. cbn [mbind run_bind]. by rewrite E.
Qed.

(** The announce that [build_signed] answers. *)
Lemma build_signed_ok signer name id ratchet data :
  length (sg_encryption_public_key signer) = X25519_KEY_LEN → length (sg_signing_public_key signer) = ED25519_KEY_LEN →
  length name = DOTTED_NAME_HASH_BYTE_LEN → length (nonce id) = NONCE_LEN ∧ length (timebase id) = TIMEBASE_LEN →
  match ratchet with Some r => length r = RATCHET_BYTE_LEN | None => True end →
  (∀ message, length (sg_sign signer message) = SIGNATURE_BYTE_LEN) →
  ∃ a, announce_wf a ∧ owns_destination a ∧ is_hash (an_destination a)
    ∧ an_public_keys a = mkKeys (sg_encryption_public_key signer) (sg_signing_public_key signer)
    ∧ an_dotted_name_hash a = name ∧ an_announce_id a = id ∧ an_ratchet a = ratchet ∧ an_app_data a = data
    ∧ an_signature a = sg_sign signer (signed_part a)
    ∧ build_signed signer name id ratchet data = Done (if (TRUNCATED_HASH_BYTE_LEN + BROADCAST_MTU <? length (signed_part a))%nat then Err AnnounceTooLarge else Ok a).
Proof.
  intros He Hs Hn Hid Hr Hsig. unfold build_signed. destruct (identity_hash_ok (mkKeys (sg_encryption_public_key signer) (sg_signing_public_key signer))) as (h & E & _).
  rewrite E. cbn [mbind run_bind]. set (a0 := mkAnnounce _ _ _ _ _ _ _). pose proof (destination_hash_ok h name) as Hd.
  assert (Hwf0 : announce_wf a0) by (split; cbn; [apply Hd|done..]).
  exists (with_signature (sg_sign signer (signed_part a0)) a0). split; [split; cbn; [apply Hd|done|done|done|done|done|apply Hsig]|].
  split; [by exists h|]. split; [done|]. do 6 (split; [done|]). rewrite write_signed_material_ok by done. rewrite length_replicate.
  change (signed_part (with_signature _ a0)) with (signed_part a0). destruct (_ <? _)%nat eqn:El; cbn [mbind run_bind]; [done|].
  rewrite slice_prefix by done. done.
Qed.

(** An announce survives the wire, byte for byte.  An announce that was read from a payload writes that payload
    again, exactly, so that a relayed announce keeps the signature of its owner; and what was written is read back:
    any announce whose destination its keys and name give, in a packet of at most 500 bytes of payload. *)
Theorem announce_survives_the_wire :
  (∀ h payload a id buf, length (address h) = TRUNCATED_HASH_BYTE_LEN →
    from_wire_unverified_with_identity h payload = Done (Ok (a, id)) → length payload ≤ length buf →
    announce_to_wire a buf = Done (Ok (length payload), payload ++ drop (length payload) buf))
  ∧ (∀ a hops propagation via context, announce_wf a → owns_destination a → wire_bytes a ≤ BROADCAST_MTU →
    ∃ id, from_wire_unverified_with_identity (announce_header a hops propagation via context) (encode_announce a) = Done (Ok (a, id))).
Proof.
  split.
  - intros h payload a id buf Haddr (_ & _ & _ & Hwf & -> & _)%from_wire_unverified_ok Hl; [|done].
    rewrite announce_to_wire_ok by done. rewrite (length_encode_announce a Hwf) in *. by rewrite (proj2 (Nat.ltb_ge _ _)).
  - intros a hops propagation via context Hwf (id & Eid & Hown) Hl. exists id. apply from_wire_unverified_ok; [by apply Hwf|].
    rewrite (length_encode_announce a Hwf). split_and!; try done. cbn. unfold has_ratchet. by destruct (an_ratchet a).
Qed.

(** C25. Only announces that the owner of the destination signed are accepted.  A payload is accepted as the announce [a]
    exactly if the header is that of an announce to a single destination, the payload has at most 500 bytes and is
    the bytes of [a], the destination in the header is the one that the keys and the name of [a] give, and the
    signature is one of its signing key over the destination and every other field. *)
Theorem accepted_announces_are_signed h payload a :
  length (address h) = TRUNCATED_HASH_BYTE_LEN →
  announce_from_wire h payload = Done (Ok a) ↔
  packet_type h = Wire.Announce ∧ destination_type h = Single ∧ length payload ≤ BROADCAST_MTU
  ∧ announce_wf a ∧ payload = encode_announce a ∧ an_destination a = address h ∧ has_ratchet a = bool_decide (context_flag h = ContextSet)
  ∧ owns_destination a ∧ ed25519_verify (signing (an_public_keys a)) (signed_part a) (an_signature a) = true.
Proof.
  intros Haddr. unfold announce_from_wire, from_wire_unverified. split.
  - destruct (from_wire_unverified_with_identity h payload) as [[[a0 id]|e]| |] eqn:E; cbn [mbind run_bind]; [|done..].
    apply from_wire_unverified_ok in E as (Ht & Hd & Hl & Hwf & -> & Ha & Hr & Eid & Hown); [|done].
    rewrite (length_encode_announce a0 Hwf) in Hl. rewrite signature_is_valid_ok by done. cbn [mbind run_bind].
    destruct (ed25519_verify _ _ _) eqn:Ev; [|done]. intros [= <-]. rewrite (length_encode_announce a0 Hwf). split_and!; try done. by exists id.
  - intros (Ht & Hd & Hl & Hwf & -> & Ha & Hr & (id & Eid & Hown) & Hv).
    rewrite (proj2 (from_wire_unverified_ok h (encode_announce a) a id Haddr)) by done. cbn [mbind run_bind].
    rewrite (length_encode_announce a Hwf) in Hl. rewrite signature_is_valid_ok by done. cbn [mbind run_bind]. by rewrite Hv.
Qed.

Lemma signed_verifies `{!Ed25519Laws} encryption_public secret a :
  announce_wf a → owns_destination a → wire_bytes a ≤ BROADCAST_MTU → an_public_keys a = mkKeys encryption_public (signing_key_public secret) →
  an_signature a = signing_key_sign secret (signed_part a) →
  ∀ hops propagation via context, announce_from_wire (announce_header a hops propagation via context) (encode_announce a) = Done (Ok a).
Proof.
  intros Hwf (id & Eid & Hown) Hl Hkeys Hsig hops propagation via context. unfold announce_from_wire, from_wire_unverified.
  assert (E : from_wire_unverified_with_identity (announce_header a hops propagation via context) (encode_announce a) = Done (Ok (a, id))).
  { apply from_wire_unverified_ok; [by apply Hwf|]. rewrite (length_encode_announce a Hwf). split_and!; try done. cbn. unfold has_ratchet. by destruct (an_ratchet a). }
  rewrite E. cbn [mbind run_bind]. rewrite signature_is_valid_ok by done. cbn [mbind run_bind].
  unfold ed25519_verify. rewrite Hkeys, Hsig. cbn [signing]. destruct (ed_verifies secret (signed_part a)) as (key & -> & ->). done.
Qed.

(** What [build_signed] makes, framed in any of the four ways, is the bytes of a header and of an announce that is
    accepted with it. *)
Lemma signed_announce_framed `{!Ed25519Laws} encryption_public secret name id ratchet data hops propagation via context buf :
  length encryption_public = X25519_KEY_LEN → length name = DOTTED_NAME_HASH_BYTE_LEN →
  length (nonce id) = NONCE_LEN ∧ length (timebase id) = TIMEBASE_LEN →
  match ratchet with Some r => length r = RATCHET_BYTE_LEN | None => True end →
  is_u8 hops → from_option is_hash True via → canonical_context context →
  ANNOUNCE_FIXED_FIELDS_LEN + length (default [] ratchet) + length data ≤ BROADCAST_MTU →
  HEADER_MAX_LEN + ANNOUNCE_FIXED_FIELDS_LEN + length (default [] ratchet) + length data ≤ length buf →
  ∃ a, build_signed (in_memory_signer encryption_public secret) name id ratchet data = Done (Ok a)
    ∧ (let h := announce_header a hops propagation via context in
       let packet := encode_header h ++ encode_announce a in
       header_wf h ∧ frame_announce_wire_packet a hops propagation via context buf = Done (Ok (length packet), packet ++ drop (length packet) buf)
       ∧ announce_from_wire h (encode_announce a) = Done (Ok a))
    ∧ an_dotted_name_hash a = name ∧ an_announce_id a = id ∧ an_ratchet a = ratchet ∧ an_app_data a = data.
Proof.
  intros He Hn Hid Hr Hhops Hvia Hctx Hl Hbuf.
  destruct (build_signed_ok (in_memory_signer encryption_public secret) name id ratchet data) as (a & Hwf & Hown & Hd & Hk & Hnm & Ei & Er & Ed & Hsig & Hb);
    [done|apply ed_public_len|done|done|done|apply ed_signature_len|].
  assert (Hw : wire_bytes a = ANNOUNCE_FIXED_FIELDS_LEN + length (default [] ratchet) + length data).
  { unfold wire_bytes. rewrite Er, Ed. destruct ratchet; cbn [default from_option Datatypes.id]; [rewrite Hr|]; cbn; lia. }
  set (h := announce_header a hops propagation via context). assert (Hh : header_wf h) by (by split).
  assert (Hlen : wire_len h ≤ HEADER_MAX_LEN) by (unfold h; rewrite announce_header_len; destruct via; cbn; lia).
  exists a. split.
  { rewrite Hb, (proj2 (Nat.ltb_ge _ _)); [done|]. rewrite (length_signed_part a Hwf), Hw. lia. }
  split; [cbn zeta; split; [done|]|done]. split.
  - rewrite frame_announce_ok by done. cbn zeta. fold h. rewrite length_app, (length_encode_header h Hh), (length_encode_announce a Hwf). by rewrite (proj2 (Nat.ltb_ge _ _)) by lia.
  - apply (signed_verifies encryption_public secret); [done|done|lia|exact Hk|exact Hsig].
Qed.

(** The packet of an announce signed elsewhere is the one framed here. *)
Lemma originated_is_framed a buf path_response :
  announce_wf a → is_hash (an_destination a) →
  write_originated_announce_from_signed_material (an_destination a) (has_ratchet a) path_response (signed_part a) (length (fields_of a)) (an_signature a) buf
  = frame_announce_wire_packet a 0 Broadcast None (if path_response then CtxPathResponse else CtxNone) buf.
Proof.
  intros Hwf Hd. assert (Hh : header_wf (announce_header a 0 Broadcast None (if path_response then CtxPathResponse else CtxNone))).
  { split; cbn; [done|done|done|]. by destruct path_response. }
  rewrite frame_announce_ok by done. cbn zeta. set (h := announce_header _ _ _ _ _) in *. pose proof (length_fields a Hwf) as Hw.
  unfold write_originated_announce_from_signed_material, signed_part. rewrite length_app, (aw_destination a Hwf), (proj2 (Nat.ltb_ge _ _)) by lia.
  rewrite (drop_app_length' (an_destination a)) by (by rewrite (aw_destination a Hwf)). rewrite split_at_checked_app by done.
  rewrite (aw_signature a Hwf). change (wire_len h) with HEADER_MIN_LEN. rewrite <- Hw, !Nat.add_assoc.
  destruct (Nat.ltb_spec (length buf) (HEADER_MIN_LEN + length (fields_of a) + SIGNATURE_BYTE_LEN + length (an_app_data a))) as [|Hl]; [done|].
  assert (Eh : originated_header (an_destination a) (has_ratchet a) path_response = h).
  { unfold originated_header, h, announce_header, has_ratchet. by destruct (an_ratchet a). }
  rewrite Eh. pose proof (length_encode_header h Hh) as Hlh. change (wire_len h) with HEADER_MIN_LEN in Hlh.
  unfold slice. rewrite decide_True by lia. cbn [mbind run_bind]. rewrite Nat.sub_0_r, drop_0, write_spec by done. change (wire_len h) with HEADER_MIN_LEN.
  rewrite length_take, decide_False by lia. cbn [mbind run_bind]. rewrite (drop_ge (take _ _)), app_nil_r by (rewrite length_take; lia).
  pose proof (aw_signature a Hwf) as Hsig. do 3 next_field. unfold encode_announce. rewrite <- !app_assoc, !drop_drop.
  apply f_equal, (f_equal2 pair); [done|same_tail].
Qed.
End crypto.

(** * Witnesses *)

#[local] Existing Instance toy_sha256.
#[local] Existing Instance toy_sha256_laws.
(** A key is a byte, and a signature 64 times the sum of the key and the message. *)
#[local] Instance sum_ed25519 : Ed25519 := {|
  VerifyingKey := Z;
  SigningKey := Z;
  verifying_key_from_bytes := head;
  verifying_key_verify := λ key message signature, bool_decide (signature = replicate 64 ((foldr Z.add key message) mod 256)%Z);
  signing_key_sign := λ secret message, replicate 64 ((foldr Z.add secret message) mod 256)%Z;
  signing_key_public := λ secret, replicate 32 secret;
|}.
#[local] Instance sum_ed25519_laws : Ed25519Laws.
Proof. split; [done|done|]. intros secret message. exists secret. split; [done|]. by apply bool_decide_true. Defined.

Definition sample_announce_id : AnnounceId := mkAnnounceId (replicate 5 1%Z) (replicate 5 2%Z).
Definition sample_build : run (result AnnounceBuildError AnnounceMessage) :=
  build_signed (in_memory_signer (replicate 32 7%Z) (9%Z : @SigningKey sum_ed25519)) (replicate 10 3%Z) sample_announce_id (Some (replicate 32 4%Z)) [5; 6]%Z.
Definition sample_announce : AnnounceMessage :=
  match sample_build with Done (Ok a) => a | _ => mkAnnounce [] (mkKeys [] []) [] sample_announce_id None [] [] end.

Lemma announce_survives_the_wire_witness :
  ∃ id, from_wire_unverified_with_identity (announce_header sample_announce 3 Broadcast None CtxNone) (encode_announce sample_announce) = Done (Ok (sample_announce, id))
    ∧ announce_to_wire sample_announce (replicate 200 0%Z)
      = Done (Ok (length (encode_announce sample_announce)),
              encode_announce sample_announce ++ drop (length (encode_announce sample_announce)) (replicate 200 0%Z)).
Proof.
  destruct announce_survives_the_wire as [Hread Hwritten].
  destruct (Hwritten sample_announce 3%Z Broadcast None CtxNone) as [id E].
  - split; vm_compute; try split; reflexivity.
  - eexists. split; vm_compute; reflexivity.
  - vm_compute. lia.
  - exists id. split; [exact E|]. eapply Hread; [|exact E|]; vm_compute; [reflexivity|lia].
Defined.

(** The sample is accepted; the same packet under another destination is not. *)
Lemma accepted_announces_are_signed_witness :
  (announce_from_wire (announce_header sample_announce 3 Broadcast None CtxNone) (encode_announce sample_announce) = Done (Ok sample_announce)
   → ed25519_verify (signing (an_public_keys sample_announce)) (signed_part sample_announce) (an_signature sample_announce) = true)
  ∧ announce_from_wire (announce_header sample_announce 3 Broadcast None CtxNone) (encode_announce sample_announce) = Done (Ok sample_announce)
  ∧ announce_from_wire (mkHeader Open ContextSet Broadcast Single Wire.Announce 3 None (replicate 16 1%Z) CtxNone) (encode_announce sample_announce)
    = Done (Err DestinationMismatch).
Proof.
  split; [|split; vm_compute; reflexivity]. intros E.
  apply (accepted_announces_are_signed (announce_header sample_announce 3 Broadcast None CtxNone) (encode_announce sample_announce) sample_announce) in E; [|reflexivity].
  apply E.
Defined.
