(* ===== verification/IngressClassify.v ===== *)
(** What arrives: [routing/ingress/classification/mod.rs], which parses the header of a packet and says which kind of
    packet it is, with its hash and the hops it has made. *)

From S2P Require Import Prelude AppData Wire Dedup Columns Routes Announce Interfaces Links RoutingTable Upstream AnnounceWire AnnounceWireProofs.

(** [interfaces::InboundPacket] *)
Record InboundPacket := mkInbound { ip_arrived_at : Z; ip_source_interface : InterfaceId; ip_bytes : list Z }.
Record DataPacket := mkData { dp_header : WirePacketHeader; dp_payload : list Z }.
Inductive DataPacketHash := Deferred | Resolved (packet_hash : list Z).

(** What all kinds have: the hops, the interface and the instant of the arrival. *)
Record Arrival := mkArrived { av_received_hops : Z; av_source_interface : InterfaceId; av_arrived_at : Z }.
Inductive Ingress :=
  | IngressAnnounce (packet_hash : list Z) (identity_hash : IdentityHash) (announce : AnnounceMessage) (payload : list Z)
      (header : WirePacketHeader) (arrival : Arrival) (next_hop : NextHop) (is_path_response : bool)
  | IngressData (packet_hash : DataPacketHash) (data : DataPacket) (arrival : Arrival)
  | IngressLinkRequest (packet_hash payload : list Z) (header : WirePacketHeader) (arrival : Arrival)
  | IngressProof (packet_hash payload address : list Z) (context : WireContext) (arrival : Arrival)
  | IngressMalformed
  | IngressIfacRefused.

Definition local_adjusted_hops (received_hops : Z) (source : InterfaceId) : Z :=
  if bool_decide (interface_kind source = Some LocalClient) then saturating_sub received_hops 1 else received_hops.

#[global] Instance WireContext_eq_dec : EqDecision WireContext.
Proof. solve_decision. Defined.

Section classify.
Context `{Sha256}.

Definition data_packet_hash (data : DataPacket) : list Z :=
  of_data_fields (destination_type (dp_header data)) (address (dp_header data)) (context (dp_header data)) (dp_payload data).
Definition hash_get (hash : DataPacketHash) (data : DataPacket) : list Z :=
  match hash with Deferred => data_packet_hash data | Resolved packet_hash => packet_hash end.
Definition hash_resolve (hash : DataPacketHash) (data : DataPacket) : list Z * DataPacketHash :=
  let packet_hash := hash_get hash data in (packet_hash, Resolved packet_hash).

Definition ingress_packet_hash (i : Ingress) : option (list Z) :=
  match i with
  | IngressAnnounce packet_hash _ _ _ _ _ _ _ | IngressLinkRequest packet_hash _ _ _ | IngressProof packet_hash _ _ _ _ => Some packet_hash
  | IngressData packet_hash data _ => Some (hash_get packet_hash data)
  | IngressMalformed | IngressIfacRefused => None
  end.
Definition resolve_packet_hash (i : Ingress) : option (list Z) * Ingress :=
  match i with
  | IngressData packet_hash data arrival =>
      let '(resolved, packet_hash) := hash_resolve packet_hash data in (Some resolved, IngressData packet_hash data arrival)
  | _ => (ingress_packet_hash i, i)
  end.

Definition classify (packet : InboundPacket) : run Ingress :=
  match Wire.parse (ip_bytes packet) with
  | Err _ => Done IngressMalformed
  | Ok (header, payload) =>
      let payload_offset := length (ip_bytes packet) - length payload in
      if bool_decide (ifac_flag header = Authenticated) then Done IngressIfacRefused
      else if negb (wire_hop_count_is_valid (Wire.hops header)) then Done IngressMalformed
      else
        payload ← slice (ip_bytes packet) payload_offset (length (ip_bytes packet));
        if (length payload =? 0)%nat then Done IngressMalformed else
        let received_hops := local_adjusted_hops (saturating_add 8 (Wire.hops header) 1) (ip_source_interface packet) in
        let arrival := mkArrived received_hops (ip_source_interface packet) (ip_arrived_at packet) in
        let packet_hash := of_fields (destination_type header) (packet_type header) (address header) (context header) payload in
        match packet_type header with
        | Wire.Announce =>
            r ← from_wire_unverified_with_identity header payload;
            Done (match r with
                  | Err _ => IngressMalformed
                  | Ok (announce, identity_hash) =>
                      IngressAnnounce packet_hash identity_hash announce payload header arrival
                        (match transport_id header with None => Direct | Some via => Via via end)
                        (bool_decide (context header = CtxPathResponse))
                  end)
        | Data => Done (IngressData Deferred (mkData header payload) arrival)
        | LinkRequest => Done (IngressLinkRequest packet_hash payload header arrival)
        | Proof_ => Done (IngressProof packet_hash payload (address header) (context header) arrival)
        end
  end.
End classify.

(** * What a packet is classified as *)

Definition arrival_of (packet : InboundPacket) (header : WirePacketHeader) : Arrival :=
  mkArrived (if bool_decide (interface_kind (ip_source_interface packet) = Some LocalClient) then Wire.hops header else Wire.hops header + 1)%Z
    (ip_source_interface packet) (ip_arrived_at packet).

(** The kinds, and what makes a packet one of them. *)
Inductive classified_as `{Sha256} (packet : InboundPacket) : Ingress → Prop :=
  | NoHeader e : Wire.parse (ip_bytes packet) = Err e → classified_as packet IngressMalformed
  | Locked h payload : Wire.parse (ip_bytes packet) = Ok (h, payload) → ifac_flag h = Authenticated → classified_as packet IngressIfacRefused
  | BadHopsOrEmpty h payload : Wire.parse (ip_bytes packet) = Ok (h, payload) → ifac_flag h = Open →
      (MAX_HOP_COUNT ≤ Wire.hops h)%Z ∨ payload = [] → classified_as packet IngressMalformed
  | BadAnnounce h payload e : Wire.parse (ip_bytes packet) = Ok (h, payload) → ifac_flag h = Open →
      packet_type h = Wire.Announce → from_wire_unverified_with_identity h payload = Done (Err e) → classified_as packet IngressMalformed
  | IsAnnounce h payload a identity hash : Wire.parse (ip_bytes packet) = Ok (h, payload) → ifac_flag h = Open → (Wire.hops h < MAX_HOP_COUNT)%Z →
      packet_type h = Wire.Announce → from_wire_unverified_with_identity h payload = Done (Ok (a, identity)) →
      of_wire_packet (ip_bytes packet) = Ok hash →
      classified_as packet (IngressAnnounce hash identity a payload h (arrival_of packet h)
        (match transport_id h with None => Direct | Some via => Via via end) (bool_decide (context h = CtxPathResponse)))
  | IsData h payload hash : Wire.parse (ip_bytes packet) = Ok (h, payload) → ifac_flag h = Open → (Wire.hops h < MAX_HOP_COUNT)%Z → payload ≠ [] →
      packet_type h = Data → of_wire_packet (ip_bytes packet) = Ok hash → hash_get Deferred (mkData h payload) = hash →
      classified_as packet (IngressData Deferred (mkData h payload) (arrival_of packet h))
  | IsLinkRequest h payload hash : Wire.parse (ip_bytes packet) = Ok (h, payload) → ifac_flag h = Open → (Wire.hops h < MAX_HOP_COUNT)%Z → payload ≠ [] →
      packet_type h = LinkRequest → of_wire_packet (ip_bytes packet) = Ok hash →
      classified_as packet (IngressLinkRequest hash payload h (arrival_of packet h))
  | IsProof h payload hash : Wire.parse (ip_bytes packet) = Ok (h, payload) → ifac_flag h = Open → (Wire.hops h < MAX_HOP_COUNT)%Z → payload ≠ [] →
      packet_type h = Proof_ → of_wire_packet (ip_bytes packet) = Ok hash →
      classified_as packet (IngressProof hash payload (address h) (context h) (arrival_of packet h)).

(** The hops counted: no hop count of a valid packet overflows, and one to a client on this machine is not counted. *)
Lemma received_hops_ok packet header :
  is_u8 (Wire.hops header) → (Wire.hops header < MAX_HOP_COUNT)%Z →
  mkArrived (local_adjusted_hops (saturating_add 8 (Wire.hops header) 1) (ip_source_interface packet)) (ip_source_interface packet) (ip_arrived_at packet)
  = arrival_of packet header ∧ (0 ≤ av_received_hops (arrival_of packet header) ≤ MAX_HOP_COUNT)%Z.
Proof.
  intros Hu Hlt. unfold arrival_of, local_adjusted_hops, MAX_HOP_COUNT in *. cbn [av_received_hops].
  assert (E : saturating_add 8 (Wire.hops header) 1 = (Wire.hops header + 1)%Z) by width. rewrite E.
  case_bool_decide; split; try (f_equal; width); width.
Qed.

Section classification.
Context `{Sha256} `{!Sha256Laws}.

Lemma from_wire_returns h payload : ∃ r, from_wire_unverified_with_identity h payload = Done r.
Proof.
  unfold from_wire_unverified_with_identity. repeat case_match; try (by eexists).
  destruct (identity_hash_ok (an_public_keys a)) as (id & -> & _). cbn [mbind run_bind]. case_match; by eexists.
Qed.

(** Every packet is classified.  Whatever bytes arrive, classification returns, and with the kind that the header and
    the payload make it: without a header, with too many hops, without a payload or with an announce that does not
    parse it is malformed, with the authentication flag it is refused, otherwise it is an announce, data, a link
    request or a proof, with the hash of the whole packet and one hop more than it had, none for a client on this
    machine. *)
Theorem every_packet_is_classified packet :
  Forall is_u8 (ip_bytes packet) → ∃ ingress, classify packet = Done ingress ∧ classified_as packet ingress.
Proof.
  intros Hb. unfold classify. destruct (Wire.parse (ip_bytes packet)) as [[h payload]|e] eqn:Ep; [|eexists; split; [done|by eapply NoHeader]].
  destruct (encode_parse _ _ _ Hb Ep) as [Hwf Hbytes]. pose proof (of_wire_packet_encoded h payload Hwf) as Hhash. rewrite <- Hbytes in Hhash.
  case_bool_decide as Hifac; [eexists; split; [done|by eapply Locked]|].
  assert (Hopen : ifac_flag h = Open) by (destruct (ifac_flag h); done).
  unfold wire_hop_count_is_valid. destruct (Z.ltb_spec (Wire.hops h) MAX_HOP_COUNT) as [Hlt|Hge]; cbn [negb].
  2: { eexists. split; [done|]. eapply BadHopsOrEmpty; eauto. }
  replace (length (ip_bytes packet) - length payload) with (length (encode_header h)) by (rewrite Hbytes, length_app; lia).
  assert (Es : slice (ip_bytes packet) (length (encode_header h)) (length (ip_bytes packet)) = Done payload) by (rewrite Hbytes; by apply slice_suffix).
  rewrite Es. cbn [mbind run_bind].
  destruct (Nat.eqb_spec (length payload) 0) as [Hempty|Hsome].
  { eexists. split; [done|]. eapply BadHopsOrEmpty; [done|done|]. right. by apply nil_length_inv. }
  assert (payload ≠ []) by (intros ->; done). destruct (received_hops_ok packet h (wf_hops h Hwf) Hlt) as [-> _].
  destruct (packet_type h) eqn:Et.
  - eexists. split; [done|]. eapply IsData; [done|done|done|done|done|done|]. done.
  - destruct (from_wire_returns h payload) as [[[a identity]|e] E]; rewrite E; cbn [mbind run_bind]; eexists; (split; [done|]).
    + by eapply IsAnnounce.
    + by eapply BadAnnounce.
  - eexists. split; [done|]. by eapply IsLinkRequest.
  - eexists. split; [done|]. by eapply IsProof.
Qed.

(** A packet with the header and the bytes of an announce. *)
Lemma classify_announce h payload a identity at_ interface :
  header_wf h → ifac_flag h = Open → packet_type h = Wire.Announce → payload ≠ [] → from_wire_unverified_with_identity h payload = Done (Ok (a, identity)) →
  let received := mkInbound at_ interface (encode_header h ++ payload) in
  classify received = Done (if (Wire.hops h <? MAX_HOP_COUNT)%Z
    then IngressAnnounce (of_fields (destination_type h) (packet_type h) (address h) (context h) payload) identity a payload h (arrival_of received h)
           (match transport_id h with None => Direct | Some via => Via via end) (bool_decide (context h = CtxPathResponse))
    else IngressMalformed).
Proof.
  intros Hwf Hopen Ht Hsome Ha received. unfold classify. cbn [ip_bytes received]. rewrite (parse_encode _ _ Hwf). rewrite bool_decide_eq_false_2 by (by rewrite Hopen).
  unfold wire_hop_count_is_valid. destruct (Z.ltb_spec (Wire.hops h) MAX_HOP_COUNT) as [Hlt|]; cbn [negb]; [|done].
  rewrite length_app, Nat.add_sub, <- length_app, slice_suffix by done. cbn [mbind run_bind]. rewrite (proj2 (Nat.eqb_neq _ _)) by (by destruct payload).
  destruct (received_hops_ok received h (wf_hops h Hwf) Hlt) as [<- _]. rewrite Ht, Ha. done.
Qed.

(** C26. A signed announce is accepted.  What [build_signed] makes of an identity, a name, an id, perhaps a ratchet, and
    data, framed in any of the four ways into a buffer with room, is a packet whose bytes parse back with the hops,
    the next relay and the context, and whose payload is accepted as the announce that was signed, every field as it was,
    whenever it has at most 500 bytes.  A node that receives it with fewer than [MAX_HOP_COUNT] hops classifies it as
    that announce, with the hash of the packet; with that many or more it takes it for malformed. *)
Theorem signed_announce_is_accepted `{!Ed25519} `{!Ed25519Laws} encryption_public secret name id ratchet data hops propagation via context buf :
  length encryption_public = X25519_KEY_LEN → length name = DOTTED_NAME_HASH_BYTE_LEN →
  length (nonce id) = NONCE_LEN ∧ length (timebase id) = TIMEBASE_LEN →
  match ratchet with Some r => length r = RATCHET_BYTE_LEN | None => True end →
  is_u8 hops → from_option is_hash True via → canonical_context context →
  ANNOUNCE_FIXED_FIELDS_LEN + length (default [] ratchet) + length data ≤ BROADCAST_MTU →
  HEADER_MAX_LEN + ANNOUNCE_FIXED_FIELDS_LEN + length (default [] ratchet) + length data ≤ length buf →
  ∃ a packet h payload, build_signed (in_memory_signer encryption_public secret) name id ratchet data = Done (Ok a)
    ∧ frame_announce_wire_packet a hops propagation via context buf = Done (Ok (length packet), packet ++ drop (length packet) buf)
    ∧ Wire.parse packet = Ok (h, payload) ∧ Wire.hops h = hops ∧ transport_id h = via ∧ Wire.context h = context
    ∧ announce_from_wire h payload = Done (Ok a)
    ∧ (an_dotted_name_hash a = name ∧ an_announce_id a = id ∧ an_ratchet a = ratchet ∧ an_app_data a = data)
    ∧ ∀ at_ interface, let received := mkInbound at_ interface packet in
        ((hops < MAX_HOP_COUNT)%Z → ∃ hash identity, of_wire_packet packet = Ok hash
          ∧ classify received = Done (IngressAnnounce hash identity a payload h (arrival_of received h)
              (match via with None => Direct | Some via => Via via end) (bool_decide (context = CtxPathResponse))))
        ∧ ((MAX_HOP_COUNT ≤ hops)%Z → classify received = Done IngressMalformed).
Proof.
  intros He Hn Hid Hr Hhops Hvia Hctx Hl Hbuf.
  destruct (signed_announce_framed encryption_public secret name id ratchet data hops propagation via context buf He Hn Hid Hr Hhops Hvia Hctx Hl Hbuf)
    as (a & Eb & (Hwf & Ef & Ea) & Hfields). set (h := announce_header a hops propagation via context) in *.
  assert (Hu : ∃ identity, from_wire_unverified_with_identity h (encode_announce a) = Done (Ok (a, identity))).
  { unfold announce_from_wire, from_wire_unverified in Ea. destruct (from_wire_unverified_with_identity _ _) as [[[a0 identity]|]| |]; cbn [mbind run_bind] in Ea; [|done..].
    destruct (signature_is_valid a0) as [[]| |]; cbn [mbind run_bind] in Ea; [|done..]. injection Ea as ->. by exists identity. }
  destruct Hu as [identity Hu].
  assert (Hsome : encode_announce a ≠ []). { intros E. rewrite E in Hu. vm_compute in Hu. destruct (context_flag h); done. }
  exists a, (encode_header h ++ encode_announce a), h, (encode_announce a). split; [done|]. split; [done|]. split; [by apply parse_encode|].
  do 5 (split; [done|]). intros at_ interface received.
  pose proof (classify_announce h (encode_announce a) a identity at_ interface Hwf eq_refl eq_refl Hsome Hu) as Hc. cbn zeta in Hc. fold received in Hc. rewrite Hc. clear Hc. change (Wire.hops h) with hops.
  split; intros Hb.
  - rewrite (proj2 (Z.ltb_lt _ _)) by done. eexists _, identity. split; [by apply of_wire_packet_encoded|done].
  - by rewrite (proj2 (Z.ltb_ge _ _)) by done.
Qed.

(** The hash is the same before and after it is resolved. *)
Lemma resolve_keeps_hash i : (resolve_packet_hash i).1 = ingress_packet_hash i ∧ ingress_packet_hash (resolve_packet_hash i).2 = ingress_packet_hash i.
Proof. by destruct i. Qed.
End classification.

(** * Witness *)

#[local] Existing Instance toy_sha256.
#[local] Existing Instance toy_sha256_laws.
#[local] Existing Instance sum_ed25519.
#[local] Existing Instance sum_ed25519_laws.
(** Data with 127 hops; the same bytes with 128. *)
Definition sample_inbound (hops : Z) : InboundPacket := mkInbound 1000 (replicate 8 0xA1%Z) ([0; hops]%Z ++ replicate 16 0xAB%Z ++ [0; 1; 2]%Z).

Lemma every_packet_is_classified_witness :
  (∃ ingress, classify (sample_inbound 127) = Done ingress ∧ classified_as (sample_inbound 127) ingress)
  ∧ (∃ data, classify (sample_inbound 127) = Done (IngressData Deferred data (mkArrived 128 (replicate 8 0xA1%Z) 1000)))
  ∧ classify (sample_inbound 128) = Done IngressMalformed.
Proof.
  split; [|split; [eexists|]; vm_compute; reflexivity]. apply every_packet_is_classified.
  repeat constructor; vm_compute; congruence.
Defined.

(** A ratcheted announce as a relayed path response with three hops; and one with a byte of its data changed, which no one
    accepts. *)
Lemma signed_announce_is_accepted_witness :
  (∃ a packet h payload, sample_build = Done (Ok a)
    ∧ frame_announce_wire_packet a 3 Transport (Some (replicate 16 8%Z)) CtxPathResponse (replicate 500 0%Z)
      = Done (Ok (length packet), packet ++ drop (length packet) (replicate 500 0%Z))
    ∧ Wire.parse packet = Ok (h, payload) ∧ announce_from_wire h payload = Done (Ok a) ∧ an_app_data a = [5; 6]%Z
    ∧ ∃ hash identity, classify (mkInbound 1000 (replicate 8 0xA1%Z) packet)
        = Done (IngressAnnounce hash identity a payload h (arrival_of (mkInbound 1000 (replicate 8 0xA1%Z) packet) h) (Via (replicate 16 8%Z)) true))
  ∧ announce_from_wire (announce_header sample_announce 3 Broadcast None CtxNone) (fields_of sample_announce ++ an_signature sample_announce ++ [5; 7]%Z)
    = Done (Err InvalidSignature).
Proof.
  split; [|vm_compute; reflexivity].
  destruct (signed_announce_is_accepted (replicate 32 7%Z) (9%Z : @SigningKey sum_ed25519) (replicate 10 3%Z) sample_announce_id (Some (replicate 32 4%Z)) [5; 6]%Z 3%Z Transport
    (Some (replicate 16 8%Z)) CtxPathResponse (replicate 500 0%Z)) as (a & packet & h & payload & Eb & Ef & Ep & _ & _ & _ & Ea & (_ & _ & _ & Ed) & Hc).
  1, 2: reflexivity.
  1: split; reflexivity.
  1: reflexivity.
  1: by vm_compute.
  1: split; [reflexivity|apply list.Forall_replicate; by vm_compute].
  1: split; [reflexivity|by vm_compute].
  1, 2: apply Nat.leb_le; vm_compute; reflexivity.
  exists a, packet, h, payload. split; [exact Eb|]. split; [exact Ef|]. split; [exact Ep|]. split; [exact Ea|]. split; [exact Ed|].
  destruct (Hc 1000%Z (replicate 8 0xA1%Z)) as [Hin _]. destruct (Hin ltac:(by vm_compute)) as (hash & identity & _ & E). exists hash, identity. exact E.
Defined.
