(* ===== verification/Relay.v ===== *)
(** Relaying: [routing/ingress/forward.rs], and of [routing/ingress/dispatch/mod.rs] and [routing/ingress/links.rs] what
    happens to data and proofs that pass through.

    A packet of data goes along the route of its destination, once, and leaves a way back for its proof
    ([ReverseRoutes]); packets and proofs of links carried for others are switched ([TransportedLinks]).  What is
    for other handlers is handed to them. *)

From S2P Require Import Prelude AppData Wire Dedup Columns Evidence Routes Announce Acceptance ChannelTable Interfaces Lifetime DueTable Links RoutingTable PathRequests PathRequestWire Upstream ReverseRoutes TransportedLinks IngressClassify.

#[local] Existing Instance timeouts.

(** * Hop counts of clients on this machine: [engine/state.rs] *)

(** [LocalOriginHopCount], two to seven. *)
Definition local_origin_hop_count (hops : Z) : option Z := if (2 <=? hops)%Z && (hops <=? 7)%Z then Some hops else None.
Definition local_origin_from_entropy (entropy : Z) : Z := (2 + entropy mod 6)%Z.
Inductive LocalHopCountOverride := OverrideDisabled | Override (hops : Z).
Definition override_with (hops : Z) : option LocalHopCountOverride :=
  match local_origin_hop_count hops with Some hops => Some (Override hops) | None => None end.
Definition override_from_entropy (entropy : Z) : LocalHopCountOverride := Override (local_origin_from_entropy entropy).
Definition override_apply (o : LocalHopCountOverride) (original_hops : Z) (crosses_local_boundary : bool) : Z :=
  match o, crosses_local_boundary with Override hops, true => hops | _, _ => original_hops end.

(** * What relaying needs of routes *)

Class RelayRoutes (S : Type) := {
  rr_forwarding_route_for : S → DestinationHash → run (option ForwardingRoute);
  rr_note_relayed : S → DestinationHash → Z → AttachedInterfaces → run S;
}.

(** The routing table, with the warmth that tunnels and departed interfaces give ([WarmestOf]). *)
Section table_routes.
Context {R A H D I : Type} `{RouteTable R, AnnounceRecordTable A, AnnounceIdHistory H, AnnounceAppData D, RouteExpiryIndex I}.

Record WarmRoutes := mkWarmRoutes { wr_tunnels : RouteWarmth; wr_departed : RouteWarmth; wr_table : RoutingTable R A H D I }.

#[global] Instance warm_relay_routes : RelayRoutes WarmRoutes := {|
  rr_forwarding_route_for := λ s d, forwarding_route_for (wr_table s) d;
  rr_note_relayed := λ s d now interfaces,
    t ← note_relayed_with_warmth (wr_table s) d now interfaces (WarmestOf (wr_tunnels s) (wr_departed s));
    Done (mkWarmRoutes (wr_tunnels s) (wr_departed s) t);
|}.
End table_routes.

(** * The packet that goes on *)

Record PacketToForward := mkForward { pf_header : WirePacketHeader; pf_payload : list Z; pf_fire_on : InterfaceId }.

Definition forward_to_wire (p : PacketToForward) (buf : list Z) : run (result WireError nat * list Z) :=
  '(written, buf) ← Wire.write (pf_header p) buf;
  match written with
  | Err e => Done (Err e, buf)
  | Ok header_len =>
      let total_len := header_len + length (pf_payload p) in
      if (length buf <? total_len)%nat then Done (Err BufferTooShort, buf) else
      buf ← copy_into buf header_len (pf_payload p);
      Done (Ok total_len, buf)
  end.

(** The header along a route: the next relay's id mid-path, no transport at the last hop; nothing when the route has
    no next relay to name. *)
Definition forwarded_header (route : ForwardingRoute) (forwarded_hops : Z) (header : WirePacketHeader) : option WirePacketHeader :=
  if (1 <? fw_hops route)%Z then
    match fw_next_hop route with
    | Via next => Some (mkHeader (ifac_flag header) (context_flag header) (propagation header) (destination_type header) (packet_type header)
        forwarded_hops (Some next) (address header) (context header))
    | Direct => None
    end
  else Some (mkHeader Open ContextUnset Broadcast (destination_type header) (packet_type header) forwarded_hops None (address header) (context header)).

(** * The state *)

Record RelayState (S HH U RV LT TT : Type) := mkRelay {
  rl_transport : TransportState;
  rl_override : LocalHopCountOverride;
  rl_routes : S;
  rl_history : HH;
  rl_upstream : U;
  rl_reverse : RV;
  rl_links : Links LT;
  rl_transported : TransportedLinks TT;
}.
Arguments mkRelay {S HH U RV LT TT}. Arguments rl_transport {S HH U RV LT TT}. Arguments rl_override {S HH U RV LT TT}.
Arguments rl_routes {S HH U RV LT TT}. Arguments rl_history {S HH U RV LT TT}. Arguments rl_upstream {S HH U RV LT TT}.
Arguments rl_reverse {S HH U RV LT TT}. Arguments rl_links {S HH U RV LT TT}. Arguments rl_transported {S HH U RV LT TT}.

(** Of [IgnoreReason], those of transit. *)
Inductive TransitIgnored := OtherInstance | HopLimitReached | DuplicatePacket | NoRoute | NotForUs.
Inductive DataOutcome :=
  | DataIgnored (reason : TransitIgnored)
  | DataForward (packet : PacketToForward)
  (** For the handlers of local links, path requests, tunnels, pairings, and the apps of this node. *)
  | ToLocalLink
  | ToPathRequests
  | ToTunnels
  | ToPairing
  | ToUpstream (packet_hash : list Z).
Inductive ProofOutcome :=
  | ProofIgnored (reason : TransitIgnored)
  | ProofForward (packet : PacketToForward)
  (** For the channels and receipts of this node. *)
  | ToReceipts.
Inductive RelayOutcome := RelayForward (header : WirePacketHeader) (fire_on : InterfaceId) | NotTransportedByUs.

Definition NON_TRANSPORTED_DATA_MAX_RECEIVED_HOPS : Z := 1.
Definition TUNNEL_SYNTHESIZE_DESTINATION : DestinationHash :=
  [0x91; 0xbf; 0x09; 0x10; 0x26; 0x7b; 0x59; 0xb0; 0xe8; 0x64; 0xe0; 0xd4; 0xc9; 0x16; 0x02; 0xca]%Z.
Definition REMOTE_CONTROL_PAIRING_AVAILABILITY_DESTINATION_HASH : DestinationHash :=
  [0x5b; 0x3c; 0xb7; 0x4e; 0xf5; 0x7b; 0xf5; 0x2e; 0x83; 0xe2; 0x07; 0x69; 0x90; 0xd0; 0x8f; 0x87]%Z.

Definition is_local_client (interface : InterfaceId) : bool := bool_decide (interface_kind interface = Some LocalClient).

Section relay.
Context {S HH U RV LT TT : Type} {HS : RelayRoutes S} {HHH : PacketHashHistory HH} {HU : UpstreamAppDestinationTable U}
  {HRV : DueTable ReverseRoute RV} {HLT : LinkTable LT} {HTT : TransportedLinkTable TT}.
Abbreviation state := (RelayState S HH U RV LT TT).
Implicit Types (s : state) (interfaces : AttachedInterfaces) (arrival : Arrival).

Definition with_history s (history : HH) : state :=
  mkRelay (rl_transport s) (rl_override s) (rl_routes s) history (rl_upstream s) (rl_reverse s) (rl_links s) (rl_transported s).
Definition with_relayed s (routes : S) (reverse : RV) : state :=
  mkRelay (rl_transport s) (rl_override s) routes (rl_history s) (rl_upstream s) reverse (rl_links s) (rl_transported s).
Definition with_reverse s (reverse : RV) : state := with_relayed s (rl_routes s) reverse.
Definition with_transported s (transported : TransportedLinks TT) : state :=
  mkRelay (rl_transport s) (rl_override s) (rl_routes s) (rl_history s) (rl_upstream s) (rl_reverse s) (rl_links s) transported.

Definition hops_across_local_boundary s (received_hops : Z) (source_interface outbound_interface : InterfaceId) : Z :=
  override_apply (rl_override s) received_hops (is_local_client source_interface && negb (is_local_client outbound_interface)).

Definition routes_via_local_client s (destination : DestinationHash) : run bool :=
  route ← rr_forwarding_route_for (rl_routes s) destination;
  Done (match route with Some route => is_local_client (fw_receiving_interface route) | None => false end).

Definition maybe_forward s (header : WirePacketHeader) (payload packet_hash : list Z) arrival interfaces : run (option PacketToForward * state) :=
  if negb (bool_decide (destination_type header = Single)) || negb (bool_decide (packet_type header = Data)) then Done (None, s) else
  found ← rr_forwarding_route_for (rl_routes s) (address header);
  match found with
  | None => Done (None, s)
  | Some route =>
      let forwarded_hops := hops_across_local_boundary s (av_received_hops arrival) (av_source_interface arrival) (fw_receiving_interface route) in
      match forwarded_header route forwarded_hops header with
      | None => Done (None, s)
      | Some forwarded =>
          proof_to ← proof_destination packet_hash;
          reverse ← reverse_remember (rl_reverse s)
            (DueTable.mkDue proof_to (mkReverse (av_source_interface arrival) (fw_receiving_interface route))
              (saturating_add 64 (av_arrived_at arrival) DEFAULT_REVERSE_ROUTE_TIMEOUT_MS)) (av_arrived_at arrival);
          routes ← rr_note_relayed (rl_routes s) (address header) (av_arrived_at arrival) interfaces;
          Done (Some (mkForward forwarded payload (fw_receiving_interface route)), with_relayed s routes reverse)
      end
  end.

Definition relay_if_transported s (address : list Z) (context : WireContext) (packet_type : PacketType) arrival : run (RelayOutcome * state) :=
  local ← has_local_link (rl_links s) address;
  if (local : bool) || bool_decide (context = CtxLinkRequestProof) then Done (NotTransportedByUs, s) else
  '(switched, transported) ← switch_through (rl_transported s) address (av_source_interface arrival) (av_received_hops arrival) (av_arrived_at arrival);
  let s := with_transported s transported in
  Done (match switched with
        | Err _ => NotTransportedByUs
        | Ok switch =>
            RelayForward (mkHeader Open ContextUnset Broadcast Link packet_type
              (hops_across_local_boundary s (av_received_hops arrival) (av_source_interface arrival) (fire_on switch)) None address context) (fire_on switch)
        end, s).

(** [packet_hash_history.remember(..) == AlreadyKnown] *)
Definition remember_packet s (packet_hash : list Z) : run (bool * state) :=
  '(outcome, history) ← hist_remember (rl_history s) packet_hash;
  Done (bool_decide (outcome = Dedup.AlreadyKnown), with_history s history).

(** The arm [Ingress::Data] of [ingest_classified_with_mode]. *)
Definition ingest_data `{Sha256} s (packet_hash : DataPacketHash) (data : DataPacket) arrival interfaces : run (DataOutcome * state) :=
  let header := dp_header data in
  if bool_decide (destination_type header = Link) then
    '(relayed, s) ← relay_if_transported s (address header) (context header) Data arrival;
    Done (match relayed with RelayForward h out => DataForward (mkForward h (dp_payload data) out) | NotTransportedByUs => ToLocalLink end, s)
  else if bool_decide (destination_type header = Plain) && bool_decide (address header = PATH_REQUEST_DESTINATION) then Done (ToPathRequests, s)
  else if bool_decide (destination_type header = Plain) && bool_decide (address header = TUNNEL_SYNTHESIZE_DESTINATION) then Done (ToTunnels, s)
  else if bool_decide (destination_type header = Plain) && bool_decide (address header = REMOTE_CONTROL_PAIRING_AVAILABILITY_DESTINATION_HASH) then Done (ToPairing, s)
  else if match transport_id header with Some id => negb (bool_decide (transport_state_id (rl_transport s) = Some id)) | None => false end
  then Done (DataIgnored OtherInstance, s)
  else if (bool_decide (destination_type header = Plain) || bool_decide (destination_type header = Group))
          && (NON_TRANSPORTED_DATA_MAX_RECEIVED_HOPS <? av_received_hops arrival)%Z
  then Done (DataIgnored HopLimitReached, s)
  else
    let '(hash, packet_hash) := if bool_decide (destination_type header = Single) then hash_resolve packet_hash data else ([], packet_hash) in
    '(duplicate, s) ← (if bool_decide (destination_type header = Single) then remember_packet s hash else Done (false, s));
    if (duplicate : bool) then Done (DataIgnored DuplicatePacket, s) else
    registered ← Upstream.lookup (rl_upstream s) (address header) (destination_type header);
    let is_not_for_upstream_app := match registered with None => true | Some _ => false end in
    let is_in_transport_through_us := network_transport_enabled (rl_transport s)
      && bool_decide (transport_id header = transport_state_id (rl_transport s)) && is_not_for_upstream_app in
    is_shared_client_transit ←
      (if is_not_for_upstream_app && bool_decide (destination_type header = Single)
       then if is_local_client (av_source_interface arrival) then Done true else routes_via_local_client s (address header)
       else Done false);
    let hash := (hash_resolve packet_hash data).1 in
    if is_in_transport_through_us || is_shared_client_transit then
      '(forwarded, s) ← maybe_forward s header (dp_payload data) hash arrival interfaces;
      Done (match forwarded with Some p => DataForward p | None => DataIgnored NoRoute end, s)
    else Done (ToUpstream hash, s).

(** The arm [Ingress::Proof], for proofs other than those of link requests and of resources of local links. *)
Definition return_proof s (payload address : list Z) (context : WireContext) arrival : run (ProofOutcome * state) :=
  '(relayed, s) ← relay_if_transported s address context Proof_ arrival;
  match relayed with
  | RelayForward h out => Done (ProofForward (mkForward h payload out), s)
  | NotTransportedByUs =>
      '(found, reverse) ← reverse_take (rl_reverse s) address (av_arrived_at arrival);
      let s := with_reverse s reverse in
      Done (match found with
            | None => ToReceipts
            | Some way =>
                if negb (bool_decide (rv_outbound_interface way = av_source_interface arrival)) then ProofIgnored NotForUs
                else ProofForward (mkForward
                  (mkHeader Open ContextUnset Broadcast Single Proof_
                    (hops_across_local_boundary s (av_received_hops arrival) (av_source_interface arrival) (rv_received_interface way)) None address CtxNone)
                  payload (rv_received_interface way))
            end, s)
  end.

End relay.
