(* ===== verification/RelayProofs.v ===== *)
(** What relaying ([Relay]) promises: which packets go on and how, that duplicates do not, and that the proof of a
    packet goes back to where the packet came from. *)

From stdpp Require Import gmap.
From S2P Require Import LemireIndex AppData Prelude Wire Dedup Columns KeyedMap Evidence Routes Announce Acceptance ChannelTable Interfaces Lifetime DueTable Links RoutingTable RoutingTableInvariant RoutingTableQueries RoutingTableEvidence PathRequests PathRequestWire AnnounceSchedule Upstream UpstreamRegistry ReverseRoutes TransportedLinks TransportedLinksProofs AnnounceWire AnnounceWireProofs IngressClassify Relay.

#[local] Existing Instance timeouts.
#[local] Existing Instance timeouts_laws.

(** * What routes promise *)

Class RelayRoutesLaws (S : Type) `{RelayRoutes S} (interfaces : AttachedInterfaces) := {
  rr_rep : S → (DestinationHash → option ForwardingRoute) → Prop;
  rr_route_ok : ∀ s view d, rr_rep s view → rr_forwarding_route_for s d = Done (view d);
  rr_note_ok : ∀ s view d now, rr_rep s view → ∃ s', rr_note_relayed s d now interfaces = Done s' ∧ rr_rep s' view;
}.

Section table_routes.
Context {R A H D I : Type} `{RouteTableLaws R, AnnounceRecordLaws A, AnnounceIdHistoryLaws H, AppDataLaws D, RouteExpiryLaws I}.
Context (interfaces : AttachedInterfaces) (warmth : RouteWarmth) (rcap acap per : nat).

Definition warm_routes_rep (s : WarmRoutes) (view : DestinationHash → option ForwardingRoute) : Prop :=
  ∃ v, table_ok interfaces (WarmestOf (wr_tunnels s) (wr_departed s)) rcap acap per (wr_table s) v
    ∧ ∀ d, view d = forwarding_of <$> find_key sr_destination d v.

Definition warm_routes_laws : RelayRoutesLaws (WarmRoutes (R := R) (A := A) (H := H) (D := D) (I := I)) interfaces.
Proof.
  refine {| rr_rep := warm_routes_rep |}.
  - intros s view d (v & Hok & Hview). cbn. rewrite Hview. destruct (index_of_ok (wr_table s) v d Hok) as [(i & x & _ & Hi & <-)|[E Hn]].
    + rewrite (find_key_at sr_destination v i x (ok_destinations Hok) Hi). cbn. by apply (forwarding_ok _ v i x Hok).
    + rewrite find_key_none by done. unfold forwarding_route_for, at_destination. by rewrite E.
  - intros s view d now (v & Hok & Hview). cbn. destruct (note_relayed_ok (wr_table s) v d now Hok) as (t' & v' & -> & Hok' & Hv'). cbn [mbind run_bind].
    eexists. split; [done|]. exists v'. cbn. split; [done|]. intros d'. rewrite Hview. destruct Hv' as [(i & x & Hi & _ & ->)|[_ ->]]; [|done].
    rewrite (find_key_insert sr_destination d' v i x _ (ok_destinations Hok) Hi) by done. case_decide as Hd; [|done]. subst d'.
    rewrite (find_key_at sr_destination v i x (ok_destinations Hok) Hi). done.
Defined.
End table_routes.

(** * The abstract state *)

Record relay_view := mkRelayView {
  vw_routes : DestinationHash → option ForwardingRoute;
  vw_seen : generations;
  vw_apps : registry_map;
  vw_ways : list ReverseRouteEntry;
  vw_links : list LinkId;
  vw_carried : transported_map;
}.

(** What goes on, as the header and the state decide it. *)
Section rules.
Context (transport : TransportState) (override : LocalHopCountOverride) (v : relay_view).
Implicit Types (header : WirePacketHeader) (arrival : Arrival).

(** Data for a single destination is for us to carry: its header names us, or a client of this machine sends it or is
    the one it goes to; and no app here has the destination. *)
Definition ours_to_carry header arrival : Prop :=
  found_at (vw_apps v) (address header) (destination_type header) = None
  ∧ ((network_transport_enabled transport = true ∧ transport_id header = transport_state_id transport)
     ∨ is_local_client (av_source_interface arrival) = true
     ∨ ∃ route, vw_routes v (address header) = Some route ∧ is_local_client (fw_receiving_interface route) = true).

Definition hops_on arrival (out : InterfaceId) : Z :=
  override_apply override (av_received_hops arrival) (is_local_client (av_source_interface arrival) && negb (is_local_client out)).

(** The header on the way: mid-path the same with the next relay, at the last hop an open broadcast without one. *)
Inductive goes_on_as (route : ForwardingRoute) (hops : Z) header : WirePacketHeader → Prop :=
  | MidPath next : (1 < fw_hops route)%Z → fw_next_hop route = Via next →
      goes_on_as route hops header (mkHeader (ifac_flag header) (context_flag header) (propagation header) (destination_type header)
        (packet_type header) hops (Some next) (address header) (context header))
  | LastHop : (fw_hops route ≤ 1)%Z →
      goes_on_as route hops header (mkHeader Open ContextUnset Broadcast (destination_type header) (packet_type header) hops None (address header) (context header)).

Inductive relayed (hash : list Z) header (payload : list Z) arrival : PacketToForward → Prop :=
  IsRelayed route h :
    (∀ id, transport_id header = Some id → transport_state_id transport = Some id) →
    known (vw_seen v) hash = false →
    ours_to_carry header arrival →
    vw_routes v (address header) = Some route →
    goes_on_as route (hops_on arrival (fw_receiving_interface route)) header h →
    relayed hash header payload arrival (mkForward h payload (fw_receiving_interface route)).

(** The way back of a packet that goes out on [out]. *)
Definition way_back (hash : list Z) arrival (out : InterfaceId) : ReverseRouteEntry :=
  DueTable.mkDue (take TRUNCATED_HASH_BYTE_LEN hash) (mkReverse (av_source_interface arrival) out)
    (saturating_add 64 (av_arrived_at arrival) DEFAULT_REVERSE_ROUTE_TIMEOUT_MS).
End rules.

Definition with_seen (v : relay_view) (seen : generations) : relay_view := mkRelayView (vw_routes v) seen (vw_apps v) (vw_ways v) (vw_links v) (vw_carried v).
Definition with_ways (v : relay_view) (ways : list ReverseRouteEntry) : relay_view := mkRelayView (vw_routes v) (vw_seen v) (vw_apps v) ways (vw_links v) (vw_carried v).
Definition with_carried (v : relay_view) (carried : transported_map) : relay_view := mkRelayView (vw_routes v) (vw_seen v) (vw_apps v) (vw_ways v) (vw_links v) carried.

Lemma forwarded_header_ok route hops header :
  match forwarded_header route hops header with
  | Some h => goes_on_as route hops header h
  | None => ∀ h, ~ goes_on_as route hops header h
  end.
Proof.
  unfold forwarded_header. destruct (Z.ltb_spec 1 (fw_hops route)) as [Hmid|Hlast].
  - destruct (fw_next_hop route) eqn:E; [|by apply MidPath]. intros h Hh. inversion Hh; [congruence|lia].
  - by apply LastHop.
Qed.

Lemma goes_on_unique route hops header h h' : goes_on_as route hops header h → goes_on_as route hops header h' → h = h'.
Proof. intros [] []; [congruence|lia|lia|done]. Qed.

(** * On the wire *)

Section on_the_wire.
Context `{!Sha256} `{!Sha256Laws} (transport : TransportState) (override : LocalHopCountOverride) (v : relay_view).

Lemma forward_to_wire_ok p buf :
  header_wf (pf_header p) →
  let packet := encode_header (pf_header p) ++ pf_payload p in
  (length packet ≤ length buf → forward_to_wire p buf = Done (Ok (length packet), packet ++ drop (length packet) buf))
  ∧ (length buf < length packet → ∃ buf', forward_to_wire p buf = Done (Err BufferTooShort, buf') ∧ length buf' = length buf).
Proof.
  intros Hwf packet. pose proof (length_encode_header _ Hwf) as Hh. assert (Hp : length packet = wire_len (pf_header p) + length (pf_payload p)) by (unfold packet; rewrite length_app; lia).
  unfold forward_to_wire. rewrite write_spec by done. set (head := encode_header (pf_header p)) in *. case_decide as Hshort; cbn [mbind run_bind].
  { split; [lia|]. intros _. by exists buf. }
  assert (Hl : length (head ++ drop (wire_len (pf_header p)) buf) = length buf) by (rewrite length_app, length_drop; lia). rewrite Hl, <- Hp. split; intros Hlen.
  - rewrite (proj2 (Nat.ltb_ge _ _)) by done. rewrite copy_into_done by (rewrite Hl; lia). cbn [mbind run_bind]. rewrite take_app_length' by done.
    unfold packet. rewrite <- app_assoc. rewrite drop_app, (drop_ge head) by lia. rewrite app_nil_l, drop_drop. do 5 f_equal. rewrite length_app. lia.
  - rewrite (proj2 (Nat.ltb_lt _ _)) by done. eauto.
Qed.

Lemma relayed_header hash header payload arrival p :
  relayed transport override v hash header payload arrival p →
  ∃ hops, pf_payload p = payload ∧ destination_type (pf_header p) = destination_type header ∧ packet_type (pf_header p) = packet_type header
    ∧ address (pf_header p) = address header ∧ context (pf_header p) = context header ∧ Wire.hops (pf_header p) = hops
    ∧ hops = hops_on override arrival (pf_fire_on p) ∧ (ifac_flag header = Open → ifac_flag (pf_header p) = Open)
    ∧ (∀ next, transport_id (pf_header p) = Some next → ∃ route, vw_routes v (address header) = Some route ∧ fw_next_hop route = Via next).
Proof.
  intros [route h _ _ _ Hr Hg]. eexists. split; [done|]. cbn. destruct Hg; cbn; split_and!; try done. intros ? [= <-]. by exists route.
Qed.

(** A packet relayed by the rules, read by the next node. *)
Lemma relayed_on_wire hash data arrival p buf at_ interface :
  relayed transport override v hash (dp_header data) (dp_payload data) arrival p →
  header_wf (dp_header data) → packet_type (dp_header data) = Data → ifac_flag (dp_header data) = Open → dp_payload data ≠ [] →
  is_u8 (hops_on override arrival (pf_fire_on p)) →
  (∀ route next, vw_routes v (address (dp_header data)) = Some route → fw_next_hop route = Via next → is_hash next) →
  HEADER_MAX_LEN + length (dp_payload data) ≤ length buf →
  ∃ n buf', forward_to_wire p buf = Done (Ok n, buf')
    ∧ (let received := mkInbound at_ interface (take n buf') in
       classify received = Done (if (hops_on override arrival (pf_fire_on p) <? MAX_HOP_COUNT)%Z
         then IngressData Deferred (mkData (pf_header p) (dp_payload data)) (arrival_of received (pf_header p)) else IngressMalformed)
       ∧ of_wire_packet (take n buf') = Ok (data_packet_hash data))
    ∧ data_packet_hash (mkData (pf_header p) (dp_payload data)) = data_packet_hash data.
Proof.
  intros Hrel Hwf Hdata Hopen Hsome Hhops Hnext Hlen. destruct (relayed_header _ _ _ _ _ Hrel) as (hops & Hp & Hd & Ht & Ha & Hc & Hh & -> & Hi & Hn).
  assert (Hwf' : header_wf (pf_header p)).
  { destruct Hwf as [_ _ ? ?]. split; [by rewrite Hh| |by rewrite Ha|by rewrite Hc]. destruct (transport_id (pf_header p)) as [next|]; [|done].
    destruct (Hn next eq_refl) as (route & Hr & Hv). by eapply Hnext. }
  assert (Hroom : length (encode_header (pf_header p) ++ pf_payload p) ≤ length buf).
  { rewrite length_app, (length_encode_header _ Hwf'), Hp. etransitivity; [|exact Hlen]. apply Nat.add_le_mono_r. unfold wire_len. destruct (transport_id _); vm_compute; lia. }
  destruct (forward_to_wire_ok p buf Hwf') as [E _]. eexists _, _. split; [by apply E|]. rewrite Hp, take_app_length.
  assert (Hhash : data_packet_hash (mkData (pf_header p) (dp_payload data)) = data_packet_hash data) by (unfold data_packet_hash; cbn; by rewrite Hd, Ha, Hc).
  split; [|done]. split.
  - unfold classify. cbn [ip_bytes]. rewrite (parse_encode _ _ Hwf'). rewrite bool_decide_eq_false_2 by (by rewrite Hi). unfold wire_hop_count_is_valid. rewrite Hh.
    destruct (Z.ltb_spec (hops_on override arrival (pf_fire_on p)) MAX_HOP_COUNT) as [Hlt|]; cbn [negb]; [|done].
    rewrite length_app, Nat.add_sub, <- length_app, slice_suffix by done. cbn [mbind run_bind].
    rewrite (proj2 (Nat.eqb_neq _ _)) by (by destruct (dp_payload data)). rewrite Ht, Hdata. rewrite <- Hh in *.
    destruct (received_hops_ok (mkInbound at_ interface (encode_header (pf_header p) ++ dp_payload data)) (pf_header p) Hhops Hlt) as [<- _]. done.
  - rewrite (of_wire_packet_encoded _ _ Hwf'). f_equal. by rewrite Hd, Ht, Ha, Hc, Hdata.
Qed.
End on_the_wire.

(** * The handlers *)

Section refinement.
Context {S HH U RV LT TT : Type} {HS : RelayRoutes S} {HHH : PacketHashHistory HH} {HU : UpstreamAppDestinationTable U}
  {HRV : DueTable ReverseRoute RV} {HLT : LinkTable LT} {HTT : TransportedLinkTable TT} {hcap : Z} {interfaces : AttachedInterfaces}.
Context {HSL : RelayRoutesLaws S interfaces} {HHL : HistoryRefines HH hcap} {HUL : UpstreamTableLaws U} {HRVL : DueTableLaws ReverseRoute RV}
  {HLL : LinkTableLaws LT} {HTL : TransportedTableLaws TT} `{!Sha256} `{!Sha256Laws}.
Abbreviation state := (RelayState S HH U RV LT TT).
Implicit Types (s : state) (v : relay_view) (arrival : Arrival).

Record relays s (rcap : Z) v : Prop := {
  ry_routes : rr_rep (rl_routes s) (vw_routes v);
  ry_seen : rep (rl_history s) (vw_seen v);
  ry_apps : ∃ cap, holds (rl_upstream s) cap (vw_apps v);
  ry_ways : du_rep (rl_reverse s) rcap (vw_ways v);
  ry_links : ∃ room rows, lt_rep (table (rl_links s)) room rows ∧ NoDup (lr_id <$> rows) ∧ vw_links v = lr_id <$> rows;
  ry_carried : ∃ cap, carries (rl_transported s) cap (vw_carried v);
}.

Lemma has_local_ok s rcap v id : relays s rcap v → has_local_link (rl_links s) id = Done (bool_decide (id ∈ vw_links v)).
Proof.
  intros Hs. destruct (ry_links s rcap v Hs) as (room & rows & Hr & Hnd & ->). unfold has_local_link, links_index_of.
  destruct (lt_index_of_ok _ room rows id Hr Hnd) as [(i & r & -> & Hi & <-)|[-> Hn]]; cbn [mbind run_bind]; f_equal; apply bool_decide_ext; split.
  - intros _. apply list_elem_of_fmap_2. by eapply list_elem_of_lookup_2.
  - by intros _; exists i.
  - by intros [? ?].
  - done.
Qed.

Lemma registered_ok s rcap v d type : relays s rcap v → ∃ found, Upstream.lookup (rl_upstream s) d type = Done found ∧ (found = None ↔ found_at (vw_apps v) d type = None).
Proof.
  intros Hs. destruct (ry_apps s rcap v Hs) as (cap & rows & Hr & Hnd & ->). rewrite (lookup_ok _ cap rows d type Hr Hnd).
  eexists. split; [done|]. by rewrite fmap_None.
Qed.

Lemma remember_packet_ok s rcap v hash :
  relays s rcap v → is_packet_hash hash →
  ∃ s', remember_packet s hash = Done (known (vw_seen v) hash, s') ∧ relays s' rcap (with_seen v (remember_spec hcap (vw_seen v) hash).2)
    ∧ rl_transport s' = rl_transport s ∧ rl_override s' = rl_override s.
Proof.
  intros Hs Hh. unfold remember_packet. destruct (rep_remember _ _ hash (ry_seen s rcap v Hs) Hh) as (history & -> & Hr). cbn [mbind run_bind].
  exists (with_history s history). split; [|split; [destruct Hs; by split|done]]. do 2 f_equal. unfold remember_spec. destruct (known _ _); [done|]. by destruct (_ <? _)%Z.
Qed.

(** Links carried for others: the state of the links changes, their ids do not. *)
Lemma relay_if_ok s rcap v (address : LinkId) context type arrival :
  relays s rcap v →
  ∃ o s' m', relay_if_transported s address context type arrival = Done (o, s') ∧ relays s' rcap (with_carried v m')
    ∧ dom m' = dom (vw_carried v) ∧ rl_transport s' = rl_transport s ∧ rl_override s' = rl_override s
    ∧ (vw_carried v !! address = None → o = NotTransportedByUs).
Proof.
  intros Hs. unfold relay_if_transported. rewrite (has_local_ok s rcap v address Hs). cbn [mbind run_bind]. destruct (_ || _).
  { exists NotTransportedByUs, s, (vw_carried v). split_and!; [done|by destruct v|done..]. }
  destruct (ry_carried s rcap v Hs) as (cap & Hc).
  destruct (switch_does (rl_transported s) cap (vw_carried v) address (av_source_interface arrival) (av_received_hops arrival) (av_arrived_at arrival) Hc) as (a & l' & m' & Ho & Hstep & Hc').
  cbn [transported_do] in Ho. destruct (switch_through _ _ _ _ _) as [[r l1]| |] eqn:E; cbn [mbind run_bind] in *; [|done|done]. injection Ho as <- <-.
  eexists _, _, m'. split; [done|]. split.
  { destruct Hs as [? ? ? ? ? _]. split; [done..|]. by exists cap. }
  inversion Hstep; subst; (split; [try done|split; [done|split; [done|try done]]]).
  - apply dom_insert_lookup_L. by eexists.
  - intros Hn. congruence.
Qed.
Lemma proof_destination_ok (hash : list Z) : length hash = 32 → proof_destination hash = Done (take TRUNCATED_HASH_BYTE_LEN hash).
Proof.
  intros Hlen. unfold proof_destination. rewrite <- (take_drop TRUNCATED_HASH_BYTE_LEN hash) at 1. apply slice_prefix. by rewrite length_take, Hlen.
Qed.

(** What remains of the ways when one more is remembered: those that have not expired, all of them if there is room. *)
Definition ways_after (rcap : Z) (ways : list ReverseRouteEntry) (now : Z) (entry : ReverseRouteEntry) (ways' : list ReverseRouteEntry) : Prop :=
  ∃ live gone rest, live ≡ₚ filter (λ r, (du_at r <=? now)%Z = false) ways ∧ room_made rcap live gone rest ∧ ways' = pushed rcap rest entry.

Lemma maybe_forward_ok s rcap v header payload hash arrival :
  relays s rcap v → destination_type header = Single → packet_type header = Data → length hash = 32 → is_u64 (av_arrived_at arrival) →
  (Z.of_nat (length (vw_ways v)) < u32_max)%Z →
  (∃ route h s' ways', maybe_forward s header payload hash arrival interfaces = Done (Some (mkForward h payload (fw_receiving_interface route)), s')
     ∧ vw_routes v (address header) = Some route ∧ goes_on_as route (hops_on (rl_override s) arrival (fw_receiving_interface route)) header h
     ∧ ways_after rcap (vw_ways v) (av_arrived_at arrival) (way_back hash arrival (fw_receiving_interface route)) ways'
     ∧ relays s' rcap (with_ways v ways') ∧ rl_transport s' = rl_transport s ∧ rl_override s' = rl_override s)
  ∨ (maybe_forward s header payload hash arrival interfaces = Done (None, s)
     ∧ ∀ route h, vw_routes v (address header) = Some route → ~ goes_on_as route (hops_on (rl_override s) arrival (fw_receiving_interface route)) header h).
Proof.
  intros Hs Hd Hp Hlen Hn Hmax. unfold maybe_forward. rewrite Hd, Hp. rewrite !bool_decide_eq_true_2 by done. cbn [negb orb].
  rewrite (rr_route_ok _ _ (address header) (ry_routes s rcap v Hs)). cbn [mbind run_bind]. destruct (vw_routes v (address header)) as [route|] eqn:Er.
  2: { right. split; [done|]. by intros route h Hr. }
  unfold hops_across_local_boundary. fold (hops_on (rl_override s) arrival (fw_receiving_interface route)).
  pose proof (forwarded_header_ok route (hops_on (rl_override s) arrival (fw_receiving_interface route)) header) as Hf.
  destruct (forwarded_header _ _ _) as [h|].
  2: { right. split; [done|]. intros route' h Hr. injection Hr as <-. apply Hf. }
  left. rewrite (proof_destination_ok hash Hlen). cbn [mbind run_bind].
  destruct (remember_ok (rl_reverse s) rcap (vw_ways v) (way_back hash arrival (fw_receiving_interface route)) (av_arrived_at arrival)
    (ry_ways s rcap v Hs) Hn Hmax) as (reverse & live & gone & rest & E & Hr' & Hlive & Hroom).
  unfold way_back in E. rewrite E. cbn [mbind run_bind].
  destruct (rr_note_ok (rl_routes s) _ (address header) (av_arrived_at arrival) (ry_routes s rcap v Hs)) as (routes & -> & Hroutes). cbn [mbind run_bind].
  eexists route, h, _, _. split; [done|]. split; [done|]. split; [done|]. split; [by exists live, gone, rest|]. split; [|done].
  destruct Hs. by split.
Qed.

(** Whose header names another instance. *)
Definition for_another (transport : TransportState) (header : WirePacketHeader) : bool :=
  match transport_id header with Some id => negb (bool_decide (transport_state_id transport = Some id)) | None => false end.

Lemma for_another_ok transport header :
  for_another transport header = false ↔ ∀ id, transport_id header = Some id → transport_state_id transport = Some id.
Proof.
  unfold for_another. destruct (transport_id header) as [id|]; [|split; [done|done]].
  rewrite negb_false_iff, bool_decide_eq_true. split; [by intros Ht id' [= <-]|]. intros Ht. by apply Ht.
Qed.

Lemma routes_via_ok s rcap v d :
  relays s rcap v → ∃ b, routes_via_local_client s d = Done b
    ∧ (b = true ↔ ∃ route, vw_routes v d = Some route ∧ is_local_client (fw_receiving_interface route) = true).
Proof.
  intros Hs. unfold routes_via_local_client. rewrite (rr_route_ok _ _ d (ry_routes s rcap v Hs)). cbn [mbind run_bind].
  eexists. split; [done|]. destruct (vw_routes v d) as [route|]; (split; [|intros (route' & [= <-] & ?); done]); [intros ?; by exists route|done].
Qed.

(** The middle of [ingest_data]: whether the packet is for us to carry. *)
Lemma carry_ok s rcap v header arrival :
  relays s rcap v → destination_type header = Single →
  ∃ found shared, Upstream.lookup (rl_upstream s) (address header) Single = Done found
    ∧ (let is_not := match found with None => true | Some _ => false end in
       (if is_not && true
        then if is_local_client (av_source_interface arrival) then Done true else routes_via_local_client s (address header)
        else Done false) = Done shared
       ∧ ((network_transport_enabled (rl_transport s) && bool_decide (transport_id header = transport_state_id (rl_transport s)) && is_not || shared) = true
          ↔ ours_to_carry (rl_transport s) v header arrival)).
Proof.
  intros Hs Hd. destruct (registered_ok s rcap v (address header) Single Hs) as (found & E & Hfound).
  destruct (routes_via_ok s rcap v (address header) Hs) as (b & Hb & Hvia). 
  assert (Hours : ours_to_carry (rl_transport s) v header arrival ↔ found = None
    ∧ ((network_transport_enabled (rl_transport s) = true ∧ transport_id header = transport_state_id (rl_transport s))
       ∨ is_local_client (av_source_interface arrival) = true ∨ b = true)) by (unfold ours_to_carry; by rewrite Hd, <- Hfound, <- Hvia).
  clear Hfound Hvia.
  destruct found as [x|]; cbn [andb].
  - exists (Some x), false. split; [done|]. split; [done|]. rewrite andb_false_r, Hours. split; [done|]. by intros [? _].
  - exists None, (is_local_client (av_source_interface arrival) || b). split; [done|]. cbn [andb]. split.
    { rewrite Hb. by destruct (is_local_client _). }
    rewrite Hours, andb_true_r, !orb_true_iff, andb_true_iff, bool_decide_eq_true. split; [intros ?; split; [done|tauto]|intros [_ ?]; tauto].
Qed.

Definition single_done s rcap v (hash : list Z) (data : DataPacket) arrival (o : DataOutcome) s' : Prop :=
  ∃ seen' ways', relays s' rcap (with_ways (with_seen v seen') ways')
    ∧ rl_transport s' = rl_transport s ∧ rl_override s' = rl_override s
    ∧ (∀ p, o = DataForward p ↔ relayed (rl_transport s) (rl_override s) v hash (dp_header data) (dp_payload data) arrival p)
    ∧ (o = DataIgnored DuplicatePacket ↔ for_another (rl_transport s) (dp_header data) = false ∧ known (vw_seen v) hash = true)
    ∧ seen' = (if for_another (rl_transport s) (dp_header data) then vw_seen v else (remember_spec hcap (vw_seen v) hash).2)
    ∧ (match o with DataForward p => ways_after rcap (vw_ways v) (av_arrived_at arrival) (way_back hash arrival (pf_fire_on p)) ways' | _ => ways' = vw_ways v end).

Lemma ingest_single_ok s rcap v packet_hash data arrival :
  relays s rcap v → destination_type (dp_header data) = Single → packet_type (dp_header data) = Data →
  is_packet_hash (hash_get packet_hash data) → is_u64 (av_arrived_at arrival) → (Z.of_nat (length (vw_ways v)) < u32_max)%Z →
  ∃ o s', ingest_data s packet_hash data arrival interfaces = Done (o, s') ∧ single_done s rcap v (hash_get packet_hash data) data arrival o s'.
Proof.
  intros Hs Hd Hp Hh Hn Hmax. unfold ingest_data. rewrite Hd. cbn [bool_decide].
  rewrite (bool_decide_eq_false_2 (Single = Link)), (bool_decide_eq_false_2 (Single = Plain)), (bool_decide_eq_false_2 (Single = Group)) by done.
  rewrite (bool_decide_eq_true_2 (Single = Single)) by done. cbn [andb orb]. fold (for_another (rl_transport s) (dp_header data)).
  pose proof (for_another_ok (rl_transport s) (dp_header data)) as Hother.
  assert (Hsame : with_ways (with_seen v (vw_seen v)) (vw_ways v) = v) by (by destruct v).
  destruct (for_another _ _) eqn:Ef.
  { eexists _, s. split; [done|]. exists (vw_seen v), (vw_ways v). rewrite Hsame, Ef. split_and!; try done.
    - intros p. split; [done|]. intros [route h Hi _ _ _ _]. by apply Hother in Hi.
    - split; [done|]. by intros [? _]. }
  cbn [hash_resolve fst]. change (hash_get (Resolved (hash_get packet_hash data)) data) with (hash_get packet_hash data). set (hash := hash_get packet_hash data) in *.
  destruct (remember_packet_ok s rcap v hash Hs Hh) as (s1 & -> & Hs1 & Et & Eo). cbn [mbind run_bind].
  set (v1 := with_seen v (remember_spec hcap (vw_seen v) hash).2) in *.
  destruct (known (vw_seen v) hash) eqn:Hk.
  { eexists _, s1. split; [done|]. exists (remember_spec hcap (vw_seen v) hash).2, (vw_ways v). rewrite Ef. split_and!; try done.
    intros p. split; [done|]. intros [route h _ Hk' _ _ _]. congruence. }
  destruct (carry_ok s1 rcap v1 (dp_header data) arrival Hs1 Hd) as (found & shared & -> & Hshared & Hcarry). cbn [mbind run_bind].
  cbn zeta in Hshared. rewrite Hshared. cbn [mbind run_bind]. rewrite Et in *.
  assert (Hrel : ∀ p, relayed (rl_transport s) (rl_override s) v hash (dp_header data) (dp_payload data) arrival p →
    ours_to_carry (rl_transport s) v1 (dp_header data) arrival) by (by intros p [route h _ _ ? _ _]).
  destruct (_ || shared) eqn:Ec.
  2: { eexists _, s1. split; [done|]. exists (remember_spec hcap (vw_seen v) hash).2, (vw_ways v). rewrite Ef. split_and!; try done.
    - intros p. split; [done|]. intros Hr. by apply Hrel, Hcarry in Hr.
    - rewrite Hk. split; [done|]. by intros [_ ?]. }
  destruct (maybe_forward_ok s1 rcap v1 (dp_header data) (dp_payload data) hash arrival Hs1 Hd Hp (proj1 Hh) Hn Hmax)
    as [(route & h & s' & ways' & -> & Hroute & Hgoes & Hways & Hs' & Et' & Eo')|[-> Hno]]; rewrite Eo in *; cbn [mbind run_bind].
  - eexists _, s'. split; [done|]. exists (remember_spec hcap (vw_seen v) hash).2, ways'. rewrite Ef. split_and!; try done; [congruence| |].
    + intros p. split.
      * intros [= <-]. apply (IsRelayed _ _ _ _ _ _ _ route); [by apply Hother|done|by apply Hcarry|done|done].
      * intros [route' h' _ _ _ Hroute' Hgoes']. assert (route' = route) as -> by (change (vw_routes v1) with (vw_routes v) in Hroute; congruence).
        by rewrite (goes_on_unique _ _ _ _ _ Hgoes' Hgoes).
    + rewrite Hk. split; [done|]. by intros [_ ?].
  - eexists _, s1. split; [done|]. exists (remember_spec hcap (vw_seen v) hash).2, (vw_ways v). rewrite Ef. split_and!; try done.
    + intros p. split; [done|]. intros [route' h' _ _ _ Hroute' Hgoes']. by destruct (Hno route' h').
    + rewrite Hk. split; [done|]. by intros [_ ?].
Qed.
(** Data for other destinations leaves the ways alone. *)
Lemma ingest_other_ok s rcap v packet_hash data arrival :
  relays s rcap v → destination_type (dp_header data) ≠ Single →
  ∃ o s' m', ingest_data s packet_hash data arrival interfaces = Done (o, s') ∧ relays s' rcap (with_carried v m')
    ∧ dom m' = dom (vw_carried v) ∧ rl_override s' = rl_override s.
Proof.
  intros Hs Hd. unfold ingest_data. assert (Hsame : relays s rcap (with_carried v (vw_carried v))) by (by destruct v).
  case_bool_decide as Hl.
  { destruct (relay_if_ok s rcap v (address (dp_header data)) (context (dp_header data)) Data arrival Hs) as (o & s' & m' & -> & Hs' & Hm & _ & Eo & _).
    cbn [mbind run_bind]. by eexists _, s', m'. }
  rewrite (bool_decide_eq_false_2 (_ = Single)) by done.
  repeat match goal with |- context [if ?b then Done (_, s) else _] => destruct b; [by eexists _, s, _|] end. cbn [mbind run_bind].
  destruct (registered_ok s rcap v (address (dp_header data)) (destination_type (dp_header data)) Hs) as (found & -> & _). cbn [mbind run_bind].
  rewrite !andb_false_r. cbn [mbind run_bind]. rewrite !orb_false_r. destruct (_ && _ && _); [|by eexists _, s, _].
  unfold maybe_forward. rewrite (bool_decide_eq_false_2 (_ = Single)) by done. by eexists _, s, _.
Qed.

(** A proof for an address that is no link: what its way says. *)
Lemma return_ok s rcap v payload (address : LinkId) context arrival :
  relays s rcap v →
  ∃ o s' m' ways', return_proof s payload address context arrival = Done (o, s') ∧ relays s' rcap (with_ways (with_carried v m') ways')
    ∧ dom m' = dom (vw_carried v) ∧ rl_override s' = rl_override s
    ∧ (ways' = vw_ways v ∨ ∃ r, r :: ways' ≡ₚ vw_ways v ∧ du_key r = address)
    ∧ (vw_carried v !! address = None →
       (∃ r, r :: ways' ≡ₚ vw_ways v ∧ du_key r = address
          ∧ o = if (du_at r <=? av_arrived_at arrival)%Z then ToReceipts
                else if bool_decide (rv_outbound_interface (du_value r) = av_source_interface arrival) then
                  ProofForward (mkForward (mkHeader Open ContextUnset Broadcast Single Proof_
                    (hops_on (rl_override s) arrival (rv_received_interface (du_value r))) None address CtxNone) payload (rv_received_interface (du_value r)))
                else ProofIgnored NotForUs)
       ∨ ways' = vw_ways v ∧ o = ToReceipts ∧ address ∉ du_key <$> vw_ways v).
Proof.
  intros Hs. unfold return_proof. destruct (relay_if_ok s rcap v address context Proof_ arrival Hs) as (o & s1 & m' & -> & Hs1 & Hm & _ & Eo & Ho).
  cbn [mbind run_bind]. destruct o as [h out|].
  { eexists _, s1, m', (vw_ways v). split_and!; try done; [by left|]. intros Hn. by specialize (Ho Hn). }
  destruct (take_ok (rl_reverse s1) rcap (vw_ways v) address (av_arrived_at arrival) (ry_ways s1 rcap _ Hs1)) as [(i & r & t' & Hi & Hk & Hr & ->)|[Hn ->]];
    cbn [mbind run_bind].
  - eexists _, _, m', (swap_removed (vw_ways v) i). pose proof (swap_removed_perm _ i r Hi) as Hperm.
    split; [done|]. split; [destruct Hs1; by split|]. split; [done|]. split; [done|]. split; [right; by exists r|]. intros _. left. exists r. split_and!; [done|done|].
    destruct (_ <=? _)%Z; [done|]. unfold hops_on. rewrite <- Eo. by case_bool_decide.
  - eexists _, _, m', (vw_ways v). split; [done|]. split; [destruct Hs1; by split|]. split_and!; try done; [by left|]. by right.
Qed.

(** * Between a packet and its proof *)

Inductive relay_op :=
  | DataComes (packet_hash : DataPacketHash) (data : DataPacket) (arrival : Arrival)
  | ProofComes (payload address : list Z) (context : WireContext) (arrival : Arrival).

Definition relay_do s (op : relay_op) : run state :=
  match op with
  | DataComes packet_hash data arrival => '(_, s) ← ingest_data s packet_hash data arrival interfaces; Done s
  | ProofComes payload address context arrival => '(_, s) ← return_proof s payload address context arrival; Done s
  end.
Fixpoint relay_do_all s (ops : list relay_op) : run state :=
  match ops with [] => Done s | op :: ops => s ← relay_do s op; relay_do_all s ops end.

(** Other packets, while the way [r] has not expired, and other proofs. *)
Definition leaves (r : ReverseRouteEntry) (op : relay_op) : Prop :=
  match op with
  | DataComes packet_hash data arrival =>
      packet_type (dp_header data) = Data ∧ is_packet_hash (hash_get packet_hash data) ∧ is_u64 (av_arrived_at arrival)
      ∧ (av_arrived_at arrival < du_at r)%Z ∧ take TRUNCATED_HASH_BYTE_LEN (hash_get packet_hash data) ≠ du_key r
  | ProofComes _ address _ _ => address ≠ du_key r
  end.

Lemma ways_after_waits rcap ways now entry ways' r :
  ways_after rcap ways now entry ways' → waits ways r → (now < du_at r)%Z → du_key entry ≠ du_key r → (Z.of_nat (length ways) < rcap)%Z →
  waits ways' r ∧ length ways' ≤ length ways + 1.
Proof.
  intros (live & gone & rest & Hp & Hmade & ->) Hw Hlt Hk Hroom. assert (Hlive : length live ≤ length ways) by (rewrite Hp; apply length_filter).
  assert (Hrest : rest = live) by (destruct Hmade; [done|lia|lia]). subst rest. unfold pushed. rewrite (proj2 (Z.eqb_neq _ _)) by lia.
  rewrite length_app. cbn. split; [|lia]. rewrite (Permutation_app_comm live [entry]). cbn. rewrite waits_other by done. rewrite Hp.
  apply waits_filter; [done|]. by apply Z.leb_gt.
Qed.

Lemma relay_op_ok s rcap v r op :
  relays s rcap v → waits (vw_ways v) r → leaves r op → (Z.of_nat (length (vw_ways v)) < rcap `min` u32_max)%Z →
  ∃ s' v', relay_do s op = Done s' ∧ relays s' rcap v' ∧ waits (vw_ways v') r ∧ length (vw_ways v') ≤ length (vw_ways v) + 1
    ∧ dom (vw_carried v') = dom (vw_carried v) ∧ rl_override s' = rl_override s.
Proof.
  intros Hs Hw Hl Hroom. destruct op as [packet_hash data arrival|payload address context arrival]; cbn [relay_do leaves] in *.
  - destruct Hl as (Hp & Hh & Hn & Hlt & Hk). destruct (decide (destination_type (dp_header data) = Single)) as [Hd|Hd].
    + destruct (ingest_single_ok s rcap v packet_hash data arrival Hs Hd Hp Hh Hn) as (o & s' & -> & seen' & ways' & Hs' & _ & Eo & _ & _ & _ & Hways); [lia|].
      cbn [mbind run_bind]. eexists s', _. split; [done|]. split; [exact Hs'|]. cbn. enough (waits ways' r ∧ length ways' ≤ length (vw_ways v) + 1) by tauto.
      destruct o; [subst ways'; split; [done|lia]| |subst ways'; split; [done|lia]..]. eapply ways_after_waits; [exact Hways|done..|lia].
    + destruct (ingest_other_ok s rcap v packet_hash data arrival Hs Hd) as (o & s' & m' & -> & Hs' & Hm & Eo). cbn [mbind run_bind].
      eexists s', _. split; [done|]. split; [exact Hs'|]. cbn. split_and!; [done|lia|done|done].
  - destruct (return_ok s rcap v payload address context arrival Hs) as (o & s' & m' & ways' & -> & Hs' & Hm & Eo & Hways & _). cbn [mbind run_bind].
    eexists s', _. split; [done|]. split; [exact Hs'|]. cbn. enough (waits ways' r ∧ length ways' ≤ length (vw_ways v) + 1) by tauto.
    destruct Hways as [->|(x & Hp & Hkx)]; [split; [done|lia]|]. rewrite <- Hp in Hw |- *. rewrite waits_other in Hw by congruence. cbn. split; [done|lia].
Qed.

Lemma relay_ops_ok s rcap v r ops :
  relays s rcap v → waits (vw_ways v) r → Forall (leaves r) ops → (Z.of_nat (length (vw_ways v) + length ops) ≤ rcap `min` u32_max)%Z →
  ∃ s' v', relay_do_all s ops = Done s' ∧ relays s' rcap v' ∧ waits (vw_ways v') r
    ∧ dom (vw_carried v') = dom (vw_carried v) ∧ rl_override s' = rl_override s.
Proof.
  revert s v. induction ops as [|op ops IH]; intros s v Hs Hw Hl Hroom; cbn [relay_do_all length] in *; [by exists s, v|].
  apply list.Forall_cons in Hl as [Hl1 Hl]. destruct (relay_op_ok s rcap v r op Hs Hw Hl1) as (s1 & v1 & -> & Hs1 & Hw1 & Hlen & Hm1 & Eo1); [lia|].
  cbn [mbind run_bind]. destruct (IH s1 v1 Hs1 Hw1 Hl) as (s' & v' & E & Hs' & Hw' & Hm' & Eo'); [lia|]. exists s', v'. split_and!; [done..|congruence|congruence].
Qed.

(** C20. Only what is for us to carry goes on, and once.  A packet of data for a single destination is relayed exactly if
    its header names no other instance, it was not seen before, no app of this node has its destination, the header
    names us or a client of this machine is at one of its ends, and there is a route with a next relay; it goes out on
    the interface of the route, with the header changed as the route says; its way back is remembered.  A packet that
    was seen before is dropped; nothing else changes the ways. *)
Theorem only_transit_is_relayed s rcap v packet_hash data arrival :
  relays s rcap v → destination_type (dp_header data) = Single → packet_type (dp_header data) = Data →
  is_packet_hash (hash_get packet_hash data) → is_u64 (av_arrived_at arrival) → (Z.of_nat (length (vw_ways v)) < u32_max)%Z →
  ∃ o s', ingest_data s packet_hash data arrival interfaces = Done (o, s') ∧ single_done s rcap v (hash_get packet_hash data) data arrival o s'.
Proof. apply ingest_single_ok. Qed.


End refinement.

