(* ===== verification/LinkHandshake.v ===== *)
(** Link requests and their proofs as bytes: [prns-core/src/routing/links/handshake.rs], with the ids of links and the
    modes of [routing/links/mod.rs].

    The round-trip time that the initiator sends last is a floating-point number under encryption and is left out. *)

From S2P Require Import Prelude Wire Dedup Columns Routes Announce ChannelTable Links Upstream RoutingTable AnnounceWire.

(** * Lengths and signalling *)

Definition LINK_MTU_BYTEMASK : Z := 0x1FFFFF.
Definition SIGNALLING_BYTES_LEN : nat := 3.
Definition LINK_REQUEST_KEYS_LEN : nat := X25519_KEY_LEN + ED25519_KEY_LEN.
Definition SIGNALLED_LINK_REQUEST_LEN : nat := LINK_REQUEST_KEYS_LEN + SIGNALLING_BYTES_LEN.
Definition LINK_PROOF_SIGNED_DATA_LEN : nat := TRUNCATED_HASH_BYTE_LEN + X25519_KEY_LEN + ED25519_KEY_LEN + SIGNALLING_BYTES_LEN.
Definition LINK_PROOF_BODY_LEN : nat := SIGNATURE_BYTE_LEN + X25519_KEY_LEN.
Definition SIGNALLED_LINK_PROOF_LEN : nat := LINK_PROOF_BODY_LEN + SIGNALLING_BYTES_LEN.

Definition mode_to_bits (mode : LinkMode) : Z := match mode with Aes256Cbc => 1 end.
Definition mode_from_bits (bits : Z) : option LinkMode := if (bits =? 1)%Z then Some Aes256Cbc else None.

Definition negotiated_link_mtu (requested ceiling : Z) : Z :=
  Z.min (if (requested =? 0)%Z then Z.of_nat BROADCAST_MTU else requested) ceiling.

(** [mtu as u32] keeps the low 32 bits. *)
Definition signalling_bytes_from (mtu : Z) (mode : LinkMode) : list Z :=
  let value := Z.lor (Z.land (wrap 32 mtu) LINK_MTU_BYTEMASK) (shl 32 (mode_to_bits mode) 21) in
  [wrap 8 (Z.shiftr value 16); wrap 8 (Z.shiftr value 8); wrap 8 value].

Definition decode_signalling_bytes (bytes : list Z) : run (Z * Z) :=
  b0 ← index bytes 0; b1 ← index bytes 1; b2 ← index bytes 2;
  let value := Z.lor (Z.lor (shl 32 b0 16) (shl 32 b1 8)) b2 in
  Done (Z.land value LINK_MTU_BYTEMASK, wrap 8 (Z.land (Z.shiftr value 21) 0x07)).

(** [split_first_chunk_mut().ok_or(BufferTooShort)?] and the write through it, once for each chunk; what was written
    before a chunk that does not fit stays. *)
Fixpoint write_chunks (buf : list Z) (offset : nat) (chunks : list (list Z)) : run (result WireError nat * list Z) :=
  match chunks with
  | [] => Done (Ok offset, buf)
  | chunk :: chunks =>
      if (length buf <? offset + length chunk)%nat then Done (Err BufferTooShort, buf) else
      buf ← copy_into buf offset chunk;
      write_chunks buf (offset + length chunk) chunks
  end.

(** * Link requests *)

Section handshake.
Context `{Sha256} `{Ed25519}.

(** [LinkId::derive] *)
Definition derive_link_id (destination : DestinationHash) (initiator_encryption initiator_signing : list Z) : LinkId :=
  let FLAGS_NIBBLE := Z.lor (shl 8 (DestinationType_as_u8 Single) 2) (PacketType_as_u8 LinkRequest) in
  take TRUNCATED_HASH_BYTE_LEN
    (sha256_chunks [[FLAGS_NIBBLE]; destination; [WireContext_to_byte CtxNone]; initiator_encryption; initiator_signing]).

Definition link_request_header (destination : DestinationHash) (via : option TransportId) : WirePacketHeader :=
  mkHeader Open ContextUnset (match via with Some _ => Transport | None => Broadcast end) Single LinkRequest 0 via destination CtxNone.

Definition write_link_request_with_signalling (destination : DestinationHash) (via : option TransportId)
    (initiator_encryption initiator_signing : list Z) (signalling : option (Z * LinkMode)) (buf : list Z) :
    run (result WireError nat * list Z) :=
  '(written, buf) ← Wire.write (link_request_header destination via) buf;
  match written with
  | Err e => Done (Err e, buf)
  | Ok header_len =>
      write_chunks buf header_len
        ([initiator_encryption; initiator_signing]
         ++ match signalling with None => [] | Some (mtu, mode) => [signalling_bytes_from mtu mode] end)
  end.
Definition write_link_request destination via initiator_encryption initiator_signing (mtu : Z) (mode : LinkMode) buf :=
  write_link_request_with_signalling destination via initiator_encryption initiator_signing (Some (mtu, mode)) buf.
Definition write_unsignalled_link_request destination via initiator_encryption initiator_signing buf :=
  write_link_request_with_signalling destination via initiator_encryption initiator_signing None buf.

Record LinkRequestMessage := mkLinkRequest {
  lq_destination : DestinationHash;
  lq_link_id : LinkId;
  lq_initiator_encryption : list Z;
  lq_initiator_signing : list Z;
  lq_mtu : Z;
  lq_mode : LinkMode;
  lq_signalled : bool;
}.
Inductive LinkRequestError := RequestMalformed | RequestUnsupportedMode.

(** The keys and what was signalled, before the keys are cut. *)
Definition request_parts (payload : list Z) : run (result LinkRequestError (list Z * Z * LinkMode * bool)) :=
  if (length payload =? LINK_REQUEST_KEYS_LEN)%nat then Done (Ok (payload, Z.of_nat BROADCAST_MTU, Aes256Cbc, false))
  else if (length payload =? SIGNALLED_LINK_REQUEST_LEN)%nat then
    signalling ← slice payload LINK_REQUEST_KEYS_LEN (length payload);
    '(mtu, mode_bits) ← decode_signalling_bytes signalling;
    match mode_from_bits mode_bits with
    | None => Done (Err RequestUnsupportedMode)
    | Some mode => keys ← slice payload 0 LINK_REQUEST_KEYS_LEN; Done (Ok (keys, mtu, mode, true))
    end
  else Done (Err RequestMalformed).

Definition link_request_from (header : WirePacketHeader) (payload : list Z) : run (result LinkRequestError LinkRequestMessage) :=
  parts ← request_parts payload;
  match parts with
  | Err e => Done (Err e)
  | Ok (keys, mtu, mode, signalled) =>
      encryption ← slice keys 0 X25519_KEY_LEN;
      signing ← slice keys X25519_KEY_LEN LINK_REQUEST_KEYS_LEN;
      Done (Ok (mkLinkRequest (address header) (derive_link_id (address header) encryption signing) encryption signing mtu mode signalled))
  end.

Definition parse_link_request (raw : list Z) : run (result LinkRequestError LinkRequestMessage) :=
  match Wire.parse raw with
  | Err _ => Done (Err RequestMalformed)
  | Ok (header, payload) => link_request_from header payload
  end.

(** * Proofs *)

Definition link_proof_signed_data (link_id : LinkId) (responder_encryption responder_signing : list Z) (mtu : Z) (mode : LinkMode) : run (list Z) :=
  let signalling := signalling_bytes_from mtu mode in
  let signed_data := replicate LINK_PROOF_SIGNED_DATA_LEN 0%Z in
  signed_data ← copy_into signed_data 0 link_id;
  let o := TRUNCATED_HASH_BYTE_LEN in
  signed_data ← copy_into signed_data o responder_encryption;
  let o := o + X25519_KEY_LEN in
  signed_data ← copy_into signed_data o responder_signing;
  let o := o + ED25519_KEY_LEN in
  copy_into signed_data o signalling.

Definition link_proof_header (link_id : LinkId) : WirePacketHeader :=
  mkHeader Open ContextUnset Broadcast Link Proof_ 0 None link_id CtxLinkRequestProof.

Definition write_link_proof_from_parts (link_id : LinkId) (responder_encryption signature : list Z) (mtu : Z) (mode : LinkMode) (buf : list Z) :
    run (result WireError nat * list Z) :=
  '(written, buf) ← Wire.write (link_proof_header link_id) buf;
  match written with
  | Err e => Done (Err e, buf)
  | Ok header_len => write_chunks buf header_len [signature; responder_encryption; signalling_bytes_from mtu mode]
  end.

Definition write_link_proof (link_id : LinkId) (responder_encryption : list Z) (signer : IdentitySigner) (mtu : Z) (mode : LinkMode) (buf : list Z) :
    run (result WireError nat * list Z) :=
  signed_data ← link_proof_signed_data link_id responder_encryption (sg_signing_public_key signer) mtu mode;
  write_link_proof_from_parts link_id responder_encryption (sg_sign signer signed_data) mtu mode buf.

Record LinkProof := mkLinkProof { lp_link_id : LinkId; lp_responder_encryption : list Z; lp_mtu : Z; lp_mode : LinkMode }.
Record LinkProofParsed := mkLinkProofParsed { pp_proof : LinkProof; pp_signed_data : list Z; pp_signed_bytes : nat; pp_signature : list Z }.
Inductive LinkProofError := ProofMalformed | ProofUnsupportedMode | ProofInvalidSignature.

Definition proof_parts (payload : list Z) : run (result LinkProofError (list Z * list Z * Z * LinkMode)) :=
  if (length payload =? LINK_PROOF_BODY_LEN)%nat then Done (Ok (payload, [], Z.of_nat BROADCAST_MTU, Aes256Cbc))
  else if (length payload =? SIGNALLED_LINK_PROOF_LEN)%nat then
    signalling ← slice payload LINK_PROOF_BODY_LEN (length payload);
    '(mtu, mode_bits) ← decode_signalling_bytes signalling;
    match mode_from_bits mode_bits with
    | None => Done (Err ProofUnsupportedMode)
    | Some mode => body ← slice payload 0 LINK_PROOF_BODY_LEN; Done (Ok (body, signalling, mtu, mode))
    end
  else Done (Err ProofMalformed).

Definition link_proof_parse (link_id : LinkId) (payload responder_signing : list Z) : run (result LinkProofError LinkProofParsed) :=
  parts ← proof_parts payload;
  match parts with
  | Err e => Done (Err e)
  | Ok (body, signalling, mtu, mode) =>
      signature ← slice body 0 SIGNATURE_BYTE_LEN;
      responder_encryption ← slice body SIGNATURE_BYTE_LEN LINK_PROOF_BODY_LEN;
      let signed_data := replicate LINK_PROOF_SIGNED_DATA_LEN 0%Z in
      signed_data ← copy_into signed_data 0 link_id;
      let o := TRUNCATED_HASH_BYTE_LEN in
      signed_data ← copy_into signed_data o responder_encryption;
      let o := o + X25519_KEY_LEN in
      signed_data ← copy_into signed_data o responder_signing;
      let o := o + ED25519_KEY_LEN in
      signed_data ← copy_into signed_data o signalling;
      let o := o + length signalling in
      Done (Ok (mkLinkProofParsed (mkLinkProof link_id responder_encryption mtu mode) signed_data o signature))
  end.

Definition link_proof_from (link_id : LinkId) (payload responder_signing : list Z) : run (result LinkProofError LinkProof) :=
  parsed ← link_proof_parse link_id payload responder_signing;
  match parsed with
  | Err e => Done (Err e)
  | Ok parsed =>
      message ← slice (pp_signed_data parsed) 0 (pp_signed_bytes parsed);
      Done (if ed25519_verify responder_signing message (pp_signature parsed) then Ok (pp_proof parsed) else Err ProofInvalidSignature)
  end.

Definition validate_link_proof (raw responder_signing : list Z) : run (result LinkProofError LinkProof) :=
  match Wire.parse raw with
  | Err _ => Done (Err ProofMalformed)
  | Ok (header, payload) => link_proof_from (address header) payload responder_signing
  end.

(** On the fields of [LinkProofVerifyOwed]. *)
Definition link_proof_signature_valid (responder_signing signed_data : list Z) (signed_bytes : nat) (signature : list Z) : run bool :=
  message ← slice signed_data 0 signed_bytes;
  Done (ed25519_verify responder_signing message signature).

End handshake.
