(* ===== verification/LinkHandshakeProofs.v ===== *)
(** What the bytes of link requests and proofs promise ([LinkHandshake]). *)

From S2P Require Import Prelude Wire Dedup Columns Routes Announce ChannelTable Links Upstream RoutingTable AnnounceWire AnnounceWireProofs LinkHandshake.

(** * Signalling *)

Lemma byte_parts (v : Z) : (0 ≤ v < 2 ^ 24)%Z → Z.lor (Z.lor (shl 32 (wrap 8 (Z.shiftr v 16)) 16) (shl 32 (wrap 8 (Z.shiftr v 8)) 8)) (wrap 8 v) = v.
Proof.
  intros Hv. unfold shl, wrap. apply Z.bits_inj'. intros n Hn. rewrite !Z.lor_spec.
  assert (Hhigh : ∀ k, (24 ≤ k)%Z → Z.testbit v k = false).
  { intros k Hk. destruct (decide (v = 0)%Z) as [->|]; [apply Z.bits_0|]. apply Z.bits_above_log2; [lia|]. apply Z.log2_lt_pow2; [lia|].
    eapply Z.lt_le_trans; [apply Hv|]. by apply Z.pow_le_mono_r. }
  assert (Hb : ∀ x k m, (0 ≤ k)%Z → (0 ≤ m)%Z → Z.testbit (x mod 2 ^ k)%Z m = (m <? k)%Z && Z.testbit x m).
  { intros x k m Hk Hm. destruct (Z.ltb_spec m k); [apply Z.mod_pow2_bits_low; lia|apply Z.mod_pow2_bits_high; lia]. }
  assert (Hs : ∀ x k m, (0 ≤ m)%Z → (0 ≤ k)%Z → Z.testbit (Z.shiftl x k) m = negb (m <? k)%Z && Z.testbit x (m - k)).
  { intros x k m Hm Hk. destruct (Z.ltb_spec m k); [by rewrite Z.shiftl_spec_low|by rewrite Z.shiftl_spec]. }
  rewrite !Hb, !Hs by lia.
  assert (Hr : ∀ k, (0 < k)%Z → (negb (n <? k)%Z && Z.testbit (Z.shiftr v k mod 2 ^ 8) (n - k))%Z = (negb (n <? k)%Z && (n <? k + 8)%Z && Z.testbit v n)).
  { intros k Hk. destruct (Z.ltb_spec n k); [done|]. cbn [negb andb]. rewrite Hb, Z.shiftr_spec by lia. replace (n - k + k)%Z with n by lia.
    f_equal. apply eq_true_iff_eq. rewrite !Z.ltb_lt. lia. }
  rewrite !Hr by lia. cbn [Z.add]. destruct (Z.ltb_spec n 24) as [|Hge]; [|rewrite Hhigh by lia; by rewrite !andb_false_r].
  destruct (Z.testbit v n); [|by rewrite !andb_false_r]. rewrite !andb_true_r.
  destruct (Z.ltb_spec n 32); [|lia]. destruct (Z.ltb_spec n 16), (Z.ltb_spec n 8); done || lia.
Qed.

(** The 24 bits that are signalled. *)
Definition signalled_value (mtu : Z) (mode : LinkMode) : Z := (mtu mod 2 ^ 21 + 2 ^ 21 * mode_to_bits mode)%Z.

Lemma signalled_value_ok mtu mode :
  Z.lor (Z.land (wrap 32 mtu) LINK_MTU_BYTEMASK) (shl 32 (mode_to_bits mode) 21) = signalled_value mtu mode ∧ (0 ≤ signalled_value mtu mode < 2 ^ 24)%Z.
Proof.
  unfold signalled_value. change LINK_MTU_BYTEMASK with (Z.ones 21). rewrite Z.land_ones by lia. unfold wrap at 1.
  rewrite Z.mod_mod_divide by (by exists (2 ^ 11)%Z). pose proof (Z.mod_pos_bound mtu (2 ^ 21) ltac:(lia)) as Hm.
  destruct mode. change (shl 32 (mode_to_bits Aes256Cbc) 21) with (2 ^ 21)%Z. cbn [mode_to_bits]. split; [|lia].
  rewrite Z.mul_1_r. rewrite <- Z.lxor_lor, <- Z.add_nocarry_lxor; [done| |]; apply Z.bits_inj'; intros n Hn; rewrite Z.land_spec, Z.bits_0, Z.pow2_bits_eqb by lia;
    (destruct (Z.eqb_spec 21 n) as [<-|]; [|by rewrite andb_false_r]; rewrite Z.mod_pow2_bits_high by lia; done).
Qed.

Lemma length_signalling mtu mode : length (signalling_bytes_from mtu mode) = SIGNALLING_BYTES_LEN.
Proof. done. Qed.

Lemma signalling_bytes_u8 mtu mode : Forall is_u8 (signalling_bytes_from mtu mode).
Proof. unfold signalling_bytes_from. repeat constructor; apply (in_width_wrap 8); lia. Qed.

(** What is signalled: the low 21 bits of the MTU, and the mode. *)
Lemma signalling_read_back mtu mode : decode_signalling_bytes (signalling_bytes_from mtu mode) = Done (mtu mod 2 ^ 21, mode_to_bits mode)%Z.
Proof.
  unfold decode_signalling_bytes, signalling_bytes_from. destruct (signalled_value_ok mtu mode) as [-> Hv]. cbn [index lookup list_lookup mbind run_bind].
  cbn. rewrite byte_parts by done. f_equal. pose proof (Z.mod_pos_bound mtu (2 ^ 21) ltac:(lia)) as Hm. unfold signalled_value in *. change LINK_MTU_BYTEMASK with (Z.ones 21).
  change 7%Z with (Z.ones 3). rewrite !Z.land_ones, Z.shiftr_div_pow2 by lia. destruct mode. cbn [mode_to_bits] in *. f_equal.
  - rewrite Z.add_mod, (Z.mul_comm (2 ^ 21)), Z.mod_mul, Z.add_0_r, !Z.mod_mod by lia. done.
  - rewrite Z.mul_1_r. replace ((mtu mod 2 ^ 21 + 2 ^ 21) / 2 ^ 21)%Z with 1%Z; [done|]. apply (Z.div_unique _ _ 1 (mtu mod 2 ^ 21)); lia.
Qed.

Lemma mode_read_back mode : mode_from_bits (mode_to_bits mode) = Some mode.
Proof. by destruct mode. Qed.

(** * Chunks *)

Lemma write_chunks_ok pre rest chunks :
  length (concat chunks) ≤ length rest →
  write_chunks (pre ++ rest) (length pre) chunks = Done (Ok (length (pre ++ concat chunks)), pre ++ concat chunks ++ drop (length (concat chunks)) rest).
Proof.
  revert pre rest. induction chunks as [|chunk chunks IH]; intros pre rest Hl; cbn [write_chunks concat] in *; [by rewrite app_nil_r|].
  rewrite length_app in Hl. rewrite (proj2 (Nat.ltb_ge _ _)) by (rewrite length_app; lia). rewrite copy_into_done by (rewrite length_app; lia). cbn [mbind run_bind].
  rewrite take_app_length. replace (drop (length pre + length chunk) (pre ++ rest)) with (drop (length chunk) rest).
  2: { rewrite <- drop_drop. by rewrite drop_app_length. }
  rewrite app_assoc, <- (length_app pre chunk), IH by (rewrite length_drop; lia). by rewrite drop_drop, <- !app_assoc, (length_app chunk).
Qed.

Lemma write_chunks_short pre rest chunks :
  length rest < length (concat chunks) → ∃ buf', write_chunks (pre ++ rest) (length pre) chunks = Done (Err BufferTooShort, buf') ∧ length buf' = length (pre ++ rest).
Proof.
  revert pre rest. induction chunks as [|chunk chunks IH]; intros pre rest Hl; cbn [write_chunks concat length] in *; [lia|].
  rewrite length_app in Hl. destruct (Nat.ltb_spec (length (pre ++ rest)) (length pre + length chunk)) as [|Hge]; [eauto|]. rewrite length_app in Hge.
  rewrite copy_into_done by (rewrite length_app; lia). cbn [mbind run_bind].
  rewrite take_app_length. replace (drop (length pre + length chunk) (pre ++ rest)) with (drop (length chunk) rest).
  2: { rewrite <- drop_drop. by rewrite drop_app_length. }
  rewrite app_assoc, <- (length_app pre chunk). destruct (IH (pre ++ chunk) (drop (length chunk) rest)) as (buf' & -> & Hb); [rewrite length_drop; lia|].
  exists buf'. split; [done|]. rewrite Hb, !length_app, length_drop. lia.
Qed.

(** A header and chunks after it. *)
Lemma packet_written h chunks buf :
  header_wf h →
  let packet := encode_header h ++ concat chunks in
  (length packet ≤ length buf →
   ('(written, buf) ← Wire.write h buf; match written with Err e => Done (Err e, buf) | Ok header_len => write_chunks buf header_len chunks end)
   = Done (Ok (length packet), packet ++ drop (length packet) buf))
  ∧ (length buf < length packet → ∃ buf',
     ('(written, buf) ← Wire.write h buf; match written with Err e => Done (Err e, buf) | Ok header_len => write_chunks buf header_len chunks end)
     = Done (Err BufferTooShort, buf') ∧ length buf' = length buf).
Proof.
  intros Hwf packet. pose proof (length_encode_header h Hwf) as Hh. assert (Hp : length packet = wire_len h + length (concat chunks)) by (unfold packet; rewrite length_app; lia).
  rewrite write_spec by done. case_decide as Hshort; cbn [mbind run_bind]; [split; [lia|eauto]|]. rewrite <- Hh. split; intros Hl.
  - rewrite write_chunks_ok by (rewrite length_drop; lia). unfold packet. by rewrite drop_drop, <- length_app, app_assoc.
  - destruct (write_chunks_short (encode_header h) (drop (length (encode_header h)) buf) chunks) as (buf' & -> & Hb); [rewrite length_drop; lia|].
    exists buf'. split; [done|]. rewrite Hb, length_app, length_drop. lia.
Qed.

(** * Reading *)

Section handshake.
Context `{!Sha256} `{!Sha256Laws} `{!Ed25519}.

(** What follows the keys: nothing, or an MTU and a mode. *)
Inductive signals : list Z → Z → LinkMode → bool → Prop :=
  | SignalsNothing : signals [] (Z.of_nat BROADCAST_MTU) Aes256Cbc false
  | Signals bytes mtu bits mode : length bytes = SIGNALLING_BYTES_LEN → decode_signalling_bytes bytes = Done (mtu, bits) → mode_from_bits bits = Some mode →
      signals bytes mtu mode true.

Lemma signals_written mtu mode : signals (signalling_bytes_from mtu mode) (mtu mod 2 ^ 21)%Z mode true.
Proof. eapply Signals; [done|apply signalling_read_back|apply mode_read_back]. Qed.

Lemma decode_returns (bytes : list Z) : length bytes = SIGNALLING_BYTES_LEN → ∃ mtu bits, decode_signalling_bytes bytes = Done (mtu, bits).
Proof. destruct bytes as [|b0 [|b1 [|b2 [|b3 bytes]]]]; try done. intros _. unfold decode_signalling_bytes. cbn. eauto. Qed.

Lemma request_parts_ok payload keys mtu mode signalled :
  request_parts payload = Done (Ok (keys, mtu, mode, signalled)) ↔
  ∃ tail, payload = keys ++ tail ∧ length keys = LINK_REQUEST_KEYS_LEN ∧ signals tail mtu mode signalled.
Proof.
  unfold request_parts. destruct (Nat.eqb_spec (length payload) LINK_REQUEST_KEYS_LEN) as [E|Hne].
  { split.
    - intros ?. destruct mode. simplify_eq. exists []. rewrite app_nil_r. split; [done|]. split; [done|constructor].
    - intros (tail & -> & Hk & Hs). rewrite length_app in E. destruct Hs as [|bytes mtu bits mode Hb]; [by rewrite app_nil_r|unfold SIGNALLING_BYTES_LEN in Hb; lia]. }
  destruct (Nat.eqb_spec (length payload) SIGNALLED_LINK_REQUEST_LEN) as [E|Hne2].
  2: { split; [done|]. intros (tail & -> & Hk & Hs). rewrite length_app in Hne, Hne2. unfold SIGNALLED_LINK_REQUEST_LEN in *. destruct Hs as [|bytes mtu bits mode Hb]; [cbn [length] in *; lia|rewrite Hb in Hne2; lia]. }
  assert (Hlen : LINK_REQUEST_KEYS_LEN ≤ length payload) by (rewrite E; unfold SIGNALLED_LINK_REQUEST_LEN; lia).
  set (k := take LINK_REQUEST_KEYS_LEN payload). set (tl := drop LINK_REQUEST_KEYS_LEN payload).
  assert (Hp : payload = k ++ tl) by (symmetry; apply take_drop). assert (Hk : length k = LINK_REQUEST_KEYS_LEN) by (unfold k; rewrite length_take; lia).
  assert (Ht : length tl = SIGNALLING_BYTES_LEN) by (unfold tl; rewrite length_drop, E; done). clearbody k tl. subst payload.
  rewrite slice_suffix, slice_prefix by done. cbn [mbind run_bind]. destruct (decode_returns tl Ht) as (m & bits & Ed). rewrite Ed. cbn [mbind run_bind].
  split.
  - destruct (mode_from_bits bits) as [mo|] eqn:Em; [|done]. intros ?. destruct mo, mode. simplify_eq. exists tl. split; [done|]. split; [done|]. by eapply Signals.
  - intros (tail & Hp' & Hk' & Hs). apply app_inj_1 in Hp' as [<- <-]; [|congruence]. inversion Hs; subst; [done|].
    match goal with E1 : decode_signalling_bytes tl = _, E2 : decode_signalling_bytes tl = _, Em : mode_from_bits _ = _ |- _ => rewrite E1 in E2; injection E2 as <- <-; by rewrite Em end.
Qed.

Lemma request_parts_returns payload : ∃ r, request_parts payload = Done r.
Proof.
  unfold request_parts. destruct (_ =? _)%nat; [eauto|]. destruct (Nat.eqb_spec (length payload) SIGNALLED_LINK_REQUEST_LEN) as [E|]; [|eauto].
  rewrite <- (take_drop LINK_REQUEST_KEYS_LEN payload). assert (Hk : length (take LINK_REQUEST_KEYS_LEN payload) = LINK_REQUEST_KEYS_LEN) by (rewrite length_take, E; done).
  rewrite slice_suffix, slice_prefix by done. cbn [mbind run_bind]. destruct (decode_returns (drop LINK_REQUEST_KEYS_LEN payload)) as (m & bits & ->); [by rewrite length_drop, E|].
  cbn [mbind run_bind]. destruct (mode_from_bits bits); eauto.
Qed.

(** A link request is its two keys and what it signals. *)
Lemma link_request_from_ok h payload r :
  link_request_from h payload = Done (Ok r) ↔
  ∃ tail, payload = lq_initiator_encryption r ++ lq_initiator_signing r ++ tail ∧ signals tail (lq_mtu r) (lq_mode r) (lq_signalled r)
    ∧ length (lq_initiator_encryption r) = X25519_KEY_LEN ∧ length (lq_initiator_signing r) = ED25519_KEY_LEN
    ∧ lq_destination r = address h ∧ lq_link_id r = derive_link_id (address h) (lq_initiator_encryption r) (lq_initiator_signing r).
Proof.
  unfold link_request_from. split.
  - destruct (request_parts payload) as [[[[[keys mtu] mode] signalled]|e]| |] eqn:E; cbn [mbind run_bind]; [|done..].
    apply request_parts_ok in E as (tail & -> & Hk & Hs). unfold LINK_REQUEST_KEYS_LEN in Hk.
    destruct (split_block X25519_KEY_LEN keys) as (e & g & -> & He); [lia|]. rewrite length_app in Hk.
    rewrite slice_prefix by done. cbn [mbind run_bind].
    replace LINK_REQUEST_KEYS_LEN with (length (e ++ g)) by (rewrite length_app, Hk; done). rewrite slice_suffix by done.
    cbn [mbind run_bind]. intros [= <-]. cbn. exists tail. rewrite <- app_assoc. split_and!; try done. lia.
  - intros (tail & -> & Hs & He & Hg & Hd & Hi). rewrite app_assoc.
    rewrite (proj2 (request_parts_ok _ (lq_initiator_encryption r ++ lq_initiator_signing r) (lq_mtu r) (lq_mode r) (lq_signalled r))).
    2: { exists tail. split; [done|]. split; [rewrite length_app, He, Hg; done|done]. }
    cbn [mbind run_bind]. rewrite slice_prefix by done. cbn [mbind run_bind].
    replace LINK_REQUEST_KEYS_LEN with (length (lq_initiator_encryption r ++ lq_initiator_signing r)) by (rewrite length_app, He, Hg; done).
    rewrite slice_suffix by done. cbn [mbind run_bind]. rewrite <- Hi, <- Hd. by destruct r.
Qed.

Lemma link_request_returns h payload : ∃ r, link_request_from h payload = Done r.
Proof.
  unfold link_request_from. destruct (request_parts_returns payload) as [[[[[keys mtu] mode] signalled]|e] E]; rewrite E; cbn [mbind run_bind]; [|eauto].
  apply request_parts_ok in E as (tail & -> & Hk & _). unfold LINK_REQUEST_KEYS_LEN in Hk.
  destruct (split_block X25519_KEY_LEN keys) as (e & g & -> & He); [lia|]. rewrite length_app in Hk.
  rewrite slice_prefix by done. cbn [mbind run_bind]. replace LINK_REQUEST_KEYS_LEN with (length (e ++ g)) by (rewrite length_app, Hk; done).
  rewrite slice_suffix by done. cbn [mbind run_bind]. eauto.
Qed.

(** The id of a link is the hash of its request without what is signalled. *)
Lemma link_id_of_unsignalled destination via enc sign :
  is_hash destination → from_option is_hash True via →
  of_wire_packet (encode_header (link_request_header destination via) ++ enc ++ sign)
  = Ok (sha256_chunks [[Z.lor (shl 8 (DestinationType_as_u8 Single) 2) (PacketType_as_u8 LinkRequest)]; destination; [WireContext_to_byte CtxNone]; enc; sign]).
Proof.
  intros Hd Hv. rewrite of_wire_packet_encoded by (split; [by vm_compute|done|done|by vm_compute]).
  unfold of_fields, sha256_chunks. cbn [foldl link_request_header destination_type packet_type address context]. by rewrite (update_app _ enc sign).
Qed.
(** What a request signals, as bytes and as it is read. *)
Definition signalled_bytes (signalling : option (Z * LinkMode)) : list Z :=
  match signalling with None => [] | Some (mtu, mode) => signalling_bytes_from mtu mode end.

Lemma signalled_bytes_ok signalling :
  signals (signalled_bytes signalling)
    (match signalling with None => Z.of_nat BROADCAST_MTU | Some (mtu, _) => mtu mod 2 ^ 21 end)%Z
    (match signalling with None => Aes256Cbc | Some (_, mode) => mode end) (match signalling with None => false | Some _ => true end).
Proof. destruct signalling as [[mtu mode]|]; [apply signals_written|constructor]. Qed.

(** C37. A link request survives the wire, and its link has one id.  What either writer puts into a buffer with room is
    read back with the destination, the keys, the low 21 bits of the MTU and the mode, or the MTU of broadcasts
    without signalling; a shorter buffer is refused.  The id of the link is the proof destination of the request
    without what is signalled, whatever is signalled: a relay may change it and leave the id. *)
Theorem link_request_survives destination via enc sign signalling buf :
  is_hash destination → from_option is_hash True via → length enc = X25519_KEY_LEN → length sign = ED25519_KEY_LEN →
  let bare := encode_header (link_request_header destination via) ++ enc ++ sign in
  let packet := bare ++ signalled_bytes signalling in
  let written := write_link_request_with_signalling destination via enc sign signalling buf in
  (length packet ≤ length buf → written = Done (Ok (length packet), packet ++ drop (length packet) buf))
  ∧ (length buf < length packet → ∃ buf', written = Done (Err BufferTooShort, buf') ∧ length buf' = length buf)
  ∧ ∃ r hash, parse_link_request packet = Done (Ok r)
      ∧ lq_destination r = destination ∧ lq_initiator_encryption r = enc ∧ lq_initiator_signing r = sign
      ∧ lq_mtu r = (match signalling with None => Z.of_nat BROADCAST_MTU | Some (mtu, _) => mtu mod 2 ^ 21 end)%Z
      ∧ lq_mode r = (match signalling with None => Aes256Cbc | Some (_, mode) => mode end)
      ∧ of_wire_packet bare = Ok hash ∧ proof_destination hash = Done (lq_link_id r).
Proof.
  intros Hd Hv He Hg bare packet written. assert (Hwf : header_wf (link_request_header destination via)) by (split; [by vm_compute|done|done|by vm_compute]).
  assert (Hc : concat ([enc; sign] ++ match signalling with None => [] | Some (mtu, mode) => [signalling_bytes_from mtu mode] end) = enc ++ sign ++ signalled_bytes signalling).
  { destruct signalling as [[mtu mode]|]; cbn; by rewrite ?app_nil_r. }
  destruct (packet_written (link_request_header destination via) ([enc; sign] ++ match signalling with None => [] | Some (mtu, mode) => [signalling_bytes_from mtu mode] end)
    buf Hwf) as [Hroom Hshort].
  rewrite Hc in Hroom, Hshort. assert (Ep : packet = encode_header (link_request_header destination via) ++ enc ++ sign ++ signalled_bytes signalling).
  { unfold packet, bare. by rewrite <- !app_assoc. }
  rewrite <- Ep in Hroom, Hshort. split; [exact Hroom|]. split; [exact Hshort|].
  eexists (mkLinkRequest destination _ enc sign _ _ _), _. split_and!; [|done|done|done|done|done|by apply link_id_of_unsignalled|].
  - rewrite Ep. unfold parse_link_request. rewrite parse_encode by done. apply link_request_from_ok. cbn. eexists. split; [done|]. split; [apply signalled_bytes_ok|]. done.
  - cbn [lq_link_id]. unfold proof_destination, derive_link_id. set (digest := sha256_chunks _). rewrite <- (take_drop TRUNCATED_HASH_BYTE_LEN digest) at 1.
    apply slice_prefix. rewrite length_take. unfold digest, sha256_chunks. by rewrite (proj1 (digest_bytes _)).
Qed.

(** * Proofs *)

Definition proof_signed (link_id : LinkId) (enc key signalling : list Z) : list Z := link_id ++ enc ++ key ++ signalling.

Lemma signed_data_ok link_id enc key signalling :
  length link_id = TRUNCATED_HASH_BYTE_LEN → length enc = X25519_KEY_LEN → length key = ED25519_KEY_LEN → length signalling ≤ SIGNALLING_BYTES_LEN →
  ∃ data, (signed_data ← copy_into (replicate LINK_PROOF_SIGNED_DATA_LEN 0%Z) 0 link_id;
     signed_data ← copy_into signed_data TRUNCATED_HASH_BYTE_LEN enc;
     signed_data ← copy_into signed_data (TRUNCATED_HASH_BYTE_LEN + X25519_KEY_LEN) key;
     copy_into signed_data (TRUNCATED_HASH_BYTE_LEN + X25519_KEY_LEN + ED25519_KEY_LEN) signalling) = Done data
    ∧ slice data 0 (TRUNCATED_HASH_BYTE_LEN + X25519_KEY_LEN + ED25519_KEY_LEN + length signalling) = Done (proof_signed link_id enc key signalling)
    ∧ (length signalling = SIGNALLING_BYTES_LEN → data = proof_signed link_id enc key signalling).
Proof.
  intros Hi He Hk Hs. set (n := SIGNALLING_BYTES_LEN - length signalling).
  assert (Ez : replicate LINK_PROOF_SIGNED_DATA_LEN 0%Z = replicate TRUNCATED_HASH_BYTE_LEN 0%Z ++ replicate X25519_KEY_LEN 0%Z ++ replicate ED25519_KEY_LEN 0%Z
    ++ replicate (length signalling) 0%Z ++ replicate n 0%Z).
  { rewrite <- !replicate_add. f_equal. unfold LINK_PROOF_SIGNED_DATA_LEN, n. lia. }
  pose proof (λ xs src post, @copy_at Z 0 [] xs src post eq_refl) as Hfront. cbn [app] in Hfront.
  rewrite Ez, Hfront by (by rewrite length_replicate). cbn [mbind run_bind]. rewrite copy_at by (by rewrite ?length_replicate). cbn [mbind run_bind].
  rewrite (app_assoc link_id), copy_at by (rewrite ?length_replicate, ?length_app; lia). cbn [mbind run_bind].
  rewrite (app_assoc (link_id ++ enc)), copy_at by (rewrite ?length_replicate, ?length_app; lia).
  eexists. split; [done|]. rewrite <- !app_assoc. rewrite (app_assoc key), (app_assoc enc), (app_assoc link_id). fold (proof_signed link_id enc key signalling). split.
  - apply slice_prefix. unfold proof_signed. rewrite !length_app. lia.
  - intros El. unfold n. rewrite El, Nat.sub_diag. by rewrite app_nil_r.
Qed.

Lemma proof_parts_ok payload body signalling mtu mode :
  proof_parts payload = Done (Ok (body, signalling, mtu, mode)) ↔
  payload = body ++ signalling ∧ length body = LINK_PROOF_BODY_LEN ∧ ∃ signalled, signals signalling mtu mode signalled.
Proof.
  unfold proof_parts. destruct (Nat.eqb_spec (length payload) LINK_PROOF_BODY_LEN) as [E|Hne].
  { split.
    - intros ?. destruct mode. simplify_eq. rewrite app_nil_r. split; [done|]. split; [done|]. exists false. constructor.
    - intros (-> & Hk & b & Hs). rewrite length_app in E. destruct Hs as [|bytes mtu bits mode Hb]; [by rewrite app_nil_r|unfold SIGNALLING_BYTES_LEN in Hb; lia]. }
  destruct (Nat.eqb_spec (length payload) SIGNALLED_LINK_PROOF_LEN) as [E|Hne2].
  2: { split; [done|]. intros (-> & Hk & b & Hs). rewrite length_app in Hne, Hne2. unfold SIGNALLED_LINK_PROOF_LEN in *.
    destruct Hs as [|bytes mtu bits mode Hb]; [cbn [length] in *; lia|rewrite Hb in Hne2; lia]. }
  destruct (split_block LINK_PROOF_BODY_LEN payload) as (k & tl & -> & Hk); [rewrite E; unfold SIGNALLED_LINK_PROOF_LEN; lia|].
  assert (Ht : length tl = SIGNALLING_BYTES_LEN) by (rewrite length_app, Hk in E; unfold SIGNALLED_LINK_PROOF_LEN in E; lia).
  rewrite slice_suffix, slice_prefix by done. cbn [mbind run_bind]. destruct (decode_returns tl Ht) as (m & bits & Ed). rewrite Ed. cbn [mbind run_bind].
  split.
  - destruct (mode_from_bits bits) as [mo|] eqn:Em; [|done]. intros ?. destruct mo, mode. simplify_eq. split; [done|]. split; [done|]. exists true. by eapply Signals.
  - intros (Hp' & Hk' & b & Hs). apply app_inj_1 in Hp' as [<- <-]; [|congruence]. inversion Hs; subst; [done|].
    match goal with E1 : decode_signalling_bytes tl = _, E2 : decode_signalling_bytes tl = _, Em : mode_from_bits _ = _ |- _ => rewrite E1 in E2; injection E2 as <- <-; by rewrite Em end.
Qed.

Lemma proof_parts_returns payload : ∃ r, proof_parts payload = Done r.
Proof.
  unfold proof_parts. destruct (_ =? _)%nat; [eauto|]. destruct (Nat.eqb_spec (length payload) SIGNALLED_LINK_PROOF_LEN) as [E|]; [|eauto].
  destruct (split_block LINK_PROOF_BODY_LEN payload) as (k & tl & -> & Hk); [rewrite E; unfold SIGNALLED_LINK_PROOF_LEN; lia|].
  rewrite slice_suffix, slice_prefix by done. cbn [mbind run_bind].
  destruct (decode_returns tl) as (m & bits & ->); [rewrite length_app, Hk in E; unfold SIGNALLED_LINK_PROOF_LEN in E; lia|].
  cbn [mbind run_bind]. destruct (mode_from_bits bits); eauto.
Qed.

Lemma signals_len bytes mtu mode b : signals bytes mtu mode b → length bytes ≤ SIGNALLING_BYTES_LEN.
Proof. destruct 1; cbn [length]; lia. Qed.

Lemma link_proof_parse_ok link_id payload key p :
  length link_id = TRUNCATED_HASH_BYTE_LEN → length key = ED25519_KEY_LEN →
  link_proof_parse link_id payload key = Done (Ok p) →
  ∃ signature enc signalling mtu mode b, payload = signature ++ enc ++ signalling ∧ length signature = SIGNATURE_BYTE_LEN ∧ length enc = X25519_KEY_LEN
    ∧ signals signalling mtu mode b ∧ pp_proof p = mkLinkProof link_id enc mtu mode ∧ pp_signature p = signature
    ∧ slice (pp_signed_data p) 0 (pp_signed_bytes p) = Done (proof_signed link_id enc key signalling).
Proof.
  intros Hi Hk. unfold link_proof_parse. destruct (proof_parts payload) as [[[[[body signalling] mtu] mode]|e]| |] eqn:E; cbn [mbind run_bind]; [|done..].
  apply proof_parts_ok in E as (-> & Hb & b & Hs). destruct (split_block SIGNATURE_BYTE_LEN body) as (signature & enc & -> & Hsig); [rewrite Hb; unfold LINK_PROOF_BODY_LEN; lia|].
  rewrite slice_prefix by done. rewrite <- Hb, slice_suffix by done. cbn [mbind run_bind]. rewrite length_app in Hb. unfold LINK_PROOF_BODY_LEN in Hb.
  destruct (signed_data_ok link_id enc key signalling Hi) as (data & E & Hslice & _); [lia|done|by eapply signals_len|].
  revert E. destruct (copy_into _ 0 link_id) as [d1| |]; cbn [mbind run_bind]; [|done..]. destruct (copy_into d1 _ _) as [d2| |]; cbn [mbind run_bind]; [|done..].
  destruct (copy_into d2 _ _) as [d3| |]; cbn [mbind run_bind]; [|done..]. intros ->. cbn [mbind run_bind]. intros [= <-]. cbn.
  exists signature, enc, signalling, mtu, mode, b. rewrite <- app_assoc. split_and!; try done. lia.
Qed.

Lemma link_proof_parse_back link_id key signature enc signalling mtu mode b :
  length link_id = TRUNCATED_HASH_BYTE_LEN → length key = ED25519_KEY_LEN → length signature = SIGNATURE_BYTE_LEN → length enc = X25519_KEY_LEN →
  signals signalling mtu mode b →
  ∃ p, link_proof_parse link_id (signature ++ enc ++ signalling) key = Done (Ok p) ∧ pp_proof p = mkLinkProof link_id enc mtu mode ∧ pp_signature p = signature
    ∧ slice (pp_signed_data p) 0 (pp_signed_bytes p) = Done (proof_signed link_id enc key signalling).
Proof.
  intros Hi Hk Hsig He Hs. unfold link_proof_parse. rewrite app_assoc. assert (Hb : length (signature ++ enc) = LINK_PROOF_BODY_LEN) by (rewrite length_app, Hsig, He; done).
  rewrite (proj2 (proof_parts_ok _ (signature ++ enc) signalling mtu mode)) by eauto. cbn [mbind run_bind]. rewrite slice_prefix by done.
  rewrite <- Hb, slice_suffix by done. cbn [mbind run_bind].
  destruct (signed_data_ok link_id enc key signalling Hi) as (data & E & Hslice & _); [lia|done|by eapply signals_len|].
  revert E. destruct (copy_into _ 0 link_id) as [d1| |]; cbn [mbind run_bind]; [|done..]. destruct (copy_into d1 _ _) as [d2| |]; cbn [mbind run_bind]; [|done..].
  destruct (copy_into d2 _ _) as [d3| |]; cbn [mbind run_bind]; [|done..]. intros ->. cbn [mbind run_bind]. eexists. split; [done|]. done.
Qed.

(** The proofs that are accepted. *)
Lemma link_proof_from_ok link_id payload key proof :
  length link_id = TRUNCATED_HASH_BYTE_LEN → length key = ED25519_KEY_LEN →
  link_proof_from link_id payload key = Done (Ok proof) ↔
  ∃ signature signalling b, payload = signature ++ lp_responder_encryption proof ++ signalling ∧ length signature = SIGNATURE_BYTE_LEN
    ∧ length (lp_responder_encryption proof) = X25519_KEY_LEN ∧ signals signalling (lp_mtu proof) (lp_mode proof) b ∧ lp_link_id proof = link_id
    ∧ ed25519_verify key (proof_signed link_id (lp_responder_encryption proof) key signalling) signature = true.
Proof.
  intros Hi Hk. unfold link_proof_from. split.
  - destruct (link_proof_parse link_id payload key) as [[p|e]| |] eqn:E; cbn [mbind run_bind]; [|done..].
    destruct (link_proof_parse_ok link_id payload key p Hi Hk E) as (signature & enc & signalling & mtu & mode & b & -> & Hsig & He & Hs & Hp & Hps & ->).
    cbn [mbind run_bind]. rewrite Hps. destruct (ed25519_verify _ _ _) eqn:Ev; [|done]. intros [= <-]. rewrite Hp. cbn. by exists signature, signalling, b.
  - intros (signature & signalling & b & -> & Hsig & He & Hs & Hid & Hv).
    destruct (link_proof_parse_back link_id key signature _ signalling _ _ b Hi Hk Hsig He Hs) as (p & -> & Hp & Hps & E). cbn [mbind run_bind]. rewrite E. cbn [mbind run_bind].
    rewrite Hps, Hv, Hp. destruct proof. cbn in *. by rewrite Hid.
Qed.

(** A link proof is accepted exactly if the responder signed it for this link.  What is read as the proof [proof] is a
    signature, a key and perhaps signalled bytes; the signature is one of the key expected over the id of the link, the
    key, the key expected and the bytes signalled.  And the proof that an identity writes is accepted by whoever
    expects its key, with the key for encryption, the low 21 bits of the MTU and the mode. *)
Theorem link_proofs_are_signed `{!Ed25519Laws} link_id encryption_public secret enc mtu mode buf :
  is_hash link_id → length enc = X25519_KEY_LEN → HEADER_MIN_LEN + SIGNALLED_LINK_PROOF_LEN ≤ length buf →
  let key := signing_key_public secret in
  (∀ payload proof, link_proof_from link_id payload key = Done (Ok proof) ↔
     ∃ signature signalling b, payload = signature ++ lp_responder_encryption proof ++ signalling ∧ length signature = SIGNATURE_BYTE_LEN
       ∧ length (lp_responder_encryption proof) = X25519_KEY_LEN ∧ signals signalling (lp_mtu proof) (lp_mode proof) b ∧ lp_link_id proof = link_id
       ∧ ed25519_verify key (proof_signed link_id (lp_responder_encryption proof) key signalling) signature = true)
  ∧ ∃ packet, write_link_proof link_id enc (in_memory_signer encryption_public secret) mtu mode buf = Done (Ok (length packet), packet ++ drop (length packet) buf)
      ∧ validate_link_proof packet key = Done (Ok (mkLinkProof link_id enc (mtu mod 2 ^ 21) mode)).
Proof.
  intros Hid He Hbuf key. pose proof (ed_public_len secret) as Hk. change (length key = ED25519_KEY_LEN) in Hk. split; [intros payload proof; apply link_proof_from_ok; [apply Hid|done]|].
  unfold write_link_proof, link_proof_signed_data. set (signalling := signalling_bytes_from mtu mode).
  destruct (signed_data_ok link_id enc key signalling (proj1 Hid) He Hk (le_n 3)) as (data & E & _ & Hdata). cbn [sg_signing_public_key in_memory_signer].
  fold key. rewrite E. cbn [mbind run_bind]. rewrite (Hdata eq_refl). set (signature := sg_sign _ _).
  assert (Hsig : length signature = SIGNATURE_BYTE_LEN) by apply ed_signature_len.
  assert (Hwf : header_wf (link_proof_header link_id)) by (split; [by vm_compute|done|done|by vm_compute]).
  unfold write_link_proof_from_parts. fold signalling. destruct (packet_written (link_proof_header link_id) [signature; enc; signalling] buf Hwf) as [Hroom _].
  cbn [concat] in Hroom. rewrite app_nil_r in Hroom. eexists. split.
  - apply Hroom. rewrite !length_app, (length_encode_header _ Hwf), Hsig, He. exact Hbuf.
  - unfold validate_link_proof. rewrite parse_encode by done. cbn [address link_proof_header]. apply link_proof_from_ok; [apply Hid|done|].
    exists signature, signalling, true. split_and!; try done; [apply signals_written|]. unfold ed25519_verify, key.
    destruct (ed_verifies secret (proof_signed link_id enc key signalling)) as (vk & -> & Hv). exact Hv.
Qed.
End handshake.

(** * Witnesses *)

#[local] Existing Instance toy_sha256.
#[local] Existing Instance toy_sha256_laws.
#[local] Existing Instance sum_ed25519.
#[local] Existing Instance sum_ed25519_laws.

(** A request through a relay that signals an MTU of 1196. *)
Lemma link_request_survives_witness :
  ∃ n buf' r, write_link_request (replicate 16 1%Z) (Some (replicate 16 2%Z)) (replicate 32 3%Z) (replicate 32 4%Z) 1196 Aes256Cbc (replicate 200 0%Z) = Done (Ok n, buf')
    ∧ n = 102 ∧ parse_link_request (take n buf') = Done (Ok r) ∧ lq_mtu r = 1196%Z ∧ lq_signalled r = true.
Proof.
  destruct (link_request_survives (replicate 16 1%Z) (Some (replicate 16 2%Z)) (replicate 32 3%Z) (replicate 32 4%Z) (Some (1196%Z, Aes256Cbc)) (replicate 200 0%Z))
    as (Hroom & _ & r & hash & E & _ & _ & _ & Hm & _).
  - split; [done|apply list.Forall_replicate; by vm_compute].
  - split; [done|apply list.Forall_replicate; by vm_compute].
  - done.
  - done.
  - do 2 eexists. exists r. split; [apply Hroom; vm_compute; lia|]. split; [by vm_compute|]. rewrite take_app_length. split; [exact E|]. split; [exact Hm|].
    vm_compute in E. injection E as <-. reflexivity.
Defined.

Definition sample_proof : run (result WireError nat * list Z) :=
  write_link_proof (replicate 16 1%Z) (replicate 32 3%Z) (in_memory_signer (replicate 32 7%Z) (9%Z : @SigningKey sum_ed25519)) 1196 Aes256Cbc (replicate 200 0%Z).

(** Accepted under the key of the responder, and refused under another. *)
Lemma link_proofs_are_signed_witness :
  (∃ packet, sample_proof = Done (Ok (length packet), packet ++ drop (length packet) (replicate 200 0%Z))
    ∧ validate_link_proof packet (replicate 32 9%Z) = Done (Ok (mkLinkProof (replicate 16 1%Z) (replicate 32 3%Z) 1196 Aes256Cbc)))
  ∧ match sample_proof with Done (Ok n, buf') => validate_link_proof (take n buf') (replicate 32 8%Z) | _ => Panic end = Done (Err ProofInvalidSignature).
Proof.
  split; [|vm_compute; reflexivity].
  destruct (link_proofs_are_signed (replicate 16 1%Z) (replicate 32 7%Z) (9%Z : @SigningKey sum_ed25519) (replicate 32 3%Z) 1196 Aes256Cbc (replicate 200 0%Z))
    as (_ & packet & E & Hv).
  - split; [done|apply list.Forall_replicate; by vm_compute].
  - done.
  - vm_compute. lia.
  - exists packet. split; [exact E|exact Hv].
Defined.
