(* ===== verification/LinkRelay.v ===== *)
(** Link requests and their proofs as they arrive: of [prns-core/src/routing/ingress/links.rs], [ingest_link_request] and
    [ingest_link_proof], with the links that are carried for others.

    A request for a destination of ours is handed on to be proved; one in transit leaves a row among the transported
    links ([TransportedLinks]) and goes on, with the MTU that both its interfaces allow.  A proof in transit has to be
    signed by the destination before packets of its link cross. *)

From S2P Require Import Prelude AppData Wire Dedup Columns Evidence Routes Announce Acceptance ChannelTable Interfaces Lifetime Timing DueTable Links RoutingTable PathRequests PathRequestWire Channel ChannelSend Upstream ReverseRoutes TransportedLinks AnnounceWire IngressClassify Relay LinkHandshake.

(** * What links need of routes *)

Class LinkRoutes (S : Type) := {
  lk_stored_announce_for : S → DestinationHash → run (option StoredAnnounce);
  lk_route_evidence_handle_for : S → DestinationHash → run (option RouteEvidenceHandle);
  lk_resolve_route_evidence : S → RouteEvidenceHandle → run (option nat * RouteEvidenceHandle);
  lk_rebalance_hops : S → DestinationHash → Z → run S;
  lk_apply_route_evidence : S → RouteEvidenceHandle → Z → run (bool * RouteEvidenceHandle * S);
}.

Section table_routes.
Context {R A H D I : Type} `{RouteTable R, AnnounceRecordTable A, AnnounceIdHistory H, AnnounceAppData D, RouteExpiryIndex I}.

#[global] Instance warm_link_routes : LinkRoutes (WarmRoutes (R := R) (A := A) (H := H) (D := D) (I := I)) := {|
  lk_stored_announce_for := λ s d, stored_announce_for (wr_table s) d;
  lk_route_evidence_handle_for := λ s d, route_evidence_handle_for (wr_table s) d;
  lk_resolve_route_evidence := λ s h, resolve_route_evidence (wr_table s) h;
  lk_rebalance_hops := λ s d hops,
    t ← rebalance_hops (wr_table s) d hops; Done (mkWarmRoutes (wr_tunnels s) (wr_departed s) t);
  lk_apply_route_evidence := λ s h now,
    '(changed, h, t) ← apply_route_evidence (wr_table s) h now; Done (changed, h, mkWarmRoutes (wr_tunnels s) (wr_departed s) t);
|}.
End table_routes.

(** * Data *)

Record LinkRequestArrival := mkLinkArrival { la_packet_hash : list Z; la_arrival : Arrival; la_interfaces : AttachedInterfaces }.

(** [len] of the [bytes] count. *)
Record ForwardedLinkRequestBody := mkBody { fb_bytes : list Z; fb_len : nat }.
Definition body_as_bytes (body : ForwardedLinkRequestBody) : run (list Z) := slice (fb_bytes body) 0 (fb_len body).

Record AcceptedLinkRequest := mkAccepted {
  ac_request : LinkRequestMessage;
  ac_identity : IdentityHash;
  ac_proof_strategy : ProofStrategy;
  ac_received_hops : Z;
  ac_arrived_at : Z;
}.

Record LinkProofVerifyOwed := mkVerifyOwed {
  vo_link_id : LinkId;
  vo_source_interface : InterfaceId;
  vo_received_hops : Z;
  vo_responder_encryption : list Z;
  vo_responder_signing : list Z;
  vo_initiator_secret : list Z;
  vo_command_id : Z;
  vo_arrived_at : Z;
  vo_rtt : Z;
  vo_mtu : Z;
  vo_signed_data : list Z;
  vo_signed_bytes : nat;
  vo_signature : list Z;
}.

(** Of [IgnoreReason], those of link requests and proofs. *)
Inductive LinkIgnored :=
  | LinkMalformed | LinkRequestsRefused | LinkOtherInstance | LinkUnknownIdentity | LinkDuplicate | LinkNotForUs | LinkNoRoute
  | LinkCapacityExhausted | LinkUnknown | LinkProofInvalid.

Inductive LinkRequestOutcome :=
  | RequestIgnored (reason : LinkIgnored)
  | TransportedLinkRequest (header : WirePacketHeader) (body : ForwardedLinkRequestBody) (fire_on : InterfaceId)
  | OwesLinkProof (accepted : AcceptedLinkRequest).

(** [dirty] are the interfaces marked dirty on the way. *)
Inductive LinkProofOutcome :=
  | LinkProofIgnored (reason : LinkIgnored)
  | LinkProofForward (packet : PacketToForward) (dirty : list InterfaceId)
  | OwesLinkProofVerify (owed : LinkProofVerifyOwed).

Inductive TransportedRouteUpdate := Unchanged | RebalancedTo (hops : Z).
Record AcceptedTransportedLinkProof := mkAcceptedProof {
  ap_switch : TransportSwitch;
  ap_destination : DestinationHash;
  ap_next_hop_interface : InterfaceId;
  ap_received_interface : InterfaceId;
  ap_route_evidence : RouteEvidenceHandle;
  ap_route_update : TransportedRouteUpdate;
}.

#[global] Instance LinkMode_eq_dec : EqDecision LinkMode.
Proof. solve_decision. Defined.

Definition hardware_mtu_of (interfaces : AttachedInterfaces) (id : InterfaceId) : option Z := descriptor_for interfaces id ≫= d_hardware_mtu.

Section link_relay.
Context {S HH U RV LT TT : Type} {HS : RelayRoutes S} {HL : LinkRoutes S} {HHH : PacketHashHistory HH} {HU : UpstreamAppDestinationTable U}
  {HRV : DueTable ReverseRoute RV} {HLT : LinkTable LT} {HTT : TransportedLinkTable TT} `{!Sha256} `{!Ed25519}.
Abbreviation state := (RelayState S HH U RV LT TT).
Implicit Types (s : state) (arrival : LinkRequestArrival).

Definition with_link_routes s (routes : S) : state :=
  mkRelay (rl_transport s) (rl_override s) routes (rl_history s) (rl_upstream s) (rl_reverse s) (rl_links s) (rl_transported s).

(** * Requests *)

(** The keys, and, if an MTU was signalled and the outbound interface has one, the least of the MTUs. *)
Definition forwarded_body (request : LinkRequestMessage) (arrival_hw_mtu outbound_hw_mtu : option Z) : run ForwardedLinkRequestBody :=
  let bytes := replicate SIGNALLED_LINK_REQUEST_LEN 0%Z in
  bytes ← copy_into bytes 0 (lq_initiator_encryption request);
  bytes ← copy_into bytes X25519_KEY_LEN (lq_initiator_signing request);
  match lq_signalled request, outbound_hw_mtu with
  | true, Some outbound_hw =>
      let clamped := Z.min (Z.min (lq_mtu request) outbound_hw) (default usize_max arrival_hw_mtu) in
      bytes ← copy_into bytes LINK_REQUEST_KEYS_LEN (signalling_bytes_from clamped (lq_mode request));
      Done (mkBody bytes SIGNALLED_LINK_REQUEST_LEN)
  | _, _ => Done (mkBody bytes LINK_REQUEST_KEYS_LEN)
  end.

Definition proof_timeout_at (interfaces : AttachedInterfaces) (fire_on : InterfaceId) (arrived_at remaining_hops : Z) : Z :=
  let extra_proof_allowance := match descriptor_for interfaces fire_on with Some d => extra_link_proof_timeout_ms (d_bitrate d) | None => 0%Z end in
  saturating_add 64 (saturating_add 64 arrived_at extra_proof_allowance) (saturating_mul 64 DEFAULT_PER_HOP_TIMEOUT_MS (Z.max remaining_hops 1)).

Definition ingest_transported_link_request s (header : WirePacketHeader) (request : LinkRequestMessage) arrival : run (LinkRequestOutcome * state) :=
  let source := av_source_interface (la_arrival arrival) in
  let received_hops := av_received_hops (la_arrival arrival) in
  let arrived_at := av_arrived_at (la_arrival arrival) in
  let routed_through_us := network_transport_enabled (rl_transport s) && bool_decide (transport_id header = transport_state_id (rl_transport s)) in
  is_local_client_transit ← (if is_local_client source then Done true else routes_via_local_client s (lq_destination request));
  if negb routed_through_us && negb is_local_client_transit then Done (RequestIgnored LinkNotForUs, s) else
  '(duplicate, s) ← remember_packet s (la_packet_hash arrival);
  if (duplicate : bool) then Done (RequestIgnored LinkDuplicate, s) else
  route ← rr_forwarding_route_for (rl_routes s) (lq_destination request);
  match route with
  | None => Done (RequestIgnored LinkNoRoute, s)
  | Some route =>
      evidence ← lk_route_evidence_handle_for (rl_routes s) (lq_destination request);
      match evidence with
      | None => Done (RequestIgnored LinkNoRoute, s)
      | Some route_evidence =>
          let fire_on := fw_receiving_interface route in
          let forwarded_hops := hops_across_local_boundary s received_hops source fire_on in
          match forwarded_header route forwarded_hops header with
          | None => Done (RequestIgnored LinkNoRoute, s)
          | Some forwarded =>
              body ← forwarded_body request (hardware_mtu_of (la_interfaces arrival) source) (hardware_mtu_of (la_interfaces arrival) fire_on);
              '(tracked, transported) ← track_transported (rl_transported s)
                (mkTransported (lq_link_id request) (lq_destination request) route_evidence (lq_mode request)
                   (match fw_next_hop route with Via next => Some next | Direct => None end)
                   fire_on source received_hops (fw_hops route) false arrived_at
                   (proof_timeout_at (la_interfaces arrival) fire_on arrived_at (fw_hops route)));
              let s := with_transported s transported in
              Done (match tracked with
                    | Ok _ => TransportedLinkRequest forwarded body fire_on
                    | Err AlreadyTracked => RequestIgnored LinkDuplicate
                    | Err TransportedTableFull => RequestIgnored LinkCapacityExhausted
                    end, s)
          end
      end
  end.

(** Whether the policy of a destination refuses the request. *)
Definition policy_refuses (policy : LinkRequestPolicy) (header : WirePacketHeader) (source : InterfaceId) : bool :=
  let relayed := negb (Wire.hops header =? 0)%Z || negb (bool_decide (propagation header = Broadcast)) || bool_decide (is_Some (transport_id header)) in
  match policy with
  | AcceptNoLinks => true
  | AcceptAll => false
  | AcceptDirect => relayed
  | AcceptDirectFrom interface => relayed || negb (bool_decide (source = interface))
  end.

(** [holds_identity]: [self.held_identities.get(..).is_some()]. *)
Definition ingest_link_request s (holds_identity : IdentityHash → bool) (header : WirePacketHeader) (payload : list Z) arrival : run (LinkRequestOutcome * state) :=
  if negb (bool_decide (destination_type header = Single)) then Done (RequestIgnored LinkMalformed, s) else
  parsed ← link_request_from header payload;
  match parsed with
  | Err _ => Done (RequestIgnored LinkMalformed, s)
  | Ok request =>
      registered ← lookup_single (rl_upstream s) (lq_destination request);
      match registered with
      | None => ingest_transported_link_request s header request arrival
      | Some registered =>
          if policy_refuses (sp_link_request_policy registered) header (av_source_interface (la_arrival arrival)) then Done (RequestIgnored LinkRequestsRefused, s)
          else if match transport_id header with Some id => negb (bool_decide (transport_state_id (rl_transport s) = Some id)) | None => false end
          then Done (RequestIgnored LinkOtherInstance, s)
          else if negb (holds_identity (sp_identity registered)) then Done (RequestIgnored LinkUnknownIdentity, s)
          else
            '(duplicate, s) ← remember_packet s (la_packet_hash arrival);
            Done (if (duplicate : bool) then RequestIgnored LinkDuplicate
                  else OwesLinkProof (mkAccepted request (sp_identity registered) (sp_proof_strategy registered)
                         (av_received_hops (la_arrival arrival)) (av_arrived_at (la_arrival arrival))), s)
      end
  end.

(** * Proofs *)

Definition accept_transported_link_proof s (link_id : LinkId) (payload : list Z) (arrival : Arrival) :
    run (result LinkIgnored AcceptedTransportedLinkProof * state) :=
  found ← transported_entry_for (rl_transported s) link_id;
  match found with
  | None => Done (Err LinkUnknown, s)
  | Some entry =>
      if negb (length payload =? LINK_PROOF_BODY_LEN)%nat && negb (length payload =? SIGNALLED_LINK_PROOF_LEN)%nat then Done (Err LinkMalformed, s)
      else if tl_validated_by_proof entry || negb (bool_decide (av_source_interface arrival = tl_next_hop_interface entry)) then Done (Err LinkProofInvalid, s)
      else
        stored ← lk_stored_announce_for (rl_routes s) (tl_destination entry);
        match stored with
        | None => Done (Err LinkUnknownIdentity, s)
        | Some stored =>
            let responder_signing := signing (an_public_keys (st_announce stored)) in
            proof ← link_proof_from link_id payload responder_signing;
            match proof with
            | Err _ => Done (Err LinkProofInvalid, s)
            | Ok proof =>
                if negb (bool_decide (lp_mode proof = tl_mode entry)) then Done (Err LinkProofInvalid, s) else
                let exact := (av_received_hops arrival =? tl_remaining_hops entry)%Z in
                '(validated, transported) ←
                  (if exact then validate_by_proof (rl_transported s) link_id (av_source_interface arrival) (av_received_hops arrival) (av_arrived_at arrival)
                   else rebalance_and_validate_by_proof (rl_transported s) link_id (av_source_interface arrival) (av_received_hops arrival) (av_arrived_at arrival));
                let s := with_transported s transported in
                Done (match validated with
                      | Err _ => Err LinkProofInvalid
                      | Ok switch =>
                          Ok (mkAcceptedProof switch (tl_destination entry) (tl_next_hop_interface entry) (tl_received_interface entry) (tl_route_evidence entry)
                            (if exact then Unchanged else RebalancedTo (av_received_hops arrival)))
                      end, s)
            end
        end
  end.

Definition ingest_transported_link_proof s (link_id : LinkId) (payload : list Z) (arrival : Arrival) : run (LinkProofOutcome * state) :=
  '(accepted, s) ← accept_transported_link_proof s link_id payload arrival;
  match accepted with
  | Err reason => Done (LinkProofIgnored reason, s)
  | Ok accepted =>
      let dirty := [ap_next_hop_interface accepted; ap_received_interface accepted] in
      routes ← match ap_route_update accepted with
               | Unchanged => Done (rl_routes s)
               | RebalancedTo hops =>
                   '(row, _) ← lk_resolve_route_evidence (rl_routes s) (ap_route_evidence accepted);
                   match row with Some _ => lk_rebalance_hops (rl_routes s) (ap_destination accepted) hops | None => Done (rl_routes s) end
               end;
      '(_, _, routes) ← lk_apply_route_evidence routes (ap_route_evidence accepted) (av_arrived_at arrival);
      let s := with_link_routes s routes in
      let out := fire_on (ap_switch accepted) in
      Done (LinkProofForward (mkForward
        (mkHeader Open ContextUnset Broadcast Link Proof_
          (hops_across_local_boundary s (av_received_hops arrival) (av_source_interface arrival) out) None link_id CtxLinkRequestProof)
        payload out) dirty, s)
  end.

(** With [IngressCryptoMode::Owed], the mode outside tests. *)
Definition ingest_link_proof s (link_id : LinkId) (payload : list Z) (arrival : Arrival) : run (LinkProofOutcome * state) :=
  phase ← phase_for (rl_links s) link_id;
  match phase with
  | Some (Pending pending) =>
      stored ← lk_stored_announce_for (rl_routes s) (pl_destination pending);
      match stored with
      | None => Done (LinkProofIgnored LinkUnknownIdentity, s)
      | Some stored =>
          let responder_signing := signing (an_public_keys (st_announce stored)) in
          parsed ← link_proof_parse link_id payload responder_signing;
          Done (match parsed with
                | Err _ => LinkProofIgnored LinkProofInvalid
                | Ok parsed =>
                    if negb (bool_decide (lp_mode (pp_proof parsed) = pl_mode pending)) then LinkProofIgnored LinkProofInvalid
                    else OwesLinkProofVerify (mkVerifyOwed link_id (av_source_interface arrival) (av_received_hops arrival)
                      (lp_responder_encryption (pp_proof parsed)) responder_signing (pl_initiator_secret pending) (pl_command_id pending)
                      (av_arrived_at arrival) (measured_between (pl_requested_at pending) (av_arrived_at arrival))
                      (if (lp_mtu (pp_proof parsed) =? 0)%Z then Z.of_nat BROADCAST_MTU else lp_mtu (pp_proof parsed))
                      (pp_signed_data parsed) (pp_signed_bytes parsed) (pp_signature parsed))
                end, s)
      end
  | _ => ingest_transported_link_proof s link_id payload arrival
  end.

End link_relay.
