(* ===== verification/LinkRelayProofs.v ===== *)
(** What relaying links promises ([LinkRelay]): which requests go on and how, that a proof opens a link only if the
    destination signed it, and that packets cross only links that were opened so. *)

From stdpp Require Import gmap.
From S2P Require Import LemireIndex AppData Prelude Wire Dedup Columns KeyedMap Evidence Routes Announce Acceptance ChannelTable Interfaces Lifetime Timing DueTable Links RoutingTable RoutingTableInvariant RoutingTableQueries RoutingTableEvidence LinkEvidence PathRequests PathRequestWire AnnounceSchedule Channel ChannelSend Upstream UpstreamRegistry ReverseRoutes TransportedLinks TransportedLinksProofs AnnounceWire AnnounceWireProofs IngressClassify Relay RelayProofs LinkHandshake LinkHandshakeProofs LinkRelay.

#[local] Existing Instance timeouts.
#[local] Existing Instance timeouts_laws.

(** * What routes promise *)

Abbreviation routes_view := (DestinationHash → option ForwardingRoute).
(** The signing keys of the announces that are stored. *)
Abbreviation keys_view := (DestinationHash → option (list Z)).

Definition rebalanced_view (view : routes_view) (d : DestinationHash) (hops : Z) : routes_view :=
  λ d', if decide (d' = d) then (λ r, mkForwarding hops (fw_receiving_interface r) (fw_next_hop r)) <$> view d else view d'.

Class LinkRoutesLaws (S : Type) `{RelayRoutes S} `{LinkRoutes S} (interfaces : AttachedInterfaces) `{!RelayRoutesLaws S interfaces} := {
  lk_rep : S → routes_view → keys_view → Prop;
  lk_routes_ok : ∀ s view keys, lk_rep s view keys → rr_rep s view;
  lk_announce_ok : ∀ s view keys d, lk_rep s view keys →
    ∃ stored, lk_stored_announce_for s d = Done stored ∧ (λ a, signing (an_public_keys (st_announce a))) <$> stored = keys d;
  lk_evidence_ok : ∀ s view keys d, lk_rep s view keys →
    ∃ handle, lk_route_evidence_handle_for s d = Done handle ∧ (handle = None ↔ view d = None);
  lk_resolve_ok : ∀ s view keys handle, lk_rep s view keys → ∃ row handle', lk_resolve_route_evidence s handle = Done (row, handle');
  lk_rebalance_ok : ∀ s view keys d hops, lk_rep s view keys → ∃ s', lk_rebalance_hops s d hops = Done s' ∧ lk_rep s' (rebalanced_view view d hops) keys;
  lk_apply_ok : ∀ s view keys handle now, lk_rep s view keys →
    ∃ changed handle' s', lk_apply_route_evidence s handle now = Done (changed, handle', s') ∧ lk_rep s' view keys;
}.

(** What the routes are known by: their evidence ids, whether they respond and when they were last active. *)
Abbreviation evidence_view := (DestinationHash → option (RouteEvidenceId * RouteResponsiveness * Z)).
Definition known_id (ev : evidence_view) (id : RouteEvidenceId) : Prop := ∃ d r at_, ev d = Some (id, r, at_).
(** The route [id] was heard from at [now]. *)
Definition heard_view (ev : evidence_view) (id : RouteEvidenceId) (now : Z) : evidence_view :=
  λ d, match ev d with
       | Some (id', r, at_) => if (id' =? id)%Z then Some (id', Responsive, Z.max at_ now) else Some (id', r, at_)
       | None => None
       end.

(** What they promise to one who has a good handle. *)
Class LinkEvidenceLaws (S : Type) `{RelayRoutes S} `{LinkRoutes S} (interfaces : AttachedInterfaces) `{!RelayRoutesLaws S interfaces} `{!LinkRoutesLaws S interfaces} := {
  le_rep : S → routes_view → keys_view → evidence_view → RouteEvidenceHandle → Prop;
  le_routes_ok : ∀ s view keys ev handle, le_rep s view keys ev handle → lk_rep s view keys;
  le_resolve_ok : ∀ s view keys ev handle, le_rep s view keys ev handle →
    ∃ row handle', lk_resolve_route_evidence s handle = Done (row, handle') ∧ (is_Some row ↔ known_id ev (handle_id handle));
  le_rebalance_ok : ∀ s view keys ev handle d hops, le_rep s view keys ev handle →
    ∃ s', lk_rebalance_hops s d hops = Done s' ∧ le_rep s' (rebalanced_view view d hops) keys ev handle;
  le_apply_ok : ∀ s view keys ev handle now, le_rep s view keys ev handle →
    ∃ changed handle' s', lk_apply_route_evidence s handle now = Done (changed, handle', s')
      ∧ le_rep s' view keys (heard_view ev (handle_id handle) now) handle;
}.

Section table_routes.
Context {R A H D I : Type} `{RouteTableLaws R, AnnounceRecordLaws A, AnnounceIdHistoryLaws H, AppDataLaws D, RouteExpiryLaws I}.
Context (interfaces : AttachedInterfaces) (rcap acap per : nat).

Definition key_of (r : StoredRoute) : list Z := signing (an_public_keys (st_announce (announce_of r))).

Definition warm_link_rep (s : WarmRoutes (R := R) (A := A) (H := H) (D := D) (I := I)) (view : routes_view) (keys : keys_view) : Prop :=
  ∃ v, table_ok interfaces (WarmestOf (wr_tunnels s) (wr_departed s)) rcap acap per (wr_table s) v
    ∧ (∀ d, view d = forwarding_of <$> find_key sr_destination d v) ∧ (∀ d, keys d = key_of <$> find_key sr_destination d v).

(** A row rewritten in place keeps the keys of its announce. *)
Lemma rewritten_views (v : list StoredRoute) (i : nat) x e d :
  NoDup (sr_destination <$> v) → v !! i = Some x → let v' := <[i := RoutingTableEvidence.set_entry e x]> v in
  key_of <$> find_key sr_destination d v' = key_of <$> find_key sr_destination d v
  ∧ forwarding_of <$> find_key sr_destination d v'
    = if decide (d = sr_destination x) then Some (mkForwarding (hops e) (receiving_interface e) (next_hop e)) else forwarding_of <$> find_key sr_destination d v.
Proof.
  intros Hnd Hi v'. unfold v'. rewrite (find_key_insert sr_destination d v i x _ Hnd Hi) by done. destruct (decide (d = sr_destination x)) as [->|Hd]; [|done].
  by rewrite (find_key_at sr_destination v i x Hnd Hi).
Qed.

Definition warm_link_laws : @LinkRoutesLaws (WarmRoutes (R := R) (A := A) (H := H) (D := D) (I := I)) _ _ interfaces (warm_routes_laws interfaces rcap acap per).
Proof.
  refine {| lk_rep := warm_link_rep |}.
  - intros s view keys (v & Hok & Hv & _). by exists v.
  - intros s view keys d (v & Hok & _ & Hk). cbn. rewrite Hk. destruct (index_of_ok (wr_table s) v d Hok) as [(i & x & _ & Hi & <-)|[E Hn]].
    + rewrite (stored_announce_ok _ v i x Hok Hi). eexists. split; [done|]. by rewrite (find_key_at sr_destination v i x (ok_destinations Hok) Hi).
    + unfold stored_announce_for. rewrite E. eexists. split; [done|]. by rewrite find_key_none.
  - intros s view keys d (v & Hok & Hv & _). cbn. rewrite Hv. unfold route_evidence_handle_for, at_destination.
    destruct (index_of_ok (wr_table s) v d Hok) as [(i & x & -> & Hi & <-)|[-> Hn]]; cbn [mbind run_bind].
    + destruct (ok_cells _ v i x Hok Hi) as (_ & _ & _ & _ & _ & _ & _ & _ & ->). cbn [mbind run_bind]. eexists. split; [done|].
      by rewrite (find_key_at sr_destination v i x (ok_destinations Hok) Hi).
    + eexists. split; [done|]. by rewrite find_key_none.
  - intros s view keys handle (v & Hok & _). cbn. destruct (resolve_any (wr_table s) v handle Hok) as (o & hd' & -> & _). eauto.
  - intros s view keys d hops (v & Hok & Hv & Hk). cbn. unfold rebalance_hops.
    destruct (index_of_ok (wr_table s) v d Hok) as [(i & x & -> & Hi & <-)|[-> Hn]]; cbn [mbind run_bind].
    + destruct (update_row_ok (wr_table s) v i x (with_hops hops) Hok Hi eq_refl) as (t' & -> & Hok'). cbn [mbind run_bind]. eexists. split; [done|].
      eexists. split; [exact Hok'|]. pose proof (λ d, rewritten_views v i x (with_hops hops (sr_entry x)) d (ok_destinations Hok) Hi) as Hr.
      split; intros d; [|by rewrite (proj1 (Hr d))]. rewrite (proj2 (Hr d)). unfold rebalanced_view. rewrite !Hv. destruct (decide _) as [->|]; [|done].
      by rewrite (find_key_at sr_destination v i x (ok_destinations Hok) Hi).
    + eexists. split; [done|]. exists v. split; [exact Hok|]. split; [|done]. intros d'. unfold rebalanced_view. rewrite !Hv. destruct (decide _) as [->|]; [|done].
      by rewrite find_key_none.
  - intros s view keys handle now (v & Hok & Hv & Hk). cbn.
    destruct (evidence_updates_spec (wr_table s) v handle now Hok) as [(changed & hd' & t' & v' & -> & Hok' & Hc) _]. cbn [mbind run_bind].
    eexists _, _, _. split; [done|]. exists v'. split; [exact Hok'|]. destruct changed; [|by subst v']. destruct Hc as (i & x & Hi & _ & ->).
    pose proof (λ d e, rewritten_views v i x e d (ok_destinations Hok) Hi) as Hr.
    split; intros d; [|by rewrite (proj1 (Hr d _))]. rewrite (proj2 (Hr d _)), Hv. destruct (decide _) as [->|]; [|done].
    by rewrite (find_key_at sr_destination v i x (ok_destinations Hok) Hi).
Defined.

(** The same with the evidence, distinct ids and a good handle. *)
Definition evidence_of_route (r : StoredRoute) : RouteEvidenceId * RouteResponsiveness * Z :=
  (sr_evidence r, responsiveness (sr_entry r), last_route_activity_at (sr_entry r)).
Definition warm_evidence_rep (s : WarmRoutes (R := R) (A := A) (H := H) (D := D) (I := I)) (view : routes_view) (keys : keys_view) (ev : evidence_view)
    (handle : RouteEvidenceHandle) : Prop :=
  ∃ v, table_ok interfaces (WarmestOf (wr_tunnels s) (wr_departed s)) rcap acap per (wr_table s) v
    ∧ (∀ d, view d = forwarding_of <$> find_key sr_destination d v) ∧ (∀ d, keys d = key_of <$> find_key sr_destination d v)
    ∧ (∀ d, ev d = evidence_of_route <$> find_key sr_destination d v) ∧ NoDup (sr_evidence <$> v) ∧ handle_valid v handle.

Lemma find_key_fmap (f : StoredRoute → StoredRoute) d (v : list StoredRoute) :
  (∀ r, sr_destination (f r) = sr_destination r) → find_key sr_destination d (f <$> v) = f <$> find_key sr_destination d v.
Proof.
  intros Hf. unfold find_key. induction v as [|r v IH]; [done|]. cbn. rewrite Hf. case_decide; [done|].
  cbn in IH. destruct (list_find _ (f <$> v)) as [[]|], (list_find _ v) as [[]|]; cbn in *; congruence.
Qed.

Lemma noted_keeps o r : key_of (noted o r) = key_of r ∧ forwarding_of (noted o r) = forwarding_of r.
Proof. destruct o as [[id at_]|]; [|done]. cbn. by case_match. Qed.

Lemma noted_evidence_of id at_ r :
  evidence_of_route (noted (Some (id, at_)) r)
  = (if (sr_evidence r =? id)%Z then (sr_evidence r, Responsive, Z.max (last_route_activity_at (sr_entry r)) at_) else evidence_of_route r).
Proof. cbn. by case_match. Qed.

Definition warm_evidence_laws : @LinkEvidenceLaws (WarmRoutes (R := R) (A := A) (H := H) (D := D) (I := I)) _ _ interfaces (warm_routes_laws interfaces rcap acap per) warm_link_laws.
Proof.
  refine {| le_rep := warm_evidence_rep |}.
  - intros s view keys ev handle (v & Hok & Hv & Hk & _). by exists v.
  - intros s view keys ev handle (v & Hok & _ & _ & He & Hnd & Hh). cbn.
    destruct (resolve_ok (wr_table s) v handle Hok Hh) as [(i & x & hd' & -> & Hi & Hc & _)|[-> Hno]]; eexists _, _; (split; [done|]); split.
    + intros _. exists (sr_destination x). rewrite He, (find_key_at sr_destination v i x (ok_destinations Hok) Hi). cbn. unfold evidence_of_route. rewrite Hc. eauto.
    + eauto.
    + by intros [? [=]].
    + intros (d & r & at_ & Hd). rewrite He in Hd. destruct (find_key sr_destination d v) as [x|] eqn:Ef; [|done]. injection Hd as Hid _ _.
      apply find_key_Some in Ef as (i & Hi & _). by destruct (Hno i x Hi).
  - intros s view keys ev handle d hops (v & Hok & Hv & Hk & He & Hnd & Hh). cbn. unfold rebalance_hops.
    destruct (index_of_ok (wr_table s) v d Hok) as [(i & x & -> & Hi & <-)|[-> Hn]]; cbn [mbind run_bind].
    + destruct (update_row_ok (wr_table s) v i x (with_hops hops) Hok Hi eq_refl) as (t' & -> & Hok'). cbn [mbind run_bind]. eexists. split; [done|].
      pose proof (λ d, rewritten_views v i x (with_hops hops (sr_entry x)) d (ok_destinations Hok) Hi) as Hr.
      set (x' := RoutingTableEvidence.set_entry _ x) in *. assert (Hids : sr_evidence <$> <[i := x']> v = sr_evidence <$> v) by (by eapply fmap_key_insert).
      eexists. split; [exact Hok'|]. split; [|split; [|split; [|split]]].
      * intros d. rewrite (proj2 (Hr d)). unfold rebalanced_view. rewrite !Hv. destruct (decide _) as [->|]; [|done].
        by rewrite (find_key_at sr_destination v i x (ok_destinations Hok) Hi).
      * intros d. by rewrite (proj1 (Hr d)).
      * intros d. rewrite He, (find_key_insert sr_destination d v i x x' (ok_destinations Hok) Hi) by done. destruct (decide _) as [->|]; [|done].
        by rewrite (find_key_at sr_destination v i x (ok_destinations Hok) Hi).
      * by rewrite Hids.
      * by eapply handle_valid_ids.
    + eexists. split; [done|]. exists v. split; [exact Hok|]. split; [|done]. intros d'. unfold rebalanced_view. rewrite !Hv. destruct (decide _) as [->|]; [|done].
      by rewrite find_key_none.
  - intros s view keys ev handle now (v & Hok & Hv & Hk & He & Hnd & Hh). cbn.
    destruct (apply_exact (wr_table s) v handle now Hok Hnd Hh) as (b & hd' & t' & -> & Hok' & _ & _). cbn [mbind run_bind]. eexists _, _, _. split; [done|].
    eexists. split; [exact Hok'|]. split; [|split; [|split; [|split]]].
    + intros d. rewrite Hv, find_key_fmap by apply noted_destination. destruct (find_key sr_destination d v) as [r|]; [|done]. cbn [fmap option_fmap option_map]. f_equal. symmetry. apply noted_keeps.
    + intros d. rewrite Hk, find_key_fmap by apply noted_destination. destruct (find_key sr_destination d v) as [r|]; [|done]. cbn [fmap option_fmap option_map]. f_equal. symmetry. apply noted_keeps.
    + intros d. unfold heard_view. rewrite He, find_key_fmap by apply noted_destination. destruct (find_key sr_destination d v) as [r|]; [|done]. cbn [fmap option_fmap option_map].
      rewrite noted_evidence_of. unfold evidence_of_route. by case_match.
    + rewrite <- list_fmap_compose. by rewrite (list_fmap_ext _ sr_evidence v) by (intros; apply noted_evidence).
    + apply (handle_valid_ids v); [|done]. rewrite <- list_fmap_compose. apply list_fmap_ext. intros. apply noted_evidence.
Defined.
End table_routes.

(** * Proofs in transit *)

Section refinement.
Context {S HH U RV LT TT : Type} {HS : RelayRoutes S} {HL : LinkRoutes S} {HHH : PacketHashHistory HH} {HU : UpstreamAppDestinationTable U}
  {HRV : DueTable ReverseRoute RV} {HLT : LinkTable LT} {HTT : TransportedLinkTable TT} {hcap : Z} {interfaces : AttachedInterfaces}.
Context {HSL : RelayRoutesLaws S interfaces} {HKL : LinkRoutesLaws S interfaces} {HHL : HistoryRefines HH hcap} {HUL : UpstreamTableLaws U}
  {HRVL : DueTableLaws ReverseRoute RV} {HLL : LinkTableLaws LT} {HTL : TransportedTableLaws TT} `{!Sha256} `{!Sha256Laws} `{!Ed25519}.
Abbreviation state := (RelayState S HH U RV LT TT).
Implicit Types (s : state) (v : relay_view) (m : transported_map) (keys : keys_view).

(** The state of [RelayProofs], the keys of the stored announces, and the capacity of the table of transported links. *)
Record link_relays s (rcap tcap : Z) v keys : Prop := {
  ly_relays : relays (hcap := hcap) (interfaces := interfaces) s rcap v;
  ly_routes : lk_rep (rl_routes s) (vw_routes v) keys;
  ly_carried : TransportedLinksProofs.carries (rl_transported s) tcap (vw_carried v);
  ly_keys : ∀ d key, keys d = Some key → length key = ED25519_KEY_LEN;
}.

Definition with_routes v (routes : routes_view) : relay_view := mkRelayView routes (vw_seen v) (vw_apps v) (vw_ways v) (vw_links v) (vw_carried v).

Lemma link_relays_routes s rcap tcap v keys routes' view' :
  link_relays s rcap tcap v keys → lk_rep routes' view' keys → link_relays (with_link_routes s routes') rcap tcap (with_routes v view') keys.
Proof. intros [[] Hr Hc Hk] Hr'. split; [|done..]. split; try done. by eapply lk_routes_ok. Qed.

Lemma link_relays_carried s rcap tcap v keys transported' m' :
  link_relays s rcap tcap v keys → TransportedLinksProofs.carries transported' tcap m' → link_relays (with_transported s transported') rcap tcap (with_carried v m') keys.
Proof. intros [[] Hr Hc Hk] Hc'. split; [|done..]. split; try done. by exists tcap. Qed.

Lemma link_proof_parse_returns (link_id payload key : list Z) :
  length link_id = TRUNCATED_HASH_BYTE_LEN → length key = ED25519_KEY_LEN → ∃ r, link_proof_parse link_id payload key = Done r.
Proof.
  intros Hi Hk. destruct (proof_parts_returns payload) as [[[[[body signalling] mtu] mode]|e] E]; [|unfold link_proof_parse; rewrite E; cbn [mbind run_bind]; eauto].
  apply proof_parts_ok in E as (-> & Hb & b & Hs). destruct (split_block SIGNATURE_BYTE_LEN body) as (signature & enc & -> & Hsig); [rewrite Hb; unfold LINK_PROOF_BODY_LEN; lia|].
  rewrite length_app, Hsig in Hb. unfold LINK_PROOF_BODY_LEN in Hb.
  destruct (link_proof_parse_back link_id key signature enc signalling mtu mode b Hi Hk Hsig) as (p & E & _); [lia|done|]. rewrite app_assoc in E. eauto.
Qed.

Lemma link_proof_from_returns (link_id payload key : list Z) :
  length link_id = TRUNCATED_HASH_BYTE_LEN → length key = ED25519_KEY_LEN → ∃ r, link_proof_from link_id payload key = Done r.
Proof.
  intros Hi Hk. unfold link_proof_from. destruct (link_proof_parse_returns link_id payload key Hi Hk) as [[p|e] E]; rewrite E; cbn [mbind run_bind]; [|eauto].
  destruct (link_proof_parse_ok link_id payload key p Hi Hk E) as (signature & enc & signalling & mtu & mode & b & _ & _ & _ & _ & _ & _ & ->). cbn [mbind run_bind]. eauto.
Qed.

(** The proof [payload] of the link of [e] that arrives is signed with [key]. *)
Definition signed_with (key : list Z) (link_id : LinkId) (e : TransportedLink) (payload : list Z) : Prop :=
  ∃ signature enc signalling mtu b, payload = signature ++ enc ++ signalling ∧ length signature = SIGNATURE_BYTE_LEN ∧ length enc = X25519_KEY_LEN
    ∧ signals signalling mtu (tl_mode e) b ∧ ed25519_verify key (proof_signed link_id enc key signalling) signature = true.

(** What opens a link. *)
Definition opens keys m (link_id : LinkId) (payload : list Z) (arrival : Arrival) (e : TransportedLink) : Prop :=
  m !! link_id = Some e ∧ tl_validated_by_proof e = false ∧ av_source_interface arrival = tl_next_hop_interface e
  ∧ ∃ key, keys (tl_destination e) = Some key ∧ signed_with key link_id e payload.

Lemma signed_with_ok key link_id e payload :
  length link_id = TRUNCATED_HASH_BYTE_LEN → length key = ED25519_KEY_LEN →
  signed_with key link_id e payload ↔ ∃ proof, link_proof_from link_id payload key = Done (Ok proof) ∧ lp_mode proof = tl_mode e.
Proof.
  intros Hi Hk. split.
  - intros (signature & enc & signalling & mtu & b & -> & Hsig & He & Hs & Hv). exists (mkLinkProof link_id enc mtu (tl_mode e)). split; [|done].
    apply link_proof_from_ok; [done|done|]. by exists signature, signalling, b.
  - intros (proof & E & Hm). apply link_proof_from_ok in E as (signature & signalling & b & -> & Hsig & He & Hs & Hid & Hv); [|done|done].
    exists signature, (lp_responder_encryption proof), signalling, (lp_mtu proof), b. rewrite <- Hm. done.
Qed.

Lemma signed_length key link_id e payload : signed_with key link_id e payload → length payload = LINK_PROOF_BODY_LEN ∨ length payload = SIGNALLED_LINK_PROOF_LEN.
Proof.
  intros (signature & enc & signalling & mtu & b & -> & Hsig & He & Hs & _). rewrite !length_app, Hsig, He. destruct Hs as [|bytes mtu bits mode Hb]; [left; done|right].
  by rewrite Hb.
Qed.

Lemma entry_for_ok l cap m id : TransportedLinksProofs.carries l cap m → transported_entry_for l id = Done (m !! id).
Proof.
  intros (rows & Hr & Hnd & -> & _). unfold transported_entry_for, transported_index_of. destruct (tb_entries_ok _ _ _ Hr) as (_ & _ & -> & _).
  destruct (tb_index_of_ok (ts_table l) cap rows id Hr) as [(i & e & -> & Hi & <-)|[-> Hn]]; cbn [mbind run_bind]; f_equal; symmetry.
  - rewrite Hi. apply entries_some; [done|]. by eapply list_elem_of_lookup_2.
  - by apply entries_none.
Qed.

Lemma not_refused exact m id e hops error :
  m !! id = Some e → tl_validated_by_proof e = false → (hops =? tl_remaining_hops e)%Z = exact → ¬ proof_refused exact m id (tl_next_hop_interface e) hops error.
Proof.
  intros Hm Hv Hh Href. destruct Href as [Hn|e' Hm' Hv'|e' Hm' _ Hs|e' Hm' _ _ Hh']; [congruence|congruence|congruence|].
  assert (e' = e) as -> by congruence. rewrite Hh in Hh'. by destruct exact.
Qed.

(** Both validations, on a row that waits for its proof. *)
Lemma validated_ok l cap m id e (hops now : Z) :
  TransportedLinksProofs.carries l cap m → m !! id = Some e → tl_validated_by_proof e = false →
  ∃ l', (if (hops =? tl_remaining_hops e)%Z then validate_by_proof l id (tl_next_hop_interface e) hops now
         else rebalance_and_validate_by_proof l id (tl_next_hop_interface e) hops now) = Done (Ok (mkSwitch (tl_received_interface e)), l')
    ∧ TransportedLinksProofs.carries l' cap (<[id := with_validated hops now e]> m).
Proof.
  intros Hc Hm Hv. destruct (Z.eqb_spec hops (tl_remaining_hops e)) as [->|Hne].
  - destruct (validate_does l cap m id (tl_next_hop_interface e) (tl_remaining_hops e) now Hc) as (a & l' & m' & Ho & Hstep & Hc').
    cbn [transported_do] in Ho. destruct (validate_by_proof _ _ _ _ _) as [[r l1]| |]; cbn [mbind run_bind] in Ho; [|done..]. injection Ho as <- <-. exists l1.
    inversion Hstep as [| | |id' e' now' He' Hv'| |? ? ? ? ? Href| | | | | |]; subst; [split; congruence|]. exfalso. eapply not_refused; [exact Hm|done|apply Z.eqb_refl|done].
  - destruct (rebalance_does l cap m id (tl_next_hop_interface e) hops now Hc) as (a & l' & m' & Ho & Hstep & Hc').
    cbn [transported_do] in Ho. destruct (rebalance_and_validate_by_proof _ _ _ _ _) as [[r l1]| |]; cbn [mbind run_bind] in Ho; [|done..]. injection Ho as <- <-. exists l1.
    inversion Hstep as [| | | |id' e' hops' now' He' Hv' Hh'| |? ? ? ? ? Href| | | | |]; subst; [split; congruence|]. exfalso. eapply not_refused; [exact Hm|done|by apply Z.eqb_neq|done].
Qed.
Lemma accept_ok s rcap tcap v keys (link_id : LinkId) payload arrival :
  link_relays s rcap tcap v keys → length link_id = TRUNCATED_HASH_BYTE_LEN →
  (∃ e l', opens keys (vw_carried v) link_id payload arrival e
     ∧ accept_transported_link_proof s link_id payload arrival
       = Done (Ok (mkAcceptedProof (mkSwitch (tl_received_interface e)) (tl_destination e) (tl_next_hop_interface e) (tl_received_interface e) (tl_route_evidence e)
                (if (av_received_hops arrival =? tl_remaining_hops e)%Z then Unchanged else RebalancedTo (av_received_hops arrival))), with_transported s l')
     ∧ TransportedLinksProofs.carries l' tcap (<[link_id := with_validated (av_received_hops arrival) (av_arrived_at arrival) e]> (vw_carried v)))
  ∨ (∃ reason, accept_transported_link_proof s link_id payload arrival = Done (Err reason, s) ∧ ∀ e, ~ opens keys (vw_carried v) link_id payload arrival e).
Proof.
  intros Hs Hid. unfold accept_transported_link_proof. rewrite (entry_for_ok _ _ _ link_id (ly_carried _ _ _ _ _ Hs)). cbn [mbind run_bind].
  destruct (vw_carried v !! link_id) as [e|] eqn:Hm.
  2: { right. eexists. split; [done|]. intros e (Hm' & _). congruence. }
  assert (Hnot : (∀ key, keys (tl_destination e) = Some key → ~ signed_with key link_id e payload) ∨ tl_validated_by_proof e = true ∨ av_source_interface arrival ≠ tl_next_hop_interface e →
    ∀ e', ~ opens keys (vw_carried v) link_id payload arrival e').
  { intros Hno e' (Hm' & Hv & Hside & key & Hk & Hsig). assert (e' = e) as -> by congruence. destruct Hno as [Hno|[Hno|Hno]]; [by eapply Hno|congruence|done]. }
  destruct (negb _ && negb _) eqn:El.
  { right. eexists. split; [done|]. apply Hnot. left. intros key _ [Hl|Hl]%signed_length; rewrite Hl in El; done. }
  destruct (tl_validated_by_proof e) eqn:Hv; cbn [orb]; [right; eexists; split; [done|]; apply Hnot; by right; left|].
  case_bool_decide as Hside; cbn [negb]; [|right; eexists; split; [done|]; apply Hnot; by right; right].
  destruct (lk_announce_ok _ _ _ (tl_destination e) (ly_routes _ _ _ _ _ Hs)) as (stored & -> & Hkeys). cbn [mbind run_bind].
  destruct stored as [stored|]; cbn in Hkeys.
  2: { right. eexists. split; [done|]. apply Hnot. left. intros key Hk. congruence. }
  set (key := signing (an_public_keys (st_announce stored))) in *. assert (Hkl : length key = ED25519_KEY_LEN) by (by eapply (ly_keys _ _ _ _ _ Hs)).
  pose proof (signed_with_ok key link_id e payload Hid Hkl) as Hsigned. destruct (link_proof_from_returns link_id payload key Hid Hkl) as (r & Er). rewrite Er in *. cbn [mbind run_bind].
  assert (Hbad : ~ signed_with key link_id e payload → ∀ e', ~ opens keys (vw_carried v) link_id payload arrival e').
  { intros Hno. apply Hnot. left. intros key' Hk'. assert (key' = key) as -> by congruence. done. }
  destruct r as [proof|error].
  2: { right. eexists. split; [done|]. apply Hbad. rewrite Hsigned. by intros (? & ? & _). }
  case_bool_decide as Hmode; cbn [negb].
  2: { right. eexists. split; [done|]. apply Hbad. rewrite Hsigned. intros (? & [= <-] & ?). done. }
  destruct (validated_ok _ _ _ _ e (av_received_hops arrival) (av_arrived_at arrival) (ly_carried _ _ _ _ _ Hs) Hm Hv) as (l' & E & Hc'). rewrite Hside, E. cbn [mbind run_bind].
  left. exists e, l'. split; [|done]. split; [done|]. split; [done|]. split; [done|]. exists key. split; [done|]. apply Hsigned. by exists proof.
Qed.

Lemma transported_proof_ok s rcap tcap v keys (link_id : LinkId) payload arrival :
  link_relays s rcap tcap v keys → length link_id = TRUNCATED_HASH_BYTE_LEN →
  (∃ e s' routes', opens keys (vw_carried v) link_id payload arrival e
     ∧ ingest_transported_link_proof s link_id payload arrival
       = Done (LinkProofForward (mkForward (mkHeader Open ContextUnset Broadcast Link Proof_ (hops_on (rl_override s) arrival (tl_received_interface e)) None link_id CtxLinkRequestProof)
                payload (tl_received_interface e)) [tl_next_hop_interface e; tl_received_interface e], s')
     ∧ (routes' = vw_routes v ∨ routes' = rebalanced_view (vw_routes v) (tl_destination e) (av_received_hops arrival))
     ∧ link_relays s' rcap tcap (with_routes (with_carried v (<[link_id := with_validated (av_received_hops arrival) (av_arrived_at arrival) e]> (vw_carried v))) routes') keys)
  ∨ (∃ reason, ingest_transported_link_proof s link_id payload arrival = Done (LinkProofIgnored reason, s)
     ∧ ∀ e, ~ opens keys (vw_carried v) link_id payload arrival e).
Proof.
  intros Hs Hid. unfold ingest_transported_link_proof.
  destruct (accept_ok s rcap tcap v keys link_id payload arrival Hs Hid) as [(e & l' & Hopen & -> & Hc')|(reason & -> & Hno)]; cbn [mbind run_bind]; [left|right; eauto].
  pose proof (link_relays_carried _ _ _ _ _ _ _ Hs Hc') as Hs1.
  assert (Hup : ∃ routes1 view1, match (if (av_received_hops arrival =? tl_remaining_hops e)%Z then Unchanged else RebalancedTo (av_received_hops arrival)) with
               | Unchanged => Done (rl_routes (with_transported s l'))
               | RebalancedTo hops =>
                   '(row, _) ← lk_resolve_route_evidence (rl_routes (with_transported s l')) (tl_route_evidence e);
                   match row with Some _ => lk_rebalance_hops (rl_routes (with_transported s l')) (tl_destination e) hops | None => Done (rl_routes (with_transported s l')) end
               end = Done routes1 ∧ lk_rep routes1 view1 keys ∧ (view1 = vw_routes v ∨ view1 = rebalanced_view (vw_routes v) (tl_destination e) (av_received_hops arrival))).
  { pose proof (ly_routes _ _ _ _ _ Hs1) as Hr. destruct (_ =? _)%Z; [eexists _, _; split; [done|]; split; [exact Hr|by left]|].
    destruct (lk_resolve_ok _ _ _ (tl_route_evidence e) Hr) as (row & h' & ->). cbn [mbind run_bind]. destruct row; [|eexists _, _; split; [done|]; split; [exact Hr|by left]].
    destruct (lk_rebalance_ok _ _ _ (tl_destination e) (av_received_hops arrival) Hr) as (s2 & -> & Hr2). eexists _, _. split; [done|]. split; [exact Hr2|by right]. }
  destruct Hup as (routes1 & view1 & Eup & Hr1 & Hview). cbn [ap_route_update ap_route_evidence ap_destination ap_switch ap_next_hop_interface ap_received_interface]. rewrite Eup. cbn [mbind run_bind].
  destruct (lk_apply_ok _ _ _ (tl_route_evidence e) (av_arrived_at arrival) Hr1) as (changed & h' & routes2 & -> & Hr2). cbn [mbind run_bind].
  exists e. eexists _, view1. split; [done|]. split; [done|]. split; [done|]. exact (link_relays_routes _ _ _ _ _ _ _ Hs1 Hr2).
Qed.
(** * Requests in transit *)

(** What the forwarded request signals: the least of the MTUs if one was signalled and the next interface has one. *)
Definition clamped_mtu (request : LinkRequestMessage) (arrival_hw_mtu outbound_hw_mtu : option Z) : option (Z * LinkMode) :=
  match lq_signalled request, outbound_hw_mtu with
  | true, Some outbound_hw => Some (Z.min (Z.min (lq_mtu request) outbound_hw) (default usize_max arrival_hw_mtu), lq_mode request)
  | _, _ => None
  end.

Lemma forwarded_body_ok request arrival_hw outbound_hw :
  length (lq_initiator_encryption request) = X25519_KEY_LEN → length (lq_initiator_signing request) = ED25519_KEY_LEN →
  ∃ body, forwarded_body request arrival_hw outbound_hw = Done body
    ∧ body_as_bytes body = Done (lq_initiator_encryption request ++ lq_initiator_signing request ++ signalled_bytes (clamped_mtu request arrival_hw outbound_hw)).
Proof.
  intros He Hg. unfold forwarded_body.
  assert (Ez : replicate SIGNALLED_LINK_REQUEST_LEN 0%Z = replicate X25519_KEY_LEN 0%Z ++ replicate ED25519_KEY_LEN 0%Z ++ replicate SIGNALLING_BYTES_LEN 0%Z) by done.
  pose proof (λ xs src post, @copy_at Z 0 [] xs src post eq_refl) as Hfront. cbn [app] in Hfront.
  rewrite Ez, Hfront by (by rewrite length_replicate). cbn [mbind run_bind]. rewrite copy_at by (by rewrite ?length_replicate). cbn [mbind run_bind].
  set (keys := lq_initiator_encryption request ++ lq_initiator_signing request). assert (Hk : length keys = LINK_REQUEST_KEYS_LEN) by (unfold keys; rewrite length_app, He, Hg; done).
  assert (Hbare : body_as_bytes (mkBody (lq_initiator_encryption request ++ lq_initiator_signing request ++ replicate SIGNALLING_BYTES_LEN 0%Z) LINK_REQUEST_KEYS_LEN) = Done keys).
  { unfold body_as_bytes. cbn [fb_bytes fb_len]. rewrite app_assoc. by apply slice_prefix. }
  unfold clamped_mtu. destruct (lq_signalled request), outbound_hw as [out|]; try (eexists; split; [done|]; cbn [signalled_bytes]; rewrite app_nil_r; exact Hbare).
  rewrite app_assoc. fold keys. rewrite <- (app_nil_r (replicate SIGNALLING_BYTES_LEN 0%Z)), copy_at by done. cbn [mbind run_bind]. eexists. split; [done|].
  unfold body_as_bytes. cbn [fb_bytes fb_len signalled_bytes]. rewrite app_nil_r. unfold keys. rewrite <- app_assoc.
  set (bytes := lq_initiator_encryption request ++ _). replace SIGNALLED_LINK_REQUEST_LEN with (length bytes) by (unfold bytes; rewrite !length_app, He, Hg; done). apply slice_all.
Qed.

(** A request that is for us to carry. *)
Definition link_ours_to_carry s v (header : WirePacketHeader) (request : LinkRequestMessage) (arrival : Arrival) : Prop :=
  (network_transport_enabled (rl_transport s) = true ∧ transport_id header = transport_state_id (rl_transport s))
  ∨ is_local_client (av_source_interface arrival) = true
  ∨ ∃ route, vw_routes v (lq_destination request) = Some route ∧ is_local_client (fw_receiving_interface route) = true.

(** The row it leaves. *)
Definition carried_row (request : LinkRequestMessage) (arrival : LinkRequestArrival) (route : ForwardingRoute) (evidence : RouteEvidenceHandle) : TransportedLink :=
  mkTransported (lq_link_id request) (lq_destination request) evidence (lq_mode request) (match fw_next_hop route with Via next => Some next | Direct => None end)
    (fw_receiving_interface route) (av_source_interface (la_arrival arrival)) (av_received_hops (la_arrival arrival)) (fw_hops route) false (av_arrived_at (la_arrival arrival))
    (proof_timeout_at (la_interfaces arrival) (fw_receiving_interface route) (av_arrived_at (la_arrival arrival)) (fw_hops route)).

Record request_goes s v (tcap : Z) header request (arrival : LinkRequestArrival) (route : ForwardingRoute) (h : WirePacketHeader) : Prop := {
  rg_asked : link_ours_to_carry s v header request (la_arrival arrival);
  rg_fresh : known (vw_seen v) (la_packet_hash arrival) = false;
  rg_route : vw_routes v (lq_destination request) = Some route;
  rg_header : goes_on_as route (hops_on (rl_override s) (la_arrival arrival) (fw_receiving_interface route)) header h;
  rg_new : vw_carried v !! lq_link_id request = None;
  rg_room : (Z.of_nat (size (vw_carried v)) < tcap)%Z;
}.

Definition request_done s v (tcap : Z) header request arrival (o : LinkRequestOutcome) v' : Prop :=
  (∃ route h body evidence, request_goes s v tcap header request arrival route h
     ∧ o = TransportedLinkRequest h body (fw_receiving_interface route)
     ∧ body_as_bytes body = Done (lq_initiator_encryption request ++ lq_initiator_signing request
         ++ signalled_bytes (clamped_mtu request (hardware_mtu_of (la_interfaces arrival) (av_source_interface (la_arrival arrival)))
              (hardware_mtu_of (la_interfaces arrival) (fw_receiving_interface route))))
     ∧ vw_carried v' = <[lq_link_id request := carried_row request arrival route evidence]> (vw_carried v))
  ∨ (∃ reason, o = RequestIgnored reason ∧ vw_carried v' = vw_carried v ∧ ∀ route h, ~ request_goes s v tcap header request arrival route h).

Lemma link_relays_seen s s' rcap tcap v keys seen :
  link_relays s rcap tcap v keys → relays (hcap := hcap) (interfaces := interfaces) s' rcap (with_seen v seen) → rl_routes s' = rl_routes s → rl_transported s' = rl_transported s →
  link_relays s' rcap tcap (with_seen v seen) keys.
Proof. intros [_ Hr Hc Hk] Hs' Er Et. split; [done|by rewrite Er|by rewrite Et|done]. Qed.

Lemma link_track_ok l cap m e :
  TransportedLinksProofs.carries l cap m → (Z.of_nat (size m) < u32_max)%Z →
  (∃ l', track_transported l e = Done (Ok (), l') ∧ TransportedLinksProofs.carries l' cap (<[tl_link_id e := e]> m) ∧ m !! tl_link_id e = None ∧ (Z.of_nat (size m) < cap)%Z)
  ∨ (∃ error l', track_transported l e = Done (Err error, l') ∧ TransportedLinksProofs.carries l' cap m ∧ (is_Some (m !! tl_link_id e) ∨ Z.of_nat (size m) = cap)).
Proof.
  intros Hc Hmax. destruct (track_does l cap m e Hc Hmax) as (a & l' & m' & Ho & Hstep & Hc'). cbn [transported_do] in Ho.
  destruct (track_transported l e) as [[r l1]| |]; cbn [mbind run_bind] in Ho; [|done..]. injection Ho as <- <-.
  inversion Hstep; subst; [left; by exists l1|right; eexists _, l1; split; [done|]; by eauto..].
Qed.
Lemma remember_packet_keeps s hash b s' : remember_packet s hash = Done (b, s') → rl_routes s' = rl_routes s ∧ rl_transported s' = rl_transported s.
Proof. unfold remember_packet. destruct (hist_remember _ _) as [[o h]| |]; cbn [mbind run_bind]; [|done..]. by intros [= _ <-]. Qed.

Lemma transported_request_ok s rcap tcap v keys header request arrival :
  link_relays s rcap tcap v keys → is_packet_hash (la_packet_hash arrival) →
  length (lq_initiator_encryption request) = X25519_KEY_LEN → length (lq_initiator_signing request) = ED25519_KEY_LEN →
  (Z.of_nat (size (vw_carried v)) < u32_max)%Z →
  ∃ o s' v', ingest_transported_link_request s header request arrival = Done (o, s') ∧ link_relays s' rcap tcap v' keys
    ∧ rl_transport s' = rl_transport s ∧ rl_override s' = rl_override s ∧ request_done s v tcap header request arrival o v'.
Proof.
  intros Hs Hh He Hg Hmax. unfold ingest_transported_link_request.
  destruct (routes_via_ok s rcap v (lq_destination request) (ly_relays _ _ _ _ _ Hs)) as (b & Hb & Hvia).
  assert (Eclient : (if is_local_client (av_source_interface (la_arrival arrival)) then Done true else routes_via_local_client s (lq_destination request))
    = Done (is_local_client (av_source_interface (la_arrival arrival)) || b)) by (rewrite Hb; by destruct (is_local_client _)).
  rewrite Eclient. cbn [mbind run_bind]. clear Eclient Hb.
  set (asked := network_transport_enabled (rl_transport s) && bool_decide (transport_id header = transport_state_id (rl_transport s))).
  assert (Hasked : negb asked && negb (is_local_client (av_source_interface (la_arrival arrival)) || b) = false ↔ link_ours_to_carry s v header request (la_arrival arrival)).
  { unfold link_ours_to_carry. rewrite <- Hvia. unfold asked. rewrite <- negb_orb, negb_false_iff, !orb_true_iff, andb_true_iff, bool_decide_eq_true. done. }
  destruct (negb asked && _) eqn:Ea.
  { eexists _, s, v. split; [done|]. split; [done|]. split; [done|]. split; [done|]. right. eexists. split; [done|]. split; [done|]. intros route h Hgo. by apply rg_asked, Hasked in Hgo. }
  clear Ea. destruct (remember_packet_ok s rcap v (la_packet_hash arrival) (ly_relays _ _ _ _ _ Hs) Hh) as (s1 & E1 & Hs1 & Et1 & Eo1). rewrite E1. cbn [mbind run_bind].
  destruct (remember_packet_keeps _ _ _ _ E1) as [Er1 El1]. pose proof (link_relays_seen _ _ _ _ _ _ _ Hs Hs1 Er1 El1) as Hl1. set (v1 := with_seen v _) in *.
  assert (Hstop : ∀ reason, (∀ route h, ~ request_goes s v tcap header request arrival route h) →
    ∃ o s' v', Done (RequestIgnored reason, s1) = Done (o, s') ∧ link_relays s' rcap tcap v' keys
      ∧ rl_transport s' = rl_transport s ∧ rl_override s' = rl_override s ∧ request_done s v tcap header request arrival o v').
  { intros reason Hno. eexists _, s1, v1. split; [done|]. split; [done|]. split; [done|]. split; [done|]. right. by eexists. }
  destruct (known (vw_seen v) (la_packet_hash arrival)) eqn:Hk. { apply Hstop. intros route h Hgo. apply rg_fresh in Hgo. congruence. }
  rewrite Er1, (rr_route_ok _ _ (lq_destination request) (lk_routes_ok _ _ _ (ly_routes _ _ _ _ _ Hs))). cbn [mbind run_bind].
  destruct (vw_routes v (lq_destination request)) as [route|] eqn:Hr. 2: { apply Hstop. intros route h Hgo. apply rg_route in Hgo. congruence. }
  destruct (lk_evidence_ok _ _ _ (lq_destination request) (ly_routes _ _ _ _ _ Hs)) as (evidence & -> & Hev). cbn [mbind run_bind].
  destruct evidence as [evidence|]; [|by rewrite (proj1 Hev eq_refl) in Hr]. unfold hops_across_local_boundary. rewrite Eo1.
  fold (hops_on (rl_override s) (la_arrival arrival) (fw_receiving_interface route)).
  pose proof (forwarded_header_ok route (hops_on (rl_override s) (la_arrival arrival) (fw_receiving_interface route)) header) as Hf.
  destruct (forwarded_header _ _ _) as [h|].
  2: { apply Hstop. intros route' h Hgo. pose proof (rg_route _ _ _ _ _ _ _ _ Hgo) as Hr'. pose proof (rg_header _ _ _ _ _ _ _ _ Hgo) as Hh'.
    assert (route' = route) as -> by congruence. by eapply Hf. }
  destruct (forwarded_body_ok request (hardware_mtu_of (la_interfaces arrival) (av_source_interface (la_arrival arrival)))
    (hardware_mtu_of (la_interfaces arrival) (fw_receiving_interface route)) He Hg) as (body & -> & Hbody). cbn [mbind run_bind]. rewrite El1.
  destruct (link_track_ok _ _ _ (carried_row request arrival route evidence) (ly_carried _ _ _ _ _ Hs) Hmax) as [(l' & E & Hc' & Hnew & Hroom)|(error & l' & E & Hc' & Hfull)];
    unfold carried_row in E; rewrite E; cbn [mbind run_bind].
  - eexists _, (with_transported s1 l'), (with_carried v1 _). split; [done|]. split; [exact (link_relays_carried _ _ _ _ _ _ _ Hl1 Hc')|]. split; [done|]. split; [done|].
    left. exists route, h, body, evidence. split; [|done]. split; try done. by apply Hasked.
  - eexists _, (with_transported s1 l'), (with_carried v1 _). split; [done|]. split; [exact (link_relays_carried _ _ _ _ _ _ _ Hl1 Hc')|]. split; [done|]. split; [done|].
    right. exists (match error with AlreadyTracked => LinkDuplicate | TransportedTableFull => LinkCapacityExhausted end). split; [by destruct error|]. split; [done|].
    intros route' h' Hgo. pose proof (rg_new _ _ _ _ _ _ _ _ Hgo) as Hn. pose proof (rg_room _ _ _ _ _ _ _ _ Hgo) as Hro. cbn in Hfull. rewrite Hn in Hfull. destruct Hfull as [[? ?]|?]; [done|lia].
Qed.
(** * One step *)

Lemma phase_returns s rcap v link_id : relays (hcap := hcap) (interfaces := interfaces) s rcap v → ∃ phase, phase_for (rl_links s) link_id = Done phase.
Proof.
  intros Hs. destruct (ry_links s rcap v Hs) as (room & rows & Hr & Hnd & _). unfold phase_for, links_index_of.
  destruct (lt_index_of_ok _ room rows link_id Hr Hnd) as [(i & r & -> & Hi & _)|[-> Hn]]; cbn [mbind run_bind]; [|eauto].
  rewrite (lt_phases_ok _ _ _ Hr). cbn [mbind run_bind]. eauto.
Qed.

(** Proofs of links of our own leave the state; others are in transit. *)
Lemma link_proof_ok s rcap tcap v keys (link_id : LinkId) payload arrival :
  link_relays s rcap tcap v keys → length link_id = TRUNCATED_HASH_BYTE_LEN →
  ingest_link_proof s link_id payload arrival = ingest_transported_link_proof s link_id payload arrival
  ∨ ∃ o, ingest_link_proof s link_id payload arrival = Done (o, s) ∧ ∀ p dirty, o ≠ LinkProofForward p dirty.
Proof.
  intros Hs Hid. unfold ingest_link_proof. destruct (phase_returns s rcap v link_id (ly_relays _ _ _ _ _ Hs)) as (phase & ->). cbn [mbind run_bind].
  destruct phase as [[pending| |]|]; try (by left). right.
  destruct (lk_announce_ok _ _ _ (pl_destination pending) (ly_routes _ _ _ _ _ Hs)) as (stored & -> & Hkeys). cbn [mbind run_bind].
  destruct stored as [stored|]; cbn in Hkeys; [|by eexists]. assert (Hkl : length (signing (an_public_keys (st_announce stored))) = ED25519_KEY_LEN) by (by eapply (ly_keys _ _ _ _ _ Hs)).
  destruct (link_proof_parse_returns link_id payload _ Hid Hkl) as (r & ->). cbn [mbind run_bind]. eexists. split; [done|]. intros p dirty. destruct r; [|done]. by destruct (negb _).
Qed.

(** Requests for destinations of our own leave the carried links. *)
Lemma link_request_ok s rcap tcap v keys holds_identity header payload parsed arrival :
  link_relays s rcap tcap v keys → is_packet_hash (la_packet_hash arrival) → (Z.of_nat (size (vw_carried v)) < u32_max)%Z →
  link_request_from header payload = Done parsed →
  ∃ o s' v', ingest_link_request s holds_identity header payload arrival = Done (o, s') ∧ link_relays s' rcap tcap v' keys
    ∧ rl_transport s' = rl_transport s ∧ rl_override s' = rl_override s
    ∧ ((∃ request, parsed = Ok request ∧ request_done s v tcap header request arrival o v')
       ∨ vw_carried v' = vw_carried v ∧ ∀ h body out, o ≠ TransportedLinkRequest h body out).
Proof.
  intros Hs Hh Hmax E. unfold ingest_link_request.
  assert (Hstay : ∀ o, (∀ h body out, o ≠ TransportedLinkRequest h body out) → ∃ o' s' v', Done (o, s) = Done (o', s') ∧ link_relays s' rcap tcap v' keys
    ∧ rl_transport s' = rl_transport s ∧ rl_override s' = rl_override s
    ∧ ((∃ request, parsed = Ok request ∧ request_done s v tcap header request arrival o' v')
       ∨ vw_carried v' = vw_carried v ∧ ∀ h body out, o' ≠ TransportedLinkRequest h body out)).
  { intros o Ho. eexists _, s, v. split; [done|]. split; [done|]. split; [done|]. split; [done|]. by right. }
  destruct (negb _); [by apply Hstay|]. rewrite E. cbn [mbind run_bind]. destruct parsed as [request|e]; [|by apply Hstay].
  destruct (ry_apps s rcap v (ly_relays _ _ _ _ _ Hs)) as (cap & rows & Hr & Hnd & Em). unfold lookup_single. rewrite (lookup_ok _ cap rows _ Single Hr Hnd). cbn [mbind run_bind].
  match goal with |- context [match ?x with Some registered => if policy_refuses _ _ _ then _ else _ | None => _ end] => destruct x as [registered|] end.
  2: { pose proof (proj1 (link_request_from_ok header payload request) E) as (tail & _ & _ & He & Hg & _).
    destruct (transported_request_ok s rcap tcap v keys header request arrival Hs Hh He Hg Hmax) as (o & s' & v' & -> & Hs' & Et & Eo & Hd).
    exists o, s', v'. split; [done|]. split; [done|]. split; [done|]. split; [done|]. left. by exists request. }
  destruct (policy_refuses _ _ _); [by apply Hstay|]. destruct (match transport_id header with Some _ => _ | None => _ end); [by apply Hstay|].
  destruct (negb _); [by apply Hstay|].
  destruct (remember_packet_ok s rcap v (la_packet_hash arrival) (ly_relays _ _ _ _ _ Hs) Hh) as (s1 & E1 & Hs1 & Et1 & Eo1). rewrite E1. cbn [mbind run_bind].
  destruct (remember_packet_keeps _ _ _ _ E1) as [Er1 El1]. eexists _, s1, _. split; [done|]. split; [exact (link_relays_seen _ _ _ _ _ _ _ Hs Hs1 Er1 El1)|].
  split; [done|]. split; [done|]. right. split; [done|]. intros h body out. by destruct (known _ _).
Qed.
(** * Whatever arrives *)

Inductive link_op :=
  | LinkRequestArrives (holds_identity : IdentityHash → bool) (header : WirePacketHeader) (payload : list Z) (arrival : LinkRequestArrival)
  | LinkProofArrives (link_id : LinkId) (payload : list Z) (arrival : Arrival)
  | LinkPacketArrives (link_id : LinkId) (context : WireContext) (type : PacketType) (arrival : Arrival).
Inductive link_answer := RequestAnswer (o : LinkRequestOutcome) | LinkProofAnswer (o : LinkProofOutcome) | PacketAnswer (o : RelayOutcome).

Definition link_do s (op : link_op) : run (link_answer * state) :=
  match op with
  | LinkRequestArrives holds header payload arrival => '(o, s) ← ingest_link_request s holds header payload arrival; Done (RequestAnswer o, s)
  | LinkProofArrives link_id payload arrival => '(o, s) ← ingest_link_proof s link_id payload arrival; Done (LinkProofAnswer o, s)
  | LinkPacketArrives link_id context type arrival => '(o, s) ← relay_if_transported s link_id context type arrival; Done (PacketAnswer o, s)
  end.
Fixpoint link_run s (ops : list link_op) : run (list link_answer * state) :=
  match ops with
  | [] => Done ([], s)
  | op :: ops => '(a, s) ← link_do s op; '(answers, s) ← link_run s ops; Done (a :: answers, s)
  end.

(** Hashes and addresses have their lengths. *)
Definition link_op_ok (op : link_op) : Prop :=
  match op with
  | LinkRequestArrives _ _ _ arrival => is_packet_hash (la_packet_hash arrival)
  | LinkProofArrives link_id _ _ => length link_id = TRUNCATED_HASH_BYTE_LEN
  | LinkPacketArrives _ _ _ _ => True
  end.

(** The row [e] under [id] comes from a request among [ops]: the id is derived from the destination and the keys of the
    initiator. *)
Definition requested (ops : list link_op) (id : LinkId) (e : TransportedLink) : Prop :=
  ∃ holds header payload arrival r, LinkRequestArrives holds header payload arrival ∈ ops ∧ link_request_from header payload = Done (Ok r)
    ∧ lq_link_id r = id ∧ lq_destination r = tl_destination e ∧ lq_mode r = tl_mode e.

(** It was opened: after the request, a proof came that the destination had signed. *)
Definition opened keys (ops : list link_op) (id : LinkId) (e : TransportedLink) : Prop :=
  ∃ before payload arrival after key, ops = before ++ LinkProofArrives id payload arrival :: after ∧ requested before id e
    ∧ keys (tl_destination e) = Some key ∧ signed_with key id e payload.

Definition explained keys (ops : list link_op) m : Prop :=
  ∀ id e, m !! id = Some e → requested ops id e ∧ (tl_validated_by_proof e = true → opened keys ops id e).

Lemma requested_more ops more id e : requested ops id e → requested (ops ++ more) id e.
Proof. intros (holds & header & payload & arrival & r & Hin & Hr). exists holds, header, payload, arrival, r. split; [|done]. apply elem_of_app. by left. Qed.
Lemma opened_more keys ops more id e : opened keys ops id e → opened keys (ops ++ more) id e.
Proof. intros (before & payload & arrival & after & key & -> & Hr). exists before, payload, arrival, (after ++ more), key. split; [by rewrite <- app_assoc|done]. Qed.
Lemma explained_more keys ops more m : explained keys ops m → explained keys (ops ++ more) m.
Proof. intros He id e Hm. destruct (He id e Hm) as [Hr Ho]. split; [by apply requested_more|]. intros Hv. apply opened_more. auto. Qed.

(** The packet is one of an open link. *)
Definition crosses_open m (op : link_op) : Prop :=
  match op with LinkPacketArrives id _ _ _ => ∃ e, m !! id = Some e ∧ tl_validated_by_proof e = true | _ => False end.

Lemma relay_if_carried s rcap tcap v keys (id : LinkId) context type arrival :
  link_relays s rcap tcap v keys →
  ∃ o s' m', relay_if_transported s id context type arrival = Done (o, s') ∧ link_relays s' rcap tcap (with_carried v m') keys
    ∧ (m' = vw_carried v ∨ ∃ e, vw_carried v !! id = Some e ∧ m' = <[id := with_last_active (av_arrived_at arrival) e]> (vw_carried v))
    ∧ (o ≠ NotTransportedByUs → ∃ e, vw_carried v !! id = Some e ∧ tl_validated_by_proof e = true).
Proof.
  intros Hs. unfold relay_if_transported. rewrite (has_local_ok s rcap v id (ly_relays _ _ _ _ _ Hs)). cbn [mbind run_bind].
  assert (Hself : link_relays s rcap tcap (with_carried v (vw_carried v)) keys) by (by destruct v).
  destruct (_ || _); [exists NotTransportedByUs, s, (vw_carried v); split_and!; try done; by left|].
  destruct (switch_does (rl_transported s) tcap (vw_carried v) id (av_source_interface arrival) (av_received_hops arrival) (av_arrived_at arrival) (ly_carried _ _ _ _ _ Hs))
    as (a & l' & m' & Ho & Hstep & Hc').
  cbn [transported_do] in Ho. destruct (switch_through _ _ _ _ _) as [[r l1]| |]; cbn [mbind run_bind] in *; [|done..]. injection Ho as <- <-.
  eexists _, _, m'. split; [done|]. split; [exact (link_relays_carried _ _ _ _ _ _ _ Hs Hc')|]. inversion Hstep; subst; split; try done; eauto.
Qed.

Lemma insert_explained keys ops m id e :
  explained keys ops m → requested ops id e → (tl_validated_by_proof e = true → opened keys ops id e) → explained keys ops (<[id := e]> m).
Proof. intros Hex Hr Ho id' e' Hm. destruct (decide (id' = id)) as [->|Hne]; [rewrite lookup_insert_eq in Hm; injection Hm as <-; done|]. rewrite lookup_insert_ne in Hm by done. by apply Hex. Qed.

Lemma link_step s rcap tcap v keys ops op :
  link_relays s rcap tcap v keys → explained keys ops (vw_carried v) → link_op_ok op → (Z.of_nat (size (vw_carried v)) < u32_max)%Z →
  ∃ a s' v', link_do s op = Done (a, s') ∧ link_relays s' rcap tcap v' keys ∧ explained keys (ops ++ [op]) (vw_carried v') ∧ size (vw_carried v') ≤ size (vw_carried v) + 1
    ∧ (∀ h out, a = PacketAnswer (RelayForward h out) → crosses_open (vw_carried v) op).
Proof.
  intros Hs Hex Hop Hmax. pose proof (explained_more keys ops [op] _ Hex) as Hex'.
  assert (Hsize : ∀ id (e : TransportedLink), size (<[id := e]> (vw_carried v)) ≤ size (vw_carried v) + 1).
  { intros id e. pose proof (map_size_insert id e (vw_carried v)) as Hi. destruct (vw_carried v !! id); cbn in Hi; lia. }
  destruct op as [holds header payload arrival|link_id payload arrival|link_id context type arrival]; cbn [link_do link_op_ok] in *.
  - destruct (link_request_returns header payload) as (parsed & Ep).
    destruct (link_request_ok s rcap tcap v keys holds header payload parsed arrival Hs Hop Hmax Ep) as (o & s' & v' & -> & Hs' & _ & _ & Hcase). cbn [mbind run_bind].
    eexists _, s', v'. split; [done|]. split; [done|]. enough (explained keys (ops ++ [LinkRequestArrives holds header payload arrival]) (vw_carried v')
      ∧ size (vw_carried v') ≤ size (vw_carried v) + 1) as [? ?] by (split_and!; done).
    destruct Hcase as [(request & -> & [(route & h & body & evidence & _ & _ & _ & ->)|(reason & _ & -> & _)])|[-> _]]; [|split; [done|lia]..]. split; [|apply Hsize].
    apply insert_explained; [done| |done]. exists holds, header, payload, arrival, request. split; [apply elem_of_app; right; by apply list_elem_of_singleton|done].
  - destruct (link_proof_ok s rcap tcap v keys link_id payload arrival Hs Hop) as [->|(o & -> & _)]; cbn [mbind run_bind].
    2: { eexists _, s, v. split; [done|]. split_and!; [done|done|lia|done]. }
    destruct (transported_proof_ok s rcap tcap v keys link_id payload arrival Hs Hop) as [(e & s' & routes' & (Hm & Hv & Hside & key & Hk & Hsig) & -> & _ & Hs')|(reason & -> & _)];
      cbn [mbind run_bind].
    2: { eexists _, s, v. split; [done|]. split_and!; [done|done|lia|done]. }
    eexists _, s', _. split; [done|]. split; [exact Hs'|]. cbn [vw_carried with_routes with_carried]. split; [|split; [apply Hsize|done]].
    destruct (Hex link_id e Hm) as [Hr _]. apply insert_explained; [done|by apply requested_more|]. intros _. by exists ops, payload, arrival, [], key.
  - destruct (relay_if_carried s rcap tcap v keys link_id context type arrival Hs) as (o & s' & m' & -> & Hs' & Hm' & Hopen). cbn [mbind run_bind].
    eexists _, s', _. split; [done|]. split; [exact Hs'|]. cbn [vw_carried with_carried]. split; [|split].
    + destruct Hm' as [->|(e & Hm & ->)]; [done|]. destruct (Hex' link_id e Hm) as [Hr Ho]. apply insert_explained; [done|exact Hr|exact Ho].
    + destruct Hm' as [->|(e & Hm & ->)]; [lia|apply Hsize].
    + intros h out [= ->]. by apply Hopen.
Qed.

Lemma link_steps s rcap tcap v keys before ops :
  link_relays s rcap tcap v keys → explained keys before (vw_carried v) → Forall link_op_ok ops → (Z.of_nat (size (vw_carried v) + length ops) < u32_max)%Z →
  ∃ answers s' v', link_run s ops = Done (answers, s') ∧ link_relays s' rcap tcap v' keys ∧ explained keys (before ++ ops) (vw_carried v')
    ∧ (Z.of_nat (size (vw_carried v')) < u32_max)%Z.
Proof.
  revert s v before. induction ops as [|op ops IH]; intros s v before Hs Hex Hok Hmax; cbn [link_run length] in *.
  { exists [], s, v. rewrite app_nil_r. split_and!; [done..|lia]. }
  apply list.Forall_cons in Hok as [Hop Hok]. destruct (link_step s rcap tcap v keys before op Hs Hex Hop) as (a & s1 & v1 & -> & Hs1 & Hex1 & Hsize & _); [lia|].
  cbn [mbind run_bind]. destruct (IH s1 v1 (before ++ [op]) Hs1 Hex1 Hok) as (answers & s' & v' & -> & Hs' & Hex' & Hmax'); [lia|]. cbn [mbind run_bind].
  eexists _, s', v'. split; [done|]. split; [done|]. rewrite <- app_assoc in Hex'. done.
Qed.

(** C22. Packets cross only links that the destination opened.  Whatever requests, proofs and packets of links arrive at a
    node that carries no links, in whatever order, every handler returns; and a packet of a link is sent on only if
    before it came a request from which the id of the link is derived, for some destination, and after that a proof
    for the id, signed with the key that the destination announced. *)
Theorem only_opened_links_are_switched s rcap tcap v keys (ops : list link_op) (link_id : LinkId) context type arrival :
  link_relays s rcap tcap v keys → vw_carried v = ∅ → Forall link_op_ok ops → (Z.of_nat (length ops) < u32_max)%Z →
  ∃ answers s' o s'', link_run s ops = Done (answers, s') ∧ relay_if_transported s' link_id context type arrival = Done (o, s'')
    ∧ (∀ h out, o = RelayForward h out → ∃ e, opened keys ops link_id e).
Proof.
  intros Hs Hempty Hok Hmax. destruct (link_steps s rcap tcap v keys [] ops Hs) as (answers & s' & v' & E & Hs' & Hex & Hmax').
  - rewrite Hempty. intros id e Hm. by rewrite lookup_empty in Hm.
  - done.
  - rewrite Hempty, map_size_empty. lia.
  - destruct (link_step s' rcap tcap v' keys ops (LinkPacketArrives link_id context type arrival) Hs' Hex I Hmax') as (a & s'' & v'' & E2 & _ & _ & _ & Hopen).
    cbn [link_do] in E2. destruct (relay_if_transported s' link_id context type arrival) as [[o s2]| |] eqn:Er; cbn [mbind run_bind] in E2; [|done..]. injection E2 as <- <-.
    exists answers, s', o, s2. split; [done|]. split; [done|]. intros h out ->. destruct (Hopen h out eq_refl) as (e & Hm & Hv). exists e. by apply Hex.
Qed.

Context {HEL : LinkEvidenceLaws S interfaces}.

(** What an accepted proof that made [hops] hops does to the routes: those of the destination are put right if they were
    not the ones expected and the route is still the one the request took. *)
Definition routes_after (view : routes_view) (ev : evidence_view) (e : TransportedLink) (hops : Z) (view' : routes_view) : Prop :=
  (hops = tl_remaining_hops e → view' = view)
  ∧ (hops ≠ tl_remaining_hops e → known_id ev (handle_id (tl_route_evidence e)) → view' = rebalanced_view view (tl_destination e) hops)
  ∧ (hops ≠ tl_remaining_hops e → ¬ known_id ev (handle_id (tl_route_evidence e)) → view' = view).

Lemma route_update_ok routes view keys ev e hops :
  le_rep routes view keys ev (tl_route_evidence e) →
  ∃ routes' view', match (if (hops =? tl_remaining_hops e)%Z then Unchanged else RebalancedTo hops) with
      | Unchanged => Done routes
      | RebalancedTo hops =>
          '(row, _) ← lk_resolve_route_evidence routes (tl_route_evidence e);
          match row with Some _ => lk_rebalance_hops routes (tl_destination e) hops | None => Done routes end
      end = Done routes' ∧ le_rep routes' view' keys ev (tl_route_evidence e) ∧ routes_after view ev e hops view'.
Proof.
  intros Hr. destruct (Z.eqb_spec hops (tl_remaining_hops e)) as [Eh|Hne].
  { eexists _, _. split; [done|]. split; [exact Hr|]. by split; [|split]. }
  destruct (le_resolve_ok _ _ _ _ _ Hr) as (row & h' & -> & Hrow). cbn [mbind run_bind]. destruct row as [row|].
  - destruct (le_rebalance_ok _ _ _ _ _ (tl_destination e) hops Hr) as (routes' & -> & Hr'). eexists _, _. split; [done|]. split; [exact Hr'|].
    split; [done|]. split; [done|]. intros _ Hno. destruct Hno. apply Hrow. eauto.
  - eexists _, _. split; [done|]. split; [exact Hr|]. split; [done|]. split; [|done]. intros _ Hk%Hrow. by destruct Hk.
Qed.


(** C24. A link request in transit goes on exactly if it is for us to carry, and as the same link.  It does if the header
    names us or a client of this machine is at one of its ends, it was not seen before, there is a route, its link is
    not carried yet and there is room; then the link is remembered, waiting for its proof on the interface of the
    route.  What goes on reads as a request for the same destination, with the same keys and the same link.  If the request
    signalled an MTU and the outbound interface has one of its own, it signals the low 21 bits of the least of the MTUs
    of the request and of the interfaces; otherwise it signals none and reads as one of the broadcast MTU. *)
Theorem link_request_goes_on s rcap tcap v keys header request arrival payload :
  link_relays s rcap tcap v keys → is_packet_hash (la_packet_hash arrival) → (Z.of_nat (size (vw_carried v)) < u32_max)%Z →
  link_request_from header payload = Done (Ok request) →
  ∃ o s' v', ingest_transported_link_request s header request arrival = Done (o, s') ∧ link_relays s' rcap tcap v' keys
    ∧ request_done s v tcap header request arrival o v'
    ∧ (∀ h body out, o = TransportedLinkRequest h body out →
       ∃ bytes again, body_as_bytes body = Done bytes ∧ link_request_from h bytes = Done (Ok again)
         ∧ lq_link_id again = lq_link_id request ∧ lq_destination again = lq_destination request
         ∧ lq_initiator_encryption again = lq_initiator_encryption request ∧ lq_initiator_signing again = lq_initiator_signing request
         ∧ lq_mtu again = (match clamped_mtu request (hardware_mtu_of (la_interfaces arrival) (av_source_interface (la_arrival arrival)))
                             (hardware_mtu_of (la_interfaces arrival) out) with None => Z.of_nat BROADCAST_MTU | Some (mtu, _) => mtu mod 2 ^ 21 end)%Z).
Proof.
  intros Hs Hh Hmax E. pose proof (proj1 (link_request_from_ok header payload request) E) as (tail & _ & _ & He & Hg & Hd & Hi).
  destruct (transported_request_ok s rcap tcap v keys header request arrival Hs Hh He Hg Hmax) as (o & s' & v' & E' & Hs' & _ & _ & Hdone).
  exists o, s', v'. split; [done|]. split; [done|]. split; [done|]. intros h body out ->.
  destruct Hdone as [(route & h' & body' & evidence & Hgo & [= -> -> ->] & Hbody & _)|(reason & ? & _)]; [|done].
  assert (Ha : address h' = address header) by (by destruct (rg_header _ _ _ _ _ _ _ _ Hgo)).
  eexists _, (mkLinkRequest (lq_destination request) (lq_link_id request) (lq_initiator_encryption request) (lq_initiator_signing request) _ _ _). split; [exact Hbody|].
  split; [|done]. apply link_request_from_ok. cbn. eexists. split; [done|]. split; [apply signalled_bytes_ok|]. rewrite Ha, <- Hd. rewrite <- Hd in Hi. done.
Qed.
End refinement.
