(* ===== verification/RelaySample.v ===== *)
(** The theorems on relaying on a concrete node: the sample routing table of one route, room for the hashes of two
    packets and for three ways back, and empty stores for the rest; a packet through it and its proof, a link request,
    the signed proof back, and a packet of the link. *)

From stdpp Require Import gmap.
From S2P Require Import LemireIndex AppData Prelude Wire Dedup Columns KeyedMap Evidence Routes RoutesIndexed Announce Acceptance ChannelTable Interfaces Lifetime DueTable Links LinksInvariant LinksHeap RoutingTable RoutingTableInvariant RoutingTableQueries RoutingTableSample PathRequests PathRequestWire AnnounceSchedule Upstream UpstreamRegistry ReverseRoutes TransportedLinks TransportedLinksProofs AnnounceWire AnnounceWireProofs IngressClassify Relay RelayProofs LinkHandshake LinkHandshakeProofs LinkRelay LinkRelayProofs.

#[local] Existing Instance timeouts.
#[local] Existing Instance timeouts_laws.
#[local] Existing Instance toy_sha256.
#[local] Existing Instance toy_sha256_laws.

Definition our_id : TransportId := replicate 16 9%Z.
Definition iface_c : InterfaceId := replicate 8 2%Z.

#[local] Abbreviation two_hashes := (Dedup.Fixed.fixed_history (GENERATION_CAPACITY := 2)).
#[local] Abbreviation three_ways := (fixed_due (V := ReverseRoute) (MAX := 3)).
#[local] Abbreviation two_hashes_laws := (Dedup.Fixed.fixed_refines (GENERATION_CAPACITY := 2) (le_S 1 1 (le_n 1))).
#[local] Abbreviation three_ways_laws := (fixed_due_laws (V := ReverseRoute) (MAX := 3)).
#[local] Abbreviation sample_routes_laws := (warm_routes_laws attached 2 2 2).

Definition sample_node :=
  mkRelay (Identified our_id NetworkEnabled) OverrideDisabled (mkWarmRoutes no_warmth no_warmth table_1) (Dedup.Fixed.default (GENERATION_CAPACITY := 2))
    heap_upstream_default (fixed_due_default (MAX := 3) no_reverse) (mkLinks heap_links_default None) (mkTransportedLinks heap_transported_default None).
Definition sample_node_view : relay_view :=
  mkRelayView (λ d, forwarding_of <$> find_key sr_destination d routes_1) (mkGenerations [] []) ∅ [] [] ∅.

#[local] Abbreviation node_ok := (relays (HSL := sample_routes_laws) (HHL := two_hashes_laws) (HRVL := three_ways_laws) (HLL := heap_links_laws)).

Lemma sample_node_ok : node_ok sample_node 3 sample_node_view.
Proof.
  split.
  - exists routes_1. split; [exact table_1_ok|done].
  - exact Dedup.Fixed.fixed_default_rep.
  - exists usize_max, []. split; [exact heap_upstream_default_rep|]. split; [constructor|reflexivity].
  - exact (fixed_due_default_rep (MAX := 3) no_reverse).
  - exists unbounded, []. split; [exact (lo_table _ _ _ heap_links_default_ok)|]. split; [constructor|done].
  - exists usize_max, []. split; [exact heap_transported_default_rep|]. split; [constructor|done].
Qed.

(** Data for [dest_1] that names this node, over [iface_c]. *)
Definition sample_packet (b : Z) : DataPacket :=
  mkData (mkHeader Open ContextUnset Transport Single Data 3 (Some our_id) dest_1 CtxNone) [b; 2; 3]%Z.
Definition sample_arrival : Arrival := mkArrived 4 iface_c 5000.

(** It goes on to the next relay over [iface_a]; the same packet again is dropped. *)
Lemma only_transit_is_relayed_witness :
  ∃ o s', ingest_data (HHH := two_hashes) (HRV := three_ways) sample_node Deferred (sample_packet 1) sample_arrival attached = Done (o, s')
    ∧ single_done (HSL := sample_routes_laws) (HHL := two_hashes_laws) (HRVL := three_ways_laws) (HLL := heap_links_laws)
        sample_node 3 sample_node_view (data_packet_hash (sample_packet 1)) (sample_packet 1) sample_arrival o s'
    ∧ o = DataForward (mkForward (mkHeader Open ContextUnset Transport Single Data 4 (Some transport_1) dest_1 CtxNone) [1; 2; 3]%Z iface_a)
    ∧ (∃ s'', ingest_data (HHH := two_hashes) (HRV := three_ways) s' Deferred (sample_packet 1) sample_arrival attached = Done (DataIgnored DuplicatePacket, s'')).
Proof.
  destruct (only_transit_is_relayed (HSL := sample_routes_laws) (HHL := two_hashes_laws) (HRVL := three_ways_laws) (HLL := heap_links_laws)
    sample_node 3 sample_node_view Deferred (sample_packet 1) sample_arrival) as (o & s' & E & Hdone).
  - exact sample_node_ok.
  - done.
  - done.
  - exact (digest_bytes _).
  - by vm_compute.
  - by vm_compute.
  - exists o, s'. split; [exact E|]. split; [exact Hdone|]. vm_compute in E. injection E as <- <-. split; [reflexivity|]. eexists. vm_compute. reflexivity.
Defined.

Definition sample_forward : PacketToForward := mkForward (mkHeader Open ContextUnset Transport Single Data 4 (Some transport_1) dest_1 CtxNone) [1; 2; 3]%Z iface_a.
Definition node_after :=
  match ingest_data (HHH := two_hashes) (HRV := three_ways) sample_node Deferred (sample_packet 1) sample_arrival attached with Done (_, s) => s | _ => sample_node end.
(** Data for nobody known and a proof of another packet in between. *)
Definition sample_relay_ops : list relay_op :=
  [DataComes Deferred (mkData (mkHeader Open ContextUnset Transport Single Data 3 (Some our_id) dest_2 CtxNone) [7]%Z) (mkArrived 2 iface_a 5100);
   ProofComes [1; 2]%Z dest_2 CtxNone (mkArrived 2 iface_a 5200)].



(** * Links in transit *)

#[local] Existing Instance sum_ed25519.
#[local] Existing Instance sum_ed25519_laws.

#[local] Abbreviation sample_link_laws := (warm_link_laws attached 2 2 2).
#[local] Abbreviation sample_evidence_laws := (warm_evidence_laws attached 2 2 2).

Definition sample_keys : keys_view := λ d, key_of <$> find_key sr_destination d routes_1.

Lemma sample_links_ok :
  link_relays (HSL := sample_routes_laws) (HKL := sample_link_laws) (HHL := two_hashes_laws) (HRVL := three_ways_laws) (HLL := heap_links_laws)
    sample_node 3 usize_max sample_node_view sample_keys.
Proof.
  split.
  - exact sample_node_ok.
  - exists routes_1. split; [exact table_1_ok|]. split; done.
  - exists []. split; [exact heap_transported_default_rep|]. split; [constructor|done].
  - intros d key Hk. unfold sample_keys in Hk. destruct (decide (d = dest_1)) as [->|Hne].
    + vm_compute in Hk. by injection Hk as <-.
    + rewrite find_key_none in Hk; [done|]. cbn. by intros ->%list_elem_of_singleton.
Qed.

(** A request for [dest_1] that names this node and signals an MTU of 1064. *)
Definition sample_request_header : WirePacketHeader := mkHeader Open ContextUnset Transport Single LinkRequest 3 (Some our_id) dest_1 CtxNone.
Definition sample_request_payload : list Z := replicate 32 0x31%Z ++ replicate 32 0x32%Z ++ signalling_bytes_from 1064 Aes256Cbc.
Definition sample_request_id : LinkId := derive_link_id dest_1 (replicate 32 0x31%Z) (replicate 32 0x32%Z).
Definition sample_link_request : LinkRequestMessage :=
  mkLinkRequest dest_1 sample_request_id (replicate 32 0x31%Z) (replicate 32 0x32%Z) 1064 Aes256Cbc true.
Definition sample_link_arrival : LinkRequestArrival := mkLinkArrival (sha256_chunks [[7]%Z]) sample_arrival attached.
(** The proof of the destination, whose announced key is that of the secret 4. *)
Definition sample_link_proof : list Z :=
  match write_link_proof sample_request_id (replicate 32 0x33%Z) (in_memory_signer (replicate 32 3%Z) (4%Z : @SigningKey sum_ed25519)) 1064 Aes256Cbc (replicate 200 0%Z) with
  | Done (Ok n, buf) => drop HEADER_MIN_LEN (take n buf)
  | _ => []
  end.
Definition sample_link_ops : list link_op :=
  [LinkPacketArrives sample_request_id CtxNone Data (mkArrived 4 iface_c 4900);
   LinkRequestArrives (λ _, false) sample_request_header sample_request_payload sample_link_arrival;
   LinkProofArrives sample_request_id sample_link_proof (mkArrived 2 iface_c 5200);
   LinkProofArrives sample_request_id sample_link_proof (mkArrived 2 iface_a 5300)].

Lemma sample_parsed : link_request_from sample_request_header sample_request_payload = Done (Ok sample_link_request).
Proof. vm_compute. reflexivity. Qed.

Lemma link_request_goes_on_witness :
  ∃ o s' v', ingest_transported_link_request (HHH := two_hashes) sample_node sample_request_header sample_link_request sample_link_arrival = Done (o, s')
    ∧ request_done sample_node sample_node_view usize_max sample_request_header sample_link_request sample_link_arrival o v'
    ∧ ∃ h body, o = TransportedLinkRequest h body iface_a.
Proof.
  destruct (link_request_goes_on (HSL := sample_routes_laws) (HKL := sample_link_laws) (HHL := two_hashes_laws) (HRVL := three_ways_laws) (HLL := heap_links_laws)
    sample_node 3 usize_max sample_node_view sample_keys sample_request_header sample_link_request sample_link_arrival sample_request_payload)
    as (o & s' & v' & E & _ & Hd & _).
  - exact sample_links_ok.
  - exact (digest_bytes _).
  - by vm_compute.
  - exact sample_parsed.
  - exists o, s', v'. split; [exact E|]. split; [exact Hd|]. vm_compute in E. injection E as <- _. by eexists _, _.
Defined.

(** The packet before the request and the proof over the wrong interface have no effect; then a packet crosses. *)
Lemma only_opened_links_are_switched_witness :
  ∃ answers s' o s'', link_run (HHH := two_hashes) sample_node sample_link_ops = Done (answers, s')
    ∧ relay_if_transported s' sample_request_id CtxNone Data (mkArrived 4 iface_c 5400) = Done (o, s'')
    ∧ (∃ e, opened sample_keys sample_link_ops sample_request_id e)
    ∧ ∃ h, o = RelayForward h iface_a.
Proof.
  destruct (only_opened_links_are_switched (HSL := sample_routes_laws) (HKL := sample_link_laws) (HHL := two_hashes_laws) (HRVL := three_ways_laws) (HLL := heap_links_laws)
    sample_node 3 usize_max sample_node_view sample_keys sample_link_ops sample_request_id CtxNone Data (mkArrived 4 iface_c 5400))
    as (answers & s' & o & s'' & E1 & E2 & Ho).
  - exact sample_links_ok.
  - reflexivity.
  - constructor; [exact I|]. constructor; [exact (digest_bytes _)|]. constructor; [done|]. constructor; [done|constructor].
  - by vm_compute.
  - exists answers, s', o, s''. split; [exact E1|]. split; [exact E2|].
    assert (Hf : ∃ h, o = RelayForward h iface_a). { vm_compute in E1. injection E1 as <- <-. vm_compute in E2. injection E2 as <- _. by eexists. }
    destruct Hf as [h ->]. split; [|by exists h]. by apply (Ho h iface_a).
Defined.

(** The node after the request. *)
Definition asked_node :=
  match ingest_transported_link_request (HHH := two_hashes) sample_node sample_request_header sample_link_request sample_link_arrival with Done (_, s) => s | _ => sample_node end.
Lemma asked_node_ok :
  ∃ v', link_relays (HSL := sample_routes_laws) (HKL := sample_link_laws) (HHL := two_hashes_laws) (HRVL := three_ways_laws) (HLL := heap_links_laws)
    asked_node 3 usize_max v' sample_keys.
Proof.
  destruct (transported_request_ok (HSL := sample_routes_laws) (HKL := sample_link_laws) (HHL := two_hashes_laws) (HRVL := three_ways_laws) (HLL := heap_links_laws)
    sample_node 3 usize_max sample_node_view sample_keys sample_request_header sample_link_request sample_link_arrival sample_links_ok) as (o & s' & v' & E & Hs & _).
  - exact (digest_bytes _).
  - done.
  - done.
  - by vm_compute.
  - exists v'. unfold asked_node. rewrite E. exact Hs.
Qed.

(** The routes of the node after the request, with the handle that the carried link keeps. *)
Lemma asked_routes_ok v' :
  link_relays (HSL := sample_routes_laws) (HKL := sample_link_laws) (HHL := two_hashes_laws) (HRVL := three_ways_laws) (HLL := heap_links_laws)
    asked_node 3 usize_max v' sample_keys →
  ∃ ev, ∀ e, vw_carried v' !! sample_request_id = Some e →
    le_rep (LinkEvidenceLaws := sample_evidence_laws) (rl_routes asked_node) (vw_routes v') sample_keys ev (tl_route_evidence e).
Proof.
  intros Hs. destruct (ly_routes _ _ _ _ _ Hs) as (v & Hok & Hv & Hk). exists (λ d, evidence_of_route <$> find_key sr_destination d v). intros e He.
  assert (Hlen : length v = 1) by (destruct (ok_len _ v Hok) as (El & _); rewrite <- El; vm_compute; reflexivity).
  assert (Eh : Some (tl_route_evidence e) = Some (mkHandle 1%Z 0%Z)).
  { pose proof (entry_for_ok _ _ _ sample_request_id (ly_carried _ _ _ _ _ Hs)) as E. rewrite He in E.
    apply (f_equal (λ r, match r with Done (Some e) => Some (tl_route_evidence e) | _ => None end)) in E. rewrite <- E. vm_compute. reflexivity. }
  injection Eh as ->. exists v. split; [exact Hok|]. split; [done|]. split; [done|]. split; [done|]. destruct v as [|r [|r2 v]]; [done| |done].
  split; [apply NoDup_singleton|]. split; [vm_compute; split; discriminate|]. intros [|n] x Hx _; [left; vm_compute; discriminate|done].
Qed.

(** Whether the route of [dest_1] responds after the handler. *)
Definition responds {O S} (r : run (O * S)) (table : S → sample_t) : run (option RouteResponsiveness) :=
  match r with Done (_, s) => responsiveness_of (table s) dest_1 | Panic => Panic | OutOfFuel => OutOfFuel end.
Lemma responds_done {O S} (o : O) (s : S) table : responds (Done (o, s)) table = responsiveness_of (table s) dest_1.
Proof. done. Qed.
Lemma asked_route_responds :
  responds (ingest_transported_link_proof asked_node sample_request_id sample_link_proof (mkArrived 2 iface_a 5300)) (λ s, wr_table (rl_routes s))
  = Done (Some Responsive).
Proof. vm_compute. reflexivity. Qed.

