(* ===== verification/HeldAnnounces.v ===== *)
(** Announces held back from a burst: [prns-core/src/routing/announce/held/].

    [HeldAnnounces] ([core.rs]) parks announces per interface and destination and releases them nearest first; the
    payloads lie in a payload store ([AppData]).  Its table is a trait ([HeldAnnounceTable], here a class) with two
    designs: columns with a directory of interfaces ([impls/soa.rs], over bounded vectors in [impls/fixed.rs] and
    over preallocated ones in [impls/fixed_heap.rs]), and a vector per interface ([impls/heap.rs]).
    [HeldAnnouncesProofs] has the theorems. *)

From stdpp Require Import gmap.
From S2P Require Import Prelude AppData Columns Routes Announce AnnounceSchedule RoutingTable.

(** * Data: [core.rs] *)

Definition MAX_HELD_ANNOUNCES_PER_INTERFACE : nat := 256.

Record HeldAnnounce := mkHeld {
  ha_destination : DestinationHash;
  ha_hops : Z;
  ha_receiving_interface : InterfaceId;
  ha_next_hop : NextHop;
  ha_is_path_response : bool;
  ha_announce : AnnounceRecord;
}.

Inductive HeldDropCause := DropInterfaceAtCap | DropPoolFull | DropArenaFull.
Inductive HoldOutcome := Held | Replaced | StaleKept | NewcomerDropped (cause : HeldDropCause).
Inductive HeldFull := InterfaceAtCap | PoolFull.

(** [From<HeldFull> for HeldDropCause] *)
Definition drop_cause_of (full : HeldFull) : HeldDropCause :=
  match full with InterfaceAtCap => DropInterfaceAtCap | PoolFull => DropPoolFull end.

Definition ha_handle (r : HeldAnnounce) : option AppDataHandle := maybe_app_data_handle (ha_announce r).

(** [Iterator::min_by_key]: the first of the smallest. *)
Definition min_by_key {A} (key : A → Z) (xs : list A) : option A :=
  match xs with
  | [] => None
  | x :: rest => Some (foldl (λ best y, if (key y <? key best)%Z then y else best) x rest)
  end.

(** * The trait

    [drop_interface] answers the handles its callback is called with, in order. *)

Class HeldAnnounceTable (T : Type) := {
  HeldSlot : Type;
  ht_find : T → InterfaceId → DestinationHash → run (option HeldSlot);
  ht_app_data_handle : T → HeldSlot → run (option AppDataHandle);
  ht_overwrite : T → HeldSlot → HeldAnnounce → run T;
  ht_insert : T → HeldAnnounce → run (result HeldFull unit * T);
  ht_take_lowest_hop_for : T → InterfaceId → run (option HeldAnnounce * T);
  ht_drop_interface : T → InterfaceId → run (list (option AppDataHandle) * T);
  ht_interfaces : T → list InterfaceId;
  ht_len_for : T → InterfaceId → run nat;
  ht_len : T → nat;
}.

(** * [HeldAnnounces] *)

Record HeldAnnounces (T D : Type) := mkHeldAnnounces { held_store : T; held_app_data : D }.
Arguments mkHeldAnnounces {T D} _ _.
Arguments held_store {T D} _.
Arguments held_app_data {T D} _.

(** [ReleasedLowestHops], with what [scratch] then holds. *)
Record ReleasedLowestHops := mkReleased { rl_held_announce : HeldAnnounce; rl_app_data_bytes : nat }.

Inductive AppDataFull := AppDataIsFull.

Definition into_held_record (hops : Z) (receiving_interface : InterfaceId) (next_hop : NextHop) (is_path_response : bool)
    (announce : AnnounceMessage) (handle : option AppDataHandle) : HeldAnnounce :=
  mkHeld (an_destination announce) hops receiving_interface next_hop is_path_response
    (mkRecord (an_public_keys announce) (an_dotted_name_hash announce) (an_announce_id announce) (an_signature announce)
      (an_ratchet announce) handle).

Section operations.
Context {T D : Type} `{HeldAnnounceTable T} `{AnnounceAppData D}.
Implicit Types (h : HeldAnnounces T D) (app_data : D).

Definition held_retain_app_data app_data (bytes : list Z) : run (result AppDataFull (option AppDataHandle) * D) :=
  if bool_decide (bytes = []) then Done (Ok None, app_data) else
  '(inserted, app_data) ← ad_insert app_data bytes;
  Done (match inserted with Ok handle => Ok (Some handle) | Err _ => Err AppDataIsFull end, app_data).

Definition held_upsert_app_data app_data (previous_handle : option AppDataHandle) (new_app_data : list Z) :
    run (result AppDataFull (option AppDataHandle) * D) :=
  match previous_handle, bool_decide (new_app_data = []) with
  | Some handle, true => app_data ← ad_free app_data handle; Done (Ok None, app_data)
  | Some handle, false =>
      '(replaced, app_data) ← ad_replace app_data handle new_app_data;
      Done (match replaced with Ok _ => Ok (Some handle) | Err _ => Err AppDataIsFull end, app_data)
  | None, _ => held_retain_app_data app_data new_app_data
  end.

Definition hold_with_limit h (hops : Z) (receiving_interface : InterfaceId) (next_hop : NextHop) (is_path_response : bool)
    (announce : AnnounceMessage) (max_for_interface : nat) : run (HoldOutcome * HeldAnnounces T D) :=
  found ← ht_find (held_store h) receiving_interface (an_destination announce);
  match found with
  | Some slot =>
      current ← ht_app_data_handle (held_store h) slot;
      '(refreshed, app_data) ← held_upsert_app_data (held_app_data h) current (an_app_data announce);
      match refreshed with
      | Err _ => Done (StaleKept, mkHeldAnnounces (held_store h) app_data)
      | Ok handle =>
          t ← ht_overwrite (held_store h) slot
            (into_held_record hops receiving_interface next_hop is_path_response announce handle);
          Done (Replaced, mkHeldAnnounces t app_data)
      end
  | None =>
      len ← ht_len_for (held_store h) receiving_interface;
      if (max_for_interface <=? len)%nat then Done (NewcomerDropped DropInterfaceAtCap, h) else
      '(retained, app_data) ← held_retain_app_data (held_app_data h) (an_app_data announce);
      match retained with
      | Err _ => Done (NewcomerDropped DropArenaFull, mkHeldAnnounces (held_store h) app_data)
      | Ok handle =>
          '(inserted, t) ← ht_insert (held_store h)
            (into_held_record hops receiving_interface next_hop is_path_response announce handle);
          match inserted with
          | Ok _ => Done (Held, mkHeldAnnounces t app_data)
          | Err full =>
              app_data ← match handle with Some handle => ad_free app_data handle | None => Done app_data end;
              Done (NewcomerDropped (drop_cause_of full), mkHeldAnnounces t app_data)
          end
      end
  end.

Definition hold h (hops : Z) (receiving_interface : InterfaceId) (next_hop : NextHop) (is_path_response : bool)
    (announce : AnnounceMessage) : run (HoldOutcome * HeldAnnounces T D) :=
  hold_with_limit h hops receiving_interface next_hop is_path_response announce MAX_HELD_ANNOUNCES_PER_INTERFACE.

(** The released announce and [scratch] afterwards. *)
Definition release_lowest_hop_for h (interface : InterfaceId) (scratch : list Z) :
    run (option ReleasedLowestHops * list Z * HeldAnnounces T D) :=
  '(taken, t) ← ht_take_lowest_hop_for (held_store h) interface;
  match taken with
  | None => Done (None, scratch, mkHeldAnnounces t (held_app_data h))
  | Some record =>
      match ha_handle record with
      | None => Done (Some (mkReleased record 0), scratch, mkHeldAnnounces t (held_app_data h))
      | Some handle =>
          bytes ← ad_get (held_app_data h) handle;
          let len := Nat.min (length bytes) (length scratch) in
          source ← slice bytes 0 len;
          scratch ← copy_into scratch 0 source;
          app_data ← ad_free (held_app_data h) handle;
          Done (Some (mkReleased record len), scratch, mkHeldAnnounces t app_data)
      end
  end.

Fixpoint free_handles app_data (handles : list (option AppDataHandle)) : run D :=
  match handles with
  | [] => Done app_data
  | Some handle :: rest => app_data ← ad_free app_data handle; free_handles app_data rest
  | None :: rest => free_handles app_data rest
  end.

Definition held_drop_interface h (interface : InterfaceId) : run (HeldAnnounces T D) :=
  '(handles, t) ← ht_drop_interface (held_store h) interface;
  app_data ← free_handles (held_app_data h) handles;
  Done (mkHeldAnnounces t app_data).

Definition held_interfaces h : list InterfaceId := ht_interfaces (held_store h).
Definition held_len h : nat := ht_len (held_store h).
Definition held_len_for h (interface : InterfaceId) : run nat := ht_len_for (held_store h) interface.
End operations.

(** * Columns with a directory: [impls/soa.rs] *)

Record Probe := mkProbe { pr_iface_idx : Z; pr_hops : Z }.
Record DirEntry := mkDirEntry { de_interface : InterfaceId; de_held : Z }.
Record HeldCold := mkCold { hc_next_hop : NextHop; hc_is_path_response : bool; hc_entry : AnnounceRecord }.

(** The trait [SoaColumns]; [set_dir] is [dir_mut()[i] = entry]. *)
Class SoaColumns (C : Type) := {
  so_probe : C → list Probe;
  so_dest : C → list DestinationHash;
  so_cold : C → list HeldCold;
  so_dir : C → list (option DirEntry);
  so_set_dir : C → nat → option DirEntry → run C;
  so_push : C → Probe → DestinationHash → HeldCold → C;
  so_overwrite_at : C → nat → Probe → DestinationHash → HeldCold → run C;
  so_swap_remove : C → nat → run C;
  so_capacity : C → nat;
}.

Section soa.
Context {C : Type} `{SoaColumns C}.
Implicit Types (c : C).

(** [columns.len()] *)
Definition soa_len c : nat := length (so_probe c).

Definition iface_idx c (interface : InterfaceId) : option nat :=
  fst <$> list_find (λ slot, de_interface <$> slot = Some interface) (so_dir c).

Definition claim_iface_idx c (interface : InterfaceId) : run (option nat * C) :=
  match iface_idx c interface with
  | Some idx => Done (Some idx, c)
  | None =>
      match fst <$> list_find (λ slot, slot = None) (so_dir c) with
      | None => Done (None, c)
      | Some free => c ← so_set_dir c free (Some (mkDirEntry interface 0)); Done (Some free, c)
      end
  end.

Definition reconstruct c (slot : nat) (interface : InterfaceId) : run HeldAnnounce :=
  cold ← index (so_cold c) slot;
  destination ← index (so_dest c) slot;
  probe ← index (so_probe c) slot;
  Done (mkHeld destination (pr_hops probe) interface (hc_next_hop cold) (hc_is_path_response cold) (hc_entry cold)).

Definition cold_of (record : HeldAnnounce) : HeldCold :=
  mkCold (ha_next_hop record) (ha_is_path_response record) (ha_announce record).

(** [idx as u16] *)
Definition as_u16 (idx : nat) : Z := wrap 16 (Z.of_nat idx).

(** [(i..i + n).find(..)] *)
Fixpoint soa_find_from (probe : list Probe) (dest : list DestinationHash) (idx : Z) (destination : DestinationHash) (n i : nat) :
    run (option nat) :=
  match n with
  | O => Done None
  | S n =>
      p ← index probe i;
      same ← (if (pr_iface_idx p =? idx)%Z then d ← index dest i; Done (bool_decide (d = destination)) else Done false);
      if same : bool then Done (Some i) else soa_find_from probe dest idx destination n (S i)
  end.

Definition soa_find c (interface : InterfaceId) (destination : DestinationHash) : run (option nat) :=
  match iface_idx c interface with
  | None => Done None
  | Some idx => soa_find_from (so_probe c) (so_dest c) (as_u16 idx) destination (soa_len c) 0
  end.

Definition soa_app_data_handle c (slot : nat) : run (option AppDataHandle) :=
  cold ← index (so_cold c) slot;
  Done (maybe_app_data_handle (hc_entry cold)).

Definition soa_overwrite c (slot : nat) (record : HeldAnnounce) : run C :=
  probe ← index (so_probe c) slot;
  so_overwrite_at c slot (mkProbe (pr_iface_idx probe) (ha_hops record)) (ha_destination record) (cold_of record).

(** [entry.held += 1], [entry.held -= 1]: out of range is an overflow. *)
Definition add_held (entry : DirEntry) (n : Z) : run DirEntry :=
  if bool_decide (in_width 16 (de_held entry + n)) then Done (mkDirEntry (de_interface entry) (de_held entry + n)) else Panic.

Definition soa_insert c (record : HeldAnnounce) : run (result HeldFull unit * C) :=
  '(claimed, c) ← claim_iface_idx c (ha_receiving_interface record);
  match claimed with
  | None => Done (Err PoolFull, c)
  | Some idx =>
      entry ← index (so_dir c) idx;
      let held := match entry with Some entry => de_held entry | None => 0%Z end in
      if (Z.of_nat MAX_HELD_ANNOUNCES_PER_INTERFACE <=? held)%Z then Done (Err InterfaceAtCap, c) else
      if (so_capacity c <=? soa_len c)%nat then
        c ← (if (held =? 0)%Z then so_set_dir c idx None else Done c);
        Done (Err PoolFull, c)
      else
        let c := so_push c (mkProbe (as_u16 idx) (ha_hops record)) (ha_destination record) (cold_of record) in
        entry ← index (so_dir c) idx;
        c ← match entry with
            | Some entry => entry ← add_held entry 1; so_set_dir c idx (Some entry)
            | None => Done c
            end;
        Done (Ok (), c)
  end.

Definition soa_take_lowest_hop_for c (interface : InterfaceId) : run (option HeldAnnounce * C) :=
  match iface_idx c interface with
  | None => Done (None, c)
  | Some idx =>
      match min_by_key (λ p, pr_hops p.2) (filter (λ p, pr_iface_idx p.2 = as_u16 idx) (imap pair (so_probe c))) with
      | None => Done (None, c)
      | Some (slot, _) =>
          record ← reconstruct c slot interface;
          c ← so_swap_remove c slot;
          entry ← index (so_dir c) idx;
          c ← match entry with
              | Some entry =>
                  entry ← add_held entry (-1);
                  so_set_dir c idx (if (de_held entry =? 0)%Z then None else Some entry)
              | None => Done c
              end;
          Done (Some record, c)
      end
  end.

Fixpoint soa_drop_loop (fuel : nat) c (i : nat) (idx : Z) : run (list (option AppDataHandle) * C) :=
  match fuel with
  | O => OutOfFuel
  | S fuel =>
      if (i <? soa_len c)%nat then
        p ← index (so_probe c) i;
        if (pr_iface_idx p =? idx)%Z then
          cold ← index (so_cold c) i;
          c ← so_swap_remove c i;
          '(removed, c) ← soa_drop_loop fuel c i idx;
          Done (maybe_app_data_handle (hc_entry cold) :: removed, c)
        else soa_drop_loop fuel c (S i) idx
      else Done ([], c)
  end.

Definition soa_drop_interface c (interface : InterfaceId) : run (list (option AppDataHandle) * C) :=
  match iface_idx c interface with
  | None => Done ([], c)
  | Some idx =>
      '(removed, c) ← soa_drop_loop (S (soa_len c)) c 0 (as_u16 idx);
      c ← so_set_dir c idx None;
      Done (removed, c)
  end.

Definition soa_interfaces c : list InterfaceId := omap (λ slot, de_interface <$> slot) (so_dir c).

Definition soa_len_for c (interface : InterfaceId) : run nat :=
  match iface_idx c interface with
  | None => Done 0
  | Some idx =>
      entry ← index (so_dir c) idx;
      Done (match entry with Some entry => Z.to_nat (de_held entry) | None => 0 end)
  end.

#[global] Instance soa_held_table : HeldAnnounceTable C := {|
  ht_find := soa_find;
  ht_app_data_handle := soa_app_data_handle;
  ht_overwrite := soa_overwrite;
  ht_insert := soa_insert;
  ht_take_lowest_hop_for := soa_take_lowest_hop_for;
  ht_drop_interface := soa_drop_interface;
  ht_interfaces := soa_interfaces;
  ht_len_for := soa_len_for;
  ht_len := soa_len;
|}.
End soa.

(** ** Bounded vectors: [impls/fixed.rs]; preallocated vectors: [impls/fixed_heap.rs] *)

Record FixedSoaColumns (CAP : nat) := mkFixedSoa {
  fs_probe : list Probe; fs_dest : list DestinationHash; fs_cold : list HeldCold; fs_dir : list (option DirEntry) }.
Arguments mkFixedSoa {CAP} _ _ _ _.
Arguments fs_probe {CAP} _.
Arguments fs_dest {CAP} _.
Arguments fs_cold {CAP} _.
Arguments fs_dir {CAP} _.

Section fixed.
Context {CAP : nat}.
Implicit Types (c : FixedSoaColumns CAP).

Definition fixed_soa_default : FixedSoaColumns CAP := mkFixedSoa [] [] [] (replicate CAP None).

Definition fixed_soa_set_dir c (i : nat) (entry : option DirEntry) : run (FixedSoaColumns CAP) :=
  dir ← store (fs_dir c) i entry;
  Done (mkFixedSoa (fs_probe c) (fs_dest c) (fs_cold c) dir).

Definition fixed_soa_overwrite_at c (slot : nat) (p : Probe) (d : DestinationHash) (r : HeldCold) : run (FixedSoaColumns CAP) :=
  probe ← store (fs_probe c) slot p;
  dest ← store (fs_dest c) slot d;
  cold ← store (fs_cold c) slot r;
  Done (mkFixedSoa probe dest cold (fs_dir c)).

Context `{HeaplessVec} `{HeaplessRemove}.

Definition fixed_soa_push c (p : Probe) (d : DestinationHash) (r : HeldCold) : FixedSoaColumns CAP :=
  mkFixedSoa (hv_push CAP (fs_probe c) p) (hv_push CAP (fs_dest c) d) (hv_push CAP (fs_cold c) r) (fs_dir c).

Definition fixed_soa_swap_remove c (slot : nat) : run (FixedSoaColumns CAP) :=
  probe ← hv_swap_remove (fs_probe c) slot;
  dest ← hv_swap_remove (fs_dest c) slot;
  cold ← hv_swap_remove (fs_cold c) slot;
  Done (mkFixedSoa probe dest cold (fs_dir c)).

#[global] Instance fixed_soa_columns : SoaColumns (FixedSoaColumns CAP) := {|
  so_probe := fs_probe; so_dest := fs_dest; so_cold := fs_cold; so_dir := fs_dir;
  so_set_dir := fixed_soa_set_dir; so_push := fixed_soa_push; so_overwrite_at := fixed_soa_overwrite_at;
  so_swap_remove := fixed_soa_swap_remove; so_capacity := λ _, CAP;
|}.
End fixed.

(** * A vector per interface: [impls/heap.rs] *)

Record InterfaceHeld := mkInterfaceHeld { ih_interface : InterfaceId; ih_held : list HeldAnnounce }.
Definition HeapHeldAnnounceTable := list InterfaceHeld.

Section heap.
Implicit Types (t : HeapHeldAnnounceTable).

(** [interfaces.iter().position(|held| held.interface == interface)] *)
Definition heap_held_position t (interface : InterfaceId) : option nat :=
  fst <$> list_find (λ held, ih_interface held = interface) t.

Definition heap_held_find t (interface : InterfaceId) (destination : DestinationHash) : run (option (nat * nat)) :=
  match heap_held_position t interface with
  | None => Done None
  | Some iface =>
      held ← index t iface;
      Done ((λ slot, (iface, slot)) <$> (fst <$> list_find (λ record, ha_destination record = destination) (ih_held held)))
  end.

Definition heap_held_app_data_handle t (slot : nat * nat) : run (option AppDataHandle) :=
  held ← index t slot.1;
  record ← index (ih_held held) slot.2;
  Done (ha_handle record).

Definition heap_held_overwrite t (slot : nat * nat) (record : HeldAnnounce) : run HeapHeldAnnounceTable :=
  held ← index t slot.1;
  records ← store (ih_held held) slot.2 record;
  store t slot.1 (mkInterfaceHeld (ih_interface held) records).

Definition heap_held_insert t (record : HeldAnnounce) : run (result HeldFull unit * HeapHeldAnnounceTable) :=
  match list_find (λ held, ih_interface held = ha_receiving_interface record) t with
  | Some (iface, held) =>
      if (MAX_HELD_ANNOUNCES_PER_INTERFACE <=? length (ih_held held))%nat then Done (Err InterfaceAtCap, t) else
      Done (Ok (), <[iface := mkInterfaceHeld (ih_interface held) (ih_held held ++ [record])]> t)
  | None => Done (Ok (), t ++ [mkInterfaceHeld (ha_receiving_interface record) [record]])
  end.

Definition heap_held_take_lowest_hop_for t (interface : InterfaceId) : run (option HeldAnnounce * HeapHeldAnnounceTable) :=
  match heap_held_position t interface with
  | None => Done (None, t)
  | Some iface =>
      held ← index t iface;
      match min_by_key (λ p, ha_hops p.2) (imap pair (ih_held held)) with
      | None => Done (None, t)
      | Some (slot, _) =>
          record ← index (ih_held held) slot;
          records ← vec_swap_remove (ih_held held) slot;
          t ← store t iface (mkInterfaceHeld (ih_interface held) records);
          t ← (if bool_decide (records = []) then vec_swap_remove t iface else Done t);
          Done (Some record, t)
      end
  end.

Definition heap_held_drop_interface t (interface : InterfaceId) : run (list (option AppDataHandle) * HeapHeldAnnounceTable) :=
  match heap_held_position t interface with
  | None => Done ([], t)
  | Some iface =>
      held ← index t iface;
      t ← vec_swap_remove t iface;
      Done (ha_handle <$> ih_held held, t)
  end.

Definition heap_held_interfaces t : list InterfaceId := ih_interface <$> t.
Definition heap_held_len_for t (interface : InterfaceId) : run nat :=
  Done (match list_find (λ held, ih_interface held = interface) t with
        | Some (_, held) => length (ih_held held)
        | None => 0
        end).
Definition heap_held_len t : nat := sum_list ((λ held, length (ih_held held)) <$> t).

#[global] Instance heap_held_table : HeldAnnounceTable HeapHeldAnnounceTable := {|
  ht_find := heap_held_find;
  ht_app_data_handle := heap_held_app_data_handle;
  ht_overwrite := heap_held_overwrite;
  ht_insert := heap_held_insert;
  ht_take_lowest_hop_for := heap_held_take_lowest_hop_for;
  ht_drop_interface := heap_held_drop_interface;
  ht_interfaces := heap_held_interfaces;
  ht_len_for := heap_held_len_for;
  ht_len := heap_held_len;
|}.
End heap.
