(* ===== verification/HeldAnnounceTables.v ===== *)
(** The tables of held announces ([HeldAnnounces]): their contract, and that the columns with a directory of
    interfaces and the vectors per interface keep it. *)

From stdpp Require Import gmap.
From S2P Require Import Prelude AppData Columns KeyedMap Routes Announce AnnounceSchedule RoutingTable HeldAnnounces.

(** * The contract of the tables *)

Lemma min_by_key_ok {A} (key : A → Z) (xs : list A) :
  match min_by_key key xs with
  | None => xs = []
  | Some x => x ∈ xs ∧ ∀ y, y ∈ xs → (key x ≤ key y)%Z
  end.
Proof.
  destruct xs as [|x rest]; [done|]. unfold min_by_key. revert x. induction rest as [|y rest IH]; intros x; cbn [foldl].
  - split; [by apply list_elem_of_singleton|]. by intros y ->%list_elem_of_singleton.
  - destruct (Z.ltb_spec (key y) (key x)) as [Hlt|Hge].
    + destruct (IH y) as [Hin Hmin]. split; [by apply list_elem_of_further|]. pose proof (Hmin y (list_elem_of_here _ _)). intros z Hz. rewrite elem_of_cons in Hz. destruct Hz as [->|Hz]; [lia|by apply Hmin].
    + destruct (IH x) as [Hin Hmin]. pose proof (Hmin x (list_elem_of_here _ _)). split; [rewrite !elem_of_cons in *; tauto|].
      intros z Hz. rewrite !elem_of_cons in Hz. destruct Hz as [->|[->|Hz]]; [lia|lia|]. apply Hmin. by apply list_elem_of_further.
Qed.

Lemma filter_through {A B} (f : A → B) (P : A → Prop) (Q : B → Prop) `{∀ x, Decision (P x)} `{∀ y, Decision (Q y)} (xs : list A) :
  (∀ x, x ∈ xs → P x ↔ Q (f x)) → f <$> filter P xs = filter Q (f <$> xs).
Proof.
  induction xs as [|x xs IH]; intros Hpq; [done|]. pose proof (Hpq x (list_elem_of_here _ _)) as Hx. cbn [fmap list_fmap].
  rewrite !filter_cons. assert (IH' := IH (λ y Hy, Hpq y (list_elem_of_further _ _ _ Hy))). case_decide; case_decide; try tauto.
  cbn. by rewrite IH'.
Qed.

Lemma filter_no_member {A} (P : A → Prop) `{∀ x, Decision (P x)} (xs : list A) : (∀ x, x ∈ xs → ¬ P x) → filter P xs = [].
Proof.
  intros Hn. destruct (filter P xs) as [|x l] eqn:E; [done|]. exfalso.
  assert (x ∈ filter P xs) as [HP Hx]%list_elem_of_filter by (rewrite E; left). by apply (Hn x).
Qed.

Lemma filter_present {A} (P : A → Prop) `{∀ x, Decision (P x)} (xs : list A) : (∀ x, x ∈ xs → P x) → filter P xs = xs.
Proof.
  induction xs as [|x xs IH]; intros HP; [done|]. rewrite filter_cons_True by (apply HP; left). f_equal. apply IH. intros y Hy. apply HP. by right.
Qed.

Lemma filter_parts {A} (P : A → Prop) `{∀ x, Decision (P x)} (xs : list A) : filter P xs ++ filter (λ x, ¬ P x) xs ≡ₚ xs.
Proof.
  induction xs as [|x xs IH]; [done|]. rewrite !filter_cons. case_decide; case_decide; try tauto; cbn; rewrite <- ?Permutation_middle; by rewrite IH.
Qed.

Lemma eq_perm {A} (xs ys : list A) : xs = ys → xs ≡ₚ ys.
Proof. by intros ->. Qed.

Lemma overwritten_perm {A} (xs : list A) i x y : xs !! i = Some x → <[i := y]> xs ≡ₚ y :: swap_removed xs i.
Proof.
  intros Hi. pose proof (swap_removed_perm xs i x Hi) as Hp. rewrite insert_take_drop by (by eapply lookup_lt_Some).
  rewrite <- Permutation_middle. f_equiv. apply (Permutation_cons_inv (a := x)). rewrite Hp, Permutation_middle. by rewrite take_drop_middle.
Qed.

Definition held_key (r : HeldAnnounce) : InterfaceId * DestinationHash := (ha_receiving_interface r, ha_destination r).
(** The announces held for an interface. *)
Abbreviation on_interface i := (λ r, ha_receiving_interface r = i).

(** [ht_rep t cap recs]: [t] holds the announces [recs], in some order, and has room for [cap] where it is bounded. *)
Class HeldTableLaws (T : Type) `{HeldAnnounceTable T} := {
  ht_rep : T → option nat → list HeldAnnounce → Prop;
  ht_rep_ok : ∀ t cap recs, ht_rep t cap recs → NoDup (held_key <$> recs)
    ∧ (∀ i, length (filter (on_interface i) recs) ≤ MAX_HELD_ANNOUNCES_PER_INTERFACE)
    ∧ (∀ n, cap = Some n → length recs ≤ n);
  ht_find_ok : ∀ t cap recs i d, ht_rep t cap recs →
    (∃ slot r rest, ht_find t i d = Done (Some slot) ∧ recs ≡ₚ r :: rest ∧ held_key r = (i, d)
       ∧ ht_app_data_handle t slot = Done (ha_handle r)
       ∧ ∀ r', held_key r' = (i, d) → ∃ t', ht_overwrite t slot r' = Done t' ∧ ht_rep t' cap (r' :: rest))
    ∨ (ht_find t i d = Done None ∧ (i, d) ∉ held_key <$> recs);
  ht_insert_ok : ∀ t cap recs r, ht_rep t cap recs → held_key r ∉ held_key <$> recs →
    (∃ t', ht_insert t r = Done (Ok (), t') ∧ ht_rep t' cap (r :: recs))
    ∨ (∃ full t', ht_insert t r = Done (Err full, t') ∧ ht_rep t' cap recs
        ∧ match full with
          | InterfaceAtCap => length (filter (on_interface (ha_receiving_interface r)) recs) = MAX_HELD_ANNOUNCES_PER_INTERFACE
          | PoolFull => cap = Some (length recs)
          end);
  ht_take_ok : ∀ t cap recs i, ht_rep t cap recs →
    (∃ r rest t', ht_take_lowest_hop_for t i = Done (Some r, t') ∧ recs ≡ₚ r :: rest ∧ ha_receiving_interface r = i
       ∧ (∀ r', r' ∈ recs → ha_receiving_interface r' = i → (ha_hops r ≤ ha_hops r')%Z) ∧ ht_rep t' cap rest)
    ∨ (ht_take_lowest_hop_for t i = Done (None, t) ∧ ∀ r, r ∈ recs → ha_receiving_interface r ≠ i);
  ht_drop_ok : ∀ t cap recs i, ht_rep t cap recs →
    ∃ handles t', ht_drop_interface t i = Done (handles, t') ∧ handles ≡ₚ ha_handle <$> filter (on_interface i) recs
      ∧ ht_rep t' cap (filter (λ r, ha_receiving_interface r ≠ i) recs);
  ht_interfaces_ok : ∀ t cap recs, ht_rep t cap recs →
    NoDup (ht_interfaces t) ∧ ∀ i, i ∈ ht_interfaces t ↔ ∃ r, r ∈ recs ∧ ha_receiving_interface r = i;
  ht_len_for_ok : ∀ t cap recs i, ht_rep t cap recs → ht_len_for t i = Done (length (filter (on_interface i) recs));
  ht_len_ok : ∀ t cap recs, ht_rep t cap recs → ht_len t = length recs;
}.

(** * The columns *)

Record SoaRow := mkSoaRow { sr_probe : Probe; sr_dest : DestinationHash; sr_cold : HeldCold }.

Class SoaColumnsLaws (C : Type) `{SoaColumns C} := {
  so_rep : C → nat → list SoaRow → list (option DirEntry) → Prop;
  so_bounds : ∀ c cap rows dir, so_rep c cap rows dir → length dir = cap ∧ length rows ≤ cap ∧ so_capacity c = cap;
  so_columns : ∀ c cap rows dir, so_rep c cap rows dir →
    so_probe c = sr_probe <$> rows ∧ so_dest c = sr_dest <$> rows ∧ so_cold c = sr_cold <$> rows ∧ so_dir c = dir;
  so_set_dir_ok : ∀ c cap rows dir i e, so_rep c cap rows dir → i < cap →
    ∃ c', so_set_dir c i e = Done c' ∧ so_rep c' cap rows (<[i := e]> dir);
  so_push_ok : ∀ c cap rows dir p d r, so_rep c cap rows dir → length rows < cap →
    so_rep (so_push c p d r) cap (rows ++ [mkSoaRow p d r]) dir;
  so_overwrite_ok : ∀ c cap rows dir i p d r, so_rep c cap rows dir → i < length rows →
    ∃ c', so_overwrite_at c i p d r = Done c' ∧ so_rep c' cap (<[i := mkSoaRow p d r]> rows) dir;
  so_swap_remove_ok : ∀ c cap rows dir i, so_rep c cap rows dir → i < length rows →
    ∃ c', so_swap_remove c i = Done c' ∧ so_rep c' cap (swap_removed rows i) dir;
}.

Section fixed.
Context `{HeaplessQueueLaws} {CAP : nat}.

Record fixed_soa_rep (c : FixedSoaColumns CAP) (cap : nat) (rows : list SoaRow) (dir : list (option DirEntry)) : Prop := {
  fsr_cap : cap = CAP;
  fsr_dir : fs_dir c = dir;
  fsr_dir_len : length dir = CAP;
  fsr_len : length rows ≤ CAP;
  fsr_probe : fs_probe c = sr_probe <$> rows;
  fsr_dest : fs_dest c = sr_dest <$> rows;
  fsr_cold : fs_cold c = sr_cold <$> rows;
}.

#[global] Instance fixed_soa_laws : SoaColumnsLaws (FixedSoaColumns CAP).
Proof.
  refine {| so_rep := fixed_soa_rep |}.
  - by intros c cap rows dir [-> ???].
  - by intros c cap rows dir [].
  - intros c cap rows dir i e [-> <- Hd Hl Hp He Hc] Hi. cbn. unfold fixed_soa_set_dir. rewrite store_done by lia. cbn [mbind run_bind].
    eexists. split; [done|]. split; cbn; try done. by rewrite length_insert.
  - intros c cap rows dir p d r [-> <- Hd Hl Hp He Hc] Hlt. cbn. unfold fixed_soa_push.
    split; cbn; [done|done|done|rewrite length_app; cbn; lia|..];
      rewrite hv_push_room by (rewrite ?Hp, ?He, ?Hc, length_fmap; done); by rewrite ?Hp, ?He, ?Hc, fmap_app.
  - intros c cap rows dir i p d r [-> <- Hd Hl Hp He Hc] Hi. cbn. unfold fixed_soa_overwrite_at. rewrite Hp, He, Hc.
    rewrite !store_done by (by rewrite length_fmap). cbn [mbind run_bind].
    eexists. split; [done|]. split; cbn; rewrite ?length_insert, ?list_fmap_insert; done.
  - intros c cap rows dir i [-> <- Hd Hl Hp He Hc] Hi. cbn. unfold fixed_soa_swap_remove. rewrite Hp, He, Hc.
    rewrite !hq_swap_remove by (by rewrite length_fmap). cbn [mbind run_bind].
    eexists. split; [done|]. split; cbn; rewrite <- ?fmap_swap_removed; try done. rewrite length_swap_removed by done. lia.
Defined.

Lemma fixed_soa_default_rep : so_rep (fixed_soa_default (CAP := CAP)) CAP [] (replicate CAP None).
Proof. split; cbn; try done; [by rewrite length_replicate|lia]. Qed.
End fixed.

(** * The table of columns keeps the contract *)

Section soa.
Context {C : Type} `{SoaColumnsLaws C}.
Implicit Types (c : C) (rows : list SoaRow) (dir : list (option DirEntry)).

Abbreviation in_slot idx := (λ row, pr_iface_idx (sr_probe row) = Z.of_nat idx).

Definition interface_at dir (idx : Z) : InterfaceId :=
  match dir !! Z.to_nat idx with Some (Some e) => de_interface e | _ => [] end.
(** The announce that a row is. *)
Definition soa_rec dir (row : SoaRow) : HeldAnnounce :=
  mkHeld (sr_dest row) (pr_hops (sr_probe row)) (interface_at dir (pr_iface_idx (sr_probe row)))
    (hc_next_hop (sr_cold row)) (hc_is_path_response (sr_cold row)) (hc_entry (sr_cold row)).

Record soa_ok rows dir : Prop := {
  sk_cap : (Z.of_nat (length dir) ≤ 65536)%Z;
  sk_rows : ∀ row, row ∈ rows → ∃ idx e, in_slot idx row ∧ dir !! idx = Some (Some e);
  sk_inj : ∀ i j e e', dir !! i = Some (Some e) → dir !! j = Some (Some e') → de_interface e = de_interface e' → i = j;
  sk_count : ∀ idx e, dir !! idx = Some (Some e) →
    de_held e = Z.of_nat (length (filter (in_slot idx) rows)) ∧ (0 < de_held e ≤ 256)%Z;
  sk_nodup : NoDup (held_key <$> (soa_rec dir <$> rows));
}.

Definition soa_table_rep c (cap : option nat) (recs : list HeldAnnounce) : Prop :=
  ∃ n rows dir, cap = Some n ∧ so_rep c n rows dir ∧ soa_ok rows dir ∧ soa_rec dir <$> rows ≡ₚ recs.

Lemma as_u16_slot rows dir idx e : soa_ok rows dir → dir !! idx = Some e → as_u16 idx = Z.of_nat idx.
Proof. intros Hok Hi%lookup_lt_Some. pose proof (sk_cap _ _ Hok). apply wrap_small. width. Qed.

Lemma iface_idx_ok c cap rows dir i :
  so_rep c cap rows dir →
  (∃ idx e, iface_idx c i = Some idx ∧ dir !! idx = Some (Some e) ∧ de_interface e = i)
  ∨ (iface_idx c i = None ∧ ∀ idx e, dir !! idx = Some (Some e) → de_interface e ≠ i).
Proof.
  intros Hc. unfold iface_idx. destruct (so_columns _ _ _ _ Hc) as (_ & _ & _ & ->).
  destruct (list_find _ dir) as [[idx o]|] eqn:E; cbn.
  - left. apply list_find_Some in E as (Hi & Ho & _). destruct o as [e|]; [|done]. injection Ho as Ho. by exists idx, e.
  - right. split; [done|]. intros idx e Hi He. apply list_find_None in E. rewrite list.Forall_forall in E.
    apply (E (Some e)); [by eapply list_elem_of_lookup_2|]. cbn. by rewrite He.
Qed.

Lemma rec_interface dir idx e row :
  in_slot idx row → dir !! idx = Some (Some e) → ha_receiving_interface (soa_rec dir row) = de_interface e.
Proof. intros Hr He. cbn. unfold interface_at. by rewrite Hr, Nat2Z.id, He. Qed.

Lemma slot_iff rows dir idx e row :
  soa_ok rows dir → row ∈ rows → dir !! idx = Some (Some e) →
  in_slot idx row ↔ ha_receiving_interface (soa_rec dir row) = de_interface e.
Proof.
  intros Hok Hrow He. destruct (sk_rows _ _ Hok row Hrow) as (j & ej & Hj & Hej). split.
  - intros Hi. by apply (rec_interface dir idx).
  - intros Hi. rewrite (rec_interface dir j ej row Hj Hej) in Hi. by rewrite <- (sk_inj _ _ Hok j idx ej e Hej He Hi).
Qed.

Lemma slot_recs rows dir idx e :
  soa_ok rows dir → dir !! idx = Some (Some e) →
  soa_rec dir <$> filter (in_slot idx) rows = filter (on_interface (de_interface e)) (soa_rec dir <$> rows).
Proof.
  intros Hok He. apply filter_through. intros row Hrow. by apply (slot_iff rows).
Qed.

Lemma no_slot_recs rows dir i :
  soa_ok rows dir → (∀ idx e, dir !! idx = Some (Some e) → de_interface e ≠ i) →
  ∀ r, r ∈ soa_rec dir <$> rows → ha_receiving_interface r ≠ i.
Proof.
  intros Hok Hno r (row & -> & Hrow)%list_elem_of_fmap. destruct (sk_rows _ _ Hok row Hrow) as (idx & e & Hidx & He).
  rewrite (rec_interface dir idx e row Hidx He). by eapply Hno.
Qed.

(** A directory entry changed, with the rows of that slot. *)
Lemma recs_same dir idx x rows rows' :
  soa_ok rows dir → (∀ row, row ∈ rows' → row ∈ rows) →
  (∀ row, row ∈ rows' → in_slot idx row → ∃ e e', dir !! idx = Some (Some e) ∧ x = Some e' ∧ de_interface e' = de_interface e) →
  soa_rec (<[idx := x]> dir) <$> rows' = soa_rec dir <$> rows'.
Proof.
  intros Hok Hsub Hx. apply list_fmap_ext. intros k row Hk%list_elem_of_lookup_2.
  destruct (sk_rows _ _ Hok row (Hsub row Hk)) as (j & e & Hj & He). unfold soa_rec. f_equal. unfold interface_at.
  rewrite Hj, Nat2Z.id. destruct (decide (idx = j)) as [->|Hne]; [|by rewrite list_lookup_insert_ne].
  rewrite list_lookup_insert_eq by (by eapply lookup_lt_Some). destruct (Hx row Hk Hj) as (e1 & e2 & He1 & -> & ->). by rewrite He1.
Qed.

Lemma soa_ok_change rows dir rows' idx x :
  soa_ok rows dir → idx < length dir →
  filter (λ row, ¬ in_slot idx row) rows' ≡ₚ filter (λ row, ¬ in_slot idx row) rows →
  match x with
  | None => filter (in_slot idx) rows' = []
  | Some e => de_held e = Z.of_nat (length (filter (in_slot idx) rows')) ∧ (0 < de_held e ≤ 256)%Z
      ∧ ∀ j e', j ≠ idx → dir !! j = Some (Some e') → de_interface e' ≠ de_interface e
  end →
  NoDup (held_key <$> (soa_rec (<[idx := x]> dir) <$> rows')) →
  soa_ok rows' (<[idx := x]> dir).
Proof.
  intros Hok Hidx Hrest Hx Hnd. split; [rewrite length_insert; apply Hok|..|done].
  - intros row Hrow. destruct (decide (in_slot idx row)) as [Hin|Hout].
    + destruct x as [e|].
      * exists idx, e. split; [done|]. by apply list_lookup_insert_eq.
      * exfalso. apply (not_elem_of_nil row). rewrite <- Hx. by apply list_elem_of_filter.
    + assert (row ∈ filter (λ row, ¬ in_slot idx row) rows) as [_ Hrow']%list_elem_of_filter.
      { rewrite <- Hrest. by apply list_elem_of_filter. }
      destruct (sk_rows _ _ Hok row Hrow') as (j & e & Hj & He). exists j, e. split; [done|].
      rewrite list_lookup_insert_ne; [done|]. by intros ->.
  - intros i j e e' Hi Hj Heq. destruct (decide (idx = i)) as [<-|Hni], (decide (idx = j)) as [<-|Hnj]; [done| | |].
    + rewrite list_lookup_insert_eq in Hi by done. injection Hi as ->. rewrite list_lookup_insert_ne in Hj by done.
      destruct Hx as (_ & _ & Hx). by destruct (Hx j e' ltac:(done) Hj).
    + rewrite list_lookup_insert_eq in Hj by done. injection Hj as ->. rewrite list_lookup_insert_ne in Hi by done.
      destruct Hx as (_ & _ & Hx). by destruct (Hx i e ltac:(done) Hi).
    + rewrite list_lookup_insert_ne in Hi, Hj by done. by apply (sk_inj _ _ Hok i j e e').
  - intros j e Hj. destruct (decide (idx = j)) as [->|Hne].
    { rewrite list_lookup_insert_eq in Hj by done. injection Hj as ->. tauto. }
    rewrite list_lookup_insert_ne in Hj by done. destruct (sk_count _ _ Hok j e Hj) as [-> Hb]. split; [|done].
    assert (Hf : ∀ l : list SoaRow, filter (in_slot j) l = filter (in_slot j) (filter (λ row, ¬ in_slot idx row) l)).
    { intros l. symmetry. apply list_filter_filter_l. intros row ->. lia. }
    by rewrite (Hf rows'), (Hf rows), Hrest.
Qed.

(** ** The operations *)

Lemma soa_find_from_ok rows idx d n i :
  i + n = length rows →
  (∃ k row, soa_find_from (sr_probe <$> rows) (sr_dest <$> rows) idx d n i = Done (Some k) ∧ rows !! k = Some row
     ∧ pr_iface_idx (sr_probe row) = idx ∧ sr_dest row = d)
  ∨ (soa_find_from (sr_probe <$> rows) (sr_dest <$> rows) idx d n i = Done None
     ∧ ∀ k row, i ≤ k → rows !! k = Some row → pr_iface_idx (sr_probe row) = idx → sr_dest row ≠ d).
Proof.
  revert i. induction n as [|n IH]; intros i Hn; cbn [soa_find_from].
  - right. split; [done|]. intros k row Hk Hrow%lookup_lt_Some. lia.
  - destruct (lookup_lt_is_Some_2 rows i) as [row Hrow]; [lia|].
    rewrite (index_lookup _ i (sr_probe row)) by (by rewrite list_lookup_fmap, Hrow). cbn [mbind run_bind].
    rewrite (index_lookup _ i (sr_dest row)) by (by rewrite list_lookup_fmap, Hrow).
    destruct (Z.eqb_spec (pr_iface_idx (sr_probe row)) idx) as [Hidx|Hidx]; cbn [mbind run_bind];
      [destruct (bool_decide_reflect (sr_dest row = d)) as [Hd|Hd]|]; [left; by exists i, row|..];
      (destruct (IH (S i) ltac:(lia)) as [Hf|[Hf Hno]]; [by left|right]; split; [done|]; intros k row' Hk Hrow' Hi;
       destruct (decide (k = i)) as [->|]; [congruence|apply (Hno k); [lia|done|done]]).
Qed.

Lemma soa_rep_ok c cap recs :
  soa_table_rep c cap recs → NoDup (held_key <$> recs)
  ∧ (∀ i, length (filter (on_interface i) recs) ≤ MAX_HELD_ANNOUNCES_PER_INTERFACE) ∧ (∀ n, cap = Some n → length recs ≤ n).
Proof.
  intros (n & rows & dir & -> & Hc & Hok & Hp). split; [rewrite <- Hp; apply Hok|]. split.
  - intros i. rewrite <- Hp. destruct (iface_idx_ok c n rows dir i Hc) as [(idx & e & _ & He & <-)|[_ Hno]].
    + rewrite <- (slot_recs rows dir idx e Hok He), length_fmap. destruct (sk_count _ _ Hok idx e He) as [E Hb].
      unfold MAX_HELD_ANNOUNCES_PER_INTERFACE. lia.
    + rewrite filter_no_member by (by apply no_slot_recs). cbn. lia.
  - intros m [= <-]. rewrite <- Hp, length_fmap. by destruct (so_bounds _ _ _ _ Hc) as (_ & ? & _).
Qed.

(** The row that an announce is stored as. *)
Definition soa_row (idx : nat) (r : HeldAnnounce) : SoaRow :=
  mkSoaRow (mkProbe (Z.of_nat idx) (ha_hops r)) (ha_destination r) (cold_of r).

Lemma soa_row_rec dir idx e r : dir !! idx = Some (Some e) → ha_receiving_interface r = de_interface e → soa_rec dir (soa_row idx r) = r.
Proof. intros He Hr. destruct r as [a b g f h l]. unfold soa_rec, soa_row, interface_at. cbn in *. by rewrite Nat2Z.id, He, Hr. Qed.

Lemma soa_overwritten rows dir k row idx e r' :
  soa_ok rows dir → rows !! k = Some row → in_slot idx row → dir !! idx = Some (Some e) → held_key r' = held_key (soa_rec dir row) →
  soa_ok (<[k := soa_row idx r']> rows) dir
  ∧ soa_rec dir <$> <[k := soa_row idx r']> rows ≡ₚ r' :: (soa_rec dir <$> swap_removed rows k).
Proof.
  intros Hok Hrow Hidx He Hkey. pose proof (swap_removed_perm rows k row Hrow) as Hout.
  pose proof (overwritten_perm rows k row (soa_row idx r') Hrow) as Hperm. revert Hout Hperm. generalize (swap_removed rows k) as rest. intros rest Hout Hperm.
  assert (Erec : soa_rec dir (soa_row idx r') = r').
  { apply (soa_row_rec dir idx e r' He). rewrite <- (rec_interface dir idx e row Hidx He). by injection Hkey. }
  split; [|rewrite Hperm; cbn; by rewrite Erec].
  replace dir with (<[idx := Some e]> dir) by (by apply list_insert_id). apply (soa_ok_change rows dir); [done|by eapply lookup_lt_Some| | |].
  - rewrite Hperm, <- Hout. by rewrite !filter_cons_False by (by intros []).
  - destruct (sk_count _ _ Hok idx e He) as [-> Hb]. split; [|split; [done|]].
    + rewrite Hperm. rewrite <- Hout at 1. by rewrite !filter_cons_True.
    + intros j e' Hj He' Heq. destruct Hj. by apply (sk_inj _ _ Hok j idx e' e).
  - rewrite (list_insert_id dir) by done. rewrite list_fmap_insert, Erec, list_fmap_insert, Hkey.
    rewrite (list_insert_id (held_key <$> _)); [apply Hok|]. by rewrite !list_lookup_fmap, Hrow.
Qed.

Lemma soa_find_ok c cap recs i d :
  soa_table_rep c cap recs →
  (∃ slot r rest, soa_find c i d = Done (Some slot) ∧ recs ≡ₚ r :: rest ∧ held_key r = (i, d)
     ∧ soa_app_data_handle c slot = Done (ha_handle r)
     ∧ ∀ r', held_key r' = (i, d) → ∃ c', soa_overwrite c slot r' = Done c' ∧ soa_table_rep c' cap (r' :: rest))
  ∨ (soa_find c i d = Done None ∧ (i, d) ∉ held_key <$> recs).
Proof.
  intros (n & rows & dir & -> & Hc & Hok & Hp). destruct (so_columns _ _ _ _ Hc) as (Epr & Ede & Eco & Edi). unfold soa_find.
  destruct (iface_idx_ok c n rows dir i Hc) as [(idx & e & -> & He & Hi)|[-> Hno]].
  2:{ right. split; [done|]. rewrite <- Hp. intros (r & Hk & Hr)%list_elem_of_fmap. apply (no_slot_recs rows dir i Hok Hno r Hr).
      by injection Hk. }
  rewrite (as_u16_slot rows dir idx _ Hok He), Epr, Ede. unfold soa_len. rewrite Epr, length_fmap.
  destruct (soa_find_from_ok rows (Z.of_nat idx) d (length rows) 0 eq_refl) as [(k & row & -> & Hrow & Hidx & Hd)|[-> Hno]].
  - left. pose proof (lookup_lt_Some _ _ _ Hrow) as Hk. assert (Hkey : held_key (soa_rec dir row) = (i, d)).
    { unfold held_key. by rewrite (rec_interface dir idx e row Hidx He), Hi, <- Hd. }
    exists k, (soa_rec dir row), (soa_rec dir <$> swap_removed rows k). split; [done|].
    split; [by rewrite <- Hp, <- (swap_removed_perm rows k row Hrow) at 1|]. split; [done|].
    split; [unfold soa_app_data_handle; by rewrite Eco, (index_lookup _ k (sr_cold row)) by (by rewrite list_lookup_fmap, Hrow)|].
    intros r' Hr'. unfold soa_overwrite. rewrite Epr, (index_lookup _ k (sr_probe row)) by (by rewrite list_lookup_fmap, Hrow).
    cbn [mbind run_bind].
    destruct (so_overwrite_ok c n rows dir k (mkProbe (pr_iface_idx (sr_probe row)) (ha_hops r')) (ha_destination r') (cold_of r') Hc Hk)
      as (c' & -> & Hc'). eexists. split; [done|]. rewrite <- Hkey in Hr'. rewrite Hidx in Hc'.
    destruct (soa_overwritten rows dir k row idx e r' Hok Hrow Hidx He Hr') as [Hok' Hp'].
    exists n, (<[k := soa_row idx r']> rows), dir. done.
  - right. split; [done|]. rewrite <- Hp. intros (r & Hk & (row & -> & Hrow)%list_elem_of_fmap)%list_elem_of_fmap.
    apply list_elem_of_lookup in Hrow as Hrow2. destruct Hrow2 as [k Hkk]. injection Hk as Hk1 Hk2.
    apply (Hno k row); [lia|done| |done]. apply (slot_iff rows dir idx e row Hok Hrow He). cbn. by rewrite <- Hk1.
Qed.

Lemma soa_len_for_ok c cap recs i : soa_table_rep c cap recs → soa_len_for c i = Done (length (filter (on_interface i) recs)).
Proof.
  intros (n & rows & dir & -> & Hc & Hok & Hp). unfold soa_len_for. rewrite <- Hp. destruct (so_columns _ _ _ _ Hc) as (_ & _ & _ & Edi).
  destruct (iface_idx_ok c n rows dir i Hc) as [(idx & e & -> & He & <-)|[-> Hno]].
  - rewrite Edi, (index_lookup _ _ _ He). cbn [mbind run_bind]. destruct (sk_count _ _ Hok idx e He) as [-> _].
    by rewrite Nat2Z.id, <- (slot_recs rows dir idx e Hok He), length_fmap.
  - by rewrite filter_no_member by (by apply no_slot_recs).
Qed.

(** A row stored in the slot of its interface, taken already or free. *)
Lemma soa_pushed rows dir idx i r :
  soa_ok rows dir → idx < length dir → ha_receiving_interface r = i → held_key r ∉ held_key <$> (soa_rec dir <$> rows) →
  (∀ e, dir !! idx = Some (Some e) → de_interface e = i) →
  (∀ j e, j ≠ idx → dir !! j = Some (Some e) → de_interface e ≠ i) →
  (Z.of_nat (length (filter (in_slot idx) rows)) < 256)%Z →
  let dir' := <[idx := Some (mkDirEntry i (Z.of_nat (length (filter (in_slot idx) rows)) + 1))]> dir in
  soa_ok (rows ++ [soa_row idx r]) dir' ∧ soa_rec dir' <$> (rows ++ [soa_row idx r]) ≡ₚ r :: (soa_rec dir <$> rows).
Proof.
  intros Hok Hidx Hi Hnew Hname Hothers Hroom dir'. assert (Hcons : rows ++ [soa_row idx r] ≡ₚ soa_row idx r :: rows) by (by rewrite Permutation_app_comm).
  assert (Hrecs : soa_rec dir' <$> (rows ++ [soa_row idx r]) ≡ₚ r :: (soa_rec dir <$> rows)).
  { rewrite Hcons. cbn [fmap list_fmap]. unfold dir'. rewrite (recs_same dir idx _ rows rows Hok); [|done|].
    - f_equiv. eapply soa_row_rec; [by apply list_lookup_insert_eq|done].
    - intros row Hrow Hslot. destruct (sk_rows _ _ Hok row Hrow) as (j & e & Hj & He). assert (j = idx) as -> by lia.
      exists e, (mkDirEntry i (Z.of_nat (length (filter (in_slot idx) rows)) + 1)). rewrite (Hname e He). done. }
  split; [|done]. apply (soa_ok_change rows dir); [done|done| | |].
  - rewrite Hcons. by rewrite filter_cons_False by (by intros []).
  - rewrite Hcons, filter_cons_True by done. cbn. split; [lia|]. split; [lia|]. exact Hothers.
  - fold dir'. rewrite Hrecs. cbn. constructor; [done|apply Hok].
Qed.

(** With every slot of the directory taken there are as many announces as slots. *)
Lemma full_directory rows dir : soa_ok rows dir → Forall (λ o, o ≠ None) dir → length dir ≤ length rows.
Proof.
  intros Hok Hall. rewrite <- (length_seq (length dir) 0), <- (length_fmap (λ row, Z.to_nat (pr_iface_idx (sr_probe row))) rows).
  apply submseteq_length, NoDup_submseteq; [apply NoDup_seq|]. intros idx [_ Hidx]%elem_of_seq.
  destruct (lookup_lt_is_Some_2 dir idx Hidx) as [[e|] He].
  - destruct (sk_count _ _ Hok idx e He) as [E Hb]. destruct (filter (in_slot idx) rows) as [|row l] eqn:Ef; [cbn in E; lia|].
    assert (row ∈ filter (in_slot idx) rows) as [Hslot Hrow]%list_elem_of_filter by (rewrite Ef; left).
    apply list_elem_of_fmap. exists row. split; [|done]. by rewrite Hslot, Nat2Z.id.
  - rewrite list.Forall_forall in Hall. by destruct (Hall None (list_elem_of_lookup_2 _ _ _ He)).
Qed.

(** The end of [insert]: the row pushed and counted in the directory. *)
Lemma soa_stored c n rows dir idx i r recs :
  so_rep c n rows (<[idx := Some (mkDirEntry i (Z.of_nat (length (filter (in_slot idx) rows))))]> dir) → soa_ok rows dir →
  soa_rec dir <$> rows ≡ₚ recs → idx < length dir → length rows < n → ha_receiving_interface r = i →
  held_key r ∉ held_key <$> (soa_rec dir <$> rows) →
  (∀ e, dir !! idx = Some (Some e) → de_interface e = i) →
  (∀ j e, j ≠ idx → dir !! j = Some (Some e) → de_interface e ≠ i) →
  (Z.of_nat (length (filter (in_slot idx) rows)) < 256)%Z →
  ∃ c', (let c := so_push c (mkProbe (Z.of_nat idx) (ha_hops r)) (ha_destination r) (cold_of r) in
         entry ← index (so_dir c) idx;
         c ← match entry with
             | Some entry => entry ← add_held entry 1; so_set_dir c idx (Some entry)
             | None => Done c
             end;
         Done (Ok () : result HeldFull (), c)) = Done (Ok (), c') ∧ soa_table_rep c' (Some n) (r :: recs).
Proof.
  intros Hc Hok Hp Hidx Hpool Hi Hnew Hname Hothers Hroom.
  pose proof (so_push_ok c n rows _ (mkProbe (Z.of_nat idx) (ha_hops r)) (ha_destination r) (cold_of r) Hc Hpool) as Hc1. cbv zeta.
  destruct (so_columns _ _ _ _ Hc1) as (_ & _ & _ & ->). rewrite (index_lookup _ idx _ (list_lookup_insert_eq dir idx _ Hidx)).
  cbn [mbind run_bind]. unfold add_held. cbn [de_held de_interface]. rewrite bool_decide_true by width. cbn [mbind run_bind].
  destruct (so_bounds _ _ _ _ Hc) as (Hdl & _ & _). rewrite length_insert in Hdl.
  destruct (so_set_dir_ok _ n _ _ idx (Some (mkDirEntry i (Z.of_nat (length (filter (in_slot idx) rows)) + 1))) Hc1 ltac:(lia)) as (c' & -> & Hc').
  cbn [mbind run_bind]. eexists. split; [done|]. rewrite list_insert_insert_eq in Hc'.
  destruct (soa_pushed rows dir idx i r Hok Hidx Hi Hnew Hname Hothers Hroom) as [Hok' Hp'].
  eexists n, (rows ++ [soa_row idx r]), _. split; [done|]. split; [exact Hc'|]. split; [exact Hok'|]. by rewrite Hp', Hp.
Qed.

Lemma soa_insert_ok c cap recs r :
  soa_table_rep c cap recs → held_key r ∉ held_key <$> recs →
  (∃ c', soa_insert c r = Done (Ok (), c') ∧ soa_table_rep c' cap (r :: recs))
  ∨ (∃ full c', soa_insert c r = Done (Err full, c') ∧ soa_table_rep c' cap recs
      ∧ match full with
        | InterfaceAtCap => length (filter (on_interface (ha_receiving_interface r)) recs) = MAX_HELD_ANNOUNCES_PER_INTERFACE
        | PoolFull => cap = Some (length recs)
        end).
Proof.
  intros (n & rows & dir & -> & Hc & Hok & Hp) Hnew. unfold soa_insert, claim_iface_idx.
  destruct (so_bounds _ _ _ _ Hc) as (Hdl & Hrl & Hcap). destruct (so_columns _ _ _ _ Hc) as (Epr & _ & _ & Edi).
  assert (Hlen : length recs = length rows) by (by rewrite <- Hp, length_fmap). rewrite <- Hp in Hnew.
  set (i := ha_receiving_interface r) in *.
  destruct (iface_idx_ok c n rows dir i Hc) as [(idx & e & -> & He & Hi)|[-> Hno]].
  - cbn [mbind run_bind]. rewrite Edi, (index_lookup _ _ _ He). cbn [mbind run_bind].
    pose proof (lookup_lt_Some _ _ _ He) as Hidx. destruct (sk_count _ _ Hok idx e He) as [Hheld Hb].
    assert (Hcount : length (filter (on_interface i) recs) = length (filter (in_slot idx) rows)).
    { by rewrite <- Hp, <- Hi, <- (slot_recs rows dir idx e Hok He), length_fmap. }
    destruct (Z.leb_spec (Z.of_nat MAX_HELD_ANNOUNCES_PER_INTERFACE) (de_held e)) as [Hfull|Hfull].
    { right. eexists InterfaceAtCap, _. split; [done|]. split; [by exists n, rows, dir|]. unfold MAX_HELD_ANNOUNCES_PER_INTERFACE in *. lia. }
    unfold soa_len. rewrite Epr, length_fmap, Hcap. destruct (Nat.leb_spec n (length rows)) as [Hpool|Hpool].
    { right. rewrite (proj2 (Z.eqb_neq _ _)) by lia. cbn [mbind run_bind]. eexists PoolFull, _. split; [done|].
      split; [by exists n, rows, dir|]. f_equal. lia. }
    left. rewrite (as_u16_slot rows dir idx _ Hok He). apply (soa_stored c n rows dir idx i r recs); try done.
    + destruct e as [name held]. cbn in *. by rewrite <- Hheld, <- Hi, list_insert_id.
    + intros e' He'. congruence.
    + intros j e' Hj He' Heq. destruct Hj. apply (sk_inj _ _ Hok j idx e' e He' He). congruence.
    + unfold MAX_HELD_ANNOUNCES_PER_INTERFACE in *. lia.
  - rewrite Edi. destruct (list_find (λ slot, slot = None) dir) as [[idx o]|] eqn:Efree; cbn [fmap option_fmap option_map fst].
    2:{ right. cbn [mbind run_bind]. eexists PoolFull, _. split; [done|]. split; [by exists n, rows, dir|].
        apply list_find_None in Efree. pose proof (full_directory rows dir Hok Efree). f_equal. lia. }
    apply list_find_Some in Efree as (He & -> & _). pose proof (lookup_lt_Some _ _ _ He) as Hidx.
    destruct (so_set_dir_ok c n rows dir idx (Some (mkDirEntry i 0)) Hc ltac:(lia)) as (c1 & -> & Hc1).
    cbn [mbind run_bind]. destruct (so_columns _ _ _ _ Hc1) as (Epr1 & _ & _ & Edi1). destruct (so_bounds _ _ _ _ Hc1) as (_ & _ & Hcap1).
    rewrite Edi1, (index_lookup _ _ _ (list_lookup_insert_eq dir idx (Some (mkDirEntry i 0)) Hidx)). cbn [mbind run_bind de_held].
    unfold soa_len. rewrite (proj2 (Z.leb_gt _ _)) by (unfold MAX_HELD_ANNOUNCES_PER_INTERFACE; lia). rewrite Epr1, length_fmap, Hcap1.
    destruct (Nat.leb_spec n (length rows)) as [Hpool|Hpool].
    { right. cbn [Z.eqb]. destruct (so_set_dir_ok c1 n rows _ idx None Hc1 ltac:(lia)) as (c2 & -> & Hc2). cbn [mbind run_bind].
      eexists PoolFull, _. split; [done|]. rewrite list_insert_insert_eq, (list_insert_id dir) in Hc2 by done.
      split; [by exists n, rows, dir|]. f_equal. lia. }
    assert (Hnone : filter (in_slot idx) rows = []).
    { apply filter_no_member. intros row Hrow Hslot. destruct (sk_rows _ _ Hok row Hrow) as (j & e & Hj & Hej). assert (j = idx) as -> by lia.
      congruence. }
    left. rewrite (as_u16_slot rows dir idx _ Hok He). apply (soa_stored c1 n rows dir idx i r recs); rewrite ?Hnone; try done.
    + intros e' He'. congruence.
    + intros j e' Hj He'. by apply (Hno j).
Qed.

(** Rows of a slot removed, and its directory entry counted down or cleared. *)
Lemma soa_removed rows dir rows' idx e x :
  soa_ok rows dir → dir !! idx = Some (Some e) → rows' ⊆+ rows →
  filter (λ row, ¬ in_slot idx row) rows' ≡ₚ filter (λ row, ¬ in_slot idx row) rows →
  match x with
  | None => filter (in_slot idx) rows' = []
  | Some e' => de_interface e' = de_interface e ∧ de_held e' = Z.of_nat (length (filter (in_slot idx) rows')) ∧ (0 < de_held e')%Z
  end →
  soa_ok rows' (<[idx := x]> dir) ∧ soa_rec (<[idx := x]> dir) <$> rows' = soa_rec dir <$> rows'.
Proof.
  intros Hok He Hsub Hrest Hx.
  assert (Hrecs : soa_rec (<[idx := x]> dir) <$> rows' = soa_rec dir <$> rows').
  { apply (recs_same dir idx x rows); [done|intros row Hrow; by eapply elem_of_submseteq|]. intros row Hrow Hslot. destruct x as [e'|].
    - exists e, e'. by destruct Hx as [? _].
    - exfalso. apply (not_elem_of_nil row). rewrite <- Hx. by apply list_elem_of_filter. }
  split; [|done]. apply (soa_ok_change rows dir); [done|by eapply lookup_lt_Some|done| |].
  - destruct x as [e'|]; [|done]. destruct Hx as (Hname & Hheld & Hpos). split; [done|]. split.
    + destruct (sk_count _ _ Hok idx e He) as [Hall Hb]. split; [done|]. rewrite Hheld.
      apply submseteq_Permutation in Hsub as [gone Hgone]. rewrite Hgone, list.filter_app, length_app in Hall. lia.
    + rewrite Hname. intros j e1 Hj He1 Heq. destruct Hj. by apply (sk_inj _ _ Hok j idx e1 e).
  - rewrite Hrecs. eapply submseteq_NoDup; [apply Hok|]. by do 2 apply fmap_submseteq.
Qed.

Lemma in_slot_candidates rows idx k p :
  (k, p) ∈ filter (λ p, pr_iface_idx p.2 = idx) (imap pair (sr_probe <$> rows))
  ↔ ∃ row, rows !! k = Some row ∧ sr_probe row = p ∧ pr_iface_idx p = idx.
Proof.
  rewrite list_elem_of_filter, elem_of_lookup_imap. cbn. split.
  - intros (Hp & i & q & [= <- <-] & Hi). rewrite list_lookup_fmap in Hi. destruct (rows !! k) as [row|]; [|done]. injection Hi as Hi. by exists row.
  - intros (row & Hk & <- & Hp). split; [done|]. exists k, (sr_probe row). split; [done|]. by rewrite list_lookup_fmap, Hk.
Qed.

Lemma soa_take_ok c cap recs i :
  soa_table_rep c cap recs →
  (∃ r rest c', soa_take_lowest_hop_for c i = Done (Some r, c') ∧ recs ≡ₚ r :: rest ∧ ha_receiving_interface r = i
     ∧ (∀ r', r' ∈ recs → ha_receiving_interface r' = i → (ha_hops r ≤ ha_hops r')%Z) ∧ soa_table_rep c' cap rest)
  ∨ (soa_take_lowest_hop_for c i = Done (None, c) ∧ ∀ r, r ∈ recs → ha_receiving_interface r ≠ i).
Proof.
  intros (n & rows & dir & -> & Hc & Hok & Hp). destruct (so_columns _ _ _ _ Hc) as (Epr & Ede & Eco & Edi). unfold soa_take_lowest_hop_for.
  destruct (iface_idx_ok c n rows dir i Hc) as [(idx & e & -> & He & Hi)|[-> Hno]].
  2:{ right. split; [done|]. intros r Hr. rewrite <- Hp in Hr. by apply (no_slot_recs rows dir). }
  left. rewrite (as_u16_slot rows dir idx _ Hok He), Epr. destruct (sk_count _ _ Hok idx e He) as [Hheld Hb].
  pose proof (min_by_key_ok (λ p, pr_hops p.2) (filter (λ p, pr_iface_idx p.2 = Z.of_nat idx) (imap pair (sr_probe <$> rows)))) as Hmin.
  destruct (min_by_key _ _) as [[slot p]|].
  2:{ exfalso. destruct (filter (in_slot idx) rows) as [|row l] eqn:Ef; [cbn in Hheld; lia|].
      assert (row ∈ filter (in_slot idx) rows) as [Hslot [k Hk]%list_elem_of_lookup]%list_elem_of_filter by (rewrite Ef; left).
      apply (not_elem_of_nil (k, sr_probe row)). rewrite <- Hmin. apply in_slot_candidates. by exists row. }
  destruct Hmin as [(row & Hrow & <- & Hslot)%in_slot_candidates Hmin]. pose proof (lookup_lt_Some _ _ _ Hrow) as Hk.
  pose proof (swap_removed_perm rows slot row Hrow) as Hout. pose proof (swap_removed_sub rows slot row Hrow) as Hsub.
  unfold reconstruct. rewrite Eco, Ede, Epr. rewrite !(index_lookup _ slot _) by (rewrite list_lookup_fmap, Hrow; done). cbn [mbind run_bind].
  destruct (so_swap_remove_ok c n rows dir slot Hc Hk) as (c1 & -> & Hc1). cbn [mbind run_bind].
  revert Hout Hsub Hc1. generalize (swap_removed rows slot) as left. intros left Hout Hsub Hc1.
  destruct (so_columns _ _ _ _ Hc1) as (_ & _ & _ & ->). rewrite (index_lookup _ _ _ He). cbn [mbind run_bind].
  unfold add_held. rewrite bool_decide_true by width. cbn [mbind run_bind de_held de_interface].
  set (x := if (de_held e + -1 =? 0)%Z then None else Some (mkDirEntry (de_interface e) (de_held e + -1))).
  destruct (so_bounds _ _ _ _ Hc) as (Hdl & _ & _). pose proof (lookup_lt_Some _ _ _ He) as Hidx.
  destruct (so_set_dir_ok c1 n _ dir idx x Hc1 ltac:(lia)) as (c2 & -> & Hc2). cbn [mbind run_bind].
  destruct (soa_removed rows dir left idx e x Hok He Hsub) as [Hok' Hrecs].
  { rewrite <- Hout. by rewrite filter_cons_False by (by intros []). }
  { rewrite <- Hout, filter_cons_True in Hheld by done. cbn [length] in Hheld. unfold x. destruct (Z.eqb_spec (de_held e + -1) 0) as [H0'|H0'].
    - apply length_zero_iff_nil. lia.
    - cbn. split; [done|lia]. }
  exists (soa_rec dir row), (soa_rec dir <$> left), c2. split; [|split; [|split; [|split]]].
  - unfold soa_rec. do 3 f_equal. by rewrite <- Hi, <- (rec_interface dir idx e row Hslot He).
  - rewrite <- Hp. by rewrite <- Hout at 1.
  - by rewrite (rec_interface dir idx e row Hslot He).
  - intros r Hr Hri. rewrite <- Hp in Hr. apply list_elem_of_fmap in Hr as (row' & -> & Hrow').
    rewrite <- Hi in Hri. apply (slot_iff rows dir idx e row' Hok Hrow' He) in Hri. apply list_elem_of_lookup in Hrow' as [k Hk'].
    apply (Hmin (k, sr_probe row')). apply in_slot_candidates. by exists row'.
  - exists n, left, (<[idx := x]> dir). split; [done|]. split; [exact Hc2|]. split; [exact Hok'|]. by rewrite Hrecs.
Qed.

Lemma soa_drop_loop_ok fuel c n rows dir i idx :
  so_rep c n rows dir → i ≤ length rows → length rows - i < fuel →
  ∃ c', soa_drop_loop fuel c i idx
      = Done ((λ row, maybe_app_data_handle (hc_entry (sr_cold row))) <$> (sweep (λ row, pr_iface_idx (sr_probe row) =? idx)%Z fuel i rows).2, c')
    ∧ so_rep c' n (sweep (λ row, pr_iface_idx (sr_probe row) =? idx)%Z fuel i rows).1 dir.
Proof.
  revert c rows i. induction fuel as [|fuel IH]; intros c rows i Hc Hi Hf; [lia|]. destruct (so_columns _ _ _ _ Hc) as (Epr & _ & Eco & _).
  cbn [soa_drop_loop sweep]. unfold soa_len. rewrite Epr, Eco, length_fmap. destruct (Nat.ltb_spec i (length rows)) as [Hlt|Hge].
  - destruct (lookup_lt_is_Some_2 rows i Hlt) as [row Hrow]. rewrite Hrow.
    rewrite (index_lookup _ i (sr_probe row)) by (by rewrite list_lookup_fmap, Hrow). cbn [mbind run_bind].
    destruct (pr_iface_idx (sr_probe row) =? idx)%Z; [|apply IH; [done|lia|lia]].
    rewrite (index_lookup _ i (sr_cold row)) by (by rewrite list_lookup_fmap, Hrow). cbn [mbind run_bind].
    destruct (so_swap_remove_ok c n rows dir i Hc Hlt) as (c1 & -> & Hc1). cbn [mbind run_bind].
    pose proof (length_swap_removed rows i Hlt) as Hl. destruct (IH c1 _ i Hc1) as (c2 & -> & Hc2); [lia|lia|]. cbn [mbind run_bind].
    eexists. split; [done|exact Hc2].
  - rewrite lookup_ge_None_2 by lia. cbn. by exists c.
Qed.

Lemma soa_drop_ok c cap recs i :
  soa_table_rep c cap recs →
  ∃ handles c', soa_drop_interface c i = Done (handles, c') ∧ handles ≡ₚ ha_handle <$> filter (on_interface i) recs
    ∧ soa_table_rep c' cap (filter (λ r, ha_receiving_interface r ≠ i) recs).
Proof.
  intros (n & rows & dir & -> & Hc & Hok & Hp). unfold soa_drop_interface.
  destruct (iface_idx_ok c n rows dir i Hc) as [(idx & e & -> & He & Hi)|[-> Hno]].
  2:{ eexists _, _. split; [done|]. pose proof (no_slot_recs rows dir i Hok Hno) as Hn.
      split; [by rewrite <- Hp, filter_no_member|]. exists n, rows, dir. rewrite <- Hp, filter_present by done. done. }
  rewrite (as_u16_slot rows dir idx _ Hok He). pose proof (so_columns _ _ _ _ Hc) as (Epr & _).
  destruct (soa_drop_loop_ok (S (soa_len c)) c n rows dir 0 (Z.of_nat idx) Hc) as (c1 & E1 & Hc1);
    [lia|unfold soa_len; rewrite Epr, length_fmap; lia|].
  unfold soa_len in E1, Hc1 |- *. rewrite Epr, length_fmap in *. rewrite E1. cbn [mbind run_bind].
  destruct (sweep_all (λ row, pr_iface_idx (sr_probe row) =? Z.of_nat idx)%Z rows) as [Hkept Hgone].
  destruct (sweep _ (S (length rows)) 0 rows) as [kept gone]. cbn [fst snd] in *.
  destruct (so_bounds _ _ _ _ Hc) as (Hdl & _ & _). pose proof (lookup_lt_Some _ _ _ He) as Hidx.
  destruct (so_set_dir_ok c1 n kept dir idx None Hc1 ltac:(lia)) as (c2 & -> & Hc2). cbn [mbind run_bind].
  assert (Hout : kept ≡ₚ filter (λ row, ¬ in_slot idx row) rows).
  { rewrite Hkept. apply eq_perm, list_filter_iff. intros row. by rewrite Z.eqb_neq. }
  assert (Hin : gone ≡ₚ filter (in_slot idx) rows).
  { rewrite Hgone. apply eq_perm, list_filter_iff. intros row. by rewrite Z.eqb_eq. }
  eexists _, _. split; [done|]. split.
  - rewrite <- Hp, <- Hi, <- (slot_recs rows dir idx e Hok He), Hin, <- list_fmap_compose. done.
  - destruct (soa_removed rows dir kept idx e None Hok He) as [Hok' Hrecs].
    + rewrite Hout. rewrite <- (filter_parts (in_slot idx) rows) at 2. by apply submseteq_inserts_l.
    + rewrite Hout. by apply eq_perm, list_filter_filter_r.
    + apply filter_no_member. intros row Hrow. rewrite Hout in Hrow. by apply list_elem_of_filter in Hrow as [? _].
    + exists n, kept, (<[idx := None]> dir). split; [done|]. split; [done|]. split; [done|]. rewrite Hrecs, Hout, <- Hp.
      apply eq_perm, filter_through. intros row Hrow. by rewrite (slot_iff rows dir idx e row Hok Hrow He), Hi.
Qed.

Lemma soa_interfaces_ok c cap recs :
  soa_table_rep c cap recs →
  NoDup (soa_interfaces c) ∧ ∀ i, i ∈ soa_interfaces c ↔ ∃ r, r ∈ recs ∧ ha_receiving_interface r = i.
Proof.
  intros (n & rows & dir & -> & Hc & Hok & Hp). unfold soa_interfaces. destruct (so_columns _ _ _ _ Hc) as (_ & _ & _ & ->). split.
  - assert (Hinj := sk_inj _ _ Hok). clear -Hinj. induction dir as [|o dir IH]; [constructor|].
    assert (Hnd : NoDup (omap (λ slot, de_interface <$> slot) dir)).
    { apply IH. intros i j e e' Hi Hj Heq. by injection (Hinj (S i) (S j) e e' Hi Hj Heq). }
    destruct o as [e|]; [|done]. cbn. constructor; [|done]. intros ([e'|] & [j Hj]%list_elem_of_lookup & Heq)%list_elem_of_omap; [|done].
    injection Heq as Heq. by pose proof (Hinj 0 (S j) e e' eq_refl Hj ltac:(done)).
  - intros i. rewrite list_elem_of_omap. split.
    + intros ([e|] & [idx He]%list_elem_of_lookup & Heq); [|done]. injection Heq as Heq.
      destruct (sk_count _ _ Hok idx e He) as [Hheld Hb]. destruct (filter (in_slot idx) rows) as [|row l] eqn:Ef; [cbn in Hheld; lia|].
      assert (row ∈ filter (in_slot idx) rows) as [Hslot Hrow]%list_elem_of_filter by (rewrite Ef; left).
      exists (soa_rec dir row). split; [rewrite <- Hp; apply list_elem_of_fmap; by exists row|]. by rewrite (rec_interface dir idx e row Hslot He).
    + intros (r & Hr & <-). rewrite <- Hp in Hr. apply list_elem_of_fmap in Hr as (row & -> & Hrow).
      destruct (sk_rows _ _ Hok row Hrow) as (idx & e & Hslot & He). exists (Some e). split; [by eapply list_elem_of_lookup_2|].
      by rewrite (rec_interface dir idx e row Hslot He).
Qed.

#[global] Instance soa_table_laws : HeldTableLaws C.
Proof.
  refine {| ht_rep := soa_table_rep |}.
  - exact soa_rep_ok.
  - exact soa_find_ok.
  - exact soa_insert_ok.
  - exact soa_take_ok.
  - exact soa_drop_ok.
  - exact soa_interfaces_ok.
  - exact soa_len_for_ok.
  - intros c cap recs (n & rows & dir & _ & Hc & _ & Hp). destruct (so_columns _ _ _ _ Hc) as (Epr & _). cbn. unfold soa_len.
    by rewrite Epr, <- Hp, !length_fmap.
Defined.

Lemma soa_table_new c cap : so_rep c cap [] (replicate cap None) → (Z.of_nat cap ≤ 65536)%Z → ht_rep c (Some cap) [].
Proof.
  intros Hc Hcap. exists cap, [], (replicate cap None). split; [done|]. split; [done|]. split; [|done].
  split; [by rewrite length_replicate|by intros row ?%not_elem_of_nil|..|constructor].
  - intros i j e e' [Hi _]%lookup_replicate. done.
  - intros i e [Hi _]%lookup_replicate. done.
Qed.
End soa.

(** * The vectors per interface keep the contract *)

Section heap.
Implicit Types (t : list InterfaceHeld) (g : InterfaceHeld).

Record group_ok g : Prop := {
  go_some : ih_held g ≠ [];
  go_max : length (ih_held g) ≤ MAX_HELD_ANNOUNCES_PER_INTERFACE;
  go_interface : ∀ r, r ∈ ih_held g → ha_receiving_interface r = ih_interface g;
  go_nodup : NoDup (held_key <$> ih_held g);
}.

Definition heap_held_ok t : Prop := NoDup (ih_interface <$> t) ∧ ∀ g, g ∈ t → group_ok g.
Definition heap_recs t : list HeldAnnounce := t ≫= ih_held.
Definition heap_held_rep t (cap : option nat) (recs : list HeldAnnounce) : Prop :=
  cap = None ∧ heap_held_ok t ∧ heap_recs t ≡ₚ recs.

Lemma heap_held_ok_perm t t' : t ≡ₚ t' → heap_held_ok t → heap_held_ok t'.
Proof. intros Hp [Hnd Hg]. split; [by rewrite <- Hp|]. intros g. rewrite <- Hp. apply Hg. Qed.

Lemma heap_held_ok_cons g rest :
  heap_held_ok (g :: rest) ↔ group_ok g ∧ (ih_interface g ∉ ih_interface <$> rest) ∧ heap_held_ok rest.
Proof.
  unfold heap_held_ok. cbn. rewrite list.NoDup_cons. split.
  - intros [[Hn Hnd] Hg]. split; [apply Hg; left|]. split; [done|]. split; [done|]. intros g' Hg'. apply Hg. by right.
  - intros (Hg & Hn & Hnd & Hr). split; [done|]. intros g' [->|Hg']%elem_of_cons; [done|by apply Hr].
Qed.

Lemma heap_recs_interface t r : heap_held_ok t → r ∈ heap_recs t → ha_receiving_interface r ∈ ih_interface <$> t.
Proof.
  intros [_ Hg] (g & Hr & Hin)%list_elem_of_bind. apply list_elem_of_fmap. exists g. split; [|done]. by apply (go_interface g (Hg g Hin)).
Qed.

Lemma heap_recs_others g rest r : heap_held_ok (g :: rest) → r ∈ heap_recs rest → ha_receiving_interface r ≠ ih_interface g.
Proof. intros (_ & Hn & Hok)%heap_held_ok_cons Hr Heq. apply Hn. rewrite <- Heq. by apply heap_recs_interface. Qed.

Lemma heap_recs_on g rest :
  heap_held_ok (g :: rest) →
  filter (on_interface (ih_interface g)) (heap_recs (g :: rest)) = ih_held g
  ∧ filter (λ r, ha_receiving_interface r ≠ ih_interface g) (heap_recs (g :: rest)) = heap_recs rest.
Proof.
  intros Hok. pose proof (λ r, heap_recs_others g rest r Hok) as Hothers. apply heap_held_ok_cons in Hok as (Hg & _ & _).
  unfold heap_recs. cbn [mbind list_bind]. rewrite !list.filter_app. split.
  - rewrite filter_present, filter_no_member, app_nil_r; [done|done|]. apply Hg.
  - rewrite filter_no_member, filter_present; [done|done|]. intros r Hr Hne. by apply Hne, (go_interface g Hg).
Qed.

Lemma heap_recs_nodup t : heap_held_ok t → NoDup (held_key <$> heap_recs t).
Proof.
  induction t as [|g rest IH]; intros Hok; [constructor|]. pose proof (λ r, heap_recs_others g rest r Hok) as Hothers.
  apply heap_held_ok_cons in Hok as (Hg & _ & Hok). unfold heap_recs in *. cbn. rewrite fmap_app. apply list.NoDup_app. split; [apply Hg|].
  split; [|by apply IH]. intros k (r & -> & Hr)%list_elem_of_fmap (r' & Heq & Hr')%list_elem_of_fmap.
  apply (Hothers r' Hr'). injection Heq as Heq _. rewrite <- Heq. by apply (go_interface g Hg).
Qed.

(** The group of an interface, with the others. *)
Lemma heap_group t i :
  heap_held_ok t →
  (∃ k g, list_find (λ held, ih_interface held = i) t = Some (k, g) ∧ t !! k = Some g ∧ ih_interface g = i
     ∧ t ≡ₚ g :: swap_removed t k ∧ heap_held_ok (g :: swap_removed t k))
  ∨ (list_find (λ held, ih_interface held = i) t = None ∧ i ∉ ih_interface <$> t).
Proof.
  intros Hok. destruct (list_find _ t) as [[k g]|] eqn:E.
  - left. apply list_find_Some in E as (Hk & Hi & _). exists k, g. pose proof (swap_removed_perm t k g Hk) as Hp.
    split; [done|]. split; [done|]. split; [done|]. split; [done|]. by eapply heap_held_ok_perm.
  - right. split; [done|]. apply list_find_None in E. rewrite list.Forall_forall in E. intros (g & -> & Hg)%list_elem_of_fmap. by apply (E g Hg).
Qed.

Lemma heap_held_rep_of t g rest recs :
  t ≡ₚ g :: rest → heap_held_ok (g :: rest) → ih_held g ++ heap_recs rest ≡ₚ recs → heap_held_rep t None recs.
Proof.
  intros Hp Hok Hr. split; [done|]. split; [by eapply heap_held_ok_perm|]. rewrite <- Hr. unfold heap_recs. by rewrite Hp.
Qed.

Lemma group_changed g rest held :
  heap_held_ok (g :: rest) → held ≠ [] → length held ≤ MAX_HELD_ANNOUNCES_PER_INTERFACE →
  (∀ r, r ∈ held → ha_receiving_interface r = ih_interface g) → NoDup (held_key <$> held) →
  heap_held_ok (mkInterfaceHeld (ih_interface g) held :: rest).
Proof. rewrite !heap_held_ok_cons. intros (_ & Hn & Hok) Hs Hm Hi Hnd. by split; [split|]. Qed.

Lemma heap_rep_ok t cap recs :
  heap_held_rep t cap recs → NoDup (held_key <$> recs)
  ∧ (∀ i, length (filter (on_interface i) recs) ≤ MAX_HELD_ANNOUNCES_PER_INTERFACE) ∧ (∀ n, cap = Some n → length recs ≤ n).
Proof.
  intros (-> & Hok & Hp). split; [rewrite <- Hp; by apply heap_recs_nodup|]. split; [|done]. intros i. rewrite <- Hp.
  destruct (heap_group t i Hok) as [(k & g & _ & Hk & <- & Hperm & Hok')|[_ Hno]].
  - unfold heap_recs. rewrite Hperm. fold (heap_recs (g :: swap_removed t k)). rewrite (proj1 (heap_recs_on g _ Hok')).
    apply heap_held_ok_cons in Hok' as [Hg _]. apply Hg.
  - rewrite filter_no_member; [cbn; unfold MAX_HELD_ANNOUNCES_PER_INTERFACE; lia|]. intros r Hr <-. by apply Hno, heap_recs_interface.
Qed.

Lemma heap_find_ok t cap recs i d :
  heap_held_rep t cap recs →
  (∃ slot r rest, heap_held_find t i d = Done (Some slot) ∧ recs ≡ₚ r :: rest ∧ held_key r = (i, d)
     ∧ heap_held_app_data_handle t slot = Done (ha_handle r)
     ∧ ∀ r', held_key r' = (i, d) → ∃ t', heap_held_overwrite t slot r' = Done t' ∧ heap_held_rep t' cap (r' :: rest))
  ∨ (heap_held_find t i d = Done None ∧ (i, d) ∉ held_key <$> recs).
Proof.
  intros (-> & Hok & Hp). unfold heap_held_find, heap_held_position.
  destruct (heap_group t i Hok) as [(k & g & -> & Hk & Hi & Hperm & Hok')|[-> Hno]]; cbn [fmap option_fmap option_map fst].
  2:{ right. split; [done|]. rewrite <- Hp. intros (r & [= -> ->] & Hr)%list_elem_of_fmap. by apply Hno, heap_recs_interface. }
  rewrite (index_lookup _ _ _ Hk). cbn [mbind run_bind]. pose proof (proj1 (heap_held_ok_cons _ _) Hok') as (Hg & _ & _).
  assert (Hrecs : recs ≡ₚ ih_held g ++ heap_recs (swap_removed t k)) by (rewrite <- Hp; unfold heap_recs; by rewrite Hperm at 1).
  destruct (list_find (λ record, ha_destination record = d) (ih_held g)) as [[s r]|] eqn:E; cbn [fmap option_fmap option_map fst].
  - left. apply list_find_Some in E as (Hs & Hd & _). pose proof (lookup_lt_Some _ _ _ Hs) as Hlt.
    assert (Hkey : held_key r = (i, d)).
    { unfold held_key. by rewrite (go_interface g Hg r (list_elem_of_lookup_2 _ _ _ Hs)), Hi, Hd. }
    exists (k, s), r, (swap_removed (ih_held g) s ++ heap_recs (swap_removed t k)). split; [done|].
    split; [rewrite Hrecs; by rewrite <- (swap_removed_perm _ _ _ Hs) at 1|]. split; [done|]. unfold heap_held_app_data_handle, heap_held_overwrite.
    cbn [fst snd]. rewrite (index_lookup _ _ _ Hk). cbn [mbind run_bind]. rewrite (index_lookup _ _ _ Hs). split; [done|].
    intros r' Hr'. rewrite store_done by done. cbn [mbind run_bind]. rewrite store_done by (by eapply lookup_lt_Some).
    eexists. split; [done|]. pose proof (overwritten_perm _ _ _ r' Hs) as Hin.
    eapply heap_held_rep_of; [by apply (overwritten_perm t k g)| |cbn; rewrite Hin; done]. apply (group_changed g); [done|..].
    + intros Hnil. by rewrite Hnil in Hin; apply Permutation_nil_cons in Hin.
    + rewrite length_insert. apply Hg.
    + intros x Hx. rewrite Hin in Hx. apply elem_of_cons in Hx as [->|Hx].
      * by injection Hr' as -> _.
      * apply Hg. rewrite <- (swap_removed_perm _ _ _ Hs). by right.
    + rewrite list_fmap_insert, Hr', <- Hkey, list_insert_id; [apply Hg|]. by rewrite list_lookup_fmap, Hs.
  - right. split; [done|]. apply list_find_None in E. rewrite list.Forall_forall in E. rewrite Hrecs, fmap_app, elem_of_app.
    intros [(r & Heq & Hr)%list_elem_of_fmap|(r & Heq & Hr)%list_elem_of_fmap].
    + apply (E r Hr). by injection Heq.
    + apply (heap_recs_others g _ r Hok' Hr). injection Heq as Heq _. congruence.
Qed.

Lemma heap_insert_ok t cap recs r :
  heap_held_rep t cap recs → held_key r ∉ held_key <$> recs →
  (∃ t', heap_held_insert t r = Done (Ok (), t') ∧ heap_held_rep t' cap (r :: recs))
  ∨ (∃ full t', heap_held_insert t r = Done (Err full, t') ∧ heap_held_rep t' cap recs
      ∧ match full with
        | InterfaceAtCap => length (filter (on_interface (ha_receiving_interface r)) recs) = MAX_HELD_ANNOUNCES_PER_INTERFACE
        | PoolFull => cap = Some (length recs)
        end).
Proof.
  intros Hrep Hnew. pose proof Hrep as (-> & Hok & Hp). unfold heap_held_insert. set (i := ha_receiving_interface r) in *.
  destruct (heap_group t i Hok) as [(k & g & -> & Hk & Hi & Hperm & Hok')|[-> Hno]].
  - pose proof (proj1 (heap_held_ok_cons _ _) Hok') as (Hg & _ & _). pose proof (proj1 (heap_recs_on g _ Hok')) as Hon.
    assert (Hrecs : recs ≡ₚ heap_recs (g :: swap_removed t k)) by (rewrite <- Hp; unfold heap_recs; by rewrite Hperm at 1).
    destruct (Nat.leb_spec MAX_HELD_ANNOUNCES_PER_INTERFACE (length (ih_held g))) as [Hfull|Hroom].
    + right. eexists InterfaceAtCap, _. split; [done|]. split; [done|]. rewrite Hrecs, <- Hi, Hon. pose proof (go_max g Hg). lia.
    + left. eexists. split; [done|]. eapply heap_held_rep_of; [by apply (overwritten_perm t k g)| |].
      * apply (group_changed g); [done|by destruct (ih_held g)|rewrite length_app; cbn; lia| |].
        -- intros x [Hx|Hx%list_elem_of_singleton]%elem_of_app; [by apply Hg|by subst x].
        -- rewrite fmap_app. apply NoDup_snoc; [apply Hg|]. intros Hin. apply Hnew. rewrite Hrecs.
           unfold heap_recs. cbn. rewrite fmap_app. apply elem_of_app. by left.
      * cbn. rewrite Hrecs. unfold heap_recs. cbn. rewrite <- app_assoc. cbn. by rewrite <- Permutation_middle.
  - left. eexists. split; [done|].
    eapply (heap_held_rep_of _ (mkInterfaceHeld i [r]) t); [by rewrite Permutation_app_comm| |cbn; by rewrite Hp].
    apply heap_held_ok_cons. split; [|done]. split; cbn.
    + done.
    + unfold MAX_HELD_ANNOUNCES_PER_INTERFACE. lia.
    + by intros x ->%list_elem_of_singleton.
    + apply NoDup_singleton.
Qed.

Lemma heap_take_ok t cap recs i :
  heap_held_rep t cap recs →
  (∃ r rest t', heap_held_take_lowest_hop_for t i = Done (Some r, t') ∧ recs ≡ₚ r :: rest ∧ ha_receiving_interface r = i
     ∧ (∀ r', r' ∈ recs → ha_receiving_interface r' = i → (ha_hops r ≤ ha_hops r')%Z) ∧ heap_held_rep t' cap rest)
  ∨ (heap_held_take_lowest_hop_for t i = Done (None, t) ∧ ∀ r, r ∈ recs → ha_receiving_interface r ≠ i).
Proof.
  intros (-> & Hok & Hp). unfold heap_held_take_lowest_hop_for, heap_held_position.
  destruct (heap_group t i Hok) as [(k & g & -> & Hk & Hi & Hperm & Hok')|[-> Hno]]; cbn [fmap option_fmap option_map fst].
  2:{ right. split; [done|]. intros r Hr <-. rewrite <- Hp in Hr. by apply Hno, heap_recs_interface. }
  left. rewrite (index_lookup _ _ _ Hk). cbn [mbind run_bind]. pose proof (proj1 (heap_held_ok_cons _ _) Hok') as (Hg & _ & Hrest).
  assert (Hrecs : recs ≡ₚ heap_recs (g :: swap_removed t k)) by (rewrite <- Hp; unfold heap_recs; by rewrite Hperm at 1).
  pose proof (min_by_key_ok (λ p, ha_hops p.2) (imap pair (ih_held g))) as Hmin. destruct (min_by_key _ _) as [[s r]|].
  2:{ destruct (go_some g Hg). destruct (ih_held g); [done|discriminate Hmin]. }
  destruct Hmin as [(j & x & [= <- <-] & Hs)%elem_of_lookup_imap Hmin]. rewrite (index_lookup _ _ _ Hs). cbn [mbind run_bind].
  rewrite vec_swap_remove_done by (by eapply lookup_lt_Some). cbn [mbind run_bind].
  pose proof (swap_removed_perm _ _ _ Hs) as Hout. pose proof (lookup_lt_Some _ _ _ Hk) as Hlt. rewrite store_done by done. cbn [mbind run_bind].
  set (g' := mkInterfaceHeld (ih_interface g) (swap_removed (ih_held g) s)).
  assert (Hall : ∀ r', r' ∈ recs → ha_receiving_interface r' = i → (ha_hops r ≤ ha_hops r')%Z).
  { intros r' Hr' Hri. assert (Hr2 : r' ∈ ih_held g).
    { rewrite <- (proj1 (heap_recs_on g _ Hok')). apply list_elem_of_filter. split; [by rewrite Hri|by rewrite <- Hrecs]. }
    apply list_elem_of_lookup in Hr2 as [j Hj]. apply (Hmin (j, r')). apply elem_of_lookup_imap. by exists j, r'. }
  assert (Hri : ha_receiving_interface r = i) by (rewrite <- Hi; apply Hg; by eapply list_elem_of_lookup_2).
  exists r, (swap_removed (ih_held g) s ++ heap_recs (swap_removed t k)).
  assert (Hrr : recs ≡ₚ r :: swap_removed (ih_held g) s ++ heap_recs (swap_removed t k)).
  { rewrite Hrecs. unfold heap_recs at 1. cbn [mbind list_bind]. by rewrite <- Hout at 1. }
  destruct (bool_decide_reflect (swap_removed (ih_held g) s = [])) as [Hnil|Hsome]; cbn [mbind run_bind].
  - rewrite vec_swap_remove_done by (by rewrite length_insert). cbn [mbind run_bind]. eexists. split; [done|]. do 3 (split; [done|]).
    assert (Hleft : swap_removed (<[k := g']> t) k ≡ₚ swap_removed t k).
    { apply (Permutation_cons_inv (a := g')). rewrite (swap_removed_perm (<[k := g']> t) k g') by (by apply list_lookup_insert_eq).
      by apply (overwritten_perm t k g). }
    split; [done|]. split; [by eapply heap_held_ok_perm; [symmetry|]|]. unfold heap_recs at 1. by rewrite Hnil, Hleft.
  - eexists. split; [done|]. do 3 (split; [done|]). eapply heap_held_rep_of; [by apply (overwritten_perm t k g)| |done].
    apply (group_changed g); [done|done|..].
    + pose proof (go_max g Hg) as Hmax. rewrite length_swap_removed by (by eapply lookup_lt_Some). lia.
    + intros x Hx. apply Hg. rewrite <- Hout. by right.
    + pose proof (go_nodup g Hg) as Hnd. rewrite <- Hout in Hnd. by apply list.NoDup_cons in Hnd as [_ ?].
Qed.

Lemma heap_drop_ok t cap recs i :
  heap_held_rep t cap recs →
  ∃ handles t', heap_held_drop_interface t i = Done (handles, t') ∧ handles ≡ₚ ha_handle <$> filter (on_interface i) recs
    ∧ heap_held_rep t' cap (filter (λ r, ha_receiving_interface r ≠ i) recs).
Proof.
  intros (-> & Hok & Hp). unfold heap_held_drop_interface, heap_held_position.
  destruct (heap_group t i Hok) as [(k & g & -> & Hk & Hi & Hperm & Hok')|[-> Hno]]; cbn [fmap option_fmap option_map fst].
  - rewrite (index_lookup _ _ _ Hk). cbn [mbind run_bind]. rewrite vec_swap_remove_done by (by eapply lookup_lt_Some). cbn [mbind run_bind].
    assert (Hrecs : recs ≡ₚ heap_recs (g :: swap_removed t k)) by (rewrite <- Hp; unfold heap_recs; by rewrite Hperm at 1).
    destruct (heap_recs_on g _ Hok') as [Hon Hoff]. eexists _, _. split; [done|]. rewrite <- Hi.
    split; [by rewrite Hrecs, Hon|]. split; [done|]. split; [by apply heap_held_ok_cons in Hok' as (_ & _ & ?)|]. by rewrite Hrecs, Hoff.
  - assert (Hn : ∀ r, r ∈ recs → ha_receiving_interface r ≠ i).
    { intros r Hr <-. rewrite <- Hp in Hr. by apply Hno, heap_recs_interface. }
    eexists _, _. split; [done|]. rewrite filter_no_member, filter_present by done. split; [done|]. split; [done|]. by split.
Qed.

Lemma heap_recs_length t : length (heap_recs t) = heap_held_len t.
Proof. unfold heap_recs, heap_held_len. induction t as [|g t IH]; [done|]. cbn. by rewrite length_app, IH. Qed.

#[global] Instance heap_table_laws : HeldTableLaws HeapHeldAnnounceTable.
Proof.
  refine {| ht_rep := heap_held_rep |}.
  - exact heap_rep_ok.
  - exact heap_find_ok.
  - exact heap_insert_ok.
  - exact heap_take_ok.
  - exact heap_drop_ok.
  - intros t cap recs (-> & Hok & Hp). cbn. unfold heap_held_interfaces. split; [apply Hok|]. intros i. split.
    + intros (g & -> & Hg)%list_elem_of_fmap. pose proof (proj2 Hok g Hg) as Hgo. pose proof (go_some g Hgo) as Hs.
      destruct (ih_held g) as [|r l] eqn:E; [done|]. assert (Hr : r ∈ ih_held g) by (rewrite E; left).
      exists r. split; [rewrite <- Hp; apply list_elem_of_bind; by exists g|]. by apply Hgo.
    + intros (r & Hr & <-). rewrite <- Hp in Hr. by apply heap_recs_interface.
  - intros t cap recs i (-> & Hok & Hp). cbn. unfold heap_held_len_for.
    destruct (heap_group t i Hok) as [(k & g & -> & Hk & Hi & Hperm & Hok')|[-> Hno]]; f_equal.
    + assert (Hrecs : recs ≡ₚ heap_recs (g :: swap_removed t k)) by (rewrite <- Hp; unfold heap_recs; by rewrite Hperm at 1).
      by rewrite Hrecs, <- Hi, (proj1 (heap_recs_on g _ Hok')).
    + rewrite filter_no_member; [done|]. intros r Hr <-. rewrite <- Hp in Hr. by apply Hno, heap_recs_interface.
  - intros t cap recs (-> & Hok & Hp). cbn. by rewrite <- Hp, heap_recs_length.
Defined.

Lemma heap_table_new : ht_rep ([] : HeapHeldAnnounceTable) None [].
Proof. split; [done|]. split; [|done]. split; [constructor|]. by intros g ?%not_elem_of_nil. Qed.
End heap.
