(* ===== verification/HeldAnnouncesProofs.v ===== *)
(** The announces held back ([HeldAnnounces]), over any table and any payload store: a finite map from interface and
    destination to announces, bounded per interface and in all, released nearest first.  No payload is lost, shared or
    left behind.  As an announce without data has no payload, only non-empty payloads are stored, and with those the
    packed arena is a correct store too. *)

From stdpp Require Import gmap sorting.
From S2P Require Import Prelude AppData Columns KeyedMap Routes Announce AnnounceSchedule RoutingTable HeldAnnounces HeldAnnounceTables.

(** * Stores of non-empty payloads *)

Class FilledAppDataLaws (D : Type) `{AnnounceAppData D} := {
  fd_rep : D → gmap nat (list Z) → Prop;
  fd_get_ok : ∀ s P h b, fd_rep s P → P !! h = Some b → ad_get s h = Done b;
  fd_insert_ok : ∀ s P b, fd_rep s P → b ≠ [] →
    (∃ h s', ad_insert s b = Done (Ok h, s') ∧ P !! h = None ∧ fd_rep s' (<[h := b]> P)) ∨ (∃ e, ad_insert s b = Done (Err e, s));
  fd_replace_ok : ∀ s P h b b', fd_rep s P → P !! h = Some b → b' ≠ [] →
    (∃ s', ad_replace s h b' = Done (Ok (), s') ∧ fd_rep s' (<[h := b']> P)) ∨ (∃ e, ad_replace s h b' = Done (Err e, s));
  fd_free_ok : ∀ s P h b, fd_rep s P → P !! h = Some b → ∃ s', ad_free s h = Done s' ∧ fd_rep s' (delete h P);
}.

(** A store of any payloads is one of non-empty ones. *)
#[global] Instance app_data_filled {D : Type} `{AppDataLaws D} : FilledAppDataLaws D.
Proof.
  refine {| fd_rep := ad_rep |}.
  - apply ad_get_ok.
  - intros s P b Hs _. by apply ad_insert_ok.
  - intros s P h b b' Hs Hb _. by eapply ad_replace_ok.
  - apply ad_free_ok.
Defined.

Section packed.
Context `{HeaplessVecLaws} {ARENA_BYTES MAX_ENTRIES : nat}.
Implicit Types (s : Packed.PackedAppDataArena ARENA_BYTES MAX_ENTRIES) (L : list (nat * list Z)).

Definition packed_filled s (P : gmap nat (list Z)) : Prop :=
  ∃ L, Packed.layout s L ∧ P = list_to_map L ∧ Forall (λ hb, hb.2 ≠ []) L.

Lemma layout_handles s L : Packed.layout s L → NoDup L.*1.
Proof. intros Hl. by destruct (proj1 (list.NoDup_app _ _) (Packed.ly_nodup s L Hl)) as [? _]. Qed.

Lemma layout_at s L h b : Packed.layout s L → (list_to_map L : gmap nat (list Z)) !! h = Some b → ∃ L1 L2, L = L1 ++ (h, b) :: L2.
Proof. intros Hl Hb. by apply elem_of_list_to_map_2, Packed.layout_split in Hb. Qed.

(** The map of a layout with one payload singled out. *)
Lemma layout_map s L1 h b L2 :
  Packed.layout s (L1 ++ (h, b) :: L2) → (list_to_map (L1 ++ (h, b) :: L2) : gmap nat (list Z)) = <[h := b]> (list_to_map (L1 ++ L2))
  ∧ (list_to_map (L1 ++ L2) : gmap nat (list Z)) !! h = None.
Proof.
  intros Hnd%layout_handles. split.
  - transitivity (list_to_map ((h, b) :: L1 ++ L2) : gmap nat (list Z)); [|done]. apply list_to_map_proper; [done|]. by rewrite Permutation_middle.
  - apply not_elem_of_list_to_map_1. rewrite fmap_app in Hnd |- *. cbn in Hnd. rewrite <- Permutation_middle in Hnd.
    by apply list.NoDup_cons in Hnd as [? _].
Qed.

Lemma packed_insert_full s L b :
  Packed.layout s L → ¬ (Packed.total L + length b ≤ ARENA_BYTES ∧ length L < MAX_ENTRIES) → ∃ e, Packed.insert s b = Done (Err e, s).
Proof.
  intros Hl Hfull. pose proof (Packed.layout_slots_length _ _ Hl) as Hcount. pose proof (Packed.ly_cap _ _ Hl) as Hcap.
  pose proof (Packed.ly_used _ _ Hl) as Hu. pose proof (Packed.ly_fits _ _ Hl) as Hf. unfold Packed.insert.
  destruct ((length (Packed.free_slots s) =? 0) && (length (Packed.spans s) =? MAX_ENTRIES)) eqn:E; [by eexists|].
  destruct (Nat.ltb_spec (ARENA_BYTES - Packed.used s) (length b)) as [|Hroom]; [by eexists|]. exfalso. apply Hfull. split; [lia|].
  apply andb_false_iff in E as [E%Nat.eqb_neq|E%Nat.eqb_neq]; lia.
Qed.

#[global] Instance packed_filled_laws : FilledAppDataLaws (Packed.PackedAppDataArena ARENA_BYTES MAX_ENTRIES).
Proof.
  refine {| fd_rep := packed_filled |}.
  - intros s P h b (L & Hl & -> & _) (L1 & L2 & ->)%(layout_at s); [|done]. by eapply Packed.get_layout.
  - intros s P b (L & Hl & -> & Hf) Hb. destruct (decide (Packed.total L + length b ≤ ARENA_BYTES ∧ length L < MAX_ENTRIES)) as [[H1 H2]|Hfull].
    + left. destruct (Packed.insert_layout s L b Hl H1 H2) as (h & s' & E & Hn & Hl'). exists h, s'. split; [done|].
      destruct (layout_map s' L h b [] Hl') as [Em Hnone]. rewrite app_nil_r in Em, Hnone. split; [done|].
      exists (L ++ [(h, b)]). split; [done|]. split; [done|]. apply Forall_app. split; [done|]. by constructor.
    + right. by apply (packed_insert_full s L b).
  - intros s P h b b' (L & Hl & -> & Hf) Hb Hb'. destruct (layout_at s L h b Hl Hb) as (L1 & L2 & ->).
    pose proof (proj1 (Forall_app _ _ _) Hf) as [F1 F2]. inversion F2 as [|? ? F F3]; subst. cbn in F.
    destruct (Packed.replace_layout s L1 h b L2 b' Hl) as [[_ (s' & E & Hl')]|[_ E]]; [by destruct b; [|cbn; lia]| |right; by eexists].
    left. exists s'. split; [done|]. exists (L1 ++ (h, b') :: L2). split; [done|]. split.
    + destruct (layout_map _ _ _ _ _ Hl) as [-> _], (layout_map _ _ _ _ _ Hl') as [E' _]. rewrite insert_insert_eq. by symmetry.
    + apply Forall_app. split; [done|]. by constructor.
  - intros s P h b (L & Hl & -> & Hf) Hb. destruct (layout_at s L h b Hl Hb) as (L1 & L2 & ->).
    pose proof (proj1 (Forall_app _ _ _) Hf) as [F1 F2]. inversion F2 as [|? ? F F3]; subst.
    destruct (Packed.free_layout s L1 h b L2 Hl) as (s' & E & Hl'). exists s'. split; [done|]. exists (L1 ++ L2). split; [done|].
    destruct (layout_map _ _ _ _ _ Hl) as [-> Hn]. split; [by rewrite delete_insert_id|]. by apply Forall_app.
Defined.

Lemma packed_new_filled : fd_rep (Packed.new (ARENA_BYTES := ARENA_BYTES) (MAX_ENTRIES := MAX_ENTRIES)) ∅.
Proof. exists []. split; [apply Packed.new_layout|]. by split. Qed.
End packed.

(** * What [HeldAnnounces] promises *)

(** An announce as it was handed in, and how it came. *)
Record Parked := mkParked { pk_hops : Z; pk_next_hop : NextHop; pk_is_path_response : bool; pk_announce : AnnounceMessage }.
Abbreviation HeldMap := (gmap (InterfaceId * DestinationHash) Parked).

Definition parked_with (r : HeldAnnounce) (data : list Z) : Parked :=
  mkParked (ha_hops r) (ha_next_hop r) (ha_is_path_response r)
    (mkAnnounce (ha_destination r) (public_keys (ha_announce r)) (dotted_name_hash (ha_announce r)) (announce_id (ha_announce r))
      (ratchet (ha_announce r)) (signature (ha_announce r)) data).

(** What is held for an interface, and how much. *)
Abbreviation held_for i := (λ kp : (InterfaceId * DestinationHash) * Parked, kp.1.1 = i).
Definition held_on (i : InterfaceId) (m : HeldMap) : nat := size (filter (λ kp, kp.1.1 = i) m).

Inductive held_op :=
  | OpHold (hops : Z) (interface : InterfaceId) (next_hop : NextHop) (is_path_response : bool) (announce : AnnounceMessage) (limit : nat)
  | OpRelease (interface : InterfaceId) (scratch : list Z)
  | OpDropInterface (interface : InterfaceId).
Inductive held_out :=
  | OutHold (outcome : HoldOutcome)
  | OutReleased (released : option ReleasedLowestHops) (scratch : list Z)
  | OutDropped.

(** What an operation may do to the announces held, [cap] being the room of the table where it is bounded. *)
Inductive held_step (cap : option nat) (m : HeldMap) : held_op → held_out → HeldMap → Prop :=
  | step_replaced hops i next_hop response a limit :
      is_Some (m !! (i, an_destination a)) →
      held_step cap m (OpHold hops i next_hop response a limit) (OutHold Replaced)
        (<[(i, an_destination a) := mkParked hops next_hop response a]> m)
  | step_stale hops i next_hop response a limit :
      is_Some (m !! (i, an_destination a)) → an_app_data a ≠ [] →
      held_step cap m (OpHold hops i next_hop response a limit) (OutHold StaleKept) m
  | step_held hops i next_hop response a limit :
      m !! (i, an_destination a) = None → held_on i m < limit →
      held_step cap m (OpHold hops i next_hop response a limit) (OutHold Held)
        (<[(i, an_destination a) := mkParked hops next_hop response a]> m)
  | step_at_cap hops i next_hop response a limit :
      m !! (i, an_destination a) = None → Nat.min limit MAX_HELD_ANNOUNCES_PER_INTERFACE ≤ held_on i m →
      held_step cap m (OpHold hops i next_hop response a limit) (OutHold (NewcomerDropped DropInterfaceAtCap)) m
  | step_pool_full hops i next_hop response a limit :
      m !! (i, an_destination a) = None → cap = Some (size m) →
      held_step cap m (OpHold hops i next_hop response a limit) (OutHold (NewcomerDropped DropPoolFull)) m
  | step_arena_full hops i next_hop response a limit :
      m !! (i, an_destination a) = None → an_app_data a ≠ [] →
      held_step cap m (OpHold hops i next_hop response a limit) (OutHold (NewcomerDropped DropArenaFull)) m
  | step_released i scratch r data n :
      ha_receiving_interface r = i → m !! (i, ha_destination r) = Some (parked_with r data) →
      (∀ d p, m !! (i, d) = Some p → (ha_hops r ≤ pk_hops p)%Z) → n = Nat.min (length data) (length scratch) →
      held_step cap m (OpRelease i scratch) (OutReleased (Some (mkReleased r n)) (take n data ++ drop n scratch))
        (delete (i, ha_destination r) m)
  | step_none_held i scratch :
      (∀ d, m !! (i, d) = None) → held_step cap m (OpRelease i scratch) (OutReleased None scratch) m
  | step_interface_dropped i : held_step cap m (OpDropInterface i) OutDropped (filter (λ kp, kp.1.1 ≠ i) m).

Inductive held_steps (cap : option nat) (m : HeldMap) : list held_op → list held_out → HeldMap → Prop :=
  | held_steps_nil : held_steps cap m [] [] m
  | held_steps_cons op out m1 ops outs m2 :
      held_step cap m op out m1 → held_steps cap m1 ops outs m2 → held_steps cap m (op :: ops) (out :: outs) m2.

Section refinement.
Context {T D : Type} `{HeldTableLaws T} `{FilledAppDataLaws D}.
Implicit Types (h : HeldAnnounces T D) (recs rest : list HeldAnnounce) (P : gmap nat (list Z)).

Definition held_do h (op : held_op) : run (held_out * HeldAnnounces T D) :=
  match op with
  | OpHold hops i next_hop response a limit =>
      '(out, h) ← hold_with_limit h hops i next_hop response a limit; Done (OutHold out, h)
  | OpRelease i scratch => '(released, scratch, h) ← release_lowest_hop_for h i scratch; Done (OutReleased released scratch, h)
  | OpDropInterface i => h ← held_drop_interface h i; Done (OutDropped, h)
  end.

Fixpoint held_ops h (ops : list held_op) : run (list held_out * HeldAnnounces T D) :=
  match ops with
  | [] => Done ([], h)
  | op :: ops => '(out, h) ← held_do h op; '(outs, h) ← held_ops h ops; Done (out :: outs, h)
  end.

(** The payload of a handle. *)
Definition payload P (handle : option nat) : list Z := match handle with Some x => default [] (P !! x) | None => [] end.
Definition parked_of P (r : HeldAnnounce) : Parked := parked_with r (payload P (ha_handle r)).
Definition parked_map P recs : HeldMap := parked_of P <$> entries held_key recs.

(** The store has the payloads of the handles [hs], each with one owner, and no others. *)
Definition owned P (hs : list nat) : Prop := NoDup hs ∧ ∀ x : nat, is_Some (P !! x) ↔ x ∈ hs.

Definition held_rep h (cap : option nat) (m : HeldMap) : Prop :=
  ∃ recs P, ht_rep (held_store h) cap recs ∧ fd_rep (held_app_data h) P ∧ owned P (omap ha_handle recs) ∧ m = parked_map P recs.

Lemma owned_perm P hs hs' : hs ≡ₚ hs' → owned P hs → owned P hs'.
Proof. intros Hp [Hnd Hd]. split; [by rewrite <- Hp|]. intros x. by rewrite Hd, Hp. Qed.

Lemma handles_cons r rest : omap ha_handle (r :: rest) = option_list (ha_handle r) ++ omap ha_handle rest.
Proof. cbn. by destruct (ha_handle r). Qed.

Lemma parked_map_perm P recs recs' : NoDup (held_key <$> recs) → recs ≡ₚ recs' → parked_map P recs = parked_map P recs'.
Proof. intros Hnd Hp. unfold parked_map. by rewrite (entries_perm held_key recs recs' Hnd Hp). Qed.

Lemma parked_map_cons P r rest : parked_map P (r :: rest) = <[held_key r := parked_of P r]> (parked_map P rest).
Proof. unfold parked_map, entries. cbn. by rewrite fmap_insert. Qed.

(** Announces whose payloads stay keep their entries. *)
Lemma parked_map_frame P P' recs : (∀ x, x ∈ omap ha_handle recs → P' !! x = P !! x) → parked_map P' recs = parked_map P recs.
Proof.
  intros Hsame. unfold parked_map. apply map_fmap_ext. intros k r [Hr _]%entries_row. unfold parked_of. f_equal.
  destruct (ha_handle r) as [x|] eqn:E; [|done]. cbn. rewrite Hsame; [done|]. apply list_elem_of_omap. by exists r.
Qed.

Lemma parked_map_none P recs k : k ∉ held_key <$> recs → parked_map P recs !! k = None.
Proof. intros Hn%(entries_none held_key). unfold parked_map. by rewrite lookup_fmap, Hn. Qed.

Lemma parked_map_some P recs k p :
  NoDup (held_key <$> recs) → parked_map P recs !! k = Some p ↔ ∃ r, r ∈ recs ∧ held_key r = k ∧ p = parked_of P r.
Proof.
  intros Hnd. unfold parked_map. rewrite lookup_fmap, fmap_Some. split.
  - intros (r & [Hr Hk]%entries_row & ->). by exists r.
  - intros (r & Hr & <- & ->). exists r. split; [|done]. by apply entries_some.
Qed.

Lemma parked_map_filter P recs (Q : InterfaceId → Prop) `{∀ r : HeldAnnounce, Decision (Q (ha_receiving_interface r))}
    `{∀ kp : (InterfaceId * DestinationHash) * Parked, Decision (Q kp.1.1)} :
  NoDup (held_key <$> recs) →
  parked_map P (filter (λ r, Q (ha_receiving_interface r)) recs) = filter (λ kp, Q kp.1.1) (parked_map P recs).
Proof.
  intros Hnd. assert (Hnd' : NoDup (held_key <$> filter (λ r, Q (ha_receiving_interface r)) recs)).
  { eapply submseteq_NoDup; [exact Hnd|]. apply fmap_submseteq. rewrite <- (filter_parts (λ r, Q (ha_receiving_interface r)) recs) at 2.
    by apply submseteq_inserts_r. }
  apply map_eq. intros k. apply option_eq. intros p. rewrite map_lookup_filter_Some, !parked_map_some by done. split.
  - intros (r & [HQ Hr]%list_elem_of_filter & <- & ->). split; [by exists r|done].
  - intros [(r & Hr & <- & ->) HQ]. exists r. split; [|done]. by apply list_elem_of_filter.
Qed.

Lemma parked_map_size P recs : NoDup (held_key <$> recs) → size (parked_map P recs) = length recs.
Proof. intros Hnd. unfold parked_map. by rewrite map_size_fmap, entries_size. Qed.

Lemma parked_map_on P recs i : NoDup (held_key <$> recs) → held_on i (parked_map P recs) = length (filter (on_interface i) recs).
Proof.
  intros Hnd. unfold held_on. rewrite <- (parked_map_filter P recs (λ j, j = i) Hnd). apply parked_map_size.
  eapply submseteq_NoDup; [exact Hnd|]. apply fmap_submseteq. rewrite <- (filter_parts (on_interface i) recs) at 2. by apply submseteq_inserts_r.
Qed.

(** ** Payloads stored, replaced and freed *)

(** [kept P P' hs]: the payloads of [hs] are the same. *)
Definition kept P P' (hs : list nat) : Prop := ∀ x : nat, x ∈ hs → P' !! x = P !! x.

Lemma owned_delete P x hs : owned P (x :: hs) → owned (delete x P) hs ∧ kept P (delete x P) hs.
Proof.
  intros [[Hx Hnd]%list.NoDup_cons Hd]. split; [split; [done|]|].
  - intros y. destruct (decide (x = y)) as [<-|Hne].
    + rewrite lookup_delete_eq. split; [by intros []|done].
    + rewrite lookup_delete_ne, Hd, elem_of_cons by done. split; [intros [->|?]; done|by right].
  - intros y Hy. rewrite lookup_delete_ne; [done|]. by intros ->.
Qed.

Lemma owned_insert P x b hs : P !! x = None → owned P hs → owned (<[x := b]> P) (x :: hs) ∧ kept P (<[x := b]> P) hs.
Proof.
  intros Hn [Hnd Hd]. assert (Hx : x ∉ hs) by (intros [b' Hb']%Hd; congruence). split; [split; [by constructor|]|].
  - intros y. rewrite lookup_insert_is_Some, elem_of_cons, Hd. destruct (decide (x = y)) as [<-|Hxy]; intuition congruence.
  - intros y Hy. rewrite lookup_insert_ne; [done|]. by intros ->.
Qed.

Lemma owned_replace P x b hs : owned P (x :: hs) → owned (<[x := b]> P) (x :: hs) ∧ kept P (<[x := b]> P) hs.
Proof.
  intros [Hnd Hd]. split; [split; [done|]|].
  - intros y. rewrite lookup_insert_is_Some, Hd, elem_of_cons. destruct (decide (x = y)) as [<-|Hxy]; intuition congruence.
  - intros y Hy. apply list.NoDup_cons in Hnd as [Hx _]. rewrite lookup_insert_ne; [done|]. by intros ->.
Qed.

Lemma held_retain_ok s P bytes hs :
  fd_rep s P → owned P hs →
  ∃ res s', held_retain_app_data s bytes = Done (res, s')
    ∧ match res with
      | Ok new => ∃ P', fd_rep s' P' ∧ kept P P' hs ∧ owned P' (option_list new ++ hs) ∧ payload P' new = bytes
      | Err _ => s' = s ∧ bytes ≠ []
      end.
Proof.
  intros Hs Ho. unfold held_retain_app_data. destruct (bool_decide_reflect (bytes = [])) as [->|Hne].
  - eexists _, _. split; [done|]. by exists P.
  - destruct (fd_insert_ok s P bytes Hs Hne) as [(x & s' & -> & Hn & Hs')|[e ->]]; cbn [mbind run_bind]; eexists _, _; (split; [done|]); [|done].
    exists (<[x := bytes]> P). destruct (owned_insert P x bytes hs Hn Ho). split; [done|]. split; [done|]. split; [done|].
    cbn. by rewrite lookup_insert_eq.
Qed.

Lemma held_upsert_ok s P previous bytes hs :
  fd_rep s P → owned P (option_list previous ++ hs) →
  ∃ res s', held_upsert_app_data s previous bytes = Done (res, s')
    ∧ match res with
      | Ok new => ∃ P', fd_rep s' P' ∧ kept P P' hs ∧ owned P' (option_list new ++ hs) ∧ payload P' new = bytes
      | Err _ => s' = s ∧ bytes ≠ []
      end.
Proof.
  intros Hs Ho. unfold held_upsert_app_data. destruct previous as [x|]; [|by apply held_retain_ok]. cbn [option_list app] in Ho.
  destruct (proj2 (proj2 Ho x) (list_elem_of_here _ _)) as [b Hb]. destruct (bool_decide_reflect (bytes = [])) as [->|Hne].
  - destruct (fd_free_ok s P x b Hs Hb) as (s' & -> & Hs'). cbn [mbind run_bind]. eexists _, _. split; [done|].
    destruct (owned_delete P x hs Ho). by exists (delete x P).
  - destruct (fd_replace_ok s P x b bytes Hs Hb Hne) as [(s' & -> & Hs')|[e ->]]; cbn [mbind run_bind]; eexists _, _; (split; [done|]); [|done].
    destruct (owned_replace P x bytes hs Ho). exists (<[x := bytes]> P). split; [done|]. split; [done|]. split; [done|].
    cbn. by rewrite lookup_insert_eq.
Qed.

(** ** Holding *)

Lemma parked_into P hops i next_hop response a handle :
  payload P handle = an_app_data a → parked_of P (into_held_record hops i next_hop response a handle) = mkParked hops next_hop response a.
Proof. intros E. unfold parked_of, parked_with. cbn. rewrite E. by destruct a. Qed.

Lemma hold_does h cap m hops i next_hop response a limit :
  held_rep h cap m →
  ∃ out h' m', hold_with_limit h hops i next_hop response a limit = Done (out, h')
    ∧ held_step cap m (OpHold hops i next_hop response a limit) (OutHold out) m' ∧ held_rep h' cap m'.
Proof.
  intros (recs & P & Ht & Hs & Ho & ->). destruct (ht_rep_ok _ _ _ Ht) as (Hnd & Hmax & Hcap). unfold hold_with_limit.
  destruct (ht_find_ok _ _ _ i (an_destination a) Ht) as [(slot & r & rest & -> & Hp & Hk & Eh & Hover)|[-> Hno]]; cbn [mbind run_bind].
  - rewrite Eh. cbn [mbind run_bind]. pose proof (parked_map_perm P _ _ Hnd Hp) as Em. rewrite parked_map_cons, Hk in Em.
    assert (Ho' : owned P (option_list (ha_handle r) ++ omap ha_handle rest)).
    { rewrite <- handles_cons. eapply owned_perm; [|exact Ho]. by rewrite Hp. }
    assert (Hin : is_Some (parked_map P recs !! (i, an_destination a))) by (rewrite Em, lookup_insert_eq; by eexists).
    destruct (held_upsert_ok _ P (ha_handle r) (an_app_data a) _ Hs Ho') as (res & s' & -> & Hres). cbn [mbind run_bind]. destruct res as [new|e].
    + destruct Hres as (P' & Hs' & Hkept & Hown & Hpay). set (r' := into_held_record hops i next_hop response a new).
      destruct (Hover r' eq_refl) as (t' & -> & Ht'). cbn [mbind run_bind]. eexists _, _, _. split; [done|]. split; [by apply step_replaced|].
      exists (r' :: rest), P'. split; [done|]. split; [done|]. split; [by rewrite handles_cons|].
      rewrite parked_map_cons, (parked_map_frame P P' rest Hkept), Em, insert_insert_eq. unfold r'. by rewrite parked_into.
    + destruct Hres as [-> Hne]. eexists _, _, _. split; [done|]. split; [by apply step_stale|]. by exists recs, P.
  - rewrite (ht_len_for_ok _ _ _ i Ht). cbn [mbind run_bind]. pose proof (parked_map_none P recs _ Hno) as Hnone.
    pose proof (parked_map_on P recs i Hnd) as Hon. destruct (Nat.leb_spec limit (length (filter (on_interface i) recs))) as [Hfull|Hroom].
    { eexists _, _, _. split; [done|]. split; [apply step_at_cap; [done|lia]|]. by exists recs, P. }
    destruct (held_retain_ok _ P (an_app_data a) _ Hs Ho) as (res & s' & -> & Hres). cbn [mbind run_bind]. destruct res as [new|e].
    2:{ destruct Hres as [-> Hne]. eexists _, _, _. split; [done|]. split; [by apply step_arena_full|]. by exists recs, P. }
    destruct Hres as (P' & Hs' & Hkept & Hown & Hpay). set (r' := into_held_record hops i next_hop response a new).
    destruct (ht_insert_ok _ _ _ r' Ht Hno) as [(t' & -> & Ht')|(full & t' & -> & Ht' & Hfull)]; cbn [mbind run_bind].
    + eexists _, _, _. split; [done|]. split; [apply step_held; [done|lia]|]. exists (r' :: recs), P'. split; [done|]. split; [done|].
      split; [by rewrite handles_cons|]. rewrite parked_map_cons, (parked_map_frame P P' recs Hkept). unfold r'. by rewrite parked_into.
    + assert (Hback : ∃ s'', match new with Some handle => ad_free s' handle | None => Done s' end = Done s''
                ∧ ∃ P'', fd_rep s'' P'' ∧ owned P'' (omap ha_handle recs) ∧ kept P P'' (omap ha_handle recs)).
      { destruct new as [x|]; [|by exists s'; split; [done|]; exists P'].
        destruct (proj2 (proj2 Hown x) (list_elem_of_here _ _)) as [b Hb]. destruct (fd_free_ok s' P' x b Hs' Hb) as (s'' & -> & Hs'').
        exists s''. split; [done|]. exists (delete x P'). destruct (owned_delete P' x _ Hown) as [Ho'' Hk'']. split; [done|]. split; [done|].
        intros y Hy. by rewrite Hk'', Hkept. }
      destruct Hback as (s'' & -> & P'' & Hs'' & Ho'' & Hk''). cbn [mbind run_bind]. eexists _, _, (parked_map P recs). split; [done|]. split.
      * destruct full; [apply step_at_cap|apply step_pool_full]; try done; [cbn in Hfull; lia|]. by rewrite parked_map_size.
      * exists recs, P''. split; [done|]. split; [done|]. split; [done|]. symmetry. by apply parked_map_frame.
Qed.

(** ** Releasing and dropping *)

Lemma owned_app P hs hs' : owned P (hs ++ hs') → ∀ x, x ∈ hs → x ∉ hs'.
Proof. intros [Hnd _] x Hx. apply list.NoDup_app in Hnd as (_ & Hdis & _). by apply Hdis. Qed.

Lemma release_does h cap m i scratch :
  held_rep h cap m →
  ∃ released scratch' h' m', release_lowest_hop_for h i scratch = Done (released, scratch', h')
    ∧ held_step cap m (OpRelease i scratch) (OutReleased released scratch') m' ∧ held_rep h' cap m'.
Proof.
  intros (recs & P & Ht & Hs & Ho & ->). destruct (ht_rep_ok _ _ _ Ht) as (Hnd & _ & _). unfold release_lowest_hop_for.
  destruct (ht_take_ok _ _ _ i Ht) as [(r & rest & t' & -> & Hp & Hi & Hmin & Ht')|[-> Hno]]; cbn [mbind run_bind].
  2:{ eexists _, _, _, _. split; [done|]. split; [|by exists recs, P]. apply step_none_held. intros d. apply parked_map_none.
      intros (r & Heq & Hr)%list_elem_of_fmap. apply (Hno r Hr). by injection Heq. }
  pose proof (parked_map_perm P _ _ Hnd Hp) as Em. rewrite parked_map_cons in Em.
  assert (Hkey : held_key r = (i, ha_destination r)) by (unfold held_key; by rewrite Hi).
  assert (Ho' : owned P (option_list (ha_handle r) ++ omap ha_handle rest)).
  { rewrite <- handles_cons. eapply owned_perm; [|exact Ho]. by rewrite Hp. }
  assert (Hnr : parked_map P rest !! held_key r = None).
  { apply parked_map_none. rewrite Hp in Hnd. cbn in Hnd. by apply list.NoDup_cons in Hnd as [? _]. }
  assert (Edel : delete (i, ha_destination r) (parked_map P recs) = parked_map P rest) by (by rewrite Em, Hkey, delete_insert_id by (by rewrite <- Hkey)).
  assert (Hlow : ∀ d p, parked_map P recs !! (i, d) = Some p → (ha_hops r ≤ pk_hops p)%Z).
  { intros d p (r' & Hr' & Heq & ->)%parked_map_some; [|done]. apply Hmin; [done|]. by injection Heq. }
  assert (Hin : parked_map P recs !! (i, ha_destination r) = Some (parked_of P r)) by (by rewrite Em, Hkey, lookup_insert_eq).
  unfold parked_of in Hin. destruct (ha_handle r) as [x|] eqn:Eh; cbn [option_list app] in Ho'.
  - destruct (proj2 (proj2 Ho' x) (list_elem_of_here _ _)) as [b Hb]. rewrite (fd_get_ok _ _ _ _ Hs Hb). cbn [mbind run_bind].
    cbn [payload] in Hin. rewrite Hb in Hin. cbn [default] in Hin. set (n := Nat.min (length b) (length scratch)).
    unfold slice. rewrite decide_True by lia. cbn [mbind run_bind]. rewrite Nat.sub_0_r, drop_0.
    assert (Hn : length (take n b) = n) by (rewrite length_take; lia).
    rewrite copy_into_done by lia. cbn [mbind run_bind take app Nat.add].
    destruct (fd_free_ok _ _ _ _ Hs Hb) as (s' & -> & Hs'). cbn [mbind run_bind]. eexists _, _, _, (parked_map P rest). split; [done|]. rewrite Hn.
    split; [rewrite <- Edel; by eapply step_released|]. destruct (owned_delete P x _ Ho') as [Ho'' Hk]. exists rest, (delete x P).
    split; [done|]. split; [done|]. split; [done|]. symmetry. by apply parked_map_frame.
  - eexists _, _, _, (parked_map P rest). split; [done|]. split; [|by exists rest, P]. rewrite <- Edel.
    apply (step_released cap (parked_map P recs) i scratch r [] 0); done.
Qed.

Lemma free_handles_ok s P (handles : list (option nat)) hs :
  fd_rep s P → owned P (omap id handles ++ hs) →
  ∃ s' P', free_handles s handles = Done s' ∧ fd_rep s' P' ∧ owned P' hs ∧ kept P P' hs.
Proof.
  revert s P. induction handles as [|[x|] handles IH]; intros s P Hs Ho.
  - by exists s, P.
  - cbn in Ho |- *. destruct (proj2 (proj2 Ho x) (list_elem_of_here _ _)) as [b Hb]. destruct (fd_free_ok _ _ _ _ Hs Hb) as (s1 & -> & Hs1).
    cbn [mbind run_bind]. destruct (owned_delete P x _ Ho) as [Ho1 Hk1]. destruct (IH s1 _ Hs1 Ho1) as (s2 & P2 & -> & Hs2 & Ho2 & Hk2).
    exists s2, P2. split; [done|]. split; [done|]. split; [done|]. intros y Hy. rewrite Hk2 by done. apply Hk1. apply elem_of_app. by right.
  - cbn in Ho |- *. by apply IH.
Qed.

Lemma handles_of recs : omap id (ha_handle <$> recs) = omap ha_handle recs.
Proof. induction recs as [|r recs IH]; [done|]. cbn. rewrite IH. by destruct (ha_handle r). Qed.

Lemma drop_interface_does h cap m i :
  held_rep h cap m →
  ∃ h' m', held_drop_interface h i = Done h' ∧ held_step cap m (OpDropInterface i) OutDropped m' ∧ held_rep h' cap m'.
Proof.
  intros (recs & P & Ht & Hs & Ho & ->). destruct (ht_rep_ok _ _ _ Ht) as (Hnd & _ & _). unfold held_drop_interface.
  destruct (ht_drop_ok _ _ _ i Ht) as (handles & t' & -> & Hh & Ht'). cbn [mbind run_bind].
  destruct (free_handles_ok (held_app_data h) P handles (omap ha_handle (filter (λ r, ha_receiving_interface r ≠ i) recs)) Hs)
    as (s' & P' & -> & Hs' & Ho' & Hk').
  { eapply owned_perm; [|exact Ho]. by rewrite Hh, handles_of, <- omap_app, filter_parts. }
  cbn [mbind run_bind]. eexists _, _. split; [done|]. split; [constructor|]. eexists _, P'. split; [done|]. split; [done|]. split; [done|].
  rewrite (parked_map_frame P P' _ Hk'). symmetry. by apply (parked_map_filter P recs (λ j, j ≠ i)).
Qed.

Lemma held_does h cap m op :
  held_rep h cap m → ∃ out h' m', held_do h op = Done (out, h') ∧ held_step cap m op out m' ∧ held_rep h' cap m'.
Proof.
  intros Hr. destruct op as [hops i next_hop response a limit|i scratch|i]; cbn [held_do].
  - destruct (hold_does h cap m hops i next_hop response a limit Hr) as (out & h' & m' & -> & Hstep & Hr'). cbn. by eexists _, _, _.
  - destruct (release_does h cap m i scratch Hr) as (released & scratch' & h' & m' & -> & Hstep & Hr'). cbn. by eexists _, _, _.
  - destruct (drop_interface_does h cap m i Hr) as (h' & m' & -> & Hstep & Hr'). cbn. by eexists _, _, _.
Qed.

Lemma held_runs h cap m ops :
  held_rep h cap m → ∃ outs h' m', held_ops h ops = Done (outs, h') ∧ held_steps cap m ops outs m' ∧ held_rep h' cap m'.
Proof.
  revert h m. induction ops as [|op ops IH]; intros h m Hr; cbn [held_ops].
  - eexists _, _, _. split; [done|]. split; [constructor|done].
  - destruct (held_does h cap m op Hr) as (out & h1 & m1 & -> & Hstep & Hr1). cbn [mbind run_bind].
    destruct (IH h1 m1 Hr1) as (outs & h2 & m2 & -> & Hsteps & Hr2). cbn [mbind run_bind]. eexists _, _, _. split; [done|].
    split; [by econstructor|done].
Qed.

Lemma held_bounds h cap m :
  held_rep h cap m → (∀ i, held_len_for h i = Done (held_on i m) ∧ held_on i m ≤ MAX_HELD_ANNOUNCES_PER_INTERFACE)
  ∧ held_len h = size m ∧ ∀ n, cap = Some n → size m ≤ n.
Proof.
  intros (recs & P & Ht & Hs & Ho & ->). destruct (ht_rep_ok _ _ _ Ht) as (Hnd & Hmax & Hcap). rewrite parked_map_size by done. split.
  - intros i. rewrite (parked_map_on P recs i Hnd). split; [apply (ht_len_for_ok _ _ _ i Ht)|apply Hmax].
  - split; [apply (ht_len_ok _ _ _ Ht)|done].
Qed.

(** ** Everything held for an interface, released *)

(** [n] announces released for [interface], each with its data. *)
Fixpoint release_all (n : nat) h (interface : InterfaceId) (scratch : list Z) : run (list (HeldAnnounce * list Z) * HeldAnnounces T D) :=
  match n with
  | O => Done ([], h)
  | S n =>
      '(released, read, h) ← release_lowest_hop_for h interface scratch;
      match released with
      | None => Done ([], h)
      | Some r =>
          '(rest, h) ← release_all n h interface scratch;
          Done ((rl_held_announce r, take (rl_app_data_bytes r) read) :: rest, h)
      end
  end.

Definition came_back (rd : HeldAnnounce * list Z) : (InterfaceId * DestinationHash) * Parked := (held_key rd.1, parked_with rd.1 rd.2).

Lemma held_on_delete (i : InterfaceId) (d : DestinationHash) (p : Parked) (m : HeldMap) :
  m !! (i, d) = Some p →
  filter (held_for i) (delete (i, d) m) = delete (i, d) (filter (held_for i) m)
  ∧ map_to_list (filter (held_for i) m) ≡ₚ ((i, d), p) :: map_to_list (filter (held_for i) (delete (i, d) m))
  ∧ filter (λ kp, kp.1.1 ≠ i) (delete (i, d) m) = filter (λ kp, kp.1.1 ≠ i) m.
Proof.
  intros Hm. split; [apply map_filter_delete|]. split.
  - rewrite map_filter_delete, <- (map_to_list_insert (delete (i, d) (filter (held_for i) m))) by apply lookup_delete_eq.
    rewrite insert_delete_id; [done|]. by apply map_lookup_filter_Some.
  - apply map_filter_delete_not. intros p' _. cbn. tauto.
Qed.

Lemma release_all_ok n h cap m i scratch :
  held_rep h cap m → held_on i m = n →
  (∀ d p, m !! (i, d) = Some p → length (an_app_data (pk_announce p)) ≤ length scratch) →
  ∃ rs h', release_all n h i scratch = Done (rs, h')
    ∧ StronglySorted (λ r r', (ha_hops r.1 ≤ ha_hops r'.1)%Z) rs
    ∧ came_back <$> rs ≡ₚ map_to_list (filter (held_for i) m)
    ∧ held_rep h' cap (filter (λ kp, kp.1.1 ≠ i) m).
Proof.
  revert h m. induction n as [|n IH]; intros h m Hr Hn Hfit; cbn [release_all].
  - apply map_size_empty_inv in Hn as Hnil. eexists _, _. split; [done|]. split; [constructor|]. rewrite Hnil, map_to_list_empty. split; [done|].
    rewrite map_filter_id; [done|]. intros [j d] p Hp Heq. cbn in Heq. subst j.
    assert (E : filter (held_for i) m !! (i, d) = Some p) by (by apply map_lookup_filter_Some). by rewrite Hnil, lookup_empty in E.
  - destruct (release_does h cap m i scratch Hr) as (released & read & h1 & m1 & -> & Hstep & Hr1). cbn [mbind run_bind].
    inversion Hstep as [| | | | | |? ? r data k Hi Hm Hlow Hk|? ? Hnone|]; subst.
    2:{ exfalso. assert (E : filter (held_for i) m1 = ∅); [|unfold held_on in Hn; by rewrite E, map_size_empty in Hn].
        apply map_eq. intros [j d]. rewrite lookup_empty. apply map_lookup_filter_None. right. intros p Hp Heq. cbn in Heq. subst j. by rewrite Hnone in Hp. }
    set (i := ha_receiving_interface r) in *. destruct (held_on_delete i (ha_destination r) _ m Hm) as (Edel & Hperm & Erest).
    pose proof (Hfit _ _ Hm) as Hlen. cbn in Hlen. rewrite Nat.min_l in * by done.
    destruct (IH h1 _ Hr1) as (rs & h2 & -> & Hsorted & Hrs & Hr2).
    { unfold held_on in *. rewrite <- length_map_to_list in *. rewrite Hperm in Hn. by injection Hn. }
    { intros d p [_ Hd]%lookup_delete_Some. by eapply Hfit. }
    cbn [mbind run_bind rl_app_data_bytes rl_held_announce]. rewrite Erest in Hr2. rewrite (firstn_all data), take_app_length in *.
    eexists _, _. split; [done|]. split; [|split; [|done]].
    + constructor; [done|]. apply list.Forall_forall. intros rd Hrd. cbn. apply (Hlow (ha_destination rd.1) (parked_with rd.1 rd.2)).
      assert (Hin : came_back rd ∈ map_to_list (filter (held_for i) (delete (i, ha_destination r) m))) by (rewrite <- Hrs; apply list_elem_of_fmap; by exists rd).
      apply elem_of_map_to_list, map_lookup_filter_Some in Hin as [[_ Hd]%lookup_delete_Some Hi]. unfold held_key in Hd. cbn in Hi. by rewrite Hi in Hd.
    + cbn. rewrite Hperm, Hrs. done.
Qed.
End refinement.

(** * Properties *)

(** C28. Over any table of held announces and any store of payloads: whatever is held, released and dropped, every
    operation returns, and what it answers and leaves is a step on a finite map from interface and destination to
    announces.  A newcomer is refused only at the limit of its interface, with the pool full, or for its data; a refused
    one changes nothing.  No interface has more than 256 announces and the table never more than its room.  Afterwards,
    releasing for an interface as often as it has announces gives each of them once, with its data as it was handed in,
    the nearest first, and leaves those of the other interfaces. *)
Theorem held_announces_as_a_map {T D : Type} `{HeldTableLaws T} `{FilledAppDataLaws D} (h : HeldAnnounces T D) cap m ops :
  held_rep h cap m →
  ∃ outs h' m', held_ops h ops = Done (outs, h') ∧ held_steps cap m ops outs m'
    ∧ (∀ i, held_len_for h' i = Done (held_on i m') ∧ held_on i m' ≤ MAX_HELD_ANNOUNCES_PER_INTERFACE)
    ∧ held_len h' = size m' ∧ (∀ n, cap = Some n → size m' ≤ n)
    ∧ ∀ i scratch, (∀ d p, m' !! (i, d) = Some p → length (an_app_data (pk_announce p)) ≤ length scratch) →
        ∃ rs h'', release_all (held_on i m') h' i scratch = Done (rs, h'')
          ∧ StronglySorted (λ r r', (ha_hops r.1 ≤ ha_hops r'.1)%Z) rs
          ∧ came_back <$> rs ≡ₚ map_to_list (filter (held_for i) m')
          ∧ held_rep h'' cap (filter (λ kp, kp.1.1 ≠ i) m').
Proof.
  intros Hr. destruct (held_runs h cap m ops Hr) as (outs & h' & m' & E & Hsteps & Hr'). destruct (held_bounds h' cap m' Hr') as (Hon & Hlen & Hcap).
  exists outs, h', m'. split; [done|]. split; [done|]. split; [done|]. split; [done|]. split; [done|].
  intros i scratch Hfit. by apply (release_all_ok _ h' cap m').
Qed.

Lemma held_none {T D : Type} `{HeldTableLaws T} `{FilledAppDataLaws D} (t : T) (s : D) cap :
  ht_rep t cap [] → fd_rep s ∅ → held_rep (mkHeldAnnounces t s) cap ∅.
Proof.
  intros Ht Hs. exists [], ∅. split; [done|]. split; [done|]. split; [|done]. split; [constructor|]. intros x. rewrite lookup_empty.
  split; [by intros []|by intros ?%not_elem_of_nil].
Qed.

(** ** At a concrete node

    A table of four announces with 512 bytes of payload, as in the unit tests. *)

#[local] Instance held_push : HeaplessVec := {| hv_push := λ A cap xs x, if (length xs <? cap)%nat then xs ++ [x] else xs |}.
#[local] Instance held_remove : HeaplessRemove := {| hv_swap_remove := λ A xs i, vec_swap_remove xs i |}.
#[local] Instance held_queue_laws : HeaplessQueueLaws.
Proof.
  split; [split|..].
  - intros A cap xs x Hl. unfold hv_push, held_push. by rewrite (proj2 (Nat.ltb_lt _ _)).
  - intros A cap xs x Hl. unfold hv_push, held_push. by rewrite (proj2 (Nat.ltb_ge _ _)).
  - intros A xs i Hi. cbn. by apply vec_swap_remove_done.
Qed.

Definition a_held : Type := HeldAnnounces (FixedSoaColumns 4) (Packed.PackedAppDataArena 512 4).
Definition no_held : a_held := mkHeldAnnounces fixed_soa_default Packed.new.
Definition an_announce (destination : Z) (data : list Z) : AnnounceMessage :=
  mkAnnounce [destination] (mkKeys [1; 1]%Z [2; 2]%Z) [3]%Z (AnnounceId_from_wire (replicate 10 7%Z)) None [9]%Z data.
Definition hold_op (destination hops interface : Z) (data : list Z) : held_op :=
  OpHold hops [interface] Direct false (an_announce destination data) MAX_HELD_ANNOUNCES_PER_INTERFACE.
Definition some_holds : list held_op :=
  [hold_op 161 5 1 [70; 65]; hold_op 178 2 1 [78; 69; 65]; hold_op 161 4 2 []; hold_op 161 3 1 [70; 66; 67]; hold_op 195 9 1 [];
   hold_op 196 1 3 [1]; OpRelease [1%Z] (replicate 4 0%Z); OpDropInterface [2%Z]]%Z.

Definition held_outcome (out : held_out) : option HoldOutcome * option (Z * nat * list Z) :=
  match out with
  | OutHold o => (Some o, None)
  | OutReleased (Some r) scratch => (None, Some (ha_hops (rl_held_announce r), rl_app_data_bytes r, scratch))
  | _ => (None, None)
  end.

Lemma held_announces_as_a_map_witness :
  ∃ outs h' m', held_ops no_held some_holds = Done (outs, h')
    ∧ held_outcome <$> outs
      = [(Some Held, None); (Some Held, None); (Some Held, None); (Some Replaced, None); (Some Held, None);
         (Some (NewcomerDropped DropPoolFull), None); (None, Some (2, 3%nat, [78; 69; 65; 0]%Z)%Z); (None, None)]
    ∧ held_steps (Some 4) ∅ some_holds outs m' ∧ size m' = 2 ∧ held_on [1]%Z m' = 2.
Proof.
  assert (Hnew : held_rep no_held (Some 4) ∅).
  { apply held_none; [apply soa_table_new; [apply fixed_soa_default_rep|lia]|apply packed_new_filled]. }
  destruct (held_announces_as_a_map no_held (Some 4) ∅ some_holds Hnew) as (outs & h' & m' & E & Hsteps & Hon & Hlen & _ & _).
  exists outs, h', m'. split; [exact E|]. vm_compute in E. injection E as <- <-. split; [reflexivity|]. split; [exact Hsteps|].
  split; [symmetry; exact Hlen|]. destruct (Hon [1]%Z) as [E1 _]. vm_compute in E1. injection E1 as E1. symmetry. exact E1.
Defined.
