(* ===== verification/IdentityTables.v ===== *)
(** Blackholed identities and the keys of groups: [prns-core/src/routing/blackhole/], [prns-core/src/routing/group_keys/].

    [IdentityBlackholes] keeps the identities whose announces are to be ignored, each until an instant or for good, over
    a table that is a trait with a fixed implementation (columns with a hash index, bounded reasons) and a growing one.
    [GroupKeys] keeps the shared key of each group destination.  Both are shown to be finite maps. *)

From stdpp Require Import gmap.
From S2P Require Import Prelude LemireIndex Columns KeyedMap Routes.

(** * Blackholed identities: [blackhole/core.rs] *)

Module Blackhole.
Abbreviation IdentityHash := (list Z).

Inductive BlackholeExpiry := Indefinite | ExpiresAt (deadline : Z).

Definition is_expired_at (expiry : BlackholeExpiry) (now : Z) : bool :=
  match expiry with Indefinite => false | ExpiresAt deadline => (deadline <? now)%Z end.

(** [checked_add(1)] on a [u64]. *)
Definition first_expired_at (expiry : BlackholeExpiry) : option Z :=
  match expiry with
  | Indefinite => None
  | ExpiresAt deadline => if (deadline + 1 <=? u64_max)%Z then Some (deadline + 1)%Z else None
  end.

(** Reasons are the bytes of strings. *)
Record BlackholedIdentity := mkBlackholed {
  bi_identity : IdentityHash; bi_source : IdentityHash; bi_expiry : BlackholeExpiry; bi_reason : option (list Z) }.

Inductive BlackholeIdentityOutcome := Added | AlreadyPresent.
Inductive BlackholeInsertFailure := CapacityExhausted | ReasonTooLongFailure.
Inductive UnblackholeIdentityOutcome := Removed | NotFound.

Class BlackholeTable (T : Type) := {
  InsertError : Type;
  classify_insert_error : InsertError → BlackholeInsertFailure;
  bt_len : T → nat;
  bt_index_of : T → IdentityHash → run (option nat);
  bt_identities : T → run (list IdentityHash);
  bt_sources : T → run (list IdentityHash);
  bt_expiries : T → run (list BlackholeExpiry);
  bt_reason_at : T → nat → run (option (list Z));
  bt_push : T → BlackholedIdentity → run (result InsertError unit * T);
  bt_swap_remove : T → nat → run T;
}.

Section operations.
Context {T : Type} `{BlackholeTable T}.
Implicit Types (t : T).

Definition is_blackholed t (identity : IdentityHash) : run bool :=
  found ← bt_index_of t identity;
  Done (bool_decide (is_Some found)).

(** The entries of the rows [i .. i + n]. *)
Fixpoint entries_from t (n i : nat) : run (list BlackholedIdentity) :=
  match n with
  | O => Done []
  | S n =>
      identities ← bt_identities t; identity ← index identities i;
      sources ← bt_sources t; source ← index sources i;
      expiries ← bt_expiries t; expiry ← index expiries i;
      reason ← bt_reason_at t i;
      rest ← entries_from t n (S i);
      Done (mkBlackholed identity source expiry reason :: rest)
  end.
Definition blackhole_entries t : run (list BlackholedIdentity) := entries_from t (bt_len t) 0.

Definition earliest_expiry_at t : run (option Z) :=
  expiries ← bt_expiries t;
  Done (foldr (λ x best, match best with None => Some x | Some y => Some (Z.min x y) end) None (omap first_expired_at expiries)).

Definition blackhole_identity t (entry : BlackholedIdentity) : run (result InsertError BlackholeIdentityOutcome * T) :=
  present ← is_blackholed t (bi_identity entry);
  if present : bool then Done (Ok AlreadyPresent, t) else
  '(pushed, t) ← bt_push t entry;
  Done (match pushed with Ok _ => Ok Added | Err e => Err e end, t).

Definition unblackhole_identity t (identity : IdentityHash) : run (UnblackholeIdentityOutcome * T) :=
  found ← bt_index_of t identity;
  match found with
  | None => Done (NotFound, t)
  | Some i => t ← bt_swap_remove t i; Done (Removed, t)
  end.

Fixpoint cull_expired_loop (fuel : nat) t (removed i : nat) (now : Z) : run (nat * T) :=
  match fuel with
  | O => OutOfFuel
  | S fuel =>
      if (i <? bt_len t)%nat then
        expiries ← bt_expiries t; expiry ← index expiries i;
        if is_expired_at expiry now then t ← bt_swap_remove t i; cull_expired_loop fuel t (removed + 1) i now
        else cull_expired_loop fuel t removed (i + 1) now
      else Done (removed, t)
  end.
Definition cull_expired t (now : Z) : run (nat * T) := cull_expired_loop (S (bt_len t)) t 0 0 now.
End operations.

(** ** Fixed columns: [blackhole/impls/fixed.rs] *)

(** [heapless::String::try_from], outside the repository: the string, if it has room. *)
Class HeaplessString := { hs_try_from : nat → list Z → option (list Z) }.
Class HeaplessStringLaws `{HeaplessString} : Prop := {
  hs_room : ∀ cap bytes, hs_try_from cap bytes = if decide (length bytes ≤ cap) then Some bytes else None;
}.

Inductive FixedBlackholeInsertError := TableFull | ReasonTooLong.

Record FixedBlackholeTable (CAPACITY INDEX_BUCKETS REASON_BYTES : nat) := mkFixedBlackholes {
  fb_len : nat; fb_identities : list IdentityHash; fb_sources : list IdentityHash; fb_expiries : list BlackholeExpiry;
  fb_reasons : list (option (list Z)); fb_index : list Z }.
Arguments mkFixedBlackholes {_ _ _} _ _ _ _ _ _.
Arguments fb_len {_ _ _} _.
Arguments fb_identities {_ _ _} _.
Arguments fb_sources {_ _ _} _.
Arguments fb_expiries {_ _ _} _.
Arguments fb_reasons {_ _ _} _.
Arguments fb_index {_ _ _} _.

Section fixed.
Context `{HeaplessString} {CAPACITY INDEX_BUCKETS REASON_BYTES : nat}.
Abbreviation table := (FixedBlackholeTable CAPACITY INDEX_BUCKETS REASON_BYTES).
Abbreviation EMPTY := LemireIndex.Fixed.EMPTY.
Abbreviation WIDTH := LemireIndex.Fixed.WIDTH.
Implicit Types (t : table).

Definition no_hash : IdentityHash := replicate 16 0%Z.
Definition fixed_blackholes_default : table :=
  mkFixedBlackholes 0 (replicate CAPACITY no_hash) (replicate CAPACITY no_hash) (replicate CAPACITY Indefinite) (replicate CAPACITY None)
    (LemireIndex.new EMPTY INDEX_BUCKETS).

(** The two [assert!]s evaluated when a table type is used. *)
Definition blackhole_index_buckets (entries : nat) : Z := buckets_for_two_thirds_load (Z.of_nat entries).
Definition blackholes_indexable : Prop := (blackhole_index_buckets CAPACITY ≤ Z.of_nat INDEX_BUCKETS ∧ Z.of_nat CAPACITY < u16_max)%Z.

Definition fixed_classify (error : FixedBlackholeInsertError) : BlackholeInsertFailure :=
  match error with TableFull => CapacityExhausted | ReasonTooLong => ReasonTooLongFailure end.

Definition fixed_blackhole_push t (entry : BlackholedIdentity) : run (result FixedBlackholeInsertError unit * table) :=
  if (CAPACITY <=? fb_len t)%nat then Done (Err TableFull, t) else
  let reason := match bi_reason entry with
                | Some reason => match hs_try_from REASON_BYTES reason with Some r => Ok (Some r) | None => Err ReasonTooLong end
                | None => Ok None
                end in
  match reason with
  | Err e => Done (Err e, t)
  | Ok reason =>
      let i := fb_len t in
      identities ← store (fb_identities t) i (bi_identity entry);
      sources ← store (fb_sources t) i (bi_source entry);
      expiries ← store (fb_expiries t) i (bi_expiry entry);
      reasons ← store (fb_reasons t) i reason;
      ix ← LemireIndex.insert EMPTY WIDTH (fb_index t) i identities;
      Done (Ok (), mkFixedBlackholes (i + 1) identities sources expiries reasons ix)
  end.

(** [reasons[i] = reasons[last].take()] *)
Definition take_last (reasons : list (option (list Z))) (i last : nat) : run (list (option (list Z))) :=
  moved ← index reasons last;
  reasons ← store reasons last None;
  store reasons i moved.

Definition fixed_blackhole_swap_remove t (i : nat) : run table :=
  last ← match fb_len t with O => Panic | S last => Done last end;
  ix ← LemireIndex.remove_slot EMPTY (fb_index t) i (fb_identities t);
  if negb (i =? last)%nat then
    moved ← index (fb_identities t) last;
    ix ← LemireIndex.repoint EMPTY WIDTH ix moved i (fb_identities t);
    identities ← move_last (fb_identities t) i last;
    sources ← move_last (fb_sources t) i last;
    expiries ← move_last (fb_expiries t) i last;
    reasons ← take_last (fb_reasons t) i last;
    Done (mkFixedBlackholes last identities sources expiries reasons ix)
  else
    reasons ← store (fb_reasons t) i None;
    Done (mkFixedBlackholes last (fb_identities t) (fb_sources t) (fb_expiries t) reasons ix).

#[global] Instance fixed_blackholes : BlackholeTable table := {|
  InsertError := FixedBlackholeInsertError;
  classify_insert_error := fixed_classify;
  bt_len := fb_len;
  bt_index_of := λ t identity, LemireIndex.get EMPTY (fb_index t) identity (fb_identities t);
  bt_identities := λ t, slice (fb_identities t) 0 (fb_len t);
  bt_sources := λ t, slice (fb_sources t) 0 (fb_len t);
  bt_expiries := λ t, slice (fb_expiries t) 0 (fb_len t);
  bt_reason_at := λ t i, index (fb_reasons t) i;
  bt_push := fixed_blackhole_push;
  bt_swap_remove := fixed_blackhole_swap_remove;
|}.
End fixed.

(** ** Growing columns: [blackhole/impls/heap.rs] *)

Record HeapBlackholeTable := mkHeapBlackholes {
  hb_identities : list IdentityHash; hb_sources : list IdentityHash; hb_expiries : list BlackholeExpiry;
  hb_reasons : list (option (list Z)); hb_index : list Z }.

Definition heap_blackholes_default : HeapBlackholeTable := mkHeapBlackholes [] [] [] [] LemireIndex.Heap.default.

(** [Infallible] has no values. *)
Definition heap_classify (error : Empty_set) : BlackholeInsertFailure := match error with end.

Definition heap_blackhole_push (t : HeapBlackholeTable) (entry : BlackholedIdentity) : run (result Empty_set unit * HeapBlackholeTable) :=
  let row := length (hb_identities t) in
  let identities := hb_identities t ++ [bi_identity entry] in
  ix ← LemireIndex.Heap.heap_insert (hb_index t) row identities;
  Done (Ok (), mkHeapBlackholes identities (hb_sources t ++ [bi_source entry]) (hb_expiries t ++ [bi_expiry entry])
    (hb_reasons t ++ [bi_reason entry]) ix).

Definition heap_blackhole_swap_remove (t : HeapBlackholeTable) (i : nat) : run HeapBlackholeTable :=
  if (length (hb_identities t) <=? i)%nat then Done t else
  let last := length (hb_identities t) - 1 in
  ix ← LemireIndex.Heap.heap_remove_slot (hb_index t) i (hb_identities t);
  ix ← (if negb (i =? last)%nat then LemireIndex.Heap.heap_repoint_slot ix last i (hb_identities t) else Done ix);
  identities ← vec_swap_remove (hb_identities t) i;
  sources ← vec_swap_remove (hb_sources t) i;
  expiries ← vec_swap_remove (hb_expiries t) i;
  reasons ← vec_swap_remove (hb_reasons t) i;
  Done (mkHeapBlackholes identities sources expiries reasons ix).

#[global] Instance heap_blackholes : BlackholeTable HeapBlackholeTable := {|
  InsertError := Empty_set;
  classify_insert_error := heap_classify;
  bt_len := λ t, length (hb_identities t);
  bt_index_of := λ t identity, LemireIndex.Heap.heap_get (hb_index t) identity (hb_identities t);
  bt_identities := λ t, Done (hb_identities t);
  bt_sources := λ t, Done (hb_sources t);
  bt_expiries := λ t, Done (hb_expiries t);
  bt_reason_at := λ t i, index (hb_reasons t) i;
  bt_push := heap_blackhole_push;
  bt_swap_remove := heap_blackhole_swap_remove;
|}.

(** ** The contract of the tables

    [bt_limits]: how many identities and how long a reason, where the table is bounded.  A growing index has room for
    [u32::MAX] rows. *)

Class BlackholeTableLaws (T : Type) `{BlackholeTable T} := {
  bt_limits : option (nat * nat);
  bt_rep : T → list BlackholedIdentity → Prop;
  bt_rep_ok : ∀ t rows, bt_rep t rows → NoDup (bi_identity <$> rows) ∧ bt_len t = length rows
    ∧ ∀ n k, bt_limits = Some (n, k) → length rows ≤ n ∧ Forall (λ e, ∀ r, bi_reason e = Some r → length r ≤ k) rows;
  bt_columns_ok : ∀ t rows, bt_rep t rows → bt_identities t = Done (bi_identity <$> rows) ∧ bt_sources t = Done (bi_source <$> rows)
    ∧ bt_expiries t = Done (bi_expiry <$> rows) ∧ ∀ i e, rows !! i = Some e → bt_reason_at t i = Done (bi_reason e);
  bt_index_ok : ∀ t rows id, bt_rep t rows →
    (∃ i e, bt_index_of t id = Done (Some i) ∧ rows !! i = Some e ∧ bi_identity e = id)
    ∨ (bt_index_of t id = Done None ∧ id ∉ bi_identity <$> rows);
  bt_push_ok : ∀ t rows e, bt_rep t rows → bi_identity e ∉ bi_identity <$> rows → (Z.of_nat (length rows) < u32_max)%Z →
    (∃ t', bt_push t e = Done (Ok (), t') ∧ bt_rep t' (rows ++ [e]))
    ∨ (∃ error, bt_push t e = Done (Err error, t)
        ∧ match classify_insert_error error with
          | CapacityExhausted => ∃ k, bt_limits = Some (length rows, k)
          | ReasonTooLongFailure => ∃ n k r, bt_limits = Some (n, k) ∧ length rows < n ∧ bi_reason e = Some r ∧ k < length r
          end);
  bt_swap_remove_ok : ∀ t rows i, bt_rep t rows → i < length rows → (Z.of_nat (length rows) ≤ u32_max)%Z →
    ∃ t', bt_swap_remove t i = Done t' ∧ bt_rep t' (swap_removed rows i);
}.

(** ** The fixed columns keep it *)

Section fixed_laws.
Context `{HeaplessStringLaws} {CAPACITY INDEX_BUCKETS REASON_BYTES : nat}.
Abbreviation table := (FixedBlackholeTable CAPACITY INDEX_BUCKETS REASON_BYTES).
Abbreviation EMPTY := LemireIndex.Fixed.EMPTY.
Abbreviation WIDTH := LemireIndex.Fixed.WIDTH.
Implicit Types (t : table) (rows : list BlackholedIdentity).

Record fixed_blackholes_rep t rows : Prop := {
  br_indexable : blackholes_indexable (CAPACITY := CAPACITY) (INDEX_BUCKETS := INDEX_BUCKETS);
  br_identities : column CAPACITY (fb_len t) (fb_identities t) (bi_identity <$> rows);
  br_sources : column CAPACITY (fb_len t) (fb_sources t) (bi_source <$> rows);
  br_expiries : column CAPACITY (fb_len t) (fb_expiries t) (bi_expiry <$> rows);
  br_reasons : column CAPACITY (fb_len t) (fb_reasons t) (bi_reason <$> rows);
  br_short : Forall (λ e, ∀ r, bi_reason e = Some r → length r ≤ REASON_BYTES) rows;
  br_buckets : length (fb_index t) = INDEX_BUCKETS;
  br_index : represents EMPTY (fb_index t) (fb_identities t) (length rows);
  br_distinct : NoDup (bi_identity <$> rows);
}.

Lemma fixed_blackholes_len t rows : fixed_blackholes_rep t rows → fb_len t = length rows ∧ length rows ≤ CAPACITY.
Proof.
  intros Hr. pose proof (br_identities t rows Hr) as Hc. pose proof (column_length _ _ _ _ Hc) as Hl. rewrite length_fmap in Hl.
  destruct Hc as (_ & Hle & _). lia.
Qed.

Lemma fixed_identity t rows j : fixed_blackholes_rep t rows → j < length rows → fb_identities t !! j = bi_identity <$> rows !! j.
Proof.
  intros Hr Hj. destruct (lookup_lt_is_Some_2 rows j Hj) as [e He]. rewrite He.
  apply (column_lookup _ _ _ _ j _ (br_identities t rows Hr)). by rewrite list_lookup_fmap, He.
Qed.

Lemma fixed_identities_distinct t rows : fixed_blackholes_rep t rows → distinct_keys (fb_identities t) (length rows).
Proof.
  intros Hr id i j (Hi & r & Hri & <-) (Hj & r' & Hrj & E). rewrite (fixed_identity t rows i Hr Hi), <- list_lookup_fmap in Hri.
  rewrite (fixed_identity t rows j Hr Hj), <- list_lookup_fmap in Hrj. eapply NoDup_lookup; [apply (br_distinct t rows Hr)|exact Hri|].
  cbn in E. by subst r'.
Qed.

(** [remove_slot(i)] is [remove(&identities[i])] while the identities are distinct. *)
Lemma remove_slot_is_remove (slots : list Z) (ids : list IdentityHash) n i id :
  represents EMPTY slots ids n → distinct_keys ids n → i < n → ids !! i = Some id →
  LemireIndex.remove_slot EMPTY slots i ids = LemireIndex.remove EMPTY slots id ids.
Proof.
  intros Hrep Hd Hi Hid. unfold LemireIndex.remove, LemireIndex.remove_slot. pose proof (represents_unique _ _ _ _ Hrep Hd) as Hu.
  destruct Hrep as [Hwf Hidx]. pose proof (position_of_row EMPTY slots ids i id Hwf Hu (proj2 (Hidx i) Hi) Hid) as E. cbn [index_key hash_row] in E. by rewrite E.
Qed.

Lemma blackholes_room : blackholes_indexable (CAPACITY := CAPACITY) (INDEX_BUCKETS := INDEX_BUCKETS) → 0 < INDEX_BUCKETS ∧ (0 < CAPACITY → CAPACITY < INDEX_BUCKETS).
Proof.
  intros [Hb Hn]. change u16_max with 65535%Z in Hn.
  unfold blackhole_index_buckets, buckets_for_two_thirds_load, saturating_add, div_ceil, max_width in Hb.
  destruct (Z.eqb_spec (Z.of_nat CAPACITY) 0); [lia|].
  pose proof (Z.div_mod (Z.of_nat CAPACITY + 2 - 1) 2 ltac:(lia)).
  pose proof (Z.mod_pos_bound (Z.of_nat CAPACITY + 2 - 1) 2 ltac:(lia)). lia.
Qed.

Lemma fixed_blackhole_push_ok t rows e :
  fixed_blackholes_rep t rows → bi_identity e ∉ bi_identity <$> rows → length rows < CAPACITY →
  (∀ r, bi_reason e = Some r → length r ≤ REASON_BYTES) →
  ∃ t', fixed_blackhole_push t e = Done (Ok (), t') ∧ fixed_blackholes_rep t' (rows ++ [e]).
Proof.
  intros Hr Hnew Hroom Hshort. destruct (fixed_blackholes_len t rows Hr) as [Hl _]. pose proof Hr as [Ha H1 H2 H3 H4 H5 H6 H7 H8].
  unfold fixed_blackhole_push. rewrite (proj2 (Nat.leb_gt _ _)) by lia.
  assert (E : match bi_reason e with
              | Some reason => match hs_try_from REASON_BYTES reason with Some r => Ok (Some r) | None => Err ReasonTooLong end
              | None => Ok None
              end = Ok (bi_reason e)).
  { destruct (bi_reason e) as [r|]; [|done]. by rewrite hs_room, decide_True by (by apply Hshort). }
  rewrite E. clear E.
  assert (Hlt : fb_len t < CAPACITY) by lia.
  step_column (column_push CAPACITY _ _ _ (bi_identity e) H1 Hlt). step_column (column_push CAPACITY _ _ _ (bi_source e) H2 Hlt).
  step_column (column_push CAPACITY _ _ _ (bi_expiry e) H3 Hlt). step_column (column_push CAPACITY _ _ _ (bi_reason e) H4 Hlt).
  destruct (blackholes_room Ha) as [_ Hb]. specialize (Hb ltac:(lia)). pose proof Ha as [_ Ha2]. change u16_max with 65535%Z in Ha2.
  assert (Hsame : ∀ j x, (bi_identity <$> rows ++ [e]) !! j = Some x → c !! j = Some x).
  { intros j x Hx. apply (column_lookup _ _ _ _ j x Hc). by rewrite fmap_app in Hx. }
  rewrite Hl in *. destruct (represents_push EMPTY WIDTH (fb_index t) (fb_identities t) c (length rows) (bi_identity e))
    as (ix & -> & Hlen & Hx'); try done; try (change EMPTY with 65535%Z; lia).
  - apply hashes_keys_ok.
  - intros j Hj. rewrite (fixed_identity t rows j Hr Hj). destruct (lookup_lt_is_Some_2 rows j Hj) as [x Hx]. rewrite Hx. cbn.
    apply Hsame. rewrite list_lookup_fmap, lookup_app_l by done. by rewrite Hx.
  - apply Hsame. rewrite list_lookup_fmap, lookup_app_r, Nat.sub_diag by done. done.
  - cbn [mbind run_bind]. eexists. split; [done|]. rewrite Nat.add_1_r.
    split; cbn; rewrite ?fmap_app, ?length_app; cbn; rewrite ?Nat.add_1_r; try done; [|lia|by apply NoDup_snoc].
    apply Forall_app. split; [done|]. by constructor.
Qed.

Lemma column_cleared {A} n (col live : list A) x : column CAPACITY n col live → column CAPACITY n (<[n := x]> col) live.
Proof. intros (Hl & Hn & <-). split; [by rewrite length_insert|]. split; [done|]. by rewrite take_insert_ge. Qed.

Lemma take_last_column last (col : list (option (list Z))) live i :
  column CAPACITY (S last) col live → i < last →
  ∃ col', take_last col i last = Done col' ∧ column CAPACITY last col' (swap_removed live i).
Proof.
  intros Hc Hi. pose proof Hc as (Hl & Hn & _). destruct (column_swap_remove CAPACITY last col live i Hc ltac:(lia)) as (col1 & E & Hc1).
  unfold move_last in E. destruct (lookup_lt_is_Some_2 col last) as [x Hx]; [lia|]. unfold take_last. rewrite (index_lookup _ _ _ Hx) in E |- *.
  cbn [mbind run_bind] in E |- *. rewrite store_done in E by lia. injection E as <-. rewrite (store_done col) by lia. cbn [mbind run_bind].
  rewrite store_done by (rewrite length_insert; lia). eexists. split; [done|]. rewrite list_insert_insert_ne by lia. by apply column_cleared.
Qed.

(** The index after a row is gone. *)
Lemma fixed_index_removed t rows i last (ids : list IdentityHash) :
  fixed_blackholes_rep t rows → length rows = S last → i ≤ last → column CAPACITY last ids (bi_identity <$> swap_removed rows i) →
  ∃ ix1 ix2 moved, fb_identities t !! last = Some moved ∧ LemireIndex.remove_slot EMPTY (fb_index t) i (fb_identities t) = Done ix1
    ∧ (if (i =? last)%nat then Done ix1 else LemireIndex.repoint EMPTY WIDTH ix1 moved i (fb_identities t)) = Done ix2
    ∧ length ix2 = INDEX_BUCKETS ∧ represents EMPTY ix2 ids last.
Proof.
  intros Hr Hl Hi Hids. destruct (fixed_blackholes_len t rows Hr) as [_ Hmax]. pose proof (fixed_identities_distinct t rows Hr) as Hd.
  pose proof Hr as [Ha _ _ _ _ _ H6 H7 H8]. pose proof Ha as [_ Ha2]. change u16_max with 65535%Z in Ha2.
  destruct (lookup_lt_is_Some_2 rows i) as [e He]; [lia|]. destruct (lookup_lt_is_Some_2 rows last) as [el Hel]; [lia|].
  assert (Ei := fixed_identity t rows i Hr ltac:(lia)). assert (El := fixed_identity t rows last Hr ltac:(lia)). rewrite He in Ei. rewrite Hel in El. cbn in Ei, El.
  assert (Hlen : length (swap_removed rows i) = last) by (rewrite length_swap_removed; lia).
  assert (Hnew : ∀ j, j < last → ids !! j = fb_identities t !! (if decide (j = i) then last else j)).
  { intros j Hj. destruct (lookup_lt_is_Some_2 (swap_removed rows i) j) as [x Hx]; [lia|].
    rewrite (column_lookup _ _ _ _ j (bi_identity x) Hids) by (by rewrite list_lookup_fmap, Hx). rewrite lookup_swap_removed in Hx by lia.
    replace (length rows - 1) with last in Hx by lia. rewrite (fixed_identity t rows _ Hr) by (case_decide; lia). by rewrite Hx. }
  rewrite Hl in H7, Hd. rewrite (remove_slot_is_remove _ _ (S last) i (bi_identity e) H7 Hd ltac:(lia) Ei).
  destruct (represents_swap_remove EMPTY WIDTH (fb_index t) (fb_identities t) ids last i (bi_identity e) (bi_identity el))
    as (ix1 & ix2 & E1 & E2 & Hlen2 & Hrep); try done.
  - change EMPTY with 65535%Z. change (2 ^ WIDTH)%Z with 65536%Z. lia.
  - apply hashes_keys_ok.
  - intros j Hj Hne. rewrite Hnew by lia. by rewrite decide_False.
  - intros Hil. rewrite Hnew by lia. by rewrite decide_True.
  - cbn [index_key hash_row] in E1, E2. exists ix1, ix2, (bi_identity el). split; [done|]. split; [done|]. split; [done|]. split; [lia|done].
Qed.

Lemma fixed_blackhole_swap_remove_ok t rows i :
  fixed_blackholes_rep t rows → i < length rows →
  ∃ t', fixed_blackhole_swap_remove t i = Done t' ∧ fixed_blackholes_rep t' (swap_removed rows i).
Proof.
  intros Hr Hi. destruct (fixed_blackholes_len t rows Hr) as [Hl Hmax]. pose proof Hr as [Ha H1 H2 H3 H4 H5 H6 H7 H8].
  unfold fixed_blackhole_swap_remove. destruct (fb_len t) as [|last] eqn:El; [lia|]. cbn [mbind run_bind].
  assert (Hlen : length (swap_removed rows i) = last) by (rewrite length_swap_removed; lia).
  assert (Hnd : NoDup (bi_identity <$> swap_removed rows i)).
  { destruct (lookup_lt_is_Some_2 rows i Hi) as [e He]. eapply submseteq_NoDup; [exact H8|]. apply fmap_submseteq. by eapply swap_removed_sub. }
  assert (Hshort : Forall (λ e, ∀ r, bi_reason e = Some r → length r ≤ REASON_BYTES) (swap_removed rows i)).
  { destruct (lookup_lt_is_Some_2 rows i Hi) as [e He]. rewrite list.Forall_forall in H5 |- *. intros x Hx. apply H5.
    rewrite <- (swap_removed_perm rows i e He). by right. }
  destruct (Nat.eqb_spec i last) as [->|Hne]; cbn [negb].
  - apply column_pop in H1. apply column_pop in H2. apply column_pop in H3. apply column_pop in H4. rewrite <- fmap_swap_removed in H1. rewrite <- fmap_swap_removed in H2.
    rewrite <- fmap_swap_removed in H3. rewrite <- fmap_swap_removed in H4.
    destruct (fixed_index_removed t rows last last (fb_identities t) Hr ltac:(lia) ltac:(lia) H1) as (ix1 & ix2 & moved & _ & -> & E2 & Hlen2 & Hrep).
    rewrite Nat.eqb_refl in E2. injection E2 as ->. cbn [mbind run_bind]. destruct H4 as (Hrl & Hrn & Hrt). rewrite store_done by lia. cbn [mbind run_bind].
    eexists. split; [done|]. split; cbn; try done. { by apply column_cleared. } by rewrite Hlen.
  - destruct (column_swap_remove CAPACITY last _ _ i H1 ltac:(lia)) as (ids & E1' & C1). rewrite <- fmap_swap_removed in C1.
    destruct (fixed_index_removed t rows i last ids Hr ltac:(lia) ltac:(lia) C1) as (ix1 & ix2 & moved & Hm & -> & E2 & Hlen2 & Hrep).
    rewrite (proj2 (Nat.eqb_neq _ _) Hne) in E2. cbn [mbind run_bind]. rewrite (index_lookup _ _ _ Hm). cbn [mbind run_bind]. rewrite E2. cbn [mbind run_bind].
    rewrite E1'. cbn [mbind run_bind]. step_column (column_swap_remove CAPACITY last _ _ i H2 ltac:(lia)).
    step_column (column_swap_remove CAPACITY last _ _ i H3 ltac:(lia)). step_column (take_last_column last _ _ i H4 ltac:(lia)).
    rewrite <- fmap_swap_removed in Hc. rewrite <- fmap_swap_removed in Hc0. rewrite <- fmap_swap_removed in Hc1.
    eexists. split; [done|]. split; cbn; try done. by rewrite Hlen.
Qed.

#[global] Instance fixed_blackholes_laws : BlackholeTableLaws table.
Proof.
  refine {| bt_limits := Some (CAPACITY, REASON_BYTES); bt_rep := fixed_blackholes_rep |}.
  - intros t rows Hr. split; [apply Hr|]. destruct (fixed_blackholes_len t rows Hr). split; [done|]. intros n k [= <- <-]. split; [done|apply Hr].
  - intros t rows Hr. pose proof Hr as [Ha H1 H2 H3 H4 _ _ _ _]. cbn. split; [by eapply column_slice|]. split; [by eapply column_slice|].
    split; [by eapply column_slice|]. intros i e He. apply index_lookup. apply (column_lookup _ _ _ _ i _ H4). by rewrite list_lookup_fmap, He.
  - intros t rows id Hr. cbn. destruct (represents_get EMPTY (fb_index t) (fb_identities t) (length rows) id (br_index t rows Hr) (lemire_key_u64 id))
      as ([i|] & E & Hi).
    + left. destruct Hi as (Hi & r & Hri & <-). rewrite (fixed_identity t rows i Hr Hi) in Hri. apply fmap_Some in Hri as (e & He & ->). by exists i, e.
    + right. split; [done|]. intros [i Hin]%list_elem_of_lookup. rewrite list_lookup_fmap in Hin. apply fmap_Some in Hin as (e & He & ->).
      pose proof (lookup_lt_Some _ _ _ He) as Hlt. apply (Hi i). split; [done|]. exists (bi_identity e). by rewrite (fixed_identity t rows i Hr Hlt), He.
  - intros t rows e Hr Hnew _. cbn. destruct (fixed_blackholes_len t rows Hr) as [Hl Hmax].
    destruct (decide (length rows < CAPACITY)) as [Hroom|Hfull].
    2:{ right. exists TableFull. unfold fixed_blackhole_push. rewrite (proj2 (Nat.leb_le _ _)) by lia. split; [done|]. exists REASON_BYTES.
        cbn. do 2 f_equal. lia. }
    destruct (bi_reason e) as [r|] eqn:Er; [destruct (decide (length r ≤ REASON_BYTES)) as [Hs|Hlong]|].
    + left. apply fixed_blackhole_push_ok; [done..|]. rewrite Er. by intros r' [= <-].
    + right. exists ReasonTooLong. unfold fixed_blackhole_push. rewrite (proj2 (Nat.leb_gt _ _)) by lia. rewrite Er, hs_room, decide_False by done.
      split; [done|]. exists CAPACITY, REASON_BYTES, r. split; [done|]. split; [done|]. split; [done|lia].
    + left. apply fixed_blackhole_push_ok; [done..|]. by rewrite Er.
  - intros t rows i Hr Hi _. by apply fixed_blackhole_swap_remove_ok.
Defined.

Lemma fixed_blackholes_new : blackholes_indexable (CAPACITY := CAPACITY) (INDEX_BUCKETS := INDEX_BUCKETS) →
  bt_rep (fixed_blackholes_default : table) [].
Proof.
  intros Ha. destruct (blackholes_room Ha) as [Hpos _]. split; cbn; try done; try apply column_new; try apply length_replicate.
  - apply represents_new; [done|apply hashes_keys_ok].
  - constructor.
Qed.
End fixed_laws.

(** ** The growing columns keep it *)

Record heap_blackholes_rep (t : HeapBlackholeTable) (rows : list BlackholedIdentity) : Prop := {
  hbr_identities : hb_identities t = bi_identity <$> rows;
  hbr_sources : hb_sources t = bi_source <$> rows;
  hbr_expiries : hb_expiries t = bi_expiry <$> rows;
  hbr_reasons : hb_reasons t = bi_reason <$> rows;
  hbr_index : LemireIndex.Heap.heap_rep (hb_index t) (hb_identities t);
  hbr_distinct : NoDup (hb_identities t);
}.

#[global] Instance heap_blackholes_laws : BlackholeTableLaws HeapBlackholeTable.
Proof.
  refine {| bt_limits := None; bt_rep := heap_blackholes_rep |}.
  - intros t rows [H1 _ _ _ _ H6]. cbn. rewrite H1 in *. split; [done|]. by rewrite length_fmap.
  - intros t rows [H1 H2 H3 H4 _ _]. cbn. rewrite H1, H2, H3. do 3 (split; [done|]). intros i e He. apply index_lookup. by rewrite H4, list_lookup_fmap, He.
  - intros t rows id [H1 _ _ _ H5 _]. cbn. destruct (heap_get_ids _ _ id H5) as [(i & E & Hi)|[E Hno]].
    + left. rewrite H1, list_lookup_fmap in Hi. apply fmap_Some in Hi as (e & He & ->). by exists i, e.
    + right. rewrite H1 in Hno. done.
  - intros t rows e [H1 H2 H3 H4 H5 H6] Hnew Hroom. cbn. left. unfold heap_blackhole_push.
    assert (Hl : length (hb_identities t) = length rows) by (by rewrite H1, length_fmap).
    destruct (heap_index_push _ _ (bi_identity e) H5) as (ix & -> & Hix); [by rewrite Hl|]. cbn [mbind run_bind]. eexists. split; [done|].
    split; cbn; rewrite ?fmap_app, ?H1, ?H2, ?H3, ?H4 in *; try done. by apply NoDup_snoc.
  - intros t rows i [H1 H2 H3 H4 H5 H6] Hi Hmax. cbn. unfold heap_blackhole_swap_remove.
    assert (Hl : length (hb_identities t) = length rows) by (by rewrite H1, length_fmap). rewrite (proj2 (Nat.leb_gt _ _)) by lia.
    destruct (heap_index_swap _ _ i H5) as (ix1 & ix2 & -> & E2 & Hix); [lia|lia|]. cbn [mbind run_bind]. rewrite E2. cbn [mbind run_bind].
    rewrite H2, H3, H4. rewrite !vec_swap_remove_done by (by rewrite ?Hl, ?length_fmap). cbn [mbind run_bind]. eexists. split; [done|].
    split; cbn; try (by rewrite ?H1, fmap_swap_removed); [done|].
    destruct (lookup_lt_is_Some_2 rows i Hi) as [e He]. eapply submseteq_NoDup; [exact H6|].
    apply (swap_removed_sub _ i (bi_identity e)). by rewrite H1, list_lookup_fmap, He.
Defined.

Lemma heap_blackholes_new : bt_rep heap_blackholes_default [].
Proof. split; cbn; try done; [apply heap_index_new|constructor]. Qed.

(** ** What [IdentityBlackholes] promises *)

Inductive blackhole_op := Hole (entry : BlackholedIdentity) | Unhole (identity : IdentityHash) | Cull (now : Z) | Ask (identity : IdentityHash).
Inductive blackhole_out :=
  | HoleOut (outcome : result BlackholeInsertFailure BlackholeIdentityOutcome)
  | UnholeOut (outcome : UnblackholeIdentityOutcome)
  | CullOut (removed : nat)
  | AskOut (present : bool).
Abbreviation Holes := (gmap IdentityHash BlackholedIdentity).
Abbreviation expired now := (λ ie : IdentityHash * BlackholedIdentity, is_expired_at (bi_expiry ie.2) now = true).

(** Why a newcomer is refused. *)
Definition refusal (limits : option (nat * nat)) (held : nat) (entry : BlackholedIdentity) : option BlackholeInsertFailure :=
  match limits with
  | None => None
  | Some (n, k) =>
      if (n <=? held)%nat then Some CapacityExhausted else
      match bi_reason entry with
      | Some r => if (k <? length r)%nat then Some ReasonTooLongFailure else None
      | None => None
      end
  end.

Definition holes_step (limits : option (nat * nat)) (m : Holes) (op : blackhole_op) : blackhole_out * Holes :=
  match op with
  | Hole e =>
      match m !! bi_identity e with
      | Some _ => (HoleOut (Ok AlreadyPresent), m)
      | None =>
          match refusal limits (size m) e with
          | Some failure => (HoleOut (Err failure), m)
          | None => (HoleOut (Ok Added), <[bi_identity e := e]> m)
          end
      end
  | Unhole id => match m !! id with Some _ => (UnholeOut Removed, delete id m) | None => (UnholeOut NotFound, m) end
  | Cull now => (CullOut (size (filter (expired now) m)), filter (λ ie, ¬ expired now ie) m)
  | Ask id => (AskOut (bool_decide (is_Some (m !! id))), m)
  end.

Fixpoint holes_run (limits : option (nat * nat)) (m : Holes) (ops : list blackhole_op) : list blackhole_out * Holes :=
  match ops with
  | [] => ([], m)
  | op :: ops => let r := holes_step limits m op in let rest := holes_run limits r.2 ops in (r.1 :: rest.1, rest.2)
  end.

Section refinement.
Context {T : Type} `{BlackholeTableLaws T}.
Implicit Types (t : T) (rows : list BlackholedIdentity).

Definition blackhole_do t (op : blackhole_op) : run (blackhole_out * T) :=
  match op with
  | Hole e =>
      '(out, t) ← blackhole_identity t e;
      Done (HoleOut (match out with Ok o => Ok o | Err e => Err (classify_insert_error e) end), t)
  | Unhole id => '(out, t) ← unblackhole_identity t id; Done (UnholeOut out, t)
  | Cull now => '(n, t) ← cull_expired t now; Done (CullOut n, t)
  | Ask id => b ← is_blackholed t id; Done (AskOut b, t)
  end.

Fixpoint blackhole_ops t (ops : list blackhole_op) : run (list blackhole_out * T) :=
  match ops with
  | [] => Done ([], t)
  | op :: ops => '(out, t) ← blackhole_do t op; '(outs, t) ← blackhole_ops t ops; Done (out :: outs, t)
  end.

Abbreviation holes rows := (entries bi_identity rows).

Lemma cull_loop_ok fuel t rows i removed now :
  bt_rep t rows → (Z.of_nat (length rows) ≤ u32_max)%Z → i ≤ length rows → length rows - i < fuel →
  ∃ t', cull_expired_loop fuel t removed i now
      = Done (removed + length (sweep (λ e, is_expired_at (bi_expiry e) now) fuel i rows).2, t')
    ∧ bt_rep t' (sweep (λ e, is_expired_at (bi_expiry e) now) fuel i rows).1.
Proof.
  revert t rows i removed. induction fuel as [|fuel IH]; intros t rows i removed Hr Hmax Hi Hf; [lia|]. cbn [cull_expired_loop sweep].
  destruct (bt_rep_ok t rows Hr) as (_ & -> & _). destruct (bt_columns_ok t rows Hr) as (_ & _ & Ee & _).
  destruct (Nat.ltb_spec i (length rows)) as [Hlt|Hge].
  - destruct (lookup_lt_is_Some_2 rows i Hlt) as [e He]. rewrite Ee, He. cbn [mbind run_bind].
    rewrite (index_lookup _ i (bi_expiry e)) by (by rewrite list_lookup_fmap, He). cbn [mbind run_bind].
    destruct (is_expired_at (bi_expiry e) now); [|rewrite Nat.add_1_r; apply IH; [done|done|lia|lia]].
    destruct (bt_swap_remove_ok t rows i Hr Hlt Hmax) as (t1 & -> & Hr1). cbn [mbind run_bind].
    pose proof (length_swap_removed rows i Hlt) as Hl. destruct (IH t1 _ i (removed + 1) Hr1) as (t2 & -> & Hr2); [lia|lia|lia|].
    cbn [fst snd length]. exists t2. split; [|done]. do 2 f_equal. lia.
  - rewrite lookup_ge_None_2 by lia. cbn. rewrite Nat.add_0_r. by exists t.
Qed.

(** The rows swept, as a map. *)
Lemma holes_filter rows kept (P : BlackholedIdentity → Prop) `{∀ e, Decision (P e)} :
  NoDup (bi_identity <$> rows) → kept ≡ₚ filter P rows → holes kept = filter (λ ie, P ie.2) (holes rows) ∧ NoDup (bi_identity <$> kept).
Proof.
  intros Hnd Hp. assert (E : ∀ l : list BlackholedIdentity, filter P l = omap (λ e, if decide (P e) then Some e else None) l).
  { induction l as [|e l IH]; [done|]. rewrite filter_cons. cbn. case_decide; by rewrite IH. }
  destruct (entries_omap bi_identity (λ e, if decide (P e) then Some e else None) rows kept Hnd) as [Em Hk].
  - intros e e'. case_decide; [|done]. by intros [= ->].
  - by rewrite <- E.
  - split; [|done]. rewrite Em. apply map_eq. intros id. apply option_eq. intros e. rewrite lookup_omap_Some, map_lookup_filter_Some. cbn. split.
    + intros (e' & Hd & He'). case_decide; [|done]. by injection Hd as ->.
    + intros [He HP]. exists e. by rewrite decide_True.
Qed.

Lemma holes_cull_ok t rows now :
  bt_rep t rows → (Z.of_nat (length rows) ≤ u32_max)%Z →
  ∃ t' rows', cull_expired t now = Done (size (filter (expired now) (holes rows)), t') ∧ bt_rep t' rows' ∧ length rows' ≤ length rows
    ∧ holes rows' = filter (λ ie, ¬ expired now ie) (holes rows).
Proof.
  intros Hr Hmax. unfold cull_expired. destruct (bt_rep_ok t rows Hr) as (Hnd & El & _).
  destruct (cull_loop_ok (S (bt_len t)) t rows 0 0 now Hr Hmax) as (t' & E & Hr'); [lia|lia|]. rewrite E. rewrite El in *. clear E.
  destruct (sweep_all (λ e, is_expired_at (bi_expiry e) now) rows) as [Hkept Hgone]. revert Hr' Hkept Hgone.
  destruct (sweep _ (S (length rows)) 0 rows) as [kept gone]. cbn [fst snd]. intros Hr' Hkept Hgone.
  destruct (holes_filter rows gone (λ e, is_expired_at (bi_expiry e) now = true) Hnd Hgone) as [Eg Hg].
  assert (Hkept' : kept ≡ₚ filter (λ e, ¬ (is_expired_at (bi_expiry e) now = true)) rows).
  { rewrite Hkept. erewrite list_filter_iff; [done|]. intros e. by rewrite not_true_iff_false. }
  destruct (holes_filter rows kept (λ e, ¬ (is_expired_at (bi_expiry e) now = true)) Hnd Hkept') as [Ek _].
  exists t', kept. split; [|split; [done|split; [|done]]].
  - cbn [Nat.add]. do 2 f_equal. rewrite <- Eg. symmetry. by apply entries_size.
  - rewrite <- (filter_split (λ e, is_expired_at (bi_expiry e) now) rows), length_app, <- Hkept. lia.
Qed.

Lemma blackhole_does t rows op :
  bt_rep t rows → (Z.of_nat (length rows) < u32_max)%Z →
  ∃ t' rows', blackhole_do t op = Done ((holes_step bt_limits (holes rows) op).1, t') ∧ bt_rep t' rows' ∧ length rows' ≤ S (length rows)
    ∧ holes rows' = (holes_step bt_limits (holes rows) op).2.
Proof.
  intros Hr Hmax. destruct (bt_rep_ok t rows Hr) as (Hnd & El & Hlim). destruct op as [e|id|now|id]; cbn [blackhole_do holes_step].
  - unfold blackhole_identity, is_blackholed. destruct (bt_index_ok t rows (bi_identity e) Hr) as [(i & e' & -> & He' & Hid)|[-> Hno]]; cbn [mbind run_bind].
    + rewrite bool_decide_true by done. cbn. assert (Hin : holes rows !! bi_identity e = Some e').
      { rewrite <- Hid. apply entries_some; [done|]. by eapply list_elem_of_lookup_2. }
      rewrite Hin. exists t, rows. cbn. split; [done|]. split; [done|]. split; [lia|done].
    + rewrite bool_decide_false by (by intros []). cbn. rewrite (proj1 (entries_none bi_identity rows _) Hno), (entries_size bi_identity rows Hnd).
      destruct (bt_push_ok t rows e Hr Hno Hmax) as [(t' & -> & Hr')|(error & -> & Hwhy)]; cbn [mbind run_bind].
      * assert (refusal bt_limits (length rows) e = None) as ->.
        { destruct (bt_rep_ok t' _ Hr') as (_ & _ & Hlim'). unfold refusal. destruct bt_limits as [[n k]|]; [|done].
          destruct (Hlim' n k eq_refl) as [Hn Hk]. rewrite length_app in Hn. cbn in Hn. rewrite (proj2 (Nat.leb_gt _ _)) by lia.
          destruct (bi_reason e) as [r|] eqn:Er; [|done]. apply Forall_app in Hk as [_ Hk]. inversion Hk as [|? ? Hke _]; subst.
          by rewrite (proj2 (Nat.ltb_ge _ _)) by (by apply Hke). }
        cbn. exists t', (rows ++ [e]). split; [done|]. split; [done|]. split; [rewrite length_app; cbn; lia|]. by apply entries_snoc.
      * assert (refusal bt_limits (length rows) e = Some (classify_insert_error error)) as ->.
        { unfold refusal. destruct (classify_insert_error error).
          - destruct Hwhy as [k ->]. by rewrite (proj2 (Nat.leb_le _ _)) by lia.
          - destruct Hwhy as (n & k & r & -> & Hn & -> & Hk). rewrite (proj2 (Nat.leb_gt _ _)) by lia. by rewrite (proj2 (Nat.ltb_lt _ _)) by lia. }
        cbn. exists t, rows. split; [done|]. split; [done|]. split; [lia|done].
  - unfold unblackhole_identity. destruct (bt_index_ok t rows id Hr) as [(i & e & -> & He & <-)|[-> Hno]]; cbn [mbind run_bind].
    + rewrite (entries_some bi_identity rows e Hnd) by (by eapply list_elem_of_lookup_2). cbn.
      pose proof (lookup_lt_Some _ _ _ He) as Hi. destruct (bt_swap_remove_ok t rows i Hr Hi ltac:(lia)) as (t' & -> & Hr'). cbn [mbind run_bind].
      exists t', (swap_removed rows i). split; [done|]. split; [done|]. split; [rewrite length_swap_removed by done; lia|].
      by apply (entries_removed bi_identity rows i e).
    + rewrite (proj1 (entries_none bi_identity rows _) Hno). exists t, rows. split; [done|]. split; [done|]. split; [lia|done].
  - destruct (holes_cull_ok t rows now Hr ltac:(lia)) as (t' & rows' & -> & Hr' & Hl & Em). cbn. exists t', rows'. split; [done|]. split; [done|]. split; [lia|done].
  - unfold is_blackholed. exists t, rows. destruct (bt_index_ok t rows id Hr) as [(i & e & -> & He & <-)|[-> Hno]]; cbn [mbind run_bind].
    + rewrite (entries_some bi_identity rows e Hnd) by (by eapply list_elem_of_lookup_2). split; [done|]. split; [done|]. split; [lia|done].
    + rewrite (proj1 (entries_none bi_identity rows _) Hno). split; [done|]. split; [done|]. split; [lia|done].
Qed.

Lemma blackhole_runs t rows ops :
  bt_rep t rows → (Z.of_nat (length rows + length ops) ≤ u32_max)%Z →
  ∃ t' rows', blackhole_ops t ops = Done ((holes_run bt_limits (holes rows) ops).1, t') ∧ bt_rep t' rows'
    ∧ holes rows' = (holes_run bt_limits (holes rows) ops).2.
Proof.
  revert t rows. induction ops as [|op ops IH]; intros t rows Hr Hmax; cbn [blackhole_ops holes_run fst snd].
  - by exists t, rows.
  - cbn [length] in Hmax. destruct (blackhole_does t rows op Hr ltac:(lia)) as (t1 & rows1 & -> & Hr1 & Hl1 & E1). cbn [mbind run_bind].
    destruct (IH t1 rows1 Hr1 ltac:(lia)) as (t2 & rows2 & -> & Hr2 & E2). cbn [mbind run_bind]. exists t2, rows2. by rewrite <- E1.
Qed.

(** The earliest expiry is the first instant at which something is expired. *)
Lemma earliest_ok t rows :
  bt_rep t rows → ∃ best, earliest_expiry_at t = Done best
    ∧ ∀ now, is_u64 now → (∃ e, e ∈ rows ∧ is_expired_at (bi_expiry e) now = true) ↔ ∃ at_, best = Some at_ ∧ (at_ ≤ now)%Z.
Proof.
  intros Hr. unfold earliest_expiry_at. destruct (bt_columns_ok t rows Hr) as (_ & _ & -> & _). cbn [mbind run_bind]. eexists. split; [done|].
  intros now Hnow. clear Hr. induction rows as [|e rows IH]; cbn.
  { split; [by intros (e & ?%not_elem_of_nil & _)|by intros (a & [=] & _)]. }
  assert (Hfirst : is_expired_at (bi_expiry e) now = true ↔ ∃ a, first_expired_at (bi_expiry e) = Some a ∧ (a ≤ now)%Z).
  { destruct (bi_expiry e) as [|d]; cbn; [split; [done|by intros (a & [=] & _)]|]. rewrite Z.ltb_lt. destruct (Z.leb_spec (d + 1) u64_max).
    - split; [intros; exists (d + 1)%Z; split; [done|lia]|]. intros (a & [= <-] & ?). lia.
    - split; [width|by intros (a & [=] & _)]. }
  assert (Hsplit : (∃ x, x ∈ e :: rows ∧ is_expired_at (bi_expiry x) now = true)
    ↔ is_expired_at (bi_expiry e) now = true ∨ ∃ x, x ∈ rows ∧ is_expired_at (bi_expiry x) now = true).
  { setoid_rewrite elem_of_cons. split; [intros (x & [->|Hx] & ?); eauto|intros [?|(x & ? & ?)]; eauto]. }
  rewrite Hsplit, Hfirst, IH. clear. destruct (first_expired_at (bi_expiry e)) as [a|]; cbn; [|by split; [intros [(a & [=] & _)|?]|intros ?; right]].
  destruct (foldr _ None _) as [b|].
  - split; [|intros (c & [= <-] & Hc); destruct (Z.le_gt_cases a now); [left|right]; eexists; (split; [done|lia])].
    intros [(c & [= <-] & Hc)|(c & [= <-] & Hc)]; eexists; (split; [done|lia]).
  - split; [|intros (c & [= <-] & Hc); left; by exists a]. intros [(c & [= <-] & Hc)|(c & [=] & _)]. by exists a.
Qed.

Lemma entries_from_ok t rows n i :
  bt_rep t rows → i + n = length rows → entries_from t n i = Done (drop i rows).
Proof.
  intros Hr. destruct (bt_columns_ok t rows Hr) as (E1 & E2 & E3 & E4). revert i. induction n as [|n IH]; intros i Hn; cbn [entries_from].
  - by rewrite drop_ge by lia.
  - destruct (lookup_lt_is_Some_2 rows i) as [e He]; [lia|]. rewrite E1, E2, E3, (E4 i e He). cbn [mbind run_bind].
    rewrite (index_lookup (bi_identity <$> rows) i (bi_identity e)) by (by rewrite list_lookup_fmap, He). cbn [mbind run_bind].
    rewrite (index_lookup (bi_source <$> rows) i (bi_source e)) by (by rewrite list_lookup_fmap, He). cbn [mbind run_bind].
    rewrite (index_lookup (bi_expiry <$> rows) i (bi_expiry e)) by (by rewrite list_lookup_fmap, He). cbn [mbind run_bind].
    rewrite IH by lia. cbn [mbind run_bind]. rewrite (drop_S rows e i He). by destruct e.
Qed.
End refinement.

(** On any table: whatever is blackholed, taken off, culled and asked, every call returns what a finite map from
    identities would.  A second entry for an identity leaves the first; a newcomer is refused for want of room or for its
    reason only; a cull removes and counts exactly what has expired.  The entries listed are those of the map, and the
    earliest expiry is the first instant at which a cull has something to remove, if there is one before the end of time. *)
Theorem blackholes_as_a_map {T : Type} `{BlackholeTableLaws T} (t : T) rows ops :
  bt_rep t rows → (Z.of_nat (length rows + length ops) ≤ u32_max)%Z →
  ∃ t' rows', blackhole_ops t ops = Done ((holes_run bt_limits (entries bi_identity rows) ops).1, t') ∧ bt_rep t' rows'
    ∧ entries bi_identity rows' = (holes_run bt_limits (entries bi_identity rows) ops).2
    ∧ blackhole_entries t' = Done rows' ∧ NoDup (bi_identity <$> rows')
    ∧ ∃ best, earliest_expiry_at t' = Done best
      ∧ ∀ now, is_u64 now → (∃ e, e ∈ rows' ∧ is_expired_at (bi_expiry e) now = true) ↔ ∃ at_, best = Some at_ ∧ (at_ ≤ now)%Z.
Proof.
  intros Hr Hmax. destruct (blackhole_runs t rows ops Hr Hmax) as (t' & rows' & E & Hr' & Em). exists t', rows'.
  destruct (bt_rep_ok t' rows' Hr') as (Hnd & El & _). split; [done|]. split; [done|]. split; [done|].
  split; [unfold blackhole_entries; by rewrite El, (entries_from_ok t' rows' _ 0 Hr') by done|]. split; [done|]. by apply earliest_ok.
Qed.

(** The table of the unit tests: four identities, reasons of 16 bytes. *)
#[local] Instance bounded_string : HeaplessString := {| hs_try_from := λ cap bytes, if decide (length bytes ≤ cap) then Some bytes else None |}.
#[local] Instance bounded_string_laws : HeaplessStringLaws.
Proof. by split. Qed.
Definition four_holes : FixedBlackholeTable 4 8 16 := fixed_blackholes_default.
Definition hole_at (n : Z) (expiry : BlackholeExpiry) (reason : option (list Z)) : BlackholedIdentity := mkBlackholed (replicate 16 n) (replicate 16 9%Z) expiry reason.
Definition hole_calls : list blackhole_op :=
  [Hole (hole_at 1 (ExpiresAt 99) None); Hole (hole_at 1 Indefinite None); Hole (hole_at 2 (ExpiresAt 100) (Some [111; 112]%Z)); Hole (hole_at 3 Indefinite None);
   Hole (hole_at 4 Indefinite (Some (replicate 17 7%Z))); Cull 100; Ask (replicate 16 1%Z); Ask (replicate 16 2%Z); Unhole (replicate 16 1%Z)]%Z.

Lemma blackholes_as_a_map_sample :
  (holes_run (bt_limits (T := FixedBlackholeTable 4 8 16)) ∅ hole_calls).1
    = [HoleOut (Ok Added); HoleOut (Ok AlreadyPresent); HoleOut (Ok Added); HoleOut (Ok Added); HoleOut (Err ReasonTooLongFailure);
       CullOut 1; AskOut false; AskOut true; UnholeOut NotFound]
  ∧ ∃ t' rows', blackhole_ops four_holes hole_calls = Done ((holes_run (bt_limits (T := FixedBlackholeTable 4 8 16)) ∅ hole_calls).1, t')
    ∧ bt_rep t' rows' ∧ earliest_expiry_at t' = Done (Some 101%Z).
Proof.
  split; [by vm_compute|]. assert (Hnew : bt_rep four_holes []) by (apply fixed_blackholes_new; by split; vm_compute).
  destruct (blackholes_as_a_map four_holes [] hole_calls Hnew ltac:(by vm_compute)) as (t' & rows' & E & Hr & _). exists t', rows'.
  split; [exact E|]. split; [exact Hr|]. vm_compute in E. injection E as <-. by vm_compute.
Qed.
End Blackhole.

(** * The keys of groups: [group_keys/] *)

Module GroupKeys.
Inductive GroupKey := Aes128 (key : list Z) | Aes256 (key : list Z).
Inductive GroupKeyError := InvalidLength.

Definition group_key_from_slice (key : list Z) : result GroupKeyError GroupKey :=
  if (length key =? 32)%nat then Ok (Aes128 key) else if (length key =? 64)%nat then Ok (Aes256 key) else Err InvalidLength.
Definition group_key_as_slice (key : GroupKey) : list Z := match key with Aes128 k | Aes256 k => k end.
Definition group_key_default : GroupKey := Aes128 (replicate 32 0%Z).

Class GroupKeyTable (T : Type) := {
  gk_capacity : T → Z;
  gk_len : T → nat;
  gk_destinations : T → run (list DestinationHash);
  gk_keys : T → run (list GroupKey);
  gk_swap_remove : T → nat → run T;
  gk_upsert : T → DestinationHash → GroupKey → run (result TablePushError unit * T);
}.

Section operations.
Context {T : Type} `{GroupKeyTable T}.
Implicit Types (t : T).

Definition group_key_insert t (destination : DestinationHash) (key : GroupKey) := gk_upsert t destination key.
Definition group_keys_has_room t : bool := (Z.of_nat (gk_len t) <? gk_capacity t)%Z.
Definition group_key_for t (destination : DestinationHash) : run (option GroupKey) :=
  destinations ← gk_destinations t;
  match fst <$> list_find (λ candidate, candidate = destination) destinations with
  | None => Done None
  | Some slot => keys ← gk_keys t; Done (keys !! slot)
  end.
Definition group_key_remove t (destination : DestinationHash) : run T :=
  destinations ← gk_destinations t;
  match fst <$> list_find (λ candidate, candidate = destination) destinations with
  | None => Done t
  | Some slot => gk_swap_remove t slot
  end.
End operations.

(** [impls/fixed.rs] *)
Record FixedGroupKeyTable (MAX_GROUP_KEYS : nat) := mkFixedKeys { fg_len : nat; fg_destinations : list DestinationHash; fg_keys : list GroupKey }.
Arguments mkFixedKeys {_} _ _ _.
Arguments fg_len {_} _.
Arguments fg_destinations {_} _.
Arguments fg_keys {_} _.

Section fixed.
Context {MAX_GROUP_KEYS : nat}.
Abbreviation table := (FixedGroupKeyTable MAX_GROUP_KEYS).
Implicit Types (t : table).

Definition no_destination : DestinationHash := replicate 16 0%Z.
Definition fixed_keys_default : table := mkFixedKeys 0 (replicate MAX_GROUP_KEYS no_destination) (replicate MAX_GROUP_KEYS group_key_default).

Definition fixed_keys_swap_remove t (i : nat) : run table :=
  if (fg_len t <=? i)%nat then Done t else
  let last := fg_len t - 1 in
  destinations ← swap_at (fg_destinations t) i last;
  keys ← swap_at (fg_keys t) i last;
  destinations ← store destinations last no_destination;
  keys ← store keys last group_key_default;
  Done (mkFixedKeys (fg_len t - 1) destinations keys).

Definition fixed_keys_upsert t (destination : DestinationHash) (key : GroupKey) : run (result TablePushError unit * table) :=
  live ← slice (fg_destinations t) 0 (fg_len t);
  match fst <$> list_find (λ candidate, candidate = destination) live with
  | Some slot => keys ← store (fg_keys t) slot key; Done (Ok (), mkFixedKeys (fg_len t) (fg_destinations t) keys)
  | None =>
      if (MAX_GROUP_KEYS <=? fg_len t)%nat then Done (Err TableFull, t) else
      destinations ← store (fg_destinations t) (fg_len t) destination;
      keys ← store (fg_keys t) (fg_len t) key;
      Done (Ok (), mkFixedKeys (fg_len t + 1) destinations keys)
  end.

#[global] Instance fixed_group_keys : GroupKeyTable table := {|
  gk_capacity := λ _, Z.of_nat MAX_GROUP_KEYS;
  gk_len := fg_len;
  gk_destinations := λ t, slice (fg_destinations t) 0 (fg_len t);
  gk_keys := λ t, slice (fg_keys t) 0 (fg_len t);
  gk_swap_remove := fixed_keys_swap_remove;
  gk_upsert := fixed_keys_upsert;
|}.
End fixed.

(** [impls/heap.rs] *)
Record HeapGroupKeyTable := mkHeapKeys { hg_destinations : list DestinationHash; hg_keys : list GroupKey }.
Definition heap_keys_default : HeapGroupKeyTable := mkHeapKeys [] [].

Definition heap_keys_swap_remove (t : HeapGroupKeyTable) (i : nat) : run HeapGroupKeyTable :=
  if (length (hg_destinations t) <=? i)%nat then Done t else
  destinations ← vec_swap_remove (hg_destinations t) i;
  keys ← vec_swap_remove (hg_keys t) i;
  Done (mkHeapKeys destinations keys).

Definition heap_keys_upsert (t : HeapGroupKeyTable) (destination : DestinationHash) (key : GroupKey) :
    run (result TablePushError unit * HeapGroupKeyTable) :=
  match fst <$> list_find (λ candidate, candidate = destination) (hg_destinations t) with
  | Some slot => keys ← store (hg_keys t) slot key; Done (Ok (), mkHeapKeys (hg_destinations t) keys)
  | None => Done (Ok (), mkHeapKeys (hg_destinations t ++ [destination]) (hg_keys t ++ [key]))
  end.

#[global] Instance heap_group_keys : GroupKeyTable HeapGroupKeyTable := {|
  gk_capacity := λ _, usize_max;
  gk_len := λ t, length (hg_destinations t);
  gk_destinations := λ t, Done (hg_destinations t);
  gk_keys := λ t, Done (hg_keys t);
  gk_swap_remove := heap_keys_swap_remove;
  gk_upsert := heap_keys_upsert;
|}.

(** ** The contract, and that both tables keep it *)

Abbreviation KeyRow := (DestinationHash * GroupKey)%type.

Class GroupKeyLaws (T : Type) `{GroupKeyTable T} := {
  gk_limit : option nat;
  gk_rep : T → list KeyRow → Prop;
  gk_rep_ok : ∀ t rows, gk_rep t rows → NoDup rows.*1 ∧ gk_len t = length rows ∧ gk_destinations t = Done rows.*1 ∧ gk_keys t = Done rows.*2
    ∧ ∀ n, gk_limit = Some n → gk_capacity t = Z.of_nat n ∧ length rows ≤ n;
  gk_swap_remove_ok : ∀ t rows i, gk_rep t rows → i < length rows → ∃ t', gk_swap_remove t i = Done t' ∧ gk_rep t' (swap_removed rows i);
  gk_upsert_ok : ∀ t rows d k, gk_rep t rows →
    (∃ i k' t', rows !! i = Some (d, k') ∧ gk_upsert t d k = Done (Ok (), t') ∧ gk_rep t' (<[i := (d, k)]> rows))
    ∨ ((d ∉ rows.*1) ∧ ((∃ t', gk_upsert t d k = Done (Ok (), t') ∧ gk_rep t' (rows ++ [(d, k)]))
                      ∨ (gk_limit = Some (length rows) ∧ gk_upsert t d k = Done (Err TableFull, t))));
}.

Section fixed_laws.
Context {MAX_GROUP_KEYS : nat}.
Abbreviation table := (FixedGroupKeyTable MAX_GROUP_KEYS).
Implicit Types (t : table) (rows : list KeyRow).

Definition fixed_keys_rep t rows : Prop :=
  column MAX_GROUP_KEYS (fg_len t) (fg_destinations t) rows.*1 ∧ column MAX_GROUP_KEYS (fg_len t) (fg_keys t) rows.*2 ∧ NoDup rows.*1.

Lemma fixed_keys_len t rows : fixed_keys_rep t rows → fg_len t = length rows ∧ length rows ≤ MAX_GROUP_KEYS.
Proof.
  intros (H1 & _ & _). pose proof (column_length _ _ _ _ H1) as Hl. rewrite length_fmap in Hl. destruct H1 as (_ & Hle & _). lia.
Qed.

Lemma column_wiped {A} n (col live : list A) x : column MAX_GROUP_KEYS n col live → n < MAX_GROUP_KEYS →
  ∃ col', store col n x = Done col' ∧ column MAX_GROUP_KEYS n col' live.
Proof.
  intros (Hl & Hn & <-) Hlt. rewrite store_done by lia. eexists. split; [done|]. split; [by rewrite length_insert|]. split; [done|]. by rewrite take_insert_ge.
Qed.

Lemma nodup_swap_removed rows i : NoDup rows.*1 → i < length rows → NoDup (swap_removed rows i).*1.
Proof.
  intros Hnd Hi. destruct (lookup_lt_is_Some_2 rows i Hi) as [r Hr]. eapply submseteq_NoDup; [exact Hnd|]. apply fmap_submseteq. by eapply swap_removed_sub.
Qed.

Lemma nodup_overwritten rows i d k k' : NoDup rows.*1 → rows !! i = Some (d, k') → NoDup (<[i := (d, k)]> rows).*1.
Proof. intros Hnd Hi. rewrite list_fmap_insert. rewrite list_insert_id; [done|]. by rewrite list_lookup_fmap, Hi. Qed.

#[global] Instance fixed_group_key_laws : GroupKeyLaws table.
Proof.
  refine {| gk_limit := Some MAX_GROUP_KEYS; gk_rep := fixed_keys_rep |}.
  - intros t rows Hr. destruct (fixed_keys_len t rows Hr) as [Hl Hm]. destruct Hr as (H1 & H2 & H3). cbn. split; [done|]. split; [done|].
    split; [by eapply column_slice|]. split; [by eapply column_slice|]. by intros n [= <-].
  - intros t rows i Hr Hi. destruct (fixed_keys_len t rows Hr) as [Hl Hm]. destruct Hr as (H1 & H2 & H3). cbn. unfold fixed_keys_swap_remove.
    rewrite (proj2 (Nat.leb_gt _ _)) by lia. destruct (fg_len t) as [|last]; [lia|]. rewrite Nat.sub_1_r. cbn [Nat.pred].
    step_column (column_swap MAX_GROUP_KEYS last _ _ i H1 ltac:(lia)). step_column (column_swap MAX_GROUP_KEYS last _ _ i H2 ltac:(lia)).
    step_column (column_wiped last _ _ no_destination Hc ltac:(lia)). step_column (column_wiped last _ _ group_key_default Hc0 ltac:(lia)).
    rewrite <- fmap_swap_removed in Hc1. rewrite <- fmap_swap_removed in Hc2. eexists. split; [done|]. split; [done|]. split; [done|]. by apply nodup_swap_removed.
  - intros t rows d k Hr. destruct (fixed_keys_len t rows Hr) as [Hl Hm]. destruct Hr as (H1 & H2 & H3). cbn. unfold fixed_keys_upsert.
    rewrite (column_slice _ _ _ _ H1). cbn [mbind run_bind]. destruct (list_find_key fst rows d) as [(i & [d' k'] & -> & Hi & Hd)|[-> Hno]].
    + left. cbn in Hd. subst d'. exists i, k'. pose proof (lookup_lt_Some _ _ _ Hi) as Hlt. step_column (column_store _ _ _ _ i k H2 ltac:(lia)).
      eexists. split; [done|]. split; [done|].
      split; [cbn; by rewrite list_fmap_insert, list_insert_id by (by rewrite list_lookup_fmap, Hi)|]. split; [by rewrite list_fmap_insert|]. by eapply nodup_overwritten.
    + right. split; [done|]. destruct (Nat.leb_spec MAX_GROUP_KEYS (fg_len t)) as [Hfull|Hroom]; [right; split; [f_equal; lia|done]|left].
      step_column (column_push _ _ _ _ d H1 Hroom). step_column (column_push _ _ _ _ k H2 Hroom). eexists. split; [done|]. rewrite Nat.add_1_r.
      split; [cbn; by rewrite fmap_app|]. split; [cbn; by rewrite fmap_app|]. rewrite fmap_app. by apply NoDup_snoc.
Defined.
End fixed_laws.

Definition heap_keys_rep (t : HeapGroupKeyTable) (rows : list KeyRow) : Prop := hg_destinations t = rows.*1 ∧ hg_keys t = rows.*2 ∧ NoDup rows.*1.

#[global] Instance heap_group_key_laws : GroupKeyLaws HeapGroupKeyTable.
Proof.
  refine {| gk_limit := None; gk_rep := heap_keys_rep |}.
  - intros t rows (H1 & H2 & H3). cbn. rewrite H1, H2. split; [done|]. by rewrite length_fmap.
  - intros t rows i (H1 & H2 & H3) Hi. cbn. unfold heap_keys_swap_remove. rewrite H1, H2, length_fmap. rewrite (proj2 (Nat.leb_gt _ _)) by lia.
    rewrite !vec_swap_remove_done by (by rewrite length_fmap). cbn [mbind run_bind]. eexists. split; [done|].
    split; [cbn; by rewrite fmap_swap_removed|]. split; [cbn; by rewrite fmap_swap_removed|]. by apply nodup_swap_removed.
  - intros t rows d k (H1 & H2 & H3). cbn. unfold heap_keys_upsert. rewrite H1. destruct (list_find_key fst rows d) as [(i & [d' k'] & -> & Hi & Hd)|[-> Hno]].
    + left. cbn in Hd. subst d'. exists i, k'. pose proof (lookup_lt_Some _ _ _ Hi) as Hlt. rewrite H2, store_done by (by rewrite length_fmap).
      cbn [mbind run_bind]. eexists. split; [done|]. split; [done|].
      split; [cbn; by rewrite list_fmap_insert, list_insert_id by (by rewrite list_lookup_fmap, Hi)|]. split; [cbn; by rewrite list_fmap_insert|]. by eapply nodup_overwritten.
    + right. split; [done|]. left. eexists. split; [done|]. split; [cbn; by rewrite fmap_app|]. split; [cbn; by rewrite H2, fmap_app|].
      rewrite fmap_app. by apply NoDup_snoc.
Defined.

(** On any table the keys are a finite map from destinations: a key stored is the one found, replacing an older one; a
    new destination is refused only if the table is full, and then nothing changes; a removed one is not found. *)
Theorem group_keys_as_a_map {T : Type} `{GroupKeyLaws T} (t : T) rows d k :
  gk_rep t rows →
  (∀ d', group_key_for t d' = Done (snd <$> entries fst rows !! d'))
  ∧ (∃ t' rows', group_key_remove t d = Done t' ∧ gk_rep t' rows' ∧ entries fst rows' = delete d (entries fst rows))
  ∧ ((∃ t' rows', group_key_insert t d k = Done (Ok (), t') ∧ gk_rep t' rows' ∧ entries fst rows' = <[d := (d, k)]> (entries fst rows))
     ∨ (gk_limit = Some (length rows) ∧ entries fst rows !! d = None ∧ group_keys_has_room t = false ∧ group_key_insert t d k = Done (Err TableFull, t))).
Proof.
  intros Hr. destruct (gk_rep_ok t rows Hr) as (Hnd & Hl & Ed & Ek & Hlim). split; [|split].
  - intros d'. unfold group_key_for. rewrite Ed. cbn [mbind run_bind]. destruct (list_find_key fst rows d') as [(i & r & -> & Hi & <-)|[-> Hno]].
    + rewrite Ek. cbn [mbind run_bind]. rewrite (entries_some fst rows r Hnd) by (by eapply list_elem_of_lookup_2). by rewrite list_lookup_fmap, Hi.
    + by rewrite (proj1 (entries_none fst rows d') Hno).
  - unfold group_key_remove. rewrite Ed. cbn [mbind run_bind]. destruct (list_find_key fst rows d) as [(i & r & -> & Hi & <-)|[-> Hno]].
    + destruct (gk_swap_remove_ok t rows i Hr) as (t' & -> & Hr'); [by eapply lookup_lt_Some|]. exists t', (swap_removed rows i).
      split; [done|]. split; [done|]. by apply entries_removed.
    + exists t, rows. split; [done|]. split; [done|]. by rewrite delete_id by (by apply entries_none).
  - unfold group_key_insert. destruct (gk_upsert_ok t rows d k Hr) as [(i & k' & t' & Hi & -> & Hr')|[Hno [(t' & -> & Hr')|[Hfull ->]]]].
    + left. eexists _, _. split; [done|]. split; [done|]. by apply (entries_overwrite fst rows i (d, k') (d, k)).
    + left. eexists _, _. split; [done|]. split; [done|]. by apply entries_snoc.
    + right. split; [done|]. split; [by apply entries_none|]. split; [|done]. destruct (Hlim _ Hfull) as [Ec _]. unfold group_keys_has_room. rewrite Ec, Hl.
      apply Z.ltb_irrefl.
Qed.

Lemma group_keys_as_a_map_sample :
  ∃ t', group_key_insert (fixed_keys_default : FixedGroupKeyTable 1) [7]%Z (Aes128 [1]%Z) = Done (Ok (), t')
    ∧ group_key_for t' [7]%Z = Done (Some (Aes128 [1]%Z)) ∧ group_key_insert t' [8]%Z (Aes128 [2]%Z) = Done (Err TableFull, t').
Proof. eexists. split; [reflexivity|]. by split. Qed.

(** A key of a valid length is stored as it is, and no other length is a key. *)
Lemma group_key_roundtrip key :
  match group_key_from_slice key with
  | Ok k => group_key_as_slice k = key ∧ (length key = 32 ∨ length key = 64)
  | Err _ => length key ≠ 32 ∧ length key ≠ 64
  end.
Proof. unfold group_key_from_slice. destruct (Nat.eqb_spec (length key) 32); [by split; [|left]|]. by destruct (Nat.eqb_spec (length key) 64); [split; [|right]|]. Qed.
End GroupKeys.
